(* ===== verification/_CoqProject ===== *)
-Q . S2P
Prelude.v
Wire.v
Utf8.v
Codec.v
Protocol.v
Auth.v
RateLimiter.v
KeyStore.v
PacketLoss.v
FrameReassembler.v
VideoTransport.v
ExamSync.v
ExamControl.v
ExamTelemetry.v
ExamAuth.v
WakeOnLan.v
UrlValidation.v
ControlMessages.v
ClientRegistry.v
AnswerJournal.v
AnswerOutbox.v
Delivery.v
WfpAllowlist.v
ExamLockdown.v
OriginResolver.v
ControlChannel.v
Handshake.v
Json.v
PublicText.v
AuditLog.v
AuditUpload.v
Pairing.v
Enrollment.v
Discovery.v
DiscoveryRuns.v
ServerState.v
PairingServer.v
ServerConnection.v
ServerRuns.v
PairingRuns.v
PairingClient.v
PairingSession.v
ServerExams.v
ExamRuns.v
UpdateManifest.v
StagingRecord.v
UpdateStaging.v
ExamGrader.v
FileDistribution.v
FileReception.v
RemoteActions.v
FileTransfer.v
MaintenanceIntent.v
AgentProtocol.v
