(* ===== verification/Prelude.v ===== *)
(** Verification of NSTU, a classroom and exam management system for Windows
    (C++, under src/).

    * The program and its parts

    A teacher's server manages student clients over a local network.  A client
    opens a TCP connection, proves itself in a mutual handshake
    (client_handshake, server_handshake), and then exchanges numbered, protected
    commands over an AuthenticatedControlChannel.  The commands carry the
    messages of control_messages, exam_control, exam_sync and exam_telemetry.
    During an exam a client gates its network through the Windows Filtering
    Platform, queues every answer in an encrypted outbox before sending it, and
    the server appends every answer to a crash-safe journal before
    acknowledging it.  Teacher screens travel as authenticated UDP video
    fragments.

    * Files, in dependency order

    Prelude          bytes, machine integers, lists, finite maps in key order;
                     the tactics and hint databases used everywhere.
    Wire, Codec      little-endian reads and writes, the decoder monads, and the
                     class of exact codecs that every message type instantiates.
    Utf8             the three UTF-8 validators against one reference encoding.
    Protocol         common/src/protocol.cpp: headers, TCP frames, the parser.
    Auth             common/src/auth.cpp: proofs, tags, sequence guard, replay
                     protector.
    ControlChannel   common/src/control_channel.cpp: the HMAC and AES-GCM
                     envelopes behind one interface (Protection), sockets behind
                     another (Socket, SocketLaws), the channel.
    Handshake        the two handshakes of the same file, over those sockets.
    RateLimiter      common/src/rate_limiter.cpp.
    KeyStore         common/src/key_store.cpp and keyring.cpp.
    ExamSync, ExamControl, ExamTelemetry, ExamAuth, ControlMessages, WakeOnLan
                     the message codecs of the sources of the same names, and the
                     instructor tickets of exam_auth.cpp.
    AnswerOutbox, AnswerJournal
                     the two classes of common/src/answer_journal.cpp: the
                     client's queue of unacknowledged answers and the server's
                     append-only journal.
    Delivery         the server's answer handler (server/src/control_plane.cpp) and
                     the client's acknowledgement handler (client/service/main.cpp)
                     composed with both, as runs of one system.
    ClientRegistry   server/src/client_registry.cpp, with the exam start gate.
    WfpAllowlist     common/src/wfp_allowlist.cpp: the firewall policy.
    ExamLockdown, OriginResolver
                     client/src/exam_lockdown_controller.cpp: when the policy is
                     in force, and which addresses it lets through.  The
                     controller is proved against an interface (FirewallSeam)
                     that WfpAllowlist implements, of which nothing is assumed:
                     what is followed is what the firewall was told.
    UrlValidation    common/src/url_validation.cpp.
    PacketLoss, FrameReassembler, VideoTransport
                     the video path: packet_loss.cpp, frame_reassembler.cpp and
                     video_transport.cpp.
    Json, UpdateManifest
                     the pieces the JSON readers share; signed update manifests
                     of common/src/update_manifest.cpp.
    StagingRecord, UpdateStaging
                     common/src/update_staging.cpp: the staging record's emitter
                     and strict reader; the controller, over a disk whose calls
                     fail, throw or stop the machine, and which a power loss
                     may damage.
    PublicText       common/src/telemetry.cpp: the filter of public text.
    AuditLog, AuditUpload
                     common/src/audit.cpp with the handlers of its two messages;
                     runs of a client, a server and a failing sink.
    Pairing, Enrollment, Discovery, DiscoveryRuns
                     common/src/pairing.cpp (messages, transcript, secrets, key
                     agreement), enrollment.cpp and discovery.cpp; what a client
                     that listens and probes comes to believe.
    ServerState, PairingServer, ServerConnection, ServerRuns, PairingRuns
                     server/src/control_plane.cpp: the state under its locks, the
                     pairing handlers, the stages of a connection and the command
                     dispatch; runs of them with interleaved operator calls.
    PairingClient, PairingSession
                     client/src/client_pairing.cpp: one exchange with a server,
                     with the student's and the operator's waits as scripts of
                     what the outside answers; both ends of a pairing composed.
    ServerExams, ExamRuns
                     the exams of control_plane.cpp: launch, start, begin, stop,
                     the evidence that authorizes them; runs of the whole server.
    ExamGrader       server/src/exam_grader.cpp: answer keys, grading, reviews.
    FileDistribution, FileReception, RemoteActions, FileTransfer
                     common/src/file_distribution.cpp; the client's receive session
                     (client/service/main.cpp) over a file system whose calls fail;
                     the operator's roles and remote actions of control_plane.cpp;
                     a file from one end to the other.
    MaintenanceIntent
                     common/src/maintenance_intent.cpp: the administrator's signed
                     orders, their replay protector and the decision on them.
    AgentProtocol    client/src/agent_protocol.cpp: the messages of the pipe between
                     service and agent, their transport, the agent's queue and its
                     flush (client/agent/main.cpp).

    * How the code is modelled

    Definitions keep the source's names and its order of tests and effects.  A
    w-bit unsigned integer is a Z in range (u8 .. u64), arithmetic that can wrap
    is written with wrap32/wrap64; enums that are cast from the wire are raw
    integers, closed enums are inductive types.  A std::map is a gmap, iterated in
    key order where the source iterates; the iteration order of unordered maps is
    a parameter.  A fallible function returns an option or a result; stateful
    methods take and return the object's state.  Code under a mutex is one atomic
    step; a method that releases its mutex on the way (the controller's disarm) is
    several, between which other calls may come.

    What is not in src/ is a parameter: HMAC-SHA-256, SHA-256, AES-GCM and DPAPI
    of Windows, file-system and socket calls with their outcomes, the clock, the
    random generator, DNS and the filtering engine.  Where a theorem needs more of
    them than their results, a class states the documented behaviour
    (AesGcmLaws, SocketLaws, WfpEngineLaws, ...) and an example implements it.

    Recursion is structural where the code allows it.  Fuel is used for loops
    over a buffer, and is the buffer's length or one more, each turn consuming at
    least one byte (feed_loop, receive_exact, recover, valid_labels,
    control_characters), or the size of the map that a turn shrinks (trim_loop);
    the theorems about these loops hold for that fuel without assuming that the
    loop ends.

    * What the theorems show

    Delivery: over any run, the durable queue holds exactly the accepted answers
    that no acknowledgement has covered, and an answer is in the journal before it
    is acknowledged, across crashes; so none is lost between the two
    (AnswerOutbox, AnswerJournal, Delivery).  Lockdown: the firewall is told to
    enforce only the allowlist of an accepted arm and is told to clear in time,
    also when calls come while a disarm clears; an engine that accepts the filters
    permits exactly the resolved addresses, where their weight 20 is above the
    documented limit of 15; an exam starts only on live evidence (ExamLockdown,
    WfpAllowlist, OriginResolver, ClientRegistry).
    Channel: handshakes complete and authenticate both ends, messages given to a
    MAC are unambiguous, replays are refused, and a channel is a FIFO
    (Handshake, Auth, ControlChannel).  Framing and codecs: parsing does not depend
    on segmentation, every codec is exact, validators accept exactly the reference
    language (Protocol, the message files, Utf8, UrlValidation).  Video: frames are
    reassembled exactly, with bounded memory and exact loss accounting.  Keys:
    rotation and revocation are final until a replacement of the whole store,
    persistence restores it, brute force is blocked (KeyStore, RateLimiter).
    Updates: an accepted manifest was signed by the release key and is not older,
    or the signer's text and its own are a collision of SHA-256; what is installed
    is what was offered, as long as no chunk is lost unseen and a power loss spares
    the package, which the code does not ensure; the previous installation survives
    one application (UpdateManifest, StagingRecord, UpdateStaging).
    Diagnostics: filtered text is free of secrets and addresses, and every audit
    record is spooled, dropped and counted, or written, and goes out in chunks that
    could not be longer (PublicText, AuditUpload, AuditLog).
    Classroom: a connected client has proved its key, a superseded connection does
    nothing more, a running exam was admitted and begin_exam begins it once,
    though a raw begin command is not refused (ServerRuns, ExamRuns).  Pairing: an approval needs a request that was shown and confirmed,
    the table of requests is bounded, the client confirms only for its student,
    and both ends end with one key; a client takes only servers that hold the key,
    at a time its own clock confirms
    (PairingRuns, PairingClient, PairingSession, DiscoveryRuns).
    Grading: a grade is the sum of its items through every review (ExamGrader).
    Files: what is reported received was announced, in order, complete and of the
    announced digest; the two ends agree on files of every size, but the call
    succeeds only up to 65492 bytes, a longer chunk being no command any more
    (FileReception, FileTransfer).
    Maintenance: over any sequence of decisions, the orders carried out are exactly
    the administrator's fresh ones (MaintenanceIntent).
    Agent: messages reach the service in order, once each, and telemetry displaces
    none of them (AgentProtocol).

    * Not modelled

    Windows user interface, services, sockets, threads and process management
    (server/app, client/agent, client/service, exam_host, network, iocp_dispatcher,
    named_pipe, setup): they are calls to the Windows API with little logic of
    their own.  Screen capture and video coding.  The exam pages in JavaScript.
    Wiping of key memory that is not read again, and log texts.
    Of the control plane: its start and its dispatcher threads, the telemetry
    worker with its batches, and state requests.  The machine
    identity and the room seed of client_pairing.cpp, which are registry reads.
    Not yet modelled: the telemetry outbox, journal and service, room profiles,
    the sealed export, the roster and the exam bridge. *)

From Stdlib Require Export ZArith Lia.
From Stdlib Require Strings.Byte.
From stdpp Require Export prelude gmap sorting strings.

#[global] Open Scope Z_scope.

(** ** Bytes

    [std::byte] and [char] are both [Byte.byte]; [std::string], [std::vector]
    and [std::span] of bytes are [bytes]. *)

Abbreviation byte := Byte.byte.
Abbreviation bytes := (list Byte.byte).

Declare Scope nstu_scope.
Delimit Scope nstu_scope with nstu.

Definition byte_val (b : byte) : Z := Z.of_N (Byte.to_N b).

(** [static_cast<std::byte>(v)]: the low eight bits of [v]. *)
Definition byte_of (v : Z) : byte :=
  match Byte.of_N (Z.to_N (v mod 256)) with
  | Some b => b
  | None => Byte.x00
  end.

(** A string literal of the source, as its bytes. *)
Definition text (s : string) : bytes := String.list_byte_of_string s.

#[export] Instance byte_eq_dec : EqDecision byte := Byte.byte_eq_dec.

#[export] Instance byte_inhabited : Inhabited byte := populate Byte.x00.

Lemma byte_of_N_total (n : N) : (n < 256)%N -> exists b, Byte.of_N n = Some b.
Proof.
  intros Hn. destruct (Byte.of_N n) as [b|] eqn:E; [by exists b|].
  apply Byte.of_N_None_iff in E. lia.
Qed.

Lemma byte_val_range (b : byte) : 0 <= byte_val b < 256.
Proof. unfold byte_val. pose proof (Byte.to_N_bounded b). lia. Qed.

Lemma byte_val_of (v : Z) : byte_val (byte_of v) = v mod 256.
Proof.
  unfold byte_val, byte_of. pose proof (Z.mod_pos_bound v 256 ltac:(lia)) as Hr.
  destruct (byte_of_N_total (Z.to_N (v mod 256))) as [b Hb]; [lia|].
  rewrite Hb. apply Byte.to_of_N in Hb. rewrite Hb. lia.
Qed.

Lemma byte_of_val (b : byte) : byte_of (byte_val b) = b.
Proof.
  unfold byte_of, byte_val. pose proof (Byte.to_N_bounded b).
  rewrite Z.mod_small by lia. rewrite N2Z.id. by rewrite Byte.of_to_N.
Qed.

#[export] Instance byte_val_inj : Inj (=) (=) byte_val.
Proof. intros a b H. by rewrite <- (byte_of_val a), <- (byte_of_val b), H. Qed.

#[export] Program Instance byte_countable : Countable byte :=
  inj_countable Byte.to_N Byte.of_N _.
Next Obligation. intros b. apply Byte.of_to_N. Qed.

#[global] Opaque byte_val byte_of.

(** Comparisons stay folded under [cbn]; the [_spec] lemmas decide them. *)
#[global] Arguments Z.eqb : simpl never.
#[global] Arguments Z.ltb : simpl never.
#[global] Arguments Z.leb : simpl never.
#[global] Arguments Z.gtb : simpl never.
#[global] Arguments Z.geb : simpl never.
#[global] Arguments Z.min : simpl never.
#[global] Arguments Z.max : simpl never.

(** ** Results

    A function that returns a value or an empty optional after [set_error]. *)
Inductive result (A : Type) :=
| Ok (a : A)
| Err (message : string).
Arguments Ok {A} a.
Arguments Err {A} message.

Definition result_value {A} (r : result A) : option A :=
  match r with Ok a => Some a | Err _ => None end.

(** ** Sizes and machine-width integers *)

(** [size()] of a container, as an unbounded integer. *)
Definition len {A} (l : list A) : Z := Z.of_nat (length l).

(** The values of an unsigned [n]-byte integer type. *)
Definition urange (n : nat) (v : Z) : Prop := 0 <= v < 2 ^ (8 * Z.of_nat n).

#[export] Instance urange_dec n v : Decision (urange n v).
Proof. unfold urange. apply _. Defined.

Abbreviation u8 := (urange 1).
Abbreviation u16 := (urange 2).
Abbreviation u32 := (urange 4).
Abbreviation u64 := (urange 8).

Definition u64_max : Z := 18446744073709551615.
Definition u32_max : Z := 4294967295.
Definition u16_max : Z := 65535.

(** Wrap-around of 64-bit and 32-bit unsigned arithmetic. *)
Definition wrap64 (v : Z) : Z := v mod 18446744073709551616.
Definition wrap32 (v : Z) : Z := v mod 4294967296.

Lemma urange1 v : u8 v <-> 0 <= v < 256.
Proof. done. Qed.
Lemma urange2 v : u16 v <-> 0 <= v < 65536.
Proof. done. Qed.
Lemma urange4 v : u32 v <-> 0 <= v < 4294967296.
Proof. done. Qed.
Lemma urange8 v : u64 v <-> 0 <= v < 18446744073709551616.
Proof. done. Qed.

Lemma len_app {A} (l1 l2 : list A) : len (l1 ++ l2) = len l1 + len l2.
Proof. unfold len. rewrite length_app. lia. Qed.
Lemma len_nil {A} : len (@nil A) = 0.
Proof. done. Qed.
Lemma len_cons {A} (x : A) l : len (x :: l) = len l + 1.
Proof. unfold len. simpl. lia. Qed.
Lemma len_nonneg {A} (l : list A) : 0 <= len l.
Proof. unfold len. lia. Qed.
Lemma len_zero {A} (l : list A) : len l = 0 -> l = [].
Proof. destruct l; [done|]. rewrite len_cons. pose proof (len_nonneg l). lia. Qed.
Lemma len_length {A} (l : list A) (n : nat) : length l = n -> len l = Z.of_nat n.
Proof. unfold len. lia. Qed.
Lemma length_len {A} (l : list A) (z : Z) : len l = z -> length l = Z.to_nat z.
Proof. unfold len. lia. Qed.

(** ** Order of strings *)

(** [std::string]'s order: byte by byte, unsigned. *)
Fixpoint bytes_le (a b : bytes) : bool :=
  match a, b with
  | [], _ => true
  | _ :: _, [] => false
  | x :: a', y :: b' =>
      if byte_val x <? byte_val y then true
      else if byte_val y <? byte_val x then false
      else bytes_le a' b'
  end.

Lemma bytes_le_trans (a b c : bytes) :
  bytes_le a b = true -> bytes_le b c = true -> bytes_le a c = true.
Proof.
  revert b c. induction a as [|x a IH]; intros [|y b] [|z c]; cbn [bytes_le]; try done.
  destruct (Z.ltb_spec (byte_val x) (byte_val y)), (Z.ltb_spec (byte_val y) (byte_val x)),
    (Z.ltb_spec (byte_val y) (byte_val z)), (Z.ltb_spec (byte_val z) (byte_val y)),
    (Z.ltb_spec (byte_val x) (byte_val z)), (Z.ltb_spec (byte_val z) (byte_val x));
    try done; try lia. apply IH.
Qed.

Lemma bytes_le_total (a b : bytes) : bytes_le a b = true \/ bytes_le b a = true.
Proof.
  revert b. induction a as [|x a IH]; intros [|y b]; cbn [bytes_le]; auto.
  destruct (Z.ltb_spec (byte_val x) (byte_val y)), (Z.ltb_spec (byte_val y) (byte_val x));
    auto; lia.
Qed.

Lemma bytes_le_antisym (a b : bytes) : bytes_le a b = true -> bytes_le b a = true -> a = b.
Proof.
  revert b. induction a as [|x a IH]; intros [|y b]; cbn [bytes_le]; try done.
  destruct (Z.ltb_spec (byte_val x) (byte_val y)), (Z.ltb_spec (byte_val y) (byte_val x));
    try done; try lia. intros H1 H2. f_equal; [apply (inj byte_val); lia|by apply IH].
Qed.

(** ** [std::map] with integer keys: [begin()] is the entry of the least key *)

Fixpoint least_key {A} (best : Z * A) (rest : list (Z * A)) : Z * A :=
  match rest with
  | [] => best
  | kv :: rest' => least_key (if kv.1 <? best.1 then kv else best) rest'
  end.

Definition map_begin {A} (m : gmap Z A) : option (Z * A) :=
  match map_to_list m with
  | [] => None
  | kv :: rest => Some (least_key kv rest)
  end.

Lemma least_key_spec {A} (best : Z * A) rest :
  least_key best rest ∈ best :: rest /\
  forall kv, kv ∈ best :: rest -> (least_key best rest).1 <= kv.1.
Proof.
  revert best. induction rest as [|kv rest IH]; intros best; cbn.
  - split; [by left|]. intros x ->%list_elem_of_singleton. done.
  - set (next := if kv.1 <? best.1 then kv else best).
    assert (next.1 <= kv.1 /\ next.1 <= best.1 /\ next ∈ [best; kv]) as (H1 & H2 & H3).
    { unfold next. destruct (Z.ltb_spec kv.1 best.1); (split_and!; [lia..|set_solver]). }
    clearbody next. destruct (IH next) as [Hin Hmin]. split; [set_solver|].
    pose proof (Hmin next ltac:(by left)).
    intros x [->|[->|Hx]%elem_of_cons]%elem_of_cons; [lia..|]. apply Hmin. by right.
Qed.

Lemma map_begin_Some {A} (m : gmap Z A) k a :
  map_begin m = Some (k, a) ->
  m !! k = Some a /\ forall k' a', m !! k' = Some a' -> k <= k'.
Proof.
  unfold map_begin. destruct (map_to_list m) as [|kv rest] eqn:E; [done|].
  destruct (least_key_spec kv rest) as [Hin Hmin]. rewrite <- E in *. intros [= Heq].
  rewrite Heq in Hin, Hmin. split; [by apply elem_of_map_to_list|].
  intros k' a' Hk'. apply (Hmin (k', a')). by apply elem_of_map_to_list.
Qed.

Lemma map_begin_None {A} (m : gmap Z A) : map_begin m = None <-> m = ∅.
Proof.
  unfold map_begin. rewrite <- map_to_list_empty_iff. by destruct (map_to_list m).
Qed.

(** ** [std::sort], then [erase] from [std::unique] on *)

Section SortUnique.
Context `{EqDecision A} (R : relation A) `{!RelDecision R}.

Fixpoint unique (l : list A) : list A :=
  match l with
  | [] => []
  | x :: l' =>
      match l' with
      | [] => [x]
      | y :: _ => if decide (x = y) then unique l' else x :: unique l'
      end
  end.

Definition sort_unique (l : list A) : list A := unique (merge_sort R l).

Lemma elem_of_unique l x : x ∈ unique l <-> x ∈ l.
Proof using Type.
  induction l as [|y l IH]; [done|]. cbn. destruct l as [|z l]; [done|].
  case_decide as E; [subst; rewrite IH; set_solver|].
  rewrite elem_of_cons, IH. set_solver.
Qed.

Lemma elem_of_sort_unique l x : x ∈ sort_unique l <-> x ∈ l.
Proof using Type. unfold sort_unique. by rewrite elem_of_unique, merge_sort_Permutation. Qed.

Context `{!Transitive R, !Total R, !AntiSymm (=) R}.

Lemma unique_sorted l : StronglySorted R l -> StronglySorted R (unique l) /\ NoDup (unique l).
Proof using Type*.
  induction 1 as [|x l Hl [IHs IHn] HF]; [repeat constructor|]. cbn. destruct l as [|y l].
  { split; [by repeat constructor|apply NoDup_singleton]. }
  case_decide as E; [done|]. split; constructor; try done.
  - apply Forall_forall. intros z Hz. rewrite elem_of_unique in Hz.
    by apply (proj1 (Forall_forall _ _) HF).
  - rewrite elem_of_unique. rewrite Forall_cons in HF. destruct HF as [Hxy HF].
    apply StronglySorted_inv in Hl as [_ Hy]. intros [->|Hx]%elem_of_cons; [done|].
    apply E, (anti_symm R); [done|]. by apply (proj1 (Forall_forall _ _) Hy).
Qed.

Lemma sort_unique_sorted l : StronglySorted R (sort_unique l) /\ NoDup (sort_unique l).
Proof using Type*. apply unique_sorted, StronglySorted_merge_sort; apply _. Qed.

Lemma sort_unique_nil l : sort_unique l = [] <-> l = [].
Proof using Type.
  split; [|by intros ->]. destruct l as [|x l]; [done|]. intros E.
  exfalso. apply (not_elem_of_nil x). rewrite <- E. apply elem_of_sort_unique. by left.
Qed.
End SortUnique.

(** An element of an append is on one side of it. *)
Lemma app_cons_split {A} (l1 l2 pre post : list A) (x : A) :
  l1 ++ l2 = pre ++ x :: post ->
  (exists post', l1 = pre ++ x :: post' /\ post = post' ++ l2) \/
  (exists pre', l2 = pre' ++ x :: post /\ pre = l1 ++ pre').
Proof.
  intros [(k & -> & E)|(k & -> & ->)]%app_eq_inv; [|by eauto].
  destruct k as [|y k]; cbn in E.
  - right. exists []. by rewrite !app_nil_r.
  - left. injection E as <- ->. eauto.
Qed.

(** A filter that keeps everything. *)
Lemma filter_all {A} (P : A -> Prop) `{!forall x, Decision (P x)} (l : list A) :
  Forall P l -> filter P l = l.
Proof. induction 1; [done|]. rewrite filter_cons_True by done. by f_equal. Qed.

(** ** Sums *)

Fixpoint zsum (l : list Z) : Z :=
  match l with [] => 0 | x :: l' => x + zsum l' end.

#[export] Instance zsum_proper : Proper ((≡ₚ) ==> (=)) zsum.
Proof. intros l1 l2. induction 1; cbn in *; lia. Qed.

Lemma zsum_app l1 l2 : zsum (l1 ++ l2) = zsum l1 + zsum l2.
Proof. induction l1; cbn in *; lia. Qed.

Lemma zsum_nonneg l : Forall (fun x => 0 <= x) l -> 0 <= zsum l.
Proof. induction 1; cbn in *; lia. Qed.

Lemma len_concat {A} (l : list (list A)) : len (concat l) = zsum (map len l).
Proof. induction l as [|x l IH]; [done|]. cbn [concat map zsum]. rewrite len_app, IH. done. Qed.

Lemma zsum_insert l i x y :
  l !! i = Some x -> zsum (<[i := y]> l) = zsum l - x + y.
Proof.
  revert i. induction l as [|a l IH]; intros [|i]; cbn; [done..| |].
  - intros [= ->]. lia.
  - intros H. change (a + zsum (<[i := y]> l) = a + zsum l - x + y). rewrite (IH _ H). lia.
Qed.

(** The number of flags that are set. *)
Definition count_true (l : list bool) : Z := len (List.filter (fun b => b) l).

Lemma count_true_app l1 l2 : count_true (l1 ++ l2) = count_true l1 + count_true l2.
Proof. unfold count_true. by rewrite List.filter_app, len_app. Qed.

Lemma count_true_bounds l : 0 <= count_true l <= len l.
Proof.
  unfold count_true, len. pose proof (List.filter_length_le (fun b : bool => b) l). lia.
Qed.

Lemma count_true_cons b l : count_true (b :: l) = (if b then 1 else 0) + count_true l.
Proof. unfold count_true. destruct b; cbn; rewrite ?len_cons; lia. Qed.

Lemma count_true_insert l i :
  l !! i = Some false -> count_true (<[i := true]> l) = count_true l + 1.
Proof.
  revert i. induction l as [|b l IH]; intros [|i]; [done..| |].
  - intros [= ->]. change (count_true (true :: l) = count_true (false :: l) + 1).
    rewrite !count_true_cons. lia.
  - intros H. change (count_true (b :: <[i := true]> l) = count_true (b :: l) + 1).
    rewrite !count_true_cons, (IH _ H). lia.
Qed.

Lemma count_true_repeat n : count_true (repeat false n) = 0.
Proof. induction n; [done|]. cbn [repeat]. rewrite count_true_cons. lia. Qed.

(** All flags set. *)
Lemma count_true_full l i : count_true l = len l -> (i < length l)%nat -> nth i l false = true.
Proof.
  revert i. induction l as [|b l IH]; intros i Hc Hi; [cbn in Hi; lia|].
  rewrite count_true_cons, len_cons in Hc. pose proof (count_true_bounds l).
  destruct b; [|lia]. destruct i; [done|]. cbn in *. apply IH; lia.
Qed.

Lemma map_Forall_weaken `{Countable K} {A} (P : K -> A -> Prop) (m m' : gmap K A) :
  map_Forall P m -> m' ⊆ m -> map_Forall P m'.
Proof. intros Hm Hsub k a Hk. apply Hm. by eapply lookup_weaken. Qed.

(** The sum of a weight over the entries of a map. *)
Section MapSum.
Context `{Countable K} {A : Type} (weight : A -> Z).

Definition map_sum (m : gmap K A) : Z := zsum (map (fun kv => weight kv.2) (map_to_list m)).

Lemma map_sum_empty : map_sum ∅ = 0.
Proof. unfold map_sum. by rewrite map_to_list_empty. Qed.

Lemma map_sum_insert m k a :
  m !! k = None -> map_sum (<[k := a]> m) = weight a + map_sum m.
Proof. intros Hk. unfold map_sum. by rewrite map_to_list_insert. Qed.

Lemma map_sum_delete m k a :
  m !! k = Some a -> map_sum m = weight a + map_sum (delete k m).
Proof.
  intros Hk. rewrite <- (insert_delete_id m k a) at 1 by done.
  apply map_sum_insert, lookup_delete_eq.
Qed.

Lemma map_sum_update m k a b :
  m !! k = Some a -> map_sum (<[k := b]> m) = map_sum m - weight a + weight b.
Proof.
  intros Hk. rewrite <- insert_delete_eq, map_sum_insert by apply lookup_delete_eq.
  rewrite (map_sum_delete m k a Hk). lia.
Qed.

Lemma map_sum_nonneg m : (forall k a, m !! k = Some a -> 0 <= weight a) -> 0 <= map_sum m.
Proof.
  intros Hm. apply zsum_nonneg, Forall_map, Forall_forall. intros [k a] Hin.
  apply (Hm k). by apply elem_of_map_to_list.
Qed.

Lemma map_sum_filter (P : A -> bool) m :
  map_sum m = map_sum (filter (fun kv => P kv.2 = true) m) +
              map_sum (filter (fun kv => P kv.2 = false) m).
Proof.
  induction m as [|k a m Hk IH] using map_ind; [done|].
  rewrite map_sum_insert, IH by done. destruct (P a) eqn:Ha.
  - rewrite map_filter_insert_True, map_filter_insert_False by (cbn; congruence).
    rewrite delete_id by done. rewrite map_sum_insert; [lia|].
    apply map_lookup_filter_None. by left.
  - rewrite map_filter_insert_False, map_filter_insert_True by (cbn; congruence).
    rewrite delete_id by done. rewrite (map_sum_insert (filter (fun kv => P kv.2 = false) m));
      [lia|]. apply map_lookup_filter_None. by left.
Qed.
End MapSum.

(** Unsigned arithmetic goals: bring the ranges to literals, then [lia]. *)
Ltac ulia :=
  repeat match goal with
  | H : urange 1 _ |- _ => rewrite urange1 in H
  | H : urange 2 _ |- _ => rewrite urange2 in H
  | H : urange 4 _ |- _ => rewrite urange4 in H
  | H : urange 8 _ |- _ => rewrite urange8 in H
  end;
  rewrite ?urange1, ?urange2, ?urange4, ?urange8;
  unfold wrap64, wrap32, u64_max, u32_max, u16_max in *;
  first [lia | progress Z.div_mod_to_equations; lia].

(** Evaluate the comparisons between closed integers in the goal. *)
Ltac eval_tests :=
  repeat match goal with
  | |- context [Z.eqb ?a ?b] => progress eval_test (Z.eqb a b)
  | |- context [Z.ltb ?a ?b] => progress eval_test (Z.ltb a b)
  | |- context [Z.leb ?a ?b] => progress eval_test (Z.leb a b)
  | |- context [Z.gtb ?a ?b] => progress eval_test (Z.gtb a b)
  | |- context [Z.geb ?a ?b] => progress eval_test (Z.geb a b)
  end; cbn [negb andb orb]
with eval_test t :=
  tryif (match t with context [?x] => is_var x end) then fail else
  let v := eval vm_compute in t in
  lazymatch v with
  | true => change t with true
  | false => change t with false
  end.

(** Case split on the outermost test of a definition that has been unfolded. *)
Tactic Notation "case_if" ident(H) :=
  match goal with
  | |- (if ?b then _ else _) = _ -> _ => destruct b eqn:H
  | |- (if ?b then _ else _) = _ => destruct b eqn:H
  end.

(** Decide a boolean test in the goal or a hypothesis as its proposition. *)
Ltac bool_to_prop :=
  repeat match goal with
  | H : andb _ _ = true |- _ => apply andb_true_iff in H as [? ?]
  | H : orb _ _ = false |- _ => apply orb_false_iff in H as [? ?]
  | H : negb _ = true |- _ => apply negb_true_iff in H
  | H : negb _ = false |- _ => apply negb_false_iff in H
  | H : bool_decide _ = true |- _ => apply bool_decide_eq_true in H
  | H : bool_decide _ = false |- _ => apply bool_decide_eq_false in H
  | H : Z.eqb _ _ = true |- _ => apply Z.eqb_eq in H
  | H : Z.eqb _ _ = false |- _ => apply Z.eqb_neq in H
  | H : Z.ltb _ _ = true |- _ => apply Z.ltb_lt in H
  | H : Z.ltb _ _ = false |- _ => apply Z.ltb_ge in H
  | H : Z.leb _ _ = true |- _ => apply Z.leb_le in H
  | H : Z.gtb _ _ = _ |- _ => rewrite Z.gtb_ltb in H
  | H : Z.geb _ _ = _ |- _ => rewrite Z.geb_leb in H
  | H : Z.leb _ _ = false |- _ => apply Z.leb_gt in H
  end.
