(* ===== verification/Wire.v ===== *)
(** Little-endian wire primitives shared by every codec of the program: the
    [write_le]/[append_le] and [read_le] templates, [read_bytes]/[read_array],
    and the decoder monad their callers are written in.  A decoder walks a
    [std::span] with an [offset]; here it carries the unread suffix of the
    span, and [read_le_at_cursor] shows that the two presentations agree. *)

From S2P Require Import Prelude.

(** ** Writing *)

(** [append_le]: push the low byte, shift right by eight, [sizeof(T)] times. *)
Fixpoint write_le (n : nat) (value : Z) : bytes :=
  match n with
  | O => []
  | S n' => byte_of (Z.land value 255) :: write_le n' (Z.shiftr value 8)
  end.

(** ** Reading *)

(** The accumulation loop of [read_le]: [value |= byte << (8 * index)]. *)
Fixpoint le_value (index : Z) (bs : bytes) : Z :=
  match bs with
  | [] => 0
  | b :: bs' => Z.lor (Z.shiftl (byte_val b) (8 * index)) (le_value (index + 1) bs')
  end.

(** [read_le] as the source writes it, over the whole span and an offset. *)
Definition read_le_at (n : nat) (input : bytes) (offset : nat) : option (Z * nat) :=
  if bool_decide (Z.of_nat offset + Z.of_nat n > len input) then None
  else Some (le_value 0 (take n (drop offset input)), (offset + n)%nat).

(** A decoder of an [A] over the unread suffix of the payload. *)
Definition reader (A : Type) : Type := bytes -> option (A * bytes).

Definition rret {A} (a : A) : reader A := fun input => Some (a, input).

Definition rbind {A B} (m : reader A) (k : A -> reader B) : reader B :=
  fun input =>
    match m input with
    | Some (a, rest) => k a rest
    | None => None
    end.

(** An early [return std::nullopt] unless the test holds. *)
Definition rguard (test : bool) : reader unit :=
  fun input => if test then Some (tt, input) else None.

(** [payload.size() - offset]. *)
Definition rremaining : reader Z := fun input => Some (len input, input).

Definition read_le (n : nat) : reader Z :=
  fun input =>
    if bool_decide (Z.of_nat n > len input) then None
    else Some (le_value 0 (take n input), drop n input).

(** [read_bytes]/[read_array]/[std::copy_n] of [n] bytes. *)
Definition read_bytes (n : nat) : reader bytes :=
  fun input =>
    if bool_decide (Z.of_nat n > len input) then None
    else Some (take n input, drop n input).

(** [assign(payload.begin() + offset, payload.end())]. *)
Definition read_rest : reader bytes := fun input => Some (input, []).

(** Run a decoder on a payload, dropping the final cursor. *)
Definition run_reader {A} (m : reader A) (payload : bytes) : option A :=
  match m payload with
  | Some (a, _) => Some a
  | None => None
  end.

(** [for (i = 0; i < count; ++i) push_back(item)]. *)
Fixpoint read_many {A} (count : nat) (item : reader A) : reader (list A) :=
  match count with
  | O => rret []
  | S count' =>
      rbind item (fun a => rbind (read_many count' item) (fun l => rret (a :: l)))
  end.

(** Decoders that report why they stopped ([set_error] before an early
    return): an [ereader] fails with a message. *)
Definition ereader (A : Type) : Type := bytes -> result (A * bytes).

Definition eret {A} (a : A) : ereader A := fun input => Ok (a, input).

Definition ebind {A B} (m : ereader A) (k : A -> ereader B) : ereader B :=
  fun input =>
    match m input with
    | Ok (a, rest) => k a rest
    | Err e => Err e
    end.

(** A group of reads and tests that all fail with the same message. *)
Definition orelse {A} (message : string) (m : reader A) : ereader A :=
  fun input =>
    match m input with
    | Some (a, rest) => Ok (a, rest)
    | None => Err message
    end.

Definition eguard (message : string) (test : bool) : ereader unit :=
  fun input => if test then Ok (tt, input) else Err message.

Definition eremaining : ereader Z := fun input => Ok (len input, input).

Definition erun {A} (m : ereader A) (payload : bytes) : result A :=
  match m payload with
  | Ok (a, _) => Ok a
  | Err e => Err e
  end.

Fixpoint eread_many {A} (count : nat) (item : ereader A) : ereader (list A) :=
  match count with
  | O => eret []
  | S count' =>
      ebind item (fun a => ebind (eread_many count' item) (fun l => eret (a :: l)))
  end.

Module ReaderNotations.
  Notation "x <- m ;; k" := (rbind m (fun x => k))
    (at level 100, m at next level, right associativity) : nstu_scope.
  Notation "'guard' b ;; k" := (rbind (rguard b) (fun _ => k))
    (at level 100, b at next level, right associativity) : nstu_scope.
  Notation "x <~ m ;; k" := (ebind m (fun x => k))
    (at level 100, m at next level, right associativity) : nstu_scope.
  Notation "'expect' b 'else' msg ;; k" := (ebind (eguard msg b) (fun _ => k))
    (at level 100, b at next level, msg at next level, right associativity) : nstu_scope.
End ReaderNotations.

(** ** Laws *)

Lemma length_write_le n v : length (write_le n v) = n.
Proof. revert v. induction n; intros v; simpl; [done|]. by rewrite IHn. Qed.

Lemma len_write_le n v : len (write_le n v) = Z.of_nat n.
Proof. unfold len. by rewrite length_write_le. Qed.

Lemma le_value_shift i bs :
  0 <= i -> le_value i bs = Z.shiftl (le_value 0 bs) (8 * i).
Proof.
  assert (forall j, 0 <= j -> forall i, 0 <= i ->
    le_value (j + i) bs = Z.shiftl (le_value j bs) (8 * i)) as H.
  { induction bs as [|b bs IH]; intros j Hj k Hk; simpl; [by rewrite Z.shiftl_0_l|].
    rewrite Z.shiftl_lor, Z.shiftl_shiftl by lia.
    replace (8 * (j + k)) with (8 * j + 8 * k) by lia. f_equal.
    replace (j + k + 1) with (j + 1 + k) by lia. apply IH; lia. }
  intros Hi. apply (H 0 ltac:(lia) i Hi).
Qed.

Lemma le_value_cons b bs :
  le_value 0 (b :: bs) = byte_val b + 256 * le_value 0 bs.
Proof.
  simpl. rewrite Z.shiftl_0_r, (le_value_shift 1) by lia.
  pose proof (Z.add_lor_land (byte_val b) (Z.shiftl (le_value 0 bs) (8 * 1))) as Hsum.
  assert (Z.land (byte_val b) (Z.shiftl (le_value 0 bs) (8 * 1)) = 0) as Hz.
  { apply Z.bits_inj'. intros n Hn. rewrite Z.land_spec, Z.shiftl_spec, Z.bits_0 by lia.
    destruct (decide (n < 8)) as [Hlt|Hge].
    - rewrite (Z.testbit_neg_r (le_value 0 bs)) by lia. apply andb_false_r.
    - pose proof (byte_val_range b). rewrite <- (Z.mod_small (byte_val b) (2 ^ 8)) by lia.
      by rewrite Z.mod_pow2_bits_high by lia. }
  rewrite Hz, Z.add_0_r in Hsum. rewrite Hsum, Z.shiftl_mul_pow2 by lia. lia.
Qed.

Lemma le_value_range bs : urange (length bs) (le_value 0 bs).
Proof.
  unfold urange. induction bs as [|b bs IH]; [done|].
  rewrite le_value_cons. pose proof (byte_val_range b). cbn [length].
  rewrite Nat2Z.inj_succ, Z.mul_succ_r, Z.pow_add_r by lia. lia.
Qed.

Lemma le_value_write n v : le_value 0 (write_le n v) = v mod 2 ^ (8 * Z.of_nat n).
Proof.
  revert v. induction n as [|n IH]; intros v; [by rewrite Z.mod_1_r|].
  cbn [write_le]. rewrite le_value_cons, IH, byte_val_of.
  rewrite Z.shiftr_div_pow2 by lia.
  replace (Z.land v 255) with (v mod 256) by (symmetry; apply (Z.land_ones v 8); lia).
  rewrite Z.mod_mod by lia. change (2 ^ 8) with 256.
  replace (8 * Z.of_nat (S n)) with (8 + 8 * Z.of_nat n) by lia.
  rewrite Z.pow_add_r by lia. change (2 ^ 8) with 256.
  rewrite (Z.rem_mul_r v 256) by lia. lia.
Qed.

Lemma le_value_write_id n v : urange n v -> le_value 0 (write_le n v) = v.
Proof. intros Hv. rewrite le_value_write. by apply Z.mod_small. Qed.

Lemma write_le_value bs : write_le (length bs) (le_value 0 bs) = bs.
Proof.
  induction bs as [|b bs IH]; [done|]. cbn [length write_le].
  rewrite le_value_cons. pose proof (byte_val_range b).
  assert (Z.land (byte_val b + 256 * le_value 0 bs) 255 = byte_val b) as ->.
  { rewrite (Z.land_ones _ 8) by lia. change (2 ^ 8) with 256.
    rewrite (Z.mul_comm 256), Z.mod_add by lia. by apply Z.mod_small. }
  rewrite byte_of_val. f_equal. rewrite Z.shiftr_div_pow2 by lia.
  change (2 ^ 8) with 256. rewrite (Z.mul_comm 256), Z.div_add by lia.
  by rewrite Z.div_small, Z.add_0_l.
Qed.

Lemma write_le_inj n v w : urange n v -> urange n w -> write_le n v = write_le n w -> v = w.
Proof.
  intros Hv Hw H. by rewrite <- (le_value_write_id n v), H, le_value_write_id.
Qed.

(** The suffix reader is the offset reader of the source. *)
Lemma read_le_at_cursor n input offset :
  (offset <= length input)%nat ->
  read_le_at n input offset =
    option_map (fun '(v, rest) => (v, (length input - length rest)%nat))
      (read_le n (drop offset input)).
Proof.
  intros Ho. unfold read_le_at, read_le, len. rewrite length_drop.
  repeat case_bool_decide; simpl; try lia; [done|].
  do 2 f_equal. rewrite !length_drop. lia.
Qed.

(** Reading back what was written. *)
Lemma read_le_write n v rest :
  urange n v -> read_le n (write_le n v ++ rest) = Some (v, rest).
Proof.
  intros Hv. unfold read_le. rewrite len_app, len_write_le.
  pose proof (len_nonneg rest). case_bool_decide; [lia|].
  rewrite take_app_length', drop_app_length' by (by rewrite length_write_le).
  by rewrite le_value_write_id.
Qed.

Lemma read_bytes_app n bs rest :
  length bs = n -> read_bytes n (bs ++ rest) = Some (bs, rest).
Proof.
  intros Hn. unfold read_bytes, len. rewrite length_app. case_bool_decide; [lia|].
  by rewrite take_app_length', drop_app_length' by done.
Qed.

(** Inverting a successful read. *)
Lemma read_le_inv n input v rest :
  read_le n input = Some (v, rest) -> input = write_le n v ++ rest /\ urange n v.
Proof.
  unfold read_le, len. case_bool_decide; [done|]. intros [= <- <-].
  assert (length (take n input) = n) as Hl by (rewrite length_take; lia).
  split.
  - rewrite <- Hl at 1. rewrite write_le_value. symmetry. apply take_drop.
  - rewrite <- Hl at 1. apply le_value_range.
Qed.

Lemma read_le_total n input :
  Z.of_nat n <= len input -> exists v rest, read_le n input = Some (v, rest).
Proof. intros H. unfold read_le. case_bool_decide; [lia|]. eauto. Qed.

Lemma read_bytes_inv n input bs rest :
  read_bytes n input = Some (bs, rest) -> input = bs ++ rest /\ length bs = n.
Proof.
  unfold read_bytes, len. case_bool_decide; [done|]. intros [= <- <-].
  split; [symmetry; apply take_drop|]. rewrite length_take. lia.
Qed.

Lemma rbind_inv {A B} (m : reader A) (k : A -> reader B) input b rest :
  rbind m k input = Some (b, rest) ->
  exists a mid, m input = Some (a, mid) /\ k a mid = Some (b, rest).
Proof. unfold rbind. destruct (m input) as [[a mid]|]; [eauto|done]. Qed.

Lemma rguard_inv test input u rest :
  rguard test input = Some (u, rest) -> test = true /\ rest = input.
Proof. unfold rguard. destruct test; [|done]. by intros [= <- <-]. Qed.

Lemma run_reader_inv {A} (m : reader A) payload a :
  run_reader m payload = Some a -> exists rest, m payload = Some (a, rest).
Proof. unfold run_reader. destruct (m payload) as [[a' r]|]; [|done]. intros [= ->]. eauto. Qed.

(** One step of a decoder on a prefix it has just been given. *)
Lemma rbind_read_le {B} n v rest (k : Z -> reader B) :
  urange n v -> rbind (read_le n) k (write_le n v ++ rest) = k v rest.
Proof. intros Hv. unfold rbind. by rewrite read_le_write. Qed.

Lemma rbind_read_le_end {B} n v (k : Z -> reader B) :
  urange n v -> rbind (read_le n) k (write_le n v) = k v [].
Proof. intros Hv. rewrite <- (app_nil_r (write_le n v)). by apply rbind_read_le. Qed.

Lemma rbind_read_bytes {B} n bs rest (k : bytes -> reader B) :
  length bs = n -> rbind (read_bytes n) k (bs ++ rest) = k bs rest.
Proof. intros Hn. unfold rbind. by rewrite read_bytes_app. Qed.

Lemma rbind_read_bytes_end {B} n bs (k : bytes -> reader B) :
  length bs = n -> rbind (read_bytes n) k bs = k bs [].
Proof. intros Hn. rewrite <- (app_nil_r bs) at 1. by apply rbind_read_bytes. Qed.

Lemma rbind_guard {B} test (k : unit -> reader B) input :
  test = true -> rbind (rguard test) k input = k tt input.
Proof. by intros ->. Qed.

Lemma rbind_remaining {B} (k : Z -> reader B) input :
  rbind rremaining k input = k (len input) input.
Proof. done. Qed.

Lemma rbind_rest {B} (k : bytes -> reader B) input :
  rbind read_rest k input = k input [].
Proof. done. Qed.

Lemma rbind_rret {A B} (a : A) (k : A -> reader B) input :
  rbind (rret a) k input = k a input.
Proof. done. Qed.

Lemma rbind_assoc {A B C} (m : reader A) (k : A -> reader B) (h : B -> reader C) input :
  rbind (rbind m k) h input = rbind m (fun a => rbind (k a) h) input.
Proof. unfold rbind. by destruct (m input) as [[a r]|]. Qed.

(** A counted loop reads back a concatenation of encoded items. *)
Lemma read_many_concat {A} (item : reader A) (enc : A -> bytes) (l : list A) rest :
  (forall a r, a ∈ l -> item (enc a ++ r) = Some (a, r)) ->
  read_many (length l) item (concat (map enc l) ++ rest) = Some (l, rest).
Proof.
  induction l as [|a l IH]; intros Hitem; [done|].
  cbn [length read_many map concat]. rewrite <- app_assoc. unfold rbind at 1.
  rewrite Hitem by set_solver. unfold rbind. rewrite IH; [done|].
  intros b r Hb. apply Hitem. set_solver.
Qed.

Lemma read_many_inv {A} (item : reader A) (enc : A -> bytes) (P : A -> Prop) n input l rest :
  (forall i a r, item i = Some (a, r) -> P a /\ i = enc a ++ r) ->
  read_many n item input = Some (l, rest) ->
  Forall P l /\ input = concat (map enc l) ++ rest /\ length l = n.
Proof.
  intros Hitem. revert input l. induction n as [|n IH]; intros input l; cbn [read_many].
  - intros [= <- <-]. done.
  - intros (a & mid & Ha & H)%rbind_inv.
    apply rbind_inv in H as (l' & mid' & Hl & [= <- <-]).
    apply IH in Hl as (HP & -> & <-). apply Hitem in Ha as [Ha ->].
    cbn [map concat]. rewrite <- app_assoc. auto.
Qed.

Lemma ebind_inv {A B} (m : ereader A) (k : A -> ereader B) input b rest :
  ebind m k input = Ok (b, rest) ->
  exists a mid, m input = Ok (a, mid) /\ k a mid = Ok (b, rest).
Proof. unfold ebind. destruct (m input) as [[a mid]|]; [eauto|done]. Qed.

Lemma orelse_inv {A} msg (m : reader A) input a rest :
  orelse msg m input = Ok (a, rest) -> m input = Some (a, rest).
Proof. unfold orelse. destruct (m input) as [[a' r]|]; [|done]. by intros [= -> ->]. Qed.

Lemma eguard_inv msg test input u rest :
  eguard msg test input = Ok (u, rest) -> test = true /\ rest = input.
Proof. unfold eguard. destruct test; [|done]. by intros [= <- <-]. Qed.

Lemma erun_inv {A} (m : ereader A) payload a :
  erun m payload = Ok a -> exists rest, m payload = Ok (a, rest).
Proof. unfold erun. destruct (m payload) as [[a' r]|]; [|done]. intros [= ->]. eauto. Qed.

Lemma ebind_orelse {A B} msg (m : reader A) (k : A -> ereader B) input a rest :
  m input = Some (a, rest) -> ebind (orelse msg m) k input = k a rest.
Proof. intros H. unfold ebind, orelse. by rewrite H. Qed.

Lemma ebind_guard {B} msg test (k : unit -> ereader B) input :
  test = true -> ebind (eguard msg test) k input = k tt input.
Proof. by intros ->. Qed.

Lemma ebind_remaining {B} (k : Z -> ereader B) input :
  ebind eremaining k input = k (len input) input.
Proof. done. Qed.

Lemma ebind_assoc {A B C} (m : ereader A) (k : A -> ereader B) (h : B -> ereader C) input :
  ebind (ebind m k) h input = ebind m (fun a => ebind (k a) h) input.
Proof. unfold ebind. by destruct (m input) as [[a r]|]. Qed.

Lemma eread_many_concat {A} (item : ereader A) (enc : A -> bytes) (l : list A) rest :
  (forall a r, a ∈ l -> item (enc a ++ r) = Ok (a, r)) ->
  eread_many (length l) item (concat (map enc l) ++ rest) = Ok (l, rest).
Proof.
  induction l as [|a l IH]; intros Hitem; [done|].
  cbn [length eread_many map concat]. rewrite <- app_assoc. unfold ebind at 1.
  rewrite Hitem by set_solver. unfold ebind. rewrite IH; [done|].
  intros b r Hb. apply Hitem. set_solver.
Qed.

Lemma eread_many_inv {A} (item : ereader A) (enc : A -> bytes) (P : A -> Prop) n input l rest :
  (forall i a r, item i = Ok (a, r) -> P a /\ i = enc a ++ r) ->
  eread_many n item input = Ok (l, rest) ->
  Forall P l /\ input = concat (map enc l) ++ rest /\ length l = n.
Proof.
  intros Hitem. revert input l. induction n as [|n IH]; intros input l; cbn [eread_many].
  - intros [= <- <-]. done.
  - intros (a & mid & Ha & H)%ebind_inv.
    apply ebind_inv in H as (l' & mid' & Hl & [= <- <-]).
    apply IH in Hl as (HP & -> & <-). apply Hitem in Ha as [Ha ->].
    cbn [map concat]. rewrite <- app_assoc. auto.
Qed.

(** Peeling a fixed-width field, or a field of known length, off an equation. *)
Lemma write_le_app_inj n v w r s :
  urange n v -> urange n w -> write_le n v ++ r = write_le n w ++ s -> v = w /\ r = s.
Proof.
  intros Hv Hw [H ->]%app_inj_1; [|by rewrite !length_write_le].
  split; [by eapply write_le_inj|done].
Qed.

(** A single byte. *)
Lemma write_le_byte v : write_le 1 v = [byte_of v].
Proof.
  cbn [write_le]. f_equal. apply (inj byte_val). rewrite !byte_val_of.
  change 255 with (Z.ones 8). rewrite (Z.land_ones v 8) by lia. by rewrite Z.mod_mod.
Qed.

Lemma write_le_byte_val b : write_le 1 (byte_val b) = [b].
Proof. by rewrite write_le_byte, byte_of_val. Qed.

Lemma rbind_read_byte {B} b rest (k : Z -> reader B) :
  rbind (read_le 1) k (b :: rest) = k (byte_val b) rest.
Proof.
  change (b :: rest) with ([b] ++ rest). rewrite <- write_le_byte_val.
  apply rbind_read_le. rewrite urange1. apply byte_val_range.
Qed.

#[global] Opaque read_le read_bytes write_le.

(** ** Automation *)

Create Rewrite HintDb wire.
#[export] Hint Rewrite @len_app @len_write_le @len_nil @len_cons : wire.

(** Side conditions of the reading steps. *)
Ltac wire_side :=
  lazymatch goal with
  | |- urange _ _ => first [eassumption | ulia | by vm_compute]
  | |- length _ = _ =>
      first [eassumption | by rewrite ?length_write_le | unfold len in *; lia]
  | |- _ = true => first [eassumption | by eval_tests | ulia | reflexivity]
  end.

(** Advance a decoder over the encoding in front of it. *)
Ltac reader_step :=
  first
    [ rewrite rbind_assoc
    | rewrite rbind_rret
    | rewrite rbind_read_le by wire_side
    | rewrite rbind_read_le_end by wire_side
    | rewrite rbind_read_bytes by wire_side
    | rewrite rbind_read_bytes_end by wire_side
    | rewrite rbind_read_byte
    | rewrite rbind_remaining
    | rewrite rbind_rest
    | rewrite rbind_guard by wire_side ].

Ltac reader_run := repeat (reader_step; cbv beta).

(** The sizes of the byte strings whose lengths are known. *)
Ltac len_facts :=
  repeat match goal with
  | H : length ?l = ?n |- _ =>
      lazymatch goal with
      | K : len l = Z.of_nat n |- _ => fail
      | _ => pose proof (len_length l n H)
      end
  end.

(** Invert every step of a successful decoder run. *)
Ltac reader_inv :=
  repeat match goal with
  | H : run_reader _ _ = Some _ |- _ => apply run_reader_inv in H as [? H]
  | H : erun _ _ = Ok _ |- _ => apply erun_inv in H as [? H]
  | H : ebind (ebind _ _) _ _ = Ok _ |- _ => rewrite ebind_assoc in H
  | H : ebind _ _ _ = Ok (_, _) |- _ => apply ebind_inv in H as (? & ? & ? & H); cbv beta in H
  | H : eguard _ _ _ = Ok _ |- _ => apply eguard_inv in H as [? ->]
  | H : orelse _ _ _ = Ok _ |- _ => apply orelse_inv in H
  | H : eremaining _ = Ok (_, _) |- _ => injection H as <- <-
  | H : eret _ _ = Ok (_, _) |- _ => injection H as <- <-
  | H : rbind (rbind _ _) _ _ = Some _ |- _ => rewrite rbind_assoc in H
  | H : rbind _ _ _ = Some (_, _) |- _ => apply rbind_inv in H as (? & ? & ? & H); cbv beta in H
  | H : rguard _ _ = Some _ |- _ => apply rguard_inv in H as [? ->]
  | H : rremaining _ = Some (_, _) |- _ => injection H as <- <-
  | H : read_rest _ = Some (_, _) |- _ => injection H as <- <-
  | H : rret _ _ = Some (_, _) |- _ => injection H as <- <-
  | H : read_le _ _ = Some (_, _) |- _ => apply read_le_inv in H as [-> ?]
  | H : read_bytes _ _ = Some (_, _) |- _ => apply read_bytes_inv in H as [-> ?]
  end.

(** A decoder that consumed everything: the unread suffix is empty. *)
Ltac no_rest :=
  autorewrite with wire in *; len_facts;
  match goal with
  | x : list Byte.byte |- _ => assert (x = []) as -> by (apply len_zero; ulia)
  end.

(** Split an equation between two encodings into equations between fields. *)
Ltac wire_inj E :=
  repeat (apply write_le_app_inj in E; [destruct E as [? E]|assumption..]);
  try (apply write_le_inj in E; [|assumption..]).

(** Field ranges of a decoded value. *)
Ltac fields :=
  try match goal with |- ?p _ => unfold p end;
  cbn; split_and?; try done; try ulia.

