(* ===== verification/Utf8.v ===== *)
(** The program's three UTF-8 validators (exam_control.cpp, exam_telemetry.cpp,
    exam_auth.cpp) against one reference: the encodings of lists of Unicode
    scalar values. *)

From S2P Require Import Prelude.

Module Utf8.

(** ** Reference *)

Definition scalar (cp : Z) : Prop := 0 <= cp <= 0x10ffff /\ ~ 0xd800 <= cp <= 0xdfff.

Definition utf8_encode (cp : Z) : bytes :=
  if cp <? 0x80 then [byte_of cp]
  else if cp <? 0x800 then [byte_of (0xc0 + cp / 64); byte_of (0x80 + cp mod 64)]
  else if cp <? 0x10000 then
    [byte_of (0xe0 + cp / 4096); byte_of (0x80 + cp / 64 mod 64); byte_of (0x80 + cp mod 64)]
  else
    [byte_of (0xf0 + cp / 262144); byte_of (0x80 + cp / 4096 mod 64);
     byte_of (0x80 + cp / 64 mod 64); byte_of (0x80 + cp mod 64)].

Definition utf8 (cps : list Z) : bytes := concat (map utf8_encode cps).

(** ** exam_control.cpp: [valid_utf8] *)

(** The width and the first bits of the code point, from the lead byte. *)
Definition control_lead_byte (lead : Z) : option (Z * Z) :=
  if lead <=? 0x7f then
    if (lead <? 0x20) || (lead =? 0x7f) then None else Some (1, lead)
  else if (lead >=? 0xc2) && (lead <=? 0xdf) then Some (2, Z.land lead 0x1f)
  else if (lead >=? 0xe0) && (lead <=? 0xef) then Some (3, Z.land lead 0x0f)
  else if (lead >=? 0xf0) && (lead <=? 0xf4) then Some (4, Z.land lead 0x07)
  else None.

Fixpoint control_continuation (codepoint : Z) (rest : bytes) : option Z :=
  match rest with
  | [] => Some codepoint
  | b :: rest' =>
      if negb (Z.land (byte_val b) 0xc0 =? 0x80) then None
      else control_continuation (Z.lor (Z.shiftl codepoint 6) (Z.land (byte_val b) 0x3f)) rest'
  end.

(** One turn of the loop: the width of the character at [value[index]]. *)
Definition control_character (rest : bytes) : option Z :=
  match rest with
  | [] => None
  | b :: rest' =>
      match control_lead_byte (byte_val b) with
      | None => None
      | Some (width, codepoint) =>
          if width >? len rest then None
          else
            match control_continuation codepoint (take (Z.to_nat (width - 1)) rest') with
            | None => None
            | Some codepoint =>
                if ((width =? 3) && (codepoint <? 0x800)) ||
                   ((width =? 4) && (codepoint <? 0x10000)) ||
                   (codepoint >? 0x10ffff) ||
                   ((codepoint >=? 0xd800) && (codepoint <=? 0xdfff))
                then None
                else Some width
            end
      end
  end.

Fixpoint control_characters (fuel : nat) (rest : bytes) : bool :=
  match rest, fuel with
  | [], _ => true
  | _, O => false
  | _, S fuel' =>
      match control_character rest with
      | None => false
      | Some width => control_characters fuel' (drop (Z.to_nat width) rest)
      end
  end.

Definition control_valid_utf8 (value : bytes) (maximum : Z) : bool :=
  if bool_decide (value = []) || (len value >? maximum) || existsb (fun c => bool_decide (c = Byte.x00)) value
  then false
  else control_characters (length value) value.

(** ** exam_telemetry.cpp: [is_valid_utf8], [valid_text] *)

Definition telemetry_trail (b : byte) : bool := Z.land (byte_val b) 0xc0 =? 0x80.

Fixpoint telemetry_is_valid_utf8 (str : bytes) : bool :=
  match str with
  | [] => true
  | b0 :: rest0 =>
      let v0 := byte_val b0 in
      if v0 =? 0 then false
      else if v0 <=? 0x7f then telemetry_is_valid_utf8 rest0
      else if Z.land v0 0xe0 =? 0xc0 then
        match rest0 with
        | b1 :: rest1 =>
            if negb (telemetry_trail b1) then false
            else if v0 <? 0xc2 then false
            else telemetry_is_valid_utf8 rest1
        | _ => false
        end
      else if Z.land v0 0xf0 =? 0xe0 then
        match rest0 with
        | b1 :: b2 :: rest2 =>
            if negb (telemetry_trail b1) || negb (telemetry_trail b2) then false
            else if (v0 =? 0xe0) && (byte_val b1 <? 0xa0) then false
            else if (v0 =? 0xed) && (byte_val b1 >=? 0xa0) then false
            else telemetry_is_valid_utf8 rest2
        | _ => false
        end
      else if Z.land v0 0xf8 =? 0xf0 then
        match rest0 with
        | b1 :: b2 :: b3 :: rest3 =>
            if negb (telemetry_trail b1) || negb (telemetry_trail b2) || negb (telemetry_trail b3) then false
            else if (v0 =? 0xf0) && (byte_val b1 <? 0x90) then false
            else if (v0 =? 0xf4) && (byte_val b1 >? 0x8f) then false
            else if v0 >? 0xf4 then false
            else telemetry_is_valid_utf8 rest3
        | _ => false
        end
      else false
  end.

Definition telemetry_valid_text (value : bytes) (maximum : Z) (allow_empty : bool) : bool :=
  if bool_decide (value = []) then allow_empty
  else if len value >? maximum then false
  else telemetry_is_valid_utf8 value.

(** ** exam_auth.cpp: [valid_utf8] *)

Fixpoint ticket_characters (text : bytes) : bool :=
  match text with
  | [] => true
  | b0 :: rest0 =>
      let v0 := byte_val b0 in
      if v0 <=? 0x7f then ticket_characters rest0
      else if Z.land v0 0xe0 =? 0xc0 then
        match rest0 with
        | b1 :: rest1 => if negb (telemetry_trail b1) then false else ticket_characters rest1
        | _ => false
        end
      else if Z.land v0 0xf0 =? 0xe0 then
        match rest0 with
        | b1 :: b2 :: rest2 =>
            if negb (telemetry_trail b1) || negb (telemetry_trail b2) then false else ticket_characters rest2
        | _ => false
        end
      else if Z.land v0 0xf8 =? 0xf0 then
        match rest0 with
        | b1 :: b2 :: b3 :: rest3 =>
            if negb (telemetry_trail b1) || negb (telemetry_trail b2) || negb (telemetry_trail b3) then false
            else ticket_characters rest3
        | _ => false
        end
      else false
  end.

Definition ticket_valid_utf8 (text : bytes) (max_bytes : Z) : bool :=
  if len text >? max_bytes then false else ticket_characters text.

(** ** Bits of a byte *)

Lemma byte_range_cases (P : Z -> Prop) `{!forall v, Decision (P v)} :
  forallb (fun v => bool_decide (P v)) (seqZ 0 256) = true ->
  forall b, P (byte_val b).
Proof.
  rewrite forallb_forall. intros Hall b. pose proof (byte_val_range b).
  specialize (Hall (byte_val b)). rewrite bool_decide_eq_true in Hall. apply Hall.
  apply list_elem_of_In, elem_of_seqZ. lia.
Qed.

Lemma trail_bits b : Z.land (byte_val b) 0xc0 = 0x80 <-> 0x80 <= byte_val b < 0xc0.
Proof. revert b. apply (byte_range_cases (fun v => Z.land v 0xc0 = 0x80 <-> 0x80 <= v < 0xc0)). by vm_compute. Qed.

Lemma lead2_bits b : Z.land (byte_val b) 0xe0 = 0xc0 <-> 0xc0 <= byte_val b < 0xe0.
Proof. revert b. apply (byte_range_cases (fun v => Z.land v 0xe0 = 0xc0 <-> 0xc0 <= v < 0xe0)). by vm_compute. Qed.

Lemma lead3_bits b : Z.land (byte_val b) 0xf0 = 0xe0 <-> 0xe0 <= byte_val b < 0xf0.
Proof. revert b. apply (byte_range_cases (fun v => Z.land v 0xf0 = 0xe0 <-> 0xe0 <= v < 0xf0)). by vm_compute. Qed.

Lemma lead4_bits b : Z.land (byte_val b) 0xf8 = 0xf0 <-> 0xf0 <= byte_val b < 0xf8.
Proof. revert b. apply (byte_range_cases (fun v => Z.land v 0xf8 = 0xf0 <-> 0xf0 <= v < 0xf8)). by vm_compute. Qed.

Lemma append_bits cp v : 0 <= cp -> 0 <= v < 64 -> Z.lor (Z.shiftl cp 6) v = cp * 64 + v.
Proof.
  intros Hc Hv. pose proof (Z.add_lor_land (Z.shiftl cp 6) v) as Hsum.
  assert (Z.land (Z.shiftl cp 6) v = 0) as Hz.
  { apply Z.bits_inj'. intros n Hn. rewrite Z.land_spec, Z.shiftl_spec, Z.bits_0 by lia.
    destruct (decide (n < 6)) as [Hlt|Hge].
    - by rewrite (Z.testbit_neg_r cp) by lia.
    - rewrite <- (Z.mod_small v (2 ^ 6)) by lia.
      rewrite Z.mod_pow2_bits_high by lia. apply andb_false_r. }
  rewrite Z.shiftl_mul_pow2 in * by lia. change (2 ^ 6) with 64 in *. lia.
Qed.

(** A byte written back. *)
Lemma byte_of_eq b v : byte_val b = v -> byte_of v = b.
Proof. intros <-. apply byte_of_val. Qed.

(** ** The encodings of the scalar values, by width *)

Inductive Encoded : Z -> bytes -> Prop :=
| Encoded1 b0 cp :
    cp = byte_val b0 -> cp < 0x80 -> Encoded cp [b0]
| Encoded2 b0 b1 cp :
    cp = (byte_val b0 - 0xc0) * 64 + (byte_val b1 - 0x80) ->
    0xc2 <= byte_val b0 < 0xe0 -> 0x80 <= byte_val b1 < 0xc0 -> Encoded cp [b0; b1]
| Encoded3 b0 b1 b2 cp :
    cp = (byte_val b0 - 0xe0) * 4096 + (byte_val b1 - 0x80) * 64 + (byte_val b2 - 0x80) ->
    0xe0 <= byte_val b0 < 0xf0 -> 0x80 <= byte_val b1 < 0xc0 -> 0x80 <= byte_val b2 < 0xc0 ->
    0x800 <= cp -> ~ 0xd800 <= cp <= 0xdfff -> Encoded cp [b0; b1; b2]
| Encoded4 b0 b1 b2 b3 cp :
    cp = (byte_val b0 - 0xf0) * 262144 + (byte_val b1 - 0x80) * 4096
         + (byte_val b2 - 0x80) * 64 + (byte_val b3 - 0x80) ->
    0xf0 <= byte_val b0 < 0xf8 -> 0x80 <= byte_val b1 < 0xc0 ->
    0x80 <= byte_val b2 < 0xc0 -> 0x80 <= byte_val b3 < 0xc0 ->
    0x10000 <= cp <= 0x10ffff -> Encoded cp [b0; b1; b2; b3].

Ltac divmod := Z.to_euclidean_division_equations; lia.

Lemma encoded_spec cp bs : Encoded cp bs <-> scalar cp /\ bs = utf8_encode cp.
Proof.
  split.
  - intros H. inversion H; subst; pose proof (byte_val_range b0);
      (split; [unfold scalar; lia|]); unfold utf8_encode;
      repeat (case_match; bool_to_prop; try lia);
      repeat (apply f_equal2; [symmetry; apply byte_of_eq; divmod|]); done.
  - intros [[Hr Hs] ->]. unfold utf8_encode.
    repeat (case_match; bool_to_prop);
      [apply Encoded1|apply Encoded2|apply Encoded3|apply Encoded4];
      rewrite ?byte_val_of; divmod.
Qed.

Lemma encoded_length cp bs : Encoded cp bs -> (1 <= length bs <= 4)%nat.
Proof. intros H. inversion H; simpl; lia. Qed.

(** A validator that consumes exactly one allowed character at a time accepts
    exactly the encodings of the lists of allowed scalar values. *)
Lemma validator_exact (valid : bytes -> bool) (P : Z -> Prop) :
  valid [] = true ->
  (forall cp bs rest, Encoded cp bs -> P cp -> valid (bs ++ rest) = valid rest) ->
  (forall b v, valid (b :: v) = true ->
     exists cp bs rest, Encoded cp bs /\ P cp /\ b :: v = bs ++ rest /\ valid rest = true) ->
  forall v, valid v = true <-> exists cps, Forall (fun cp => scalar cp /\ P cp) cps /\ v = utf8 cps.
Proof.
  intros Hnil Hstep Hinv v. split.
  - induction v as [v IH] using (induction_ltof1 _ (@length byte)). unfold ltof in IH.
    destruct v as [|b v]; [by exists []|]. intros Hv.
    apply Hinv in Hv as (cp & bs & rest & He & HP & E & Hv).
    pose proof (encoded_length _ _ He). rewrite E in *.
    destruct (IH rest) as (cps & Hc & ->); [rewrite length_app; lia|done|].
    apply encoded_spec in He as [Hs ->]. exists (cp :: cps). by split; [constructor|].
  - intros (cps & Hc & ->). induction Hc as [|cp cps [Hs HP] _ IH]; [done|].
    unfold utf8 in *. cbn [map concat]. by rewrite (Hstep cp) by (rewrite ?encoded_spec; done).
Qed.

(** ** The validators, one character at a time *)

Ltac inv_forall :=
  repeat match goal with
  | H : Forall _ (_ :: _) |- _ => apply Forall_cons in H as [? H]
  end.

(** Tests on the bits of a byte, as tests on its value. *)
Ltac byte_bits :=
  unfold telemetry_trail in *; bool_to_prop;
  repeat match goal with
  | H : Z.land (byte_val _) 0xc0 = 0x80 |- _ => apply trail_bits in H
  | H : Z.land (byte_val _) 0xe0 = 0xc0 |- _ => apply lead2_bits in H
  | H : Z.land (byte_val _) 0xf0 = 0xe0 |- _ => apply lead3_bits in H
  | H : Z.land (byte_val _) 0xf8 = 0xf0 |- _ => apply lead4_bits in H
  | H : Z.land (byte_val _) 0xc0 <> 0x80 |- _ => rewrite trail_bits in H
  | H : Z.land (byte_val _) 0xe0 <> 0xc0 |- _ => rewrite lead2_bits in H
  | H : Z.land (byte_val _) 0xf0 <> 0xe0 |- _ => rewrite lead3_bits in H
  | H : Z.land (byte_val _) 0xf8 <> 0xf0 |- _ => rewrite lead4_bits in H
  | H : (_ || _) = true |- _ => apply orb_true_iff in H as [H|H]; bool_to_prop
  | H : (_ && _) = false |- _ => apply andb_false_iff in H as [H|H]; bool_to_prop
  end.

(** Name the bytes of a character that has just been recognised. *)
Ltac recognised :=
  match goal with
  | Hv : _ ?rest = true |- exists cp bs rest, Encoded cp bs /\ _ /\ ?whole = _ /\ _ =>
      lazymatch whole with
      | ?b0 :: rest => eexists _, [b0], rest
      | ?b0 :: ?b1 :: rest => eexists _, [b0; b1], rest
      | ?b0 :: ?b1 :: ?b2 :: rest => eexists _, [b0; b1; b2], rest
      | ?b0 :: ?b1 :: ?b2 :: ?b3 :: rest => eexists _, [b0; b1; b2; b3], rest
      end;
      split; [econstructor; [reflexivity|lia..]|]; split; [lia|done]
  end.

Lemma telemetry_step cp bs rest :
  Encoded cp bs -> cp <> 0 ->
  telemetry_is_valid_utf8 (bs ++ rest) = telemetry_is_valid_utf8 rest.
Proof.
  intros He H0. inversion He; subst; pose proof (byte_val_range b0); cbn;
    repeat (case_match; byte_bits; try lia); done.
Qed.

Lemma telemetry_inv b v :
  telemetry_is_valid_utf8 (b :: v) = true ->
  exists cp bs rest, Encoded cp bs /\ cp <> 0 /\ b :: v = bs ++ rest /\
    telemetry_is_valid_utf8 rest = true.
Proof.
  cbn. pose proof (byte_val_range b) as Hb. intros Hv.
  repeat (case_match; subst; try discriminate).
  all: byte_bits; try lia; recognised.
Qed.

Lemma control_continuation_eq cp bs :
  0 <= cp -> Forall (fun b => 0x80 <= byte_val b < 0xc0) bs ->
  control_continuation cp bs =
    Some (fold_left (fun cp b => cp * 64 + (byte_val b - 0x80)) bs cp).
Proof.
  intros Hcp Hbs. revert cp Hcp. induction Hbs as [|b bs Hb Hbs IH]; intros cp Hcp; [done|].
  cbn. assert (Z.land (byte_val b) 0xc0 = 0x80) as -> by by apply trail_bits. cbn.
  assert (Z.land (byte_val b) 0x3f = byte_val b - 0x80) as ->.
  { rewrite (Z.land_ones _ 6) by lia. change (2 ^ 6) with 64. divmod. }
  rewrite append_bits by lia. apply IH. lia.
Qed.

Lemma control_continuation_trail cp bs :
  ~ Forall (fun b => 0x80 <= byte_val b < 0xc0) bs -> control_continuation cp bs = None.
Proof.
  revert cp. induction bs as [|b bs IH]; intros cp Hbs; [by destruct Hbs|]. cbn.
  destruct (decide (0x80 <= byte_val b < 0xc0)) as [Hb|Hb].
  - case_match; [done|]. apply IH. intros HF. apply Hbs. by constructor.
  - rewrite <- trail_bits in Hb. by rewrite (proj2 (Z.eqb_neq _ _) Hb).
Qed.

Lemma lead_value_bits b :
  Z.land (byte_val b) 0x1f = byte_val b mod 32 /\ Z.land (byte_val b) 0x0f = byte_val b mod 16 /\
  Z.land (byte_val b) 0x07 = byte_val b mod 8.
Proof.
  split; [by rewrite (Z.land_ones _ 5)|]. split; [by rewrite (Z.land_ones _ 4)|].
  by rewrite (Z.land_ones _ 3).
Qed.

(** The characters exam control messages allow: no C0 control, no DEL. *)
Definition printable (cp : Z) : Prop := 0x20 <= cp /\ cp <> 0x7f.

Lemma lead_byte_spec b w cp :
  control_lead_byte (byte_val b) = Some (w, cp) <->
  (w = 1 /\ cp = byte_val b /\ printable cp /\ cp < 0x80) \/
  (w = 2 /\ cp = byte_val b - 0xc0 /\ 0xc2 <= byte_val b < 0xe0) \/
  (w = 3 /\ cp = byte_val b - 0xe0 /\ 0xe0 <= byte_val b < 0xf0) \/
  (w = 4 /\ cp = byte_val b - 0xf0 /\ 0xf0 <= byte_val b <= 0xf4).
Proof.
  unfold control_lead_byte, printable. destruct (lead_value_bits b) as (-> & -> & ->).
  repeat (case_match; byte_bits); split; intros Hl; simplify_eq; try lia;
    try (destruct Hl as [Hl|[Hl|[Hl|Hl]]]; lia);
    try (destruct Hl as [Hl|[Hl|[Hl|Hl]]]; destruct Hl as (-> & -> & Hl); try lia;
         do 2 f_equal; divmod);
    divmod.
Qed.

(** What the loop computes once the lead byte and the trail bytes are known. *)
Lemma control_character_eq b w cp trail rest :
  control_lead_byte (byte_val b) = Some (w, cp) -> 0 <= cp -> len trail = w - 1 ->
  Forall (fun b => 0x80 <= byte_val b < 0xc0) trail ->
  control_character (b :: trail ++ rest) =
    let cp := fold_left (fun cp b => cp * 64 + (byte_val b - 0x80)) trail cp in
    if ((w =? 3) && (cp <? 0x800)) || ((w =? 4) && (cp <? 0x10000)) || (cp >? 0x10ffff) ||
       ((cp >=? 0xd800) && (cp <=? 0xdfff)) then None else Some w.
Proof.
  intros Hl Hcp Hw HF. unfold control_character. rewrite Hl.
  assert ((w >? len (b :: trail ++ rest)) = false) as ->.
  { rewrite len_cons, len_app. pose proof (len_nonneg rest). lia. }
  rewrite take_app_length' by (unfold len in *; lia).
  by rewrite control_continuation_eq.
Qed.

(** The final tests of the loop pass on an encoded character. *)
Lemma control_tests w cp :
  (w = 3 -> 0x800 <= cp) -> (w = 4 -> 0x10000 <= cp) -> cp <= 0x10ffff ->
  ~ 0xd800 <= cp <= 0xdfff ->
  ((w =? 3) && (cp <? 0x800)) || ((w =? 4) && (cp <? 0x10000)) || (cp >? 0x10ffff) ||
    ((cp >=? 0xd800) && (cp <=? 0xdfff)) = false.
Proof.
  intros H3 H4 Hm Hs. repeat rewrite orb_false_iff. split_and!.
  - destruct (Z.eqb_spec w 3); [apply Z.ltb_ge; auto|done].
  - destruct (Z.eqb_spec w 4); [apply Z.ltb_ge; auto|done].
  - lia.
  - lia.
Qed.

Lemma control_character_step cp bs rest :
  Encoded cp bs -> printable cp -> control_character (bs ++ rest) = Some (len bs).
Proof.
  intros He Hp. inversion He; subst.
  - change ([b0] ++ rest) with (b0 :: [] ++ rest).
    rewrite (control_character_eq b0 1 (byte_val b0) [] rest); cbn;
      [rewrite control_tests; [done|lia..]|apply lead_byte_spec; unfold printable in *; lia|
       apply byte_val_range|done|constructor].
  - change ([b0; b1] ++ rest) with (b0 :: [b1] ++ rest).
    rewrite (control_character_eq b0 2 (byte_val b0 - 0xc0) [b1] rest); cbn;
      [rewrite control_tests; [done|lia..]|apply lead_byte_spec; unfold printable in *; lia|lia|done|
       repeat (apply Forall_cons; split; [lia|]); by apply Forall_nil_2].
  - change ([b0; b1; b2] ++ rest) with (b0 :: [b1; b2] ++ rest).
    rewrite (control_character_eq b0 3 (byte_val b0 - 0xe0) [b1; b2] rest); cbn;
      [rewrite control_tests; [done|lia..]|apply lead_byte_spec; unfold printable in *; lia|lia|done|
       repeat (apply Forall_cons; split; [lia|]); by apply Forall_nil_2].
  - change ([b0; b1; b2; b3] ++ rest) with (b0 :: [b1; b2; b3] ++ rest).
    rewrite (control_character_eq b0 4 (byte_val b0 - 0xf0) [b1; b2; b3] rest); cbn;
      [rewrite control_tests; [done|lia..]|apply lead_byte_spec; unfold printable in *; lia|lia|done|
       repeat (apply Forall_cons; split; [lia|]); by apply Forall_nil_2].
Qed.

Lemma control_character_inv b v w :
  control_character (b :: v) = Some w ->
  exists cp bs rest, Encoded cp bs /\ printable cp /\ b :: v = bs ++ rest /\ w = len bs.
Proof.
  intros Hc. assert (Hc' := Hc). unfold control_character in Hc'.
  destruct (control_lead_byte _) as [[w' cp]|] eqn:Hl; [|done].
  destruct (w' >? len (b :: v)) eqn:Hw; [done|].
  destruct (decide (Forall (fun b => 0x80 <= byte_val b < 0xc0)
    (take (Z.to_nat (w' - 1)) v))) as [HF|HF];
    [clear Hc'|by rewrite control_continuation_trail in Hc'].
  pose proof (proj1 (lead_byte_spec _ _ _) Hl) as Hcases.
  assert (exists trail rest, v = trail ++ rest /\ len trail = w' - 1 /\
    Forall (fun b => 0x80 <= byte_val b < 0xc0) trail) as (trail & rest & -> & Hlen & HF').
  { exists (take (Z.to_nat (w' - 1)) v), (drop (Z.to_nat (w' - 1)) v).
    split; [symmetry; apply take_drop|]. split; [|done].
    rewrite len_cons in Hw. unfold len in *. rewrite length_take. lia. }
  clear HF Hw. pose proof (byte_val_range b).
  rewrite (control_character_eq b w' cp) in Hc by (done || lia). cbn in Hc.
  case_match; [done|]. injection Hc as <-. bool_to_prop.
  exists (fold_left (fun cp b => cp * 64 + (byte_val b - 0x80)) trail cp), (b :: trail), rest.
  assert (w' = len (b :: trail)) as Hw by (rewrite len_cons; lia).
  cut (Encoded (fold_left (fun cp b => cp * 64 + (byte_val b - 0x80)) trail cp) (b :: trail) /\
    printable (fold_left (fun cp b => cp * 64 + (byte_val b - 0x80)) trail cp));
    [intros [? ?]; by split_and!|]. clear Hl Hw.
  destruct Hcases as [(-> & -> & ? & ?)|[(-> & -> & ?)|[(-> & -> & ?)|(-> & -> & ?)]]];
    destruct trail as [|b1 [|b2 [|b3 [|b4 trail]]]];
    try (unfold len in Hlen; cbn in Hlen; lia); clear Hlen;
    inv_forall; cbn in *; byte_bits; try lia;
    (split; [first [apply Encoded1|apply Encoded2|apply Encoded3|apply Encoded4]; lia
            |first [done|unfold printable; lia]]).
Qed.

Lemma control_fuel fuel v :
  (length v <= fuel)%nat -> control_characters fuel v = control_characters (length v) v.
Proof.
  revert v. induction fuel as [fuel IH] using lt_wf_ind. intros [|b v] Hf; [by destruct fuel|].
  destruct fuel as [|fuel]; [simpl in Hf; lia|].
  cbn [control_characters length].
  destruct (control_character (b :: v)) as [w|] eqn:Hc; [|done].
  apply control_character_inv in Hc as (cp & bs & rest & He & _ & E & ->).
  pose proof (encoded_length _ _ He) as Hl. pose proof (f_equal length E) as HE.
  rewrite length_app in HE. simpl in HE, Hf.
  rewrite E, drop_app_length' by (unfold len; lia).
  rewrite IH, (IH (length v)); [done|lia..].
Qed.

Lemma ticket_step cp bs rest :
  Encoded cp bs -> ticket_characters (bs ++ rest) = ticket_characters rest.
Proof.
  intros He. inversion He; subst; pose proof (byte_val_range b0); cbn;
    repeat (case_match; byte_bits; try lia); done.
Qed.

Lemma control_step cp bs rest :
  Encoded cp bs -> printable cp ->
  control_characters (length (bs ++ rest)) (bs ++ rest) = control_characters (length rest) rest.
Proof.
  intros He Hp. pose proof (encoded_length _ _ He) as Hl.
  pose proof (control_character_step cp bs rest He Hp) as Hc.
  destruct (bs ++ rest) as [|b v] eqn:E; [done|].
  pose proof (f_equal length E) as HE. rewrite length_app in HE. simpl in HE.
  cbn [control_characters length]. rewrite Hc, <- E, drop_app_length' by (unfold len; lia).
  apply control_fuel. lia.
Qed.

Lemma control_inv b v :
  control_characters (length (b :: v)) (b :: v) = true ->
  exists cp bs rest, Encoded cp bs /\ printable cp /\ b :: v = bs ++ rest /\
    control_characters (length rest) rest = true.
Proof.
  cbn [control_characters length].
  destruct (control_character (b :: v)) as [w|] eqn:Hc; [|done]. intros Hv.
  apply control_character_inv in Hc as (cp & bs & rest & He & Hp & E & ->).
  pose proof (encoded_length _ _ He) as Hl. pose proof (f_equal length E) as HE.
  rewrite length_app in HE. simpl in HE.
  rewrite E, drop_app_length', control_fuel in Hv by (unfold len; lia).
  exists cp, bs, rest. done.
Qed.

Definition all_chars (P : Z -> Prop) (v : bytes) : Prop :=
  exists cps, Forall (fun cp => scalar cp /\ P cp) cps /\ v = utf8 cps.

Lemma telemetry_exact v :
  telemetry_is_valid_utf8 v = true <-> all_chars (fun cp => cp <> 0) v.
Proof.
  apply validator_exact; [done|exact telemetry_step|exact telemetry_inv].
Qed.

Lemma control_exact v :
  control_characters (length v) v = true <-> all_chars printable v.
Proof.
  revert v. apply (validator_exact (fun v => control_characters (length v) v));
    [done|exact control_step|exact control_inv].
Qed.

(** A zero byte in an encoding is the character U+0000. *)
Lemma encoded_no_zero cp bs : Encoded cp bs -> cp <> 0 -> Byte.x00 ∉ bs.
Proof.
  intros He Hcp Hin. assert (byte_val Byte.x00 = 0) as H0 by done.
  inversion He; subst;
    repeat match goal with H : _ ∈ _ :: _ |- _ => apply elem_of_cons in H as [<-|H] end;
    try (by apply elem_of_nil in Hin); lia.
Qed.

Lemma utf8_no_zero P cps :
  (forall cp, P cp -> cp <> 0) -> Forall (fun cp => scalar cp /\ P cp) cps ->
  Byte.x00 ∉ utf8 cps.
Proof.
  intros HP Hc. induction Hc as [|cp cps [Hs Hp] _ IH]; [by apply not_elem_of_nil|].
  unfold utf8 in *. cbn [map concat]. rewrite elem_of_app. intros [Hin|Hin]; [|done].
  revert Hin. apply (encoded_no_zero cp); [by apply encoded_spec|by apply HP].
Qed.

(** The ticket validator accepts every encoding, and others besides: an
    overlong NUL, a surrogate, a value beyond U+10FFFF. *)
Lemma ticket_validator_weaker :
  (forall cps, Forall scalar cps -> ticket_characters (utf8 cps) = true) /\
  ticket_valid_utf8 [Byte.xc0; Byte.x80] 2 = true /\
  ticket_valid_utf8 [Byte.xed; Byte.xa0; Byte.x80] 3 = true /\
  ticket_valid_utf8 [Byte.xf7; Byte.xbf; Byte.xbf; Byte.xbf] 4 = true /\
  telemetry_is_valid_utf8 [Byte.xc0; Byte.x80] = false /\
  telemetry_is_valid_utf8 [Byte.xed; Byte.xa0; Byte.x80] = false /\
  telemetry_is_valid_utf8 [Byte.xf7; Byte.xbf; Byte.xbf; Byte.xbf] = false.
Proof.
  split; [|by vm_compute]. intros cps Hc. induction Hc as [|cp cps Hs _ IH]; [done|].
  unfold utf8 in *. cbn [map concat]. rewrite (ticket_step cp); [done|by apply encoded_spec].
Qed.

(** ** Property *)

(** The two UTF-8 validators that guard exam control messages and exam
    telemetry, one written as a code point accumulator and the other as range
    tests on lead and trail bytes, accept exactly the UTF-8 encodings of lists
    of Unicode scalar values within the length bound: telemetry text without
    U+0000 (empty only where the caller allows it), control text non-empty and
    without C0 controls or DEL. In particular both reject overlong forms,
    surrogates, values beyond U+10FFFF and truncated characters. *)
Theorem utf8_validators_exact (v : bytes) (maximum : Z) (allow_empty : bool) :
  (telemetry_valid_text v maximum allow_empty = true <->
    (v = [] /\ allow_empty = true \/ v <> [] /\ len v <= maximum) /\
    all_chars (fun cp => cp <> 0) v) /\
  (control_valid_utf8 v maximum = true <->
    v <> [] /\ len v <= maximum /\ all_chars printable v).
Proof.
  rewrite <- telemetry_exact, <- control_exact. split.
  - unfold telemetry_valid_text. case_bool_decide as Hv; [subst v; cbn; naive_solver|].
    destruct (Z.gtb_spec (len v) maximum); split; intuition (try lia; try done).
  - unfold control_valid_utf8. case_bool_decide as Hv; cbn; [naive_solver|].
    destruct (Z.gtb_spec (len v) maximum); cbn; [split; [done|lia]|].
    case_match eqn:Hz; [|naive_solver lia]. split; [done|]. intros (_ & _ & Hc).
    apply control_exact in Hc as (cps & Hc & ->).
    apply existsb_exists in Hz as (c & Hc' & ->%bool_decide_eq_true).
    destruct (utf8_no_zero printable cps); [|done|by apply list_elem_of_In].
    unfold printable. lia.
Qed.

End Utf8.
