(* ===== verification/Codec.v ===== *)
(** The contract every message codec of the program is held to.

    A component that owns a message type offers an instance of [Codec]; a
    client is proved against the class alone, so that
    its theorems hold of every message the program defines. *)

From S2P Require Import Prelude Wire.

(** An exact codec: a byte string decodes to [a] precisely when it is the
    encoding of the valid value [a].  [encode] of an invalid value is whatever
    the source returns for it (usually an empty vector). *)
Class Codec (A : Type) := {
  encode : A -> bytes;
  decode : bytes -> option A;
  valid : A -> Prop;
  decode_encode (a : A) : valid a -> decode (encode a) = Some a;
  decode_exact (w : bytes) (a : A) : decode w = Some a -> valid a /\ w = encode a
}.
#[global] Hint Mode Codec ! : typeclass_instances.

Section Laws.
Context {A : Type} `{Codec A}.

Lemma decode_iff (w : bytes) (a : A) : decode w = Some a <-> valid a /\ w = encode a.
Proof. split; [apply decode_exact|]. intros [Ha ->]. by apply decode_encode. Qed.

(** Distinct valid values have distinct encodings. *)
Lemma encode_inj (a b : A) : valid a -> valid b -> encode a = encode b -> a = b.
Proof.
  intros Ha Hb E. apply decode_encode in Ha, Hb. rewrite E in Ha. congruence.
Qed.

(** A decoded payload determines the bytes it came from. *)
Lemma decode_inj (w w' : bytes) (a : A) :
  decode w = Some a -> decode w' = Some a -> w = w'.
Proof. by intros [_ ->]%decode_exact [_ ->]%decode_exact. Qed.
End Laws.

