(* ===== verification/Protocol.v ===== *)
(** Command framing: the 20-byte command header, the 32-byte connection
    preamble, the 44-byte video header and the length-prefixed TCP frame
    (common/include/nstu/protocol.hpp, common/src/protocol.cpp).

    An [enum class] whose values come off the wire through [static_cast] is
    kept as its underlying integer, since the cast can produce any value. *)

From S2P Require Import Prelude Wire.
Import ReaderNotations.
#[local] Open Scope nstu_scope.

Module Protocol.

(** ** Constants *)

Definition kMagic : Z := 0x4E535455.
Definition kCommandVersion : Z := 1.
Definition kVideoVersion : Z := 2.
Definition kVersion : Z := kCommandVersion.
Definition kCommandHeaderBytes : Z := 20.
Definition kConnectionPreambleBytes : Z := 32.
Definition kVideoHeaderBytes : Z := 44.
Definition kMaxCommandPayload : Z := 64 * 1024.
Definition kMaxTcpBufferedBytes : Z := 4 * (kCommandHeaderBytes + kMaxCommandPayload).

(** ** Command types *)

Inductive CommandType : Set :=
  | CT_hello | CT_hello_ack | CT_heartbeat | CT_lock | CT_unlock | CT_chat
  | CT_keyframe_request | CT_auth_hello | CT_auth_challenge | CT_auth_proof
  | CT_auth_accept | CT_enrollment_request | CT_enrollment_accept | CT_key_rotation
  | CT_key_revocation | CT_video_group_key | CT_status_request | CT_status_report
  | CT_start_stream | CT_stop_stream | CT_video_nack | CT_start_snapshots
  | CT_stop_snapshots | CT_snapshot_frame | CT_overlay_stroke | CT_overlay_clear
  | CT_host_snapshot | CT_host_broadcast_stop | CT_remote_start | CT_remote_input
  | CT_remote_end | CT_exam_answer_event | CT_exam_answer_ack | CT_exam_state_request
  | CT_exam_state_response | CT_exam_start | CT_exam_stop | CT_pairing_hello
  | CT_pairing_offer | CT_pairing_confirm | CT_pairing_accept | CT_pairing_reject
  | CT_freeze_set | CT_freeze_report | CT_uwf_configure | CT_uwf_report
  | CT_uwf_fleet_configure | CT_uwf_fleet_status | CT_audit_upload | CT_audit_ack
  | CT_client_chat | CT_overlay_erase | CT_exam_ready | CT_exam_begin
  | CT_exam_telemetry_enable | CT_exam_telemetry_batch | CT_exam_telemetry_ack
  | CT_help_request | CT_help_ack | CT_launch_url | CT_power_action | CT_wol_report
  | CT_file_dist_start | CT_file_dist_chunk | CT_file_dist_finish | CT_file_dist_status
  | CT_file_dist_cancel | CT_host_broadcast_mode | CT_fleet_metadata.

Definition command_type_value (t : CommandType) : Z :=
  match t with
  | CT_hello => 1 | CT_hello_ack => 2 | CT_heartbeat => 3 | CT_lock => 4
  | CT_unlock => 5 | CT_chat => 6 | CT_keyframe_request => 7 | CT_auth_hello => 8
  | CT_auth_challenge => 9 | CT_auth_proof => 10 | CT_auth_accept => 11
  | CT_enrollment_request => 12 | CT_enrollment_accept => 13 | CT_key_rotation => 14
  | CT_key_revocation => 15 | CT_video_group_key => 16 | CT_status_request => 17
  | CT_status_report => 18 | CT_start_stream => 19 | CT_stop_stream => 20
  | CT_video_nack => 21 | CT_start_snapshots => 22 | CT_stop_snapshots => 23
  | CT_snapshot_frame => 24 | CT_overlay_stroke => 25 | CT_overlay_clear => 26
  | CT_host_snapshot => 27 | CT_host_broadcast_stop => 28 | CT_remote_start => 29
  | CT_remote_input => 30 | CT_remote_end => 31 | CT_exam_answer_event => 32
  | CT_exam_answer_ack => 33 | CT_exam_state_request => 34
  | CT_exam_state_response => 35 | CT_exam_start => 36 | CT_exam_stop => 37
  | CT_pairing_hello => 38 | CT_pairing_offer => 39 | CT_pairing_confirm => 40
  | CT_pairing_accept => 41 | CT_pairing_reject => 42 | CT_freeze_set => 43
  | CT_freeze_report => 44 | CT_uwf_configure => 45 | CT_uwf_report => 46
  | CT_uwf_fleet_configure => 47 | CT_uwf_fleet_status => 48 | CT_audit_upload => 49
  | CT_audit_ack => 50 | CT_client_chat => 51 | CT_overlay_erase => 52
  | CT_exam_ready => 53 | CT_exam_begin => 54 | CT_exam_telemetry_enable => 55
  | CT_exam_telemetry_batch => 56 | CT_exam_telemetry_ack => 57 | CT_help_request => 58
  | CT_help_ack => 59 | CT_launch_url => 60 | CT_power_action => 61
  | CT_wol_report => 62 | CT_file_dist_start => 63 | CT_file_dist_chunk => 64
  | CT_file_dist_finish => 65 | CT_file_dist_status => 66 | CT_file_dist_cancel => 67
  | CT_host_broadcast_mode => 68 | CT_fleet_metadata => 69
  end.

Definition command_types : list CommandType :=
  [ CT_hello; CT_hello_ack; CT_heartbeat; CT_lock; CT_unlock; CT_chat;
    CT_keyframe_request; CT_auth_hello; CT_auth_challenge; CT_auth_proof;
    CT_auth_accept; CT_enrollment_request; CT_enrollment_accept; CT_key_rotation;
    CT_key_revocation; CT_video_group_key; CT_status_request; CT_status_report;
    CT_start_stream; CT_stop_stream; CT_video_nack; CT_start_snapshots;
    CT_stop_snapshots; CT_snapshot_frame; CT_overlay_stroke; CT_overlay_clear;
    CT_host_snapshot; CT_host_broadcast_stop; CT_remote_start; CT_remote_input;
    CT_remote_end; CT_exam_answer_event; CT_exam_answer_ack; CT_exam_state_request;
    CT_exam_state_response; CT_exam_start; CT_exam_stop; CT_pairing_hello;
    CT_pairing_offer; CT_pairing_confirm; CT_pairing_accept; CT_pairing_reject;
    CT_freeze_set; CT_freeze_report; CT_uwf_configure; CT_uwf_report;
    CT_uwf_fleet_configure; CT_uwf_fleet_status; CT_audit_upload; CT_audit_ack;
    CT_client_chat; CT_overlay_erase; CT_exam_ready; CT_exam_begin;
    CT_exam_telemetry_enable; CT_exam_telemetry_batch; CT_exam_telemetry_ack;
    CT_help_request; CT_help_ack; CT_launch_url; CT_power_action; CT_wol_report;
    CT_file_dist_start; CT_file_dist_chunk; CT_file_dist_finish; CT_file_dist_status;
    CT_file_dist_cancel; CT_host_broadcast_mode; CT_fleet_metadata ].

Definition command_type_of_value (v : Z) : option CommandType :=
  find (fun t => command_type_value t =? v) command_types.

(** ** Records *)

Record CommandEnvelope := mkCommandEnvelope {
  ce_version : Z;
  ce_type : Z;
  ce_payload_bytes : Z;
  ce_request_id : Z
}.

(** [ConnectionRole]. *)
Definition role_client : Z := 1.
Definition role_server : Z := 2.
Definition role_diagnostic : Z := 3.

Record ConnectionPreamble := mkConnectionPreamble {
  cp_version : Z;
  cp_role : Z;
  cp_flags : Z;
  cp_preamble_bytes : Z;
  cp_reserved : Z;
  cp_key_id : Z;
  cp_identity : bytes
}.

(** [VideoFlags]. *)
Definition flag_none : Z := 0.
Definition flag_keyframe : Z := 1.
Definition flag_end_of_frame : Z := 2.

Record VideoPacketHeader := mkVideoPacketHeader {
  vh_version : Z;
  vh_flags : Z;
  vh_stream_id : Z;
  vh_packet_sequence : Z;
  vh_frame_id : Z;
  vh_fragment_index : Z;
  vh_fragment_count : Z;
  vh_payload_bytes : Z;
  vh_capture_time_100ns : Z
}.

Record TcpFrame := mkTcpFrame {
  tf_envelope : CommandEnvelope;
  tf_payload : bytes
}.

(** ** Headers *)

Definition encode_command_header (envelope : CommandEnvelope) : bytes :=
  write_le 4 kMagic ++
  write_le 2 (ce_version envelope) ++
  write_le 2 (ce_type envelope) ++
  write_le 4 (ce_payload_bytes envelope) ++
  write_le 8 (ce_request_id envelope).

Definition command_header_reader : reader CommandEnvelope :=
  magic <- read_le 4 ;; guard (magic =? kMagic) ;;
  version <- read_le 2 ;;
  type <- read_le 2 ;;
  payload_bytes <- read_le 4 ;;
  request_id <- read_le 8 ;;
  guard (version =? kVersion) ;;
  rret (mkCommandEnvelope version type payload_bytes request_id).

Definition decode_command_header (wire : bytes) : option CommandEnvelope :=
  if len wire <? kCommandHeaderBytes then None
  else run_reader command_header_reader wire.

Definition known_role (role : Z) : bool :=
  (role =? role_client) || (role =? role_server) || (role =? role_diagnostic).

Definition encode_connection_preamble (preamble : ConnectionPreamble) : bytes :=
  if negb (cp_preamble_bytes preamble =? kConnectionPreambleBytes) ||
     negb (cp_reserved preamble =? 0) || negb (known_role (cp_role preamble))
  then []
  else
    write_le 4 kMagic ++
    write_le 2 (cp_version preamble) ++
    write_le 1 (cp_role preamble) ++
    write_le 1 (cp_flags preamble) ++
    write_le 2 (cp_preamble_bytes preamble) ++
    write_le 2 (cp_reserved preamble) ++
    write_le 4 (cp_key_id preamble) ++
    cp_identity preamble.

(** [std::any_of(..., value != std::byte{0})]. *)
Definition any_nonzero (bs : bytes) : bool :=
  existsb (fun b => negb (byte_val b =? 0)) bs.
#[global] Arguments any_nonzero : simpl never.

Definition connection_preamble_reader : reader ConnectionPreamble :=
  magic <- read_le 4 ;; guard (magic =? kMagic) ;;
  version <- read_le 2 ;;
  role <- read_le 1 ;;
  flags <- read_le 1 ;;
  preamble_bytes <- read_le 2 ;;
  reserved <- read_le 2 ;;
  key_id <- read_le 4 ;;
  left <- rremaining ;;
  guard ((left =? 16) && (version =? kCommandVersion) &&
         (preamble_bytes =? kConnectionPreambleBytes) && (reserved =? 0) &&
         known_role role) ;;
  identity <- read_bytes 16 ;;
  guard (negb ((role =? role_client) &&
               (negb (any_nonzero identity) || (key_id =? 0)))) ;;
  guard (negb (((role =? role_server) || (role =? role_diagnostic)) &&
               (any_nonzero identity || negb (key_id =? 0)))) ;;
  rret (mkConnectionPreamble version role flags preamble_bytes reserved key_id identity).

Definition decode_connection_preamble (wire : bytes) : option ConnectionPreamble :=
  if negb (len wire =? kConnectionPreambleBytes) then None
  else run_reader connection_preamble_reader wire.

Definition encode_video_header (header : VideoPacketHeader) : bytes :=
  write_le 4 kMagic ++
  write_le 2 (vh_version header) ++
  write_le 2 (vh_flags header) ++
  write_le 4 (vh_stream_id header) ++
  write_le 8 (vh_packet_sequence header) ++
  write_le 8 (vh_frame_id header) ++
  write_le 2 (vh_fragment_index header) ++
  write_le 2 (vh_fragment_count header) ++
  write_le 4 (vh_payload_bytes header) ++
  write_le 8 (vh_capture_time_100ns header).

Definition video_header_reader : reader VideoPacketHeader :=
  magic <- read_le 4 ;; guard (magic =? kMagic) ;;
  version <- read_le 2 ;;
  flags <- read_le 2 ;;
  stream_id <- read_le 4 ;;
  packet_sequence <- read_le 8 ;;
  frame_id <- read_le 8 ;;
  fragment_index <- read_le 2 ;;
  fragment_count <- read_le 2 ;;
  payload_bytes <- read_le 4 ;;
  capture_time <- read_le 8 ;;
  guard ((version =? kVideoVersion) && negb (fragment_count =? 0) &&
         (fragment_index <? fragment_count)) ;;
  rret (mkVideoPacketHeader version flags stream_id packet_sequence frame_id
          fragment_index fragment_count payload_bytes capture_time).

Definition decode_video_header (wire : bytes) : option VideoPacketHeader :=
  if len wire <? kVideoHeaderBytes then None
  else run_reader video_header_reader wire.

(** ** TCP frames *)

Definition encode_tcp_frame (envelope : CommandEnvelope) (payload : bytes) : bytes :=
  if (len payload >? kMaxCommandPayload) ||
     negb (len payload =? ce_payload_bytes envelope)
  then []
  else
    let header := encode_command_header envelope in
    write_le 4 (len header + len payload) ++ header ++ payload.

(** One iteration of the loop of [TcpFrameParser::feed]. *)
Inductive ParseStep :=
| Incomplete                                (** [return true] *)
| Violation                                 (** [reset(); return false] *)
| Emit (frame : TcpFrame) (rest : bytes).   (** [push_back], [erase] *)

Definition next_frame (buffer : bytes) : ParseStep :=
  if len buffer <? 4 then Incomplete
  else
    match read_le 4 buffer with
    | None => Violation
    | Some (body_bytes, after) =>
        if (body_bytes <? kCommandHeaderBytes) ||
           (body_bytes >? kCommandHeaderBytes + kMaxCommandPayload)
        then Violation
        else if len buffer <? 4 + body_bytes then Incomplete
        else
          let body := take (Z.to_nat body_bytes) after in
          match decode_command_header body with
          | None => Violation
          | Some envelope =>
              if negb (ce_payload_bytes envelope =? body_bytes - kCommandHeaderBytes)
              then Violation
              else Emit (mkTcpFrame envelope (drop (Z.to_nat kCommandHeaderBytes) body))
                     (drop (Z.to_nat (4 + body_bytes)) buffer)
          end
    end.

(** The parser state is its buffer.  [None]: the fuel ran out. *)
Fixpoint feed_loop (fuel : nat) (buffer : bytes) (frames : list TcpFrame)
    : option (bool * bytes * list TcpFrame) :=
  match fuel with
  | O => None
  | S fuel' =>
      match next_frame buffer with
      | Incomplete => Some (true, buffer, frames)
      | Violation => Some (false, [], frames)
      | Emit frame rest => feed_loop fuel' rest (frames ++ [frame])
      end
  end.

Definition feed (buffer : bytes) (input : bytes) (frames : list TcpFrame)
    : option (bool * bytes * list TcpFrame) :=
  if len input >? kMaxTcpBufferedBytes - Z.min (len buffer) kMaxTcpBufferedBytes
  then Some (false, [], frames)
  else feed_loop (S (length (buffer ++ input))) (buffer ++ input) frames.

(** ** Well-formed values: every field fits its type *)

Definition wf_envelope (e : CommandEnvelope) : Prop :=
  u16 (ce_version e) /\ u16 (ce_type e) /\ u32 (ce_payload_bytes e) /\
  u64 (ce_request_id e).

Definition wf_preamble (p : ConnectionPreamble) : Prop :=
  u16 (cp_version p) /\ u8 (cp_role p) /\ u8 (cp_flags p) /\
  u16 (cp_preamble_bytes p) /\ u16 (cp_reserved p) /\ u32 (cp_key_id p) /\
  length (cp_identity p) = 16%nat.

Definition wf_video_header (h : VideoPacketHeader) : Prop :=
  u16 (vh_version h) /\ u16 (vh_flags h) /\ u32 (vh_stream_id h) /\
  u64 (vh_packet_sequence h) /\ u64 (vh_frame_id h) /\ u16 (vh_fragment_index h) /\
  u16 (vh_fragment_count h) /\ u32 (vh_payload_bytes h) /\
  u64 (vh_capture_time_100ns h).

(** What [decode_video_header] requires of a header beyond its types. *)
Definition valid_video_header (h : VideoPacketHeader) : Prop :=
  wf_video_header h /\ vh_version h = kVideoVersion /\
  vh_fragment_index h < vh_fragment_count h.

(** A client names itself and its key; a server or diagnostic peer must not. *)
Definition admissible_preamble (p : ConnectionPreamble) : Prop :=
  wf_preamble p /\ cp_version p = kCommandVersion /\
  cp_preamble_bytes p = kConnectionPreambleBytes /\ cp_reserved p = 0 /\
  ((cp_role p = role_client /\ any_nonzero (cp_identity p) = true /\ cp_key_id p <> 0) \/
   ((cp_role p = role_server \/ cp_role p = role_diagnostic) /\
    any_nonzero (cp_identity p) = false /\ cp_key_id p = 0)).

(** ** Header codecs *)

Lemma len_encode_command_header e : len (encode_command_header e) = kCommandHeaderBytes.
Proof. unfold encode_command_header. by autorewrite with wire. Qed.

Lemma len_encode_video_header h : len (encode_video_header h) = kVideoHeaderBytes.
Proof. unfold encode_video_header. by autorewrite with wire. Qed.

Lemma command_header_run e rest :
  wf_envelope e -> ce_version e = kVersion ->
  command_header_reader (encode_command_header e ++ rest) = Some (e, rest).
Proof.
  intros (? & ? & ? & ?) Hv. unfold command_header_reader, encode_command_header.
  rewrite <- !app_assoc. reader_run.
  by destruct e.
Qed.

Lemma decode_encode_command_header e rest :
  wf_envelope e -> ce_version e = kVersion ->
  decode_command_header (encode_command_header e ++ rest) = Some e.
Proof.
  intros He Hv. unfold decode_command_header.
  rewrite len_app, len_encode_command_header. pose proof (len_nonneg rest).
  destruct (Z.ltb_spec (kCommandHeaderBytes + len rest) kCommandHeaderBytes); [lia|].
  unfold run_reader. by rewrite command_header_run.
Qed.

Lemma decode_command_header_inv w e :
  decode_command_header w = Some e ->
  wf_envelope e /\ ce_version e = kVersion /\
  exists rest, w = encode_command_header e ++ rest.
Proof.
  unfold decode_command_header. destruct (len w <? kCommandHeaderBytes); [done|].
  unfold command_header_reader. intros H. reader_inv. bool_to_prop. subst.
  unfold wf_envelope, encode_command_header; cbn. repeat split; try ulia; try done.
  eexists. by rewrite <- !app_assoc.
Qed.

Lemma video_header_run h rest :
  valid_video_header h -> 
  video_header_reader (encode_video_header h ++ rest) = Some (h, rest).
Proof.
  intros ((? & ? & ? & ? & ? & ? & ? & ? & ?) & Hv & Hf).
  unfold video_header_reader, encode_video_header.
  rewrite <- !app_assoc. reader_run.
  by destruct h.
Qed.

Lemma decode_encode_video_header h rest :
  valid_video_header h -> decode_video_header (encode_video_header h ++ rest) = Some h.
Proof.
  intros Hh. unfold decode_video_header. rewrite len_app, len_encode_video_header.
  pose proof (len_nonneg rest).
  destruct (Z.ltb_spec (kVideoHeaderBytes + len rest) kVideoHeaderBytes); [lia|].
  unfold run_reader. by rewrite video_header_run.
Qed.

Lemma decode_video_header_inv w h :
  decode_video_header w = Some h ->
  valid_video_header h /\ exists rest, w = encode_video_header h ++ rest.
Proof.
  unfold decode_video_header. destruct (len w <? kVideoHeaderBytes); [done|].
  unfold video_header_reader. intros H. reader_inv. bool_to_prop. subst.
  unfold valid_video_header, wf_video_header, encode_video_header; cbn.
  repeat split; try ulia; try done. eexists. by rewrite <- !app_assoc.
Qed.

Lemma preamble_decodes p :
  admissible_preamble p ->
  decode_connection_preamble (encode_connection_preamble p) = Some p.
Proof.
  intros ((? & ? & ? & ? & ? & ? & Hid) & Hv & Hb & Hr & Hrole).
  unfold encode_connection_preamble, decode_connection_preamble.
  assert (known_role (cp_role p) = true) as Hk.
  { unfold known_role, role_client, role_server, role_diagnostic in *. lia. }
  rewrite Hb, Hr, Hk. eval_tests.
  autorewrite with wire. rewrite (len_length _ _ Hid). eval_tests.
  unfold run_reader, connection_preamble_reader. reader_run.
  rewrite rbind_guard by (rewrite (len_length _ _ Hid), Hv, Hk; done). reader_run.
  destruct p; cbn in *; subst.
  destruct Hrole as [(-> & -> & ?)|([-> | ->] & -> & ->)]; cbn; reader_run; done.
Qed.

Lemma decode_preamble_inv w p :
  decode_connection_preamble w = Some p ->
  admissible_preamble p /\ w = encode_connection_preamble p.
Proof.
  unfold decode_connection_preamble.
  destruct (len w =? kConnectionPreambleBytes) eqn:Hlen; [cbn|done].
  unfold connection_preamble_reader. intros H. reader_inv. bool_to_prop. subst.
  match goal with H : known_role _ = true |- _ => rename H into Hk end.
  assert (forall k x y id, encode_connection_preamble
    (mkConnectionPreamble kCommandVersion x y kConnectionPreambleBytes 0 k id) =
    if negb (known_role x) then [] else
    write_le 4 kMagic ++ write_le 2 kCommandVersion ++ write_le 1 x ++ write_le 1 y ++
    write_le 2 kConnectionPreambleBytes ++ write_le 2 0 ++ write_le 4 k ++ id) as Henc by done.
  split.
  - unfold admissible_preamble, wf_preamble; cbn. repeat split; try ulia; try done.
    unfold known_role in Hk.
    unfold role_client, role_server, role_diagnostic in *.
    destruct (any_nonzero _); cbn in *; lia.
  - match goal with H : len (?a ++ ?b) = 16, H' : length ?a = 16%nat |- _ =>
      rewrite len_app, (len_length _ _ H') in H; rewrite (len_zero b) by lia end.
    rewrite Henc, Hk. cbn. by rewrite app_nil_r.
Qed.

(** ** Single frames *)

Definition wf_frame (f : TcpFrame) : Prop :=
  wf_envelope (tf_envelope f) /\ ce_version (tf_envelope f) = kVersion /\
  ce_payload_bytes (tf_envelope f) = len (tf_payload f) /\
  len (tf_payload f) <= kMaxCommandPayload.

Definition encode_frame (f : TcpFrame) : bytes :=
  encode_tcp_frame (tf_envelope f) (tf_payload f).

(** The longest frame, and hence the longest incomplete tail, on the wire. *)
Definition max_frame_bytes : Z := 4 + kCommandHeaderBytes + kMaxCommandPayload.

Lemma encode_frame_eq f :
  wf_frame f ->
  encode_frame f = write_le 4 (kCommandHeaderBytes + len (tf_payload f)) ++
                   encode_command_header (tf_envelope f) ++ tf_payload f.
Proof.
  intros (_ & _ & Hp & Hmax). unfold encode_frame, encode_tcp_frame.
  rewrite <- Hp, Z.eqb_refl, len_encode_command_header.
  destruct (Z.gtb_spec (ce_payload_bytes (tf_envelope f)) kMaxCommandPayload); [lia|done].
Qed.

Lemma len_encode_frame f : wf_frame f -> len (encode_frame f) = 24 + len (tf_payload f).
Proof.
  intros Hf. rewrite encode_frame_eq by done. autorewrite with wire.
  rewrite len_encode_command_header. unfold kCommandHeaderBytes. lia.
Qed.

Lemma next_frame_encode f rest :
  wf_frame f -> next_frame (encode_frame f ++ rest) = Emit f rest.
Proof.
  intros Hf. pose proof (len_encode_frame f Hf) as Hlen.
  pose proof (len_nonneg (tf_payload f)). pose proof (len_nonneg rest).
  pose proof Hf as (He & Hv & Hp & Hmax). unfold next_frame.
  rewrite len_app, Hlen.
  destruct (Z.ltb_spec (24 + len (tf_payload f) + len rest) 4); [lia|].
  rewrite encode_frame_eq, <- app_assoc by done.
  unfold kCommandHeaderBytes, kMaxCommandPayload in *.
  rewrite read_le_write by ulia.
  destruct (Z.ltb_spec (20 + len (tf_payload f)) 20); [lia|].
  destruct (Z.gtb_spec (20 + len (tf_payload f)) (20 + 64 * 1024)); [lia|]. cbn [orb].
  destruct (Z.ltb_spec (24 + len (tf_payload f) + len rest) (4 + (20 + len (tf_payload f)))); [lia|].
  set (hdr := encode_command_header (tf_envelope f)).
  assert (length hdr = 20%nat) as Hhdr.
  { pose proof (len_encode_command_header (tf_envelope f)) as E.
    by apply length_len in E. }
  rewrite take_app_length'
    by (rewrite length_app, Hhdr; unfold len; lia).
  unfold hdr at 1. rewrite decode_encode_command_header by done.
  rewrite Hp. replace (len (tf_payload f) =? 20 + len (tf_payload f) - 20) with true by lia. cbn [negb].
  f_equal.
  - destruct f as [e pl]; cbn [tf_envelope tf_payload] in *.
    f_equal; by apply drop_app_length'; rewrite Hhdr.
  - rewrite app_assoc. apply drop_app_length'.
    rewrite !length_app, Hhdr, length_write_le. unfold len; lia.
Qed.

Lemma next_frame_emit_inv b f rest :
  next_frame b = Emit f rest -> wf_frame f /\ b = encode_frame f ++ rest.
Proof.
  unfold next_frame. destruct (Z.ltb_spec (len b) 4); [done|].
  destruct (read_le 4 b) as [[n after]|] eqn:Hr; [|done].
  apply read_le_inv in Hr as [-> Hn].
  unfold kCommandHeaderBytes, kMaxCommandPayload.
  destruct (Z.ltb_spec n 20); [done|]. destruct (Z.gtb_spec n (20 + 64 * 1024)); [done|].
  cbn [orb]. rewrite len_app, len_write_le.
  destruct (Z.ltb_spec (Z.of_nat 4 + len after) (4 + n)); [done|].
  destruct (decode_command_header _) as [e|] eqn:Hd; [|done].
  destruct (Z.eqb_spec (ce_payload_bytes e) (n - 20)) as [Hp|]; [cbn|done].
  intros [= <- <-]. set (body := take (Z.to_nat n) after) in *.
  assert (len body = n) as Hbody by (unfold body, len in *; rewrite length_take; lia).
  apply decode_command_header_inv in Hd as (He & Hv & tail & Hbd).
  assert (length (encode_command_header e) = 20%nat) as Hhdr
    by (pose proof (len_encode_command_header e) as E; by apply length_len in E).
  assert (drop (Z.to_nat 20) body = tail) as Htail
    by (rewrite Hbd; apply drop_app_length'; by rewrite Hhdr).
  assert (len tail = n - 20) as Hlt.
  { rewrite Hbd, len_app, len_encode_command_header in Hbody. 
    unfold kCommandHeaderBytes in *. lia. }
  rewrite Htail.
  assert (wf_frame (mkTcpFrame e tail)) as Hwf
    by (unfold wf_frame, kMaxCommandPayload; cbn; repeat split; try done; try apply He; lia).
  split; [done|]. rewrite encode_frame_eq by done. cbn [tf_envelope tf_payload].
  unfold kCommandHeaderBytes. rewrite Hlt. replace (20 + (n - 20)) with n by lia.
  rewrite <- Hbd, <- app_assoc. f_equal. unfold body.
  rewrite drop_app_ge by (rewrite length_write_le; lia).
  rewrite length_write_le. replace (Z.to_nat (4 + n) - 4)%nat with (Z.to_nat n) by lia.
  symmetry; apply take_drop.
Qed.

Lemma next_frame_emit_app b f rest more :
  next_frame b = Emit f rest -> next_frame (b ++ more) = Emit f (rest ++ more).
Proof.
  intros [Hf ->]%next_frame_emit_inv. rewrite <- app_assoc. by apply next_frame_encode.
Qed.

Lemma read_le_app n b v rest more :
  read_le n b = Some (v, rest) -> read_le n (b ++ more) = Some (v, rest ++ more).
Proof. intros [-> Hv]%read_le_inv. rewrite <- app_assoc. by apply read_le_write. Qed.

Lemma next_frame_violation_app b more :
  next_frame b = Violation -> next_frame (b ++ more) = Violation.
Proof.
  unfold next_frame. rewrite len_app. pose proof (len_nonneg more).
  destruct (Z.ltb_spec (len b) 4); [done|].
  destruct (Z.ltb_spec (len b + len more) 4); [lia|].
  destruct (read_le 4 b) as [[n after]|] eqn:Hr.
  - rewrite (read_le_app _ _ _ _ more Hr). destruct (_ || _); [done|].
    destruct (Z.ltb_spec (len b) (4 + n)); [done|].
    destruct (Z.ltb_spec (len b + len more) (4 + n)); [lia|].
    apply read_le_inv in Hr as [-> Hn]. rewrite len_app, len_write_le in *.
    rewrite take_app_le by (unfold len in *; lia).
    destruct (decode_command_header _); [|done]. by destruct (negb _).
  - exfalso. destruct (read_le_total 4 b) as (? & ? & ?); [lia|congruence].
Qed.

Lemma next_frame_incomplete_bound b : next_frame b = Incomplete -> len b < max_frame_bytes.
Proof.
  unfold next_frame, max_frame_bytes, kCommandHeaderBytes, kMaxCommandPayload.
  destruct (Z.ltb_spec (len b) 4); [lia|].
  destruct (read_le 4 b) as [[n after]|]; [|done].
  destruct (Z.ltb_spec n 20); [done|].
  destruct (Z.gtb_spec n (20 + 64 * 1024)); [done|]. cbn [orb].
  destruct (Z.ltb_spec (len b) (4 + n)); [lia|].
  destruct (decode_command_header _); [|done]. by destruct (negb _).
Qed.

(** ** The parser loop as a big-step relation *)

Inductive drains : bytes -> bool -> bytes -> list TcpFrame -> Prop :=
| drains_incomplete b : next_frame b = Incomplete -> drains b true b []
| drains_violation b : next_frame b = Violation -> drains b false [] []
| drains_emit b f rest ok tail fs :
    next_frame b = Emit f rest -> drains rest ok tail fs ->
    drains b ok tail (f :: fs).

Lemma next_frame_shrinks b f rest : next_frame b = Emit f rest -> (length rest < length b)%nat.
Proof.
  intros [Hf ->]%next_frame_emit_inv. pose proof (len_encode_frame f Hf).
  pose proof (len_nonneg (tf_payload f)). rewrite length_app. unfold len in *. lia.
Qed.

Lemma feed_loop_drains fuel b fs :
  (length b < fuel)%nat ->
  exists ok tail gs, drains b ok tail gs /\ feed_loop fuel b fs = Some (ok, tail, fs ++ gs).
Proof.
  revert b fs. induction fuel as [|fuel IH]; intros b fs Hb; [lia|]. cbn [feed_loop].
  destruct (next_frame b) as [| |f rest] eqn:Hn.
  - exists true, b, []. rewrite app_nil_r. eauto using drains.
  - exists false, [], []. rewrite app_nil_r. eauto using drains.
  - pose proof (next_frame_shrinks _ _ _ Hn).
    destruct (IH rest (fs ++ [f])) as (ok & tail & gs & Hd & ->); [lia|].
    exists ok, tail, (f :: gs). rewrite <- app_assoc. eauto using drains.
Qed.

Lemma drains_det b ok tail fs ok' tail' fs' :
  drains b ok tail fs -> drains b ok' tail' fs' -> ok = ok' /\ tail = tail' /\ fs = fs'.
Proof.
  intros H. revert ok' tail' fs'.
  induction H; intros ok' tail' fs' H'; inversion H'; subst; try congruence; try done.
  simplify_eq/=. match goal with H1 : next_frame ?b = _, H2 : next_frame ?b = _ |- _ =>
    rewrite H1 in H2; simplify_eq end.
  edestruct IHdrains as (-> & -> & ->); eauto.
Qed.

Lemma feed_loop_of_drains fuel b fs ok tail gs :
  (length b < fuel)%nat -> drains b ok tail gs ->
  feed_loop fuel b fs = Some (ok, tail, fs ++ gs).
Proof.
  intros Hf Hd. destruct (feed_loop_drains fuel b fs Hf) as (? & ? & ? & Hd' & ->).
  by destruct (drains_det _ _ _ _ _ _ _ Hd Hd') as (-> & -> & ->).
Qed.

Lemma drains_stable b tail fs : drains b true tail fs -> next_frame tail = Incomplete.
Proof. remember true as ok eqn:E. induction 1; done || auto. Qed.

Lemma drains_app b tail fs more ok tail' fs' :
  drains b true tail fs -> drains (tail ++ more) ok tail' fs' ->
  drains (b ++ more) ok tail' (fs ++ fs').
Proof.
  remember true as good eqn:E. intros H. revert E.
  induction H; intros E Hmore; [done|done|].
  cbn. eapply drains_emit; [by apply next_frame_emit_app|]. auto.
Qed.

Lemma drains_violation_app b fs more :
  drains b false [] fs -> drains (b ++ more) false [] fs.
Proof.
  remember false as bad eqn:E. intros H. revert E. induction H; intros E; [done| |].
  - by apply drains_violation, next_frame_violation_app.
  - eapply drains_emit; [by apply next_frame_emit_app|]. auto.
Qed.

Lemma drains_false_reset b tail fs : drains b false tail fs -> tail = [].
Proof. remember false as bad eqn:E. induction 1; done || auto. Qed.

Lemma drains_frames b ok tail fs :
  drains b ok tail fs ->
  Forall wf_frame fs /\
  exists unread, b = concat (map encode_frame fs) ++ unread /\ (ok = true -> unread = tail).
Proof.
  induction 1 as [b Hb|b Hb|b f rest ok tail fs Hb Hd [Hfs (u & -> & Hu)]].
  - split; [done|]. by exists b.
  - split; [done|]. by exists b.
  - apply next_frame_emit_inv in Hb as [Hf ->]. split; [by constructor|].
    exists u. split; [|done]. cbn. by rewrite app_assoc.
Qed.

Lemma drains_encoded fs : Forall wf_frame fs -> drains (concat (map encode_frame fs)) true [] fs.
Proof.
  induction 1 as [|f fs Hf Hfs IH]; cbn; [by apply drains_incomplete|].
  eapply drains_emit; [by apply next_frame_encode|done].
Qed.

(** ** Feeding a sequence of reads *)

(** The receive path: one [feed] per completed read, until one returns false. *)
Fixpoint feed_all (buffer : bytes) (reads : list bytes) (frames : list TcpFrame)
    : option (bool * bytes * list TcpFrame) :=
  match reads with
  | [] => Some (true, buffer, frames)
  | input :: reads' =>
      match feed buffer input frames with
      | Some (true, buffer', frames') => feed_all buffer' reads' frames'
      | result => result
      end
  end.

(** The whole byte stream parsed at once, with no bound on buffering. *)
Definition parse_stream (stream : bytes) : option (bool * bytes * list TcpFrame) :=
  feed_loop (S (length stream)) stream [].

(** A read that can never overflow the buffer of a parser between reads. *)
Definition read_fits (input : bytes) : Prop :=
  len input <= kMaxTcpBufferedBytes - max_frame_bytes.

Lemma feed_drains buffer input frames :
  len buffer + len input <= kMaxTcpBufferedBytes ->
  exists ok tail gs, drains (buffer ++ input) ok tail gs /\
    feed buffer input frames = Some (ok, tail, frames ++ gs).
Proof.
  intros Hb. unfold feed. pose proof (len_nonneg input).
  destruct (Z.gtb_spec (len input)
    (kMaxTcpBufferedBytes - Z.min (len buffer) kMaxTcpBufferedBytes)); [lia|].
  apply feed_loop_drains. lia.
Qed.

Lemma feed_all_drains reads buffer frames ok tail gs :
  next_frame buffer = Incomplete -> Forall read_fits reads ->
  drains (buffer ++ concat reads) ok tail gs ->
  feed_all buffer reads frames = Some (ok, tail, frames ++ gs).
Proof.
  intros Hst Hr. revert buffer frames ok tail gs Hst.
  induction Hr as [|input reads Hin Hr IH]; intros buffer frames ok tail gs Hst Hd; cbn in *.
  - rewrite app_nil_r in Hd.
    destruct (drains_det _ _ _ _ _ _ _ Hd (drains_incomplete _ Hst)) as (-> & -> & ->).
    by rewrite app_nil_r.
  - pose proof (next_frame_incomplete_bound _ Hst).
    destruct (feed_drains buffer input frames) as (ok1 & tail1 & gs1 & Hd1 & ->);
      [unfold read_fits in *; lia|].
    rewrite app_assoc in Hd. destruct ok1.
    + destruct (feed_loop_drains (S (length (tail1 ++ concat reads))) (tail1 ++ concat reads) [])
        as (ok2 & tail2 & gs2 & Hd2 & _); [lia|].
      destruct (drains_det _ _ _ _ _ _ _ Hd (drains_app _ _ _ _ _ _ _ Hd1 Hd2))
        as (-> & -> & ->).
      rewrite (IH _ _ _ _ _ (drains_stable _ _ _ Hd1) Hd2). by rewrite app_assoc.
    + rewrite (drains_false_reset _ _ _ Hd1) in Hd1 |- *.
      by destruct (drains_det _ _ _ _ _ _ _ Hd (drains_violation_app _ _ (concat reads) Hd1))
        as (-> & -> & ->).
Qed.

(** ** Properties *)

(** C30. The frames a parser reports do not depend on how TCP split the stream:
    feeding any sequence of reads that fit the buffer gives exactly the result,
    failure included, of parsing the concatenated stream in one go.  In
    particular every sequence of well-formed frames, encoded by
    [encode_tcp_frame] and delivered in any segmentation, is reported exactly, in
    order, leaving an empty buffer. *)
Theorem feed_segmentation_independent (reads : list bytes) :
  Forall read_fits reads ->
  feed_all [] reads [] = parse_stream (concat reads) /\
  (forall frames, Forall wf_frame frames -> concat reads = concat (map encode_frame frames) ->
     feed_all [] reads [] = Some (true, [], frames)).
Proof.
  intros Hr. split.
  - unfold parse_stream.
    destruct (feed_loop_drains (S (length (concat reads))) (concat reads) [])
      as (ok & tail & gs & Hd & ->); [lia|].
    by apply feed_all_drains.
  - intros frames Hf Hc. apply (feed_all_drains reads [] []); [done..|].
    cbn. rewrite Hc. by apply drains_encoded.
Qed.

Definition sample_frames : list TcpFrame :=
  [ mkTcpFrame (mkCommandEnvelope 1 (command_type_value CT_heartbeat) 0 7) [];
    mkTcpFrame (mkCommandEnvelope 1 (command_type_value CT_chat) 5 8) (text "hello") ].

(** The sample stream cut in the middle of a header and of a payload. *)
Definition sample_reads : list bytes :=
  let stream := concat (map encode_frame sample_frames) in
  [take 11 stream; []; take 37 (drop 11 stream); drop 48 stream].

Lemma feed_segmentation_independent_witness :
  feed_all [] sample_reads [] = parse_stream (concat sample_reads) /\
  feed_all [] sample_reads [] = Some (true, [], sample_frames).
Proof.
  destruct (feed_segmentation_independent sample_reads) as [H1 H2];
    [repeat constructor; by vm_compute|].
  split; [exact H1|]. apply H2; [repeat constructor; by vm_compute|].
  vm_compute. reflexivity.
Defined.

(** C39. Every call of [feed], on any parser state and any input, terminates with
    a result; it only ever reports well-formed frames within the payload limit;
    on success the bytes seen are exactly the reported frames followed by an
    incomplete tail shorter than one frame, and on failure the buffer is reset. *)
Theorem feed_total_and_sound (buffer input : bytes) (frames : list TcpFrame) :
  exists ok buffer' gs,
    feed buffer input frames = Some (ok, buffer', frames ++ gs) /\
    Forall wf_frame gs /\
    (ok = true ->
       next_frame buffer' = Incomplete /\ len buffer' < max_frame_bytes /\
       buffer ++ input = concat (map encode_frame gs) ++ buffer') /\
    (ok = false -> buffer' = []).
Proof.
  unfold feed.
  destruct (Z.gtb_spec (len input)
    (kMaxTcpBufferedBytes - Z.min (len buffer) kMaxTcpBufferedBytes)).
  { exists false, [], []. by rewrite app_nil_r. }
  destruct (feed_loop_drains (S (length (buffer ++ input))) (buffer ++ input) frames)
    as (ok & tail & gs & Hd & ->); [lia|].
  destruct (drains_frames _ _ _ _ Hd) as (Hgs & unread & Heq & Hu).
  exists ok, tail, gs. split; [done|]. split; [done|]. split.
  - intros ->. pose proof (drains_stable _ _ _ Hd). rewrite <- (Hu eq_refl).
    rewrite (Hu eq_refl) in *. auto using next_frame_incomplete_bound.
  - intros ->. by eapply drains_false_reset.
Qed.

(** The codecs of a connection's first bytes and of its headers are exact.
    The preamble is accepted exactly when it is the 32-byte encoding of an
    admissible preamble: known role, supported version, no reserved bits, a
    client names a non-zero identity and key, and a server or diagnostic peer
    names neither.  A command (video) header decodes to a value exactly when the
    wire starts with the encoding of that well-formed value of the supported
    version (and, for video, with its fragment index in range). *)
Theorem headers_decode_iff (wire : bytes) :
  (forall p, decode_connection_preamble wire = Some p <->
     admissible_preamble p /\ wire = encode_connection_preamble p) /\
  (forall e, decode_command_header wire = Some e <->
     wf_envelope e /\ ce_version e = kVersion /\
     exists rest, wire = encode_command_header e ++ rest) /\
  (forall h, decode_video_header wire = Some h <->
     valid_video_header h /\ exists rest, wire = encode_video_header h ++ rest).
Proof.
  split_and!.
  - intros p. split; [apply decode_preamble_inv|]. intros [Hp ->]. by apply preamble_decodes.
  - intros e. split; [apply decode_command_header_inv|].
    intros (He & Hv & rest & ->). by apply decode_encode_command_header.
  - intros h. split; [apply decode_video_header_inv|].
    intros (Hh & rest & ->). by apply decode_encode_video_header.
Qed.

End Protocol.
