(* ===== verification/Auth.v ===== *)
(** Peer authentication (common/include/nstu/auth.hpp, common/src/auth.cpp):
    the hello and challenge messages, the transcripts and packets that are
    authenticated, tag verification, the control sequence guard and the replay
    protector.

    The Windows CNG primitive (BCryptCreateHash .. BCryptFinishHash) is the
    parameter [bcrypt_hmac]; it returns [None] when CNG fails. *)

From S2P Require Import Prelude Wire Codec Protocol.
Import ReaderNotations Protocol.
#[local] Open Scope nstu_scope.

Module Auth.

(** ** Constants and messages *)

Definition kClientIdBytes : Z := 16.
Definition kNonceBytes : Z := 32.
Definition kVideoAuthTagBytes : Z := 16.
Definition kControlAuthTagBytes : Z := 16.
Definition kMinimumProtocolKeyBytes : Z := 32.
Definition kAuthHelloBytes : Z := 60.
Definition kAuthChallengeBytes : Z := 40.

Inductive ControlDirection : Set := client_to_server | server_to_client.

Definition direction_value (d : ControlDirection) : Z :=
  match d with client_to_server => 1 | server_to_client => 2 end.

Record AuthHello := mkAuthHello {
  ah_client_id : bytes;
  ah_client_nonce : bytes;
  ah_unix_time_seconds : Z;
  ah_key_id : Z
}.

Record AuthChallenge := mkAuthChallenge {
  ac_server_nonce : bytes;
  ac_unix_time_seconds : Z
}.

Definition wf_hello (h : AuthHello) : Prop :=
  length (ah_client_id h) = 16%nat /\ length (ah_client_nonce h) = 32%nat /\
  u64 (ah_unix_time_seconds h) /\ u32 (ah_key_id h).

Definition wf_challenge (c : AuthChallenge) : Prop :=
  length (ac_server_nonce c) = 32%nat /\ u64 (ac_unix_time_seconds c).

Definition encode_auth_hello (hello : AuthHello) : bytes :=
  ah_client_id hello ++ ah_client_nonce hello ++
  write_le 8 (ah_unix_time_seconds hello) ++ write_le 4 (ah_key_id hello).

Definition decode_auth_hello (wire : bytes) : option AuthHello :=
  if negb (len wire =? kAuthHelloBytes) then None
  else run_reader (
    client_id <- read_bytes 16 ;;
    client_nonce <- read_bytes 32 ;;
    unix_time_seconds <- read_le 8 ;;
    key_id <- read_le 4 ;;
    rret (mkAuthHello client_id client_nonce unix_time_seconds key_id)) wire.

Definition encode_auth_challenge (challenge : AuthChallenge) : bytes :=
  ac_server_nonce challenge ++ write_le 8 (ac_unix_time_seconds challenge).

Definition decode_auth_challenge (wire : bytes) : option AuthChallenge :=
  if negb (len wire =? kAuthChallengeBytes) then None
  else run_reader (
    server_nonce <- read_bytes 32 ;;
    unix_time_seconds <- read_le 8 ;;
    rret (mkAuthChallenge server_nonce unix_time_seconds)) wire.

Definition validate_auth_hello (hello : AuthHello) : bool :=
  any_nonzero (ah_client_id hello) && any_nonzero (ah_client_nonce hello) &&
  negb (ah_unix_time_seconds hello =? 0) && negb (ah_key_id hello =? 0).

Definition validate_auth_challenge (challenge : AuthChallenge) : bool :=
  any_nonzero (ac_server_nonce challenge) &&
  negb (ac_unix_time_seconds challenge =? 0).

(** ** Comparison *)

(** [difference |= left[i] ^ right[i]] over equal lengths. *)
Fixpoint xor_difference (difference : Z) (left right : bytes) : Z :=
  match left, right with
  | l :: left', r :: right' =>
      xor_difference (Z.lor difference (Z.lxor (byte_val l) (byte_val r))) left' right'
  | _, _ => difference
  end.

Definition constant_time_equal (left right : bytes) : bool :=
  if negb (len left =? len right) then false
  else xor_difference 0 left right =? 0.

(** ** Authenticated messages *)

Definition make_transcript (label : bytes) (hello : AuthHello)
    (challenge : AuthChallenge) : bytes :=
  label ++ encode_auth_hello hello ++ encode_auth_challenge challenge.

Definition video_auth_message (header : VideoPacketHeader) (payload : bytes) : bytes :=
  text "NSTU-VIDEO-PACKET-V1" ++ encode_video_header header ++ payload.

Definition control_auth_message (envelope : CommandEnvelope) (sequence : Z)
    (payload : bytes) : bytes :=
  text "NSTU-CONTROL-FRAME-V1" ++ encode_command_header envelope ++
  write_le 8 sequence ++ payload.

Definition directed_control_auth_message (envelope : CommandEnvelope)
    (sequence : Z) (payload : bytes) (direction : ControlDirection) : bytes :=
  text "NSTU-CONTROL-FRAME-V2" ++ [byte_of (direction_value direction)] ++
  encode_command_header envelope ++ write_le 8 sequence ++ payload.

Section Hmac.
Variable bcrypt_hmac : bytes -> bytes -> option bytes.

(** The size guards of [hmac_sha256] around the CNG calls. *)
Definition hmac_sha256 (key message : bytes) : option bytes :=
  if (len key =? 0) || (len key >? u32_max) || (len message >? u32_max) then None
  else bcrypt_hmac key message.

Definition proof_guard (key : bytes) (hello : AuthHello) (challenge : AuthChallenge)
    : bool :=
  (len key <? kMinimumProtocolKeyBytes) || negb (validate_auth_hello hello) ||
  negb (validate_auth_challenge challenge).

Definition compute_client_proof (pre_shared_key : bytes) (hello : AuthHello)
    (challenge : AuthChallenge) : option bytes :=
  if proof_guard pre_shared_key hello challenge then None
  else hmac_sha256 pre_shared_key
         (make_transcript (text "NSTU-CLIENT-PROOF-V1") hello challenge).

Definition derive_session_key (pre_shared_key : bytes) (hello : AuthHello)
    (challenge : AuthChallenge) : option bytes :=
  if proof_guard pre_shared_key hello challenge then None
  else hmac_sha256 pre_shared_key
         (make_transcript (text "NSTU-SESSION-KEY-V1") hello challenge).

Definition compute_server_proof (session_key : bytes) (hello : AuthHello)
    (challenge : AuthChallenge) : option bytes :=
  if proof_guard session_key hello challenge then None
  else hmac_sha256 session_key
         (make_transcript (text "NSTU-SERVER-PROOF-V1") hello challenge).

Definition compute_video_auth_tag (key : bytes) (header : VideoPacketHeader)
    (payload : bytes) : option bytes :=
  if len key <? kMinimumProtocolKeyBytes then None
  else
    match hmac_sha256 key (video_auth_message header payload) with
    | None => None
    | Some digest => Some (take 16 digest)
    end.

Definition verify_video_auth_tag (key : bytes) (header : VideoPacketHeader)
    (payload tag : bytes) : bool :=
  if negb (len tag =? kVideoAuthTagBytes) then false
  else
    match compute_video_auth_tag key header payload with
    | None => false
    | Some expected => constant_time_equal expected tag
    end.

Definition compute_control_auth_tag (session_key : bytes)
    (envelope : CommandEnvelope) (sequence : Z) (payload : bytes) : option bytes :=
  if len session_key <? kMinimumProtocolKeyBytes then None
  else
    match hmac_sha256 session_key (control_auth_message envelope sequence payload) with
    | None => None
    | Some digest => Some (take 16 digest)
    end.

Definition compute_directed_control_auth_tag (session_key : bytes)
    (envelope : CommandEnvelope) (sequence : Z) (payload : bytes)
    (direction : ControlDirection) : option bytes :=
  if len session_key <? kMinimumProtocolKeyBytes then None
  else
    match hmac_sha256 session_key
            (directed_control_auth_message envelope sequence payload direction) with
    | None => None
    | Some digest => Some (take 16 digest)
    end.

Definition verify_control_auth_tag (session_key : bytes)
    (envelope : CommandEnvelope) (sequence : Z) (payload tag : bytes) : bool :=
  if negb (len tag =? kControlAuthTagBytes) then false
  else
    match compute_control_auth_tag session_key envelope sequence payload with
    | None => false
    | Some expected => constant_time_equal expected tag
    end.

Definition verify_directed_control_auth_tag (session_key : bytes)
    (envelope : CommandEnvelope) (sequence : Z) (payload : bytes)
    (direction : ControlDirection) (tag : bytes) : bool :=
  if negb (len tag =? kControlAuthTagBytes) then false
  else
    match compute_directed_control_auth_tag session_key envelope sequence payload
            direction with
    | None => false
    | Some expected => constant_time_equal expected tag
    end.
End Hmac.

(** ** ControlSequenceGuard *)

Record ControlSequenceGuard := mkGuard {
  next_expected_ : Z;
  exhausted_ : bool
}.

Definition guard_reset (first_expected_sequence : Z) : ControlSequenceGuard :=
  mkGuard first_expected_sequence false.

Definition guard_accept (g : ControlSequenceGuard) (sequence : Z)
    : bool * ControlSequenceGuard :=
  if exhausted_ g || negb (sequence =? next_expected_ g) then (false, g)
  else if next_expected_ g =? u64_max then (true, mkGuard (next_expected_ g) true)
  else (true, mkGuard (wrap64 (next_expected_ g + 1)) (exhausted_ g)).

(** ** ReplayProtector *)

Record ReplayEntry := mkReplayEntry { re_key : bytes; re_expires_at : Z }.

Record ReplayProtector := mkReplay {
  rp_capacity : Z;
  rp_maximum_clock_skew : Z;
  rp_entries : list ReplayEntry;
  rp_keys : gset bytes
}.

Definition replay_create (capacity maximum_clock_skew : Z) : ReplayProtector :=
  mkReplay (Z.max capacity 1) (Z.max maximum_clock_skew 1) [] ∅.

Definition replay_key (hello : AuthHello) : bytes :=
  ah_client_id hello ++ ah_client_nonce hello.

(** [while (!entries_.empty() && entries_.front().expires_at < now)]. *)
Fixpoint evict_expired (now : Z) (entries : list ReplayEntry) (keys : gset bytes)
    : list ReplayEntry * gset bytes :=
  match entries with
  | [] => ([], keys)
  | front :: rest =>
      if re_expires_at front <? now
      then evict_expired now rest (keys ∖ {[re_key front]})
      else (entries, keys)
  end.

(** [while (entries_.size() >= capacity_)]. *)
Fixpoint evict_oldest (capacity : Z) (entries : list ReplayEntry) (keys : gset bytes)
    : list ReplayEntry * gset bytes :=
  match entries with
  | [] => ([], keys)
  | front :: rest =>
      if len entries >=? capacity
      then evict_oldest capacity rest (keys ∖ {[re_key front]})
      else (entries, keys)
  end.

Definition clock_difference (a b : Z) : Z := if a >? b then a - b else b - a.

Definition replay_expiry (s : ReplayProtector) (hello : AuthHello) (now : Z) : Z :=
  let expiry_base := Z.max now (ah_unix_time_seconds hello) in
  if rp_maximum_clock_skew s >? u64_max - expiry_base then u64_max
  else expiry_base + rp_maximum_clock_skew s.

Definition replay_accept (s : ReplayProtector) (hello : AuthHello)
    (now_unix_seconds : Z) : bool * ReplayProtector :=
  if negb (validate_auth_hello hello) then (false, s)
  else if clock_difference (ah_unix_time_seconds hello) now_unix_seconds
            >? rp_maximum_clock_skew s then (false, s)
  else
    let key := replay_key hello in
    let '(entries, keys) := evict_expired now_unix_seconds (rp_entries s) (rp_keys s) in
    if bool_decide (key ∈ keys)
    then (false, mkReplay (rp_capacity s) (rp_maximum_clock_skew s) entries keys)
    else
      let '(entries', keys') := evict_oldest (rp_capacity s) entries keys in
      (true, mkReplay (rp_capacity s) (rp_maximum_clock_skew s)
               (entries' ++ [mkReplayEntry key (replay_expiry s hello now_unix_seconds)])
               (keys' ∪ {[key]})).

Definition replay_clear (s : ReplayProtector) : ReplayProtector :=
  mkReplay (rp_capacity s) (rp_maximum_clock_skew s) [] ∅.

(** ** Message codecs *)

Lemma len_encode_auth_hello h : wf_hello h -> len (encode_auth_hello h) = kAuthHelloBytes.
Proof.
  intros (H1 & H2 & _). unfold encode_auth_hello. autorewrite with wire.
  unfold len, kAuthHelloBytes. lia.
Qed.

Lemma len_encode_auth_challenge c :
  wf_challenge c -> len (encode_auth_challenge c) = kAuthChallengeBytes.
Proof.
  intros (H1 & _). unfold encode_auth_challenge. autorewrite with wire.
  unfold len, kAuthChallengeBytes. lia.
Qed.

#[export] Program Instance auth_hello_codec : Codec AuthHello := {|
  encode := encode_auth_hello; decode := decode_auth_hello; valid := wf_hello |}.
Next Obligation.
  intros h Hh. pose proof (len_encode_auth_hello h Hh) as Hl.
  destruct Hh as (H1 & H2 & H3 & H4). unfold decode_auth_hello, run_reader.
  rewrite Hl. cbn -[rbind read_bytes read_le]. unfold encode_auth_hello.
  reader_run. by destruct h.
Qed.
Next Obligation.
  intros w h. unfold decode_auth_hello.
  destruct (Z.eqb_spec (len w) kAuthHelloBytes) as [Hl|]; [cbn [negb]|done].
  intros H. reader_inv. unfold kAuthHelloBytes in Hl. no_rest.
  split; [fields|]. cbn. by rewrite app_nil_r.
Qed.

#[export] Program Instance auth_challenge_codec : Codec AuthChallenge := {|
  encode := encode_auth_challenge; decode := decode_auth_challenge;
  valid := wf_challenge |}.
Next Obligation.
  intros c Hc. pose proof (len_encode_auth_challenge c Hc) as Hl.
  destruct Hc as (H1 & H2). unfold decode_auth_challenge, run_reader.
  rewrite Hl. cbn -[rbind read_bytes read_le]. unfold encode_auth_challenge.
  reader_run. by destruct c.
Qed.
Next Obligation.
  intros w c. unfold decode_auth_challenge.
  destruct (Z.eqb_spec (len w) kAuthChallengeBytes) as [Hl|]; [cbn [negb]|done].
  intros H. reader_inv. unfold kAuthChallengeBytes in Hl. no_rest.
  split; [fields|]. cbn. by rewrite app_nil_r.
Qed.

(** ** Tags *)

Lemma xor_difference_zero d left right :
  0 <= d -> length left = length right ->
  0 <= xor_difference d left right /\
  (xor_difference d left right = 0 <-> d = 0 /\ left = right).
Proof.
  revert d right. induction left as [|l left IH]; intros d [|r right] Hd Hlen;
    try done; [cbn; naive_solver|]. cbn [xor_difference]. injection Hlen as Hlen.
  pose proof (byte_val_range l). pose proof (byte_val_range r).
  assert (0 <= Z.lxor (byte_val l) (byte_val r)) as Hx by (apply Z.lxor_nonneg; split; intros; lia).
  assert (0 <= Z.lor d (Z.lxor (byte_val l) (byte_val r))) as Ho
    by (apply Z.lor_nonneg; lia).
  destruct (IH _ right Ho Hlen) as [Hn Heq]. split; [done|].
  rewrite Heq, Z.lor_eq_0_iff, Z.lxor_eq_0_iff. split.
  - intros [[-> Hb%(inj byte_val)] ->]. by subst.
  - by intros [-> [= -> ->]].
Qed.

Lemma constant_time_equal_spec left right :
  constant_time_equal left right = true <-> left = right.
Proof.
  unfold constant_time_equal, len.
  destruct (Z.eqb_spec (Z.of_nat (length left)) (Z.of_nat (length right))) as [E|E];
    cbn [negb].
  - destruct (xor_difference_zero 0 left right) as [_ Hz]; [lia..|].
    rewrite Z.eqb_eq, Hz. naive_solver.
  - split; [done|]. intros ->. lia.
Qed.

(** ** Authenticated messages *)

(** Everything the program ever authenticates with a MAC. *)
Inductive AuthMessage :=
| ClientProof (hello : AuthHello) (challenge : AuthChallenge)
| SessionKey (hello : AuthHello) (challenge : AuthChallenge)
| ServerProof (hello : AuthHello) (challenge : AuthChallenge)
| VideoPacket (header : VideoPacketHeader) (payload : bytes)
| ControlFrame (envelope : CommandEnvelope) (sequence : Z) (payload : bytes)
| DirectedFrame (envelope : CommandEnvelope) (sequence : Z) (payload : bytes)
    (direction : ControlDirection).

Definition auth_message_bytes (m : AuthMessage) : bytes :=
  match m with
  | ClientProof h c => make_transcript (text "NSTU-CLIENT-PROOF-V1") h c
  | SessionKey h c => make_transcript (text "NSTU-SESSION-KEY-V1") h c
  | ServerProof h c => make_transcript (text "NSTU-SERVER-PROOF-V1") h c
  | VideoPacket hdr p => video_auth_message hdr p
  | ControlFrame e s p => control_auth_message e s p
  | DirectedFrame e s p d => directed_control_auth_message e s p d
  end.

(** Every field of the message fits its C++ type. *)
Definition valid_auth_message (m : AuthMessage) : Prop :=
  match m with
  | ClientProof h c | SessionKey h c | ServerProof h c => wf_hello h /\ wf_challenge c
  | VideoPacket hdr _ => wf_video_header hdr
  | ControlFrame e s _ | DirectedFrame e s _ _ => wf_envelope e /\ u64 s
  end.

Lemma transcript_inj h c h' c' :
  wf_hello h -> wf_challenge c -> wf_hello h' -> wf_challenge c' ->
  encode_auth_hello h ++ encode_auth_challenge c =
    encode_auth_hello h' ++ encode_auth_challenge c' ->
  h = h' /\ c = c'.
Proof.
  intros Hh Hc Hh' Hc' [E1 E2]%app_inj_1.
  - split; [by apply (encode_inj h h')|by apply (encode_inj c c')].
  - pose proof (len_encode_auth_hello h Hh). pose proof (len_encode_auth_hello h' Hh').
    unfold len in *. lia.
Qed.

Lemma envelope_app_inj e e' r r' :
  wf_envelope e -> wf_envelope e' ->
  encode_command_header e ++ r = encode_command_header e' ++ r' -> e = e' /\ r = r'.
Proof.
  intros (? & ? & ? & ?) (? & ? & ? & ?) E. unfold encode_command_header in E.
  rewrite <- !app_assoc in E. apply app_inv_head in E. wire_inj E.
  destruct e, e'; cbn in *. by subst.
Qed.

Lemma video_header_app_inj h h' r r' :
  wf_video_header h -> wf_video_header h' ->
  encode_video_header h ++ r = encode_video_header h' ++ r' -> h = h' /\ r = r'.
Proof.
  intros (? & ? & ? & ? & ? & ? & ? & ? & ?) (? & ? & ? & ? & ? & ? & ? & ? & ?) E.
  unfold encode_video_header in E.
  rewrite <- !app_assoc in E. apply app_inv_head in E. wire_inj E.
  destruct h, h'; cbn in *. by subst.
Qed.

Lemma sequenced_app_inj e s p e' s' p' :
  wf_envelope e -> u64 s -> wf_envelope e' -> u64 s' ->
  encode_command_header e ++ write_le 8 s ++ p =
    encode_command_header e' ++ write_le 8 s' ++ p' ->
  e = e' /\ s = s' /\ p = p'.
Proof. intros He Hs He' Hs' [-> E]%envelope_app_inj; [|done..]. by wire_inj E. Qed.

(** ** Sequence guard *)

(** The sequences a guard accepts, in order of arrival. *)
Fixpoint guard_accepted (g : ControlSequenceGuard) (sequences : list Z) : list Z :=
  match sequences with
  | [] => []
  | s :: rest =>
      let '(ok, g') := guard_accept g s in
      if ok then s :: guard_accepted g' rest else guard_accepted g' rest
  end.

Lemma guard_accepted_exhausted g seqs : exhausted_ g = true -> guard_accepted g seqs = [].
Proof.
  intros Hg. induction seqs as [|s seqs IH]; [done|]. cbn.
  unfold guard_accept. rewrite Hg. apply IH.
Qed.

Lemma guard_accepted_shape next seqs :
  u64 next -> exists n, guard_accepted (guard_reset next) seqs = seqZ next n /\
    0 <= n /\ next + n <= u64_max + 1.
Proof.
  revert next. induction seqs as [|s seqs IH]; intros next Hn.
  - exists 0. split; [done|ulia].
  - cbn. unfold guard_accept. cbn [guard_reset exhausted_ next_expected_ orb].
    destruct (Z.eqb_spec s next) as [->|Hs]; cbn [negb]; [|by apply IH].
    destruct (Z.eqb_spec next u64_max) as [->|Hmax].
    + rewrite guard_accepted_exhausted by done. exists 1. split; [done|]. ulia.
    + destruct (IH (wrap64 (next + 1))) as (n & Hacc & ? & ?); [ulia|].
      assert (wrap64 (next + 1) = next + 1) as E by ulia.
      rewrite E in *. fold (guard_reset (next + 1)).
      rewrite Hacc. exists (n + 1).
      split; [|ulia]. rewrite (seqZ_cons next (n + 1)) by lia.
      unfold Z.succ. f_equal. f_equal. lia.
Qed.

(** ** Replay protection *)

Definition keys_of (entries : list ReplayEntry) : list bytes := map re_key entries.

(** The key set mirrors the queue, which holds each key once and fits. *)
Definition replay_inv (s : ReplayProtector) : Prop :=
  1 <= rp_capacity s /\ 1 <= rp_maximum_clock_skew s /\
  len (rp_entries s) <= rp_capacity s /\
  NoDup (keys_of (rp_entries s)) /\
  rp_keys s = list_to_set (keys_of (rp_entries s)).

Lemma mirror_pop (front : ReplayEntry) (rest : list ReplayEntry) (keys : gset bytes) :
  NoDup (keys_of (front :: rest)) -> keys = list_to_set (keys_of (front :: rest)) ->
  keys ∖ {[re_key front]} = list_to_set (keys_of rest).
Proof.
  cbn. intros [Hn _]%NoDup_cons ->. set_solver.
Qed.

Lemma evict_expired_spec (now : Z) (entries : list ReplayEntry) (keys : gset bytes) :
  NoDup (keys_of entries) -> keys = list_to_set (keys_of entries) ->
  exists gone left,
    evict_expired now entries keys = (left, list_to_set (keys_of left)) /\
    entries = gone ++ left /\ Forall (fun e => re_expires_at e < now) gone.
Proof.
  revert keys. induction entries as [|e entries IH]; intros keys Hn Hk.
  - exists [], []. by subst.
  - cbn [evict_expired]. destruct (Z.ltb_spec (re_expires_at e) now).
    + destruct (IH _ (NoDup_cons_1_2 _ _ Hn) (mirror_pop _ _ _ Hn Hk))
        as (gone & left & -> & -> & Hg). exists (e :: gone), left. by repeat constructor.
    + exists [], (e :: entries). by subst.
Qed.

Lemma evict_oldest_spec (capacity : Z) (entries : list ReplayEntry) (keys : gset bytes) :
  1 <= capacity -> NoDup (keys_of entries) -> keys = list_to_set (keys_of entries) ->
  exists gone left,
    evict_oldest capacity entries keys = (left, list_to_set (keys_of left)) /\
    entries = gone ++ left /\ len left < capacity /\
    (forall pre e post, gone = pre ++ e :: post -> capacity <= len (post ++ left) + 1).
Proof.
  intros Hc. revert keys. induction entries as [|e entries IH]; intros keys Hn Hk.
  - exists [], []. subst. split_and!; [done|done|unfold len; cbn; lia|].
    by intros [].
  - cbn [evict_oldest]. destruct (Z.geb_spec (len (e :: entries)) capacity) as [Hge|Hlt].
    + destruct (IH _ (NoDup_cons_1_2 _ _ Hn) (mirror_pop _ _ _ Hn Hk))
        as (gone & left & -> & -> & Hl & Hg). exists (e :: gone), left.
      split_and!; [done..|]. intros [|p pre] f post [= -> E].
      * subst. rewrite len_cons in Hge. lia.
      * by eapply Hg.
    + exists [], (e :: entries). subst. split_and!; [done..|]. by intros [].
Qed.

Lemma NoDup_keys_app_r gone left : NoDup (keys_of (gone ++ left)) -> NoDup (keys_of left).
Proof. unfold keys_of. rewrite map_app. by intros (_ & _ & ?)%NoDup_app. Qed.

(** One call, with everything it does to the queue. *)
Lemma replay_accept_spec s hello now :
  replay_inv s ->
  let '(ok, s') := replay_accept s hello now in
  replay_inv s' /\ rp_capacity s' = rp_capacity s /\
  rp_maximum_clock_skew s' = rp_maximum_clock_skew s /\
  exists expired left,
    (rp_entries s = expired ++ left \/ (rp_entries s = left /\ expired = [])) /\
    Forall (fun e => re_expires_at e < now) expired /\
    (if ok then
      validate_auth_hello hello = true /\
      clock_difference (ah_unix_time_seconds hello) now <= rp_maximum_clock_skew s /\
      replay_key hello ∉ keys_of left /\
      exists oldest kept, left = oldest ++ kept /\
        rp_entries s' = kept ++ [mkReplayEntry (replay_key hello) (replay_expiry s hello now)] /\
        (forall pre e post, oldest = pre ++ e :: post ->
           rp_capacity s <= len (post ++ kept) + 1)
    else rp_entries s' = left /\
      (replay_key hello ∈ keys_of left \/ validate_auth_hello hello = false \/
       rp_maximum_clock_skew s < clock_difference (ah_unix_time_seconds hello) now)).
Proof.
  intros Hinv. pose proof Hinv as (Hc & Hs & Hl & Hn & Hk). unfold replay_accept.
  destruct (validate_auth_hello hello) eqn:Hv; cbn [negb];
    [|split_and!; [done..|]; exists [], (rp_entries s); naive_solver].
  destruct (Z.gtb_spec (clock_difference (ah_unix_time_seconds hello) now)
    (rp_maximum_clock_skew s)); [split_and!; [done..|]; exists [], (rp_entries s); naive_solver|].
  destruct (evict_expired_spec now _ _ Hn Hk) as (gone & left & -> & Hent & Hgone).
  rewrite Hent in Hn, Hl. pose proof (NoDup_keys_app_r _ _ Hn) as Hnl.
  rewrite len_app in Hl. pose proof (len_nonneg gone).
  case_bool_decide as Hin; rewrite elem_of_list_to_set in Hin.
  - split; [unfold replay_inv; cbn; split_and!; try done; lia|]. split_and!; [done..|].
    exists gone, left. cbn. naive_solver.
  - destruct (evict_oldest_spec (rp_capacity s) left (list_to_set (keys_of left)))
      as (oldest & kept & -> & -> & Hlen & Hpost); [done..|].
    unfold keys_of in Hin. rewrite map_app, elem_of_app in Hin.
    split.
    + unfold replay_inv; cbn. split_and!; try done.
      * rewrite len_app. unfold len at 2. cbn. lia.
      * unfold keys_of. rewrite map_app. apply NoDup_app. split_and!.
        -- by eapply NoDup_keys_app_r.
        -- cbn. set_solver.
        -- apply NoDup_singleton.
      * unfold keys_of. rewrite map_app. cbn. set_solver.
    + split_and!; [done..|]. exists gone, (oldest ++ kept). split_and!; [by left|done..|lia| |].
      * unfold keys_of. by rewrite map_app, elem_of_app.
      * by exists oldest, kept.
Qed.

(** A sequence of calls, each with the clock it read. *)
Fixpoint replay_run (s : ReplayProtector) (calls : list (AuthHello * Z))
    : list bool * ReplayProtector :=
  match calls with
  | [] => ([], s)
  | (h, now) :: rest =>
      let '(ok, s') := replay_accept s h now in
      let '(oks, s'') := replay_run s' rest in
      (ok :: oks, s'')
  end.

Definition accepted_count (oks : list bool) : Z := len (List.filter (fun ok => ok) oks).

Lemma replay_run_inv s calls :
  replay_inv s -> replay_inv (snd (replay_run s calls)) /\
  rp_capacity (snd (replay_run s calls)) = rp_capacity s /\
  rp_maximum_clock_skew (snd (replay_run s calls)) = rp_maximum_clock_skew s.
Proof.
  revert s. induction calls as [|[h now] calls IH]; intros s Hs; [done|]. cbn.
  pose proof (replay_accept_spec s h now Hs) as Hspec.
  destruct (replay_accept s h now) as [ok s'].
  destruct Hspec as (Hs' & <- & <- & _). specialize (IH s' Hs').
  by destruct (replay_run s' calls).
Qed.

Lemma replay_create_inv capacity skew : replay_inv (replay_create capacity skew).
Proof. unfold replay_inv, len. cbn. split_and!; try lia; [constructor|done]. Qed.

(** The key is still queued with at most [n] younger entries, or has expired. *)
Definition remembers (s : ReplayProtector) (key : bytes) (expiry n now : Z) : Prop :=
  expiry < now \/
  exists pre post, rp_entries s = pre ++ mkReplayEntry key expiry :: post /\ len post <= n.

Lemma remembers_step s h now ok s' key expiry n t :
  replay_inv s -> replay_accept s h now = (ok, s') ->
  remembers s key expiry n t -> t <= now ->
  (ok = true -> n + 1 < rp_capacity s) ->
  remembers s' key expiry (if ok then n + 1 else n) now.
Proof.
  intros Hs Hrun [Hx|(pre & post & He & Hp)] Ht Hn; [left; lia|].
  pose proof (replay_accept_spec s h now Hs) as Hspec. rewrite Hrun in Hspec.
  destruct Hspec as (_ & _ & _ & expired & left & Hent & Hexp & Hok).
  assert (expiry < now \/ exists pre', left = pre' ++ mkReplayEntry key expiry :: post)
    as [?|[pre' Hleft]]; [|by left|].
  { destruct Hent as [Hent|[Hent _]]; rewrite He in Hent; [|right; eauto].
    symmetry in Hent. apply app_cons_split in Hent as [(post' & -> & _)|(pre' & -> & _)].
    - left. by apply Forall_app in Hexp as [_ [? _]%Forall_cons].
    - right. eauto. }
  right. destruct ok; [|exists pre', post; naive_solver].
  destruct Hok as (_ & _ & _ & oldest & kept & Hk & -> & Hcap).
  rewrite Hleft in Hk. symmetry in Hk.
  apply app_cons_split in Hk as [(post' & -> & ->)|(pre'' & -> & _)].
  - specialize (Hcap _ _ _ eq_refl). specialize (Hn eq_refl). rewrite len_app in Hp. 
    rewrite len_app in Hcap. lia.
  - exists pre'', (post ++ [mkReplayEntry (replay_key h) (replay_expiry s h now)]).
    rewrite <- app_assoc. split; [done|]. rewrite len_app. unfold len at 2. cbn. lia.
Qed.

Lemma remembers_run s calls key expiry n t t1 :
  replay_inv s -> remembers s key expiry n t ->
  Sorted Z.le (t :: map snd calls ++ [t1]) ->
  n + accepted_count (fst (replay_run s calls)) < rp_capacity s ->
  exists n', remembers (snd (replay_run s calls)) key expiry n' t1.
Proof.
  revert s n t. induction calls as [|[h now] calls IH]; intros s n t Hs Hr Hsort Hn.
  - exists n. apply Sorted_inv in Hsort as [_ Ht]. inversion Ht; subst. cbn.
    destruct Hr as [?|?]; [left; lia|by right].
  - pose proof (replay_accept_spec s h now Hs) as Hspec. cbn in Hn, Hsort |- *.
    destruct (replay_accept s h now) as [ok s'] eqn:Hacc.
    destruct Hspec as (Hs' & Hcap & _). rewrite <- Hcap in Hn.
    apply Sorted_inv in Hsort as [Hsort Ht]. inversion Ht as [|? ? Hle]; subst.
    specialize (IH s' (if ok then n + 1 else n) now Hs').
    destruct (replay_run s' calls) as [oks s2]. cbn in *.
    unfold accepted_count in *. cbn [List.filter] in Hn.
    pose proof (len_nonneg (List.filter (fun ok => ok) oks)).
    apply IH; [|done|destruct ok; cbn in Hn; rewrite ?len_cons in Hn; lia].
    apply (remembers_step s h now ok s' key expiry n t); try done.
    intros ->. cbn in Hn. rewrite len_cons in Hn. lia.
Qed.

Lemma remembered_rejected s h now n expiry :
  replay_inv s -> remembers s (replay_key h) expiry n now ->
  Z.min u64_max (ah_unix_time_seconds h + rp_maximum_clock_skew s) <= expiry ->
  now <= u64_max -> fst (replay_accept s h now) = false.
Proof.
  intros Hs Hr Hx Hnow. pose proof (replay_accept_spec s h now Hs) as Hspec.
  destruct (replay_accept s h now) as [[] s'] eqn:Hacc; [|done]. exfalso.
  destruct Hspec as (_ & _ & _ & expired & left & Hent & Hexp & Hv & Hd & Hin & _).
  assert (now <= expiry) as Hle.
  { destruct Hs as (_ & Hskew & _). unfold clock_difference in Hd.
    destruct (Z.gtb_spec (ah_unix_time_seconds h) now); lia. }
  destruct Hr as [|(pre & post & He & _)]; [lia|]. apply Hin.
  assert (mkReplayEntry (replay_key h) expiry ∈ left) as Hl.
  { destruct Hent as [Hent|[Hent _]].
    - assert (mkReplayEntry (replay_key h) expiry ∈ expired ++ left) as
        [Hbad|?]%elem_of_app by (rewrite <- Hent, He; set_solver); [|done].
      rewrite Forall_forall in Hexp. specialize (Hexp _ Hbad). cbn in Hexp. lia.
    - rewrite <- Hent, He. set_solver. }
  unfold keys_of. apply (list_elem_of_fmap_2 re_key) in Hl. exact Hl.
Qed.

Lemma replay_accept_remembers s h now s' :
  replay_inv s -> replay_accept s h now = (true, s') ->
  remembers s' (replay_key h) (replay_expiry s h now) 0 now /\
  Z.min u64_max (ah_unix_time_seconds h + rp_maximum_clock_skew s)
    <= replay_expiry s h now.
Proof.
  intros Hs Hacc. pose proof (replay_accept_spec s h now Hs) as Hspec.
  rewrite Hacc in Hspec.
  destruct Hspec as (_ & _ & _ & expired & left & _ & _ & _ & _ & _ & oldest & kept & _ & He & _).
  split; [right; exists kept, []; done|]. unfold replay_expiry.
  destruct (Z.gtb_spec (rp_maximum_clock_skew s)
    (u64_max - Z.max now (ah_unix_time_seconds h))); lia.
Qed.

(** ** Properties *)

(** The labels and the fixed-width fields in front of the variable part keep the
    messages apart. *)
Lemma auth_message_bytes_inj (m m' : AuthMessage) :
  valid_auth_message m -> valid_auth_message m' ->
  auth_message_bytes m = auth_message_bytes m' -> m = m'.
Proof.
  intros Hm Hm' E.
  destruct m, m'; cbn in Hm, Hm'; try discriminate E; cbn [auth_message_bytes] in E;
    unfold make_transcript, video_auth_message, control_auth_message,
      directed_control_auth_message in E; apply app_inv_head in E;
    repeat match goal with H : _ /\ _ |- _ => destruct H end.
  1-3: by destruct (transcript_inj hello challenge hello0 challenge0) as [-> ->].
  - by apply video_header_app_inj in E as [-> ->].
  - by apply sequenced_app_inj in E as (-> & -> & ->).
  - destruct direction, direction0; try (apply (f_equal head) in E; by vm_compute in E);
      apply app_inv_head in E; by apply sequenced_app_inj in E as (-> & -> & ->).
Qed.

(** Domain separation: over all the messages the program authenticates
    (client proof, session key, server proof, video packet, control frame and
    directed control frame), the byte strings given to the MAC are equal only
    if the messages are the same kind with the same fields. *)
Theorem auth_messages_injective (m m' : AuthMessage) :
  valid_auth_message m -> valid_auth_message m' ->
  auth_message_bytes m = auth_message_bytes m' -> m = m'.
Proof. apply auth_message_bytes_inj. Qed.

Definition sample_hello : AuthHello :=
  mkAuthHello (repeat (byte_of 7) 16) (repeat (byte_of 9) 32) 1000 1.
Definition sample_challenge : AuthChallenge := mkAuthChallenge (repeat (byte_of 3) 32) 1001.

Lemma auth_messages_injective_witness :
  valid_auth_message (ClientProof sample_hello sample_challenge) /\
  (auth_message_bytes (ClientProof sample_hello sample_challenge) =
     auth_message_bytes (ServerProof sample_hello sample_challenge) ->
   ClientProof sample_hello sample_challenge = ServerProof sample_hello sample_challenge).
Proof.
  assert (wf_hello sample_hello) as Hh by (repeat split; by vm_compute).
  assert (wf_challenge sample_challenge) as Hc by (repeat split; by vm_compute).
  split; [done|]. by apply auth_messages_injective.
Defined.

(** A tag is accepted exactly when it is the first sixteen bytes of the MAC,
    under a key of at least 32 bytes, of the message for exactly these fields;
    in particular no tag verifies when the key is too short or CNG fails. *)
Theorem tag_verified_iff (bcrypt_hmac : bytes -> bytes -> option bytes)
    (key : bytes) (header : VideoPacketHeader) (envelope : CommandEnvelope)
    (sequence : Z) (payload tag : bytes) (direction : ControlDirection) :
  let authentic message :=
    kMinimumProtocolKeyBytes <= len key /\ len tag = 16 /\
    exists digest, hmac_sha256 bcrypt_hmac key message = Some digest /\
      tag = take 16 digest in
  (verify_video_auth_tag bcrypt_hmac key header payload tag = true <->
     authentic (video_auth_message header payload)) /\
  (verify_control_auth_tag bcrypt_hmac key envelope sequence payload tag = true <->
     authentic (control_auth_message envelope sequence payload)) /\
  (verify_directed_control_auth_tag bcrypt_hmac key envelope sequence payload direction tag
     = true <->
     authentic (directed_control_auth_message envelope sequence payload direction)).
Proof.
  cbn zeta. unfold verify_video_auth_tag, verify_control_auth_tag,
    verify_directed_control_auth_tag, compute_video_auth_tag, compute_control_auth_tag,
    compute_directed_control_auth_tag, kVideoAuthTagBytes, kControlAuthTagBytes.
  destruct (Z.eqb_spec (len tag) 16) as [Hl|Hl]; cbn [negb]; [|naive_solver].
  destruct (Z.ltb_spec (len key) kMinimumProtocolKeyBytes) as [Hk|Hk];
    [split_and!; (split; [done|lia])|].
  split_and!.
  all: destruct (hmac_sha256 _ _ _) as [digest|]; [rewrite constant_time_equal_spec|];
    naive_solver.
Qed.

(** The sequence guard of an authenticated channel accepts, whatever arrives
    in whatever order, exactly an initial run first, first+1, first+2, ... of
    the sequence numbers: never one twice, never out of order, never past
    2^64-1; and it accepts every number that arrives in that order. *)
Theorem sequence_guard_accepts_a_run (first : Z) (arrivals : list Z) (n : Z) :
  u64 first ->
  (exists k, guard_accepted (guard_reset first) arrivals = seqZ first k /\
     0 <= k /\ first + k <= u64_max + 1) /\
  (0 <= n -> first + n <= u64_max + 1 ->
     guard_accepted (guard_reset first) (seqZ first n) = seqZ first n).
Proof.
  intros Hf. split; [by apply guard_accepted_shape|].
  intros Hn. revert first Hf. induction (Z.lt_wf 0 n) as [n _ IH]; intros first Hf Hb.
  destruct (decide (n = 0)) as [->|Hn0]; [done|].
  rewrite seqZ_cons by lia. cbn [guard_accepted]. unfold guard_accept.
  cbn [guard_reset exhausted_ next_expected_ orb]. rewrite Z.eqb_refl. cbn [negb].
  destruct (Z.eqb_spec first u64_max) as [->|Hm].
  - rewrite guard_accepted_exhausted by done.
    assert (Z.pred n <= 0) by ulia. by rewrite seqZ_nil.
  - assert (wrap64 (first + 1) = Z.succ first) as -> by ulia.
    fold (guard_reset (Z.succ first)). rewrite (IH (Z.pred n)); [done|lia..|ulia|lia].
Qed.

Lemma sequence_guard_accepts_a_run_witness :
  (exists k, guard_accepted (guard_reset 5) [4; 5; 5; 7; 6; 7] = seqZ 5 k /\
     0 <= k /\ 5 + k <= u64_max + 1) /\
  guard_accepted (guard_reset 5) (seqZ 5 3) = seqZ 5 3.
Proof.
  split.
  - apply (sequence_guard_accepts_a_run 5 _ 0). by vm_compute.
  - apply (sequence_guard_accepts_a_run 5 []); by vm_compute.
Defined.

(** Replay protection: once a hello has been accepted, it is rejected at any
    later clock reading, whatever other hellos arrived in between, as long as
    the clock does not run backwards and fewer than [capacity] hellos were
    accepted meanwhile (the bound is the queue's capacity, at least one). *)
Theorem replayed_hello_rejected (capacity skew : Z) (before later : list (AuthHello * Z))
    (hello : AuthHello) (t0 t1 : Z) :
  let s0 := snd (replay_run (replay_create capacity skew) before) in
  let first := replay_accept s0 hello t0 in
  let run := replay_run (snd first) later in
  fst first = true ->
  Sorted Z.le (t0 :: map snd later ++ [t1]) -> t1 <= u64_max ->
  accepted_count (fst run) < Z.max capacity 1 ->
  fst (replay_accept (snd run) hello t1) = false.
Proof.
  cbn zeta. intros Hok Hsort Ht1 Hcount.
  pose proof (replay_create_inv capacity skew) as Hinit.
  destruct (replay_run_inv _ before Hinit) as (Hs0 & Hcap0 & Hskew0).
  set (s0 := snd (replay_run (replay_create capacity skew) before)) in *.
  pose proof (replay_accept_spec s0 hello t0 Hs0) as Hspec.
  destruct (replay_accept s0 hello t0) as [ok s1] eqn:Hacc. cbn in Hok, Hcount |- *. subst ok.
  destruct Hspec as (Hs1 & Hcap1 & Hskew1 & _).
  destruct (replay_accept_remembers _ _ _ _ Hs0 Hacc) as [Hrem Hx].
  destruct (replay_run_inv s1 later Hs1) as (Hs2 & _ & Hskew2).
  destruct (remembers_run s1 later _ _ 0 t0 t1 Hs1 Hrem Hsort) as [n Hn];
    [rewrite Hcap1, Hcap0; cbn; lia|].
  apply (remembered_rejected _ _ _ _ _ Hs2 Hn); [|done].
  by rewrite Hskew2, Hskew1.
Qed.

Lemma replayed_hello_rejected_witness :
  let other := mkAuthHello (repeat (byte_of 8) 16) (repeat (byte_of 9) 32) 1010 1 in
  let run := replay_run (snd (replay_accept (replay_create 2 120) sample_hello 1000))
               [(other, 1005); (sample_hello, 1006)] in
  fst run = [true; false] /\ fst (replay_accept (snd run) sample_hello 1100) = false.
Proof.
  split; [by vm_compute|].
  apply (replayed_hello_rejected 2 120 []); first [by vm_compute | repeat constructor; by vm_compute].
Defined.

End Auth.
