(* ===== verification/RateLimiter.v ===== *)
(** Admission limiter for unauthenticated handshakes
    (common/include/nstu/rate_limiter.hpp, common/src/rate_limiter.cpp).

    A [steady_clock] time point is its tick count (nanoseconds); the durations
    of the policy are in seconds.  The iteration order of the [unordered_map]
    is the parameter [iteration]. *)

From S2P Require Import Prelude.

Module RateLimiter.

Definition ticks_per_second : Z := 1000000000.

Record HandshakeRateLimitPolicy := mkPolicy {
  maximum_sources : Z;
  maximum_failures : Z;
  window : Z;
  block : Z
}.

Definition default_policy : HandshakeRateLimitPolicy := mkPolicy 4096 5 60 300.

Record Entry := mkEntry {
  failures : Z;
  window_start : Z;
  blocked_until : Z;
  last_seen : Z
}.

(** A value-initialised entry, as [try_emplace] inserts. *)
Definition empty_entry : Entry := mkEntry 0 0 0 0.

Record HandshakeRateLimiter := mkLimiter {
  policy_ : HandshakeRateLimitPolicy;
  sources_ : gmap bytes Entry
}.

(** The constructor's clamping of the policy. *)
Definition clamp_policy (p : HandshakeRateLimitPolicy) : HandshakeRateLimitPolicy :=
  mkPolicy (Z.max (maximum_sources p) 1) (Z.max (maximum_failures p) 1)
    (Z.max (window p) 1) (Z.max (block p) 1).

Definition create (p : HandshakeRateLimitPolicy) : HandshakeRateLimiter :=
  mkLimiter (clamp_policy p) ∅.

Definition reset_window_locked (p : HandshakeRateLimitPolicy) (entry : Entry) (now : Z)
    : Entry :=
  let entry :=
    if (window_start entry =? 0) ||
       (now - window_start entry >=? window p * ticks_per_second)
    then mkEntry 0 now 0 (last_seen entry)
    else entry in
  if blocked_until entry <=? now
  then mkEntry (failures entry) (window_start entry) 0 (last_seen entry)
  else entry.

Definition allow (s : HandshakeRateLimiter) (source : bytes) (now : Z)
    : bool * HandshakeRateLimiter :=
  if bool_decide (source = []) then (false, s)
  else
    match sources_ s !! source with
    | None => (true, s)
    | Some entry =>
        let entry := mkEntry (failures entry) (window_start entry)
                       (blocked_until entry) now in
        if blocked_until entry >? now
        then (false, mkLimiter (policy_ s) (<[source := entry]> (sources_ s)))
        else
          let entry := reset_window_locked (policy_ s) entry now in
          (failures entry <? maximum_failures (policy_ s),
           mkLimiter (policy_ s) (<[source := entry]> (sources_ s)))
    end.

(** The scan of [trim_locked]: keep the first entry whose [last_seen] is least. *)
Fixpoint scan_oldest (oldest : bytes * Entry) (rest : list (bytes * Entry))
    : bytes * Entry :=
  match rest with
  | [] => oldest
  | it :: rest' =>
      scan_oldest (if last_seen it.2 <? last_seen oldest.2 then it else oldest) rest'
  end.

Section Trim.
Variable iteration : gmap bytes Entry -> list (bytes * Entry).

(** [while (sources_.size() > maximum_sources)]: each round erases one entry,
    so the size of the map is enough fuel. *)
Fixpoint trim_loop (fuel : nat) (limit : Z) (m : gmap bytes Entry) : gmap bytes Entry :=
  match fuel with
  | O => m
  | S fuel' =>
      if Z.of_nat (size m) >? limit then
        match iteration m with
        | [] => m
        | first :: rest => trim_loop fuel' limit (delete (scan_oldest first rest).1 m)
        end
      else m
  end.

Definition trim_locked (s : HandshakeRateLimiter) : HandshakeRateLimiter :=
  mkLimiter (policy_ s)
    (trim_loop (size (sources_ s)) (maximum_sources (policy_ s)) (sources_ s)).

(** The entry [record_failure] leaves for the source before trimming. *)
Definition failed_entry (p : HandshakeRateLimitPolicy) (found : option Entry) (now : Z)
    : Entry :=
  let entry :=
    match found with
    | None => mkEntry (failures empty_entry) now (blocked_until empty_entry)
                (last_seen empty_entry)
    | Some entry => reset_window_locked p entry now
    end in
  let entry := mkEntry (failures entry) (window_start entry) (blocked_until entry) now in
  let entry :=
    if failures entry <? maximum_failures p
    then mkEntry (failures entry + 1) (window_start entry) (blocked_until entry)
           (last_seen entry)
    else entry in
  if failures entry >=? maximum_failures p
  then mkEntry (failures entry) (window_start entry)
         (now + block p * ticks_per_second) (last_seen entry)
  else entry.

Definition record_failure (s : HandshakeRateLimiter) (source : bytes) (now : Z)
    : HandshakeRateLimiter :=
  if bool_decide (source = []) then s
  else
    trim_locked
      (mkLimiter (policy_ s)
         (<[source := failed_entry (policy_ s) (sources_ s !! source) now]> (sources_ s))).
End Trim.

Definition record_success (s : HandshakeRateLimiter) (source : bytes)
    : HandshakeRateLimiter :=
  if bool_decide (source = []) then s
  else mkLimiter (policy_ s) (delete source (sources_ s)).

Definition tracked_sources (s : HandshakeRateLimiter) : Z := Z.of_nat (size (sources_ s)).

(** ** Trimming *)

Lemma scan_oldest_spec first rest :
  scan_oldest first rest ∈ first :: rest /\
  forall it, it ∈ first :: rest -> last_seen (scan_oldest first rest).2 <= last_seen it.2.
Proof.
  revert first. induction rest as [|it rest IH]; intros first; cbn.
  - split; [set_solver|]. intros it ->%list_elem_of_singleton. done.
  - set (next := if last_seen it.2 <? last_seen first.2 then it else first).
    assert (last_seen next.2 <= last_seen it.2 /\ last_seen next.2 <= last_seen first.2 /\
            next ∈ [first; it]) as (H1 & H2 & H3).
    { unfold next. destruct (Z.ltb_spec (last_seen it.2) (last_seen first.2));
        (split_and!; [lia..|set_solver]). }
    clearbody next. destruct (IH next) as [Hin Hmin]. split; [set_solver|].
    pose proof (Hmin next ltac:(by left)).
    intros x [->|[->|Hx]%elem_of_cons]%elem_of_cons; [lia..|]. apply Hmin. by right.
Qed.

(** What one trim may do: keep the map within the limit by dropping entries that
    no kept entry is older than. *)
Definition trimmed (limit : Z) (m m' : gmap bytes Entry) : Prop :=
  m' ⊆ m /\ (Z.of_nat (size m') <= limit) /\
  (Z.of_nat (size m) <= limit -> m' = m) /\
  forall k k' e e', m !! k = Some e -> m' !! k = None -> m' !! k' = Some e' ->
    last_seen e <= last_seen e'.

Lemma trim_loop_spec (iteration : gmap bytes Entry -> list (bytes * Entry)) (fuel : nat) (limit : Z) (m : gmap bytes Entry) :
  (forall n, iteration n ≡ₚ map_to_list n) ->
  1 <= limit -> (size m <= fuel)%nat -> trimmed limit m (trim_loop iteration fuel limit m).
Proof.
  intros Hit Hlim. revert m. induction fuel as [|fuel IH]; intros m Hm; cbn.
  - split_and!; [done|lia|done|]. intros; congruence.
  - destruct (Z.gtb_spec (Z.of_nat (size m)) limit) as [Hgt|Hle];
      [|split_and!; [done|lia|done|]; intros; congruence].
    destruct (iteration m) as [|first rest] eqn:Hi.
    { exfalso. pose proof (Hit m) as Hp. rewrite Hi in Hp.
      apply Permutation_nil_l in Hp. symmetry in Hp. apply map_to_list_empty_iff in Hp. subst.
      rewrite map_size_empty in Hgt. lia. }
    destruct (scan_oldest_spec first rest) as [Hin Hmin].
    set (old := scan_oldest first rest) in *.
    assert (m !! old.1 = Some old.2) as Hold.
    { apply elem_of_map_to_list. rewrite <- (Hit m), Hi. by destruct old. }
    pose proof (map_size_delete_Some old.1 m (mk_is_Some _ _ Hold)) as Hsize.
    destruct (IH (delete old.1 m)) as (Hsub & Hsz & Hsame & Hage); [lia|].
    split_and!.
    + etrans; [done|apply delete_subseteq].
    + done.
    + lia.
    + intros k k' e e' Hk Hk' He'. destruct (decide (k = old.1)) as [->|Hne].
      * rewrite Hold in Hk. injection Hk as <-.
        apply (Hmin (k', e')). rewrite <- Hi, (Hit m). apply elem_of_map_to_list.
        eapply lookup_weaken; [done|]. etrans; [done|apply delete_subseteq].
      * apply (Hage k k' e e'); [by rewrite lookup_delete_ne|done..].
Qed.

(** ** Runs of the limiter *)

Inductive Operation :=
| Allow (source : bytes) (now : Z)
| RecordFailure (source : bytes) (now : Z)
| RecordSuccess (source : bytes).

Section Runs.
Variable iteration : gmap bytes Entry -> list (bytes * Entry).
Hypothesis iteration_perm : forall m, iteration m ≡ₚ map_to_list m.

Definition perform (s : HandshakeRateLimiter) (op : Operation) : HandshakeRateLimiter :=
  match op with
  | Allow source now => snd (allow s source now)
  | RecordFailure source now => record_failure iteration s source now
  | RecordSuccess source => record_success s source
  end.

Definition limited (s : HandshakeRateLimiter) : Prop :=
  1 <= maximum_sources (policy_ s) /\ tracked_sources s <= maximum_sources (policy_ s).

Lemma trim_locked_spec s :
  1 <= maximum_sources (policy_ s) ->
  trimmed (maximum_sources (policy_ s)) (sources_ s) (sources_ (trim_locked iteration s)).
Proof. intros H. by apply trim_loop_spec. Qed.

Lemma perform_limited s op : limited s -> limited (perform s op) /\ policy_ (perform s op) = policy_ s.
Proof.
  intros [Hp Hs]. unfold limited, tracked_sources in *. destruct op as [src now|src now|src]; cbn.
  - unfold allow. case_bool_decide; [done|].
    destruct (sources_ s !! src) as [e|] eqn:He; [|done].
    assert (forall e', size (<[src:=e']> (sources_ s)) = size (sources_ s)) as Hsz
      by (intros; apply map_size_insert_Some; eauto).
    cbn. destruct (_ >? _); cbn; by rewrite Hsz.
  - unfold record_failure. case_bool_decide; [done|].
    set (s1 := mkLimiter _ _). by destruct (trim_locked_spec s1 Hp) as (_ & Hsz & _).
  - unfold record_success. case_bool_decide; [done|]. cbn. split; [|done]. split; [done|].
    rewrite map_size_delete. destruct (sources_ s !! src); cbn; lia.
Qed.

(** A source that is still within the limit keeps every entry. *)
Lemma record_failure_no_trim s source now :
  source <> [] -> 1 <= maximum_sources (policy_ s) ->
  (sources_ s !! source = None -> tracked_sources s < maximum_sources (policy_ s)) ->
  tracked_sources s <= maximum_sources (policy_ s) ->
  record_failure iteration s source now =
    mkLimiter (policy_ s)
      (<[source := failed_entry (policy_ s) (sources_ s !! source) now]> (sources_ s)).
Proof.
  intros Hsrc Hp Hnone Hs. unfold record_failure. rewrite bool_decide_false by done.
  set (s1 := mkLimiter _ _). destruct (trim_locked_spec s1 Hp) as (_ & _ & Hsame & _).
  unfold trim_locked in *. cbn [sources_ policy_ s1] in *. f_equal. apply Hsame.
  unfold tracked_sources in *. destruct (sources_ s !! source) as [e|] eqn:He.
  - rewrite map_size_insert_Some; [done|eauto].
  - rewrite map_size_insert_None by done. specialize (Hnone eq_refl). lia.
Qed.
End Runs.

(** ** Bursts of failures *)

(** The entry of a source that has failed [count] times since [t0], all within
    the window, the last time at [last]. *)
Definition burst_entry (p : HandshakeRateLimitPolicy) (t0 count last : Z) : Entry :=
  mkEntry (Z.min count (maximum_failures p)) t0
    (if count <? maximum_failures p then 0 else last + block p * ticks_per_second) last.

Definition in_window (p : HandshakeRateLimitPolicy) (t0 t : Z) : Prop :=
  t0 <= t < t0 + window p * ticks_per_second.

Definition clamped (p : HandshakeRateLimitPolicy) : Prop :=
  1 <= maximum_sources p /\ 1 <= maximum_failures p /\ 1 <= window p /\ 1 <= block p.

Lemma reset_in_window p e now :
  0 < window_start e -> in_window p (window_start e) now ->
  reset_window_locked p e now =
    mkEntry (failures e) (window_start e)
      (if blocked_until e <=? now then 0 else blocked_until e) (last_seen e).
Proof.
  intros H0 [H1 H2]. unfold reset_window_locked.
  destruct (Z.eqb_spec (window_start e) 0); [lia|].
  destruct (Z.geb_spec (now - window_start e) (window p * ticks_per_second)); [lia|].
  cbn. destruct (_ <=? _); by destruct e.
Qed.

Lemma burst_first p now : clamped p -> failed_entry p None now = burst_entry p now 1 now.
Proof.
  intros (_ & Hf & _). unfold failed_entry, burst_entry. cbn.
  destruct (Z.ltb_spec 0 (maximum_failures p)); [|lia]. cbn.
  destruct (Z.geb_spec (0 + 1) (maximum_failures p));
    destruct (Z.ltb_spec 1 (maximum_failures p)); try lia; f_equal; lia.
Qed.

Lemma burst_next p t0 count last now :
  clamped p -> 0 < t0 -> 1 <= count -> in_window p t0 now ->
  failed_entry p (Some (burst_entry p t0 count last)) now = burst_entry p t0 (count + 1) now.
Proof.
  intros (_ & Hf & _) H0 Hc Hw. unfold failed_entry. rewrite reset_in_window by done. cbn.
  unfold burst_entry. cbn.
  destruct (Z.ltb_spec (Z.min count (maximum_failures p)) (maximum_failures p));
    destruct (Z.ltb_spec count (maximum_failures p)); try lia; cbn.
  - destruct Hw. destruct (Z.leb_spec 0 now); [|lia].
    destruct (Z.geb_spec (Z.min count (maximum_failures p) + 1) (maximum_failures p));
      destruct (Z.ltb_spec (count + 1) (maximum_failures p)); try lia; f_equal; lia.
  - destruct (Z.geb_spec (Z.min count (maximum_failures p)) (maximum_failures p)); [|lia].
    destruct (Z.ltb_spec (count + 1) (maximum_failures p)); [lia|]. f_equal; lia.
Qed.

(** The time of the last of a run of failures that started at [t0]. *)
Definition last_time (t0 : Z) (times : list Z) : Z := foldl (fun _ t => t) t0 times.

Section Burst.
Variable iteration : gmap bytes Entry -> list (bytes * Entry).
Hypothesis iteration_perm : forall m, iteration m ≡ₚ map_to_list m.

(** Failures of one source at the given times. *)
Definition fail_at (s : HandshakeRateLimiter) (source : bytes) (times : list Z)
    : HandshakeRateLimiter :=
  foldl (fun s now => record_failure iteration s source now) s times.

Lemma burst_continues s source t0 times count last0 :
  source <> [] -> clamped (policy_ s) -> limited s -> 0 < t0 -> 1 <= count ->
  sources_ s !! source = Some (burst_entry (policy_ s) t0 count last0) ->
  Forall (in_window (policy_ s) t0) times ->
  policy_ (fail_at s source times) = policy_ s /\
  sources_ (fail_at s source times) !! source =
    Some (burst_entry (policy_ s) t0 (count + len times) (last_time last0 times)).
Proof.
  intros Hsrc Hp. revert s Hp count last0.
  induction times as [|now times IH]; intros s Hp count last0 Hlim H0 Hc He Hw.
  - by rewrite len_nil, Z.add_0_r.
  - apply Forall_cons in Hw as [Hnow Hw]. cbn [fail_at foldl].
    assert (record_failure iteration s source now = mkLimiter (policy_ s)
      (<[source := burst_entry (policy_ s) t0 (count + 1) now]> (sources_ s))) as E.
    { destruct Hlim. rewrite (record_failure_no_trim _ iteration_perm) by (done || congruence).
      by rewrite He, burst_next. }
    pose proof (perform_limited _ iteration_perm s (RecordFailure source now) Hlim) as [Hl' _].
    cbn [perform] in Hl'. rewrite E in Hl' |- *.
    set (s1 := mkLimiter _ _) in *. destruct (IH s1 Hp (count + 1) now Hl' H0 ltac:(lia)) as [Hpol Hent];
      [cbn; by rewrite lookup_insert_eq|done|].
    unfold fail_at in *. split; [done|]. rewrite Hent.
    rewrite len_cons. cbn. do 2 f_equal. lia.
Qed.

Lemma burst_run s source t0 times :
  source <> [] -> clamped (policy_ s) -> tracked_sources s < maximum_sources (policy_ s) ->
  sources_ s !! source = None -> 0 < t0 ->
  Forall (in_window (policy_ s) t0) times ->
  let s' := fail_at s source (t0 :: times) in
  policy_ s' = policy_ s /\
  sources_ s' !! source =
    Some (burst_entry (policy_ s) t0 (1 + len times) (last_time t0 times)).
Proof.
  intros Hsrc Hp Hs Hnone H0 Hw. cbn [fail_at foldl].
  assert (limited s) as Hlim by (split; [apply Hp|lia]).
  assert (record_failure iteration s source t0 = mkLimiter (policy_ s)
    (<[source := burst_entry (policy_ s) t0 1 t0]> (sources_ s))) as E.
  { rewrite (record_failure_no_trim _ iteration_perm) by (done || apply Hp || lia).
    by rewrite Hnone, burst_first. }
  pose proof (perform_limited _ iteration_perm s (RecordFailure source t0) Hlim) as [Hl' _].
  cbn [perform] in Hl'. rewrite E in Hl' |- *.
  set (s1 := mkLimiter _ _) in *.
  apply (burst_continues s1 source t0 times 1 t0 Hsrc Hp Hl' H0); [lia| |done].
  apply lookup_insert_eq.
Qed.
End Burst.

Lemma failed_after_window p e now :
  clamped p -> 2 <= maximum_failures p -> 0 < now ->
  window_start e + window p * ticks_per_second <= now ->
  failed_entry p (Some e) now = mkEntry 1 now 0 now.
Proof.
  intros Hp Hmax H0 Hw. unfold failed_entry.
  assert (reset_window_locked p e now = mkEntry 0 now 0 (last_seen e)) as ->.
  { unfold reset_window_locked.
    destruct (Z.geb_spec (now - window_start e) (window p * ticks_per_second)); [|lia].
    rewrite orb_true_r. cbn. by destruct (Z.leb_spec 0 now). }
  cbn. destruct (Z.ltb_spec 0 (maximum_failures p)); [|lia]. cbn.
  by destruct (Z.geb_spec (0 + 1) (maximum_failures p)); [lia|].
Qed.

(** ** Properties *)

(** The limiter's memory is bounded: under any sequence of operations and
    any iteration order of the hash map, it never tracks more sources than the
    policy allows (at least one). *)
Theorem tracked_sources_bounded (iteration : gmap bytes Entry -> list (bytes * Entry))
    (p : HandshakeRateLimitPolicy) (ops : list Operation) :
  (forall m, iteration m ≡ₚ map_to_list m) ->
  tracked_sources (foldl (perform iteration) (create p) ops) <= Z.max (maximum_sources p) 1.
Proof.
  intros Hit.
  assert (forall s, limited s ->
    limited (foldl (perform iteration) s ops) /\
    policy_ (foldl (perform iteration) s ops) = policy_ s) as H.
  { induction ops as [|op ops IH]; intros s Hs; [done|]. cbn.
    destruct (perform_limited _ Hit s op Hs) as [Hs' Hp].
    rewrite <- Hp. by apply IH. }
  destruct (H (create p)) as [[_ Hb] Hp]; [|by rewrite Hp in Hb].
  split; cbn; [lia|]. unfold tracked_sources. cbn. rewrite map_size_empty. lia.
Qed.

Lemma tracked_sources_bounded_witness :
  tracked_sources (foldl (perform map_to_list) (create (mkPolicy 1 5 60 300))
    [RecordFailure (text "a") 5; RecordFailure (text "b") 6]) <= 1.
Proof. by apply (tracked_sources_bounded map_to_list (mkPolicy 1 5 60 300)). Defined.

(** A source not yet tracked that fails repeatedly
    within one window is still admitted while it has failed fewer than
    [maximum_failures] times, and from that many failures on it is refused until
    [block] seconds after the last failure. *)
Lemma burst_blocks (iteration : gmap bytes Entry -> list (bytes * Entry))
    (s : HandshakeRateLimiter) (source : bytes) (t0 : Z) (times : list Z) (now : Z) :
  (forall m, iteration m ≡ₚ map_to_list m) ->
  source <> [] -> clamped (policy_ s) -> tracked_sources s < maximum_sources (policy_ s) ->
  sources_ s !! source = None -> 0 < t0 -> Forall (in_window (policy_ s) t0) times ->
  let failed := 1 + len times in
  let admitted := fst (allow (fail_at iteration s source (t0 :: times)) source now) in
  (failed < maximum_failures (policy_ s) -> in_window (policy_ s) t0 now -> admitted = true) /\
  (maximum_failures (policy_ s) <= failed ->
     now < last_time t0 times + block (policy_ s) * ticks_per_second -> admitted = false).
Proof.
  intros Hit Hsrc Hp Hs Hnone H0 Hw. cbn zeta.
  destruct (burst_run _ Hit s source t0 times Hsrc Hp Hs Hnone H0 Hw) as [Hpol Hent].
  unfold allow. rewrite bool_decide_false, Hent, Hpol by done.
  unfold burst_entry. cbn. split.
  - intros Hf Hin. destruct (Z.ltb_spec (1 + len times) (maximum_failures (policy_ s))); [|lia].
    destruct (Z.gtb_spec 0 now); [destruct Hin; lia|].
    rewrite reset_in_window by done. cbn. lia.
  - intros Hf Hb. destruct (Z.ltb_spec (1 + len times) (maximum_failures (policy_ s))); [lia|].
    destruct (Z.gtb_spec (last_time t0 times + block (policy_ s) * ticks_per_second) now); [done|lia].
Qed.

(** When a further failure of a tracked source arrives after its window has elapsed, the source is admitted
    at once, however long its block still had to run (when one failure alone
    does not block). *)
Lemma late_failure_lifts (iteration : gmap bytes Entry -> list (bytes * Entry))
    (s : HandshakeRateLimiter) (source : bytes) (e : Entry) (now : Z) :
  (forall m, iteration m ≡ₚ map_to_list m) ->
  source <> [] -> clamped (policy_ s) -> limited s -> 2 <= maximum_failures (policy_ s) ->
  sources_ s !! source = Some e -> 0 < now ->
  window_start e + window (policy_ s) * ticks_per_second <= now ->
  fst (allow (record_failure iteration s source now) source now) = true.
Proof.
  intros Hit Hsrc Hp [_ Hlim] Hmax He H0 Hw.
  rewrite (record_failure_no_trim _ Hit) by (done || apply Hp || congruence).
  rewrite He, failed_after_window by (done || lia).
  unfold allow. rewrite bool_decide_false by done. cbn [sources_ policy_].
  rewrite lookup_insert_eq. cbn. destruct (Z.gtb_spec 0 now); [lia|].
  rewrite reset_in_window; cbn; [lia..|]. destruct Hp as (_ & _ & Hwin & _).
  unfold in_window, ticks_per_second. lia.
Qed.

(** Brute-force admission.  A source not yet tracked that fails repeatedly
    within one window is still admitted while it has failed fewer than
    [maximum_failures] times, and from that many failures on it is refused until
    [block] seconds after the last failure.  But when a further failure of a
    tracked source arrives after its window has elapsed, the source is admitted
    at once, however long its block still had to run (when one failure alone
    does not block). *)
Theorem burst_of_failures_blocks (iteration : gmap bytes Entry -> list (bytes * Entry))
    (s : HandshakeRateLimiter) (source : bytes) (now : Z) :
  (forall m, iteration m ≡ₚ map_to_list m) -> source <> [] -> clamped (policy_ s) -> limited s ->
  (forall t0 times, tracked_sources s < maximum_sources (policy_ s) ->
     sources_ s !! source = None -> 0 < t0 -> Forall (in_window (policy_ s) t0) times ->
     let failed := 1 + len times in
     let admitted := fst (allow (fail_at iteration s source (t0 :: times)) source now) in
     (failed < maximum_failures (policy_ s) -> in_window (policy_ s) t0 now -> admitted = true) /\
     (maximum_failures (policy_ s) <= failed ->
        now < last_time t0 times + block (policy_ s) * ticks_per_second -> admitted = false)) /\
  (forall e, 2 <= maximum_failures (policy_ s) -> sources_ s !! source = Some e -> 0 < now ->
     window_start e + window (policy_ s) * ticks_per_second <= now ->
     fst (allow (record_failure iteration s source now) source now) = true).
Proof.
  intros Hit Hsrc Hp Hl. split.
  - intros t0 times. by apply burst_blocks.
  - intros e. by apply late_failure_lifts.
Qed.

Definition sample_source : bytes := text "10.0.0.9".
Definition sample_failures : list Z := map (fun n => n * ticks_per_second) [2; 3; 4; 5].

Definition sample_limiter : HandshakeRateLimiter :=
  mkLimiter default_policy
    {[ sample_source := mkEntry 5 ticks_per_second (305 * ticks_per_second)
                          (5 * ticks_per_second) ]}.

Lemma burst_of_failures_blocks_witness :
  fst (allow (fail_at map_to_list (create default_policy) sample_source
                (ticks_per_second :: sample_failures))
         sample_source (200 * ticks_per_second)) = false /\
  fst (allow sample_limiter sample_source (65 * ticks_per_second)) = false /\
  fst (allow (record_failure map_to_list sample_limiter sample_source (65 * ticks_per_second))
         sample_source (65 * ticks_per_second)) = true.
Proof.
  split; [|split; [by vm_compute|]].
  - destruct (burst_of_failures_blocks map_to_list (create default_policy) sample_source
      (200 * ticks_per_second)) as [H _]; [done|done|by vm_compute|by vm_compute|].
    destruct (H ticks_per_second sample_failures) as [_ Hblocked]; [by vm_compute|done|done| |].
    + repeat constructor; by vm_compute.
    + apply Hblocked; by vm_compute.
  - destruct (burst_of_failures_blocks map_to_list sample_limiter sample_source
      (65 * ticks_per_second)) as [_ H]; [done|done|by vm_compute|by vm_compute|].
    apply (H (mkEntry 5 ticks_per_second (305 * ticks_per_second) (5 * ticks_per_second)));
      [by vm_compute|done|by vm_compute|by vm_compute].
Defined.

End RateLimiter.
