(* ===== verification/KeyStore.v ===== *)
(** The key store and its persistent form (common/src/key_store.cpp,
    common/src/keyring.cpp).  The [unordered_map] is a [gmap] under the same
    lookup keys; the loops over it do not depend on its order.  DPAPI storage
    ([save_machine_secret], [load_machine_secret]) is a parameter. *)

From S2P Require Import Prelude Wire Protocol Auth.
Import ReaderNotations Protocol.
#[local] Open Scope nstu_scope.

Module KeyStore.

Record KeyRecord := mkKeyRecord {
  kr_client_id : bytes;
  kr_key_id : Z;
  kr_key : bytes;
  kr_revoked : bool
}.

(** [KeyStore::Entry] has the fields of [KeyRecord]. *)
Abbreviation Entry := KeyRecord (only parsing).

Abbreviation KeyStore := (gmap bytes KeyRecord).

#[export] Instance key_record_eq_dec : EqDecision KeyRecord.
Proof. solve_decision. Defined.

(** The client id, then the key id byte by byte, low byte first. *)
Definition make_lookup_key (client_id : bytes) (key_id : Z) : bytes :=
  client_id ++ write_le 4 key_id.

Definition valid_key (key : bytes) : bool :=
  if len key <? Auth.kMinimumProtocolKeyBytes then false else any_nonzero key.

Definition secure_zero (bs : bytes) : bytes := map (fun _ => byte_of 0) bs.

(** [entry.revoked = true; secure_zero(entry.key)]. *)
Definition revoke_entry (e : KeyRecord) : KeyRecord :=
  mkKeyRecord (kr_client_id e) (kr_key_id e) (secure_zero (kr_key e)) true.

Definition enroll (s : KeyStore) (client_id : bytes) (key_id : Z) (key : bytes)
    : result KeyStore :=
  if (key_id =? 0) || negb (valid_key key) then Err "invalid key enrollment"
  else
    let lookup_key := make_lookup_key client_id key_id in
    if bool_decide (is_Some (s !! lookup_key)) then Err "key ID is already allocated"
    else Ok (<[lookup_key := mkKeyRecord client_id key_id key false]> s).

(** The [std::max] loop over the client's entries. *)
Definition highest_key_id (s : KeyStore) (client_id : bytes) : Z :=
  map_fold (fun _ e highest =>
    if bool_decide (kr_client_id e = client_id) then Z.max highest (kr_key_id e)
    else highest) 0 s.

(** [emplace] leaves an existing entry alone. *)
Definition emplace (s : KeyStore) (lookup_key : bytes) (e : KeyRecord) : KeyStore :=
  match s !! lookup_key with Some _ => s | None => <[lookup_key := e]> s end.

Definition rotate (s : KeyStore) (client_id replacement_key : bytes)
    : result (Z * KeyStore) :=
  if negb (valid_key replacement_key) then Err "invalid replacement key"
  else
    let highest := highest_key_id s client_id in
    if highest =? u32_max then Err "key ID space is exhausted"
    else
      let next_id := highest + 1 in
      let s := emplace s (make_lookup_key client_id next_id)
                 (mkKeyRecord client_id next_id replacement_key false) in
      let retire e :=
        if bool_decide (kr_client_id e = client_id) && negb (kr_key_id e =? next_id) &&
           negb (kr_revoked e)
        then revoke_entry e else e in
      Ok (next_id, retire <$> s).

Definition revoke (s : KeyStore) (client_id : bytes) (key_id : Z) : result KeyStore :=
  if key_id =? 0 then Err "invalid key ID"
  else
    let lookup_key := make_lookup_key client_id key_id in
    match s !! lookup_key with
    | None => Err "key is not active"
    | Some e =>
        if kr_revoked e then Err "key is not active"
        else Ok (<[lookup_key := revoke_entry e]> s)
    end.

Definition revocable (client_id : bytes) (e : KeyRecord) : bool :=
  bool_decide (kr_client_id e = client_id) && negb (kr_revoked e).

Definition revoke_client (s : KeyStore) (client_id : bytes) : Z * KeyStore :=
  (Z.of_nat (size (filter (fun '(_, e) => revocable client_id e = true) s)),
   (fun e => if revocable client_id e then revoke_entry e else e) <$> s).

Definition resolve (s : KeyStore) (client_id : bytes) (key_id : Z) : option bytes :=
  if key_id =? 0 then None
  else
    match s !! make_lookup_key client_id key_id with
    | None => None
    | Some e => if kr_revoked e || negb (valid_key (kr_key e)) then None else Some (kr_key e)
    end.

Definition active_key_count (s : KeyStore) : Z :=
  Z.of_nat (size (filter (fun '(_, e) => kr_revoked e = false) s)).

Definition key_count (s : KeyStore) : Z := Z.of_nat (size s).

(** ** Snapshots *)

(** [operator<] of [std::array<std::byte>]: lexicographic. *)
Fixpoint bytes_compare (a b : bytes) : comparison :=
  match a, b with
  | [], [] => Eq
  | [], _ => Lt
  | _, [] => Gt
  | x :: a', y :: b' =>
      match byte_val x ?= byte_val y with
      | Eq => bytes_compare a' b'
      | c => c
      end
  end.

(** [std::tie(client_id, key_id)] order. *)
Definition record_le (l r : KeyRecord) : bool :=
  match bytes_compare (kr_client_id l) (kr_client_id r) with
  | Lt => true
  | Eq => kr_key_id l <=? kr_key_id r
  | Gt => false
  end.

Definition record_order (l r : KeyRecord) : Prop := record_le l r = true.

#[export] Instance record_order_dec : RelDecision record_order.
Proof. intros l r. unfold record_order. apply _. Defined.

Definition snapshot_record (e : KeyRecord) : KeyRecord :=
  mkKeyRecord (kr_client_id e) (kr_key_id e)
    (if kr_revoked e then [] else kr_key e) (kr_revoked e).

Definition snapshot (s : KeyStore) : list KeyRecord :=
  merge_sort record_order
    (map (fun '(_, e) => snapshot_record e) (map_to_list s)).

Fixpoint replace_loop (replacement : KeyStore) (records : list KeyRecord)
    : result KeyStore :=
  match records with
  | [] => Ok replacement
  | record :: rest =>
      if (kr_key_id record =? 0) ||
         (if kr_revoked record then negb (bool_decide (kr_key record = []))
          else negb (valid_key (kr_key record)))
      then Err "invalid keyring record"
      else
        let lookup_key := make_lookup_key (kr_client_id record) (kr_key_id record) in
        match replacement !! lookup_key with
        | Some _ => Err "duplicate keyring record"
        | None => replace_loop (<[lookup_key := snapshot_record record]> replacement) rest
        end
  end.

(** The new map is built aside and swapped in at the end, so a failure leaves
    the store as it was. *)
Definition replace (s : KeyStore) (records : list KeyRecord) : result KeyStore :=
  replace_loop ∅ records.

(** ** The keyring file *)

Definition kKeyringMagic : Z := 0x31524b4e.
Definition kKeyringVersion : Z := 1.
Definition kKeyringHeaderBytes : Z := 12.
Definition kRevokedFlag : Z := 1.
Definition kMaximumKeyringRecords : Z := 100000.
Definition fixed_record_bytes : Z := 28.
Definition size_max : Z := 18446744073709551615.

Fixpoint keyring_total_bytes (total_bytes : Z) (records : list KeyRecord) : result Z :=
  match records with
  | [] => Ok total_bytes
  | record :: rest =>
      if (kr_key_id record =? 0) || (len (kr_key record) >? u32_max) ||
         (if kr_revoked record then negb (bool_decide (kr_key record = []))
          else len (kr_key record) <? Auth.kMinimumProtocolKeyBytes)
      then Err "invalid keyring record"
      else if (len (kr_key record) >? size_max - fixed_record_bytes) ||
              (fixed_record_bytes + len (kr_key record) >? size_max - total_bytes)
      then Err "keyring size overflow"
      else keyring_total_bytes (total_bytes + (fixed_record_bytes + len (kr_key record))) rest
  end.

Definition encode_record (record : KeyRecord) : bytes :=
  kr_client_id record ++ write_le 4 (kr_key_id record) ++
  write_le 4 (if kr_revoked record then kRevokedFlag else 0) ++
  write_le 4 (len (kr_key record)) ++ kr_key record.

Definition encode_keyring (records : list KeyRecord) : result bytes :=
  if (len records >? kMaximumKeyringRecords) || (len records >? u32_max)
  then Err "keyring record limit exceeded"
  else
    match keyring_total_bytes kKeyringHeaderBytes records with
    | Err e => Err e
    | Ok _ =>
        Ok (write_le 4 kKeyringMagic ++ write_le 2 kKeyringVersion ++
            write_le 2 kKeyringHeaderBytes ++ write_le 4 (len records) ++
            concat (map encode_record records))
    end.

Definition keyring_header_reader : reader Z :=
  magic <- read_le 4 ;;
  version <- read_le 2 ;;
  header_bytes <- read_le 2 ;;
  record_count <- read_le 4 ;;
  guard ((magic =? kKeyringMagic) && (version =? kKeyringVersion) &&
         (header_bytes =? kKeyringHeaderBytes) &&
         negb (record_count >? kMaximumKeyringRecords)) ;;
  rret record_count.

(** The client id, key id, flags and key size of a record. *)
Definition record_fields_reader : reader (bytes * Z * Z * Z) :=
  client_id <- read_bytes 16 ;;
  key_id <- read_le 4 ;;
  flags <- read_le 4 ;;
  key_bytes <- read_le 4 ;;
  left <- rremaining ;;
  guard ((Z.land flags (Z.lxor u32_max kRevokedFlag) =? 0) && negb (key_id =? 0) &&
         negb (key_bytes >? left)) ;;
  rret (client_id, key_id, flags, key_bytes).

Definition record_reader : ereader KeyRecord :=
  left <~ eremaining ;;
  expect negb (left <? fixed_record_bytes) else "keyring record is truncated" ;;
  fields <~ orelse "invalid keyring record" record_fields_reader ;;
  let '(client_id, key_id, flags, key_bytes) := fields in
  let revoked := negb (Z.land flags kRevokedFlag =? 0) in
  expect negb ((revoked && negb (key_bytes =? 0)) ||
               (negb revoked && (key_bytes <? Auth.kMinimumProtocolKeyBytes)))
    else "invalid keyring key length" ;;
  key <~ orelse "" (read_bytes (Z.to_nat key_bytes)) ;;
  eret (mkKeyRecord client_id key_id key revoked).

Definition decode_keyring (wire : bytes) : result (list KeyRecord) :=
  if len wire <? kKeyringHeaderBytes then Err "keyring header is truncated"
  else
    erun (
      record_count <~ orelse "invalid keyring header" keyring_header_reader ;;
      records <~ eread_many (Z.to_nat record_count) record_reader ;;
      left <~ eremaining ;;
      expect (left =? 0) else "keyring has trailing data" ;;
      eret records) wire.

Section Storage.
(** [save_machine_secret] and [load_machine_secret] on one path; an empty
    vector is a failure whose message is the callee's. *)
Variable save_machine_secret : bytes -> bool.
Variable load_machine_secret : bytes.

Definition save_keyring (s : KeyStore) : bool :=
  match encode_keyring (snapshot s) with
  | Err _ => false
  | Ok wire => negb (bool_decide (wire = [])) && save_machine_secret wire
  end.

Definition load_keyring (s : KeyStore) : result KeyStore :=
  if bool_decide (load_machine_secret = []) then Err ""
  else
    match decode_keyring load_machine_secret with
    | Err e => Err e
    | Ok records => replace s records
    end.
End Storage.

(** ** The store invariant *)

(** Every entry sits under its own lookup key, with a non-zero key id, and an
    entry that is not revoked holds a usable key. *)
Definition wf_entry (k : bytes) (e : KeyRecord) : Prop :=
  k = make_lookup_key (kr_client_id e) (kr_key_id e) /\
  length (kr_client_id e) = 16%nat /\ u32 (kr_key_id e) /\ kr_key_id e <> 0 /\
  (kr_revoked e = false -> valid_key (kr_key e) = true).

Definition wf_store (s : KeyStore) : Prop := map_Forall wf_entry s.

Lemma make_lookup_key_inj c c' i i' :
  length c = length c' -> u32 i -> u32 i' ->
  make_lookup_key c i = make_lookup_key c' i' -> c = c' /\ i = i'.
Proof.
  intros Hc Hi Hi' [-> E]%app_inj_1; [|done]. split; [done|]. by eapply write_le_inj.
Qed.

Lemma wf_insert s k e : wf_store s -> wf_entry k e -> wf_store (<[k := e]> s).
Proof. intros. by apply map_Forall_insert_2. Qed.

Lemma wf_revoke_entry k e : wf_entry k e -> wf_entry k (revoke_entry e).
Proof. unfold wf_entry, revoke_entry. cbn. naive_solver. Qed.

Lemma wf_update s (f : KeyRecord -> KeyRecord) :
  wf_store s -> (forall e, f e = e \/ f e = revoke_entry e) -> wf_store (f <$> s).
Proof.
  intros Hs Hf k e. rewrite lookup_fmap. destruct (s !! k) as [e0|] eqn:He; [|done].
  cbn. intros [= <-]. specialize (Hs _ _ He).
  destruct (Hf e0) as [-> | ->]; [done|by apply wf_revoke_entry].
Qed.

Lemma highest_key_id_spec s c :
  0 <= highest_key_id s c /\
  (forall k e, s !! k = Some e -> kr_client_id e = c -> kr_key_id e <= highest_key_id s c) /\
  (wf_store s -> highest_key_id s c <= u32_max).
Proof.
  unfold highest_key_id.
  apply (map_fold_weak_ind (fun highest (m : KeyStore) => 0 <= highest /\
    (forall k e, m !! k = Some e -> kr_client_id e = c -> kr_key_id e <= highest) /\
    (wf_store m -> highest <= u32_max))).
  - split_and!; [done| |done]. intros k e. by rewrite lookup_empty.
  - intros k e m h Hk (H0 & Hle & Hmax). case_bool_decide as Hc; split_and!; try lia.
    + intros k' e' [[-> ->]|[Hne Hin]]%lookup_insert_Some Hc'; [lia|].
      specialize (Hle _ _ Hin Hc'). lia.
    + intros [(_ & _ & Hu & _) Hwf]%map_Forall_insert; [|done]. specialize (Hmax Hwf). ulia.
    + intros k' e' [[-> ->]|[Hne Hin]]%lookup_insert_Some Hc'; [done|eauto].
    + intros [_ Hwf]%map_Forall_insert; auto.
Qed.

(** The id [rotate] picks is free. *)
Lemma next_id_free s c :
  wf_store s -> length c = 16%nat -> highest_key_id s c <> u32_max ->
  u32 (highest_key_id s c + 1) /\ highest_key_id s c + 1 <> 0 /\
  s !! make_lookup_key c (highest_key_id s c + 1) = None.
Proof.
  intros Hs Hc Hmax. destruct (highest_key_id_spec s c) as (H0 & Hle & Hm).
  specialize (Hm Hs). assert (u32 (highest_key_id s c + 1)) as Hu by ulia.
  split_and!; [done|lia|]. destruct (s !! _) as [e|] eqn:He; [|done].
  pose proof (Hs _ _ He) as (Hk & Hl & Hi & _).
  apply make_lookup_key_inj in Hk as [-> Hid]; [|by rewrite Hl|done..].
  specialize (Hle _ _ He eq_refl). lia.
Qed.

(** ** Runs of the store *)

Inductive Operation :=
| Enroll (client_id : bytes) (key_id : Z) (key : bytes)
| Rotate (client_id key : bytes)
| Revoke (client_id : bytes) (key_id : Z)
| RevokeClient (client_id : bytes)
| Replace (records : list KeyRecord).

Definition lookup_key_of (r : KeyRecord) : bytes :=
  make_lookup_key (kr_client_id r) (kr_key_id r).

Definition typed_entry (r : KeyRecord) : Prop :=
  length (kr_client_id r) = 16%nat /\ u32 (kr_key_id r).

(** The arguments have their C++ types. *)
Definition typed_operation (op : Operation) : Prop :=
  match op with
  | Enroll c i _ | Revoke c i => length c = 16%nat /\ u32 i
  | Rotate c _ | RevokeClient c => length c = 16%nat
  | Replace records => Forall typed_entry records
  end.

(** A failed operation leaves the store as it was. *)
Definition perform (s : KeyStore) (op : Operation) : KeyStore :=
  match op with
  | Enroll c i key => match enroll s c i key with Ok s' => s' | Err _ => s end
  | Rotate c key => match rotate s c key with Ok (_, s') => s' | Err _ => s end
  | Revoke c i => match revoke s c i with Ok s' => s' | Err _ => s end
  | RevokeClient c => snd (revoke_client s c)
  | Replace records => match replace s records with Ok s' => s' | Err _ => s end
  end.

Definition retired (s : KeyStore) (k : bytes) : Prop :=
  exists e, s !! k = Some e /\ kr_revoked e = true.

(** The operation does not undo the revocation under [k]: a successful
    replacement lists it. *)
Definition keeps_retired (k : bytes) (op : Operation) : Prop :=
  match op with
  | Replace records =>
      forall s s', replace s records = Ok s' ->
        exists r, r ∈ records /\ lookup_key_of r = k /\ kr_revoked r = true
  | _ => True
  end.

(** The new map holds what it held and the records, none of them twice. *)
Lemma replace_loop_spec (records : list KeyRecord) : forall m m',
  wf_store m -> Forall typed_entry records -> replace_loop m records = Ok m' ->
  wf_store m' /\ forall k e, m' !! k = Some e <->
    m !! k = Some e \/ exists r, r ∈ records /\ lookup_key_of r = k /\ snapshot_record r = e.
Proof.
  induction records as [|r rs IH]; intros m m' Hm Hr; cbn.
  { intros [= <-]. split; [done|]. intros k e. split; [by left|].
    intros [?|(r & Hin & _)]; [done|by apply not_elem_of_nil in Hin]. }
  apply Forall_cons in Hr as [[Hc Hi] Hr].
  destruct (Z.eqb_spec (kr_key_id r) 0) as [|H0]; [done|]. cbn [orb].
  destruct (if kr_revoked r then _ else _) eqn:Hk; [done|].
  fold (lookup_key_of r). destruct (m !! lookup_key_of r) eqn:Hfree; [done|]. intros Hl.
  assert (wf_entry (lookup_key_of r) (snapshot_record r)) as Hwf.
  { split_and!; try done. cbn. intros Hrev. rewrite Hrev in *. by apply negb_false_iff in Hk. }
  destruct (IH _ _ (wf_insert _ _ _ Hm Hwf) Hr Hl) as [Hm' H]. split; [done|].
  intros k e. rewrite H, lookup_insert_Some. split.
  - intros [[[<- <-]|[_ ?]]|(r' & Hin & ?)]; [right; exists r|by left|right; exists r'].
    + by split; [left|].
    + by split; [right|].
  - intros [He|(r' & [->|Hin]%elem_of_cons & Hkk & <-)].
    + left. right. split; [|done]. intros <-. congruence.
    + left. by left.
    + right. by exists r'.
Qed.

Lemma empty_store_wf : wf_store ∅.
Proof. intros k e. by rewrite lookup_empty. Qed.

Lemma replace_spec s s' records :
  Forall typed_entry records -> replace s records = Ok s' ->
  wf_store s' /\ forall k e, s' !! k = Some e <->
    exists r, r ∈ records /\ lookup_key_of r = k /\ snapshot_record r = e.
Proof.
  intros Hr Hrep. destruct (replace_loop_spec records ∅ s' empty_store_wf Hr Hrep) as [Hs' H].
  split; [done|]. intros k e. rewrite H, lookup_empty. naive_solver.
Qed.

Lemma perform_spec s op :
  wf_store s -> typed_operation op ->
  wf_store (perform s op) /\
  (forall k, keeps_retired k op -> retired s k -> retired (perform s op) k).
Proof.
  intros Hs Hop. destruct op as [c i key|c key|c i|c|records]; cbn.
  - unfold enroll. destruct (Z.eqb_spec i 0) as [|Hi]; [done|].
    destruct (valid_key key) eqn:Hv; [cbn|done]. case_bool_decide as Hfree; [done|].
    split; [apply wf_insert; [done|]; cbn in Hop; split_and!; naive_solver|].
    intros k _ (e & He & Hr). exists e. split; [|done].
    rewrite lookup_insert_ne; [done|]. intros <-. apply Hfree. eauto.
  - unfold rotate. destruct (valid_key key) eqn:Hv; [cbn|done].
    destruct (Z.eqb_spec (highest_key_id s c) u32_max) as [|Hmax]; [done|].
    destruct (next_id_free s c Hs Hop Hmax) as (Hu & Hn0 & Hfree).
    unfold emplace. rewrite Hfree. split.
    + apply wf_update; [apply wf_insert; [done|]; split_and!; naive_solver|].
      intros e. destruct (_ && _); auto.
    + intros k _ (e & He & Hr). eexists. rewrite lookup_fmap, lookup_insert_ne, He by congruence.
      cbn. rewrite Hr. cbn. rewrite andb_false_r. done.
  - unfold revoke. destruct (Z.eqb_spec i 0) as [|Hi]; [done|].
    destruct (s !! make_lookup_key c i) as [e|] eqn:He; [|done].
    destruct (kr_revoked e) eqn:Hr; [done|].
    split; [by apply wf_insert, wf_revoke_entry; [|apply Hs]|].
    intros k _ (e' & He' & Hr'). exists e'. split; [|done].
    rewrite lookup_insert_ne; [done|]. congruence.
  - split; [apply wf_update; [done|]; intros e; destruct (revocable c e); auto|].
    intros k _ (e & He & Hr). eexists. rewrite lookup_fmap, He. cbn.
    unfold revocable. rewrite Hr, andb_false_r. done.
  - destruct (replace s records) as [s'|] eqn:Hrep; [|done].
    destruct (replace_spec s s' records Hop Hrep) as [Hs' H]. split; [done|].
    intros k Hkeep _. destruct (Hkeep s s' Hrep) as (r & Hin & Hk & Hrev).
    exists (snapshot_record r). split; [|done]. apply H. by exists r.
Qed.

Lemma perform_run s ops k :
  wf_store s -> Forall typed_operation ops -> Forall (keeps_retired k) ops -> retired s k ->
  retired (foldl perform s ops) k.
Proof.
  intros Hs Hops. revert s Hs. induction Hops as [|op ops Hop Hops IH]; intros s Hs Hk Hr; [done|].
  apply Forall_cons in Hk as [Hkop Hk]. cbn. destruct (perform_spec s op Hs Hop) as [Hs' Hr'].
  by apply IH; [| |apply Hr'].
Qed.

(** ** The keyring codec *)

Definition wf_record (r : KeyRecord) : Prop :=
  length (kr_client_id r) = 16%nat /\ u32 (kr_key_id r) /\ kr_key_id r <> 0 /\
  len (kr_key r) <= u32_max /\
  (if kr_revoked r then kr_key r = [] else Auth.kMinimumProtocolKeyBytes <= len (kr_key r)).

Lemma record_reader_encode r rest :
  wf_record r -> record_reader (encode_record r ++ rest) = Ok (r, rest).
Proof.
  intros (Hc & Hi & H0 & Hl & Hk). unfold record_reader.
  pose proof (len_nonneg (kr_key r)). pose proof (len_nonneg rest).
  assert (len (encode_record r ++ rest) = 28 + len (kr_key r) + len rest) as Hlen.
  { unfold encode_record. autorewrite with wire. rewrite (len_length _ _ Hc). lia. }
  rewrite ebind_remaining, Hlen, ebind_guard by (unfold fixed_record_bytes; lia).
  unfold encode_record. rewrite <- !app_assoc.
  set (flags := if kr_revoked r then kRevokedFlag else 0).
  assert (u32 flags) as Hf by (unfold flags; destruct (kr_revoked r); by vm_compute).
  assert (u32 (len (kr_key r))) as Hu by ulia.
  rewrite (ebind_orelse _ _ _ _
    (kr_client_id r, kr_key_id r, flags, len (kr_key r)) (kr_key r ++ rest)).
  - assert (negb (Z.land flags kRevokedFlag =? 0) = kr_revoked r) as ->
      by (unfold flags; by destruct (kr_revoked r)).
    rewrite ebind_guard.
    + rewrite (ebind_orelse _ _ _ _ (kr_key r) rest); [by destruct r|].
      apply read_bytes_app. unfold len. lia.
    + destruct (kr_revoked r); [by rewrite Hk|]. cbn. unfold Auth.kMinimumProtocolKeyBytes in *. lia.
  - unfold record_fields_reader. reader_run. rewrite len_app.
    rewrite rbind_guard; [done|].
    assert (Z.land flags (Z.lxor u32_max kRevokedFlag) =? 0 = true) as ->
      by (unfold flags; by destruct (kr_revoked r)).
    lia.
Qed.

Lemma flags_cases flags :
  u32 flags -> Z.land flags (Z.lxor u32_max kRevokedFlag) = 0 -> flags = 0 \/ flags = 1.
Proof.
  intros Hf Hz. assert (flags < 2 \/ 2 <= flags) as [?|Hge] by lia; [ulia|]. exfalso.
  assert (Z.land (Z.shiftr flags 1) (Z.ones 31) = 0) as Hs.
  { change (Z.ones 31) with (Z.shiftr (Z.lxor u32_max kRevokedFlag) 1).
    rewrite <- Z.shiftr_land, Hz. done. }
  rewrite Z.land_ones, Z.shiftr_div_pow2 in Hs by lia.
  change (2 ^ 1) with 2 in Hs. change (2 ^ 31) with 2147483648 in Hs. ulia.
Qed.

Lemma record_reader_inv input r rest :
  record_reader input = Ok (r, rest) -> wf_record r /\ input = encode_record r ++ rest.
Proof.
  unfold record_reader. intros H. reader_inv.
  destruct x1 as [[[client_id key_id] flags] key_bytes]. reader_inv.
  unfold record_fields_reader in *. reader_inv. simplify_eq/=. bool_to_prop.
  match goal with
  | Hu : u32 ?flags, Hz : Z.land ?flags (Z.lxor _ _) = 0, Hl : length ?key = Z.to_nat ?n |- _ =>
      assert (len key = n) by (unfold len; ulia);
      destruct (flags_cases flags Hu Hz) as [-> | ->]
  end; unfold wf_record, encode_record, Auth.kMinimumProtocolKeyBytes in *.
  - change (Z.land 0 kRevokedFlag =? 0) with true in *. cbn in *. bool_to_prop. subst.
    split; [split_and?; try done; try ulia|]. by rewrite <- !app_assoc.
  - change (Z.land 1 kRevokedFlag =? 0) with false in *. cbn in *. bool_to_prop.
    match goal with H : len ?key = ?n |- _ => assert (key = []) as -> by (apply len_zero; lia) end.
    subst. split; [split_and?; try done|]. by rewrite <- !app_assoc.
Qed.

Lemma keyring_total_bytes_ok total records :
  0 <= total -> total + len (concat (map encode_record records)) <= size_max ->
  Forall wf_record records -> exists n, keyring_total_bytes total records = Ok n.
Proof.
  intros Ht Hsz Hr. revert total Ht Hsz. induction Hr as [|r rs (Hc & Hi & H0 & Hl & Hk) Hr IH];
    intros total Ht Hsz; [eexists; done|].
  cbn [keyring_total_bytes]. cbn [map concat] in Hsz. rewrite len_app in Hsz.
  assert (len (encode_record r) = 28 + len (kr_key r)) as Hlen.
  { unfold encode_record. autorewrite with wire. rewrite (len_length _ _ Hc). lia. }
  pose proof (len_nonneg (kr_key r)). pose proof (len_nonneg (concat (map encode_record rs))).
  assert (((kr_key_id r =? 0) || (len (kr_key r) >? u32_max) ||
    (if kr_revoked r then negb (bool_decide (kr_key r = []))
     else len (kr_key r) <? Auth.kMinimumProtocolKeyBytes)) = false) as ->.
  { destruct (kr_revoked r); [rewrite bool_decide_true by done|]; cbn; lia. }
  unfold fixed_record_bytes.
  assert (((len (kr_key r) >? size_max - 28) || (28 + len (kr_key r) >? size_max - total)) = false)
    as -> by (unfold u32_max, size_max in *; lia).
  apply IH; lia.
Qed.

Lemma keyring_total_bytes_inv total records n :
  Forall (fun r => length (kr_client_id r) = 16%nat /\ u32 (kr_key_id r)) records ->
  keyring_total_bytes total records = Ok n -> Forall wf_record records.
Proof.
  intros Hr. revert total. induction Hr as [|r rs [Hc Hi] Hr IH]; intros total; [done|].
  cbn. case_if Ht; [done|]. case_if Hsz; [done|].
  intros Hn. constructor; [|by eapply IH].
  destruct (kr_revoked r) eqn:Hrev; unfold wf_record; rewrite Hrev; bool_to_prop;
    split_and!; (done || lia).
Qed.

(** Records whose fields have their C++ types. *)
Definition typed_records (records : list KeyRecord) : Prop :=
  Forall (fun r => length (kr_client_id r) = 16%nat /\ u32 (kr_key_id r)) records.

Lemma keyring_decodes records :
  Forall wf_record records -> len records <= kMaximumKeyringRecords ->
  decode_keyring (write_le 4 kKeyringMagic ++ write_le 2 kKeyringVersion ++
    write_le 2 kKeyringHeaderBytes ++ write_le 4 (len records) ++
    concat (map encode_record records)) = Ok records.
Proof.
  intros Hr Hn. unfold kMaximumKeyringRecords in Hn. pose proof (len_nonneg records).
  pose proof (len_nonneg (concat (map encode_record records))).
  unfold decode_keyring. autorewrite with wire.
  destruct (Z.ltb_spec (Z.of_nat 4 + (Z.of_nat 2 + (Z.of_nat 2 + (Z.of_nat 4 +
    len (concat (map encode_record records)))))) kKeyringHeaderBytes) as [Hbad|_];
    [unfold kKeyringHeaderBytes in Hbad; lia|].
  unfold erun. rewrite (ebind_orelse _ _ _ _ (len records) (concat (map encode_record records))).
  - unfold ebind at 1. rewrite <- (app_nil_r (concat _)).
    unfold len at 1. rewrite Nat2Z.id, eread_many_concat; [done|].
    intros r rest Hin. apply record_reader_encode. by rewrite Forall_forall in Hr; apply Hr.
  - unfold keyring_header_reader. reader_run.
    rewrite rbind_guard; [done|]. eval_tests. unfold kMaximumKeyringRecords. lia.
Qed.

Lemma len_concat_records records :
  Forall wf_record records -> len records <= kMaximumKeyringRecords ->
  len (concat (map encode_record records)) <= 100000 * (28 + u32_max).
Proof.
  intros Hr Hn.
  assert (len (concat (map encode_record records)) <= len records * (28 + u32_max)) as H.
  { clear Hn. induction Hr as [|r rs (Hc & Hi & H0 & Hl & Hk) Hr IH]; [done|].
    cbn [map concat]. rewrite len_app, len_cons. unfold encode_record at 1.
    autorewrite with wire. rewrite (len_length _ _ Hc). lia. }
  unfold kMaximumKeyringRecords, u32_max in *. lia.
Qed.

Lemma encode_keyring_ok records w :
  typed_records records ->
  encode_keyring records = Ok w <->
  Forall wf_record records /\ len records <= kMaximumKeyringRecords /\
  w = write_le 4 kKeyringMagic ++ write_le 2 kKeyringVersion ++
    write_le 2 kKeyringHeaderBytes ++ write_le 4 (len records) ++
    concat (map encode_record records).
Proof.
  intros Ht. unfold encode_keyring. split.
  - case_if Hn; [done|]. bool_to_prop.
    destruct (keyring_total_bytes _ _) as [n|] eqn:Hb; [|done]. intros [= <-].
    split_and!; [|lia|done]. by eapply keyring_total_bytes_inv.
  - intros (Hr & Hn & ->). pose proof (len_concat_records _ Hr Hn).
    destruct (keyring_total_bytes_ok kKeyringHeaderBytes records) as [n ->]; [done| |done|].
    { unfold kKeyringHeaderBytes, size_max, u32_max in *. lia. }
    unfold kMaximumKeyringRecords, u32_max in *.
    destruct (Z.gtb_spec (len records) 100000); [lia|].
    by destruct (Z.gtb_spec (len records) 4294967295); [lia|].
Qed.

Lemma decode_keyring_inv w records :
  decode_keyring w = Ok records ->
  Forall wf_record records /\ len records <= kMaximumKeyringRecords /\
  w = write_le 4 kKeyringMagic ++ write_le 2 kKeyringVersion ++
    write_le 2 kKeyringHeaderBytes ++ write_le 4 (len records) ++
    concat (map encode_record records).
Proof.
  unfold decode_keyring. case_if Hl; [done|]. intros H. reader_inv.
  unfold keyring_header_reader in *. reader_inv. bool_to_prop. subst.
  match goal with H : eread_many _ _ _ = _ |- _ =>
    apply (eread_many_inv _ encode_record wf_record) in H as (Hr & -> & Hn) end;
    [|intros; by apply record_reader_inv].
  no_rest. rewrite app_nil_r.
  match type of Hn with length ?l = Z.to_nat ?c =>
    assert (len l = c) as <- by (unfold len; ulia) end.
  split_and!; [done|lia|done].
Qed.

(** ** Restoring a snapshot *)

Definition acceptable (r : KeyRecord) : Prop :=
  kr_key_id r <> 0 /\ (if kr_revoked r then kr_key r = [] else valid_key (kr_key r) = true).

Lemma replace_loop_ok m records :
  Forall acceptable records -> NoDup (map lookup_key_of records) ->
  (forall r, r ∈ records -> m !! lookup_key_of r = None) ->
  replace_loop m records =
    Ok (list_to_map (map (fun r => (lookup_key_of r, snapshot_record r)) records) ∪ m).
Proof.
  intros Hr. revert m. induction Hr as [|r rs [H0 Hk] Hr IH]; intros m Hnd Hm; cbn.
  - by rewrite (left_id_L ∅ (∪)).
  - cbn in Hnd. apply NoDup_cons in Hnd as [Hin Hnd].
    assert (((kr_key_id r =? 0) || (if kr_revoked r then negb (bool_decide (kr_key r = []))
      else negb (valid_key (kr_key r)))) = false) as ->.
    { destruct (kr_revoked r); [rewrite bool_decide_true by done|rewrite Hk]; cbn; lia. }
    fold (lookup_key_of r). rewrite Hm by set_solver. rewrite IH; [|done|].
    + f_equal. rewrite <- insert_union_r; [by rewrite insert_union_l|].
      apply not_elem_of_list_to_map. rewrite <- list_fmap_compose. exact Hin.
    + intros r' Hr'. rewrite lookup_insert_ne; [apply Hm; set_solver|].
      intros E. apply Hin. rewrite E. by apply (list_elem_of_fmap_2 lookup_key_of).
Qed.

Lemma wf_entry_lookup s k e : wf_store s -> s !! k = Some e -> lookup_key_of e = k.
Proof. intros Hs He. by destruct (Hs _ _ He) as [-> _]. Qed.

Lemma snapshot_perm s : snapshot s ≡ₚ map (fun '(_, e) => snapshot_record e) (map_to_list s).
Proof. apply merge_sort_Permutation. Qed.

Lemma snapshot_in s r :
  r ∈ snapshot s <-> exists k e, s !! k = Some e /\ r = snapshot_record e.
Proof.
  rewrite snapshot_perm. split.
  - intros ([k e] & -> & Hin)%list_elem_of_fmap. apply elem_of_map_to_list in Hin. eauto.
  - intros (k & e & He & ->). apply elem_of_map_to_list in He.
    by apply (list_elem_of_fmap_2 (fun '(_, e) => snapshot_record e) _ (k, e)).
Qed.

Lemma snapshot_acceptable s : wf_store s -> Forall acceptable (snapshot s).
Proof.
  intros Hs. apply Forall_forall. intros r (k & e & He & ->)%snapshot_in.
  destruct (Hs _ _ He) as (_ & _ & _ & H0 & Hk). unfold acceptable, snapshot_record.
  cbn. destruct (kr_revoked e); auto.
Qed.

Lemma snapshot_keyed s :
  wf_store s ->
  map (fun r => (lookup_key_of r, snapshot_record r)) (snapshot s) ≡ₚ
    prod_map id snapshot_record <$> map_to_list s.
Proof.
  intros Hs. rewrite snapshot_perm, map_map.
  replace (map _ (map_to_list s)) with (prod_map id snapshot_record <$> map_to_list s); [done|].
  apply map_ext_in. intros [k e] Hin%list_elem_of_In%elem_of_map_to_list. cbn.
  rewrite <- (wf_entry_lookup _ _ _ Hs Hin). unfold snapshot_record.
  cbn. by destruct (kr_revoked e).
Qed.

Lemma snapshot_keys s : wf_store s -> map lookup_key_of (snapshot s) ≡ₚ (map_to_list s).*1.
Proof.
  intros Hs. pose proof (fmap_Permutation fst _ _ (snapshot_keyed s Hs)) as H.
  rewrite <- !list_fmap_compose in H. exact H.
Qed.

Lemma replace_snapshot s0 s :
  wf_store s -> replace s0 (snapshot s) = Ok (snapshot_record <$> s).
Proof.
  intros Hs. pose proof (NoDup_fst_map_to_list s) as Hnd.
  unfold replace. rewrite replace_loop_ok; [| |by rewrite snapshot_keys|].
  - rewrite (right_id_L ∅ (∪)). f_equal.
    erewrite list_to_map_proper; [|rewrite snapshot_keyed by done|by apply snapshot_keyed].
    + by rewrite list_to_map_fmap, list_to_map_to_list.
    + by rewrite <- list_fmap_compose.
  - by apply snapshot_acceptable.
  - intros. apply lookup_empty.
Qed.

Lemma resolve_snapshot s c i :
  wf_store s -> resolve (snapshot_record <$> s) c i = resolve s c i.
Proof.
  intros Hs. unfold resolve. destruct (i =? 0); [done|]. rewrite lookup_fmap.
  destruct (s !! _) as [e|]; [|done]. cbn. by destruct (kr_revoked e).
Qed.

Lemma snapshot_wf_records s :
  wf_store s -> (forall k e, s !! k = Some e -> len (kr_key e) <= u32_max) ->
  Forall wf_record (snapshot s).
Proof.
  intros Hs Hlen. apply Forall_forall. intros r (k & e & He & ->)%snapshot_in.
  destruct (Hs _ _ He) as (_ & Hc & Hu & H0 & Hk). specialize (Hlen _ _ He).
  unfold wf_record, snapshot_record. cbn. split_and!; try done.
  - destruct (kr_revoked e); [done|lia].
  - destruct (kr_revoked e); [done|]. specialize (Hk eq_refl). unfold valid_key in Hk.
    destruct (Z.ltb_spec (len (kr_key e)) Auth.kMinimumProtocolKeyBytes); [done|lia].
Qed.

Lemma len_snapshot s : len (snapshot s) = key_count s.
Proof.
  unfold len, key_count. by rewrite snapshot_perm, length_map, length_map_to_list.
Qed.

(** ** Properties *)

(** On a well-formed store, [rotate] installs the new key under an
    id larger than any the client ever had, leaves that as the only id of the
    client that resolves, and changes nothing for other clients. *)
Lemma rotate_spec (s s' : KeyStore) (c key : bytes) (id : Z) :
  wf_store s -> length c = 16%nat -> rotate s c key = Ok (id, s') ->
  wf_store s' /\ u32 id /\
  (forall k e, s !! k = Some e -> kr_client_id e = c -> kr_key_id e < id) /\
  (forall c' i, length c' = 16%nat -> u32 i ->
     resolve s' c' i =
       if bool_decide (c' = c) then (if i =? id then Some key else None)
       else resolve s c' i).
Proof.
  intros Hs Hc Hrot. destruct (perform_spec s (Rotate c key) Hs Hc) as [Hs' _].
  cbn in Hs'. rewrite Hrot in Hs'. split; [done|].
  unfold rotate in Hrot. destruct (valid_key key) eqn:Hv; [cbn in Hrot|done].
  destruct (Z.eqb_spec (highest_key_id s c) u32_max) as [|Hmax]; [done|].
  destruct (next_id_free s c Hs Hc Hmax) as (Hu & Hn0 & Hfree).
  destruct (highest_key_id_spec s c) as (_ & Hle & _).
  injection Hrot as <- <-. split_and!; [done|intros; specialize (Hle _ _ ltac:(done) ltac:(done)); lia|].
  set (id := highest_key_id s c + 1) in *.
  intros c' i Hc' Hi. unfold resolve, emplace. rewrite Hfree, lookup_fmap.
  destruct (decide (make_lookup_key c' i = make_lookup_key c id)) as [Hk|Hk].
  - apply make_lookup_key_inj in Hk as [-> ->]; [|congruence|done..].
    rewrite lookup_insert_eq, bool_decide_true, Z.eqb_refl by done.
    destruct (Z.eqb_spec id 0); [done|]. cbn. rewrite bool_decide_true, Z.eqb_refl by done.
    cbn. by rewrite Hv.
  - rewrite lookup_insert_ne by done.
    destruct (Z.eqb_spec i 0) as [->|Hi0].
    { case_bool_decide; [|done]. by destruct (Z.eqb_spec 0 id). }
    destruct (s !! make_lookup_key c' i) as [e|] eqn:He; cbn.
    2: { case_bool_decide; [|done]. subst c'. by destruct (Z.eqb_spec i id); subst. }
    destruct (Hs _ _ He) as (Hek & Hel & Hei & _).
    apply make_lookup_key_inj in Hek as [-> ->]; [|by rewrite Hel|done..].
    case_bool_decide as Hcc; cbn; [|done]. subst c.
    destruct (Z.eqb_spec (kr_key_id e) id) as [Hid|Hid]; [by rewrite Hid in Hk|]. cbn.
    by destruct (kr_revoked e) eqn:Hrev; cbn; rewrite ?Hrev.
Qed.

Definition sample_client : bytes := repeat (byte_of 1) 16.
Definition sample_key (n : Z) : bytes := repeat (byte_of n) 32.
Definition sample_store : KeyStore :=
  {[ make_lookup_key sample_client 1 := mkKeyRecord sample_client 1 (sample_key 5) false ]}.

Lemma sample_store_wf : wf_store sample_store.
Proof. apply map_Forall_singleton. by vm_compute. Qed.

Definition succeeds {A} (r : result A) : bool :=
  match r with Ok _ => true | Err _ => false end.

(** Once an entry is revoked, no sequence of operations that keeps it makes its
    id resolve. *)
Lemma revoked_stays_revoked (s : KeyStore) (ops : list Operation) (c : bytes) (i : Z) :
  wf_store s -> Forall typed_operation ops ->
  Forall (keeps_retired (make_lookup_key c i)) ops -> retired s (make_lookup_key c i) ->
  resolve (foldl perform s ops) c i = None.
Proof.
  intros Hs Hops Hk Hr. destruct (perform_run s ops _ Hs Hops Hk Hr) as (e & He & Hrev).
  unfold resolve. rewrite He, Hrev. by destruct (i =? 0).
Qed.

(** After a replacement, what resolves is what its records hold. *)
Lemma resolve_replaced (s s' : KeyStore) (records : list KeyRecord) (c key : bytes) (i : Z) :
  Forall typed_entry records -> replace s records = Ok s' -> length c = 16%nat -> u32 i ->
  resolve s' c i = Some key <-> mkKeyRecord c i key false ∈ records.
Proof.
  intros Hr Hrep Hc Hi. destruct (replace_spec s s' records Hr Hrep) as [Hs' H].
  rewrite Forall_forall in Hr. unfold resolve. split.
  - destruct (i =? 0); [done|]. destruct (s' !! make_lookup_key c i) as [e|] eqn:He; [|done].
    destruct (_ || _) eqn:Ev; [done|]. intros [= <-]. apply H in He as (r & Hin & Hk & <-).
    destruct (Hr r Hin) as [Hrc Hri].
    apply make_lookup_key_inj in Hk as [<- <-]; [|congruence|done..].
    destruct r as [rc ri rk []]; [done|exact Hin].
  - intros Hin. destruct (Hr _ Hin) as [_ _].
    assert (s' !! make_lookup_key c i = Some (mkKeyRecord c i key false)) as He
      by (apply H; by eexists).
    destruct (Hs' _ _ He) as (_ & _ & _ & H0 & Hv). cbn in H0, Hv.
    destruct (Z.eqb_spec i 0); [done|]. rewrite He. cbn. by rewrite Hv.
Qed.

(** C40. The life of a key.  On a well-formed store, [rotate] installs the new key
    under an id larger than any the client ever had, leaves that as the only id
    of the client that resolves, and changes nothing for other clients.
    Revocation is final but for [replace]: once an entry is revoked, no sequence
    of enrolments, rotations, revocations and replacements, failing or not, makes
    its id resolve again, if the replacements that succeed list it as revoked.
    After a replacement precisely the unrevoked records it was given resolve, so
    replacing by a snapshot, the rollback of the control plane, makes every id
    resolve as when the snapshot was taken. *)
Theorem key_lifecycle (s : KeyStore) :
  wf_store s ->
  (forall s' c key id, length c = 16%nat -> rotate s c key = Ok (id, s') ->
     wf_store s' /\ u32 id /\
     (forall k e, s !! k = Some e -> kr_client_id e = c -> kr_key_id e < id) /\
     (forall c' i, length c' = 16%nat -> u32 i ->
        resolve s' c' i =
          if bool_decide (c' = c) then (if i =? id then Some key else None)
          else resolve s c' i)) /\
  (forall ops c i, Forall typed_operation ops ->
     Forall (keeps_retired (make_lookup_key c i)) ops -> retired s (make_lookup_key c i) ->
     resolve (foldl perform s ops) c i = None) /\
  (forall records s' c i key, Forall typed_entry records -> replace s records = Ok s' ->
     length c = 16%nat -> u32 i ->
     resolve s' c i = Some key <-> mkKeyRecord c i key false ∈ records) /\
  (forall s0, exists s', replace s0 (snapshot s) = Ok s' /\
     forall c i, resolve s' c i = resolve s c i).
Proof.
  intros Hs. split_and!.
  - intros s' c key id. by apply rotate_spec.
  - intros ops c i. by apply revoked_stays_revoked.
  - intros records s' c i key. by apply resolve_replaced.
  - intros s0. exists (snapshot_record <$> s).
    split; [by apply replace_snapshot|intros c i; by apply resolve_snapshot].
Qed.

Definition sample_snapshot : list KeyRecord := [mkKeyRecord sample_client 1 [] true].

(** Revoked, replaced by records that list the revocation, enrolled and rotated:
    the id does not resolve.  Replaced by a record that holds it, it does. *)
Lemma key_lifecycle_witness :
  (exists id s', rotate sample_store sample_client (sample_key 6) = Ok (id, s') /\
     resolve s' sample_client 1 = None) /\
  (let s := perform sample_store (Revoke sample_client 1) in
   resolve (foldl perform s [Replace sample_snapshot; Enroll sample_client 1 (sample_key 7);
     Rotate sample_client (sample_key 8)]) sample_client 1 = None) /\
  (exists s', replace sample_store [mkKeyRecord sample_client 1 (sample_key 9) false] = Ok s' /\
     resolve s' sample_client 1 = Some (sample_key 9)).
Proof.
  assert (u32 1) as Hu by ulia. split; [|split].
  - assert (succeeds (rotate sample_store sample_client (sample_key 6)) = true) as Hok
      by (vm_compute; reflexivity).
    destruct (rotate sample_store sample_client (sample_key 6)) as [[id s']|] eqn:E;
      [|discriminate Hok].
    exists id, s'. split; [reflexivity|].
    destruct (key_lifecycle sample_store sample_store_wf) as [Hrot _].
    destruct (Hrot s' sample_client (sample_key 6) id eq_refl E) as (_ & _ & Hold & H).
    rewrite (H sample_client 1 eq_refl Hu), bool_decide_true by reflexivity.
    specialize (Hold _ _ (lookup_insert_eq _ _ _) eq_refl). cbn in Hold.
    destruct (Z.eqb_spec 1 id) as [E1|_]; [lia|reflexivity].
  - assert (wf_store (perform sample_store (Revoke sample_client 1))) as Hs
      by (apply (perform_spec sample_store (Revoke sample_client 1) sample_store_wf); by vm_compute).
    apply (key_lifecycle _ Hs).
    + repeat (apply Forall_cons; split); try apply Forall_nil_2; try (by vm_compute).
    + repeat (apply Forall_cons; split); try apply Forall_nil_2; try exact I.
      intros s0 s' _. eexists. split; [by left|by vm_compute].
    + eexists. split; by vm_compute.
  - assert (succeeds (replace sample_store [mkKeyRecord sample_client 1 (sample_key 9) false])
      = true) as Hok by (vm_compute; reflexivity).
    destruct (replace sample_store [mkKeyRecord sample_client 1 (sample_key 9) false]) as [s'|] eqn:E;
      [|discriminate Hok].
    exists s'. split; [reflexivity|]. destruct (key_lifecycle sample_store sample_store_wf)
      as (_ & _ & H & _).
    assert (Forall typed_entry [mkKeyRecord sample_client 1 (sample_key 9) false]) as Ht
      by (apply Forall_singleton; exact (conj eq_refl Hu)).
    apply (H _ _ sample_client 1 (sample_key 9) Ht E eq_refl Hu). by apply list_elem_of_singleton.
Defined.

(** A well-formed store within the record limit is saved, and loading the saved
    bytes into any store restores it. *)
Lemma saved_store_loads (s s0 : KeyStore) (c : bytes) (i : Z) :
  wf_store s -> key_count s <= kMaximumKeyringRecords ->
  (forall k e, s !! k = Some e -> len (kr_key e) <= u32_max) ->
  exists w s', encode_keyring (snapshot s) = Ok w /\ load_keyring w s0 = Ok s' /\
    resolve s' c i = resolve s c i /\ key_count s' = key_count s.
Proof.
  intros Hs Hn Hlen. pose proof (snapshot_wf_records s Hs Hlen) as Hr.
  assert (typed_records (snapshot s)) as Ht
    by (eapply Forall_impl; [exact Hr|]; by intros r (? & ? & _)).
  set (w := write_le 4 kKeyringMagic ++ write_le 2 kKeyringVersion ++
    write_le 2 kKeyringHeaderBytes ++ write_le 4 (len (snapshot s)) ++
    concat (map encode_record (snapshot s))).
  exists w, (snapshot_record <$> s). rewrite <- len_snapshot in Hn.
  split_and!; [by apply encode_keyring_ok| |by apply resolve_snapshot|].
  - unfold load_keyring. rewrite bool_decide_false.
    + unfold w. by rewrite keyring_decodes, replace_snapshot.
    + intros E%(f_equal len). unfold w in E. autorewrite with wire in E.
      pose proof (len_nonneg (concat (map encode_record (snapshot s)))). lia.
  - unfold key_count. by rewrite map_size_fmap.
Qed.

(** The keyring file.  The format is exact: bytes decode to a record list
    precisely when they are what [encode_keyring] returns for it.  And it
    persists the store: a well-formed store within the record limit is saved, and
    loading the saved bytes into any store gives one in which every client and
    key id resolves exactly as before. *)
Theorem keyring_roundtrip :
  (forall (w : bytes) (records : list KeyRecord),
     decode_keyring w = Ok records <-> typed_records records /\ encode_keyring records = Ok w) /\
  (forall (s s0 : KeyStore) (c : bytes) (i : Z),
     wf_store s -> key_count s <= kMaximumKeyringRecords ->
     (forall k e, s !! k = Some e -> len (kr_key e) <= u32_max) ->
     exists w s', encode_keyring (snapshot s) = Ok w /\ load_keyring w s0 = Ok s' /\
       resolve s' c i = resolve s c i /\ key_count s' = key_count s).
Proof.
  split; [|intros; by apply saved_store_loads]. intros w records. split.
  - intros (Hr & Hn & ->)%decode_keyring_inv.
    assert (typed_records records) as Ht by (eapply Forall_impl; [exact Hr|]; by intros r (? & ? & _)).
    split; [done|]. by apply encode_keyring_ok.
  - intros [Ht (Hr & Hn & ->)%encode_keyring_ok]; [|done]. by apply keyring_decodes.
Qed.

Lemma keyring_roundtrip_witness :
  exists w s', encode_keyring (snapshot sample_store) = Ok w /\ load_keyring w ∅ = Ok s' /\
    resolve s' sample_client 1 = resolve sample_store sample_client 1 /\
    key_count s' = key_count sample_store.
Proof.
  apply keyring_roundtrip; [exact sample_store_wf|by vm_compute|].
  intros k e Hk. unfold sample_store in Hk. apply lookup_singleton_Some in Hk as [<- <-].
  by vm_compute.
Defined.

End KeyStore.
