(* ===== verification/PacketLoss.v ===== *)
(** Packet-loss accounting of one authenticated video stream
    (common/include/nstu/packet_loss.hpp, common/src/packet_loss.cpp).

    The [uint8_t] flags of the ring buffer are booleans.  [loss_per_mille] is
    left out: it is a [long double] ratio. *)

From S2P Require Import Prelude Protocol.
Import Protocol.

Module PacketLoss.

Inductive PacketDisposition : Set :=
  | uninitialized | in_order | reordered | duplicate | too_late | wrong_stream
  | invalid_forward_jump.

#[export] Instance disposition_eq_dec : EqDecision PacketDisposition.
Proof. solve_decision. Defined.

Record PacketLossStats := mkStats {
  st_stream_id : Z;
  st_generation : Z;
  st_finalized_received : Z;
  st_confirmed_lost : Z;
  st_unique_received : Z;
  st_duplicates : Z;
  st_reordered : Z;
  st_too_late : Z;
  st_wrong_stream : Z;
  st_invalid_forward_jumps : Z
}.

Record PacketLossTracker := mkTracker {
  received_ : list bool;
  head_ : nat;
  window_start_ : Z;
  highest_sequence_ : Z;
  max_forward_jump_ : Z;
  stream_id_ : Z;
  generation_ : Z;
  stream_set_ : bool;
  sequence_set_ : bool;
  packet_seen_ : bool;
  stats_ : PacketLossStats
}.

Definition empty_stats (stream_id generation : Z) : PacketLossStats :=
  mkStats stream_id generation 0 0 0 0 0 0 0 0.

Definition saturating_add (value amount : Z) : Z :=
  if amount >? u64_max - value then u64_max else value + amount.

Definition finalized_sample_size (s : PacketLossStats) : Z :=
  if st_confirmed_lost s >? u64_max - st_finalized_received s then u64_max
  else st_finalized_received s + st_confirmed_lost s.

(** The counters [packet_loss_delta] compares, in its order. *)
Definition counters (s : PacketLossStats) : list Z :=
  [ st_finalized_received s; st_confirmed_lost s; st_unique_received s;
    st_duplicates s; st_reordered s; st_too_late s; st_wrong_stream s;
    st_invalid_forward_jumps s ].

Fixpoint any_decreased (newer older : list Z) : bool :=
  match newer, older with
  | n :: newer', o :: older' => (n <? o) || any_decreased newer' older'
  | _, _ => false
  end.

Definition packet_loss_delta (newer older : PacketLossStats) : option PacketLossStats :=
  if negb (st_stream_id newer =? st_stream_id older) ||
     negb (st_generation newer =? st_generation older) then None
  else if any_decreased (counters newer) (counters older) then None
  else Some (mkStats (st_stream_id newer) (st_generation newer)
    (st_finalized_received newer - st_finalized_received older)
    (st_confirmed_lost newer - st_confirmed_lost older)
    (st_unique_received newer - st_unique_received older)
    (st_duplicates newer - st_duplicates older)
    (st_reordered newer - st_reordered older)
    (st_too_late newer - st_too_late older)
    (st_wrong_stream newer - st_wrong_stream older)
    (st_invalid_forward_jumps newer - st_invalid_forward_jumps older)).

(** ** Field updates *)

Definition set_stats (t : PacketLossTracker) (s : PacketLossStats) : PacketLossTracker :=
  mkTracker (received_ t) (head_ t) (window_start_ t) (highest_sequence_ t)
    (max_forward_jump_ t) (stream_id_ t) (generation_ t) (stream_set_ t)
    (sequence_set_ t) (packet_seen_ t) s.

Definition set_ring (t : PacketLossTracker) (received : list bool) (head : nat)
    : PacketLossTracker :=
  mkTracker received head (window_start_ t) (highest_sequence_ t)
    (max_forward_jump_ t) (stream_id_ t) (generation_ t) (stream_set_ t)
    (sequence_set_ t) (packet_seen_ t) (stats_ t).

Definition set_window (t : PacketLossTracker) (start highest : Z) (sequence_set seen : bool)
    : PacketLossTracker :=
  mkTracker (received_ t) (head_ t) start highest (max_forward_jump_ t)
    (stream_id_ t) (generation_ t) (stream_set_ t) sequence_set seen (stats_ t).

Inductive Counter := Finalized | Lost | Unique | Duplicates | Reordered | TooLate
  | WrongStream | ForwardJumps.

(** [saturating_add(stats_.field, amount)]. *)
Definition bump (t : PacketLossTracker) (c : Counter) (amount : Z) : PacketLossTracker :=
  let s := stats_ t in
  let add c' v := match c, c' with
    | Finalized, Finalized | Lost, Lost | Unique, Unique | Duplicates, Duplicates
    | Reordered, Reordered | TooLate, TooLate | WrongStream, WrongStream
    | ForwardJumps, ForwardJumps => saturating_add v amount
    | _, _ => v end in
  set_stats t (mkStats (st_stream_id s) (st_generation s)
    (add Finalized (st_finalized_received s)) (add Lost (st_confirmed_lost s))
    (add Unique (st_unique_received s)) (add Duplicates (st_duplicates s))
    (add Reordered (st_reordered s)) (add TooLate (st_too_late s))
    (add WrongStream (st_wrong_stream s)) (add ForwardJumps (st_invalid_forward_jumps s))).

(** ** Operations *)

(** [std::clamp(reorder_window, 8, 65536)] slots. *)
Definition create (reorder_window max_forward_jump : Z) : PacketLossTracker :=
  mkTracker (repeat false (Z.to_nat (Z.min (Z.max reorder_window 8) 65536))) 0 0 0
    (Z.max max_forward_jump 1) 0 0 false false false (empty_stats 0 0).

Definition reset (t : PacketLossTracker) (stream_id : Z) (initial_sequence : option Z)
    : PacketLossTracker :=
  let generation := wrap64 (generation_ t + 1) in
  mkTracker (map (fun _ => false) (received_ t)) 0 (default 0 initial_sequence)
    (default 0 initial_sequence) (max_forward_jump_ t) stream_id generation true
    (match initial_sequence with Some _ => true | None => false end) false
    (empty_stats stream_id generation).

Definition finalize_slot (t : PacketLossTracker) (index : nat) : PacketLossTracker :=
  if nth index (received_ t) false then bump t Finalized 1 else bump t Lost 1.

(** [for (index = 0; index < count; ++index)] over the slots at [head_]. *)
Fixpoint advance_loop (count : nat) (t : PacketLossTracker) : PacketLossTracker :=
  match count with
  | O => t
  | S count' =>
      let t := finalize_slot t (head_ t) in
      advance_loop count'
        (set_ring t (<[head_ t := false]> (received_ t))
           ((head_ t + 1) mod length (received_ t)))
  end.

(** [for (index = 0; index < received_.size(); ++index) finalize_slot(index)]. *)
Definition finalize_all (t : PacketLossTracker) : PacketLossTracker :=
  foldl finalize_slot t (seq 0 (length (received_ t))).

Definition advance (t : PacketLossTracker) (count : Z) : PacketLossTracker :=
  let window_size := len (received_ t) in
  let t :=
    if count >=? window_size then
      let t := finalize_all t in
      let t := bump t Lost (count - window_size) in
      set_ring t (map (fun _ => false) (received_ t)) 0
    else advance_loop (Z.to_nat count) t in
  set_window t (wrap64 (window_start_ t + count)) (highest_sequence_ t)
    (sequence_set_ t) (packet_seen_ t).

Definition observe (t : PacketLossTracker) (packet : VideoPacketHeader)
    : PacketDisposition * PacketLossTracker :=
  if negb (stream_set_ t) then (uninitialized, t)
  else if negb (vh_stream_id packet =? stream_id_ t)
  then (wrong_stream, bump t WrongStream 1)
  else
    let sequence := vh_packet_sequence packet in
    if negb (sequence_set_ t) then
      let t := set_window t sequence sequence true true in
      let t := set_ring t (<[head_ t := true]> (received_ t)) (head_ t) in
      (in_order, bump t Unique 1)
    else if sequence <? window_start_ t then (too_late, bump t TooLate 1)
    else
      let forward_reference :=
        if packet_seen_ t then highest_sequence_ t else window_start_ t in
      if (sequence >? forward_reference) &&
         (sequence - forward_reference >? max_forward_jump_ t)
      then (invalid_forward_jump, bump t ForwardJumps 1)
      else
        let below_highest := packet_seen_ t && (sequence <? highest_sequence_ t) in
        let offset_before_advance := sequence - window_start_ t in
        let t :=
          if offset_before_advance >=? len (received_ t)
          then advance t (offset_before_advance - len (received_ t) + 1)
          else t in
        let offset := Z.to_nat (sequence - window_start_ t) in
        let index := ((head_ t + offset) mod length (received_ t))%nat in
        if nth index (received_ t) false then (duplicate, bump t Duplicates 1)
        else
          let t := set_ring t (<[index := true]> (received_ t)) (head_ t) in
          let t := bump t Unique 1 in
          let t :=
            set_window t (window_start_ t)
              (if negb (packet_seen_ t) || (sequence >? highest_sequence_ t)
               then sequence else highest_sequence_ t) (sequence_set_ t) true in
          if below_highest then (reordered, bump t Reordered 1) else (in_order, t).

Definition finalize_through (t : PacketLossTracker) (sequence : Z)
    : bool * PacketLossTracker :=
  if negb (packet_seen_ t) || (sequence <? window_start_ t) ||
     (sequence >? highest_sequence_ t)
  then (false, t)
  else (true, advance t (sequence - window_start_ t + 1)).

Definition flush (t : PacketLossTracker) : PacketLossTracker :=
  if packet_seen_ t && (highest_sequence_ t >=? window_start_ t)
  then advance t (highest_sequence_ t - window_start_ t + 1)
  else t.

Definition initialized (t : PacketLossTracker) : bool := stream_set_ t && packet_seen_ t.

(** ** The ring buffer as a flat window *)

(** The slots from [head_] on, wrapping around: slot [i] is for the sequence
    [window_start_ + i]. *)
Definition rotation (received : list bool) (head : nat) : list bool :=
  drop head received ++ take head received.

Lemma count_true_rotation received head :
  count_true (rotation received head) = count_true received.
Proof.
  unfold rotation. rewrite <- (take_drop head received) at 3. rewrite !count_true_app. lia.
Qed.

Lemma length_rotation received head : length (rotation received head) = length received.
Proof. unfold rotation. rewrite length_app, length_drop, length_take. lia. Qed.

Lemma rotation_index (received : list bool) (head off : nat) :
  (head < length received)%nat -> (off < length received)%nat ->
  ((head + off) mod length received =
    if decide (head + off < length received) then head + off
    else head + off - length received)%nat.
Proof.
  intros Hh Ho. destruct (decide _) as [Hlt|Hge]; [by rewrite Nat.mod_small|].
  symmetry. apply (Nat.mod_unique _ _ 1); lia.
Qed.

Lemma nth_rotation (received : list bool) (head off : nat) :
  (head < length received)%nat -> (off < length received)%nat ->
  nth ((head + off) mod length received)%nat received false = nth off (rotation received head) false.
Proof.
  intros Hh Ho. rewrite rotation_index by done. rewrite !nth_lookup. unfold rotation.
  destruct (decide _).
  - by rewrite lookup_app_l, lookup_drop by (rewrite length_drop; lia).
  - rewrite lookup_app_r, lookup_take_lt by (rewrite length_drop; lia).
    do 2 f_equal. rewrite length_drop. lia.
Qed.

Lemma insert_rotation (received : list bool) (head off : nat) (b : bool) :
  (head < length received)%nat -> (off < length received)%nat ->
  rotation (<[((head + off) mod length received)%nat := b]> received) head =
    <[off := b]> (rotation received head).
Proof.
  intros Hh Ho. rewrite rotation_index by done. unfold rotation. destruct (decide _).
  - rewrite take_insert_ge, drop_insert_ge by lia. rewrite insert_app_l; [|rewrite length_drop; lia].
    do 2 f_equal. lia.
  - rewrite drop_insert_lt, take_insert_lt by lia.
    rewrite insert_app_r_alt by (rewrite length_drop; lia).
    rewrite length_drop. do 2 f_equal. lia.
Qed.

(** Retiring the oldest slot rotates the window by one. *)
Lemma rotation_retire (received : list bool) (head : nat) :
  (head < length received)%nat -> (1 < length received)%nat ->
  rotation (<[head := false]> received) ((head + 1) mod length received)%nat =
    drop 1 (rotation received head) ++ [false].
Proof.
  intros Hh H1. rewrite rotation_index by lia.
  destruct (lookup_lt_is_Some_2 received head Hh) as [b Hb].
  rewrite <- (take_drop_middle received head b Hb).
  set (pre := take head received). set (post := drop (S head) received).
  assert (length pre = head) as Hpre by (unfold pre; rewrite length_take; lia).
  clearbody pre post.
  rewrite length_app, length_cons, Hpre.
  rewrite insert_app_r_alt by lia. rewrite Hpre, Nat.sub_diag. cbn [list_insert insert].
  unfold rotation.
  rewrite (drop_app_length' pre (b :: post) head), (take_app_length' pre (b :: post) head)
    by done.
  cbn [drop app].
  destruct (decide _) as [Hlt|Hge].
  - replace (pre ++ false :: post) with ((pre ++ [false]) ++ post)
      by (by rewrite <- app_assoc).
    rewrite drop_app_length', take_app_length' by (rewrite length_app; cbn; lia).
    by rewrite app_assoc.
  - assert (post = []) as -> by (apply nil_length_inv; lia).
    replace (head + 1 - (head + S (length (@nil bool))))%nat with 0%nat by (cbn; lia).
    cbn. by rewrite app_nil_r.
Qed.

(** ** Advancing the window *)

Definition window (t : PacketLossTracker) : list bool := rotation (received_ t) (head_ t).

Definition ring_ok (t : PacketLossTracker) : Prop :=
  (head_ t < length (received_ t))%nat /\ (1 < length (received_ t))%nat.

(** The finalization counters have room for [n] more sequences. *)
Definition room (s : PacketLossStats) (n : Z) : Prop :=
  0 <= st_finalized_received s /\ 0 <= st_confirmed_lost s /\
  st_finalized_received s + st_confirmed_lost s + n <= u64_max.

Definition add_counts (s : PacketLossStats) (received lost : Z) : PacketLossStats :=
  mkStats (st_stream_id s) (st_generation s) (st_finalized_received s + received)
    (st_confirmed_lost s + lost) (st_unique_received s) (st_duplicates s)
    (st_reordered s) (st_too_late s) (st_wrong_stream s) (st_invalid_forward_jumps s).

Lemma saturating_add_room v a : v + a <= u64_max -> saturating_add v a = v + a.
Proof. unfold saturating_add. destruct (Z.gtb_spec a (u64_max - v)); lia. Qed.

Lemma add_counts_add s a b a' b' :
  add_counts (add_counts s a b) a' b' = add_counts s (a + a') (b + b').
Proof. unfold add_counts. cbn. f_equal; lia. Qed.

Lemma add_counts_zero s : add_counts s 0 0 = s.
Proof. unfold add_counts. destruct s; cbn. f_equal; lia. Qed.

Lemma room_add_counts s a b n :
  0 <= a -> 0 <= b -> room s (a + b + n) -> room (add_counts s a b) n.
Proof. unfold room. cbn. lia. Qed.

Lemma finalize_slot_spec t i :
  room (stats_ t) 1 ->
  finalize_slot t i =
    let b := nth i (received_ t) false in
    set_stats t (add_counts (stats_ t) (if b then 1 else 0) (if b then 0 else 1)).
Proof.
  intros (H1 & H2 & H3). unfold finalize_slot, bump, add_counts, set_stats. cbn.
  destruct (nth i (received_ t) false); rewrite saturating_add_room, ?Z.add_0_r by lia; done.
Qed.

Lemma finalize_slots_spec t indices :
  room (stats_ t) (len indices) ->
  let bits := map (fun i => nth i (received_ t) false) indices in
  foldl finalize_slot t indices =
    set_stats t (add_counts (stats_ t) (count_true bits) (len indices - count_true bits)).
Proof.
  cbn zeta. revert t. induction indices as [|i indices IH]; intros t Hroom.
  - cbn. rewrite add_counts_zero. by destruct t.
  - rewrite len_cons in Hroom. cbn [foldl map]. pose proof (len_nonneg indices).
    rewrite finalize_slot_spec by (unfold room in *; lia). cbn zeta.
    rewrite IH by (cbn; apply room_add_counts; destruct (nth i _ _); unfold room in *; lia).
    unfold set_stats. cbn. f_equal. rewrite add_counts_add, count_true_cons, len_cons.
    f_equal; destruct (nth i _ _); lia.
Qed.

Lemma map_nth_seq (l : list bool) : map (fun i => nth i l false) (seq 0 (length l)) = l.
Proof.
  apply list_eq. intros i. rewrite list_lookup_fmap.
  destruct (decide (i < length l)%nat) as [Hi|Hi].
  - rewrite lookup_seq_lt by done. cbn. rewrite nth_lookup.
    by destruct (lookup_lt_is_Some_2 l i Hi) as [b ->].
  - rewrite lookup_seq_ge by lia. symmetry. apply lookup_ge_None. lia.
Qed.

Lemma advance_loop_spec n t :
  ring_ok t -> (n <= length (received_ t))%nat -> room (stats_ t) (Z.of_nat n) ->
  let retired := count_true (take n (window t)) in
  exists received head,
    advance_loop n t =
      set_ring (set_stats t (add_counts (stats_ t) retired (Z.of_nat n - retired)))
        received head /\
    length received = length (received_ t) /\ (head < length received)%nat /\
    rotation received head = drop n (window t) ++ repeat false n.
Proof.
  cbn zeta. revert t. induction n as [|n IH]; intros t [Hh H1] Hn Hroom.
  - exists (received_ t), (head_ t). cbn. rewrite add_counts_zero, app_nil_r.
    split_and!; try done. by destruct t.
  - cbn [advance_loop].
    rewrite finalize_slot_spec by (unfold room in *; lia). cbn zeta.
    set (b := nth (head_ t) (received_ t) false).
    set (t1 := set_ring _ _ _).
    assert (length (received_ t1) = length (received_ t)) as Hlen by (cbn; apply length_insert).
    assert (window t = b :: drop 1 (window t)) as Hw.
    { unfold window, rotation, b. rewrite nth_lookup.
      destruct (lookup_lt_is_Some_2 _ _ Hh) as [x Hx]. rewrite Hx. cbn.
      by rewrite (drop_S _ _ _ Hx). }
    assert (window t1 = drop 1 (window t) ++ [false]) as Hw1
      by (unfold window, t1; cbn; by apply rotation_retire).
    assert (ring_ok t1) as Hok.
    { split; [|by rewrite Hlen]. cbn. rewrite length_insert. apply Nat.mod_upper_bound. lia. }
    assert (length (drop 1 (window t)) = length (received_ t) - 1)%nat as Hld
      by (unfold window; by rewrite length_drop, length_rotation).
    destruct (IH t1 Hok) as (received & head & Hadv & Hl & Hhd & Hrot); [lia| |].
    { cbn. apply room_add_counts; destruct b; unfold room in *; lia. }
    exists received, head. split_and!; [|lia|done|].
    + rewrite Hadv, Hw1, take_app_le by lia. rewrite Hw. unfold t1. clearbody b.
      unfold set_ring, set_stats. cbn. f_equal. rewrite add_counts_add, count_true_cons, !drop_0.
      f_equal; destruct b; lia.
    + rewrite Hrot, Hw1, drop_app_le, Hw by lia. cbn. rewrite drop_0, <- app_assoc.
      cbn. by rewrite repeat_cons.
Qed.

(** Every branch of [advance] retires the first [count] sequences. *)
Lemma advance_spec t count :
  ring_ok t -> 0 <= count -> room (stats_ t) count ->
  let retired := count_true (take (Z.to_nat count) (window t)) in
  exists received head,
    advance t count =
      set_window
        (set_ring (set_stats t (add_counts (stats_ t) retired (count - retired)))
           received head)
        (wrap64 (window_start_ t + count)) (highest_sequence_ t) (sequence_set_ t)
        (packet_seen_ t) /\
    length received = length (received_ t) /\ (head < length received)%nat /\
    forall i, (i < length received)%nat ->
      nth i (rotation received head) false = nth (Z.to_nat count + i) (window t) false.
Proof.
  cbn zeta. intros [Hh H1] Hc Hroom. unfold advance.
  destruct (Z.geb_spec count (len (received_ t))) as [Hge|Hlt].
  - unfold finalize_all.
    rewrite finalize_slots_spec by (unfold room, len in *; rewrite length_seq; lia).
    rewrite map_nth_seq. unfold len in *. rewrite length_seq.
    exists (map (fun _ => false) (received_ t)), 0%nat.
    pose proof (count_true_bounds (received_ t)) as Hb. unfold len in Hb.
    rewrite take_ge by (unfold window; rewrite length_rotation; lia).
    unfold window. rewrite count_true_rotation. split_and!.
    + unfold bump, set_window, set_ring, set_stats, add_counts. cbn.
      f_equal. f_equal. unfold room in Hroom. rewrite saturating_add_room by lia. lia.
    + by rewrite length_map.
    + rewrite length_map. lia.
    + intros i _. rewrite (nth_overflow (rotation (received_ t) _))
        by (rewrite length_rotation; lia).
      unfold rotation. rewrite drop_0, app_nil_r, nth_lookup, list_lookup_fmap.
      by destruct (received_ t !! i).
  - destruct (advance_loop_spec (Z.to_nat count) t) as (received & head & -> & Hl & Hhd & Hrot);
      [done|unfold len in *; lia|unfold room in *; lia|].
    exists received, head. rewrite Z2Nat.id by done. split_and!; [done..|].
    intros i Hi. rewrite Hrot. unfold len in Hlt.
    assert (length (drop (Z.to_nat count) (window t)) = length received - Z.to_nat count)%nat
      as Hld by (unfold window; rewrite length_drop, length_rotation; lia).
    destruct (decide (i < length received - Z.to_nat count)%nat).
    + rewrite app_nth1 by lia. by rewrite !nth_lookup, lookup_drop.
    + rewrite app_nth2, nth_repeat by lia.
      by rewrite nth_overflow by (unfold window; rewrite length_rotation; lia).
Qed.

(** ** Exact accounting *)

(** The accepted sequences below a bound. *)
Definition count_below (accepted : list Z) (bound : Z) : Z :=
  len (List.filter (fun s => s <? bound) accepted).

Lemma count_below_step accepted bound :
  NoDup accepted ->
  count_below accepted (bound + 1) =
    count_below accepted bound + (if bool_decide (bound ∈ accepted) then 1 else 0).
Proof.
  unfold count_below. induction 1 as [|a accepted Ha Hnd IH]; [done|].
  cbn [List.filter]. destruct (decide (a = bound)) as [->|Hne].
  - rewrite (bool_decide_eq_false_2 _ Ha) in IH. rewrite bool_decide_true by set_solver.
    destruct (Z.ltb_spec bound (bound + 1)); [|lia]. destruct (Z.ltb_spec bound bound); [lia|].
    rewrite len_cons. lia.
  - assert (bool_decide (bound ∈ a :: accepted) = bool_decide (bound ∈ accepted)) as ->
      by (apply bool_decide_ext; set_solver).
    destruct (Z.ltb_spec a (bound + 1)); destruct (Z.ltb_spec a bound); try lia;
      rewrite ?len_cons; lia.
Qed.

Lemma count_below_window accepted start (w : list bool) (n : nat) :
  NoDup accepted ->
  (forall i, (i < length w)%nat ->
     nth i w false = bool_decide (start + Z.of_nat i ∈ accepted)) ->
  (forall s, s ∈ accepted -> s < start + len w) ->
  count_below accepted (start + Z.of_nat n) =
    count_below accepted start + count_true (take n w).
Proof.
  intros Hnd. revert start n. induction w as [|b w IH]; intros start n Hw Hlt.
  - rewrite take_nil, Z.add_0_r. unfold count_below. f_equal.
    apply List.filter_ext_in. intros s Hs%list_elem_of_In. specialize (Hlt _ Hs).
    rewrite len_nil in Hlt.
    destruct (Z.ltb_spec s (start + Z.of_nat n)), (Z.ltb_spec s start); lia.
  - destruct n as [|n].
    { change (count_true (take 0 (b :: w))) with 0. by rewrite !Z.add_0_r. }
    cbn [take]. rewrite count_true_cons.
    replace (start + Z.of_nat (S n)) with (start + 1 + Z.of_nat n) by lia.
    rewrite len_cons in Hlt. rewrite (IH (start + 1)).
    + rewrite count_below_step by done. specialize (Hw 0%nat ltac:(cbn; lia)).
      cbn in Hw. rewrite Z.add_0_r in Hw. rewrite <- Hw. lia.
    + intros i Hi. specialize (Hw (S i) ltac:(cbn; lia)).
      by replace (start + Z.of_nat (S i)) with (start + 1 + Z.of_nat i) in Hw by lia.
    + intros s Hs. specialize (Hlt s Hs). lia.
Qed.

(** The tracker's ring and counters tell exactly which of the sequences from
    [start] on were accepted. *)
Record exact (t : PacketLossTracker) (accepted : list Z) (start : Z) : Prop := {
  ex_ring : ring_ok t;
  ex_nodup : NoDup accepted;
  ex_window i : (i < length (received_ t))%nat ->
    nth i (window t) false = bool_decide (window_start_ t + Z.of_nat i ∈ accepted);
  ex_range s : s ∈ accepted -> start <= s < window_start_ t + len (received_ t);
  ex_start : 0 <= start <= window_start_ t /\ window_start_ t <= u64_max;
  ex_finalized : st_finalized_received (stats_ t) = count_below accepted (window_start_ t);
  ex_total : st_finalized_received (stats_ t) + st_confirmed_lost (stats_ t)
    = window_start_ t - start;
  ex_lost : 0 <= st_confirmed_lost (stats_ t);
  ex_unique : st_unique_received (stats_ t) = len accepted
}.

Lemma count_below_nonneg accepted bound : 0 <= count_below accepted bound.
Proof. apply len_nonneg. Qed.

(** [advance] keeps the accounting exact. *)
Lemma advance_exact t accepted start count :
  exact t accepted start -> 0 <= count -> window_start_ t + count <= u64_max ->
  exact (advance t count) accepted start /\
  window_start_ (advance t count) = window_start_ t + count /\
  highest_sequence_ (advance t count) = highest_sequence_ t /\
  packet_seen_ (advance t count) = packet_seen_ t /\
  sequence_set_ (advance t count) = sequence_set_ t /\
  stream_set_ (advance t count) = stream_set_ t /\
  stream_id_ (advance t count) = stream_id_ t /\
  max_forward_jump_ (advance t count) = max_forward_jump_ t /\
  length (received_ (advance t count)) = length (received_ t).
Proof.
  intros Hex Hc Hmax. pose proof Hex as [Hring Hnd Hwin Hrange Hstart Hfin Htot Hlost Huniq].
  pose proof (count_below_nonneg accepted (window_start_ t)).
  assert (room (stats_ t) count) as Hroom by (unfold room; lia).
  destruct (advance_spec t count Hring Hc Hroom) as (received & head & -> & Hl & Hh & Hrot).
  pose proof (length_rotation (received_ t) (head_ t)) as Hlw. fold (window t) in Hlw.
  assert (wrap64 (window_start_ t + count) = window_start_ t + count) as Hwrap by ulia.
  pose proof (count_below_window accepted (window_start_ t) (window t) (Z.to_nat count) Hnd)
    as Hcount.
  rewrite Hlw in Hcount. specialize (Hcount Hwin).
  unfold len in Hcount at 1. rewrite Hlw, Z2Nat.id in Hcount by done.
  specialize (Hcount ltac:(intros s Hs; apply Hrange in Hs; unfold len in Hs; lia)).
  split; [|cbn; rewrite Hwrap; done].
  pose proof (count_true_bounds (take (Z.to_nat count) (window t))) as Hb.
  unfold len in Hb at 1. rewrite length_take in Hb.
  destruct Hring as [Hr1 Hr2].
  constructor; cbn; rewrite ?Hwrap; try done; try lia.
  - split; cbn; lia.
  - intros i Hi. unfold window. cbn. rewrite Hrot by done.
    destruct (decide (Z.to_nat count + i < length (received_ t))%nat) as [Hlt|Hge].
    + rewrite Hwin by done. apply bool_decide_ext.
      by replace (window_start_ t + Z.of_nat (Z.to_nat count + i))
        with (window_start_ t + count + Z.of_nat i) by lia.
    + rewrite nth_overflow by lia. symmetry. apply bool_decide_eq_false_2.
      intros Hs%Hrange. unfold len in Hs. lia.
  - intros s Hs%Hrange. unfold len in *. lia.
Qed.

(** The state between operations on a stream. *)
Record tracking (t : PacketLossTracker) (accepted : list Z) (start : Z) : Prop := {
  tr_exact : exact t accepted start;
  tr_set : stream_set_ t = true;
  tr_unseen : packet_seen_ t = false -> accepted = [] /\ start = window_start_ t;
  tr_seen : packet_seen_ t = true ->
    sequence_set_ t = true /\ window_start_ t <= highest_sequence_ t + 1 /\
    highest_sequence_ t < window_start_ t + len (received_ t);
  tr_highest s : s ∈ accepted -> s <= highest_sequence_ t /\ s < u64_max;
  tr_bound : highest_sequence_ t < u64_max
}.

Lemma NoDup_range_length (l : list Z) (a b : Z) :
  NoDup l -> (forall x, x ∈ l -> a <= x < b) -> len l <= Z.max 0 (b - a).
Proof.
  intros Hnd Hr. assert (l ⊆+ seqZ a (b - a)) as Hsub.
  { apply NoDup_submseteq; [done|]. intros x Hx%Hr. apply elem_of_seqZ. lia. }
  apply submseteq_length in Hsub. rewrite length_seqZ in Hsub. unfold len. lia.
Qed.

(** A counter that is not part of the accounting. *)
Definition side_counter (c : Counter) : bool :=
  match c with Finalized | Lost | Unique => false | _ => true end.

Lemma bump_tracking t accepted start c :
  side_counter c = true -> tracking t accepted start -> tracking (bump t c 1) accepted start.
Proof.
  intros Hc [[? ? ? ? ? ? ? ? ?] ? ? ? ? ?].
  destruct c; try discriminate Hc; (constructor; [by constructor|done..]).
Qed.

(** Recording a new sequence of the window. *)
Lemma accept_exact t accepted start sequence :
  exact t accepted start -> window_start_ t <= sequence < window_start_ t + len (received_ t) ->
  sequence ∉ accepted -> (forall s, s ∈ accepted -> s < u64_max) -> sequence < u64_max ->
  let index := ((head_ t + Z.to_nat (sequence - window_start_ t)) mod length (received_ t))%nat in
  exact (bump (set_ring t (<[index := true]> (received_ t)) (head_ t)) Unique 1)
    (sequence :: accepted) start.
Proof.
  intros [Hring Hnd Hwin Hrange Hstart Hfin Htot Hlost Huniq] Hseq Hnew Hmax Hsmax index.
  destruct Hring as [Hh H1]. unfold len in Hseq.
  assert (len accepted + 1 <= u64_max) as Hroom.
  { rewrite <- len_cons with (x := sequence). 
    etrans; [apply (NoDup_range_length _ 0 u64_max); [by constructor|]|].
    - intros x [->|Hx]%elem_of_cons; [lia|]. specialize (Hrange _ Hx). specialize (Hmax _ Hx). lia.
    - unfold u64_max. lia. }
  assert (window (set_ring t (<[index := true]> (received_ t)) (head_ t)) =
    <[Z.to_nat (sequence - window_start_ t) := true]> (window t)) as Hw
    by (unfold window, index; cbn; apply insert_rotation; lia).
  constructor; cbn; rewrite ?length_insert; try done.
  - split; cbn; by rewrite length_insert.
  - by constructor.
  - intros i Hi. etrans; [exact (f_equal (fun w => nth i w false) Hw)|].
    rewrite nth_lookup. destruct (decide (i = Z.to_nat (sequence - window_start_ t))) as [->|Hne].
    + rewrite list_lookup_insert_eq by (unfold window; rewrite length_rotation; lia).
      rewrite bool_decide_true; [done|]. rewrite Z2Nat.id by lia. set_solver by lia.
    + rewrite list_lookup_insert_ne by done. rewrite <- nth_lookup, Hwin by done.
      apply bool_decide_ext. rewrite elem_of_cons. split; [by right|].
      intros [E|?]; [|done]. lia.
  - unfold len. rewrite length_insert. intros s [->|Hs%Hrange]%elem_of_cons; unfold len in *; lia.
  - rewrite Hfin. unfold count_below. cbn [List.filter].
    by destruct (Z.ltb_spec sequence (window_start_ t)); [lia|].
  - rewrite Huniq, saturating_add_room, len_cons by lia. done.
Qed.

Lemma first_packet_tracking t start sequence :
  tracking t [] start -> packet_seen_ t = false -> 0 <= sequence < u64_max ->
  tracking (bump (set_ring (set_window t sequence sequence true true)
    (<[head_ t := true]> (received_ t)) (head_ t)) Unique 1) [sequence] sequence.
Proof.
  intros [Hex Hset Hunseen _ _ _] Hseen Hseq. destruct (Hunseen Hseen) as [_ ->].
  assert (exact (set_window t sequence sequence true true) [] sequence) as Hex'.
  { destruct Hex as [Hring Hnd Hwin Hrange Hstart Hfin Htot Hlost Huniq].
    constructor; cbn; try done; try lia; set_solver. }
  pose proof (ex_ring _ _ _ Hex) as [Hh H1].
  pose proof (accept_exact _ _ _ sequence Hex') as Hacc. cbn in Hacc.
  rewrite Z.sub_diag, Nat.add_0_r, Nat.mod_small in Hacc by done.
  constructor; cbn; try done.
  - apply Hacc; [unfold len; lia|set_solver|set_solver|lia].
  - intros _. unfold len. rewrite length_insert. lia.
  - intros s ->%list_elem_of_singleton. lia.
  - lia.
Qed.

(** The slide of the window in [observe]. *)
Lemma slide_exact t accepted start sequence :
  exact t accepted start -> window_start_ t <= sequence < u64_max ->
  let t1 := if sequence - window_start_ t >=? len (received_ t)
            then advance t (sequence - window_start_ t - len (received_ t) + 1) else t in
  exact t1 accepted start /\ len (received_ t1) = len (received_ t) /\
  window_start_ t1 <= sequence < window_start_ t1 + len (received_ t1) /\
  (sequence < window_start_ t + len (received_ t) -> t1 = t) /\
  (window_start_ t + len (received_ t) <= sequence ->
     window_start_ t1 + len (received_ t) = sequence + 1) /\
  highest_sequence_ t1 = highest_sequence_ t /\ packet_seen_ t1 = packet_seen_ t /\
  sequence_set_ t1 = sequence_set_ t /\ stream_set_ t1 = stream_set_ t.
Proof.
  intros Hex Hseq. pose proof (ex_ring _ _ _ Hex) as [_ H1].
  pose proof (ex_start _ _ _ Hex) as [Hs Hmax]. cbn zeta.
  destruct (Z.geb_spec (sequence - window_start_ t) (len (received_ t))) as [Hge|Hlt].
  - destruct (advance_exact t accepted start
      (sequence - window_start_ t - len (received_ t) + 1) Hex)
      as (Hex' & Hw & Hh & Hp & Hss & Hst & _ & _ & Hl); [lia|unfold len; lia|].
    split; [done|]. rewrite Hw, Hh, Hp, Hss, Hst. unfold len in *. rewrite Hl.
    split_and!; (done || lia).
  - split; [done|]. split_and!; (done || lia).
Qed.

Definition accepts (d : PacketDisposition) : bool :=
  match d with in_order | reordered => true | _ => false end.

Definition accept_into (d : PacketDisposition) (sequence : Z) (accepted : list Z) : list Z :=
  if accepts d then sequence :: accepted else accepted.

Lemma observe_tracking t accepted start p :
  tracking t accepted start -> 0 <= vh_packet_sequence p < u64_max ->
  let '(d, t') := observe t p in
  exists start', tracking t' (accept_into d (vh_packet_sequence p) accepted) start' /\
    (sequence_set_ t = true -> start' = start /\ sequence_set_ t' = true).
Proof.
  intros Htr Hseq. pose proof Htr as [Hex Hset Hunseen Hseen Hhigh Hbound].
  unfold observe. rewrite Hset. cbn [negb].
  destruct (negb (vh_stream_id p =? stream_id_ t));
    [exists start; split; [by apply bump_tracking|done]|].
  set (sequence := vh_packet_sequence p) in *.
  destruct (sequence_set_ t) eqn:Hss; cbn [negb].
  2: { assert (packet_seen_ t = false) as Hns
         by (destruct (packet_seen_ t); [by destruct (Hseen eq_refl)|done]).
       destruct (Hunseen Hns) as [-> _]. exists sequence. split; [|done].
       by apply (first_packet_tracking t start). }
  destruct (Z.ltb_spec sequence (window_start_ t)) as [|Hge];
    [exists start; split; [by apply bump_tracking|done]|].
  destruct (_ && _); [exists start; split; [by apply bump_tracking|done]|].
  destruct (slide_exact t accepted start sequence Hex) as
    (Hex1 & Hlen & Hin & Hstay & Hslide & Hh1 & Hp1 & Hss1 & Hst1); [lia|].
  set (t1 := if sequence - window_start_ t >=? _ then _ else _) in *.
  pose proof (ex_ring _ _ _ Hex1) as [Hhd _].
  rewrite nth_rotation by (unfold len in *; lia). fold (window t1).
  rewrite (ex_window _ _ _ Hex1) by (unfold len in *; lia).
  rewrite Z2Nat.id by lia. replace (window_start_ t1 + (sequence - window_start_ t1))
    with sequence by lia.
  assert (forall s, s ∈ accepted -> s < window_start_ t1 + len (received_ t1)) as Hacc
    by (intros s Hs; apply (ex_range _ _ _ Hex1 _ Hs)).
  case_bool_decide as Hdup.
  - exists start. rewrite Hstay; [by split; [apply bump_tracking|]|].
    apply (ex_range _ _ _ Hex) in Hdup. lia.
  - pose proof (accept_exact t1 accepted start sequence Hex1 Hin Hdup) as Hacc'.
    cbn zeta in Hacc'. set (t2 := bump _ Unique 1) in *.
    change (packet_seen_ t2) with (packet_seen_ t1).
    change (highest_sequence_ t2) with (highest_sequence_ t1).
    change (sequence_set_ t2) with (sequence_set_ t1). rewrite Hp1, Hh1, Hss1.
    set (t3 := set_window t2 _ _ _ _).
    assert (tracking t3 (sequence :: accepted) start) as Htr3.
    { assert (sequence < u64_max) as Hmax by lia.
      specialize (Hacc' ltac:(intros s Hs; by apply Hhigh) Hmax).
      set (highest := if negb (packet_seen_ t) || (sequence >? highest_sequence_ t)
        then sequence else highest_sequence_ t) in t3.
      assert (sequence <= highest /\ (packet_seen_ t = true -> highest_sequence_ t <= highest) /\
        (highest = sequence \/ packet_seen_ t = true /\ highest = highest_sequence_ t))
        as (Hge1 & Hge2 & Hcase).
      { unfold highest. destruct (packet_seen_ t); cbn; [|lia].
        destruct (Z.gtb_spec sequence (highest_sequence_ t)); lia. }
      constructor; cbn; rewrite ?Hst1; try done.
      - destruct Hacc'. by constructor.
      - intros _. unfold len in *. rewrite length_insert.
        split_and!; [done|lia|].
        destruct Hcase as [-> | [Hs ->]]; [lia|]. destruct (Hseen Hs) as (_ & _ & Hlt).
        destruct (Z.lt_ge_cases sequence (window_start_ t + Z.of_nat (length (received_ t))));
          [rewrite Hstay by lia|]; lia.
      - intros s [->|Hs]%elem_of_cons; [lia|]. destruct (Hhigh _ Hs) as [Hs1 Hs2].
        destruct (packet_seen_ t) eqn:Hps; [specialize (Hge2 eq_refl); lia|].
        destruct (Hunseen eq_refl) as [-> _]. set_solver.
      - destruct Hcase as [-> | [_ ->]]; lia. }
    destruct (packet_seen_ t && _); exists start; (split; [|done]).
    + by apply bump_tracking.
    + done.
Qed.

Lemma retire_tracking t accepted start sequence :
  tracking t accepted start -> packet_seen_ t = true ->
  window_start_ t <= sequence <= highest_sequence_ t ->
  tracking (advance t (sequence - window_start_ t + 1)) accepted start /\
  sequence_set_ (advance t (sequence - window_start_ t + 1)) = sequence_set_ t.
Proof.
  intros [Hex Hset Hunseen Hseen Hhigh Hbound] Hs Hseq.
  destruct (advance_exact t accepted start (sequence - window_start_ t + 1) Hex)
    as (Hex' & Hw & Hh & Hp & Hss & Hst & _ & _ & Hl); [lia..|].
  split; [|done]. destruct (Hseen Hs) as (? & ? & ?).
  constructor; rewrite ?Hw, ?Hh, ?Hp, ?Hss, ?Hst; try done.
  - congruence.
  - intros _. unfold len in *. rewrite Hl. split_and!; (done || lia).
Qed.

(** ** Runs *)

Inductive Operation :=
| Observe (packet : VideoPacketHeader)
| FinalizeThrough (sequence : Z)
| Flush.

(** One operation, and the sequence it accepted. *)
Definition perform (t : PacketLossTracker) (op : Operation)
    : PacketLossTracker * list Z :=
  match op with
  | Observe packet =>
      let '(d, t') := observe t packet in
      (t', accept_into d (vh_packet_sequence packet) [])
  | FinalizeThrough sequence => (snd (finalize_through t sequence), [])
  | Flush => (flush t, [])
  end.

Fixpoint run (t : PacketLossTracker) (ops : list Operation) (accepted : list Z)
    : PacketLossTracker * list Z :=
  match ops with
  | [] => (t, accepted)
  | op :: rest => let '(t', new) := perform t op in run t' rest (new ++ accepted)
  end.

(** Packet sequences below the largest 64-bit value, after which the window
    start would wrap around. *)
Definition sequence_in_range (op : Operation) : Prop :=
  match op with Observe packet => 0 <= vh_packet_sequence packet < u64_max | _ => True end.

Lemma perform_tracking t accepted start op :
  tracking t accepted start -> sequence_in_range op ->
  exists start', tracking (fst (perform t op)) (snd (perform t op) ++ accepted) start' /\
    (sequence_set_ t = true -> start' = start /\ sequence_set_ (fst (perform t op)) = true).
Proof.
  intros Htr Hop. destruct op as [packet|sequence|]; cbn.
  - pose proof (observe_tracking t accepted start packet Htr Hop) as H.
    destruct (observe t packet) as [d t']. cbn. by destruct d.
  - unfold finalize_through. destruct (packet_seen_ t) eqn:Hs; [|by exists start]. cbn.
    destruct (Z.ltb_spec sequence (window_start_ t)); [by exists start|].
    destruct (Z.gtb_spec sequence (highest_sequence_ t)); [by exists start|].
    destruct (retire_tracking t accepted start sequence Htr Hs) as [Htr' Hss]; [lia|].
    exists start. split; [done|]. intros E. by rewrite E in Hss.
  - unfold flush. destruct (packet_seen_ t) eqn:Hs; [|by exists start]. cbn.
    destruct (Z.geb_spec (highest_sequence_ t) (window_start_ t)); [|by exists start].
    destruct (retire_tracking t accepted start (highest_sequence_ t) Htr Hs) as [Htr' Hss]; [lia|].
    exists start. split; [done|]. intros E. by rewrite E in Hss.
Qed.

Lemma run_tracking t accepted start ops :
  tracking t accepted start -> Forall sequence_in_range ops ->
  exists start', tracking (fst (run t ops accepted)) (snd (run t ops accepted)) start' /\
    (sequence_set_ t = true -> start' = start).
Proof.
  intros Htr Hops. revert t accepted start Htr.
  induction Hops as [|op ops Hop Hops IH]; intros t accepted start Htr; [by exists start|].
  destruct (perform_tracking t accepted start op Htr Hop) as (start1 & Htr1 & Hst1).
  cbn. destruct (perform t op) as [t' new]. cbn in *.
  destruct (IH _ _ _ Htr1) as (start2 & Htr2 & Hst2). exists start2. split; [done|].
  intros Hss. destruct (Hst1 Hss) as [<- Hss']. auto.
Qed.

Lemma reset_tracking reorder_window jump stream_id initial :
  (forall init, initial = Some init -> 0 <= init < u64_max) ->
  tracking (reset (create reorder_window jump) stream_id initial) [] (default 0 initial).
Proof.
  intros Hinit. set (t := reset _ _ _).
  assert (0 <= default 0 initial < u64_max) as Hi
    by (destruct initial; cbn; [by apply Hinit|done]).
  assert (length (received_ t) = Z.to_nat (Z.min (Z.max reorder_window 8) 65536)) as Hlen
    by (cbn; by rewrite length_map, repeat_length).
  constructor; try done; [|set_solver|cbn; lia]. constructor; cbn; try done; try lia.
  - split; [rewrite Hlen; cbn; lia|rewrite Hlen; lia].
  - constructor.
  - intros i Hi'. unfold window, rotation. cbn. rewrite drop_0, app_nil_r, nth_lookup.
    rewrite list_lookup_fmap. by destruct (_ !! i).
  - set_solver.
Qed.

(** ** Properties *)

(** Loss accounting is exact. After a reset and any interleaving of packets,
    finalizations and flushes, no sequence number has been accepted twice, the
    finalized-received counter is the number of accepted sequences below the
    window, and the two finalized counters together make up exactly the
    sequences between the first one and the window: so the confirmed losses are
    those of them that were never accepted. *)
Theorem loss_accounting_exact (reorder_window jump stream_id : Z) (initial : option Z)
    (ops : list Operation) :
  (forall init, initial = Some init -> 0 <= init < u64_max) ->
  Forall sequence_in_range ops ->
  let '(t, accepted) := run (reset (create reorder_window jump) stream_id initial) ops [] in
  NoDup accepted /\
  exists start, (forall init, initial = Some init -> start = init) /\
    (forall s, s ∈ accepted -> start <= s <= highest_sequence_ t) /\
    st_unique_received (stats_ t) = len accepted /\
    st_finalized_received (stats_ t) = count_below accepted (window_start_ t) /\
    st_finalized_received (stats_ t) + st_confirmed_lost (stats_ t) = window_start_ t - start.
Proof.
  intros Hinit Hops.
  destruct (run_tracking _ [] _ ops (reset_tracking reorder_window jump stream_id initial Hinit)
    Hops) as (start & Htr & Hst).
  destruct (run _ ops []) as [t accepted]. cbn in Htr, Hst.
  destruct Htr as [[? Hnd ? Hrange ? Hfin Htot ? Huniq] ? ? ? Hhigh ?].
  split; [done|]. exists start. split_and!; try done.
  - intros init ->. by apply Hst.
  - intros s Hs. split; [by apply Hrange|by apply Hhigh].
Qed.

Definition sample_packet (sequence : Z) : VideoPacketHeader :=
  mkVideoPacketHeader 2 0 5 sequence 1 0 1 10 0.

(** Sequences 10, 12, 11, 12 again, 14 and 9 arrive, then the stream is flushed. *)
Definition sample_ops : list Operation :=
  map (fun s => Observe (sample_packet s)) [10; 12; 11; 12; 14; 9] ++ [Flush].

Lemma loss_accounting_exact_witness :
  let '(t, accepted) := run (reset (create 8 100) 5 (Some 10)) sample_ops [] in
  NoDup accepted /\
  exists start, (forall init, Some 10 = Some init -> start = init) /\
    (forall s, s ∈ accepted -> start <= s <= highest_sequence_ t) /\
    st_unique_received (stats_ t) = len accepted /\
    st_finalized_received (stats_ t) = count_below accepted (window_start_ t) /\
    st_finalized_received (stats_ t) + st_confirmed_lost (stats_ t) = window_start_ t - start.
Proof.
  apply (loss_accounting_exact 8 100 5 (Some 10) sample_ops).
  - intros init [= <-]. by vm_compute.
  - repeat constructor; by vm_compute.
Defined.

Example sample_run_counts :
  let s := stats_ (fst (run (reset (create 8 100) 5 (Some 10)) sample_ops [])) in
  (st_finalized_received s, st_confirmed_lost s, st_duplicates s, st_reordered s, st_too_late s)
    = (4, 1, 1, 1, 1).
Proof. vm_compute. reflexivity. Qed.

End PacketLoss.
