(* ===== verification/FrameReassembler.v ===== *)
(** Reassembly of video frames from fragments
    (common/include/nstu/frame_reassembler.hpp, common/src/frame_reassembler.cpp).

    The loops over the frame map do not depend on its order; [received] flags are
    booleans; time points are [steady_clock] ticks (nanoseconds). *)

From S2P Require Import Prelude Protocol.
Import Protocol.

Module FrameReassembler.

Definition ticks_per_millisecond : Z := 1000000.

Record ReassemblyLimits := mkLimits {
  max_frames_in_flight : Z;
  max_fragments_per_frame : Z;
  max_fragment_payload : Z;
  max_frame_bytes : Z;
  max_total_buffered_bytes : Z;
  frame_deadline : Z
}.

Definition default_limits : ReassemblyLimits :=
  mkLimits 8 4096 1400 (4 * 1024 * 1024) (8 * 1024 * 1024) 150.

Record CompletedFrame := mkCompletedFrame {
  cf_stream_id : Z;
  cf_frame_id : Z;
  cf_capture_time_100ns : Z;
  cf_keyframe : bool;
  cf_payload : bytes
}.

Inductive FragmentDisposition : Set :=
  | fd_uninitialized | fd_accepted | fd_duplicate | fd_frame_complete
  | fd_late_completed_frame | fd_wrong_stream | fd_invalid | fd_resource_limit.

Record ReassemblyResult := mkResult {
  rr_disposition : FragmentDisposition;
  rr_frame : option CompletedFrame
}.

Record FrameReassemblyStats := mkStats {
  fs_accepted_fragments : Z;
  fs_duplicate_fragments : Z;
  fs_late_completed_frame_fragments : Z;
  fs_conflicting_fragments : Z;
  fs_invalid_fragments : Z;
  fs_completed_frames : Z;
  fs_expired_incomplete_frames : Z;
  fs_resource_dropped_frames : Z;
  fs_resource_limit_rejections : Z;
  fs_buffered_bytes : Z;
  fs_peak_buffered_bytes : Z
}.

Record PartialFrame := mkPartial {
  pf_fragment_count : Z;
  pf_received_count : Z;
  pf_capture_time_100ns : Z;
  pf_keyframe : bool;
  pf_total_bytes : Z;
  pf_deadline : Z;
  pf_fragments : list bytes;
  pf_received : list bool
}.

Record FrameReassembler := mkReassembler {
  limits_ : ReassemblyLimits;
  stream_id_ : Z;
  stream_set_ : bool;
  frames_ : gmap Z PartialFrame;
  completed_order_ : list Z;
  completed_recent_ : gset Z;
  stats_ : FrameReassemblyStats
}.

Definition has_flag (value flag : Z) : bool := negb (Z.land value flag =? 0).

Definition clamp (v lo hi : Z) : Z := Z.min (Z.max v lo) hi.

Definition empty_stats : FrameReassemblyStats := mkStats 0 0 0 0 0 0 0 0 0 0 0.

Definition clamp_limits (l : ReassemblyLimits) : ReassemblyLimits :=
  let max_fragment_payload := clamp (max_fragment_payload l) 1 65507 in
  let max_frame_bytes := Z.max (max_frame_bytes l) max_fragment_payload in
  mkLimits (clamp (max_frames_in_flight l) 1 64)
    (clamp (max_fragments_per_frame l) 1 16384) max_fragment_payload max_frame_bytes
    (Z.max (max_total_buffered_bytes l) max_frame_bytes) (Z.max (frame_deadline l) 1).

Definition create (limits : ReassemblyLimits) : FrameReassembler :=
  mkReassembler (clamp_limits limits) 0 false ∅ [] ∅ empty_stats.

Definition reset (s : FrameReassembler) (stream_id : Z) : FrameReassembler :=
  mkReassembler (limits_ s) stream_id true ∅ [] ∅ empty_stats.

(** ** Counters *)

Inductive Counter := Accepted | Duplicates | LateCompleted | Conflicting | Invalid
  | Completed | ResourceDropped | ResourceRejected.

(** [++stats_.counter]. *)
Definition count (s : FrameReassemblyStats) (c : Counter) : FrameReassemblyStats :=
  let at_ (b : bool) v := if b then wrap64 (v + 1) else v in
  mkStats
    (at_ (match c with Accepted => true | _ => false end) (fs_accepted_fragments s))
    (at_ (match c with Duplicates => true | _ => false end) (fs_duplicate_fragments s))
    (at_ (match c with LateCompleted => true | _ => false end)
       (fs_late_completed_frame_fragments s))
    (at_ (match c with Conflicting => true | _ => false end) (fs_conflicting_fragments s))
    (at_ (match c with Invalid => true | _ => false end) (fs_invalid_fragments s))
    (at_ (match c with Completed => true | _ => false end) (fs_completed_frames s))
    (fs_expired_incomplete_frames s)
    (at_ (match c with ResourceDropped => true | _ => false end) (fs_resource_dropped_frames s))
    (at_ (match c with ResourceRejected => true | _ => false end)
       (fs_resource_limit_rejections s))
    (fs_buffered_bytes s) (fs_peak_buffered_bytes s).

Definition set_buffered (s : FrameReassemblyStats) (buffered peak : Z)
    : FrameReassemblyStats :=
  mkStats (fs_accepted_fragments s) (fs_duplicate_fragments s)
    (fs_late_completed_frame_fragments s) (fs_conflicting_fragments s)
    (fs_invalid_fragments s) (fs_completed_frames s) (fs_expired_incomplete_frames s)
    (fs_resource_dropped_frames s) (fs_resource_limit_rejections s) buffered peak.

(** [stats_.buffered_bytes -= bytes], a [size_t] subtraction. *)
Definition release (s : FrameReassemblyStats) (released : Z) : FrameReassemblyStats :=
  set_buffered s (wrap64 (fs_buffered_bytes s - released)) (fs_peak_buffered_bytes s).

Definition set_state (s : FrameReassembler) (frames : gmap Z PartialFrame)
    (stats : FrameReassemblyStats) : FrameReassembler :=
  mkReassembler (limits_ s) (stream_id_ s) (stream_set_ s) frames
    (completed_order_ s) (completed_recent_ s) stats.

(** ** Operations *)

Definition expired_at (now : Z) (p : PartialFrame) : bool := pf_deadline p <=? now.

(** Each frame whose deadline has passed is erased and its bytes released. *)
Definition expire (s : FrameReassembler) (now : Z) : Z * FrameReassembler :=
  let gone := filter (fun kp => expired_at now kp.2 = true) (frames_ s) in
  let kept := filter (fun kp => expired_at now kp.2 = false) (frames_ s) in
  let expired := Z.of_nat (size gone) in
  let st := release (stats_ s) (map_sum pf_total_bytes gone) in
  (expired,
   set_state s kept
     (mkStats (fs_accepted_fragments st) (fs_duplicate_fragments st)
        (fs_late_completed_frame_fragments st) (fs_conflicting_fragments st)
        (fs_invalid_fragments st) (fs_completed_frames st)
        (wrap64 (fs_expired_incomplete_frames st + expired))
        (fs_resource_dropped_frames st) (fs_resource_limit_rejections st)
        (fs_buffered_bytes st) (fs_peak_buffered_bytes st))).

Definition recent_capacity : Z := 64.

(** [while (completed_order_.size() > recent_capacity)]. *)
Fixpoint trim_completed (order : list Z) (recent : gset Z) : list Z * gset Z :=
  match order with
  | [] => ([], recent)
  | front :: rest =>
      if len order >? recent_capacity then trim_completed rest (recent ∖ {[front]})
      else (order, recent)
  end.

Definition remember_completed (s : FrameReassembler) (frame_id : Z) : FrameReassembler :=
  let '(order, recent) :=
    trim_completed (completed_order_ s ++ [frame_id]) (completed_recent_ s ∪ {[frame_id]}) in
  mkReassembler (limits_ s) (stream_id_ s) (stream_set_ s) (frames_ s) order recent (stats_ s).

Definition drop_frame (s : FrameReassembler) (frame_id : Z) (p : PartialFrame)
    (resource_drop : bool) : FrameReassembler :=
  let st := release (stats_ s) (pf_total_bytes p) in
  set_state s (delete frame_id (frames_ s))
    (if resource_drop then count st ResourceDropped else st).

Definition invalid_fragment (limits : ReassemblyLimits) (header : VideoPacketHeader)
    (payload : bytes) : bool :=
  let end_marker := has_flag (vh_flags header) flag_end_of_frame in
  let is_last_fragment :=
    negb (vh_fragment_count header =? 0) &&
    (vh_fragment_index header =? vh_fragment_count header - 1) in
  negb (vh_version header =? kVideoVersion) || (vh_fragment_count header =? 0) ||
  (vh_fragment_count header >? max_fragments_per_frame limits) ||
  (vh_fragment_index header >=? vh_fragment_count header) ||
  negb (vh_payload_bytes header =? len payload) || (len payload =? 0) ||
  (len payload >? max_fragment_payload limits) ||
  negb (eqb end_marker is_last_fragment).

Definition new_partial (limits : ReassemblyLimits) (header : VideoPacketHeader) (now : Z)
    : PartialFrame :=
  mkPartial (vh_fragment_count header) 0 (vh_capture_time_100ns header)
    (has_flag (vh_flags header) flag_keyframe) 0
    (now + frame_deadline limits * ticks_per_millisecond)
    (replicate (Z.to_nat (vh_fragment_count header)) [])
    (replicate (Z.to_nat (vh_fragment_count header)) false).

(** The slot, byte and keyframe updates of an accepted fragment. *)
Definition store_fragment (p : PartialFrame) (header : VideoPacketHeader) (payload : bytes)
    : PartialFrame :=
  let index := Z.to_nat (vh_fragment_index header) in
  mkPartial (pf_fragment_count p) (pf_received_count p + 1) (pf_capture_time_100ns p)
    (pf_keyframe p || has_flag (vh_flags header) flag_keyframe)
    (pf_total_bytes p + len payload) (pf_deadline p)
    (<[index := payload]> (pf_fragments p)) (<[index := true]> (pf_received p)).

Definition rejected (d : FragmentDisposition) (s : FrameReassembler)
    : ReassemblyResult * FrameReassembler := (mkResult d None, s).

(** [push] once the partial frame has been found or created. *)
Definition push_into (s : FrameReassembler) (partial : PartialFrame)
    (header : VideoPacketHeader) (payload : bytes) : ReassemblyResult * FrameReassembler :=
  let index := Z.to_nat (vh_fragment_index header) in
  let count_only c := set_state s (frames_ s) (count (stats_ s) c) in
  if negb (pf_fragment_count partial =? vh_fragment_count header) ||
     negb (pf_capture_time_100ns partial =? vh_capture_time_100ns header)
  then rejected fd_invalid (count_only Conflicting)
  else if nth index (pf_received partial) false then
    if bool_decide (nth index (pf_fragments partial) [] = payload)
    then rejected fd_duplicate (count_only Duplicates)
    else rejected fd_invalid (count_only Conflicting)
  else if (len payload >? max_frame_bytes (limits_ s) -
             Z.min (pf_total_bytes partial) (max_frame_bytes (limits_ s))) ||
          (len payload >? max_total_buffered_bytes (limits_ s) -
             Z.min (fs_buffered_bytes (stats_ s)) (max_total_buffered_bytes (limits_ s)))
  then rejected fd_resource_limit (drop_frame s (vh_frame_id header) partial true)
  else
    let partial := store_fragment partial header payload in
    let st := count (stats_ s) Accepted in
    let buffered := fs_buffered_bytes st + len payload in
    let st := set_buffered st buffered (Z.max (fs_peak_buffered_bytes st) buffered) in
    if negb (pf_received_count partial =? pf_fragment_count partial)
    then rejected fd_accepted
           (set_state s (<[vh_frame_id header := partial]> (frames_ s)) st)
    else
      let complete :=
        mkCompletedFrame (stream_id_ s) (vh_frame_id header)
          (pf_capture_time_100ns partial) (pf_keyframe partial)
          (concat (pf_fragments partial)) in
      let st := count (release st (pf_total_bytes partial)) Completed in
      let s := set_state s (delete (vh_frame_id header) (frames_ s)) st in
      (mkResult fd_frame_complete (Some complete),
       remember_completed s (vh_frame_id header)).

Definition push (s : FrameReassembler) (header : VideoPacketHeader) (payload : bytes)
    (now : Z) : ReassemblyResult * FrameReassembler :=
  let '(_, s) := expire s now in
  let count_only c := set_state s (frames_ s) (count (stats_ s) c) in
  if negb (stream_set_ s) then rejected fd_uninitialized s
  else if negb (vh_stream_id header =? stream_id_ s) then rejected fd_wrong_stream s
  else if invalid_fragment (limits_ s) header payload
  then rejected fd_invalid (count_only Invalid)
  else if bool_decide (vh_frame_id header ∈ completed_recent_ s)
  then rejected fd_late_completed_frame (count_only LateCompleted)
  else
    match frames_ s !! vh_frame_id header with
    | Some partial => push_into s partial header payload
    | None =>
        if Z.of_nat (size (frames_ s)) >=? max_frames_in_flight (limits_ s)
        then rejected fd_resource_limit (count_only ResourceRejected)
        else
          let partial := new_partial (limits_ s) header now in
          push_into (set_state s (<[vh_frame_id header := partial]> (frames_ s)) (stats_ s))
            partial header payload
    end.

(** The indices still missing from a frame in flight. *)
Definition missing_fragments (s : FrameReassembler) (frame_id : Z) : option (list Z) :=
  match frames_ s !! frame_id with
  | None => None
  | Some p =>
      Some (map Z.of_nat
        (List.filter (fun i => negb (nth i (pf_received p) false))
           (seq 0 (Z.to_nat (pf_fragment_count p)))))
  end.

Definition frames_in_flight (s : FrameReassembler) : Z := Z.of_nat (size (frames_ s)).

(** ** The invariant *)

(** What arrived: every header and payload ever pushed. *)
Abbreviation log := (list (VideoPacketHeader * bytes)).

(** Slot [i] of a frame holds a fragment that was pushed for it. *)
Definition came_from (pushed : log) (stream frame_id index total capture : Z)
    (fragment : bytes) : Prop :=
  exists h, (h, fragment) ∈ pushed /\ vh_stream_id h = stream /\ vh_frame_id h = frame_id /\
    vh_fragment_index h = index /\ vh_fragment_count h = total /\
    vh_capture_time_100ns h = capture.

Record frame_ok (l : ReassemblyLimits) (stream : Z) (pushed : log) (k : Z) (p : PartialFrame)
    : Prop := {
  fo_count : 0 < pf_fragment_count p <= max_fragments_per_frame l;
  fo_fragments : length (pf_fragments p) = Z.to_nat (pf_fragment_count p);
  fo_flags : length (pf_received p) = Z.to_nat (pf_fragment_count p);
  fo_received : pf_received_count p = count_true (pf_received p);
  fo_incomplete : pf_received_count p < pf_fragment_count p;
  fo_total : pf_total_bytes p = zsum (map len (pf_fragments p));
  fo_limit : pf_total_bytes p <= max_frame_bytes l;
  fo_missing i : pf_received p !! i = Some false -> pf_fragments p !! i = Some [];
  fo_present i fragment : pf_received p !! i = Some true -> pf_fragments p !! i = Some fragment ->
    came_from pushed stream k (Z.of_nat i) (pf_fragment_count p) (pf_capture_time_100ns p) fragment
}.

Definition limits_ok (l : ReassemblyLimits) : Prop :=
  1 <= max_frames_in_flight l <= 64 /\ 1 <= max_fragments_per_frame l <= 16384 /\
  1 <= max_fragment_payload l <= 65507 /\ max_frame_bytes l <= max_total_buffered_bytes l /\
  1 <= max_frame_bytes l /\ max_total_buffered_bytes l <= u64_max.

Record inv (s : FrameReassembler) (pushed : log) : Prop := {
  inv_limits : limits_ok (limits_ s);
  inv_size : Z.of_nat (size (frames_ s)) <= max_frames_in_flight (limits_ s);
  inv_frames : map_Forall (frame_ok (limits_ s) (stream_id_ s) pushed) (frames_ s);
  inv_buffered : fs_buffered_bytes (stats_ s) = map_sum pf_total_bytes (frames_ s);
  inv_total : fs_buffered_bytes (stats_ s) <= max_total_buffered_bytes (limits_ s);
  inv_recent : NoDup (completed_order_ s) /\ len (completed_order_ s) <= recent_capacity /\
    completed_recent_ s = list_to_set (completed_order_ s)
}.

Lemma frame_total_nonneg l stream pushed k p : frame_ok l stream pushed k p -> 0 <= pf_total_bytes p.
Proof.
  intros Hp. rewrite (fo_total _ _ _ _ _ Hp). apply zsum_nonneg, Forall_map, Forall_forall.
  intros x _. apply len_nonneg.
Qed.

Lemma frame_ok_mono l stream pushed pushed' k p :
  pushed ⊆ pushed' -> frame_ok l stream pushed k p -> frame_ok l stream pushed' k p.
Proof.
  intros Hsub []. constructor; try done. intros i f Hr Hf.
  destruct (fo_present0 i f Hr Hf) as (h & Hin & ?). exists h. split; [by apply Hsub|done].
Qed.

Lemma inv_mono s pushed pushed' : pushed ⊆ pushed' -> inv s pushed -> inv s pushed'.
Proof.
  intros Hsub []. constructor; try done.
  eapply map_Forall_impl; [done|]. intros k p. by apply frame_ok_mono.
Qed.

Lemma map_sum_frames_nonneg l stream pushed (m : gmap Z PartialFrame) :
  map_Forall (frame_ok l stream pushed) m -> 0 <= map_sum pf_total_bytes m.
Proof. intros Hm. apply map_sum_nonneg. intros k p Hk. by eapply frame_total_nonneg, Hm. Qed.

Lemma release_spec st x :
  0 <= fs_buffered_bytes st - x <= u64_max ->
  fs_buffered_bytes (release st x) = fs_buffered_bytes st - x.
Proof. intros H. cbn. ulia. Qed.

Lemma buffered_count st c : fs_buffered_bytes (count st c) = fs_buffered_bytes st.
Proof. done. Qed.

(** A state that differs only in counters. *)
Lemma inv_stats s pushed st :
  inv s pushed -> fs_buffered_bytes st = fs_buffered_bytes (stats_ s) ->
  inv (set_state s (frames_ s) st) pushed.
Proof. intros [] E. constructor; cbn; try done; by rewrite E. Qed.

Lemma expire_inv s pushed now :
  inv s pushed -> inv (snd (expire s now)) pushed /\
  frames_ (snd (expire s now)) ⊆ frames_ s /\ limits_ (snd (expire s now)) = limits_ s.
Proof.
  intros [Hl Hsz Hf Hb Ht Hr].
  pose proof (map_sum_filter pf_total_bytes (expired_at now) (frames_ s)) as Hsum.
  set (gone := filter (fun kp => expired_at now kp.2 = true) (frames_ s)) in *.
  set (kept := filter (fun kp => expired_at now kp.2 = false) (frames_ s)) in *.
  assert (kept ⊆ frames_ s) as Hsub by apply map_filter_subseteq.
  assert (gone ⊆ frames_ s) as Hsub' by apply map_filter_subseteq.
  pose proof (map_sum_frames_nonneg _ _ _ _ (map_Forall_weaken _ _ _ Hf Hsub)).
  pose proof (map_sum_frames_nonneg _ _ _ _ (map_Forall_weaken _ _ _ Hf Hsub')).
  assert (fs_buffered_bytes (release (stats_ s) (map_sum pf_total_bytes gone)) =
    map_sum pf_total_bytes kept) as Hrel.
  { rewrite release_spec; rewrite Hb, Hsum; [lia|]. unfold limits_ok in Hl. lia. }
  split; [|done]. unfold expire. fold gone kept. constructor; cbn; try done.
  - pose proof (map_subseteq_size kept (frames_ s) Hsub). lia.
  - by eapply map_Forall_weaken.
  - cbn in Hrel. rewrite Hrel. lia.
Qed.

(** ** Remembered frames *)

Lemma trim_completed_spec (order : list Z) (recent : gset Z) :
  NoDup order -> recent = list_to_set order ->
  exists gone left, trim_completed order recent = (left, list_to_set left) /\
    order = gone ++ left /\ len left <= recent_capacity /\
    (gone = [] \/ len left = recent_capacity).
Proof.
  revert recent. induction order as [|front rest IH]; intros recent Hnd Hr.
  - exists [], []. subst. split_and!; try done. by left.
  - cbn [trim_completed]. destruct (Z.gtb_spec (len (front :: rest)) recent_capacity).
    + apply NoDup_cons in Hnd as [Hin Hnd].
      destruct (IH (recent ∖ {[front]}) Hnd) as (gone & left & -> & -> & Hl & Hg);
        [subst; cbn; set_solver|].
      exists (front :: gone), left. split_and!; [done..|]. right.
      destruct Hg as [-> | ?]; [|done]. cbn in *. rewrite len_cons in *. lia.
    + exists [], (front :: rest). subst. split_and!; (done || lia || by left).
Qed.

Lemma remember_inv s pushed k :
  inv s pushed -> k ∉ completed_recent_ s ->
  inv (remember_completed s k) pushed /\ k ∈ completed_recent_ (remember_completed s k).
Proof.
  intros [Hl Hsz Hf Hb Ht (Hnd & Hlen & Hr)] Hk. unfold remember_completed.
  assert (NoDup (completed_order_ s ++ [k])) as Hnd'.
  { apply NoDup_app. split_and!; [done| |apply NoDup_singleton].
    rewrite Hr, elem_of_list_to_set in Hk. set_solver. }
  destruct (trim_completed_spec (completed_order_ s ++ [k]) (completed_recent_ s ∪ {[k]}))
    as (gone & left & -> & Heq & Hl' & Hfull); [done|rewrite Hr; set_solver|].
  split.
  - constructor; cbn; try done. split_and!; [|done|done].
    rewrite Heq in Hnd'. by apply NoDup_app in Hnd' as (_ & _ & ?).
  - cbn. apply elem_of_list_to_set. destruct left as [|x left' _] using rev_ind.
    + destruct Hfull as [->|Hfull]; [by destruct (completed_order_ s)|discriminate Hfull].
    + rewrite app_assoc in Heq. apply app_inj_tail in Heq as [_ ->]. set_solver.
Qed.

(** ** Storing a fragment *)

Lemma zsum_replicate_nil n : zsum (map len (replicate n (@nil byte))) = 0.
Proof. by induction n. Qed.

Lemma count_true_replicate n : count_true (replicate n false) = 0.
Proof. induction n; [done|]. cbn [replicate]. rewrite count_true_cons. lia. Qed.

Lemma new_partial_ok l stream pushed h now :
  limits_ok l -> 0 < vh_fragment_count h <= max_fragments_per_frame l ->
  frame_ok l stream pushed (vh_frame_id h) (new_partial l h now).
Proof.
  intros Hl Hc. unfold limits_ok in Hl.
  constructor; cbn; rewrite ?length_replicate, ?count_true_replicate, ?zsum_replicate_nil;
    try done; try lia.
  - intros i [_ Hi]%lookup_replicate. by apply lookup_replicate.
  - intros i f [Hi _]%lookup_replicate. done.
Qed.

(** The tests of [push] on a fragment that is not refused as invalid. *)
Lemma valid_fragment l h payload :
  wf_video_header h -> invalid_fragment l h payload = false ->
  0 < vh_fragment_count h <= max_fragments_per_frame l /\
  0 <= vh_fragment_index h < vh_fragment_count h /\
  0 < len payload <= max_fragment_payload l.
Proof.
  intros (? & ? & ? & ? & ? & ? & ? & ? & ?) Hv. unfold invalid_fragment in Hv.
  pose proof (len_nonneg payload). bool_to_prop. ulia.
Qed.

Lemma store_fragment_ok l stream pushed k p h payload :
  frame_ok l stream pushed k p ->
  vh_stream_id h = stream -> vh_frame_id h = k ->
  vh_fragment_count h = pf_fragment_count p ->
  vh_capture_time_100ns h = pf_capture_time_100ns p ->
  0 <= vh_fragment_index h < pf_fragment_count p ->
  nth (Z.to_nat (vh_fragment_index h)) (pf_received p) false = false ->
  pf_total_bytes p + len payload <= max_frame_bytes l ->
  (h, payload) ∈ pushed ->
  let p' := store_fragment p h payload in
  (pf_received_count p' < pf_fragment_count p' -> frame_ok l stream pushed k p') /\
  pf_received_count p' <= pf_fragment_count p' /\
  (pf_received_count p' = pf_fragment_count p' ->
     forall i, (i < length (pf_fragments p'))%nat ->
       exists fragment, pf_fragments p' !! i = Some fragment /\
         came_from pushed stream k (Z.of_nat i) (pf_fragment_count p')
           (pf_capture_time_100ns p') fragment) /\
  length (pf_fragments p') = Z.to_nat (pf_fragment_count p') /\
  pf_total_bytes p' = zsum (map len (pf_fragments p')).
Proof.
  intros [] Hstream Hk Hcount Hcap Hindex Hnew Hbytes Hin p'.
  set (i0 := Z.to_nat (vh_fragment_index h)) in *.
  assert (i0 < length (pf_received p))%nat as Hi0 by (unfold i0; lia).
  assert (pf_received p !! i0 = Some false) as Hflag.
  { destruct (lookup_lt_is_Some_2 _ _ Hi0) as [b Hb]. rewrite nth_lookup, Hb in Hnew.
    cbn in Hnew. by subst. }
  pose proof (fo_missing0 _ Hflag) as Hempty.
  assert (count_true (pf_received p') = pf_received_count p') as Hct
    by (cbn; rewrite count_true_insert by done; lia).
  assert (pf_total_bytes p' = zsum (map len (pf_fragments p'))) as Htot.
  { cbn. fold i0. rewrite list_fmap_insert. rewrite (zsum_insert _ _ (len (@nil byte))).
    - rewrite len_nil. change (len <$> pf_fragments p) with (map len (pf_fragments p)).
      rewrite <- fo_total0. lia.
    - by rewrite list_lookup_fmap, Hempty. }
  assert (pf_received_count p' <= pf_fragment_count p') as Hle.
  { rewrite <- Hct. pose proof (count_true_bounds (pf_received p')) as [_ Hb].
    unfold len in Hb. cbn in *. rewrite length_insert in Hb. lia. }
  assert (forall i fragment, pf_received p' !! i = Some true -> pf_fragments p' !! i = Some fragment ->
    came_from pushed stream k (Z.of_nat i) (pf_fragment_count p')
      (pf_capture_time_100ns p') fragment) as Hpresent.
  { cbn. fold i0. intros i f Hr Hf. destruct (decide (i = i0)) as [->|Hne].
    - rewrite list_lookup_insert_eq in Hf by lia. injection Hf as <-.
      exists h. split_and!; try done. unfold i0. lia.
    - rewrite list_lookup_insert_ne in Hr by done. rewrite list_lookup_insert_ne in Hf by done.
      by apply fo_present0. }
  split_and!; try done.
  - intros Hlt. constructor; cbn in *; rewrite ?length_insert; try done.
    + fold i0. intros i Hr. destruct (decide (i = i0)) as [->|Hne].
      * by rewrite list_lookup_insert_eq in Hr.
      * rewrite list_lookup_insert_ne in Hr by done. rewrite list_lookup_insert_ne by done.
        by apply fo_missing0.
  - intros Hfull i Hi. destruct (lookup_lt_is_Some_2 _ _ Hi) as [f Hf]. exists f.
    split; [done|]. apply Hpresent; [|done].
    assert (length (pf_received p') = length (pf_fragments p')) as Hl
      by (cbn; rewrite !length_insert; lia).
    assert (i < length (pf_received p'))%nat as Hi' by lia.
    destruct (lookup_lt_is_Some_2 _ _ Hi') as [b Hb]. rewrite Hb. f_equal.
    rewrite <- (count_true_full (pf_received p') i); [by rewrite nth_lookup, Hb| |done].
    unfold len. rewrite Hct, Hfull. cbn in *. rewrite length_insert. lia.
  - cbn. by rewrite length_insert.
Qed.

(** ** Pushing a fragment *)

(** A frame whose payload is the fragments pushed for its indices 0, 1, ... of
    one stream, frame id, fragment count and capture time. *)
Definition assembled (pushed : log) (f : CompletedFrame) : Prop :=
  exists fragments, cf_payload f = concat fragments /\ fragments <> [] /\
    forall i fragment, fragments !! i = Some fragment ->
      came_from pushed (cf_stream_id f) (cf_frame_id f) (Z.of_nat i) (len fragments)
        (cf_capture_time_100ns f) fragment.

Definition sound_result (pushed : log) (r : ReassemblyResult) : Prop :=
  match rr_frame r with
  | Some f => rr_disposition r = fd_frame_complete /\ assembled pushed f
  | None => rr_disposition r <> fd_frame_complete
  end.

Lemma drop_frame_inv s pushed k p :
  inv s pushed -> frames_ s !! k = Some p -> inv (drop_frame s k p true) pushed.
Proof.
  intros [Hl Hsz Hf Hb Ht Hr] Hk. pose proof (map_sum_delete pf_total_bytes _ _ _ Hk) as Hsum.
  pose proof (frame_total_nonneg _ _ _ _ _ (Hf _ _ Hk)).
  assert (map_Forall (frame_ok (limits_ s) (stream_id_ s) pushed) (delete k (frames_ s))) as Hf'
    by (eapply map_Forall_weaken; [done|apply delete_subseteq]).
  pose proof (map_sum_frames_nonneg _ _ _ _ Hf').
  assert (fs_buffered_bytes (release (stats_ s) (pf_total_bytes p)) =
    map_sum pf_total_bytes (delete k (frames_ s))) as Hrel.
  { rewrite release_spec; rewrite Hb, Hsum; [lia|]. unfold limits_ok in Hl. lia. }
  pose proof (map_subseteq_size _ _ (delete_subseteq (frames_ s) k)).
  cbn in Hrel. constructor; cbn; try done; rewrite ?Hrel; lia.
Qed.

Lemma push_into_inv s pushed p h payload :
  inv s pushed -> frames_ s !! vh_frame_id h = Some p -> wf_video_header h ->
  invalid_fragment (limits_ s) h payload = false -> vh_stream_id h = stream_id_ s ->
  vh_frame_id h ∉ completed_recent_ s -> (h, payload) ∈ pushed ->
  inv (snd (push_into s p h payload)) pushed /\ sound_result pushed (fst (push_into s p h payload)).
Proof.
  intros Hinv Hk Hwf Hvalid Hstream Hrecent Hin.
  destruct (valid_fragment _ _ _ Hwf Hvalid) as (Hcount & Hindex & Hlen).
  unfold push_into, rejected.
  destruct (Z.eqb_spec (pf_fragment_count p) (vh_fragment_count h)) as [Hc|];
    cbn [negb orb]; [|split; [by apply inv_stats|done]].
  destruct (Z.eqb_spec (pf_capture_time_100ns p) (vh_capture_time_100ns h)) as [Hcap|];
    cbn [negb]; [|split; [by apply inv_stats|done]].
  destruct (nth _ (pf_received p) false) eqn:Hnew.
  { case_bool_decide; (split; [by apply inv_stats|done]). }
  destruct (_ || _) eqn:Hbytes; [split; [by apply drop_frame_inv|done]|].
  bool_to_prop. pose proof Hinv as [Hl Hsz Hf Hb Ht Hr].
  pose proof (Hf _ _ Hk) as Hok. pose proof (fo_limit _ _ _ _ _ Hok).
  destruct (store_fragment_ok _ _ _ _ p h payload Hok Hstream eq_refl (eq_sym Hc) (eq_sym Hcap))
    as (Hpart & Hle & Hfull & Hfl & Htot); [lia|done|lia|done|].
  set (p' := store_fragment p h payload) in *.
  assert (pf_total_bytes p' = pf_total_bytes p + len payload) as Htp by done.
  pose proof (frame_total_nonneg _ _ _ _ _ Hok).
  destruct (Z.eqb_spec (pf_received_count p') (pf_fragment_count p')) as [Hcomp|Hpartial];
    cbn [negb fst snd].
  - set (s1 := set_state s (delete (vh_frame_id h) (frames_ s)) _).
    assert (inv s1 pushed) as Hinv1.
    { pose proof (map_sum_delete pf_total_bytes _ _ _ Hk) as Hsum.
      assert (map_Forall (frame_ok (limits_ s) (stream_id_ s) pushed)
        (delete (vh_frame_id h) (frames_ s))) as Hf'
        by (eapply map_Forall_weaken; [done|apply delete_subseteq]).
      pose proof (map_sum_frames_nonneg _ _ _ _ Hf').
      pose proof (map_subseteq_size _ _ (delete_subseteq (frames_ s) (vh_frame_id h))).
      assert (fs_buffered_bytes (stats_ s1) =
        map_sum pf_total_bytes (delete (vh_frame_id h) (frames_ s))) as Hrel.
      { unfold s1. cbn. unfold limits_ok in Hl. ulia. }
      constructor; try done; try rewrite Hrel; cbn; lia. }
    split; [by apply remember_inv|]. split; [done|].
    exists (pf_fragments p'). cbn [cf_payload cf_stream_id cf_frame_id cf_capture_time_100ns].
    specialize (Hfull Hcomp).
    assert (len (pf_fragments p') = pf_fragment_count p') as Hlf
      by (unfold len; rewrite Hfl; cbn; lia).
    split_and!; [done| |].
    + intros E. rewrite E, len_nil in Hlf. cbn in Hlf. lia.
    + intros i f Hi. rewrite Hlf.
      destruct (Hfull i (lookup_lt_Some _ _ _ Hi)) as (f' & Hf' & Hcame). congruence.
  - split; [|done]. specialize (Hpart ltac:(lia)).
    constructor; cbn [set_state limits_ stream_id_ frames_ stats_ completed_order_
      completed_recent_]; try done.
    + by rewrite map_size_insert_Some by eauto.
    + by apply map_Forall_insert_2.
    + rewrite (map_sum_update _ _ _ p) by done. cbn. lia.
    + cbn. lia.
Qed.

Lemma push_inv s pushed h payload now :
  inv s pushed -> wf_video_header h -> (h, payload) ∈ pushed ->
  inv (snd (push s h payload now)) pushed /\ sound_result pushed (fst (push s h payload now)).
Proof.
  intros Hinv0 Hwf Hin. unfold push.
  destruct (expire_inv s pushed now Hinv0) as (Hinv & _ & _).
  destruct (expire s now) as [n s1]. cbn in Hinv. clear s Hinv0.
  destruct (stream_set_ s1); cbn [negb]; [|done].
  destruct (Z.eqb_spec (vh_stream_id h) (stream_id_ s1)) as [Hstream|]; cbn [negb]; [|done].
  destruct (invalid_fragment (limits_ s1) h payload) eqn:Hvalid;
    [split; [by apply inv_stats|done]|].
  case_bool_decide as Hrecent; [split; [by apply inv_stats|done]|].
  destruct (frames_ s1 !! vh_frame_id h) as [p|] eqn:Hk; [by apply push_into_inv|].
  destruct (Z.geb_spec (Z.of_nat (size (frames_ s1))) (max_frames_in_flight (limits_ s1)))
    as [|Hroom]; [split; [by apply inv_stats|done]|].
  destruct (valid_fragment _ _ _ Hwf Hvalid) as (Hcount & Hindex & Hlen).
  pose proof Hinv as [Hl Hsz Hf Hb Ht Hr].
  apply push_into_inv; cbn; try done; [|by apply lookup_insert_eq].
  constructor; cbn; try done.
  - rewrite map_size_insert_None by done. lia.
  - apply map_Forall_insert_2; [by apply new_partial_ok|done].
  - rewrite map_sum_insert by done. cbn. lia.
Qed.

(** ** Runs *)

Inductive Operation :=
| Push (header : VideoPacketHeader) (payload : bytes) (now : Z)
| Expire (now : Z)
| Reset (stream_id : Z).

Definition perform (s : FrameReassembler) (op : Operation)
    : list ReassemblyResult * FrameReassembler :=
  match op with
  | Push h payload now => let '(r, s') := push s h payload now in ([r], s')
  | Expire now => ([], snd (expire s now))
  | Reset stream_id => ([], reset s stream_id)
  end.

Fixpoint run (s : FrameReassembler) (ops : list Operation)
    : list ReassemblyResult * FrameReassembler :=
  match ops with
  | [] => ([], s)
  | op :: rest =>
      let '(out, s1) := perform s op in
      let '(outs, s2) := run s1 rest in
      (out ++ outs, s2)
  end.

Definition pushes (ops : list Operation) : log :=
  flat_map (fun op => match op with Push h payload _ => [(h, payload)] | _ => [] end) ops.

(** Headers have their C++ field types. *)
Definition typed_operation (op : Operation) : Prop :=
  match op with Push h _ _ => wf_video_header h | _ => True end.

Lemma reset_inv s pushed stream_id : inv s pushed -> inv (reset s stream_id) pushed.
Proof.
  intros [Hl Hsz Hf Hb Ht Hr]. unfold limits_ok in Hl.
  constructor; cbn; try done; try lia.
  - rewrite map_size_empty. lia.
  - split_and!; [constructor|done|done].
Qed.

Lemma run_inv s pushed ops :
  inv s pushed -> Forall typed_operation ops -> pushes ops ⊆ pushed ->
  inv (snd (run s ops)) pushed /\ Forall (sound_result pushed) (fst (run s ops)).
Proof.
  intros Hinv Hops Hsub. revert s Hinv. induction Hops as [|op ops Hop Hops IH]; intros s Hinv;
    [done|]. cbn [run pushes flat_map] in *.
  assert (inv (snd (perform s op)) pushed /\ Forall (sound_result pushed) (fst (perform s op)))
    as [Hinv1 Hout].
  { destruct op as [h payload now|now|stream_id]; cbn [perform typed_operation] in *.
    - destruct (push_inv s pushed h payload now) as [H1 H2]; [done..|set_solver|].
      destruct (push s h payload now). split; [done|by apply Forall_singleton].
    - split; [by apply (expire_inv s pushed now)|done].
    - split; [by apply reset_inv|done]. }
  destruct (perform s op) as [out s1]. cbn in *.
  destruct (IH ltac:(set_solver) s1 Hinv1) as [Hinv2 Houts].
  destruct (run s1 ops). cbn in *. split; [done|]. by apply Forall_app.
Qed.

(** The limits a configuration can name: [size_t] and [uint16_t] values. *)
Definition typed_limits (l : ReassemblyLimits) : Prop :=
  0 <= max_frame_bytes l <= u64_max /\ 0 <= max_total_buffered_bytes l <= u64_max.

Lemma create_inv l pushed : typed_limits l -> inv (create l) pushed.
Proof.
  intros Hl. unfold typed_limits, u64_max in Hl.
  constructor; cbn; try done.
  - unfold limits_ok, clamp_limits, clamp, u64_max. cbn. lia.
  - rewrite map_size_empty. unfold clamp. lia.
  - unfold clamp. lia.
  - split_and!; [constructor|done|done].
Qed.

(** ** Delivery in any order *)

Section Delivery.
Context (k stream capture : Z) (keyframe : bool) (n : nat).
Context (header : nat -> VideoPacketHeader) (fragment : nat -> bytes).

(** The headers of one frame of [n] fragments. *)
Definition frame_headers (l : ReassemblyLimits) : Prop :=
  forall i, (i < n)%nat ->
    wf_video_header (header i) /\ vh_version (header i) = kVideoVersion /\
    vh_stream_id (header i) = stream /\ vh_frame_id (header i) = k /\
    vh_fragment_index (header i) = Z.of_nat i /\ vh_fragment_count (header i) = Z.of_nat n /\
    vh_payload_bytes (header i) = len (fragment i) /\
    vh_capture_time_100ns (header i) = capture /\
    has_flag (vh_flags (header i)) flag_keyframe = keyframe /\
    has_flag (vh_flags (header i)) flag_end_of_frame = bool_decide (S i = n) /\
    0 < len (fragment i) <= max_fragment_payload l.

(** The frame with the fragments of [done] in place. *)
Definition partial_with (done : list nat) (deadline : Z) : PartialFrame :=
  mkPartial (Z.of_nat n) (len done) capture keyframe
    (zsum (map (fun i => len (fragment i)) done)) deadline
    (map (fun i => if decide (i ∈ done) then fragment i else []) (seq 0 n))
    (map (fun i => bool_decide (i ∈ done)) (seq 0 n)).

Definition whole_frame : CompletedFrame :=
  mkCompletedFrame stream k capture keyframe (concat (map fragment (seq 0 n))).

Definition total_bytes : Z := zsum (map (fun i => len (fragment i)) (seq 0 n)).

(** The state while the frame is being received. *)
Record receiving (s : FrameReassembler) (pushed : log) (b0 : Z) (done : list nat) (deadline : Z)
    : Prop := {
  rc_inv : inv s pushed;
  rc_stream : stream_set_ s = true /\ stream_id_ s = stream;
  rc_recent : k ∉ completed_recent_ s;
  rc_frame : frames_ s !! k = if decide (done = []) then None
                             else Some (partial_with done deadline);
  rc_room : done = [] -> Z.of_nat (size (frames_ s)) < max_frames_in_flight (limits_ s);
  rc_buffered : fs_buffered_bytes (stats_ s) <= b0 + zsum (map (fun i => len (fragment i)) done)
}.

Lemma valid_header l i :
  frame_headers l -> (i < n)%nat -> Z.of_nat n <= max_fragments_per_frame l ->
  invalid_fragment l (header i) (fragment i) = false.
Proof.
  intros Hh Hi Hn. destruct (Hh i Hi) as (_ & Hv & _ & _ & Hidx & Hcnt & Hpb & _ & _ & He & Hl).
  unfold invalid_fragment. rewrite Hv, He, Hidx, Hcnt, Hpb.
  assert (eqb (bool_decide (S i = n))
    (negb (Z.of_nat n =? 0) && (Z.of_nat i =? Z.of_nat n - 1)) = true) as ->.
  { apply eqb_true_iff. case_bool_decide; lia. }
  rewrite !Z.eqb_refl. lia.
Qed.

Lemma map_seq_insert {A} (f : nat -> A) (i : nat) (a : A) :
  <[i := a]> (map f (seq 0 n)) = map (fun j => if decide (j = i) then a else f j) (seq 0 n).
Proof.
  apply list_eq. intros j. destruct (decide (i < n)%nat) as [Hi|Hi].
  - destruct (decide (j = i)) as [->|Hne].
    + rewrite list_lookup_insert_eq by (by rewrite length_map, length_seq).
      rewrite list_lookup_fmap, lookup_seq_lt by done. cbn. by rewrite decide_True.
    + rewrite list_lookup_insert_ne, !list_lookup_fmap by done.
      destruct (seq 0 n !! j) as [x|] eqn:E; [|done]. apply lookup_seq in E as [-> _].
      cbn. by rewrite decide_False.
  - rewrite list_insert_ge by (rewrite length_map, length_seq; lia).
    rewrite !list_lookup_fmap. destruct (seq 0 n !! j) as [x|] eqn:E; [|done].
    apply lookup_seq in E as [-> ?]. cbn. by rewrite decide_False by lia.
Qed.

(** Storing one more fragment of the frame. *)
Lemma store_partial l done deadline i :
  frame_headers l -> (i < n)%nat ->
  store_fragment (partial_with done deadline) (header i) (fragment i) =
    partial_with (i :: done) deadline.
Proof.
  intros Hh Hi. destruct (Hh i Hi) as (_ & _ & _ & _ & Hidx & _ & _ & _ & Hk & _).
  unfold store_fragment, partial_with. cbn. rewrite Hk, Hidx, Nat2Z.id.
  rewrite orb_diag, !map_seq_insert, len_cons. f_equal.
  - lia.
  - apply map_ext. intros j. destruct (decide (j = i)) as [->|Hne].
    + by rewrite decide_True by set_solver.
    + destruct (decide (j ∈ done)); [rewrite decide_True by set_solver|
        rewrite decide_False by set_solver]; done.
  - apply map_ext. intros j. destruct (decide (j = i)) as [->|Hne].
    + by rewrite bool_decide_true by set_solver.
    + apply bool_decide_ext. set_solver.
Qed.

Lemma map_seq_const {A} (a : A) (m : nat) : map (fun _ => a) (seq m n) = replicate n a.
Proof. revert m. induction n as [|n' IH]; intros m; [done|]. cbn. by rewrite IH. Qed.

Lemma new_partial_empty l i now :
  frame_headers l -> (i < n)%nat ->
  new_partial l (header i) now =
    partial_with [] (now + frame_deadline l * ticks_per_millisecond).
Proof.
  intros Hh Hi. destruct (Hh i Hi) as (_ & _ & _ & _ & _ & Hcnt & _ & Hcap & Hk & _).
  unfold new_partial, partial_with. rewrite Hk, Hcnt, Hcap, Nat2Z.id. cbn.
  f_equal; rewrite <- (map_seq_const _ 0); apply map_ext; intros j.
  - by rewrite decide_False by set_solver.
  - by rewrite bool_decide_false by set_solver.
Qed.

(** Bytes of the fragments received never exceed the frame's. *)
Lemma received_bytes done :
  done ⊆+ seq 0 n -> zsum (map (fun i => len (fragment i)) done) <= total_bytes.
Proof.
  intros (rest & Hp)%submseteq_Permutation. unfold total_bytes.
  rewrite Hp, map_app, zsum_app.
  pose proof (zsum_nonneg (map (fun i => len (fragment i)) rest)) as H.
  rewrite Forall_map in H. specialize (H ltac:(apply Forall_true; intros; apply len_nonneg)). lia.
Qed.

Lemma expire_receiving s pushed b0 done deadline now :
  receiving s pushed b0 done deadline -> (done <> [] -> now < deadline) ->
  receiving (snd (expire s now)) pushed b0 done deadline.
Proof.
  intros [Hinv Hst Hrec Hfr Hroom Hbuf] Hnow.
  destruct (expire_inv s pushed now Hinv) as (Hinv' & Hsub & Hl).
  constructor; try done.
  - cbn. destruct (decide (done = [])) as [->|Hne].
    + apply map_lookup_filter_None. by left.
    + apply map_lookup_filter_Some. split; [done|]. cbn. unfold expired_at. cbn.
      specialize (Hnow Hne). lia.
  - intros Hd. rewrite Hl. specialize (Hroom Hd).
    pose proof (map_subseteq_size _ _ Hsub). lia.
  - etrans; [|exact Hbuf]. rewrite (inv_buffered _ _ Hinv'), (inv_buffered _ _ Hinv).
    rewrite (map_sum_filter pf_total_bytes (expired_at now) (frames_ s)). cbn.
    pose proof (map_sum_frames_nonneg _ _ _ _ (map_Forall_weaken _ _
      (filter (fun kp => expired_at now kp.2 = true) (frames_ s)) (inv_frames _ _ Hinv)
      ltac:(apply map_filter_subseteq))). lia.
Qed.

(** One fragment, pushed into the partial frame. *)
Lemma push_into_receiving s pushed b0 done deadline i :
  let p := partial_with done deadline in
  inv s pushed -> stream_set_ s = true /\ stream_id_ s = stream -> k ∉ completed_recent_ s ->
  frames_ s !! k = Some p ->
  fs_buffered_bytes (stats_ s) <= b0 + zsum (map (fun i => len (fragment i)) done) ->
  frame_headers (limits_ s) -> (i < n)%nat -> Z.of_nat n <= max_fragments_per_frame (limits_ s) ->
  (header i, fragment i) ∈ pushed -> i :: done ⊆+ seq 0 n -> i ∉ done ->
  total_bytes <= max_frame_bytes (limits_ s) ->
  b0 + total_bytes <= max_total_buffered_bytes (limits_ s) ->
  let '(r, s') := push_into s p (header i) (fragment i) in
  (S (length done) < n -> r = mkResult fd_accepted None /\
     receiving s' pushed b0 (i :: done) deadline /\ limits_ s' = limits_ s)%nat /\
  (S (length done) = n -> r = mkResult fd_frame_complete (Some whole_frame)).
Proof.
  intros p Hinv Hst Hrec Hfr Hbuf Hh Hi Hn Hin Hsub Hnew Hfb Htb.
  pose proof (received_bytes _ Hsub) as Hbytes. cbn in Hbytes.
  pose proof (Hh i Hi) as (Hwf & _ & Hs & Hk & Hidx & Hcnt & _ & Hcap & _).
  pose proof (zsum_nonneg (map (fun i => len (fragment i)) done)) as Hnn.
  rewrite Forall_map in Hnn. specialize (Hnn ltac:(apply Forall_true; intros; apply len_nonneg)).
  pose proof (push_into_inv s pushed p (header i) (fragment i) Hinv) as Hpush.
  rewrite Hk, Hs in Hpush.
  destruct Hpush as [Hinv' _]; try done; [by apply valid_header|by rewrite (proj2 Hst)|].
  remember (push_into s p (header i) (fragment i)) as res eqn:E.
  unfold push_into, rejected, p in E.
  rewrite (store_partial (limits_ s)), Hcnt, Hcap, Hidx, Hk, Nat2Z.id in E by done.
  cbn [partial_with pf_fragment_count pf_capture_time_100ns pf_received pf_total_bytes
    pf_received_count] in E. rewrite !Z.eqb_refl in E. cbn [negb orb] in E.
  assert (nth i (map (fun i => bool_decide (i ∈ done)) (seq 0 n)) false = false) as Hflag.
  { rewrite nth_lookup, list_lookup_fmap, lookup_seq_lt by done. cbn.
    by apply bool_decide_eq_false. }
  rewrite Hflag in E.
  destruct (Z.gtb_spec (len (fragment i)) (max_frame_bytes (limits_ s) -
    Z.min (zsum (map (fun i => len (fragment i)) done)) (max_frame_bytes (limits_ s)))); [lia|].
  destruct (Z.gtb_spec (len (fragment i)) (max_total_buffered_bytes (limits_ s) -
    Z.min (fs_buffered_bytes (stats_ s)) (max_total_buffered_bytes (limits_ s)))); [lia|].
  cbn [orb] in E. rewrite len_cons in E. unfold len at 1 in E.
  assert (length done < n)%nat as Hlen.
  { apply submseteq_length in Hsub. cbn in Hsub. rewrite length_seq in Hsub. lia. }
  destruct (Z.eqb_spec (Z.of_nat (length done) + 1) (Z.of_nat n)) as [Hfull|Hpart];
    cbn [negb] in E; subst res; cbn [fst snd] in *; (split; intros Hcase; [|try lia]); try lia.
  - do 2 f_equal. unfold whole_frame. rewrite (proj2 Hst). f_equal. cbn. f_equal.
    apply map_ext_in. intros j Hj%list_elem_of_In.
    assert (i :: done ≡ₚ seq 0 n) as Hperm.
    { apply submseteq_length_Permutation; [done|]. rewrite length_seq. cbn. lia. }
    rewrite <- Hperm in Hj. by rewrite decide_True.
  - split; [done|]. split; [|done]. constructor; try done; cbn.
    + apply lookup_insert_eq.
    + lia.
Qed.

(** The fragments pushed one after the other, each at its own time. *)
Fixpoint push_all (s : FrameReassembler) (arrivals : list (nat * Z))
    : list ReassemblyResult * FrameReassembler :=
  match arrivals with
  | [] => ([], s)
  | (i, now) :: rest =>
      let '(r, s1) := push s (header i) (fragment i) now in
      let '(rs, s2) := push_all s1 rest in
      (r :: rs, s2)
  end.

Lemma push_receiving s pushed b0 done deadline i now :
  receiving s pushed b0 done deadline ->
  frame_headers (limits_ s) -> (i < n)%nat -> Z.of_nat n <= max_fragments_per_frame (limits_ s) ->
  (header i, fragment i) ∈ pushed -> i :: done ⊆+ seq 0 n -> i ∉ done ->
  total_bytes <= max_frame_bytes (limits_ s) ->
  b0 + total_bytes <= max_total_buffered_bytes (limits_ s) ->
  (if decide (done = []) then deadline = now + frame_deadline (limits_ s) * ticks_per_millisecond
   else now < deadline) ->
  let '(r, s') := push s (header i) (fragment i) now in
  (S (length done) < n -> r = mkResult fd_accepted None /\
     receiving s' pushed b0 (i :: done) deadline /\ limits_ s' = limits_ s)%nat /\
  (S (length done) = n -> r = mkResult fd_frame_complete (Some whole_frame)).
Proof.
  intros Hrc Hh Hi Hn Hin Hsub Hnew Hfb Htb Hnow. unfold push.
  assert (receiving (snd (expire s now)) pushed b0 done deadline) as Hrc'.
  { apply expire_receiving; [done|]. intros Hne. by rewrite decide_False in Hnow. }
  assert (limits_ (snd (expire s now)) = limits_ s) as Hl by done.
  destruct (expire s now) as [m s1]. cbn in Hrc', Hl. rewrite <- Hl in *. clear Hrc.
  pose proof (Hh i Hi) as (Hwf & _ & Hs & Hk & _).
  destruct Hrc' as [Hinv [Hset Hst] Hrec Hfr Hroom Hbuf].
  rewrite Hset, Hs, Hst, Z.eqb_refl, Hk. cbn [negb].
  rewrite valid_header, bool_decide_false by done.
  destruct (decide (done = [])) as [->|Hne]; rewrite Hfr.
  - specialize (Hroom eq_refl).
    destruct (Z.geb_spec (Z.of_nat (size (frames_ s1))) (max_frames_in_flight (limits_ s1)));
      [lia|].
    rewrite (new_partial_empty (limits_ s1)) by done. rewrite <- Hnow.
    set (s2 := set_state s1 _ _).
    apply (push_into_receiving s2 pushed b0 [] deadline i); try done.
    + destruct Hinv as [Hlim Hsz Hf Hb Ht Hr]. constructor; cbn; try done.
      * rewrite map_size_insert_None by done. lia.
      * apply map_Forall_insert_2; [|done].
        pose proof (new_partial_ok (limits_ s1) (stream_id_ s1) pushed (header i) now Hlim) as Hok.
        rewrite (new_partial_empty (limits_ s1)), <- Hnow, Hk in Hok by done. apply Hok.
        destruct (Hh i Hi) as (_ & _ & _ & _ & _ & -> & _). lia.
      * rewrite map_sum_insert by done. cbn. lia.
    + cbn. apply lookup_insert_eq.
  - by apply push_into_receiving.
Qed.

Lemma push_all_receiving s pushed b0 done deadline arrivals :
  receiving s pushed b0 done deadline ->
  frame_headers (limits_ s) -> Z.of_nat n <= max_fragments_per_frame (limits_ s) ->
  (forall i, (i < n)%nat -> (header i, fragment i) ∈ pushed) ->
  map fst arrivals ++ done ≡ₚ seq 0 n ->
  total_bytes <= max_frame_bytes (limits_ s) ->
  b0 + total_bytes <= max_total_buffered_bytes (limits_ s) ->
  (if decide (done = []) then exists i now rest, arrivals = (i, now) :: rest /\
     deadline = now + frame_deadline (limits_ s) * ticks_per_millisecond else arrivals <> []) ->
  Forall (fun a => a.2 < deadline) arrivals ->
  fst (push_all s arrivals) =
    replicate (length arrivals - 1) (mkResult fd_accepted None) ++
    [mkResult fd_frame_complete (Some whole_frame)].
Proof.
  revert s done. induction arrivals as [|[i now] rest IH];
    intros s done Hrc Hh Hn Hin Hperm Hfb Htb Hfirst Htimes.
  { destruct (decide (done = [])); [|done]. by destruct Hfirst as (? & ? & ? & ? & _). }
  cbn [map fst] in Hperm. apply Forall_cons in Htimes as [Hnow Htimes]. cbn in Hnow.
  assert (i ∈ seq 0 n) as Hi by (rewrite <- Hperm; set_solver).
  apply elem_of_seq in Hi as [_ Hi].
  assert (NoDup (i :: map fst rest ++ done)) as Hnd by (rewrite Hperm; apply NoDup_seq).
  assert (i :: done ⊆+ seq 0 n) as Hsub.
  { rewrite <- Hperm. apply submseteq_skip, submseteq_inserts_l. done. }
  assert (length rest + S (length done) = n)%nat as Hlen.
  { apply Permutation_length in Hperm. cbn in Hperm.
    rewrite length_app, length_map, length_seq in Hperm. lia. }
  pose proof (push_receiving s pushed b0 done deadline i now Hrc Hh) as Hpush.
  cbn [push_all]. destruct (push s (header i) (fragment i) now) as [r s1].
  destruct Hpush as [Hpart Hfull]; try done.
  - by apply Hin.
  - apply NoDup_cons in Hnd as [Hnot _]. set_solver.
  - destruct (decide (done = [])); [|done].
    destruct Hfirst as (? & ? & ? & [= <- <- <-] & ->). done.
  - destruct rest as [|a rest'].
    + rewrite (Hfull ltac:(cbn in Hlen; lia)). done.
    + destruct Hpart as (-> & Hrc1 & Hl); [cbn in Hlen; lia|].
      specialize (IH s1 (i :: done) Hrc1). rewrite Hl in IH.
      destruct (push_all s1 (a :: rest')) as [rs s2]. cbn [fst] in *.
      rewrite IH; try done.
      * cbn. by rewrite Nat.sub_0_r.
      * rewrite <- Hperm. symmetry. apply (Permutation_middle (map fst (a :: rest'))).
Qed.

End Delivery.
(** ** Properties *)

(** Whatever is pushed, in whatever order and at whatever times, every frame
    the reassembler completes is exactly the concatenation, in index order, of
    fragments that were pushed for that stream, frame id, capture time and
    fragment count, one for each index: nothing is invented, mixed between
    frames, missing or out of order; and no other result carries a frame. *)
Theorem completed_frames_assembled (l : ReassemblyLimits) (ops : list Operation) :
  typed_limits l -> Forall typed_operation ops ->
  Forall (sound_result (pushes ops)) (fst (run (create l) ops)).
Proof. intros Hl Hops. by apply run_inv; [apply create_inv|..]. Qed.

Definition sample_header (index : Z) (flags : Z) : VideoPacketHeader :=
  mkVideoPacketHeader 2 flags 5 (100 + index) 7 index 2 3 42.

Definition sample_ops : list Operation :=
  [ Reset 5; Push (sample_header 1 2) (text "def") 10; Push (sample_header 1 2) (text "def") 11;
    Push (sample_header 0 1) (text "abc") 12; Push (sample_header 0 1) (text "abc") 13 ].

Lemma completed_frames_assembled_witness :
  Forall (sound_result (pushes sample_ops)) (fst (run (create default_limits) sample_ops)) /\
  map rr_disposition (fst (run (create default_limits) sample_ops)) =
    [fd_accepted; fd_duplicate; fd_frame_complete; fd_late_completed_frame].
Proof.
  split; [|vm_compute; reflexivity].
  apply (completed_frames_assembled default_limits sample_ops); [by vm_compute|].
  repeat constructor; by vm_compute.
Defined.

(** Memory is bounded: after any operations the frames in flight, the bytes
    of each frame, the bytes buffered in total and the remembered completions
    are within the configured limits, the byte counter is the sum over the
    frames in flight (its unsigned subtractions never wrap), and no frame in
    flight is already complete. *)
Theorem reassembly_bounded (l : ReassemblyLimits) (ops : list Operation) :
  typed_limits l -> Forall typed_operation ops ->
  let s := snd (run (create l) ops) in
  frames_in_flight s <= max_frames_in_flight (limits_ s) /\
  fs_buffered_bytes (stats_ s) = map_sum pf_total_bytes (frames_ s) /\
  fs_buffered_bytes (stats_ s) <= max_total_buffered_bytes (limits_ s) /\
  len (completed_order_ s) <= recent_capacity /\
  (forall k p, frames_ s !! k = Some p ->
     pf_total_bytes p = zsum (map len (pf_fragments p)) /\
     pf_total_bytes p <= max_frame_bytes (limits_ s) /\
     0 <= pf_received_count p < pf_fragment_count p /\
     pf_fragment_count p <= max_fragments_per_frame (limits_ s)).
Proof.
  intros Hl Hops. cbn zeta.
  destruct (run_inv (create l) (pushes ops) ops) as [[Hlim Hsz Hf Hb Ht Hr] _];
    [by apply create_inv|done..|].
  split_and!; try done; [apply Hr|]. intros k p Hk. destruct (Hf _ _ Hk) as
    [Hcount _ _ Hrec Hinc Htot Hlimit _ _].
  pose proof (count_true_bounds (pf_received p)). split_and!; try done; lia.
Qed.

Lemma reassembly_bounded_witness :
  fs_buffered_bytes (stats_ (snd (run (create default_limits) sample_ops))) <=
    max_total_buffered_bytes (limits_ (snd (run (create default_limits) sample_ops))).
Proof.
  destruct (reassembly_bounded default_limits sample_ops) as (_ & _ & H & _).
  - by vm_compute.
  - repeat constructor; by vm_compute.
  - exact H.
Defined.

End FrameReassembler.
