(* ===== verification/VideoTransport.v ===== *)
(** Video transport (common/include/nstu/video_transport.hpp,
    common/src/video_transport.cpp): packetizer and datagram codec, jitter
    buffer, NACK policy and its message, keyframe scheduler.  Times are
    [steady_clock] ticks; configured delays are milliseconds. *)

From S2P Require Import Prelude Wire Codec Protocol Auth FrameReassembler.
Import ReaderNotations Protocol.
#[local] Open Scope nstu_scope.

Module VideoTransport.

Definition ms (delay : Z) : Z := delay * FrameReassembler.ticks_per_millisecond.

(** ** Datagrams *)

Record VideoDatagram := mkDatagram {
  vd_header : VideoPacketHeader;
  vd_tag : bytes;
  vd_payload : bytes
}.

Definition datagram_wire (d : VideoDatagram) : bytes :=
  if negb (vh_payload_bytes (vd_header d) =? len (vd_payload d)) then []
  else
    let header_wire := encode_video_header (vd_header d) in
    if bool_decide (header_wire = []) then []
    else header_wire ++ vd_tag d ++ vd_payload d.

Record PacketizerConfig := mkPacketizerConfig {
  maximum_datagram_bytes : Z;
  maximum_fragments : Z
}.

Record VideoPacketizer := mkPacketizer {
  pk_config : PacketizerConfig;
  pk_stream_id : Z;
  pk_next_packet_sequence : Z;
  pk_next_frame_id : Z;
  pk_initialized : bool
}.

Definition overhead : Z := kVideoHeaderBytes + Auth.kVideoAuthTagBytes.

Definition packetizer_create (config : PacketizerConfig) : VideoPacketizer :=
  mkPacketizer
    (mkPacketizerConfig
       (FrameReassembler.clamp (maximum_datagram_bytes config) (overhead + 1) 65507)
       (FrameReassembler.clamp (maximum_fragments config) 1 16384))
    0 0 0 false.

Definition packetizer_reset (s : VideoPacketizer) (stream_id first_packet_sequence
    first_frame_id : Z) : VideoPacketizer :=
  mkPacketizer (pk_config s) stream_id first_packet_sequence first_frame_id
    (negb (stream_id =? 0)).

Section Datagrams.
Variable bcrypt_hmac : bytes -> bytes -> option bytes.

(** The header of fragment [index] of the access unit. *)
Definition fragment_header (s : VideoPacketizer) (capture_time : Z) (keyframe : bool)
    (fragment_count index fragment_bytes : Z) : VideoPacketHeader :=
  let flags := if keyframe then flag_keyframe else flag_none in
  let flags :=
    if index + 1 =? fragment_count then Z.lor flags flag_end_of_frame else flags in
  mkVideoPacketHeader kVideoVersion flags (pk_stream_id s)
    (pk_next_packet_sequence s + index) (pk_next_frame_id s)
    (index mod 65536) (fragment_count mod 65536) (fragment_bytes mod 4294967296)
    capture_time.

(** [for (index = 0; index < fragment_count; ++index)]: [fuel] fragments are
    left, [unit] is the part of the access unit from [offset] on. *)
Fixpoint packetize_loop (s : VideoPacketizer) (capture_time : Z) (keyframe : bool)
    (key : bytes) (payload_limit fragment_count : Z) (left : nat) (index : Z)
    (unit : bytes) : result (list VideoDatagram) :=
  match left with
  | O => Ok []
  | S left' =>
      let fragment_bytes := Z.min payload_limit (len unit) in
      let header :=
        fragment_header s capture_time keyframe fragment_count index fragment_bytes in
      let payload := take (Z.to_nat fragment_bytes) unit in
      match Auth.compute_video_auth_tag bcrypt_hmac key header payload with
      | None => Err "video authentication tag generation failed"
      | Some tag =>
          match packetize_loop s capture_time keyframe key payload_limit fragment_count
                  left' (index + 1) (drop (Z.to_nat fragment_bytes) unit) with
          | Err e => Err e
          | Ok rest => Ok (mkDatagram header tag payload :: rest)
          end
      end
  end.

Definition packetize (s : VideoPacketizer) (access_unit : bytes)
    (capture_time : Z) (keyframe : bool) (authentication_key : bytes)
    : result (list VideoDatagram * VideoPacketizer) :=
  if negb (pk_initialized s) || (len access_unit =? 0) ||
     (len authentication_key <? Auth.kMinimumProtocolKeyBytes)
  then Err "invalid packetizer input"
  else
    let payload_limit := maximum_datagram_bytes (pk_config s) - kVideoHeaderBytes -
                         Auth.kVideoAuthTagBytes in
    let fragment_count := (len access_unit + payload_limit - 1) / payload_limit in
    if (fragment_count =? 0) || (fragment_count >? maximum_fragments (pk_config s)) ||
       (fragment_count >? u16_max) ||
       (fragment_count - 1 >? u64_max - pk_next_packet_sequence s)
    then Err "access unit exceeds packetizer limits"
    else if pk_next_frame_id s =? u64_max then Err "frame ID space is exhausted"
    else
      match packetize_loop s capture_time keyframe authentication_key payload_limit
              fragment_count (Z.to_nat fragment_count) 0 access_unit with
      | Err e => Err e
      | Ok datagrams =>
          Ok (datagrams,
              mkPacketizer (pk_config s) (pk_stream_id s)
                (wrap64 (pk_next_packet_sequence s + fragment_count))
                (wrap64 (pk_next_frame_id s + 1)) (pk_initialized s))
      end.

Definition decode_video_datagram (wire authentication_key : bytes)
    : result VideoDatagram :=
  if (len wire <=? overhead) || (len wire >? 65507)
  then Err "invalid video datagram length"
  else
    match decode_video_header (take (Z.to_nat kVideoHeaderBytes) wire) with
    | None => Err "invalid video datagram header"
    | Some header =>
        if negb (vh_payload_bytes header =? len wire - overhead)
        then Err "invalid video datagram header"
        else
          let tag := take (Z.to_nat Auth.kVideoAuthTagBytes)
                       (drop (Z.to_nat kVideoHeaderBytes) wire) in
          let payload := drop (Z.to_nat overhead) wire in
          if negb (Auth.verify_video_auth_tag bcrypt_hmac authentication_key header
                     payload tag)
          then Err "video datagram authentication failed"
          else Ok (mkDatagram header tag payload)
    end.
End Datagrams.

(** ** Jitter buffer *)

Record JitterBufferConfig := mkJitterConfig { target_delay : Z; maximum_frames : Z }.

Record JitterBufferStats := mkJitterStats {
  js_accepted : Z;
  js_duplicate : Z;
  js_late : Z;
  js_resource_dropped : Z;
  js_released : Z
}.

Record BufferedFrame := mkBuffered {
  bf_frame : FrameReassembler.CompletedFrame;
  bf_ready_at : Z
}.

Record FrameJitterBuffer := mkJitter {
  jb_config : JitterBufferConfig;
  jb_stream_id : Z;
  jb_stream_set : bool;
  jb_last_released_frame_id : option Z;
  jb_frames : gmap Z BufferedFrame;
  jb_stats : JitterBufferStats
}.

Definition jitter_create (config : JitterBufferConfig) : FrameJitterBuffer :=
  mkJitter
    (mkJitterConfig (FrameReassembler.clamp (target_delay config) 1 1000)
       (FrameReassembler.clamp (maximum_frames config) 2 256))
    0 false None ∅ (mkJitterStats 0 0 0 0 0).

Definition jitter_reset (s : FrameJitterBuffer) (stream_id : Z) : FrameJitterBuffer :=
  mkJitter (jb_config s) stream_id (negb (stream_id =? 0)) None ∅ (mkJitterStats 0 0 0 0 0).

Definition set_jitter (s : FrameJitterBuffer) (last : option Z)
    (frames : gmap Z BufferedFrame) (stats : JitterBufferStats) : FrameJitterBuffer :=
  mkJitter (jb_config s) (jb_stream_id s) (jb_stream_set s) last frames stats.

Definition jitter_push (s : FrameJitterBuffer) (frame : FrameReassembler.CompletedFrame)
    (arrival_time : Z) : bool * FrameJitterBuffer :=
  let st := jb_stats s in
  let frame_id := FrameReassembler.cf_frame_id frame in
  if negb (jb_stream_set s) ||
     negb (FrameReassembler.cf_stream_id frame =? jb_stream_id s)
  then (false, s)
  else if match jb_last_released_frame_id s with
          | Some last => frame_id <=? last
          | None => false
          end
  then (false, set_jitter s (jb_last_released_frame_id s) (jb_frames s)
          (mkJitterStats (js_accepted st) (js_duplicate st) (wrap64 (js_late st + 1))
             (js_resource_dropped st) (js_released st)))
  else if bool_decide (is_Some (jb_frames s !! frame_id))
  then (false, set_jitter s (jb_last_released_frame_id s) (jb_frames s)
          (mkJitterStats (js_accepted st) (wrap64 (js_duplicate st + 1)) (js_late st)
             (js_resource_dropped st) (js_released st)))
  else
    let '(frames, dropped) :=
      if Z.of_nat (size (jb_frames s)) >=? maximum_frames (jb_config s) then
        match map_begin (jb_frames s) with
        | Some (oldest, _) => (delete oldest (jb_frames s), wrap64 (js_resource_dropped st + 1))
        | None => (jb_frames s, js_resource_dropped st)
        end
      else (jb_frames s, js_resource_dropped st) in
    (true, set_jitter s (jb_last_released_frame_id s)
       (<[frame_id := mkBuffered frame (arrival_time + ms (target_delay (jb_config s)))]> frames)
       (mkJitterStats (wrap64 (js_accepted st + 1)) (js_duplicate st) (js_late st) dropped
          (js_released st))).

Definition jitter_pop_ready (s : FrameJitterBuffer) (now : Z)
    : option FrameReassembler.CompletedFrame * FrameJitterBuffer :=
  let st := jb_stats s in
  match map_begin (jb_frames s) with
  | None => (None, s)
  | Some (oldest, buffered) =>
      if bf_ready_at buffered >? now then (None, s)
      else
        let frame := bf_frame buffered in
        (Some frame,
         set_jitter s (Some (FrameReassembler.cf_frame_id frame)) (delete oldest (jb_frames s))
           (mkJitterStats (js_accepted st) (js_duplicate st) (js_late st)
              (js_resource_dropped st) (wrap64 (js_released st + 1))))
  end.

Definition jitter_size (s : FrameJitterBuffer) : Z := Z.of_nat (size (jb_frames s)).

(** ** NACK policy *)

Record NackPolicyConfig := mkNackConfig {
  initial_delay : Z;
  retry_interval : Z;
  maximum_attempts : Z;
  maximum_fragments_per_request : Z
}.

Record VideoNack := mkVideoNack {
  vn_stream_id : Z;
  vn_frame_id : Z;
  vn_attempt : Z;
  vn_missing_fragments : list Z
}.

Record NackState := mkNackState {
  ns_attempts : Z;
  ns_next_request : Z;
  ns_deadline : Z
}.

Record NackPolicy := mkNackPolicy {
  np_config : NackPolicyConfig;
  np_stream_id : Z;
  np_stream_set : bool;
  np_states : gmap Z NackState
}.

Definition nack_create (config : NackPolicyConfig) : NackPolicy :=
  mkNackPolicy
    (mkNackConfig (Z.max (initial_delay config) 1) (Z.max (retry_interval config) 1)
       (FrameReassembler.clamp (maximum_attempts config) 1 8)
       (FrameReassembler.clamp (maximum_fragments_per_request config) 1 1024))
    0 false ∅.

Definition nack_reset (s : NackPolicy) (stream_id : Z) : NackPolicy :=
  mkNackPolicy (np_config s) stream_id (negb (stream_id =? 0)) ∅.

Definition set_states (s : NackPolicy) (states : gmap Z NackState) : NackPolicy :=
  mkNackPolicy (np_config s) (np_stream_id s) (np_stream_set s) states.

Definition consider (s : NackPolicy) (frame_id : Z) (missing : list Z)
    (first_fragment_time frame_deadline now : Z) : option VideoNack * NackPolicy :=
  if negb (np_stream_set s) || (len missing =? 0) || (now >=? frame_deadline) then (None, s)
  else
    let config := np_config s in
    let inserted := bool_decide (np_states s !! frame_id = None) in
    let state :=
      default (mkNackState 0 (first_fragment_time + ms (initial_delay config)) frame_deadline)
        (np_states s !! frame_id) in
    if inserted && (ns_next_request state >=? ns_deadline state)
    then (None, set_states s
            (<[frame_id := mkNackState (maximum_attempts config) (ns_next_request state)
                             (ns_deadline state)]> (np_states s)))
    else if (ns_attempts state >=? maximum_attempts config) ||
            (now <? ns_next_request state) || (now >=? ns_deadline state)
    then (None, set_states s (<[frame_id := state]> (np_states s)))
    else
      let state := mkNackState (ns_attempts state + 1) (now + ms (retry_interval config))
                     (ns_deadline state) in
      let count := Z.min (len missing) (maximum_fragments_per_request config) in
      (Some (mkVideoNack (np_stream_id s) frame_id (ns_attempts state)
               (take (Z.to_nat count) missing)),
       set_states s (<[frame_id := state]> (np_states s))).

Definition nack_complete (s : NackPolicy) (frame_id : Z) : NackPolicy :=
  set_states s (delete frame_id (np_states s)).

Definition nack_exhausted (s : NackPolicy) (frame_id : Z) : bool :=
  match np_states s !! frame_id with
  | Some state => ns_attempts state >=? maximum_attempts (np_config s)
  | None => false
  end.

Definition nack_expire (s : NackPolicy) (now : Z) : Z * NackPolicy :=
  (Z.of_nat (size (filter (fun kv => (ns_deadline kv.2 <=? now) = true) (np_states s))),
   set_states s (filter (fun kv => (ns_deadline kv.2 <=? now) = false) (np_states s))).

Definition encode_video_nack (nack : VideoNack) : bytes :=
  if (vn_stream_id nack =? 0) || (vn_attempt nack =? 0) ||
     (len (vn_missing_fragments nack) =? 0) || (len (vn_missing_fragments nack) >? 1024)
  then []
  else
    write_le 4 (vn_stream_id nack) ++ write_le 8 (vn_frame_id nack) ++
    write_le 1 (vn_attempt nack) ++ write_le 2 (len (vn_missing_fragments nack)) ++
    concat (map (write_le 2) (vn_missing_fragments nack)).

Definition decode_video_nack (payload : bytes) : option VideoNack :=
  run_reader (
    stream_id <- read_le 4 ;;
    frame_id <- read_le 8 ;;
    attempt <- read_le 1 ;;
    count <- read_le 2 ;;
    left <- rremaining ;;
    guard (negb (stream_id =? 0) && negb (attempt =? 0) && negb (count =? 0) &&
           negb (count >? 1024) && (left =? count * 2)) ;;
    missing_fragments <- read_many (Z.to_nat count) (read_le 2) ;;
    rret (mkVideoNack stream_id frame_id attempt missing_fragments)) payload.

(** ** Keyframe scheduler *)

Inductive KeyframeReason : Set :=
  | stream_start | periodic | packet_loss | nack_exhausted_reason | decoder_recovery.

Record KeyframeScheduleConfig := mkKeyframeConfig {
  minimum_interval : Z;
  maximum_interval : Z;
  loss_threshold_per_mille : Z
}.

Record KeyframeScheduler := mkScheduler {
  ks_config : KeyframeScheduleConfig;
  ks_last_keyframe : Z;
  ks_pending_reason : option KeyframeReason;
  ks_initialized : bool
}.

Definition scheduler_create (config : KeyframeScheduleConfig) : KeyframeScheduler :=
  let minimum := Z.max (minimum_interval config) 1 in
  mkScheduler
    (mkKeyframeConfig minimum (Z.max (maximum_interval config) minimum)
       (FrameReassembler.clamp (loss_threshold_per_mille config) 1 1000))
    0 None false.

Definition scheduler_reset (s : KeyframeScheduler) (now : Z) : KeyframeScheduler :=
  mkScheduler (ks_config s) (now - ms (maximum_interval (ks_config s))) (Some stream_start) true.

Definition set_pending (s : KeyframeScheduler) (reason : KeyframeReason) : KeyframeScheduler :=
  mkScheduler (ks_config s) (ks_last_keyframe s) (Some reason) (ks_initialized s).

Definition observe_loss (s : KeyframeScheduler) (loss_per_mille : Z) : KeyframeScheduler :=
  if loss_per_mille >=? loss_threshold_per_mille (ks_config s) then set_pending s packet_loss
  else s.

Definition notify_nack_exhausted (s : KeyframeScheduler) : KeyframeScheduler :=
  set_pending s nack_exhausted_reason.

Definition notify_decoder_recovery (s : KeyframeScheduler) : KeyframeScheduler :=
  set_pending s decoder_recovery.

Definition due (s : KeyframeScheduler) (now : Z) : option KeyframeReason :=
  if negb (ks_initialized s) ||
     (now - ks_last_keyframe s <? ms (minimum_interval (ks_config s)))
  then None
  else
    match ks_pending_reason s with
    | Some reason => Some reason
    | None =>
        if now - ks_last_keyframe s >=? ms (maximum_interval (ks_config s))
        then Some periodic else None
    end.

Definition mark_emitted (s : KeyframeScheduler) (now : Z) : KeyframeScheduler :=
  mkScheduler (ks_config s) now None (ks_initialized s).

(** ** Fragments of an access unit *)

(** The first byte ranges of length [limit] of [unit]. *)
Definition chunk (limit : nat) (unit : bytes) (i : nat) : bytes :=
  take limit (drop (i * limit) unit).

Lemma chunk_shift limit unit i : chunk limit (drop limit unit) i = chunk limit unit (S i).
Proof. unfold chunk. by rewrite drop_drop. Qed.

Lemma concat_chunks limit unit n :
  concat (map (chunk limit unit) (seq 0 n)) = take (n * limit) unit.
Proof.
  revert unit. induction n as [|n IH]; intros unit; [done|].
  cbn [seq map concat]. rewrite <- seq_shift, map_map.
  rewrite (map_ext _ (chunk limit (drop limit unit))) by (intros; by rewrite chunk_shift).
  rewrite IH. unfold chunk. cbn. rewrite drop_0.
  by rewrite take_take_drop.
Qed.

Lemma len_chunk limit unit i :
  len (chunk limit unit i) = Z.min (Z.of_nat limit) (Z.max 0 (len unit - Z.of_nat (i * limit))).
Proof. unfold chunk, len. rewrite length_take, length_drop. lia. Qed.

(** The datagram of fragment [i]. *)
Definition datagram_at (bcrypt_hmac : bytes -> bytes -> option bytes) (s : VideoPacketizer)
    (capture_time : Z) (keyframe : bool) (key : bytes) (limit : nat) (fragment_count index : Z)
    (unit : bytes) (i : nat) (d : VideoDatagram) : Prop :=
  vd_payload d = chunk limit unit i /\
  vd_header d = fragment_header s capture_time keyframe fragment_count (index + Z.of_nat i)
                  (len (chunk limit unit i)) /\
  Auth.compute_video_auth_tag bcrypt_hmac key (vd_header d) (vd_payload d) = Some (vd_tag d).

Lemma packetize_loop_spec bcrypt_hmac s ct kf key (limit : nat) count left index unit ds :
  packetize_loop bcrypt_hmac s ct kf key (Z.of_nat limit) count left index unit = Ok ds ->
  length ds = left /\
  forall i d, ds !! i = Some d -> datagram_at bcrypt_hmac s ct kf key limit count index unit i d.
Proof.
  revert index unit ds. induction left as [|left IH]; intros index unit ds; cbn [packetize_loop].
  - intros [= <-]. split; [done|]. intros i d Hd. by rewrite lookup_nil in Hd.
  - assert (take (Z.to_nat (Z.min (Z.of_nat limit) (len unit))) unit = chunk limit unit 0) as Hpay.
    { unfold chunk. cbn. rewrite drop_0. unfold len.
      replace (Z.to_nat (Z.min (Z.of_nat limit) (Z.of_nat (length unit))))
        with (limit `min` length unit)%nat by lia.
      by rewrite <- firstn_firstn, (take_ge unit) by lia. }
    assert (drop (Z.to_nat (Z.min (Z.of_nat limit) (len unit))) unit = drop limit unit) as Hdrop.
    { unfold len. destruct (decide (limit <= length unit)%nat).
      - f_equal. lia.
      - rewrite !drop_ge by lia. done. }
    assert (Z.min (Z.of_nat limit) (len unit) = len (chunk limit unit 0)) as Hlen
      by (rewrite len_chunk; pose proof (len_nonneg unit); lia).
    rewrite Hpay, Hdrop, Hlen.
    destruct (Auth.compute_video_auth_tag _ _ _ _) as [tag|] eqn:Htag; [|done].
    destruct (packetize_loop _ _ _ _ _ _ _ _ _ _) as [rest|] eqn:Hrest; [|done].
    intros [= <-]. apply IH in Hrest as [Hl Hi]. split; [cbn; lia|].
    intros [|i] d Hd; cbn in Hd.
    + injection Hd as <-. unfold datagram_at. cbn. rewrite Z.add_0_r. done.
    + apply Hi in Hd as (H1 & H2 & H3). rewrite chunk_shift in H1, H2.
      split_and!; [done| |done]. rewrite H2. f_equal. lia.
Qed.

(** What [packetize] decides from the sizes alone. *)
Lemma packetize_inv bcrypt_hmac s unit ct kf key ds s' :
  packetize bcrypt_hmac s unit ct kf key = Ok (ds, s') ->
  let limit := maximum_datagram_bytes (pk_config s) - 60 in
  1 <= limit ->
  exists n : nat,
    length ds = n /\ (0 < n)%nat /\ Z.of_nat n <= maximum_fragments (pk_config s) /\
    Z.of_nat n <= u16_max /\ pk_next_packet_sequence s + Z.of_nat n - 1 <= u64_max /\
    Z.of_nat (n - 1) * limit < len unit <= Z.of_nat n * limit /\
    Auth.kMinimumProtocolKeyBytes <= len key /\
    (forall i d, ds !! i = Some d ->
       datagram_at bcrypt_hmac s ct kf key (Z.to_nat limit) (Z.of_nat n) 0 unit i d).
Proof.
  unfold packetize. case_if H1; [done|].
  change kVideoHeaderBytes with 44. change Auth.kVideoAuthTagBytes with 16.
  cbn zeta. replace (maximum_datagram_bytes (pk_config s) - 44 - 16) with
    (maximum_datagram_bytes (pk_config s) - 60) by lia.
  set (limit := maximum_datagram_bytes (pk_config s) - 60).
  set (count := (len unit + limit - 1) / limit).
  case_if H2; [done|]. case_if H3; [done|].
  destruct (packetize_loop _ _ _ _ _ _ _ _ _ _) as [ds'|] eqn:Hloop; [|done].
  intros [= <- <-] Hlimit. pose proof (len_nonneg unit). bool_to_prop.
  assert (0 <= count) as Hc by (unfold count; apply Z.div_pos; lia).
  assert (limit * count <= len unit + limit - 1 < limit * count + limit) as Hdiv.
  { unfold count. pose proof (Z.div_mod (len unit + limit - 1) limit ltac:(lia)).
    pose proof (Z.mod_pos_bound (len unit + limit - 1) limit ltac:(lia)). lia. }
  rewrite <- (Z2Nat.id limit) in Hloop at 1 by lia.
  apply packetize_loop_spec in Hloop as [Hl Hd].
  exists (Z.to_nat count). rewrite Z2Nat.id by done. split_and!; try done; try lia; nia.
Qed.

(** ** Sending and receiving a frame *)

Definition typed_packetizer (s : VideoPacketizer) : Prop :=
  u32 (pk_stream_id s) /\ u64 (pk_next_packet_sequence s) /\ u64 (pk_next_frame_id s) /\
  61 <= maximum_datagram_bytes (pk_config s) <= 65507 /\
  1 <= maximum_fragments (pk_config s) <= 16384.

Section Delivery.
Variable bcrypt_hmac : bytes -> bytes -> option bytes.
(** An HMAC-SHA-256 digest is 32 bytes long. *)
Hypothesis digest_bytes : forall k m d, bcrypt_hmac k m = Some d -> length d = 32%nat.

Lemma own_tag_verifies key header payload tag :
  Auth.compute_video_auth_tag bcrypt_hmac key header payload = Some tag ->
  length tag = 16%nat /\
  Auth.verify_video_auth_tag bcrypt_hmac key header payload tag = true.
Proof.
  intros Htag. assert (length tag = 16%nat) as Hl.
  { unfold Auth.compute_video_auth_tag, Auth.hmac_sha256 in Htag.
    destruct (_ <? _); [done|]. destruct (_ || _ || _); [done|].
    destruct (bcrypt_hmac _ _) as [d|] eqn:Hd; [|done]. injection Htag as <-.
    rewrite length_take, (digest_bytes _ _ _ Hd). done. }
  split; [done|]. unfold Auth.verify_video_auth_tag. rewrite Htag.
  unfold len. rewrite Hl. cbn. by apply Auth.constant_time_equal_spec.
Qed.

Lemma fragment_flags (keyframe last : bool) :
  let flags := if keyframe then flag_keyframe else flag_none in
  let flags := if last then Z.lor flags flag_end_of_frame else flags in
  u16 flags /\ FrameReassembler.has_flag flags flag_keyframe = keyframe /\
  FrameReassembler.has_flag flags flag_end_of_frame = last.
Proof. destruct keyframe, last; split_and!; by vm_compute. Qed.

Lemma datagram_at_header s ct kf key limit n unit i d :
  typed_packetizer s -> u64 ct -> (i < n)%nat ->
  Z.of_nat n <= maximum_fragments (pk_config s) ->
  pk_next_packet_sequence s + Z.of_nat n - 1 <= u64_max -> Z.of_nat limit <= 65447 ->
  datagram_at bcrypt_hmac s ct kf key limit (Z.of_nat n) 0 unit i d ->
  let h := vd_header d in
  wf_video_header h /\ vh_version h = kVideoVersion /\ vh_stream_id h = pk_stream_id s /\
  vh_frame_id h = pk_next_frame_id s /\ vh_fragment_index h = Z.of_nat i /\
  vh_fragment_count h = Z.of_nat n /\ vh_payload_bytes h = len (vd_payload d) /\
  vh_capture_time_100ns h = ct /\
  FrameReassembler.has_flag (vh_flags h) flag_keyframe = kf /\
  FrameReassembler.has_flag (vh_flags h) flag_end_of_frame = bool_decide (S i = n).
Proof.
  intros (Hs & Hq & Hf & Hm & Hx) Hct Hi Hn Hseq Hlim (Hp & Hh & _).
  pose proof (len_chunk limit unit i) as Hlen. pose proof (len_nonneg (chunk limit unit i)).
  rewrite Hh, Hp. unfold fragment_header. cbn. rewrite !Z.add_0_l.
  rewrite (Z.mod_small (len _)), !Z.mod_small by lia.
  assert ((Z.of_nat i + 1 =? Z.of_nat n) = bool_decide (S i = n)) as ->
    by (case_bool_decide; lia).
  destruct (fragment_flags kf (bool_decide (S i = n))) as (Hflags & Hkey & Hend).
  unfold wf_video_header. cbn. rewrite Hkey, Hend.
  split_and!; try done; unfold kVideoVersion; ulia.
Qed.

Lemma wire_decodes s ct kf key limit n unit i d :
  typed_packetizer s -> u64 ct -> (i < n)%nat ->
  Z.of_nat n <= maximum_fragments (pk_config s) ->
  pk_next_packet_sequence s + Z.of_nat n - 1 <= u64_max -> Z.of_nat limit <= 65447 ->
  0 < len (chunk limit unit i) ->
  datagram_at bcrypt_hmac s ct kf key limit (Z.of_nat n) 0 unit i d ->
  decode_video_datagram bcrypt_hmac (datagram_wire d) key = Ok d.
Proof.
  intros Hs Hct Hi Hn Hseq Hlim Hpos Hd. pose proof Hd as (Hp & _ & Htag).
  destruct (datagram_at_header s ct kf key limit n unit i d Hs Hct Hi Hn Hseq Hlim Hd)
    as (Hwf & Hv & _ & _ & Hidx & Hcnt & Hpb & _).
  destruct (own_tag_verifies _ _ _ _ Htag) as [Htl Hverify].
  assert (valid_video_header (vd_header d)) as Hvalid by (split_and!; [done|done|lia]).
  pose proof (len_encode_video_header (vd_header d)) as Hhl.
  assert (length (encode_video_header (vd_header d)) = 44%nat) as Hhl' by (by apply length_len in Hhl).
  assert (datagram_wire d = encode_video_header (vd_header d) ++ vd_tag d ++ vd_payload d) as ->.
  { unfold datagram_wire. rewrite Hpb, Z.eqb_refl. cbn [negb].
    rewrite bool_decide_false; [done|]. intros E. by rewrite E in Hhl'. }
  pose proof (len_chunk limit unit i) as Hcl. rewrite <- Hp in Hpos, Hcl.
  pose proof (len_length _ _ Htl) as Htl'. 
  unfold decode_video_datagram, overhead.
  rewrite !len_app, Hhl, Htl'. change kVideoHeaderBytes with 44.
  change Auth.kVideoAuthTagBytes with 16.
  destruct (Z.leb_spec (44 + (Z.of_nat 16 + len (vd_payload d))) (44 + 16)); [lia|].
  destruct (Z.gtb_spec (44 + (Z.of_nat 16 + len (vd_payload d))) 65507); [lia|]. cbn [orb].
  rewrite (take_app_length' (encode_video_header (vd_header d))) by (rewrite Hhl'; done).
  rewrite <- (app_nil_r (encode_video_header (vd_header d))) at 1.
  rewrite decode_encode_video_header by done. rewrite Hpb.
  destruct (Z.eqb_spec (len (vd_payload d))
    (44 + (Z.of_nat 16 + len (vd_payload d)) - (44 + 16))); [|lia]. cbn [negb].
  rewrite (drop_app_length' (encode_video_header (vd_header d)) (vd_tag d ++ vd_payload d)
    (Z.to_nat 44)) by (rewrite Hhl'; done).
  rewrite (take_app_length' (vd_tag d)) by (rewrite Htl; done).
  rewrite app_assoc, drop_app_length' by (rewrite length_app, Hhl', Htl; done).
  rewrite Hverify. by destruct d.
Qed.

(** The receive path: each datagram is decoded and its fragment pushed. *)
Fixpoint receive_all (r : FrameReassembler.FrameReassembler) (key : bytes)
    (arrivals : list (bytes * Z)) : list FrameReassembler.ReassemblyResult :=
  match arrivals with
  | [] => []
  | (wire, now) :: rest =>
      match decode_video_datagram bcrypt_hmac wire key with
      | Err _ => receive_all r key rest
      | Ok d =>
          let '(result, r') := FrameReassembler.push r (vd_header d) (vd_payload d) now in
          result :: receive_all r' key rest
      end
  end.

Lemma receive_all_push_all r key (header : nat -> VideoPacketHeader) (fragment : nat -> bytes)
    (wire : nat -> bytes) (tag : nat -> bytes) (arrivals : list (nat * Z)) :
  (forall i, i ∈ map fst arrivals ->
     decode_video_datagram bcrypt_hmac (wire i) key =
       Ok (mkDatagram (header i) (tag i) (fragment i))) ->
  receive_all r key (map (fun a => (wire a.1, a.2)) arrivals) =
    fst (FrameReassembler.push_all header fragment r arrivals).
Proof.
  revert r. induction arrivals as [|[i now] rest IH]; intros r Hdec; [done|].
  cbn [map fst snd receive_all FrameReassembler.push_all]. rewrite Hdec by (cbn; set_solver).
  cbn [vd_header vd_payload]. destruct (FrameReassembler.push _ _ _ _) as [res r'].
  rewrite IH by (intros j Hj; apply Hdec; cbn; set_solver).
  by destruct (FrameReassembler.push_all _ _ _ _).
Qed.

(** Wires in any order are the wires of some order of the indices. *)
Lemma arrivals_indexed (ds : list VideoDatagram) (d0 : VideoDatagram)
    (arrivals : list (bytes * Z)) :
  map fst arrivals ≡ₚ map datagram_wire ds ->
  exists order : list nat,
    order ≡ₚ seq 0 (length ds) /\
    arrivals = map (fun a => (datagram_wire (nth a.1 ds d0), a.2)) (zip order (map snd arrivals))
    /\ length order = length arrivals.
Proof.
  intros Hp.
  assert (map datagram_wire ds =
    map (fun i => datagram_wire (nth i ds d0)) (seq 0 (length ds))) as Hds.
  { rewrite <- (map_map (fun i => nth i ds d0) datagram_wire). f_equal.
    apply list_eq. intros i. rewrite list_lookup_fmap.
    destruct (decide (i < length ds)%nat) as [Hi|Hi].
    - rewrite lookup_seq_lt by done. cbn. rewrite nth_lookup.
      by destruct (lookup_lt_is_Some_2 _ _ Hi) as [d ->].
    - rewrite lookup_seq_ge by lia. apply lookup_ge_None. lia. }
  rewrite Hds in Hp. apply Permutation_map_inv in Hp as (order & Hmap & Hperm).
  exists order. assert (length order = length arrivals) as Hl
    by (apply (f_equal length) in Hmap; rewrite !length_map in Hmap; done).
  split_and!; [done| |done].
  clear Hperm Hds. revert order Hmap Hl.
  induction arrivals as [|[w now] rest IH]; intros [|i order] Hmap Hl; try done.
  cbn in Hmap. injection Hmap as Hw Hrest. cbn. rewrite Hw. f_equal.
  apply IH; [done|]. cbn in Hl. lia.
Qed.
End Delivery.

(** ** The jitter buffer over a run *)

Inductive JitterOp : Type :=
  | JitterPush (frame : FrameReassembler.CompletedFrame) (arrival : Z)
  | JitterPop (now : Z).

(** The frames released by a run, with the time of their release. *)
Fixpoint jitter_run (s : FrameJitterBuffer) (ops : list JitterOp)
    : list (FrameReassembler.CompletedFrame * Z) * FrameJitterBuffer :=
  match ops with
  | [] => ([], s)
  | JitterPush frame arrival :: rest => jitter_run (snd (jitter_push s frame arrival)) rest
  | JitterPop now :: rest =>
      let '(popped, s') := jitter_pop_ready s now in
      let '(released, final) := jitter_run s' rest in
      (match popped with Some frame => (frame, now) :: released | None => released end, final)
  end.

(** The frames of a run's pushes, with their arrival times. *)
Definition arrivals_of (ops : list JitterOp) : list (FrameReassembler.CompletedFrame * Z) :=
  omap (fun op => match op with JitterPush f t => Some (f, t) | JitterPop _ => None end) ops.

Definition frame_ids (released : list (FrameReassembler.CompletedFrame * Z)) : list Z :=
  map (fun r => FrameReassembler.cf_frame_id r.1) released.

Record jitter_inv (s : FrameJitterBuffer)
    (pushed : list (FrameReassembler.CompletedFrame * Z)) : Prop := {
  ji_config : 1 <= target_delay (jb_config s) /\ 2 <= maximum_frames (jb_config s);
  ji_size : jitter_size s <= maximum_frames (jb_config s);
  ji_frame : forall id b, jb_frames s !! id = Some b ->
    id = FrameReassembler.cf_frame_id (bf_frame b) /\
    FrameReassembler.cf_stream_id (bf_frame b) = jb_stream_id s /\
    (exists arrival, (bf_frame b, arrival) ∈ pushed /\
       bf_ready_at b = arrival + ms (target_delay (jb_config s))) /\
    (forall last, jb_last_released_frame_id s = Some last -> last < id);
  ji_stats : js_accepted (jb_stats s) =
    wrap64 (js_released (jb_stats s) + js_resource_dropped (jb_stats s) + jitter_size s)
}.

Lemma wrap64_succ_l a b : wrap64 (wrap64 a + b) = wrap64 (a + b).
Proof. unfold wrap64. by rewrite Zplus_mod_idemp_l. Qed.

Lemma jitter_size_insert s id b : jb_frames s !! id = None ->
  Z.of_nat (size (<[id := b]> (jb_frames s))) = jitter_size s + 1.
Proof. intros H. unfold jitter_size. rewrite map_size_insert_None by done. lia. Qed.

Lemma jitter_push_inv s pushed frame arrival :
  jitter_inv s pushed -> (frame, arrival) ∈ pushed ->
  jitter_inv (snd (jitter_push s frame arrival)) pushed.
Proof.
  intros [[Hc1 Hc2] Hsz Hf Hst] Hin. unfold jitter_push.
  set (id := FrameReassembler.cf_frame_id frame).
  destruct (negb _ || negb _) eqn:E; [by constructor|]. bool_to_prop.
  match goal with |- context [if match ?l with _ => _ end then _ else _] =>
    destruct (match l with Some last => id <=? last | None => false end) eqn:E3 end;
    [by constructor|].
  destruct (bool_decide _) eqn:E4; [by constructor|].
  apply bool_decide_eq_false in E4. rewrite <- eq_None_not_Some in E4.
  assert (forall last, jb_last_released_frame_id s = Some last -> last < id) as Hlast.
  { intros last Hl. rewrite Hl in E3. bool_to_prop. lia. }
  assert (forall frames dropped,
    (forall i, frames !! i = jb_frames s !! i \/ frames !! i = None) ->
    Z.of_nat (size frames) < maximum_frames (jb_config s) ->
    js_accepted (jb_stats s) =
      wrap64 (js_released (jb_stats s) + dropped + Z.of_nat (size frames)) ->
    jitter_inv (set_jitter s (jb_last_released_frame_id s)
       (<[id := mkBuffered frame (arrival + ms (target_delay (jb_config s)))]> frames)
       (mkJitterStats (wrap64 (js_accepted (jb_stats s) + 1)) (js_duplicate (jb_stats s))
          (js_late (jb_stats s)) dropped (js_released (jb_stats s)))) pushed) as Hgo.
  { intros frames dropped Hsub Hroom Hcount.
    assert (frames !! id = None) as Hnone by (destruct (Hsub id) as [->|]; done).
    constructor; cbn.
    - done.
    - unfold jitter_size. cbn. rewrite map_size_insert_None by done. lia.
    - intros i b [[<- <-]|[Hne Hi]]%lookup_insert_Some; cbn.
      + split_and!; [done|done|by eexists|done].
      + apply Hf. destruct (Hsub i) as [<-|Hi']; [done|congruence].
    - unfold jitter_size. cbn. rewrite map_size_insert_None by done.
      rewrite Hcount, wrap64_succ_l. f_equal. lia. }
  unfold jitter_size in *.
  destruct (_ >=? _) eqn:E5; bool_to_prop.
  - destruct (map_begin (jb_frames s)) as [[oldest b]|] eqn:Eb; cbn [snd].
    + destruct (map_begin_Some _ _ _ Eb) as [Hl _].
      assert (Z.of_nat (size (jb_frames s)) = Z.of_nat (size (delete oldest (jb_frames s))) + 1).
      { rewrite map_size_delete_Some by (by eexists). lia. }
      apply Hgo; [|lia|].
      * intros i. destruct (decide (i = oldest)) as [->|Hne].
        -- right. by rewrite lookup_delete_eq.
        -- left. by rewrite lookup_delete_ne.
      * rewrite Hst, (Z.add_comm _ (wrap64 _)), <- (Z.add_assoc (wrap64 _)), wrap64_succ_l.
        f_equal. lia.
    + apply map_begin_None in Eb. rewrite Eb, map_size_empty in E5. lia.
  - cbn [snd]. apply Hgo; [by left|lia|done].
Qed.

Lemma jitter_pop_inv s pushed now popped s' :
  jitter_inv s pushed -> jitter_pop_ready s now = (popped, s') ->
  jitter_inv s' pushed /\
  match popped with
  | None => s' = s
  | Some frame =>
      jb_last_released_frame_id s' = Some (FrameReassembler.cf_frame_id frame) /\
      is_Some (jb_frames s !! FrameReassembler.cf_frame_id frame) /\
      (exists arrival, (frame, arrival) ∈ pushed /\
         arrival + ms (target_delay (jb_config s)) <= now)
  end.
Proof.
  intros [Hc Hsz Hf Hst]. unfold jitter_pop_ready.
  destruct (map_begin (jb_frames s)) as [[oldest b]|] eqn:Eb; [|by intros [= <- <-]].
  destruct (bf_ready_at b >? now) eqn:Eready; [by intros [= <- <-]|]. bool_to_prop.
  destruct (map_begin_Some _ _ _ Eb) as [Hl Hmin].
  pose proof (Hf _ _ Hl) as (Hid & Hstream & (arrival & Hin & Hat) & Hlast).
  intros [= <- <-]. split.
  - assert (Z.of_nat (size (jb_frames s)) = Z.of_nat (size (delete oldest (jb_frames s))) + 1).
    { rewrite map_size_delete_Some by (by eexists).
      assert (size (jb_frames s) <> 0)%nat; [|lia].
      intros Hz%map_size_empty_inv. rewrite Hz in Hl. by rewrite lookup_empty in Hl. }
    unfold jitter_size in *. constructor; unfold jitter_size; cbn; [done|lia| |].
    + intros i b' [Hne Hi]%lookup_delete_Some.
      destruct (Hf _ _ Hi) as (H1 & H2 & H3 & H4). split_and!; try done.
      intros last [= <-]. specialize (Hmin _ _ Hi). rewrite <- Hid. lia.
    + rewrite Hst, <- (Z.add_assoc (wrap64 _)), wrap64_succ_l. f_equal. lia.
  - rewrite <- Hid. split_and!; [done| |by exists arrival; split; [done|lia]].
    by rewrite Hl.
Qed.

Lemma jitter_run_ordered s pushed ops :
  jitter_inv s pushed -> (forall p, p ∈ arrivals_of ops -> p ∈ pushed) ->
  let '(released, final) := jitter_run s ops in
  jitter_inv final pushed /\ StronglySorted Z.lt (frame_ids released) /\
  Forall (fun id => forall last, jb_last_released_frame_id s = Some last -> last < id)
    (frame_ids released) /\
  Forall (fun r => exists arrival, (r.1, arrival) ∈ pushed /\
    arrival + ms (target_delay (jb_config s)) <= r.2) released.
Proof.
  revert s. induction ops as [|[frame arrival|now] ops IH]; intros s Hinv Hsub.
  - cbn. split_and!; [done|constructor..].
  - cbn [jitter_run]. assert (jitter_inv (snd (jitter_push s frame arrival)) pushed) as Hinv'.
    { apply jitter_push_inv; [done|]. apply Hsub. cbn. by left. }
    specialize (IH _ Hinv' ltac:(intros p Hp; apply Hsub; cbn; by right)).
    assert (jb_last_released_frame_id (snd (jitter_push s frame arrival)) =
            jb_last_released_frame_id s /\
            jb_config (snd (jitter_push s frame arrival)) = jb_config s) as [El Ec].
    { unfold jitter_push. repeat (case_match; try done). }
    by rewrite El, Ec in IH.
  - cbn [jitter_run]. destruct (jitter_pop_ready s now) as [popped s'] eqn:Ep.
    destruct (jitter_pop_inv _ _ _ _ _ Hinv Ep) as [Hinv' Hpop].
    specialize (IH _ Hinv' Hsub). destruct (jitter_run s' ops) as [released final].
    destruct popped as [frame|]; [|by subst s'].
    destruct Hpop as (Elast & (b & Elook) & Hready). destruct IH as (IHf & IHs & IHl & IHr).
    assert (jb_config s' = jb_config s) as Ec.
    { unfold jitter_pop_ready in Ep. repeat case_match; by simplify_eq/=. }
    destruct (ji_frame _ _ Hinv _ _ Elook) as (_ & _ & _ & Hafter).
    rewrite Elast in IHl. rewrite Ec in IHr.
    assert (Forall (Z.lt (FrameReassembler.cf_frame_id frame)) (frame_ids released)) as Hlt
      by (eapply Forall_impl; [exact IHl|]; intros id H; by apply H).
    split_and!; [done|by constructor| |by constructor].
    constructor; [done|]. eapply Forall_impl; [exact Hlt|].
    cbn. intros id Hid last Hlast. specialize (Hafter _ Hlast). lia.
Qed.

Lemma jitter_run_config s ops : jb_config (snd (jitter_run s ops)) = jb_config s.
Proof.
  revert s. induction ops as [|[frame arrival|now] ops IH]; intros s; cbn [jitter_run]; [done|..].
  - rewrite IH. unfold jitter_push. by repeat case_match.
  - destruct (jitter_pop_ready s now) as [popped s'] eqn:E. specialize (IH s').
    destruct (jitter_run s' ops). cbn in *. rewrite IH.
    unfold jitter_pop_ready in E. repeat case_match; by simplify_eq/=.
Qed.

Lemma jitter_initial config stream_id pushed :
  jitter_inv (jitter_reset (jitter_create config) stream_id) pushed.
Proof.
  constructor; cbn; [unfold FrameReassembler.clamp; lia| |done|done].
  unfold jitter_size. cbn. rewrite map_size_empty. unfold FrameReassembler.clamp. lia.
Qed.

(** ** NACK requests over a run *)

Inductive NackOp : Type :=
  | NackConsider (frame_id : Z) (missing : list Z) (first_fragment_time frame_deadline now : Z)
  | NackComplete (frame_id : Z)
  | NackExpire (now : Z).

(** The requests of a run, each with the time it was made. *)
Fixpoint nack_run (s : NackPolicy) (ops : list NackOp) : list (VideoNack * Z) :=
  match ops with
  | [] => []
  | NackConsider frame_id missing first deadline now :: rest =>
      let '(request, s') := consider s frame_id missing first deadline now in
      match request with
      | Some nack => (nack, now) :: nack_run s' rest
      | None => nack_run s' rest
      end
  | NackComplete frame_id :: rest => nack_run (nack_complete s frame_id) rest
  | NackExpire now :: rest => nack_run (snd (nack_expire s now)) rest
  end.

Definition requests_for (frame_id : Z) (log : list (VideoNack * Z)) : list (VideoNack * Z) :=
  filter (fun r => vn_frame_id r.1 = frame_id) log.

(** Each request is made at [next] or later, [interval] after the one before. *)
Fixpoint spaced (interval next : Z) (times : list Z) : Prop :=
  match times with
  | [] => True
  | t :: rest => next <= t /\ spaced interval (t + interval) rest
  end.

Definition nack_op_time (op : NackOp) : option Z :=
  match op with
  | NackConsider _ _ _ _ now => Some now
  | NackComplete _ => None
  | NackExpire now => Some now
  end.

(** Every timed operation of [ops] happens at [now] or later. *)
Definition not_before (now : Z) (ops : list NackOp) : Prop :=
  Forall (fun op => forall t, nack_op_time op = Some t -> now <= t) ops.

(** The operations come in the order of their times. *)
Fixpoint in_time_order (ops : list NackOp) : Prop :=
  match ops with
  | [] => True
  | op :: rest => (forall t, nack_op_time op = Some t -> not_before t rest) /\ in_time_order rest
  end.

(** The operations on frame [f] agree on its first fragment and deadline, and
    none completes it. *)
Definition same_frame (f first deadline : Z) (op : NackOp) : Prop :=
  match op with
  | NackConsider id _ fst dl _ => id = f -> fst = first /\ dl = deadline
  | NackComplete id => id <> f
  | NackExpire _ => True
  end.

(** What the requests for frame [f] look like from [attempts] attempts on. *)
Definition requests_ok (config : NackPolicyConfig) (stream f deadline attempts next : Z)
    (log : list (VideoNack * Z)) : Prop :=
  map (fun r => vn_attempt r.1) log = seqZ (attempts + 1) (len log) /\
  (attempts <= maximum_attempts config -> attempts + len log <= maximum_attempts config) /\
  spaced (ms (retry_interval config)) next (map snd log) /\
  Forall (fun r => r.2 < deadline /\ vn_stream_id r.1 = stream /\
    0 < len (vn_missing_fragments r.1) <= maximum_fragments_per_request config) log.

Lemma requests_ok_nil config stream f deadline attempts next :
  requests_ok config stream f deadline attempts next [].
Proof. by split_and!; [|unfold len; cbn; lia| |constructor]. Qed.

Lemma requests_ok_cons config stream f deadline attempts next nack now log :
  attempts < maximum_attempts config -> next <= now -> now < deadline ->
  vn_stream_id nack = stream -> vn_attempt nack = attempts + 1 ->
  0 < len (vn_missing_fragments nack) <= maximum_fragments_per_request config ->
  requests_ok config stream f deadline (attempts + 1) (now + ms (retry_interval config)) log ->
  requests_ok config stream f deadline attempts next ((nack, now) :: log).
Proof.
  intros Ha Hn Hd Hs Hk Hm (H1 & H2 & H3 & H4). unfold requests_ok. rewrite len_cons.
  split_and!; cbn; [|lia|done|by constructor].
  rewrite seqZ_cons by (pose proof (len_nonneg log); lia). rewrite Hk, H1. f_equal.
  f_equal; lia.
Qed.

(** What is remembered of frame [f], given that its earliest request is at
    [earliest], bounds the requests made for it from here on. *)
Definition requests_from (s : NackPolicy) (f deadline earliest : Z)
    (log : list (VideoNack * Z)) : Prop :=
  match np_states s !! f with
  | Some st => requests_ok (np_config s) (np_stream_id s) f deadline (ns_attempts st)
                 (ns_next_request st) log
  | None => requests_ok (np_config s) (np_stream_id s) f deadline 0 earliest log
  end.

Lemma requests_from_other s states f deadline earliest log :
  states !! f = np_states s !! f ->
  requests_from (set_states s states) f deadline earliest log <->
  requests_from s f deadline earliest log.
Proof. intros H. unfold requests_from. cbn. by rewrite H. Qed.

Lemma consider_expired ops : forall s f first deadline,
  not_before deadline ops -> Forall (same_frame f first deadline) ops ->
  requests_for f (nack_run s ops) = [].
Proof.
  induction ops as [|[id missing fst dl now|id|now] ops IH]; intros s f first deadline Hnb Hsame;
    [done| |by inversion Hnb; inversion Hsame; subst; eapply IH..].
  inversion Hnb as [|? ? Hnow Hnb']; subst. inversion Hsame as [|? ? Hop Hsame']; subst.
  specialize (Hnow _ eq_refl). cbn in Hop. cbn [nack_run].
  destruct (consider s id missing fst dl now) as [[nack|] s'] eqn:Ec; [|by eapply IH].
  unfold requests_for. rewrite filter_cons_False; [by eapply IH|]. cbn. intros Hid.
  assert (id = f) as ->.
  { unfold consider in Ec. repeat case_match; simplify_eq/=; done. }
  destruct Hop as [-> ->]; [done|]. revert Ec. unfold consider.
  destruct (negb _ || _ || _) eqn:E; [done|]. bool_to_prop. lia.
Qed.

(** What one call to [consider] may change and what it asks for. *)
Lemma consider_frame s id missing first deadline now request s' :
  consider s id missing first deadline now = (request, s') ->
  np_config s' = np_config s /\ np_stream_id s' = np_stream_id s /\
  (forall f, f <> id -> np_states s' !! f = np_states s !! f) /\
  (forall nack, request = Some nack -> vn_frame_id nack = id) /\
  ((forall st, np_states s !! id = Some st -> ns_deadline st = deadline) ->
   forall st, np_states s' !! id = Some st -> ns_deadline st = deadline).
Proof.
  unfold consider. intros Ec. destruct (np_states s !! id) as [st0|] eqn:E0;
    repeat (case_match); simplify_eq/=; split_and!; try done;
    try (intros f Hf; by rewrite lookup_insert_ne by done);
    try (intros nack [= <-]; done); rewrite ?lookup_insert_eq; intros Hst st Heq; simplify_eq/=; eauto.
Qed.

(** One call to [consider] for frame [f] itself. *)
Lemma consider_requests s f missing first deadline now log request s' :
  consider s f missing first deadline now = (request, s') ->
  (forall st, np_states s !! f = Some st -> ns_deadline st = deadline) ->
  1 <= maximum_fragments_per_request (np_config s) ->
  requests_from s' f deadline (first + ms (initial_delay (np_config s))) log ->
  requests_from s f deadline (first + ms (initial_delay (np_config s)))
    (match request with Some nack => (nack, now) :: log | None => log end).
Proof.
  intros Ec Hdl Hmax. unfold consider in Ec.
  destruct (negb _ || _ || _) eqn:E1; [by injection Ec as <- <-|]. bool_to_prop.
  set (st := default _ _) in Ec.
  assert (ns_deadline st = deadline) as Hd.
  { unfold st. destruct (np_states s !! f) as [st0|] eqn:E0; cbn; [by apply Hdl|done]. }
  assert (requests_from s f deadline (first + ms (initial_delay (np_config s))) = fun log =>
    requests_ok (np_config s) (np_stream_id s) f deadline (ns_attempts st) (ns_next_request st) log)
    as ->.
  { unfold requests_from, st. by destruct (np_states s !! f). }
  destruct (bool_decide _ && _) eqn:E2; [|destruct (_ || _ || _) eqn:E3];
    cbn zeta in Ec; apply pair_equal_spec in Ec as [<- <-];
    unfold requests_from; cbn [set_states np_states np_config np_stream_id];
    rewrite (lookup_insert_eq (np_states s)); cbn [ns_attempts ns_next_request]; [|done|].
  - intros (_ & Hcount & _). specialize (Hcount ltac:(lia)).
    destruct log; [apply requests_ok_nil|]. rewrite len_cons in Hcount.
    pose proof (len_nonneg log). lia.
  - bool_to_prop. intros Hlog. apply requests_ok_cons; cbn; try done; try lia.
    unfold len in *. rewrite length_take. lia.
Qed.

Lemma nack_run_requests ops : forall s f first deadline,
  in_time_order ops -> Forall (same_frame f first deadline) ops ->
  (forall st, np_states s !! f = Some st -> ns_deadline st = deadline) ->
  1 <= maximum_fragments_per_request (np_config s) ->
  requests_from s f deadline (first + ms (initial_delay (np_config s)))
    (requests_for f (nack_run s ops)).
Proof.
  induction ops as [|[id missing fst dl now|id|now] ops IH];
    intros s f first deadline Hord Hsame Hdl Hmax;
    [|destruct Hord as [Hnb Hord]..].
  - unfold requests_from, requests_for. cbn. case_match; apply requests_ok_nil.
  - inversion Hsame as [|? ? Hop Hsame']; subst. cbn in Hop. cbn [nack_run].
    destruct (consider s id missing fst dl now) as [request s'] eqn:Ec.
    pose proof (consider_frame _ _ _ _ _ _ _ _ Ec) as (Hcfg & Hst & Hother & Hid & Hown).
    specialize (IH s' f first deadline Hord Hsame').
    destruct (decide (id = f)) as [->|Hne].
    + destruct Hop as [-> ->]; [done|]. unfold requests_for in *.
      pose proof (consider_requests _ _ _ _ _ _ (requests_for f (nack_run s' ops)) _ _ Ec Hdl Hmax)
        as Hstep. rewrite Hcfg in IH.
      destruct request as [nack|]; [rewrite filter_cons_True by (by apply Hid)|];
        apply Hstep, IH; done || (intros st Hs; eauto).
    + assert (requests_for f (match request with Some nack => (nack, now) :: nack_run s' ops
        | None => nack_run s' ops end) = requests_for f (nack_run s' ops)) as Hf.
      { destruct request as [nack|]; [|done]. unfold requests_for.
        rewrite filter_cons_False; [done|]. cbn. by rewrite Hid. }
      destruct request; try rewrite Hf; unfold requests_from in *;
        rewrite Hcfg, Hst, (Hother f) in IH by done; by apply IH.
  - inversion Hsame as [|? ? Hop Hsame']; subst. cbn in Hop. cbn [nack_run].
    unfold nack_complete. rewrite <- (requests_from_other s (delete id (np_states s)))
      by (by apply lookup_delete_ne).
    apply (IH (set_states s (delete id (np_states s)))); try done. cbn.
    intros st [_ Hst]%lookup_delete_Some. by apply Hdl.
  - inversion Hsame as [|? ? _ Hsame']; subst. cbn [nack_run nack_expire snd].
    set (kept := filter _ _).
    destruct (np_states s !! f) as [st|] eqn:Est;
      [destruct (ns_deadline st <=? now) eqn:Edl; bool_to_prop|].
    + rewrite (consider_expired ops _ f first deadline); [|..|done].
      * unfold requests_from. case_match; apply requests_ok_nil.
      * specialize (Hnb _ eq_refl). eapply Forall_impl; [exact Hnb|].
        cbn. intros op H t Ht. specialize (H _ Ht). rewrite (Hdl _ eq_refl) in Edl. lia.
    + assert (kept !! f = Some st) as Hk.
      { apply map_lookup_filter_Some. split; [done|]. cbn. lia. }
      rewrite <- (requests_from_other s kept) by congruence.
      apply (IH (set_states s kept)); try done. cbn. intros st' Hst'. apply Hdl. congruence.
    + assert (kept !! f = None) as Hk by (apply map_lookup_filter_None; by left).
      rewrite <- (requests_from_other s kept) by congruence.
      apply (IH (set_states s kept)); try done. cbn. congruence.
Qed.

(** ** Keyframes over a run *)

Inductive SchedulerOp : Type :=
  | Loss (loss_per_mille : Z)
  | NackExhausted
  | DecoderRecovery
  | Poll (now : Z).

(** A poll emits a keyframe when one is due and marks it emitted. *)
Definition scheduler_step (s : KeyframeScheduler) (op : SchedulerOp)
    : option (Z * KeyframeReason) * KeyframeScheduler :=
  match op with
  | Loss loss => (None, observe_loss s loss)
  | NackExhausted => (None, notify_nack_exhausted s)
  | DecoderRecovery => (None, notify_decoder_recovery s)
  | Poll now =>
      match due s now with
      | Some reason => (Some (now, reason), mark_emitted s now)
      | None => (None, s)
      end
  end.

Fixpoint scheduler_run (s : KeyframeScheduler) (ops : list SchedulerOp)
    : list (Z * KeyframeReason) * KeyframeScheduler :=
  match ops with
  | [] => ([], s)
  | op :: rest =>
      let '(emitted, s') := scheduler_step s op in
      let '(log, final) := scheduler_run s' rest in
      (match emitted with Some e => e :: log | None => log end, final)
  end.

(** The operations that ask for a keyframe under [config]. *)
Definition asks (config : KeyframeScheduleConfig) (op : SchedulerOp) : bool :=
  match op with
  | Loss loss => loss >=? loss_threshold_per_mille config
  | NackExhausted | DecoderRecovery => true
  | Poll _ => false
  end.

Definition requested (config : KeyframeScheduleConfig) (ops : list SchedulerOp) : bool :=
  existsb (asks config) ops.

Lemma scheduler_step_config s op :
  ks_config (snd (scheduler_step s op)) = ks_config s /\
  ks_initialized (snd (scheduler_step s op)) = ks_initialized s.
Proof.
  destruct op; cbn; unfold observe_loss; repeat case_match; done.
Qed.

Lemma scheduler_run_config s ops :
  ks_config (snd (scheduler_run s ops)) = ks_config s /\
  ks_initialized (snd (scheduler_run s ops)) = ks_initialized s.
Proof.
  revert s. induction ops as [|op ops IH]; intros s; [done|]. cbn [scheduler_run].
  pose proof (scheduler_step_config s op) as [E1 E2].
  destruct (scheduler_step s op) as [emitted s']. specialize (IH s').
  destruct (scheduler_run s' ops). cbn in *. by rewrite <- E1, <- E2.
Qed.

(** Emissions are at least the minimum interval apart. *)
Lemma scheduler_run_spaced s ops :
  spaced (ms (minimum_interval (ks_config s)))
    (ks_last_keyframe s + ms (minimum_interval (ks_config s)))
    (map fst (fst (scheduler_run s ops))).
Proof.
  revert s. induction ops as [|op ops IH]; intros s; [done|]. cbn [scheduler_run].
  pose proof (scheduler_step_config s op) as [E1 _].
  destruct (scheduler_step s op) as [emitted s'] eqn:Es. specialize (IH s').
  destruct (scheduler_run s' ops) as [log final]. cbn [fst snd] in *. rewrite E1 in IH.
  destruct op; cbn in Es; simplify_eq/=; try done.
  - unfold observe_loss in IH. by destruct (_ >=? _).
  - destruct (due s now) as [reason|] eqn:Ed; simplify_eq/=; [|done].
    split; [|done]. unfold due in Ed. destruct (negb _ || _) eqn:E; [done|]. bool_to_prop. lia.
Qed.

(** Without an emission a request stays pending. *)
Lemma scheduler_run_pending s ops :
  fst (scheduler_run s ops) = [] ->
  ks_last_keyframe (snd (scheduler_run s ops)) = ks_last_keyframe s /\
  (is_Some (ks_pending_reason (snd (scheduler_run s ops))) <->
   is_Some (ks_pending_reason s) \/ requested (ks_config s) ops = true).
Proof.
  revert s. induction ops as [|op ops IH]; intros s; cbn [scheduler_run].
  { cbn. intros _. split; [done|]. split; [by left|by intros [|]]. }
  pose proof (scheduler_step_config s op) as [E1 _].
  destruct (scheduler_step s op) as [emitted s'] eqn:Es. specialize (IH s').
  destruct (scheduler_run s' ops) as [log final]. cbn [fst snd] in *. rewrite E1 in IH.
  destruct emitted; [done|]. intros Hlog. destruct (IH Hlog) as [-> ->].
  unfold requested. cbn [existsb]. rewrite orb_true_iff.
  destruct op; cbn in Es; unfold observe_loss, asks in *; repeat case_match; simplify_eq/=;
    (split; [done|]); split; intros; destruct_or?; try done; eauto.
Qed.

(** ** The NACK message codec *)

Definition wf_video_nack (n : VideoNack) : Prop :=
  u32 (vn_stream_id n) /\ vn_stream_id n <> 0 /\ u64 (vn_frame_id n) /\
  u8 (vn_attempt n) /\ vn_attempt n <> 0 /\
  0 < len (vn_missing_fragments n) <= 1024 /\ Forall u16 (vn_missing_fragments n).

Lemma len_concat_u16 l : len (concat (map (write_le 2) l)) = 2 * len l.
Proof.
  induction l as [|x l IH]; [done|]. cbn [map concat]. autorewrite with wire. rewrite IH. lia.
Qed.

#[export] Program Instance video_nack_codec : Codec VideoNack := {|
  encode := encode_video_nack; decode := decode_video_nack; valid := wf_video_nack |}.
Next Obligation.
  intros n (H1 & H2 & H3 & H4 & H5 & H6 & H7). unfold encode_video_nack.
  destruct (_ || _ || _ || _) eqn:E; [lia|]. clear E.
  unfold decode_video_nack, run_reader.
  assert (urange 2 (len (vn_missing_fragments n))) as H8 by ulia.
  reader_run. rewrite rbind_guard by (rewrite len_concat_u16; lia).
  unfold rbind at 1. rewrite <- (app_nil_r (concat _)). unfold len. rewrite Nat2Z.id.
  rewrite read_many_concat; [by destruct n|].
  intros a r Ha. rewrite Forall_forall in H7. apply read_le_write. by apply H7.
Qed.
Next Obligation.
  intros w n H. unfold decode_video_nack in H. reader_inv.
  match goal with H : read_many _ _ _ = _ |- _ =>
    apply (read_many_inv _ (write_le 2) u16) in H as (Hall & -> & Hlen);
    [|by intros i a r [-> Ha]%read_le_inv] end.
  bool_to_prop. autorewrite with wire in *. rewrite len_concat_u16 in *.
  match goal with H : length ?l = Z.to_nat ?c |- _ =>
    assert (len l = c) as Hc by (unfold len; ulia) end.
  match goal with H : 2 * len ?l + len ?r = _ |- _ =>
    assert (r = []) as -> by (apply len_zero; lia) end.
  split; [fields|]. unfold encode_video_nack. cbn.
  destruct (_ || _ || _ || _) eqn:E; [lia|]. by rewrite Hc, app_nil_r.
Qed.

(** The datagrams of one access unit, as the reassembler takes them: the headers of
    one frame, whose fragments make up the unit and decode on the wire. *)
Lemma packetized_frame (bcrypt_hmac : bytes -> bytes -> option bytes)
    (Hdigest : forall k m d, bcrypt_hmac k m = Some d -> length d = 32%nat)
    (s s' : VideoPacketizer) (unit key : bytes) (ct : Z) (kf : bool) (ds : list VideoDatagram)
    (limits : FrameReassembler.ReassemblyLimits) :
  typed_packetizer s -> u64 ct -> packetize bcrypt_hmac s unit ct kf key = Ok (ds, s') ->
  maximum_datagram_bytes (pk_config s) - overhead <= FrameReassembler.max_fragment_payload limits ->
  exists d0,
    let header i := vd_header (nth i ds d0) in
    let fragment i := vd_payload (nth i ds d0) in
    (0 < length ds)%nat /\ Z.of_nat (length ds) <= maximum_fragments (pk_config s) /\
    FrameReassembler.frame_headers (pk_next_frame_id s) (pk_stream_id s) ct kf (length ds)
      header fragment limits /\
    concat (map fragment (seq 0 (length ds))) = unit /\
    forall i, (i < length ds)%nat ->
      decode_video_datagram bcrypt_hmac (datagram_wire (nth i ds d0)) key =
        Ok (mkDatagram (header i) (vd_tag (nth i ds d0)) (fragment i)).
Proof.
  intros Hs Hct Hpack Hmp. pose proof Hs as (_ & _ & _ & Hdg & Hfrag). change overhead with 60 in Hmp.
  destruct (packetize_inv _ _ _ _ _ _ _ _ Hpack) as
    (n & Hn & Hn0 & Hnf & _ & Hseq & [Hlo Hhi] & _ & Hds); [lia|].
  set (limit := Z.to_nat (maximum_datagram_bytes (pk_config s) - 60)) in *.
  assert (Z.of_nat limit = maximum_datagram_bytes (pk_config s) - 60) as Hlimit
    by (unfold limit; lia).
  rewrite <- Hlimit in *. destruct ds as [|d0 ds0] eqn:Eds; [cbn in Hn; lia|]. rewrite <- Eds in *.
  exists d0. intros header fragment. rewrite Hn.
  assert (forall i, (i < n)%nat -> datagram_at bcrypt_hmac s ct kf key limit (Z.of_nat n) 0 unit i
    (nth i ds d0)) as Hat.
  { intros i Hi. apply Hds. rewrite nth_lookup. rewrite <- Hn in Hi.
    by destruct (lookup_lt_is_Some_2 _ _ Hi) as [d ->]. }
  assert (forall i, (i < n)%nat -> 0 < len (chunk limit unit i) <= Z.of_nat limit) as Hchunk.
  { intros i Hi. rewrite len_chunk. nia. }
  split_and!; [done|done| | |].
  - intros i Hi. pose proof (Hchunk i Hi) as Hb.
    destruct (datagram_at_header bcrypt_hmac s ct kf key limit n unit i _ Hs Hct Hi Hnf Hseq
      ltac:(lia) (Hat i Hi)) as (H1 & H2 & H3 & H4 & H5 & H6 & H7 & H8 & H9 & H10).
    destruct (Hat i Hi) as (Hp & _). unfold header, fragment. rewrite Hp in *.
    split_and!; (done || lia).
  - assert (map fragment (seq 0 n) = map (chunk limit unit) (seq 0 n)) as ->.
    { apply map_ext_in. intros i [_ Hi]%list_elem_of_In%elem_of_seq. by apply (Hat i Hi). }
    rewrite concat_chunks. apply take_ge. unfold len in Hhi. lia.
  - intros i Hi.
    rewrite (wire_decodes bcrypt_hmac Hdigest s ct kf key limit n unit i _ Hs Hct Hi Hnf Hseq
      ltac:(lia) ltac:(by apply Hchunk) (Hat _ Hi)).
    unfold header, fragment. by destruct (nth i ds d0).
Qed.

(** ** Properties *)

(** C29. End to end: the datagrams [packetize] makes of an access unit, sent over
    the wire, decoded and authenticated with the same key and pushed in any
    order before the frame's deadline, give the reassembler that very access
    unit with its frame id, capture time and keyframe flag, exactly when the
    last one arrives; provided the reassembler follows the stream, has not seen
    the frame and has room for it. *)
Theorem video_frame_delivered (bcrypt_hmac : bytes -> bytes -> option bytes)
    (s s' : VideoPacketizer) (unit key : bytes) (ct : Z) (kf : bool) (ds : list VideoDatagram)
    (r : FrameReassembler.FrameReassembler) (pushed : list (VideoPacketHeader * bytes))
    (first_wire : bytes) (t0 : Z) (rest : list (bytes * Z)) :
  (forall k m d, bcrypt_hmac k m = Some d -> length d = 32%nat) ->
  typed_packetizer s -> u64 ct -> packetize bcrypt_hmac s unit ct kf key = Ok (ds, s') ->
  FrameReassembler.inv r pushed ->
  FrameReassembler.stream_set_ r = true ->
  FrameReassembler.stream_id_ r = pk_stream_id s ->
  pk_next_frame_id s ∉ FrameReassembler.completed_recent_ r ->
  FrameReassembler.frames_ r !! pk_next_frame_id s = None ->
  FrameReassembler.frames_in_flight r <
    FrameReassembler.max_frames_in_flight (FrameReassembler.limits_ r) ->
  maximum_fragments (pk_config s) <=
    FrameReassembler.max_fragments_per_frame (FrameReassembler.limits_ r) ->
  maximum_datagram_bytes (pk_config s) - overhead <=
    FrameReassembler.max_fragment_payload (FrameReassembler.limits_ r) ->
  len unit <= FrameReassembler.max_frame_bytes (FrameReassembler.limits_ r) ->
  FrameReassembler.fs_buffered_bytes (FrameReassembler.stats_ r) + len unit <=
    FrameReassembler.max_total_buffered_bytes (FrameReassembler.limits_ r) ->
  let arrivals := (first_wire, t0) :: rest in
  map fst arrivals ≡ₚ map datagram_wire ds ->
  Forall (fun a => a.2 < t0 + ms (FrameReassembler.frame_deadline (FrameReassembler.limits_ r)))
    arrivals ->
  receive_all bcrypt_hmac r key arrivals =
    replicate (length ds - 1)
      (FrameReassembler.mkResult FrameReassembler.fd_accepted None) ++
    [FrameReassembler.mkResult FrameReassembler.fd_frame_complete
       (Some (FrameReassembler.mkCompletedFrame (pk_stream_id s) (pk_next_frame_id s) ct kf unit))].
Proof.
  intros Hdigest Hs Hct Hpack Hinv Hset Hst Hrec Hfr Hroom Hmf Hmp Hmb Htb arrivals Hperm Htimes.
  destruct (packetized_frame bcrypt_hmac Hdigest s s' unit key ct kf ds _ Hs Hct Hpack Hmp)
    as (d0 & Hn0 & Hnf & Hheaders & Hunit & Hdec).
  destruct (arrivals_indexed ds d0 arrivals Hperm) as (order & Horder & Harr & Hlen).
  set (header := fun i => vd_header (nth i ds d0)) in *.
  set (fragment := fun i => vd_payload (nth i ds d0)) in *.
  assert (map fst (zip order (map snd arrivals)) = order) as Hzip
    by (apply fst_zip; rewrite length_map; lia).
  assert (length (zip order (map snd arrivals)) = length ds) as Hzl.
  { by rewrite <- (length_map fst), Hzip, Horder, length_seq. }
  assert (FrameReassembler.total_bytes (length ds) fragment = len unit) as Htotal.
  { unfold FrameReassembler.total_bytes. by rewrite <- (map_map fragment len), <- len_concat, Hunit. }
  rewrite Harr, (receive_all_push_all bcrypt_hmac Hdigest r key header fragment
    (fun i => datagram_wire (nth i ds d0)) (fun i => vd_tag (nth i ds d0))).
  2: { intros i Hi. rewrite Hzip, Horder in Hi. apply elem_of_seq in Hi as [_ Hi]. by apply Hdec. }
  rewrite (FrameReassembler.push_all_receiving (pk_next_frame_id s) (pk_stream_id s) ct kf (length ds)
    header fragment r (pushed ++ map (fun i => (header i, fragment i)) (seq 0 (length ds)))
    (FrameReassembler.fs_buffered_bytes (FrameReassembler.stats_ r)) []
    (t0 + ms (FrameReassembler.frame_deadline (FrameReassembler.limits_ r)))); rewrite ?Htotal; try done.
  - unfold FrameReassembler.whole_frame. by rewrite Hzl, Hunit.
  - constructor; try done; [|cbn; lia]. eapply FrameReassembler.inv_mono; [|exact Hinv]. set_solver.
  - lia.
  - intros i Hi. apply elem_of_app. right.
    apply (list_elem_of_fmap_2 (fun i => (header i, fragment i))). apply elem_of_seq. lia.
  - by rewrite app_nil_r, Hzip.
  - destruct order as [|i0 order']; [by cbn in Hlen|].
    cbn. exists i0, t0, (zip order' (map snd rest)). done.
  - rewrite Harr in Htimes. by rewrite Forall_map in Htimes.
Qed.

(** A 32-byte digest that depends on nothing, to instantiate the primitive. *)
Definition sample_hmac (key message : bytes) : option bytes :=
  Some (replicate 32 (byte_of (len message))).

Definition sample_key : bytes := replicate 32 (byte_of 7).

Definition sample_packetizer : VideoPacketizer :=
  packetizer_reset (packetizer_create (mkPacketizerConfig 62 16)) 5 100 7.

Definition sample_reassembler : FrameReassembler.FrameReassembler :=
  FrameReassembler.reset (FrameReassembler.create FrameReassembler.default_limits) 5.

Definition sample_datagrams : list VideoDatagram :=
  match packetize sample_hmac sample_packetizer (text "abc") 42 true sample_key with
  | Ok (ds, _) => ds
  | Err _ => []
  end.

Definition sample_wires : list bytes := map datagram_wire sample_datagrams.

Lemma video_frame_delivered_witness :
  receive_all sample_hmac sample_reassembler sample_key
    [(nth 1 sample_wires [], 10); (nth 0 sample_wires [], 20)] =
  [FrameReassembler.mkResult FrameReassembler.fd_accepted None;
   FrameReassembler.mkResult FrameReassembler.fd_frame_complete
     (Some (FrameReassembler.mkCompletedFrame 5 7 42 true (text "abc")))].
Proof.
  refine (video_frame_delivered sample_hmac sample_packetizer
    (mkPacketizer (pk_config sample_packetizer) 5 102 8 true) (text "abc") sample_key 42 true
    sample_datagrams sample_reassembler [] (nth 1 sample_wires []) 10
    [(nth 0 sample_wires [], 20)] _ _ _ _ _ _ _ _ _ _ _ _ _ _ _ _).
  - intros k m d [= <-]. reflexivity.
  - unfold typed_packetizer, urange. vm_compute. repeat split; discriminate.
  - ulia.
  - vm_compute. reflexivity.
  - apply FrameReassembler.reset_inv, FrameReassembler.create_inv. by vm_compute.
  - reflexivity.
  - reflexivity.
  - apply not_elem_of_empty.
  - reflexivity.
  - vm_compute. reflexivity.
  - vm_compute. discriminate.
  - vm_compute. discriminate.
  - vm_compute. discriminate.
  - vm_compute. discriminate.
  - apply perm_swap.
  - repeat constructor; vm_compute; reflexivity.
Defined.

(** The jitter buffer plays a stream in order: over any run of pushes and
    pops the released frames have strictly increasing frame ids, each was
    pushed and is released no earlier than its arrival plus the target delay;
    the buffer never holds more than its maximum; and every accepted frame is
    released, dropped for room or still buffered (counters modulo 2^64). *)
Theorem jitter_releases_in_order (config : JitterBufferConfig) (stream_id : Z)
    (ops : list JitterOp) :
  let '(released, final) := jitter_run (jitter_reset (jitter_create config) stream_id) ops in
  StronglySorted Z.lt (frame_ids released) /\
  Forall (fun r => exists arrival, (r.1, arrival) ∈ arrivals_of ops /\
    arrival + ms (FrameReassembler.clamp (target_delay config) 1 1000) <= r.2) released /\
  jitter_size final <= FrameReassembler.clamp (maximum_frames config) 2 256 /\
  js_accepted (jb_stats final) =
    wrap64 (js_released (jb_stats final) + js_resource_dropped (jb_stats final) +
            jitter_size final).
Proof.
  pose proof (jitter_run_ordered (jitter_reset (jitter_create config) stream_id)
    (arrivals_of ops) ops (jitter_initial config stream_id _) ltac:(done)) as H.
  assert (jb_config (snd (jitter_run (jitter_reset (jitter_create config) stream_id) ops)) =
    jb_config (jitter_create config)) as Ec by (by rewrite jitter_run_config).
  destruct (jitter_run _ ops) as [released final].
  destruct H as ([_ Hsz _ Hst] & Hs & _ & Hr). cbn in Ec. rewrite Ec in Hsz. done.
Qed.

(** Retransmission requests are bounded: in any time-ordered run that agrees
    on a frame's first-fragment time and deadline, the requests for the frame
    carry attempts 1, 2, 3, ..., at most the (clamped) maximum; the first comes
    at least the initial delay after the first fragment, each later one at least
    the retry interval after the one before, all before the deadline; and each
    names between one and the configured maximum of missing fragments. *)
Theorem nack_requests_bounded (config : NackPolicyConfig) (stream_id f first deadline : Z)
    (ops : list NackOp) :
  in_time_order ops -> Forall (same_frame f first deadline) ops ->
  let clamped := np_config (nack_create config) in
  let log := requests_for f (nack_run (nack_reset (nack_create config) stream_id) ops) in
  map (fun r => vn_attempt r.1) log = seqZ 1 (len log) /\
  len log <= maximum_attempts clamped <= 8 /\
  spaced (ms (retry_interval clamped)) (first + ms (initial_delay clamped)) (map snd log) /\
  Forall (fun r => r.2 < deadline /\ vn_stream_id r.1 = stream_id /\
    0 < len (vn_missing_fragments r.1) <= maximum_fragments_per_request clamped) log.
Proof.
  intros Hord Hsame clamped log.
  destruct (nack_run_requests ops (nack_reset (nack_create config) stream_id) f first deadline)
    as (H1 & H2 & H3 & H4); try done; try (cbn; unfold FrameReassembler.clamp; lia).
  split_and!; try done; try (cbn; unfold FrameReassembler.clamp; lia).
  change (0 <= maximum_attempts clamped -> 0 + len log <= maximum_attempts clamped) in H2.
  apply H2. cbn. unfold FrameReassembler.clamp. lia.
Qed.

Definition sample_nack_ops : list NackOp :=
  [ NackConsider 7 [1; 2; 3] 0 (ms 100) 0;
    NackConsider 7 [1; 2; 3] 0 (ms 100) (ms 5);
    NackConsider 8 [4] 0 (ms 200) (ms 6);
    NackConsider 7 [2; 3] 0 (ms 100) (ms 15);
    NackExpire (ms 120);
    NackConsider 7 [3] 0 (ms 100) (ms 130) ].

Definition sample_nack_config : NackPolicyConfig := mkNackConfig 5 10 3 2.

Lemma nack_requests_bounded_witness :
  let log := requests_for 7 (nack_run (nack_reset (nack_create sample_nack_config) 9)
               sample_nack_ops) in
  len log <= 3 /\ log = [(mkVideoNack 9 7 1 [1; 2], ms 5); (mkVideoNack 9 7 2 [2; 3], ms 15)].
Proof.
  split; [|vm_compute; reflexivity].
  destruct (nack_requests_bounded sample_nack_config 9 7 0 (ms 100) sample_nack_ops)
    as (_ & [H _] & _).
  - repeat split; intros t [= <-]; unfold not_before;
      repeat (apply Forall_cons; split); try apply Forall_nil_2;
      intros t' [= <-]; vm_compute; discriminate.
  - repeat (apply Forall_cons; split); try apply Forall_nil_2; cbn [same_frame]; lia.
  - exact H.
Defined.

(** Keyframe cadence: polled at any times, the scheduler emits keyframes at
    least the minimum interval apart; and once the minimum interval has passed
    since the last one, the next poll emits one exactly when loss at or over
    the threshold, an exhausted NACK or a decoder recovery was reported since
    then, or the maximum interval has passed. *)
Theorem keyframe_cadence (config : KeyframeScheduleConfig) (start : Z)
    (before : list SchedulerOp) (now : Z) (later : list SchedulerOp)
    (poll : Z) :
  let s := scheduler_reset (scheduler_create config) start in
  let clamped := ks_config s in
  spaced (ms (minimum_interval clamped))
    (start - ms (maximum_interval clamped) + ms (minimum_interval clamped))
    (map fst (fst (scheduler_run s before))) /\
  (let s' := mark_emitted (snd (scheduler_run s before)) now in
   fst (scheduler_run s' later) = [] ->
   (is_Some (due (snd (scheduler_run s' later)) poll) <->
    now + ms (minimum_interval clamped) <= poll /\
    (requested clamped later = true \/ now + ms (maximum_interval clamped) <= poll))).
Proof.
  intros s clamped. split; [apply (scheduler_run_spaced s)|].
  intros s' Hnone. destruct (scheduler_run_pending s' later Hnone) as [Hlast Hpend].
  destruct (scheduler_run_config s before) as [Ec1 Ei1].
  destruct (scheduler_run_config s' later) as [Ec2 Ei2].
  assert (ks_config s' = clamped) as Ec by exact Ec1.
  assert (ks_initialized s' = true) as Ei by exact Ei1.
  rewrite Ec in *. rewrite Ei in *. cbn in Hlast, Hpend.
  unfold due. rewrite Ei2, Ec2, Hlast. cbn [negb orb].
  destruct (poll - now <? _) eqn:Emin; bool_to_prop.
  { split; [by intros []|lia]. }
  destruct (ks_pending_reason _) as [r|].
  - split; [|by eexists]. intros _. split; [lia|]. left. destruct (proj1 Hpend) as [[]|]; done.
  - destruct (poll - now >=? _) eqn:Emax; bool_to_prop; split.
    + intros _. split; [lia|]. right. lia.
    + by eexists.
    + by intros [].
    + intros [? [Hreq|]]; [|lia]. destruct (proj2 Hpend) as [? [=]]. by right.
Qed.

Definition sample_keyframe_config : KeyframeScheduleConfig := mkKeyframeConfig 10 100 50.

Lemma keyframe_cadence_witness :
  let s := scheduler_reset (scheduler_create sample_keyframe_config) 0 in
  let s' := mark_emitted (snd (scheduler_run s [Poll 0])) (ms 1) in
  is_Some (due (snd (scheduler_run s' [Poll (ms 5); Loss 60])) (ms 11)).
Proof.
  destruct (keyframe_cadence sample_keyframe_config 0 [Poll 0] (ms 1)
    [Poll (ms 5); Loss 60] (ms 11)) as [_ H].
  apply H; [reflexivity|]. split; [vm_compute; discriminate|]. left. reflexivity.
Defined.

End VideoTransport.
