(* ===== verification/ExamSync.v ===== *)
(** Exam synchronisation messages (common/include/nstu/exam_sync.hpp,
    common/src/exam_sync.cpp): answer events, acknowledgements, state requests
    and chunked state responses.  [std::array] fields are byte strings whose
    length the [wf_] predicates fix; enum fields hold their raw value. *)

From S2P Require Import Prelude Wire Codec Protocol Auth.
Import ReaderNotations Protocol.
#[local] Open Scope nstu_scope.

Module ExamSync.

(** ** Constants *)

Definition kMaximumPackageIdBytes : Z := 128.
Definition kMaximumCandidateIdBytes : Z := 128.
Definition kMaximumQuestionIdBytes : Z := 128.
Definition kMaximumAnswerBytes : Z := 16 * 1024.
Definition kMaximumExamPayloadBytes : Z :=
  kMaxCommandPayload - 8 - Auth.kControlAuthTagBytes.
Definition kMaximumStateEntries : Z := 512.
Definition kMaximumStateChunks : Z := 64.

Definition kEventMagic : Z := 0x3156454e.
Definition kAckMagic : Z := 0x314b414e.
Definition kRequestMagic : Z := 0x3151524e.
Definition kResponseMagic : Z := 0x3152534e.
Definition kWireVersion : Z := 1.
Definition kStateResponseWireVersion : Z := 3.
Definition kStateResponsePreviousWireVersion : Z := 2.
Definition kMaximumWireBytes : Z := kMaximumExamPayloadBytes.
Definition kAnswerEventFixedBytes : Z :=
  4 + 2 + 1 * 2 + 8 * 2 + 4 + 2 * 3 + 4 + 32 + 16 + 16 + 32.
Definition kAnswerAckBytes : Z := 4 + 2 + 1 * 2 + 16 + 8 * 3 + 32 * 2.
Definition kStateRequestFixedBytes : Z := 4 + 2 + 2 * 2 + 32 + 16 + 16.
Definition kStateResponseV1FixedBytes : Z := 4 + 2 + 1 * 2 + 8 + 2 * 3 + 32 + 16 + 16 + 32.
Definition kStateResponseFixedBytes : Z := kStateResponseV1FixedBytes + 2 * 2.
Definition kStateResponseV3FixedBytes : Z := kStateResponseFixedBytes + 32.

(** [enum class AnswerKind] and [enum class AnswerAckStatus]. *)
Definition kind_upsert : Z := 1.
Definition kind_clear : Z := 2.
Definition kind_finalize : Z := 3.

Definition ack_accepted : Z := 1.
Definition ack_duplicate : Z := 2.
Definition ack_rejected : Z := 3.
Definition ack_conflict : Z := 4.
Definition ack_gap : Z := 5.
Definition ack_unavailable : Z := 6.

(** ** Data *)

Record AnswerEvent := mkAnswerEvent {
  ev_package_id : bytes;
  ev_package_digest : bytes;
  ev_client_id : bytes;
  ev_session_id : bytes;
  ev_candidate_id : bytes;
  ev_question_id : bytes;
  ev_question_revision : Z;
  ev_sequence : Z;
  ev_client_time : Z;
  ev_kind : Z;
  ev_answer : bytes;
  ev_previous_event_hash : bytes
}.

Record AnswerAck := mkAnswerAck {
  ak_status : Z;
  ak_session_id : bytes;
  ak_sequence : Z;
  ak_highest_contiguous_sequence : Z;
  ak_server_time : Z;
  ak_event_hash : bytes;
  ak_state_hash : bytes
}.

Record StateRequest := mkStateRequest {
  sr_package_id : bytes;
  sr_package_digest : bytes;
  sr_client_id : bytes;
  sr_session_id : bytes;
  sr_candidate_id : bytes
}.

Record AnswerState := mkAnswerState {
  as_question_id : bytes;
  as_question_revision : Z;
  as_sequence : Z;
  as_kind : Z;
  as_answer : bytes;
  as_event_hash : bytes
}.

Record StateResponse := mkStateResponse {
  sp_package_id : bytes;
  sp_package_digest : bytes;
  sp_client_id : bytes;
  sp_session_id : bytes;
  sp_candidate_id : bytes;
  sp_highest_contiguous_sequence : Z;
  sp_finalized : bool;
  sp_state_hash : bytes;
  sp_last_event_hash : bytes;
  sp_chunk_index : Z;
  sp_chunk_count : Z;
  sp_answers : list AnswerState
}.

(** ** Validation *)

Definition all_zero (bs : bytes) : bool :=
  forallb (fun b => bool_decide (b = Byte.x00)) bs.

Definition valid_text (value : bytes) (maximum : Z) (allow_empty : bool) : bool :=
  if (negb allow_empty && bool_decide (value = [])) || (len value >? maximum) then false
  else forallb (fun c => negb (bool_decide (c = Byte.x00))) value.

#[global] Arguments all_zero _ : simpl never.
#[global] Arguments valid_text _ _ _ : simpl never.

Definition valid_kind (kind : Z) : bool :=
  (kind =? kind_upsert) || (kind =? kind_clear) || (kind =? kind_finalize).

Definition valid_ack_status (status : Z) : bool :=
  (status >=? ack_accepted) && (status <=? ack_unavailable).

Definition valid_ack_shape (ack : AnswerAck) : bool :=
  if negb (valid_ack_status (ak_status ack)) || all_zero (ak_session_id ack) ||
     (ak_server_time ack =? 0)
  then false
  else if (ak_status ack =? ack_accepted) || (ak_status ack =? ack_duplicate) then
    negb (ak_sequence ack =? 0) &&
    (ak_highest_contiguous_sequence ack >=? ak_sequence ack) &&
    negb (all_zero (ak_event_hash ack)) && negb (all_zero (ak_state_hash ack))
  else if ak_status ack =? ack_gap then
    negb (ak_sequence ack =? 0) && (ak_highest_contiguous_sequence ack <? ak_sequence ack)
  else if ak_status ack =? ack_conflict then negb (ak_sequence ack =? 0)
  else if (ak_status ack =? ack_rejected) || (ak_status ack =? ack_unavailable) then true
  else false.

Definition valid_answer_state (answer : AnswerState) : bool :=
  valid_text (as_question_id answer) kMaximumQuestionIdBytes false &&
  ((as_kind answer =? kind_upsert) || (as_kind answer =? kind_clear)) &&
  negb (as_sequence answer =? 0) && (len (as_answer answer) <=? kMaximumAnswerBytes) &&
  negb (as_question_revision answer =? 0) && negb (all_zero (as_event_hash answer)) &&
  (negb (as_kind answer =? kind_clear) || bool_decide (as_answer answer = [])).

Definition valid_identity (client_id session_id : bytes) : bool :=
  negb (all_zero client_id) && negb (all_zero session_id).

Definition read_string (length maximum : Z) (allow_empty : bool) : reader bytes :=
  guard (negb (length >? maximum)) ;;
  output <- read_bytes (Z.to_nat length) ;;
  guard (valid_text output maximum allow_empty) ;;
  rret output.

(** ** Answer events *)

Definition validate_answer_event (event : AnswerEvent) : bool :=
  negb
    (negb (valid_text (ev_package_id event) kMaximumPackageIdBytes false) ||
     all_zero (ev_package_digest event) ||
     negb (valid_identity (ev_client_id event) (ev_session_id event)) ||
     negb (valid_text (ev_candidate_id event) kMaximumCandidateIdBytes false) ||
     negb (valid_kind (ev_kind event)) || (ev_question_revision event =? 0) ||
     (ev_sequence event =? 0) || (ev_client_time event =? 0) ||
     (len (ev_answer event) >? kMaximumAnswerBytes) ||
     (negb (ev_kind event =? kind_finalize) &&
      negb (valid_text (ev_question_id event) kMaximumQuestionIdBytes false)) ||
     ((ev_kind event =? kind_finalize) &&
      (negb (bool_decide (ev_question_id event = [])) ||
       negb (bool_decide (ev_answer event = [])))) ||
     ((ev_kind event =? kind_clear) && negb (bool_decide (ev_answer event = []))) ||
     ((ev_sequence event =? 1) && negb (all_zero (ev_previous_event_hash event)))).

Definition answer_event_wire (event : AnswerEvent) : bytes :=
  write_le 4 kEventMagic ++ write_le 2 kWireVersion ++ write_le 1 (ev_kind event) ++
  write_le 1 0 ++ write_le 8 (ev_sequence event) ++ write_le 8 (ev_client_time event) ++
  write_le 4 (ev_question_revision event) ++ write_le 2 (len (ev_package_id event)) ++
  write_le 2 (len (ev_candidate_id event)) ++ write_le 2 (len (ev_question_id event)) ++
  write_le 4 (len (ev_answer event)) ++ ev_package_digest event ++ ev_client_id event ++
  ev_session_id event ++ ev_previous_event_hash event ++ ev_package_id event ++
  ev_candidate_id event ++ ev_question_id event ++ ev_answer event.

Definition encode_answer_event (event : AnswerEvent) : bytes :=
  if negb (validate_answer_event event) || (len (ev_answer event) >? u32_max) then []
  else
    let wire := answer_event_wire event in
    if len wire <=? kMaximumWireBytes then wire else [].

(** The header reads of [decode_answer_event]: the event without its strings,
    and the four lengths. *)
Definition answer_event_header : reader (AnswerEvent * (Z * Z * Z * Z)) :=
  magic <- read_le 4 ;; guard (magic =? kEventMagic) ;;
  version <- read_le 2 ;; guard (version =? kWireVersion) ;;
  raw_kind <- read_le 1 ;;
  reserved <- read_le 1 ;; guard (reserved =? 0) ;;
  sequence <- read_le 8 ;;
  client_time <- read_le 8 ;;
  question_revision <- read_le 4 ;;
  package_bytes <- read_le 2 ;;
  candidate_bytes <- read_le 2 ;;
  question_bytes <- read_le 2 ;;
  answer_bytes <- read_le 4 ;;
  package_digest <- read_bytes 32 ;;
  client_id <- read_bytes 16 ;;
  session_id <- read_bytes 16 ;;
  previous_event_hash <- read_bytes 32 ;;
  rret (mkAnswerEvent [] package_digest client_id session_id [] [] question_revision
          sequence client_time raw_kind [] previous_event_hash,
        (package_bytes, candidate_bytes, question_bytes, answer_bytes)).

Definition answer_event_strings (package_bytes candidate_bytes question_bytes answer_bytes : Z)
    : reader (bytes * bytes * bytes) :=
  left <- rremaining ;;
  guard (negb (package_bytes >? kMaximumPackageIdBytes) &&
         negb (candidate_bytes >? kMaximumCandidateIdBytes) &&
         negb (question_bytes >? kMaximumQuestionIdBytes) &&
         negb (answer_bytes >? kMaximumAnswerBytes) &&
         negb (left <? package_bytes + candidate_bytes + question_bytes + answer_bytes) &&
         (left =? package_bytes + candidate_bytes + question_bytes + answer_bytes)) ;;
  package_id <- read_string package_bytes kMaximumPackageIdBytes false ;;
  candidate_id <- read_string candidate_bytes kMaximumCandidateIdBytes false ;;
  question_id <- read_string question_bytes kMaximumQuestionIdBytes true ;;
  rret (package_id, candidate_id, question_id).

Definition decode_answer_event (payload : bytes) : result AnswerEvent :=
  if (len payload <? kAnswerEventFixedBytes) || (len payload >? kMaximumWireBytes)
  then Err "exam answer event is truncated or oversized"
  else
    erun (
      header <~ orelse "invalid exam answer event header" answer_event_header ;;
      let '(event, (package_bytes, candidate_bytes, question_bytes, answer_bytes)) := header in
      strings <~ orelse "invalid exam answer event fields"
        (answer_event_strings package_bytes candidate_bytes question_bytes answer_bytes) ;;
      let '(package_id, candidate_id, question_id) := strings in
      answer <~ orelse "" read_rest ;;
      let event := mkAnswerEvent package_id (ev_package_digest event) (ev_client_id event)
        (ev_session_id event) candidate_id question_id (ev_question_revision event)
        (ev_sequence event) (ev_client_time event) (ev_kind event) answer
        (ev_previous_event_hash event) in
      expect validate_answer_event event else "invalid exam answer event" ;;
      eret event) payload.

Section Hashing.
Variable sha256 : bytes -> option bytes.

Definition hash_answer_event (event : AnswerEvent) : option bytes :=
  let wire := encode_answer_event event in
  if bool_decide (wire = []) then None else sha256 wire.
End Hashing.

(** ** Acknowledgements *)

Definition encode_answer_ack (ack : AnswerAck) : bytes :=
  if negb (valid_ack_shape ack) then []
  else
    write_le 4 kAckMagic ++ write_le 2 kWireVersion ++ write_le 1 (ak_status ack) ++
    write_le 1 0 ++ ak_session_id ack ++ write_le 8 (ak_sequence ack) ++
    write_le 8 (ak_highest_contiguous_sequence ack) ++ write_le 8 (ak_server_time ack) ++
    ak_event_hash ack ++ ak_state_hash ack.

Definition decode_answer_ack (payload : bytes) : option AnswerAck :=
  if negb (len payload =? kAnswerAckBytes) then None
  else
    run_reader (
      magic <- read_le 4 ;; guard (magic =? kAckMagic) ;;
      version <- read_le 2 ;; guard (version =? kWireVersion) ;;
      raw_status <- read_le 1 ;;
      reserved <- read_le 1 ;; guard (reserved =? 0) ;;
      session_id <- read_bytes 16 ;;
      sequence <- read_le 8 ;;
      highest <- read_le 8 ;;
      server_time <- read_le 8 ;;
      event_hash <- read_bytes 32 ;;
      state_hash <- read_bytes 32 ;;
      let ack := mkAnswerAck raw_status session_id sequence highest server_time event_hash
                   state_hash in
      guard (valid_ack_shape ack) ;;
      rret ack) payload.

(** ** State requests *)

Definition encode_state_request (request : StateRequest) : bytes :=
  if negb (valid_text (sr_package_id request) kMaximumPackageIdBytes false) ||
     all_zero (sr_package_digest request) ||
     negb (valid_identity (sr_client_id request) (sr_session_id request)) ||
     negb (valid_text (sr_candidate_id request) kMaximumCandidateIdBytes false)
  then []
  else
    write_le 4 kRequestMagic ++ write_le 2 kWireVersion ++
    write_le 2 (len (sr_package_id request)) ++ write_le 2 (len (sr_candidate_id request)) ++
    sr_package_digest request ++ sr_client_id request ++ sr_session_id request ++
    sr_package_id request ++ sr_candidate_id request.

Definition decode_state_request (payload : bytes) : option StateRequest :=
  if (len payload <? kStateRequestFixedBytes) ||
     (len payload >? kStateRequestFixedBytes + kMaximumPackageIdBytes +
                     kMaximumCandidateIdBytes)
  then None
  else
    run_reader (
      magic <- read_le 4 ;; guard (magic =? kRequestMagic) ;;
      version <- read_le 2 ;; guard (version =? kWireVersion) ;;
      package_bytes <- read_le 2 ;;
      candidate_bytes <- read_le 2 ;;
      package_digest <- read_bytes 32 ;;
      client_id <- read_bytes 16 ;;
      session_id <- read_bytes 16 ;;
      package_id <- read_string package_bytes kMaximumPackageIdBytes false ;;
      candidate_id <- read_string candidate_bytes kMaximumCandidateIdBytes false ;;
      left <- rremaining ;;
      guard ((left =? 0) && valid_identity client_id session_id &&
             negb (all_zero package_digest)) ;;
      rret (mkStateRequest package_id package_digest client_id session_id candidate_id))
    payload.

(** ** State responses *)

Definition valid_state_response_identity (r : StateResponse) : bool :=
  valid_text (sp_package_id r) kMaximumPackageIdBytes false &&
  negb (all_zero (sp_package_digest r)) &&
  valid_identity (sp_client_id r) (sp_session_id r) &&
  valid_text (sp_candidate_id r) kMaximumCandidateIdBytes false &&
  negb (sp_chunk_count r =? 0) && (sp_chunk_count r <=? kMaximumStateChunks) &&
  (sp_chunk_index r <? sp_chunk_count r) && (len (sp_answers r) <=? kMaximumStateEntries).

Definition valid_state_response_metadata (r : StateResponse) : bool :=
  if negb (valid_state_response_identity r) then false
  else if sp_highest_contiguous_sequence r =? 0 then all_zero (sp_last_event_hash r)
  else negb (all_zero (sp_state_hash r)) && negb (all_zero (sp_last_event_hash r)).

Definition answer_wire_bytes (answer : AnswerState) : Z :=
  2 + 4 + 8 + 1 * 2 + 4 + 32 + len (as_question_id answer) + len (as_answer answer).

(** The checking loop of [encode_state_response_chunk]: the bytes the answers
    take, unless one is invalid, repeated or oversized. *)
Fixpoint check_answers (highest : Z) (question_ids : gset bytes) (sequences : gset Z)
    (answer_bytes : Z) (answers : list AnswerState) : option Z :=
  match answers with
  | [] => Some answer_bytes
  | answer :: rest =>
      if negb (valid_answer_state answer) || (as_sequence answer >? highest) ||
         (len (as_question_id answer) >? u16_max) ||
         bool_decide (as_question_id answer ∈ question_ids) ||
         bool_decide (as_sequence answer ∈ sequences)
      then None
      else
        let bytes := answer_wire_bytes answer in
        if answer_bytes >? kMaximumWireBytes - bytes then None
        else check_answers highest ({[as_question_id answer]} ∪ question_ids)
               ({[as_sequence answer]} ∪ sequences) (answer_bytes + bytes) rest
  end.

Definition answer_state_wire (answer : AnswerState) : bytes :=
  write_le 2 (len (as_question_id answer)) ++ write_le 4 (as_question_revision answer) ++
  write_le 8 (as_sequence answer) ++ write_le 1 (as_kind answer) ++ write_le 1 0 ++
  write_le 4 (len (as_answer answer)) ++ as_event_hash answer ++ as_question_id answer ++
  as_answer answer.

Definition state_response_wire (r : StateResponse) : bytes :=
  write_le 4 kResponseMagic ++ write_le 2 kStateResponseWireVersion ++
  write_le 1 (if sp_finalized r then 1 else 0) ++ write_le 1 0 ++
  write_le 8 (sp_highest_contiguous_sequence r) ++ write_le 2 (len (sp_answers r)) ++
  write_le 2 (sp_chunk_index r) ++ write_le 2 (sp_chunk_count r) ++
  write_le 2 (len (sp_package_id r)) ++ write_le 2 (len (sp_candidate_id r)) ++
  sp_package_digest r ++ sp_client_id r ++ sp_session_id r ++ sp_state_hash r ++
  sp_last_event_hash r ++ sp_package_id r ++ sp_candidate_id r ++
  concat (map answer_state_wire (sp_answers r)).

Definition response_base_bytes (r : StateResponse) : Z :=
  kStateResponseV3FixedBytes + len (sp_package_id r) + len (sp_candidate_id r).

Definition encode_state_response_chunk (r : StateResponse) : bytes :=
  if negb (valid_state_response_metadata r) || (len (sp_answers r) >? kMaximumStateEntries)
  then []
  else
    let base_bytes := response_base_bytes r in
    match check_answers (sp_highest_contiguous_sequence r) ∅ ∅ 0 (sp_answers r) with
    | None => []
    | Some answer_bytes =>
        if (base_bytes >? kMaximumWireBytes) || (answer_bytes >? kMaximumWireBytes - base_bytes)
        then []
        else
          let wire := state_response_wire r in
          if len wire <=? kMaximumWireBytes then wire else []
    end.

Definition encode_state_response (r : StateResponse) : bytes := encode_state_response_chunk r.

(** Every answer of the snapshot fits a chunk of its own. *)
Definition answer_fits (highest base_bytes : Z) (answer : AnswerState) : bool :=
  negb (negb (valid_answer_state answer) || (as_sequence answer >? highest) ||
        (len (as_question_id answer) >? u16_max) ||
        (answer_wire_bytes answer >? kMaximumWireBytes - base_bytes)).

Fixpoint all_distinct (question_ids : gset bytes) (sequences : gset Z)
    (answers : list AnswerState) : bool :=
  match answers with
  | [] => true
  | answer :: rest =>
      if bool_decide (as_question_id answer ∈ question_ids) then false
      else if bool_decide (as_sequence answer ∈ sequences) then false
      else all_distinct ({[as_question_id answer]} ∪ question_ids)
             ({[as_sequence answer]} ∪ sequences) rest
  end.

(** The greedy loop: [back] is the chunk being filled, [current_bytes] its size. *)
Fixpoint build_chunks (base_bytes : Z) (chunks : list (list AnswerState))
    (back : list AnswerState) (current_bytes : Z) (answers : list AnswerState)
    : list (list AnswerState) :=
  match answers with
  | [] => chunks ++ [back]
  | answer :: rest =>
      let bytes := answer_wire_bytes answer in
      if negb (bool_decide (back = [])) && (current_bytes >? kMaximumWireBytes - bytes)
      then build_chunks base_bytes (chunks ++ [back]) [answer] (base_bytes + bytes) rest
      else build_chunks base_bytes chunks (back ++ [answer]) (current_bytes + bytes) rest
  end.

Definition with_chunk (r : StateResponse) (index count : Z) (answers : list AnswerState)
    : StateResponse :=
  mkStateResponse (sp_package_id r) (sp_package_digest r) (sp_client_id r) (sp_session_id r)
    (sp_candidate_id r) (sp_highest_contiguous_sequence r) (sp_finalized r) (sp_state_hash r)
    (sp_last_event_hash r) index count answers.

Fixpoint encode_chunks (r : StateResponse) (index count : Z) (chunks : list (list AnswerState))
    : option (list bytes) :=
  match chunks with
  | [] => Some []
  | answers :: rest =>
      let wire := encode_state_response_chunk (with_chunk r index count answers) in
      if bool_decide (wire = []) then None
      else
        match encode_chunks r (index + 1) count rest with
        | None => None
        | Some wires => Some (wire :: wires)
        end
  end.

Definition encode_state_response_chunks (r : StateResponse) : list bytes :=
  if negb (valid_state_response_metadata r) || (len (sp_answers r) >? kMaximumStateEntries)
  then []
  else
    let base_bytes := response_base_bytes r in
    if base_bytes >? kMaximumWireBytes then []
    else if negb (forallb (answer_fits (sp_highest_contiguous_sequence r) base_bytes)
                    (sp_answers r))
    then []
    else if negb (all_distinct ∅ ∅ (sp_answers r)) then []
    else
      let chunks := build_chunks base_bytes [] [] base_bytes (sp_answers r) in
      if (len chunks >? kMaximumStateChunks) || (len chunks >? u16_max) then []
      else default [] (encode_chunks r 0 (len chunks) chunks).

(** One answer of a response: the fields, the early checks on the answer without
    its bytes, the bytes, and the repeated check. *)
Definition read_answer (highest : Z) (question_ids : gset bytes) (sequences : gset Z)
    : reader AnswerState :=
  question_bytes <- read_le 2 ;;
  question_revision <- read_le 4 ;;
  sequence <- read_le 8 ;;
  raw_kind <- read_le 1 ;;
  answer_reserved <- read_le 1 ;;
  answer_bytes <- read_le 4 ;;
  event_hash <- read_bytes 32 ;;
  guard (negb (question_bytes =? 0) && negb (question_bytes >? kMaximumQuestionIdBytes) &&
         negb (answer_bytes >? kMaximumAnswerBytes)) ;;
  question_id <- read_string question_bytes kMaximumQuestionIdBytes false ;;
  left <- rremaining ;;
  guard (negb (answer_bytes >? left)) ;;
  guard ((answer_reserved =? 0) &&
         valid_answer_state
           (mkAnswerState question_id question_revision sequence raw_kind [] event_hash) &&
         negb (bool_decide (question_id ∈ question_ids)) &&
         negb (bool_decide (sequence ∈ sequences)) && negb (sequence >? highest)) ;;
  answer <- read_bytes (Z.to_nat answer_bytes) ;;
  let state := mkAnswerState question_id question_revision sequence raw_kind answer event_hash in
  guard (valid_answer_state state) ;;
  rret state.

Fixpoint read_answers (count : nat) (highest : Z) (question_ids : gset bytes)
    (sequences : gset Z) : reader (list AnswerState) :=
  match count with
  | O => rret []
  | S count' =>
      answer <- read_answer highest question_ids sequences ;;
      rest <- read_answers count' highest ({[as_question_id answer]} ∪ question_ids)
                ({[as_sequence answer]} ∪ sequences) ;;
      rret (answer :: rest)
  end.

(** The header of a response (without answers), its version and answer count. *)
Definition state_response_header : reader (StateResponse * Z * Z) :=
  magic <- read_le 4 ;; guard (magic =? kResponseMagic) ;;
  version <- read_le 2 ;;
  guard ((version =? kWireVersion) || (version =? kStateResponsePreviousWireVersion) ||
         (version =? kStateResponseWireVersion)) ;;
  flags <- read_le 1 ;; guard (negb (flags >? 1)) ;;
  reserved <- read_le 1 ;; guard (reserved =? 0) ;;
  highest <- read_le 8 ;;
  answer_count <- read_le 2 ;;
  chunk <- (if (version =? kStateResponsePreviousWireVersion) ||
               (version =? kStateResponseWireVersion)
            then index <- read_le 2 ;; count <- read_le 2 ;; rret (index, count)
            else rret (0, 1)) ;;
  package_bytes <- read_le 2 ;;
  candidate_bytes <- read_le 2 ;;
  guard (negb (answer_count >? kMaximumStateEntries) &&
         negb (package_bytes >? kMaximumPackageIdBytes) &&
         negb (candidate_bytes >? kMaximumCandidateIdBytes)) ;;
  package_digest <- read_bytes 32 ;;
  client_id <- read_bytes 16 ;;
  session_id <- read_bytes 16 ;;
  state_hash <- read_bytes 32 ;;
  last_event_hash <- (if version =? kStateResponseWireVersion then read_bytes 32
                      else rret (replicate 32 Byte.x00)) ;;
  package_id <- read_string package_bytes kMaximumPackageIdBytes false ;;
  candidate_id <- read_string candidate_bytes kMaximumCandidateIdBytes false ;;
  guard (negb (all_zero package_digest) && valid_identity client_id session_id &&
         negb (chunk.2 =? 0) && negb (chunk.2 >? kMaximumStateChunks) &&
         negb (chunk.1 >=? chunk.2)) ;;
  rret (mkStateResponse package_id package_digest client_id session_id candidate_id highest
          (negb (flags =? 0)) state_hash last_event_hash chunk.1 chunk.2 [],
        version, answer_count).

Definition decode_state_response (payload : bytes) : option StateResponse :=
  if (len payload <? kStateResponseV1FixedBytes) || (len payload >? kMaximumWireBytes)
  then None
  else
    run_reader (
      header <- state_response_header ;;
      let '(response, version, answer_count) := header in
      guard (negb (((version =? kStateResponseWireVersion) &&
                    negb (valid_state_response_metadata response)) ||
                   (negb (version =? kStateResponseWireVersion) &&
                    negb (valid_state_response_identity response)))) ;;
      answers <- read_answers (Z.to_nat answer_count) (sp_highest_contiguous_sequence response)
                   ∅ ∅ ;;
      left <- rremaining ;;
      guard (left =? 0) ;;
      rret (with_chunk response (sp_chunk_index response) (sp_chunk_count response) answers))
    payload.

(** ** Well-formed values *)

Definition wf_event (e : AnswerEvent) : Prop :=
  validate_answer_event e = true /\ length (ev_package_digest e) = 32%nat /\
  length (ev_client_id e) = 16%nat /\ length (ev_session_id e) = 16%nat /\
  length (ev_previous_event_hash e) = 32%nat /\ u32 (ev_question_revision e) /\
  u64 (ev_sequence e) /\ u64 (ev_client_time e).

Definition wf_ack (a : AnswerAck) : Prop :=
  valid_ack_shape a = true /\ length (ak_session_id a) = 16%nat /\
  length (ak_event_hash a) = 32%nat /\ length (ak_state_hash a) = 32%nat /\
  u64 (ak_sequence a) /\ u64 (ak_highest_contiguous_sequence a) /\ u64 (ak_server_time a).

Definition wf_request (r : StateRequest) : Prop :=
  valid_text (sr_package_id r) kMaximumPackageIdBytes false = true /\
  valid_text (sr_candidate_id r) kMaximumCandidateIdBytes false = true /\
  all_zero (sr_package_digest r) = false /\
  valid_identity (sr_client_id r) (sr_session_id r) = true /\
  length (sr_package_digest r) = 32%nat /\ length (sr_client_id r) = 16%nat /\
  length (sr_session_id r) = 16%nat.

Definition wf_answer (a : AnswerState) : Prop :=
  valid_answer_state a = true /\ length (as_event_hash a) = 32%nat /\
  u32 (as_question_revision a) /\ u64 (as_sequence a).

(** A response whose header fields have their C++ types. *)
Definition typed_response (r : StateResponse) : Prop :=
  length (sp_package_digest r) = 32%nat /\ length (sp_client_id r) = 16%nat /\
  length (sp_session_id r) = 16%nat /\ length (sp_state_hash r) = 32%nat /\
  length (sp_last_event_hash r) = 32%nat /\ u64 (sp_highest_contiguous_sequence r) /\
  u16 (sp_chunk_index r) /\ u16 (sp_chunk_count r) /\
  Forall (fun a => length (as_event_hash a) = 32%nat /\ u32 (as_question_revision a) /\
                   u64 (as_sequence a)) (sp_answers r).

(** ** Strings on the wire *)

Lemma valid_text_len v m ae : valid_text v m ae = true -> len v <= m.
Proof. unfold valid_text. destruct (_ || _) eqn:E; [done|]. bool_to_prop. lia. Qed.

Lemma valid_text_weaken v m : valid_text v m false = true -> valid_text v m true = true.
Proof.
  unfold valid_text. cbn [negb andb orb].
  destruct (bool_decide (v = []) || _) eqn:E; [done|]. by apply orb_false_iff in E as [_ ->].
Qed.

Lemma rbind_read_string {B} l s rest m ae (k : bytes -> reader B) :
  valid_text s m ae = true -> l = len s -> rbind (read_string l m ae) k (s ++ rest) = k s rest.
Proof.
  intros Hs ->. pose proof (valid_text_len _ _ _ Hs). unfold read_string.
  rewrite !rbind_assoc, rbind_guard by lia.
  rewrite rbind_assoc, rbind_read_bytes by (unfold len; lia).
  rewrite rbind_assoc, rbind_guard by done. done.
Qed.

Lemma rbind_read_string_end {B} l s m ae (k : bytes -> reader B) :
  valid_text s m ae = true -> l = len s -> rbind (read_string l m ae) k s = k s [].
Proof. intros Hs ->. rewrite <- (app_nil_r s) at 2. by apply rbind_read_string. Qed.

Lemma read_string_inv l m ae input s rest :
  read_string l m ae input = Some (s, rest) ->
  input = s ++ rest /\ valid_text s m ae = true /\ length s = Z.to_nat l.
Proof. unfold read_string. intros H. reader_inv. done. Qed.

(** Peel strings and byte arrays off the input of a decoder in turn. *)
Ltac string_run :=
  repeat first [reader_step; cbv beta
               | rewrite rbind_read_string by first [eassumption | reflexivity]
               | rewrite rbind_read_string_end by first [eassumption | reflexivity]].

Ltac string_inv :=
  repeat (reader_inv; match goal with
    | H : read_string _ _ _ _ = Some (_, _) |- _ => apply read_string_inv in H as (-> & ? & ?)
    end); reader_inv.

Lemma validate_texts e :
  validate_answer_event e = true ->
  valid_text (ev_package_id e) kMaximumPackageIdBytes false = true /\
  valid_text (ev_candidate_id e) kMaximumCandidateIdBytes false = true /\
  valid_text (ev_question_id e) kMaximumQuestionIdBytes true = true /\
  len (ev_answer e) <= kMaximumAnswerBytes /\ u8 (ev_kind e).
Proof.
  unfold validate_answer_event. intros H. bool_to_prop.
  assert (u8 (ev_kind e)) as Hk.
  { match goal with H : valid_kind _ = true |- _ => unfold valid_kind in H end.
    unfold kind_upsert, kind_clear, kind_finalize in *. ulia. }
  split_and!; try done.
  destruct (ev_kind e =? kind_finalize); cbn [negb andb] in *; bool_to_prop.
  - match goal with H : ev_question_id e = [] |- _ => by rewrite H end.
  - by apply valid_text_weaken.
Qed.

Lemma validate_question e :
  validate_answer_event e = true -> ev_kind e <> kind_finalize ->
  valid_text (ev_question_id e) kMaximumQuestionIdBytes false = true.
Proof.
  unfold validate_answer_event. intros H Hk. bool_to_prop.
  destruct (Z.eqb_spec (ev_kind e) kind_finalize); [done|]. cbn [negb andb] in *. by bool_to_prop.
Qed.

Lemma answer_event_wire_len e :
  wf_event e -> len (answer_event_wire e) = kAnswerEventFixedBytes + len (ev_package_id e) +
    len (ev_candidate_id e) + len (ev_question_id e) + len (ev_answer e).
Proof.
  intros (_ & H1 & H2 & H3 & H4 & _). unfold answer_event_wire. autorewrite with wire.
  len_facts. unfold kAnswerEventFixedBytes. lia.
Qed.

Lemma encode_answer_event_wf e :
  wf_event e -> encode_answer_event e = answer_event_wire e /\
  kAnswerEventFixedBytes <= len (answer_event_wire e) <= kMaximumWireBytes.
Proof.
  intros He. pose proof (answer_event_wire_len e He) as Hl.
  destruct (validate_texts e (proj1 He)) as (T1%valid_text_len & T2%valid_text_len &
    T3%valid_text_len & T4 & _).
  pose proof (len_nonneg (ev_package_id e)). pose proof (len_nonneg (ev_candidate_id e)).
  pose proof (len_nonneg (ev_question_id e)). pose proof (len_nonneg (ev_answer e)).
  assert (kAnswerEventFixedBytes = 134) as Hf by reflexivity.
  assert (kMaximumWireBytes = 65512) as Hm by reflexivity.
  unfold kMaximumPackageIdBytes, kMaximumCandidateIdBytes, kMaximumQuestionIdBytes,
    kMaximumAnswerBytes in *.
  split; [|lia]. unfold encode_answer_event. rewrite (proj1 He). cbn [negb orb].
  destruct (_ >? _) eqn:E1; [unfold u32_max in E1; lia|].
  destruct (_ <=? _) eqn:E2; [done|lia].
Qed.

(** ** Codecs *)

#[export] Program Instance answer_event_codec : Codec AnswerEvent := {|
  encode := encode_answer_event;
  decode := fun w => result_value (decode_answer_event w);
  valid := wf_event |}.
Next Obligation.
  intros e He. destruct (encode_answer_event_wf e He) as [-> [Hlo Hhi]].
  pose proof (answer_event_wire_len e He) as Hl.
  destruct He as (Hv & H1 & H2 & H3 & H4 & H5 & H6 & H7).
  destruct (validate_texts e Hv) as (T1 & T2 & T3 & T4 & T5).
  pose proof (valid_text_len _ _ _ T1) as L1. pose proof (valid_text_len _ _ _ T2) as L2.
  pose proof (valid_text_len _ _ _ T3) as L3.
  unfold kMaximumPackageIdBytes, kMaximumCandidateIdBytes, kMaximumQuestionIdBytes,
    kMaximumAnswerBytes in L1, L2, L3, T4.
  pose proof (len_nonneg (ev_package_id e)). pose proof (len_nonneg (ev_candidate_id e)).
  pose proof (len_nonneg (ev_question_id e)). pose proof (len_nonneg (ev_answer e)).
  assert (u16 (len (ev_package_id e)) /\ u16 (len (ev_candidate_id e)) /\
    u16 (len (ev_question_id e)) /\ u32 (len (ev_answer e))) as (W1 & W2 & W3 & W4)
    by (split_and!; ulia).
  unfold decode_answer_event. destruct (_ || _) eqn:E; [lia|]. clear E Hl Hlo Hhi.
  unfold erun, answer_event_wire.
  erewrite ebind_orelse; [|unfold answer_event_header; string_run; reflexivity].
  cbv beta iota zeta.
  erewrite ebind_orelse; [|unfold answer_event_strings; string_run;
    rewrite rbind_guard; [string_run; reflexivity|]].
  - cbv beta iota zeta. erewrite ebind_orelse by reflexivity. cbn [ev_package_digest
      ev_client_id ev_session_id ev_question_revision ev_sequence ev_client_time ev_kind
      ev_previous_event_hash].
    destruct e. rewrite ebind_guard by done. done.
  - autorewrite with wire. unfold kMaximumPackageIdBytes, kMaximumCandidateIdBytes,
      kMaximumQuestionIdBytes, kMaximumAnswerBytes. lia.
Qed.
Next Obligation.
  intros w e H. cbn beta in H.
  destruct (decode_answer_event w) as [e'|] eqn:E; [|done]. injection H as ->. revert E. unfold decode_answer_event.
  destruct (_ || _) eqn:Elen; [done|]. intros H. reader_inv.
  match goal with H : answer_event_header _ = Some (?h, _) |- _ =>
    destruct h as [ev [[[pb cb] qb] ab]] end. reader_inv.
  match goal with H : answer_event_strings _ _ _ _ _ = Some (?h, _) |- _ =>
    destruct h as [[package candidate] question] end.
  unfold answer_event_header, answer_event_strings in *. string_inv.
  simplify_eq/=. bool_to_prop. subst. autorewrite with wire in *.
  match goal with
  | Hp : length ?p = Z.to_nat ?pb, Hc : length ?c = Z.to_nat ?cb, Hq : length ?q = Z.to_nat ?qb,
    Hl : len ?p + (len ?c + (len ?q + len ?a)) = ?pb + ?cb + ?qb + ?ab |- _ =>
      assert (len p = pb /\ len c = cb /\ len q = qb /\ len a = ab) as (<- & <- & <- & <-)
        by (unfold len in *; split_and!; ulia)
  end.
  match goal with |- wf_event ?e /\ _ => assert (wf_event e) as He by (split_and!; done) end.
  split; [done|]. symmetry. exact (proj1 (encode_answer_event_wf _ He)).
Qed.

(** The answer event codec in the form its [result] decoder has. *)
Lemma decode_answer_event_iff w e :
  decode_answer_event w = Ok e <-> wf_event e /\ w = encode_answer_event e.
Proof.
  transitivity (result_value (decode_answer_event w) = Some e);
    [|exact (decode_iff (A := AnswerEvent) w e)].
  destruct (decode_answer_event w) as [e'|]; cbn; [|done]. split; congruence.
Qed.

Lemma decode_encode_event e :
  wf_event e -> decode_answer_event (encode_answer_event e) = Ok e.
Proof. intros He. by apply decode_answer_event_iff. Qed.

#[export] Program Instance answer_ack_codec : Codec AnswerAck := {|
  encode := encode_answer_ack; decode := decode_answer_ack; valid := wf_ack |}.
Next Obligation.
  intros a (Hv & H1 & H2 & H3 & H4 & H5 & H6). unfold encode_answer_ack. rewrite Hv. cbn [negb].
  assert (u8 (ak_status a)) as Hs.
  { unfold valid_ack_shape in Hv. destruct (_ || _ || _) eqn:E in Hv; [done|]. bool_to_prop.
    match goal with H : valid_ack_status _ = true |- _ => unfold valid_ack_status in H end.
    unfold ack_accepted, ack_unavailable in *. bool_to_prop. ulia. }
  unfold decode_answer_ack. autorewrite with wire. len_facts.
  destruct (negb _) eqn:E; [unfold kAnswerAckBytes in E; bool_to_prop; lia|]. clear E.
  unfold run_reader. string_run. by destruct a.
Qed.
Next Obligation.
  intros w a. unfold decode_answer_ack. destruct (negb _) eqn:E; [done|]. intros H.
  string_inv. bool_to_prop. simplify_eq. unfold kAnswerAckBytes in *. no_rest.
  split; [done|]. unfold encode_answer_ack.
  match goal with H : valid_ack_shape _ = true |- _ => rewrite H end. cbn.
  by rewrite app_nil_r.
Qed.

#[export] Program Instance state_request_codec : Codec StateRequest := {|
  encode := encode_state_request; decode := decode_state_request; valid := wf_request |}.
Next Obligation.
  intros r (T1 & T2 & H1 & H2 & H3 & H4 & H5). unfold encode_state_request.
  rewrite T1, T2, H1, H2. cbn [negb orb].
  pose proof (valid_text_len _ _ _ T1) as L1. pose proof (valid_text_len _ _ _ T2) as L2.
  pose proof (len_nonneg (sr_package_id r)). pose proof (len_nonneg (sr_candidate_id r)).
  unfold kMaximumPackageIdBytes, kMaximumCandidateIdBytes in L1, L2.
  assert (u16 (len (sr_package_id r)) /\ u16 (len (sr_candidate_id r))) as [W1 W2]
    by (split; ulia).
  unfold decode_state_request. autorewrite with wire. len_facts.
  destruct (_ || _) eqn:E; [unfold kStateRequestFixedBytes, kMaximumPackageIdBytes,
    kMaximumCandidateIdBytes in E; apply orb_true_iff in E as [?|?]; bool_to_prop; lia|]. clear E.
  unfold run_reader. string_run.
  rewrite rbind_guard by (rewrite H1, H2; done). by destruct r.
Qed.
Next Obligation.
  intros w r. unfold decode_state_request. destruct (_ || _) eqn:E; [done|]. intros H.
  string_inv. bool_to_prop. simplify_eq.
  match goal with H : len ?r = 0 |- _ => apply len_zero in H as -> end.
  split; [done|]. unfold encode_state_request.
  cbn [sr_package_id sr_package_digest sr_client_id sr_session_id sr_candidate_id].
  repeat match goal with H : ?t = _ |- context [?t] =>
    lazymatch type of t with bool => rewrite H end end.
  cbn [negb orb]. rewrite app_nil_r.
  repeat match goal with
  | H : length ?s = Z.to_nat ?n, Hu : u16 ?n |- _ =>
      assert (len s = n) as <- by (unfold len; ulia); clear H
  end. done.
Qed.

(** ** Answers of a state response *)

(** The answers are valid, no newer than [highest], and neither repeat a
    question or a sequence nor use one already seen. *)
Definition answers_ok (highest : Z) (ids : gset bytes) (seqs : gset Z)
    (answers : list AnswerState) : Prop :=
  Forall (fun a => valid_answer_state a = true /\ as_sequence a <= highest /\
    as_question_id a ∉ ids /\ as_sequence a ∉ seqs) answers /\
  NoDup (map as_question_id answers) /\ NoDup (map as_sequence answers).

Definition answers_bytes (answers : list AnswerState) : Z :=
  zsum (map answer_wire_bytes answers).

Lemma answers_ok_nil highest ids seqs : answers_ok highest ids seqs [].
Proof. split_and!; constructor. Qed.

Lemma answers_ok_cons highest ids seqs a l :
  answers_ok highest ids seqs (a :: l) <->
  (valid_answer_state a = true /\ as_sequence a <= highest /\ as_question_id a ∉ ids /\
   as_sequence a ∉ seqs) /\
  answers_ok highest ({[as_question_id a]} ∪ ids) ({[as_sequence a]} ∪ seqs) l.
Proof.
  unfold answers_ok. cbn [map]. rewrite Forall_cons, !NoDup_cons, !Forall_forall.
  rewrite !list_elem_of_fmap. split.
  - intros ([Ha Hl] & [Hid Hids] & [Hseq Hseqs]). split; [done|]. split_and!; try done.
    intros b Hb. destruct (Hl b Hb) as (H1 & H2 & H3 & H4). split_and!; try done.
    + rewrite not_elem_of_union, not_elem_of_singleton. split; [|done].
      intros E. apply Hid. by exists b.
    + rewrite not_elem_of_union, not_elem_of_singleton. split; [|done].
      intros E. apply Hseq. by exists b.
  - intros (Ha & Hl & Hids & Hseqs).
    refine (conj (conj Ha _) (conj (conj _ Hids) (conj _ Hseqs))).
    + intros b Hb. destruct (Hl b Hb) as (H1 & H2 & H3 & H4).
      apply not_elem_of_union in H3 as [_ H3]. by apply not_elem_of_union in H4 as [_ H4].
    + intros (b & E & Hb). destruct (Hl b Hb) as (_ & _ & H3 & _).
      apply not_elem_of_union in H3 as [H3 _]. by apply not_elem_of_singleton in H3.
    + intros (b & E & Hb). destruct (Hl b Hb) as (_ & _ & _ & H4).
      apply not_elem_of_union in H4 as [H4 _]. by apply not_elem_of_singleton in H4.
Qed.

Lemma answers_ok_app_r highest ids seqs l1 l2 :
  answers_ok highest ids seqs (l1 ++ l2) ->
  answers_ok highest ids seqs l1 /\ answers_ok highest ids seqs l2.
Proof.
  unfold answers_ok. rewrite Forall_app, !map_app, !NoDup_app. naive_solver.
Qed.

Lemma answer_wire_bytes_bounds a :
  valid_answer_state a = true -> 52 < answer_wire_bytes a <= 52 + 128 + 16384 /\
  0 < len (as_question_id a) <= 128.
Proof.
  unfold valid_answer_state, answer_wire_bytes. intros H. bool_to_prop.
  match goal with H : valid_text _ _ _ = true |- _ =>
    pose proof (valid_text_len _ _ _ H) as Hl; unfold valid_text in H; cbn [negb andb] in H;
    destruct (bool_decide _ || _) eqn:E in H; [done|] end.
  apply orb_false_iff in E as [E _]. apply bool_decide_eq_false in E.
  pose proof (len_nonneg (as_answer a)).
  assert (0 < len (as_question_id a)) by (destruct (as_question_id a); [done|rewrite len_cons;
    pose proof (len_nonneg l); lia]).
  unfold kMaximumQuestionIdBytes, kMaximumAnswerBytes in *. lia.
Qed.

Lemma answers_bytes_nonneg highest ids seqs l :
  answers_ok highest ids seqs l -> 0 <= answers_bytes l.
Proof.
  intros [Hl _]. apply zsum_nonneg. apply Forall_map. eapply Forall_impl; [exact Hl|].
  intros a [Ha _]. cbn. apply answer_wire_bytes_bounds in Ha. lia.
Qed.

Lemma check_answers_ok highest l : forall ids seqs n,
  answers_ok highest ids seqs l -> n + answers_bytes l <= kMaximumWireBytes ->
  check_answers highest ids seqs n l = Some (n + answers_bytes l).
Proof.
  induction l as [|a l IH]; intros ids seqs n Hok Hn; cbn [check_answers].
  { f_equal. unfold answers_bytes. cbn. lia. }
  apply answers_ok_cons in Hok as [(Hv & Hs & Hi & Hq) Hok].
  pose proof (answers_bytes_nonneg _ _ _ _ Hok).
  destruct (answer_wire_bytes_bounds a Hv) as [Hb Hl].
  change (answers_bytes (a :: l)) with (answer_wire_bytes a + answers_bytes l) in *.
  rewrite Hv, !bool_decide_eq_false_2 by done. cbn [negb orb].
  destruct (_ || _ || _ || _) eqn:E; [unfold u16_max in E; repeat (apply orb_true_iff in E as [E|E]);
    bool_to_prop; lia || done|].
  destruct (n >? _) eqn:E2; bool_to_prop; [lia|]. rewrite IH by (done || lia). f_equal. lia.
Qed.

Lemma check_answers_inv highest l : forall ids seqs n m,
  check_answers highest ids seqs n l = Some m ->
  answers_ok highest ids seqs l /\ m = n + answers_bytes l.
Proof.
  induction l as [|a l IH]; intros ids seqs n m; cbn [check_answers].
  { intros [= <-]. split; [apply answers_ok_nil|]. unfold answers_bytes. cbn. lia. }
  destruct (_ || _ || _ || _ || _) eqn:E; [done|]. destruct (n >? _); [done|].
  intros [Hok ->]%IH. bool_to_prop. rewrite answers_ok_cons. split; [done|].
  change (answers_bytes (a :: l)) with (answer_wire_bytes a + answers_bytes l). lia.
Qed.

Lemma len_answer_state_wire a :
  wf_answer a -> len (answer_state_wire a) = answer_wire_bytes a.
Proof.
  intros (_ & H & _). unfold answer_state_wire, answer_wire_bytes. autorewrite with wire.
  len_facts. lia.
Qed.

Lemma len_answers_wire l :
  Forall wf_answer l -> len (concat (map answer_state_wire l)) = answers_bytes l.
Proof.
  induction 1 as [|a l Ha Hl IH]; [done|]. cbn [map concat]. rewrite len_app, IH.
  by rewrite len_answer_state_wire.
Qed.

Lemma valid_answer_prefix a :
  valid_answer_state a = true ->
  valid_answer_state (mkAnswerState (as_question_id a) (as_question_revision a) (as_sequence a)
    (as_kind a) [] (as_event_hash a)) = true.
Proof.
  unfold valid_answer_state. cbn [as_question_id as_question_revision as_sequence as_kind
    as_answer as_event_hash]. intros H. bool_to_prop.
  rewrite !andb_true_iff. split_and!; try done; try lia.
  - by apply negb_true_iff.
  - apply orb_true_r.
Qed.

Lemma read_answer_wire highest ids seqs a rest :
  wf_answer a -> as_sequence a <= highest -> as_question_id a ∉ ids -> as_sequence a ∉ seqs ->
  read_answer highest ids seqs (answer_state_wire a ++ rest) = Some (a, rest).
Proof.
  intros (Hv & H1 & H2 & H3) Hs Hi Hq.
  pose proof (valid_answer_prefix a Hv) as Hpre.
  destruct (answer_wire_bytes_bounds a Hv) as [Hb Hl].
  assert (valid_text (as_question_id a) kMaximumQuestionIdBytes false = true /\
    u8 (as_kind a) /\ len (as_answer a) <= kMaximumAnswerBytes) as (Ht & Hk & Ha).
  { unfold valid_answer_state, kind_upsert, kind_clear in Hv. bool_to_prop.
    split_and!; [done| |lia]. match goal with H : _ || _ = true |- _ =>
      apply orb_true_iff in H as [H|H]; bool_to_prop; ulia end. }
  pose proof (len_nonneg (as_answer a)). pose proof (len_nonneg rest).
  unfold kMaximumAnswerBytes in *.
  assert (u16 (len (as_question_id a)) /\ u32 (len (as_answer a))) as [W1 W2] by (split; ulia).
  unfold read_answer, answer_state_wire. rewrite <- !app_assoc. string_run.
  rewrite rbind_guard by (unfold kMaximumQuestionIdBytes, kMaximumAnswerBytes; lia).
  string_run. rewrite rbind_guard by (rewrite len_app; lia).
  rewrite rbind_guard by (rewrite Hpre, !bool_decide_eq_false_2 by done; cbn [negb andb]; lia).
  string_run. by destruct a.
Qed.

Lemma read_answer_inv highest ids seqs input a rest :
  read_answer highest ids seqs input = Some (a, rest) ->
  (wf_answer a /\ as_sequence a <= highest /\ as_question_id a ∉ ids /\
   as_sequence a ∉ seqs) /\ input = answer_state_wire a ++ rest.
Proof.
  unfold read_answer. intros H. string_inv. bool_to_prop. subst.
  unfold kMaximumAnswerBytes in *. repeat match goal with
  | H : length ?s = Z.to_nat ?n |- _ =>
      assert (len s = n) as <- by (unfold len; ulia); clear H
  end.
  split; [split_and!; done|]. unfold answer_state_wire. cbn [as_question_id as_question_revision
    as_sequence as_kind as_answer as_event_hash]. by rewrite <- !app_assoc.
Qed.

Lemma read_answers_wire highest l rest : forall ids seqs,
  Forall wf_answer l -> answers_ok highest ids seqs l ->
  read_answers (length l) highest ids seqs (concat (map answer_state_wire l) ++ rest) =
    Some (l, rest).
Proof.
  induction l as [|a l IH]; intros ids seqs Hwf Hok; [done|].
  apply answers_ok_cons in Hok as [(Hv & Hs & Hi & Hq) Hok].
  apply Forall_cons in Hwf as [Ha Hl].
  cbn [length read_answers map concat]. rewrite <- app_assoc. unfold rbind at 1.
  rewrite read_answer_wire by done. unfold rbind. by rewrite IH.
Qed.

Lemma read_answers_inv n highest : forall ids seqs input l rest,
  read_answers n highest ids seqs input = Some (l, rest) ->
  Forall wf_answer l /\ answers_ok highest ids seqs l /\ length l = n /\
  input = concat (map answer_state_wire l) ++ rest.
Proof.
  induction n as [|n IH]; intros ids seqs input l rest; cbn [read_answers].
  { intros [= <- <-]. split_and!; try done. apply answers_ok_nil. }
  intros (a & mid & Ha & H)%rbind_inv. apply rbind_inv in H as (l' & mid' & Hl & [= <- <-]).
  apply read_answer_inv in Ha as [(Hwf & Hs & Hi & Hq) ->].
  apply IH in Hl as (Hwfs & Hok & Hn & ->). split_and!.
  - by constructor.
  - apply answers_ok_cons. split; [|done]. split_and!; try done. apply Hwf.
  - cbn. by rewrite Hn.
  - cbn [map concat]. by rewrite <- app_assoc.
Qed.

(** ** Whole responses *)

(** What a response must satisfy to travel as one chunk. *)
Definition chunk_ok (r : StateResponse) : Prop :=
  typed_response r /\ valid_state_response_metadata r = true /\
  answers_ok (sp_highest_contiguous_sequence r) ∅ ∅ (sp_answers r) /\
  response_base_bytes r + answers_bytes (sp_answers r) <= kMaximumWireBytes.

Lemma metadata_identity r :
  valid_state_response_metadata r = true -> valid_state_response_identity r = true.
Proof. unfold valid_state_response_metadata. by destruct (valid_state_response_identity r). Qed.

Lemma identity_facts r :
  valid_state_response_identity r = true ->
  valid_text (sp_package_id r) kMaximumPackageIdBytes false = true /\
  valid_text (sp_candidate_id r) kMaximumCandidateIdBytes false = true /\
  all_zero (sp_package_digest r) = false /\
  valid_identity (sp_client_id r) (sp_session_id r) = true /\
  sp_chunk_count r <> 0 /\ sp_chunk_count r <= kMaximumStateChunks /\
  sp_chunk_index r < sp_chunk_count r /\ len (sp_answers r) <= kMaximumStateEntries /\
  len (sp_package_id r) <= 128 /\ len (sp_candidate_id r) <= 128.
Proof.
  unfold valid_state_response_identity. intros H. bool_to_prop.
  repeat match goal with H : valid_text _ _ _ = true |- _ =>
    pose proof (valid_text_len _ _ _ H); revert H end.
  unfold kMaximumPackageIdBytes, kMaximumCandidateIdBytes in *. intros.
  split_and!; try done; lia.
Qed.

Lemma typed_answers r :
  typed_response r -> answers_ok (sp_highest_contiguous_sequence r) ∅ ∅ (sp_answers r) ->
  Forall wf_answer (sp_answers r).
Proof.
  intros (_ & _ & _ & _ & _ & _ & _ & _ & Ht) [Hok _].
  rewrite Forall_forall in Ht, Hok. rewrite Forall_forall. intros a Ha.
  destruct (Ht a Ha) as (H1 & H2 & H3). destruct (Hok a Ha) as [Hv _]. by split_and!.
Qed.

Lemma len_state_response_wire r :
  typed_response r -> answers_ok (sp_highest_contiguous_sequence r) ∅ ∅ (sp_answers r) ->
  len (state_response_wire r) = response_base_bytes r + answers_bytes (sp_answers r).
Proof.
  intros Ht Hok. pose proof (len_answers_wire _ (typed_answers r Ht Hok)) as Hl.
  destruct Ht as (H1 & H2 & H3 & H4 & H5 & _). unfold state_response_wire.
  autorewrite with wire. rewrite Hl. len_facts. unfold response_base_bytes.
  change kStateResponseV3FixedBytes with 154. lia.
Qed.

Lemma encode_chunk_ok r :
  chunk_ok r -> encode_state_response_chunk r = state_response_wire r /\
  kStateResponseV3FixedBytes <= len (state_response_wire r) <= kMaximumWireBytes.
Proof.
  intros (Ht & Hm & Hok & Hsz).
  pose proof (len_state_response_wire r Ht Hok) as Hl.
  pose proof (answers_bytes_nonneg _ _ _ _ Hok).
  destruct (identity_facts r (metadata_identity r Hm)) as (_&_&_&_&_&_&_& Hn &_).
  assert (kStateResponseV3FixedBytes <= response_base_bytes r).
  { unfold response_base_bytes. pose proof (len_nonneg (sp_package_id r)).
    pose proof (len_nonneg (sp_candidate_id r)). lia. }
  change kStateResponseV3FixedBytes with 154 in *.
  split; [|lia]. unfold encode_state_response_chunk. rewrite Hm. cbn [negb orb].
  destruct (_ >? _) eqn:E1; bool_to_prop; [lia|].
  rewrite check_answers_ok by (done || lia).
  destruct (_ || _) eqn:E2.
  { apply orb_true_iff in E2 as [E2|E2]; bool_to_prop; lia. }
  destruct (_ <=? _) eqn:E3; bool_to_prop; [done|lia].
Qed.

Lemma state_response_header_run r rest :
  typed_response r -> valid_state_response_metadata r = true ->
  state_response_header
    (write_le 4 kResponseMagic ++ write_le 2 kStateResponseWireVersion ++
     write_le 1 (if sp_finalized r then 1 else 0) ++ write_le 1 0 ++
     write_le 8 (sp_highest_contiguous_sequence r) ++ write_le 2 (len (sp_answers r)) ++
     write_le 2 (sp_chunk_index r) ++ write_le 2 (sp_chunk_count r) ++
     write_le 2 (len (sp_package_id r)) ++ write_le 2 (len (sp_candidate_id r)) ++
     sp_package_digest r ++ sp_client_id r ++ sp_session_id r ++ sp_state_hash r ++
     sp_last_event_hash r ++ sp_package_id r ++ sp_candidate_id r ++ rest) =
  Some (with_chunk r (sp_chunk_index r) (sp_chunk_count r) [], kStateResponseWireVersion,
        len (sp_answers r), rest).
Proof.
  intros (H1 & H2 & H3 & H4 & H5 & H6 & H7 & H8 & _) Hm.
  destruct (identity_facts r (metadata_identity r Hm)) as
    (T1 & T2 & Hd & Hid & Hc0 & Hc & Hi & Hn & L1 & L2).
  pose proof (len_nonneg (sp_package_id r)). pose proof (len_nonneg (sp_candidate_id r)).
  pose proof (len_nonneg (sp_answers r)). unfold kMaximumStateEntries in Hn.
  assert (u16 (len (sp_package_id r)) /\ u16 (len (sp_candidate_id r)) /\
    u16 (len (sp_answers r)) /\ u8 (if sp_finalized r then 1 else 0)) as (W1 & W2 & W3 & W4)
    by (split_and!; try ulia; destruct (sp_finalized r); ulia).
  unfold state_response_header. string_run.
  rewrite rbind_guard by (destruct (sp_finalized r); by eval_tests). string_run.
  change ((kStateResponseWireVersion =? kStateResponsePreviousWireVersion) ||
          (kStateResponseWireVersion =? kStateResponseWireVersion)) with true.
  change (kStateResponseWireVersion =? kStateResponseWireVersion) with true. cbv iota. string_run.
  rewrite rbind_guard by (unfold kMaximumStateEntries, kMaximumPackageIdBytes,
    kMaximumCandidateIdBytes; lia). string_run.
  rewrite rbind_guard by (rewrite Hd, Hid; cbn [negb andb fst snd];
    unfold kMaximumStateChunks in *; lia).
  unfold rret, with_chunk. by destruct (sp_finalized r).
Qed.

Lemma metadata_with_chunk r answers :
  len answers <= kMaximumStateEntries -> valid_state_response_metadata r = true ->
  valid_state_response_metadata (with_chunk r (sp_chunk_index r) (sp_chunk_count r) answers) = true.
Proof.
  intros Hn. unfold valid_state_response_metadata.
  destruct (valid_state_response_identity r) eqn:E; [|done].
  assert (valid_state_response_identity
    (with_chunk r (sp_chunk_index r) (sp_chunk_count r) answers) = true) as ->; [|done].
  unfold valid_state_response_identity in *. cbn. bool_to_prop.
  rewrite !andb_true_iff, !negb_true_iff. split_and!; (done || lia).
Qed.

Lemma decode_chunk_ok r :
  chunk_ok r -> decode_state_response (state_response_wire r) = Some r.
Proof.
  intros Hok. destruct (encode_chunk_ok r Hok) as [_ [Hlo Hhi]].
  destruct Hok as (Ht & Hm & Hok & _). unfold decode_state_response.
  change kStateResponseV3FixedBytes with 154 in Hlo. change kStateResponseV1FixedBytes with 118.
  destruct (_ || _) eqn:E; [apply orb_true_iff in E as [E|E]; bool_to_prop; lia|]. clear E.
  unfold run_reader, state_response_wire. unfold rbind at 1.
  rewrite state_response_header_run by done. cbv beta iota zeta.
  rewrite rbind_guard.
  2: { rewrite metadata_with_chunk; [done| |done]. by vm_compute. }
  unfold rbind at 1. cbn [sp_highest_contiguous_sequence with_chunk].
  rewrite <- (app_nil_r (concat _)). unfold len at 1. rewrite Nat2Z.id.
  rewrite read_answers_wire by (done || by apply typed_answers).
  string_run. by destruct r.
Qed.

(** The chunk fields are read from version 2 on, the last event hash from 3 on. *)
Lemma response_chunk_fields version input index count rest :
  (if (version =? kStateResponsePreviousWireVersion) || (version =? kStateResponseWireVersion)
   then index <- read_le 2 ;; count <- read_le 2 ;; rret (index, count)
   else rret (0, 1)) input = Some (index, count, rest) ->
  u16 index /\ u16 count /\
  (version = kStateResponseWireVersion -> input = write_le 2 index ++ write_le 2 count ++ rest).
Proof.
  destruct (_ || _) eqn:E; intros H; reader_inv; unfold rret in H; simplify_eq;
    [done|]. split_and!; try ulia.
Qed.

Lemma response_last_hash version input hash rest :
  (if version =? kStateResponseWireVersion then read_bytes 32
   else rret (replicate 32 Byte.x00)) input = Some (hash, rest) ->
  length hash = 32%nat /\
  (version = kStateResponseWireVersion -> input = hash ++ rest).
Proof.
  destruct (Z.eqb_spec version kStateResponseWireVersion); intros H; reader_inv; [done|].
  by split.
Qed.

Lemma state_response_header_inv input r version count rest :
  state_response_header input = Some (r, version, count, rest) ->
  typed_response r /\ valid_state_response_identity r = true /\ sp_answers r = [] /\
  0 <= count <= kMaximumStateEntries /\ 1 <= version <= 3 /\
  (exists tail, input = write_le 4 kResponseMagic ++ write_le 2 version ++ tail) /\
  (version = kStateResponseWireVersion ->
   input = write_le 4 kResponseMagic ++ write_le 2 kStateResponseWireVersion ++
     write_le 1 (if sp_finalized r then 1 else 0) ++ write_le 1 0 ++
     write_le 8 (sp_highest_contiguous_sequence r) ++ write_le 2 count ++
     write_le 2 (sp_chunk_index r) ++ write_le 2 (sp_chunk_count r) ++
     write_le 2 (len (sp_package_id r)) ++ write_le 2 (len (sp_candidate_id r)) ++
     sp_package_digest r ++ sp_client_id r ++ sp_session_id r ++ sp_state_hash r ++
     sp_last_event_hash r ++ sp_package_id r ++ sp_candidate_id r ++ rest).
Proof.
  unfold state_response_header. intros H. string_inv.
  match goal with H : (if _ || _ then _ else _) _ = Some (?c, _) |- _ =>
    rename H into Hchunk; destruct c as [index cnt] end.
  match goal with H : (if _ =? _ then read_bytes 32 else _) _ = Some _ |- _ =>
    rename H into Hlast end.
  apply response_chunk_fields in Hchunk as (Hi & Hc & Hv3).
  apply response_last_hash in Hlast as [Hl Hl3]. cbn [fst snd] in *.
  bool_to_prop. subst. repeat match goal with
  | H : length ?s = Z.to_nat ?n, Hu : u16 ?n |- _ =>
      assert (len s = n) as <- by (unfold len; ulia); clear H
  end.
  split_and!; try done.
  - unfold valid_state_response_identity. cbn [sp_package_id sp_package_digest sp_client_id
      sp_session_id sp_candidate_id sp_chunk_count sp_chunk_index sp_answers].
    rewrite !andb_true_iff, !negb_true_iff. unfold kMaximumStateEntries in *.
    split_and!; (done || lia).
  - ulia.
  - unfold kWireVersion, kStateResponsePreviousWireVersion, kStateResponseWireVersion in *. lia.
  - unfold kWireVersion, kStateResponsePreviousWireVersion, kStateResponseWireVersion in *. lia.
  - by eexists.
  - intros ->. rewrite Hv3, Hl3 by done. cbn [sp_package_id sp_package_digest sp_client_id
      sp_session_id sp_candidate_id sp_chunk_count sp_chunk_index sp_finalized sp_state_hash
      sp_last_event_hash sp_highest_contiguous_sequence].
    match goal with H : u8 ?f, Hf : ?f <= 1 |- context [negb (?f =? 0)] =>
      assert (f = if negb (f =? 0) then 1 else 0) as <- by
        (destruct (f =? 0) eqn:Ef; cbn [negb]; bool_to_prop; ulia) end.
    by rewrite <- ?app_assoc.
Qed.

Lemma typed_with_chunk r index count answers :
  typed_response r -> u16 index -> u16 count -> Forall wf_answer answers ->
  typed_response (with_chunk r index count answers).
Proof.
  intros (H1 & H2 & H3 & H4 & H5 & H6 & _) Hi Hc Ha. split_and!; try done.
  eapply Forall_impl; [exact Ha|]. by intros a (_ & ? & ? & ?).
Qed.

Lemma identity_with_chunk r answers :
  len answers <= kMaximumStateEntries ->
  valid_state_response_identity r = true ->
  valid_state_response_identity
    (with_chunk r (sp_chunk_index r) (sp_chunk_count r) answers) = true.
Proof.
  intros Hn. unfold valid_state_response_identity. cbn. intros H. bool_to_prop.
  rewrite !andb_true_iff, !negb_true_iff. split_and!; (done || lia).
Qed.

Lemma decode_state_response_inv w r :
  decode_state_response w = Some r ->
  typed_response r /\ valid_state_response_identity r = true /\
  answers_ok (sp_highest_contiguous_sequence r) ∅ ∅ (sp_answers r) /\
  len w <= kMaximumWireBytes /\
  exists version tail, w = write_le 4 kResponseMagic ++ write_le 2 version ++ tail /\
    1 <= version <= 3 /\
    (version = kStateResponseWireVersion ->
     valid_state_response_metadata r = true /\ w = state_response_wire r).
Proof.
  unfold decode_state_response. destruct (_ || _) eqn:E; [done|].
  apply orb_false_iff in E as [_ E]. intros H. reader_inv.
  match goal with H : state_response_header _ = Some (?h, _) |- _ =>
    destruct h as [[header version] count]; rename H into Hhead end. reader_inv.
  match goal with H : read_answers _ _ _ _ _ = Some _ |- _ =>
    apply read_answers_inv in H as (Hwf & Hok & Hlen & ->) end.
  destruct (state_response_header_inv _ _ _ _ _ Hhead) as
    (Ht & Hid & Hnil & Hcount & Hver & [tail Htail] & Hwire).
  bool_to_prop. match goal with H : len ?r = 0 |- _ => apply len_zero in H as -> end.
  assert (len x3 = count) as Hn by (unfold len; lia).
  destruct Ht as (T1 & T2 & T3 & T4 & T5 & T6 & T7 & T8 & T9).
  split_and!; [by apply typed_with_chunk; [split_and!| | |]| |done|done|].
  { apply identity_with_chunk; [lia|done]. }
  exists version, tail. split_and!; [done|lia|lia|]. intros Hv. split.
  - apply metadata_with_chunk; [lia|].
    match goal with H : _ && negb (valid_state_response_metadata _) = false |- _ =>
      rename H into Hm end. rewrite Hv in Hm. by destruct (valid_state_response_metadata header).
  - rewrite (Hwire Hv). unfold state_response_wire. cbn [with_chunk sp_package_id
      sp_package_digest sp_client_id sp_session_id sp_candidate_id sp_chunk_count sp_chunk_index
      sp_finalized sp_state_hash sp_last_event_hash sp_highest_contiguous_sequence sp_answers].
    by rewrite Hn, app_nil_r.
Qed.

(** ** Snapshots split into chunks *)

Lemma metadata_any_chunk r index count answers :
  len answers <= kMaximumStateEntries -> 0 < count <= kMaximumStateChunks -> index < count ->
  valid_state_response_metadata r = true ->
  valid_state_response_metadata (with_chunk r index count answers) = true.
Proof.
  intros Hn Hc Hi. unfold valid_state_response_metadata.
  destruct (valid_state_response_identity r) eqn:E; [|done].
  assert (valid_state_response_identity (with_chunk r index count answers) = true) as ->; [|done].
  unfold valid_state_response_identity in *. cbn. bool_to_prop.
  rewrite !andb_true_iff, !negb_true_iff. split_and!; (done || lia).
Qed.

Lemma answers_bytes_app l1 l2 : answers_bytes (l1 ++ l2) = answers_bytes l1 + answers_bytes l2.
Proof. unfold answers_bytes. by rewrite map_app, zsum_app. Qed.

(** The largest answer. *)
Definition max_answer_bytes : Z := 52 + kMaximumQuestionIdBytes + kMaximumAnswerBytes.

Definition valid_answers (l : list AnswerState) : Prop :=
  Forall (fun a => valid_answer_state a = true) l.

Lemma valid_answers_nonneg l : valid_answers l -> 0 <= answers_bytes l.
Proof.
  intros Hl. apply zsum_nonneg, Forall_map. eapply Forall_impl; [exact Hl|].
  intros a Ha%answer_wire_bytes_bounds. cbn. lia.
Qed.

(** The chunks built from [back] and [answers]: their concatenation, their size,
    and how much each closed chunk must hold. *)
Lemma build_chunks_spec base answers : forall chunks back current,
  valid_answers back -> valid_answers answers ->
  base + max_answer_bytes <= kMaximumWireBytes ->
  current = base + answers_bytes back -> current <= kMaximumWireBytes ->
  exists parts, build_chunks base chunks back current answers = chunks ++ parts /\
    parts <> [] /\ concat parts = back ++ answers /\
    Forall (fun p => base + answers_bytes p <= kMaximumWireBytes) parts /\
    (len parts - 1) * (kMaximumWireBytes - base - max_answer_bytes) <=
      answers_bytes (back ++ answers).
Proof.
  induction answers as [|a l IH]; intros chunks back current Hback Hv Hbase Hcur Hmax;
    cbn [build_chunks].
  - exists [back]. pose proof (valid_answers_nonneg _ Hback).
    rewrite app_nil_r. split_and!; [done|done|apply app_nil_r|by constructor; [lia|]|].
    unfold len. cbn [length]. lia.
  - apply Forall_cons in Hv as [Ha Hl].
    destruct (answer_wire_bytes_bounds a Ha) as [Hb _].
    assert (answer_wire_bytes a <= max_answer_bytes) as Hm by (by destruct Hb).
    destruct (negb _ && _) eqn:E.
    + bool_to_prop.
      destruct (IH (chunks ++ [back]) [a] (base + answer_wire_bytes a)) as
        (parts & -> & Hne & Hcat & Hfit & Hcount); try done.
      { by constructor. }
      { unfold answers_bytes. cbn. lia. }
      { lia. }
      exists (back :: parts). rewrite <- app_assoc. split_and!; [done|done| | |].
      * cbn. by rewrite Hcat.
      * constructor; [lia|done].
      * rewrite len_cons, answers_bytes_app. cbn [app] in Hcount. lia.
    + destruct (IH chunks (back ++ [a]) (current + answer_wire_bytes a)) as
        (parts & -> & Hne & Hcat & Hfit & Hcount); try done.
      { apply Forall_app. split; [done|by constructor]. }
      { rewrite answers_bytes_app. unfold answers_bytes at 2. cbn. lia. }
      { apply andb_false_iff in E as [E|E]; bool_to_prop; [|lia]. subst.
        unfold answers_bytes. cbn. lia. }
      exists parts. rewrite <- app_assoc in Hcat, Hcount. done.
Qed.

Lemma all_distinct_ok highest base l : forall ids seqs,
  forallb (answer_fits highest base) l = true -> all_distinct ids seqs l = true ->
  answers_ok highest ids seqs l.
Proof.
  induction l as [|a l IH]; intros ids seqs; cbn [forallb all_distinct];
    [intros; apply answers_ok_nil|].
  intros [Hfit Hl]%andb_true_iff. unfold answer_fits in Hfit.
  repeat case_bool_decide; try done. intros Hd.
  apply answers_ok_cons. split; [|by apply IH]. bool_to_prop. done.
Qed.

Lemma answers_ok_distinct highest base l : forall ids seqs,
  answers_ok highest ids seqs l -> base + max_answer_bytes <= kMaximumWireBytes ->
  forallb (answer_fits highest base) l = true /\ all_distinct ids seqs l = true.
Proof.
  intros ids seqs Hok Hbase. revert ids seqs Hok. induction l as [|a l IH]; intros ids seqs;
    [done|]. rewrite answers_ok_cons. intros [(Hv & Hs & Hi & Hq) Hok].
  destruct (IH _ _ Hok) as [IH1 IH2]. cbn [forallb all_distinct].
  rewrite !bool_decide_eq_false_2 by done. rewrite IH1, IH2. split; [|done].
  destruct (answer_wire_bytes_bounds a Hv) as [Hb Hl].
  assert (answer_wire_bytes a <= max_answer_bytes) as Hm by (by destruct Hb).
  unfold answer_fits. rewrite Hv, andb_true_r. cbn [negb orb].
  apply negb_true_iff. rewrite !orb_false_iff. unfold u16_max. split_and!; lia.
Qed.

(** Sub-lists of good answers are good: each chunk of a snapshot. *)
Lemma answers_ok_part highest parts p :
  answers_ok highest ∅ ∅ (concat parts) -> p ∈ parts -> answers_ok highest ∅ ∅ p.
Proof.
  intros Hok (pre & post & ->)%list_elem_of_split. rewrite concat_app in Hok.
  apply answers_ok_app_r in Hok as [_ Hok]. cbn in Hok. by apply answers_ok_app_r in Hok as [? _].
Qed.

Lemma encode_chunks_ok r count parts : forall index,
  (forall i p, parts !! i = Some p -> chunk_ok (with_chunk r (index + Z.of_nat i) count p)) ->
  exists wires, encode_chunks r index count parts = Some wires /\ length wires = length parts /\
  forall i p, parts !! i = Some p ->
    wires !! i = Some (state_response_wire (with_chunk r (index + Z.of_nat i) count p)).
Proof.
  induction parts as [|p parts IH]; intros index Hok; cbn [encode_chunks]; [by exists []|].
  pose proof (Hok 0%nat p eq_refl) as H0. cbn [Z.of_nat] in H0. rewrite Z.add_0_r in H0.
  destruct (encode_chunk_ok _ H0) as [-> [Hlo _]].
  rewrite bool_decide_eq_false_2 by (intros E; rewrite E in Hlo; by vm_compute in Hlo).
  destruct (IH (index + 1)) as (wires & -> & Hl & Hw).
  { intros i q Hq. specialize (Hok (S i) q Hq).
    by replace (index + 1 + Z.of_nat i) with (index + Z.of_nat (S i)) by lia. }
  exists (state_response_wire (with_chunk r index count p) :: wires).
  split_and!; [done|cbn; by rewrite Hl|].
  intros [|i] q Hq.
  - injection Hq as ->. by rewrite Z.add_0_r.
  - change (parts !! i = Some q) in Hq. change (wires !! i = Some (state_response_wire
      (with_chunk r (index + Z.of_nat (S i)) count q))).
    rewrite (Hw i q Hq). do 3 f_equal. lia.
Qed.

Lemma response_base_bound r :
  valid_state_response_metadata r = true ->
  response_base_bytes r + max_answer_bytes <= kMaximumWireBytes.
Proof.
  intros Hm. destruct (identity_facts r (metadata_identity r Hm)) as (_&_&_&_&_&_&_&_& L1 & L2).
  unfold response_base_bytes. change kStateResponseV3FixedBytes with 154.
  change max_answer_bytes with 16564. change kMaximumWireBytes with 65512. lia.
Qed.

(** The chunks of a valid snapshot, their number, and their encodings. *)
Lemma snapshot_parts r :
  typed_response r -> valid_state_response_metadata r = true ->
  answers_ok (sp_highest_contiguous_sequence r) ∅ ∅ (sp_answers r) ->
  exists parts, build_chunks (response_base_bytes r) [] [] (response_base_bytes r)
      (sp_answers r) = parts /\ parts <> [] /\ concat parts = sp_answers r /\
    (len parts - 1) * (kMaximumWireBytes - response_base_bytes r - max_answer_bytes) <=
      answers_bytes (sp_answers r) /\
    (len parts <= kMaximumStateChunks ->
     exists wires, encode_chunks r 0 (len parts) parts = Some wires /\
       length wires = length parts /\
       forall i p, parts !! i = Some p -> exists w, wires !! i = Some w /\
         len w <= kMaximumWireBytes /\
         decode_state_response w = Some (with_chunk r (Z.of_nat i) (len parts) p)).
Proof.
  intros Ht Hm Hok. pose proof (response_base_bound r Hm) as Hbase.
  destruct (identity_facts r (metadata_identity r Hm)) as (_&_&_&_&_&_&_& Hn &_).
  destruct (build_chunks_spec (response_base_bytes r) (sp_answers r) [] []
    (response_base_bytes r)) as (parts & -> & Hne & Hcat & Hfit & Hcount); try done.
  { constructor. }
  { eapply Forall_impl; [exact (proj1 Hok)|]. by intros a [? _]. }
  { unfold answers_bytes. cbn. lia. }
  { change max_answer_bytes with 16564 in Hbase. lia. }
  cbn [app] in *. exists parts. split_and!; try done. intros Hmax.
  assert (forall i p, parts !! i = Some p ->
    chunk_ok (with_chunk r (Z.of_nat i) (len parts) p)) as Hchunk.
  { intros i p Hp. pose proof (lookup_lt_Some _ _ _ Hp) as Hi.
    pose proof (list_elem_of_lookup_2 _ _ _ Hp) as Hin.
    rewrite <- Hcat in Hok. pose proof (answers_ok_part _ _ _ Hok Hin) as Hp'.
    assert (Forall wf_answer p) as Hwf.
    { rewrite Hcat in Hok. pose proof (typed_answers r Ht Hok) as Hall. rewrite <- Hcat in Hall.
      apply list_elem_of_split in Hin as (pre & post & ->). rewrite concat_app in Hall.
      apply Forall_app in Hall as [_ Hall]. cbn in Hall. by apply Forall_app in Hall as [? _]. }
    assert (len p <= len (sp_answers r)) as Hlp.
    { rewrite <- Hcat. apply list_elem_of_split in Hin as (pre & post & ->).
      rewrite concat_app. cbn [concat]. rewrite !len_app.
      pose proof (len_nonneg (concat pre)). pose proof (len_nonneg (concat post)). lia. }
    unfold kMaximumStateChunks, len in Hmax |- *.
    split_and!.
    - apply typed_with_chunk; [done|ulia|ulia|done].
    - apply metadata_any_chunk; [unfold len in *; lia|unfold kMaximumStateChunks; lia|lia|done].
    - done.
    - rewrite Forall_forall in Hfit. by apply (Hfit p Hin). }
  destruct (encode_chunks_ok r (len parts) parts 0) as (wires & He & Hl & Hw).
  { intros i p Hp. by apply Hchunk. }
  exists wires. split_and!; [done|done|]. intros i p Hp.
  exists (state_response_wire (with_chunk r (Z.of_nat i) (len parts) p)).
  split_and!; [by rewrite (Hw i p Hp)| |].
  - by apply (encode_chunk_ok _ (Hchunk i p Hp)).
  - by apply decode_chunk_ok, Hchunk.
Qed.

(** ** Properties *)

(** Whatever version a state response has, what the decoder accepts is
    bounded and consistent: the identity and the chunk position are valid, every
    answer is valid and no newer than the reported sequence, and no question or
    sequence appears twice; a version 3 payload moreover is the encoding of the
    result, with the hashes its sequence requires. *)
Theorem state_response_accepted (w : bytes) (r : StateResponse) :
  decode_state_response w = Some r ->
  valid_state_response_identity r = true /\
  Forall (fun a => wf_answer a /\ as_sequence a <= sp_highest_contiguous_sequence r)
    (sp_answers r) /\
  NoDup (map as_question_id (sp_answers r)) /\ NoDup (map as_sequence (sp_answers r)) /\
  (take 2 (drop 4 w) = write_le 2 kStateResponseWireVersion ->
   valid_state_response_metadata r = true /\ w = encode_state_response r).
Proof.
  intros H. destruct (decode_state_response_inv w r H) as
    (Ht & Hid & Hok & Hlen & version & tail & Hw & Hver & Hv3).
  pose proof (typed_answers r Ht Hok) as Hwf. pose proof Hok as (Hall & Hids & Hseqs).
  split_and!; try done.
  - apply Forall_and; split; [done|]. eapply Forall_impl; [exact Hall|]. naive_solver.
  - intros Htake. assert (version = kStateResponseWireVersion) as Hv.
    { rewrite Hw in Htake.
      rewrite drop_app_length' in Htake by (by rewrite length_write_le).
      rewrite take_app_length' in Htake by (by rewrite length_write_le).
      apply write_le_inj in Htake; [done|ulia|by vm_compute]. }
    destruct (Hv3 Hv) as [Hm Hwire]. split; [done|]. unfold encode_state_response.
    assert (chunk_ok r) as Hchunk.
    { refine (conj Ht (conj Hm (conj Hok _))).
      rewrite <- len_state_response_wire by done. by rewrite <- Hwire. }
    by rewrite (proj1 (encode_chunk_ok r Hchunk)).
Qed.

Definition sample_response : StateResponse :=
  let one := Byte.x01 in
  mkStateResponse (text "pkg") (replicate 32 one) (replicate 16 one) (replicate 16 one)
    (text "cand") 4 false (replicate 32 one) (replicate 32 one) 0 1
    [mkAnswerState (text "q1") 1 2 kind_upsert (text "A") (replicate 32 one);
     mkAnswerState (text "q2") 1 4 kind_clear [] (replicate 32 one)].

Lemma state_response_accepted_witness :
  decode_state_response (encode_state_response sample_response) = Some sample_response /\
  valid_state_response_metadata sample_response = true.
Proof.
  assert (decode_state_response (encode_state_response sample_response) = Some sample_response)
    as H by (vm_compute; reflexivity).
  split; [exact H|].
  destruct (state_response_accepted _ _ H) as (_ & _ & _ & _ & Hv3).
  apply Hv3. vm_compute. reflexivity.
Defined.

(** A state snapshot survives chunking.  If the encoder produces payloads,
    then the snapshot was valid and each payload, of at most the channel's size,
    decodes to the same session, state and hashes with its own position and a
    part of the answers, the parts in order being all the answers.  And the
    encoder does produce payloads for every valid snapshot whose answers take
    up to 64 chunks even in the worst packing (about 3 MB). *)
Theorem state_snapshot_chunks (r : StateResponse) :
  typed_response r ->
  let wires := encode_state_response_chunks r in
  (wires <> [] ->
   valid_state_response_metadata r = true /\
   answers_ok (sp_highest_contiguous_sequence r) ∅ ∅ (sp_answers r) /\
   len wires <= kMaximumStateChunks /\
   exists parts, concat parts = sp_answers r /\ length parts = length wires /\
     forall i p, parts !! i = Some p -> exists w, wires !! i = Some w /\
       len w <= kMaximumWireBytes /\
       decode_state_response w = Some (with_chunk r (Z.of_nat i) (len wires) p)) /\
  (valid_state_response_metadata r = true ->
   answers_ok (sp_highest_contiguous_sequence r) ∅ ∅ (sp_answers r) ->
   answers_bytes (sp_answers r) <
     kMaximumStateChunks * (kMaximumWireBytes - response_base_bytes r - max_answer_bytes) ->
   wires <> []).
Proof.
  intros Ht wires. unfold wires, encode_state_response_chunks. clear wires.
  destruct (valid_state_response_metadata r) eqn:Hm; cbn [negb orb]; [|done].
  pose proof (response_base_bound r Hm) as Hbase.
  destruct (identity_facts r (metadata_identity r Hm)) as (_&_&_&_&_&_&_& Hn &_).
  destruct (len (sp_answers r) >? _) eqn:E1; bool_to_prop; [lia|].
  destruct (response_base_bytes r >? _) eqn:E2; bool_to_prop; [unfold max_answer_bytes,
    kMaximumQuestionIdBytes, kMaximumAnswerBytes in Hbase; lia|].
  destruct (forallb _ _) eqn:Efit; cbn [negb].
  2: { split; [done|]. intros _ Hok _.
       destruct (answers_ok_distinct _ _ _ _ _ Hok Hbase) as [Hf _]. congruence. }
  destruct (all_distinct _ _ _) eqn:Edis; cbn [negb].
  2: { split; [done|]. intros _ Hok _.
       destruct (answers_ok_distinct _ _ _ _ _ Hok Hbase) as [_ Hd]. congruence. }
  pose proof (all_distinct_ok _ _ _ _ _ Efit Edis) as Hok.
  destruct (snapshot_parts r Ht Hm Hok) as (parts & -> & Hne & Hcat & Hcount & Hchunks).
  destruct (_ || _) eqn:Ecount.
  { split; [done|]. intros _ _ Hbytes.
    assert (kMaximumStateChunks < len parts) by
      (apply orb_true_iff in Ecount as [?|?]; bool_to_prop; unfold kMaximumStateChunks, u16_max in *;
       lia). nia. }
  bool_to_prop. destruct (Hchunks ltac:(done)) as (wires & Henc & Hlen & Hdec).
  assert (default [] (encode_chunks r 0 (len parts) parts) = wires) as -> by (by rewrite Henc).
  split.
  - intros _. do 2 (split; [done|]). split; [unfold len in *; rewrite Hlen; done|].
    exists parts. split_and!; [done|done|]. intros i p Hp. unfold len. rewrite Hlen. by apply Hdec.
  - intros _ _ _ ->. by destruct parts.
Qed.

Lemma state_snapshot_chunks_witness : encode_state_response_chunks sample_response <> [].
Proof.
  destruct (state_snapshot_chunks sample_response) as [_ H].
  - do 5 (split; [reflexivity|]).
    assert (u64 4 /\ u16 0 /\ u16 1 /\ u32 1 /\ u64 2) as (H4 & H0 & H1 & Hr & H2)
      by (split_and!; ulia).
    refine (conj H4 (conj H0 (conj H1 _))). apply Forall_cons; split; [by split_and!|].
    apply Forall_cons; split; [by split_and!|]. apply Forall_nil_2.
  - apply H; [vm_compute; reflexivity| |vm_compute; reflexivity].
    apply (all_distinct_ok _ 200); vm_compute; reflexivity.
Defined.

End ExamSync.
