(* ===== verification/ExamControl.v ===== *)
(** Exam control messages (common/include/nstu/exam_control.hpp,
    common/src/exam_control.cpp): the start request, and the ready report and
    begin command of the synchronized-start barrier. *)

From S2P Require Import Prelude Utf8 Wire Codec Protocol Auth ExamSync.
Import ReaderNotations.
#[local] Open Scope nstu_scope.

Module ExamControl.
Import Utf8.

(** ** Constants *)

Definition kMaximumExamControlPathBytes : Z := 2048.
Definition kMaximumExamControlPackageIdBytes : Z := ExamSync.kMaximumPackageIdBytes.
Definition kMaximumExamControlCandidateBytes : Z := 128.
Definition kMaximumExamControlPayloadBytes : Z := 16 * 1024.
Definition kMinimumExamDurationSeconds : Z := 60.
Definition kMaximumExamDurationSeconds : Z := 86400.

Definition kExamStartMagic : Z := 0x31535845.
Definition kExamStartVersion : Z := 2.
Definition kExamStartFlags : Z := 0.
Definition kFixedHeaderBytes : Z := 4 + 2 * 7 + 32 + 16 + 16.
Definition kExamReadyMagic : Z := 0x59444552.
Definition kExamBeginMagic : Z := 0x4e474245.
Definition kExamBarrierVersion : Z := 1.
Definition kExamBarrierFlags : Z := 0.
Definition kExamReadyFixedBytes : Z := 4 + 2 * 4 + 32 + 16 + 16.
Definition kExamBeginFixedBytes : Z := kExamReadyFixedBytes + 8 + 4.

(** ** Data *)

Record ExamStartRequest := mkExamStartRequest {
  es_package_root : bytes;
  es_web_root : bytes;
  es_user_data_root : bytes;
  es_package_id : bytes;
  es_candidate_id : bytes;
  es_package_digest : bytes;
  es_client_id : bytes;
  es_session_id : bytes
}.

Record ExamReadyReport := mkExamReadyReport {
  er_package_id : bytes;
  er_candidate_id : bytes;
  er_package_digest : bytes;
  er_client_id : bytes;
  er_session_id : bytes
}.

Record ExamBeginCommand := mkExamBeginCommand {
  eb_package_id : bytes;
  eb_candidate_id : bytes;
  eb_package_digest : bytes;
  eb_client_id : bytes;
  eb_session_id : bytes;
  eb_server_start : Z;
  eb_duration_seconds : Z
}.

(** ** Validation *)

Definition non_zero (value : bytes) : bool :=
  negb (bool_decide (value = [])) && existsb (fun b => negb (bool_decide (b = Byte.x00))) value.

#[global] Arguments non_zero _ : simpl never.
#[global] Arguments control_valid_utf8 _ _ : simpl never.

Definition validate_exam_start_request (r : ExamStartRequest) : bool :=
  control_valid_utf8 (es_package_root r) kMaximumExamControlPathBytes &&
  (bool_decide (es_web_root r = []) || control_valid_utf8 (es_web_root r) kMaximumExamControlPathBytes) &&
  (bool_decide (es_user_data_root r = []) ||
   control_valid_utf8 (es_user_data_root r) kMaximumExamControlPathBytes) &&
  control_valid_utf8 (es_package_id r) kMaximumExamControlPackageIdBytes &&
  control_valid_utf8 (es_candidate_id r) kMaximumExamControlCandidateBytes &&
  non_zero (es_package_digest r) && non_zero (es_client_id r) && non_zero (es_session_id r).

Definition validate_exam_ready_report (r : ExamReadyReport) : bool :=
  control_valid_utf8 (er_package_id r) kMaximumExamControlPackageIdBytes &&
  control_valid_utf8 (er_candidate_id r) kMaximumExamControlCandidateBytes &&
  non_zero (er_package_digest r) && non_zero (er_client_id r) && non_zero (er_session_id r).

Definition validate_exam_begin_command (c : ExamBeginCommand) : bool :=
  control_valid_utf8 (eb_package_id c) kMaximumExamControlPackageIdBytes &&
  control_valid_utf8 (eb_candidate_id c) kMaximumExamControlCandidateBytes &&
  non_zero (eb_package_digest c) && non_zero (eb_client_id c) && non_zero (eb_session_id c) &&
  negb (eb_server_start c =? 0) &&
  ((eb_duration_seconds c =? 0) ||
   ((eb_duration_seconds c >=? kMinimumExamDurationSeconds) &&
    (eb_duration_seconds c <=? kMaximumExamDurationSeconds))).

(** ** Reading *)

Definition read_text (length maximum : Z) : reader bytes :=
  guard (negb ((length =? 0) || (length >? maximum))) ;;
  output <- read_bytes (Z.to_nat length) ;;
  guard (control_valid_utf8 output maximum) ;;
  rret output.

(** [if (bytes != 0 && !read_text(...)) return std::nullopt]. *)
Definition read_optional_text (length maximum : Z) : reader bytes :=
  if length =? 0 then rret [] else read_text length maximum.

Definition read_identity : reader (bytes * bytes * bytes) :=
  left <- rremaining ;; guard (negb (32 + 16 + 16 >? left)) ;;
  digest <- read_bytes 32 ;;
  client <- read_bytes 16 ;;
  session <- read_bytes 16 ;;
  rret (digest, client, session).

(** ** Start request *)

Definition start_request_wire (r : ExamStartRequest) : bytes :=
  write_le 4 kExamStartMagic ++ write_le 2 kExamStartVersion ++ write_le 2 kExamStartFlags ++
  write_le 2 (len (es_package_root r)) ++ write_le 2 (len (es_web_root r)) ++
  write_le 2 (len (es_user_data_root r)) ++ write_le 2 (len (es_package_id r)) ++
  write_le 2 (len (es_candidate_id r)) ++ es_package_digest r ++ es_client_id r ++
  es_session_id r ++ es_package_root r ++ es_web_root r ++ es_user_data_root r ++
  es_package_id r ++ es_candidate_id r.

Definition encode_exam_start_request (r : ExamStartRequest) : bytes :=
  if negb (validate_exam_start_request r) || (len (es_package_root r) >? u16_max) ||
     (len (es_web_root r) >? u16_max) || (len (es_user_data_root r) >? u16_max) ||
     (len (es_package_id r) >? u16_max) || (len (es_candidate_id r) >? u16_max)
  then []
  else
    let total := kFixedHeaderBytes + len (es_package_root r) + len (es_web_root r) +
      len (es_user_data_root r) + len (es_package_id r) + len (es_candidate_id r) in
    if total >? kMaximumExamControlPayloadBytes then [] else start_request_wire r.

Definition decode_exam_start_request (payload : bytes) : option ExamStartRequest :=
  if (len payload <? kFixedHeaderBytes) || (len payload >? kMaximumExamControlPayloadBytes)
  then None
  else
    run_reader (
      magic <- read_le 4 ;; guard (magic =? kExamStartMagic) ;;
      version <- read_le 2 ;; guard (version =? kExamStartVersion) ;;
      flags <- read_le 2 ;; guard (flags =? kExamStartFlags) ;;
      package_bytes <- read_le 2 ;;
      web_bytes <- read_le 2 ;;
      user_data_bytes <- read_le 2 ;;
      package_id_bytes <- read_le 2 ;;
      candidate_bytes <- read_le 2 ;;
      package_digest <- read_bytes 32 ;;
      client_id <- read_bytes 16 ;;
      session_id <- read_bytes 16 ;;
      package_root <- read_text package_bytes kMaximumExamControlPathBytes ;;
      web_root <- read_optional_text web_bytes kMaximumExamControlPathBytes ;;
      user_data_root <- read_optional_text user_data_bytes kMaximumExamControlPathBytes ;;
      package_id <- read_text package_id_bytes kMaximumExamControlPackageIdBytes ;;
      candidate_id <- read_text candidate_bytes kMaximumExamControlCandidateBytes ;;
      left <- rremaining ;; guard (left =? 0) ;;
      let request := mkExamStartRequest package_root web_root user_data_root package_id
        candidate_id package_digest client_id session_id in
      guard (validate_exam_start_request request) ;;
      rret request) payload.

(** ** Ready report *)

Definition ready_report_wire (r : ExamReadyReport) : bytes :=
  write_le 4 kExamReadyMagic ++ write_le 2 kExamBarrierVersion ++ write_le 2 kExamBarrierFlags ++
  write_le 2 (len (er_package_id r)) ++ write_le 2 (len (er_candidate_id r)) ++
  er_package_digest r ++ er_client_id r ++ er_session_id r ++ er_package_id r ++
  er_candidate_id r.

Definition encode_exam_ready_report (r : ExamReadyReport) : bytes :=
  if negb (validate_exam_ready_report r) || (len (er_package_id r) >? u16_max) ||
     (len (er_candidate_id r) >? u16_max)
  then []
  else
    let total := kExamReadyFixedBytes + len (er_package_id r) + len (er_candidate_id r) in
    if total >? kMaximumExamControlPayloadBytes then [] else ready_report_wire r.

Definition decode_exam_ready_report (payload : bytes) : option ExamReadyReport :=
  if (len payload <? kExamReadyFixedBytes) || (len payload >? kMaximumExamControlPayloadBytes)
  then None
  else
    run_reader (
      magic <- read_le 4 ;; guard (magic =? kExamReadyMagic) ;;
      version <- read_le 2 ;; guard (version =? kExamBarrierVersion) ;;
      flags <- read_le 2 ;; guard (flags =? kExamBarrierFlags) ;;
      package_id_bytes <- read_le 2 ;;
      candidate_bytes <- read_le 2 ;;
      identity <- read_identity ;;
      package_id <- read_text package_id_bytes kMaximumExamControlPackageIdBytes ;;
      candidate_id <- read_text candidate_bytes kMaximumExamControlCandidateBytes ;;
      left <- rremaining ;; guard (left =? 0) ;;
      let report := mkExamReadyReport package_id candidate_id identity.1.1 identity.1.2
        identity.2 in
      guard (validate_exam_ready_report report) ;;
      rret report) payload.

(** ** Begin command *)

Definition begin_command_wire (c : ExamBeginCommand) : bytes :=
  write_le 4 kExamBeginMagic ++ write_le 2 kExamBarrierVersion ++ write_le 2 kExamBarrierFlags ++
  write_le 2 (len (eb_package_id c)) ++ write_le 2 (len (eb_candidate_id c)) ++
  write_le 8 (eb_server_start c) ++ write_le 4 (eb_duration_seconds c) ++
  eb_package_digest c ++ eb_client_id c ++ eb_session_id c ++ eb_package_id c ++
  eb_candidate_id c.

Definition encode_exam_begin_command (c : ExamBeginCommand) : bytes :=
  if negb (validate_exam_begin_command c) || (len (eb_package_id c) >? u16_max) ||
     (len (eb_candidate_id c) >? u16_max)
  then []
  else
    let total := kExamBeginFixedBytes + len (eb_package_id c) + len (eb_candidate_id c) in
    if total >? kMaximumExamControlPayloadBytes then [] else begin_command_wire c.

Definition decode_exam_begin_command (payload : bytes) : option ExamBeginCommand :=
  if (len payload <? kExamBeginFixedBytes) || (len payload >? kMaximumExamControlPayloadBytes)
  then None
  else
    run_reader (
      magic <- read_le 4 ;; guard (magic =? kExamBeginMagic) ;;
      version <- read_le 2 ;; guard (version =? kExamBarrierVersion) ;;
      flags <- read_le 2 ;; guard (flags =? kExamBarrierFlags) ;;
      package_id_bytes <- read_le 2 ;;
      candidate_bytes <- read_le 2 ;;
      server_start <- read_le 8 ;;
      duration <- read_le 4 ;;
      identity <- read_identity ;;
      package_id <- read_text package_id_bytes kMaximumExamControlPackageIdBytes ;;
      candidate_id <- read_text candidate_bytes kMaximumExamControlCandidateBytes ;;
      left <- rremaining ;; guard (left =? 0) ;;
      let command := mkExamBeginCommand package_id candidate_id identity.1.1 identity.1.2
        identity.2 server_start duration in
      guard (validate_exam_begin_command command) ;;
      rret command) payload.

(** ** Well-formed values: valid, with fields of their C++ widths *)

Definition wf_start (r : ExamStartRequest) : Prop :=
  validate_exam_start_request r = true /\ length (es_package_digest r) = 32%nat /\
  length (es_client_id r) = 16%nat /\ length (es_session_id r) = 16%nat.

Definition wf_ready (r : ExamReadyReport) : Prop :=
  validate_exam_ready_report r = true /\ length (er_package_digest r) = 32%nat /\
  length (er_client_id r) = 16%nat /\ length (er_session_id r) = 16%nat.

Definition wf_begin (c : ExamBeginCommand) : Prop :=
  validate_exam_begin_command c = true /\ length (eb_package_digest c) = 32%nat /\
  length (eb_client_id c) = 16%nat /\ length (eb_session_id c) = 16%nat /\
  u64 (eb_server_start c) /\ u32 (eb_duration_seconds c).

(** ** Text fields *)

Lemma valid_utf8_len v m : control_valid_utf8 v m = true -> 0 < len v <= m.
Proof.
  unfold control_valid_utf8. destruct v as [|b v]; [done|]. rewrite len_cons.
  pose proof (len_nonneg v). destruct (_ || _) eqn:E; [done|]. bool_to_prop. lia.
Qed.

Lemma rbind_read_text {B} l s rest m (k : bytes -> reader B) :
  control_valid_utf8 s m = true -> l = len s -> rbind (read_text l m) k (s ++ rest) = k s rest.
Proof.
  intros Hs ->. pose proof (valid_utf8_len _ _ Hs). unfold read_text.
  rewrite !rbind_assoc, rbind_guard by lia.
  rewrite rbind_assoc, rbind_read_bytes by (unfold len; lia).
  rewrite rbind_assoc, rbind_guard by done. done.
Qed.

Lemma rbind_read_text_end {B} l s m (k : bytes -> reader B) :
  control_valid_utf8 s m = true -> l = len s -> rbind (read_text l m) k s = k s [].
Proof. intros Hs ->. rewrite <- (app_nil_r s) at 2. by apply rbind_read_text. Qed.

Lemma rbind_read_optional_text {B} l s rest m (k : bytes -> reader B) :
  s = [] \/ control_valid_utf8 s m = true -> l = len s ->
  rbind (read_optional_text l m) k (s ++ rest) = k s rest.
Proof.
  intros [->|Hs] ->; [done|]. pose proof (valid_utf8_len _ _ Hs). unfold read_optional_text.
  destruct (Z.eqb_spec (len s) 0); [lia|]. by apply rbind_read_text.
Qed.

Lemma read_text_inv l m input s rest :
  u16 l -> read_text l m input = Some (s, rest) ->
  input = s ++ rest /\ control_valid_utf8 s m = true /\ l = len s.
Proof.
  unfold read_text. intros Hl H. reader_inv. split_and!; try done. unfold len. ulia.
Qed.

Lemma read_optional_text_inv l m input s rest :
  u16 l -> read_optional_text l m input = Some (s, rest) ->
  input = s ++ rest /\ (s = [] \/ control_valid_utf8 s m = true) /\ l = len s.
Proof.
  unfold read_optional_text. intros Hl. destruct (Z.eqb_spec l 0) as [->|].
  - intros [= <- <-]. auto.
  - intros (-> & ? & ->)%read_text_inv; [|done]. auto.
Qed.

Lemma rbind_read_identity {B} digest client session rest (k : bytes * bytes * bytes -> reader B) :
  length digest = 32%nat -> length client = 16%nat -> length session = 16%nat ->
  rbind read_identity k (digest ++ client ++ session ++ rest) = k (digest, client, session) rest.
Proof.
  intros Hd Hc Hs. unfold read_identity. len_facts. pose proof (len_nonneg rest).
  rewrite rbind_assoc, rbind_remaining, rbind_assoc, rbind_guard
    by (autorewrite with wire; lia).
  by reader_run.
Qed.

Lemma read_identity_inv input digest client session rest :
  read_identity input = Some (digest, client, session, rest) ->
  input = digest ++ client ++ session ++ rest /\
  length digest = 32%nat /\ length client = 16%nat /\ length session = 16%nat.
Proof. unfold read_identity. intros H. reader_inv. by simplify_eq/=. Qed.

(** Read an encoded message field by field, and invert the run of a decoder. *)
Ltac text_run :=
  repeat first [reader_step; cbv beta
               | rewrite rbind_read_text by first [eassumption | reflexivity]
               | rewrite rbind_read_text_end by first [eassumption | reflexivity]
               | rewrite rbind_read_optional_text by first [eassumption | reflexivity]
               | rewrite rbind_read_identity by assumption; cbn [fst snd]].

Ltac text_inv :=
  repeat (reader_inv; match goal with
    | H : read_text _ _ _ = Some (_, _) |- _ => apply read_text_inv in H as (-> & ? & ->); [|assumption]
    | H : read_optional_text _ _ _ = Some (_, _) |- _ =>
        apply read_optional_text_inv in H as (-> & ? & ->); [|assumption]
    | H : read_identity _ = Some (?i, _) |- _ =>
        destruct i as [[? ?] ?]; apply read_identity_inv in H as (-> & ? & ? & ?)
    end); reader_inv.

(** ** Encodings *)

Lemma validate_start_texts r :
  validate_exam_start_request r = true ->
  control_valid_utf8 (es_package_root r) kMaximumExamControlPathBytes = true /\
  (es_web_root r = [] \/ control_valid_utf8 (es_web_root r) kMaximumExamControlPathBytes = true) /\
  (es_user_data_root r = [] \/
   control_valid_utf8 (es_user_data_root r) kMaximumExamControlPathBytes = true) /\
  control_valid_utf8 (es_package_id r) kMaximumExamControlPackageIdBytes = true /\
  control_valid_utf8 (es_candidate_id r) kMaximumExamControlCandidateBytes = true.
Proof.
  unfold validate_exam_start_request. intros H. bool_to_prop.
  split_and!; try done; match goal with H : _ || _ = true |- ?s = [] \/ _ =>
    revert H; destruct (bool_decide_reflect (s = [])); auto end.
Qed.

Lemma optional_text_len s m : s = [] \/ control_valid_utf8 s m = true -> 0 <= m -> 0 <= len s <= m.
Proof. intros [->|H%valid_utf8_len]; [done|lia]. Qed.

Lemma encode_start_wf r :
  wf_start r ->
  encode_exam_start_request r = start_request_wire r /\
  (u16 (len (es_package_root r)) /\ u16 (len (es_web_root r)) /\
   u16 (len (es_user_data_root r)) /\ u16 (len (es_package_id r)) /\
   u16 (len (es_candidate_id r))) /\
  kFixedHeaderBytes < len (start_request_wire r) <= kMaximumExamControlPayloadBytes.
Proof.
  intros (Hv & H1 & H2 & H3). destruct (validate_start_texts r Hv) as (T1 & T2 & T3 & T4 & T5).
  apply valid_utf8_len in T1, T4, T5. apply optional_text_len in T2, T3; [|done..].
  unfold kMaximumExamControlPathBytes, kMaximumExamControlPackageIdBytes,
    ExamSync.kMaximumPackageIdBytes, kMaximumExamControlCandidateBytes in *.
  unfold encode_exam_start_request, kMaximumExamControlPayloadBytes, kFixedHeaderBytes in *.
  rewrite Hv. cbn [negb orb]. split_and!; try ulia.
  - repeat (case_match; bool_to_prop); try done;
      rewrite ?orb_true_iff in *; unfold u16_max in *; lia.
  - unfold start_request_wire. autorewrite with wire. len_facts. lia.
  - unfold start_request_wire. autorewrite with wire. len_facts. lia.
Qed.

#[export] Program Instance start_codec : Codec ExamStartRequest := {|
  encode := encode_exam_start_request; decode := decode_exam_start_request;
  valid := wf_start |}.
Next Obligation.
  intros r Hr. destruct (encode_start_wf r Hr) as (-> & (W1 & W2 & W3 & W4 & W5) & Hl).
  destruct Hr as (Hv & H1 & H2 & H3). destruct (validate_start_texts r Hv) as (T1 & T2 & T3 & T4 & T5).
  unfold decode_exam_start_request. destruct (_ || _) eqn:E; [lia|]. clear E Hl.
  unfold run_reader, start_request_wire. text_run. by destruct r.
Qed.
Next Obligation.
  intros w r. unfold decode_exam_start_request. destruct (_ || _) eqn:E; [done|]. intros H.
  text_inv. bool_to_prop. simplify_eq. no_rest.
  match goal with |- wf_start ?r /\ _ => assert (wf_start r) as Hr by (split_and!; done) end.
  split; [done|]. rewrite (proj1 (encode_start_wf _ Hr)). unfold start_request_wire. cbn.
  by rewrite !app_nil_r.
Qed.

Lemma encode_ready_wf r :
  wf_ready r ->
  encode_exam_ready_report r = ready_report_wire r /\
  (control_valid_utf8 (er_package_id r) kMaximumExamControlPackageIdBytes = true /\
   control_valid_utf8 (er_candidate_id r) kMaximumExamControlCandidateBytes = true) /\
  (u16 (len (er_package_id r)) /\ u16 (len (er_candidate_id r))) /\
  kExamReadyFixedBytes < len (ready_report_wire r) <= kMaximumExamControlPayloadBytes.
Proof.
  intros (Hv & H1 & H2 & H3). pose proof Hv as Hv'. unfold validate_exam_ready_report in Hv'.
  bool_to_prop. split; [|split; [done|]].
  all: repeat match goal with H : control_valid_utf8 _ _ = true |- _ => apply valid_utf8_len in H end.
  all: unfold kMaximumExamControlPackageIdBytes, ExamSync.kMaximumPackageIdBytes,
    kMaximumExamControlCandidateBytes, kMaximumExamControlPayloadBytes, kExamReadyFixedBytes in *.
  - unfold encode_exam_ready_report, kMaximumExamControlPayloadBytes, kExamReadyFixedBytes.
    rewrite Hv. cbn [negb orb].
    repeat (case_match; bool_to_prop); try done;
      rewrite ?orb_true_iff in *; unfold u16_max in *; lia.
  - unfold ready_report_wire. autorewrite with wire. len_facts. split_and!; ulia.
Qed.

#[export] Program Instance ready_codec : Codec ExamReadyReport := {|
  encode := encode_exam_ready_report; decode := decode_exam_ready_report; valid := wf_ready |}.
Next Obligation.
  intros r Hr. destruct (encode_ready_wf r Hr) as (-> & (T1 & T2) & (W1 & W2) & Hl).
  destruct Hr as (Hv & H1 & H2 & H3).
  unfold decode_exam_ready_report. destruct (_ || _) eqn:E; [lia|]. clear E Hl.
  unfold run_reader, ready_report_wire. text_run. by destruct r.
Qed.
Next Obligation.
  intros w r. unfold decode_exam_ready_report. destruct (_ || _) eqn:E; [done|]. intros H.
  text_inv. bool_to_prop. simplify_eq/=. no_rest.
  match goal with |- wf_ready ?r /\ _ => assert (wf_ready r) as Hr by (split_and!; done) end.
  split; [done|]. rewrite (proj1 (encode_ready_wf _ Hr)). unfold ready_report_wire. cbn.
  by rewrite !app_nil_r.
Qed.

Lemma encode_begin_wf c :
  wf_begin c ->
  encode_exam_begin_command c = begin_command_wire c /\
  (control_valid_utf8 (eb_package_id c) kMaximumExamControlPackageIdBytes = true /\
   control_valid_utf8 (eb_candidate_id c) kMaximumExamControlCandidateBytes = true) /\
  (u16 (len (eb_package_id c)) /\ u16 (len (eb_candidate_id c))) /\
  kExamBeginFixedBytes < len (begin_command_wire c) <= kMaximumExamControlPayloadBytes.
Proof.
  intros (Hv & H1 & H2 & H3 & _). pose proof Hv as Hv'. unfold validate_exam_begin_command in Hv'.
  bool_to_prop. split; [|split; [done|]].
  all: repeat match goal with H : control_valid_utf8 _ _ = true |- _ => apply valid_utf8_len in H end.
  all: unfold kMaximumExamControlPackageIdBytes, ExamSync.kMaximumPackageIdBytes,
    kMaximumExamControlCandidateBytes, kMaximumExamControlPayloadBytes, kExamBeginFixedBytes,
    kExamReadyFixedBytes in *.
  - unfold encode_exam_begin_command, kMaximumExamControlPayloadBytes, kExamBeginFixedBytes,
      kExamReadyFixedBytes.
    rewrite Hv. cbn [negb orb].
    repeat (case_match; bool_to_prop); try done;
      rewrite ?orb_true_iff in *; unfold u16_max in *; lia.
  - unfold begin_command_wire. autorewrite with wire. len_facts. split_and!; ulia.
Qed.

#[export] Program Instance begin_codec : Codec ExamBeginCommand := {|
  encode := encode_exam_begin_command; decode := decode_exam_begin_command; valid := wf_begin |}.
Next Obligation.
  intros c Hc. destruct (encode_begin_wf c Hc) as (-> & (T1 & T2) & (W1 & W2) & Hl).
  destruct Hc as (Hv & H1 & H2 & H3 & H4 & H5).
  unfold decode_exam_begin_command. destruct (_ || _) eqn:E; [lia|]. clear E Hl.
  unfold run_reader, begin_command_wire. text_run. by destruct c.
Qed.
Next Obligation.
  intros w c. unfold decode_exam_begin_command. destruct (_ || _) eqn:E; [done|]. intros H.
  text_inv. bool_to_prop. simplify_eq/=. no_rest.
  match goal with |- wf_begin ?r /\ _ => assert (wf_begin r) as Hc by (split_and!; done) end.
  split; [done|]. rewrite (proj1 (encode_begin_wf _ Hc)). unfold begin_command_wire. cbn.
  by rewrite !app_nil_r.
Qed.

(** Nothing else is encoded. *)
Lemma encode_invalid :
  (forall r, validate_exam_start_request r = false -> encode_exam_start_request r = []) /\
  (forall r, validate_exam_ready_report r = false -> encode_exam_ready_report r = []) /\
  (forall c, validate_exam_begin_command c = false -> encode_exam_begin_command c = []).
Proof.
  unfold encode_exam_start_request, encode_exam_ready_report, encode_exam_begin_command.
  by split_and!; intros ? ->.
Qed.

End ExamControl.
