(* ===== verification/ExamTelemetry.v ===== *)
(** Exam telemetry messages (common/include/nstu/exam_telemetry.hpp,
    common/src/exam_telemetry.cpp): samples, batches of samples, batch
    acknowledgements and the enable message. *)

From S2P Require Import Prelude Utf8 Wire Codec Protocol Auth ExamSync ExamControl.
Import ReaderNotations.
#[local] Open Scope nstu_scope.

Module ExamTelemetry.
Import Utf8.

(** ** Constants *)

Definition kMaximumTelemetrySampleBytes : Z := 4 * 1024.
Definition kMaximumTelemetryBatchBytes : Z := 32 * 1024.
Definition kMinimumBatchSamples : Z := 1.
Definition kMaximumBatchSamples : Z := 32.
Definition kTelemetrySampleFixedBytes : Z := 56.
Definition kTelemetryBatchFixedBytes : Z := 108.
Definition kTelemetryAckFixedBytes : Z := 88.
Definition kTelemetryEnableFixedBytes : Z := 84.
Definition kMaximumTelemetryEnableBytes : Z := 16 * 1024.
Definition kSampleMagic : Z := 0x3153544e.
Definition kBatchMagic : Z := 0x3154424e.
Definition kAckMagic : Z := 0x3141544e.
Definition kEnableMagic : Z := 0x3145454e.
Definition kWireVersion : Z := 1.

(** Enumerations, by raw value: the first and last of each. *)
Definition kind_collector_started : Z := 1.
Definition kind_clock_discontinuity : Z := 11.
Definition source_browser : Z := 1.
Definition source_native : Z := 2.
Definition ack_accepted : Z := 1.
Definition ack_duplicate : Z := 2.
Definition ack_rejected : Z := 3.
Definition ack_conflict : Z := 4.
Definition ack_unavailable : Z := 5.
Definition reason_loss_rate_limit : Z := 20.

(** ** Data *)

Record TelemetrySample := mkTelemetrySample {
  ts_kind : Z;
  ts_source : Z;
  ts_collector_id : Z;
  ts_question_id : bytes;
  ts_question_revision : Z;
  ts_monotonic_elapsed : Z;
  ts_duration : Z;
  ts_client_time : Z;
  ts_numeric_value : Z;
  ts_count : Z;
  ts_reason : Z
}.

Record TelemetryBatch := mkTelemetryBatch {
  tb_package_id : bytes;
  tb_package_digest : bytes;
  tb_client_id : bytes;
  tb_session_id : bytes;
  tb_candidate_id : bytes;
  tb_producer_id : bytes;
  tb_sequence : Z;
  tb_first_enqueued_at : Z;
  tb_samples : list TelemetrySample
}.

Record TelemetryAck := mkTelemetryAck {
  ta_session_id : bytes;
  ta_producer_id : bytes;
  ta_sequence : Z;
  ta_batch_hash : bytes;
  ta_server_time : Z;
  ta_status : Z
}.

Record TelemetryEnable := mkTelemetryEnable {
  te_package_id : bytes;
  te_package_digest : bytes;
  te_client_id : bytes;
  te_session_id : bytes;
  te_candidate_id : bytes;
  te_server_time : Z
}.

(** ** Validation *)

Definition all_zero (bs : bytes) : bool :=
  forallb (fun b => bool_decide (b = Byte.x00)) bs.

#[global] Arguments all_zero _ : simpl never.
#[global] Arguments telemetry_valid_text _ _ _ : simpl never.

Definition valid_telemetry_reason (reason : Z) : bool := reason <=? reason_loss_rate_limit.

Definition valid_sample_kind (kind : Z) : bool :=
  (kind >=? kind_collector_started) && (kind <=? kind_clock_discontinuity).

Definition valid_source (source : Z) : bool :=
  (source =? source_browser) || (source =? source_native).

Definition valid_ack_status (status : Z) : bool :=
  (status >=? ack_accepted) && (status <=? ack_unavailable).

Definition validate_telemetry_sample (s : TelemetrySample) : bool :=
  if negb (valid_sample_kind (ts_kind s)) || negb (valid_source (ts_source s)) ||
     negb (valid_telemetry_reason (ts_reason s))
  then false
  else if (ts_collector_id s =? 0) || (ts_client_time s =? 0) then false
  else if bool_decide (ts_question_id s = []) then
    if negb (ts_question_revision s =? 0) then false else true
  else if ts_question_revision s =? 0 then false
  else if negb (telemetry_valid_text (ts_question_id s) ExamSync.kMaximumQuestionIdBytes false) then false
  else true.

Definition validate_telemetry_batch (b : TelemetryBatch) : bool :=
  if (tb_sequence b =? 0) || (tb_first_enqueued_at b =? 0) then false
  else if all_zero (tb_package_digest b) || all_zero (tb_client_id b) ||
          all_zero (tb_session_id b) || all_zero (tb_producer_id b) then false
  else if negb (telemetry_valid_text (tb_package_id b) ExamSync.kMaximumPackageIdBytes false) ||
          negb (telemetry_valid_text (tb_candidate_id b) ExamSync.kMaximumCandidateIdBytes false)
  then false
  else if (len (tb_samples b) <? kMinimumBatchSamples) ||
          (len (tb_samples b) >? kMaximumBatchSamples) then false
  else forallb validate_telemetry_sample (tb_samples b).

Definition validate_telemetry_ack (a : TelemetryAck) : bool :=
  if negb (valid_ack_status (ta_status a)) then false
  else if (ta_sequence a =? 0) || (ta_server_time a =? 0) then false
  else if all_zero (ta_session_id a) || all_zero (ta_producer_id a) then false
  else true.

Definition validate_telemetry_enable (e : TelemetryEnable) : bool :=
  if all_zero (te_package_digest e) || all_zero (te_client_id e) || all_zero (te_session_id e)
  then false
  else if negb (telemetry_valid_text (te_package_id e) ExamSync.kMaximumPackageIdBytes false) ||
          negb (telemetry_valid_text (te_candidate_id e) ExamSync.kMaximumCandidateIdBytes false)
  then false
  else true.

(** ** Strings *)

Definition append_string (str : bytes) : bytes := write_le 2 (len str) ++ str.

Definition read_string (max_bytes : Z) (allow_empty : bool) : reader bytes :=
  length <- read_le 2 ;;
  guard (negb ((length >? max_bytes) || (negb allow_empty && (length =? 0)))) ;;
  str <- read_bytes (Z.to_nat length) ;;
  guard (telemetry_valid_text str max_bytes allow_empty) ;;
  rret str.

(** ** Samples *)

Definition telemetry_sample_wire (s : TelemetrySample) : bytes :=
  write_le 4 kSampleMagic ++ write_le 2 kWireVersion ++ write_le 1 (ts_kind s) ++
  write_le 1 (ts_source s) ++ write_le 2 0 ++ write_le 8 (ts_collector_id s) ++
  write_le 8 (ts_monotonic_elapsed s) ++ write_le 4 (ts_duration s) ++
  write_le 8 (ts_client_time s) ++ write_le 4 (ts_numeric_value s) ++
  write_le 4 (ts_count s) ++ write_le 4 (ts_reason s) ++ write_le 4 (ts_question_revision s) ++
  append_string (ts_question_id s).

Definition encode_telemetry_sample (s : TelemetrySample) : bytes :=
  if negb (validate_telemetry_sample s) then []
  else
    let wire := telemetry_sample_wire s in
    if len wire >? kMaximumTelemetrySampleBytes then [] else wire.

Definition decode_telemetry_sample (payload : bytes) : result TelemetrySample :=
  if (len payload <? kTelemetrySampleFixedBytes) ||
     (len payload >? kMaximumTelemetrySampleBytes)
  then Err "invalid telemetry sample payload size"
  else
    erun (
      header <~ orelse "invalid sample header, version, or reserved bits" (
        magic <- read_le 4 ;; guard (magic =? kSampleMagic) ;;
        version <- read_le 2 ;; guard (version =? kWireVersion) ;;
        raw_kind <- read_le 1 ;;
        raw_source <- read_le 1 ;;
        reserved <- read_le 2 ;; guard (reserved =? 0) ;;
        rret (raw_kind, raw_source)) ;;
      sample <~ orelse "malformed sample fields or question_id" (
        collector_id <- read_le 8 ;;
        monotonic_elapsed <- read_le 8 ;;
        duration <- read_le 4 ;;
        client_time <- read_le 8 ;;
        numeric_value <- read_le 4 ;;
        count <- read_le 4 ;;
        raw_reason <- read_le 4 ;; guard (valid_telemetry_reason raw_reason) ;;
        question_revision <- read_le 4 ;;
        question_id <- read_string ExamSync.kMaximumQuestionIdBytes true ;;
        rret (mkTelemetrySample header.1 header.2 collector_id question_id question_revision
                monotonic_elapsed duration client_time numeric_value count raw_reason)) ;;
      left <~ eremaining ;;
      expect left =? 0 else "trailing bytes in sample payload" ;;
      expect validate_telemetry_sample sample else "telemetry sample validation failed" ;;
      eret sample) payload.

(** ** Batches *)

Definition batch_header_wire (b : TelemetryBatch) : bytes :=
  write_le 4 kBatchMagic ++ write_le 2 kWireVersion ++ write_le 2 (len (tb_samples b)) ++
  write_le 8 (tb_sequence b) ++ write_le 8 (tb_first_enqueued_at b) ++
  tb_package_digest b ++ tb_client_id b ++ tb_session_id b ++ tb_producer_id b ++
  append_string (tb_package_id b) ++ append_string (tb_candidate_id b).

(** The loop over the samples; [None] is its early [return {}]. *)
Fixpoint append_samples (samples : list TelemetrySample) : option bytes :=
  match samples with
  | [] => Some []
  | sample :: samples' =>
      let sample_wire := encode_telemetry_sample sample in
      if bool_decide (sample_wire = []) || (len sample_wire >? kMaximumTelemetrySampleBytes)
      then None
      else
        match append_samples samples' with
        | None => None
        | Some rest => Some (append_string sample_wire ++ rest)
        end
  end.

Definition encode_telemetry_batch (b : TelemetryBatch) : bytes :=
  if negb (validate_telemetry_batch b) then []
  else
    match append_samples (tb_samples b) with
    | None => []
    | Some samples =>
        let wire := batch_header_wire b ++ samples in
        if len wire >? kMaximumTelemetryBatchBytes then [] else wire
    end.

Definition read_sample : ereader TelemetrySample :=
  sample_span <~ orelse "malformed sample size in batch" (
    sample_len <- read_le 2 ;;
    guard (negb (sample_len >? kMaximumTelemetrySampleBytes)) ;;
    sample_span <- read_bytes (Z.to_nat sample_len) ;;
    rret sample_span) ;;
  match decode_telemetry_sample sample_span with
  | Ok sample => eret sample
  | Err sample_error => fun _ => Err sample_error
  end.

Definition decode_telemetry_batch (payload : bytes) : result TelemetryBatch :=
  if (len payload <? kTelemetryBatchFixedBytes + 2 + 2 + kTelemetrySampleFixedBytes) ||
     (len payload >? kMaximumTelemetryBatchBytes)
  then Err "invalid batch payload size"
  else
    erun (
      sample_count <~ orelse "invalid batch header, version, or sample count" (
        magic <- read_le 4 ;; guard (magic =? kBatchMagic) ;;
        version <- read_le 2 ;; guard (version =? kWireVersion) ;;
        sample_count <- read_le 2 ;;
        guard (negb ((sample_count <? kMinimumBatchSamples) ||
                     (sample_count >? kMaximumBatchSamples))) ;;
        rret sample_count) ;;
      batch <~ orelse "malformed batch header identity fields" (
        sequence <- read_le 8 ;;
        first_enqueued_at <- read_le 8 ;;
        package_digest <- read_bytes 32 ;;
        client_id <- read_bytes 16 ;;
        session_id <- read_bytes 16 ;;
        producer_id <- read_bytes 16 ;;
        package_id <- read_string ExamSync.kMaximumPackageIdBytes false ;;
        candidate_id <- read_string ExamSync.kMaximumCandidateIdBytes false ;;
        rret (mkTelemetryBatch package_id package_digest client_id session_id candidate_id
                producer_id sequence first_enqueued_at)) ;;
      samples <~ eread_many (Z.to_nat sample_count) read_sample ;;
      left <~ eremaining ;;
      expect left =? 0 else "trailing bytes in batch payload" ;;
      expect validate_telemetry_batch (batch samples) else "batch validation failed" ;;
      eret (batch samples)) payload.

Section Hashing.
Variable sha256 : bytes -> option bytes.

Definition compute_telemetry_batch_hash (b : TelemetryBatch) : option bytes :=
  let wire := encode_telemetry_batch b in
  if bool_decide (wire = []) then None else sha256 wire.
End Hashing.

(** ** Acknowledgements *)

Definition encode_telemetry_ack (a : TelemetryAck) : bytes :=
  if negb (validate_telemetry_ack a) then []
  else
    write_le 4 kAckMagic ++ write_le 2 kWireVersion ++ write_le 1 (ta_status a) ++
    write_le 1 0 ++ write_le 8 (ta_sequence a) ++ write_le 8 (ta_server_time a) ++
    ta_session_id a ++ ta_producer_id a ++ ta_batch_hash a.

Definition decode_telemetry_ack (payload : bytes) : result TelemetryAck :=
  if negb (len payload =? kTelemetryAckFixedBytes)
  then Err "invalid telemetry ack payload size"
  else
    erun (
      raw_status <~ orelse "invalid ack header, version, or reserved bits" (
        magic <- read_le 4 ;; guard (magic =? kAckMagic) ;;
        version <- read_le 2 ;; guard (version =? kWireVersion) ;;
        raw_status <- read_le 1 ;;
        reserved <- read_le 1 ;; guard (reserved =? 0) ;;
        rret raw_status) ;;
      ack <~ orelse "malformed ack fields" (
        sequence <- read_le 8 ;;
        server_time <- read_le 8 ;;
        session_id <- read_bytes 16 ;;
        producer_id <- read_bytes 16 ;;
        batch_hash <- read_bytes 32 ;;
        rret (mkTelemetryAck session_id producer_id sequence batch_hash server_time
                raw_status)) ;;
      left <~ eremaining ;;
      expect left =? 0 else "trailing bytes in ack payload" ;;
      expect validate_telemetry_ack ack else "ack validation failed" ;;
      eret ack) payload.

(** ** Enable *)

Definition encode_telemetry_enable (e : TelemetryEnable) : bytes :=
  if negb (validate_telemetry_enable e) then []
  else
    write_le 4 kEnableMagic ++ write_le 2 kWireVersion ++ write_le 2 0 ++
    write_le 8 (te_server_time e) ++ te_package_digest e ++ te_client_id e ++
    te_session_id e ++ append_string (te_package_id e) ++ append_string (te_candidate_id e).

Definition decode_telemetry_enable (payload : bytes) : result TelemetryEnable :=
  if (len payload <? kTelemetryEnableFixedBytes + 2) ||
     (len payload >? kMaximumTelemetryEnableBytes)
  then Err "invalid enable payload size"
  else
    erun (
      _header <~ orelse "invalid enable header, version, or reserved bits" (
        magic <- read_le 4 ;; guard (magic =? kEnableMagic) ;;
        version <- read_le 2 ;; guard (version =? kWireVersion) ;;
        reserved <- read_le 2 ;; guard (reserved =? 0) ;;
        rret tt) ;;
      enable <~ orelse "malformed enable identity fields" (
        server_time <- read_le 8 ;;
        package_digest <- read_bytes 32 ;;
        client_id <- read_bytes 16 ;;
        session_id <- read_bytes 16 ;;
        package_id <- read_string ExamSync.kMaximumPackageIdBytes false ;;
        candidate_id <- read_string ExamSync.kMaximumCandidateIdBytes false ;;
        rret (mkTelemetryEnable package_id package_digest client_id session_id candidate_id
                server_time)) ;;
      left <~ eremaining ;;
      expect left =? 0 else "trailing bytes in enable payload" ;;
      expect validate_telemetry_enable enable else "enable validation failed" ;;
      eret enable) payload.

(** ** Well-formed values: valid, with fields of their C++ widths *)

Definition wf_sample (s : TelemetrySample) : Prop :=
  validate_telemetry_sample s = true /\ u64 (ts_collector_id s) /\
  u64 (ts_monotonic_elapsed s) /\ u32 (ts_duration s) /\ u64 (ts_client_time s) /\
  u32 (ts_numeric_value s) /\ u32 (ts_count s) /\ u32 (ts_reason s) /\
  u32 (ts_question_revision s).

Definition wf_batch (b : TelemetryBatch) : Prop :=
  validate_telemetry_batch b = true /\ length (tb_package_digest b) = 32%nat /\
  length (tb_client_id b) = 16%nat /\ length (tb_session_id b) = 16%nat /\
  length (tb_producer_id b) = 16%nat /\ u64 (tb_sequence b) /\ u64 (tb_first_enqueued_at b) /\
  Forall wf_sample (tb_samples b).

Definition wf_ack (a : TelemetryAck) : Prop :=
  validate_telemetry_ack a = true /\ length (ta_session_id a) = 16%nat /\
  length (ta_producer_id a) = 16%nat /\ length (ta_batch_hash a) = 32%nat /\
  u64 (ta_sequence a) /\ u64 (ta_server_time a).

Definition wf_enable (e : TelemetryEnable) : Prop :=
  validate_telemetry_enable e = true /\ length (te_package_digest e) = 32%nat /\
  length (te_client_id e) = 16%nat /\ length (te_session_id e) = 16%nat /\
  u64 (te_server_time e).

(** ** Strings *)

Lemma telemetry_valid_text_len v m ae : telemetry_valid_text v m ae = true -> 0 <= m -> 0 <= len v <= m.
Proof.
  unfold telemetry_valid_text. pose proof (len_nonneg v). case_bool_decide as E; [by rewrite E|].
  case_match; [done|]. bool_to_prop. lia.
Qed.

Lemma valid_text_nonempty v m : telemetry_valid_text v m false = true -> 0 < len v.
Proof.
  unfold telemetry_valid_text. case_bool_decide; [done|]. destruct v; [done|].
  rewrite len_cons. pose proof (len_nonneg v). lia.
Qed.

Lemma rbind_telemetry_read_string {B} s rest m ae (k : bytes -> reader B) :
  telemetry_valid_text s m ae = true -> 0 <= m < 65536 ->
  rbind (read_string m ae) k (append_string s ++ rest) = k s rest.
Proof.
  intros Hs Hm. pose proof (telemetry_valid_text_len _ _ _ Hs (proj1 Hm)).
  unfold read_string, append_string. rewrite <- app_assoc.
  rewrite rbind_assoc, rbind_read_le by ulia.
  rewrite rbind_assoc, rbind_guard.
  - rewrite rbind_assoc, rbind_read_bytes by (unfold len; lia).
    rewrite rbind_assoc, rbind_guard by done. done.
  - destruct ae; cbn [negb andb]; [lia|]. pose proof (valid_text_nonempty _ _ Hs). lia.
Qed.

Lemma rbind_telemetry_read_string_end {B} s m ae (k : bytes -> reader B) :
  telemetry_valid_text s m ae = true -> 0 <= m < 65536 ->
  rbind (read_string m ae) k (append_string s) = k s [].
Proof. intros. rewrite <- (app_nil_r (append_string s)). by apply rbind_telemetry_read_string. Qed.

Lemma telemetry_string_inv m ae input s rest :
  read_string m ae input = Some (s, rest) ->
  input = append_string s ++ rest /\ telemetry_valid_text s m ae = true.
Proof.
  unfold read_string, append_string. intros H. reader_inv. split; [|done].
  rewrite <- app_assoc. do 2 f_equal. unfold len. ulia.
Qed.

Lemma len_append_string s : len (append_string s) = 2 + len s.
Proof. unfold append_string. by autorewrite with wire. Qed.
#[local] Hint Rewrite len_append_string : wire.

Ltac string_run :=
  repeat first [reader_step; cbv beta
               | rewrite rbind_telemetry_read_string by (done || eassumption)
               | rewrite rbind_telemetry_read_string_end by (done || eassumption)].

Ltac string_inv :=
  repeat (reader_inv; match goal with
    | H : read_string _ _ _ = Some (_, _) |- _ => apply telemetry_string_inv in H as (-> & ?)
    end); reader_inv.

(** ** Samples *)

Lemma sample_facts s :
  wf_sample s ->
  telemetry_valid_text (ts_question_id s) ExamSync.kMaximumQuestionIdBytes true = true /\
  u8 (ts_kind s) /\ u8 (ts_source s) /\ valid_telemetry_reason (ts_reason s) = true.
Proof.
  intros (Hv & _). unfold validate_telemetry_sample, valid_sample_kind, valid_source in Hv.
  unfold kind_collector_started, kind_clock_discontinuity, source_browser, source_native in Hv.
  destruct (_ || _ || _) eqn:E1 in Hv; [done|]. destruct (_ || _) eqn:E2 in Hv; [done|].
  bool_to_prop. split; [|split_and!; try done; try ulia].
  revert Hv. case_bool_decide as Hq; [by rewrite Hq|].
  repeat (case_match; bool_to_prop; try done). unfold telemetry_valid_text in *.
  rewrite bool_decide_false in * by done. done.
Qed.

Lemma encode_sample_wf s :
  wf_sample s ->
  encode_telemetry_sample s = telemetry_sample_wire s /\
  kTelemetrySampleFixedBytes <= len (telemetry_sample_wire s) <= kTelemetrySampleFixedBytes + 128.
Proof.
  intros Hs. destruct (sample_facts s Hs) as (T & _).
  apply telemetry_valid_text_len in T; [|done]. unfold ExamSync.kMaximumQuestionIdBytes in T.
  assert (kTelemetrySampleFixedBytes <= len (telemetry_sample_wire s) <=
    kTelemetrySampleFixedBytes + 128) as Hl.
  { unfold telemetry_sample_wire, kTelemetrySampleFixedBytes. autorewrite with wire. lia. }
  split; [|done]. unfold encode_telemetry_sample. rewrite (proj1 Hs). cbn [negb].
  unfold kTelemetrySampleFixedBytes, kMaximumTelemetrySampleBytes in *.
  destruct (_ >? _) eqn:E; [lia|done].
Qed.

#[export] Program Instance sample_codec : Codec TelemetrySample := {|
  encode := encode_telemetry_sample;
  decode := fun w => result_value (decode_telemetry_sample w);
  valid := wf_sample |}.
Next Obligation.
  intros s Hs. destruct (encode_sample_wf s Hs) as [-> Hl].
  destruct (sample_facts s Hs) as (T & W1 & W2 & R).
  destruct Hs as (Hv & H1 & H2 & H3 & H4 & H5 & H6 & H7 & H8).
  unfold decode_telemetry_sample.
  unfold kTelemetrySampleFixedBytes, kMaximumTelemetrySampleBytes in *.
  destruct (_ || _) eqn:E; [lia|]. clear E Hl. unfold erun, telemetry_sample_wire.
  erewrite ebind_orelse; [|string_run; reflexivity].
  erewrite ebind_orelse; [|string_run; reflexivity].
  rewrite ebind_remaining, ebind_guard by done. cbn [fst snd].
  rewrite ebind_guard by (by destruct s). by destruct s.
Qed.
Next Obligation.
  intros w s H. cbn beta in H. destruct (decode_telemetry_sample w) as [s'|] eqn:E; [|done].
  injection H as ->. revert E. unfold decode_telemetry_sample.
  destruct (_ || _) eqn:E; [done|]. intros H. string_inv. simplify_eq/=. bool_to_prop. subst.
  no_rest. match goal with |- wf_sample ?s /\ _ => assert (wf_sample s) as Hs by (split_and!; done) end.
  split; [done|]. rewrite (proj1 (encode_sample_wf _ Hs)). unfold telemetry_sample_wire. cbn.
  by rewrite !app_nil_r.
Qed.

Lemma decode_telemetry_sample_iff w s :
  decode_telemetry_sample w = Ok s <-> wf_sample s /\ w = encode_telemetry_sample s.
Proof.
  transitivity (result_value (decode_telemetry_sample w) = Some s);
    [|exact (decode_iff (A := TelemetrySample) w s)].
  destruct (decode_telemetry_sample w) as [s'|]; cbn; [|done]. split; congruence.
Qed.

(** ** Batches *)

(** The bytes of one sample inside a batch. *)
Definition sample_entry (s : TelemetrySample) : bytes := append_string (encode_telemetry_sample s).

Lemma append_samples_wf samples :
  Forall wf_sample samples ->
  append_samples samples = Some (concat (map sample_entry samples)) /\
  58 * len samples <= len (concat (map sample_entry samples)) <= 186 * len samples.
Proof.
  intros Hs. induction Hs as [|s samples Hs _ [IH Hl]]; [done|]. cbn [append_samples map concat].
  destruct (encode_sample_wf s Hs) as [E Hw].
  assert (len (sample_entry s) = 2 + len (telemetry_sample_wire s)) as He
    by (unfold sample_entry; by rewrite len_append_string, E).
  rewrite len_app, len_cons, He, E.
  unfold kTelemetrySampleFixedBytes, kMaximumTelemetrySampleBytes in *.
  case_bool_decide as Hn; [rewrite Hn, len_nil in Hw; lia|].
  destruct (_ >? _) eqn:E'; [lia|]. cbn [orb]. rewrite IH. split; [|lia].
  unfold sample_entry at 2. by rewrite E.
Qed.

Lemma read_sample_entry s rest :
  wf_sample s -> read_sample (sample_entry s ++ rest) = Ok (s, rest).
Proof.
  intros Hs. destruct (encode_sample_wf s Hs) as [E Hw]. unfold read_sample, sample_entry.
  unfold append_string, kTelemetrySampleFixedBytes in *. rewrite <- app_assoc.
  erewrite ebind_orelse.
  - cbv beta. rewrite (proj2 (decode_telemetry_sample_iff _ s)) by done. done.
  - rewrite E. rewrite rbind_read_le by ulia.
    rewrite rbind_guard by (unfold kMaximumTelemetrySampleBytes; lia).
    rewrite rbind_read_bytes by (unfold len; lia). done.
Qed.

Lemma read_sample_inv input s rest :
  read_sample input = Ok (s, rest) -> wf_sample s /\ input = sample_entry s ++ rest.
Proof.
  unfold read_sample. intros H. reader_inv.
  match goal with H : context [decode_telemetry_sample ?x] |- _ =>
    destruct (decode_telemetry_sample x) as [s'|] eqn:Es; [|done] end.
  reader_inv. simplify_eq.
  apply decode_telemetry_sample_iff in Es as [Hs ->]. split; [done|].
  unfold sample_entry, append_string. rewrite <- app_assoc. do 2 f_equal. unfold len. ulia.
Qed.

Lemma batch_facts b :
  validate_telemetry_batch b = true ->
  telemetry_valid_text (tb_package_id b) ExamSync.kMaximumPackageIdBytes false = true /\
  telemetry_valid_text (tb_candidate_id b) ExamSync.kMaximumCandidateIdBytes false = true /\
  1 <= len (tb_samples b) <= 32.
Proof.
  unfold validate_telemetry_batch, kMinimumBatchSamples, kMaximumBatchSamples.
  repeat (case_match; bool_to_prop; try done).
Qed.

Lemma encode_batch_wf b :
  wf_batch b ->
  encode_telemetry_batch b = batch_header_wire b ++ concat (map sample_entry (tb_samples b)) /\
  168 <= len (encode_telemetry_batch b) <= kMaximumTelemetryBatchBytes.
Proof.
  intros (Hv & H1 & H2 & H3 & H4 & _ & _ & Hs).
  destruct (batch_facts b Hv) as (T1 & T2 & Hn).
  pose proof (telemetry_valid_text_len _ _ _ T1) as L1. pose proof (telemetry_valid_text_len _ _ _ T2) as L2.
  apply valid_text_nonempty in T1, T2.
  unfold ExamSync.kMaximumPackageIdBytes, ExamSync.kMaximumCandidateIdBytes in *.
  destruct (append_samples_wf _ Hs) as [E Hl]. unfold encode_telemetry_batch. rewrite Hv, E.
  cbn [negb].
  assert (168 <= len (batch_header_wire b ++ concat (map sample_entry (tb_samples b))) <= 8192)
    as Hw.
  { unfold batch_header_wire. autorewrite with wire. len_facts. lia. }
  unfold kMaximumTelemetryBatchBytes. destruct (_ >? _) eqn:E'; [lia|]. split; [done|lia].
Qed.

#[export] Program Instance batch_codec : Codec TelemetryBatch := {|
  encode := encode_telemetry_batch;
  decode := fun w => result_value (decode_telemetry_batch w);
  valid := wf_batch |}.
Next Obligation.
  intros b Hb. destruct (encode_batch_wf b Hb) as [E Hl]. rewrite E in *.
  destruct Hb as (Hv & H1 & H2 & H3 & H4 & H5 & H6 & Hs).
  destruct (batch_facts b Hv) as (T1 & T2 & Hn).
  unfold decode_telemetry_batch, kTelemetryBatchFixedBytes, kTelemetrySampleFixedBytes.
  destruct (_ || _) eqn:E'; [lia|]. clear E E' Hl. unfold erun, batch_header_wire.
  repeat rewrite <- app_assoc.
  erewrite ebind_orelse; [|string_run; rewrite rbind_guard; [reflexivity|]].
  - erewrite ebind_orelse; [|string_run; reflexivity]. cbv beta.
    unfold len at 1. rewrite Nat2Z.id. unfold ebind at 1.
    rewrite <- (app_nil_r (concat _)).
    rewrite (eread_many_concat read_sample sample_entry (tb_samples b)).
    + rewrite ebind_remaining, ebind_guard by done. rewrite ebind_guard by (by destruct b).
      by destruct b.
    + intros s r Hin. apply read_sample_entry. rewrite Forall_forall in Hs. auto.
  - unfold kMinimumBatchSamples, kMaximumBatchSamples. lia.
Qed.
Next Obligation.
  intros w b H. cbn beta in H. destruct (decode_telemetry_batch w) as [b'|] eqn:E; [|done].
  injection H as ->. revert E. unfold decode_telemetry_batch.
  destruct (_ || _) eqn:E; [done|]. intros H. string_inv.
  match goal with H : eread_many _ _ _ = Ok _ |- _ =>
    apply (eread_many_inv read_sample sample_entry wf_sample) in H as (Hs & -> & Hn);
      [|exact read_sample_inv] end.
  simplify_eq/=. bool_to_prop. subst.
  match goal with H : len ?r = 0 |- _ => apply len_zero in H as -> end.
  match goal with |- wf_batch ?b /\ _ => assert (wf_batch b) as Hb by (split_and!; done) end.
  split; [done|]. rewrite (proj1 (encode_batch_wf _ Hb)). unfold batch_header_wire. cbn.
  rewrite app_nil_r. repeat rewrite <- app_assoc. unfold len at 1. rewrite Hn.
  repeat f_equal. ulia.
Qed.

(** ** Acknowledgements and enable messages *)

#[export] Program Instance ack_codec : Codec TelemetryAck := {|
  encode := encode_telemetry_ack;
  decode := fun w => result_value (decode_telemetry_ack w);
  valid := wf_ack |}.
Next Obligation.
  intros a (Hv & H1 & H2 & H3 & H4 & H5). unfold encode_telemetry_ack. rewrite Hv. cbn [negb].
  assert (u8 (ta_status a)) as Hs.
  { unfold validate_telemetry_ack, valid_ack_status in Hv.
    unfold ack_accepted, ack_unavailable in Hv.
    destruct (negb _) eqn:E in Hv; [done|]. bool_to_prop. ulia. }
  unfold decode_telemetry_ack, kTelemetryAckFixedBytes. autorewrite with wire. len_facts.
  destruct (negb _) eqn:E; [bool_to_prop; lia|]. clear E. unfold erun.
  erewrite ebind_orelse; [|string_run; reflexivity].
  erewrite ebind_orelse; [|string_run; reflexivity].
  rewrite ebind_remaining, ebind_guard by done. destruct a. by rewrite ebind_guard.
Qed.
Next Obligation.
  intros w a H. cbn beta in H. destruct (decode_telemetry_ack w) as [a'|] eqn:E; [|done].
  injection H as ->. revert E. unfold decode_telemetry_ack.
  destruct (negb _) eqn:E; [done|]. intros H. string_inv. simplify_eq/=. bool_to_prop. subst.
  match goal with H : len ?r = 0 |- _ => apply len_zero in H as -> end.
  split; [done|]. unfold encode_telemetry_ack.
  match goal with H : validate_telemetry_ack _ = true |- _ => rewrite H end. cbn.
  by rewrite app_nil_r.
Qed.

Lemma enable_facts e :
  validate_telemetry_enable e = true ->
  telemetry_valid_text (te_package_id e) ExamSync.kMaximumPackageIdBytes false = true /\
  telemetry_valid_text (te_candidate_id e) ExamSync.kMaximumCandidateIdBytes false = true.
Proof. unfold validate_telemetry_enable. repeat (case_match; bool_to_prop; try done). Qed.

#[export] Program Instance enable_codec : Codec TelemetryEnable := {|
  encode := encode_telemetry_enable;
  decode := fun w => result_value (decode_telemetry_enable w);
  valid := wf_enable |}.
Next Obligation.
  intros e (Hv & H1 & H2 & H3 & H4). unfold encode_telemetry_enable. rewrite Hv. cbn [negb].
  destruct (enable_facts e Hv) as [T1 T2].
  pose proof (telemetry_valid_text_len _ _ _ T1 ltac:(done)) as L1.
  pose proof (telemetry_valid_text_len _ _ _ T2 ltac:(done)) as L2.
  pose proof (valid_text_nonempty _ _ T1). pose proof (valid_text_nonempty _ _ T2).
  unfold ExamSync.kMaximumPackageIdBytes, ExamSync.kMaximumCandidateIdBytes in L1, L2.
  unfold decode_telemetry_enable, kTelemetryEnableFixedBytes, kMaximumTelemetryEnableBytes.
  autorewrite with wire. len_facts.
  destruct (_ || _) eqn:E;
    [apply orb_true_iff in E as [?|?]; bool_to_prop; lia|]. clear E. unfold erun.
  erewrite ebind_orelse; [|string_run; reflexivity].
  erewrite ebind_orelse; [|string_run; reflexivity].
  rewrite ebind_remaining, ebind_guard by done. destruct e. by rewrite ebind_guard.
Qed.
Next Obligation.
  intros w e H. cbn beta in H. destruct (decode_telemetry_enable w) as [e'|] eqn:E; [|done].
  injection H as ->. revert E. unfold decode_telemetry_enable.
  destruct (_ || _) eqn:E; [done|]. intros H. string_inv. simplify_eq/=. bool_to_prop. subst.
  match goal with H : len ?r = 0 |- _ => apply len_zero in H as -> end.
  split; [done|]. unfold encode_telemetry_enable.
  match goal with H : validate_telemetry_enable _ = true |- _ => rewrite H end. cbn.
  by rewrite app_nil_r.
Qed.

(** A decoder with error messages, from its [option] form. *)
Lemma result_decode_iff {A} (d : bytes -> result A) (P : Prop) w a :
  (result_value (d w) = Some a <-> P) -> (d w = Ok a <-> P).
Proof. intros <-. destruct (d w); cbn; [|done]. split; congruence. Qed.

(** ** Property *)

(** C33. The ten message types of the exam control, answer and telemetry channels
    (start request, ready report, begin command; answer event, answer
    acknowledgement, state request; telemetry sample, batch, acknowledgement,
    enable) decode exactly: a payload is accepted as a value if
    and only if that value is valid and the payload is the bytes the encoder
    writes for it. No truncated, oversized, padded or ambiguous payload is
    accepted, distinct payloads never decode to the same message, and every
    encoding of a valid message, a batch of 32 full samples included, fits its
    size bound and is read back. *)
Theorem exam_channel_decode_iff (payload : bytes) :
  (forall r, ExamControl.decode_exam_start_request payload = Some r <->
     ExamControl.wf_start r /\ payload = ExamControl.encode_exam_start_request r) /\
  (forall r, ExamControl.decode_exam_ready_report payload = Some r <->
     ExamControl.wf_ready r /\ payload = ExamControl.encode_exam_ready_report r) /\
  (forall c, ExamControl.decode_exam_begin_command payload = Some c <->
     ExamControl.wf_begin c /\ payload = ExamControl.encode_exam_begin_command c) /\
  (forall e, ExamSync.decode_answer_event payload = Ok e <->
     ExamSync.wf_event e /\ payload = ExamSync.encode_answer_event e) /\
  (forall a, ExamSync.decode_answer_ack payload = Some a <->
     ExamSync.wf_ack a /\ payload = ExamSync.encode_answer_ack a) /\
  (forall r, ExamSync.decode_state_request payload = Some r <->
     ExamSync.wf_request r /\ payload = ExamSync.encode_state_request r) /\
  (forall s, decode_telemetry_sample payload = Ok s <->
     wf_sample s /\ payload = encode_telemetry_sample s) /\
  (forall b, decode_telemetry_batch payload = Ok b <->
     wf_batch b /\ payload = encode_telemetry_batch b) /\
  (forall a, decode_telemetry_ack payload = Ok a <->
     wf_ack a /\ payload = encode_telemetry_ack a) /\
  (forall e, decode_telemetry_enable payload = Ok e <->
     wf_enable e /\ payload = encode_telemetry_enable e).
Proof.
  split_and!; intros m.
  - exact (@decode_iff _ ExamControl.start_codec payload m).
  - exact (@decode_iff _ ExamControl.ready_codec payload m).
  - exact (@decode_iff _ ExamControl.begin_codec payload m).
  - apply ExamSync.decode_answer_event_iff.
  - exact (@decode_iff _ ExamSync.answer_ack_codec payload m).
  - exact (@decode_iff _ ExamSync.state_request_codec payload m).
  - apply decode_telemetry_sample_iff.
  - apply result_decode_iff. exact (@decode_iff _ batch_codec payload m).
  - apply result_decode_iff. exact (@decode_iff _ ack_codec payload m).
  - apply result_decode_iff. exact (@decode_iff _ enable_codec payload m).
Qed.

End ExamTelemetry.
