(* ===== verification/ExamAuth.v ===== *)
(** Instructor authorization tickets (common/include/nstu/exam_auth.hpp,
    common/src/exam_auth.cpp): the signed permission to start one exam.  The CNG
    HMAC is a parameter, as in [Auth]. *)

From S2P Require Import Prelude Utf8 Wire Codec Auth ExamSync ExamControl.
Import ReaderNotations.
#[local] Open Scope nstu_scope.

Module ExamAuth.
Import Utf8 ExamControl.

Definition kMaximumInstructorIdBytes : Z := 128.
Definition kMaximumPackageIdBytes : Z := 128.
Definition kMaximumCandidateIdBytes : Z := 128.
Definition kTicketMagic : Z := 0x5449434B.
Definition kTicketVersion : Z := 1.
Definition kFixedHeaderBytes : Z := 110.
Definition kMaximumTicketPayloadBytes : Z := 4096.

Record InstructorAuthorizationTicket := mkTicket {
  tk_instructor_id : bytes;
  tk_package_id : bytes;
  tk_package_digest : bytes;
  tk_session_id : bytes;
  tk_candidate_id : bytes;
  tk_valid_from_ms : Z;
  tk_valid_until_ms : Z;
  tk_instructor_signature : bytes
}.

Inductive TicketVerificationResult :=
| valid_ticket
| invalid_structure
| expired
| not_yet_valid
| signature_mismatch
| package_mismatch
| session_mismatch
| candidate_mismatch.

Definition ticket_verification_result_to_string (result : TicketVerificationResult) : string :=
  match result with
  | valid_ticket => "valid"
  | invalid_structure => "invalid_structure"
  | expired => "expired"
  | not_yet_valid => "not_yet_valid"
  | signature_mismatch => "signature_mismatch"
  | package_mismatch => "package_mismatch"
  | session_mismatch => "session_mismatch"
  | candidate_mismatch => "candidate_mismatch"
  end.

(** ** Validation *)

Definition any_non_zero (bs : bytes) : bool :=
  existsb (fun b => negb (bool_decide (b = Byte.x00))) bs.

#[global] Arguments any_non_zero _ : simpl never.
#[global] Arguments ticket_valid_utf8 _ _ : simpl never.

Definition validate_ticket (t : InstructorAuthorizationTicket) (current_time_ms : Z) : bool :=
  if bool_decide (tk_instructor_id t = []) ||
     negb (ticket_valid_utf8 (tk_instructor_id t) kMaximumInstructorIdBytes) ||
     bool_decide (tk_package_id t = []) ||
     negb (ticket_valid_utf8 (tk_package_id t) kMaximumPackageIdBytes) ||
     (negb (bool_decide (tk_candidate_id t = [])) &&
      negb (ticket_valid_utf8 (tk_candidate_id t) kMaximumCandidateIdBytes))
  then false
  else if negb (any_non_zero (tk_package_digest t)) || negb (any_non_zero (tk_session_id t))
  then false
  else if tk_valid_from_ms t >=? tk_valid_until_ms t then false
  else if (current_time_ms >? 0) &&
          ((current_time_ms <? tk_valid_from_ms t) || (current_time_ms >? tk_valid_until_ms t))
  then false
  else true.

(** ** Signing *)

Definition compute_ticket_canonical_transcript (t : InstructorAuthorizationTicket) : bytes :=
  text "NSTU-INSTRUCTOR-TICKET-V1" ++ write_le 4 kTicketMagic ++ write_le 2 kTicketVersion ++
  write_le 2 0 ++ write_le 8 (tk_valid_from_ms t) ++ write_le 8 (tk_valid_until_ms t) ++
  tk_package_digest t ++ tk_session_id t ++ write_le 2 (len (tk_instructor_id t)) ++
  write_le 2 (len (tk_package_id t)) ++ write_le 2 (len (tk_candidate_id t)) ++
  tk_instructor_id t ++ tk_package_id t ++ tk_candidate_id t.

Section Hmac.
Variable bcrypt_hmac : bytes -> bytes -> option bytes.

Definition compute_ticket_signature (key : bytes) (t : InstructorAuthorizationTicket)
    : option bytes :=
  if bool_decide (key = []) then None
  else Auth.hmac_sha256 bcrypt_hmac key (compute_ticket_canonical_transcript t).

Definition sign_ticket (key : bytes) (t : InstructorAuthorizationTicket)
    : option InstructorAuthorizationTicket :=
  match compute_ticket_signature key t with
  | None => None
  | Some sig => Some {| t with tk_instructor_signature := sig |}
  end.

Definition verify_ticket_signature (key : bytes) (t : InstructorAuthorizationTicket) : bool :=
  if bool_decide (key = []) then false
  else
    match compute_ticket_signature key t with
    | None => false
    | Some expected => Auth.constant_time_equal (tk_instructor_signature t) expected
    end.

Definition verify_ticket_for_exam (key : bytes) (t : InstructorAuthorizationTicket)
    (request : ExamStartRequest) (current_time_ms : Z) : TicketVerificationResult :=
  if negb (validate_ticket t 0) then invalid_structure
  else if (current_time_ms >? 0) && (current_time_ms <? tk_valid_from_ms t) then not_yet_valid
  else if (current_time_ms >? 0) && (current_time_ms >? tk_valid_until_ms t) then expired
  else if negb (verify_ticket_signature key t) then signature_mismatch
  else if negb (bool_decide (tk_package_id t = es_package_id request)) ||
          negb (bool_decide (tk_package_digest t = es_package_digest request))
  then package_mismatch
  else if negb (bool_decide (tk_session_id t = es_session_id request)) then session_mismatch
  else if negb (bool_decide (tk_candidate_id t = [])) &&
          negb (bool_decide (tk_candidate_id t = es_candidate_id request))
  then candidate_mismatch
  else valid_ticket.
End Hmac.

(** ** Wire format *)

Definition ticket_wire (t : InstructorAuthorizationTicket) : bytes :=
  write_le 4 kTicketMagic ++ write_le 2 kTicketVersion ++ write_le 2 0 ++
  write_le 8 (tk_valid_from_ms t) ++ write_le 8 (tk_valid_until_ms t) ++
  tk_package_digest t ++ tk_session_id t ++ tk_instructor_signature t ++
  write_le 2 (len (tk_instructor_id t)) ++ write_le 2 (len (tk_package_id t)) ++
  write_le 2 (len (tk_candidate_id t)) ++ tk_instructor_id t ++ tk_package_id t ++
  tk_candidate_id t.

Definition encode_instructor_ticket (t : InstructorAuthorizationTicket) : bytes :=
  if negb (validate_ticket t 0) || (len (tk_instructor_id t) >? u16_max) ||
     (len (tk_package_id t) >? u16_max) || (len (tk_candidate_id t) >? u16_max)
  then []
  else
    let total := kFixedHeaderBytes + len (tk_instructor_id t) + len (tk_package_id t) +
      len (tk_candidate_id t) in
    if total >? kMaximumTicketPayloadBytes then [] else ticket_wire t.

(** The unchecked reads stay inside the fixed header, whose size is checked
    first; they are the same as checked ones there. *)
Definition decode_instructor_ticket (wire : bytes) : option InstructorAuthorizationTicket :=
  if (len wire <? kFixedHeaderBytes) || (len wire >? kMaximumTicketPayloadBytes) then None
  else
    run_reader (
      magic <- read_le 4 ;;
      version <- read_le 2 ;;
      reserved <- read_le 2 ;;
      guard (negb (negb (magic =? kTicketMagic) || negb (version =? kTicketVersion) ||
                   negb (reserved =? 0))) ;;
      valid_from <- read_le 8 ;;
      valid_until <- read_le 8 ;;
      package_digest <- read_bytes 32 ;;
      session_id <- read_bytes 16 ;;
      signature <- read_bytes 32 ;;
      instructor_len <- read_le 2 ;;
      package_len <- read_le 2 ;;
      candidate_len <- read_le 2 ;;
      left <- rremaining ;;
      guard (instructor_len + package_len + candidate_len =? left) ;;
      instructor_id <- read_bytes (Z.to_nat instructor_len) ;;
      package_id <- read_bytes (Z.to_nat package_len) ;;
      candidate_id <- read_bytes (Z.to_nat candidate_len) ;;
      let ticket := mkTicket instructor_id package_id package_digest session_id candidate_id
        valid_from valid_until signature in
      guard (validate_ticket ticket 0) ;;
      rret ticket) wire.

(** ** What a valid ticket is *)

Definition typed_ticket (t : InstructorAuthorizationTicket) : Prop :=
  length (tk_package_digest t) = 32%nat /\ length (tk_session_id t) = 16%nat /\
  length (tk_instructor_signature t) = 32%nat /\ u64 (tk_valid_from_ms t) /\
  u64 (tk_valid_until_ms t).

Definition ticket_text (v : bytes) : Prop := len v <= 128 /\ ticket_characters v = true.

Definition well_formed_ticket (t : InstructorAuthorizationTicket) : Prop :=
  tk_instructor_id t <> [] /\ ticket_text (tk_instructor_id t) /\
  tk_package_id t <> [] /\ ticket_text (tk_package_id t) /\ ticket_text (tk_candidate_id t) /\
  any_non_zero (tk_package_digest t) = true /\ any_non_zero (tk_session_id t) = true /\
  tk_valid_from_ms t < tk_valid_until_ms t.

Lemma valid_utf8_text v m : m = 128 -> ticket_valid_utf8 v m = true <-> ticket_text v.
Proof.
  intros ->. unfold ticket_valid_utf8, ticket_text.
  destruct (Z.gtb_spec (len v) 128); split; intuition (done || lia).
Qed.

Lemma validate_ticket_iff t now :
  validate_ticket t now = true <->
  well_formed_ticket t /\ (now <= 0 \/ tk_valid_from_ms t <= now <= tk_valid_until_ms t).
Proof.
  unfold validate_ticket, well_formed_ticket. rewrite <- !(valid_utf8_text _ 128) by done.
  unfold kMaximumInstructorIdBytes, kMaximumPackageIdBytes, kMaximumCandidateIdBytes.
  assert (negb (bool_decide (tk_candidate_id t = [])) &&
    negb (ticket_valid_utf8 (tk_candidate_id t) 128) =
    negb (ticket_valid_utf8 (tk_candidate_id t) 128)) as ->
    by (case_bool_decide as E; [by rewrite E|done]).
  split.
  - repeat case_match; try done. intros _. bool_to_prop. split_and!; try done.
    match goal with H : _ && _ = false |- _ => revert H end. rewrite andb_false_iff. lia.
  - intros ((H1 & H2 & H3 & H4 & H5 & H6 & H7 & H8) & Hn).
    rewrite !bool_decide_false by done. rewrite H2, H4, H5, H6, H7. cbn [negb orb].
    destruct (_ >=? _) eqn:E1; [lia|]. destruct (_ && _) eqn:E2; [lia|done].
Qed.

(** ** Codec *)

Definition wf_ticket (t : InstructorAuthorizationTicket) : Prop :=
  validate_ticket t 0 = true /\ typed_ticket t.

Lemma ticket_lengths t :
  validate_ticket t 0 = true ->
  0 <= len (tk_instructor_id t) <= 128 /\ 0 <= len (tk_package_id t) <= 128 /\
  0 <= len (tk_candidate_id t) <= 128.
Proof.
  intros [(_ & [H1 _] & _ & [H2 _] & [H3 _] & _) _]%validate_ticket_iff.
  pose proof (len_nonneg (tk_instructor_id t)). pose proof (len_nonneg (tk_package_id t)).
  pose proof (len_nonneg (tk_candidate_id t)). done.
Qed.

Lemma encode_ticket_wf t :
  wf_ticket t -> encode_instructor_ticket t = ticket_wire t /\
  110 <= len (ticket_wire t) <= 494.
Proof.
  intros [Hv (H1 & H2 & H3 & _)]. destruct (ticket_lengths t Hv) as (L1 & L2 & L3).
  unfold encode_instructor_ticket, kFixedHeaderBytes, kMaximumTicketPayloadBytes, u16_max.
  rewrite Hv. cbn [negb orb]. split.
  - destruct (_ || _ || _) eqn:E; [lia|]. destruct (_ >? 4096) eqn:E'; [lia|done].
  - unfold ticket_wire. autorewrite with wire. len_facts. lia.
Qed.

#[export] Program Instance ticket_codec : Codec InstructorAuthorizationTicket := {|
  encode := encode_instructor_ticket; decode := decode_instructor_ticket; valid := wf_ticket |}.
Next Obligation.
  intros t Ht. destruct (encode_ticket_wf t Ht) as [-> Hl].
  destruct Ht as [Hv (H1 & H2 & H3 & H4 & H5)]. destruct (ticket_lengths t Hv) as (L1 & L2 & L3).
  unfold decode_instructor_ticket, kFixedHeaderBytes, kMaximumTicketPayloadBytes.
  destruct (_ || _) eqn:E; [lia|]. clear E Hl. unfold run_reader, ticket_wire.
  reader_run. rewrite rbind_guard by (autorewrite with wire; lia). reader_run. by destruct t.
Qed.
Next Obligation.
  intros w t. unfold decode_instructor_ticket. destruct (_ || _) eqn:E; [done|]. intros H.
  reader_inv. simplify_eq. bool_to_prop. subst. autorewrite with wire in *.
  repeat match goal with
  | H : length ?s = Z.to_nat ?n, Hu : u16 ?n |- _ =>
      assert (len s = n) as <- by (unfold len; ulia); clear H
  end.
  match goal with |- wf_ticket ?t /\ _ => assert (wf_ticket t) as Ht by (split; [done|split_and!; done]) end.
  split; [done|]. rewrite (proj1 (encode_ticket_wf _ Ht)). unfold ticket_wire. cbn.
  match goal with H : _ = len _ + (len _ + (len _ + len ?r)) |- _ =>
    assert (r = []) as -> by (apply len_zero; lia) end.
  by rewrite app_nil_r.
Qed.

(** ** The transcript binds every signed field *)

Lemma transcript_binds s t :
  typed_ticket s -> typed_ticket t ->
  validate_ticket s 0 = true -> validate_ticket t 0 = true ->
  compute_ticket_canonical_transcript s = compute_ticket_canonical_transcript t ->
  s = {| t with tk_instructor_signature := tk_instructor_signature s |}.
Proof.
  intros (A1 & A2 & A3 & A4 & A5) (B1 & B2 & B3 & B4 & B5) Hs Ht.
  destruct (ticket_lengths s Hs) as (L1 & L2 & L3), (ticket_lengths t Ht) as (M1 & M2 & M3).
  unfold compute_ticket_canonical_transcript. intros E.
  do 4 (apply app_inv_head in E).
  apply write_le_app_inj in E as [E1 E]; [|done..].
  apply write_le_app_inj in E as [E2 E]; [|done..].
  apply app_inj_1 in E as [E3 E]; [|congruence].
  apply app_inj_1 in E as [E4 E]; [|congruence].
  apply write_le_app_inj in E as [E5 E]; [|ulia..].
  apply write_le_app_inj in E as [E6 E]; [|ulia..].
  apply write_le_app_inj in E as [E7 E]; [|ulia..].
  apply app_inj_1 in E as [E8 E]; [|unfold len in *; lia].
  apply app_inj_1 in E as [E9 E]; [|unfold len in *; lia].
  destruct s, t; cbn in *. by subst.
Qed.

(** ** Verification *)

Lemma verify_signature_iff hmac key t :
  verify_ticket_signature hmac key t = true <->
  key <> [] /\ Auth.hmac_sha256 hmac key (compute_ticket_canonical_transcript t) =
    Some (tk_instructor_signature t).
Proof.
  unfold verify_ticket_signature, compute_ticket_signature. case_bool_decide as Hk; [naive_solver|].
  destruct (Auth.hmac_sha256 _ _ _) as [expected|]; [|naive_solver].
  rewrite Auth.constant_time_equal_spec. split; [intros ->; done|naive_solver].
Qed.

Lemma verify_valid_iff hmac key t request now :
  verify_ticket_for_exam hmac key t request now = valid_ticket <->
  well_formed_ticket t /\
  (now <= 0 \/ tk_valid_from_ms t <= now <= tk_valid_until_ms t) /\
  key <> [] /\
  Auth.hmac_sha256 hmac key (compute_ticket_canonical_transcript t) =
    Some (tk_instructor_signature t) /\
  tk_package_id t = es_package_id request /\
  tk_package_digest t = es_package_digest request /\
  tk_session_id t = es_session_id request /\
  (tk_candidate_id t = [] \/ tk_candidate_id t = es_candidate_id request).
Proof.
  unfold verify_ticket_for_exam. split.
  - destruct (validate_ticket t 0) eqn:Hv; [|done]. apply validate_ticket_iff in Hv as [Hw _].
    destruct (verify_ticket_signature hmac key t) eqn:Hs; cbn [negb];
      [|by repeat case_match].
    apply verify_signature_iff in Hs as [Hk Hs].
    repeat case_match; try done. intros _. bool_to_prop.
    split_and!; try done; [lia|].
    match goal with H : _ && _ = false |- _ = _ \/ _ => apply andb_false_iff in H as [H|H] end;
      bool_to_prop; auto.
  - intros (Hw & Hn & Hk & Hs & H1 & H2 & H3 & H4).
    rewrite (proj2 (validate_ticket_iff t 0)) by (split; [done|lia]). cbn [negb].
    rewrite (proj2 (verify_signature_iff hmac key t)) by done. cbn [negb].
    rewrite !(bool_decide_true (_ = es_package_id _)), (bool_decide_true (_ = es_package_digest _)),
      (bool_decide_true (_ = es_session_id _)) by done. cbn [negb orb].
    destruct (_ && _) eqn:E1; [lia|]. destruct (_ && (now >? tk_valid_until_ms t)) eqn:E2; [lia|].
    destruct H4 as [H4|H4]; rewrite H4; [by rewrite (bool_decide_true ([] = []))|].
    by rewrite (bool_decide_true (es_candidate_id request = es_candidate_id request)), andb_false_r.
Qed.

(** ** Property *)

(** C26. A ticket authorizes an exam start exactly when it is well-formed, the
    clock (when it is known) lies in its validity interval, its signature is
    the HMAC of its canonical transcript under a non-empty instructor key, and
    it names the package, the package digest and the session of the request,
    and the candidate unless it leaves the candidate open. The transcript binds
    every field but the signature: two valid tickets with the same transcript
    agree on all of them. The wire format is exact: a payload decodes to a
    ticket if and only if the ticket is valid and the payload is its encoding. *)
Theorem ticket_authorizes_iff (hmac : bytes -> bytes -> option bytes) (key : bytes)
    (t : InstructorAuthorizationTicket) (request : ExamStartRequest) (now : Z) (wire : bytes) :
  (verify_ticket_for_exam hmac key t request now = valid_ticket <->
    well_formed_ticket t /\
    (now <= 0 \/ tk_valid_from_ms t <= now <= tk_valid_until_ms t) /\
    key <> [] /\
    Auth.hmac_sha256 hmac key (compute_ticket_canonical_transcript t) =
      Some (tk_instructor_signature t) /\
    tk_package_id t = es_package_id request /\
    tk_package_digest t = es_package_digest request /\
    tk_session_id t = es_session_id request /\
    (tk_candidate_id t = [] \/ tk_candidate_id t = es_candidate_id request)) /\
  (forall s, ~ (wf_ticket s /\ wf_ticket t /\
     compute_ticket_canonical_transcript s = compute_ticket_canonical_transcript t /\
     s <> {| t with tk_instructor_signature := tk_instructor_signature s |})) /\
  (decode_instructor_ticket wire = Some t <-> wf_ticket t /\ wire = encode_instructor_ticket t).
Proof.
  split; [|split; [|exact (decode_iff (A := InstructorAuthorizationTicket) wire t)]].
  - apply verify_valid_iff.
  - intros s ([Hs Ts] & [Ht Tt] & E & Hne). by apply Hne, transcript_binds.
Qed.

End ExamAuth.
