(* ===== verification/WakeOnLan.v ===== *)
(** Wake on LAN (common/include/nstu/wake_on_lan.hpp,
    common/src/wake_on_lan.cpp): MAC addresses in text and the magic packet.
    Sending the packet and enumerating the network adapters is I/O. *)

From S2P Require Import Prelude.

Module WakeOnLan.

(** [MacAddress]: six octets. *)
Definition is_zero (mac : bytes) : bool := bool_decide (mac = replicate 6 Byte.x00).
Definition is_broadcast (mac : bytes) : bool := bool_decide (mac = replicate 6 Byte.xff).

(** [WolSupportState], by raw value. *)
Definition support_unknown : Z := 0.
Definition support_supported : Z := 1.
Definition support_unsupported : Z := 2.

Definition kWolMagicPacketSize : Z := 102.

(** ** Text *)

Definition hex_val (c : byte) : Z :=
  let v := byte_val c in
  if (v >=? 48) && (v <=? 57) then v - 48
  else if (v >=? 97) && (v <=? 102) then v - 97 + 10
  else if (v >=? 65) && (v <=? 70) then v - 65 + 10
  else -1.

(** The loop over the octets; the text is long enough for every index it uses. *)
Fixpoint parse_octets (count : nat) (separator : byte) (text : bytes) : option bytes :=
  match count, text with
  | O, _ => Some []
  | S count', high_char :: low_char :: rest =>
      let high := hex_val high_char in
      let low := hex_val low_char in
      if (high <? 0) || (low <? 0) then None
      else
        let octet := byte_of (Z.lor (Z.shiftl high 4) low) in
        match count' with
        | O => Some [octet]
        | _ =>
            match rest with
            | s :: rest' =>
                if negb (bool_decide (s = separator)) then None
                else option_map (cons octet) (parse_octets count' separator rest')
            | [] => None
            end
        end
  | _, _ => None
  end.

Definition parse_mac_address (text : bytes) : option bytes :=
  if negb (len text =? 17) then None
  else
    match text !! 2%nat with
    | Some separator =>
        if negb (bool_decide (separator = Byte.x3a)) && negb (bool_decide (separator = Byte.x2d))
        then None
        else parse_octets 6 separator text
    | None => None
    end.

Definition hex_digits (uppercase : bool) : bytes :=
  if uppercase then text "0123456789ABCDEF" else text "0123456789abcdef".

Definition hex_digit (uppercase : bool) (value : Z) : byte :=
  nth (Z.to_nat value) (hex_digits uppercase) Byte.x00.

Fixpoint format_mac_address (mac : bytes) (separator : byte) (uppercase : bool) : bytes :=
  match mac with
  | [] => []
  | octet :: mac' =>
      [hex_digit uppercase (Z.land (Z.shiftr (byte_val octet) 4) 0x0f);
       hex_digit uppercase (Z.land (byte_val octet) 0x0f)] ++
      (match mac' with
       | [] => []
       | _ => if negb (bool_decide (separator = Byte.x00)) then [separator] else []
       end) ++ format_mac_address mac' separator uppercase
  end.

(** ** Magic packet *)

Fixpoint repetitions (count : nat) (mac : bytes) : bytes :=
  match count with O => [] | S count' => mac ++ repetitions count' mac end.

Definition create_magic_packet (mac : bytes) : bytes := replicate 6 Byte.xff ++ repetitions 16 mac.

(** Compare [expected] with the front of the packet and leave the rest. *)
Fixpoint match_front (expected packet : bytes) : option bytes :=
  match expected, packet with
  | [], _ => Some packet
  | e :: expected', p :: packet' =>
      if negb (bool_decide (p = e)) then None else match_front expected' packet'
  | _ :: _, [] => None
  end.

Fixpoint match_repetitions (count : nat) (mac packet : bytes) : bool :=
  match count with
  | O => true
  | S count' =>
      match match_front mac packet with
      | None => false
      | Some rest => match_repetitions count' mac rest
      end
  end.

Definition verify_magic_packet (packet expected_mac : bytes) : bool :=
  if negb (len packet =? kWolMagicPacketSize) then false
  else
    match match_front (replicate 6 Byte.xff) packet with
    | None => false
    | Some rest => match_repetitions 16 expected_mac rest
    end.

(** ** Laws *)

Lemma octet_digits (o : byte) (uppercase : bool) :
  hex_val (hex_digit uppercase (Z.land (Z.shiftr (byte_val o) 4) 0x0f)) = byte_val o / 16 /\
  hex_val (hex_digit uppercase (Z.land (byte_val o) 0x0f)) = byte_val o mod 16 /\
  Z.lor (Z.shiftl (byte_val o / 16) 4) (byte_val o mod 16) = byte_val o.
Proof.
  assert (forallb (fun v =>
    bool_decide (hex_val (hex_digit uppercase (Z.land (Z.shiftr v 4) 0x0f)) = v / 16) &&
    bool_decide (hex_val (hex_digit uppercase (Z.land v 0x0f)) = v mod 16) &&
    bool_decide (Z.lor (Z.shiftl (v / 16) 4) (v mod 16) = v)) (seqZ 0 256) = true) as H
    by (destruct uppercase; by vm_compute).
  rewrite forallb_forall in H. pose proof (byte_val_range o).
  specialize (H (byte_val o) ltac:(apply list_elem_of_In, elem_of_seqZ; lia)).
  by bool_to_prop.
Qed.

(** Both spellings of an address, in either case, read back. *)
Lemma parse_format mac separator uppercase :
  length mac = 6%nat -> separator = Byte.x3a \/ separator = Byte.x2d ->
  parse_mac_address (format_mac_address mac separator uppercase) = Some mac.
Proof.
  intros Hm Hs. unfold parse_mac_address.
  destruct mac as [|a [|b [|c [|d [|e [|f [|]]]]]]]; try done.
  assert (separator <> Byte.x00) as H0 by (by destruct Hs as [-> | ->]).
  cbn [format_mac_address]. rewrite bool_decide_false by done. cbn [negb app].
  change (negb (len _ =? 17)) with false. cbn [lookup list_lookup].
  assert (negb (bool_decide (separator = Byte.x3a)) &&
    negb (bool_decide (separator = Byte.x2d)) = false) as ->
    by (destruct Hs as [-> | ->]; done).
  cbn [parse_octets]. rewrite bool_decide_true by done. cbn [negb].
  destruct (octet_digits a uppercase) as (-> & -> & ->), (octet_digits b uppercase) as (-> & -> & ->),
    (octet_digits c uppercase) as (-> & -> & ->), (octet_digits d uppercase) as (-> & -> & ->),
    (octet_digits e uppercase) as (-> & -> & ->), (octet_digits f uppercase) as (-> & -> & ->).
  rewrite !byte_of_val.
  pose proof (byte_val_range a); pose proof (byte_val_range b); pose proof (byte_val_range c);
    pose proof (byte_val_range d); pose proof (byte_val_range e); pose proof (byte_val_range f).
  repeat match goal with |- context [if ?x then None else _] =>
    replace x with false by (symmetry; apply orb_false_iff; split; apply Z.ltb_ge;
      Z.to_euclidean_division_equations; lia) end.
  done.
Qed.

Lemma match_front_iff expected packet rest :
  match_front expected packet = Some rest <-> packet = expected ++ rest.
Proof.
  revert packet. induction expected as [|e expected IH]; intros packet; cbn.
  - split; congruence.
  - destruct packet as [|p packet]; [done|]. case_bool_decide as E; cbn.
    + subst. rewrite IH. split; congruence.
    + split; congruence.
Qed.

Lemma match_repetitions_iff count mac packet :
  match_repetitions count mac packet = true <->
  exists rest, packet = repetitions count mac ++ rest.
Proof.
  revert packet. induction count as [|count IH]; intros packet; cbn; [naive_solver|].
  destruct (match_front mac packet) as [r|] eqn:E.
  - apply match_front_iff in E as ->. rewrite IH. split; intros [rest H].
    + exists rest. rewrite H. by rewrite app_assoc.
    + exists rest. rewrite <- app_assoc in H. by apply app_inv_head in H.
  - split; [done|]. intros [rest ->]. rewrite <- app_assoc in E.
    by rewrite (proj2 (match_front_iff mac _ (repetitions count mac ++ rest)) eq_refl) in E.
Qed.

Lemma len_create mac : length mac = 6%nat -> len (create_magic_packet mac) = kWolMagicPacketSize.
Proof.
  intros Hm. unfold create_magic_packet, len. rewrite length_app, length_replicate. cbn [repetitions].
  rewrite !length_app, Hm. done.
Qed.

(** A packet wakes exactly the machine whose address it repeats. *)
Lemma verify_magic_packet_iff packet mac :
  length mac = 6%nat ->
  verify_magic_packet packet mac = true <-> packet = create_magic_packet mac.
Proof.
  intros Hm. unfold verify_magic_packet. pose proof (len_create mac Hm) as Hl. split.
  - destruct (negb _) eqn:E; [done|]. destruct (match_front _ _) as [rest|] eqn:Hf; [|done].
    apply match_front_iff in Hf as ->. rewrite match_repetitions_iff. intros [rest' ->].
    bool_to_prop. rewrite app_assoc in *. fold (create_magic_packet mac) in *.
    rewrite len_app, Hl in E. assert (len rest' = 0) as ->%len_zero by lia. apply app_nil_r.
  - intros ->. rewrite Hl. cbn [negb Z.eqb]. unfold create_magic_packet.
    change (negb (kWolMagicPacketSize =? kWolMagicPacketSize)) with false. cbv iota.
    rewrite (proj2 (match_front_iff _ _ (repetitions 16 mac))) by done.
    apply match_repetitions_iff. exists []. by rewrite app_nil_r.
Qed.

End WakeOnLan.
