(* ===== verification/UrlValidation.v ===== *)
(** Launch URLs (common/include/nstu/url_validation.hpp,
    common/src/url_validation.cpp): what the teacher's machine may ask the
    students' browsers to open.  [std::tolower] is that of the "C" locale. *)

From S2P Require Import Prelude.

Module UrlValidation.

Definition kMaximumUrlBytes : Z := 2048.

(** ** [is_valid_launch_url] *)

Definition tolower (c : Z) : Z := if (65 <=? c) && (c <=? 90) then c + 32 else c.

Fixpoint starts_with_ci (str prefix : bytes) : bool :=
  match prefix, str with
  | [], _ => true
  | _, [] => false
  | p :: prefix', s :: str' =>
      if negb (tolower (byte_val s) =? tolower (byte_val p)) then false
      else starts_with_ci str' prefix'
  end.

(** [std::string_view::find_first_of]. *)
Fixpoint find_first_of (set str : bytes) : option nat :=
  match str with
  | [] => None
  | c :: str' =>
      if bool_decide (c ∈ set) then Some O else option_map S (find_first_of set str')
  end.

(** One turn of the character loop. *)
Definition check_character (c : byte) : result unit :=
  let uc := byte_val c in
  if (uc <? 32) || (uc =? 127)
  then Err "URL contains invalid control characters or newlines."
  else if uc =? 32 then Err "URL contains unencoded whitespace; use %20 instead."
  else if (uc =? 34) || (uc =? 39) || (uc =? 96)
  then Err "URL contains disallowed quote or backtick characters."
  else if (uc =? 60) || (uc =? 62)
  then Err "URL contains disallowed angle bracket characters."
  else if (uc =? 124) || (uc =? 94) || (uc =? 92)
  then Err "URL contains disallowed shell or separator characters."
  else Ok tt.

Fixpoint check_characters (url : bytes) : result unit :=
  match url with
  | [] => Ok tt
  | c :: url' =>
      match check_character c with
      | Err e => Err e
      | Ok _ => check_characters url'
      end
  end.

Definition scheme_length (url : bytes) : option nat :=
  if starts_with_ci url (text "https://") then Some 8%nat
  else if starts_with_ci url (text "http://") then Some 7%nat
  else None.

(** [Ok] is [true]; [Err] is [false] with the message left in [*error]. *)
Definition is_valid_launch_url (url : bytes) : result unit :=
  if bool_decide (url = []) then Err "URL cannot be empty."
  else if len url >? kMaximumUrlBytes
  then Err "URL exceeds maximum allowed length of 2048 bytes."
  else
    match scheme_length url with
    | None => Err "URL must use http:// or https:// protocol scheme."
    | Some scheme_len =>
        let remainder := drop scheme_len url in
        if bool_decide (remainder = []) then Err "URL host component cannot be empty."
        else
          let host := match find_first_of (text "/?#") remainder with
                      | None => remainder
                      | Some host_end => take host_end remainder
                      end in
          if bool_decide (host = []) then Err "URL host component cannot be empty."
          else check_characters url
    end.

(** ** [sanitize_launch_url] *)

Definition whitespace (c : byte) : bool :=
  let v := byte_val c in (v =? 32) || (v =? 9) || (v =? 13) || (v =? 10).

Fixpoint trim_front (raw : bytes) : bytes :=
  match raw with
  | c :: raw' => if whitespace c then trim_front raw' else raw
  | [] => []
  end.

(** [while (!raw.empty() && whitespace(raw.back())) raw.remove_suffix(1)]. *)
Fixpoint trim_back (raw : bytes) : bytes :=
  match raw with
  | [] => []
  | c :: raw' =>
      match trim_back raw' with
      | [] => if whitespace c then [] else [c]
      | rest => c :: rest
      end
  end.

Definition sanitize_launch_url (raw_url : bytes) : bytes :=
  let raw := trim_back (trim_front raw_url) in
  if bool_decide (raw = []) then []
  else if starts_with_ci raw (text "http://") || starts_with_ci raw (text "https://") then raw
  else text "https://" ++ raw.

(** ** What a launch URL is *)

Definition safe_character (c : byte) : Prop :=
  let v := byte_val c in
  33 <= v /\ v <> 127 /\ v ∉ [34; 39; 60; 62; 92; 94; 96; 124].

(** The bytes of [s] are those of [prefix] up to the case of ASCII letters. *)
Definition same_ci (s prefix : bytes) : Prop :=
  Forall2 (fun a b => tolower (byte_val a) = tolower (byte_val b)) s prefix.

Definition launch_url (url : bytes) : Prop :=
  exists scheme host tail,
    url = scheme ++ host ++ tail /\
    (same_ci scheme (text "https://") \/ same_ci scheme (text "http://")) /\
    host <> [] /\ Forall (fun c => c ∉ text "/?#") host /\
    (tail = [] \/ exists c tail', tail = c :: tail' /\ c ∈ text "/?#") /\
    len url <= kMaximumUrlBytes /\ Forall safe_character url.

(** ** Lemmas *)

Lemma starts_with_ci_spec str prefix :
  starts_with_ci str prefix = true <->
  exists s rest, str = s ++ rest /\ same_ci s prefix.
Proof.
  unfold same_ci. revert str. induction prefix as [|p prefix IH]; intros str; cbn.
  - split; [|by destruct str]. intros _. by exists [], str.
  - destruct str as [|c str].
    + split; [done|]. intros (s & rest & E & HF). inversion HF; by subst.
    + cbn. destruct (Z.eqb_spec (tolower (byte_val c)) (tolower (byte_val p))) as [E|E]; cbn.
      * rewrite IH. split; intros (s & rest & H & HF).
        -- exists (c :: s), rest. subst. by split; [|constructor].
        -- inversion HF; subst. injection H as -> ->. eauto.
      * split; [done|]. intros (s & rest & H & HF). inversion HF; subst.
        by injection H as -> ->.
Qed.

Lemma find_first_of_None set str :
  find_first_of set str = None <-> Forall (fun c => c ∉ set) str.
Proof.
  induction str as [|c str IH]; cbn; [split; [constructor|done]|].
  rewrite Forall_cons, <- IH. case_bool_decide; cbn; [naive_solver|].
  destruct (find_first_of set str); cbn; naive_solver.
Qed.

Lemma find_first_of_Some set str n :
  find_first_of set str = Some n ->
  exists c rest, str = take n str ++ c :: rest /\ c ∈ set /\ Forall (fun c => c ∉ set) (take n str).
Proof.
  revert n. induction str as [|c str IH]; intros n; cbn; [done|]. case_bool_decide as Hc.
  - intros [= <-]. by exists c, str.
  - destruct (find_first_of set str) as [m|]; [|done]. intros [= <-].
    destruct (IH m eq_refl) as (d & rest & E & Hd & HF). exists d, rest. cbn.
    split; [by rewrite <- E|]. split; [done|]. by constructor.
Qed.

Lemma check_character_ok c : check_character c = Ok tt <-> safe_character c.
Proof.
  unfold check_character, safe_character. rewrite !not_elem_of_cons.
  pose proof (not_elem_of_nil (byte_val c)).
  repeat case_match; bool_to_prop; split; try done; try lia;
    repeat match goal with H : _ || _ = true |- _ => apply orb_true_iff in H as [H|H]; bool_to_prop end;
    try lia; intros; split_and!; done || lia.
Qed.

Lemma check_characters_ok url : check_characters url = Ok tt <-> Forall safe_character url.
Proof.
  induction url as [|c url IH]; cbn; [split; [constructor|done]|].
  rewrite Forall_cons, <- IH, <- check_character_ok.
  destruct (check_character c) as [[]|]; naive_solver.
Qed.

Lemma schemes_disjoint url :
  starts_with_ci url (text "https://") = true -> starts_with_ci url (text "http://") = true -> False.
Proof.
  destruct url as [|a [|b [|c [|d [|e url]]]]]; cbn; repeat case_match; try done.
  intros _ _. bool_to_prop.
  assert (tolower (byte_val Byte.x73) <> tolower (byte_val Byte.x3a)) by (by vm_compute).
  congruence.
Qed.

Lemma scheme_length_spec url n :
  scheme_length url = Some n <->
  exists scheme rest, url = scheme ++ rest /\ length scheme = n /\
    (same_ci scheme (text "https://") \/ same_ci scheme (text "http://")).
Proof.
  unfold scheme_length. split.
  - repeat case_match; intros [= <-];
      match goal with H : starts_with_ci _ _ = true |- _ =>
        apply starts_with_ci_spec in H as (s & rest & -> & HF) end;
      exists s, rest; (split; [done|]); split; eauto; apply Forall2_length in HF; done.
  - intros (scheme & rest & -> & <- & HF). destruct HF as [HF|HF]; pose proof (Forall2_length _ _ _ HF) as HL.
    + rewrite (proj2 (starts_with_ci_spec _ _)) by eauto. by rewrite HL.
    + assert (starts_with_ci (scheme ++ rest) (text "http://") = true) as H
        by (apply starts_with_ci_spec; eauto).
      rewrite H. destruct (starts_with_ci _ (text "https://")) eqn:H'; [|by rewrite HL].
      destruct (schemes_disjoint _ H' H).
Qed.

(** The host of a remainder that has one. *)
Lemma find_first_of_host host tail :
  Forall (fun c => c ∉ text "/?#") host ->
  (tail = [] \/ exists c tail', tail = c :: tail' /\ c ∈ text "/?#") ->
  match find_first_of (text "/?#") (host ++ tail) with
  | None => host ++ tail
  | Some host_end => take host_end (host ++ tail)
  end = host.
Proof.
  intros Hh Ht. assert (find_first_of (text "/?#") (host ++ tail) =
    match tail with [] => None | _ => Some (length host) end) as ->.
  { induction Hh as [|c host Hc _ IH]; cbn [app find_first_of length].
    - destruct Ht as [->|(c & tail' & -> & Hc)]; [done|]. cbn. by rewrite bool_decide_true.
    - rewrite bool_decide_false by done. rewrite IH. by destruct tail. }
  destruct tail; [apply app_nil_r|]. apply take_app_length.
Qed.

Lemma valid_url_iff url : is_valid_launch_url url = Ok tt <-> launch_url url.
Proof.
  unfold is_valid_launch_url. split.
  - case_bool_decide; [done|]. destruct (len url >? _) eqn:Hl; [done|].
    destruct (scheme_length url) as [n|] eqn:Hs; [|done].
    apply scheme_length_spec in Hs as (scheme & rest & -> & <- & Hs).
    rewrite drop_app_length. case_bool_decide as Hr; [done|]. cbv zeta.
    case_bool_decide as Hh; [done|]. intros Hc%check_characters_ok. bool_to_prop.
    destruct (find_first_of (text "/?#") rest) as [k|] eqn:Hf.
    + apply find_first_of_Some in Hf as (c & tail & E & Hd & HF).
      exists scheme, (take k rest), (c :: tail). rewrite <- E. split_and!; eauto.
    + apply find_first_of_None in Hf. exists scheme, rest, []. rewrite app_nil_r.
      split_and!; eauto.
  - intros (scheme & host & tail & -> & Hs & Hh & HF & Ht & Hl & Hc).
    rewrite (proj2 (scheme_length_spec _ (length scheme))) by eauto.
    rewrite drop_app_length, find_first_of_host by done.
    assert (host ++ tail <> []) as Hne by (by destruct host).
    rewrite bool_decide_false by (intros [_ E]%app_nil; done).
    destruct (_ >? _) eqn:E; [lia|]. rewrite !bool_decide_false by done.
    by apply check_characters_ok.
Qed.

(** ** Trimming *)

Lemma whitespace_unsafe c : safe_character c -> whitespace c = false.
Proof. unfold safe_character, whitespace. intros [H _]. lia. Qed.

Lemma trim_front_head raw c raw' : trim_front raw = c :: raw' -> whitespace c = false.
Proof.
  induction raw as [|d raw IH]; cbn; [done|]. destruct (whitespace d) eqn:E; [done|].
  by intros [= -> ->].
Qed.

Lemma trim_front_id c raw : whitespace c = false -> trim_front (c :: raw) = c :: raw.
Proof. cbn. by intros ->. Qed.

Lemma trim_back_idem raw : trim_back (trim_back raw) = trim_back raw.
Proof.
  induction raw as [|c raw IH]; [done|]. cbn. destruct (trim_back raw) as [|d rest] eqn:E.
  - destruct (whitespace c) eqn:Hc; cbn; [done|]. by rewrite Hc.
  - cbn in *. by rewrite IH.
Qed.

Lemma trim_back_app prefix raw :
  trim_back raw = raw -> raw <> [] -> trim_back (prefix ++ raw) = prefix ++ raw.
Proof.
  intros E Hne. induction prefix as [|c prefix IH]; [done|]. cbn. rewrite IH.
  by destruct prefix, raw.
Qed.

Lemma trim_back_safe raw : Forall safe_character raw -> trim_back raw = raw.
Proof.
  induction 1 as [|c raw Hc _ IH]; [done|]. cbn. rewrite IH, (whitespace_unsafe c) by done.
  by destruct raw.
Qed.

(** A trimmed string keeps its first character, which is not whitespace. *)
Lemma trimmed_fixed raw :
  trim_front (trim_back (trim_front raw)) = trim_back (trim_front raw).
Proof.
  destruct (trim_front raw) as [|c raw'] eqn:E; [done|]. apply trim_front_head in E. cbn.
  destruct (trim_back raw') as [|d rest]; cbn; by rewrite ?E; cbn; rewrite ?E.
Qed.

Lemma same_ci_refl s : same_ci s s.
Proof. unfold same_ci. induction s; by constructor. Qed.

Lemma https_prefixed raw : starts_with_ci (text "https://" ++ raw) (text "https://") = true.
Proof. apply starts_with_ci_spec. exists (text "https://"), raw. by split; [|apply same_ci_refl]. Qed.

Lemma sanitize_fixed raw :
  trim_front raw = raw -> trim_back raw = raw ->
  starts_with_ci raw (text "http://") || starts_with_ci raw (text "https://") = true ->
  sanitize_launch_url raw = raw.
Proof.
  intros Hf Hb Hs. unfold sanitize_launch_url. rewrite Hf, Hb, Hs.
  by case_bool_decide as E; [rewrite E|].
Qed.

Lemma sanitize_idem raw :
  sanitize_launch_url (sanitize_launch_url raw) = sanitize_launch_url raw.
Proof.
  unfold sanitize_launch_url at 2 3. set (t := trim_back (trim_front raw)).
  assert (trim_front t = t) as Hf by apply trimmed_fixed.
  assert (trim_back t = t) as Hb by apply trim_back_idem.
  case_bool_decide as Hne; [done|].
  destruct (_ || _) eqn:Hs; [by apply sanitize_fixed|].
  apply sanitize_fixed; [done|by apply trim_back_app|].
  by rewrite https_prefixed, orb_true_r.
Qed.

Lemma scheme_length_total url :
  starts_with_ci url (text "http://") || starts_with_ci url (text "https://") = true ->
  exists n, scheme_length url = Some n.
Proof.
  unfold scheme_length. rewrite orb_true_iff.
  intros [H|H]; repeat case_match; simplify_eq; eauto.
Qed.

Lemma sanitize_scheme url :
  sanitize_launch_url url = [] \/ exists n, scheme_length (sanitize_launch_url url) = Some n.
Proof.
  unfold sanitize_launch_url. case_bool_decide; [by left|]. right. apply scheme_length_total.
  match goal with |- context [if ?b then _ else _] => destruct b eqn:E end; [done|].
  by rewrite https_prefixed, orb_true_r.
Qed.

Lemma sanitize_valid url : launch_url url -> sanitize_launch_url url = url.
Proof.
  intros (scheme & host & tail & E & Hs & Hh & _ & _ & _ & Hc). apply sanitize_fixed.
  - destruct url as [|c url]; [done|]. apply Forall_cons in Hc as [Hc _].
    by apply trim_front_id, whitespace_unsafe.
  - by apply trim_back_safe.
  - apply orb_true_iff. destruct Hs as [Hs|Hs]; [right|left]; apply starts_with_ci_spec; eauto.
Qed.

(** ** Property *)

(** The URLs the teacher may launch on the students' machines are exactly
    the [http]/[https] URLs (scheme in any case) of at most 2048 bytes with a
    non-empty host up to the first slash, question mark or hash, all of whose
    bytes are above the space and none of which is DEL, a quote, a backtick, an
    angle bracket, a backslash, a caret or a bar; any other string, in
    particular one with another scheme, is refused. Sanitizing what the
    operator typed is idempotent, yields nothing or an [http]/[https] string,
    and leaves a valid URL as it is. *)
Theorem launch_urls_are_safe (url : bytes) :
  (is_valid_launch_url url = Ok tt <-> launch_url url) /\
  sanitize_launch_url (sanitize_launch_url url) = sanitize_launch_url url /\
  (sanitize_launch_url url = [] \/
   exists n, scheme_length (sanitize_launch_url url) = Some n) /\
  (is_valid_launch_url url <> Ok tt \/ sanitize_launch_url url = url).
Proof.
  split; [apply valid_url_iff|]. split; [apply sanitize_idem|]. split.
  - apply sanitize_scheme.
  - destruct (is_valid_launch_url url) as [[]|] eqn:E; [right|by left].
    by apply sanitize_valid, valid_url_iff.
Qed.

End UrlValidation.
