(* ===== verification/ControlMessages.v ===== *)
(** Teacher/student control messages (common/include/nstu/control_messages.hpp,
    common/src/control_messages.cpp): status reports, streaming and snapshot
    commands, managed mode, UWF configuration, help, launch URL, power, Wake on
    LAN, demonstration mode and fleet metadata.  Enum fields hold their raw
    value. *)

From S2P Require Import Prelude Wire Codec UrlValidation.
Import ReaderNotations.
#[local] Open Scope nstu_scope.

Module ControlMessages.

(** ** Constants *)

Definition kStatusVersion : Z := 2.
Definition kLockedFlag : Z := 1.
Definition kStreamingFlag : Z := 2.
Definition kSnapshottingFlag : Z := 4.
Definition kViewingBroadcastFlag : Z := 8.
Definition kSnapshotFrameVersion : Z := 1.
Definition kBroadcastModeVersion : Z := 1.
Definition kFleetMetadataVersion : Z := 1.
Definition kMaximumHostnameBytes : Z := 255.
Definition kMinimumSnapshotIntervalSeconds : Z := 5.
Definition kMaximumSnapshotIntervalSeconds : Z := 10.
Definition kMaximumSnapshotWidth : Z := 1280.
Definition kMaximumSnapshotHeight : Z := 720.
Definition kMaximumSnapshotJpegBytes : Z := 512 * 1024.
Definition kMaximumUwfDetailBytes : Z := 256.
Definition kBootIdBytes : nat := 16.
Definition kMaximumHelpMessageBytes : Z := 256.
Definition kMaximumClientVersionBytes : Z := 32.

Definition outcome_armed : Z := 1.
Definition outcome_busy : Z := 13.
Definition phase_idle : Z := 1.
Definition phase_verified_protected : Z := 7.
Definition phase_unsupported : Z := 9.
Definition power_reboot : Z := 1.
Definition power_shutdown : Z := 2.
Definition support_missing_mac : Z := 3.
Definition mode_follow_along : Z := 1.

(** ** Data *)

Record ClientStatusReport := mkClientStatusReport {
  cs_hostname : bytes;
  cs_locked : bool;
  cs_streaming : bool;
  cs_snapshotting : bool;
  cs_viewing_broadcast : bool;
  cs_frames_per_second : Z;
  cs_snapshot_interval_seconds : Z;
  cs_session_id : Z;
  cs_latency_ms : Z;
  cs_packet_loss_per_mille : Z;
  cs_packet_loss_sample_size : Z;
  cs_delivery : Z
}.

Record SnapshotFrame := mkSnapshotFrame {
  sf_width : Z;
  sf_height : Z;
  sf_captured_at : Z;
  sf_jpeg : bytes
}.

Record OverlayStroke := mkOverlayStroke {
  os_x0 : Z;
  os_y0 : Z;
  os_x1 : Z;
  os_y1 : Z;
  os_thickness : Z;
  os_rgba : Z
}.

Record UwfConfigureReport := mkUwfConfigureReport {
  uc_outcome : Z;
  uc_reboot_required : bool;
  uc_data_exclusion_ready : bool;
  uc_registry_exclusion_ready : bool;
  uc_detail : bytes
}.

Record UwfProtectionProbe := mkUwfProtectionProbe {
  up_probe_succeeded : bool;
  up_filter_current_enabled : bool;
  up_filter_next_enabled : bool;
  up_system_volume_current_protected : bool;
  up_data_exclusion_present : bool;
  up_registry_exclusion_present : bool
}.

Record UwfFleetConfigureRequest := mkUwfFleetConfigureRequest {
  uf_operation_id : Z;
  uf_checkpoint_acknowledged : bool;
  uf_restart_requested : bool
}.

Record UwfFleetStatusReport := mkUwfFleetStatusReport {
  us_operation_id : Z;
  us_boot_id : bytes;
  us_phase : Z;
  us_probe : UwfProtectionProbe;
  us_detail : bytes
}.

Record VideoGroupKeyMessage := mkVideoGroupKeyMessage {
  vk_stream_id : Z;
  vk_first_packet_sequence : Z;
  vk_key : bytes
}.

Record HelpRequestMessage := mkHelpRequestMessage {
  hr_active : bool;
  hr_timestamp : Z;
  hr_message : bytes
}.

Record HelpAckMessage := mkHelpAckMessage { ha_resolved : bool; ha_timestamp : Z }.

Record PowerActionMessage := mkPowerActionMessage { pa_action : Z; pa_force : bool }.

Record WolReportMessage := mkWolReportMessage { wr_mac : bytes; wr_support : Z }.

Record BroadcastModeMessage := mkBroadcastModeMessage { bm_mode : Z; bm_lock_input : bool }.

Record FleetMetadataMessage := mkFleetMetadataMessage {
  fm_client_version : bytes;
  fm_agent_connected : bool
}.

(** ** Helpers *)

Definition printable_ascii (s : bytes) : bool :=
  forallb (fun c => (byte_val c >=? 32) && (byte_val c <? 127)) s.

#[global] Arguments printable_ascii _ : simpl never.

(** [flag ? mask : 0], and [(flags & mask) != 0]. *)
Definition flag_bit (flag : bool) (mask : Z) : Z := if flag then mask else 0.
Definition has_flag (flags mask : Z) : bool := negb (Z.land flags mask =? 0).

(** [(flags & ~mask) != 0] *)
Definition unknown_flags (flags mask : Z) : bool := negb (Z.land flags (Z.lnot mask) =? 0).

Definition probe_proves_protection (probe : UwfProtectionProbe) : bool :=
  up_probe_succeeded probe && up_filter_current_enabled probe &&
  up_system_volume_current_protected probe.

(** ** Status report *)

(** The rates that go with the streaming and snapshotting flags. *)
Definition bad_rates (streaming snapshotting : bool) (fps interval : Z) : bool :=
  (streaming && ((fps <? 5) || (fps >? 15))) || (negb streaming && negb (fps =? 0)) ||
  (snapshotting && ((interval <? kMinimumSnapshotIntervalSeconds) ||
                    (interval >? kMaximumSnapshotIntervalSeconds))) ||
  (negb snapshotting && negb (interval =? 0)).

Definition status_flags (locked streaming snapshotting viewing_broadcast : bool) : Z :=
  Z.lor (Z.lor (Z.lor (flag_bit locked kLockedFlag) (flag_bit streaming kStreamingFlag))
               (flag_bit snapshotting kSnapshottingFlag))
        (flag_bit viewing_broadcast kViewingBroadcastFlag).

Definition encode_status_report (r : ClientStatusReport) : bytes :=
  if bool_decide (cs_hostname r = []) || (len (cs_hostname r) >? kMaximumHostnameBytes) ||
     (cs_packet_loss_per_mille r >? 1000) ||
     bad_rates (cs_streaming r) (cs_snapshotting r) (cs_frames_per_second r)
       (cs_snapshot_interval_seconds r)
  then []
  else
    write_le 2 kStatusVersion ++
    write_le 2 (status_flags (cs_locked r) (cs_streaming r) (cs_snapshotting r)
                  (cs_viewing_broadcast r)) ++
    write_le 4 (cs_session_id r) ++ write_le 4 (cs_latency_ms r) ++
    write_le 4 (cs_packet_loss_per_mille r) ++ write_le 8 (cs_packet_loss_sample_size r) ++
    write_le 1 (cs_delivery r) ++ write_le 1 (cs_frames_per_second r) ++
    write_le 2 (cs_snapshot_interval_seconds r) ++ write_le 2 (len (cs_hostname r)) ++
    cs_hostname r.

(** The rates are on the wire from version 2 on; a version 1 report leaves the
    defaults of the struct. *)
Definition read_rates (version : Z) : reader (Z * Z) :=
  if version =? kStatusVersion then
    frames_per_second <- read_le 1 ;;
    snapshot_interval_seconds <- read_le 2 ;;
    rret (frames_per_second, snapshot_interval_seconds)
  else rret (0, 0).

Definition decode_status_report (payload : bytes) : option ClientStatusReport :=
  run_reader (
    version <- read_le 2 ;; guard ((version =? 1) || (version =? kStatusVersion)) ;;
    flags <- read_le 2 ;;
    guard (negb (unknown_flags flags
      (Z.lor (Z.lor (Z.lor kLockedFlag kStreamingFlag) kSnapshottingFlag)
             kViewingBroadcastFlag))) ;;
    session_id <- read_le 4 ;;
    latency_ms <- read_le 4 ;;
    packet_loss_per_mille <- read_le 4 ;; guard (negb (packet_loss_per_mille >? 1000)) ;;
    packet_loss_sample_size <- read_le 8 ;;
    delivery <- read_le 1 ;; guard (negb (delivery >? 1)) ;;
    rates <- read_rates version ;;
    hostname_bytes <- read_le 2 ;;
    guard (negb ((hostname_bytes =? 0) || (hostname_bytes >? kMaximumHostnameBytes))) ;;
    left <- rremaining ;; guard (left =? hostname_bytes) ;;
    guard (negb (bad_rates (has_flag flags kStreamingFlag) (has_flag flags kSnapshottingFlag)
      rates.1 rates.2)) ;;
    hostname <- read_rest ;;
    rret (mkClientStatusReport hostname (has_flag flags kLockedFlag)
      (has_flag flags kStreamingFlag) (has_flag flags kSnapshottingFlag)
      (has_flag flags kViewingBroadcastFlag) rates.1 rates.2 session_id latency_ms
      packet_loss_per_mille packet_loss_sample_size delivery)) payload.

(** ** Streaming, snapshots, overlay *)

Definition encode_start_stream_request (frames_per_second : Z) : bytes :=
  if (frames_per_second <? 5) || (frames_per_second >? 15) then []
  else [byte_of frames_per_second].

Definition decode_start_stream_request (payload : bytes) : option Z :=
  match payload with
  | [b] =>
      let fps := byte_val b in
      if (fps >=? 5) && (fps <=? 15) then Some fps else None
  | _ => None
  end.

Definition encode_snapshot_schedule (interval_seconds : Z) : bytes :=
  if (interval_seconds <? kMinimumSnapshotIntervalSeconds) ||
     (interval_seconds >? kMaximumSnapshotIntervalSeconds) then []
  else write_le 2 interval_seconds.

Definition decode_snapshot_schedule (payload : bytes) : option Z :=
  run_reader (
    interval_seconds <- read_le 2 ;;
    left <- rremaining ;;
    guard (negb (negb (left =? 0) || (interval_seconds <? kMinimumSnapshotIntervalSeconds) ||
                 (interval_seconds >? kMaximumSnapshotIntervalSeconds))) ;;
    rret interval_seconds) payload.

Definition encode_snapshot_frame (f : SnapshotFrame) : bytes :=
  if (sf_width f =? 0) || (sf_height f =? 0) || (sf_width f >? kMaximumSnapshotWidth) ||
     (sf_height f >? kMaximumSnapshotHeight) || (sf_captured_at f =? 0) ||
     bool_decide (sf_jpeg f = []) || (len (sf_jpeg f) >? kMaximumSnapshotJpegBytes)
  then []
  else
    write_le 2 kSnapshotFrameVersion ++ write_le 2 (sf_width f) ++ write_le 2 (sf_height f) ++
    write_le 2 0 ++ write_le 8 (sf_captured_at f) ++ write_le 4 (len (sf_jpeg f)) ++ sf_jpeg f.

Definition decode_snapshot_frame (payload : bytes) : option SnapshotFrame :=
  run_reader (
    version <- read_le 2 ;; guard (version =? kSnapshotFrameVersion) ;;
    width <- read_le 2 ;; guard (negb ((width =? 0) || (width >? kMaximumSnapshotWidth))) ;;
    height <- read_le 2 ;; guard (negb ((height =? 0) || (height >? kMaximumSnapshotHeight))) ;;
    reserved <- read_le 2 ;; guard (reserved =? 0) ;;
    captured_at <- read_le 8 ;; guard (negb (captured_at =? 0)) ;;
    jpeg_bytes <- read_le 4 ;;
    guard (negb ((jpeg_bytes =? 0) || (jpeg_bytes >? kMaximumSnapshotJpegBytes))) ;;
    left <- rremaining ;; guard (left =? jpeg_bytes) ;;
    jpeg <- read_rest ;;
    rret (mkSnapshotFrame width height captured_at jpeg)) payload.

Definition bad_stroke (thickness rgba : Z) : bool :=
  (thickness =? 0) || (thickness >? 32) || (Z.land rgba 0xff =? 0).

Definition encode_overlay_stroke (s : OverlayStroke) : bytes :=
  if bad_stroke (os_thickness s) (os_rgba s) then []
  else
    write_le 2 (os_x0 s) ++ write_le 2 (os_y0 s) ++ write_le 2 (os_x1 s) ++
    write_le 2 (os_y1 s) ++ write_le 2 (os_thickness s) ++ write_le 4 (os_rgba s).

Definition decode_overlay_stroke (payload : bytes) : option OverlayStroke :=
  run_reader (
    x0 <- read_le 2 ;;
    y0 <- read_le 2 ;;
    x1 <- read_le 2 ;;
    y1 <- read_le 2 ;;
    thickness <- read_le 2 ;;
    rgba <- read_le 4 ;;
    left <- rremaining ;;
    guard (negb (negb (left =? 0) || bad_stroke thickness rgba)) ;;
    rret (mkOverlayStroke x0 y0 x1 y1 thickness rgba)) payload.

Definition encode_video_group_key (m : VideoGroupKeyMessage) : bytes :=
  if vk_stream_id m =? 0 then []
  else write_le 4 (vk_stream_id m) ++ write_le 8 (vk_first_packet_sequence m) ++ vk_key m.

Definition decode_video_group_key (payload : bytes) : option VideoGroupKeyMessage :=
  if negb (len payload =? 4 + 8 + 32) then None
  else
    run_reader (
      stream_id <- read_le 4 ;; guard (negb (stream_id =? 0)) ;;
      first_packet_sequence <- read_le 8 ;;
      key <- read_bytes 32 ;;
      rret (mkVideoGroupKeyMessage stream_id first_packet_sequence key)) payload.

(** ** Managed mode and UWF *)

Definition encode_freeze_state (frozen : bool) : bytes := [byte_of (if frozen then 1 else 0)].

Definition decode_freeze_state (payload : bytes) : option bool :=
  match payload with
  | [b] =>
      let value := byte_val b in
      if value <=? 1 then Some (negb (value =? 0)) else None
  | _ => None
  end.

Definition encode_uwf_configure_request (checkpoint_acknowledged : bool) : bytes :=
  [byte_of (if checkpoint_acknowledged then 1 else 0)].

Definition decode_uwf_configure_request (payload : bytes) : option bool :=
  decode_freeze_state payload.

Definition uwf_configure_flags (reboot_required data_ready registry_ready : bool) : Z :=
  Z.lor (Z.lor (flag_bit reboot_required 1) (flag_bit data_ready 2)) (flag_bit registry_ready 4).

Definition encode_uwf_configure_report (r : UwfConfigureReport) : bytes :=
  if (uc_outcome r <? outcome_armed) || (uc_outcome r >? outcome_busy) ||
     bool_decide (uc_detail r = []) || (len (uc_detail r) >? kMaximumUwfDetailBytes) ||
     negb (printable_ascii (uc_detail r))
  then []
  else
    write_le 1 (uc_outcome r) ++
    write_le 1 (uwf_configure_flags (uc_reboot_required r) (uc_data_exclusion_ready r)
                  (uc_registry_exclusion_ready r)) ++
    write_le 2 (len (uc_detail r)) ++ uc_detail r.

(** The length-prefixed detail that fills the rest of a UWF report. *)
Definition read_detail : reader bytes :=
  detail_bytes <- read_le 2 ;;
  guard (negb ((detail_bytes =? 0) || (detail_bytes >? kMaximumUwfDetailBytes))) ;;
  left <- rremaining ;; guard (left =? detail_bytes) ;;
  detail <- read_rest ;;
  rret detail.

Definition decode_uwf_configure_report (payload : bytes) : option UwfConfigureReport :=
  run_reader (
    outcome <- read_le 1 ;;
    guard (negb ((outcome <? outcome_armed) || (outcome >? outcome_busy))) ;;
    flags <- read_le 1 ;; guard (negb (unknown_flags flags 0x07)) ;;
    detail <- read_detail ;;
    guard (printable_ascii detail) ;;
    rret (mkUwfConfigureReport outcome (has_flag flags 1) (has_flag flags 2) (has_flag flags 4)
            detail)) payload.

Definition fleet_request_flags (checkpoint_acknowledged restart_requested : bool) : Z :=
  Z.lor (flag_bit checkpoint_acknowledged 1) (flag_bit restart_requested 2).

Definition encode_uwf_fleet_configure_request (r : UwfFleetConfigureRequest) : bytes :=
  if uf_operation_id r =? 0 then []
  else
    write_le 8 (uf_operation_id r) ++
    write_le 1 (fleet_request_flags (uf_checkpoint_acknowledged r) (uf_restart_requested r)).

Definition decode_uwf_fleet_configure_request (payload : bytes)
    : option UwfFleetConfigureRequest :=
  run_reader (
    operation_id <- read_le 8 ;; guard (negb (operation_id =? 0)) ;;
    flags <- read_le 1 ;; guard (negb (unknown_flags flags 0x03)) ;;
    left <- rremaining ;; guard (left =? 0) ;;
    rret (mkUwfFleetConfigureRequest operation_id (has_flag flags 1) (has_flag flags 2))) payload.

Definition probe_flags (p : UwfProtectionProbe) : Z :=
  Z.lor (Z.lor (Z.lor (Z.lor (Z.lor (flag_bit (up_probe_succeeded p) 0x01)
    (flag_bit (up_filter_current_enabled p) 0x02)) (flag_bit (up_filter_next_enabled p) 0x04))
    (flag_bit (up_system_volume_current_protected p) 0x08))
    (flag_bit (up_data_exclusion_present p) 0x10))
    (flag_bit (up_registry_exclusion_present p) 0x20).

Definition probe_of_flags (flags : Z) : UwfProtectionProbe :=
  mkUwfProtectionProbe (has_flag flags 0x01) (has_flag flags 0x02) (has_flag flags 0x04)
    (has_flag flags 0x08) (has_flag flags 0x10) (has_flag flags 0x20).

Definition encode_uwf_fleet_status_report (r : UwfFleetStatusReport) : bytes :=
  if (us_phase r <? phase_idle) || (us_phase r >? phase_unsupported) ||
     bool_decide (us_detail r = []) || (len (us_detail r) >? kMaximumUwfDetailBytes) ||
     negb (printable_ascii (us_detail r))
  then []
  else
    write_le 8 (us_operation_id r) ++ us_boot_id r ++ write_le 1 (us_phase r) ++
    write_le 1 (probe_flags (us_probe r)) ++ write_le 2 (len (us_detail r)) ++ us_detail r.

Definition decode_uwf_fleet_status_report (payload : bytes) : option UwfFleetStatusReport :=
  run_reader (
    operation_id <- read_le 8 ;;
    boot_id <- read_bytes kBootIdBytes ;;
    phase <- read_le 1 ;;
    guard (negb ((phase <? phase_idle) || (phase >? phase_unsupported))) ;;
    flags <- read_le 1 ;; guard (negb (unknown_flags flags 0x3f)) ;;
    detail <- read_detail ;;
    guard (negb ((Z.land flags 0x01 =? 0) && unknown_flags flags 0x01)) ;;
    guard (printable_ascii detail) ;;
    guard (negb ((phase =? phase_verified_protected) &&
                 negb (probe_proves_protection (probe_of_flags flags)))) ;;
    rret (mkUwfFleetStatusReport operation_id boot_id phase (probe_of_flags flags) detail))
    payload.

(** ** Help *)

Definition encode_help_request (m : HelpRequestMessage) : bytes :=
  if len (hr_message m) >? kMaximumHelpMessageBytes then []
  else
    [if hr_active m then Byte.x01 else Byte.x00] ++ write_le 8 (hr_timestamp m) ++
    write_le 2 (len (hr_message m)) ++ hr_message m.

Definition decode_help_request (payload : bytes) : option HelpRequestMessage :=
  if len payload <? 1 + 8 + 2 then None
  else
    run_reader (
      active <- read_le 1 ;;
      timestamp <- read_le 8 ;;
      msg_len <- read_le 2 ;;
      left <- rremaining ;;
      guard (negb ((msg_len >? kMaximumHelpMessageBytes) || negb (msg_len =? left))) ;;
      message <- read_rest ;;
      rret (mkHelpRequestMessage (negb (active =? 0)) timestamp message)) payload.

Definition encode_help_ack (m : HelpAckMessage) : bytes :=
  [if ha_resolved m then Byte.x01 else Byte.x00] ++ write_le 8 (ha_timestamp m).

Definition decode_help_ack (payload : bytes) : option HelpAckMessage :=
  if negb (len payload =? 1 + 8) then None
  else
    run_reader (
      resolved <- read_le 1 ;;
      timestamp <- read_le 8 ;;
      rret (mkHelpAckMessage (negb (resolved =? 0)) timestamp)) payload.

(** ** Launch URL, power, Wake on LAN, demonstration mode, fleet metadata *)

Definition valid_launch_url (url : bytes) : bool :=
  match UrlValidation.is_valid_launch_url url with Ok _ => true | Err _ => false end.

Definition encode_launch_url (url : bytes) : bytes :=
  if negb (valid_launch_url url) then [] else write_le 2 (len url) ++ url.

Definition decode_launch_url (payload : bytes) : option bytes :=
  if len payload <? 2 then None
  else
    run_reader (
      url_len <- read_le 2 ;;
      left <- rremaining ;;
      guard (negb ((url_len >? UrlValidation.kMaximumUrlBytes) || negb (url_len =? left))) ;;
      url <- read_rest ;;
      guard (valid_launch_url url) ;;
      rret url) payload.

Definition encode_power_action (m : PowerActionMessage) : bytes :=
  if negb (pa_action m =? power_reboot) && negb (pa_action m =? power_shutdown) then []
  else [byte_of (pa_action m); byte_of (flag_bit (pa_force m) 0x01)].

Definition decode_power_action (payload : bytes) : option PowerActionMessage :=
  match payload with
  | [action; flags] =>
      let action_byte := byte_val action in
      let flags_byte := byte_val flags in
      if negb (action_byte =? power_reboot) && negb (action_byte =? power_shutdown) then None
      else if unknown_flags flags_byte 0x01 then None
      else Some (mkPowerActionMessage action_byte (has_flag flags_byte 0x01))
  | _ => None
  end.

Definition encode_wol_report (m : WolReportMessage) : bytes :=
  if wr_support m >? support_missing_mac then []
  else wr_mac m ++ [byte_of (wr_support m); Byte.x00].

Definition decode_wol_report (payload : bytes) : option WolReportMessage :=
  if negb (len payload =? 8) then None
  else
    run_reader (
      mac <- read_bytes 6 ;;
      state_byte <- read_le 1 ;; guard (negb (state_byte >? support_missing_mac)) ;;
      reserved_byte <- read_le 1 ;; guard (reserved_byte =? 0) ;;
      rret (mkWolReportMessage mac state_byte)) payload.

Definition encode_broadcast_mode (m : BroadcastModeMessage) : bytes :=
  if bm_mode m >? mode_follow_along then []
  else
    write_le 2 kBroadcastModeVersion ++
    [byte_of (bm_mode m); byte_of (flag_bit (bm_lock_input m) 0x01)].

Definition decode_broadcast_mode (payload : bytes) : option BroadcastModeMessage :=
  if negb (len payload =? 4) then None
  else
    run_reader (
      version <- read_le 2 ;; guard (version =? kBroadcastModeVersion) ;;
      mode_byte <- read_le 1 ;; guard (negb (mode_byte >? mode_follow_along)) ;;
      lock_byte <- read_le 1 ;; guard (negb (lock_byte >? 1)) ;;
      rret (mkBroadcastModeMessage mode_byte (negb (lock_byte =? 0)))) payload.

Definition encode_fleet_metadata (m : FleetMetadataMessage) : bytes :=
  if bool_decide (fm_client_version m = []) ||
     (len (fm_client_version m) >? kMaximumClientVersionBytes)
  then []
  else
    write_le 2 kFleetMetadataVersion ++ [byte_of (flag_bit (fm_agent_connected m) 0x01)] ++
    write_le 2 (len (fm_client_version m)) ++ fm_client_version m.

Definition decode_fleet_metadata (payload : bytes) : option FleetMetadataMessage :=
  run_reader (
    version <- read_le 2 ;; guard (version =? kFleetMetadataVersion) ;;
    agent_byte <- read_le 1 ;; guard (negb (agent_byte >? 1)) ;;
    version_bytes <- read_le 2 ;;
    guard (negb ((version_bytes =? 0) || (version_bytes >? kMaximumClientVersionBytes))) ;;
    left <- rremaining ;; guard (left =? version_bytes) ;;
    client_version <- read_rest ;;
    rret (mkFleetMetadataMessage client_version (negb (agent_byte =? 0)))) payload.

(** ** Well-formed messages *)

Definition wf_status (r : ClientStatusReport) : Prop :=
  0 < len (cs_hostname r) <= 255 /\ 0 <= cs_packet_loss_per_mille r <= 1000 /\
  u32 (cs_session_id r) /\ u32 (cs_latency_ms r) /\ u64 (cs_packet_loss_sample_size r) /\
  0 <= cs_delivery r <= 1 /\
  (if cs_streaming r then 5 <= cs_frames_per_second r <= 15 else cs_frames_per_second r = 0) /\
  (if cs_snapshotting r then 5 <= cs_snapshot_interval_seconds r <= 10
   else cs_snapshot_interval_seconds r = 0).

Definition wf_snapshot (f : SnapshotFrame) : Prop :=
  0 < sf_width f <= 1280 /\ 0 < sf_height f <= 720 /\ 0 < sf_captured_at f /\
  u64 (sf_captured_at f) /\ 0 < len (sf_jpeg f) <= 524288.

Definition wf_stroke (s : OverlayStroke) : Prop :=
  u16 (os_x0 s) /\ u16 (os_y0 s) /\ u16 (os_x1 s) /\ u16 (os_y1 s) /\
  1 <= os_thickness s <= 32 /\ u32 (os_rgba s) /\ os_rgba s mod 256 <> 0.

Definition wf_video_key (m : VideoGroupKeyMessage) : Prop :=
  0 < vk_stream_id m /\ u32 (vk_stream_id m) /\ u64 (vk_first_packet_sequence m) /\
  length (vk_key m) = 32%nat.

Definition wf_detail (detail : bytes) : Prop :=
  0 < len detail <= 256 /\ Forall (fun c => 32 <= byte_val c < 127) detail.

Definition wf_uwf_report (r : UwfConfigureReport) : Prop :=
  1 <= uc_outcome r <= 13 /\ wf_detail (uc_detail r).

Definition wf_fleet_request (r : UwfFleetConfigureRequest) : Prop :=
  0 < uf_operation_id r /\ u64 (uf_operation_id r).

(** An incomplete probe makes no observation, and the verified phase carries
    its own proof. *)
Definition wf_fleet_status (r : UwfFleetStatusReport) : Prop :=
  u64 (us_operation_id r) /\ length (us_boot_id r) = 16%nat /\ 1 <= us_phase r <= 9 /\
  wf_detail (us_detail r) /\
  (up_probe_succeeded (us_probe r) = false ->
   us_probe r = mkUwfProtectionProbe false false false false false false) /\
  (us_phase r = phase_verified_protected -> probe_proves_protection (us_probe r) = true).

Definition wf_help_request (m : HelpRequestMessage) : Prop :=
  u64 (hr_timestamp m) /\ len (hr_message m) <= 256.

Definition wf_wol (m : WolReportMessage) : Prop :=
  length (wr_mac m) = 6%nat /\ 0 <= wr_support m <= 3.

Definition wf_metadata (m : FleetMetadataMessage) : Prop :=
  0 < len (fm_client_version m) <= 32.

(** ** Flags *)

(** Flags without unknown bits are one of finitely many values. *)
Lemma known_flags mask (P : Z -> bool) flags :
  forallb P (seqZ 0 (mask + 1)) = true -> 0 <= mask -> 0 <= flags ->
  unknown_flags flags mask = false -> P flags = true.
Proof.
  rewrite forallb_forall. unfold unknown_flags. intros HP Hm Hf Hu.
  apply HP, list_elem_of_In, elem_of_seqZ. split; [done|]. bool_to_prop.
  assert (flags = Z.land flags mask) as ->.
  { apply Z.bits_inj'. intros n Hn. rewrite Z.land_spec.
    pose proof (f_equal (fun z => Z.testbit z n) Hu) as Hb. cbn in Hb.
    rewrite Z.land_spec, Z.lnot_spec, Z.bits_0 in Hb by lia.
    destruct (Z.testbit flags n), (Z.testbit mask n); done. }
  rewrite <- (Z2N.id flags), <- (Z2N.id mask), <- N2Z.inj_land by done.
  pose proof (N.land_le_r (Z.to_N flags) (Z.to_N mask)). lia.
Qed.

Lemma status_flags_ok a b c d :
  u16 (status_flags a b c d) /\ negb (unknown_flags (status_flags a b c d) 15) = true /\
  has_flag (status_flags a b c d) kLockedFlag = a /\
  has_flag (status_flags a b c d) kStreamingFlag = b /\
  has_flag (status_flags a b c d) kSnapshottingFlag = c /\
  has_flag (status_flags a b c d) kViewingBroadcastFlag = d.
Proof. destruct a, b, c, d; vm_compute; done. Qed.

Lemma status_flags_back flags :
  0 <= flags -> unknown_flags flags 15 = false ->
  status_flags (has_flag flags kLockedFlag) (has_flag flags kStreamingFlag)
    (has_flag flags kSnapshottingFlag) (has_flag flags kViewingBroadcastFlag) = flags.
Proof.
  intros Hf Hu. apply Z.eqb_eq.
  exact (known_flags 15 (fun flags => status_flags (has_flag flags kLockedFlag)
    (has_flag flags kStreamingFlag) (has_flag flags kSnapshottingFlag)
    (has_flag flags kViewingBroadcastFlag) =? flags) flags eq_refl ltac:(lia) Hf Hu).
Qed.

Lemma uwf_configure_flags_ok a b c :
  u8 (uwf_configure_flags a b c) /\ negb (unknown_flags (uwf_configure_flags a b c) 7) = true /\
  has_flag (uwf_configure_flags a b c) 1 = a /\ has_flag (uwf_configure_flags a b c) 2 = b /\
  has_flag (uwf_configure_flags a b c) 4 = c.
Proof. destruct a, b, c; vm_compute; done. Qed.

Lemma uwf_configure_flags_back flags :
  0 <= flags -> unknown_flags flags 7 = false ->
  uwf_configure_flags (has_flag flags 1) (has_flag flags 2) (has_flag flags 4) = flags.
Proof.
  intros Hf Hu. apply Z.eqb_eq.
  exact (known_flags 7 (fun flags => uwf_configure_flags (has_flag flags 1) (has_flag flags 2)
    (has_flag flags 4) =? flags) flags eq_refl ltac:(lia) Hf Hu).
Qed.

Lemma fleet_request_flags_ok a b :
  u8 (fleet_request_flags a b) /\ negb (unknown_flags (fleet_request_flags a b) 3) = true /\
  has_flag (fleet_request_flags a b) 1 = a /\ has_flag (fleet_request_flags a b) 2 = b.
Proof. destruct a, b; vm_compute; done. Qed.

Lemma fleet_request_flags_back flags :
  0 <= flags -> unknown_flags flags 3 = false ->
  fleet_request_flags (has_flag flags 1) (has_flag flags 2) = flags.
Proof.
  intros Hf Hu. apply Z.eqb_eq.
  exact (known_flags 3 (fun flags => fleet_request_flags (has_flag flags 1) (has_flag flags 2)
    =? flags) flags eq_refl ltac:(lia) Hf Hu).
Qed.

Lemma probe_flags_ok p :
  u8 (probe_flags p) /\ negb (unknown_flags (probe_flags p) 63) = true /\
  probe_of_flags (probe_flags p) = p /\
  ((Z.land (probe_flags p) 1 =? 0) && unknown_flags (probe_flags p) 1 = true <->
   up_probe_succeeded p = false /\
   p <> mkUwfProtectionProbe false false false false false false).
Proof. destruct p as [[] [] [] [] [] []]; vm_compute; intuition congruence. Qed.

Lemma probe_flags_back flags :
  0 <= flags -> unknown_flags flags 63 = false -> probe_flags (probe_of_flags flags) = flags.
Proof.
  intros Hf Hu. apply Z.eqb_eq.
  exact (known_flags 63 (fun flags => probe_flags (probe_of_flags flags) =? flags) flags
    eq_refl ltac:(lia) Hf Hu).
Qed.

(** ** Automation *)

(** Enter the branch of an encoder or decoder that accepts the message. *)
Ltac refuted E :=
  unfold bad_rates, bad_stroke in E;
  repeat match type of E with (_ || _) = true => apply orb_true_iff in E as [E|E] end;
  bool_to_prop;
  repeat match goal with H : ?s = [] |- _ => rewrite H in *; clear H end;
  autorewrite with wire in *;
  first [lia | ulia | congruence].

Ltac accepted :=
  match goal with
  | |- context [if ?b then [] else _] =>
      let E := fresh "E" in destruct b eqn:E; [exfalso; refuted E|clear E]
  | |- context [if ?b then None else _] =>
      let E := fresh "E" in destruct b eqn:E; [exfalso; refuted E|clear E]
  end.

Lemma printable_ascii_iff s :
  printable_ascii s = true <-> Forall (fun c => 32 <= byte_val c < 127) s.
Proof.
  unfold printable_ascii. rewrite forallb_forall, Forall_forall.
  setoid_rewrite list_elem_of_In. split; intros H c Hc; specialize (H c Hc); lia.
Qed.

Lemma rbind_read_detail {B} detail (k : bytes -> reader B) :
  wf_detail detail -> rbind read_detail k (write_le 2 (len detail) ++ detail) = k detail [].
Proof.
  intros [Hd _]. unfold read_detail. unfold kMaximumUwfDetailBytes.
  reader_run. done.
Qed.

Lemma read_detail_inv input detail rest :
  read_detail input = Some (detail, rest) ->
  input = write_le 2 (len detail) ++ detail /\ rest = [] /\ 0 < len detail <= 256.
Proof.
  unfold read_detail, kMaximumUwfDetailBytes. intros H. reader_inv. bool_to_prop. subst.
  match goal with |- context [len ?d] => pose proof (len_nonneg d) end.
  split_and!; try done; lia.
Qed.

Lemma has_detail detail :
  0 < len detail <= 256 -> printable_ascii detail = true -> wf_detail detail.
Proof. intros Hl Hp. split; [done|]. by apply printable_ascii_iff. Qed.

(** ** Status reports *)

(** What a peer that only speaks version 1 of the report sends. *)
Definition status_report_v1 (r : ClientStatusReport) : bytes :=
  write_le 2 1 ++
  write_le 2 (status_flags (cs_locked r) (cs_streaming r) (cs_snapshotting r)
                (cs_viewing_broadcast r)) ++
  write_le 4 (cs_session_id r) ++ write_le 4 (cs_latency_ms r) ++
  write_le 4 (cs_packet_loss_per_mille r) ++ write_le 8 (cs_packet_loss_sample_size r) ++
  write_le 1 (cs_delivery r) ++ write_le 2 (len (cs_hostname r)) ++ cs_hostname r.

Lemma status_rates r :
  wf_status r ->
  negb (bad_rates (cs_streaming r) (cs_snapshotting r) (cs_frames_per_second r)
          (cs_snapshot_interval_seconds r)) = true /\
  u8 (cs_frames_per_second r) /\ u16 (cs_snapshot_interval_seconds r).
Proof.
  intros (_ & _ & _ & _ & _ & _ & Hf & Hi). unfold bad_rates.
  unfold kMinimumSnapshotIntervalSeconds, kMaximumSnapshotIntervalSeconds.
  destruct (cs_streaming r), (cs_snapshotting r); cbn; split_and!; ulia.
Qed.

Lemma decode_status r :
  wf_status r ->
  decode_status_report (encode_status_report r) = Some r /\
  (cs_streaming r = false -> cs_snapshotting r = false ->
   decode_status_report (status_report_v1 r) = Some r).
Proof.
  intros Hr. destruct (status_rates r Hr) as (Hrates & Hfps & Hint).
  destruct Hr as (Hh & Hp & H1 & H2 & H3 & Hd & Hf & Hi).
  destruct (status_flags_ok (cs_locked r) (cs_streaming r) (cs_snapshotting r)
    (cs_viewing_broadcast r)) as (F1 & F2 & F3 & F4 & F5 & F6).
  unfold encode_status_report, status_report_v1, decode_status_report, run_reader, read_rates.
  change (Z.lor _ kViewingBroadcastFlag) with 15. unfold kMaximumHostnameBytes. split.
  - apply negb_true_iff in Hrates as E. rewrite E. accepted. clear E.
    reader_run. rewrite Z.eqb_refl, F3, F4, F5, F6. reader_run. by destruct r.
  - intros Es Ei. reader_run. change (1 =? kStatusVersion) with false.
    rewrite F3, F4, F5, F6. cbv iota. rewrite Es in Hf. rewrite Ei in Hi. rewrite Hf, Hi in Hrates.
    reader_run. destruct r; cbn in *; by subst.
Qed.

Lemma good_rates streaming snapshotting fps interval :
  bad_rates streaming snapshotting fps interval = false ->
  (if streaming then 5 <= fps <= 15 else fps = 0) /\
  (if snapshotting then 5 <= interval <= 10 else interval = 0).
Proof.
  unfold bad_rates, kMinimumSnapshotIntervalSeconds, kMaximumSnapshotIntervalSeconds.
  destruct streaming, snapshotting; cbn; lia.
Qed.

Lemma decode_status_inv w r :
  decode_status_report w = Some r ->
  wf_status r /\
  (w = encode_status_report r \/
   cs_streaming r = false /\ cs_snapshotting r = false /\ w = status_report_v1 r).
Proof.
  unfold decode_status_report, read_rates. change (Z.lor _ kViewingBroadcastFlag) with 15.
  intros H. reader_inv.
  match goal with H : (if ?v =? _ then _ else _) _ = Some (?p, _) |- _ =>
    destruct p as [fps interval]; destruct (Z.eqb_spec v kStatusVersion) as [->|] end;
    reader_inv; simplify_eq/=; bool_to_prop; unfold kMaximumHostnameBytes in *; subst.
  - match goal with H : bad_rates _ _ _ _ = false |- _ => pose proof (good_rates _ _ _ _ H) as [Hf Hi] end.
    match goal with |- context [has_flag ?f _] =>
      pose proof (status_flags_back f ltac:(ulia) ltac:(assumption)) as Eflags end.
    match goal with |- context [len ?h] => pose proof (len_nonneg h) end.
    split; [fields|]. left. unfold encode_status_report, kMaximumHostnameBytes. cbn.
    match goal with H : bad_rates _ _ _ _ = false |- _ => rewrite H end. accepted.
    by rewrite Eflags.
  - match goal with H : bad_rates _ _ _ _ = false |- _ => pose proof (good_rates _ _ _ _ H) as [Hf Hi] end.
    match goal with |- context [has_flag ?f _] =>
      pose proof (status_flags_back f ltac:(ulia) ltac:(assumption)) as Eflags end.
    match goal with |- context [len ?h] => pose proof (len_nonneg h) end.
    match goal with H : ?v <> kStatusVersion |- _ =>
      assert (v = 1) as -> by (unfold kStatusVersion in *; lia) end.
    split; [fields|]. right. unfold status_report_v1. cbn. rewrite Eflags.
    split; [|split; [|done]].
    + destruct (has_flag _ kStreamingFlag); [lia|done].
    + destruct (has_flag _ kSnapshottingFlag); [lia|done].
Qed.

(** ** Exact codecs *)

(** Undo the accepting branch of a decoder: its tests become facts. *)
Ltac decoded :=
  let H := fresh "H" in
  intros H; repeat match type of H with
  | (if ?b then None else _) = Some _ => let E := fresh "E" in destruct b eqn:E; [done|]
  end;
  reader_inv; simplify_eq/=; bool_to_prop; subst;
  repeat match goal with H : len ?r = 0 |- _ => apply len_zero in H as -> end;
  repeat match goal with
  | |- context [len ?h] => lazymatch goal with
      | H : 0 <= len h |- _ => fail
      | _ => pose proof (len_nonneg h)
      end
  end.

(** A message that is one byte. *)
Lemma single_byte b v : 0 <= v < 256 -> byte_val b = v <-> [b] = [byte_of v].
Proof.
  intros Hv. split; [intros <-; by rewrite byte_of_val|].
  intros [= ->]. rewrite byte_val_of. by apply Z.mod_small.
Qed.

Lemma start_stream_exact w fps :
  decode_start_stream_request w = Some fps <->
  5 <= fps <= 15 /\ w = encode_start_stream_request fps.
Proof.
  unfold decode_start_stream_request, encode_start_stream_request. split.
  - destruct w as [|b [|]]; try done. case_match; [|done]. intros [= <-]. bool_to_prop.
    split; [lia|]. accepted. by rewrite byte_of_val.
  - intros [Hf ->]. accepted. rewrite byte_val_of, Z.mod_small by lia.
    case_match eqn:E; [done|lia].
Qed.

Lemma schedule_exact w interval :
  decode_snapshot_schedule w = Some interval <->
  5 <= interval <= 10 /\ w = encode_snapshot_schedule interval.
Proof.
  unfold decode_snapshot_schedule, encode_snapshot_schedule.
  unfold kMinimumSnapshotIntervalSeconds, kMaximumSnapshotIntervalSeconds. split.
  - decoded. split; [lia|]. accepted. by rewrite app_nil_r.
  - intros [Hi ->]. accepted. unfold run_reader. reader_run. rewrite len_nil. reader_run. done.
Qed.

Lemma freeze_exact w frozen :
  decode_freeze_state w = Some frozen <-> w = encode_freeze_state frozen.
Proof.
  unfold decode_freeze_state, encode_freeze_state. split.
  - destruct w as [|b [|]]; try done. case_match; [|done]. intros [= <-]. bool_to_prop.
    apply single_byte; [by case_match|].
    pose proof (byte_val_range b). destruct (Z.eqb_spec (byte_val b) 0); cbn; lia.
  - intros ->. rewrite byte_val_of. by destruct frozen.
Qed.

#[export] Program Instance snapshot_codec : Codec SnapshotFrame := {|
  encode := encode_snapshot_frame; decode := decode_snapshot_frame; valid := wf_snapshot |}.
Next Obligation.
  intros f (Hw & Hh & Hc & Hc' & Hj).
  unfold encode_snapshot_frame, kMaximumSnapshotWidth, kMaximumSnapshotHeight,
    kMaximumSnapshotJpegBytes. accepted.
  unfold decode_snapshot_frame, kMaximumSnapshotWidth, kMaximumSnapshotHeight,
    kMaximumSnapshotJpegBytes, run_reader. reader_run. by destruct f.
Qed.
Next Obligation.
  intros w f. unfold decode_snapshot_frame. decoded.
  unfold kMaximumSnapshotWidth, kMaximumSnapshotHeight, kMaximumSnapshotJpegBytes in *.
  split; [fields|]. unfold encode_snapshot_frame, kMaximumSnapshotWidth,
    kMaximumSnapshotHeight, kMaximumSnapshotJpegBytes. cbn. accepted. done.
Qed.

Lemma opaque_colour rgba : 0 <= rgba -> Z.land rgba 255 = 0 <-> rgba mod 256 = 0.
Proof. intros _. change 255 with (Z.ones 8). by rewrite Z.land_ones. Qed.

#[export] Program Instance stroke_codec : Codec OverlayStroke := {|
  encode := encode_overlay_stroke; decode := decode_overlay_stroke; valid := wf_stroke |}.
Next Obligation.
  intros s (H1 & H2 & H3 & H4 & Ht & H5 & Hc).
  assert (bad_stroke (os_thickness s) (os_rgba s) = false) as Hb.
  { unfold bad_stroke. rewrite <- opaque_colour in Hc by ulia. rewrite !orb_false_iff. lia. }
  unfold encode_overlay_stroke, decode_overlay_stroke, run_reader. rewrite Hb.
  reader_run. rewrite len_nil, Hb. reader_run. by destruct s.
Qed.
Next Obligation.
  intros w s. unfold decode_overlay_stroke. decoded.
  match goal with H : bad_stroke _ _ = false |- _ => pose proof H as Hb; unfold bad_stroke in H end.
  bool_to_prop. split.
  - unfold wf_stroke. cbn. rewrite <- opaque_colour by ulia. split_and!; try done; ulia.
  - unfold encode_overlay_stroke. cbn. rewrite Hb. by rewrite app_nil_r.
Qed.

#[export] Program Instance video_key_codec : Codec VideoGroupKeyMessage := {|
  encode := encode_video_group_key; decode := decode_video_group_key; valid := wf_video_key |}.
Next Obligation.
  intros m (Hs & H1 & H2 & H3). unfold encode_video_group_key. accepted.
  unfold decode_video_group_key. autorewrite with wire. len_facts. accepted.
  unfold run_reader. reader_run. by destruct m.
Qed.
Next Obligation.
  intros w m. unfold decode_video_group_key. decoded. no_rest. split; [fields|].
  unfold encode_video_group_key. cbn. accepted. by rewrite app_nil_r.
Qed.

#[export] Program Instance uwf_report_codec : Codec UwfConfigureReport := {|
  encode := encode_uwf_configure_report; decode := decode_uwf_configure_report;
  valid := wf_uwf_report |}.
Next Obligation.
  intros r [Ho [Hl Hp]]. apply printable_ascii_iff in Hp as Hp'.
  destruct (uwf_configure_flags_ok (uc_reboot_required r) (uc_data_exclusion_ready r)
    (uc_registry_exclusion_ready r)) as (F1 & F2 & F3 & F4 & F5).
  unfold encode_uwf_configure_report, outcome_armed, outcome_busy, kMaximumUwfDetailBytes.
  rewrite Hp'. accepted. unfold decode_uwf_configure_report, outcome_armed, outcome_busy, run_reader.
  reader_run. rewrite rbind_read_detail by done. reader_run. rewrite F3, F4, F5. by destruct r.
Qed.
Next Obligation.
  intros w r. unfold decode_uwf_configure_report, outcome_armed, outcome_busy. decoded.
  match goal with H : read_detail _ = Some _ |- _ => apply read_detail_inv in H as (-> & -> & Hd) end.
  match goal with H : printable_ascii _ = true |- _ => pose proof (has_detail _ Hd H) as Hw end.
  split; [by split; [cbn; lia|]|].
  unfold encode_uwf_configure_report, outcome_armed, outcome_busy, kMaximumUwfDetailBytes. cbn.
  match goal with H : printable_ascii _ = true |- _ => rewrite H end. accepted.
  by rewrite uwf_configure_flags_back by (done || ulia).
Qed.

#[export] Program Instance fleet_request_codec : Codec UwfFleetConfigureRequest := {|
  encode := encode_uwf_fleet_configure_request; decode := decode_uwf_fleet_configure_request;
  valid := wf_fleet_request |}.
Next Obligation.
  intros r [Ho Hw].
  destruct (fleet_request_flags_ok (uf_checkpoint_acknowledged r) (uf_restart_requested r))
    as (F1 & F2 & F3 & F4).
  unfold encode_uwf_fleet_configure_request. accepted.
  unfold decode_uwf_fleet_configure_request, run_reader. reader_run. rewrite F3, F4. by destruct r.
Qed.
Next Obligation.
  intros w r. unfold decode_uwf_fleet_configure_request. decoded. split; [fields|].
  unfold encode_uwf_fleet_configure_request. cbn. accepted.
  by rewrite fleet_request_flags_back, app_nil_r by (done || ulia).
Qed.

Lemma incomplete_probe flags :
  (Z.land flags 1 =? 0) && unknown_flags flags 1 = false ->
  0 <= flags -> unknown_flags flags 63 = false ->
  up_probe_succeeded (probe_of_flags flags) = false ->
  probe_of_flags flags = mkUwfProtectionProbe false false false false false false.
Proof.
  intros Hi Hf Hu Hp. destruct (probe_flags_ok (probe_of_flags flags)) as (_ & _ & _ & Hc).
  rewrite probe_flags_back in Hc by done. rewrite Hi in Hc.
  destruct (probe_of_flags flags) as [[] [] [] [] [] []]; cbn in Hp; try done;
    destruct (proj2 Hc); done.
Qed.

#[export] Program Instance fleet_status_codec : Codec UwfFleetStatusReport := {|
  encode := encode_uwf_fleet_status_report; decode := decode_uwf_fleet_status_report;
  valid := wf_fleet_status |}.
Next Obligation.
  intros r (Ho & Hb & Hph & [Hl Hp] & Hi & Hv). apply printable_ascii_iff in Hp as Hp'.
  destruct (probe_flags_ok (us_probe r)) as (F1 & F2 & F3 & F4).
  unfold encode_uwf_fleet_status_report, phase_idle, phase_unsupported, kMaximumUwfDetailBytes.
  rewrite Hp'. accepted.
  unfold decode_uwf_fleet_status_report, phase_idle, phase_unsupported, kBootIdBytes, run_reader.
  reader_run. rewrite rbind_read_detail by done. rewrite F3.
  rewrite rbind_guard.
  - reader_run. rewrite rbind_guard; [by destruct r|].
    destruct (Z.eqb_spec (us_phase r) phase_verified_protected); [|done]. by rewrite Hv.
  - apply negb_true_iff, not_true_is_false. rewrite F4. intros [E Hne]. by apply Hne, Hi.
Qed.
Next Obligation.
  intros w r. unfold decode_uwf_fleet_status_report, phase_idle, phase_unsupported. decoded.
  match goal with H : read_detail _ = Some _ |- _ => apply read_detail_inv in H as (-> & -> & Hd) end.
  match goal with H : printable_ascii _ = true |- _ => pose proof (has_detail _ Hd H) as Hw end.
  match goal with |- context [probe_of_flags ?f] =>
    pose proof (incomplete_probe f ltac:(assumption) ltac:(ulia) ltac:(assumption)) as Hi;
    pose proof (probe_flags_back f ltac:(ulia) ltac:(assumption)) as Ef end.
  split.
  - unfold wf_fleet_status. cbn. split_and!; try done; try lia. intros ->.
    match goal with H : _ && _ = false |- _ => revert H end. cbn. by destruct (probe_proves_protection _).
  - unfold encode_uwf_fleet_status_report, phase_idle, phase_unsupported, kMaximumUwfDetailBytes. cbn.
    match goal with H : printable_ascii _ = true |- _ => rewrite H end. accepted. by rewrite Ef.
Qed.

(** The flag byte of the help messages: any non-zero byte reads as true. *)
Definition help_byte (b : byte) (flag : bool) : Prop := (byte_val b =? 0) = negb flag.

Definition with_first_byte (b : byte) (w : bytes) : bytes :=
  match w with [] => [] | _ :: w' => b :: w' end.

Lemma read_byte_inv input v rest :
  read_le 1 input = Some (v, rest) -> exists b, input = b :: rest /\ v = byte_val b.
Proof.
  intros [-> Hv]%read_le_inv. exists (byte_of v). rewrite write_le_byte, byte_val_of.
  rewrite Z.mod_small by ulia. done.
Qed.

Lemma help_request_exact w m :
  decode_help_request w = Some m <->
  wf_help_request m /\
  exists b, help_byte b (hr_active m) /\ w = with_first_byte b (encode_help_request m).
Proof.
  unfold encode_help_request, decode_help_request, kMaximumHelpMessageBytes, help_byte. split.
  - destruct (_ <? _) eqn:E; [done|]. intros H. apply run_reader_inv in H as [? H].
    apply rbind_inv in H as (v & mid & (b & -> & ->)%read_byte_inv & H).
    reader_inv. simplify_eq. bool_to_prop. subst.
    split; [by split; [|cbn; lia]|]. exists b. cbn.
    destruct (Z.eqb_spec (byte_val b) 0); (split; [done|]); accepted; done.
  - intros ([Ht Hm] & b & Hb & ->). pose proof (len_nonneg (hr_message m)). accepted.
    cbn [app with_first_byte]. autorewrite with wire. accepted.
    unfold run_reader. reader_run. rewrite Hb, negb_involutive. by destruct m.
Qed.

Lemma help_ack_exact w m :
  decode_help_ack w = Some m <->
  u64 (ha_timestamp m) /\
  exists b, help_byte b (ha_resolved m) /\ w = with_first_byte b (encode_help_ack m).
Proof.
  unfold encode_help_ack, decode_help_ack, help_byte. cbn [app with_first_byte]. split.
  - destruct (negb _) eqn:E; [done|]. intros H. apply run_reader_inv in H as [? H].
    apply rbind_inv in H as (v & mid & (b & -> & ->)%read_byte_inv & H).
    reader_inv. simplify_eq. bool_to_prop. no_rest.
    split; [done|]. exists b. cbn. rewrite app_nil_r. by destruct (_ =? 0).
  - intros (Ht & b & Hb & ->). autorewrite with wire. accepted.
    unfold run_reader. reader_run. rewrite Hb, negb_involutive. by destruct m.
Qed.

Lemma launch_url_exact w url :
  decode_launch_url w = Some url <->
  UrlValidation.launch_url url /\ w = encode_launch_url url.
Proof.
  assert (valid_launch_url url = true <-> UrlValidation.launch_url url) as Hv.
  { rewrite <- UrlValidation.valid_url_iff. unfold valid_launch_url.
    destruct (UrlValidation.is_valid_launch_url url) as [[]|]; split; congruence. }
  rewrite <- Hv. unfold encode_launch_url, decode_launch_url, UrlValidation.kMaximumUrlBytes. split.
  - decoded. match goal with H : valid_launch_url _ = true |- _ => by rewrite H end.
  - intros [H ->]. pose proof H as Hu. apply Hv in Hu as (_ & _ & _ & _ & _ & _ & _ & _ & Hl & _).
    unfold UrlValidation.kMaximumUrlBytes in Hl. pose proof (len_nonneg url). rewrite H.
    cbn [negb]. autorewrite with wire. accepted. unfold run_reader. reader_run. done.
Qed.

Lemma force_flag_back v :
  0 <= v -> unknown_flags v 1 = false -> flag_bit (has_flag v 1) 1 = v.
Proof.
  intros Hf Hu. apply Z.eqb_eq.
  exact (known_flags 1 (fun v => flag_bit (has_flag v 1) 1 =? v) v eq_refl ltac:(lia) Hf Hu).
Qed.

Lemma power_exact w m :
  decode_power_action w = Some m <->
  (pa_action m = 1 \/ pa_action m = 2) /\ w = encode_power_action m.
Proof.
  unfold decode_power_action, encode_power_action, power_reboot, power_shutdown. split.
  - destruct w as [|a [|f [|]]]; try done. destruct (_ && _) eqn:Ea; [done|].
    destruct (unknown_flags _ _) eqn:Ef; [done|]. intros [= <-]. cbn. rewrite Ea.
    rewrite force_flag_back by (done || apply byte_val_range). rewrite !byte_of_val.
    split; [|done]. lia.
  - intros [Ha ->]. assert (negb (pa_action m =? 1) && negb (pa_action m =? 2) = false) as E by lia.
    rewrite E. cbv zeta. rewrite !byte_val_of, (Z.mod_small (pa_action m)), E by lia.
    destruct m as [a []]; reflexivity.
Qed.

Lemma flag_byte flag :
  byte_val (byte_of (flag_bit flag 1)) = flag_bit flag 1 /\ 0 <= flag_bit flag 1 <= 1 /\
  negb (flag_bit flag 1 =? 0) = flag.
Proof. rewrite byte_val_of. by destruct flag. Qed.

Lemma flag_byte_back v : 0 <= v <= 1 -> flag_bit (negb (v =? 0)) 1 = v.
Proof. intros Hv. destruct (Z.eqb_spec v 0); cbn; lia. Qed.

#[export] Program Instance wol_codec : Codec WolReportMessage := {|
  encode := encode_wol_report; decode := decode_wol_report; valid := wf_wol |}.
Next Obligation.
  intros m [Hm Hs]. unfold encode_wol_report, support_missing_mac. accepted.
  unfold decode_wol_report, support_missing_mac. autorewrite with wire. len_facts. accepted.
  unfold run_reader. reader_run. rewrite byte_val_of, Z.mod_small by lia. reader_run.
  by destruct m.
Qed.
Next Obligation.
  intros w m. unfold decode_wol_report, support_missing_mac. decoded. no_rest. split; [fields|].
  unfold encode_wol_report, support_missing_mac. cbn. accepted.
  rewrite app_nil_r, !write_le_byte. done.
Qed.

Lemma mode_exact w m :
  decode_broadcast_mode w = Some m <-> 0 <= bm_mode m <= 1 /\ w = encode_broadcast_mode m.
Proof.
  unfold decode_broadcast_mode, encode_broadcast_mode, mode_follow_along. split.
  - decoded. no_rest. split; [ulia|]. accepted.
    rewrite app_nil_r, !write_le_byte. repeat f_equal.
    by rewrite flag_byte_back by ulia.
  - intros [Hm ->]. accepted. autorewrite with wire. accepted. unfold run_reader. reader_run.
    rewrite byte_val_of, Z.mod_small by lia. reader_run.
    destruct (flag_byte (bm_lock_input m)) as (-> & Hr & Hf). reader_run. rewrite Hf.
    by destruct m.
Qed.

#[export] Program Instance metadata_codec : Codec FleetMetadataMessage := {|
  encode := encode_fleet_metadata; decode := decode_fleet_metadata; valid := wf_metadata |}.
Next Obligation.
  intros m Hm. unfold wf_metadata in Hm. unfold encode_fleet_metadata, kMaximumClientVersionBytes.
  accepted. unfold decode_fleet_metadata, kMaximumClientVersionBytes, run_reader. reader_run.
  cbn [app]. reader_run. destruct (flag_byte (fm_agent_connected m)) as (-> & Hr & Hf).
  reader_run. rewrite Hf. by destruct m.
Qed.
Next Obligation.
  intros w m. unfold decode_fleet_metadata, kMaximumClientVersionBytes. decoded.
  split; [unfold wf_metadata; cbn; lia|].
  unfold encode_fleet_metadata, kMaximumClientVersionBytes. cbn. accepted.
  rewrite flag_byte_back by ulia. by rewrite write_le_byte.
Qed.

Lemma status_report_exact w r :
  decode_status_report w = Some r <->
  wf_status r /\
  (w = encode_status_report r \/
   cs_streaming r = false /\ cs_snapshotting r = false /\ w = status_report_v1 r).
Proof.
  split; [apply decode_status_inv|]. intros [Hr Hw].
  destruct (decode_status r Hr) as [H2 H1]. destruct Hw as [->|(Hs & Hn & ->)]; auto.
Qed.

(** ** Property *)

(** C32. The eighteen control messages decode exactly. For each message a payload
    is accepted as a value if and only if that value is well-formed (bounded
    rates, dimensions and text, printable details, known flags and enums) and
    the payload is its encoding, with two documented exceptions: a status
    report without streaming and snapshots is also accepted in the version 1
    layout, and the flag byte of a help message may be any non-zero byte for
    true. In particular a fleet status report never decodes into the verified
    phase without a completed probe that proves the current session is
    protected, and an incomplete probe never carries an observation. *)
Theorem control_messages_decode_iff (w : bytes) :
  (forall r, decode_status_report w = Some r <->
     wf_status r /\ (w = encode_status_report r \/
       cs_streaming r = false /\ cs_snapshotting r = false /\ w = status_report_v1 r)) /\
  (forall v, decode_start_stream_request w = Some v <->
     5 <= v <= 15 /\ w = encode_start_stream_request v) /\
  (forall v, decode_snapshot_schedule w = Some v <->
     5 <= v <= 10 /\ w = encode_snapshot_schedule v) /\
  (forall f, decode_snapshot_frame w = Some f <-> wf_snapshot f /\ w = encode_snapshot_frame f) /\
  (forall s, decode_overlay_stroke w = Some s <-> wf_stroke s /\ w = encode_overlay_stroke s) /\
  (forall b, decode_freeze_state w = Some b <-> w = encode_freeze_state b) /\
  (forall b, decode_uwf_configure_request w = Some b <-> w = encode_uwf_configure_request b) /\
  (forall r, decode_uwf_configure_report w = Some r <->
     wf_uwf_report r /\ w = encode_uwf_configure_report r) /\
  (forall r, decode_uwf_fleet_configure_request w = Some r <->
     wf_fleet_request r /\ w = encode_uwf_fleet_configure_request r) /\
  (forall r, decode_uwf_fleet_status_report w = Some r <->
     wf_fleet_status r /\ w = encode_uwf_fleet_status_report r) /\
  (forall m, decode_video_group_key w = Some m <->
     wf_video_key m /\ w = encode_video_group_key m) /\
  (forall m, decode_help_request w = Some m <-> wf_help_request m /\
     exists b, help_byte b (hr_active m) /\ w = with_first_byte b (encode_help_request m)) /\
  (forall m, decode_help_ack w = Some m <-> u64 (ha_timestamp m) /\
     exists b, help_byte b (ha_resolved m) /\ w = with_first_byte b (encode_help_ack m)) /\
  (forall u, decode_launch_url w = Some u <->
     UrlValidation.launch_url u /\ w = encode_launch_url u) /\
  (forall m, decode_power_action w = Some m <->
     (pa_action m = 1 \/ pa_action m = 2) /\ w = encode_power_action m) /\
  (forall m, decode_wol_report w = Some m <-> wf_wol m /\ w = encode_wol_report m) /\
  (forall m, decode_broadcast_mode w = Some m <->
     0 <= bm_mode m <= 1 /\ w = encode_broadcast_mode m) /\
  (forall m, decode_fleet_metadata w = Some m <-> wf_metadata m /\ w = encode_fleet_metadata m).
Proof.
  repeat match goal with |- _ /\ _ => split end; intros m.
  - apply status_report_exact.
  - apply start_stream_exact.
  - apply schedule_exact.
  - exact (@decode_iff _ snapshot_codec w m).
  - exact (@decode_iff _ stroke_codec w m).
  - apply freeze_exact.
  - exact (freeze_exact w m).
  - exact (@decode_iff _ uwf_report_codec w m).
  - exact (@decode_iff _ fleet_request_codec w m).
  - exact (@decode_iff _ fleet_status_codec w m).
  - exact (@decode_iff _ video_key_codec w m).
  - apply help_request_exact.
  - apply help_ack_exact.
  - apply launch_url_exact.
  - apply power_exact.
  - exact (@decode_iff _ wol_codec w m).
  - apply mode_exact.
  - exact (@decode_iff _ metadata_codec w m).
Qed.

End ControlMessages.
