(* ===== verification/ClientRegistry.v ===== *)
(** The server's client registry (server/include/nstu/client_registry.hpp,
    server/src/client_registry.cpp): what the teacher's machine knows of each
    client, and the reboot-to-restore proof an exam start is gated on.  The
    registry's mutex makes each operation atomic; [now] is the reading of the
    steady clock inside the operation. *)

From S2P Require Import Prelude Wire ControlMessages WakeOnLan.

Module ClientRegistry.
Import ControlMessages.

(** ** Data *)

Inductive ClientStatus := connecting | online | degraded | locked | offline.

#[export] Instance client_status_eq_dec : EqDecision ClientStatus.
Proof. solve_decision. Defined.

(** The remaining values of [UwfFleetPhase] and of [UwfConfigureOutcome]. *)
Definition phase_requested : Z := 2.
Definition phase_configuring : Z := 3.
Definition phase_awaiting_restart : Z := 4.
Definition phase_restarting : Z := 5.
Definition phase_verifying : Z := 6.
Definition phase_failed : Z := 8.
Definition outcome_already_enabled : Z := 2.
Definition outcome_unsupported_edition : Z := 3.
Definition outcome_reboot_pending : Z := 7.

Definition zero_boot_id : bytes := replicate kBootIdBytes Byte.x00.
Definition no_probe : UwfProtectionProbe :=
  mkUwfProtectionProbe false false false false false false.

Record UwfFleetState := mkUwfFleetState {
  uw_phase : Z;
  uw_operation_id : Z;
  uw_restart_requested : bool;
  uw_restart_expected : bool;
  uw_reported : bool;
  uw_configure_boot_id : bytes;
  uw_observed_boot_id : bytes;
  uw_verified_boot_id : bytes;
  uw_probe : UwfProtectionProbe;
  uw_detail : bytes;
  uw_requested_at : Z;
  uw_updated_at : Z
}.

Definition initial_uwf : UwfFleetState :=
  mkUwfFleetState phase_idle 0 false false false zero_boot_id zero_boot_id zero_boot_id no_probe
    [] 0 0.

Definition proves_current_protection (u : UwfFleetState) : bool :=
  (uw_phase u =? phase_verified_protected) && probe_proves_protection (uw_probe u) &&
  negb (bool_decide (uw_verified_boot_id u = zero_boot_id)) &&
  bool_decide (uw_verified_boot_id u = uw_observed_boot_id u).

Record ClientRecord := mkClientRecord {
  cr_id : Z;
  cr_hostname : bytes;
  cr_address : bytes;
  cr_status : ClientStatus;
  cr_delivery : Z;
  cr_latency_ms : Z;
  cr_packet_loss_per_mille : Z;
  cr_packet_loss_sample_size : Z;
  cr_streaming : bool;
  cr_snapshotting : bool;
  cr_viewing_broadcast : bool;
  cr_frozen : bool;
  cr_uwf : UwfFleetState;
  cr_frames_per_second : Z;
  cr_snapshot_interval_seconds : Z;
  cr_snapshot_width : Z;
  cr_snapshot_height : Z;
  cr_snapshot_captured_at : Z;
  cr_snapshot_generation : Z;
  cr_snapshot_jpeg : option bytes;
  cr_bad_loss_windows : Z;
  cr_good_loss_windows : Z;
  cr_last_seen : Z;
  cr_help_requested : bool;
  cr_help_message : bytes;
  cr_help_requested_at : Z;
  cr_mac_address : bytes;
  cr_wol_support : Z;
  cr_client_version : bytes;
  cr_agent_connected : bool
}.

(** [std::unordered_map<std::uint64_t, ClientRecord>]. *)
Abbreviation registry := (gmap Z ClientRecord).

(** ** Helpers *)

Definition boot_id_is_set (id : bytes) : bool := negb (bool_decide (id = zero_boot_id)).

Definition phase_for_configure_outcome (outcome : Z) : Z :=
  if (outcome =? outcome_armed) || (outcome =? outcome_reboot_pending)
  then phase_awaiting_restart
  else if outcome =? outcome_already_enabled then phase_verifying
  else if outcome =? outcome_unsupported_edition then phase_unsupported
  else phase_failed.

Definition retire_uwf_proof (u : UwfFleetState) (detail : bytes) (now : Z) : UwfFleetState :=
  {| u with uw_phase := phase_verifying; uw_verified_boot_id := zero_boot_id;
            uw_probe := no_probe; uw_detail := detail; uw_updated_at := now |}.

(** [find], then change the record in place; [false] when it is unknown. *)
Definition update_found (r : registry) (id : Z) (f : ClientRecord -> ClientRecord)
    : registry * bool :=
  match r !! id with
  | None => (r, false)
  | Some found => (<[id := f found]> r, true)
  end.

(** ** Operations *)

Definition upsert (r : registry) (record : ClientRecord) : registry :=
  let existing := r !! cr_id record in
  let record :=
    match existing with
    | None => record
    | Some e =>
        {| record with
           cr_frozen := cr_frozen e;
           cr_uwf := cr_uwf e;
           cr_help_requested := cr_help_requested e;
           cr_help_message := cr_help_message e;
           cr_help_requested_at := cr_help_requested_at e;
           cr_mac_address := if bool_decide (cr_mac_address record = []) then cr_mac_address e
                             else cr_mac_address record;
           cr_wol_support := if cr_wol_support record =? WakeOnLan.support_unknown
                             then cr_wol_support e else cr_wol_support record;
           cr_client_version := if bool_decide (cr_client_version record = [])
                                then cr_client_version e else cr_client_version record;
           cr_agent_connected := cr_agent_connected e |}
    end in
  let record :=
    match existing with
    | Some e =>
        if match cr_snapshot_jpeg record with None => true | Some jpeg => bool_decide (jpeg = []) end
        then
          {| record with
             cr_snapshot_width := cr_snapshot_width e;
             cr_snapshot_height := cr_snapshot_height e;
             cr_snapshot_captured_at := cr_snapshot_captured_at e;
             cr_snapshot_generation := cr_snapshot_generation e;
             cr_snapshot_jpeg := cr_snapshot_jpeg e |}
        else record
    | None => record
    end in
  <[cr_id record := record]> r.

Definition set_status (r : registry) (id : Z) (status : ClientStatus) : registry * bool :=
  update_found r id (fun found => {| found with cr_status := status |}).

Definition set_frozen (r : registry) (id : Z) (frozen : bool) (now : Z) : registry * bool :=
  update_found r id (fun found => {| found with cr_frozen := frozen; cr_last_seen := now |}).

Definition set_help_request (r : registry) (id : Z) (active : bool) (message : bytes)
    (timestamp now : Z) : registry * bool :=
  update_found r id (fun found =>
    {| found with cr_help_requested := active;
       cr_help_message := if active then message else [];
       cr_help_requested_at := if active then timestamp else 0;
       cr_last_seen := now |}).

Definition set_wol_report (r : registry) (id : Z) (mac : bytes) (support now : Z)
    : registry * bool :=
  update_found r id (fun found =>
    {| found with
       cr_mac_address := if negb (WakeOnLan.is_zero mac)
                         then WakeOnLan.format_mac_address mac Byte.x3a true
                         else cr_mac_address found;
       cr_wol_support := support; cr_last_seen := now |}).

Definition set_fleet_metadata (r : registry) (id : Z) (version : bytes) (agent_connected : bool)
    (now : Z) : registry * bool :=
  update_found r id (fun found =>
    {| found with
       cr_client_version := if negb (bool_decide (version = [])) then version
                            else cr_client_version found;
       cr_agent_connected := agent_connected; cr_last_seen := now |}).

Definition uwf_reported (u : UwfFleetState) (report : UwfConfigureReport) (now : Z)
    : UwfFleetState :=
  let phase := phase_for_configure_outcome (uc_outcome report) in
  let u := {| u with uw_reported := true; uw_phase := phase |} in
  let u :=
    if phase =? phase_awaiting_restart then
      {| u with uw_restart_expected := true;
         uw_configure_boot_id := if negb (boot_id_is_set (uw_configure_boot_id u))
                                 then uw_observed_boot_id u else uw_configure_boot_id u |}
    else u in
  {| u with uw_probe := no_probe; uw_verified_boot_id := zero_boot_id;
     uw_detail := uc_detail report; uw_updated_at := now |}.

Definition set_uwf_report (r : registry) (id : Z) (report : UwfConfigureReport) (now : Z)
    : registry * bool :=
  update_found r id (fun found =>
    {| found with cr_uwf := uwf_reported (cr_uwf found) report now; cr_last_seen := now |}).

Definition uwf_begun (u : UwfFleetState) (operation_id : Z) (restart_requested : bool) (now : Z)
    : UwfFleetState :=
  {| u with
     uw_operation_id := operation_id;
     uw_restart_requested := restart_requested;
     uw_restart_expected := false;
     uw_reported := false;
     uw_phase := phase_requested;
     uw_configure_boot_id := uw_observed_boot_id u;
     uw_verified_boot_id := zero_boot_id;
     uw_probe := no_probe;
     uw_detail := text "reboot-to-restore operation requested";
     uw_requested_at := now;
     uw_updated_at := now |}.

Definition begin_uwf_fleet_operation (r : registry) (id operation_id : Z)
    (restart_requested : bool) (now : Z) : registry * bool :=
  if operation_id =? 0 then (r, false)
  else
    update_found r id (fun found =>
      {| found with cr_uwf := uwf_begun (cr_uwf found) operation_id restart_requested now |}).

(** A report that belongs to a superseded operation. *)
Definition superseded (u : UwfFleetState) (report : UwfFleetStatusReport) : bool :=
  negb (us_operation_id report =? 0) && negb (uw_operation_id u =? 0) &&
  negb (us_operation_id report =? uw_operation_id u).

(** What a current report records before its phase is settled. *)
Definition record_report (u : UwfFleetState) (report : UwfFleetStatusReport) (now : Z)
    : UwfFleetState :=
  let awaiting := (us_phase report =? phase_awaiting_restart) ||
                  (us_phase report =? phase_restarting) in
  {| u with
     uw_operation_id := if negb (us_operation_id report =? 0) then us_operation_id report
                        else uw_operation_id u;
     uw_reported := true;
     uw_observed_boot_id := us_boot_id report;
     uw_probe := us_probe report;
     uw_detail := us_detail report;
     uw_updated_at := now;
     uw_restart_expected := if awaiting then true else uw_restart_expected u;
     uw_configure_boot_id :=
       if awaiting && negb (boot_id_is_set (uw_configure_boot_id u)) then us_boot_id report
       else uw_configure_boot_id u |}.

(** The phase the report is believed to prove, and the detail to show. *)
Definition settle_phase (u : UwfFleetState) (report : UwfFleetStatusReport) : Z * bytes :=
  let phase := us_phase report in
  if phase =? phase_verified_protected then
    if negb (probe_proves_protection (us_probe report)) then
      (phase_failed, text "UWF protection was claimed without evidence")
    else if uw_restart_expected u && boot_id_is_set (uw_configure_boot_id u) &&
            bool_decide (us_boot_id report = uw_configure_boot_id u) then
      (phase_verifying, text "UWF protection was claimed without the expected restart")
    else (phase, uw_detail u)
  else (phase, uw_detail u).

Definition uwf_status_applied (u : UwfFleetState) (report : UwfFleetStatusReport) (now : Z)
    : UwfFleetState :=
  let u := record_report u report now in
  let settled := settle_phase u report in
  {| u with uw_phase := settled.1; uw_detail := settled.2;
     uw_verified_boot_id := if settled.1 =? phase_verified_protected then us_boot_id report
                            else zero_boot_id |}.

Definition set_uwf_fleet_status (r : registry) (id : Z) (report : UwfFleetStatusReport) (now : Z)
    : registry * bool :=
  update_found r id (fun found =>
    let found := {| found with cr_last_seen := now |} in
    if superseded (cr_uwf found) report then found
    else {| found with cr_uwf := uwf_status_applied (cr_uwf found) report now |}).

Definition demote_uwf_verification (r : registry) (id now : Z) : registry * bool :=
  match r !! id with
  | None => (r, false)
  | Some found =>
      if negb (uw_phase (cr_uwf found) =? phase_verified_protected) then (r, false)
      else
        (<[id := {| found with cr_uwf := retire_uwf_proof (cr_uwf found)
            (text "re-checking UWF protection after reconnect") now |}]> r, true)
  end.

Definition touch (r : registry) (id now : Z) : registry * bool :=
  update_found r id (fun found =>
    {| found with cr_last_seen := now;
       cr_status := if bool_decide (cr_status found = connecting) ||
                       bool_decide (cr_status found = offline)
                    then online else cr_status found |}).

(** [allocated]: the copy of the JPEG succeeds. *)
Definition update_snapshot (r : registry) (id : Z) (frame : SnapshotFrame) (allocated : bool)
    (now : Z) : registry * bool :=
  if (sf_width frame =? 0) || (sf_height frame =? 0) ||
     (sf_width frame >? kMaximumSnapshotWidth) || (sf_height frame >? kMaximumSnapshotHeight) ||
     (sf_captured_at frame =? 0) || bool_decide (sf_jpeg frame = []) ||
     (len (sf_jpeg frame) >? kMaximumSnapshotJpegBytes)
  then (r, false)
  else if negb allocated then (r, false)
  else
    update_found r id (fun found =>
      {| found with cr_snapshot_width := sf_width frame; cr_snapshot_height := sf_height frame;
         cr_snapshot_captured_at := sf_captured_at frame;
         cr_snapshot_jpeg := Some (sf_jpeg frame);
         cr_snapshot_generation := wrap64 (cr_snapshot_generation found + 1);
         cr_last_seen := now |}).

Definition minimum_sample_size : Z := 200.
Definition degrade_threshold_per_mille : Z := 50.
Definition recover_threshold_per_mille : Z := 20.
Definition bad_windows_required : Z := 3.
Definition good_windows_required : Z := 5.

(** The loss windows after one finalized sample. *)
Definition loss_windows (bad good loss_per_mille finalized_sample_size : Z) : Z * Z :=
  if finalized_sample_size >=? minimum_sample_size then
    if loss_per_mille >=? degrade_threshold_per_mille
    then (Z.min (bad + 1) bad_windows_required, 0)
    else if loss_per_mille <=? recover_threshold_per_mille
    then (0, Z.min (good + 1) good_windows_required)
    else (0, 0)
  else (bad, good).

Definition update_health (r : registry) (id latency_ms loss_per_mille finalized_sample_size
    delivery now : Z) : registry * bool :=
  update_found r id (fun found =>
    let windows := loss_windows (cr_bad_loss_windows found) (cr_good_loss_windows found)
      loss_per_mille finalized_sample_size in
    {| found with
       cr_latency_ms := latency_ms;
       cr_packet_loss_per_mille := loss_per_mille;
       cr_packet_loss_sample_size := finalized_sample_size;
       cr_delivery := delivery;
       cr_last_seen := now;
       cr_bad_loss_windows := windows.1;
       cr_good_loss_windows := windows.2;
       cr_status :=
         if negb (bool_decide (cr_status found = locked)) &&
            negb (bool_decide (cr_status found = offline))
         then if windows.1 >=? bad_windows_required then degraded
              else if windows.2 >=? good_windows_required then online
              else cr_status found
         else cr_status found |}).

(** One client of the [expire] loop. *)
Definition expires (now timeout : Z) (client : ClientRecord) : bool :=
  negb (bool_decide (cr_status client = offline)) && (now - cr_last_seen client >? timeout).

Definition expire_client (now timeout : Z) (clock : Z) (client : ClientRecord) : ClientRecord :=
  if expires now timeout client then
    {| client with cr_status := offline;
       cr_uwf := if uw_phase (cr_uwf client) =? phase_verified_protected
                 then retire_uwf_proof (cr_uwf client)
                   (text "re-checking UWF protection after the client went offline") clock
                 else cr_uwf client |}
  else client.

(** [clock] is what [retire_uwf_proof] reads while the loop runs. *)
Definition expire (r : registry) (now timeout clock : Z) : registry * Z :=
  (expire_client now timeout clock <$> r,
   Z.of_nat (size (filter (fun kv => expires now timeout kv.2 = true) r))).

(** [snapshot]: the records sorted by host name ([std::sort]; one of the orders
    it allows where host names are equal). *)
Definition hostname_le (left right : ClientRecord) : Prop :=
  bytes_le (cr_hostname left) (cr_hostname right) = true.

#[export] Instance hostname_le_dec left right : Decision (hostname_le left right).
Proof. unfold hostname_le. apply _. Defined.

Definition snapshot (r : registry) : list ClientRecord :=
  merge_sort hostname_le (map snd (map_to_list r)).

Definition registry_size (r : registry) : Z := Z.of_nat (size r).

Definition status_to_string (status : ClientStatus) : string :=
  match status with
  | connecting => "Connecting"
  | online => "Online"
  | degraded => "Degraded"
  | locked => "Locked"
  | offline => "Offline"
  end.

(** ** Histories *)

Inductive RegistryOp :=
| Upsert (record : ClientRecord)
| SetStatus (id : Z) (status : ClientStatus)
| Touch (id now : Z)
| SetFrozen (id : Z) (frozen : bool) (now : Z)
| SetHelpRequest (id : Z) (active : bool) (message : bytes) (timestamp now : Z)
| SetWolReport (id : Z) (mac : bytes) (support now : Z)
| SetFleetMetadata (id : Z) (version : bytes) (agent_connected : bool) (now : Z)
| SetUwfReport (id : Z) (report : UwfConfigureReport) (now : Z)
| BeginUwf (id operation_id : Z) (restart_requested : bool) (now : Z)
| SetUwfFleetStatus (id : Z) (report : UwfFleetStatusReport) (now : Z)
| DemoteUwf (id now : Z)
| UpdateSnapshot (id : Z) (frame : SnapshotFrame) (allocated : bool) (now : Z)
| UpdateHealth (id latency_ms loss_per_mille sample_size delivery now : Z)
| Expire (now timeout clock : Z).

Definition perform (r : registry) (op : RegistryOp) : registry :=
  match op with
  | Upsert record => upsert r record
  | SetStatus id status => (set_status r id status).1
  | Touch id now => (touch r id now).1
  | SetFrozen id frozen now => (set_frozen r id frozen now).1
  | SetHelpRequest id active message timestamp now =>
      (set_help_request r id active message timestamp now).1
  | SetWolReport id mac support now => (set_wol_report r id mac support now).1
  | SetFleetMetadata id version agent now => (set_fleet_metadata r id version agent now).1
  | SetUwfReport id report now => (set_uwf_report r id report now).1
  | BeginUwf id operation_id restart now =>
      (begin_uwf_fleet_operation r id operation_id restart now).1
  | SetUwfFleetStatus id report now => (set_uwf_fleet_status r id report now).1
  | DemoteUwf id now => (demote_uwf_verification r id now).1
  | UpdateSnapshot id frame allocated now => (update_snapshot r id frame allocated now).1
  | UpdateHealth id latency loss sample delivery now =>
      (update_health r id latency loss sample delivery now).1
  | Expire now timeout clock => (expire r now timeout clock).1
  end.

Definition perform_all (r : registry) (ops : list RegistryOp) : registry := foldl perform r ops.

(** What an exam start reads. *)
Definition gate_open (r : registry) (id : Z) : bool :=
  match r !! id with
  | Some client => proves_current_protection (cr_uwf client)
  | None => false
  end.

Definition uwf_of (r : registry) (id : Z) : option UwfFleetState := cr_uwf <$> r !! id.

(** Neither caller of [upsert] sets the UWF state of the record it builds. *)
Definition fresh_upsert (op : RegistryOp) : Prop :=
  match op with Upsert record => cr_uwf record = initial_uwf | _ => True end.

(** Operations after which a proof of protection no longer stands. *)
Definition retires_proof (id : Z) (op : RegistryOp) : Prop :=
  match op with
  | DemoteUwf id' _ => id' = id
  | SetUwfReport id' _ _ => id' = id
  | BeginUwf id' operation_id _ _ => id' = id /\ operation_id <> 0
  | _ => False
  end.

Definition begins (id : Z) (op : RegistryOp) : Prop :=
  match op with BeginUwf id' _ _ _ => id' = id | _ => False end.

(** The current operation was issued on boot [boot] and has since been reported
    as waiting for a restart. *)
Definition restart_pending (ops : list RegistryOp) (id : Z) (boot : bytes) : Prop :=
  exists before operation_id restart t between report t' since u v,
    ops = (before ++ [BeginUwf id operation_id restart t]) ++ between ++
          SetUwfFleetStatus id report t' :: since /\
    operation_id <> 0 /\
    uwf_of (perform_all ∅ before) id = Some u /\ uw_observed_boot_id u = boot /\
    boot <> zero_boot_id /\
    Forall (fun op => ~ begins id op) (between ++ since) /\
    uwf_of (perform_all ∅ ((before ++ [BeginUwf id operation_id restart t]) ++ between)) id
      = Some v /\
    superseded v report = false /\
    (us_phase report = phase_awaiting_restart \/ us_phase report = phase_restarting).

(** ** How an operation changes a client's UWF state *)

Inductive uwf_change (id : Z) (u : UwfFleetState) : RegistryOp -> UwfFleetState -> Prop :=
| change_reported report now :
    uwf_change id u (SetUwfReport id report now) (uwf_reported u report now)
| change_begun operation_id restart now :
    operation_id <> 0 ->
    uwf_change id u (BeginUwf id operation_id restart now) (uwf_begun u operation_id restart now)
| change_applied report now :
    superseded u report = false ->
    uwf_change id u (SetUwfFleetStatus id report now) (uwf_status_applied u report now)
| change_demoted detail now clock :
    uwf_change id u (DemoteUwf id now) (retire_uwf_proof u detail clock)
| change_expired detail now timeout clock :
    uwf_change id u (Expire now timeout clock) (retire_uwf_proof u detail clock).

Lemma perform_all_snoc r ops op : perform_all r (ops ++ [op]) = perform (perform_all r ops) op.
Proof. unfold perform_all. by rewrite foldl_app. Qed.

Lemma perform_all_app r ops ops' :
  perform_all r (ops ++ ops') = perform_all (perform_all r ops) ops'.
Proof. apply foldl_app. Qed.

(** An operation on one client that keeps its UWF state. *)
Lemma update_found_uwf r id id' f :
  (forall c, cr_uwf (f c) = cr_uwf c) -> uwf_of (update_found r id f).1 id' = uwf_of r id'.
Proof.
  intros Hf. unfold update_found, uwf_of. destruct (r !! id) as [c|] eqn:E; [|done]. cbn.
  destruct (decide (id = id')) as [->|Hne]; [|by rewrite lookup_insert_ne].
  rewrite lookup_insert_eq, E. cbn. by rewrite Hf.
Qed.

Lemma update_found_change r id id' f :
  uwf_of (update_found r id f).1 id' = uwf_of r id' \/
  id = id' /\ exists c, r !! id = Some c /\ uwf_of (update_found r id f).1 id = Some (cr_uwf (f c)).
Proof.
  unfold update_found, uwf_of. destruct (r !! id) as [c|] eqn:E; [|by left]. cbn.
  destruct (decide (id = id')) as [->|Hne]; [|left; by rewrite lookup_insert_ne].
  right. split; [done|]. exists c. by rewrite lookup_insert_eq.
Qed.

Lemma uwf_of_perform r op id :
  uwf_of (perform r op) id = uwf_of r id \/
  (exists u u', uwf_of r id = Some u /\ uwf_of (perform r op) id = Some u' /\
     uwf_change id u op u') \/
  (uwf_of r id = None /\ exists record, op = Upsert record /\ cr_id record = id /\
     uwf_of (perform r op) id = Some (cr_uwf record)).
Proof.
  destruct op; cbn [perform]; try (left; apply update_found_uwf; by intros).
  - unfold uwf_of, upsert. destruct (decide (cr_id record = id)) as [<-|Hne].
    + destruct (r !! cr_id record) as [e|] eqn:E.
      * left. repeat case_match; by rewrite lookup_insert_eq.
      * right. right. split; [done|]. exists record. by rewrite lookup_insert_eq.
    + left. repeat case_match; cbn; by rewrite lookup_insert_ne.
  - destruct (update_found_change r id0 id (fun found =>
      {| found with cr_uwf := uwf_reported (cr_uwf found) report now; cr_last_seen := now |}))
      as [H|(-> & c & E & H)]; [by left|]. right. left.
    exists (cr_uwf c), (uwf_reported (cr_uwf c) report now). unfold uwf_of at 1. rewrite E.
    by split_and!; [|exact H|constructor].
  - unfold begin_uwf_fleet_operation. destruct (Z.eqb_spec operation_id 0); [by left|].
    destruct (update_found_change r id0 id (fun found =>
      {| found with cr_uwf := uwf_begun (cr_uwf found) operation_id restart_requested now |}))
      as [H|(-> & c & E & H)]; [by left|]. right. left.
    exists (cr_uwf c), (uwf_begun (cr_uwf c) operation_id restart_requested now).
    unfold uwf_of at 1. rewrite E. by split_and!; [|exact H|constructor].
  - unfold set_uwf_fleet_status. match goal with |- context [update_found r id0 ?f] =>
      destruct (update_found_change r id0 id f) as [H|(-> & c & E & H)] end; [by left|].
    rewrite H. cbn. destruct (superseded (cr_uwf c) report) eqn:Es.
    + left. unfold uwf_of. by rewrite E.
    + right. left. exists (cr_uwf c), (uwf_status_applied (cr_uwf c) report now).
      unfold uwf_of at 1. rewrite E. by split_and!; [| |constructor].
  - unfold demote_uwf_verification, uwf_of. destruct (r !! id0) as [c|] eqn:E; [|by left].
    destruct (negb _) eqn:Ev; [by left|]. cbn.
    destruct (decide (id0 = id)) as [->|Hne]; [|left; by rewrite lookup_insert_ne].
    right. left. rewrite lookup_insert_eq, E. cbn. by eexists _, _; split_and!; [| |constructor].
  - left. unfold update_snapshot. repeat (case_match; [done|]). by apply update_found_uwf.
  - unfold expire, uwf_of. cbn. rewrite lookup_fmap. destruct (r !! id) as [c|]; [|by left].
    cbn. unfold expire_client. case_match; [|by left]. cbn. case_match; [|by left].
    right. left. by eexists _, _; split_and!; [| |constructor].
Qed.

(** ** The gate *)

Lemma gate_open_uwf r id :
  gate_open r id = true <-> exists u, uwf_of r id = Some u /\ proves_current_protection u = true.
Proof.
  unfold gate_open, uwf_of. destruct (r !! id) as [c|]; cbn; [|naive_solver].
  split; [eauto|]. by intros (u & [= <-] & H).
Qed.

(** Only an applied report that claims and evidences protection opens it. *)
Lemma applied_opens u report now :
  proves_current_protection (uwf_status_applied u report now) = true ->
  us_phase report = phase_verified_protected /\ probe_proves_protection (us_probe report) = true /\
  us_boot_id report <> zero_boot_id /\
  ~ (uw_restart_expected u = true /\ uw_configure_boot_id u <> zero_boot_id /\
     us_boot_id report = uw_configure_boot_id u).
Proof.
  unfold uwf_status_applied, settle_phase, proves_current_protection.
  destruct (Z.eqb_spec (us_phase report) phase_verified_protected) as [E|E];
    [|cbn [fst uw_phase]; by rewrite (proj2 (Z.eqb_neq _ _) E)].
  unfold record_report. rewrite E.
  change (phase_verified_protected =? phase_awaiting_restart) with false.
  change (phase_verified_protected =? phase_restarting) with false.
  cbn [orb andb uw_restart_expected uw_configure_boot_id].
  destruct (probe_proves_protection (us_probe report)) eqn:Ep; [|done]. cbn [negb].
  case_match eqn:Er; [done|]. cbn. rewrite Ep. intros H. bool_to_prop.
  split_and!; try done. intros (He & Hc & Hb). revert Er. unfold boot_id_is_set.
  by rewrite He, (bool_decide_eq_false_2 _ Hc), (bool_decide_eq_true_2 _ Hb).
Qed.

(** ** The pinned boot *)

(** The operation was issued on [boot] and waits for a restart. *)
Definition pinned (boot : bytes) (u : UwfFleetState) : Prop := uw_configure_boot_id u = boot.

Lemma boot_is_set boot : boot <> zero_boot_id -> boot_id_is_set boot = true.
Proof. intros H. unfold boot_id_is_set. by rewrite (bool_decide_eq_false_2 _ H). Qed.

Lemma change_pinned id boot u op u' :
  boot <> zero_boot_id -> uwf_change id u op u' -> ~ begins id op -> pinned boot u ->
  pinned boot u' /\ (uw_restart_expected u = true -> uw_restart_expected u' = true).
Proof.
  unfold pinned. intros Hb Hc Hn Hp. pose proof (boot_is_set boot Hb) as Hs.
  destruct Hc; [| |idtac|done|done].
  - unfold uwf_reported. destruct (_ =? phase_awaiting_restart); cbn; [|done].
    by rewrite Hp, Hs.
  - by destruct Hn.
  - cbn. rewrite Hp, Hs, andb_false_r. split; [done|]. intros ->. by case_match.
Qed.

Lemma run_pinned id boot r ops u :
  boot <> zero_boot_id -> Forall (fun op => ~ begins id op) ops ->
  uwf_of r id = Some u -> pinned boot u ->
  exists u', uwf_of (perform_all r ops) id = Some u' /\ pinned boot u' /\
    (uw_restart_expected u = true -> uw_restart_expected u' = true).
Proof.
  intros Hb Hops. revert r u. induction Hops as [|op ops Hop _ IH]; intros r u Hu Hp; [eauto|].
  cbn [perform_all foldl].
  destruct (uwf_of_perform r op id) as [E|[(v & v' & Ev & E & Hc)|(E & _)]].
  - apply (IH (perform r op) u); congruence.
  - assert (v = u) as -> by congruence.
    destruct (change_pinned id boot u op v' Hb Hc Hop Hp) as [Hp' He].
    destruct (IH (perform r op) v' E Hp') as (u' & Hu' & Hpu & He'). eauto 10.
  - congruence.
Qed.

Lemma awaiting_expected u report now :
  us_phase report = phase_awaiting_restart \/ us_phase report = phase_restarting ->
  uw_restart_expected (uwf_status_applied u report now) = true.
Proof.
  intros H. cbn. by destruct H as [-> | ->].
Qed.

Lemma restart_pending_pinned ops id boot :
  restart_pending ops id boot ->
  boot <> zero_boot_id /\ exists u, uwf_of (perform_all ∅ ops) id = Some u /\ pinned boot u /\
    uw_restart_expected u = true.
Proof.
  intros (before & n & restart & t & between & report & t' & since & u & v & -> & Hn & Hu & Hboot &
    Hb & Hops & Hv & Hs & Hph).
  split; [done|]. apply Forall_app in Hops as [Hbetween Hsince].
  assert (uwf_of (perform_all ∅ (before ++ [BeginUwf id n restart t])) id
    = Some (uwf_begun u n restart t)) as H1.
  { rewrite perform_all_snoc. cbn. unfold begin_uwf_fleet_operation.
    rewrite (proj2 (Z.eqb_neq _ _) Hn). unfold uwf_of in *.
    destruct (perform_all ∅ before !! id) as [c|] eqn:E; [|done]. injection Hu as <-.
    unfold update_found. rewrite E. cbn. by rewrite lookup_insert_eq. }
  destruct (run_pinned id boot _ between _ Hb Hbetween H1) as (v' & Hv' & Hp' & _);
    [done|]. rewrite <- perform_all_app in Hv'. assert (v' = v) as -> by congruence.
  set (r := perform_all ∅ ((before ++ [BeginUwf id n restart t]) ++ between)) in *.
  assert (uwf_of (perform r (SetUwfFleetStatus id report t')) id
    = Some (uwf_status_applied v report t')) as H2.
  { cbn. unfold set_uwf_fleet_status, uwf_of in *.
    destruct (r !! id) as [c|] eqn:E; [|done]. injection Hv as <-.
    unfold update_found. rewrite E. cbn. rewrite lookup_insert_eq. cbn. by rewrite Hs. }
  destruct (change_pinned id boot v _ _ Hb (change_applied id v report t' Hs)) as [Hp _];
    [by intros []|done|].
  destruct (run_pinned id boot _ since _ Hb Hsince H2 Hp) as (w & Hw & Hpw & He).
  exists w. split; [|split; [done|]].
  - rewrite app_assoc, perform_all_app. exact Hw.
  - apply He, awaiting_expected, Hph.
Qed.

(** An operation that retires the proof leaves the gate shut. *)
Lemma retires_shuts id u op u' :
  uwf_change id u op u' -> retires_proof id op -> proves_current_protection u' = false.
Proof.
  intros Hc Hr. destruct Hc; cbn in Hr; try done.
  unfold proves_current_protection, uwf_reported. cbn.
  apply andb_false_iff. left. apply andb_false_iff. left. apply andb_false_iff. by right.
Qed.

Lemma retires_changes r id op u :
  uwf_of r id = Some u -> proves_current_protection u = true -> retires_proof id op ->
  exists u', uwf_of (perform r op) id = Some u' /\ uwf_change id u op u'.
Proof.
  intros Hu Hp Hr. unfold uwf_of in Hu. destruct (r !! id) as [c|] eqn:E; [|done].
  injection Hu as <-. destruct op; cbn in Hr; try done.
  - subst. exists (uwf_reported (cr_uwf c) report now). split; [|constructor].
    unfold uwf_of. cbn. unfold set_uwf_report, update_found. rewrite E. cbn.
    by rewrite lookup_insert_eq.
  - destruct Hr as [-> Hn]. exists (uwf_begun (cr_uwf c) operation_id restart_requested now).
    split; [|by constructor]. unfold uwf_of. cbn. unfold begin_uwf_fleet_operation.
    rewrite (proj2 (Z.eqb_neq _ _) Hn). unfold update_found. rewrite E. cbn.
    by rewrite lookup_insert_eq.
  - subst. eexists. split; [|by constructor]. unfold uwf_of. cbn. unfold demote_uwf_verification.
    rewrite E. unfold proves_current_protection in Hp. bool_to_prop.
    match goal with H : uw_phase _ = _ |- _ => rewrite H, Z.eqb_refl end.
    cbn [negb fst]. by rewrite lookup_insert_eq.
Qed.

(** The report that opened the gate, and what has happened since. *)
Record evidence (ops : list RegistryOp) (id : Z) (before : list RegistryOp)
    (report : UwfFleetStatusReport) (now : Z) (after : list RegistryOp) : Prop := {
  evidence_split : ops = before ++ SetUwfFleetStatus id report now :: after;
  evidence_phase : us_phase report = phase_verified_protected;
  evidence_probe : probe_proves_protection (us_probe report) = true;
  evidence_boot : us_boot_id report <> zero_boot_id;
  evidence_current : exists u, uwf_of (perform_all ∅ before) id = Some u /\
    superseded u report = false;
  evidence_restart : forall boot, restart_pending before id boot -> us_boot_id report <> boot;
  evidence_kept : Forall (fun op => ~ retires_proof id op) after;
  evidence_since : forall seen, seen `prefix_of` after ->
    uwf_of (perform_all ∅ (before ++ SetUwfFleetStatus id report now :: seen)) id =
    uwf_of (perform_all ∅ ops) id
}.

Lemma evidence_exists ops id :
  Forall fresh_upsert ops -> gate_open (perform_all ∅ ops) id = true ->
  exists before report now after, evidence ops id before report now after.
Proof.
  induction ops as [|op ops IH] using rev_ind; intros Hf Ho; [done|].
  apply Forall_app in Hf as [Hf Hop]. apply gate_open_uwf in Ho as (u & Hu & Hp).
  rewrite perform_all_snoc in Hu.
  destruct (uwf_of_perform (perform_all ∅ ops) op id) as [E|[(v & v' & Ev & E & Hc)|(E & record & -> & <- & E')]].
  - rewrite Hu in E. destruct (IH Hf) as (before & report & now & after & [H1 H2 H3 H4 H5 H6 H7 H8]);
      [apply gate_open_uwf; eauto|].
    exists before, report, now, (after ++ [op]). split; try done.
    + by rewrite H1, <- app_assoc.
    + apply Forall_app. split; [done|]. apply Forall_singleton. intros Hr.
      destruct (retires_changes _ _ _ u (eq_sym E) Hp Hr) as (u' & Hu' & Hc).
      pose proof (retires_shuts _ _ _ _ Hc Hr). congruence.
    + intros seen Hseen. rewrite perform_all_snoc, Hu, E.
      destruct Hseen as [rest Hrest]. destruct rest as [|x rest _] using rev_ind.
      2: { rewrite app_assoc in Hrest. apply app_inj_tail in Hrest as [-> _].
           rewrite H8; [done|]. by exists rest. }
      rewrite app_nil_r in Hrest. subst seen.
      rewrite app_comm_cons, app_assoc, <- H1, perform_all_snoc. congruence.
  - rewrite Hu in E. injection E as <-.
    destruct Hc as [| |report now Hs| |]; try (by apply andb_true_iff in Hp as [[[??]%andb_true_iff ?]%andb_true_iff ?]).
    destruct (applied_opens v report now Hp) as (H1 & H2 & H3 & H4).
    exists ops, report, now, []. split; try done.
    + eauto.
    + intros boot (Hb & w & Hw & Hpw & He)%restart_pending_pinned Heq.
      assert (w = v) as -> by congruence. apply H4. rewrite Hpw. by subst.
    + intros seen ->%prefix_nil_inv. done.
  - rewrite Hu in E'. injection E' as ->. rewrite Forall_singleton in Hop. cbn in Hop.
    by rewrite Hop in Hp.
Qed.

(** ** Property *)

(** C4. The exam gate opens only on live evidence. In every history of the
    registry, an exam may be started on a client only if some fleet status
    report for it, not superseded by a newer operation, claimed the verified
    phase with a completed probe showing the filter and the system volume
    protected on a known boot; nothing since has changed that client's
    reboot-to-restore state, in particular no reconnection, new operation or
    configuration report; and if the current operation, issued on a known boot,
    has been reported as waiting for a restart, the evidence comes from another
    boot. *)
Theorem exam_gate_needs_live_evidence (ops : list RegistryOp) (id : Z) :
  Forall fresh_upsert ops -> gate_open (perform_all ∅ ops) id = true ->
  exists before report now after,
    ops = before ++ SetUwfFleetStatus id report now :: after /\
    us_phase report = phase_verified_protected /\
    probe_proves_protection (us_probe report) = true /\
    us_boot_id report <> zero_boot_id /\
    (exists u, uwf_of (perform_all ∅ before) id = Some u /\ superseded u report = false) /\
    (forall boot, restart_pending before id boot -> us_boot_id report <> boot) /\
    Forall (fun op => ~ retires_proof id op) after /\
    (forall seen, seen `prefix_of` after ->
       uwf_of (perform_all ∅ (before ++ SetUwfFleetStatus id report now :: seen)) id =
       uwf_of (perform_all ∅ ops) id).
Proof.
  intros Hf Ho.
  destruct (evidence_exists ops id Hf Ho) as (before & report & now & after & []).
  exists before, report, now, after. split_and!; assumption.
Qed.

(** A machine that is configured, restarts and verifies. *)
Definition sample_boot (n : Z) : bytes := replicate 15 Byte.x00 ++ [byte_of n].

Definition sample_record : ClientRecord :=
  mkClientRecord 7 (text "pc-07") (text "10.0.0.7") online 0 0 0 0 false false false false
    initial_uwf 0 0 0 0 0 0 None 0 0 0 false [] 0 [] 0 [] false.

Definition sample_report (phase boot : Z) (probe : UwfProtectionProbe) : UwfFleetStatusReport :=
  mkUwfFleetStatusReport 0 (sample_boot boot) phase probe (text "status").

Definition sample_history : list RegistryOp :=
  [Upsert sample_record;
   SetUwfFleetStatus 7 (sample_report phase_idle 1 no_probe) 10;
   BeginUwf 7 42 true 20;
   SetUwfFleetStatus 7 (sample_report phase_awaiting_restart 1 no_probe) 30;
   DemoteUwf 7 40;
   SetUwfFleetStatus 7 (sample_report phase_verified_protected 2
     (mkUwfProtectionProbe true true true true true true)) 50;
   Touch 7 60].

Lemma exam_gate_needs_live_evidence_witness :
  gate_open (perform_all ∅ sample_history) 7 = true /\
  exists before report now after,
    sample_history = before ++ SetUwfFleetStatus 7 report now :: after /\
    us_phase report = phase_verified_protected /\
    (forall boot, restart_pending before 7 boot -> us_boot_id report <> boot).
Proof.
  assert (Forall fresh_upsert sample_history) as Hf by (repeat constructor).
  assert (gate_open (perform_all ∅ sample_history) 7 = true) as Ho by (by vm_compute).
  split; [exact Ho|].
  destruct (exam_gate_needs_live_evidence sample_history 7 Hf Ho)
    as (before & report & now & after & E & Hp & _ & _ & _ & Hr & _).
  exists before, report, now, after. exact (conj E (conj Hp Hr)).
Defined.

End ClientRegistry.
