(* ===== verification/AnswerJournal.v ===== *)
(** The server's answer journal (common/src/answer_journal.cpp, AnswerJournal):
    an append-only file of hashed records, the sessions indexed from it, and its
    recovery.  SHA-256 and the outcomes of the file-system calls are parameters;
    the contents of the file are explicit. *)

From S2P Require Import Prelude Wire Codec Protocol Auth ExamSync.
Import ReaderNotations Protocol.
#[local] Open Scope nstu_scope.

Module AnswerJournal.
Import ExamSync.

(** ** Constants *)

Definition kJournalMagic : Z := 0x314a5845.
Definition kJournalVersion : Z := 1.
Definition kJournalHeaderBytes : Z := 12.
Definition kJournalRecordOverhead : Z := kJournalHeaderBytes + 32.
Definition kMaximumJournalBytes : Z := 256 * 1024 * 1024.
Definition kMaximumJournalSessions : Z := 4096.

Definition zero_digest : bytes := replicate 32 Byte.x00.

(** ** Keys and order *)

Definition session_key (package_id package_digest client_id session_id : bytes) : bytes :=
  package_id ++ [Byte.x00] ++ package_digest ++ client_id ++ session_id.

Definition event_key (event : AnswerEvent) : bytes :=
  session_key (ev_package_id event) (ev_package_digest event) (ev_client_id event)
    (ev_session_id event).

Definition request_key (request : StateRequest) : bytes :=
  session_key (sr_package_id request) (sr_package_digest request) (sr_client_id request)
    (sr_session_id request).

Definition same_digest (left right : bytes) : bool := bool_decide (left = right).

(** Iterating a [std::map<std::string, T>]. *)
Definition key_le {T} (x y : bytes * T) : Prop := bytes_le x.1 y.1 = true.

#[export] Instance key_le_dec {T} (x y : bytes * T) : Decision (key_le x y).
Proof. unfold key_le. apply _. Defined.

Definition in_key_order {T} (m : gmap bytes T) : list (bytes * T) :=
  merge_sort key_le (map_to_list m).

(** ** State *)

Record SessionData := mkSession {
  sd_package_id : bytes;
  sd_package_digest : bytes;
  sd_client_id : bytes;
  sd_session_id : bytes;
  sd_candidate_id : bytes;
  sd_highest_sequence : Z;
  sd_last_hash : bytes;
  sd_finalized : bool;
  sd_event_hashes : gmap Z bytes;
  sd_answers : gmap bytes AnswerState
}.

Record Journal := mkJournal {
  jn_open : bool;
  jn_recovered_tail : bool;
  jn_event_count : Z;
  jn_sessions : gmap bytes SessionData
}.

Definition new_session (event : AnswerEvent) : SessionData :=
  mkSession (ev_package_id event) (ev_package_digest event) (ev_client_id event)
    (ev_session_id event) (ev_candidate_id event) 0 zero_digest false ∅ ∅.

Definition answer_of (event : AnswerEvent) (event_hash : bytes) : AnswerState :=
  mkAnswerState (ev_question_id event) (ev_question_revision event) (ev_sequence event)
    (ev_kind event) (ev_answer event) event_hash.

Definition apply_recovered (session : SessionData) (event : AnswerEvent) (event_hash : bytes)
    : option SessionData :=
  if (sd_highest_sequence session =? u64_max) ||
     negb (ev_sequence event =? wrap64 (sd_highest_sequence session + 1)) ||
     negb (same_digest (ev_previous_event_hash event) (sd_last_hash session)) ||
     (negb (bool_decide (sd_candidate_id session = [])) &&
      negb (bool_decide (sd_candidate_id session = ev_candidate_id event))) ||
     sd_finalized session
  then None
  else
    let candidate_id :=
      if bool_decide (sd_candidate_id session = []) then ev_candidate_id event
      else sd_candidate_id session in
    let event_hashes :=
      match sd_event_hashes session !! ev_sequence event with
      | Some _ => sd_event_hashes session
      | None => <[ev_sequence event := event_hash]> (sd_event_hashes session)
      end in
    let answers :=
      if ev_kind event =? kind_upsert
      then <[ev_question_id event := answer_of event event_hash]> (sd_answers session)
      else if ev_kind event =? kind_clear then delete (ev_question_id event) (sd_answers session)
      else sd_answers session in
    let finalized :=
      if (ev_kind event =? kind_upsert) || (ev_kind event =? kind_clear)
      then sd_finalized session else true in
    Some (mkSession (sd_package_id session) (sd_package_digest session) (sd_client_id session)
            (sd_session_id session) candidate_id (ev_sequence event) event_hash finalized
            event_hashes answers).

(** The answer-state quota: a new question when the session is full. *)
Definition over_answer_quota (session : SessionData) (event : AnswerEvent) : bool :=
  (ev_kind event =? kind_upsert) &&
  bool_decide (sd_answers session !! ev_question_id event = None) &&
  (Z.of_nat (size (sd_answers session)) >=? kMaximumStateEntries).

(** ** Appending to the file *)

(** The outcomes of the system calls of one [append_file]. *)
Record AppendCalls := mkAppendCalls {
  ac_security : bool;
  ac_open : bool;
  ac_lock : bool;
  ac_size : bool;
  ac_seek : bool;
  ac_write : Z -> option Z;   (* at an offset: bytes written, or failure *)
  ac_flush : bool;
  ac_rollback : bool
}.

Definition dword_max : Z := u32_max.

(** The write loop: [offset] bytes of [record] are in the file after [file]. *)
Fixpoint write_loop (write : Z -> option Z) (fuel : nat) (record : bytes) (offset : Z)
    : bool * Z :=
  if negb (offset <? len record) then (true, offset)
  else
    match fuel with
    | O => (false, offset)
    | S fuel' =>
        let chunk := Z.min (len record - offset) dword_max in
        match write offset with
        | None => (false, offset)
        | Some written =>
            if written =? 0 then (false, offset)
            else write_loop write fuel' record (offset + Z.min written chunk)
        end
    end.

Definition append_file (calls : AppendCalls) (file record : bytes) : bool * bytes :=
  if negb (ac_security calls) || negb (ac_open calls) then (false, file)
  else
    let lock_held := ac_lock calls in
    let original_size_known := lock_held && ac_size calls in
    let succeeded := original_size_known && ac_seek calls in
    let '(succeeded, written) :=
      if succeeded then write_loop (ac_write calls) (length record) record 0 else (false, 0) in
    let succeeded := succeeded && ac_flush calls in
    let contents := file ++ take (Z.to_nat written) record in
    if succeeded then (true, contents)
    else if lock_held && original_size_known && ac_rollback calls then (false, file)
    else (false, contents).

Section Journal.
Variable sha256 : bytes -> option bytes.

Definition answer_canonical (question_id : bytes) (answer : AnswerState) : bytes :=
  write_le 2 (len question_id) ++ question_id ++ write_le 4 (as_question_revision answer) ++
  write_le 8 (as_sequence answer) ++ write_le 1 (as_kind answer) ++
  write_le 4 (len (as_answer answer)) ++ as_answer answer ++ as_event_hash answer.

Definition state_hash (session : SessionData) : bytes :=
  let canonical :=
    write_le 8 (sd_highest_sequence session) ++
    write_le 1 (if sd_finalized session then 1 else 0) ++
    concat (map (fun kv => answer_canonical kv.1 kv.2) (in_key_order (sd_answers session))) in
  default zero_digest (sha256 canonical).

Definition make_ack (session : SessionData) (status sequence : Z) (event_hash : bytes) (now : Z)
    : AnswerAck :=
  mkAnswerAck status (sd_session_id session) sequence (sd_highest_sequence session) now
    event_hash (state_hash session).

Definition encode_journal_record (event : AnswerEvent) (hash : bytes) : bytes :=
  let payload := encode_answer_event event in
  if bool_decide (payload = []) then []
  else
    write_le 4 kJournalMagic ++ write_le 2 kJournalVersion ++ write_le 2 0 ++
    write_le 4 (len payload) ++ payload ++ hash.

(** ** Appending an event *)

Inductive AppendStatus : Set :=
  | st_accepted | st_duplicate | st_conflict | st_gap | st_rejected | st_unavailable.

Definition no_ack : AnswerAck :=
  mkAnswerAck ack_rejected (replicate 16 Byte.x00) 0 0 0 zero_digest zero_digest.

#[export] Instance append_status_eq_dec : EqDecision AppendStatus.
Proof. solve_decision. Defined.

Record AppendOutcome := mkOutcome { ao_status : AppendStatus; ao_ack : AnswerAck }.

Definition set_sessions (j : Journal) (sessions : gmap bytes SessionData) : Journal :=
  mkJournal (jn_open j) (jn_recovered_tail j) (jn_event_count j) sessions.

(** What [append] decides from the session before it touches the file: [None]
    when the record is to be written, otherwise the outcome and whether a session
    just inserted is discarded. *)
Definition refuse (session : SessionData) (event : AnswerEvent) (event_hash : bytes) (now : Z)
    : option (AppendOutcome * bool) :=
  let outcome status ack hash :=
    mkOutcome status (make_ack session ack (ev_sequence event) hash now) in
  if negb (bool_decide (sd_candidate_id session = ev_candidate_id event))
  then Some (outcome st_conflict ack_conflict event_hash, true)
  else
    match sd_event_hashes session !! ev_sequence event with
    | Some existing =>
        if negb (same_digest existing event_hash)
        then Some (outcome st_conflict ack_conflict existing, false)
        else Some (outcome st_duplicate ack_duplicate existing, false)
    | None =>
        if over_answer_quota session event
        then Some (outcome st_rejected ack_rejected event_hash, true)
        else if sd_finalized session
        then Some (outcome st_rejected ack_rejected event_hash, true)
        else if (sd_highest_sequence session =? u64_max) ||
                negb (ev_sequence event =? wrap64 (sd_highest_sequence session + 1))
        then Some (outcome st_gap ack_gap event_hash, true)
        else if negb (same_digest (ev_previous_event_hash event) (sd_last_hash session))
        then Some (outcome st_conflict ack_conflict event_hash, true)
        else None
    end.

(** The record is written and the event indexed. [file_size] is [None] when the
    size query fails. *)
Definition store_event (j : Journal) (file : bytes) (key : bytes) (inserted : bool)
    (session : SessionData) (event : AnswerEvent) (event_hash : bytes) (size_known : bool)
    (calls : AppendCalls) (now : Z) : AppendOutcome * Journal * bytes :=
  let kept := <[key := session]> (jn_sessions j) in
  let discarded := if inserted then delete key kept else kept in
  let record := encode_journal_record event event_hash in
  let unavailable file' :=
    (mkOutcome st_unavailable
       (make_ack session ack_unavailable (ev_sequence event) event_hash now),
     mkJournal false (jn_recovered_tail j) (jn_event_count j) discarded, file') in
  if bool_decide (record = []) || negb size_known || (len record >? kMaximumJournalBytes) ||
     (len file >? kMaximumJournalBytes - len record)
  then unavailable file
  else
    let '(written, file') := append_file calls file record in
    if negb written then unavailable file'
    else
      match apply_recovered session event event_hash with
      | None => (mkOutcome st_unavailable no_ack, set_sessions j discarded, file')
      | Some session' =>
          (mkOutcome st_accepted
             (make_ack session' ack_accepted (ev_sequence event) event_hash now),
           mkJournal (jn_open j) (jn_recovered_tail j) (jn_event_count j + 1)
             (<[key := session']> (jn_sessions j)), file')
      end.

Definition append (j : Journal) (file : bytes) (event : AnswerEvent) (size_known : bool)
    (calls : AppendCalls) (now : Z) : AppendOutcome * Journal * bytes :=
  if negb (jn_open j) then (mkOutcome st_unavailable no_ack, j, file)
  else if negb (validate_answer_event event) then (mkOutcome st_rejected no_ack, j, file)
  else
    match hash_answer_event sha256 event with
    | None => (mkOutcome st_unavailable no_ack, j, file)
    | Some event_hash =>
        let key := event_key event in
        let inserted := bool_decide (jn_sessions j !! key = None) in
        if inserted && (Z.of_nat (size (jn_sessions j)) >=? kMaximumJournalSessions)
        then (mkOutcome st_unavailable no_ack, j, file)
        else
          let session := default (new_session event) (jn_sessions j !! key) in
          let kept := <[key := session]> (jn_sessions j) in
          match refuse session event event_hash now with
          | Some (outcome, discard) =>
              let sessions := if discard && inserted then delete key kept else kept in
              (outcome, set_sessions j sessions, file)
          | None =>
              store_event j file key inserted session event event_hash size_known calls now
          end
    end.

(** ** Opening: recovery from the file *)

Record Recovery := mkRecovery {
  rc_sessions : gmap bytes SessionData;
  rc_event_count : Z;
  rc_valid_offset : Z;
  rc_tail : bool
}.

Definition journal_header : reader (Z * Z * Z * Z) :=
  magic <- read_le 4 ;;
  version <- read_le 2 ;;
  reserved <- read_le 2 ;;
  payload_bytes <- read_le 4 ;;
  rret (magic, version, reserved, payload_bytes).

(** One decoded record applied to the sessions; on an error, with the sessions
    as they are left. *)
Definition recover_event (s : Recovery) (event : AnswerEvent) (event_hash : bytes)
    (record_bytes : Z) : option string * Recovery :=
  let key := event_key event in
  if bool_decide (rc_sessions s !! key = None) &&
     (Z.of_nat (size (rc_sessions s)) >=? kMaximumJournalSessions)
  then (Some "journal contains too many sessions", s)
  else
    let session := default (new_session event) (rc_sessions s !! key) in
    let with_session session' := mkRecovery (<[key := session']> (rc_sessions s)) in
    let failed error :=
      (Some error,
       with_session session (rc_event_count s) (rc_valid_offset s) (rc_tail s)) in
    if negb (bool_decide (sd_candidate_id session = ev_candidate_id event))
    then failed "journal candidate identity changed"
    else if over_answer_quota session event then failed "journal answer-state quota exceeded"
    else
      match apply_recovered session event event_hash with
      | None => failed "journal event sequence or hash chain is invalid"
      | Some session' =>
          (None, with_session session' (rc_event_count s + 1) (rc_valid_offset s + record_bytes)
                   (rc_tail s))
      end.

Definition recover_tail (s : Recovery) : Recovery :=
  mkRecovery (rc_sessions s) (rc_event_count s) (rc_valid_offset s) true.

(** What the loop finds at the front of [rest]: nothing complete, something
    corrupt, or a record (its event, its hash and its length). *)
Inductive Front : Type :=
  | front_incomplete
  | front_corrupt (error : string)
  | front_record (event : AnswerEvent) (event_hash : bytes) (record_bytes : Z).

Definition read_record (rest : bytes) : Front :=
  if len rest <? kJournalHeaderBytes then front_incomplete
  else
    match run_reader journal_header rest with
    | None => front_corrupt "journal contains a corrupt record header"
    | Some (magic, version, reserved, payload_bytes) =>
        if negb (magic =? kJournalMagic) || negb (version =? kJournalVersion) ||
           negb (reserved =? 0) || (payload_bytes =? 0) || (payload_bytes >? 64 * 1024)
        then front_corrupt "journal contains a corrupt record header"
        else
          let record_bytes := kJournalRecordOverhead + payload_bytes in
          if len rest <? record_bytes then front_incomplete
          else
            let payload := take (Z.to_nat payload_bytes)
                             (drop (Z.to_nat kJournalHeaderBytes) rest) in
            let stored_hash := take 32
              (drop (Z.to_nat (kJournalHeaderBytes + payload_bytes)) rest) in
            match decode_answer_event payload with
            | Err _ => front_corrupt "journal contains a corrupt event record"
            | Ok event =>
                match hash_answer_event sha256 event with
                | None => front_corrupt "journal contains a corrupt event record"
                | Some calculated_hash =>
                    if negb (same_digest calculated_hash stored_hash)
                    then front_corrupt "journal contains a corrupt event record"
                    else front_record event calculated_hash record_bytes
                end
            end
    end.

(** [while (offset < bytes.size())]; [rest] is the file from [offset] on. *)
Fixpoint recover (fuel : nat) (s : Recovery) (rest : bytes) : option string * Recovery :=
  if bool_decide (rest = []) then (None, s)
  else
    match fuel with
    | O => (Some "out of fuel"%string, s)
    | S fuel' =>
        match read_record rest with
        | front_incomplete => (None, recover_tail s)
        | front_corrupt error => (Some error, s)
        | front_record event event_hash record_bytes =>
            match recover_event s event event_hash record_bytes with
            | (Some error, s') => (Some error, s')
            | (None, s') => recover fuel' s' (drop (Z.to_nat record_bytes) rest)
            end
        end
    end.

(** The calls of [open] outside the recovery loop. *)
Record OpenCalls := mkOpenCalls {
  oc_valid_path : bool;
  oc_create_directories : bool;
  oc_lease : bool;
  oc_status : bool;
  oc_create_file : bool;
  oc_read : bool;
  oc_truncate : bool
}.

Definition closed_journal : Journal := mkJournal false false 0 ∅.

(** [open]: [file] is [None] when the path does not exist.  The result is the
    journal and the contents of the file afterwards. *)
Definition open_journal (calls : OpenCalls) (j : Journal) (file : option bytes)
    : Journal * option bytes :=
  if negb (oc_valid_path calls) then (j, file)
  else if negb (oc_create_directories calls) || negb (oc_lease calls) || negb (oc_status calls)
  then (closed_journal, file)
  else if bool_decide (file = None) && negb (oc_create_file calls) then (closed_journal, file)
  else
    let bytes := default [] file in
    if negb (oc_read calls) || (len bytes >? kMaximumJournalBytes)
    then (closed_journal, Some bytes)
    else
      let '(error, r) := recover (length bytes) (mkRecovery ∅ 0 0 false) bytes in
      let journal opened :=
        mkJournal opened (rc_tail r) (rc_event_count r) (rc_sessions r) in
      match error with
      | Some _ => (journal false, Some bytes)
      | None =>
          if rc_tail r && (rc_valid_offset r <? len bytes) then
            if oc_truncate calls
            then (journal true, Some (take (Z.to_nat (rc_valid_offset r)) bytes))
            else (journal false, Some bytes)
          else (journal true, Some bytes)
      end.

Definition close (j : Journal) : Journal :=
  mkJournal false (jn_recovered_tail j) (jn_event_count j) (jn_sessions j).

(** ** Reading the state back *)

Definition state (j : Journal) (request : StateRequest) : result StateResponse :=
  if negb (jn_open j) then Err "answer journal is not open"
  else if bool_decide (encode_state_request request = []) then Err "invalid answer state request"
  else
    match jn_sessions j !! request_key request with
    | None =>
        Ok (mkStateResponse (sr_package_id request) (sr_package_digest request)
              (sr_client_id request) (sr_session_id request) (sr_candidate_id request)
              0 false zero_digest zero_digest 0 1 [])
    | Some session =>
        if negb (bool_decide (sd_candidate_id session = sr_candidate_id request))
        then Err "answer state candidate identity does not match"
        else
          Ok (mkStateResponse (sd_package_id session) (sd_package_digest session)
                (sd_client_id session) (sd_session_id session) (sd_candidate_id session)
                (sd_highest_sequence session) (sd_finalized session) (state_hash session)
                (sd_last_hash session) 0 1 (map snd (in_key_order (sd_answers session))))
    end.

(** ** The log behind a journal *)

(** Index one event: [recover_event] on the sessions alone. *)
Definition index_event (sessions : gmap bytes SessionData) (event : AnswerEvent)
    : option (gmap bytes SessionData) :=
  match hash_answer_event sha256 event with
  | None => None
  | Some h =>
      match recover_event (mkRecovery sessions 0 0 false) event h 0 with
      | (None, r) => Some (rc_sessions r)
      | _ => None
      end
  end.

Fixpoint replay (sessions : gmap bytes SessionData) (log : list AnswerEvent)
    : option (gmap bytes SessionData) :=
  match log with
  | [] => Some sessions
  | event :: rest =>
      match index_event sessions event with
      | Some sessions' => replay sessions' rest
      | None => None
      end
  end.

Definition record_of (event : AnswerEvent) : bytes :=
  encode_journal_record event (default zero_digest (hash_answer_event sha256 event)).

Definition journal_file (log : list AnswerEvent) : bytes := concat (map record_of log).

Lemma replay_app log1 log2 sessions sessions' :
  replay sessions log1 = Some sessions' -> replay sessions (log1 ++ log2) = replay sessions' log2.
Proof.
  revert sessions. induction log1 as [|e log1 IH]; intros sessions; cbn [replay app].
  - by intros [= <-].
  - destruct (index_event sessions e); [apply IH|done].
Qed.

Lemma replay_app_None log1 log2 sessions :
  replay sessions log1 = None -> replay sessions (log1 ++ log2) = None.
Proof.
  revert sessions. induction log1 as [|e log1 IH]; intros sessions; cbn [replay app]; [done|].
  destruct (index_event sessions e); [apply IH|done].
Qed.

Lemma journal_file_app log1 log2 :
  journal_file (log1 ++ log2) = journal_file log1 ++ journal_file log2.
Proof. unfold journal_file. by rewrite map_app, concat_app. Qed.

Lemma recover_event_index s event h n :
  hash_answer_event sha256 event = Some h ->
  forall sessions', index_event (rc_sessions s) event = Some sessions' ->
  recover_event s event h n =
    (None, mkRecovery sessions' (rc_event_count s + 1) (rc_valid_offset s + n) (rc_tail s)).
Proof.
  intros Hh sessions'. unfold index_event. rewrite Hh. unfold recover_event. cbn [rc_sessions].
  destruct (_ && _); [done|]. cbn zeta. destruct (negb _); [done|].
  destruct (over_answer_quota _ _); [done|]. destruct (apply_recovered _ _ _); [|done].
  cbn. by intros [= <-].
Qed.

Section Storage.
(** A digest is 32 bytes. *)
Hypothesis sha256_bytes : forall m d, sha256 m = Some d -> length d = 32%nat.

Lemma hash_facts e h :
  wf_event e -> hash_answer_event sha256 e = Some h ->
  length h = 32%nat /\ encode_answer_event e <> [] /\
  134 <= len (encode_answer_event e) <= 64 * 1024.
Proof.
  intros He. unfold hash_answer_event. case_bool_decide as Hnil; [done|].
  intros Hh. split; [by eapply sha256_bytes|]. split; [done|].
  destruct (encode_answer_event_wf e He) as [-> Hb]. clear -Hb.
  change kAnswerEventFixedBytes with 134 in Hb. change kMaximumWireBytes with 65512 in Hb. lia.
Qed.

Lemma record_of_shape e h :
  wf_event e -> hash_answer_event sha256 e = Some h ->
  record_of e = write_le 4 kJournalMagic ++ write_le 2 kJournalVersion ++ write_le 2 0 ++
    write_le 4 (len (encode_answer_event e)) ++ encode_answer_event e ++ h /\
  len (record_of e) = kJournalRecordOverhead + len (encode_answer_event e).
Proof.
  intros He Hh. destruct (hash_facts e h He Hh) as (Hl & Hne & _).
  unfold record_of, encode_journal_record. rewrite Hh. cbn [default from_option].
  rewrite bool_decide_eq_false_2 by done. split; [done|].
  autorewrite with wire. unfold id. len_facts. unfold kJournalRecordOverhead, kJournalHeaderBytes. lia.
Qed.

(** The header at the front of a record, however much of the record is there. *)
Lemma read_record_header n rest :
  u32 n -> n <> 0 -> n <= 64 * 1024 ->
  run_reader journal_header
    (write_le 4 kJournalMagic ++ write_le 2 kJournalVersion ++ write_le 2 0 ++
     write_le 4 n ++ rest) = Some (kJournalMagic, kJournalVersion, 0, n).
Proof. intros Hn H0 Hm. unfold run_reader, journal_header. reader_run. done. Qed.

Lemma read_record_of e h rest :
  wf_event e -> hash_answer_event sha256 e = Some h ->
  read_record (record_of e ++ rest) = front_record e h (len (record_of e)).
Proof.
  intros He Hh. destruct (record_of_shape e h He Hh) as [Hrec Hlen].
  destruct (hash_facts e h He Hh) as (Hl & Hne & Hb).
  assert (u32 (len (encode_answer_event e))) as Hu by ulia.
  unfold read_record. rewrite len_app, Hlen. pose proof (len_nonneg rest).
  unfold kJournalRecordOverhead, kJournalHeaderBytes.
  destruct (_ <? 12) eqn:E1; bool_to_prop; [lia|]. clear E1.
  rewrite Hrec. rewrite <- !app_assoc. rewrite read_record_header by lia || done.
  rewrite !Z.eqb_refl. cbn [negb orb].
  destruct (_ || _) eqn:E2; [apply orb_true_iff in E2 as [E2|E2]; bool_to_prop; lia|].
  destruct (_ + _ <? 12 + 32 + _) eqn:E3; bool_to_prop; [lia|].
  assert (drop (Z.to_nat 12) (write_le 4 kJournalMagic ++ write_le 2 kJournalVersion ++
    write_le 2 0 ++ write_le 4 (len (encode_answer_event e)) ++ encode_answer_event e ++ h ++ rest)
    = encode_answer_event e ++ h ++ rest) as Hdrop.
  { transitivity (drop (Z.to_nat 12) ((write_le 4 kJournalMagic ++ write_le 2 kJournalVersion ++
      write_le 2 0 ++ write_le 4 (len (encode_answer_event e))) ++
      encode_answer_event e ++ h ++ rest)); [by rewrite <- !app_assoc|].
    apply drop_app_length'. by rewrite !length_app, !length_write_le. }
  rewrite Hdrop. rewrite take_app_length' by (unfold len; lia).
  replace (Z.to_nat (12 + len (encode_answer_event e))) with
    (Z.to_nat 12 + length (encode_answer_event e))%nat by (unfold len; lia).
  rewrite <- drop_drop, Hdrop. rewrite drop_app_length, take_app_length' by done.
  rewrite (decode_encode_event e He), Hh. unfold same_digest. by rewrite bool_decide_eq_true_2.
Qed.

Lemma read_record_prefix e h p q :
  wf_event e -> hash_answer_event sha256 e = Some h -> record_of e = p ++ q -> q <> [] ->
  read_record p = front_incomplete.
Proof.
  intros He Hh Hpq Hq. destruct (record_of_shape e h He Hh) as [Hrec Hlen].
  destruct (hash_facts e h He Hh) as (Hl & Hne & Hb).
  assert (u32 (len (encode_answer_event e))) as Hu by ulia.
  assert (len p < len (record_of e)) as Hlt.
  { rewrite Hpq, len_app. destruct q; [done|]. rewrite len_cons. pose proof (len_nonneg q). lia. }
  unfold read_record, kJournalHeaderBytes. destruct (len p <? 12) eqn:E1; bool_to_prop; [done|].
  set (header := write_le 4 kJournalMagic ++ write_le 2 kJournalVersion ++ write_le 2 0 ++
    write_le 4 (len (encode_answer_event e))).
  assert (exists p', p = header ++ p') as [p' ->].
  { assert (header ++ encode_answer_event e ++ h = p ++ q) as Happ
      by (unfold header; rewrite <- !app_assoc, <- Hrec; done).
    assert (len header = 12) as Hhdr by (unfold header; by autorewrite with wire).
    apply app_eq_inv in Happ as [(k & Hk & _)|(k & Hk & _)]; [|by exists k].
    rewrite Hk in Hhdr. rewrite len_app in Hhdr. pose proof (len_nonneg k).
    assert (k = []) as -> by (apply len_zero; lia). exists []. by rewrite Hk, !app_nil_r. }
  assert (run_reader journal_header (header ++ p') =
    Some (kJournalMagic, kJournalVersion, 0, len (encode_answer_event e))) as ->.
  { unfold header. rewrite <- !app_assoc. apply read_record_header; lia || done. }
  rewrite !Z.eqb_refl. cbn [negb orb].
  destruct (_ || _) eqn:E2; [apply orb_true_iff in E2 as [E2|E2]; bool_to_prop; lia|].
  destruct (_ <? kJournalRecordOverhead + _) eqn:E3; bool_to_prop; [done|lia].
Qed.

Lemma record_of_nonempty e h :
  wf_event e -> hash_answer_event sha256 e = Some h -> 178 <= len (record_of e).
Proof.
  intros He Hh. destruct (record_of_shape e h He Hh) as [_ ->].
  destruct (hash_facts e h He Hh) as (_ & _ & Hb).
  unfold kJournalRecordOverhead, kJournalHeaderBytes. lia.
Qed.

Lemma index_event_hash sessions e sessions' :
  index_event sessions e = Some sessions' -> exists h, hash_answer_event sha256 e = Some h.
Proof. unfold index_event. destruct (hash_answer_event sha256 e); [by eexists|done]. Qed.

(** The recovery loop replays the log, whatever incomplete tail follows it. *)
Lemma recover_log log : forall fuel s tail sessions',
  Forall wf_event log -> replay (rc_sessions s) log = Some sessions' ->
  read_record tail = front_incomplete ->
  (length (journal_file log ++ tail) <= fuel)%nat ->
  recover fuel s (journal_file log ++ tail) =
    (None, mkRecovery sessions' (rc_event_count s + len log)
             (rc_valid_offset s + len (journal_file log))
             (rc_tail s || negb (bool_decide (tail = [])))).
Proof.
  induction log as [|e log IH]; intros fuel s tail sessions' Hwf Hreplay Htail Hfuel.
  - cbn [replay] in Hreplay. injection Hreplay as <-. cbn [journal_file map concat app] in *.
    destruct s as [ss c o t]. destruct fuel as [|fuel]; cbn [recover];
      (destruct (bool_decide (tail = [])) eqn:E; [apply bool_decide_eq_true in E; subst;
        rewrite orb_false_r; cbn; by rewrite !Z.add_0_r|]).
    { apply bool_decide_eq_false in E. destruct tail; [done|cbn in Hfuel; lia]. }
    rewrite Htail. unfold recover_tail. cbn. by rewrite orb_true_r, !Z.add_0_r.
  - apply Forall_cons in Hwf as [He Hwf]. cbn [replay] in Hreplay.
    destruct (index_event (rc_sessions s) e) as [mid|] eqn:Emid; [|done].
    destruct (index_event_hash _ _ _ Emid) as [h Hh].
    pose proof (record_of_nonempty e h He Hh) as Hrec.
    change (journal_file (e :: log)) with (record_of e ++ journal_file log) in *.
    rewrite <- app_assoc in *. rewrite length_app in Hfuel. unfold len in Hrec.
    destruct fuel as [|fuel]; [lia|]. cbn [recover].
    rewrite bool_decide_eq_false_2 by (intros E; apply (f_equal length) in E;
      rewrite length_app in E; cbn in E; lia).
    rewrite (read_record_of e h) by done. rewrite (recover_event_index _ _ _ _ Hh mid Emid).
    rewrite drop_app_length' by (unfold len; lia).
    rewrite (IH fuel _ tail sessions') by (done || lia). cbn [rc_event_count rc_valid_offset rc_tail].
    rewrite len_cons, len_app. do 2 f_equal; lia.
Qed.

(** ** The file after [append_file] *)

Lemma write_loop_complete (write : Z -> option Z) record fuel : forall offset n,
  write_loop write fuel record offset = (true, n) -> len record <= n.
Proof.
  induction fuel as [|fuel IH]; intros offset n; cbn [write_loop];
    (destruct (negb (offset <? len record)) eqn:E; [intros [= <-]; bool_to_prop; lia|]); [done|].
  destruct (write offset) as [w|]; [|done]. destruct (w =? 0); [done|apply IH].
Qed.

(** When every write makes progress the loop ends with the whole record written. *)
Lemma write_loop_progress (write : Z -> option Z) record fuel : forall offset,
  (forall o, exists w, write o = Some w /\ 0 < w) ->
  0 <= offset <= len record -> len record - offset <= Z.of_nat fuel ->
  write_loop write fuel record offset = (true, len record).
Proof.
  induction fuel as [|fuel IH]; intros offset Hw Ho Hf; cbn [write_loop].
  - destruct (negb _) eqn:E; bool_to_prop; [f_equal; lia|lia].
  - destruct (negb _) eqn:E; bool_to_prop; [f_equal; lia|].
    destruct (Hw offset) as (w & -> & Hpos). destruct (w =? 0) eqn:E2; bool_to_prop; [lia|].
    unfold dword_max, u32_max. apply IH; [done|lia|lia].
Qed.

(** A failed append leaves a prefix of the record behind at most. *)
Lemma append_file_spec calls file record ok file' :
  append_file calls file record = (ok, file') ->
  (ok = true -> file' = file ++ record) /\
  (ok = false -> exists p q, record = p ++ q /\ file' = file ++ p).
Proof.
  unfold append_file. cbn zeta. destruct (negb _ || negb _).
  { intros [= <- <-]. split; [done|]. exists [], record. by rewrite app_nil_r. }
  destruct (if ac_lock calls && ac_size calls && ac_seek calls then _ else _)
    as [succeeded written] eqn:Ew.
  assert (exists p q, record = p ++ q /\ file ++ take (Z.to_nat written) record = file ++ p) as Hp.
  { exists (take (Z.to_nat written) record), (drop (Z.to_nat written) record).
    by rewrite take_drop. }
  destruct (succeeded && ac_flush calls) eqn:Es.
  - intros [= <- <-]. split; [|done]. intros _.
    apply andb_true_iff in Es as [-> _].
    destruct (_ && ac_seek calls); [|done]. apply write_loop_complete in Ew.
    rewrite take_ge; [done|]. unfold len in Ew. lia.
  - clear Ew. destruct (ac_lock calls && _ && _); intros [= <- <-]; (split; [done|]); [|by intros _].
    exists [], record. by rewrite app_nil_r.
Qed.

(** ** One append *)

Lemma index_event_apply sessions e h now session :
  hash_answer_event sha256 e = Some h ->
  session = default (new_session e) (sessions !! event_key e) ->
  bool_decide (sessions !! event_key e = None) &&
    (Z.of_nat (size sessions) >=? kMaximumJournalSessions) = false ->
  refuse session e h now = None ->
  exists session', apply_recovered session e h = Some session' /\
    index_event sessions e = Some (<[event_key e := session']> sessions).
Proof.
  intros Hh Hsession Hquota. unfold refuse, index_event, recover_event. rewrite Hh.
  cbn [rc_sessions rc_event_count rc_valid_offset rc_tail]. rewrite Hquota. cbn zeta.
  rewrite <- Hsession. destruct (negb (bool_decide (sd_candidate_id session = _))) eqn:Ec; [done|].
  destruct (sd_event_hashes session !! _) as [b|]; [by destruct (negb (same_digest b h))|].
  destruct (over_answer_quota session e); [done|]. destruct (sd_finalized session) eqn:Ef; [done|].
  destruct (_ || _) eqn:Eseq; [done|]. destruct (negb (same_digest _ _)) eqn:Eprev; [done|].
  intros _. bool_to_prop. unfold apply_recovered.
  assert ((sd_highest_sequence session =? u64_max) ||
    negb (ev_sequence e =? wrap64 (sd_highest_sequence session + 1)) ||
    negb (same_digest (ev_previous_event_hash e) (sd_last_hash session)) ||
    (negb (bool_decide (sd_candidate_id session = [])) &&
     negb (bool_decide (sd_candidate_id session = ev_candidate_id e))) ||
    sd_finalized session = false) as ->.
  { rewrite !orb_false_iff, Ef. split_and!; try done; try lia.
    - by rewrite Eprev.
    - rewrite (bool_decide_eq_true_2 (sd_candidate_id session = ev_candidate_id e)) by done.
      apply andb_false_r. }
  by eexists.
Qed.

(** A refused first event leaves no session behind. *)
Lemma refuse_sessions (sessions : gmap bytes SessionData) e h now outcome discard session :
  session = default (new_session e) (sessions !! event_key e) ->
  refuse session e h now = Some (outcome, discard) ->
  let kept := <[event_key e := session]> sessions in
  (if discard && bool_decide (sessions !! event_key e = None)
   then delete (event_key e) kept else kept) = sessions /\ ao_status outcome <> st_accepted.
Proof.
  intros Hs Hr. cbn zeta. assert (ao_status outcome <> st_accepted) as Hne.
  { unfold refuse in Hr. intros Hacc. repeat case_match; by simplify_eq/=. }
  split; [|done]. destruct (sessions !! event_key e) as [s0|] eqn:E; cbn [default from_option] in Hs.
  - subst session. unfold id. rewrite bool_decide_eq_false_2 by done. rewrite andb_false_r.
    by apply insert_id.
  - rewrite bool_decide_eq_true_2 by done. assert (discard = true) as ->.
    { subst session. unfold refuse in Hr. cbn [new_session sd_event_hashes] in Hr.
      rewrite lookup_empty in Hr. repeat case_match; by simplify_eq/=. }
    cbn [andb]. by apply delete_insert_id.
Qed.

(** What one call to [append] can do. *)
Inductive append_effect (j : Journal) (file : bytes) (e : AnswerEvent) (calls : AppendCalls)
    : AppendOutcome -> Journal -> bytes -> Prop :=
  | effect_stored out sessions' file' :
      ao_status out = st_accepted -> jn_open j = true -> validate_answer_event e = true ->
      index_event (jn_sessions j) e = Some sessions' ->
      append_file calls file (record_of e) = (true, file') ->
      len file + len (record_of e) <= kMaximumJournalBytes ->
      append_effect j file e calls out
        (mkJournal true (jn_recovered_tail j) (jn_event_count j + 1) sessions') file'
  | effect_none out :
      ao_status out <> st_accepted -> append_effect j file e calls out j file
  | effect_failed out sessions' file' :
      ao_status out = st_unavailable -> jn_open j = true -> validate_answer_event e = true ->
      index_event (jn_sessions j) e = Some sessions' ->
      append_file calls file (record_of e) = (false, file') ->
      len file + len (record_of e) <= kMaximumJournalBytes ->
      append_effect j file e calls out
        (mkJournal false (jn_recovered_tail j) (jn_event_count j) (jn_sessions j)) file'
  | effect_full out :
      ao_status out = st_unavailable ->
      append_effect j file e calls out
        (mkJournal false (jn_recovered_tail j) (jn_event_count j) (jn_sessions j)) file.

Lemma discard_inserted (sessions : gmap bytes SessionData) key (session : SessionData) e :
  session = default (new_session e) (sessions !! key) ->
  (if bool_decide (sessions !! key = None) then delete key (<[key := session]> sessions)
   else <[key := session]> sessions) = sessions.
Proof.
  intros Hs. destruct (sessions !! key) as [s0|] eqn:E.
  - rewrite bool_decide_eq_false_2 by done. subst. by apply insert_id.
  - rewrite bool_decide_eq_true_2 by done. by apply delete_insert_id.
Qed.

Lemma append_cases j file e sk calls now out j' file' :
  append j file e sk calls now = (out, j', file') -> append_effect j file e calls out j' file'.
Proof.
  unfold append. destruct (jn_open j) eqn:Eopen; cbn [negb];
    [|intros [= <- <- <-]; by apply effect_none].
  destruct (validate_answer_event e) eqn:Ev; cbn [negb];
    [|intros [= <- <- <-]; by apply effect_none].
  destruct (hash_answer_event sha256 e) as [h|] eqn:Eh;
    [|intros [= <- <- <-]; by apply effect_none].
  destruct (bool_decide _ && _) eqn:Equota; [intros [= <- <- <-]; by apply effect_none|].
  set (session := default _ _).
  destruct (refuse session e h now) as [[o discard]|] eqn:Er.
  - destruct (refuse_sessions _ _ _ _ _ _ session eq_refl Er) as [-> Hne].
    intros [= <- <- <-]. destruct j. by apply effect_none.
  - destruct (index_event_apply _ e h now session Eh eq_refl Equota Er) as (session' & Ea & Ei).
    unfold store_event. rewrite (discard_inserted _ _ session e eq_refl).
    assert (encode_journal_record e h = record_of e) as -> by (unfold record_of; by rewrite Eh).
    destruct (_ || _ || _ || _) eqn:Efull; [intros [= <- <- <-]; by apply effect_full|].
    destruct (append_file calls file (record_of e)) as [written file1] eqn:Ew.
    bool_to_prop. destruct written; cbn [negb].
    + rewrite Ea. intros [= <- <- <-]. rewrite Eopen.
      eapply effect_stored; try done. lia.
    + intros [= <- <- <-]. eapply effect_failed; try done. lia.
Qed.

(** ** Runs of a journal *)

Inductive JournalOp : Type :=
  | OpAppend (event : AnswerEvent) (size_known : bool) (calls : AppendCalls) (now : Z)
  | OpReopen (calls : OpenCalls)
  | OpClose.

Record World := mkWorld {
  w_journal : Journal;
  w_file : option bytes;
  w_accepted : list AnswerEvent;
  w_submitted : list AnswerEvent
}.

Definition journal_step (w : World) (op : JournalOp) : World :=
  match op with
  | OpAppend event size_known calls now =>
      let '(out, j', file') :=
        append (w_journal w) (default [] (w_file w)) event size_known calls now in
      mkWorld j' (if bool_decide (w_file w = None) then None else Some file')
        (if bool_decide (ao_status out = st_accepted) then w_accepted w ++ [event]
         else w_accepted w)
        (w_submitted w ++ [event])
  | OpReopen calls =>
      let '(j', file') := open_journal calls (w_journal w) (w_file w) in
      mkWorld j' file' (w_accepted w) (w_submitted w)
  | OpClose => mkWorld (close (w_journal w)) (w_file w) (w_accepted w) (w_submitted w)
  end.

Definition journal_run (ops : list JournalOp) : World :=
  fold_left journal_step ops (mkWorld closed_journal None [] []).

(** The fields of an event have their C++ types. *)
Definition typed_event (e : AnswerEvent) : Prop :=
  length (ev_package_digest e) = 32%nat /\ length (ev_client_id e) = 16%nat /\
  length (ev_session_id e) = 16%nat /\ length (ev_previous_event_hash e) = 32%nat /\
  u32 (ev_question_revision e) /\ u64 (ev_sequence e) /\ u64 (ev_client_time e).

Definition typed_op (op : JournalOp) : Prop :=
  match op with OpAppend e _ _ _ => typed_event e | _ => True end.

(** The log behind a world: the records the file holds, followed by at most an
    incomplete one. *)
Record world_log (w : World) (log : list AnswerEvent) (tail : bytes)
    (sessions : gmap bytes SessionData) : Prop := {
  wl_file : default [] (w_file w) = journal_file log ++ tail;
  wl_tail : read_record tail = front_incomplete;
  wl_size : len (default [] (w_file w)) <= kMaximumJournalBytes;
  wl_wf : Forall wf_event log;
  wl_replay : replay ∅ log = Some sessions;
  wl_accepted : w_accepted w `sublist_of` log;
  wl_submitted : forall e, e ∈ log -> e ∈ w_submitted w;
  wl_open : jn_open (w_journal w) = true ->
    tail = [] /\ jn_sessions (w_journal w) = sessions /\
    jn_event_count (w_journal w) = len log /\ w_file w <> None
}.

Lemma replay_snoc log e sessions sessions' :
  replay ∅ log = Some sessions -> index_event sessions e = Some sessions' ->
  replay ∅ (log ++ [e]) = Some sessions'.
Proof. intros H1 H2. rewrite (replay_app _ _ _ _ H1). cbn [replay]. by rewrite H2. Qed.

Lemma journal_file_snoc log e : journal_file (log ++ [e]) = journal_file log ++ record_of e.
Proof. rewrite journal_file_app. unfold journal_file at 2. cbn. by rewrite app_nil_r. Qed.

Lemma kept_file (file : option bytes) :
  (if bool_decide (file = None) then None else Some (default [] file)) = file.
Proof. by destruct file. Qed.

Lemma append_step w log tail sessions e sk calls now :
  world_log w log tail sessions -> typed_event e ->
  exists log' tail' sessions', log `prefix_of` log' /\
    world_log (journal_step w (OpAppend e sk calls now)) log' tail' sessions'.
Proof.
  intros [Hfile Htail Hsize Hwf Hreplay Hacc Hsub Hopen] He. unfold journal_step.
  destruct (append _ _ e sk calls now) as [[out j'] file'] eqn:Ea.
  assert (forall e', e' ∈ log -> e' ∈ w_submitted w ++ [e]) as Hsub'
    by (intros e' H'; apply elem_of_app; left; by apply Hsub).
  apply append_cases in Ea. destruct Ea as [out s' file' Hst Ho Hv Hi Hw Hsz
    |out Hne|out s' file' Hst Ho Hv Hi Hw Hsz|out Hst].
  - destruct (Hopen Ho) as (-> & Hs & Hc & Hnone). rewrite Hs in Hi.
    destruct (append_file_spec _ _ _ _ _ Hw) as [Happ _]. specialize (Happ eq_refl).
    rewrite app_nil_r in Hfile.
    exists (log ++ [e]), [], s'. split; [by eexists|]. rewrite (bool_decide_eq_true_2 _ Hst).
    rewrite (bool_decide_eq_false_2 _ Hnone). constructor; cbn.
    + unfold id. by rewrite Happ, Hfile, journal_file_snoc, app_nil_r.
    + done.
    + unfold id. rewrite Happ, len_app. lia.
    + apply Forall_app. split; [done|]. constructor; [by split|constructor].
    + by eapply replay_snoc.
    + by apply sublist_app.
    + intros e' [H'|H']%elem_of_app; [by apply Hsub'|]. apply elem_of_app. by right.
    + intros _. split_and!; [done|done|rewrite len_app, Hc; done|done].
  - exists log, tail, sessions. split; [done|]. rewrite (bool_decide_eq_false_2 _ Hne), kept_file.
    by constructor.
  - destruct (Hopen Ho) as (-> & Hs & Hc & Hnone). rewrite Hs in Hi. rewrite app_nil_r in Hfile.
    assert (ao_status out <> st_accepted) as Hne by congruence.
    rewrite (bool_decide_eq_false_2 _ Hne). rewrite (bool_decide_eq_false_2 _ Hnone).
    assert (wf_event e) as Hwfe by (by split).
    destruct (index_event_hash _ _ _ Hi) as [h Hh].
    destruct (append_file_spec _ _ _ _ _ Hw) as [_ Hpart].
    destruct (Hpart eq_refl) as (p & q & Hpq & Hf'). rewrite Hfile in Hf'.
    assert (len (journal_file log) + len p <= kMaximumJournalBytes) as Hbound.
    { rewrite <- Hfile. rewrite Hpq, len_app in Hsz. pose proof (len_nonneg q). lia. }
    destruct (decide (q = [])) as [->|Hq].
    + rewrite app_nil_r in Hpq. exists (log ++ [e]), [], s'. split; [by eexists|]. constructor; cbn; try done.
      * unfold id. by rewrite Hf', journal_file_snoc, Hpq, app_nil_r.
      * unfold id. rewrite Hf', len_app. lia.
      * apply Forall_app. split; [done|]. by constructor; [|constructor].
      * by eapply replay_snoc.
      * by apply sublist_inserts_r.
      * intros e' [H'|H']%elem_of_app; [by apply Hsub'|]. apply elem_of_app. by right.
    + exists log, p, sessions. split; [done|]. constructor; cbn; try done.
      * by eapply read_record_prefix.
      * unfold id. rewrite Hf', len_app. lia.
  - exists log, tail, sessions. split; [done|].
    assert (ao_status out <> st_accepted) as Hne by congruence.
    rewrite (bool_decide_eq_false_2 _ Hne), kept_file. by constructor.
Qed.

(** Recovery of the file of a log with an incomplete tail. *)
Lemma recover_file log tail sessions :
  Forall wf_event log -> replay ∅ log = Some sessions -> read_record tail = front_incomplete ->
  recover (length (journal_file log ++ tail)) (mkRecovery ∅ 0 0 false)
    (journal_file log ++ tail) =
  (None, mkRecovery sessions (len log) (len (journal_file log)) (negb (bool_decide (tail = [])))).
Proof. intros Hwf Hr Ht. by rewrite (recover_log log _ _ _ sessions). Qed.

Lemma open_step w log tail sessions calls :
  world_log w log tail sessions ->
  exists tail', world_log (journal_step w (OpReopen calls)) log tail' sessions.
Proof.
  intros [Hfile Htail Hsize Hwf Hreplay Hacc Hsub Hopen]. unfold journal_step, open_journal.
  cbn zeta. destruct (negb (oc_valid_path calls)); [by exists tail|].
  destruct (_ || _ || _); [by exists tail|].
  destruct (bool_decide (w_file w = None) && _); [by exists tail|].
  destruct (_ || _); [by exists tail; constructor|].
  rewrite Hfile, recover_file with (sessions := sessions) by done. rewrite Hfile in Hsize.
  cbn [rc_tail rc_event_count rc_sessions rc_valid_offset].
  destruct (decide (tail = [])) as [->|Ht].
  - exists []. rewrite app_nil_r in *. cbn. constructor; cbn; unfold id; rewrite ?app_nil_r; done.
  - rewrite (bool_decide_eq_false_2 (tail = [])) by done. cbn [negb andb].
    assert (len (journal_file log) <? len (journal_file log ++ tail) = true) as ->.
    { rewrite len_app. destruct tail; [done|]. rewrite len_cons. pose proof (len_nonneg tail). lia. }
    destruct (oc_truncate calls).
    + exists []. rewrite len_app in Hsize. pose proof (len_nonneg tail).
      rewrite take_app_length' by (unfold len; lia).
      constructor; cbn; unfold id; rewrite ?app_nil_r; try done. lia.
    + exists tail. constructor; cbn; done.
Qed.

Lemma run_log ops :
  Forall typed_op ops -> exists log tail sessions, world_log (journal_run ops) log tail sessions.
Proof.
  intros Hops. unfold journal_run.
  assert (exists log tail sessions,
    world_log (mkWorld closed_journal None [] []) log tail sessions) as Hinit.
  { exists [], [], ∅. by constructor. }
  revert Hinit. generalize (mkWorld closed_journal None [] []).
  induction Hops as [|op ops Hop Hops IH]; intros w Hw; [done|].
  cbn [fold_left]. apply IH. destruct Hw as (log & tail & sessions & Hw). destruct op.
  - destruct (append_step w log tail sessions event size_known calls now Hw Hop)
      as (log' & tail' & sessions' & _ & H). by exists log', tail', sessions'.
  - destruct (open_step _ _ _ _ calls Hw) as [tail' H]. by exists log, tail', sessions.
  - exists log, tail, sessions. destruct Hw. by constructor.
Qed.
End Storage.

(** ** Sessions behind a log *)

Definition events_of (key : bytes) (log : list AnswerEvent) : list AnswerEvent :=
  filter (fun e => event_key e = key) log.

Definition digest_of (e : AnswerEvent) : bytes :=
  default zero_digest (hash_answer_event sha256 e).

(** The hash chain: each event names the digest of the one before. *)
Fixpoint chained (previous : bytes) (events : list AnswerEvent) : Prop :=
  match events with
  | [] => True
  | e :: rest => ev_previous_event_hash e = previous /\ chained (digest_of e) rest
  end.

Definition last_digest (events : list AnswerEvent) : bytes :=
  match last events with Some e => digest_of e | None => zero_digest end.

(** The answer to a question: the last event about it decides. *)
Definition answer_in (events : list AnswerEvent) (question : bytes) : option AnswerState :=
  match last (filter (fun e => ev_question_id e = question) events) with
  | Some e => if ev_kind e =? kind_upsert then Some (answer_of e (digest_of e)) else None
  | None => None
  end.

Record session_of (events : list AnswerEvent) (s : SessionData) : Prop := {
  so_valid : Forall (fun e => validate_answer_event e = true) events;
  so_candidate : Forall (fun e => ev_candidate_id e = sd_candidate_id s) events;
  so_identity : Forall (fun e => ev_package_id e = sd_package_id s /\
    ev_package_digest e = sd_package_digest s /\ ev_client_id e = sd_client_id s /\
    ev_session_id e = sd_session_id s) events;
  so_sequences : map ev_sequence events = seqZ 1 (len events);
  so_highest : sd_highest_sequence s = len events;
  so_bound : len events <= u64_max;
  so_chain : chained zero_digest events;
  so_last : sd_last_hash s = last_digest events;
  so_hashes : forall i, sd_event_hashes s !! i =
    (if bool_decide (1 <= i) then digest_of <$> events !! Z.to_nat (i - 1) else None);
  so_finalized : sd_finalized s =
    match last events with Some e => ev_kind e =? kind_finalize | None => false end;
  so_answers : forall q, sd_answers s !! q = answer_in events q;
  so_quota : Z.of_nat (size (sd_answers s)) <= kMaximumStateEntries
}.

Lemma chained_snoc previous events e :
  chained previous (events ++ [e]) <->
  chained previous events /\
  ev_previous_event_hash e = match last events with Some l => digest_of l | None => previous end.
Proof.
  revert previous. induction events as [|a events IH]; intros previous; cbn [app chained].
  - cbn. tauto.
  - rewrite IH. rewrite last_cons. destruct (last events); tauto.
Qed.

Lemma new_session_of e : session_of [] (new_session e).
Proof.
  constructor; cbn; try done; try constructor.
  intros i. rewrite lookup_empty. by case_bool_decide.
Qed.

Lemma seqZ_snoc m n : 0 <= n -> seqZ m (n + 1) = seqZ m n ++ [m + n].
Proof. intros Hn. rewrite seqZ_app by lia. by rewrite (seqZ_cons (m + n) 1) by lia. Qed.

(** What validation says about the kind and the question of an event. *)
Lemma validate_kind e :
  validate_answer_event e = true ->
  ev_kind e = kind_upsert /\ ev_question_id e <> [] \/
  ev_kind e = kind_clear /\ ev_question_id e <> [] \/
  ev_kind e = kind_finalize /\ ev_question_id e = [].
Proof.
  unfold validate_answer_event. intros H. bool_to_prop.
  match goal with H : valid_kind _ = true |- _ => unfold valid_kind in H end.
  assert (forall q m, valid_text q m false = true -> q <> []) as Htext by (by intros q m Ht ->).
  destruct (Z.eqb_spec (ev_kind e) kind_finalize) as [Hk|Hk]; cbn [negb andb] in *; bool_to_prop.
  - by right; right.
  - assert (ev_kind e = kind_upsert \/ ev_kind e = kind_clear) as [Hk'|Hk'] by lia;
      [left|right; left]; (split; [done|by eapply Htext]).
Qed.

Lemma answer_in_snoc events e q :
  answer_in (events ++ [e]) q =
    if bool_decide (ev_question_id e = q)
    then (if ev_kind e =? kind_upsert then Some (answer_of e (digest_of e)) else None)
    else answer_in events q.
Proof.
  unfold answer_in. rewrite filter_app. case_bool_decide as Hq.
  - rewrite (filter_cons_True _ e []), filter_nil by done. by rewrite last_snoc.
  - rewrite (filter_cons_False _ e []), filter_nil by done. by rewrite app_nil_r.
Qed.

(** No answer is about the empty question: only finalizing events name it. *)
Lemma answer_in_empty events :
  Forall (fun e => validate_answer_event e = true) events -> answer_in events [] = None.
Proof.
  intros Hv. unfold answer_in. destruct (last _) as [e|] eqn:E; [|done].
  apply last_Some_elem_of in E. apply list_elem_of_filter in E as [Hq He].
  rewrite Forall_forall in Hv. specialize (Hv e He). apply validate_kind in Hv.
  destruct Hv as [[_ ?]|[[_ ?]|[-> _]]]; done.
Qed.

Lemma apply_answers events s e h :
  (forall q, sd_answers s !! q = answer_in events q) ->
  Forall (fun e => validate_answer_event e = true) events ->
  validate_answer_event e = true -> digest_of e = h ->
  forall q, (if ev_kind e =? kind_upsert
      then <[ev_question_id e := answer_of e h]> (sd_answers s)
      else if ev_kind e =? kind_clear then delete (ev_question_id e) (sd_answers s)
      else sd_answers s) !! q = answer_in (events ++ [e]) q.
Proof.
  intros Hans Hval Hv Hd q. rewrite answer_in_snoc.
  destruct (validate_kind e Hv) as [[Hk Hq]|[[Hk Hq]|[Hk Hq]]]; rewrite Hk; cbn [Z.eqb].
  - change (kind_upsert =? kind_upsert) with true. cbv iota. case_bool_decide as Hqq.
    + subst q. by rewrite lookup_insert_eq, Hd.
    + by rewrite lookup_insert_ne.
  - change (kind_clear =? kind_upsert) with false. change (kind_clear =? kind_clear) with true.
    cbv iota. case_bool_decide as Hqq; [subst q; by rewrite lookup_delete_eq|].
    by rewrite lookup_delete_ne.
  - change (kind_finalize =? kind_upsert) with false.
    change (kind_finalize =? kind_clear) with false. cbv iota. rewrite Hans, Hq.
    case_bool_decide as Hqq; [|done]. subst q. by apply answer_in_empty.
Qed.

Lemma apply_quota s e h :
  over_answer_quota s e = false -> Z.of_nat (size (sd_answers s)) <= kMaximumStateEntries ->
  Z.of_nat (size (if ev_kind e =? kind_upsert
      then <[ev_question_id e := answer_of e h]> (sd_answers s)
      else if ev_kind e =? kind_clear then delete (ev_question_id e) (sd_answers s)
      else sd_answers s)) <= kMaximumStateEntries.
Proof.
  unfold over_answer_quota. intros Hover Hq. destruct (ev_kind e =? kind_upsert).
  - cbn [andb] in Hover. rewrite map_size_insert.
    destruct (sd_answers s !! ev_question_id e) as [a|]; [done|].
    rewrite bool_decide_eq_true_2 in Hover by done. cbn [andb] in Hover. bool_to_prop. lia.
  - destruct (ev_kind e =? kind_clear); [|done]. rewrite map_size_delete.
    destruct (sd_answers s !! ev_question_id e); cbn; lia.
Qed.

(** Applying the next event of a session. *)
Lemma apply_session_of events s e h s' :
  session_of events s -> validate_answer_event e = true ->
  hash_answer_event sha256 e = Some h ->
  apply_recovered s e h = Some s' -> over_answer_quota s e = false ->
  sd_candidate_id s = ev_candidate_id e ->
  ev_package_id e = sd_package_id s /\ ev_package_digest e = sd_package_digest s /\
    ev_client_id e = sd_client_id s /\ ev_session_id e = sd_session_id s ->
  session_of (events ++ [e]) s'.
Proof.
  intros [Hval Hcand Hid Hseq Hhigh Hbound Hchain Hlast Hhash Hfin Hans Hquota]
    Hv Hh Happ Hq Hc Hi.
  assert (digest_of e = h) as Hd by (unfold digest_of; by rewrite Hh).
  unfold apply_recovered in Happ. destruct (_ || _) eqn:E in Happ; [done|].
  injection Happ as <-. bool_to_prop.
  match goal with H : _ && negb (bool_decide (sd_candidate_id s = _)) = false |- _ =>
    clear H end.
  assert (ev_sequence e = len events + 1) as Hse by (pose proof (len_nonneg events); ulia).
  assert (ev_previous_event_hash e = sd_last_hash s) as Hprev
    by (by apply bool_decide_eq_true_1 in H2).
  assert (sd_event_hashes s !! ev_sequence e = None) as Hfree.
  { rewrite Hhash, Hse. case_bool_decide; [|done].
    rewrite lookup_ge_None_2; [done|]. unfold len. lia. }
  rewrite Hfree. constructor; cbn.
  - apply Forall_app. by split; [|constructor].
  - rewrite Hc. destruct (bool_decide _); apply Forall_app;
      (split; [by rewrite <- Hc in *|by constructor]).
  - apply Forall_app. by split; [|constructor].
  - rewrite map_app, Hseq, len_app. cbn. rewrite len_cons, len_nil, Hse.
    rewrite seqZ_snoc by apply len_nonneg. do 2 f_equal. lia.
  - rewrite len_app, len_cons, len_nil. lia.
  - rewrite len_app, len_cons, len_nil. ulia.
  - apply chained_snoc. split; [done|]. rewrite Hprev, Hlast. done.
  - unfold last_digest. by rewrite last_snoc, Hd.
  - intros i. destruct (decide (i = ev_sequence e)) as [->|Hne].
    + rewrite lookup_insert_eq, Hse. rewrite bool_decide_eq_true_2
        by (pose proof (len_nonneg events); lia).
      rewrite lookup_app_r by (unfold len; lia).
      replace (Z.to_nat (len events + 1 - 1) - length events)%nat with 0%nat by (unfold len; lia).
      cbn. by rewrite Hd.
    + rewrite lookup_insert_ne by done. rewrite Hhash. case_bool_decide; [|done]. f_equal.
      destruct (decide (i <= len events)).
      * rewrite lookup_app_l by (unfold len in *; lia). done.
      * rewrite !lookup_ge_None_2; [done|rewrite length_app; cbn|]; unfold len in *; lia.
  - rewrite last_snoc. destruct (validate_kind e Hv) as [[-> _]|[[-> _]|[-> _]]]; done.
  - by apply apply_answers.
  - by apply apply_quota.
Qed.

(** The sessions of a replayed log. *)
Definition sessions_of (log : list AnswerEvent) (sessions : gmap bytes SessionData) : Prop :=
  forall key,
    match sessions !! key with
    | Some s => events_of key log <> [] /\ session_of (events_of key log) s
    | None => events_of key log = []
    end.

Lemma events_of_snoc key log e :
  events_of key (log ++ [e]) =
    if bool_decide (event_key e = key) then events_of key log ++ [e] else events_of key log.
Proof.
  unfold events_of. rewrite filter_app. case_bool_decide.
  - by rewrite (filter_cons_True _ e []).
  - by rewrite (filter_cons_False _ e []), filter_nil, app_nil_r.
Qed.

Lemma session_key_inj p d c i p' d' c' i' :
  length d = 32%nat -> length d' = 32%nat -> length c = 16%nat -> length c' = 16%nat ->
  length i = 16%nat -> length i' = 16%nat ->
  session_key p d c i = session_key p' d' c' i' -> p = p' /\ d = d' /\ c = c' /\ i = i'.
Proof.
  unfold session_key. intros Hd Hd' Hc Hc' Hi Hi' E.
  apply app_inj_2 in E as [-> E]; [|rewrite !length_app; lia].
  apply app_inj_1 in E as [_ E]; [|done].
  apply app_inj_1 in E as [-> E]; [|lia]. by apply app_inj_1 in E as [-> ->]; [|lia].
Qed.

Lemma event_key_identity e e' :
  wf_event e -> wf_event e' -> event_key e = event_key e' ->
  ev_package_id e = ev_package_id e' /\ ev_package_digest e = ev_package_digest e' /\
  ev_client_id e = ev_client_id e' /\ ev_session_id e = ev_session_id e'.
Proof.
  intros (_ & D & C & I & _) (_ & D' & C' & I' & _). by apply session_key_inj.
Qed.

Lemma index_event_inv sessions e sessions' :
  index_event sessions e = Some sessions' ->
  exists h s', let s := default (new_session e) (sessions !! event_key e) in
    hash_answer_event sha256 e = Some h /\ sd_candidate_id s = ev_candidate_id e /\
    over_answer_quota s e = false /\ apply_recovered s e h = Some s' /\
    sessions' = <[event_key e := s']> sessions /\
    (sessions !! event_key e = None ->
     Z.of_nat (size sessions) < kMaximumJournalSessions).
Proof.
  unfold index_event. destruct (hash_answer_event sha256 e) as [h|]; [|done].
  unfold recover_event. cbn [rc_sessions rc_event_count rc_valid_offset rc_tail].
  destruct (bool_decide _ && _) eqn:Eq; [done|]. cbn zeta.
  set (s := default _ _). destruct (negb _) eqn:Ec; [done|].
  destruct (over_answer_quota s e) eqn:Eo; [done|].
  destruct (apply_recovered s e h) as [s'|] eqn:Ea; [|done]. cbn. intros [= <-].
  bool_to_prop. exists h, s'. split_and!; try done. intros Hnone.
  rewrite bool_decide_eq_true_2 in Eq by done. cbn [andb] in Eq. bool_to_prop. lia.
Qed.

Lemma sessions_of_step log sessions e sessions' :
  sessions_of log sessions -> Forall wf_event log -> wf_event e ->
  index_event sessions e = Some sessions' -> sessions_of (log ++ [e]) sessions'.
Proof.
  intros Hs Hlog He Hi. apply index_event_inv in Hi as (h & s' & Hh & Hc & Hq & Ha & -> & _).
  intros key. rewrite events_of_snoc. case_bool_decide as Hk.
  - subst key. rewrite lookup_insert_eq. split; [by destruct (events_of _ _)|].
    specialize (Hs (event_key e)).
    destruct (sessions !! event_key e) as [s|]; cbn [default from_option] in *; unfold id in *.
    + destruct Hs as [Hne Hs]. eapply apply_session_of; try done; [apply He|].
      destruct (events_of (event_key e) log) as [|e0 es] eqn:Ees; [done|].
      assert (e0 ∈ events_of (event_key e) log) as Hin by (rewrite Ees; by left).
      apply list_elem_of_filter in Hin as [Hk0 Hin]. rewrite Forall_forall in Hlog.
      destruct (event_key_identity e e0 He (Hlog e0 Hin) ltac:(done)) as (-> & -> & -> & ->).
      pose proof (so_identity _ _ Hs) as Hid. by apply Forall_cons in Hid as [? _].
    + rewrite Hs. eapply apply_session_of; try done; [apply new_session_of|apply He].
  - rewrite lookup_insert_ne by done. apply Hs.
Qed.

Lemma replay_sessions_of log sessions :
  Forall wf_event log -> replay ∅ log = Some sessions -> sessions_of log sessions.
Proof.
  revert sessions. induction log as [|e log IH] using rev_ind; intros sessions Hwf Hr.
  - injection Hr as <-. intros key. by rewrite lookup_empty.
  - apply Forall_app in Hwf as [Hwf He]. apply Forall_cons in He as [He _].
    destruct (replay ∅ log) as [mid|] eqn:Em.
    + rewrite (replay_app _ _ _ _ Em) in Hr. cbn [replay] in Hr.
      destruct (index_event mid e) eqn:Ei; [|done]. injection Hr as <-.
      eapply sessions_of_step; try done. by apply IH.
    + by rewrite (replay_app_None _ _ _ Em) in Hr.
Qed.

(** ** What a session reports *)

Section Reports.
(** SHA-256 succeeds, and neither fails nor yields the all-zero digest. *)
Hypothesis sha256_digest : forall m,
  exists d, sha256 m = Some d /\ length d = 32%nat /\ all_zero d = false.

Lemma sha256_bytes_of m d : sha256 m = Some d -> length d = 32%nat /\ all_zero d = false.
Proof. intros H. destruct (sha256_digest m) as (d' & E & Hl & Hz). rewrite E in H. by injection H as <-. Qed.

Lemma digest_of_facts e :
  validate_answer_event e = true -> hash_answer_event sha256 e = None \/
  hash_answer_event sha256 e = Some (digest_of e) /\ length (digest_of e) = 32%nat /\
  all_zero (digest_of e) = false.
Proof.
  intros _. unfold digest_of. destruct (hash_answer_event sha256 e) as [h|] eqn:E; [right|by left].
  split; [done|]. unfold hash_answer_event in E. case_bool_decide; [done|].
  by apply sha256_bytes_of in E.
Qed.

Lemma wf_event_hash e :
  wf_event e -> hash_answer_event sha256 e = Some (digest_of e) /\
  length (digest_of e) = 32%nat /\ all_zero (digest_of e) = false.
Proof.
  intros He. destruct (digest_of_facts e (proj1 He)) as [Hn|H]; [|done]. exfalso.
  revert Hn. unfold hash_answer_event. destruct (encode_answer_event_wf e He) as [-> [Hlo _]].
  rewrite bool_decide_eq_false_2 by (intros E; rewrite E in Hlo; by vm_compute in Hlo).
  destruct (sha256_digest (answer_event_wire e)) as (d & -> & _). done.
Qed.

Lemma state_hash_facts s :
  length (state_hash s) = 32%nat /\ all_zero (state_hash s) = false.
Proof.
  unfold state_hash. match goal with |- context [sha256 ?m] =>
    destruct (sha256_digest m) as (d & -> & H) end. done.
Qed.

Lemma zero_digest_zero : all_zero zero_digest = true /\ length zero_digest = 32%nat.
Proof. by vm_compute. Qed.

Lemma session_events_in events s e :
  session_of events s -> e ∈ events -> 1 <= ev_sequence e <= len events.
Proof.
  intros Hs He. assert (ev_sequence e ∈ map ev_sequence events) as Hin
    by (by apply list_elem_of_fmap_2).
  rewrite (so_sequences _ _ Hs) in Hin. apply elem_of_seqZ in Hin. lia.
Qed.

Lemma session_event_sequence_inj events s e e' :
  session_of events s -> e ∈ events -> e' ∈ events -> ev_sequence e = ev_sequence e' -> e = e'.
Proof.
  intros Hs He He' Heq. apply list_elem_of_lookup in He as [i Hi], He' as [j Hj].
  assert (NoDup (map ev_sequence events)) as Hnd by (rewrite (so_sequences _ _ Hs); apply NoDup_seqZ).
  assert (i = j) as ->; [|congruence].
  apply (NoDup_lookup _ i j (ev_sequence e) Hnd); rewrite list_lookup_fmap;
    [by rewrite Hi|by rewrite Hj, Heq].
Qed.

Lemma answer_in_event events q a :
  answer_in events q = Some a ->
  exists e, e ∈ events /\ ev_question_id e = q /\ ev_kind e = kind_upsert /\
    a = answer_of e (digest_of e).
Proof.
  unfold answer_in. destruct (last _) as [e|] eqn:E; [|done].
  destruct (Z.eqb_spec (ev_kind e) kind_upsert); [|done]. intros [= <-].
  apply last_Some_elem_of in E. apply list_elem_of_filter in E as [Hq He]. by exists e.
Qed.

(** The answers of a session in key order are the answers of its events. *)
Lemma reported_answers events s :
  session_of events s -> forall a,
  a ∈ map snd (in_key_order (sd_answers s)) <-> exists q, answer_in events q = Some a.
Proof.
  intros Hs a. rewrite list_elem_of_fmap. split.
  - intros ([q a'] & -> & Hin). exists q. rewrite <- (so_answers _ _ Hs).
    apply elem_of_map_to_list. unfold in_key_order in Hin. by rewrite merge_sort_Permutation in Hin.
  - intros [q Hq]. exists (q, a). split; [done|]. unfold in_key_order.
    rewrite merge_sort_Permutation. apply elem_of_map_to_list. by rewrite (so_answers _ _ Hs).
Qed.

Lemma answer_of_valid events s e :
  session_of events s -> Forall wf_event events -> e ∈ events -> ev_kind e = kind_upsert ->
  valid_answer_state (answer_of e (digest_of e)) = true /\ wf_answer (answer_of e (digest_of e)).
Proof.
  intros Hs Hwf He Hk. rewrite Forall_forall in Hwf. specialize (Hwf e He).
  destruct (wf_event_hash e Hwf) as (Hh & Hl & Hz).
  assert (valid_answer_state (answer_of e (digest_of e)) = true) as Hv.
  { destruct Hwf as (Hv & _).
    pose proof (validate_question e Hv ltac:(by rewrite Hk)) as Hq.
    unfold validate_answer_event in Hv. bool_to_prop.
    unfold valid_answer_state, answer_of. cbn. rewrite Hk, Hq, Hz.
    rewrite !andb_true_iff, !negb_true_iff. split_and!; (done || lia). }
  split; [done|]. destruct Hwf as (_ & _ & _ & _ & _ & H5 & H6 & _). by split_and!.
Qed.

Lemma reported_answers_ok events s :
  session_of events s -> Forall wf_event events ->
  answers_ok (sd_highest_sequence s) ∅ ∅ (map snd (in_key_order (sd_answers s))) /\
  Forall wf_answer (map snd (in_key_order (sd_answers s))).
Proof.
  intros Hs Hwf.
  assert (forall q a, (q, a) ∈ in_key_order (sd_answers s) -> exists e, e ∈ events /\
    ev_question_id e = q /\ ev_kind e = kind_upsert /\ a = answer_of e (digest_of e)) as Hin.
  { intros q a H. unfold in_key_order in H. rewrite merge_sort_Permutation in H.
    apply elem_of_map_to_list in H. rewrite (so_answers _ _ Hs) in H. by apply answer_in_event. }
  assert (NoDup (map fst (in_key_order (sd_answers s)))) as Hnd.
  { unfold in_key_order. rewrite merge_sort_Permutation. apply NoDup_fst_map_to_list. }
  split; [split_and!|].
  - apply Forall_map, Forall_forall. intros [q a] H. cbn.
    destruct (Hin q a H) as (e & He & Hq & Hk & ->).
    destruct (answer_of_valid _ _ e Hs Hwf He Hk) as [Hv _].
    pose proof (session_events_in _ _ _ Hs He). rewrite (so_highest _ _ Hs).
    split_and!; [done|cbn; lia|apply not_elem_of_empty|apply not_elem_of_empty].
  - rewrite map_map. rewrite (map_ext_in _ fst); [done|]. intros [q a] H. cbn.
    apply list_elem_of_In, Hin in H as (e & _ & <- & _ & ->). done.
  - rewrite map_map. apply NoDup_fmap_2_strong; [|by eapply NoDup_fmap_1].
    intros [q a] [q' a'] H H' E. cbn in E.
    destruct (Hin q a H) as (e & He & <- & Hk & ->), (Hin q' a' H') as (e' & He' & <- & Hk' & ->).
    cbn in E. by rewrite (session_event_sequence_inj _ _ e e' Hs He He' E).
  - apply Forall_map, Forall_forall. intros [q a] H. cbn.
    destruct (Hin q a H) as (e & He & Hq & Hk & ->).
    by destruct (answer_of_valid _ _ e Hs Hwf He Hk) as [_ Hw].
Qed.

Lemma sha256_length m d : sha256 m = Some d -> length d = 32%nat.
Proof. intros H. by destruct (sha256_bytes_of m d H) as [? _]. Qed.

(** The log of a run whose journal is open. *)
Lemma open_log ops :
  Forall typed_op ops -> jn_open (w_journal (journal_run ops)) = true ->
  exists log, w_file (journal_run ops) = Some (journal_file log) /\
    w_accepted (journal_run ops) `sublist_of` log /\ Forall wf_event log /\
    jn_event_count (w_journal (journal_run ops)) = len log /\
    sessions_of log (jn_sessions (w_journal (journal_run ops))).
Proof.
  intros Hops Hopen. destruct (run_log sha256_length ops Hops) as (log & tail & sessions & Hw).
  destruct (wl_open _ _ _ _ Hw Hopen) as (-> & Hs & Hc & Hne).
  exists log. pose proof (wl_file _ _ _ _ Hw) as Hf. rewrite app_nil_r in Hf.
  destruct (w_file (journal_run ops)) as [f|]; [|done]. cbn in Hf. unfold id in Hf. subst f.
  split_and!; try apply Hw; [done|done|]. rewrite Hs.
  eapply replay_sessions_of; apply Hw.
Qed.

Lemma request_key_identity log sessions request s :
  sessions_of log sessions -> Forall wf_event log -> wf_request request ->
  sessions !! request_key request = Some s ->
  session_of (events_of (request_key request) log) s /\
  events_of (request_key request) log <> [] /\
  sd_package_id s = sr_package_id request /\ sd_package_digest s = sr_package_digest request /\
  sd_client_id s = sr_client_id request /\ sd_session_id s = sr_session_id request.
Proof.
  intros Hs Hwf (_ & _ & _ & _ & R1 & R2 & R3) Hl. specialize (Hs (request_key request)).
  rewrite Hl in Hs. destruct Hs as [Hne Hs]. do 2 (split; [done|]).
  pose proof (so_identity _ _ Hs) as Hid.
  destruct (events_of (request_key request) log) as [|e es] eqn:Ee; [done|].
  apply Forall_cons in Hid as [(<- & <- & <- & <-) _].
  assert (e ∈ events_of (request_key request) log) as Hin by (rewrite Ee; by left).
  apply list_elem_of_filter in Hin as [Hk Hin]. rewrite Forall_forall in Hwf.
  destruct (Hwf e Hin) as (_ & D & C & I & _). by apply session_key_inj.
Qed.

Lemma last_digest_facts events :
  Forall wf_event events -> length (last_digest events) = 32%nat /\
  (events <> [] -> all_zero (last_digest events) = false).
Proof.
  intros Hwf. unfold last_digest. destruct (last events) as [e|] eqn:E.
  - apply last_Some_elem_of in E. rewrite Forall_forall in Hwf.
    destruct (wf_event_hash e (Hwf e E)) as (_ & Hl & Hz). done.
  - split; [apply zero_digest_zero|]. by apply last_None in E.
Qed.

(** What [state] reports when a session is found, and when it is not. *)
Definition session_response (s : SessionData) : StateResponse :=
  mkStateResponse (sd_package_id s) (sd_package_digest s) (sd_client_id s) (sd_session_id s)
    (sd_candidate_id s) (sd_highest_sequence s) (sd_finalized s) (state_hash s) (sd_last_hash s)
    0 1 (map snd (in_key_order (sd_answers s))).

Definition sendable (r : StateResponse) : Prop :=
  typed_response r /\ valid_state_response_metadata r = true /\
  answers_ok (sp_highest_contiguous_sequence r) ∅ ∅ (sp_answers r).

Lemma request_metadata (p d c i cand h l : bytes) (n : Z) (f : bool) (answers : list AnswerState) :
  valid_text p kMaximumPackageIdBytes false = true ->
  valid_text cand kMaximumCandidateIdBytes false = true -> all_zero d = false ->
  valid_identity c i = true -> len answers <= kMaximumStateEntries ->
  (n = 0 -> all_zero l = true) -> (n <> 0 -> all_zero h = false /\ all_zero l = false) ->
  valid_state_response_metadata (mkStateResponse p d c i cand n f h l 0 1 answers) = true.
Proof.
  intros T1 T2 Hd Hid Hn H0 H1. unfold valid_state_response_metadata,
    valid_state_response_identity. cbn. rewrite T1, T2, Hd, Hid. cbn [negb andb].
  destruct (Z.leb_spec (len answers) kMaximumStateEntries); [|lia].
  change (negb ((1 <=? kMaximumStateChunks) && (0 <? 1) && true)) with false. cbv iota.
  destruct (Z.eqb_spec n 0) as [E|E]; [by apply H0|]. by destruct (H1 E) as [-> ->].
Qed.

Lemma session_sendable events s request :
  session_of events s -> Forall wf_event events -> events <> [] -> wf_request request ->
  sd_candidate_id s = sr_candidate_id request ->
  sd_package_id s = sr_package_id request /\ sd_package_digest s = sr_package_digest request /\
  sd_client_id s = sr_client_id request /\ sd_session_id s = sr_session_id request ->
  sendable (session_response s).
Proof.
  intros Hs Hwf Hne (T1 & T2 & Hd & Hid & L1 & L2 & L3) Hc (E1 & E2 & E3 & E4).
  destruct (reported_answers_ok _ _ Hs Hwf) as [Hok Hwa].
  destruct (state_hash_facts s) as [Sl Sz].
  destruct (last_digest_facts events Hwf) as [Ll Lz]. specialize (Lz Hne).
  rewrite <- (so_last _ _ Hs) in Ll, Lz. pose proof (so_highest _ _ Hs) as Hh.
  pose proof (so_bound _ _ Hs) as Hb. pose proof (len_nonneg events) as Hpos.
  assert (sd_highest_sequence s <> 0) as Hn0.
  { rewrite Hh. destruct events; [done|]. rewrite len_cons. pose proof (len_nonneg events). lia. }
  assert (len (map snd (in_key_order (sd_answers s))) <= kMaximumStateEntries) as Hlen.
  { pose proof (so_quota _ _ Hs) as Hq. unfold len. rewrite length_map. unfold in_key_order.
    rewrite merge_sort_Permutation. by rewrite length_map_to_list. }
  unfold session_response. rewrite E1, E2, E3, E4, Hc.
  split_and!; [unfold typed_response; cbn|by apply request_metadata|exact Hok].
  assert (u64 (sd_highest_sequence s) /\ u16 0 /\ u16 1) as (U1 & U2 & U3) by (split_and!; ulia).
  do 8 (split; [done|]). eapply Forall_impl; [exact Hwa|]. by intros a (_ & ? & ? & ?).
Qed.

Lemma empty_sendable request :
  wf_request request ->
  sendable (mkStateResponse (sr_package_id request) (sr_package_digest request)
    (sr_client_id request) (sr_session_id request) (sr_candidate_id request)
    0 false zero_digest zero_digest 0 1 []).
Proof.
  intros (T1 & T2 & Hd & Hid & L1 & L2 & L3). destruct zero_digest_zero as [Zz Zl].
  assert (u64 0 /\ u16 0 /\ u16 1) as (U1 & U2 & U3) by (split_and!; ulia).
  split_and!; [unfold typed_response; cbn; by split_and!| |apply answers_ok_nil].
  by apply request_metadata.
Qed.

Lemma session_sequence_at events s (i : nat) e :
  session_of events s -> events !! i = Some e -> ev_sequence e = Z.of_nat i + 1.
Proof.
  intros Hs Hi. assert (map ev_sequence events !! i = Some (ev_sequence e)) as H
    by (by rewrite list_lookup_fmap, Hi).
  rewrite (so_sequences _ _ Hs), lookup_seqZ in H. lia.
Qed.

(** A session holding an event of the log. *)
Lemma logged_session (log : list AnswerEvent) (sessions : gmap bytes SessionData) (e : AnswerEvent) :
  sessions_of log sessions -> e ∈ log ->
  exists s, sessions !! event_key e = Some s /\ session_of (events_of (event_key e) log) s /\
    e ∈ events_of (event_key e) log /\ sd_candidate_id s = ev_candidate_id e /\
    sd_session_id s = ev_session_id e /\ sd_event_hashes s !! ev_sequence e = Some (digest_of e) /\
    1 <= ev_sequence e <= sd_highest_sequence s.
Proof.
  intros Hs He. specialize (Hs (event_key e)).
  assert (e ∈ events_of (event_key e) log) as Hin by (by apply list_elem_of_filter).
  destruct (sessions !! event_key e) as [s|]; [|by rewrite Hs in Hin; apply not_elem_of_nil in Hin].
  destruct Hs as [_ Hs]. exists s. pose proof (session_events_in _ _ _ Hs Hin) as Hseq.
  pose proof (so_candidate _ _ Hs) as Hc. pose proof (so_identity _ _ Hs) as Hid.
  rewrite Forall_forall in Hc. rewrite Forall_forall in Hid.
  destruct (Hid e Hin) as (_ & _ & _ & Hsid). split_and!; try done; try (by rewrite (Hc e Hin)).
  - rewrite (so_hashes _ _ Hs). apply list_elem_of_lookup in Hin as [i Hi].
    pose proof (session_sequence_at _ _ _ _ Hs Hi) as Hat.
    rewrite bool_decide_eq_true_2 by lia. by replace (Z.to_nat (ev_sequence e - 1)) with i by lia; rewrite Hi.
  - lia.
  - rewrite (so_highest _ _ Hs). lia.
Qed.


(** The acknowledgement of an event the session has. *)
Lemma make_ack_wf (log : list AnswerEvent) (sessions : gmap bytes SessionData) (e : AnswerEvent)
    (s : SessionData) (now : Z) (same : bool) :
  sessions_of log sessions -> e ∈ log -> sessions !! event_key e = Some s -> wf_event e ->
  0 < now <= u64_max ->
  wf_ack (make_ack s (if same then ack_duplicate else ack_conflict) (ev_sequence e)
    (digest_of e) now).
Proof.
  intros Hs He Hl Hwf Hnow.
  destruct (logged_session _ _ _ Hs He) as (s' & Hl' & Hof & _ & _ & Hsid & _ & Hseq).
  assert (s' = s) as -> by congruence. destruct (wf_event_hash e Hwf) as (_ & Hd & Hdz).
  destruct (state_hash_facts s) as [Sl Sz]. pose proof (so_highest _ _ Hof) as Hh.
  pose proof (so_bound _ _ Hof) as Hb. destruct Hwf as (Hv & _ & _ & Hsl & _).
  assert (all_zero (ev_session_id e) = false) as Hz.
  { unfold validate_answer_event, valid_identity in Hv. bool_to_prop. done. }
  unfold wf_ack, make_ack. cbn. rewrite Hsid. split_and!; try done; try ulia.
  unfold valid_ack_shape. cbn. rewrite Hz.
  destruct (Z.eqb_spec now 0); [lia|]. destruct (Z.eqb_spec (ev_sequence e) 0); [lia|].
  destruct same; [|done]. rewrite Hdz, Sz. change (valid_ack_status ack_duplicate) with true.
  change (ack_duplicate =? ack_accepted) with false. rewrite Z.eqb_refl. cbn.
  rewrite !andb_true_r. lia.
Qed.

Lemma events_of_wf (key : bytes) (log : list AnswerEvent) :
  Forall wf_event log -> Forall wf_event (events_of key log).
Proof.
  rewrite !Forall_forall. intros H e He. apply list_elem_of_filter in He as [_ He]. by apply H.
Qed.

(** The state request that asks for the session of an event. *)
Lemma reported_session (log : list AnswerEvent) (sessions : gmap bytes SessionData)
    (j : Journal) (request : StateRequest) (r : StateResponse) :
  sessions_of log sessions -> Forall wf_event log -> jn_sessions j = sessions ->
  wf_request request -> state j request = Ok r ->
  let events := events_of (request_key request) log in
  sendable r /\ sp_highest_contiguous_sequence r = len events /\
  sp_last_event_hash r = last_digest events /\
  sp_finalized r = match last events with Some e => ev_kind e =? kind_finalize | None => false end /\
  (forall a, a ∈ sp_answers r <-> exists q, answer_in events q = Some a).
Proof.
  intros Hs Hwf Hj Hreq. unfold state. destruct (negb (jn_open j)); [done|].
  case_bool_decide; [done|]. rewrite Hj. intros Hr.
  destruct (sessions !! request_key request) as [s|] eqn:El.
  - destruct (request_key_identity _ _ _ _ Hs Hwf Hreq El) as (Hof & Hne & Hid).
    destruct (negb _) eqn:Ec; [done|]. bool_to_prop. injection Hr as <-.
    cbv zeta. split_and!.
    + eapply session_sendable; try done. by apply events_of_wf.
    + by apply so_highest.
    + by apply so_last.
    + by apply so_finalized.
    + by apply reported_answers.
  - injection Hr as <-. specialize (Hs (request_key request)). rewrite El in Hs. cbv zeta.
    rewrite Hs. split_and!; [by apply empty_sendable|done..|]. cbn. intros a. split.
    + by intros ?%not_elem_of_nil.
    + by intros [q Hq].
Qed.

(** What [append] makes of an event at a sequence the session already has. *)
Lemma append_known (log : list AnswerEvent) (sessions : gmap bytes SessionData)
    (j : Journal) (file : bytes) (e e' : AnswerEvent) (sk : bool) (calls : AppendCalls) (now : Z) :
  sessions_of log sessions -> jn_sessions j = sessions -> jn_open j = true -> e ∈ log ->
  wf_event e' -> event_key e' = event_key e -> ev_sequence e' = ev_sequence e ->
  ev_candidate_id e' = ev_candidate_id e ->
  exists s : SessionData, sessions !! event_key e = Some s /\
    append j file e' sk calls now =
      (if bool_decide (digest_of e = digest_of e')
       then mkOutcome st_duplicate (make_ack s ack_duplicate (ev_sequence e) (digest_of e) now)
       else mkOutcome st_conflict (make_ack s ack_conflict (ev_sequence e) (digest_of e) now),
       j, file).
Proof.
  intros Hs Hj Ho He He' Hk Hq Hc.
  destruct (logged_session _ _ _ Hs He) as (s & Hl & _ & _ & Hcand & _ & Hhash & _).
  exists s. split; [done|]. destruct (wf_event_hash e' He') as (Hh & _).
  destruct He' as (Hv & _). unfold append. rewrite Ho, Hv, Hh, Hk, Hj, Hl. cbn [negb].
  rewrite (bool_decide_eq_false_2 (Some s = None)) by done. cbn [andb default from_option].
  unfold id, refuse. rewrite Hcand, Hc, bool_decide_eq_true_2 by done. cbn [negb].
  rewrite Hq, Hhash. unfold same_digest. rewrite insert_id by done. rewrite <- Hj.
  destruct j. by destruct (bool_decide (digest_of e = digest_of e')).
Qed.

(** What an open journal reports is what its log says, after any run of
    appends, whatever the storage did, and any reopenings: the state of a session
    is the number, the last digest and the finality of the session's events, its
    answers are for each question the last upsert not cleared since, and the
    response satisfies everything the encoder demands.  The session's events are
    numbered 1, 2, ... and each names the digest of the one before. *)
Theorem reported_state (ops : list JournalOp) (request : StateRequest) (r : StateResponse) :
  Forall typed_op ops -> wf_request request ->
  state (w_journal (journal_run ops)) request = Ok r ->
  exists log : list AnswerEvent,
    w_file (journal_run ops) = Some (journal_file log) /\
    w_accepted (journal_run ops) `sublist_of` log /\
    let events := events_of (request_key request) log in
    map ev_sequence events = seqZ 1 (len events) /\ chained zero_digest events /\
    sendable r /\ sp_highest_contiguous_sequence r = len events /\
    sp_last_event_hash r = last_digest events /\
    sp_finalized r = match last events with Some e => ev_kind e =? kind_finalize | None => false end /\
    (forall a, a ∈ sp_answers r <-> exists q, answer_in events q = Some a).
Proof.
  intros Hops Hreq Hr.
  assert (jn_open (w_journal (journal_run ops)) = true) as Ho.
  { unfold state in Hr. by destruct (jn_open _). }
  destruct (open_log ops Hops Ho) as (log & Hf & Hacc & Hwf & _ & Hs).
  exists log. do 2 (split; [done|]). cbv zeta.
  pose proof (Hs (request_key request)) as Hkey.
  assert (map ev_sequence (events_of (request_key request) log) =
    seqZ 1 (len (events_of (request_key request) log)) /\
    chained zero_digest (events_of (request_key request) log)) as [Hseq Hch].
  { destruct (jn_sessions _ !! request_key request) as [s|]; [|by rewrite Hkey].
    destruct Hkey as [_ Hkey]. split; [by eapply so_sequences|by eapply so_chain]. }
  do 2 (split; [done|]). by eapply reported_session.
Qed.

(** C27. Retries are harmless.  When an accepted event comes again while the
    journal is open, after any number of failures and restarts, nothing is
    written, and the acknowledgement is well formed, says duplicate and carries
    the event's own digest; an event with other contents for the same sequence is
    a conflict, answered with the digest of the accepted one. *)
Theorem retried_event (ops : list JournalOp) (e e' : AnswerEvent) (sk : bool)
    (calls : AppendCalls) (now : Z) :
  Forall typed_op ops -> jn_open (w_journal (journal_run ops)) = true ->
  e ∈ w_accepted (journal_run ops) ->
  wf_event e' -> event_key e' = event_key e -> ev_sequence e' = ev_sequence e ->
  ev_candidate_id e' = ev_candidate_id e -> 0 < now <= u64_max ->
  exists file ack, w_file (journal_run ops) = Some file /\
    append (w_journal (journal_run ops)) file e' sk calls now =
      (mkOutcome (if bool_decide (digest_of e = digest_of e') then st_duplicate else st_conflict)
         ack, w_journal (journal_run ops), file) /\
    wf_ack ack /\ ak_sequence ack = ev_sequence e /\ ak_event_hash ack = digest_of e /\
    ak_status ack = (if bool_decide (digest_of e = digest_of e') then ack_duplicate else ack_conflict).
Proof.
  intros Hops Ho Hin He' Hk Hq Hc Hnow.
  destruct (open_log ops Hops Ho) as (log & Hf & Hacc & Hwf & _ & Hs).
  assert (e ∈ log) as He by (by eapply elem_of_sublist).
  destruct (append_known _ _ _ (journal_file log) e e' sk calls now Hs eq_refl Ho He He' Hk Hq Hc)
    as (s & Hl & Happ).
  eexists _, (make_ack s (if bool_decide (digest_of e = digest_of e') then ack_duplicate
    else ack_conflict) (ev_sequence e) (digest_of e) now).
  split; [done|]. split; [rewrite Happ; by case_bool_decide|]. split; [|done].
  rewrite Forall_forall in Hwf. apply (make_ack_wf log (jn_sessions (w_journal (journal_run ops)))); auto.
Qed.
End Reports.

(** ** Crashes *)

(** Reopening when every call succeeds. *)
Definition good_open : OpenCalls := mkOpenCalls true true true true true true true.

Lemma reopen_succeeds (w : World) (log : list AnswerEvent) (tail : bytes)
    (sessions : gmap bytes SessionData) :
  (forall m d, sha256 m = Some d -> length d = 32%nat) -> world_log w log tail sessions ->
  exists recovered_tail, open_journal good_open (w_journal w) (w_file w) =
    (mkJournal true recovered_tail (len log) sessions, Some (journal_file log)).
Proof.
  intros Hsha Hw. destruct Hw as [Hfile Htail Hsize Hwf Hreplay Hacc Hsub Hopen].
  unfold open_journal. cbn. rewrite andb_false_r.
  destruct (len _ >? kMaximumJournalBytes) eqn:E; bool_to_prop; [lia|]. clear E.
  rewrite Hfile, recover_file with (sessions := sessions) by done. cbn.
  destruct (decide (tail = [])) as [->|Ht].
  - rewrite bool_decide_eq_true_2 by done. cbn. rewrite app_nil_r. by eexists.
  - rewrite (bool_decide_eq_false_2 (tail = [])) by done. cbn.
    assert (len (journal_file log) <? len (journal_file log ++ tail) = true) as ->.
    { rewrite len_app. destruct tail; [done|]. rewrite len_cons. pose proof (len_nonneg tail). lia. }
    rewrite take_app_length' by (unfold len; lia). by eexists.
Qed.

(** C2. No crash loses an accepted event or stops the service.  After any run of
    appends, whatever each system call does (a write may stop anywhere, the
    rollback may fail), and of reopenings, there is one log of submitted events,
    with every accepted event in it in order; an open journal is exactly the
    replay of that log and its file exactly the log's records; and reopening
    with calls that succeed always does, giving the same sessions and cutting
    what an interrupted append left. *)
Theorem journal_survives_crashes (ops : list JournalOp) :
  (forall m d, sha256 m = Some d -> length d = 32%nat) -> Forall typed_op ops ->
  let w := journal_run ops in
  exists (log : list AnswerEvent) (sessions : gmap bytes SessionData),
    w_accepted w `sublist_of` log /\ (forall e, e ∈ log -> e ∈ w_submitted w) /\
    replay ∅ log = Some sessions /\
    (jn_open (w_journal w) = true ->
     jn_sessions (w_journal w) = sessions /\ jn_event_count (w_journal w) = len log /\
     w_file w = Some (journal_file log)) /\
    exists recovered_tail, open_journal good_open (w_journal w) (w_file w) =
      (mkJournal true recovered_tail (len log) sessions, Some (journal_file log)).
Proof.
  intros Hsha Hops w. destruct (run_log Hsha ops Hops) as (log & tail & sessions & Hw).
  exists log, sessions. split_and!; try apply Hw; [|by eapply reopen_succeeds].
  intros Ho. destruct (wl_open _ _ _ _ Hw Ho) as (-> & Hs & Hc & Hne).
  pose proof (wl_file _ _ _ _ Hw) as Hf. rewrite app_nil_r in Hf.
  do 2 (split; [done|]). subst w. destruct (w_file (journal_run ops)) as [f|]; [|done].
  cbn in Hf. unfold id in Hf. by subst f.
Qed.
End Journal.


(** ** A concrete run

    A constant digest stands for SHA-256: two events, the second one cut off in
    the middle of its record with the rollback failing too, then a reopening. *)

Definition constant_digest (m : bytes) : option bytes := Some (replicate 32 Byte.x07).

Definition sample_event (question : string) (sequence : Z) (previous : bytes) : AnswerEvent :=
  mkAnswerEvent (text "pkg") (replicate 32 Byte.x01) (replicate 16 Byte.x02)
    (replicate 16 Byte.x03) (text "cand") (text question) 1 sequence 5 kind_upsert (text "A")
    previous.

Definition first_event : AnswerEvent := sample_event "q1" 1 zero_digest.
Definition second_event : AnswerEvent := sample_event "q2" 2 (replicate 32 Byte.x07).

Definition good_append : AppendCalls :=
  mkAppendCalls true true true true true (fun _ => Some 4096) true true.
Definition torn_append : AppendCalls :=
  mkAppendCalls true true true true true (fun offset => if offset =? 0 then Some 100 else None)
    true false.

Definition sample_ops : list JournalOp :=
  [OpReopen good_open; OpAppend first_event true good_append 9;
   OpAppend second_event true torn_append 10; OpReopen good_open].

Definition sample_request : StateRequest :=
  mkStateRequest (text "pkg") (replicate 32 Byte.x01) (replicate 16 Byte.x02)
    (replicate 16 Byte.x03) (text "cand").

Lemma sample_event_typed question sequence previous :
  u64 sequence -> length previous = 32%nat -> typed_event (sample_event question sequence previous).
Proof. intros Hs Hp. assert (u32 1 /\ u64 5) as [? ?] by (split; ulia). by split_and!. Qed.

Lemma sample_ops_typed : Forall typed_op sample_ops.
Proof.
  assert (u64 1 /\ u64 2) as [? ?] by (split; ulia).
  repeat (apply Forall_cons; split); try apply Forall_nil_2; try exact I;
    by apply sample_event_typed.
Qed.

Lemma constant_digest_ok (m : bytes) :
  exists d, constant_digest m = Some d /\ length d = 32%nat /\ all_zero d = false.
Proof. by eexists. Qed.

Lemma journal_survives_crashes_witness :
  w_accepted (journal_run constant_digest sample_ops) = [first_event] /\
  exists log, first_event ∈ log /\
    exists tail sessions, open_journal constant_digest good_open
      (w_journal (journal_run constant_digest sample_ops))
      (w_file (journal_run constant_digest sample_ops)) =
      (mkJournal true tail (len log) sessions, Some (journal_file constant_digest log)).
Proof.
  assert (w_accepted (journal_run constant_digest sample_ops) = [first_event]) as Hacc
    by (vm_compute; reflexivity).
  split; [exact Hacc|].
  destruct (journal_survives_crashes constant_digest sample_ops)
    as (log & sessions & Hsub & _ & _ & _ & tail & Hopen).
  - intros m d [= <-]. done.
  - apply sample_ops_typed.
  - exists log. split; [|by exists tail, sessions].
    rewrite Hacc in Hsub. eapply elem_of_submseteq; [|by apply sublist_submseteq]. by left.
Defined.

Lemma reported_state_witness :
  exists r, state constant_digest (w_journal (journal_run constant_digest sample_ops))
    sample_request = Ok r /\ sp_highest_contiguous_sequence r = 1 /\ sendable r.
Proof.
  assert (exists r, state constant_digest (w_journal (journal_run constant_digest sample_ops))
    sample_request = Ok r /\ sp_highest_contiguous_sequence r = 1) as (r & Hr & Hh)
    by (eexists; split; vm_compute; reflexivity).
  exists r. do 2 (split; [done|]).
  destruct (reported_state constant_digest constant_digest_ok sample_ops sample_request r)
    as (log & _ & _ & _ & _ & Hs & _);
    [apply sample_ops_typed|by split_and!|exact Hr|exact Hs].
Defined.

Lemma retried_event_witness :
  exists file ack, append constant_digest (w_journal (journal_run constant_digest sample_ops)) file
    first_event true good_append 20 =
    (mkOutcome st_duplicate ack, w_journal (journal_run constant_digest sample_ops), file).
Proof.
  destruct (retried_event constant_digest constant_digest_ok sample_ops first_event first_event
    true good_append 20) as (file & ack & _ & Happ & _); try reflexivity.
  - apply sample_ops_typed.
  - assert (w_accepted (journal_run constant_digest sample_ops) = [first_event]) as ->
      by (vm_compute; reflexivity). by left.
  - split; [reflexivity|]. apply sample_event_typed; [ulia|reflexivity].
  - ulia.
  - exists file, ack. by rewrite bool_decide_eq_true_2 in Happ.
Defined.

End AnswerJournal.
