(* ===== verification/AnswerOutbox.v ===== *)
(** The client's answer outbox (common/src/answer_journal.cpp, AnswerOutbox):
    the events not yet acknowledged by the server and, per session, a watermark
    of what was queued and acknowledged.  Every change is written to an encrypted
    file before it takes effect.  The machine-secret encryption (DPAPI), SHA-256
    and the outcomes of the file-system calls are parameters. *)

From S2P Require Import Prelude Wire Codec Protocol Auth ExamSync AnswerJournal.
Import ReaderNotations Protocol.
#[local] Open Scope nstu_scope.

Module AnswerOutbox.
Import ExamSync AnswerJournal.

(** ** Constants *)

Definition kOutboxMagic : Z := 0x3158424f.
Definition kEncryptedOutboxMagic : Z := 0x31424f45.
Definition kOutboxVersion : Z := 4.
Definition kOutboxWatermarkVersion : Z := 2.
Definition kOutboxAcknowledgementVersion : Z := 3.
Definition kOutboxFinalizationVersion : Z := 4.
Definition kOutboxLegacyVersion : Z := 1.
Definition kMaximumOutboxEvents : Z := 512.
Definition kMaximumOutboxBytes : Z := 8 * 1024 * 1024.
Definition kMaximumOutboxWatermarks : Z := 4096.
Definition kMaximumStoredOutboxBytes : Z := kMaximumOutboxBytes + 64 * 1024.

(** The error string is left empty. *)
Definition no_message : string := EmptyString.

(** ** State *)

Record OutboxWatermark := mkWatermark {
  wm_package_id : bytes;
  wm_package_digest : bytes;
  wm_client_id : bytes;
  wm_session_id : bytes;
  wm_candidate_id : bytes;
  wm_highest_sequence : Z;
  wm_last_hash : bytes;
  wm_acknowledged_sequence : Z;
  wm_acknowledged_hash : bytes;
  wm_finalized : bool
}.

Definition valid_watermark (w : OutboxWatermark) : bool :=
  negb (bool_decide (wm_package_id w = [])) &&
  (len (wm_package_id w) <=? kMaximumPackageIdBytes) &&
  negb (bool_decide (wm_candidate_id w = [])) &&
  (len (wm_candidate_id w) <=? kMaximumCandidateIdBytes) &&
  negb (all_zero (wm_package_digest w)) && negb (all_zero (wm_client_id w)) &&
  negb (all_zero (wm_session_id w)) && negb (wm_highest_sequence w =? 0) &&
  negb (all_zero (wm_last_hash w)) &&
  (wm_acknowledged_sequence w <=? wm_highest_sequence w) &&
  (if wm_acknowledged_sequence w =? 0 then all_zero (wm_acknowledged_hash w)
   else negb (all_zero (wm_acknowledged_hash w))).

Definition watermark_key (w : OutboxWatermark) : bytes :=
  session_key (wm_package_id w) (wm_package_digest w) (wm_client_id w) (wm_session_id w).

Abbreviation Watermarks := (gmap bytes OutboxWatermark).

Record Outbox := mkOutbox {
  ob_open : bool;
  ob_events : list AnswerEvent;
  ob_watermarks : Watermarks
}.

Definition set_top (w : OutboxWatermark) (highest : Z) (last_hash : bytes) (finalized : bool)
    : OutboxWatermark :=
  mkWatermark (wm_package_id w) (wm_package_digest w) (wm_client_id w) (wm_session_id w)
    (wm_candidate_id w) highest last_hash (wm_acknowledged_sequence w)
    (wm_acknowledged_hash w) finalized.

Definition set_acknowledged (w : OutboxWatermark) (sequence : Z) (hash : bytes)
    : OutboxWatermark :=
  mkWatermark (wm_package_id w) (wm_package_digest w) (wm_client_id w) (wm_session_id w)
    (wm_candidate_id w) (wm_highest_sequence w) (wm_last_hash w) sequence hash
    (wm_finalized w).

Definition watermark_for (event : AnswerEvent) (event_hash : bytes) (highest_sequence : Z)
    : OutboxWatermark :=
  mkWatermark (ev_package_id event) (ev_package_digest event) (ev_client_id event)
    (ev_session_id event) (ev_candidate_id event) highest_sequence event_hash 0 zero_digest
    (ev_kind event =? kind_finalize).

Definition same_watermark_context (w : OutboxWatermark) (event : AnswerEvent) : bool :=
  bool_decide (wm_package_id w = ev_package_id event) &&
  bool_decide (wm_package_digest w = ev_package_digest event) &&
  bool_decide (wm_client_id w = ev_client_id event) &&
  bool_decide (wm_session_id w = ev_session_id event) &&
  bool_decide (wm_candidate_id w = ev_candidate_id event).

Definition same_event_body_except_predecessor (left right : AnswerEvent) : bool :=
  bool_decide (ev_package_id left = ev_package_id right) &&
  bool_decide (ev_package_digest left = ev_package_digest right) &&
  bool_decide (ev_client_id left = ev_client_id right) &&
  bool_decide (ev_session_id left = ev_session_id right) &&
  bool_decide (ev_candidate_id left = ev_candidate_id right) &&
  bool_decide (ev_question_id left = ev_question_id right) &&
  (ev_question_revision left =? ev_question_revision right) &&
  (ev_sequence left =? ev_sequence right) &&
  (ev_client_time left =? ev_client_time right) &&
  (ev_kind left =? ev_kind right) && bool_decide (ev_answer left = ev_answer right).

Definition set_previous (event : AnswerEvent) (hash : bytes) : AnswerEvent :=
  mkAnswerEvent (ev_package_id event) (ev_package_digest event) (ev_client_id event)
    (ev_session_id event) (ev_candidate_id event) (ev_question_id event)
    (ev_question_revision event) (ev_sequence event) (ev_client_time event) (ev_kind event)
    (ev_answer event) hash.

(** ** The file format *)

Definition append_bounded_string (value : bytes) (maximum : Z) : option bytes :=
  if bool_decide (value = []) || (len value >? maximum) || (len value >? u16_max) then None
  else Some (write_le 2 (len value) ++ value).

Definition read_bounded_string (maximum : Z) : reader bytes :=
  length <- read_le 2 ;;
  guard (negb (length =? 0) && (length <=? maximum)) ;;
  value <- read_bytes (Z.to_nat length) ;;
  guard (bool_decide (Byte.x00 ∉ value)) ;;
  rret value.

Definition watermark_wire (w : OutboxWatermark) : option bytes :=
  if negb (valid_watermark w) then None
  else
    match append_bounded_string (wm_package_id w) kMaximumPackageIdBytes,
          append_bounded_string (wm_candidate_id w) kMaximumCandidateIdBytes with
    | Some package, Some candidate =>
        Some (package ++ candidate ++ wm_package_digest w ++ wm_client_id w ++
              wm_session_id w ++ write_le 8 (wm_highest_sequence w) ++ wm_last_hash w ++
              write_le 8 (wm_acknowledged_sequence w) ++ wm_acknowledged_hash w ++
              write_le 1 (if wm_finalized w then 1 else 0))
    | _, _ => None
    end.

Definition event_wire (event : AnswerEvent) : option bytes :=
  let payload := encode_answer_event event in
  if bool_decide (payload = []) || (len payload >? kMaximumWireBytes) then None
  else Some (write_le 4 (len payload) ++ payload).

Definition encode_outbox (events : list AnswerEvent) (watermarks : Watermarks) : bytes :=
  if (len events >? kMaximumOutboxEvents) ||
     (Z.of_nat (size watermarks) >? kMaximumOutboxWatermarks)
  then []
  else
    match mapM (fun kv => watermark_wire kv.2) (in_key_order watermarks),
          mapM event_wire events with
    | Some watermark_wires, Some event_wires =>
        let wire :=
          write_le 4 kOutboxMagic ++ write_le 2 kOutboxVersion ++ write_le 2 0 ++
          write_le 4 (len events) ++ write_le 4 (Z.of_nat (size watermarks)) ++
          concat watermark_wires ++ concat event_wires in
        if len wire <=? kMaximumOutboxBytes then wire else []
    | _, _ => []
    end.

(** ** Writing the file *)

(** The outcomes of the calls of one [write_outbox_file]; [wc_protect] is
    [protect_machine_secret], whose empty result is an error. *)
Record WriteCalls := mkWriteCalls {
  wc_protect : bytes -> result bytes;
  wc_directories : bool;
  wc_random : bool;
  wc_security : bool;
  wc_create : bool;
  wc_write : Z -> option Z;
  wc_flush : bool;
  wc_move : bool
}.

(** [write_all_file]: the new contents of the destination; on an error it keeps
    the old ones, since the move comes last. *)
Definition write_all_file (calls : WriteCalls) (contents : bytes) : result bytes :=
  if negb (wc_directories calls) then Err "journal directory creation failed"
  else if negb (wc_random calls) then Err "journal temporary name generation failed"
  else if negb (wc_security calls) then Err "journal security descriptor creation failed"
  else if negb (wc_create calls) then Err "journal temporary file creation failed"
  else
    let '(written, offset) := write_loop (wc_write calls) (length contents) contents 0 in
    if written && wc_flush calls && wc_move calls
    then Ok (take (Z.to_nat offset) contents)
    else Err "journal atomic write failed".

Definition protect_outbox_wire (calls : WriteCalls) (plaintext : bytes) : result bytes :=
  if bool_decide (plaintext = []) || (len plaintext >? kMaximumOutboxBytes) ||
     (len plaintext >? u32_max)
  then Err "outbox plaintext exceeds the configured quota"
  else
    match wc_protect calls plaintext with
    | Err error => Err error
    | Ok protected_blob =>
        if len protected_blob >? kMaximumStoredOutboxBytes - 12
        then Err "encrypted outbox exceeds the configured quota"
        else
          let wire :=
            write_le 4 kEncryptedOutboxMagic ++ write_le 2 1 ++ write_le 2 0 ++
            write_le 4 (len plaintext) ++ protected_blob in
          if len wire >? kMaximumStoredOutboxBytes
          then Err "encrypted outbox exceeds the configured quota"
          else Ok wire
    end.

Definition write_outbox_file (calls : WriteCalls) (plaintext : bytes) : result bytes :=
  match protect_outbox_wire calls plaintext with
  | Err error => Err error
  | Ok stored => write_all_file calls stored
  end.

(** Encode and write; an encoding that fails leaves no message. *)
Definition save (calls : WriteCalls) (events : list AnswerEvent) (watermarks : Watermarks)
    : result bytes :=
  let wire := encode_outbox events watermarks in
  if bool_decide (wire = []) then Err no_message else write_outbox_file calls wire.

Section Outbox.
Variable sha256 : bytes -> option bytes.
Variable unprotect : bytes -> result bytes.

(** ** Reading the file *)

Definition encrypted_header : reader Z :=
  magic <- read_le 4 ;;
  guard (magic =? kEncryptedOutboxMagic) ;;
  version <- read_le 2 ;;
  guard (version =? 1) ;;
  reserved <- read_le 2 ;;
  guard (reserved =? 0) ;;
  plaintext_size <- read_le 4 ;;
  guard (negb (plaintext_size =? 0) && (plaintext_size <=? kMaximumOutboxBytes)) ;;
  remaining <- rremaining ;;
  guard (0 <? remaining) ;;
  rret plaintext_size.

(** [unprotect_outbox_wire]; where it sets no error its caller supplies one. *)
Definition unprotect_outbox_wire (stored : bytes) : result bytes :=
  if (len stored <? 12) || (len stored >? kMaximumStoredOutboxBytes)
  then Err "encrypted outbox could not be opened"
  else
    match encrypted_header stored with
    | None => Err "encrypted outbox header is invalid"
    | Some (plaintext_size, protected_blob) =>
        match unprotect protected_blob with
        | Err _ => Err "encrypted outbox payload size is invalid"
        | Ok plaintext =>
            if len plaintext =? plaintext_size then Ok plaintext
            else Err "encrypted outbox payload size is invalid"
        end
    end.

Definition has_watermarks (version : Z) : bool := version >=? kOutboxWatermarkVersion.
Definition has_acknowledgement_boundary (version : Z) : bool :=
  version >=? kOutboxAcknowledgementVersion.
Definition has_finalization_marker (version : Z) : bool :=
  version >=? kOutboxFinalizationVersion.

Definition outbox_header : reader (Z * Z) :=
  magic <- read_le 4 ;;
  guard (magic =? kOutboxMagic) ;;
  version <- read_le 2 ;;
  guard ((kOutboxLegacyVersion <=? version) && (version <=? kOutboxVersion)) ;;
  reserved <- (if has_watermarks version then read_le 2 else rret 0) ;;
  guard (reserved =? 0) ;;
  count <- read_le 4 ;;
  guard (count <=? kMaximumOutboxEvents) ;;
  rret (version, count).

Definition watermark_count (version : Z) : ereader Z :=
  if has_watermarks version then
    orelse "outbox watermark header is invalid"
      (n <- read_le 4 ;; guard (n <=? kMaximumOutboxWatermarks) ;; rret n)
  else eret 0.

Definition watermark_base : reader OutboxWatermark :=
  package_id <- read_bounded_string kMaximumPackageIdBytes ;;
  candidate_id <- read_bounded_string kMaximumCandidateIdBytes ;;
  package_digest <- read_bytes 32 ;;
  client_id <- read_bytes 16 ;;
  session_id <- read_bytes 16 ;;
  highest_sequence <- read_le 8 ;;
  last_hash <- read_bytes 32 ;;
  rret (mkWatermark package_id package_digest client_id session_id candidate_id
          highest_sequence last_hash 0 zero_digest false).

Definition watermark_boundary (version : Z) : ereader (Z * bytes) :=
  if has_acknowledgement_boundary version then
    orelse "outbox acknowledgement watermark is invalid"
      (sequence <- read_le 8 ;; hash <- read_bytes 32 ;; rret (sequence, hash))
  else eret (0, zero_digest).

Definition watermark_finality (version : Z) : ereader bool :=
  if has_finalization_marker version then
    orelse "outbox finalization watermark is invalid"
      (finalized <- read_le 1 ;; guard (finalized <=? 1) ;; rret (negb (finalized =? 0)))
  else eret false.

Definition read_watermark (version : Z) : ereader OutboxWatermark :=
  base <~ orelse "outbox watermark is invalid" watermark_base ;;
  boundary <~ watermark_boundary version ;;
  finalized <~ watermark_finality version ;;
  let watermark := set_top (set_acknowledged base boundary.1 boundary.2)
    (wm_highest_sequence base) (wm_last_hash base) finalized in
  expect valid_watermark watermark else "outbox watermark is invalid" ;;
  eret watermark.

Fixpoint read_watermarks (count : nat) (version : Z) (watermarks : Watermarks)
    : ereader Watermarks :=
  match count with
  | O => eret watermarks
  | S count' =>
      watermark <~ read_watermark version ;;
      expect bool_decide (watermarks !! watermark_key watermark = None)
        else "outbox contains duplicate watermark" ;;
      read_watermarks count' version (<[watermark_key watermark := watermark]> watermarks)
  end.

Definition read_outbox_event : ereader AnswerEvent :=
  payload <~ orelse "outbox record is truncated"
    (event_bytes <- read_le 4 ;;
     guard (negb (event_bytes =? 0) && (event_bytes <=? kMaximumWireBytes)) ;;
     read_bytes (Z.to_nat event_bytes)) ;;
  match decode_answer_event payload with
  | Ok event => eret event
  | Err _ => fun _ => Err "outbox record is invalid"
  end.

(** An event of the file added to those before it. *)
Definition add_event (version : Z) (events : list AnswerEvent) (watermarks : Watermarks)
    (event : AnswerEvent) : result (list AnswerEvent * Watermarks) :=
  let key := event_key event in
  match hash_answer_event sha256 event with
  | None => Err "outbox contains a duplicate or invalid event"
  | Some event_hash =>
      if existsb (fun item => bool_decide (event_key item = key) &&
                              (ev_sequence item =? ev_sequence event)) events
      then Err "outbox contains a duplicate or invalid event"
      else
        match watermarks !! key with
        | None =>
            Ok (events ++ [event],
                <[key := watermark_for event event_hash (ev_sequence event)]> watermarks)
        | Some w =>
            if negb (same_watermark_context w event) ||
               (negb (version =? kOutboxLegacyVersion) &&
                (ev_sequence event >? wm_highest_sequence w))
            then Err "outbox event exceeds its watermark"
            else
              let w :=
                if (version =? kOutboxLegacyVersion) &&
                   (wm_highest_sequence w <? ev_sequence event)
                then set_top w (ev_sequence event) event_hash (wm_finalized w) else w in
              let w :=
                if negb (has_finalization_marker version) && (ev_kind event =? kind_finalize)
                then set_top w (wm_highest_sequence w) (wm_last_hash w) true else w in
              Ok (events ++ [event], <[key := w]> watermarks)
        end
  end.

Fixpoint read_events (count : nat) (version : Z) (events : list AnswerEvent)
    (watermarks : Watermarks) : ereader (list AnswerEvent * Watermarks) :=
  match count with
  | O => eret (events, watermarks)
  | S count' =>
      event <~ read_outbox_event ;;
      match add_event version events watermarks event with
      | Ok (events', watermarks') => read_events count' version events' watermarks'
      | Err error => fun _ => Err error
      end
  end.

(** *** The checks over each session *)

Definition sequence_le (x y : AnswerEvent) : Prop := ev_sequence x <= ev_sequence y.

#[export] Instance sequence_le_dec x y : Decision (sequence_le x y).
Proof. unfold sequence_le. apply _. Defined.

(** [pending_by_session]. *)
Definition pending_by_session (events : list AnswerEvent) : gmap bytes (list AnswerEvent) :=
  fold_left (fun m e => <[event_key e := default [] (m !! event_key e) ++ [e]]> m) events ∅.

(** [pending_finalized] after the loop, or [None] at an event after a finalization. *)
Fixpoint pending_finalized (finalized : bool) (pending : list AnswerEvent) : option bool :=
  match pending with
  | [] => Some finalized
  | event :: rest =>
      if finalized then None
      else pending_finalized ((ev_kind event =? kind_finalize) || finalized) rest
  end.

Fixpoint check_chain (previous : AnswerEvent) (rest : list AnswerEvent) : option string :=
  match rest with
  | [] => None
  | current :: rest' =>
      if (ev_sequence previous =? u64_max) ||
         negb (ev_sequence current =? wrap64 (ev_sequence previous + 1))
      then Some "outbox pending events are not contiguous"
      else
        match hash_answer_event sha256 previous with
        | None => Some "outbox pending hash chain is invalid"
        | Some previous_hash =>
            if negb (same_digest (ev_previous_event_hash current) previous_hash)
            then Some "outbox pending hash chain is invalid"
            else check_chain current rest'
        end
  end.

(** The finality marker of a session with pending events. *)
Definition settle_finality (version : Z) (saved : OutboxWatermark) (finalized : bool)
    : result OutboxWatermark :=
  if negb (has_finalization_marker version)
  then Ok (set_top saved (wm_highest_sequence saved) (wm_last_hash saved) finalized)
  else if finalized && negb (wm_finalized saved)
  then Err "outbox finalization marker is missing"
  else if wm_finalized saved && negb finalized
  then Err "outbox finalized watermark has pending events"
  else Ok saved.

(** The acknowledged boundary, inferred from the first pending event in the
    formats that do not have it. *)
Definition settle_boundary (version : Z) (saved : OutboxWatermark) (front : AnswerEvent)
    : OutboxWatermark :=
  if has_acknowledgement_boundary version then saved
  else if ev_sequence front =? 1 then set_acknowledged saved 0 zero_digest
  else set_acknowledged saved (wrap64 (ev_sequence front - 1)) (ev_previous_event_hash front).

Definition check_boundary (saved : OutboxWatermark) (front back : AnswerEvent)
    (rest : list AnswerEvent) : option string :=
  if negb (valid_watermark saved) then Some "outbox inferred watermark is invalid"
  else if (wm_acknowledged_sequence saved =? u64_max) ||
          negb (wrap64 (wm_acknowledged_sequence saved + 1) =? ev_sequence front)
  then Some "outbox pending sequence has a gap"
  else if (wm_acknowledged_sequence saved =? 0) &&
          negb (all_zero (ev_previous_event_hash front))
  then Some "outbox first event hash boundary is invalid"
  else if negb (wm_acknowledged_sequence saved =? 0) &&
          negb (same_digest (ev_previous_event_hash front) (wm_acknowledged_hash saved))
  then Some "outbox acknowledged hash boundary is invalid"
  else
    match check_chain front rest with
    | Some error => Some error
    | None =>
        match hash_answer_event sha256 back with
        | None => Some "outbox watermark does not match pending events"
        | Some last_hash =>
            if negb (ev_sequence back =? wm_highest_sequence saved) ||
               negb (same_digest (wm_last_hash saved) last_hash)
            then Some "outbox watermark does not match pending events"
            else None
        end
    end.

(** One session: its pending events, which are not empty, and its watermark. *)
Definition check_session (version : Z) (watermarks : Watermarks) (key : bytes)
    (events : list AnswerEvent) : result Watermarks :=
  let pending := merge_sort sequence_le events in
  match watermarks !! key, pending with
  | None, _ | _, [] => Err "outbox session watermark is missing"
  | Some saved, front :: rest =>
      match pending_finalized false pending with
      | None => Err "outbox contains an event after finalization"
      | Some finalized =>
          match settle_finality version saved finalized with
          | Err error => Err error
          | Ok saved =>
              let saved := settle_boundary version saved front in
              match check_boundary saved front (default front (last rest)) rest with
              | Some error => Err error
              | None => Ok (<[key := saved]> watermarks)
              end
          end
      end
  end.

Fixpoint check_sessions (version : Z) (watermarks : Watermarks)
    (sessions : list (bytes * list AnswerEvent)) : result Watermarks :=
  match sessions with
  | [] => Ok watermarks
  | (key, events) :: rest =>
      match check_session version watermarks key events with
      | Err error => Err error
      | Ok watermarks' => check_sessions version watermarks' rest
      end
  end.

(** The watermarks of sessions with nothing pending. *)
Definition settle_idle (version : Z) (saved : OutboxWatermark) : result OutboxWatermark :=
  if negb (wm_acknowledged_sequence saved =? wm_highest_sequence saved) ||
     negb (same_digest (wm_acknowledged_hash saved) (wm_last_hash saved))
  then
    if negb (has_acknowledgement_boundary version)
    then Ok (set_acknowledged saved (wm_highest_sequence saved) (wm_last_hash saved))
    else Err "outbox acknowledged watermark is invalid"
  else Ok saved.

Fixpoint check_idle (version : Z) (pending : gmap bytes (list AnswerEvent))
    (watermarks : Watermarks) (entries : list (bytes * OutboxWatermark)) : result Watermarks :=
  match entries with
  | [] => Ok watermarks
  | (key, saved) :: rest =>
      if negb (bool_decide (pending !! key = None)) then check_idle version pending watermarks rest
      else
        match settle_idle version saved with
        | Err error => Err error
        | Ok saved' => check_idle version pending (<[key := saved']> watermarks) rest
        end
  end.

Definition check_outbox (version : Z) (events : list AnswerEvent) (watermarks : Watermarks)
    : result Watermarks :=
  let pending := pending_by_session events in
  match check_sessions version watermarks (in_key_order pending) with
  | Err error => Err error
  | Ok watermarks' => check_idle version pending watermarks' (in_key_order watermarks')
  end.

Definition outbox_body : ereader (Z * list AnswerEvent * Watermarks) :=
  header <~ orelse "outbox header is invalid" outbox_header ;;
  let version := header.1 in
  watermark_count <~ watermark_count version ;;
  watermarks <~ read_watermarks (Z.to_nat watermark_count) version ∅ ;;
  content <~ read_events (Z.to_nat header.2) version [] watermarks ;;
  match check_outbox version content.1 content.2 with
  | Err error => fun _ => Err error
  | Ok watermarks' =>
      remaining <~ eremaining ;;
      expect (remaining =? 0) else "outbox has trailing data" ;;
      eret (version, content.1, watermarks')
  end.

(** The plaintext of [open] parsed and checked: its version, events, watermarks. *)
Definition decode_outbox (plaintext : bytes) : result (Z * list AnswerEvent * Watermarks) :=
  erun outbox_body plaintext.

(** ** Opening *)

Record OutboxOpenCalls := mkOutboxOpenCalls {
  oo_valid_path : bool;
  oo_directories : bool;
  oo_lease : bool;
  oo_status : bool;
  oo_create : WriteCalls;
  oo_read : bool;
  oo_migrate : WriteCalls
}.

Definition closed_outbox : Outbox := mkOutbox false [] ∅.

(** The stored bytes to the plaintext, and whether they were encrypted. *)
Definition open_stored (stored : bytes) : result (bytes * bool) :=
  match run_reader (read_le 4) stored with
  | Some stored_magic =>
      if stored_magic =? kEncryptedOutboxMagic then
        match unprotect_outbox_wire stored with
        | Ok plaintext => Ok (plaintext, true)
        | Err error => Err error
        end
      else Ok (stored, false)
  | None => Ok (stored, false)
  end.

(** [open] once the file's contents are there. *)
Definition load (calls : OutboxOpenCalls) (stored : bytes)
    : result unit * Outbox * option bytes :=
  let failed error := (Err error, closed_outbox, Some stored) in
  if negb (oo_read calls) then failed "journal file read failed"%string
  else if len stored >? kMaximumStoredOutboxBytes
  then failed "file exceeds the configured quota"%string
  else
    match open_stored stored with
    | Err error => failed error
    | Ok (plaintext, encrypted) =>
        match decode_outbox plaintext with
        | Err error => failed error
        | Ok (version, events, watermarks) =>
            let opened := mkOutbox true events watermarks in
            if negb encrypted || negb (version =? kOutboxVersion) then
              match save (oo_migrate calls) events watermarks with
              | Err error => failed error
              | Ok migrated => (Ok tt, opened, Some migrated)
              end
            else (Ok tt, opened, Some stored)
        end
    end.

(** [file] is [None] when the path does not exist. *)
Definition open_outbox (calls : OutboxOpenCalls) (o : Outbox) (file : option bytes)
    : result unit * Outbox * option bytes :=
  if negb (oo_valid_path calls)
  then (Err "outbox path must be an absolute non-root path", o, file)
  else if negb (oo_directories calls)
  then (Err "outbox directory creation failed", closed_outbox, file)
  else if negb (oo_lease calls)
  then (Err "journal lock acquisition failed", closed_outbox, file)
  else if negb (oo_status calls)
  then (Err "outbox file status query failed", closed_outbox, file)
  else
    match file with
    | Some stored => load calls stored
    | None =>
        match save (oo_create calls) [] ∅ with
        | Err error => (Err error, closed_outbox, None)
        | Ok stored => load calls stored
        end
    end.

Definition close (o : Outbox) : Outbox := mkOutbox false (ob_events o) (ob_watermarks o).

(** ** Queueing an event *)

Abbreviation Change := (list AnswerEvent * Watermarks)%type.

(** The positions of a session's events, by sequence. *)
Definition position_le (events : list AnswerEvent) (left right : nat) : Prop :=
  (default 0 (ev_sequence <$> events !! left)) <= (default 0 (ev_sequence <$> events !! right)).

#[export] Instance position_le_dec events left right : Decision (position_le events left right).
Proof. unfold position_le. apply _. Defined.

Definition session_indices (events : list AnswerEvent) (key : bytes) : list nat :=
  merge_sort (position_le events)
    (filter (fun i => event_key <$> events !! i = Some key) (seq 0 (length events))).

(** The later pending records follow the rebased one. *)
Fixpoint rebase_rest (events : list AnswerEvent) (previous : AnswerEvent)
    (previous_hash : bytes) (positions : list nat) : result (list AnswerEvent * bytes) :=
  match positions with
  | [] => Ok (events, previous_hash)
  | position :: rest =>
      match events !! position with
      | None => Err "outbox rebase target is unavailable"
      | Some current =>
          if (ev_sequence previous =? u64_max) ||
             negb (ev_sequence current =? wrap64 (ev_sequence previous + 1))
          then Err "outbox rebase sequence is not contiguous"
          else
            let current := set_previous current previous_hash in
            match hash_answer_event sha256 current with
            | None => Err "outbox rebase hashing failed"
            | Some hash => rebase_rest (<[position := current]> events) current hash rest
            end
      end
  end.

(** The predecessor of the rebased event: the boundary for the first pending
    event, which may move, the digest of the event before for the others. *)
Definition rebase_predecessor (events : list AnswerEvent) (w : OutboxWatermark)
    (event : AnswerEvent) (before : option nat) : result OutboxWatermark :=
  match before with
  | None =>
      if (wm_acknowledged_sequence w =? u64_max) ||
         negb (ev_sequence event =? wrap64 (wm_acknowledged_sequence w + 1)) ||
         (if ev_sequence event =? 1 then negb (all_zero (ev_previous_event_hash event))
          else all_zero (ev_previous_event_hash event))
      then Err "outbox rebase predecessor is invalid"
      else Ok (set_acknowledged w (wm_acknowledged_sequence w) (ev_previous_event_hash event))
  | Some position =>
      match events !! position with
      | None => Err "outbox rebase predecessor is invalid"
      | Some previous =>
          match hash_answer_event sha256 previous with
          | None => Err "outbox rebase predecessor is invalid"
          | Some hash =>
              if same_digest (ev_previous_event_hash event) hash then Ok w
              else Err "outbox rebase predecessor is invalid"
          end
      end
  end.

(** The event at [index] replaced by [event], which differs in its predecessor. *)
Definition rebase (events : list AnswerEvent) (watermarks : Watermarks) (w : OutboxWatermark)
    (event : AnswerEvent) (event_hash : bytes) (index : nat) : result Change :=
  let indices := session_indices events (event_key event) in
  match list_find (fun i => i = index) indices with
  | None => Err "outbox rebase target is unavailable"
  | Some (target_offset, _) =>
      let before :=
        match target_offset with O => None | S previous => indices !! previous end in
      match rebase_predecessor events w event before with
      | Err error => Err error
      | Ok w =>
          match rebase_rest (<[index := event]> events) event event_hash
                  (drop (S target_offset) indices) with
          | Err error => Err error
          | Ok (events', last_hash) =>
              Ok (events', <[event_key event :=
                set_top w (wm_highest_sequence w) last_hash (wm_finalized w)]> watermarks)
          end
      end
  end.

(** What [enqueue] decides: an error, nothing to do, or the new contents. *)
Definition requeue (events : list AnswerEvent) (watermarks : Watermarks) (event : AnswerEvent)
    (event_hash : bytes) (index : nat) (existing : AnswerEvent) : result (option Change) :=
  if bool_decide (hash_answer_event sha256 existing = Some event_hash) then Ok None
  else
    match watermarks !! event_key event with
    | None => Err "outbox sequence conflicts with an existing event"
    | Some w =>
        if negb (same_event_body_except_predecessor existing event)
        then Err "outbox sequence conflicts with an existing event"
        else if wm_finalized w || (ev_sequence event <=? wm_acknowledged_sequence w)
        then Err "outbox sequence was already acknowledged"
        else
          match rebase events watermarks w event event_hash index with
          | Ok change => Ok (Some change)
          | Err error => Err error
          end
    end.

(** The checks of an event that is not pending against its watermark: an error,
    a retry, or [Ok true] when it is to be added. *)
Definition extends_watermark (w : OutboxWatermark) (event : AnswerEvent) (event_hash : bytes)
    : result bool :=
  if negb (same_watermark_context w event)
  then Err "outbox event identity conflicts with its session"
  else if wm_finalized w then
    if (ev_sequence event =? wm_highest_sequence w) && same_digest event_hash (wm_last_hash w)
    then Ok false
    else Err "exam session is already finalized"
  else if ev_sequence event <=? wm_highest_sequence w then
    if (ev_sequence event =? wm_highest_sequence w) && same_digest event_hash (wm_last_hash w)
    then Ok false
    else Err "outbox sequence was already acknowledged"
  else if (wm_highest_sequence w =? u64_max) ||
          negb (ev_sequence event =? wrap64 (wm_highest_sequence w + 1))
  then Err "outbox event sequence has a gap"
  else if negb (same_digest (ev_previous_event_hash event) (wm_last_hash w))
  then Err "outbox event hash chain does not match"
  else Ok true.

Definition add_pending (events : list AnswerEvent) (watermarks : Watermarks)
    (event : AnswerEvent) (event_hash : bytes) : result (option Change) :=
  let key := event_key event in
  let extends :=
    match watermarks !! key with
    | Some w => extends_watermark w event event_hash
    | None =>
        if negb (ev_sequence event =? 1) || negb (all_zero (ev_previous_event_hash event))
        then Err "first outbox event must start at sequence one"
        else Ok true
    end in
  match extends with
  | Err error => Err error
  | Ok false => Ok None
  | Ok true =>
      if len events >=? kMaximumOutboxEvents then Err "outbox event quota is exhausted"
      else
        let w :=
          match watermarks !! key with
          | None => watermark_for event event_hash (ev_sequence event)
          | Some w =>
              set_top w (ev_sequence event) event_hash
                (if ev_kind event =? kind_finalize then true else wm_finalized w)
          end in
        Ok (Some (events ++ [event], <[key := w]> watermarks))
  end.

Definition queue_change (events : list AnswerEvent) (watermarks : Watermarks)
    (event : AnswerEvent) (event_hash : bytes) : result (option Change) :=
  match list_find (fun existing => event_key existing = event_key event /\
                                   ev_sequence existing = ev_sequence event) events with
  | Some (index, existing) => requeue events watermarks event event_hash index existing
  | None => add_pending events watermarks event event_hash
  end.

(** A decided change is written, and takes effect when that succeeds. *)
Definition commit (calls : WriteCalls) (o : Outbox) (file : bytes)
    (decision : result (option Change)) : result unit * Outbox * bytes :=
  match decision with
  | Err error => (Err error, o, file)
  | Ok None => (Ok tt, o, file)
  | Ok (Some (events, watermarks)) =>
      match save calls events watermarks with
      | Err error => (Err error, o, file)
      | Ok stored => (Ok tt, mkOutbox (ob_open o) events watermarks, stored)
      end
  end.

Definition enqueue (calls : WriteCalls) (o : Outbox) (file : bytes) (event : AnswerEvent)
    : result unit * Outbox * bytes :=
  if negb (ob_open o) then (Err "outbox is not open", o, file)
  else if negb (validate_answer_event event) then (Err "invalid exam answer event", o, file)
  else
    match hash_answer_event sha256 event with
    | None => (Err "outbox event hashing failed", o, file)
    | Some event_hash =>
        commit calls o file (queue_change (ob_events o) (ob_watermarks o) event event_hash)
    end.

(** ** Reading what is pending *)

Definition event_le (left right : AnswerEvent) : Prop :=
  if bool_decide (event_key left = event_key right)
  then ev_sequence left <= ev_sequence right
  else bytes_le (event_key left) (event_key right) = true.

#[export] Instance event_le_dec left right : Decision (event_le left right).
Proof. unfold event_le. destruct (bool_decide _); apply _. Defined.

Definition pending (o : Outbox) (maximum : Z) : list AnswerEvent :=
  if (maximum =? 0) || negb (ob_open o) then []
  else take (Z.to_nat maximum) (merge_sort event_le (ob_events o)).

Definition pending_for_client (o : Outbox) (client_id : bytes) (maximum : Z)
    : list AnswerEvent :=
  if (maximum =? 0) || all_zero client_id || negb (ob_open o) then []
  else
    take (Z.to_nat maximum)
      (merge_sort event_le (filter (fun e => ev_client_id e = client_id) (ob_events o))).

Definition outbox_size (o : Outbox) : Z := len (ob_events o).

(** ** Acknowledgements *)

(** [matching_session_keys] and [exact_session_keys]. *)
Definition matching_keys (o : Outbox) (session_id : bytes) : gset bytes :=
  list_to_set (map event_key (filter (fun e => ev_session_id e = session_id) (ob_events o))) ∪
  dom (filter (fun kw => wm_session_id kw.2 = session_id) (ob_watermarks o)).

Definition exact_event (session_id : bytes) (sequence : Z) (event_hash : bytes)
    (e : AnswerEvent) : Prop :=
  ev_session_id e = session_id /\ ev_sequence e = sequence /\
  hash_answer_event sha256 e = Some event_hash.

Definition exact_watermark (session_id : bytes) (sequence : Z) (event_hash : bytes)
    (w : OutboxWatermark) : Prop :=
  wm_session_id w = session_id /\
  (sequence = wm_acknowledged_sequence w /\ event_hash = wm_acknowledged_hash w \/
   sequence = wm_highest_sequence w /\ event_hash = wm_last_hash w).

#[export] Instance exact_event_dec session_id sequence event_hash e :
  Decision (exact_event session_id sequence event_hash e).
Proof. unfold exact_event. apply _. Defined.
#[export] Instance exact_watermark_dec session_id sequence event_hash w :
  Decision (exact_watermark session_id sequence event_hash w).
Proof. unfold exact_watermark. apply _. Defined.

Definition exact_keys (o : Outbox) (session_id : bytes) (sequence : Z) (event_hash : bytes)
    : gset bytes :=
  list_to_set (map event_key
    (filter (exact_event session_id sequence event_hash) (ob_events o))) ∪
  dom (filter (fun kw => exact_watermark session_id sequence event_hash kw.2) (ob_watermarks o)).

Definition select_session (matching exact : gset bytes) : result bytes :=
  match elements matching, elements exact with
  | [], _ => Err "outbox acknowledgement is unknown"
  | _, _ :: _ :: _ => Err "outbox acknowledgement is ambiguous"
  | _, [key] => Ok key
  | [key], [] => Ok key
  | _, [] => Err "outbox acknowledgement session is ambiguous"
  end.

(** The event is not pending any more. *)
Definition acknowledge_absent (o : Outbox) (key : bytes) (sequence : Z) (event_hash : bytes)
    : result (option Change) :=
  match ob_watermarks o !! key with
  | None => Err "outbox acknowledgement is unknown"
  | Some saved =>
      if sequence >? wm_highest_sequence saved then Err "outbox acknowledgement is unknown"
      else if sequence =? wm_acknowledged_sequence saved then
        if same_digest event_hash (wm_acknowledged_hash saved) then Ok None
        else Err "outbox acknowledgement hash mismatch"
      else if (sequence <? wm_acknowledged_sequence saved) ||
              negb (sequence =? wm_highest_sequence saved)
      then Err "outbox acknowledgement cannot be verified"
      else if negb (same_digest event_hash (wm_last_hash saved))
      then Err "outbox acknowledgement hash mismatch"
      else if sequence >? wm_acknowledged_sequence saved
      then Ok (Some (ob_events o, <[key := set_acknowledged saved sequence
                                             (wm_last_hash saved)]> (ob_watermarks o)))
      else Ok None
  end.

Definition acknowledge_pending (o : Outbox) (target : AnswerEvent) (sequence : Z)
    (event_hash : bytes) : result (option Change) :=
  match hash_answer_event sha256 target with
  | None => Err "outbox acknowledgement hash mismatch"
  | Some target_hash =>
      if negb (same_digest target_hash event_hash)
      then Err "outbox acknowledgement hash mismatch"
      else
        let key := event_key target in
        match ob_watermarks o !! key with
        | None => Err "outbox watermark is missing"
        | Some w =>
            if sequence >? wm_highest_sequence w then Err "outbox watermark is missing"
            else if sequence <=? wm_acknowledged_sequence w
            then Err "outbox acknowledgement is stale"
            else
              let remaining :=
                filter (fun e => ~ (event_key e = key /\ ev_sequence e <= sequence))
                  (ob_events o) in
              let w' :=
                if sequence >? wm_acknowledged_sequence w
                then set_acknowledged w sequence target_hash else w in
              Ok (Some (remaining, <[key := w']> (ob_watermarks o)))
        end
  end.

Definition acknowledge_change (o : Outbox) (session_id : bytes) (sequence : Z)
    (event_hash : bytes) : result (option Change) :=
  match select_session (matching_keys o session_id)
          (exact_keys o session_id sequence event_hash) with
  | Err error => Err error
  | Ok key =>
      match list_find (fun e => event_key e = key /\ ev_sequence e = sequence) (ob_events o) with
      | None => acknowledge_absent o key sequence event_hash
      | Some (_, target) => acknowledge_pending o target sequence event_hash
      end
  end.

Definition acknowledge (calls : WriteCalls) (o : Outbox) (file : bytes) (session_id : bytes)
    (sequence : Z) (event_hash : bytes) : result unit * Outbox * bytes :=
  if negb (ob_open o) || negb (len event_hash =? 32) || (sequence =? 0)
  then (Err "invalid outbox acknowledgement", o, file)
  else commit calls o file (acknowledge_change o session_id sequence event_hash).

(** ** Reading back what was encoded *)

(** The fields of a watermark have their C++ types, and its strings, which are
    read up to a length, hold no terminator. *)
Definition typed_watermark (w : OutboxWatermark) : Prop :=
  length (wm_package_digest w) = 32%nat /\ length (wm_client_id w) = 16%nat /\
  length (wm_session_id w) = 16%nat /\ length (wm_last_hash w) = 32%nat /\
  length (wm_acknowledged_hash w) = 32%nat /\ u64 (wm_highest_sequence w) /\
  u64 (wm_acknowledged_sequence w) /\ Byte.x00 ∉ wm_package_id w /\
  Byte.x00 ∉ wm_candidate_id w.

Lemma read_bounded_string_app (value rest : bytes) (maximum : Z) (wire : bytes) :
  append_bounded_string value maximum = Some wire -> Byte.x00 ∉ value ->
  read_bounded_string maximum (wire ++ rest) = Some (value, rest).
Proof.
  unfold append_bounded_string. destruct (_ || _) eqn:E; [done|]. intros [= <-] Hnul.
  bool_to_prop. assert (u16 (len value)) as Hu by (pose proof (len_nonneg value); ulia).
  assert (len value <> 0) as Hne by (by intros ?%len_zero).
  unfold read_bounded_string. rewrite <- app_assoc. rewrite rbind_read_le by done.
  rewrite rbind_guard by (rewrite andb_true_iff, negb_true_iff; lia).
  rewrite rbind_read_bytes by (unfold len; lia).
  rewrite rbind_guard by (by apply bool_decide_eq_true_2). done.
Qed.

Lemma read_bounded_string_inv (maximum : Z) (input value rest : bytes) :
  read_bounded_string maximum input = Some (value, rest) ->
  value <> [] /\ len value <= maximum /\ Byte.x00 ∉ value.
Proof.
  unfold read_bounded_string. intros H. reader_inv. bool_to_prop.
  split_and!; [|unfold len; ulia|done]. intros ->. cbn in *. ulia.
Qed.

Lemma read_watermark_wire (w : OutboxWatermark) (wire rest : bytes) :
  typed_watermark w -> watermark_wire w = Some wire ->
  read_watermark kOutboxVersion (wire ++ rest) = Ok (w, rest).
Proof.
  intros (L1 & L2 & L3 & L4 & L5 & U1 & U2 & N1 & N2). unfold watermark_wire.
  destruct (negb (valid_watermark w)) eqn:Ev; [done|]. apply negb_false_iff in Ev.
  destruct (append_bounded_string (wm_package_id w) _) as [p|] eqn:Ep; [|done].
  destruct (append_bounded_string (wm_candidate_id w) _) as [c|] eqn:Ec; [|done].
  intros [= <-]. rewrite <- !app_assoc. unfold read_watermark.
  erewrite ebind_orelse; [|unfold watermark_base;
    unfold rbind at 1; rewrite (read_bounded_string_app _ _ _ _ Ep N1);
    unfold rbind at 1; rewrite (read_bounded_string_app _ _ _ _ Ec N2); by reader_run].
  unfold watermark_boundary. change (has_acknowledgement_boundary kOutboxVersion) with true.
  cbv iota. erewrite ebind_orelse; [|by reader_run].
  unfold watermark_finality. change (has_finalization_marker kOutboxVersion) with true.
  assert (u8 (if wm_finalized w then 1 else 0)) as U3 by (destruct (wm_finalized w); ulia).
  cbv iota. erewrite ebind_orelse; [|rewrite rbind_read_le by done;
    rewrite rbind_guard by (by destruct (wm_finalized w)); done].
  assert (set_top (set_acknowledged (mkWatermark (wm_package_id w) (wm_package_digest w)
    (wm_client_id w) (wm_session_id w) (wm_candidate_id w) (wm_highest_sequence w)
    (wm_last_hash w) 0 zero_digest false) (wm_acknowledged_sequence w)
    (wm_acknowledged_hash w)) (wm_highest_sequence w) (wm_last_hash w)
    (negb ((if wm_finalized w then 1 else 0) =? 0)) = w) as Hw.
  { destruct w as [? ? ? ? ? ? ? ? ? f]. by destruct f. }
  cbn [fst snd wm_highest_sequence wm_last_hash]. rewrite Hw. by rewrite ebind_guard.
Qed.

Lemma read_watermarks_wires (entries : list (bytes * OutboxWatermark)) :
  forall (wires : list bytes) (rest : bytes) (m : Watermarks),
  mapM (fun kv => watermark_wire kv.2) entries = Some wires ->
  NoDup (map fst entries) -> (forall k, k ∈ map fst entries -> m !! k = None) ->
  Forall (fun kv => typed_watermark kv.2 /\ watermark_key kv.2 = kv.1) entries ->
  read_watermarks (length entries) kOutboxVersion m (concat wires ++ rest) =
    Ok (list_to_map entries ∪ m, rest).
Proof.
  induction entries as [|[k w] entries IH]; intros wires rest m Hm Hnd Hfresh Hall.
  - injection Hm as <-. cbn. unfold eret. by rewrite (left_id_L ∅ (∪)).
  - cbn in Hm. apply bind_Some in Hm as (wire & Hw & Hm). apply bind_Some in Hm as (ws & Hws & Hm).
    injection Hm as <-. cbn [map fst] in Hnd, Hfresh. apply NoDup_cons in Hnd as [Hk Hnd].
    apply Forall_cons in Hall as [[Ht Hkey] Hall]. cbn [snd fst] in *.
    cbn [length read_watermarks concat]. rewrite <- app_assoc. unfold ebind at 1.
    rewrite (read_watermark_wire w wire) by done.
    rewrite ebind_guard by (apply bool_decide_eq_true_2; rewrite Hkey; apply Hfresh; by left).
    assert (forall k', k' ∈ map fst entries -> <[k := w]> m !! k' = None) as Hfresh'.
    { intros k' Hk'. rewrite lookup_insert_ne by (by intros <-). apply Hfresh. by right. }
    rewrite Hkey, (IH ws rest _ Hws Hnd Hfresh' Hall).
    cbn [list_to_map foldr fst snd]. rewrite <- insert_union_l, insert_union_r; [done|].
    by apply not_elem_of_list_to_map_1.
Qed.

Lemma event_wire_of (e : AnswerEvent) :
  wf_event e -> event_wire e = Some (write_le 4 (len (encode_answer_event e)) ++ encode_answer_event e) /\
  134 <= len (encode_answer_event e) <= kMaximumWireBytes.
Proof.
  intros He. destruct (encode_answer_event_wf e He) as [-> [Hl Hh]].
  change kAnswerEventFixedBytes with 134 in Hl. split; [|lia]. unfold event_wire.
  destruct (encode_answer_event_wf e He) as [-> _].
  rewrite bool_decide_eq_false_2 by (intros E; rewrite E in Hl; by vm_compute in Hl).
  cbn [orb]. destruct (_ >? kMaximumWireBytes) eqn:E; bool_to_prop; [lia|done].
Qed.

Lemma read_outbox_event_wire (e : AnswerEvent) (wire rest : bytes) :
  wf_event e -> event_wire e = Some wire ->
  read_outbox_event (wire ++ rest) = Ok (e, rest).
Proof.
  intros He Hw. destruct (event_wire_of e He) as [E [Hl Hh]]. rewrite E in Hw.
  injection Hw as <-. change kMaximumWireBytes with 65512 in *.
  assert (u32 (len (encode_answer_event e))) as Hu by ulia.
  unfold read_outbox_event. rewrite <- app_assoc.
  erewrite ebind_orelse; [|rewrite rbind_read_le by done;
    rewrite rbind_guard by (change kMaximumWireBytes with 65512;
      rewrite andb_true_iff, negb_true_iff; lia);
    apply read_bytes_app; unfold len; lia].
  by rewrite decode_encode_event.
Qed.

(** ** Sessions *)

Section Sessions.
(** SHA-256 succeeds, and neither fails nor yields the all-zero digest. *)
Hypothesis sha256_digest : forall m,
  exists d, sha256 m = Some d /\ length d = 32%nat /\ all_zero d = false.

Abbreviation chained := (AnswerJournal.chained sha256).
Abbreviation digest_of := (AnswerJournal.digest_of sha256).

(** A session's pending events, in order, and its watermark: they are numbered
    from the acknowledged sequence to the highest one and linked by digests from
    the acknowledged one to the last, and only the last may finalize. *)
Record session_ok (w : OutboxWatermark) (pend : list AnswerEvent) : Prop := {
  sk_valid : valid_watermark w = true;
  sk_typed : typed_watermark w;
  sk_context : Forall (fun e => same_watermark_context w e = true) pend;
  sk_sequences : map ev_sequence pend = seqZ (wm_acknowledged_sequence w + 1) (len pend);
  sk_chain : chained (wm_acknowledged_hash w) pend;
  sk_highest : wm_highest_sequence w = wm_acknowledged_sequence w + len pend;
  sk_last : wm_last_hash w =
    match last pend with Some e => digest_of e | None => wm_acknowledged_hash w end;
  sk_finalized : pend <> [] -> pending_finalized false pend = Some (wm_finalized w)
}.

Record outbox_ok (events : list AnswerEvent) (watermarks : Watermarks) : Prop := {
  ok_events : Forall wf_event events;
  ok_quota : len events <= kMaximumOutboxEvents;
  ok_sessions : forall key w, watermarks !! key = Some w ->
    watermark_key w = key /\
    exists pend, pend ≡ₚ events_of key events /\ session_ok w pend;
  ok_known : forall e, e ∈ events -> is_Some (watermarks !! event_key e)
}.

Lemma event_digest (e : AnswerEvent) :
  wf_event e -> hash_answer_event sha256 e = Some (digest_of e) /\
  length (digest_of e) = 32%nat /\ all_zero (digest_of e) = false.
Proof. by apply wf_event_hash. Qed.

Lemma all_zero_digest (d : bytes) : all_zero d = true -> length d = 32%nat -> d = zero_digest.
Proof.
  unfold all_zero, zero_digest. intros H <-. induction d as [|b d IH]; [done|].
  cbn in H. bool_to_prop. cbn [length replicate]. f_equal; [done|by apply IH].
Qed.

Lemma wf_event_sequence (e : AnswerEvent) : wf_event e -> 1 <= ev_sequence e <= u64_max.
Proof.
  intros (Hv & _ & _ & _ & _ & _ & Hu & _). unfold validate_answer_event in Hv. bool_to_prop. ulia.
Qed.

(** *** The chain check *)

Lemma check_chain_iff (rest : list AnswerEvent) : forall front : AnswerEvent,
  Forall wf_event (front :: rest) ->
  (check_chain front rest = None <->
   map ev_sequence rest = seqZ (ev_sequence front + 1) (len rest) /\
   chained (digest_of front) rest).
Proof.
  induction rest as [|e rest IH]; intros front Hwf; [done|].
  apply Forall_cons in Hwf as [Hf Hwf]. destruct (event_digest front Hf) as (Hh & _).
  pose proof (wf_event_sequence _ Hf) as Sf. pose proof Hwf as [He _]%Forall_cons.
  pose proof (wf_event_sequence _ He) as Se. pose proof (len_nonneg rest).
  cbn [check_chain map AnswerJournal.chained]. rewrite Hh, len_cons, seqZ_cons by lia.
  replace (Z.pred (len rest + 1)) with (len rest) by lia.
  destruct (_ || _) eqn:E.
  - split; [done|]. intros [[= Hseq _] _]. exfalso. apply orb_true_iff in E as [E|E]; bool_to_prop;
      [lia|]. apply E. ulia.
  - bool_to_prop. assert (ev_sequence e = ev_sequence front + 1) as Hs by ulia.
    rewrite Hs. unfold same_digest. case_bool_decide as Hd; cbn [negb].
    + rewrite IH, Hs by done. unfold Z.succ. split; [intros [-> ?]|intros [[= ->] [_ ?]]]; done.
    + split; [done|]. by intros (_ & ? & _).
Qed.

Lemma back_of (front : AnswerEvent) rest :
  last (front :: rest) = Some (default front (last rest)).
Proof. rewrite last_cons. by destruct (last rest). Qed.

Lemma seqZ_last (events : list AnswerEvent) (m : Z) (e : AnswerEvent) :
  map ev_sequence events = seqZ m (len events) -> last events = Some e ->
  ev_sequence e = m + len events - 1.
Proof.
  intros Hs He. rewrite last_lookup in He.
  assert (map ev_sequence events !! Init.Nat.pred (length events) = Some (ev_sequence e)) as H
    by (by rewrite list_lookup_fmap, He).
  rewrite Hs, lookup_seqZ in H. unfold len in *. lia.
Qed.

(** What the checks of a session with pending events establish, and need. *)
Lemma check_boundary_iff (w : OutboxWatermark) (front : AnswerEvent) (rest : list AnswerEvent) :
  Forall wf_event (front :: rest) -> typed_watermark w ->
  (check_boundary w front (default front (last rest)) rest = None <->
   valid_watermark w = true /\
   map ev_sequence (front :: rest) =
     seqZ (wm_acknowledged_sequence w + 1) (len (front :: rest)) /\
   chained (wm_acknowledged_hash w) (front :: rest) /\
   wm_highest_sequence w = wm_acknowledged_sequence w + len (front :: rest) /\
   wm_last_hash w = digest_of (default front (last rest))).
Proof.
  intros Hwf Ht. pose proof Hwf as [Hf Hwr]%Forall_cons. pose proof (wf_event_sequence _ Hf) as Sf.
  assert (wf_event (default front (last rest))) as Hb.
  { destruct (last rest) as [b|] eqn:El; [|done]. rewrite Forall_forall in Hwr.
    by apply Hwr, last_Some_elem_of. }
  destruct (event_digest _ Hb) as (Hbh & _). pose proof (len_nonneg rest) as Hlen.
  destruct Ht as (_ & _ & _ & _ & La & _ & Ua & _).
  destruct Hf as (_ & _ & _ & _ & Lp & _). rewrite len_cons.
  unfold check_boundary. destruct (valid_watermark w) eqn:Ev; cbn [negb]; [|naive_solver].
  assert (wm_acknowledged_sequence w = 0 -> wm_acknowledged_hash w = zero_digest) as Hzero.
  { intros E. unfold valid_watermark in Ev. rewrite E in Ev. bool_to_prop.
    by apply all_zero_digest. }
  cbn [map AnswerJournal.chained]. rewrite seqZ_cons by lia.
  replace (Z.pred (len rest + 1)) with (len rest) by lia.
  destruct ((wm_acknowledged_sequence w =? u64_max) || _) eqn:E1.
  { split; [done|]. intros (_ & [= Hs _] & _). exfalso.
    apply orb_true_iff in E1 as [E1|E1]; bool_to_prop; [lia|]. apply E1. ulia. }
  bool_to_prop. assert (ev_sequence front = wm_acknowledged_sequence w + 1) as Hs by ulia.
  assert (((wm_acknowledged_sequence w =? 0) && negb (all_zero (ev_previous_event_hash front)) = false
    /\ negb (wm_acknowledged_sequence w =? 0) &&
       negb (same_digest (ev_previous_event_hash front) (wm_acknowledged_hash w)) = false) <->
    ev_previous_event_hash front = wm_acknowledged_hash w) as Hprev.
  { unfold same_digest. destruct (Z.eqb_spec (wm_acknowledged_sequence w) 0) as [E|E];
      cbn [andb negb].
    - rewrite (Hzero E), negb_false_iff. split; [intros [? _]; by apply all_zero_digest|].
      intros ->. split; [apply (proj1 (zero_digest_zero))|done].
    - rewrite negb_false_iff, bool_decide_eq_true. naive_solver. }
  destruct ((wm_acknowledged_sequence w =? 0) && _) eqn:E2; [naive_solver|].
  destruct (negb (wm_acknowledged_sequence w =? 0) && _) eqn:E3; [naive_solver|].
  destruct Hprev as [Hprev _]. specialize (Hprev (conj eq_refl eq_refl)).
  pose proof (check_chain_iff rest front Hwf) as Hchain. rewrite Hbh.
  rewrite <- Hs. unfold Z.succ. destruct (check_chain front rest) as [msg|] eqn:Ec.
  { split; [done|]. intros (_ & [= H2] & [_ H3] & _). by apply Hchain. }
  destruct (proj1 Hchain eq_refl) as [Hseq Hch]. rewrite Hseq.
  assert (ev_sequence (default front (last rest)) = wm_acknowledged_sequence w + (len rest + 1)) as Hback.
  { assert (map ev_sequence (front :: rest) = seqZ (ev_sequence front) (len (front :: rest))) as Ha.
    { rewrite len_cons, seqZ_cons by lia. cbn [map]. rewrite Hseq. unfold Z.succ.
      do 2 f_equal. lia. }
    rewrite (seqZ_last _ _ _ Ha (back_of front rest)), len_cons. lia. }
  rewrite Hback. unfold same_digest.
  destruct (Z.eqb_spec (wm_acknowledged_sequence w + (len rest + 1)) (wm_highest_sequence w));
    case_bool_decide; cbn [negb orb]; naive_solver.
Qed.

(** *** One session *)

Lemma seqZ_in (events : list AnswerEvent) (m : Z) (e : AnswerEvent) :
  map ev_sequence events = seqZ m (len events) -> e ∈ events ->
  m <= ev_sequence e < m + len events.
Proof.
  intros Hs He. assert (ev_sequence e ∈ map ev_sequence events) as H
    by (by apply list_elem_of_fmap_2).
  rewrite Hs in H. apply elem_of_seqZ in H. lia.
Qed.

Lemma seqZ_inj (events : list AnswerEvent) (m : Z) (e e' : AnswerEvent) :
  map ev_sequence events = seqZ m (len events) -> e ∈ events -> e' ∈ events ->
  ev_sequence e = ev_sequence e' -> e = e'.
Proof.
  intros Hs [i Hi]%list_elem_of_lookup [j Hj]%list_elem_of_lookup Heq.
  assert (NoDup (map ev_sequence events)) as Hnd by (rewrite Hs; apply NoDup_seqZ).
  assert (i = j) as ->; [|congruence].
  apply (NoDup_lookup _ i j (ev_sequence e) Hnd); rewrite list_lookup_fmap;
    [by rewrite Hi|by rewrite Hj, Heq].
Qed.

Lemma seqZ_sorted (events : list AnswerEvent) : forall m,
  map ev_sequence events = seqZ m (len events) -> StronglySorted sequence_le events.
Proof.
  induction events as [|e events IH]; intros m Hs; [constructor|].
  pose proof (len_nonneg events). rewrite len_cons, seqZ_cons in Hs by lia.
  cbn [map] in Hs. injection Hs as Hm Hs.
  replace (Z.pred (len events + 1)) with (len events) in Hs by lia.
  constructor; [by eapply IH|]. apply Forall_forall. intros e' He'.
  pose proof (seqZ_in _ _ _ Hs He'). unfold sequence_le. lia.
Qed.

#[export] Instance sequence_le_trans : Transitive sequence_le.
Proof. intros a b c. unfold sequence_le. lia. Qed.
#[export] Instance sequence_le_total : Total sequence_le.
Proof. intros a b. unfold sequence_le. lia. Qed.

(** Sorting finds the order of a contiguous run of events. *)
Lemma sort_pending (pend events : list AnswerEvent) (m : Z) :
  pend ≡ₚ events -> map ev_sequence pend = seqZ m (len pend) ->
  merge_sort sequence_le events = pend.
Proof.
  intros Hp Hs. apply (StronglySorted_unique_strong sequence_le).
  - intros x y Hx Hy. rewrite merge_sort_Permutation, <- Hp in Hx. unfold sequence_le.
    intros ? ?. eapply seqZ_inj; try done. lia.
  - apply StronglySorted_merge_sort; apply _.
  - by eapply seqZ_sorted.
  - by rewrite merge_sort_Permutation.
Qed.

Lemma settle_finality_spec (version : Z) (w w' : OutboxWatermark) (finalized : bool) :
  settle_finality version w finalized = Ok w' ->
  w' = set_top w (wm_highest_sequence w) (wm_last_hash w) finalized.
Proof.
  unfold settle_finality. destruct (negb (has_finalization_marker version)); [by intros [= <-]|].
  destruct w as [? ? ? ? ? ? ? ? ? f]. destruct finalized, f; cbn; try done; by intros [= <-].
Qed.

Lemma settle_boundary_spec (version : Z) (w : OutboxWatermark) (front : AnswerEvent) :
  wf_event front -> typed_watermark w ->
  exists a h, settle_boundary version w front = set_acknowledged w a h /\
    typed_watermark (set_acknowledged w a h).
Proof.
  intros Hf (? & ? & ? & ? & ? & ? & ? & ? & ?). pose proof (wf_event_sequence _ Hf) as Sf.
  destruct Hf as (_ & _ & _ & _ & Lp & _). unfold settle_boundary, typed_watermark.
  destruct (has_acknowledgement_boundary version).
  - exists (wm_acknowledged_sequence w), (wm_acknowledged_hash w). by destruct w.
  - assert (u64 0 /\ u64 (wrap64 (ev_sequence front - 1))) as [? ?] by (split; ulia).
    destruct (ev_sequence front =? 1); eexists _, _; (split; [done|]); by split_and!.
Qed.

Lemma check_session_spec (version : Z) (watermarks watermarks' : Watermarks) (key : bytes)
    (saved : OutboxWatermark) (events : list AnswerEvent) :
  watermarks !! key = Some saved -> typed_watermark saved -> Forall wf_event events ->
  Forall (fun e => same_watermark_context saved e = true) events ->
  check_session version watermarks key events = Ok watermarks' ->
  exists saved', watermarks' = <[key := saved']> watermarks /\
    watermark_key saved' = watermark_key saved /\
    session_ok saved' (merge_sort sequence_le events).
Proof.
  intros Hl Ht Hwf Hctx. unfold check_session. rewrite Hl.
  assert (Forall wf_event (merge_sort sequence_le events)) as Hwf'
    by (by rewrite merge_sort_Permutation).
  assert (Forall (fun e => same_watermark_context saved e = true)
    (merge_sort sequence_le events)) as Hctx' by (by rewrite merge_sort_Permutation).
  clear Hwf Hctx. destruct (merge_sort sequence_le events) as [|front rest]; [done|].
  destruct (pending_finalized false (front :: rest)) as [finalized|] eqn:Efin; [|done].
  destruct (settle_finality version saved finalized) as [w1|] eqn:Ew1; [|done].
  apply settle_finality_spec in Ew1. pose proof Hwf' as [Hf _]%Forall_cons.
  assert (typed_watermark w1) as Ht1 by (by subst w1).
  destruct (settle_boundary_spec version w1 front Hf Ht1) as (a & h & -> & Ht2).
  destruct (check_boundary _ _ _ _) eqn:Ec; [done|]. intros [= <-].
  apply check_boundary_iff in Ec as (Hv & Hs & Hc & Hh & Hla); [|done..].
  eexists. split; [done|]. split; [by subst w1|]. subst w1. constructor; try done.
  by rewrite back_of.
Qed.

Lemma check_session_ok (watermarks : Watermarks) (key : bytes) (w : OutboxWatermark)
    (events pend : list AnswerEvent) :
  watermarks !! key = Some w -> Forall wf_event events -> pend ≡ₚ events -> events <> [] ->
  session_ok w pend -> check_session kOutboxVersion watermarks key events = Ok watermarks.
Proof.
  intros Hl Hwf Hp Hne [Hv Ht Hctx Hs Hc Hh Hla Hfin]. unfold check_session. rewrite Hl.
  rewrite (sort_pending pend events _ Hp Hs). rewrite <- Hp in Hwf.
  destruct pend as [|front rest]; [by apply Permutation_nil_l in Hp|].
  rewrite Hfin by done. unfold settle_finality.
  change (has_finalization_marker kOutboxVersion) with true. cbn [negb].
  assert (wm_finalized w && negb (wm_finalized w) = false) as -> by apply andb_negb_r.
  unfold settle_boundary. change (has_acknowledgement_boundary kOutboxVersion) with true.
  cbv iota. rewrite back_of in Hla.
  assert (check_boundary w front (default front (last rest)) rest = None) as ->.
  { apply check_boundary_iff; [done|done|]. by split_and!. }
  by rewrite insert_id.
Qed.

(** *** All the sessions *)

Lemma pending_lookup (events : list AnswerEvent) (key : bytes) :
  pending_by_session events !! key =
    match events_of key events with [] => None | es => Some es end.
Proof.
  unfold pending_by_session. induction events as [|e events IH] using rev_ind; [done|].
  rewrite fold_left_app. cbn [fold_left]. rewrite events_of_snoc.
  destruct (decide (event_key e = key)) as [Hk|Hk].
  - rewrite bool_decide_eq_true_2 by done. subst key. rewrite lookup_insert_eq, IH.
    by destruct (events_of (event_key e) events).
  - rewrite bool_decide_eq_false_2 by done. by rewrite lookup_insert_ne.
Qed.

Lemma in_key_order_elem {T} (m : gmap bytes T) (key : bytes) (v : T) :
  (key, v) ∈ in_key_order m <-> m !! key = Some v.
Proof. unfold in_key_order. rewrite merge_sort_Permutation. apply elem_of_map_to_list. Qed.

Lemma in_key_order_keys {T} (m : gmap bytes T) :
  NoDup (map fst (in_key_order m)) /\
  forall key, key ∈ map fst (in_key_order m) <-> is_Some (m !! key).
Proof.
  split.
  - unfold in_key_order. rewrite merge_sort_Permutation. apply NoDup_fst_map_to_list.
  - intros key. rewrite list_elem_of_fmap. split.
    + intros ([k v] & -> & H). apply in_key_order_elem in H. by eexists.
    + intros [v Hv]. exists (key, v). split; [done|]. by apply in_key_order_elem.
Qed.

Lemma check_sessions_spec (version : Z) (l : list (bytes * list AnswerEvent)) :
  forall watermarks watermarks' : Watermarks,
  NoDup (map fst l) ->
  (forall key events, (key, events) ∈ l -> exists saved, watermarks !! key = Some saved /\
     typed_watermark saved /\ Forall wf_event events /\
     Forall (fun e => same_watermark_context saved e = true) events) ->
  check_sessions version watermarks l = Ok watermarks' ->
  (forall key, key ∉ map fst l -> watermarks' !! key = watermarks !! key) /\
  (forall key events, (key, events) ∈ l -> exists saved saved', watermarks !! key = Some saved /\
     watermarks' !! key = Some saved' /\ watermark_key saved' = watermark_key saved /\
     session_ok saved' (merge_sort sequence_le events)).
Proof.
  induction l as [|[key events] l IH]; intros watermarks watermarks' Hnd Hall; cbn [check_sessions].
  { intros [= <-]. split; [done|]. by intros ? ? ?%not_elem_of_nil. }
  cbn [map fst] in Hnd. apply NoDup_cons in Hnd as [Hk Hnd].
  destruct (check_session version watermarks key events) as [mid|] eqn:Ec; [|done]. intros Hrest.
  destruct (Hall key events ltac:(by left)) as (saved & Hl & Ht & Hwf & Hctx).
  destruct (check_session_spec _ _ _ _ _ _ Hl Ht Hwf Hctx Ec) as (saved' & -> & Hid & Hok).
  apply IH in Hrest as [Hother Hin]; [|done|].
  - split.
    + intros k Hkk. cbn [map fst] in Hkk. apply not_elem_of_cons in Hkk as [Hne Hkk].
      rewrite Hother by done. by apply lookup_insert_ne.
    + intros k evs [[= -> ->]|Hkin]%elem_of_cons.
      * exists saved, saved'. rewrite Hother by done. by rewrite lookup_insert_eq.
      * destruct (Hin k evs Hkin) as (s1 & s2 & H1 & H2).
        assert (k <> key) by (intros ->; apply Hk; by apply (list_elem_of_fmap_2 fst) in Hkin).
        rewrite lookup_insert_ne in H1 by done. by exists s1, s2.
  - intros k evs Hkin. destruct (Hall k evs ltac:(by right)) as (s1 & H1 & H2).
    assert (k <> key) by (intros ->; apply Hk; by apply (list_elem_of_fmap_2 fst) in Hkin).
    exists s1. by rewrite lookup_insert_ne.
Qed.

Lemma check_idle_spec (version : Z) (pending : gmap bytes (list AnswerEvent))
    (entries : list (bytes * OutboxWatermark)) : forall watermarks watermarks' : Watermarks,
  NoDup (map fst entries) -> check_idle version pending watermarks entries = Ok watermarks' ->
  (forall key, key ∉ map fst entries -> watermarks' !! key = watermarks !! key) /\
  (forall key saved, (key, saved) ∈ entries ->
     match pending !! key with
     | Some _ => watermarks' !! key = watermarks !! key
     | None => exists saved', settle_idle version saved = Ok saved' /\
                 watermarks' !! key = Some saved'
     end).
Proof.
  induction entries as [|[key saved] entries IH]; intros watermarks watermarks' Hnd;
    cbn [check_idle].
  { intros [= <-]. split; [done|]. by intros ? ? ?%not_elem_of_nil. }
  cbn [map fst] in Hnd. apply NoDup_cons in Hnd as [Hk Hnd].
  assert (forall k s, (k, s) ∈ entries -> k <> key) as Hne
    by (intros k s Hkin ->; apply Hk; by apply (list_elem_of_fmap_2 fst) in Hkin).
  destruct (pending !! key) as [es|] eqn:Ep.
  - rewrite bool_decide_eq_false_2 by done. cbn [negb]. intros H.
    apply IH in H as [Hother Hin]; [|done]. split.
    + intros k [_ Hkk]%not_elem_of_cons. by apply Hother.
    + intros k s [[= -> ->]|Hkin]%elem_of_cons; [rewrite Ep; by apply Hother|by apply Hin].
  - rewrite bool_decide_eq_true_2 by done. cbn [negb].
    destruct (settle_idle version saved) as [saved'|] eqn:Es; [|done]. intros H.
    apply IH in H as [Hother Hin]; [|done]. split.
    + intros k [Hkk Hkk']%not_elem_of_cons. rewrite Hother by done. by apply lookup_insert_ne.
    + intros k s [[= -> ->]|Hkin]%elem_of_cons.
      * rewrite Ep. exists saved'. rewrite Hother by done. by rewrite lookup_insert_eq.
      * specialize (Hin k s Hkin). pose proof (Hne k s Hkin).
        by rewrite lookup_insert_ne in Hin.
Qed.

Lemma settle_idle_ok (version : Z) (w w' : OutboxWatermark) :
  valid_watermark w = true -> typed_watermark w -> settle_idle version w = Ok w' ->
  watermark_key w' = watermark_key w /\ session_ok w' [].
Proof.
  intros Hv (? & ? & ? & ? & ? & ? & ? & ? & ?). unfold settle_idle.
  assert (wm_highest_sequence w <> 0 /\ all_zero (wm_last_hash w) = false) as [Hh Hl]
    by (unfold valid_watermark in Hv; bool_to_prop; done).
  destruct (_ || _) eqn:E.
  - destruct (negb (has_acknowledgement_boundary version)); [|discriminate]. intros [= <-].
    split; [done|]. constructor; try done.
    + unfold valid_watermark in *. cbn. bool_to_prop. repeat (apply andb_true_iff; split);
        rewrite ?negb_true_iff; try done; try by apply bool_decide_eq_false_2.
      * lia. * lia. * lia. * lia.
      * destruct (Z.eqb_spec (wm_highest_sequence w) 0); [done|]. by rewrite Hl.
    + cbn. rewrite len_nil. lia.
  - intros [= <-]. unfold same_digest in E. bool_to_prop.
    split; [done|]. constructor; try done. rewrite len_nil. lia.
Qed.

(** What reading the file gives before the checks. *)
Record loaded (events : list AnswerEvent) (watermarks : Watermarks) : Prop := {
  ld_events : Forall wf_event events;
  ld_watermarks : forall key w, watermarks !! key = Some w -> watermark_key w = key /\
    typed_watermark w /\ (events_of key events = [] -> valid_watermark w = true);
  ld_context : forall e, e ∈ events ->
    exists w, watermarks !! event_key e = Some w /\ same_watermark_context w e = true
}.

Lemma events_of_elem (key : bytes) (events : list AnswerEvent) (e : AnswerEvent) :
  e ∈ events_of key events <-> event_key e = key /\ e ∈ events.
Proof. unfold events_of. by rewrite list_elem_of_filter. Qed.

Lemma check_outbox_spec (version : Z) (events : list AnswerEvent)
    (watermarks watermarks' : Watermarks) :
  loaded events watermarks -> len events <= kMaximumOutboxEvents ->
  check_outbox version events watermarks = Ok watermarks' -> outbox_ok events watermarks'.
Proof.
  intros [Hwf Hwm Hctx] Hquota. unfold check_outbox.
  destruct (check_sessions _ _ _) as [mid|] eqn:Es; [|done]. intros Hi.
  destruct (in_key_order_keys (pending_by_session events)) as [Hnd Hkeys].
  destruct (in_key_order_keys mid) as [Hnd' Hkeys'].
  apply check_sessions_spec in Es as [Eother Ein]; [|done|].
  2: { intros key es Hin. apply in_key_order_elem in Hin. rewrite pending_lookup in Hin.
    assert (es = events_of key events /\ es <> []) as [-> Hne]
      by (destruct (events_of key events); [done|by injection Hin as <-]).
    destruct (events_of key events) as [|e es] eqn:Ees; [done|].
    assert (e ∈ events_of key events) as [<- He]%events_of_elem by (rewrite Ees; by left).
    destruct (Hctx e He) as (w & Hw & _). exists w. split; [done|].
    split; [by apply (Hwm _ _ Hw)|]. rewrite <- Ees. split; apply Forall_forall;
      intros e' [Hk' He']%events_of_elem; [rewrite Forall_forall in Hwf; by apply Hwf|].
    destruct (Hctx e' He') as (w' & Hw' & ?). rewrite Hk', Hw in Hw'. by injection Hw' as <-. }
  apply check_idle_spec in Hi as [Iother Iin]; [|done].
  assert (forall key w, mid !! key = Some w -> exists w', watermarks' !! key = Some w' /\
    watermark_key w' = key /\
    exists pend, pend ≡ₚ events_of key events /\ session_ok w' pend) as Hmid.
  { intros key w Hw. pose proof (Iin key w ltac:(by apply in_key_order_elem)) as Hk.
    rewrite pending_lookup in Hk. destruct (events_of key events) as [|e es] eqn:Ees.
    - destruct Hk as (w' & Hset & Hw'). exists w'. split; [done|].
      rewrite Eother in Hw by (rewrite Hkeys, pending_lookup, Ees; by intros [? ?]).
      destruct (Hwm key w Hw) as (Hkey & Ht & Hv). specialize (Hv Ees).
      destruct (settle_idle_ok _ _ _ Hv Ht Hset) as [Hid Hok].
      split; [by rewrite Hid|]. by exists [].
    - destruct (Ein key (e :: es)) as (saved & saved' & H1 & H2 & H3 & H4).
      { apply in_key_order_elem. by rewrite pending_lookup, Ees. }
      assert (saved' = w) as -> by congruence. exists w. split; [by rewrite Hk|].
      split; [rewrite H3; by apply (Hwm _ _ H1)|].
      exists (merge_sort sequence_le (e :: es)). split; [apply merge_sort_Permutation|done]. }
  assert (forall key, is_Some (watermarks' !! key) -> is_Some (mid !! key)) as Hback.
  { intros key Hk. destruct (mid !! key) eqn:E; [done|].
    rewrite Iother, E in Hk by (rewrite Hkeys', E; by intros [? ?]). by destruct Hk. }
  constructor; [done|done| |].
  - intros key w Hw. destruct (Hback key ltac:(by eexists)) as [w0 Hw0].
    destruct (Hmid key w0 Hw0) as (w' & Hw' & H). assert (w' = w) as -> by congruence. done.
  - intros e He. destruct (Hctx e He) as (w & Hw & _).
    assert (is_Some (mid !! event_key e)) as [w0 Hw0].
    { destruct (Ein (event_key e) (events_of (event_key e) events)) as (? & s' & _ & H2 & _);
        [|by eexists]. apply in_key_order_elem. rewrite pending_lookup.
      assert (e ∈ events_of (event_key e) events) as Hin by (by apply events_of_elem).
      destruct (events_of (event_key e) events); [by apply not_elem_of_nil in Hin|done]. }
    destruct (Hmid _ _ Hw0) as (w' & Hw' & _). by eexists.
Qed.

Lemma session_identity (key : bytes) (w : OutboxWatermark) (pend events : list AnswerEvent)
    (e : AnswerEvent) :
  pend ≡ₚ events_of key events -> session_ok w pend -> e ∈ events -> event_key e = key ->
  e ∈ pend /\ same_watermark_context w e = true /\
  wm_acknowledged_sequence w < ev_sequence e <= wm_highest_sequence w.
Proof.
  intros Hp Hok He Hk. assert (e ∈ pend) as Hin by (rewrite Hp; by apply events_of_elem).
  split; [done|]. pose proof (sk_context _ _ Hok) as Hc. rewrite Forall_forall in Hc.
  pose proof (seqZ_in _ _ _ (sk_sequences _ _ Hok) Hin). rewrite (sk_highest _ _ Hok).
  split; [by apply Hc|lia].
Qed.

Lemma check_sessions_ok (watermarks : Watermarks) (l : list (bytes * list AnswerEvent)) :
  (forall key es, (key, es) ∈ l -> check_session kOutboxVersion watermarks key es = Ok watermarks) ->
  check_sessions kOutboxVersion watermarks l = Ok watermarks.
Proof.
  induction l as [|[key es] l IH]; intros H; [done|]. cbn [check_sessions].
  rewrite H by (by left). apply IH. intros k s Hin. apply H. by right.
Qed.

Lemma check_idle_ok (pending : gmap bytes (list AnswerEvent)) (watermarks : Watermarks)
    (entries : list (bytes * OutboxWatermark)) :
  (forall key w, (key, w) ∈ entries -> watermarks !! key = Some w /\
     (pending !! key = None -> settle_idle kOutboxVersion w = Ok w)) ->
  check_idle kOutboxVersion pending watermarks entries = Ok watermarks.
Proof.
  induction entries as [|[key w] entries IH]; intros H; [done|]. cbn [check_idle].
  assert (check_idle kOutboxVersion pending watermarks entries = Ok watermarks) as Hrest
    by (apply IH; intros k s Hin; apply H; by right).
  destruct (H key w ltac:(by left)) as [Hl Hs].
  destruct (pending !! key) as [es|]; [by rewrite bool_decide_eq_false_2|].
  rewrite bool_decide_eq_true_2, Hs by done. cbn [negb]. by rewrite insert_id.
Qed.

Lemma check_outbox_ok (events : list AnswerEvent) (watermarks : Watermarks) :
  outbox_ok events watermarks ->
  check_outbox kOutboxVersion events watermarks = Ok watermarks.
Proof.
  intros [Hwf Hquota Hsess Hknown]. unfold check_outbox. rewrite check_sessions_ok.
  - apply check_idle_ok. intros key w Hin. apply in_key_order_elem in Hin. split; [done|].
    rewrite pending_lookup. intros Hnone. destruct (Hsess key w Hin) as (_ & pend & Hp & Hok).
    assert (pend = []) as ->.
    { destruct (events_of key events); [by apply Permutation_nil_r in Hp|done]. }
    destruct Hok as [_ _ _ _ _ Hh Hl _]. rewrite len_nil in Hh. cbn in Hl.
    unfold settle_idle. destruct (Z.eqb_spec (wm_acknowledged_sequence w) (wm_highest_sequence w));
      [|lia]. unfold same_digest. by rewrite bool_decide_eq_true_2.
  - intros key es Hin. apply in_key_order_elem in Hin. rewrite pending_lookup in Hin.
    destruct (events_of key events) as [|e0 es0] eqn:Ees; [done|]. injection Hin as <-.
    assert (e0 ∈ events_of key events) as [Hk0 He0]%events_of_elem by (rewrite Ees; by left).
    destruct (Hknown e0 He0) as [w Hw]. rewrite Hk0 in Hw.
    destruct (Hsess key w Hw) as (_ & pend & Hp & Hok).
    apply (check_session_ok watermarks key w (e0 :: es0) pend); [done| |by rewrite Hp, Ees|done|done].
    rewrite <- Ees. apply Forall_forall. intros e [_ He]%events_of_elem.
    rewrite Forall_forall in Hwf. by apply Hwf.
Qed.

Lemma mapM_cons_Some {A B} (f : A -> option B) (x : A) (l : list A) (ys : list B) :
  mapM f (x :: l) = Some ys -> exists y ys', ys = y :: ys' /\ f x = Some y /\ mapM f l = Some ys'.
Proof.
  cbn. intros (y & Hy & H)%bind_Some. apply bind_Some in H as (ys' & Hys & [= <-]). by exists y, ys'.
Qed.

(** Each event of a good outbox is read back and added unchanged. *)
Lemma read_events_wires (events : list AnswerEvent) (watermarks : Watermarks) :
  outbox_ok events watermarks ->
  forall (rest before : list AnswerEvent) (wires : list bytes) (tail : bytes),
  before ++ rest = events -> mapM event_wire rest = Some wires ->
  read_events (length rest) kOutboxVersion before watermarks (concat wires ++ tail) =
    Ok (events, watermarks, tail).
Proof.
  intros [Hwf Hquota Hsess Hknown].
  induction rest as [|e rest IH]; intros before wires tail Hev Hm.
  - injection Hm as <-. rewrite app_nil_r in Hev. by subst before.
  - apply mapM_cons_Some in Hm as (wire & ws & -> & Hw & Hm).
    assert (e ∈ events) as He by (rewrite <- Hev; apply elem_of_app; right; by left).
    pose proof Hwf as Hwf'. rewrite Forall_forall in Hwf'.
    cbn [length read_events concat]. rewrite <- app_assoc. unfold ebind at 1.
    rewrite (read_outbox_event_wire e wire) by auto.
    assert (add_event kOutboxVersion before watermarks e = Ok (before ++ [e], watermarks)) as ->.
    { unfold add_event. destruct (event_digest e (Hwf' e He)) as [-> _].
      destruct (Hknown e He) as [w Hw']. destruct (Hsess _ w Hw') as (_ & pend & Hp & Hok).
      destruct (existsb _ before) eqn:Ex.
      { exfalso. apply existsb_exists in Ex as (x & Hx & Heq). apply list_elem_of_In in Hx.
        bool_to_prop.
        assert (pend ≡ₚ events_of (event_key e) before ++ e :: events_of (event_key e) rest) as Hp'.
        { rewrite Hp, <- Hev. unfold events_of. rewrite filter_app. by rewrite filter_cons_True. }
        assert (NoDup (map ev_sequence pend)) as Hnd
          by (rewrite (sk_sequences _ _ Hok); apply NoDup_seqZ).
        rewrite Hp', map_app in Hnd. apply NoDup_app in Hnd as (_ & Hnd & _).
        apply (Hnd (ev_sequence e)); [|by left].
        replace (ev_sequence e) with (ev_sequence x) by done. apply list_elem_of_fmap_2.
        by apply events_of_elem. }
      destruct (session_identity _ _ _ _ _ Hp Hok He eq_refl) as (_ & Hc & Hb). rewrite Hw', Hc.
      change (kOutboxVersion =? kOutboxLegacyVersion) with false. cbn [negb andb orb].
      destruct (_ >? _) eqn:E; bool_to_prop; [lia|]. clear E.
      change (has_finalization_marker kOutboxVersion) with true. cbn [negb andb].
      by rewrite insert_id. }
    apply IH; [by rewrite <- app_assoc|done].
Qed.

Lemma encode_outbox_inv (events : list AnswerEvent) (watermarks : Watermarks) :
  encode_outbox events watermarks <> [] ->
  exists ws es, mapM (fun kv => watermark_wire kv.2) (in_key_order watermarks) = Some ws /\
    mapM event_wire events = Some es /\
    encode_outbox events watermarks =
      write_le 4 kOutboxMagic ++ write_le 2 kOutboxVersion ++ write_le 2 0 ++
      write_le 4 (len events) ++ write_le 4 (Z.of_nat (size watermarks)) ++
      concat ws ++ concat es /\
    len (encode_outbox events watermarks) <= kMaximumOutboxBytes /\
    len events <= kMaximumOutboxEvents /\
    Z.of_nat (size watermarks) <= kMaximumOutboxWatermarks.
Proof.
  unfold encode_outbox. destruct (_ || _) eqn:E; [done|]. bool_to_prop.
  destruct (mapM _ (in_key_order watermarks)) as [ws|]; [|done].
  destruct (mapM event_wire events) as [es|]; [|done].
  destruct (_ <=? kMaximumOutboxBytes) eqn:El; [|done]. bool_to_prop. intros _.
  exists ws, es. split_and!; done || lia.
Qed.

Lemma decode_encode_outbox (events : list AnswerEvent) (watermarks : Watermarks) :
  outbox_ok events watermarks -> encode_outbox events watermarks <> [] ->
  decode_outbox (encode_outbox events watermarks) = Ok (kOutboxVersion, events, watermarks).
Proof.
  intros Hok Hne. destruct (encode_outbox_inv _ _ Hne) as (ws & es & Hws & Hes & -> & _ & He & Hw).
  pose proof (len_nonneg events). unfold kMaximumOutboxEvents, kMaximumOutboxWatermarks in He, Hw.
  assert (u32 (len events) /\ u32 (Z.of_nat (size watermarks))) as [U1 U2] by (split; ulia).
  unfold decode_outbox, erun, outbox_body. erewrite ebind_orelse.
  2: { unfold outbox_header. reader_run. change (has_watermarks kOutboxVersion) with true.
    cbv iota. reader_run. rewrite rbind_guard by (unfold kMaximumOutboxEvents; lia). done. }
  cbv beta iota zeta. cbn [fst snd]. unfold watermark_count.
  change (has_watermarks kOutboxVersion) with true. cbv iota.
  erewrite ebind_orelse.
  2: { reader_run. rewrite rbind_guard by (unfold kMaximumOutboxWatermarks; lia). done. }
  unfold ebind at 1. rewrite <- (app_nil_r (concat es)).
  assert (Z.to_nat (Z.of_nat (size watermarks)) = length (in_key_order watermarks)) as ->.
  { unfold in_key_order. by rewrite merge_sort_Permutation, length_map_to_list, Nat2Z.id. }
  destruct (in_key_order_keys watermarks) as [Hnd _].
  assert (Forall (fun kv => typed_watermark kv.2 /\ watermark_key kv.2 = kv.1)
    (in_key_order watermarks)) as Hall.
  { apply Forall_forall. intros [k w] Hin. apply in_key_order_elem in Hin.
    destruct (ok_sessions _ _ Hok _ _ Hin) as (Hk & pend & _ & Hs). split; [apply Hs|done]. }
  rewrite (read_watermarks_wires _ ws (concat es ++ []) ∅ Hws Hnd (fun _ _ => lookup_empty _) Hall).
  assert (list_to_map (in_key_order watermarks) ∪ ∅ = watermarks) as ->.
  { rewrite (right_id_L ∅ (∪)). rewrite <- (list_to_map_to_list watermarks) at 2.
    apply list_to_map_proper; [done|]. apply merge_sort_Permutation. }
  unfold ebind at 1. unfold len. rewrite Nat2Z.id.
  rewrite (read_events_wires events watermarks Hok events [] es []) by done. cbn [fst snd].
  rewrite check_outbox_ok by done. rewrite ebind_remaining. by rewrite ebind_guard.
Qed.

(** ** What an accepted file holds *)

Lemma read_watermark_inv (version : Z) (input : bytes) (w : OutboxWatermark) (rest : bytes) :
  read_watermark version input = Ok (w, rest) -> typed_watermark w /\ valid_watermark w = true.
Proof.
  unfold read_watermark. intros (base & r1 & Hb & H)%ebind_inv.
  apply ebind_inv in H as ([a h] & r2 & Ha & H). apply ebind_inv in H as (f & r3 & _ & H).
  apply ebind_inv in H as (? & ? & Hv & H). injection H as <- <-. apply eguard_inv in Hv as [Hv _].
  split; [|done]. apply orelse_inv in Hb. unfold watermark_base in Hb.
  apply rbind_inv in Hb as (p & r4 & Hp & Hb). apply rbind_inv in Hb as (c & r5 & Hc & Hb).
  apply read_bounded_string_inv in Hp as (_ & _ & Np). apply read_bounded_string_inv in Hc as (_ & _ & Nc).
  reader_inv. assert (u64 a /\ length h = 32%nat) as [Ua Lh].
  { unfold watermark_boundary in Ha. destruct (has_acknowledgement_boundary version).
    - by reader_inv.
    - injection Ha as <- <-. split; [ulia|done]. }
  unfold typed_watermark. cbn in *. by split_and!.
Qed.

Lemma read_watermarks_inv (version : Z) (count : nat) :
  forall (m m' : Watermarks) (input rest : bytes),
  read_watermarks count version m input = Ok (m', rest) ->
  forall key w, m' !! key = Some w -> m !! key = Some w \/
    watermark_key w = key /\ typed_watermark w /\ valid_watermark w = true.
Proof.
  induction count as [|count IH]; intros m m' input rest H key w Hw; cbn [read_watermarks] in H.
  { injection H as <- <-. by left. }
  apply ebind_inv in H as (w0 & r & Hr & H). apply ebind_inv in H as (? & ? & _ & H).
  destruct (IH _ _ _ _ H key w Hw) as [Hin|?]; [|by right].
  apply read_watermark_inv in Hr as [Ht Hv].
  destruct (decide (watermark_key w0 = key)) as [<-|Hne].
  - rewrite lookup_insert_eq in Hin. injection Hin as <-. by right.
  - rewrite lookup_insert_ne in Hin by done. by left.
Qed.

Lemma context_key (w : OutboxWatermark) (e : AnswerEvent) :
  same_watermark_context w e = true -> watermark_key w = event_key e.
Proof.
  unfold same_watermark_context, watermark_key, event_key. intros H. bool_to_prop.
  by repeat match goal with H : _ = _ |- _ => rewrite H; clear H end.
Qed.

Lemma watermark_for_typed (e : AnswerEvent) (n : Z) :
  wf_event e -> u64 n -> typed_watermark (watermark_for e (digest_of e) n).
Proof.
  intros He Hn. destruct (event_digest e He) as (_ & Hd & _).
  destruct He as (Hv & L1 & L2 & L3 & _). destruct (validate_texts e Hv) as (T1 & T2 & _).
  assert (u64 0) by ulia. assert (forall v m, valid_text v m false = true -> Byte.x00 ∉ v) as Hnul.
  { intros v m Hvt Hin. unfold valid_text in Hvt. destruct (_ || _); [done|].
    rewrite forallb_forall in Hvt. apply list_elem_of_In, Hvt in Hin. by bool_to_prop. }
  unfold typed_watermark. cbn. split_and!; try done; by eapply Hnul.
Qed.

Lemma watermark_for_context (e : AnswerEvent) (h : bytes) (n : Z) :
  same_watermark_context (watermark_for e h n) e = true.
Proof. unfold same_watermark_context. cbn. by rewrite !bool_decide_eq_true_2. Qed.

(** Adding an event keeps what reading the file has established. *)
Lemma loaded_insert (events : list AnswerEvent) (watermarks : Watermarks) (e : AnswerEvent)
    (w : OutboxWatermark) :
  loaded events watermarks -> wf_event e -> typed_watermark w ->
  same_watermark_context w e = true ->
  (forall w0, watermarks !! event_key e = Some w0 ->
     forall e', same_watermark_context w0 e' = true -> same_watermark_context w e' = true) ->
  loaded (events ++ [e]) (<[event_key e := w]> watermarks).
Proof.
  intros [Hwf Hwm Hctx] He Ht Hc Hold. constructor.
  - apply Forall_app. split; [done|]. by constructor; [|constructor].
  - intros key w'. destruct (decide (event_key e = key)) as [<-|Hne].
    + rewrite lookup_insert_eq. intros [= <-]. split; [by apply context_key|]. split; [done|].
      rewrite events_of_snoc, bool_decide_eq_true_2 by done.
      intros H. by destruct (events_of (event_key e) events).
    + rewrite lookup_insert_ne by done. intros Hw. rewrite events_of_snoc.
      rewrite bool_decide_eq_false_2 by done. by apply Hwm.
  - intros e' [He'| ->%list_elem_of_singleton]%elem_of_app.
    + destruct (Hctx e' He') as (w0 & Hw0 & Hc0).
      destruct (decide (event_key e = event_key e')) as [Heq|Hne].
      * rewrite <- Heq in *. exists w. rewrite lookup_insert_eq. split; [done|]. by eapply Hold.
      * exists w0. by rewrite lookup_insert_ne.
    + exists w. by rewrite lookup_insert_eq.
Qed.

Lemma add_event_loaded (version : Z) (events events' : list AnswerEvent)
    (watermarks watermarks' : Watermarks) (e : AnswerEvent) :
  loaded events watermarks -> wf_event e ->
  add_event version events watermarks e = Ok (events', watermarks') ->
  events' = events ++ [e] /\ loaded events' watermarks'.
Proof.
  intros Hld He. unfold add_event. destruct (event_digest e He) as (Hh & Hd & _). rewrite Hh.
  destruct (existsb _ events); [discriminate|]. pose proof (wf_event_sequence e He) as Hs.
  assert (u64 (ev_sequence e)) as Hu by ulia.
  destruct (watermarks !! event_key e) as [w|] eqn:Ew.
  - destruct (_ || _) eqn:E; [discriminate|]. bool_to_prop.
    destruct (ld_watermarks _ _ Hld _ _ Ew) as (_ & Ht & _). intros [= <- <-]. split; [done|].
    assert (forall (b1 b2 : bool),
      let w1 := if b1 then set_top w (ev_sequence e) (digest_of e) (wm_finalized w) else w in
      let w2 := if b2 then set_top w1 (wm_highest_sequence w1) (wm_last_hash w1) true else w1 in
      typed_watermark w2 /\ forall e', same_watermark_context w2 e' = same_watermark_context w e')
      as Hw2.
    { destruct Ht as (? & ? & ? & ? & ? & ? & ? & ? & ?). intros [] []; (split; [by split_and!|done]). }
    edestruct Hw2 as [Ht' Hc']. apply loaded_insert; [done|done|exact Ht'| |].
    + by rewrite Hc'.
    + intros w0 Hw0 e' Hc. rewrite Ew in Hw0. injection Hw0 as <-. by rewrite Hc'.
  - intros [= <- <-]. split; [done|]. apply loaded_insert; try done.
    + by apply watermark_for_typed.
    + apply watermark_for_context.
    + intros w0 Hw0. by rewrite Ew in Hw0.
Qed.

Lemma read_events_loaded (version : Z) (count : nat) :
  forall (events events' : list AnswerEvent) (watermarks watermarks' : Watermarks)
    (input rest : bytes),
  loaded events watermarks ->
  read_events count version events watermarks input = Ok (events', watermarks', rest) ->
  loaded events' watermarks' /\ len events' = len events + Z.of_nat count.
Proof.
  induction count as [|count IH]; intros events events' watermarks watermarks' input rest Hld H;
    cbn [read_events] in H.
  { injection H as <- <- <-. split; [done|lia]. }
  apply ebind_inv in H as (e & r & Hr & H).
  assert (wf_event e) as He.
  { unfold read_outbox_event in Hr. apply ebind_inv in Hr as (payload & r' & _ & Hr).
    destruct (decode_answer_event payload) as [e'|] eqn:Ed; [|done]. injection Hr as <- <-.
    by apply decode_answer_event_iff in Ed as [? _]. }
  destruct (add_event version events watermarks e) as [[evs wms]|] eqn:Ea; [|done].
  destruct (add_event_loaded _ _ _ _ _ _ Hld He Ea) as [-> Hld'].
  destruct (IH _ _ _ _ _ _ Hld' H) as [? Hl]. split; [done|]. rewrite Hl, len_app, len_cons, len_nil. lia.
Qed.

Lemma decode_outbox_valid (plaintext : bytes) (version : Z) (events : list AnswerEvent)
    (watermarks : Watermarks) :
  decode_outbox plaintext = Ok (version, events, watermarks) ->
  1 <= version <= 4 /\ outbox_ok events watermarks.
Proof.
  unfold decode_outbox. intros [r H]%erun_inv. unfold outbox_body in H.
  apply ebind_inv in H as ([v count] & r1 & Hh & H). cbv zeta in H. cbn [fst snd] in H.
  apply ebind_inv in H as (wc & r2 & Hc & H).
  apply ebind_inv in H as (wms & r3 & Hw & H). apply ebind_inv in H as ([evs wms2] & r4 & He & H).
  cbn [fst snd] in H. destruct (check_outbox v evs wms2) as [wms3|] eqn:Eo; [|done].
  apply ebind_inv in H as (? & ? & _ & H). apply ebind_inv in H as (? & ? & _ & H).
  injection H as -> -> -> ->. apply orelse_inv in Hh. unfold outbox_header in Hh.
  apply rbind_inv in Hh as (m & ? & Hm & Hh). apply rbind_inv in Hh as (? & ? & _ & Hh).
  apply rbind_inv in Hh as (v & ? & Hv & Hh). apply rbind_inv in Hh as (? & ? & Gv & Hh).
  apply rbind_inv in Hh as (res & ? & _ & Hh). apply rbind_inv in Hh as (? & ? & _ & Hh).
  apply rbind_inv in Hh as (n & ? & Hn & Hh). apply rbind_inv in Hh as (? & ? & Gn & Hh).
  injection Hh as -> -> _. apply rguard_inv in Gv as [Gv _], Gn as [Gn _].
  apply read_le_inv in Hn as [_ Hn]. bool_to_prop.
  unfold kOutboxLegacyVersion, kOutboxVersion in *. split; [lia|].
  assert (loaded [] wms) as Hld.
  { constructor; [done| |by intros ? ?%not_elem_of_nil]. intros key w Hkw.
    destruct (read_watermarks_inv _ _ _ _ _ _ Hw key w Hkw) as [?|(? & ? & ?)]; [|done].
    by rewrite lookup_empty in *. }
  destruct (read_events_loaded _ _ _ _ _ _ _ _ Hld He) as [Hld' Hl].
  eapply check_outbox_spec; [done| |done]. rewrite Hl, len_nil. ulia.
Qed.

(** ** Changes keep the outbox good *)

(** A change to one session. *)
Lemma outbox_ok_update (events events' pend : list AnswerEvent) (watermarks : Watermarks)
    (k : bytes) (w : OutboxWatermark) :
  outbox_ok events watermarks -> Forall wf_event events' ->
  len events' <= kMaximumOutboxEvents ->
  (forall key, key <> k -> events_of key events' ≡ₚ events_of key events) ->
  pend ≡ₚ events_of k events' -> session_ok w pend -> watermark_key w = k ->
  outbox_ok events' (<[k := w]> watermarks).
Proof.
  intros Hok Hwf Hq Hother Hp Hs Hk. constructor; [done|done| |].
  - intros key w'. destruct (decide (k = key)) as [<-|Hne].
    + rewrite lookup_insert_eq. intros [= <-]. split; [done|]. by exists pend.
    + rewrite lookup_insert_ne by done. intros Hw.
      destruct (ok_sessions _ _ Hok key w' Hw) as (Hkey & pend' & Hp' & Hs'). split; [done|].
      exists pend'. by rewrite Hother.
  - intros e He. destruct (decide (k = event_key e)) as [->|Hne].
    + rewrite lookup_insert_eq. by eexists.
    + rewrite lookup_insert_ne by done. apply (ok_known _ _ Hok).
      assert (e ∈ events_of (event_key e) events') as Hin by (by apply events_of_elem).
      rewrite Hother in Hin by done. by apply events_of_elem in Hin as [_ ?].
Qed.

Lemma pending_finalized_snoc (b : bool) (pend : list AnswerEvent) (e : AnswerEvent) :
  pending_finalized b pend = Some false ->
  pending_finalized b (pend ++ [e]) = Some (ev_kind e =? kind_finalize).
Proof.
  revert b. induction pend as [|x pend IH]; intros b; cbn [pending_finalized app].
  - intros [= ->]. by rewrite orb_false_r.
  - destruct b; [done|]. apply IH.
Qed.

Lemma pending_finalized_app_r (pend pend' : list AnswerEvent) (b c : bool) :
  pending_finalized b (pend ++ pend') = Some c -> pend' <> [] ->
  pending_finalized false pend' = Some c.
Proof.
  revert b. induction pend as [|x pend IH]; intros b H Hne.
  - destruct b; [|done]. by destruct pend'.
  - cbn [app pending_finalized] in H. destruct b; [done|]. by eapply IH.
Qed.

Lemma chained_snoc_digest (previous : bytes) (pend : list AnswerEvent) (e : AnswerEvent) :
  chained previous pend ->
  ev_previous_event_hash e = match last pend with Some l => digest_of l | None => previous end ->
  chained previous (pend ++ [e]).
Proof. intros Hc He. by apply chained_snoc. Qed.

(** The first event of a session. *)
Lemma session_first (e : AnswerEvent) :
  wf_event e -> ev_sequence e = 1 -> all_zero (ev_previous_event_hash e) = true ->
  session_ok (watermark_for e (digest_of e) 1) [e].
Proof.
  intros He Hs Hz. destruct (event_digest e He) as (_ & Hd & Hdz). assert (u64 1) by ulia.
  pose proof (watermark_for_typed e 1 He ltac:(done)) as Ht.
  destruct He as (Hv & _ & _ & _ & Lp & _). destruct (validate_texts e Hv) as (T1 & T2 & _).
  assert (forall v m, valid_text v m false = true -> v <> []) as Htext by (by intros v m Hvt ->).
  pose proof (Htext _ _ T1) as N1. pose proof (Htext _ _ T2) as N2.
  apply valid_text_len in T1, T2.
  constructor; try done.
  - unfold validate_answer_event, valid_identity in Hv. unfold valid_watermark. cbn.
    rewrite !bool_decide_eq_false_2 by done. bool_to_prop.
    repeat match goal with H : all_zero _ = false |- _ => rewrite H; clear H end.
    destruct (Z.leb_spec (len (ev_package_id e)) kMaximumPackageIdBytes); [|lia].
    destruct (Z.leb_spec (len (ev_candidate_id e)) kMaximumCandidateIdBytes); [|lia].
    done.
  - constructor; [apply watermark_for_context|constructor].
  - cbn. by rewrite Hs.
  - cbn. split; [|done]. by apply all_zero_digest.
  - intros _. cbn. by rewrite orb_false_r.
Qed.

(** One more event at the end of a session. *)
Lemma session_next (w : OutboxWatermark) (pend : list AnswerEvent) (e : AnswerEvent) :
  session_ok w pend -> wf_event e -> same_watermark_context w e = true ->
  wm_finalized w = false -> ev_sequence e = wm_highest_sequence w + 1 ->
  ev_previous_event_hash e = wm_last_hash w ->
  session_ok (set_top w (ev_sequence e) (digest_of e) (ev_kind e =? kind_finalize)) (pend ++ [e]).
Proof.
  intros [Hv Ht Hctx Hs Hc Hh Hl Hf] He Hce Hfin Hseq Hprev.
  destruct (event_digest e He) as (_ & Hd & Hdz). pose proof (wf_event_sequence e He).
  pose proof (len_nonneg pend).
  destruct Ht as (? & ? & ? & ? & ? & ? & ? & ? & ?). assert (u64 (ev_sequence e)) by ulia.
  constructor.
  - unfold valid_watermark in *. cbn. bool_to_prop.
    repeat (apply andb_true_iff; split); rewrite ?negb_true_iff;
      try done; try (by apply bool_decide_eq_false_2); lia.
  - unfold typed_watermark. by split_and!.
  - apply Forall_app. split; [exact Hctx|]. constructor; [exact Hce|constructor].
  - cbn. rewrite map_app, Hs, len_app, len_cons, len_nil, Z.add_0_l, seqZ_snoc by done.
    do 2 f_equal. cbn. f_equal. lia.
  - cbn. apply chained_snoc_digest; [done|]. by rewrite Hprev.
  - cbn. rewrite len_app, len_cons, len_nil. lia.
  - cbn. by rewrite last_snoc.
  - intros _. cbn. apply pending_finalized_snoc. destruct pend as [|x pend]; [done|].
    by rewrite (Hf ltac:(done)), Hfin.
Qed.

Lemma events_of_add (key : bytes) (events : list AnswerEvent) (e : AnswerEvent) :
  key <> event_key e -> events_of key (events ++ [e]) = events_of key events.
Proof. intros Hne. rewrite events_of_snoc. by rewrite bool_decide_eq_false_2. Qed.

Lemma add_pending_ok (events events' : list AnswerEvent) (watermarks watermarks' : Watermarks)
    (e : AnswerEvent) :
  outbox_ok events watermarks -> wf_event e ->
  add_pending events watermarks e (digest_of e) = Ok (Some (events', watermarks')) ->
  events' = events ++ [e] /\ outbox_ok events' watermarks'.
Proof.
  intros Hok He. unfold add_pending. pose proof (wf_event_sequence e He) as Hse.
  destruct (watermarks !! event_key e) as [w|] eqn:Ew.
  - destruct (extends_watermark w e (digest_of e)) as [[]|] eqn:Ex; [|discriminate..].
    destruct (len events >=? kMaximumOutboxEvents) eqn:Eq; [discriminate|]. intros [= <- <-].
    split; [done|]. unfold extends_watermark in Ex.
    destruct (negb (same_watermark_context w e)) eqn:Ec; [discriminate|].
    destruct (wm_finalized w) eqn:Ef; [by destruct (_ && _) in Ex|].
    destruct (ev_sequence e <=? wm_highest_sequence w) eqn:El; [by destruct (_ && _) in Ex|].
    destruct (_ || _) eqn:Es in Ex; [discriminate|].
    destruct (negb (same_digest _ _)) eqn:Ed in Ex; [discriminate|]. unfold same_digest in Ed.
    bool_to_prop. destruct (ok_sessions _ _ Hok _ w Ew) as (Hk & pend & Hp & Hs).
    pose proof (sk_typed _ _ Hs) as (_ & _ & _ & _ & _ & Hu & _).
    assert (ev_sequence e = wm_highest_sequence w + 1) as Hseq by ulia.
    apply (outbox_ok_update events _ (pend ++ [e])); try done.
    + apply Forall_app. split; [apply (ok_events _ _ Hok)|]. by constructor; [|constructor].
    + rewrite len_app, len_cons, len_nil. lia.
    + intros key Hne. by rewrite events_of_add.
    + rewrite events_of_snoc, bool_decide_eq_true_2 by done. by rewrite Hp.
    + assert ((if ev_kind e =? kind_finalize then true else false) = (ev_kind e =? kind_finalize))
        as -> by (by destruct (ev_kind e =? kind_finalize)). by apply session_next.
  - destruct (_ || _) eqn:E; [discriminate|].
    destruct (len events >=? kMaximumOutboxEvents) eqn:Eq; [discriminate|]. intros [= <- <-].
    bool_to_prop. split; [done|].
    assert (events_of (event_key e) events = []) as Hnone.
    { destruct (events_of (event_key e) events) as [|x l] eqn:Ex; [done|].
      assert (x ∈ events_of (event_key e) events) as [Hk Hx]%events_of_elem by (rewrite Ex; by left).
      destruct (ok_known _ _ Hok x Hx) as [w Hw]. by rewrite Hk, Ew in Hw. }
    replace (ev_sequence e) with 1 by done.
    apply (outbox_ok_update events _ [e]); try done.
    + apply Forall_app. split; [apply (ok_events _ _ Hok)|]. by constructor; [|constructor].
    + rewrite len_app, len_cons, len_nil. lia.
    + intros key Hne. by rewrite events_of_add.
    + rewrite events_of_snoc, bool_decide_eq_true_2 by done. by rewrite Hnone.
    + by apply session_first.
Qed.

(** *** Acknowledging *)

Lemma chained_app (a b : list AnswerEvent) : forall previous : bytes,
  chained previous (a ++ b) <->
  chained previous a /\
  chained (match last a with Some l => digest_of l | None => previous end) b.
Proof.
  induction b as [|e b IH] using rev_ind; intros previous.
  - rewrite app_nil_r. cbn. tauto.
  - rewrite app_assoc, !chained_snoc, IH, last_app. destruct (last b); tauto.
Qed.

(** The events above a sequence are a suffix of the pending ones. *)
Lemma filter_above (pend : list AnswerEvent) : forall (a n : Z),
  map ev_sequence pend = seqZ (a + 1) (len pend) -> a <= n ->
  filter (fun e => ~ (ev_sequence e <= n)) pend = drop (Z.to_nat (n - a)) pend.
Proof.
  induction pend as [|e pend IH]; intros a n Hs Hn; [by rewrite drop_nil|].
  pose proof (len_nonneg pend). rewrite len_cons, seqZ_cons in Hs by lia.
  cbn [map] in Hs. injection Hs as He Hs.
  replace (Z.pred (len pend + 1)) with (len pend) in Hs by lia. unfold Z.succ in Hs.
  destruct (decide (n = a)) as [->|Hne].
  - rewrite Z.sub_diag. change (Z.to_nat 0) with O. rewrite drop_0, filter_cons_True by lia. f_equal.
    apply filter_all, Forall_forall. intros x Hx. pose proof (seqZ_in _ _ _ Hs Hx). lia.
  - rewrite filter_cons_False by lia. rewrite (IH (a + 1) n Hs) by lia.
    replace (Z.to_nat (n - a)) with (S (Z.to_nat (n - (a + 1)))) by lia. done.
Qed.

(** Acknowledging up to a pending event. *)
Lemma session_acknowledged (w : OutboxWatermark) (pend : list AnswerEvent)
    (target : AnswerEvent) (n : Z) :
  session_ok w pend -> target ∈ pend -> wf_event target -> ev_sequence target = n ->
  session_ok (set_acknowledged w n (digest_of target))
    (filter (fun e => ~ (ev_sequence e <= n)) pend).
Proof.
  intros [Hv Ht Hctx Hs Hc Hh Hl Hf] Hin Hwf Htn. pose proof (seqZ_in _ _ _ Hs Hin) as Hn.
  destruct (event_digest target Hwf) as (_ & Hd & Hdz). pose proof (wf_event_sequence _ Hwf) as Hw.
  rewrite Htn in Hn, Hw. rewrite (filter_above pend _ n Hs) by lia.
  set (k := Z.to_nat (n - wm_acknowledged_sequence w)).
  assert (pend !! (k - 1)%nat = Some target) as Hk.
  { apply list_elem_of_lookup in Hin as [j Hj].
    assert (map ev_sequence pend !! j = Some n) as H by (by rewrite list_lookup_fmap, Hj, <- Htn).
    rewrite Hs, lookup_seqZ in H. replace (k - 1)%nat with j by lia. done. }
  assert (last (take k pend) = Some target) as Hlast.
  { rewrite last_lookup, length_take_le by (apply lookup_lt_Some in Hk; lia).
    rewrite lookup_take_lt by lia. by replace (Init.Nat.pred k) with (k - 1)%nat by lia. }
  assert (len (drop k pend) = len pend - (n - wm_acknowledged_sequence w)) as Hlen
    by (unfold len in *; rewrite length_drop; lia).
  rewrite <- (take_drop k pend) in Hctx, Hc. apply Forall_app in Hctx as [_ Hctx].
  apply chained_app in Hc as [_ Hc]. rewrite Hlast in Hc.
  destruct Ht as (? & ? & ? & ? & ? & ? & ? & ? & ?). assert (u64 n) by ulia.
  pose proof (len_nonneg (drop k pend)). constructor.
  - unfold valid_watermark in *. cbn. bool_to_prop.
    destruct (Z.eqb_spec n 0); [lia|].
    repeat (apply andb_true_iff; split); rewrite ?negb_true_iff;
      try done; try (by apply bool_decide_eq_false_2); lia.
  - unfold typed_watermark. by split_and!.
  - exact Hctx.
  - cbn. rewrite <- skipn_map, Hs, Hlen.
    replace (len pend) with (Z.of_nat k + (len pend - (n - wm_acknowledged_sequence w))) at 1 by lia.
    rewrite seqZ_app by lia. rewrite drop_app_length' by (rewrite length_seqZ; lia).
    f_equal. lia.
  - exact Hc.
  - cbn. lia.
  - cbn. rewrite <- (take_drop k pend) in Hl. rewrite last_app, Hlast in Hl.
    by destruct (last (drop k pend)).
  - intros Hne. cbn. rewrite <- (take_drop k pend) in Hf.
    eapply pending_finalized_app_r; [apply Hf|done]. intros H'. apply Hne.
    by apply app_eq_nil in H' as [_ ?].
Qed.

Lemma acknowledge_pending_ok (o : Outbox) (target : AnswerEvent) (sequence : Z)
    (event_hash : bytes) (events' : list AnswerEvent) (watermarks' : Watermarks) :
  outbox_ok (ob_events o) (ob_watermarks o) -> target ∈ ob_events o ->
  ev_sequence target = sequence ->
  acknowledge_pending o target sequence event_hash = Ok (Some (events', watermarks')) ->
  digest_of target = event_hash /\
  events' = filter (fun e => ~ (event_key e = event_key target /\ ev_sequence e <= sequence))
              (ob_events o) /\
  outbox_ok events' watermarks'.
Proof.
  intros Hok Hin Hseq. unfold acknowledge_pending.
  assert (wf_event target) as Hwf.
  { pose proof (ok_events _ _ Hok) as H. rewrite Forall_forall in H. by apply H. }
  destruct (event_digest target Hwf) as (-> & _). unfold same_digest.
  case_bool_decide as Hd; cbn [negb]; [|discriminate].
  destruct (ob_watermarks o !! event_key target) as [w|] eqn:Ew; [|discriminate].
  destruct (sequence >? _) eqn:E1; [discriminate|].
  destruct (sequence <=? _) eqn:E2; [discriminate|]. intros [= <- <-]. bool_to_prop.
  do 2 (split; [done|]). rewrite Z.gtb_ltb. destruct (Z.ltb_spec (wm_acknowledged_sequence w) sequence);
    [|lia].
  destruct (ok_sessions _ _ Hok _ w Ew) as (Hk & pend & Hp & Hs).
  destruct (session_identity _ _ _ _ _ Hp Hs Hin eq_refl) as (Hpin & _ & _).
  apply (outbox_ok_update (ob_events o) _
    (filter (fun e => ~ (ev_sequence e <= sequence)) pend)); try done.
  - apply Forall_forall. intros e [_ He]%list_elem_of_filter.
    pose proof (ok_events _ _ Hok) as Hall. rewrite Forall_forall in Hall. by apply Hall.
  - pose proof (ok_quota _ _ Hok). unfold len in *.
    pose proof (length_filter (fun e => ~ (event_key e = event_key target /\ ev_sequence e <= sequence))
      (ob_events o)). lia.
  - intros key Hne. unfold events_of. rewrite list_filter_filter.
    apply reflexive_eq, list_filter_iff. intros e. naive_solver.
  - rewrite Hp. unfold events_of. rewrite !list_filter_filter.
    apply reflexive_eq, list_filter_iff. intros e. naive_solver.
  - by apply session_acknowledged.
Qed.

(** *** Rebasing *)

Lemma filter_ext_elem {A} (P Q : A -> Prop) `{!forall x, Decision (P x), !forall x, Decision (Q x)}
    (l : list A) : (forall x, x ∈ l -> P x <-> Q x) -> filter P l = filter Q l.
Proof.
  induction l as [|x l IH]; intros Heq; [done|]. rewrite !filter_cons.
  pose proof (Heq x ltac:(by left)). rewrite IH by (intros y Hy; apply Heq; by right).
  destruct (decide (P x)), (decide (Q x)); tauto.
Qed.

(** The events at the positions of a key are the events of the key. *)
Lemma filter_positions (key : bytes) (events : list AnswerEvent) :
  map (fun i => events !! i)
    (filter (fun i => event_key <$> events !! i = Some key) (seq 0 (length events))) =
  map Some (events_of key events).
Proof.
  induction events as [|e events IH] using rev_ind; [done|].
  rewrite length_app. cbn [length]. rewrite Nat.add_1_r, seq_S. cbn [Nat.add].
  rewrite filter_app, map_app, events_of_snoc.
  rewrite (filter_ext_elem _ (fun i => event_key <$> events !! i = Some key) (seq 0 (length events))).
  2: { intros i Hi. apply elem_of_seq in Hi. by rewrite lookup_app_l by lia. }
  assert (map (fun i => (events ++ [e]) !! i)
    (filter (fun i => event_key <$> events !! i = Some key) (seq 0 (length events))) =
    map Some (events_of key events)) as ->.
  { rewrite <- IH. apply map_ext_in. intros i Hi. apply list_elem_of_In in Hi.
    apply list_elem_of_filter in Hi as [_ Hi]. apply elem_of_seq in Hi.
    by rewrite lookup_app_l by lia. }
  assert ((events ++ [e]) !! length events = Some e) as He by (by apply list_lookup_middle).
  case_bool_decide as Hk.
  - rewrite filter_cons_True, filter_nil by (by rewrite He, <- Hk). cbn [map].
    rewrite He. by rewrite map_app.
  - rewrite filter_cons_False, filter_nil by (rewrite He; naive_solver). cbn [map].
    by rewrite app_nil_r.
Qed.

Definition at_positions (events : list AnswerEvent) (ps : list nat) (es : list AnswerEvent) : Prop :=
  Forall2 (fun i e => events !! i = Some e) ps es.

Lemma at_positions_map (events : list AnswerEvent) (ps : list nat) (es : list AnswerEvent) :
  at_positions events ps es <-> map (fun i => events !! i) ps = map Some es.
Proof.
  unfold at_positions. revert es. induction ps as [|p ps IH]; intros [|e es]; cbn.
  - split; [done|constructor].
  - split; [by inversion 1|done].
  - split; [by inversion 1|done].
  - rewrite Forall2_cons, IH. split; [by intros [-> ->]|by intros [= -> ->]].
Qed.

Lemma at_positions_insert (events : list AnswerEvent) (ps : list nat) (es : list AnswerEvent)
    (p : nat) (e : AnswerEvent) :
  p ∉ ps -> at_positions events ps es -> at_positions (<[p := e]> events) ps es.
Proof.
  intros Hp. rewrite !at_positions_map. intros <-. apply map_ext_in. intros i Hi.
  apply list_elem_of_In in Hi. rewrite list_lookup_insert_ne; [done|]. by intros ->.
Qed.

(** A set of positions that holds exactly the events of a key. *)
Lemma positions_events_of (key : bytes) (events : list AnswerEvent) (ps : list nat)
    (es : list AnswerEvent) :
  NoDup ps -> at_positions events ps es ->
  (forall i, i ∈ ps <-> event_key <$> events !! i = Some key) -> es ≡ₚ events_of key events.
Proof.
  intros Hnd Hat Hin. apply at_positions_map in Hat. pose proof (filter_positions key events) as Hf.
  assert (ps ≡ₚ filter (fun i => event_key <$> events !! i = Some key) (seq 0 (length events))) as Hp.
  { apply NoDup_Permutation; [done|apply NoDup_filter, NoDup_seq|]. intros i.
    rewrite list_elem_of_filter, Hin, elem_of_seq. split; [|tauto]. intros H. split; [done|].
    destruct (events !! i) eqn:E; [|done]. apply lookup_lt_Some in E. lia. }
  assert (map Some es ≡ₚ map Some (events_of key events)) as Hm
    by (rewrite <- Hat, <- Hf; by apply Permutation_map).
  assert (forall l : list AnswerEvent, omap id (map Some l) = l) as Hid
    by (intros l; induction l as [|x l IH]; [done|]; cbn; by rewrite IH).
  apply (omap_Permutation id) in Hm. by rewrite !Hid in Hm.
Qed.

(** Two lists that differ only in events of one key. *)
Lemma events_of_same (key k : bytes) (events events' : list AnswerEvent) :
  key <> k ->
  Forall2 (fun x y => x = y \/ event_key x = k /\ event_key y = k) events events' ->
  events_of key events = events_of key events'.
Proof.
  intros Hne. induction 1 as [|x y l l' [->|[Hx Hy]] _ IH]; [done| |]; unfold events_of in *;
    rewrite !filter_cons.
  - by rewrite IH.
  - destruct (decide (event_key x = key)), (decide (event_key y = key)); congruence.
Qed.

(** The positions of a session, in the order of its pending events. *)
Lemma session_indices_spec (events pend : list AnswerEvent) (key : bytes) (m : Z) :
  pend ≡ₚ events_of key events -> map ev_sequence pend = seqZ m (len pend) ->
  NoDup (session_indices events key) /\ at_positions events (session_indices events key) pend /\
  (forall i, i ∈ session_indices events key <-> event_key <$> events !! i = Some key).
Proof.
  intros Hp Hs. unfold session_indices.
  set (ps := filter (fun i => event_key <$> events !! i = Some key) (seq 0 (length events))).
  assert (forall i, i ∈ ps <-> event_key <$> events !! i = Some key) as Hin.
  { intros i. unfold ps. rewrite list_elem_of_filter, elem_of_seq. split; [tauto|]. intros Hi.
    split; [done|]. destruct (events !! i) eqn:E; [|done]. apply lookup_lt_Some in E. lia. }
  assert (merge_sort (position_le events) ps ≡ₚ ps) as Hperm by apply merge_sort_Permutation.
  split_and!; [rewrite Hperm; apply NoDup_filter, NoDup_seq| |by intros i; rewrite Hperm].
  assert (StronglySorted (position_le events) (merge_sort (position_le events) ps)) as Hsorted.
  { apply StronglySorted_merge_sort.
    - intros a b c. unfold position_le. lia.
    - intros a b. unfold position_le. lia. }
  assert (exists es, map (fun i => events !! i) (merge_sort (position_le events) ps) = map Some es /\
    es ≡ₚ pend) as (es & Hes & Hpes).
  { assert (map (fun i => events !! i) (merge_sort (position_le events) ps) ≡ₚ
      map Some (events_of key events)) as Hm
      by (rewrite <- filter_positions; by apply Permutation_map).
    apply Permutation_map_inv in Hm as (es & Hes & Hpes).
    exists es. split; [done|]. by rewrite Hp, Hpes. }
  apply at_positions_map. rewrite Hes. f_equal. symmetry.
  apply (StronglySorted_unique_strong sequence_le).
  - intros x y Hx Hy ? ?. rewrite Hpes in Hy. eapply seqZ_inj; try done. unfold sequence_le in *. lia.
  - by eapply seqZ_sorted.
  - clear -Hes Hsorted. revert es Hes. induction Hsorted as [|i ps' Hs IH Hall]; intros es Hes.
    + destruct es; [constructor|done].
    + destruct es as [|e es]; [done|]. cbn [map] in Hes. injection Hes as Hi Hes.
      constructor; [by apply IH|]. apply at_positions_map in Hes.
      apply Forall_forall. intros x Hx. apply list_elem_of_lookup in Hx as [j Hj].
      destruct (Forall2_lookup_r _ _ _ _ _ Hes Hj) as (i' & Hi' & He').
      rewrite Forall_forall in Hall. specialize (Hall i' (list_elem_of_lookup_2 _ _ _ Hi')).
      unfold position_le in Hall. rewrite Hi, He' in Hall. exact Hall.
  - by symmetry.
Qed.

(** The later events of a session, linked again behind a digest. *)
Fixpoint relink (previous : bytes) (events : list AnswerEvent) : list AnswerEvent :=
  match events with
  | [] => []
  | e :: rest =>
      let e' := set_previous e previous in e' :: relink (digest_of e') rest
  end.

Definition last_digest_from (previous : bytes) (events : list AnswerEvent) : bytes :=
  match last events with Some e => digest_of e | None => previous end.

Lemma set_previous_wf (e : AnswerEvent) (h : bytes) :
  wf_event e -> 1 < ev_sequence e -> length h = 32%nat -> wf_event (set_previous e h).
Proof.
  intros (Hv & ? & ? & ? & ? & ? & ? & ?) Hs Hl. split; [|by split_and!].
  unfold validate_answer_event in *. cbn. destruct (Z.eqb_spec (ev_sequence e) 1); [lia|exact Hv].
Qed.

Lemma relink_facts (events : list AnswerEvent) : forall h : bytes,
  Forall wf_event events -> Forall (fun e => 1 < ev_sequence e) events -> length h = 32%nat ->
  Forall wf_event (relink h events) /\ chained h (relink h events) /\
  map ev_sequence (relink h events) = map ev_sequence events /\
  length (relink h events) = length events.
Proof.
  induction events as [|e events IH]; intros h Hwf Hs Hl; [by repeat constructor|].
  apply Forall_cons in Hwf as [He Hwf]. apply Forall_cons in Hs as [Hse Hs].
  pose proof (set_previous_wf e h He Hse Hl) as He'. destruct (event_digest _ He') as (_ & Hd & _).
  destruct (IH _ Hwf Hs Hd) as (H1 & H2 & H3 & H4). cbn [relink map length]. split_and!.
  - by constructor.
  - by constructor.
  - by rewrite H3.
  - by rewrite H4.
Qed.

(** The loop over the later positions always succeeds on contiguous events. *)
Lemma rebase_rest_spec (ps : list nat) :
  forall (after events : list AnswerEvent) (previous : AnswerEvent) (h : bytes),
  NoDup ps -> at_positions events ps after -> 1 <= ev_sequence previous ->
  map ev_sequence after = seqZ (ev_sequence previous + 1) (len after) ->
  Forall wf_event after -> length h = 32%nat ->
  exists events', rebase_rest events previous h ps = Ok (events', last_digest_from h (relink h after)) /\
    at_positions events' ps (relink h after) /\
    (forall i, i ∉ ps -> events' !! i = events !! i) /\ length events' = length events.
Proof.
  induction ps as [|p ps IH]; intros after events previous h Hnd Hat Hpos Hs Hwf Hl.
  { apply Forall2_nil_inv_l in Hat as ->. exists events. by split_and!; [|constructor|..]. }
  apply Forall2_cons_inv_l in Hat as (e & after' & Hp & Hat & ->).
  apply NoDup_cons in Hnd as [Hnin Hnd]. apply Forall_cons in Hwf as [He Hwf].
  pose proof (len_nonneg after'). rewrite len_cons, seqZ_cons in Hs by lia.
  cbn [map] in Hs. injection Hs as Hse Hs. unfold Z.succ in Hs.
  replace (Z.pred (len after' + 1)) with (len after') in Hs by lia.
  pose proof (wf_event_sequence _ He) as Hb. cbn [rebase_rest]. rewrite Hp.
  destruct (_ || _) eqn:E; [exfalso; apply orb_true_iff in E as [E|E]; bool_to_prop; [lia|];
    apply E; ulia|]. clear E.
  set (e' := set_previous e h).
  assert (wf_event e') as He' by (apply set_previous_wf; done || lia).
  destruct (event_digest e' He') as (-> & Hd & _).
  assert (at_positions (<[p := e']> events) ps after') as Hat'.
  { by apply at_positions_insert. }
  destruct (IH after' (<[p := e']> events) e' (digest_of e') Hnd Hat' ltac:(cbn; lia)
    ltac:(cbn; by rewrite Hse) Hwf Hd) as (events' & Hr & Hat2 & Hother & Hlen).
  exists events'. split_and!.
  - rewrite Hr. do 2 f_equal. unfold last_digest_from. cbn [relink]. fold e'.
    rewrite last_cons. by destruct (last (relink (digest_of e') after')).
  - cbn [relink]. constructor; [|exact Hat2]. fold e'. rewrite Hother by done.
    rewrite list_lookup_insert_eq; [done|]. by apply lookup_lt_Some in Hp.
  - intros i [Hne Hi]%not_elem_of_cons. rewrite Hother by done. by rewrite list_lookup_insert_ne.
  - by rewrite Hlen, length_insert.
Qed.

(** An event without its predecessor's digest. *)
Definition body (e : AnswerEvent) : AnswerEvent := set_previous e [].

Lemma same_body (x y : AnswerEvent) :
  same_event_body_except_predecessor x y = true -> body x = body y.
Proof.
  unfold same_event_body_except_predecessor, body, set_previous. intros H. bool_to_prop.
  f_equal; done.
Qed.

Lemma body_fields (x y : AnswerEvent) :
  body x = body y -> ev_sequence x = ev_sequence y /\ ev_kind x = ev_kind y /\
  event_key x = event_key y /\
  forall w, same_watermark_context w x = same_watermark_context w y.
Proof.
  unfold body, set_previous, event_key, same_watermark_context. intros E.
  injection E as -> -> -> -> -> E6 E7 -> E9 -> E11. done.
Qed.

(** What depends on the bodies of a list of events only. *)
Lemma bodies_fields (l l' : list AnswerEvent) :
  map body l = map body l' ->
  map ev_sequence l = map ev_sequence l' /\ len l = len l' /\
  (forall b, pending_finalized b l = pending_finalized b l') /\
  forall w, Forall (fun e => same_watermark_context w e = true) l ->
            Forall (fun e => same_watermark_context w e = true) l'.
Proof.
  revert l'. induction l as [|x l IH]; intros [|y l'] E; try done. cbn [map] in E.
  apply cons_eq_inj in E as [Hxy E].
  destruct (body_fields x y Hxy) as (Hs & Hk & _ & Hc). destruct (IH l' E) as (H1 & H2 & H3 & H4).
  split_and!.
  - cbn [map]. by rewrite Hs, H1.
  - by rewrite !len_cons, H2.
  - intros b. cbn [pending_finalized]. by rewrite Hk, H3.
  - intros w [Hw Hl]%Forall_cons. constructor; [by rewrite <- Hc|by apply H4].
Qed.

Lemma relink_bodies (events : list AnswerEvent) : forall h : bytes,
  map body (relink h events) = map body events.
Proof. induction events as [|e events IH]; intros h; [done|]. cbn [relink map]. by rewrite IH. Qed.

(** The boundary of a session after its first event may have been rebased. *)
Definition rebased_boundary (w w' : OutboxWatermark) (before : list AnswerEvent)
    (e : AnswerEvent) : Prop :=
  match last before with
  | Some previous => w' = w /\ ev_previous_event_hash e = digest_of previous
  | None => w' = set_acknowledged w (wm_acknowledged_sequence w) (ev_previous_event_hash e) /\
      (if ev_sequence e =? 1 then all_zero (ev_previous_event_hash e) = true
       else all_zero (ev_previous_event_hash e) = false)
  end.

Lemma rebased_boundary_valid (w w' : OutboxWatermark) (pend before after : list AnswerEvent)
    (existing e : AnswerEvent) :
  session_ok w pend -> pend = before ++ existing :: after -> wf_event e -> body existing = body e ->
  rebased_boundary w w' before e ->
  valid_watermark w' = true /\ typed_watermark w' /\
  wm_acknowledged_sequence w' = wm_acknowledged_sequence w /\
  wm_highest_sequence w' = wm_highest_sequence w /\ wm_finalized w' = wm_finalized w /\
  watermark_key w' = watermark_key w /\
  (forall x, same_watermark_context w' x = same_watermark_context w x) /\
  chained (wm_acknowledged_hash w') before /\
  ev_previous_event_hash e = last_digest_from (wm_acknowledged_hash w') before.
Proof.
  intros [Hv Ht Hctx Hs Hc Hh Hl Hf] -> He Hbody Hb. apply chained_app in Hc as [Hc _].
  destruct (body_fields _ _ Hbody) as (Hse & _). unfold rebased_boundary in Hb.
  unfold last_digest_from. destruct (last before) as [p|] eqn:El.
  - destruct Hb as [-> ->]. by split_and!.
  - apply last_None in El as ->. destruct Hb as [-> Hz]. cbn [app map] in Hs.
    rewrite seqZ_cons in Hs by (rewrite len_cons; pose proof (len_nonneg after); lia).
    injection Hs as Hse' _. pose proof (wf_event_sequence e He).
    destruct Ht as (? & ? & ? & ? & ? & ? & ? & ? & ?).
    destruct He as (_ & _ & _ & _ & Lp & _).
    split_and!; try done.
    unfold valid_watermark in *. cbn. bool_to_prop.
    repeat (apply andb_true_iff; split); rewrite ?negb_true_iff;
      try done; try (by apply bool_decide_eq_false_2); try lia.
    destruct (Z.eqb_spec (ev_sequence e) 1), (Z.eqb_spec (wm_acknowledged_sequence w) 0);
      rewrite ?negb_true_iff; try done; lia.
Qed.

(** The events behind another have later sequences. *)
Lemma later_sequences (before after : list AnswerEvent) (x : AnswerEvent) (m : Z) :
  map ev_sequence (before ++ x :: after) = seqZ m (len (before ++ x :: after)) ->
  1 <= ev_sequence x -> map ev_sequence after = seqZ (ev_sequence x + 1) (len after) /\
  Forall (fun e => 1 < ev_sequence e) after.
Proof.
  intros Hs Hx. rewrite map_app in Hs. cbn [map] in Hs. pose proof (len_nonneg before).
  pose proof (len_nonneg after). rewrite len_app, len_cons in Hs. rewrite seqZ_app in Hs by lia.
  apply app_inj_1 in Hs as [_ Hs]; [|rewrite length_map, length_seqZ; unfold len; lia].
  rewrite seqZ_cons in Hs by lia. injection Hs as Hxs Hs. rewrite Hxs.
  replace (Z.pred (len after + 1)) with (len after) in Hs by lia. split; [exact Hs|].
  apply Forall_forall. intros e Hin. pose proof (seqZ_in _ _ _ Hs Hin). lia.
Qed.

(** A session after a rebase: same numbers and bodies, linked again. *)
Lemma session_rebased (w w' : OutboxWatermark) (before after : list AnswerEvent)
    (existing e : AnswerEvent) :
  session_ok w (before ++ existing :: after) -> Forall wf_event (before ++ existing :: after) ->
  wf_event e -> body existing = body e -> rebased_boundary w w' before e ->
  let after' := relink (digest_of e) after in
  session_ok (set_top w' (wm_highest_sequence w') (last_digest_from (digest_of e) after')
                (wm_finalized w'))
    (before ++ e :: after') /\
  map body (before ++ e :: after') = map body (before ++ existing :: after) /\
  Forall wf_event (before ++ e :: after').
Proof.
  intros Hok Hwf He Hbody Hb after'.
  destruct (rebased_boundary_valid _ _ _ _ _ _ _ Hok eq_refl He Hbody Hb)
    as (Hv & Ht & Ha & Hh & Hfin & _ & Hctx & Hcb & Hprev).
  destruct (body_fields _ _ Hbody) as (Hse & _). pose proof (wf_event_sequence e He) as Hs1.
  destruct (event_digest e He) as (_ & Hd & Hdz).
  destruct Hok as [_ _ Hc Hs Hch Hhigh Hl Hf].
  apply Forall_app in Hwf as [Hwb [_ Hwa]%Forall_cons].
  destruct (later_sequences _ _ _ _ Hs ltac:(lia)) as [_ Hgt].
  destruct (relink_facts after (digest_of e) Hwa Hgt Hd) as (Hwf' & Hch' & _).
  assert (map body (before ++ e :: after') = map body (before ++ existing :: after)) as Hbodies
    by (rewrite !map_app; cbn [map]; unfold after'; by rewrite relink_bodies, Hbody).
  destruct (bodies_fields _ _ (eq_sym Hbodies)) as (Hs' & Hlen' & Hf' & Hc').
  assert (all_zero (last_digest_from (digest_of e) after') = false /\
    length (last_digest_from (digest_of e) after') = 32%nat) as [Hlz Hll].
  { unfold last_digest_from. destruct (last after') as [x|] eqn:El; [|done].
    apply last_Some_elem_of in El. rewrite Forall_forall in Hwf'.
    by destruct (event_digest x (Hwf' x El)) as (_ & ? & ?). }
  split_and!; [|exact Hbodies|apply Forall_app; by split; [|constructor]].
  destruct Ht as (? & ? & ? & ? & ? & ? & ? & ? & ?). constructor.
  - unfold valid_watermark in *. cbn. bool_to_prop.
    repeat (apply andb_true_iff; split); rewrite ?negb_true_iff;
      try done; try (by apply bool_decide_eq_false_2); lia.
  - unfold typed_watermark. by split_and!.
  - apply Hc' in Hc. eapply Forall_impl; [exact Hc|]. intros x Hx.
    change (same_watermark_context w' x = true). by rewrite Hctx.
  - cbn. by rewrite Ha, <- Hs', <- Hlen'.
  - cbn. apply chained_app. by split; [|split].
  - cbn. by rewrite Hh, Ha, Hhigh, Hlen'.
  - cbn. rewrite last_app, last_cons. unfold last_digest_from. by destruct (last after').
  - intros _. cbn. rewrite Hfin, <- Hf', Hf; [done|]. by destruct before.
Qed.

(** The pending events of a session in order. *)
Definition session_queue (key : bytes) (events : list AnswerEvent) : list AnswerEvent :=
  merge_sort sequence_le (events_of key events).

Lemma session_queue_of (events : list AnswerEvent) (watermarks : Watermarks) (key : bytes)
    (w : OutboxWatermark) :
  outbox_ok events watermarks -> watermarks !! key = Some w ->
  session_queue key events ≡ₚ events_of key events /\ session_ok w (session_queue key events) /\
  Forall wf_event (session_queue key events) /\ watermark_key w = key.
Proof.
  intros Hok Hw. destruct (ok_sessions _ _ Hok key w Hw) as (Hk & pend & Hp & Hs).
  assert (session_queue key events = pend) as ->
    by (unfold session_queue; by apply (sort_pending _ _ _ Hp (sk_sequences _ _ Hs))).
  split_and!; try done. rewrite Hp. apply Forall_forall. intros e [_ He]%events_of_elem.
  pose proof (ok_events _ _ Hok) as H. rewrite Forall_forall in H. by apply H.
Qed.

Lemma rebase_predecessor_spec (events before : list AnswerEvent) (w w' : OutboxWatermark)
    (e : AnswerEvent) (ps : list nat) (position : option nat) :
  at_positions events ps before -> position = last ps -> Forall wf_event before -> wf_event e ->
  rebase_predecessor events w e position = Ok w' -> rebased_boundary w w' before e.
Proof.
  intros Hat -> Hwf He. unfold rebase_predecessor, rebased_boundary.
  destruct (last ps) as [p|] eqn:El.
  - rewrite last_lookup in El. destruct (Forall2_lookup_l _ _ _ _ _ Hat El) as (x & Hx & ->).
    assert (last before = Some x) as ->.
    { rewrite last_lookup. rewrite <- (Forall2_length _ _ _ Hat). exact Hx. }
    rewrite Forall_forall in Hwf. destruct (event_digest x (Hwf x (list_elem_of_lookup_2 _ _ _ Hx)))
      as (-> & _). unfold same_digest. case_bool_decide; [|discriminate]. by intros [= <-].
  - apply last_None in El as ->. apply Forall2_nil_inv_l in Hat as ->. cbn [last].
    destruct (_ || _ || _) eqn:E; [discriminate|]. intros [= <-]. split; [done|].
    apply orb_false_iff in E as [_ E].
    destruct (ev_sequence e =? 1); [by apply negb_false_iff in E|done].
Qed.

(** The position of an event among the positions of its session. *)
Lemma index_split (events pend : list AnswerEvent) (ps : list nat) (index : nat)
    (existing : AnswerEvent) :
  at_positions events ps pend -> NoDup ps -> index ∈ ps -> events !! index = Some existing ->
  exists ps1 ps2 before after, ps = ps1 ++ index :: ps2 /\
    pend = before ++ existing :: after /\ at_positions events ps1 before /\
    at_positions events ps2 after /\ index ∉ ps1 /\ index ∉ ps2 /\
    list_find (fun i => i = index) ps = Some (length ps1, index).
Proof.
  intros Hat Hnd Hin Hx. apply list_elem_of_split in Hin as (ps1 & ps2 & ->).
  apply NoDup_app in Hnd as (_ & Hn1 & [Hn2 _]%NoDup_cons).
  apply Forall2_app_inv_l in Hat as (before & rest & Hb & Hr & ->).
  apply Forall2_cons_inv_l in Hr as (x & after & Hix & Ha & ->). rewrite Hx in Hix.
  injection Hix as <-. exists ps1, ps2, before, after.
  assert (index ∉ ps1) as Hi1 by (intros H; by apply (Hn1 index H); left).
  split_and!; try done. rewrite list_find_app_r.
  { cbn. rewrite decide_True by done. cbn. repeat f_equal; lia. }
  apply list_find_None. apply Forall_forall. by intros i Hi ->.
Qed.

(** Replacing the events at the positions of a session. *)
Lemma replace_positions (events events2 pend' : list AnswerEvent) (ps : list nat) (key : bytes) :
  NoDup ps -> (forall i, i ∈ ps <-> event_key <$> events !! i = Some key) ->
  at_positions events2 ps pend' -> length events2 = length events ->
  (forall i, i ∉ ps -> events2 !! i = events !! i) ->
  Forall (fun e => event_key e = key) pend' ->
  pend' ≡ₚ events_of key events2 /\
  (forall k, k <> key -> events_of k events2 = events_of k events) /\
  (forall x, x ∈ events2 -> x ∈ pend' \/ x ∈ events).
Proof.
  intros Hnd Hin Hat Hlen Hother Hkeys.
  assert (forall i, i ∈ ps -> exists x, events2 !! i = Some x /\ x ∈ pend' /\ event_key x = key) as Hps.
  { intros i Hi. apply list_elem_of_lookup in Hi as [j Hj].
    destruct (Forall2_lookup_l _ _ _ _ _ Hat Hj) as (x & Hx & Hix). exists x.
    rewrite Forall_forall in Hkeys. pose proof (list_elem_of_lookup_2 _ _ _ Hx). auto. }
  assert (forall i, i ∈ ps <-> event_key <$> events2 !! i = Some key) as Hin2.
  { intros i. destruct (decide (i ∈ ps)) as [Hi|Hi].
    - destruct (Hps i Hi) as (x & -> & _ & <-). done.
    - rewrite Hother by done. apply Hin. }
  split_and!.
  - by eapply positions_events_of.
  - intros k Hk. apply events_of_same with key; [done|].
    apply Forall2_same_length_lookup. split; [done|]. intros i x y Hx Hy.
    destruct (decide (i ∈ ps)) as [Hi|Hi].
    + right. pose proof (proj1 (Hin i) Hi) as H1. pose proof (proj1 (Hin2 i) Hi) as H2.
      rewrite Hy in H1. rewrite Hx in H2. cbn in H1, H2. naive_solver.
    + left. rewrite Hother in Hx by done. congruence.
  - intros x [i Hi]%list_elem_of_lookup. destruct (decide (i ∈ ps)) as [Hip|Hip].
    + left. destruct (Hps i Hip) as (x' & Hx' & ? & _). by simplify_eq.
    + right. rewrite Hother in Hi by done. by eapply list_elem_of_lookup_2.
Qed.

Lemma rebase_ok (events events' : list AnswerEvent) (watermarks watermarks' : Watermarks)
    (w : OutboxWatermark) (e existing : AnswerEvent) (index : nat) :
  outbox_ok events watermarks -> watermarks !! event_key e = Some w ->
  events !! index = Some existing -> body existing = body e -> wf_event e ->
  rebase events watermarks w e (digest_of e) index = Ok (events', watermarks') ->
  outbox_ok events' watermarks' /\
  (forall key, map body (session_queue key events') = map body (session_queue key events)) /\
  exists w', watermarks' = <[event_key e := w']> watermarks /\
    wm_acknowledged_sequence w' = wm_acknowledged_sequence w /\
    wm_highest_sequence w' = wm_highest_sequence w.
Proof.
  intros Hok Hw Hx Hbody He. destruct (session_queue_of _ _ _ _ Hok Hw) as (Hp & Hs & Hwf & Hk).
  destruct (body_fields _ _ Hbody) as (Hse & _ & Hkey & _).
  destruct (session_indices_spec _ _ _ _ Hp (sk_sequences _ _ Hs)) as (Hnd & Hat & Hin).
  assert (index ∈ session_indices events (event_key e)) as Hix
    by (apply Hin; by rewrite Hx; cbn; rewrite Hkey).
  destruct (index_split _ _ _ _ _ Hat Hnd Hix Hx)
    as (ps1 & ps2 & before & after & Eps & Epend & Hat1 & Hat2 & Hi1 & Hi2 & Hfind).
  unfold rebase. rewrite Hfind. rewrite Eps, Epend in *.
  assert (drop (S (length ps1)) (ps1 ++ index :: ps2) = ps2) as ->.
  { rewrite drop_app_ge by lia. by replace (S (length ps1) - length ps1)%nat with 1%nat by lia. }
  destruct (rebase_predecessor _ _ _ _) as [w1|] eqn:Epre; [|discriminate].
  pose proof Hwf as [Hwb [_ Hwa]%Forall_cons]%Forall_app.
  pose proof (sk_sequences _ _ Hs) as Hsq. pose proof (wf_event_sequence e He) as Hse1.
  destruct (later_sequences _ _ _ _ Hsq ltac:(lia)) as [Hsa _].
  assert (rebased_boundary w w1 before e) as Hbound.
  { eapply (rebase_predecessor_spec _ _ _ _ _ ps1); [done| |done|done|exact Epre].
    destruct ps1 as [|p ps1] using rev_ind; [done|]. rewrite length_app, last_snoc, Nat.add_1_r.
    rewrite <- app_assoc. by apply list_lookup_middle. }
  destruct (session_rebased w w1 before after existing e Hs Hwf He Hbody Hbound)
    as (Hs' & Hbodies & Hwf').
  destruct (event_digest e He) as (_ & Hd & _).
  destruct (rebase_rest_spec ps2 after (<[index := e]> events) e (digest_of e))
    as (events2 & -> & Hat' & Hother & Hlen); try done; try lia.
  { by apply NoDup_app in Hnd as (_ & _ & [_ ?]%NoDup_cons). }
  { by apply at_positions_insert. }
  { by rewrite <- Hse. }
  intros [= <- <-].
  destruct (rebased_boundary_valid _ _ _ _ _ _ _ Hs eq_refl He Hbody Hbound)
    as (_ & _ & Ha & Hh & _ & Hwk & _).
  set (pend' := before ++ e :: relink (digest_of e) after) in *.
  assert (Forall (fun x => event_key x = event_key e) pend') as Hkeys.
  { eapply Forall_impl; [apply (sk_context _ _ Hs')|]. intros x Hcx.
    apply context_key in Hcx as <-. by rewrite <- Hk, <- Hwk. }
  assert (at_positions events2 (ps1 ++ index :: ps2) pend') as Hat2'.
  { apply Forall2_app.
    - apply at_positions_map. rewrite <- (proj1 (at_positions_map _ _ _) Hat1).
      apply map_ext_in. intros i Hi. apply list_elem_of_In in Hi.
      assert (i <> index) by (by intros ->). rewrite Hother, list_lookup_insert_ne by
        (done || (intros Hi3; apply NoDup_app in Hnd as (_ & Hn & _); by apply (Hn i Hi); right)). done.
    - constructor; [|exact Hat']. rewrite Hother by done. apply list_lookup_insert_eq.
      by apply lookup_lt_Some in Hx. }
  destruct (replace_positions events events2 pend' _ _ Hnd Hin Hat2') as (Hp' & Hsame & Hmem);
    [by rewrite Hlen, length_insert| |done|].
  { intros i [Hi1' [Hi2' Hi3']%not_elem_of_cons]%not_elem_of_app.
    rewrite Hother by done. by apply list_lookup_insert_ne. }
  split_and!.
  - apply (outbox_ok_update events _ pend'); try done.
    + apply Forall_forall. intros x [Hxp|Hxe]%Hmem; [by rewrite Forall_forall in Hwf'; apply Hwf'|].
      pose proof (ok_events _ _ Hok) as H. rewrite Forall_forall in H. by apply H.
    + unfold len. rewrite Hlen, length_insert. apply (ok_quota _ _ Hok).
    + intros key Hne. by rewrite Hsame.
    + by rewrite <- Hk, <- Hwk.
  - intros key. destruct (decide (key = event_key e)) as [->|Hne].
    + rewrite Epend, <- Hbodies. f_equal. apply (sort_pending _ _ _ Hp' (sk_sequences _ _ Hs')).
    + unfold session_queue. by rewrite Hsame.
  - eexists. split; [done|]. cbn. by rewrite Ha, Hh.
Qed.

(** ** The history behind an outbox *)

(** [queued] are the events accepted so far, each sequence once: a session's are
    numbered from one, and the pending ones are those above the acknowledged
    sequence, up to their predecessors. *)
Definition history (queued events : list AnswerEvent) (watermarks : Watermarks) : Prop :=
  forall key,
    match watermarks !! key with
    | None => events_of key queued = []
    | Some w =>
        map ev_sequence (events_of key queued) = seqZ 1 (wm_highest_sequence w) /\
        map body (session_queue key events) =
          drop (Z.to_nat (wm_acknowledged_sequence w)) (map body (events_of key queued))
    end.

Definition queued_before (queued : list AnswerEvent) (e : AnswerEvent) : bool :=
  existsb (fun f => bool_decide (event_key f = event_key e) && (ev_sequence f =? ev_sequence e))
    queued.

Lemma queued_before_iff (queued events : list AnswerEvent) (watermarks : Watermarks)
    (e : AnswerEvent) :
  history queued events watermarks ->
  queued_before queued e = true <->
  exists w, watermarks !! event_key e = Some w /\
    1 <= ev_sequence e <= wm_highest_sequence w.
Proof.
  intros Hh. specialize (Hh (event_key e)). unfold queued_before. rewrite existsb_exists. split.
  - intros (f & Hf & H). apply list_elem_of_In in Hf. bool_to_prop.
    assert (f ∈ events_of (event_key e) queued) as Hin by (by apply events_of_elem).
    destruct (watermarks !! event_key e) as [w|].
    + destruct Hh as [Hs _]. exists w. split; [done|].
      assert (ev_sequence f ∈ map ev_sequence (events_of (event_key e) queued)) as Hm
        by (by apply list_elem_of_fmap_2).
      rewrite Hs in Hm. apply elem_of_seqZ in Hm. lia.
    + rewrite Hh in Hin. by apply not_elem_of_nil in Hin.
  - intros (w & Hw & Hb). rewrite Hw in Hh. destruct Hh as [Hs _].
    assert (ev_sequence e ∈ map ev_sequence (events_of (event_key e) queued)) as Hm
      by (rewrite Hs; apply elem_of_seqZ; lia).
    apply list_elem_of_fmap in Hm as (f & Hf & Hin). apply events_of_elem in Hin as [Hk Hin].
    exists f. split; [by apply list_elem_of_In|].
    rewrite bool_decide_eq_true_2 by done. cbn. lia.
Qed.

(** What queueing an event does to a good outbox. *)
Inductive queue_effect (events : list AnswerEvent) (watermarks : Watermarks) (e : AnswerEvent)
    : list AnswerEvent -> Watermarks -> Prop :=
  | queue_added w w' :
      ev_sequence e = wm_highest_sequence w + 1 -> wm_highest_sequence w' = ev_sequence e ->
      wm_acknowledged_sequence w' = wm_acknowledged_sequence w ->
      (watermarks !! event_key e = Some w \/
       watermarks !! event_key e = None /\ wm_highest_sequence w = 0 /\
       wm_acknowledged_sequence w = 0) ->
      queue_effect events watermarks e (events ++ [e]) (<[event_key e := w']> watermarks)
  | queue_rebased w w' events' :
      watermarks !! event_key e = Some w -> 1 <= ev_sequence e <= wm_highest_sequence w ->
      wm_highest_sequence w' = wm_highest_sequence w ->
      wm_acknowledged_sequence w' = wm_acknowledged_sequence w ->
      (forall key, map body (session_queue key events') = map body (session_queue key events)) ->
      queue_effect events watermarks e events' (<[event_key e := w']> watermarks).

Lemma add_pending_effect (events events' : list AnswerEvent) (watermarks watermarks' : Watermarks)
    (e : AnswerEvent) (h : bytes) :
  outbox_ok events watermarks ->
  add_pending events watermarks e h = Ok (Some (events', watermarks')) ->
  queue_effect events watermarks e events' watermarks'.
Proof.
  intros Hok. unfold add_pending. destruct (watermarks !! event_key e) as [w|] eqn:Ew.
  - destruct (extends_watermark w e h) as [[]|] eqn:Ex; [|discriminate..].
    destruct (_ >=? _); [discriminate|]. intros [= <- <-].
    destruct (session_queue_of _ _ _ _ Hok Ew) as (_ & Hs & _).
    pose proof (sk_typed _ _ Hs) as (_ & _ & _ & _ & _ & Hu & _).
    unfold extends_watermark in Ex. destruct (negb _) in Ex; [discriminate|].
    destruct (wm_finalized w); [by destruct (_ && _) in Ex|].
    destruct (_ <=? _) eqn:E1 in Ex; [by destruct (_ && _) in Ex|].
    destruct (_ || _) eqn:E2 in Ex; [discriminate|]. bool_to_prop.
    eapply (queue_added _ _ _ w); [ulia|done|done|by left].
  - destruct (_ || _) eqn:E; [discriminate|]. destruct (_ >=? _); [discriminate|].
    intros [= <- <-]. bool_to_prop.
    apply (queue_added _ _ _ (watermark_for e h 0)); [cbn; lia|done|done|]. by right.
Qed.

Lemma queue_change_effect (events events' : list AnswerEvent) (watermarks watermarks' : Watermarks)
    (e : AnswerEvent) :
  outbox_ok events watermarks -> wf_event e ->
  queue_change events watermarks e (digest_of e) = Ok (Some (events', watermarks')) ->
  outbox_ok events' watermarks' /\ queue_effect events watermarks e events' watermarks'.
Proof.
  intros Hok He. unfold queue_change.
  destruct (list_find _ events) as [[index existing]|] eqn:Ef.
  - apply list_find_Some in Ef as (Hx & [Hk Hs] & _). unfold requeue.
    case_bool_decide; [discriminate|].
    destruct (watermarks !! event_key e) as [w|] eqn:Ew; [|discriminate].
    destruct (negb _) eqn:Eb; [discriminate|]. destruct (_ || _); [discriminate|].
    destruct (rebase _ _ _ _ _ _) as [change|] eqn:Er; [|discriminate]. intros [= ->].
    apply negb_false_iff, same_body in Eb.
    destruct (rebase_ok _ _ _ _ _ _ _ _ Hok Ew Hx Eb He Er) as (Hok' & Hq & w' & -> & Ha & Hh).
    split; [done|]. destruct (session_queue_of _ _ _ _ Hok Ew) as (Hp & Hsess & _).
    destruct (session_identity _ _ _ _ existing Hp Hsess) as (_ & _ & Hb);
      [by eapply list_elem_of_lookup_2|done|]. pose proof (wf_event_sequence e He).
    eapply queue_rebased; done || lia.
  - intros Ha. destruct (add_pending_ok _ _ _ _ _ Hok He Ha) as [_ ?]. split; [done|].
    by eapply add_pending_effect.
Qed.

(** Nothing to do: the sequence was queued before. *)
Lemma queue_change_none (queued events : list AnswerEvent) (watermarks : Watermarks)
    (e : AnswerEvent) :
  outbox_ok events watermarks -> history queued events watermarks -> wf_event e ->
  queue_change events watermarks e (digest_of e) = Ok None -> queued_before queued e = true.
Proof.
  intros Hok Hh He Hq. rewrite queued_before_iff by done. pose proof (wf_event_sequence e He).
  unfold queue_change in Hq. destruct (list_find _ events) as [[index existing]|] eqn:Ef.
  - apply list_find_Some in Ef as (Hx & [Hk Hs] & _). apply list_elem_of_lookup_2 in Hx.
    destruct (ok_known _ _ Hok existing Hx) as [w Hw]. rewrite Hk in Hw.
    destruct (session_queue_of _ _ _ _ Hok Hw) as (Hp & Hsess & _).
    destruct (session_identity _ _ _ _ existing Hp Hsess Hx Hk) as (_ & _ & Hb).
    exists w. split; [done|]. lia.
  - unfold add_pending in Hq. destruct (watermarks !! event_key e) as [w|].
    + exists w. split; [done|]. unfold extends_watermark in Hq.
      repeat match type of Hq with context [if ?b then _ else _] => destruct b eqn:?; try discriminate end;
      bool_to_prop; lia.
    + repeat match type of Hq with context [if ?b then _ else _] => destruct b eqn:?; try discriminate end.
Qed.

Lemma session_queue_unknown (events : list AnswerEvent) (watermarks : Watermarks) (key : bytes) :
  outbox_ok events watermarks -> watermarks !! key = None -> events_of key events = [].
Proof.
  intros Hok Hnone. destruct (events_of key events) as [|x l] eqn:Ex; [done|].
  assert (x ∈ events_of key events) as [Hk Hx]%events_of_elem by (rewrite Ex; by left).
  destruct (ok_known _ _ Hok x Hx) as [w Hw]. by rewrite Hk, Hnone in Hw.
Qed.

Lemma session_queue_snoc (events : list AnswerEvent) (e : AnswerEvent) (m : Z) :
  map ev_sequence (session_queue (event_key e) events) =
    seqZ m (len (session_queue (event_key e) events)) ->
  ev_sequence e = m + len (session_queue (event_key e) events) ->
  session_queue (event_key e) (events ++ [e]) = session_queue (event_key e) events ++ [e].
Proof.
  intros Hs He. set (q := session_queue (event_key e) events) in *.
  assert (map ev_sequence (q ++ [e]) = seqZ m (len (q ++ [e]))) as Hs'.
  { rewrite map_app, Hs, len_app, len_cons, len_nil, Z.add_0_l, seqZ_snoc by apply len_nonneg.
    cbn. do 2 f_equal. exact He. }
  unfold session_queue at 1. apply (sort_pending _ _ m); [|done].
  rewrite events_of_snoc, bool_decide_eq_true_2 by done. unfold q, session_queue.
  by rewrite merge_sort_Permutation.
Qed.

Lemma history_queue (queued events events' : list AnswerEvent) (watermarks watermarks' : Watermarks)
    (e : AnswerEvent) :
  outbox_ok events watermarks -> history queued events watermarks ->
  queue_effect events watermarks e events' watermarks' ->
  history (if queued_before queued e then queued else queued ++ [e]) events' watermarks'.
Proof.
  intros Hok Hh Heff. destruct Heff as [w w' Hs Hh' Ha' Hw|w w' events' Hw Hb Hh' Ha' Hbodies].
  - assert (queued_before queued e = false) as ->.
    { apply not_true_iff_false. rewrite queued_before_iff by done.
      intros (w0 & Hw0 & Hb). destruct Hw as [Hw|[Hw _]]; [|congruence].
      assert (w0 = w) as -> by congruence. lia. }
    intros key. destruct (decide (key = event_key e)) as [->|Hne].
    + rewrite lookup_insert_eq, events_of_snoc, bool_decide_eq_true_2 by done. rewrite Hh', Ha'.
      specialize (Hh (event_key e)).
      assert (map ev_sequence (events_of (event_key e) queued) = seqZ 1 (wm_highest_sequence w) /\
        map body (session_queue (event_key e) events) =
          drop (Z.to_nat (wm_acknowledged_sequence w)) (map body (events_of (event_key e) queued)) /\
        0 <= wm_acknowledged_sequence w <= wm_highest_sequence w /\
        map ev_sequence (session_queue (event_key e) events) =
          seqZ (wm_acknowledged_sequence w + 1) (len (session_queue (event_key e) events)) /\
        wm_highest_sequence w = wm_acknowledged_sequence w + len (session_queue (event_key e) events))
        as (H1 & H2 & H3 & H4 & H5).
      { destruct Hw as [Hw|(Hw & H0 & H0')].
        - rewrite Hw in Hh. destruct Hh as [Hh1 Hh2].
          destruct (session_queue_of _ _ _ _ Hok Hw) as (_ & Hsess & _).
          pose proof (sk_typed _ _ Hsess) as (_ & _ & _ & _ & _ & _ & Hu & _).
          pose proof (sk_highest _ _ Hsess). pose proof (len_nonneg (session_queue (event_key e) events)).
          split_and!; try done; [ulia|lia|apply (sk_sequences _ _ Hsess)].
        - rewrite Hw in Hh. rewrite Hh, H0, H0'. unfold session_queue.
          rewrite (session_queue_unknown _ _ _ Hok Hw). by split_and!. }
      assert (len (events_of (event_key e) queued) = wm_highest_sequence w) as Hlen.
      { apply (f_equal length) in H1. rewrite length_map, length_seqZ in H1. unfold len. lia. }
      rewrite (session_queue_snoc events e (wm_acknowledged_sequence w + 1)) by (done || lia).
      rewrite !map_app, H1, H2, Hs, seqZ_snoc by lia. split.
      * cbn. do 2 f_equal. lia.
      * rewrite drop_app_le by (rewrite length_map; unfold len in Hlen; lia). done.
    + rewrite lookup_insert_ne by done. specialize (Hh key). rewrite events_of_add by done.
      unfold session_queue in *. by rewrite (events_of_add key events e) by done.
  - assert (queued_before queued e = true) as -> by (apply (queued_before_iff _ _ _ _ Hh); by exists w).
    intros key. rewrite Hbodies. specialize (Hh key).
    destruct (decide (key = event_key e)) as [->|Hne].
    + rewrite lookup_insert_eq. rewrite Hw in Hh. by rewrite Hh', Ha'.
    + by rewrite lookup_insert_ne.
Qed.

(** What an acknowledgement does to a good outbox: the pending events of one
    session up to a sequence go, where the digest is that of the session's event
    at the sequence. *)
Inductive acknowledge_effect (o : Outbox) (session_id : bytes) (sequence : Z) (event_hash : bytes)
    (events' : list AnswerEvent) (watermarks' : Watermarks) : Prop :=
  | acknowledged target w :
      target ∈ ob_events o -> ev_session_id target = session_id ->
      ev_sequence target = sequence -> digest_of target = event_hash ->
      ob_watermarks o !! event_key target = Some w ->
      wm_acknowledged_sequence w < sequence <= wm_highest_sequence w ->
      events' = filter (fun e => ~ (event_key e = event_key target /\ ev_sequence e <= sequence))
                  (ob_events o) ->
      watermarks' = <[event_key target := set_acknowledged w sequence event_hash]>
                      (ob_watermarks o) ->
      acknowledge_effect o session_id sequence event_hash events' watermarks'.

Lemma select_session_in (matching exact : gset bytes) (key : bytes) :
  select_session matching exact = Ok key -> exact ⊆ matching -> key ∈ matching.
Proof.
  unfold select_session. destruct (elements matching) as [|k1 [|k2 ks]] eqn:Em;
    destruct (elements exact) as [|e1 [|e2 es]] eqn:Ee; try discriminate; intros [= <-] Hsub.
  - apply elem_of_elements. rewrite Em. by left.
  - apply Hsub, elem_of_elements. rewrite Ee. by left.
  - apply Hsub, elem_of_elements. rewrite Ee. by left.
Qed.

Lemma exact_matching (o : Outbox) (session_id : bytes) (sequence : Z) (event_hash : bytes) :
  exact_keys o session_id sequence event_hash ⊆ matching_keys o session_id.
Proof.
  unfold exact_keys, matching_keys. apply union_mono.
  - intros k. rewrite !elem_of_list_to_set, !list_elem_of_fmap. intros (e & -> & He).
    exists e. split; [done|]. apply list_elem_of_filter in He as [(? & _) ?].
    by apply list_elem_of_filter.
  - intros k. rewrite !elem_of_dom. intros [w Hw]. exists w.
    apply map_lookup_filter_Some in Hw as [? (? & _)]. by apply map_lookup_filter_Some.
Qed.

(** A matching key belongs to the session identifier. *)
Lemma matching_session (o : Outbox) (session_id key : bytes) (e : AnswerEvent) :
  outbox_ok (ob_events o) (ob_watermarks o) -> key ∈ matching_keys o session_id ->
  e ∈ ob_events o -> event_key e = key -> ev_session_id e = session_id.
Proof.
  intros Hok Hm He Hk. destruct (ok_known _ _ Hok e He) as [w Hw].
  destruct (session_queue_of _ _ _ _ Hok Hw) as (Hp & Hs & _).
  assert (forall x, x ∈ ob_events o -> event_key x = key -> ev_session_id x = wm_session_id w) as Hid.
  { intros x Hx Hkx. rewrite Hk in Hw, Hp, Hs.
    destruct (session_identity _ _ _ _ _ Hp Hs Hx Hkx) as (_ & Hc & _).
    unfold same_watermark_context in Hc. bool_to_prop. done. }
  rewrite (Hid e He Hk). unfold matching_keys in Hm. apply elem_of_union in Hm as [Hm|Hm].
  - apply elem_of_list_to_set, list_elem_of_fmap in Hm as (x & -> & Hx).
    apply list_elem_of_filter in Hx as [<- Hx]. symmetry. by apply Hid.
  - apply elem_of_dom in Hm as [w' Hw']. apply map_lookup_filter_Some in Hw' as [Hl <-].
    cbn. rewrite <- Hk, Hw in Hl. by injection Hl as <-.
Qed.

Lemma acknowledge_change_ok (o : Outbox) (session_id : bytes) (sequence : Z) (event_hash : bytes)
    (events' : list AnswerEvent) (watermarks' : Watermarks) :
  outbox_ok (ob_events o) (ob_watermarks o) ->
  acknowledge_change o session_id sequence event_hash = Ok (Some (events', watermarks')) ->
  outbox_ok events' watermarks' /\
  acknowledge_effect o session_id sequence event_hash events' watermarks'.
Proof.
  intros Hok. unfold acknowledge_change.
  destruct (select_session _ _) as [key|] eqn:Esel; [|discriminate].
  apply select_session_in in Esel; [|apply exact_matching].
  destruct (list_find _ (ob_events o)) as [[index target]|] eqn:Ef.
  - apply list_find_Some in Ef as (Hx & [Hk Hs] & _). apply list_elem_of_lookup_2 in Hx.
    intros Ha. destruct (acknowledge_pending_ok _ _ _ _ _ _ Hok Hx Hs Ha) as (Hd & He & Hok').
    split; [done|]. unfold acknowledge_pending in Ha.
    destruct (hash_answer_event sha256 target) as [h|] eqn:Eh; [|discriminate].
    destruct (negb _) eqn:Ed in Ha; [discriminate|]. unfold same_digest in Ed. bool_to_prop.
    destruct (ob_watermarks o !! event_key target) as [w|] eqn:Ew; [|discriminate].
    destruct (sequence >? _) eqn:E1 in Ha; [discriminate|].
    destruct (sequence <=? _) eqn:E2 in Ha; [discriminate|]. bool_to_prop.
    rewrite Z.gtb_ltb in Ha. destruct (Z.ltb_spec (wm_acknowledged_sequence w) sequence) in Ha; [|lia].
    injection Ha as _ <-. subst h.
    apply (acknowledged _ _ _ _ _ _ target w); try done.
    by eapply matching_session.
  - intros Ha. exfalso. unfold acknowledge_absent in Ha.
    destruct (ob_watermarks o !! key) as [w|] eqn:Ew; [|discriminate].
    destruct (session_queue_of _ _ _ _ Hok Ew) as (Hp & Hs & _).
    repeat match type of Ha with context [if ?b then _ else _] => destruct b eqn:?; try discriminate end.
    bool_to_prop. pose proof (sk_highest _ _ Hs) as Hh.
    destruct (last (session_queue key (ob_events o))) as [e|] eqn:El.
    + pose proof (seqZ_last _ _ _ (sk_sequences _ _ Hs) El) as Hse.
      apply last_Some_elem_of in El. rewrite Hp in El. apply events_of_elem in El as [Hk He].
      apply list_find_None in Ef. rewrite Forall_forall in Ef. apply (Ef e He). split; [done|lia].
    + apply last_None in El. rewrite El, len_nil in Hh. lia.
Qed.

Lemma acknowledged_queue (o : Outbox) (target : AnswerEvent) (w : OutboxWatermark) (n : Z) :
  outbox_ok (ob_events o) (ob_watermarks o) -> target ∈ ob_events o -> ev_sequence target = n ->
  ob_watermarks o !! event_key target = Some w -> wm_acknowledged_sequence w < n ->
  let events' := filter (fun e => ~ (event_key e = event_key target /\ ev_sequence e <= n))
                   (ob_events o) in
  (forall key, key <> event_key target -> events_of key events' = events_of key (ob_events o)) /\
  session_queue (event_key target) events' =
    drop (Z.to_nat (n - wm_acknowledged_sequence w))
      (session_queue (event_key target) (ob_events o)).
Proof.
  intros Hok Hin Hn Hw Hlt events'. split.
  - intros key Hne. unfold events_of, events'. rewrite list_filter_filter.
    apply list_filter_iff. intros e. naive_solver.
  - destruct (session_queue_of _ _ _ _ Hok Hw) as (Hp & Hs & Hwf & _).
    set (q := session_queue (event_key target) (ob_events o)) in *.
    assert (target ∈ q) as Hinq by (rewrite Hp; by apply events_of_elem).
    rewrite Forall_forall in Hwf. specialize (Hwf target Hinq).
    pose proof (session_acknowledged w q target n Hs Hinq Hwf Hn) as Hs'.
    rewrite (filter_above q _ n (sk_sequences _ _ Hs)) in Hs' by lia.
    unfold session_queue. apply (sort_pending _ _ (n + 1)); [|exact (sk_sequences _ _ Hs')].
    rewrite <- (filter_above q _ n (sk_sequences _ _ Hs)) by lia.
    rewrite Hp. unfold events', events_of. rewrite !list_filter_filter.
    apply reflexive_eq, list_filter_iff. intros e. naive_solver.
Qed.

Lemma history_acknowledge (queued : list AnswerEvent) (o : Outbox) (session_id event_hash : bytes)
    (sequence : Z) (events' : list AnswerEvent) (watermarks' : Watermarks) :
  outbox_ok (ob_events o) (ob_watermarks o) ->
  history queued (ob_events o) (ob_watermarks o) ->
  acknowledge_effect o session_id sequence event_hash events' watermarks' ->
  history queued events' watermarks'.
Proof.
  intros Hok Hh [target w Hin Hsid Hs Hd Hw Hb -> ->] key.
  destruct (acknowledged_queue o target w sequence Hok Hin Hs Hw ltac:(lia)) as [Hother Hqueue].
  specialize (Hh key). destruct (decide (key = event_key target)) as [->|Hne].
  - rewrite Hw in Hh. destruct Hh as [H1 H2]. rewrite lookup_insert_eq, Hqueue. split; [exact H1|].
    rewrite <- skipn_map, H2, drop_drop. cbn.
    destruct (session_queue_of _ _ _ _ Hok Hw) as (_ & Hsess & _).
    pose proof (sk_typed _ _ Hsess) as (_ & _ & _ & _ & _ & _ & Hu & _). f_equal. ulia.
  - rewrite lookup_insert_ne by done. unfold session_queue in *. by rewrite Hother.
Qed.

(** ** The file *)

(** The encryption is undone by [unprotect], and an empty result is an error. *)
Definition honest (calls : WriteCalls) : Prop :=
  forall plaintext blob, wc_protect calls plaintext = Ok blob ->
    unprotect blob = Ok plaintext /\ blob <> [].

(** A file that opens to these contents without being rewritten. *)
Definition stored_as (file : bytes) (events : list AnswerEvent) (watermarks : Watermarks) : Prop :=
  len file <= kMaximumStoredOutboxBytes /\
  exists plaintext, open_stored file = Ok (plaintext, true) /\
    decode_outbox plaintext = Ok (kOutboxVersion, events, watermarks).

Lemma write_all_file_contents (calls : WriteCalls) (contents file : bytes) :
  write_all_file calls contents = Ok file -> file = contents.
Proof.
  unfold write_all_file. repeat (case_match; [discriminate|]).
  destruct (write_loop _ _ _ _) as [ok n] eqn:Ew.
  destruct (ok && wc_flush calls && wc_move calls) eqn:E; [|discriminate]. intros [= <-].
  bool_to_prop. subst ok. apply write_loop_complete in Ew. apply take_ge. unfold len in Ew. lia.
Qed.

Lemma protect_opens (calls : WriteCalls) (plaintext file : bytes) :
  honest calls -> protect_outbox_wire calls plaintext = Ok file ->
  len file <= kMaximumStoredOutboxBytes /\ open_stored file = Ok (plaintext, true).
Proof.
  intros Hh. unfold protect_outbox_wire. destruct (_ || _ || _) eqn:E; [discriminate|].
  bool_to_prop. destruct (wc_protect calls plaintext) as [blob|] eqn:Ep; [|discriminate].
  destruct (Hh _ _ Ep) as [Hu Hne]. destruct (len blob >? _); [discriminate|].
  destruct (len _ >? kMaximumStoredOutboxBytes) eqn:E2; [discriminate|]. intros [= <-].
  bool_to_prop. split; [lia|]. pose proof (len_nonneg plaintext).
  assert (u32 (len plaintext) /\ u32 kEncryptedOutboxMagic /\ u16 1 /\ u16 0) as (U1 & U2 & U3 & U4)
    by (split_and!; ulia || done).
  assert (0 < len blob) as Hpos.
  { destruct blob; [done|]. rewrite len_cons. pose proof (len_nonneg blob). lia. }
  assert (len plaintext <> 0) as Hp0 by (by intros ?%len_zero).
  unfold open_stored, run_reader. rewrite read_le_write by done. rewrite Z.eqb_refl.
  unfold unprotect_outbox_wire.
  destruct (_ || _) eqn:E3.
  { exfalso. apply orb_true_iff in E3 as [E3|E3]; bool_to_prop; [|lia].
    autorewrite with wire in E3. lia. }
  assert (encrypted_header (write_le 4 kEncryptedOutboxMagic ++ write_le 2 1 ++ write_le 2 0 ++
    write_le 4 (len plaintext) ++ blob) = Some (len plaintext, blob)) as ->.
  { unfold encrypted_header. rewrite rbind_read_le by done. rewrite rbind_guard by apply Z.eqb_refl.
    rewrite rbind_read_le by done. rewrite rbind_guard by done.
    rewrite rbind_read_le by done. rewrite rbind_guard by done.
    rewrite rbind_read_le by done.
    rewrite rbind_guard by (rewrite andb_true_iff, negb_true_iff; lia).
    rewrite rbind_remaining. rewrite rbind_guard by lia. done. }
  rewrite Hu, Z.eqb_refl. done.
Qed.

Lemma save_stored (calls : WriteCalls) (events : list AnswerEvent) (watermarks : Watermarks)
    (file : bytes) :
  honest calls -> outbox_ok events watermarks -> save calls events watermarks = Ok file ->
  stored_as file events watermarks.
Proof.
  intros Hh Hok. unfold save. case_bool_decide as Hne; [discriminate|]. unfold write_outbox_file.
  destruct (protect_outbox_wire _ _) as [stored|] eqn:Ep; [|discriminate].
  intros ->%write_all_file_contents. destruct (protect_opens _ _ _ Hh Ep) as [Hl Ho].
  split; [done|]. eexists. split; [done|]. by apply decode_encode_outbox.
Qed.

Lemma load_stored (calls : OutboxOpenCalls) (file : bytes) (events : list AnswerEvent)
    (watermarks : Watermarks) :
  stored_as file events watermarks ->
  load calls file =
    (if oo_read calls then (Ok tt, mkOutbox true events watermarks, Some file)
     else (Err "journal file read failed", closed_outbox, Some file)).
Proof.
  intros (Hl & plaintext & Ho & Hd). unfold load. destruct (oo_read calls); cbn [negb]; [|done].
  destruct (_ >? kMaximumStoredOutboxBytes) eqn:E; bool_to_prop; [lia|]. rewrite Ho, Hd.
  by rewrite Z.eqb_refl.
Qed.

Lemma empty_outbox_ok : outbox_ok [] ∅.
Proof.
  constructor; [done|by vm_compute| |by intros ? ?%not_elem_of_nil].
  intros key w. by rewrite lookup_empty.
Qed.

(** ** Runs of an outbox *)

Inductive OutboxOp : Type :=
  | OpOpen (calls : OutboxOpenCalls)
  | OpEnqueue (calls : WriteCalls) (event : AnswerEvent)
  | OpAcknowledge (calls : WriteCalls) (session_id : bytes) (sequence : Z) (event_hash : bytes)
  | OpCloseOutbox.

(** The outbox, its file, and the events it has accepted, each sequence once. *)
Record OutboxWorld := mkOutboxWorld {
  ow_outbox : Outbox;
  ow_file : option bytes;
  ow_queued : list AnswerEvent
}.

Definition is_ok {A} (r : result A) : bool := match r with Ok _ => true | Err _ => false end.

(** A write to a file that exists. *)
Definition rewritten (file : option bytes) (file' : bytes) : option bytes :=
  match file with Some _ => Some file' | None => None end.

Definition outbox_step (w : OutboxWorld) (op : OutboxOp) : OutboxWorld :=
  match op with
  | OpOpen calls =>
      let '(_, o', file') := open_outbox calls (ow_outbox w) (ow_file w) in
      mkOutboxWorld o' file' (ow_queued w)
  | OpEnqueue calls event =>
      let '(r, o', file') := enqueue calls (ow_outbox w) (default [] (ow_file w)) event in
      mkOutboxWorld o' (rewritten (ow_file w) file')
        (if is_ok r && negb (queued_before (ow_queued w) event) then ow_queued w ++ [event]
         else ow_queued w)
  | OpAcknowledge calls session_id sequence event_hash =>
      let '(_, o', file') :=
        acknowledge calls (ow_outbox w) (default [] (ow_file w)) session_id sequence event_hash in
      mkOutboxWorld o' (rewritten (ow_file w) file') (ow_queued w)
  | OpCloseOutbox => mkOutboxWorld (close (ow_outbox w)) (ow_file w) (ow_queued w)
  end.

Definition new_outbox : OutboxWorld := mkOutboxWorld closed_outbox None [].

Definition outbox_run (ops : list OutboxOp) : OutboxWorld :=
  fold_left outbox_step ops new_outbox.

(** The events an operation acknowledged: pending when it was called, of the
    session, the sequence and the digest it names, and answered with success. *)
Definition acknowledged_by (w : OutboxWorld) (op : OutboxOp) : list AnswerEvent :=
  match op with
  | OpAcknowledge calls session_id sequence event_hash =>
      let '(r, _, _) :=
        acknowledge calls (ow_outbox w) (default [] (ow_file w)) session_id sequence event_hash in
      if is_ok r then filter (exact_event session_id sequence event_hash) (ob_events (ow_outbox w))
      else []
  | _ => []
  end.

Fixpoint acknowledged_events (w : OutboxWorld) (ops : list OutboxOp) : list AnswerEvent :=
  match ops with
  | [] => []
  | op :: rest => acknowledged_by w op ++ acknowledged_events (outbox_step w op) rest
  end.

(** The highest sequence of the events, 0 for none. *)
Definition highest (events : list AnswerEvent) : Z :=
  foldr (fun e n => Z.max (ev_sequence e) n) 0 events.

(** The encryption is honest and the events have their C++ types. *)
Definition outbox_op_ok (op : OutboxOp) : Prop :=
  match op with
  | OpOpen calls => honest (oo_create calls) /\ honest (oo_migrate calls)
  | OpEnqueue calls event => honest calls /\ typed_event event
  | OpAcknowledge calls _ _ _ => honest calls
  | OpCloseOutbox => True
  end.

(** The file holds the outbox. *)
Record holds (w : OutboxWorld) (file : bytes) (events : list AnswerEvent)
    (watermarks : Watermarks) : Prop := {
  hd_file : ow_file w = Some file;
  hd_stored : stored_as file events watermarks;
  hd_ok : outbox_ok events watermarks;
  hd_history : history (ow_queued w) events watermarks;
  hd_open : ob_open (ow_outbox w) = true ->
    ow_outbox w = mkOutbox true events watermarks
}.

(** The acknowledged sequence of each session is the highest one acknowledged. *)
Definition tally (acked : list AnswerEvent) (watermarks : Watermarks) : Prop :=
  forall key, default 0 (wm_acknowledged_sequence <$> watermarks !! key) =
              highest (events_of key acked).

Definition outbox_inv (acked : list AnswerEvent) (w : OutboxWorld) : Prop :=
  ow_file w = None /\ ob_open (ow_outbox w) = false /\ ow_queued w = [] /\ acked = [] \/
  exists file events watermarks, holds w file events watermarks /\ tally acked watermarks.

(** *** Counting acknowledgements *)

Lemma highest_cons (e : AnswerEvent) (l : list AnswerEvent) :
  highest (e :: l) = Z.max (ev_sequence e) (highest l).
Proof. done. Qed.

Lemma highest_nonneg (l : list AnswerEvent) : 0 <= highest l.
Proof. induction l as [|e l IH]; [done|]. rewrite highest_cons. lia. Qed.

Lemma highest_app (l l' : list AnswerEvent) : highest (l ++ l') = Z.max (highest l) (highest l').
Proof.
  pose proof (highest_nonneg l'). induction l as [|e l IH]; cbn [app].
  - change (highest []) with 0. lia.
  - rewrite !highest_cons. lia.
Qed.

Lemma highest_attained (l : list AnswerEvent) :
  0 < highest l -> exists e, e ∈ l /\ ev_sequence e = highest l.
Proof.
  induction l as [|e l IH]; [done|]. rewrite highest_cons. intros H.
  destruct (Z.max_spec (ev_sequence e) (highest l)) as [[? ->]|[? ->]].
  - destruct IH as (x & Hx & <-); [lia|]. exists x. by split; [right|].
  - exists e. by split; [left|].
Qed.

Lemma highest_all (l : list AnswerEvent) (n : Z) :
  l <> [] -> 0 <= n -> (forall e, e ∈ l -> ev_sequence e = n) -> highest l = n.
Proof.
  intros Hne Hn Hall. destruct (decide (highest l = 0)) as [H0|H0].
  - destruct l as [|e l]; [done|]. rewrite H0. pose proof (Hall e ltac:(by left)).
    rewrite highest_cons in H0. lia.
  - destruct (highest_attained l) as (e & He & <-); [pose proof (highest_nonneg l); lia|].
    by apply Hall.
Qed.

Lemma events_of_app (key : bytes) (l l' : list AnswerEvent) :
  events_of key (l ++ l') = events_of key l ++ events_of key l'.
Proof. apply filter_app. Qed.

Lemma tally_queue (acked events events' : list AnswerEvent) (wms wms' : Watermarks) (e : AnswerEvent) :
  tally acked wms -> queue_effect events wms e events' wms' -> tally acked wms'.
Proof.
  intros Ht Heff key. rewrite <- Ht.
  destruct Heff as [w w' _ _ Ha Hw|w w' events' Hw _ _ Ha _];
    (destruct (decide (key = event_key e)) as [->|Hne];
     [rewrite lookup_insert_eq; cbn; rewrite Ha|by rewrite lookup_insert_ne]).
  - by destruct Hw as [->|(-> & _ & ->)].
  - by rewrite Hw.
Qed.

Lemma tally_acknowledge (acked events events' : list AnswerEvent) (wms wms' : Watermarks)
    (sid hash key : bytes) (n : Z) :
  outbox_ok events wms -> tally acked wms ->
  acknowledge_effect (mkOutbox true events wms) sid n hash events' wms' ->
  (forall e, e ∈ filter (exact_event sid n hash) events -> event_key e = key) ->
  tally (acked ++ filter (exact_event sid n hash) events) wms'.
Proof.
  intros Hok Ht [target w Hin Hsid Hs Hd Hw Hb _ ->] Hkey. cbn in Hin, Hw.
  pose proof (ok_events _ _ Hok) as Hwf. rewrite Forall_forall in Hwf.
  destruct (event_digest target (Hwf target Hin)) as (Hh & _).
  assert (target ∈ filter (exact_event sid n hash) events) as Hex.
  { apply list_elem_of_filter. split; [|done]. split_and!; [done|done|]. by rewrite Hh, Hd. }
  assert (0 <= n) as Hn by (pose proof (wf_event_sequence target (Hwf target Hin)); lia).
  rewrite <- (Hkey target Hex) in Hkey. intros k. rewrite events_of_app, highest_app, <- Ht. cbn.
  destruct (decide (k = event_key target)) as [->|Hne].
  - rewrite lookup_insert_eq, Hw. cbn.
    rewrite (highest_all (events_of (event_key target) _) n); [lia| |done|].
    + intros E. assert (target ∈ events_of (event_key target) (filter (exact_event sid n hash) events))
        as H by (by apply events_of_elem). rewrite E in H. by apply not_elem_of_nil in H.
    + intros e [_ [(_ & ? & _) _]%list_elem_of_filter]%events_of_elem. done.
  - rewrite lookup_insert_ne by done.
    assert (events_of k (filter (exact_event sid n hash) events) = []) as ->.
    { destruct (events_of k _) as [|e l] eqn:E; [done|]. exfalso.
      assert (e ∈ events_of k (filter (exact_event sid n hash) events)) as [<- He]%events_of_elem
        by (rewrite E; by left). by apply Hne, Hkey. }
    rewrite Ht. cbn. pose proof (highest_nonneg (events_of k acked)). lia.
Qed.

(** Queueing on a file leaves it as it was or has its effect on what it holds. *)
Lemma enqueue_holds (w : OutboxWorld) (calls : WriteCalls) (e : AnswerEvent) (file : bytes)
    (events : list AnswerEvent) (wms : Watermarks) :
  holds w file events wms -> outbox_op_ok (OpEnqueue calls e) ->
  let w' := outbox_step w (OpEnqueue calls e) in
  (ow_queued w' = ow_queued w \/ ow_queued w' = ow_queued w ++ [e]) /\
  exists file' events' wms', holds w' file' events' wms' /\
    (events' = events /\ wms' = wms \/
     ob_open (ow_outbox w') = true /\ queue_effect events wms e events' wms').
Proof.
  intros Hw [Hh Ht]. unfold outbox_step, enqueue.
  pose proof Hw as [Hf Hst Hok Hhist Hopen]. rewrite Hf. cbn [rewritten default from_option].
  unfold id.
  assert (forall r, is_ok r = false ->
    let w' := mkOutboxWorld (ow_outbox w) (Some file)
      (if is_ok (A := unit) r && negb (queued_before (ow_queued w) e) then ow_queued w ++ [e] else ow_queued w) in
    (ow_queued w' = ow_queued w \/ ow_queued w' = ow_queued w ++ [e]) /\
    exists file' events' wms', holds w' file' events' wms' /\
      (events' = events /\ wms' = wms \/
       ob_open (ow_outbox w') = true /\ queue_effect events wms e events' wms')) as Hsame.
  { intros r ->. split; [by left|]. exists file, events, wms. split; [by constructor|by left]. }
  destruct (ob_open (ow_outbox w)) eqn:Eo; cbn [negb]; [|by apply Hsame].
  rewrite (Hopen eq_refl) in *. cbn [ob_events ob_watermarks ob_open] in *.
  destruct (validate_answer_event e) eqn:Ev; cbn [negb]; [|by apply Hsame].
  assert (wf_event e) as He by (by split). destruct (event_digest e He) as (-> & _).
  unfold commit. destruct (queue_change _ _ _ _) as [[[events' wms']|]|] eqn:Ec; [| |by apply Hsame].
  - destruct (queue_change_effect _ _ _ _ _ Hok He Ec) as [Hok' Heff].
    destruct (save calls events' wms') as [file'|] eqn:Es; [|by apply Hsame].
    split; [cbn; destruct (queued_before _ _); [by left|by right]|].
    exists file', events', wms'. split; [|right; by split]. constructor; try done; cbn.
    + by eapply save_stored.
    + destruct (queued_before (ow_queued w) e) eqn:Eq;
        pose proof (history_queue _ _ _ _ _ _ Hok Hhist Heff) as H; by rewrite Eq in H.
  - pose proof (queue_change_none _ _ _ _ Hok Hhist He Ec) as Hb. cbn. rewrite Hb. split; [by left|].
    exists file, events, wms. split; [by constructor|by left].
Qed.

Lemma enqueue_step (acked : list AnswerEvent) (w : OutboxWorld) (calls : WriteCalls) (e : AnswerEvent) :
  outbox_inv acked w -> outbox_op_ok (OpEnqueue calls e) ->
  outbox_inv acked (outbox_step w (OpEnqueue calls e)).
Proof.
  intros [(Hf & Ho & Hq & ->)|(file & events & wms & Hw & Ht)] Hop.
  - unfold outbox_step, enqueue. rewrite Ho, Hf. left. cbn. by split_and!.
  - right. destruct (enqueue_holds w calls e file events wms Hw Hop)
      as (_ & file' & events' & wms' & H & Hcase).
    exists file', events', wms'. split; [done|].
    destruct Hcase as [[-> ->]|[_ Heff]]; [done|by eapply tally_queue].
Qed.

(** The events an acknowledgement names are those of the session it selects. *)
Lemma exact_selected (o : Outbox) (sid hash key : bytes) (n : Z) (e : AnswerEvent) :
  select_session (matching_keys o sid) (exact_keys o sid n hash) = Ok key ->
  e ∈ filter (exact_event sid n hash) (ob_events o) -> event_key e = key.
Proof.
  intros Hsel He.
  assert (event_key e ∈ exact_keys o sid n hash) as Hin.
  { apply elem_of_union_l, elem_of_list_to_set. by apply list_elem_of_fmap_2. }
  apply elem_of_elements in Hin. unfold select_session in Hsel.
  destruct (elements (matching_keys o sid)) as [|m ms]; [discriminate|].
  destruct (elements (exact_keys o sid n hash)) as [|k [|k' ks]] eqn:Ee; [by apply not_elem_of_nil in Hin| |].
  - apply list_elem_of_singleton in Hin as ->. destruct ms; by injection Hsel.
  - destruct ms; discriminate Hsel.
Qed.

(** An acknowledgement that changes nothing names no pending event. *)
Lemma unchanged_names_none (o : Outbox) (sid hash : bytes) (n : Z) :
  acknowledge_change o sid n hash = Ok None ->
  filter (exact_event sid n hash) (ob_events o) = [].
Proof.
  unfold acknowledge_change. destruct (select_session _ _) as [key|] eqn:Es; [|discriminate].
  destruct (list_find _ _) as [[i target]|] eqn:Ef.
  - unfold acknowledge_pending. destruct (hash_answer_event sha256 target); [|discriminate].
    destruct (negb _); [discriminate|]. destruct (_ !! _); [|discriminate].
    by repeat (case_match; try discriminate).
  - intros _. destruct (filter _ _) as [|e l] eqn:El; [done|]. exfalso.
    assert (e ∈ filter (exact_event sid n hash) (ob_events o)) as He by (rewrite El; by left).
    pose proof (exact_selected _ _ _ _ _ _ Es He) as Hk.
    apply list_elem_of_filter in He as [(_ & Hn & _) He].
    apply list_find_None in Ef. rewrite Forall_forall in Ef. by apply (Ef e He).
Qed.

(** What an acknowledgement leaves, and the events it acknowledged. *)
Lemma acknowledge_tally (w : OutboxWorld) (calls : WriteCalls) (sid hash : bytes) (n : Z)
    (file : bytes) (events : list AnswerEvent) (wms : Watermarks) :
  holds w file events wms -> honest calls ->
  let op := OpAcknowledge calls sid n hash in
  let w' := outbox_step w op in
  ow_queued w' = ow_queued w /\
  exists file' events' wms', holds w' file' events' wms' /\
    (events' = events /\ wms' = wms /\ acknowledged_by w op = [] \/
     acknowledge_effect (mkOutbox true events wms) sid n hash events' wms' /\
     acknowledged_by w op = filter (exact_event sid n hash) events /\
     exists key, forall e, e ∈ acknowledged_by w op -> event_key e = key).
Proof.
  intros Hw Hh. unfold outbox_step, acknowledged_by, acknowledge.
  pose proof Hw as [Hf Hst Hok Hhist Hopen]. rewrite Hf. cbn [rewritten default from_option].
  unfold id.
  assert (forall acked : list AnswerEvent, acked = [] ->
    let w0 := mkOutboxWorld (ow_outbox w) (Some file) (ow_queued w) in
    ow_queued w0 = ow_queued w /\
    exists file' events' wms', holds w0 file' events' wms' /\
      (events' = events /\ wms' = wms /\ acked = [] \/
       acknowledge_effect (mkOutbox true events wms) sid n hash events' wms' /\
       acked = filter (exact_event sid n hash) events /\
       exists key, forall e, e ∈ acked -> event_key e = key)) as Hsame.
  { intros acked ->. split; [done|]. exists file, events, wms. split; [by constructor|by left]. }
  destruct (ob_open (ow_outbox w)) eqn:Eo; cbn [negb orb]; [|by apply Hsame].
  destruct (_ || _); [by apply Hsame|].
  rewrite (Hopen eq_refl) in *. cbn [ob_events ob_watermarks ob_open] in *. unfold commit.
  destruct (acknowledge_change _ _ _ _) as [[[events' wms']|]|] eqn:Ec;
    [|apply Hsame; by apply (unchanged_names_none (mkOutbox true events wms)) in Ec|by apply Hsame].
  destruct (acknowledge_change_ok (mkOutbox true events wms) _ _ _ _ _ Hok Ec) as [Hok' Heff].
  destruct (save calls events' wms') as [file'|] eqn:Es; [|by apply Hsame]. split; [done|].
  exists file', events', wms'. split.
  - constructor; try done; cbn; [by eapply save_stored|].
    by eapply (history_acknowledge _ (mkOutbox true events wms)).
  - right. split_and!; [done|done|]. unfold acknowledge_change in Ec.
    destruct (select_session _ _) as [key|] eqn:Ek; [|discriminate]. exists key. intros e.
    by apply (exact_selected (mkOutbox true events wms)).
Qed.

Lemma acknowledge_holds (w : OutboxWorld) (calls : WriteCalls) (sid hash : bytes) (n : Z) (file : bytes)
    (events : list AnswerEvent) (wms : Watermarks) :
  holds w file events wms -> honest calls ->
  let w' := outbox_step w (OpAcknowledge calls sid n hash) in
  ow_queued w' = ow_queued w /\
  exists file' events' wms', holds w' file' events' wms' /\
    (events' = events /\ wms' = wms \/
     acknowledge_effect (mkOutbox true events wms) sid n hash events' wms').
Proof.
  intros Hw Hh w'. destruct (acknowledge_tally w calls sid hash n file events wms Hw Hh)
    as (Hq & file' & events' & wms' & H & Hcase).
  split; [done|]. exists file', events', wms'. naive_solver.
Qed.

Lemma acknowledge_step (acked : list AnswerEvent) (w : OutboxWorld) (calls : WriteCalls)
    (sid hash : bytes) (n : Z) :
  outbox_inv acked w -> honest calls ->
  outbox_inv (acked ++ acknowledged_by w (OpAcknowledge calls sid n hash))
    (outbox_step w (OpAcknowledge calls sid n hash)).
Proof.
  intros [(Hf & Ho & Hq & ->)|(file & events & wms & Hw & Ht)] Hh.
  - unfold outbox_step, acknowledged_by, acknowledge. rewrite Ho, Hf. cbn [negb orb]. left.
    by rewrite Hq.
  - right. destruct (acknowledge_tally w calls sid hash n file events wms Hw Hh)
      as (_ & file' & events' & wms' & H & Hcase).
    exists file', events', wms'. split; [done|].
    destruct Hcase as [(-> & -> & ->)|(Heff & Ha & key & Hkey)]; [by rewrite app_nil_r|].
    rewrite Ha in *. by eapply tally_acknowledge; [apply Hw| | |].
Qed.

(** Opening what the file holds. *)
Lemma open_holds (w : OutboxWorld) (calls : OutboxOpenCalls) (file : bytes)
    (events : list AnswerEvent) (wms : Watermarks) :
  holds w file events wms ->
  ow_queued (outbox_step w (OpOpen calls)) = ow_queued w /\
  holds (outbox_step w (OpOpen calls)) file events wms.
Proof.
  intros Hw. pose proof Hw as [Hf Hst Hok Hhist Hopen]. unfold outbox_step, open_outbox.
  destruct (negb (oo_valid_path calls)); [by destruct w|].
  destruct (negb (oo_directories calls)); [by split; [|constructor]|].
  destruct (negb (oo_lease calls)); [by split; [|constructor]|].
  destruct (negb (oo_status calls)); [by split; [|constructor]|].
  rewrite Hf, (load_stored _ _ _ _ Hst). by destruct (oo_read calls); split; [|constructor| |constructor].
Qed.

(** Opening where there is no file. *)
Lemma open_new (w : OutboxWorld) (calls : OutboxOpenCalls) :
  ow_file w = None -> ob_open (ow_outbox w) = false -> ow_queued w = [] -> honest (oo_create calls) ->
  let w' := outbox_step w (OpOpen calls) in
  ow_queued w' = [] /\
  (ow_file w' = None /\ ob_open (ow_outbox w') = false \/ exists file, holds w' file [] ∅).
Proof.
  intros Hf Ho Hq Hh. unfold outbox_step, open_outbox.
  destruct (negb (oo_valid_path calls)); [by split; [|left]|].
  destruct (negb (oo_directories calls)); [by split; [|left]|].
  destruct (negb (oo_lease calls)); [by split; [|left]|].
  destruct (negb (oo_status calls)); [by split; [|left]|]. rewrite Hf.
  destruct (save (oo_create calls) [] ∅) as [stored|] eqn:Es; [|by split; [|left]].
  pose proof (save_stored _ _ _ _ Hh empty_outbox_ok Es) as Hst.
  rewrite (load_stored _ _ _ _ Hst). split; [by destruct (oo_read calls)|].
  right. exists stored. destruct (oo_read calls); (constructor; try done; try apply empty_outbox_ok;
    cbn; rewrite Hq; intros key; by rewrite lookup_empty).
Qed.

Lemma outbox_open_step (acked : list AnswerEvent) (w : OutboxWorld) (calls : OutboxOpenCalls) :
  outbox_inv acked w -> honest (oo_create calls) -> outbox_inv acked (outbox_step w (OpOpen calls)).
Proof.
  intros [(Hf & Ho & Hq & ->)|(file & events & wms & Hw & Ht)] Hh.
  - destruct (open_new w calls Hf Ho Hq Hh) as [Hq' [[Hf' Ho']|[file H]]]; [by left|].
    right. exists file, [], ∅. split; [done|]. intros key. by rewrite lookup_empty.
  - right. exists file, events, wms. split; [by apply open_holds|done].
Qed.

Lemma outbox_step_inv (acked : list AnswerEvent) (w : OutboxWorld) (op : OutboxOp) :
  outbox_inv acked w -> outbox_op_ok op ->
  outbox_inv (acked ++ acknowledged_by w op) (outbox_step w op).
Proof.
  intros Hw Hop. destruct op as [calls|calls e|calls sid n hash|].
  - rewrite app_nil_r. by apply outbox_open_step; [|apply Hop].
  - rewrite app_nil_r. by apply enqueue_step.
  - by apply acknowledge_step.
  - rewrite app_nil_r. destruct Hw as [(Hf & Ho & Hq & ->)|(file & events & wms & [] & Ht)].
    + by left.
    + right. exists file, events, wms. split; [by constructor|done].
Qed.

Lemma outbox_steps_inv (ops : list OutboxOp) : forall acked w,
  outbox_inv acked w -> Forall outbox_op_ok ops ->
  outbox_inv (acked ++ acknowledged_events w ops) (fold_left outbox_step ops w).
Proof.
  induction ops as [|op ops IH]; intros acked w Hw Hops; cbn; [by rewrite app_nil_r|].
  apply Forall_cons in Hops as [Hop Hops]. rewrite app_assoc. apply IH; [|done].
  by apply outbox_step_inv.
Qed.

Lemma outbox_run_inv (ops : list OutboxOp) :
  Forall outbox_op_ok ops -> outbox_inv (acknowledged_events new_outbox ops) (outbox_run ops).
Proof. intros Hops. apply (outbox_steps_inv ops [] new_outbox); [by left|done]. Qed.

(** The accepted events only grow. *)
Lemma queued_grows (ops : list OutboxOp) : forall w,
  ow_queued w `prefix_of` ow_queued (fold_left outbox_step ops w).
Proof.
  induction ops as [|op ops IH]; intros w; [done|]. cbn [fold_left].
  etransitivity; [|apply IH]. destruct op; cbn; repeat case_match; simplify_eq; cbn; try done.
  by apply prefix_app_r.
Qed.

(** ** The order of [pending] *)

#[export] Instance event_le_trans : Transitive event_le.
Proof.
  intros a b c. unfold event_le.
  destruct (decide (event_key a = event_key b)) as [Eab|Eab],
    (decide (event_key b = event_key c)) as [Ebc|Ebc].
  - rewrite !bool_decide_eq_true_2 by congruence. lia.
  - rewrite (bool_decide_eq_true_2 _ Eab), (bool_decide_eq_false_2 _ Ebc), Eab.
    by rewrite (bool_decide_eq_false_2 _ Ebc).
  - rewrite (bool_decide_eq_true_2 _ Ebc), (bool_decide_eq_false_2 _ Eab), <- Ebc.
    by rewrite (bool_decide_eq_false_2 _ Eab).
  - rewrite (bool_decide_eq_false_2 _ Eab), (bool_decide_eq_false_2 _ Ebc). intros H1 H2.
    rewrite bool_decide_eq_false_2; [by eapply bytes_le_trans|]. intros Eac. apply Eab.
    rewrite Eac in *. by apply bytes_le_antisym.
Qed.

#[export] Instance event_le_total : Total event_le.
Proof.
  intros a b. unfold event_le. repeat case_bool_decide; try congruence; [lia|].
  apply bytes_le_total.
Qed.

(** [pending] lists each session's events in their order. *)
Lemma pending_session (o : Outbox) (key : bytes) (w : OutboxWatermark) :
  outbox_ok (ob_events o) (ob_watermarks o) -> ob_open o = true ->
  ob_watermarks o !! key = Some w ->
  events_of key (pending o kMaximumOutboxEvents) = session_queue key (ob_events o).
Proof.
  intros Hok Ho Hw. unfold pending. rewrite Ho.
  change (kMaximumOutboxEvents =? 0) with false. cbn [negb orb].
  pose proof (ok_quota _ _ Hok) as Hq. rewrite take_ge.
  2: { rewrite merge_sort_Permutation. unfold len in Hq. lia. }
  destruct (session_queue_of _ _ _ _ Hok Hw) as (Hp & Hs & _).
  assert (events_of key (merge_sort event_le (ob_events o)) ≡ₚ session_queue key (ob_events o)) as Hperm
    by (rewrite Hp; unfold events_of; by rewrite merge_sort_Permutation).
  apply (StronglySorted_unique_strong sequence_le); [|clear Hperm| |done].
  - intros x y Hx Hy. rewrite Hperm in Hx. unfold sequence_le. intros ? ?.
    eapply seqZ_inj; [apply (sk_sequences _ _ Hs)|done|done|lia].
  - assert (StronglySorted event_le (merge_sort event_le (ob_events o))) as Hsorted
      by (apply StronglySorted_merge_sort; apply _).
    unfold events_of. induction Hsorted as [|e l Hl IH Hall]; [constructor|].
    rewrite filter_cons. destruct (decide (event_key e = key)) as [Hk|]; [|done].
    constructor; [done|]. apply Forall_forall. intros x [Hkx Hx]%list_elem_of_filter.
    rewrite Forall_forall in Hall. specialize (Hall x Hx). unfold event_le in Hall.
    rewrite bool_decide_eq_true_2 in Hall by congruence. exact Hall.
  - eapply seqZ_sorted, (sk_sequences _ _ Hs).
Qed.

Lemma pending_unknown (o : Outbox) (key : bytes) :
  outbox_ok (ob_events o) (ob_watermarks o) -> ob_watermarks o !! key = None ->
  events_of key (pending o kMaximumOutboxEvents) = [].
Proof.
  intros Hok Hw. pose proof (session_queue_unknown _ _ _ Hok Hw) as Hnone.
  destruct (events_of key (pending o kMaximumOutboxEvents)) as [|e l] eqn:E; [done|].
  assert (e ∈ events_of key (pending o kMaximumOutboxEvents)) as [Hk He]%events_of_elem
    by (rewrite E; by left).
  assert (e ∈ ob_events o) as Hin.
  { unfold pending in He. destruct (_ || _); [by apply not_elem_of_nil in He|].
    apply elem_of_take in He as (i & Hi & _). apply list_elem_of_lookup_2 in Hi.
    by rewrite merge_sort_Permutation in Hi. }
  assert (e ∈ events_of key (ob_events o)) as H by (by apply events_of_elem).
  rewrite Hnone in H. by apply not_elem_of_nil in H.
Qed.

(** *** Runs and their events *)

Lemma history_session (queued events : list AnswerEvent) (wms : Watermarks) (key : bytes)
    (w : OutboxWatermark) :
  outbox_ok events wms -> history queued events wms -> wms !! key = Some w ->
  map ev_sequence (events_of key queued) = seqZ 1 (wm_highest_sequence w) /\
  len (events_of key queued) = wm_highest_sequence w /\
  session_ok w (session_queue key events) /\ u64 (wm_acknowledged_sequence w).
Proof.
  intros Hok Hh Hw. specialize (Hh key). rewrite Hw in Hh. destruct Hh as [Hs _].
  destruct (session_queue_of _ _ _ _ Hok Hw) as (_ & Hsess & _).
  pose proof (sk_typed _ _ Hsess) as (_ & _ & _ & _ & _ & _ & Hu & _).
  pose proof (sk_highest _ _ Hsess). pose proof (len_nonneg (session_queue key events)).
  split_and!; try done. apply (f_equal length) in Hs. rewrite length_map, length_seqZ in Hs.
  unfold len in *. ulia.
Qed.

Lemma outbox_run_app (ops more : list OutboxOp) :
  outbox_run (ops ++ more) = fold_left outbox_step more (outbox_run ops).
Proof. apply fold_left_app. Qed.

Lemma acknowledged_events_app (ops more : list OutboxOp) : forall w,
  acknowledged_events w (ops ++ more) =
    acknowledged_events w ops ++ acknowledged_events (fold_left outbox_step ops w) more.
Proof. induction ops as [|op ops IH]; intros w; cbn; [done|]. by rewrite IH, app_assoc. Qed.

(** Where an acknowledged event comes from. *)
Lemma acknowledged_origin (more : list OutboxOp) : forall w a,
  a ∈ acknowledged_events w more ->
  exists before calls sid n h after, more = before ++ OpAcknowledge calls sid n h :: after /\
    let u := fold_left outbox_step before w in
    (exists o' file', acknowledge calls (ow_outbox u) (default [] (ow_file u)) sid n h
       = (Ok tt, o', file')) /\
    a ∈ ob_events (ow_outbox u) /\ ev_session_id a = sid /\ ev_sequence a = n /\
    hash_answer_event sha256 a = Some h.
Proof.
  induction more as [|op more IH]; intros w a; cbn [acknowledged_events].
  { by intros ?%not_elem_of_nil. }
  intros [Ha|Ha]%elem_of_app.
  - destruct op as [| |calls sid n h|]; try by apply not_elem_of_nil in Ha.
    exists [], calls, sid, n, h, more. split; [done|]. cbn in *.
    destruct (acknowledge _ _ _ _ _ _) as [[r o'] file'] eqn:E.
    destruct r as [[]|]; [|by apply not_elem_of_nil in Ha]. cbn in Ha.
    apply list_elem_of_filter in Ha as [(? & ? & ?) ?]. split_and!; eauto.
  - destruct (IH _ _ Ha) as (before & calls & sid & n & h & after & -> & H).
    by exists (op :: before), calls, sid, n, h, after.
Qed.

(** The events above a count are those of the queue from a position. *)
Lemma body_in_drop (queue : list AnswerEvent) (e : AnswerEvent) (m count : Z) :
  map ev_sequence queue = seqZ 1 m -> body e ∈ map body queue -> 0 <= count ->
  body e ∈ drop (Z.to_nat count) (map body queue) <-> count < ev_sequence e.
Proof.
  intros Hs Hin Hc. apply list_elem_of_lookup in Hin as [i Hi].
  assert (forall j, map body queue !! j = Some (body e) -> Z.of_nat j + 1 = ev_sequence e) as Hpos.
  { intros j Hj. rewrite list_lookup_fmap in Hj. destruct (queue !! j) as [x|] eqn:Ex; [|done].
    apply (inj Some) in Hj as Hb. assert (map ev_sequence queue !! j = Some (ev_sequence x)) as Hx
      by (by rewrite list_lookup_fmap, Ex).
    rewrite Hs in Hx. apply lookup_seqZ in Hx as [Hx _].
    apply body_fields in Hb as (Hb & _). lia. }
  pose proof (Hpos i Hi). split.
  - intros [j Hj]%list_elem_of_lookup. rewrite lookup_drop in Hj. apply Hpos in Hj. lia.
  - intros Hlt. apply list_elem_of_lookup. exists (i - Z.to_nat count)%nat.
    rewrite lookup_drop. by replace (Z.to_nat count + (i - Z.to_nat count))%nat with i by lia.
Qed.

(** A pending event was accepted, above the acknowledged sequence. *)
Lemma pending_accepted (queued events : list AnswerEvent) (wms : Watermarks) (e : AnswerEvent) :
  outbox_ok events wms -> history queued events wms -> e ∈ events ->
  body e ∈ map body (events_of (event_key e) queued) /\
  default 0 (wm_acknowledged_sequence <$> wms !! event_key e) < ev_sequence e.
Proof.
  intros Hok Hh He. destruct (ok_known _ _ Hok e He) as [w Hw].
  destruct (history_session _ _ _ _ _ Hok Hh Hw) as (Hs & _ & _ & Hu).
  specialize (Hh (event_key e)). rewrite Hw in Hh |- *.
  destruct Hh as [_ Hb]. destruct (session_queue_of _ _ _ _ Hok Hw) as (Hp & _).
  assert (body e ∈ map body (session_queue (event_key e) events)) as Hin.
  { apply list_elem_of_fmap_2. rewrite Hp. by apply events_of_elem. }
  rewrite Hb in Hin.
  assert (body e ∈ map body (events_of (event_key e) queued)) as Hq
    by (revert Hin; apply subseteq_drop).
  split; [done|]. cbn. by apply (body_in_drop _ _ _ _ Hs Hq) in Hin; [|ulia].
Qed.

(** An accepted event above the acknowledged sequence is pending. *)
Lemma accepted_pending (queued events : list AnswerEvent) (wms : Watermarks) (e : AnswerEvent) :
  outbox_ok events wms -> history queued events wms ->
  body e ∈ map body (events_of (event_key e) queued) ->
  default 0 (wm_acknowledged_sequence <$> wms !! event_key e) < ev_sequence e ->
  exists e', e' ∈ events /\ body e' = body e.
Proof.
  intros Hok Hh Hq Hlt. pose proof (Hh (event_key e)) as Hk.
  destruct (wms !! event_key e) as [w|] eqn:Hw; [|rewrite Hk in Hq; by apply not_elem_of_nil in Hq].
  destruct (history_session _ _ _ _ _ Hok Hh Hw) as (Hs & _ & _ & Hu). destruct Hk as [_ Hb].
  apply (body_in_drop _ _ _ (wm_acknowledged_sequence w) Hs Hq ltac:(ulia)) in Hlt.
  rewrite <- Hb in Hlt. apply list_elem_of_fmap in Hlt as (e' & -> & He').
  destruct (session_queue_of _ _ _ _ Hok Hw) as (Hp & _). rewrite Hp in He'.
  apply events_of_elem in He' as [_ He']. by exists e'.
Qed.

Lemma kept_or_acknowledged (ops more : list OutboxOp) (e : AnswerEvent) :
  Forall outbox_op_ok (ops ++ more) -> ob_open (ow_outbox (outbox_run ops)) = true ->
  ob_open (ow_outbox (outbox_run (ops ++ more))) = true ->
  e ∈ ob_events (ow_outbox (outbox_run ops)) ->
  (exists e', e' ∈ ob_events (ow_outbox (outbox_run (ops ++ more))) /\ body e' = body e) \/
  exists a, a ∈ acknowledged_events (outbox_run ops) more /\ event_key a = event_key e /\
    ev_sequence e <= ev_sequence a.
Proof.
  intros Hops Ho Ho' He. pose proof (outbox_run_inv _ Hops) as Hinv'.
  apply Forall_app in Hops as [Hops _]. pose proof (outbox_run_inv _ Hops) as Hinv.
  destruct Hinv as [(_ & ? & _)|(f & evs & wms & [_ _ Hok Hh Hopen] & Ht)]; [congruence|].
  destruct Hinv' as [(_ & ? & _)|(f' & evs' & wms' & [_ _ Hok' Hh' Hopen'] & Ht')]; [congruence|].
  rewrite (Hopen Ho) in He. rewrite (Hopen' Ho'). cbn in He |- *.
  destruct (pending_accepted _ _ _ _ Hok Hh He) as [Hq Hlt].
  assert (body e ∈ map body (events_of (event_key e) (ow_queued (outbox_run (ops ++ more))))) as Hq'.
  { rewrite outbox_run_app. destruct (queued_grows more (outbox_run ops)) as [x ->].
    rewrite events_of_app, map_app. by apply elem_of_app; left. }
  destruct (decide (default 0 (wm_acknowledged_sequence <$> wms' !! event_key e) < ev_sequence e))
    as [Hlt'|Hge].
  - left. by eapply accepted_pending.
  - right. rewrite Ht', acknowledged_events_app, events_of_app, highest_app, <- Ht in Hge.
    destruct (highest_attained (events_of (event_key e) (acknowledged_events (outbox_run ops) more)))
      as (a & [Hk Ha]%events_of_elem & Hs).
    + pose proof (highest_nonneg (events_of (event_key e) (acknowledged_events new_outbox ops))).
      rewrite <- Ht in *. unfold outbox_run in *. lia.
    + exists a. split_and!; [done|done|]. rewrite Hs. unfold outbox_run in *. lia.
Qed.

(** One acknowledgement removes the events of one session up to the one it names. *)
Lemma acknowledge_precise (ops : list OutboxOp) (calls : WriteCalls)
    (file session_id event_hash : bytes) (sequence : Z) (r : result unit) (o' : Outbox)
    (file' : bytes) :
  Forall outbox_op_ok ops ->
  let o := ow_outbox (outbox_run ops) in
  acknowledge calls o file session_id sequence event_hash = (r, o', file') ->
  o' = o \/
  r = Ok tt /\ exists target, target ∈ ob_events o /\ ev_session_id target = session_id /\
    ev_sequence target = sequence /\ hash_answer_event sha256 target = Some event_hash /\
    (forall e, e ∈ ob_events o' <->
       e ∈ ob_events o /\ ~ (event_key e = event_key target /\ ev_sequence e <= sequence)).
Proof.
  intros Hops o. pose proof (outbox_run_inv ops Hops) as Hinv. unfold acknowledge.
  destruct (_ || _ || _) eqn:E; [intros [= _ <- _]; by left|]. bool_to_prop.
  destruct Hinv as [(_ & Ho & _)|(f & events & wms & [_ _ Hok _ Hopen] & _)];
    [subst o; congruence|]. specialize (Hopen ltac:(done)). fold o in Hopen. rewrite Hopen.
  unfold commit.
  destruct (acknowledge_change _ _ _ _) as [[[events' wms']|]|] eqn:Ec;
    [|intros [= _ <- _]; by left..].
  apply acknowledge_change_ok in Ec as [_ Heff]; [|done].
  destruct (save calls events' wms'); intros [= <- <- <-]; [right|by left]. split; [done|].
  destruct Heff as [target w Hin Hsid Hs Hd Hw _ -> _]. exists target.
  pose proof (ok_events _ _ Hok) as Hwf. rewrite Forall_forall in Hwf.
  destruct (event_digest target (Hwf target Hin)) as (-> & _). split_and!; try done.
  - by rewrite Hd.
  - intros e. cbn. rewrite list_elem_of_filter. tauto.
Qed.

(** ** What the outbox promises *)

(** The calls of an opening that succeed; the encryption may still fail. *)
Definition working_open (calls : OutboxOpenCalls) : Prop :=
  oo_valid_path calls = true /\ oo_directories calls = true /\ oo_lease calls = true /\
  oo_status calls = true /\ oo_read calls = true.

(** C3. The outbox is a durable queue.  After any run of queueing,
    acknowledgements, closings and openings on a new file, whatever the storage
    and the encryption calls did, the events accepted so far number each session
    1, 2, ... without a gap; while the outbox is open, what it offers of each
    session is exactly the accepted events above the highest sequence of the
    session that an acknowledgement of the run answered with success, naming a
    pending event by its session, sequence and digest.  They have their contents
    (only predecessor digests may have been rebased) and are linked by digests.
    And a restart whose calls work gives the same outbox back and does not touch
    the file. *)
Theorem outbox_is_a_durable_queue (ops : list OutboxOp) :
  Forall outbox_op_ok ops ->
  let w := outbox_run ops in
  let queued := fun key => events_of key (ow_queued w) in
  let acknowledged := fun key => highest (events_of key (acknowledged_events new_outbox ops)) in
  let offered := fun key => events_of key (pending (ow_outbox w) kMaximumOutboxEvents) in
  (ob_open (ow_outbox w) = true -> forall key,
     map ev_sequence (queued key) = seqZ 1 (len (queued key)) /\
     acknowledged key <= len (queued key) /\
     map body (offered key) = drop (Z.to_nat (acknowledged key)) (map body (queued key)) /\
     exists previous, chained previous (offered key)) /\
  (ow_file w <> None -> forall calls, working_open calls ->
     exists o', open_outbox calls (ow_outbox w) (ow_file w) = (Ok tt, o', ow_file w) /\
       ob_open o' = true /\ (ob_open (ow_outbox w) = true -> o' = ow_outbox w)).
Proof.
  intros Hops w. pose proof (outbox_run_inv ops Hops) as Hinv. fold w in Hinv. cbv zeta.
  destruct Hinv as [(Hf & Ho & Hq & _)|(file & events & wms & [Hf Hst Hok Hhist Hopen] & Ht)].
  { split; [intros Ho'; congruence|done]. }
  split.
  - intros Ho key. pose proof (Hhist key) as Hk. rewrite (Hopen Ho), <- Ht.
    destruct (wms !! key) as [wm|] eqn:Ew.
    + destruct (history_session _ _ _ _ _ Hok Hhist Ew) as (Hs & Hlen & Hsess & Hu).
      rewrite (pending_session (mkOutbox true events wms) key wm) by done. cbn [ob_events].
      rewrite Hlen. pose proof (len_nonneg (session_queue key events)).
      pose proof (sk_highest _ _ Hsess). split_and!; [exact Hs|cbn; lia|apply Hk|].
      exists (wm_acknowledged_hash wm). apply (sk_chain _ _ Hsess).
    + rewrite Hk, (pending_unknown (mkOutbox true events wms)) by done.
      split_and!; [done|done|done|by exists []].
  - intros _ calls (Hp & Hd & Hl & Hs & Hr). rewrite Hf. exists (mkOutbox true events wms).
    split_and!; [|done|by intros Ho; rewrite (Hopen Ho)].
    unfold open_outbox. rewrite Hp, Hd, Hl, Hs. cbn [negb].
    by rewrite (load_stored _ _ _ _ Hst), Hr.
Qed.

(** C8. An event leaves the outbox only when its digest, or that of a later event
    of its session, is acknowledged.  Between two moments of a run at which the
    outbox is open, whatever is queued, rebased, acknowledged, closed and opened
    in between, an event that is pending at the first is pending at the second
    (but for its predecessor digest), or an acknowledgement in between answered
    with success and named, by session, sequence and digest, an event of the same
    session, pending when it was called, that is this event or a later one.  A single acknowledgement removes
    precisely the pending events of that session up to its event or changes
    nothing. *)
Theorem removed_only_when_acknowledged (ops more : list OutboxOp) :
  Forall outbox_op_ok (ops ++ more) ->
  let w := outbox_run ops in
  let w' := outbox_run (ops ++ more) in
  (forall e, ob_open (ow_outbox w) = true -> ob_open (ow_outbox w') = true ->
     e ∈ ob_events (ow_outbox w) ->
     (exists e', e' ∈ ob_events (ow_outbox w') /\ body e' = body e) \/
     exists before calls session_id sequence event_hash after target,
       more = before ++ OpAcknowledge calls session_id sequence event_hash :: after /\
       let u := outbox_run (ops ++ before) in
       (exists o' file', acknowledge calls (ow_outbox u) (default [] (ow_file u))
          session_id sequence event_hash = (Ok tt, o', file')) /\
       target ∈ ob_events (ow_outbox u) /\ event_key target = event_key e /\
       ev_session_id target = session_id /\ ev_sequence target = sequence /\
       hash_answer_event sha256 target = Some event_hash /\ ev_sequence e <= sequence) /\
  (forall calls file session_id event_hash sequence r o' file',
     acknowledge calls (ow_outbox w) file session_id sequence event_hash = (r, o', file') ->
     o' = ow_outbox w \/
     r = Ok tt /\ exists target, target ∈ ob_events (ow_outbox w) /\
       ev_session_id target = session_id /\ ev_sequence target = sequence /\
       hash_answer_event sha256 target = Some event_hash /\
       (forall e, e ∈ ob_events o' <-> e ∈ ob_events (ow_outbox w) /\
          ~ (event_key e = event_key target /\ ev_sequence e <= sequence))).
Proof.
  intros Hops w w'. split.
  - intros e Ho Ho' He.
    destruct (kept_or_acknowledged ops more e Hops Ho Ho' He) as [?|(a & Ha & Hk & Hs)]; [by left|].
    right. destruct (acknowledged_origin more _ a Ha)
      as (before & calls & sid & n & h & after & -> & Hok & Hin & Hsid & Hn & Hh).
    exists before, calls, sid, n, h, after, a. split; [done|]. cbv zeta.
    rewrite outbox_run_app. repeat (split; [done|]). rewrite <- Hn. exact Hs.
  - intros calls file sid h n r o' file'. apply Forall_app in Hops as [Hops _].
    by apply (acknowledge_precise ops).
Qed.

(** C28. Whatever bytes the file holds, in any version of the format, opening
    either fails with an error, leaving an empty closed outbox and the file as it
    was, or gives an outbox whose every session is consistent: valid events
    numbered from the acknowledged sequence to the highest, linked by digests
    from the acknowledged digest to the last, nothing after a finalization. *)
Theorem opened_outbox_is_consistent (calls : OutboxOpenCalls) (o o' : Outbox) (file : bytes)
    (file' : option bytes) (r : result unit) :
  oo_valid_path calls = true -> open_outbox calls o (Some file) = (r, o', file') ->
  (exists error, r = Err error) /\ o' = closed_outbox /\ file' = Some file \/
  r = Ok tt /\ ob_open o' = true /\ outbox_ok (ob_events o') (ob_watermarks o').
Proof.
  intros Hp. unfold open_outbox. rewrite Hp. cbn [negb].
  repeat (case_match; [intros [= <- <- <-]; left; split_and!; by eauto|]). unfold load.
  repeat (case_match; [intros [= <- <- <-]; left; split_and!; by eauto|]).
  destruct (open_stored file) as [[plaintext encrypted]|];
    [|intros [= <- <- <-]; left; split_and!; by eauto].
  destruct (decode_outbox plaintext) as [[[version events] wms]|] eqn:Ed;
    [|intros [= <- <- <-]; left; split_and!; by eauto].
  apply decode_outbox_valid in Ed as [_ Hok].
  case_match; [|intros [= <- <- <-]; by right].
  destruct (save _ _ _); intros [= <- <- <-]; [by right|left; split_and!; by eauto].
Qed.
End Sessions.

End Outbox.

(** ** A concrete run

    A constant digest and a one-byte wrapper stand for SHA-256 and the encryption:
    two events are queued, the second one after a failed attempt, and the first
    one is acknowledged. *)

Definition wrap_secret (plaintext : bytes) : result bytes := Ok (Byte.x00 :: plaintext).
Definition unwrap_secret (blob : bytes) : result bytes :=
  match blob with [] => Err "empty" | _ :: plaintext => Ok plaintext end.

Definition good_write : WriteCalls :=
  mkWriteCalls wrap_secret true true true true (fun _ => Some 65536) true true.
Definition failed_write : WriteCalls :=
  mkWriteCalls wrap_secret true true true true (fun _ => Some 65536) true false.
Definition good_outbox_open : OutboxOpenCalls :=
  mkOutboxOpenCalls true true true true good_write true good_write.

Definition sample_outbox_ops : list OutboxOp :=
  [OpOpen good_outbox_open; OpEnqueue good_write first_event;
   OpEnqueue failed_write second_event; OpEnqueue good_write second_event;
   OpAcknowledge good_write (ev_session_id first_event) 1 (replicate 32 Byte.x07)].

Definition sample_outbox : OutboxWorld :=
  outbox_run constant_digest unwrap_secret sample_outbox_ops.

Lemma good_write_honest : honest unwrap_secret good_write /\ honest unwrap_secret failed_write.
Proof. split; intros plaintext blob [= <-]; done. Qed.

Lemma sample_outbox_ops_ok : Forall (outbox_op_ok unwrap_secret) sample_outbox_ops.
Proof.
  destruct good_write_honest as [Hg Hf]. assert (u64 1 /\ u64 2) as [? ?] by (split; ulia).
  assert (typed_event first_event /\ typed_event second_event) as [T1 T2]
    by (split; apply sample_event_typed; (assumption || reflexivity)).
  repeat (apply Forall_cons; split); try apply Forall_nil_2.
  - exact (conj Hg Hg).
  - exact (conj Hg T1).
  - exact (conj Hf T2).
  - exact (conj Hg T2).
  - exact Hg.
Qed.

Lemma outbox_is_a_durable_queue_witness :
  pending (ow_outbox sample_outbox) kMaximumOutboxEvents = [second_event] /\
  exists o', open_outbox constant_digest unwrap_secret good_outbox_open (ow_outbox sample_outbox)
    (ow_file sample_outbox) = (Ok tt, o', ow_file sample_outbox) /\ ob_open o' = true.
Proof.
  split; [vm_compute; reflexivity|].
  destruct (outbox_is_a_durable_queue constant_digest unwrap_secret constant_digest_ok
    sample_outbox_ops sample_outbox_ops_ok) as [_ H].
  destruct (H ltac:(intros E; by vm_compute in E) good_outbox_open) as (o' & Ho & Hopen & _).
  - by split_and!.
  - exists o'. exact (conj Ho Hopen).
Defined.

Lemma removed_only_when_acknowledged_witness :
  let queued := outbox_run constant_digest unwrap_secret (take 4 sample_outbox_ops) in
  ob_events (ow_outbox queued) = [first_event; second_event] /\
  ob_events (ow_outbox sample_outbox) = [second_event] /\
  exists before calls sid n h after, drop 4 sample_outbox_ops =
    before ++ OpAcknowledge calls sid n h :: after /\ ev_sequence first_event <= n.
Proof.
  intros queued.
  assert (ob_events (ow_outbox queued) = [first_event; second_event]) as Hbefore
    by (vm_compute; reflexivity).
  assert (ob_events (ow_outbox sample_outbox) = [second_event]) as Hafter
    by (vm_compute; reflexivity).
  split; [exact Hbefore|]. split; [exact Hafter|].
  destruct (removed_only_when_acknowledged constant_digest unwrap_secret constant_digest_ok
    (take 4 sample_outbox_ops) (drop 4 sample_outbox_ops) sample_outbox_ops_ok) as [H _].
  destruct (H first_event) as [(e' & He' & Hb)|(before & calls & sid & n & h & after & target & E & R)].
  - vm_compute. reflexivity.
  - vm_compute. reflexivity.
  - change (first_event ∈ ob_events (ow_outbox queued)). rewrite Hbefore. by left.
  - exfalso. change (e' ∈ ob_events (ow_outbox sample_outbox)) in He'.
    rewrite Hafter in He'. apply list_elem_of_singleton in He' as ->.
    apply body_fields in Hb as [Hs _]. by vm_compute in Hs.
  - exists before, calls, sid, n, h, after. split; [exact E|]. apply R.
Defined.

Lemma opened_outbox_is_consistent_witness :
  exists r o' file', open_outbox constant_digest unwrap_secret good_outbox_open closed_outbox
    (Some (write_le 4 kOutboxMagic ++ write_le 2 9)) = (r, o', file') /\
  o' = closed_outbox /\ file' = Some (write_le 4 kOutboxMagic ++ write_le 2 9).
Proof.
  destruct (open_outbox constant_digest unwrap_secret good_outbox_open closed_outbox
    (Some (write_le 4 kOutboxMagic ++ write_le 2 9))) as [[r o'] file'] eqn:E.
  exists r, o', file'. split; [reflexivity|].
  destruct (opened_outbox_is_consistent constant_digest unwrap_secret constant_digest_ok
    good_outbox_open closed_outbox o' _ file' r eq_refl E) as [(_ & H)|[Hr _]]; [exact H|].
  exfalso. assert (is_ok r = false) as Hf.
  { change r with (((r, o'), file').1.1). rewrite <- E. vm_compute. reflexivity. }
  by rewrite Hr in Hf.
Defined.

End AnswerOutbox.
