(* ===== verification/Delivery.v ===== *)
(** From the client's answer outbox to the server's answer journal: the server's
    handler of an answer event (process_exam_answer_event in
    server/src/control_plane.cpp), the client's handler of its acknowledgement
    (client/service/main.cpp), and runs of the whole system.

    The payloads of both commands travel through the authenticated channel, which
    may lose, repeat and reorder them by reconnecting: an event payload may be
    anything a client sends, an acknowledgement payload is one the server sent at
    some time. *)

From S2P Require Import Prelude Wire Codec ExamSync AnswerJournal AnswerOutbox.

Module Delivery.
Import ExamSync AnswerJournal AnswerOutbox.

(** ** The server *)

Record ActiveExamContext := mkActiveExam {
  ax_package_id : bytes;
  ax_package_digest : bytes;
  ax_client_id : bytes;
  ax_session_id : bytes;
  ax_candidate_id : bytes
}.

Definition matches_exam_context (context : ActiveExamContext) (event : AnswerEvent) : bool :=
  bool_decide (ax_client_id context = ev_client_id event) &&
  bool_decide (ax_package_digest context = ev_package_digest event) &&
  bool_decide (ax_session_id context = ev_session_id event) &&
  bool_decide (ax_package_id context = ev_package_id event) &&
  bool_decide (ax_candidate_id context = ev_candidate_id event).

(** What the handler knows and calls: the client of the handshake, the active
    exam of the connection, the size of the journal file, the file calls and the
    clock. *)
Record ServerCalls := mkServerCalls {
  sc_hello_client_id : bytes;
  sc_active_exam : option ActiveExamContext;
  sc_size_known : bool;
  sc_append : AppendCalls;
  sc_now : Z
}.

Section Handlers.
Variable sha256 : bytes -> option bytes.
Variable unprotect : bytes -> result bytes.

(** [outcome.ack] when the journal is closed. *)
Definition unavailable_ack (event : AnswerEvent) (now : Z) : AnswerAck :=
  mkAnswerAck ack_unavailable (ev_session_id event) (ev_sequence event) 0 now zero_digest zero_digest.

(** The new journal, and the acknowledgement to send; [None] disconnects. *)
Definition process_exam_answer_event (w : World) (payload : bytes) (calls : ServerCalls) :
    World * option bytes :=
  match result_value (decode_answer_event payload), sc_active_exam calls with
  | Some event, Some context =>
      if negb (bool_decide (ev_client_id event = sc_hello_client_id calls)) ||
         negb (matches_exam_context context event)
      then (w, None)
      else
        let ack_of (w : World) (ack : AnswerAck) :=
          let payload := encode_answer_ack ack in
          (w, if bool_decide (payload = []) then None else Some payload) in
        if jn_open (w_journal w) then
          let '(outcome, _, _) :=
            append sha256 (w_journal w) (default [] (w_file w)) event (sc_size_known calls)
              (sc_append calls) (sc_now calls) in
          ack_of (journal_step sha256 w (OpAppend event (sc_size_known calls) (sc_append calls) (sc_now calls)))
            (ao_ack outcome)
        else ack_of w (unavailable_ack event (sc_now calls))
  | _, _ => (w, None)
  end.

(** ** The client *)

Definition durable_ack (ack : AnswerAck) : bool :=
  (ak_status ack =? ack_accepted) || (ak_status ack =? ack_duplicate).

Definition process_answer_ack (w : OutboxWorld) (payload : bytes) (ready : bool) (calls : WriteCalls) :
    OutboxWorld :=
  match decode_answer_ack payload with
  | None => w
  | Some ack =>
      if durable_ack ack && ready
      then outbox_step sha256 unprotect w
             (OpAcknowledge calls (ak_session_id ack) (ak_sequence ack) (ak_event_hash ack))
      else w
  end.

(** ** Runs *)

Inductive SystemOp : Type :=
| client_outbox (op : OutboxOp)
| client_receives (index : nat) (ready : bool) (calls : WriteCalls)
| server_receives (payload : bytes) (calls : ServerCalls)
| server_journal (op : JournalOp).

(** Both sides, the acknowledgements the server sent, and the events that were
    pending at the client at some time. *)
Record System := mkSystem {
  sy_client : OutboxWorld;
  sy_server : World;
  sy_acks : list bytes;
  sy_seen : list AnswerEvent
}.

Definition system_step (s : System) (op : SystemOp) : System :=
  match op with
  | client_outbox op =>
      let c := outbox_step sha256 unprotect (sy_client s) op in
      mkSystem c (sy_server s) (sy_acks s) (sy_seen s ++ ob_events (ow_outbox c))
  | client_receives index ready calls =>
      match sy_acks s !! index with
      | None => s
      | Some payload =>
          mkSystem (process_answer_ack (sy_client s) payload ready calls) (sy_server s) (sy_acks s)
            (sy_seen s)
      end
  | server_receives payload calls =>
      let '(w, ack) := process_exam_answer_event (sy_server s) payload calls in
      mkSystem (sy_client s) w (sy_acks s ++ match ack with Some a => [a] | None => [] end)
        (sy_seen s)
  | server_journal op =>
      mkSystem (sy_client s) (journal_step sha256 (sy_server s) op) (sy_acks s) (sy_seen s)
  end.

Definition initial_system : System :=
  mkSystem (mkOutboxWorld closed_outbox None []) (AnswerJournal.mkWorld closed_journal None [] []) [] [].

Definition system_run (ops : list SystemOp) : System := fold_left system_step ops initial_system.

(** Acknowledgements reach the outbox through their handler only, and events the
    journal; the encryption is honest, and queued events and the clock have their
    types. *)
Definition system_op_ok (op : SystemOp) : Prop :=
  match op with
  | client_outbox op =>
      outbox_op_ok unprotect op /\ match op with OpAcknowledge _ _ _ _ => False | _ => True end
  | client_receives _ _ calls => honest unprotect calls
  | server_receives _ calls => u64 (sc_now calls)
  | server_journal op => match op with OpAppend _ _ _ _ => False | _ => True end
  end.
End Handlers.

(** ** Durable acknowledgements name journalled events *)

Section Proofs.
Context (sha256 : bytes -> option bytes) (unprotect : bytes -> result bytes).
Hypothesis sha256_digest : forall m,
  exists d, sha256 m = Some d /\ length d = 32%nat /\ all_zero d = false.

Abbreviation digest_of := (AnswerJournal.digest_of sha256).
Abbreviation sessions_of := (AnswerJournal.sessions_of sha256).

(** The event behind an acknowledgement. *)
Definition acknowledges (ack : AnswerAck) (e : AnswerEvent) : Prop :=
  ak_sequence ack = ev_sequence e /\ ak_event_hash ack = digest_of e.

Lemma sha256_bytes m d : sha256 m = Some d -> length d = 32%nat.
Proof. intros E. destruct (sha256_digest m) as (d' & E' & H & _). congruence. Qed.

(** A sequence the session has belongs to an event of its log. *)
Lemma recorded_hash events s n h :
  session_of sha256 events s -> sd_event_hashes s !! n = Some h ->
  exists e, e ∈ events /\ ev_sequence e = n /\ digest_of e = h.
Proof.
  intros Hs. rewrite (so_hashes _ _ _ Hs). case_bool_decide; [|done]. intros Hl.
  destruct (events !! Z.to_nat (n - 1)) as [e|] eqn:E; [|done]. cbn in Hl. injection Hl as <-.
  exists e. split; [by eapply list_elem_of_lookup_2|]. split; [|done].
  apply (session_sequence_at _ _ _ _ _ Hs) in E. lia.
Qed.

Lemma refused_ack log sessions e h now out discard :
  sessions_of log sessions ->
  refuse sha256 (default (new_session e) (sessions !! event_key e)) e h now = Some (out, discard) ->
  durable_ack (ao_ack out) = true -> exists f, f ∈ log /\ acknowledges (ao_ack out) f.
Proof.
  intros Hs Hr Hd. unfold refuse in Hr.
  destruct (negb _) in Hr; [by injection Hr as <- _|].
  destruct (sessions !! event_key e) as [s|] eqn:Es; cbn [default from_option] in Hr.
  2:{ cbn [new_session sd_event_hashes] in Hr. rewrite lookup_empty in Hr.
      repeat case_match; simplify_eq/=; done. }
  unfold id in Hr. destruct (sd_event_hashes s !! ev_sequence e) as [existing|] eqn:Ex.
  - specialize (Hs (event_key e)). rewrite Es in Hs. destruct Hs as [_ Hs].
    destruct (recorded_hash _ _ _ _ Hs Ex) as (f & Hf & Hseq & Hh).
    apply list_elem_of_filter in Hf as [_ Hf]. exists f. split; [done|].
    destruct (negb _) in Hr; injection Hr as <- _; by split.
  - repeat case_match; simplify_eq/=; done.
Qed.

Lemma stored_ack j file key inserted session e h sk calls now out j' file' :
  store_event sha256 j file key inserted session e h sk calls now = (out, j', file') ->
  durable_ack (ao_ack out) = true ->
  ao_status out = st_accepted /\ ak_sequence (ao_ack out) = ev_sequence e /\ ak_event_hash (ao_ack out) = h.
Proof.
  unfold store_event. destruct (_ || _ || _ || _); [by intros [= <- _ _]|].
  destruct (append_file calls file _) as [[] file1]; cbn [negb]; [|by intros [= <- _ _]].
  destruct (apply_recovered session e h); intros [= <- _ _]; done.
Qed.

Lemma append_ack log j file e sk calls now out j' file' :
  sessions_of log (jn_sessions j) -> append sha256 j file e sk calls now = (out, j', file') ->
  durable_ack (ao_ack out) = true ->
  ao_status out = st_accepted /\ acknowledges (ao_ack out) e \/
  exists f, f ∈ log /\ acknowledges (ao_ack out) f.
Proof.
  intros Hs. unfold append. destruct (negb _); [by intros [= <- _ _]|].
  destruct (negb _); [by intros [= <- _ _]|].
  destruct (hash_answer_event sha256 e) as [h|] eqn:Eh; [|by intros [= <- _ _]].
  destruct (_ && _); [by intros [= <- _ _]|]. cbv zeta.
  destruct (refuse _ _ e h now) as [[o discard]|] eqn:Er.
  - intros [= <- _ _] Hd. right. by eapply refused_ack.
  - intros Hst Hd. destruct (stored_ack _ _ _ _ _ _ _ _ _ _ _ _ _ Hst Hd) as (? & ? & Hh).
    left. split; [done|]. split; [done|]. unfold AnswerJournal.digest_of. by rewrite Hh, Eh.
Qed.

(** ** The server keeps its log, and acknowledges only what is in it *)

Definition log_of (w : World) (log : list AnswerEvent) : Prop :=
  exists tail sessions, world_log sha256 w log tail sessions.

Definition ack_in (log : list AnswerEvent) (payload : bytes) : Prop :=
  forall ack, decode_answer_ack payload = Some ack -> durable_ack ack = true ->
  exists e, e ∈ log /\ acknowledges ack e.

Lemma ack_in_prefix log log' payload : log `prefix_of` log' -> ack_in log payload -> ack_in log' payload.
Proof.
  intros Hp Ha ack Hd Hdur. destruct (Ha ack Hd Hdur) as (e & He & Hack). exists e. split; [|done].
  destruct Hp as [rest ->]. apply elem_of_app. by left.
Qed.

Lemma decode_ack_iff payload ack :
  decode_answer_ack payload = Some ack <-> wf_ack ack /\ payload = encode_answer_ack ack.
Proof. exact (decode_iff (A := AnswerAck) payload ack). Qed.

(** The status is found where it was written. *)
Lemma sent_status ack ack' :
  encode_answer_ack ack <> [] -> decode_answer_ack (encode_answer_ack ack) = Some ack' ->
  ak_status ack' = ak_status ack.
Proof.
  intros Hne Hd. apply decode_ack_iff in Hd as [(Hv' & _) E]. revert Hne E.
  unfold encode_answer_ack. rewrite Hv'. cbn [negb].
  destruct (valid_ack_shape ack) eqn:Hv; cbn [negb]; [|done]. intros _ E.
  assert (Hstatus : forall a, valid_ack_shape a = true -> u8 (ak_status a)).
  { intros a Ha. unfold valid_ack_shape in Ha. destruct (_ || _ || _) eqn:E1 in Ha; [done|]. bool_to_prop.
    match goal with H : valid_ack_status _ = true |- _ => unfold valid_ack_status in H end.
    unfold ack_accepted, ack_unavailable in *. bool_to_prop. ulia. }
  do 2 (apply app_inj_1 in E as [_ E]; [|by rewrite !length_write_le]).
  apply app_inj_1 in E as [E _]; [|by rewrite !length_write_le].
  apply write_le_inj in E; [done|..]; by apply Hstatus.
Qed.

(** A durable acknowledgement has its C++ types, so it is read as it was sent. *)
Definition typed_ack (ack : AnswerAck) : Prop :=
  length (ak_session_id ack) = 16%nat /\ length (ak_event_hash ack) = 32%nat /\
  length (ak_state_hash ack) = 32%nat /\ u64 (ak_sequence ack) /\
  u64 (ak_highest_contiguous_sequence ack) /\ u64 (ak_server_time ack).

Lemma sent_ack ack ack' :
  encode_answer_ack ack <> [] -> (durable_ack ack = true -> typed_ack ack) ->
  decode_answer_ack (encode_answer_ack ack) = Some ack' -> durable_ack ack' = true -> ack' = ack.
Proof.
  intros Hne Ht Hd Hdur. pose proof (sent_status _ _ Hne Hd) as Hs.
  assert (Hack : durable_ack ack = true) by (unfold durable_ack in *; by rewrite <- Hs).
  destruct (Ht Hack) as (H1 & H2 & H3 & H4 & H5 & H6).
  assert (Hv : valid_ack_shape ack = true).
  { unfold encode_answer_ack in Hne. by destruct (valid_ack_shape ack). }
  assert (E : decode_answer_ack (encode_answer_ack ack) = Some ack)
    by (apply decode_ack_iff; split; [by split_and!|done]).
  congruence.
Qed.

(** The session of an event, as it is before the event. *)
Lemma session_typed log sessions e s :
  sessions_of log sessions -> Forall wf_event log -> wf_event e ->
  s = default (new_session e) (sessions !! event_key e) ->
  length (sd_session_id s) = 16%nat /\ u64 (sd_highest_sequence s).
Proof.
  intros Hs Hwf He ->. specialize (Hs (event_key e)).
  destruct (sessions !! event_key e) as [s|]; cbn; [unfold id|split; [apply He|ulia]].
  destruct Hs as [Hne Hs]. destruct (events_of (event_key e) log) as [|f fs] eqn:E; [done|].
  assert (f ∈ events_of (event_key e) log) as Hf by (rewrite E; by left).
  apply list_elem_of_filter in Hf as [_ Hf]. rewrite Forall_forall in Hwf.
  pose proof (so_identity _ _ _ Hs) as Hid. apply Forall_cons in Hid as [(_ & _ & _ & <-) _].
  split; [by apply Hwf|]. rewrite (so_highest _ _ _ Hs). pose proof (so_bound _ _ _ Hs).
  pose proof (len_nonneg (f :: fs)). unfold u64_max in *. ulia.
Qed.

Lemma make_ack_typed s status n h now :
  length (sd_session_id s) = 16%nat -> u64 (sd_highest_sequence s) -> length h = 32%nat -> u64 n ->
  u64 now -> typed_ack (make_ack sha256 s status n h now).
Proof.
  intros. destruct (state_hash_facts sha256 sha256_digest s) as [? _]. by split_and!.
Qed.

Lemma append_typed log j file e sk calls now out j' file' :
  sessions_of log (jn_sessions j) -> Forall wf_event log -> wf_event e -> u64 now ->
  append sha256 j file e sk calls now = (out, j', file') ->
  durable_ack (ao_ack out) = true -> typed_ack (ao_ack out).
Proof.
  intros Hs Hwf He Hnow. unfold append. destruct (negb _); [by intros [= <- _ _]|].
  destruct (negb _); [by intros [= <- _ _]|].
  destruct (wf_event_hash sha256 sha256_digest e He) as (Eh & Hlen & _). rewrite Eh.
  destruct (_ && _); [by intros [= <- _ _]|]. cbv zeta.
  set (s := default (new_session e) _).
  destruct (session_typed log (jn_sessions j) e s Hs Hwf He eq_refl) as [Hsid Hhigh].
  assert (Hseq : u64 (ev_sequence e)) by apply He.
  destruct (refuse sha256 s e _ now) as [[o discard]|] eqn:Er.
  - intros [= <- _ _] _. unfold refuse in Er.
    destruct (negb _) in Er; [injection Er as <- _; by apply make_ack_typed|].
    destruct (sd_event_hashes s !! ev_sequence e) as [existing|] eqn:Ex.
    + assert (length existing = 32%nat).
      { subst s. specialize (Hs (event_key e)). destruct (jn_sessions j !! event_key e) as [s|].
        - destruct Hs as [_ Hs]. destruct (recorded_hash _ _ _ _ Hs Ex) as (f & Hf & _ & <-).
          apply list_elem_of_filter in Hf as [_ Hf]. rewrite Forall_forall in Hwf.
          apply (wf_event_hash sha256 sha256_digest f (Hwf f Hf)).
        - cbn in Ex. by rewrite lookup_empty in Ex. }
      destruct (negb _) in Er; injection Er as <- _; by apply make_ack_typed.
    + repeat case_match; simplify_eq; by apply make_ack_typed.
  - unfold store_event. destruct (_ || _ || _ || _); [by intros [= <- _ _]|].
    destruct (append_file calls file _) as [[] file1]; cbn [negb]; [|by intros [= <- _ _]].
    destruct (apply_recovered s e _) as [s'|] eqn:Ea; [|by intros [= <- _ _]]. intros [= <- _ _] _.
    unfold apply_recovered in Ea. destruct (_ || _ || _ || _ || _); [done|]. injection Ea as <-.
    by apply make_ack_typed.
Qed.

Lemma server_step w log payload calls w' ack :
  log_of w log -> u64 (sc_now calls) ->
  process_exam_answer_event sha256 w payload calls = (w', ack) ->
  exists log', log `prefix_of` log' /\ log_of w' log' /\ forall a, ack = Some a -> ack_in log' a.
Proof.
  intros (tail & sessions & Hw) Hnow. unfold process_exam_answer_event.
  assert (Hsame : log_of w log) by (by exists tail, sessions).
  assert (Hstay : forall a, (forall p, a = Some p -> ack_in log p) -> (w, a) = (w', ack) ->
    exists log', log `prefix_of` log' /\ log_of w' log' /\ forall p, ack = Some p -> ack_in log' p).
  { intros a Ha [= <- <-]. by exists log. }
  destruct (decode_answer_event payload) as [e|m] eqn:Ed; cbn [result_value]; [|by apply Hstay].
  destruct (sc_active_exam calls) as [context|]; [|by apply Hstay].
  destruct (_ || _); [by apply Hstay|]. cbv zeta.
  apply decode_answer_event_iff in Ed as [He _].
  destruct (jn_open (w_journal w)) eqn:Ho.
  2:{ apply Hstay. case_bool_decide as Hne; [done|]. intros p [= <-] ack' Hd Hdur.
      apply sent_ack in Hd; [by subst ack'|exact Hne|done|done]. }
  destruct (append sha256 _ _ e _ _ _) as [[out j'] file'] eqn:Ea. intros [= <- <-].
  destruct (append_step sha256 sha256_bytes w log tail sessions e (sc_size_known calls) (sc_append calls)
    (sc_now calls) Hw) as (log' & tail' & sessions' & Hp & Hw'); [apply He|].
  clear Hstay. destruct (wl_open _ _ _ _ _ Hw Ho) as (_ & Hsess & _).
  pose proof (replay_sessions_of _ _ _ (wl_wf _ _ _ _ _ Hw) (wl_replay _ _ _ _ _ Hw)) as Hs.
  rewrite <- Hsess in Hs.
  exists log'. split; [done|]. split; [by exists tail', sessions'|].
  intros p. destruct (bool_decide (encode_answer_ack (ao_ack out) = [])) eqn:Hne; [done|].
  apply bool_decide_eq_false in Hne. intros [= <-] ack' Hd Hdur.
  apply sent_ack in Hd; [|done| |done].
  2:{ apply (append_typed _ _ _ _ _ _ _ _ _ _ Hs (wl_wf _ _ _ _ _ Hw) He Hnow Ea). }
  subst ack'. destruct (append_ack _ _ _ _ _ _ _ _ _ _ Hs Ea Hdur) as [[Hst Hack]|(f & Hf & Hack)].
  - exists e. split; [|done]. refine (elem_of_sublist _ _ _ _ (wl_accepted _ _ _ _ _ Hw')).
    unfold journal_step. rewrite Ea. cbn [w_accepted]. rewrite (bool_decide_eq_true_2 _ Hst). apply elem_of_app. right. by left.
  - exists f. split; [|done]. destruct Hp as [rest ->]. apply elem_of_app. by left.
Qed.

(** Journal operations other than appending keep the log. *)
Lemma server_journal_step w log op :
  log_of w log -> match op with OpAppend _ _ _ _ => False | _ => True end ->
  log_of (journal_step sha256 w op) log /\
  w_submitted (journal_step sha256 w op) = w_submitted w.
Proof.
  intros (tail & sessions & Hw) Hop. destruct op as [|calls|]; [done| |].
  - destruct (open_step _ sha256_bytes _ _ _ _ calls Hw) as [tail' H]. split; [by exists tail', sessions|].
    unfold journal_step. by destruct (open_journal _ _ _ _).
  - split; [|done]. exists tail, sessions. destruct Hw. by constructor.
Qed.

(** ** What the client dropped is in the log *)

Definition collision_free (events : list AnswerEvent) : Prop :=
  forall x y, x ∈ events -> y ∈ events -> digest_of x = digest_of y -> x = y.

(** Two chains that end with the same event agree as far as the shorter goes. *)
Lemma chain_agree (seen : list AnswerEvent) (x : AnswerEvent) (short : list AnswerEvent) :
  collision_free seen ->
  forall long h h', chained sha256 h (short ++ [x]) -> chained sha256 h' (long ++ [x]) ->
  (length short <= length long)%nat ->
  (forall e, e ∈ short ++ [x] -> e ∈ seen) -> (forall e, e ∈ long ++ [x] -> e ∈ seen) ->
  exists front, long = front ++ short.
Proof.
  intros Hfree. revert x. induction short as [|y short IH] using rev_ind; intros x long h h' Hs Hl Hlen Es El.
  { exists long. by rewrite app_nil_r. }
  destruct long as [|z long _] using rev_ind; [rewrite length_app in Hlen; cbn in Hlen; lia|].
  apply chained_snoc in Hs as [Hs Hy], Hl as [Hl Hz]. rewrite last_snoc in Hy, Hz.
  assert (y = z) as <-.
  { apply Hfree; [apply Es|apply El|by rewrite <- Hy]; apply elem_of_app; left; apply elem_of_app; right; by left. }
  rewrite !length_app in Hlen. cbn in Hlen.
  destruct (IH y long h h' Hs Hl) as [front ->]; [lia| | |].
  - intros e He. apply Es, elem_of_app. by left.
  - intros e He. apply El, elem_of_app. by left.
  - exists front. by rewrite app_assoc.
Qed.

(** A session's event is at its sequence. *)
Lemma split_at_sequence (events : list AnswerEvent) (m : Z) (e : AnswerEvent) :
  map ev_sequence events = seqZ m (len events) -> e ∈ events ->
  exists before after, events = before ++ e :: after /\ len before = ev_sequence e - m.
Proof.
  intros Hs He. apply list_elem_of_split in He as (before & after & ->).
  exists before, after. split; [done|].
  assert (H : (map ev_sequence (before ++ e :: after)) !! length before = Some (ev_sequence e)).
  { rewrite list_lookup_fmap, list_lookup_middle by done. done. }
  rewrite Hs in H. apply lookup_seqZ in H. unfold len. lia.
Qed.

Definition bodies (key : bytes) (events : list AnswerEvent) : list AnswerEvent :=
  map body (events_of key events).

(** Of each session, what the client has dropped begins what the log has. *)
Definition covered (queued log : list AnswerEvent) (wms : Watermarks) : Prop :=
  forall key w, wms !! key = Some w ->
    take (Z.to_nat (wm_acknowledged_sequence w)) (bodies key queued) `prefix_of` bodies key log.

Definition client_inv (c : OutboxWorld) (seen log : list AnswerEvent) : Prop :=
  ow_file c = None /\ ob_open (ow_outbox c) = false /\ ow_queued c = [] \/
  exists file events wms, holds sha256 unprotect c file events wms /\
    (forall e, e ∈ events -> e ∈ seen) /\ covered (ow_queued c) log wms.

Record sys_inv (s : System) (log : list AnswerEvent) : Prop := {
  si_log : log_of (sy_server s) log;
  si_acks : Forall (ack_in log) (sy_acks s);
  si_client : client_inv (sy_client s) (sy_seen s) log
}.

Lemma bodies_prefix key log log' : log `prefix_of` log' -> bodies key log `prefix_of` bodies key log'.
Proof.
  intros [rest ->]. unfold bodies, events_of. rewrite filter_app, map_app. by eexists.
Qed.

Lemma covered_prefix queued log log' wms :
  log `prefix_of` log' -> covered queued log wms -> covered queued log' wms.
Proof. intros Hp Hc key w Hw. etrans; [by apply Hc|by apply bodies_prefix]. Qed.

Lemma client_inv_mono c seen seen' log log' :
  (forall e, e ∈ seen -> e ∈ seen') -> log `prefix_of` log' -> client_inv c seen log ->
  client_inv c seen' log'.
Proof.
  intros Hs Hl [H|(file & events & wms & Hh & He & Hc)]; [by left|]. right.
  exists file, events, wms. split_and!; [done|by eauto|by eapply covered_prefix].
Qed.

(** What a session has queued is as long as its highest sequence, and pending is
    what is above its acknowledged one. *)
Lemma queued_length queued events wms key w :
  outbox_ok sha256 events wms -> history queued events wms -> wms !! key = Some w ->
  0 <= wm_acknowledged_sequence w <= wm_highest_sequence w /\
  len (events_of key queued) = wm_highest_sequence w /\
  map body (session_queue key events) = drop (Z.to_nat (wm_acknowledged_sequence w)) (bodies key queued).
Proof.
  intros Hok Hh Hw. specialize (Hh key). rewrite Hw in Hh. destruct Hh as [Hs Hb].
  destruct (session_queue_of sha256 _ _ _ _ Hok Hw) as (_ & Hsess & _).
  pose proof (sk_typed _ _ _ Hsess) as (_ & _ & _ & _ & _ & _ & Hu & _).
  pose proof (sk_highest _ _ _ Hsess). pose proof (len_nonneg (session_queue key events)).
  apply (f_equal length) in Hs. rewrite length_map, length_seqZ in Hs. unfold len in *.
  split_and!; [ulia|ulia|ulia|done].
Qed.

Lemma queued_more queued queued' events wms key w e :
  outbox_ok sha256 events wms -> history queued events wms ->
  (queued' = queued \/ queued' = queued ++ [e]) -> wms !! key = Some w ->
  take (Z.to_nat (wm_acknowledged_sequence w)) (bodies key queued') =
  take (Z.to_nat (wm_acknowledged_sequence w)) (bodies key queued).
Proof.
  intros Hok Hh Hq Hw. destruct (queued_length _ _ _ _ _ Hok Hh Hw) as (Hb & Hl & _).
  destruct Hq as [Hq|Hq]; rewrite Hq; [done|]. unfold bodies. rewrite events_of_snoc.
  case_bool_decide; [|done]. rewrite map_app. apply take_app_le. rewrite length_map. unfold len in Hl. lia.
Qed.

Lemma queue_covered queued queued' log events events' wms wms' e :
  outbox_ok sha256 events wms -> history queued events wms ->
  (queued' = queued \/ queued' = queued ++ [e]) ->
  queue_effect events wms e events' wms' -> covered queued log wms -> covered queued' log wms'.
Proof.
  intros Hok Hh Hq Heff Hc key w'' Hw''.
  assert (Hkeep : forall w, wms !! key = Some w -> wm_acknowledged_sequence w'' = wm_acknowledged_sequence w ->
    take (Z.to_nat (wm_acknowledged_sequence w'')) (bodies key queued') `prefix_of` bodies key log).
  { intros w Hw Heq. rewrite Heq, (queued_more _ _ _ _ _ _ _ Hok Hh Hq Hw). by apply Hc. }
  destruct Heff as [w w' Hs Hhi Ha Hw|w w' events' Hw Hb Hhi Ha _];
    (destruct (decide (key = event_key e)) as [Hk|Hne];
      [subst key; rewrite lookup_insert_eq in Hw''; injection Hw'' as <-|rewrite lookup_insert_ne in Hw'' by done;
       by apply (Hkeep w'')]).
  - destruct Hw as [Hw|(_ & _ & H0)]; [by apply (Hkeep w)|]. rewrite Ha, H0. by apply prefix_nil.
  - by apply (Hkeep w).
Qed.

(** The event an acknowledgement names, as journalled: what its session queued up
    to it is in the log. *)
Lemma journalled_up_to seen log sessions queued events wms key w f :
  collision_free seen -> (forall e, e ∈ events -> e ∈ seen) -> (forall e, e ∈ log -> e ∈ seen) ->
  sessions_of log sessions -> outbox_ok sha256 events wms -> history queued events wms ->
  wms !! key = Some w -> event_key f = key -> f ∈ events -> f ∈ log ->
  take (Z.to_nat (wm_acknowledged_sequence w)) (bodies key queued) `prefix_of` bodies key log ->
  take (Z.to_nat (ev_sequence f)) (bodies key queued) `prefix_of` bodies key log.
Proof.
  intros Hfree Hse Hsl Hs Hok Hh Hw Hk Hfe Hfl Hc.
  destruct (queued_length _ _ _ _ _ Hok Hh Hw) as (Hb & Hlen & Hq).
  destruct (session_queue_of sha256 _ _ _ _ Hok Hw) as (Hp & Hsess & _).
  set (pend := session_queue key events) in *. set (a := wm_acknowledged_sequence w) in *.
  assert (Hfp : f ∈ pend) by (rewrite Hp; by apply events_of_elem).
  assert (Hfk : f ∈ events_of key log) by (by apply events_of_elem).
  specialize (Hs key). destruct (sessions !! key) as [s|]; [|rewrite Hs in Hfk; by apply not_elem_of_nil in Hfk].
  destruct Hs as [_ Hs].
  destruct (split_at_sequence _ _ _ (sk_sequences _ _ _ Hsess) Hfp) as (before & after & Ep & Hbef).
  destruct (split_at_sequence _ _ _ (so_sequences _ _ _ Hs) Hfk) as (front & back & El & Hfront).
  pose proof (sk_chain _ _ _ Hsess) as Hc1. pose proof (so_chain _ _ _ Hs) as Hc2.
  rewrite Ep in Hc1. rewrite El in Hc2.
  rewrite (app_assoc before [f] after : before ++ f :: after = _) in Hc1.
  rewrite (app_assoc front [f] back : front ++ f :: back = _) in Hc2.
  apply (chained_app sha256 unprotect) in Hc1 as [Hc1 _], Hc2 as [Hc2 _]. fold a in Hbef.
  destruct (chain_agree seen f before Hfree front _ _ Hc1 Hc2) as [q Eq].
  { unfold len in *. lia. }
  { intros e He. apply Hse. assert (H : e ∈ pend).
    { rewrite Ep. apply elem_of_app in He as [He|He]; apply elem_of_app; [by left|right].
      apply list_elem_of_singleton in He as ->. by left. }
    rewrite Hp in H. by apply events_of_elem in H as [_ H]. }
  { intros e He. apply Hsl. assert (H : e ∈ events_of key log).
    { rewrite El. apply elem_of_app in He as [He|He]; apply elem_of_app; [by left|right].
      apply list_elem_of_singleton in He as ->. by left. }
    by apply events_of_elem in H as [_ H]. }
  assert (Hqa : len q = a) by (rewrite Eq, len_app in Hfront; lia).
  assert (Hlog : bodies key log = map body q ++ map body (before ++ [f]) ++ map body back).
  { unfold bodies. rewrite El, Eq, !map_app. cbn. by rewrite <- !app_assoc. }
  assert (Htake : take (Z.to_nat a) (bodies key queued) = map body q).
  { rewrite Hlog in Hc. destruct Hc as [k Hc]. symmetry. apply (app_inj_1 _ _ _ _) in Hc as [Hc _]; [done|].
    unfold bodies, len in *. rewrite length_take, !length_map. lia. }
  rewrite Hlog. exists (map body back). rewrite app_assoc. f_equal.
  rewrite <- (take_drop (Z.to_nat a) (bodies key queued)), Htake, <- Hq, Ep.
  rewrite (app_assoc before [f] after : before ++ f :: after = _), (map_app _ (before ++ [f])), app_assoc.
  rewrite take_app_length'; [done|]. rewrite length_app, !length_map, length_app. cbn. unfold len in *. lia.
Qed.

(** The event of an acknowledgement in the log, as the outbox has it. *)
Lemma acknowledge_covered seen log sessions queued events wms events' wms' sid n hash :
  collision_free seen -> (forall e, e ∈ events -> e ∈ seen) -> (forall e, e ∈ log -> e ∈ seen) ->
  sessions_of log sessions -> outbox_ok sha256 events wms -> history queued events wms ->
  acknowledge_effect sha256 (mkOutbox true events wms) sid n hash events' wms' ->
  (exists e, e ∈ log /\ n = ev_sequence e /\ hash = digest_of e) ->
  covered queued log wms -> covered queued log wms'.
Proof.
  intros Hfree Hse Hsl Hs Hok Hh [target w Hin _ Hseq Hd Hw _ _ ->] (f & Hf & Hfn & Hfd) Hc key w' Hw'.
  cbn [ob_events ob_watermarks] in *.
  assert (target = f) as <- by (apply Hfree; [by apply Hse|by apply Hsl|congruence]).
  destruct (decide (key = event_key target)) as [Hk|Hne].
  - subst key. rewrite lookup_insert_eq in Hw'. injection Hw' as <-. cbn [set_acknowledged wm_acknowledged_sequence].
    rewrite <- Hseq. apply (journalled_up_to seen log sessions queued events wms _ w target); try done. by apply Hc.
  - rewrite lookup_insert_ne in Hw' by done. by apply Hc.
Qed.

(** ** The steps *)

Lemma client_step c op seen log :
  client_inv c seen log -> outbox_op_ok unprotect op ->
  match op with OpAcknowledge _ _ _ _ => False | _ => True end ->
  let c' := outbox_step sha256 unprotect c op in
  client_inv c' (seen ++ ob_events (ow_outbox c')) log.
Proof.
  intros Hc Hop Hack. set (c' := outbox_step sha256 unprotect c op). cbv zeta.
  assert (Hleft : forall e, e ∈ seen -> e ∈ seen ++ ob_events (ow_outbox c'))
    by (intros e He; apply elem_of_app; by left).
  destruct Hc as [(Hf & Ho & Hq)|(file & events & wms & Hh & Hsee & Hcov)].
  - destruct op as [calls|calls e| |]; [|left|done|by left].
    + destruct (open_new sha256 unprotect sha256_digest c calls Hf Ho Hq) as [Hq' [[Hf' Ho']|[file H]]];
        [apply Hop|by left|]. right. exists file, [], ∅. split; [done|]. split; [by intros e He%not_elem_of_nil|].
      intros key w. by rewrite lookup_empty.
    + unfold c', outbox_step, enqueue. by rewrite Ho, Hf.
  - right. destruct op as [calls|calls e| |]; [| |done|].
    + destruct (open_holds sha256 unprotect c calls file events wms Hh) as [Hq H].
      exists file, events, wms. split_and!; [done|by eauto|]. unfold c'. by rewrite Hq.
    + destruct (enqueue_holds sha256 unprotect sha256_digest c calls e file events wms Hh Hop)
        as (Hq & file' & events' & wms' & H & Heff). exists file', events', wms'. split; [done|].
      destruct Heff as [[-> ->]|[Ho Heff]].
      * split; [by eauto|]. intros key w Hw. unfold c'. rewrite (queued_more _ _ _ _ _ _ _ (hd_ok _ _ _ _ _ _ Hh)
          (hd_history _ _ _ _ _ _ Hh) Hq Hw). by apply Hcov.
      * split; [|eapply queue_covered; try done; apply Hh].
        intros x Hx. apply elem_of_app. right. unfold c'. by rewrite (hd_open _ _ _ _ _ _ H Ho).
    + exists file, events, wms. destruct Hh. split; [by constructor|]. by split; [eauto|].
Qed.

Lemma client_ack_step c seen log sessions payload ready calls :
  client_inv c seen log -> collision_free (seen ++ log) -> sessions_of log sessions ->
  ack_in log payload -> honest unprotect calls ->
  client_inv (process_answer_ack sha256 unprotect c payload ready calls) seen log.
Proof.
  intros Hc Hfree Hs Hack Hh. unfold process_answer_ack.
  destruct (decode_answer_ack payload) as [ack|] eqn:Ed; [|done].
  destruct (durable_ack ack && ready) eqn:E; [|done]. apply andb_true_iff in E as [Hdur _].
  destruct Hc as [(Hf & Ho & Hq)|(file & events & wms & Hw & Hsee & Hcov)].
  - left. unfold outbox_step, acknowledge. rewrite Ho, Hf. cbn [negb orb]. by rewrite Hq.
  - right. destruct (acknowledge_holds sha256 unprotect sha256_digest c calls (ak_session_id ack)
      (ak_event_hash ack) (ak_sequence ack) file events wms Hw Hh)
      as (Hq & file' & events' & wms' & H & Heff).
    exists file', events', wms'. split; [done|]. rewrite Hq.
    destruct Heff as [[He Hm]|Heff]; [by subst events' wms'|]. split.
    + destruct Heff as [target w Hin _ _ _ _ _ -> _]. intros e [_ He]%list_elem_of_filter. by apply Hsee.
    + apply (acknowledge_covered (seen ++ log) log sessions _ events wms events' wms'
        (ak_session_id ack) (ak_sequence ack) (ak_event_hash ack)); try done.
      * intros e He. apply elem_of_app. left. by apply Hsee.
      * intros e He. apply elem_of_app. by right.
      * apply Hw.
      * apply Hw.
      * destruct (Hack ack Ed Hdur) as (f & Hf & H1 & H2). by exists f.
Qed.

Lemma log_facts w log :
  log_of w log -> (forall e, e ∈ log -> e ∈ w_submitted w) /\ exists sessions, sessions_of log sessions.
Proof.
  intros (tail & sessions & Hw). split; [apply (wl_submitted _ _ _ _ _ Hw)|]. exists sessions.
  apply (replay_sessions_of _ _ _ (wl_wf _ _ _ _ _ Hw) (wl_replay _ _ _ _ _ Hw)).
Qed.

(** The events of both sides so far. *)
Definition all_events (s : System) : list AnswerEvent := sy_seen s ++ w_submitted (sy_server s).

Lemma system_step_inv s op log :
  sys_inv s log -> system_op_ok unprotect op -> collision_free (all_events s) ->
  exists log', sys_inv (system_step sha256 unprotect s op) log'.
Proof.
  intros [Hlog Hacks Hclient] Hop Hfree. destruct op as [op|index ready calls|payload calls|op].
  - destruct Hop as [Hop Hnot]. exists log. constructor; [done|done|]. by apply client_step.
  - cbn [system_step]. destruct (sy_acks s !! index) as [payload|] eqn:Ei; [|by exists log].
    exists log. constructor; [done|done|]. destruct (log_facts _ _ Hlog) as [Hsub [sessions Hs]].
    cbn. eapply client_ack_step; try done.
    + intros x y Hx Hy. apply Hfree; unfold all_events; apply elem_of_app.
      * apply elem_of_app in Hx as [Hx|Hx]; [by left|right; by apply Hsub].
      * apply elem_of_app in Hy as [Hy|Hy]; [by left|right; by apply Hsub].
    + rewrite Forall_lookup in Hacks. by eapply Hacks.
  - cbn [system_step]. destruct (process_exam_answer_event _ _ _ _) as [w' ack] eqn:Ep.
    destruct (server_step _ _ _ _ _ _ Hlog Hop Ep) as (log' & Hp & Hlog' & Hack).
    exists log'. constructor; cbn; [done| |].
    + apply Forall_app. split; [|destruct ack; [constructor; [by apply Hack|constructor]|constructor]].
      eapply Forall_impl; [exact Hacks|]. intros p. by apply ack_in_prefix.
    + eapply client_inv_mono; [|exact Hp|exact Hclient]. done.
  - exists log. destruct (server_journal_step _ _ op Hlog Hop) as [H _]. by constructor.
Qed.

Lemma submitted_grows w payload calls e :
  e ∈ w_submitted w -> e ∈ w_submitted (process_exam_answer_event sha256 w payload calls).1.
Proof.
  intros He. unfold process_exam_answer_event, journal_step.
  repeat (case_match; cbn; try done). apply elem_of_app. by left.
Qed.

Lemma all_events_step s op e :
  system_op_ok unprotect op -> e ∈ all_events s -> e ∈ all_events (system_step sha256 unprotect s op).
Proof.
  unfold all_events. rewrite !elem_of_app. intros Hop He.
  destruct op as [op|index ready calls|payload calls|op]; cbn [system_step].
  - cbn. rewrite elem_of_app. tauto.
  - by destruct (sy_acks s !! index).
  - pose proof (submitted_grows (sy_server s) payload calls e) as Hg.
    destruct (process_exam_answer_event _ _ _ _). cbn in *. tauto.
  - cbn. destruct op as [|calls|]; [done| |done]. unfold journal_step. by destruct (open_journal _ _ _ _).
Qed.

Lemma system_run_inv ops :
  Forall (system_op_ok unprotect) ops -> collision_free (all_events (system_run sha256 unprotect ops)) ->
  exists log, sys_inv (system_run sha256 unprotect ops) log.
Proof.
  unfold system_run. induction ops as [|op ops IH] using rev_ind; intros Hops Hfree.
  - exists []. constructor; [|constructor|by left]. exists [], ∅. by constructor.
  - rewrite fold_left_app in *. cbn [fold_left] in *.
    apply Forall_app in Hops as [Hops [Hop _]%Forall_cons].
    assert (Hfree' : collision_free (all_events (fold_left (system_step sha256 unprotect) ops initial_system))).
    { intros x y Hx Hy. apply Hfree; by apply all_events_step. }
    destruct (IH Hops Hfree') as [log Hinv]. by eapply system_step_inv.
Qed.

(** C1. No answer is lost between the client and the server.  In any run of
    queueing, restarts and storage failures on both sides, of event payloads
    that reach the server from whomever, and of the server's acknowledgements
    reaching the client late, repeatedly or not at all, every session's answers
    accepted by the client are split by an acknowledged count: those below it
    are, in their order and with their contents, the first of the session's
    records in the server's journal file, and those above it are what the open
    outbox offers to send.  SHA-256 is assumed not to collide on the events of
    the run. *)
Theorem no_answer_lost (ops : list SystemOp) :
  Forall (system_op_ok unprotect) ops ->
  let s := system_run sha256 unprotect ops in
  collision_free (all_events s) ->
  exists log tail, default [] (w_file (sy_server s)) = journal_file sha256 log ++ tail /\
    read_record sha256 tail = front_incomplete /\
    forall key, exists acknowledged : nat,
      take acknowledged (bodies key (ow_queued (sy_client s))) `prefix_of` bodies key log /\
      (ob_open (ow_outbox (sy_client s)) = true ->
       bodies key (pending (ow_outbox (sy_client s)) kMaximumOutboxEvents) =
       drop acknowledged (bodies key (ow_queued (sy_client s)))).
Proof.
  intros Hops s Hfree. destruct (system_run_inv ops Hops Hfree) as [log [Hlog _ Hclient]]. fold s in Hlog, Hclient.
  destruct Hlog as (tail & sessions & Hw). exists log, tail.
  split; [apply Hw|]. split; [apply Hw|]. intros key.
  destruct Hclient as [(_ & Ho & Hq)|(file & events & wms & Hh & _ & Hcov)].
  { exists O. rewrite Ho, Hq. split; [apply prefix_nil|done]. }
  pose proof (hd_ok _ _ _ _ _ _ Hh) as Hok. pose proof (hd_history _ _ _ _ _ _ Hh) as Hhist.
  destruct (wms !! key) as [wm|] eqn:Ewm.
  - exists (Z.to_nat (wm_acknowledged_sequence wm)). split; [by apply Hcov|]. intros Ho.
    destruct (queued_length _ _ _ _ _ Hok Hhist Ewm) as (_ & _ & <-). unfold bodies.
    by rewrite (hd_open _ _ _ _ _ _ Hh Ho), (pending_session sha256 (mkOutbox true events wms) key wm).
  - exists O. split; [apply prefix_nil|]. intros Ho. rewrite (hd_open _ _ _ _ _ _ Hh Ho). unfold bodies.
    rewrite (pending_unknown sha256 (mkOutbox true events wms) key) by done. specialize (Hhist key). rewrite Ewm in Hhist.
    by rewrite Hhist.
Qed.
End Proofs.


(** ** A concrete run

    A rolling sum stands for SHA-256: two answers are queued, both reach the
    server, and only the first one's acknowledgement comes back. *)

Definition rolling (m : bytes) : Z :=
  fold_left (fun sum b => (sum * 257 + byte_val b + 1) mod 2 ^ 248) m 1.
Definition rolling_digest (m : bytes) : option bytes := Some (Byte.x01 :: write_le 31 (rolling m)).

Definition answer_one : AnswerEvent := sample_event "q1" 1 zero_digest.
Definition answer_two : AnswerEvent :=
  sample_event "q2" 2 (AnswerJournal.digest_of rolling_digest answer_one).

Definition sample_calls : ServerCalls :=
  mkServerCalls (ev_client_id answer_one)
    (Some (mkActiveExam (ev_package_id answer_one) (ev_package_digest answer_one)
             (ev_client_id answer_one) (ev_session_id answer_one) (ev_candidate_id answer_one)))
    true good_append 9.

Definition sample_delivery : list SystemOp :=
  [client_outbox (OpOpen good_outbox_open); client_outbox (OpEnqueue good_write answer_one);
   client_outbox (OpEnqueue good_write answer_two); server_journal (OpReopen good_open);
   server_receives (encode_answer_event answer_one) sample_calls;
   server_receives (encode_answer_event answer_two) sample_calls;
   client_receives 0 true good_write; client_receives 1 true failed_write].

Definition delivered : System := system_run rolling_digest unwrap_secret sample_delivery.

Lemma rolling_digest_ok (m : bytes) :
  exists d, rolling_digest m = Some d /\ length d = 32%nat /\ all_zero d = false.
Proof. eexists. split; [done|]. split; [cbn [length]; by rewrite length_write_le|done]. Qed.

Lemma sample_delivery_ok : Forall (system_op_ok unwrap_secret) sample_delivery.
Proof.
  destruct good_write_honest as [Hg Hf]. assert (u64 1 /\ u64 2 /\ u64 9) as (? & ? & ?) by (split_and!; ulia).
  assert (typed_event answer_one /\ typed_event answer_two) as [T1 T2]
    by (split; apply sample_event_typed; (assumption || (vm_compute; reflexivity))).
  repeat (apply Forall_cons; split); try apply Forall_nil_2; cbn; try done.
Qed.

Lemma sample_collision_free : collision_free rolling_digest (all_events delivered).
Proof.
  assert (H : all_events delivered = [answer_one; answer_one; answer_two; answer_one; answer_two])
    by (vm_compute; reflexivity).
  assert (Hne : bool_decide (AnswerJournal.digest_of rolling_digest answer_one =
    AnswerJournal.digest_of rolling_digest answer_two) = false) by (vm_compute; reflexivity).
  apply bool_decide_eq_false in Hne. unfold collision_free. rewrite H. clear H. revert Hne.
  generalize answer_one answer_two. intros a b Hne x y. rewrite !elem_of_cons, !elem_of_nil.
  intros Hx Hy E. assert (x = a \/ x = b) as [->| ->] by tauto;
    assert (y = a \/ y = b) as [->| ->] by tauto; congruence.
Qed.

Lemma no_answer_lost_witness :
  let key := event_key answer_one in
  bodies key (pending (ow_outbox (sy_client delivered)) kMaximumOutboxEvents) = [body answer_two] /\
  exists log tail, default [] (w_file (sy_server delivered)) = journal_file rolling_digest log ++ tail /\
    [body answer_one] `prefix_of` bodies key log.
Proof.
  intros key.
  assert (Hpending : bodies key (pending (ow_outbox (sy_client delivered)) kMaximumOutboxEvents) =
    [body answer_two]) by (vm_compute; reflexivity).
  assert (Hqueued : bodies key (ow_queued (sy_client delivered)) = [body answer_one; body answer_two])
    by (vm_compute; reflexivity).
  split; [exact Hpending|].
  destruct (no_answer_lost rolling_digest unwrap_secret rolling_digest_ok sample_delivery
    sample_delivery_ok sample_collision_free) as (log & tail & Hfile & _ & Hkey).
  exists log, tail. split; [exact Hfile|]. destruct (Hkey key) as (acknowledged & Hpre & Hopen).
  fold delivered in Hpre, Hopen. rewrite Hqueued in Hpre, Hopen.
  assert (Hready : ob_open (ow_outbox (sy_client delivered)) = true) by (vm_compute; reflexivity).
  specialize (Hopen Hready). rewrite Hpending in Hopen. clear Hready.
  clear Hpending Hqueued. revert Hpre Hopen. generalize (body answer_one) (body answer_two). intros a b.
  destruct acknowledged as [|[|n]]; [discriminate|intros Hpre _; exact Hpre|]. by destruct n.
Defined.

End Delivery.
