(* ===== verification/WfpAllowlist.v ===== *)
(** The website allowlist (common/include/nstu/wfp_allowlist.hpp and
    common/src/wfp_allowlist.cpp, the Windows branch): which filters an exam
    puts in the Windows Filtering Platform and how they are taken out.

    The platform's base filtering engine is a parameter: [WfpEngine] lists the
    calls of the source with the status each returns, [WfpEngineLaws] what the
    platform documents of them.  Handles, names and the provider and sub-layer
    objects carry no other state here than the statuses of their calls. *)

From stdpp Require Import pretty.
From S2P Require Import Prelude.

Module WfpAllowlist.

(** ** Data *)

Record Guid := mkGuid { Data1 : Z; Data2 : Z; Data3 : Z; Data4 : list Z }.

#[export] Instance Guid_eq_dec : EqDecision Guid.
Proof. solve_decision. Defined.

#[export] Instance Guid_countable : Countable Guid :=
  inj_countable' (fun k => (Data1 k, Data2 k, Data3 k, Data4 k))
    (fun '(a, b, c, d) => mkGuid a b c d) ltac:(by intros []).

(** [Ipv6Address]: sixteen bytes. *)
Definition zero_ipv6 : bytes := repeat (byte_of 0) 16.

Record WfpAllowlistConfig := mkConfig {
  allowed_ipv4 : list Z;
  allowed_ipv6 : list bytes;
  server_ipv4 : Z;
  server_ipv6 : bytes;
  server_port : Z;
  default_deny : bool;
  permit_loopback : bool;
  permit_dns_dhcp : bool;
  block_http : bool;
  block_https : bool
}.

(** The conditions the source builds: [FWP_V4_ADDR_MASK], [FWP_V6_ADDR_MASK]
    on the remote address and [FWP_UINT16] on the remote port. *)
Inductive Condition :=
| ipv4_condition (addr mask : Z)
| ipv6_condition (addr : bytes) (prefixLength : Z)
| port_condition (port : Z).

Inductive Action := FWP_ACTION_BLOCK | FWP_ACTION_PERMIT.

#[export] Instance Action_eq_dec : EqDecision Action.
Proof. solve_decision. Defined.

(** The fields of [FWPM_FILTER0] that vary. *)
Record Filter := mkFilter {
  layerKey : Guid;
  filterKey : Guid;
  conditions : list Condition;
  action : Action;
  weight : Z
}.

(** ** Keys *)

Definition tail10 (last : Z) : list Z := [0x9f; 0x08; 0x39; 0x11; 0x5d; 0x4c; 0x6a; last].

Definition kBlockDefaultDenyV4Key := mkGuid 0xa6bc8b10 0x7612 0x4d91 (tail10 0x10).
Definition kBlockDefaultDenyV6Key := mkGuid 0xa6bc8b10 0x7612 0x4d91 (tail10 0x11).
Definition kPermitLoopbackV4Key := mkGuid 0xa6bc8b10 0x7612 0x4d91 (tail10 0x12).
Definition kPermitLoopbackV6Key := mkGuid 0xa6bc8b10 0x7612 0x4d91 (tail10 0x13).
Definition kPermitDnsV4Key := mkGuid 0xa6bc8b10 0x7612 0x4d91 (tail10 0x14).
Definition kPermitDnsV6Key := mkGuid 0xa6bc8b10 0x7612 0x4d91 (tail10 0x15).
Definition kPermitDhcpV4Key := mkGuid 0xa6bc8b10 0x7612 0x4d91 (tail10 0x16).
Definition kPermitDhcpV6Key := mkGuid 0xa6bc8b10 0x7612 0x4d91 (tail10 0x17).
Definition kPermitServerV4Key := mkGuid 0xa6bc8b10 0x7612 0x4d91 (tail10 0x18).
Definition kPermitServerV6Key := mkGuid 0xa6bc8b10 0x7612 0x4d91 (tail10 0x19).
Definition kBlockHttpKey := mkGuid 0xa6bc8b10 0x7612 0x4d91 (tail10 0x01).
Definition kBlockHttpsKey := mkGuid 0xa6bc8b11 0x7612 0x4d91 (tail10 0x02).
Definition kPermitV4BaseKey := mkGuid 0xa6bc8b20 0x7612 0x4d91 (tail10 0x20).
Definition kPermitV6BaseKey := mkGuid 0xa6bc8b30 0x7612 0x4d91 (tail10 0x30).

Definition kAleAuthConnectV4 :=
  mkGuid 0xc38d57d1 0x05a7 0x4c33 [0x90; 0x4f; 0x7f; 0xbc; 0xee; 0xe6; 0x0e; 0x82].
Definition kAleAuthConnectV6 :=
  mkGuid 0x4a72393b 0x319f 0x44bc [0x84; 0xc3; 0xba; 0x54; 0xdc; 0xb3; 0xb6; 0xb4].

(** [key.Data1 += value; key.Data4[7] = (key.Data4[7] + (value & 0xff)) & 0xff]. *)
Definition indexed_key (key : Guid) (index : Z) : Guid :=
  let value := wrap32 index in
  mkGuid (wrap32 (Data1 key + value)) (Data2 key) (Data3 key)
    (alter (fun d => Z.land (d + Z.land value 0xff) 0xff) 7%nat (Data4 key)).

Definition permit_v4_key (index : Z) : Guid := indexed_key kPermitV4BaseKey index.
Definition permit_v6_key (index : Z) : Guid := indexed_key kPermitV6BaseKey index.

(** [fixed_keys] of [clear]. *)
Definition fixed_keys : list Guid :=
  [ kBlockDefaultDenyV4Key; kBlockDefaultDenyV6Key; kPermitLoopbackV4Key;
    kPermitLoopbackV6Key; kPermitDnsV4Key; kPermitDnsV6Key; kPermitDhcpV4Key;
    kPermitDhcpV6Key; kPermitServerV4Key; kPermitServerV6Key; kBlockHttpKey;
    kBlockHttpsKey ].

(** ** The filters of a policy, in the order [apply] adds them *)

Definition is_zero_ipv6 (ip : bytes) : bool := forallb (fun b => byte_val b =? 0) ip.

Definition v4 (key : Guid) (conds : list Condition) (act : Action) (w : Z) : Filter :=
  mkFilter kAleAuthConnectV4 key conds act w.
Definition v6 (key : Guid) (conds : list Condition) (act : Action) (w : Z) : Filter :=
  mkFilter kAleAuthConnectV6 key conds act w.

(** [loopback_v6]: all zero but [addr[15] = 1]. *)
Definition loopback_v6 : bytes := <[15%nat := byte_of 1]> zero_ipv6.

Definition port_conditions (port : Z) : list Condition :=
  if negb (port =? 0) then [port_condition port] else [].

Definition default_deny_filters (config : WfpAllowlistConfig) : list Filter :=
  [ v4 kBlockDefaultDenyV4Key [] FWP_ACTION_BLOCK 1;
    v6 kBlockDefaultDenyV6Key [] FWP_ACTION_BLOCK 1 ] ++
  (if permit_loopback config then
     [ v4 kPermitLoopbackV4Key [ipv4_condition 0x7f000000 0xff000000] FWP_ACTION_PERMIT 20;
       v6 kPermitLoopbackV6Key [ipv6_condition loopback_v6 128] FWP_ACTION_PERMIT 20 ]
   else []) ++
  (if permit_dns_dhcp config then
     [ v4 kPermitDnsV4Key [port_condition 53] FWP_ACTION_PERMIT 20;
       v6 kPermitDnsV6Key [port_condition 53] FWP_ACTION_PERMIT 20;
       v4 kPermitDhcpV4Key [port_condition 67] FWP_ACTION_PERMIT 20;
       v6 kPermitDhcpV6Key [port_condition 547] FWP_ACTION_PERMIT 20 ]
   else []) ++
  (if negb (server_ipv4 config =? 0) then
     [ v4 kPermitServerV4Key
         (ipv4_condition (server_ipv4 config) 0xffffffff :: port_conditions (server_port config))
         FWP_ACTION_PERMIT 20 ]
   else []) ++
  (if negb (is_zero_ipv6 (server_ipv6 config)) then
     [ v6 kPermitServerV6Key
         (ipv6_condition (server_ipv6 config) 128 :: port_conditions (server_port config))
         FWP_ACTION_PERMIT 20 ]
   else []).

(** Legacy mode.  Both blocks are on the V4 layer, as in the source. *)
Definition port_block_filters (config : WfpAllowlistConfig) : list Filter :=
  (if block_http config then
     [v4 kBlockHttpKey [port_condition 80] FWP_ACTION_BLOCK 10] else []) ++
  (if block_https config then
     [v4 kBlockHttpsKey [port_condition 443] FWP_ACTION_BLOCK 10] else []).

Fixpoint permit_v4_filters (index : Z) (addresses : list Z) : list Filter :=
  match addresses with
  | [] => []
  | address :: rest =>
      v4 (permit_v4_key index) [ipv4_condition address 0xffffffff] FWP_ACTION_PERMIT 20
      :: permit_v4_filters (index + 1) rest
  end.

Fixpoint permit_v6_filters (index : Z) (addresses : list bytes) : list Filter :=
  match addresses with
  | [] => []
  | address :: rest =>
      v6 (permit_v6_key index) [ipv6_condition address 128] FWP_ACTION_PERMIT 20
      :: permit_v6_filters (index + 1) rest
  end.

(** [std::sort] with [std::unique] on the two address lists. *)
Definition v4_addresses (config : WfpAllowlistConfig) : list Z :=
  sort_unique Z.le (allowed_ipv4 config).

Definition ipv6_le (a b : bytes) : Prop := bytes_le a b = true.

#[export] Instance ipv6_le_dec : RelDecision ipv6_le.
Proof. unfold ipv6_le. solve_decision. Defined.

Definition v6_addresses (config : WfpAllowlistConfig) : list bytes :=
  sort_unique ipv6_le (allowed_ipv6 config).

Definition policy_filters (config : WfpAllowlistConfig) : list Filter :=
  (if default_deny config then default_deny_filters config else port_block_filters config) ++
  permit_v4_filters 0 (v4_addresses config) ++
  permit_v6_filters 0 (v6_addresses config).

(** ** The engine *)

Definition ERROR_SUCCESS : Z := 0.
Definition FWP_E_FILTER_NOT_FOUND : Z := 0x80320003.
Definition FWP_E_PROVIDER_NOT_FOUND : Z := 0x80320005.
Definition FWP_E_ALREADY_EXISTS : Z := 0x80320009.

(** Each call takes the machine and returns its status with the machine;
    [FwpmEngineOpen0] also says whether it gave a handle. *)
Class WfpEngine (W : Type) := {
  FwpmEngineOpen0 : W -> Z * bool * W;
  FwpmEngineClose0 : W -> W;
  FwpmProviderAdd0 : W -> Z * W;
  FwpmProviderDeleteByKey0 : W -> Z * W;
  FwpmSubLayerAdd0 : W -> Z * W;
  FwpmSubLayerDeleteByKey0 : W -> Z * W;
  FwpmFilterAdd0 : Filter -> W -> Z * W;
  FwpmFilterDeleteByKey0 : Guid -> W -> Z * W
}.

(** The filters by key are what the other calls leave alone; an add fails on a
    key in use; a deletion that says [FWP_E_FILTER_NOT_FOUND] is of an absent
    key. *)
Class WfpEngineLaws (W : Type) `{WfpEngine W} (installed : W -> gmap Guid Filter) := {
  law_open w : installed (FwpmEngineOpen0 w).2 = installed w;
  law_close w : installed (FwpmEngineClose0 w) = installed w;
  law_provider_add w : installed (FwpmProviderAdd0 w).2 = installed w;
  law_provider_delete w : installed (FwpmProviderDeleteByKey0 w).2 = installed w;
  law_sublayer_add w : installed (FwpmSubLayerAdd0 w).2 = installed w;
  law_sublayer_delete w : installed (FwpmSubLayerDeleteByKey0 w).2 = installed w;
  law_filter_add f w :
    let '(status, w') := FwpmFilterAdd0 f w in
    (status = ERROR_SUCCESS /\ installed w !! filterKey f = None /\
     installed w' = <[filterKey f := f]> (installed w)) \/
    (status <> ERROR_SUCCESS /\ installed w' = installed w);
  law_filter_delete key w :
    let '(status, w') := FwpmFilterDeleteByKey0 key w in
    (status = ERROR_SUCCESS /\ installed w' = delete key (installed w)) \/
    (status = FWP_E_FILTER_NOT_FOUND /\ installed w !! key = None /\
     installed w' = installed w) \/
    (status <> ERROR_SUCCESS /\ status <> FWP_E_FILTER_NOT_FOUND /\
     installed w' = installed w)
}.

(** An engine that is running and that the service may administer: calls fail
    for their documented reasons only.  A filter's weight is given as an
    [FWP_UINT8], the index of a weight range; an index above [weight_limit] is
    refused.  The platform documents the interval from 0 to 15. *)
Definition documented_weight_limit : Z := 15.

Class WfpEngineRuns (W : Type) `{WfpEngine W} (installed : W -> gmap Guid Filter)
    (weight_limit : Z) := {
  runs_open w : (FwpmEngineOpen0 w).1 = (ERROR_SUCCESS, true);
  runs_provider_add w :
    (FwpmProviderAdd0 w).1 = ERROR_SUCCESS \/ (FwpmProviderAdd0 w).1 = FWP_E_ALREADY_EXISTS;
  runs_provider_delete w :
    (FwpmProviderDeleteByKey0 w).1 = ERROR_SUCCESS \/
    (FwpmProviderDeleteByKey0 w).1 = FWP_E_PROVIDER_NOT_FOUND;
  runs_sublayer_add w :
    (FwpmSubLayerAdd0 w).1 = ERROR_SUCCESS \/ (FwpmSubLayerAdd0 w).1 = FWP_E_ALREADY_EXISTS;
  runs_filter_add f w :
    installed w !! filterKey f = None -> weight f <= weight_limit ->
    (FwpmFilterAdd0 f w).1 = ERROR_SUCCESS;
  runs_filter_heavy f w : weight_limit < weight f -> (FwpmFilterAdd0 f w).1 <> ERROR_SUCCESS;
  runs_filter_delete key w :
    (FwpmFilterDeleteByKey0 key w).1 = ERROR_SUCCESS \/
    (FwpmFilterDeleteByKey0 key w).1 = FWP_E_FILTER_NOT_FOUND
}.

Section Allowlist.
Context {W : Type} `{WfpEngine W}.

(** ** [WfpWebsiteAllowlist]: its own state is [active_] *)

Record WfpWebsiteAllowlist := mkAllowlist { active : bool; world : W }.

(** [set_error(error, message, status)]. *)
Definition status_error {A} (message : string) (status : Z) : result A :=
  if negb (status =? ERROR_SUCCESS)
  then Err (message +:+ " (status " +:+ pretty status +:+ ")")
  else Err message.

Definition add_filter (f : Filter) (w : W) : result unit * W :=
  let '(status, w) := FwpmFilterAdd0 f w in
  if negb (status =? ERROR_SUCCESS)
  then (status_error "FwpmFilterAdd0 failed" status, w)
  else (Ok tt, w).

(** The adds of [apply] in order, up to the first that fails. *)
Fixpoint add_filters (fs : list Filter) (w : W) : result unit * W :=
  match fs with
  | [] => (Ok tt, w)
  | f :: rest =>
      match add_filter f w with
      | (Err e, w) => (Err e, w)
      | (Ok _, w) => add_filters rest w
      end
  end.

Fixpoint delete_all (keys : list Guid) (w : W) : W :=
  match keys with
  | [] => w
  | key :: rest => delete_all rest (FwpmFilterDeleteByKey0 key w).2
  end.

(** The permit loops of [clear]: [fuel] is the number of indices left below
    4096, [missing] is [consecutive_missing]. *)
Fixpoint clear_permits (key : Z -> Guid) (fuel : nat) (index missing : Z) (w : W) : W :=
  match fuel with
  | O => w
  | S fuel' =>
      let '(status, w) := FwpmFilterDeleteByKey0 (key index) w in
      if status =? FWP_E_FILTER_NOT_FOUND then
        if missing + 1 >=? 5 then w
        else clear_permits key fuel' (index + 1) (missing + 1) w
      else clear_permits key fuel' (index + 1) 0 w
  end.

Definition clear_world (w : W) : W :=
  let w := delete_all fixed_keys w in
  let w := clear_permits permit_v4_key 4096 0 0 w in
  let w := clear_permits permit_v6_key 4096 0 0 w in
  let w := (FwpmSubLayerDeleteByKey0 w).2 in
  let w := (FwpmProviderDeleteByKey0 w).2 in
  FwpmEngineClose0 w.

Definition clear (al : WfpWebsiteAllowlist) : result unit * WfpWebsiteAllowlist :=
  let '(status, engine, w) := FwpmEngineOpen0 (world al) in
  if negb (status =? ERROR_SUCCESS) || negb engine
  then (status_error "FwpmEngineOpen0 failed" status, {| active := active al; world := w |})
  else (Ok tt, {| active := false; world := clear_world w |}).

Definition apply (config : WfpAllowlistConfig) (al : WfpWebsiteAllowlist) :
    result unit * WfpWebsiteAllowlist :=
  if negb (default_deny config) && bool_decide (allowed_ipv4 config = []) &&
     bool_decide (allowed_ipv6 config = [])
  then (Err "website allowlist must contain at least one allowed address", al)
  else
    let '(status, engine, w) := FwpmEngineOpen0 (world al) in
    if negb (status =? ERROR_SUCCESS) || negb engine
    then (status_error "FwpmEngineOpen0 failed" status, {| active := active al; world := w |})
    else
      let al := (clear {| active := active al; world := w |}).2 in
      let '(status, w) := FwpmProviderDeleteByKey0 (world al) in
      if negb (status =? ERROR_SUCCESS) && negb (status =? FWP_E_PROVIDER_NOT_FOUND)
      then (status_error "FwpmProviderDeleteByKey0 failed" status,
            {| active := active al; world := FwpmEngineClose0 w |})
      else
        let '(status, w) := FwpmProviderAdd0 w in
        if negb (status =? ERROR_SUCCESS) && negb (status =? FWP_E_ALREADY_EXISTS)
        then (status_error "FwpmProviderAdd0 failed" status,
              {| active := active al; world := FwpmEngineClose0 w |})
        else
          let '(status, w) := FwpmSubLayerAdd0 w in
          if negb (status =? ERROR_SUCCESS) && negb (status =? FWP_E_ALREADY_EXISTS)
          then (status_error "FwpmSubLayerAdd0 failed" status,
                {| active := active al; world := FwpmEngineClose0 w |})
          else
            match add_filters (policy_filters config) w with
            | (Err e, w) =>
                (Err e, (clear {| active := active al; world := FwpmEngineClose0 w |}).2)
            | (Ok _, w) => (Ok tt, {| active := true; world := FwpmEngineClose0 w |})
            end.

(** [~WfpWebsiteAllowlist]. *)
Definition destroy (al : WfpWebsiteAllowlist) : WfpWebsiteAllowlist :=
  if active al then (clear al).2 else al.

End Allowlist.
#[global] Arguments WfpWebsiteAllowlist : clear implicits.

(** ** Which keys are used *)

(** Every key [apply] can use and [clear] looks for. *)
Definition nstu_keys : list Guid :=
  fixed_keys ++ map permit_v4_key (seqZ 0 4096) ++ map permit_v6_key (seqZ 0 4096).

(** What the rest of the machine has installed. *)
Definition foreign (m : gmap Guid Filter) : gmap Guid Filter :=
  filter (fun kv => kv.1 ∉ nstu_keys) m.

Definition policy_map (fs : list Filter) : gmap Guid Filter :=
  list_to_map (map (fun f => (filterKey f, f)) fs).

(** The filters of this program are those of a policy, or of a beginning of one:
    the permits are numbered from zero without a gap. *)
Definition tidy (m : gmap Guid Filter) : Prop :=
  exists n4 n6, 0 <= n4 <= 4096 /\ 0 <= n6 <= 4080 /\ (n6 = 0 \/ n4 <= 16) /\
    (forall i, 0 <= i < n4 -> is_Some (m !! permit_v4_key i)) /\
    (forall i, 0 <= i < n6 -> is_Some (m !! permit_v6_key i)) /\
    forall k, is_Some (m !! k) -> k ∈ nstu_keys ->
      k ∈ fixed_keys \/ (exists i, 0 <= i < n4 /\ k = permit_v4_key i) \/
      (exists i, 0 <= i < n6 /\ k = permit_v6_key i).

#[global] Arguments nstu_keys : simpl never.
#[global] Arguments foreign : simpl never.

Definition numbered_key (d : Z) : Guid := mkGuid d 0x7612 0x4d91 (tail10 (d mod 256)).

Lemma land_ff v : Z.land v 0xff = v mod 256.
Proof. change 0xff with (Z.ones 8). by rewrite Z.land_ones. Qed.

Lemma indexed_key_val key d i :
  key = numbered_key d -> 0 <= i < 8192 -> 0 <= d < 0xf0000000 ->
  indexed_key key i = numbered_key (d + i).
Proof.
  intros -> Hi Hd. unfold indexed_key, numbered_key, tail10. cbn. rewrite !land_ff. unfold wrap32.
  rewrite (Z.mod_small i) by lia. rewrite (Z.mod_small (d + i)) by lia.
  by rewrite <- Z.add_mod by lia.
Qed.

Lemma permit_v4_key_val i : 0 <= i < 8192 -> permit_v4_key i = numbered_key (0xa6bc8b20 + i).
Proof. intros Hi. by apply indexed_key_val. Qed.

Lemma permit_v6_key_val i : 0 <= i < 8192 -> permit_v6_key i = numbered_key (0xa6bc8b30 + i).
Proof. intros Hi. by apply indexed_key_val. Qed.

(** The two numberings are sixteen apart: the seventeenth IPv4 permit has the
    key of the first IPv6 permit. *)
Lemma permit_keys_overlap i : 0 <= i < 4096 -> permit_v6_key i = permit_v4_key (i + 16).
Proof.
  intros Hi. rewrite permit_v6_key_val, permit_v4_key_val by lia. f_equal. lia.
Qed.

Lemma numbered_key_inj d d' : numbered_key d = numbered_key d' -> d = d'.
Proof. by intros [= ->]. Qed.

Lemma permit_v4_key_inj i j :
  0 <= i < 8192 -> 0 <= j < 8192 -> permit_v4_key i = permit_v4_key j -> i = j.
Proof.
  intros Hi Hj. rewrite !permit_v4_key_val by lia. intros E%numbered_key_inj. lia.
Qed.

Lemma permit_v6_key_inj i j :
  0 <= i < 8192 -> 0 <= j < 8192 -> permit_v6_key i = permit_v6_key j -> i = j.
Proof.
  intros Hi Hj. rewrite !permit_v6_key_val by lia. intros E%numbered_key_inj. lia.
Qed.

Lemma fixed_keys_low k : k ∈ fixed_keys -> Data1 k < 0xa6bc8b20.
Proof. unfold fixed_keys. rewrite !elem_of_cons, elem_of_nil. naive_solver lia. Qed.

Lemma permit_v4_not_fixed i : 0 <= i < 8192 -> permit_v4_key i ∉ fixed_keys.
Proof.
  intros Hi Hk%fixed_keys_low. rewrite permit_v4_key_val in Hk by lia. cbn in Hk. lia.
Qed.

Lemma permit_v6_not_fixed i : 0 <= i < 8192 -> permit_v6_key i ∉ fixed_keys.
Proof.
  intros Hi Hk%fixed_keys_low. rewrite permit_v6_key_val in Hk by lia. cbn in Hk. lia.
Qed.

Lemma fixed_keys_NoDup : NoDup fixed_keys.
Proof. refine (bool_decide_unpack _ _). vm_compute. exact I. Qed.

Lemma elem_of_numbered (key : Z -> Guid) stop k :
  k ∈ map key (seqZ 0 stop) <-> exists i, 0 <= i < stop /\ k = key i.
Proof. rewrite list_elem_of_fmap. setoid_rewrite elem_of_seqZ. naive_solver lia. Qed.

Lemma elem_of_nstu_keys k :
  k ∈ nstu_keys <->
  k ∈ fixed_keys \/ (exists i, 0 <= i < 4096 /\ k = permit_v4_key i) \/
  (exists i, 0 <= i < 4096 /\ k = permit_v6_key i).
Proof.
  unfold nstu_keys. by rewrite elem_of_app, elem_of_app, !elem_of_numbered.
Qed.

Lemma lookup_foreign m k :
  (k ∈ nstu_keys -> foreign m !! k = None) /\ (k ∉ nstu_keys -> foreign m !! k = m !! k).
Proof.
  unfold foreign. split; intros Hk.
  - apply map_lookup_filter_None. right. intros x _. cbn. tauto.
  - destruct (m !! k) as [f|] eqn:E.
    + by apply map_lookup_filter_Some.
    + apply map_lookup_filter_None. by left.
Qed.


(** ** The keys of a policy *)

Lemma permit_v4_filter_keys i l :
  map filterKey (permit_v4_filters i l) = map permit_v4_key (seqZ i (len l)).
Proof.
  revert i. induction l as [|a l IH]; intros i; [done|]. cbn [permit_v4_filters map].
  rewrite IH, len_cons, (seqZ_cons i (len l + 1)) by (pose proof (len_nonneg l); lia).
  cbn. do 2 f_equal. unfold Z.pred, Z.succ. f_equal; lia.
Qed.

Lemma permit_v6_filter_keys i l :
  map filterKey (permit_v6_filters i l) = map permit_v6_key (seqZ i (len l)).
Proof.
  revert i. induction l as [|a l IH]; intros i; [done|]. cbn [permit_v6_filters map].
  rewrite IH, len_cons, (seqZ_cons i (len l + 1)) by (pose proof (len_nonneg l); lia).
  cbn. do 2 f_equal. unfold Z.pred, Z.succ. f_equal; lia.
Qed.

(** The filters of a policy before the allowed addresses. *)
Definition mode_filters (config : WfpAllowlistConfig) : list Filter :=
  if default_deny config then default_deny_filters config else port_block_filters config.

Lemma mode_filter_keys config :
  NoDup (map filterKey (mode_filters config)) /\
  forall k, k ∈ map filterKey (mode_filters config) -> k ∈ fixed_keys.
Proof.
  enough (sublist (map filterKey (mode_filters config)) fixed_keys) as Hs.
  { split; [eapply sublist_NoDup; [exact fixed_keys_NoDup|done]|].
    intros k Hk. by eapply elem_of_sublist. }
  unfold mode_filters, default_deny_filters, port_block_filters, fixed_keys.
  destruct (default_deny config);
    [destruct (permit_loopback config), (permit_dns_dhcp config), (server_ipv4 config =? 0),
       (is_zero_ipv6 (server_ipv6 config))|destruct (block_http config), (block_https config)];
    cbn; repeat constructor.
Qed.

(** The keys of a beginning [ms] of the filters before the allowed addresses, with
    [n4] IPv4 and [n6] IPv6 addresses. *)
Definition policy_keys (ms : list Filter) (n4 n6 : Z) : list Guid :=
  map filterKey ms ++ map permit_v4_key (seqZ 0 n4) ++ map permit_v6_key (seqZ 0 n6).

Definition fixed_only (ms : list Filter) : Prop :=
  NoDup (map filterKey ms) /\ forall k, k ∈ map filterKey ms -> k ∈ fixed_keys.

Lemma policy_filter_keys ms l4 l6 :
  map filterKey (ms ++ permit_v4_filters 0 l4 ++ permit_v6_filters 0 l6) =
  policy_keys ms (len l4) (len l6).
Proof. by rewrite !map_app, permit_v4_filter_keys, permit_v6_filter_keys. Qed.

Lemma NoDup_numbered (key : Z -> Guid) n :
  (forall i j, 0 <= i < n -> 0 <= j < n -> key i = key j -> i = j) ->
  NoDup (map key (seqZ 0 n)).
Proof.
  intros Hinj. apply NoDup_fmap_2_strong; [|apply NoDup_seqZ].
  intros i j Hi%elem_of_seqZ Hj%elem_of_seqZ. apply Hinj; lia.
Qed.

Lemma policy_keys_NoDup ms n4 n6 :
  fixed_only ms -> n4 <= 4096 -> n6 <= 4080 ->
  NoDup (policy_keys ms n4 n6) <-> n6 <= 0 \/ n4 <= 16.
Proof.
  intros [Hn Hf] H4 H6. unfold policy_keys. split.
  - intros (_ & _ & (_ & Hdis & _)%NoDup_app)%NoDup_app.
    destruct (decide (n6 <= 0 \/ n4 <= 16)) as [|Hno]; [done|]. exfalso.
    apply (Hdis (permit_v4_key 16)).
    + apply elem_of_numbered. exists 16. split; [lia|done].
    + apply elem_of_numbered. exists 0. split; [lia|]. by rewrite permit_keys_overlap by lia.
  - intros Hov. apply NoDup_app. split; [done|]. split.
    + intros k Hk%Hf. rewrite elem_of_app, !elem_of_numbered.
      intros [(i & Hi & ->)|(i & Hi & ->)].
      * apply permit_v4_not_fixed in Hk; [done|lia].
      * apply permit_v6_not_fixed in Hk; [done|lia].
    + apply NoDup_app. split; [|split].
      * apply NoDup_numbered. intros i j Hi Hj. apply permit_v4_key_inj; lia.
      * intros k. rewrite !elem_of_numbered. intros (i & Hi & ->) (j & Hj & E).
        rewrite permit_keys_overlap in E by lia. apply permit_v4_key_inj in E; lia.
      * apply NoDup_numbered. intros i j Hi Hj. apply permit_v6_key_inj; lia.
Qed.

Lemma policy_keys_nstu ms n4 n6 k :
  fixed_only ms -> n4 <= 4096 -> n6 <= 4096 -> k ∈ policy_keys ms n4 n6 -> k ∈ nstu_keys.
Proof.
  intros [_ Hf] H4 H6. unfold policy_keys. rewrite elem_of_nstu_keys, !elem_of_app, !elem_of_numbered.
  intros [?|[(i & Hi & ->)|(i & Hi & ->)]].
  - left. auto.
  - right; left. exists i. split; [lia|done].
  - right; right. exists i. split; [lia|done].
Qed.

Lemma policy_map_Some fs k :
  is_Some (policy_map fs !! k) <-> k ∈ map filterKey fs.
Proof.
  unfold policy_map. rewrite <- not_eq_None_Some, <- not_elem_of_list_to_map.
  rewrite <- list_fmap_compose.
  split; [apply dec_stable|tauto].
Qed.

(** The map of a beginning of a policy over the rest of the machine. *)
Lemma policy_state ms l4 l6 m :
  fixed_only ms -> len l4 <= 4096 -> len l6 <= 4080 ->
  let fs := ms ++ permit_v4_filters 0 l4 ++ permit_v6_filters 0 l6 in
  NoDup (map filterKey fs) ->
  tidy (policy_map fs ∪ foreign m) /\ foreign (policy_map fs ∪ foreign m) = foreign m.
Proof.
  intros Hms H4 H6 fs Hnd.
  unfold fs in Hnd. rewrite policy_filter_keys, policy_keys_NoDup in Hnd by done.
  assert (Hkeys : forall k, is_Some (policy_map fs !! k) <->
    k ∈ policy_keys ms (len l4) (len l6)).
  { intros k. unfold fs. by rewrite policy_map_Some, policy_filter_keys. }
  assert (Hin : forall k, k ∈ policy_keys ms (len l4) (len l6) ->
    is_Some ((policy_map fs ∪ foreign m) !! k)).
  { intros k Hk%Hkeys. rewrite lookup_union_is_Some. by left. }
  split.
  - exists (len l4), (len l6). pose proof (len_nonneg l4). pose proof (len_nonneg l6).
    split; [lia|]. split; [lia|]. split; [lia|]. split; [|split].
    + intros i Hi. apply Hin. unfold policy_keys. rewrite !elem_of_app, !elem_of_numbered.
      eauto.
    + intros i Hi. apply Hin. unfold policy_keys. rewrite !elem_of_app, !elem_of_numbered.
      eauto.
    + intros k [Hk|Hk]%lookup_union_is_Some Hn.
      * apply Hkeys in Hk. unfold policy_keys in Hk.
        rewrite !elem_of_app, !elem_of_numbered in Hk. destruct Hms as [_ Hf]. naive_solver.
      * destruct (lookup_foreign m k) as [HF _]. rewrite HF in Hk by done. by destruct Hk.
  - apply map_eq. intros k. destruct (lookup_foreign (policy_map fs ∪ foreign m) k) as [F1 F2].
    destruct (lookup_foreign m k) as [G1 G2]. destruct (decide (k ∈ nstu_keys)) as [Hk|Hk].
    + by rewrite F1, G1.
    + rewrite F2 by done. apply lookup_union_r. apply eq_None_not_Some. rewrite Hkeys.
      intros Hp. apply Hk. eapply policy_keys_nstu; [exact Hms| | |exact Hp]; lia.
Qed.

Lemma take_permit_v4 n i l :
  take n (permit_v4_filters i l) = permit_v4_filters i (take n l).
Proof. revert i l. induction n as [|n IH]; intros i [|a l]; cbn; [done..|]. by rewrite IH. Qed.

Lemma take_permit_v6 n i l :
  take n (permit_v6_filters i l) = permit_v6_filters i (take n l).
Proof. revert i l. induction n as [|n IH]; intros i [|a l]; cbn; [done..|]. by rewrite IH. Qed.

Lemma len_take_le {A} n (l : list A) m : len l <= m -> len (take n l) <= m.
Proof. unfold len. rewrite length_take. lia. Qed.

Lemma policy_key_nstu config f :
  len (v4_addresses config) <= 4096 -> len (v6_addresses config) <= 4080 ->
  f ∈ policy_filters config -> filterKey f ∈ nstu_keys.
Proof.
  intros H4 H6 Hf. apply (policy_keys_nstu (mode_filters config) (len (v4_addresses config))
    (len (v6_addresses config))); [apply mode_filter_keys|lia|lia|].
  rewrite <- policy_filter_keys. by apply list_elem_of_fmap_2.
Qed.

(** Every beginning of a policy without a repeated key leaves a tidy machine. *)
Lemma prefix_state config done rest m :
  len (v4_addresses config) <= 4096 -> len (v6_addresses config) <= 4080 ->
  policy_filters config = done ++ rest -> NoDup (map filterKey done) ->
  tidy (policy_map done ∪ foreign m) /\ foreign (policy_map done ∪ foreign m) = foreign m.
Proof.
  intros H4 H6 E.
  assert (done = take (length done) (policy_filters config)) as -> by (by rewrite E, take_app_length).
  change (policy_filters config) with (mode_filters config ++
    permit_v4_filters 0 (v4_addresses config) ++ permit_v6_filters 0 (v6_addresses config)).
  rewrite !take_app, take_permit_v4, take_permit_v6. apply policy_state; [|by apply len_take_le..].
  destruct (mode_filter_keys config) as [Hn Hf]. unfold fixed_only. rewrite <- firstn_map.
  split; [eapply sublist_NoDup; [exact Hn|apply sublist_take]|].
  intros k Hk. apply Hf. eapply elem_of_sublist; [exact Hk|apply sublist_take].
Qed.

(** ** What [apply] and [clear] do to the filters *)

Section Proofs.
Context {W : Type} `{EL : WfpEngineLaws W installed} `{!WfpEngineRuns W installed weight_limit}.
Implicit Types (w : W) (m : gmap Guid Filter).

Lemma installed_delete key w :
  let '(status, w') := FwpmFilterDeleteByKey0 key w in
  installed w' = delete key (installed w) /\
  (status = FWP_E_FILTER_NOT_FOUND -> installed w !! key = None).
Proof using Type*.
  pose proof (law_filter_delete key w) as HL. pose proof (runs_filter_delete key w) as HR.
  destruct (FwpmFilterDeleteByKey0 key w) as [status w']. cbn in HR.
  destruct HL as [[-> Hd]|[(-> & Hn & Hs)|(H1 & H2 & _)]]; [done| |tauto].
  by rewrite Hs, delete_id.
Qed.

Lemma installed_delete_all keys w k :
  installed (delete_all keys w) !! k =
  if decide (k ∈ keys) then None else installed w !! k.
Proof using Type*.
  revert w. induction keys as [|key keys IH]; intros w; cbn [delete_all]; [done|].
  pose proof (installed_delete key w) as HD.
  destruct (FwpmFilterDeleteByKey0 key w) as [status w']. destruct HD as [HD _]. cbn.
  rewrite IH, HD. destruct (decide (k = key)) as [->|Hk].
  - rewrite lookup_delete_eq. by destruct (decide (key ∈ keys)), (decide (key ∈ key :: keys));
      try done; set_solver.
  - rewrite lookup_delete_ne by done.
    destruct (decide (k ∈ keys)), (decide (k ∈ key :: keys)); try done; set_solver.
Qed.

(** Where a permit loop stops: at the last index, or past an absent key. *)
Lemma clear_permits_spec key fuel index missing w :
  (forall i j, index <= i < index + Z.of_nat fuel -> index <= j < index + Z.of_nat fuel ->
     key i = key j -> i = j) ->
  exists stop, index <= stop <= index + Z.of_nat fuel /\
    (forall i, index <= i < stop ->
       installed (clear_permits key fuel index missing w) !! key i = None) /\
    (forall k, (forall i, index <= i < stop -> k <> key i) ->
       installed (clear_permits key fuel index missing w) !! k = installed w !! k) /\
    (stop = index + Z.of_nat fuel \/ (index < stop /\ installed w !! key (stop - 1) = None)).
Proof using Type*.
  revert index missing w. induction fuel as [|fuel IH]; intros index missing w Hinj.
  { exists index. cbn. split_and!; try lia; done || (intros; lia). }
  cbn [clear_permits]. pose proof (installed_delete (key index) w) as HD.
  destruct (FwpmFilterDeleteByKey0 (key index) w) as [status w1]. destruct HD as [HD Hn].
  assert (Hstep : forall missing, exists stop, index <= stop <= index + Z.of_nat (S fuel) /\
    (forall i, index <= i < stop ->
       installed (clear_permits key fuel (index + 1) missing w1) !! key i = None) /\
    (forall k, (forall i, index <= i < stop -> k <> key i) ->
       installed (clear_permits key fuel (index + 1) missing w1) !! k = installed w !! k) /\
    (stop = index + Z.of_nat (S fuel) \/
     (index < stop /\ installed w !! key (stop - 1) = None))).
  { intros missing'. destruct (IH (index + 1) missing' w1) as (stop & Hs & Hgone & Hkeep & Hend).
    { intros i j Hi Hj. apply Hinj; lia. }
    exists stop. split; [lia|]. split; [|split].
    - intros i Hi. destruct (decide (i = index)) as [->|]; [|apply Hgone; lia].
      rewrite Hkeep; [rewrite HD; apply lookup_delete_eq|].
      intros j Hj E. apply Hinj in E; lia.
    - intros k Hk. rewrite Hkeep; [|intros j Hj; apply Hk; lia].
      rewrite HD. apply lookup_delete_ne. intros <-. apply (Hk index); [lia|done].
    - destruct Hend as [->|[Hlt Hlast]]; [left; lia|right]. split; [lia|].
      rewrite HD, lookup_delete_ne in Hlast; [done|].
      intros E. apply Hinj in E; lia. }
  destruct (status =? FWP_E_FILTER_NOT_FOUND) eqn:Est; [|apply Hstep].
  destruct (missing + 1 >=? 5); [|apply Hstep]. apply Z.eqb_eq in Est. specialize (Hn Est).
  exists (index + 1). split; [lia|]. split; [|split].
  - intros i Hi. replace i with index by lia. rewrite HD. apply lookup_delete_eq.
  - intros k Hk. rewrite HD. apply lookup_delete_ne. intros <-. apply (Hk index); [lia|done].
  - right. split; [lia|]. by replace (index + 1 - 1) with index by lia.
Qed.

(** One permit loop of [clear]. *)
Lemma clear_permits_pass key w :
  (forall i j, 0 <= i < 4096 -> 0 <= j < 4096 -> key i = key j -> i = j) ->
  exists stop, 0 <= stop <= 4096 /\
    (forall k, installed (clear_permits key 4096 0 0 w) !! k =
       if decide (k ∈ map key (seqZ 0 stop)) then None else installed w !! k) /\
    (stop = 4096 \/ (0 < stop /\ installed w !! key (stop - 1) = None)).
Proof using Type*.
  intros Hinj. destruct (clear_permits_spec key 4096 0 0 w) as (stop & Hs & Hg & Hk & He).
  { intros i j Hi Hj. apply Hinj; lia. }
  exists stop. split; [lia|]. split; [|destruct He; auto; left; lia].
  intros k. destruct (decide _) as [Hin|Hin].
  - apply list_elem_of_fmap in Hin as (i & -> & Hi%elem_of_seqZ). apply Hg. lia.
  - apply Hk. intros i Hi ->. apply Hin, list_elem_of_fmap. exists i. split; [done|].
    apply elem_of_seqZ. lia.
Qed.

(** A loop passes every permit of its own numbering. *)
Lemma pass_reaches key m stop n :
  n <= 4096 -> (forall i, 0 <= i < n -> is_Some (m !! key i)) ->
  stop = 4096 \/ (0 < stop /\ m !! key (stop - 1) = None) -> n <= stop.
Proof using Type.
  intros Hn Hp [->|[Hlt Hlast]]; [lia|]. destruct (decide (n <= stop)); [done|].
  destruct (Hp (stop - 1) ltac:(lia)). congruence.
Qed.

Lemma installed_clear_world w :
  tidy (installed w) -> installed (clear_world w) = foreign (installed w).
Proof using Type*.
  intros (n4 & n6 & H4 & H6 & Hov & Hp4 & Hp6 & Honly). unfold clear_world.
  rewrite law_close, law_provider_delete, law_sublayer_delete.
  pose proof (installed_delete_all fixed_keys w) as Hl1.
  set (w1 := delete_all fixed_keys w) in *. clearbody w1.
  destruct (clear_permits_pass permit_v4_key w1) as (s4 & Hs4 & Hl2 & He4).
  { intros i j Hi Hj. apply permit_v4_key_inj; lia. }
  set (w2 := clear_permits permit_v4_key 4096 0 0 w1) in *. clearbody w2.
  destruct (clear_permits_pass permit_v6_key w2) as (s6 & Hs6 & Hl3 & He6).
  { intros i j Hi Hj. apply permit_v6_key_inj; lia. }
  set (w3 := clear_permits permit_v6_key 4096 0 0 w2) in *. clearbody w3.
  assert (Hw1 : forall i, 0 <= i < 4096 ->
    installed w1 !! permit_v4_key i = installed w !! permit_v4_key i /\
    installed w1 !! permit_v6_key i = installed w !! permit_v6_key i).
  { intros i Hi. rewrite !Hl1, !decide_False; [done|apply permit_v6_not_fixed; lia|
      apply permit_v4_not_fixed; lia]. }
  assert (Hr4 : n4 <= s4).
  { eapply pass_reaches; [lia| |exact He4]. intros i Hi. rewrite (proj1 (Hw1 i ltac:(lia))).
    by apply Hp4. }
  (* The first loop deletes all the IPv6 permits or none. *)
  assert (Hs4' : s4 <= 16 \/ 16 + n6 <= s4).
  { destruct (decide (s4 <= 16)); [by left|right].
    destruct He4 as [->|[_ Hlast]]; [lia|]. destruct (decide (16 + n6 <= s4)); [done|].
    destruct (Hp6 (s4 - 1 - 16) ltac:(lia)) as [f Hf].
    rewrite <- (proj2 (Hw1 (s4 - 1 - 16) ltac:(lia))), permit_keys_overlap in Hf by lia.
    replace (s4 - 1 - 16 + 16) with (s4 - 1) in Hf by lia. congruence. }
  assert (Hr6 : s4 <= 16 -> n6 <= s6).
  { intros Hs. eapply pass_reaches; [lia| |exact He6]. intros i Hi.
    rewrite Hl2, decide_False, (proj2 (Hw1 i ltac:(lia))); [by apply Hp6|].
    intros (j & Hj & E)%elem_of_numbered. rewrite permit_keys_overlap in E by lia.
    apply permit_v4_key_inj in E; lia. }
  apply map_eq. intros k. rewrite Hl3, Hl2, Hl1. destruct (lookup_foreign (installed w) k) as [HF1 HF2].
  destruct (decide (k ∈ nstu_keys)) as [Hk|Hk].
  - rewrite HF1 by done. destruct (decide _) as [|H6k]; [done|]. destruct (decide _) as [|H4k]; [done|].
    destruct (decide _) as [|Hfk]; [done|]. apply eq_None_not_Some. intros Hs.
    rewrite elem_of_numbered in H4k, H6k.
    destruct (Honly k Hs Hk) as [?|[(i & Hi & ->)|(i & Hi & ->)]]; [done| |].
    + apply H4k. exists i. split; [lia|done].
    + destruct Hs4' as [Hle|Hle].
      * apply H6k. exists i. specialize (Hr6 Hle). split; [lia|done].
      * apply H4k. exists (i + 16). split; [lia|]. apply permit_keys_overlap. lia.
  - rewrite HF2 by done. rewrite elem_of_nstu_keys in Hk. rewrite !decide_False; [done|..].
    + tauto.
    + rewrite elem_of_numbered. intros (i & Hi & ->). apply Hk. right; left. exists i. split; [lia|done].
    + rewrite elem_of_numbered. intros (i & Hi & ->). apply Hk. right; right. exists i. split; [lia|done].
Qed.

Lemma add_filters_app fs1 fs2 w :
  add_filters (fs1 ++ fs2) w =
  match add_filters fs1 w with
  | (Err e, w') => (Err e, w')
  | (Ok _, w') => add_filters fs2 w'
  end.
Proof using Type.
  revert w. induction fs1 as [|f fs1 IH]; intros w; cbn; [done|].
  destruct (add_filter f w) as [[?|e] w']; [apply IH|done].
Qed.

(** An add succeeds exactly when its key is free and its weight is in range. *)
Lemma add_filter_runs f w :
  match add_filter f w with
  | (Ok _, w') => installed w !! filterKey f = None /\ weight f <= weight_limit /\
      installed w' = <[filterKey f := f]> (installed w)
  | (Err _, w') => (is_Some (installed w !! filterKey f) \/ weight_limit < weight f) /\
      installed w' = installed w
  end.
Proof using Type*.
  unfold add_filter, status_error. pose proof (law_filter_add f w) as HL.
  pose proof (runs_filter_add f w) as HR. pose proof (runs_filter_heavy f w) as HH.
  destruct (FwpmFilterAdd0 f w) as [status w']. cbn in HR, HH.
  destruct HL as [(-> & Hn & Hi)|[Hne Hi]].
  - cbn. split; [done|]. split; [|done]. destruct (decide (weight_limit < weight f)) as [Hlt|];
      [by destruct (HH Hlt)|lia].
  - destruct (Z.eqb_spec status ERROR_SUCCESS); [done|]. cbn. split; [|done].
    destruct (decide (weight_limit < weight f)) as [|Hle]; [by right|left].
    apply not_eq_None_Some. intros E. by apply Hne, HR; [|lia].
Qed.

Lemma policy_map_cons f fs (m m1 : gmap Guid Filter) :
  m !! filterKey f = None -> m1 = <[filterKey f := f]> m -> NoDup (map filterKey fs) ->
  (forall k, k ∈ map filterKey fs -> m1 !! k = None) ->
  NoDup (map filterKey (f :: fs)) /\ (forall k, k ∈ map filterKey (f :: fs) -> m !! k = None) /\
  policy_map fs ∪ m1 = policy_map (f :: fs) ∪ m.
Proof using Type.
  intros Hf -> Hn Hfree.
  assert (filterKey f ∉ map filterKey fs) as Hni
    by (intros Hin%Hfree; by rewrite lookup_insert_eq in Hin).
  split; [by constructor|]. split.
  - intros k [->|Hk]%elem_of_cons; [done|]. specialize (Hfree k Hk).
    by rewrite lookup_insert_ne in Hfree by (intros <-; done).
  - unfold policy_map. cbn. rewrite <- insert_union_l. rewrite <- insert_union_r; [done|].
    apply eq_None_not_Some. intros Hs. by apply Hni, policy_map_Some, Hs.
Qed.

(** The adds of a list: all of it, or up to one that is refused. *)
Lemma add_filters_runs fs : forall w,
  match add_filters fs w with
  | (Ok _, w') => NoDup (map filterKey fs) /\ Forall (fun f => weight f <= weight_limit) fs /\
      (forall k, k ∈ map filterKey fs -> installed w !! k = None) /\
      installed w' = policy_map fs ∪ installed w
  | (Err _, w') => exists done f rest, fs = done ++ f :: rest /\ NoDup (map filterKey done) /\
      (forall k, k ∈ map filterKey done -> installed w !! k = None) /\
      installed w' = policy_map done ∪ installed w /\
      (is_Some (installed w' !! filterKey f) \/ weight_limit < weight f)
  end.
Proof using Type*.
  induction fs as [|f fs IH]; intros w; cbn [add_filters].
  { split_and!; [constructor|constructor|by intros k ?%not_elem_of_nil|].
    unfold policy_map. cbn. by rewrite (left_id_L ∅ (∪)). }
  pose proof (add_filter_runs f w) as HA. destruct (add_filter f w) as [[u|e] w1].
  - destruct HA as (Hn & Hl & Hi). specialize (IH w1). destruct (add_filters fs w1) as [[u'|e] w'].
    + destruct IH as (H1 & H2 & H3 & H4).
      destruct (policy_map_cons f fs _ _ Hn Hi H1 H3) as (G1 & G2 & G3).
      split_and!; [done|by constructor|done|by rewrite H4, G3].
    + destruct IH as (don & g & rest & -> & H1 & H2 & H3 & H4).
      destruct (policy_map_cons f don _ _ Hn Hi H1 H2) as (G1 & G2 & G3).
      exists (f :: don), g, rest. split_and!; [done|done|done|by rewrite H3, G3|done].
  - destruct HA as [Hor Hi]. exists [], f, fs. split_and!; [done|constructor|by intros k ?%not_elem_of_nil| |].
    + unfold policy_map. cbn. by rewrite (left_id_L ∅ (∪)).
    + by rewrite Hi.
Qed.

Lemma clear_runs al :
  tidy (installed (world al)) ->
  (clear al).1 = Ok tt /\ active (clear al).2 = false /\
  installed (world (clear al).2) = foreign (installed (world al)).
Proof using Type*.
  intros Ht. unfold clear. pose proof (runs_open (world al)) as HO.
  pose proof (law_open (world al)) as HL.
  destruct (FwpmEngineOpen0 (world al)) as [[status engine] w]. cbn in HO, HL.
  injection HO as -> ->. cbn. split; [done|]. split; [done|]. rewrite <- HL in *.
  by apply installed_clear_world.
Qed.

Lemma foreign_idemp m : foreign (foreign m) = foreign m.
Proof using Type.
  apply map_eq. intros k. destruct (lookup_foreign m k) as [F1 F2].
  destruct (lookup_foreign (foreign m) k) as [G1 G2].
  destruct (decide (k ∈ nstu_keys)) as [Hk|Hk]; [by rewrite G1, F1|by rewrite G2].
Qed.

(** The preparation of [apply] leaves only what the rest of the machine has;
    then the outcome is that of the adds. *)
Lemma apply_runs config al :
  tidy (installed (world al)) ->
  ~ (default_deny config = false /\ allowed_ipv4 config = [] /\ allowed_ipv6 config = []) ->
  exists w, installed w = foreign (installed (world al)) /\
    apply config al =
    match add_filters (policy_filters config) w with
    | (Err e, w') => (Err e, (clear {| active := false; world := FwpmEngineClose0 w' |}).2)
    | (Ok _, w') => (Ok tt, {| active := true; world := FwpmEngineClose0 w' |})
    end.
Proof using Type*.
  intros Ht Hsome. unfold apply.
  destruct (negb _ && _ && _) eqn:Eg.
  { bool_to_prop. tauto. }
  pose proof (runs_open (world al)) as HO. pose proof (law_open (world al)) as HL.
  destruct (FwpmEngineOpen0 (world al)) as [[status engine] w0]. cbn in HO, HL.
  injection HO as -> ->. cbn [negb orb]. change (negb (ERROR_SUCCESS =? ERROR_SUCCESS)) with false.
  cbn [orb].
  destruct (clear_runs {| active := active al; world := w0 |}) as (_ & Hact & Hcl).
  { cbn. by rewrite HL. }
  destruct (clear _) as [r al1]. cbn in Hact, Hcl |- *. rewrite HL in Hcl.
  pose proof (runs_provider_delete (world al1)) as H1.
  pose proof (law_provider_delete (world al1)) as L1.
  destruct (FwpmProviderDeleteByKey0 (world al1)) as [s1 w1]. cbn in H1, L1.
  pose proof (runs_provider_add w1) as H2. pose proof (law_provider_add w1) as L2.
  destruct (FwpmProviderAdd0 w1) as [s2 w2]. cbn in H2, L2.
  pose proof (runs_sublayer_add w2) as H3. pose proof (law_sublayer_add w2) as L3.
  destruct (FwpmSubLayerAdd0 w2) as [s3 w3]. cbn in H3, L3.
  exists w3. split; [congruence|]. rewrite Hact.
  by destruct H1 as [->| ->], H2 as [->| ->], H3 as [->| ->].
Qed.

Lemma tidy_foreign m : tidy (foreign m).
Proof using Type.
  exists 0, 0. split_and!; try lia; try (intros; lia).
  intros k [f Hk] Hn. destruct (lookup_foreign m k) as [F _]. rewrite F in Hk; done.
Qed.

Definition refused (config : WfpAllowlistConfig) : Prop :=
  default_deny config = false /\ allowed_ipv4 config = [] /\ allowed_ipv6 config = [].

Definition keys_collide (config : WfpAllowlistConfig) : Prop :=
  16 < len (v4_addresses config) /\ v6_addresses config <> [].

(** The weights of the policy are in the engine's range. *)
Definition in_range (config : WfpAllowlistConfig) : Prop :=
  Forall (fun f => weight f <= weight_limit) (policy_filters config).

Lemma policy_NoDup config :
  len (v4_addresses config) <= 4096 -> len (v6_addresses config) <= 4080 ->
  NoDup (map filterKey (policy_filters config)) <-> ~ keys_collide config.
Proof using Type.
  intros H4 H6.
  change (policy_filters config) with (mode_filters config ++
    permit_v4_filters 0 (v4_addresses config) ++ permit_v6_filters 0 (v6_addresses config)).
  rewrite policy_filter_keys, policy_keys_NoDup by (done || apply mode_filter_keys).
  unfold keys_collide. pose proof (len_nonneg (v6_addresses config)). split.
  - intros Hor [Hlt Hne]. apply Hne, len_zero. lia.
  - intros Hno. destruct (decide (v6_addresses config = [])) as [->|]; [by left|right].
    apply Z.nlt_ge. intros ?. by apply Hno.
Qed.

(** The adds over a machine that has no filter of this program. *)
Lemma add_policy config w m :
  installed w = foreign m ->
  len (v4_addresses config) <= 4096 -> len (v6_addresses config) <= 4080 ->
  match add_filters (policy_filters config) w with
  | (Ok _, w') => ~ keys_collide config /\ in_range config /\
      installed w' = policy_map (policy_filters config) ∪ foreign m
  | (Err _, w') => (keys_collide config \/ ~ in_range config)
  end /\
  tidy (installed (add_filters (policy_filters config) w).2) /\
  foreign (installed (add_filters (policy_filters config) w).2) = foreign m.
Proof using Type*.
  intros Hw H4 H6. pose proof (add_filters_runs (policy_filters config) w) as HA.
  destruct (add_filters (policy_filters config) w) as [[u|e] w']; cbn [snd].
  - destruct HA as (Hn & Hl & _ & ->). rewrite Hw.
    split; [split_and!; [by apply policy_NoDup|done|done]|].
    apply (prefix_state config _ []); by rewrite ?app_nil_r.
  - destruct HA as (don & f & rest & E & Hn & _ & -> & Hwhy). rewrite Hw in *.
    split; [|by apply (prefix_state config don (f :: rest))].
    destruct Hwhy as [Htaken|Hheavy]; [left|right].
    + apply dec_stable. intros Hno%policy_NoDup; [|done..]. rewrite E, map_app in Hno. cbn in Hno.
      apply NoDup_app in Hno as (_ & Hdis & _).
      apply lookup_union_is_Some in Htaken as [Hd%policy_map_Some|[g Hg]].
      * apply (Hdis _ Hd). by left.
      * destruct (lookup_foreign m (filterKey f)) as [F _]. rewrite F in Hg; [done|].
        apply (policy_key_nstu config f H4 H6). rewrite E. apply elem_of_app. right. by left.
    + unfold in_range. rewrite E, Forall_app, Forall_cons. lia.
Qed.

(** Every branch of [apply]. *)
Lemma apply_outcome config al :
  tidy (installed (world al)) ->
  len (v4_addresses config) <= 4096 -> len (v6_addresses config) <= 4080 ->
  let rest := foreign (installed (world al)) in
  match apply config al with
  | (Ok _, al') => ~ refused config /\ ~ keys_collide config /\ in_range config /\
      active al' = true /\
      installed (world al') = policy_map (policy_filters config) ∪ rest /\
      tidy (installed (world al')) /\ foreign (installed (world al')) = rest
  | (Err _, al') => refused config /\ al' = al \/
      ~ refused config /\ (keys_collide config \/ ~ in_range config) /\ active al' = false /\
      installed (world al') = rest
  end.
Proof using Type*.
  intros Ht H4 H6 rest. destruct (decide (refused config)) as [Hr|Hr].
  { unfold apply. destruct Hr as (E1 & E2 & E3). rewrite E1, E2, E3. left. done. }
  destruct (apply_runs config al Ht Hr) as (w & Hw & ->).
  destruct (add_policy config w _ Hw H4 H6) as (Hadd & Ht' & Hf).
  destruct (add_filters (policy_filters config) w) as [[u|e] w']; cbn [snd] in *.
  - destruct Hadd as (Hc & Hl & Hi). cbn [world active]. rewrite law_close. done.
  - right. destruct (clear_runs {| active := false; world := FwpmEngineClose0 w' |})
      as (_ & Hact & Hcl); cbn [world] in *; rewrite law_close in *; [done|].
    by rewrite Hf in Hcl.
Qed.

(** Nothing is permitted: default-deny blocks every connection. *)
Definition permits_nothing (config : WfpAllowlistConfig) : Prop :=
  permit_loopback config = false /\ permit_dns_dhcp config = false /\ server_ipv4 config = 0 /\
  is_zero_ipv6 (server_ipv6 config) = true /\ allowed_ipv4 config = [] /\ allowed_ipv6 config = [].

(** In the documented range a policy fits only when it permits nothing. *)
Lemma documented_range config :
  weight_limit = documented_weight_limit -> ~ refused config ->
  in_range config <-> default_deny config = true /\ permits_nothing config.
Proof using Type.
  intros E Hr. unfold in_range, permits_nothing. rewrite E. unfold documented_weight_limit. split.
  - intros HF. unfold policy_filters in HF. rewrite !Forall_app in HF. destruct HF as (Hm & H4 & H6).
    assert (allowed_ipv4 config = []) as E4.
    { apply (sort_unique_nil Z.le). fold (v4_addresses config).
      destruct (v4_addresses config); [done|]. apply Forall_cons in H4 as [H4 _]. cbn in H4. lia. }
    assert (allowed_ipv6 config = []) as E6.
    { apply (sort_unique_nil ipv6_le). fold (v6_addresses config).
      destruct (v6_addresses config); [done|]. apply Forall_cons in H6 as [H6 _]. cbn in H6. lia. }
    destruct (default_deny config) eqn:Ed; [|by destruct Hr]. split; [done|].
    unfold default_deny_filters in Hm. rewrite !Forall_app in Hm.
    destruct Hm as (_ & Hl & Hd & H4s & H6s).
    destruct (permit_loopback config); [apply Forall_cons in Hl as [Hl _]; cbn in Hl; lia|].
    destruct (permit_dns_dhcp config); [apply Forall_cons in Hd as [Hd _]; cbn in Hd; lia|].
    destruct (Z.eqb_spec (server_ipv4 config) 0);
      [|apply Forall_cons in H4s as [H4s _]; cbn in H4s; lia].
    destruct (is_zero_ipv6 (server_ipv6 config));
      [|apply Forall_cons in H6s as [H6s _]; cbn in H6s; lia]. done.
  - intros (Hd & H1 & H2 & H3 & H5 & H6 & H7). unfold policy_filters, default_deny_filters,
      v4_addresses, v6_addresses.
    rewrite Hd, H1, H2, H3, H5, H6, H7. cbn. repeat (apply Forall_cons; split; [cbn; lia|]).
    by apply Forall_nil_2.
Qed.

(** C34. On an engine that is running, which refuses weight range indices above
    [weight_limit], and from any state this program leaves, for at most 4096 IPv4
    and 4080 IPv6 addresses: [apply] succeeds exactly when the configuration is
    default-deny or allows an address, not both more than sixteen IPv4 addresses
    and an IPv6 address are allowed (the keys of the permits are then distinct),
    and every weight of the policy is in range.  With the documented limit of 15
    the last is so only of a default-deny policy that permits nothing at all, as
    every permit has the weight 20.  A success installs exactly the policy's
    filters and leaves every other program's; a failed apply takes out every
    filter it added, or touches nothing; and [clear] afterwards restores the
    machine. *)
Theorem wfp_policy_installed config al :
  tidy (installed (world al)) ->
  len (v4_addresses config) <= 4096 -> len (v6_addresses config) <= 4080 ->
  let rest := foreign (installed (world al)) in
  let '(r, al') := apply config al in
  (r = Ok tt <-> ~ refused config /\ ~ keys_collide config /\ in_range config) /\
  (weight_limit = documented_weight_limit ->
     r = Ok tt <-> default_deny config = true /\ permits_nothing config) /\
  (r = Ok tt -> active al' = true /\
     installed (world al') = policy_map (policy_filters config) ∪ rest) /\
  (r <> Ok tt -> refused config /\ al' = al \/
     active al' = false /\ installed (world al') = rest) /\
  tidy (installed (world al')) /\
  (clear al').1 = Ok tt /\ installed (world (clear al').2) = rest.
Proof using Type*.
  intros Ht H4 H6 rest. pose proof (apply_outcome config al Ht H4 H6) as HA. fold rest in HA.
  pose proof (documented_range config) as Hdoc.
  assert (default_deny config = true /\ permits_nothing config ->
    ~ refused config /\ ~ keys_collide config) as Hempty.
  { intros (Hd & _ & _ & _ & _ & _ & E6). split; [intros [? _]; congruence|].
    unfold keys_collide, v6_addresses. rewrite E6. by intros [_ []]. }
  destruct (apply config al) as [[[]|e] al'].
  - destruct HA as (Hr & Hc & Hl & Hact & Hi & Ht' & Hf). destruct (clear_runs al' Ht') as (? & _ & ->).
    split; [done|]. split; [intros E; split; [intros _; by apply Hdoc|done]|]. done.
  - assert (~ (~ refused config /\ ~ keys_collide config /\ in_range config)) as Hno
      by (destruct HA as [[? _]|(? & [?|?] & _)]; tauto).
    assert (tidy (installed (world al')) /\ foreign (installed (world al')) = rest /\
      (refused config /\ al' = al \/ active al' = false /\ installed (world al') = rest))
      as (Ht' & Hf & Hcase).
    { destruct HA as [[Hr ->]|(_ & _ & Hact & Hi)]; [by split_and!; [| |left]|].
      rewrite Hi. split_and!; [apply tidy_foreign|apply foreign_idemp|by right]. }
    destruct (clear_runs al' Ht') as (? & _ & ->).
    split; [by split; [|intros ?%Hno]|]. split; [|done]. intros E. split; [done|].
    intros Hp. destruct (Hempty Hp) as [Hr Hc]. destruct Hno. by split_and!; [| |apply Hdoc].
Qed.

End Proofs.

(** ** What a policy lets through *)

Inductive Connection :=
| conn_v4 (remote port : Z)
| conn_v6 (remote : bytes) (port : Z).

Definition remote_port (c : Connection) : Z :=
  match c with conn_v4 _ port | conn_v6 _ port => port end.

Definition connect_layer (c : Connection) : Guid :=
  match c with conn_v4 _ _ => kAleAuthConnectV4 | conn_v6 _ _ => kAleAuthConnectV6 end.

(** The platform's classification of an outbound connection: when a condition
    holds, and the verdict of a sub-layer's filters. *)
Class WfpClassify := {
  meets : Condition -> Connection -> bool;
  verdict : list Filter -> Connection -> Action
}.

Definition applies `{WfpClassify} (f : Filter) (c : Connection) : bool :=
  bool_decide (layerKey f = connect_layer c) && forallb (fun cond => meets cond c) (conditions f).

(** Documented: a mask compares the masked bits, a full prefix the whole
    address; the verdict is the action of the applicable filter of greatest
    weight, and a connection no filter applies to is permitted. *)
Class WfpClassifyLaws `{WfpClassify} := {
  meets_v4 addr mask remote port :
    meets (ipv4_condition addr mask) (conn_v4 remote port) =
    (Z.land remote mask =? Z.land addr mask);
  meets_v6 addr remote port :
    meets (ipv6_condition addr 128) (conn_v6 remote port) = bool_decide (remote = addr);
  meets_port port c : meets (port_condition port) c = (remote_port c =? port);
  verdict_none fs c :
    Forall (fun f => applies f c = false) fs -> verdict fs c = FWP_ACTION_PERMIT;
  verdict_greatest fs c f :
    f ∈ fs -> applies f c = true ->
    (forall g, g ∈ fs -> applies g c = true ->
       weight g < weight f \/ weight g = weight f /\ action g = action f) ->
    verdict fs c = action f
}.

Section Classify.
Context `{CL : WfpClassifyLaws}.

Definition some_filter (act : Action) (fs : list Filter) (c : Connection) : bool :=
  existsb (fun f => bool_decide (action f = act) && applies f c) fs.

Lemma some_filter_app act fs1 fs2 c :
  some_filter act (fs1 ++ fs2) c = some_filter act fs1 c || some_filter act fs2 c.
Proof using Type. apply existsb_app. Qed.

Lemma some_filter_spec act fs c :
  some_filter act fs c = true <-> exists f, f ∈ fs /\ action f = act /\ applies f c = true.
Proof using Type.
  unfold some_filter. rewrite existsb_exists. split.
  - intros (f & Hf & HP). bool_to_prop. exists f. by rewrite list_elem_of_In.
  - intros (f & Hf & <- & Ha). exists f. rewrite list_elem_of_In in Hf. split; [done|].
    by rewrite Ha, bool_decide_eq_true_2.
Qed.

(** Permits outweigh blocks, which have one weight: a connection is blocked when
    a block and no permit applies to it. *)
Lemma verdict_by_weight fs c wb :
  wb < 20 ->
  Forall (fun f => action f = FWP_ACTION_PERMIT /\ weight f = 20 \/
                   action f = FWP_ACTION_BLOCK /\ weight f = wb) fs ->
  verdict fs c = FWP_ACTION_PERMIT <->
  some_filter FWP_ACTION_PERMIT fs c = true \/ some_filter FWP_ACTION_BLOCK fs c = false.
Proof using Type*.
  intros Hwb HF. rewrite Forall_forall in HF.
  destruct (some_filter FWP_ACTION_PERMIT fs c) eqn:Ep.
  { split; [by left|intros _]. apply some_filter_spec in Ep as (f & Hf & Hact & Ha).
    rewrite <- Hact. apply verdict_greatest; [done|done|]. intros g Hg _.
    destruct (HF f Hf) as [[_ ->]|[? _]]; [|congruence].
    destruct (HF g Hg) as [[? ->]|[_ ->]]; [right|left]; [split; congruence|lia]. }
  assert (Hnp : forall g, g ∈ fs -> applies g c = true -> action g = FWP_ACTION_BLOCK /\ weight g = wb).
  { intros g Hg Ha. destruct (HF g Hg) as [[Hp _]|?]; [|done]. exfalso.
    assert (some_filter FWP_ACTION_PERMIT fs c = true) by (apply some_filter_spec; eauto).
    congruence. }
  destruct (some_filter FWP_ACTION_BLOCK fs c) eqn:Eb.
  - apply some_filter_spec in Eb as (f & Hf & Hact & Ha).
    rewrite (verdict_greatest fs c f), Hact by (done || intros g Hg Hga;
      destruct (Hnp g Hg Hga), (Hnp f Hf Ha); right; split; congruence).
    split; [done|by intros []].
  - split; [by right|intros _]. apply verdict_none, Forall_forall. intros f Hf.
    destruct (applies f c) eqn:Ha; [|done]. destruct (Hnp f Hf Ha) as [Hact _].
    assert (some_filter FWP_ACTION_BLOCK fs c = true) by (apply some_filter_spec; eauto).
    congruence.
Qed.

Lemma policy_weights config :
  exists wb, wb < 20 /\
    Forall (fun f => action f = FWP_ACTION_PERMIT /\ weight f = 20 \/
                     action f = FWP_ACTION_BLOCK /\ weight f = wb) (policy_filters config).
Proof using Type.
  assert (H4 : forall wb i l, Forall (fun f => action f = FWP_ACTION_PERMIT /\ weight f = 20 \/
    action f = FWP_ACTION_BLOCK /\ weight f = wb) (permit_v4_filters i l)).
  { intros wb i l. revert i. induction l; constructor; [by left|done]. }
  assert (H6 : forall wb i l, Forall (fun f => action f = FWP_ACTION_PERMIT /\ weight f = 20 \/
    action f = FWP_ACTION_BLOCK /\ weight f = wb) (permit_v6_filters i l)).
  { intros wb i l. revert i. induction l; constructor; [by left|done]. }
  exists (if default_deny config then 1 else 10). split; [by destruct (default_deny config)|].
  unfold policy_filters. rewrite !Forall_app. split; [|done].
  unfold default_deny_filters, port_block_filters.
  destruct (default_deny config); rewrite !Forall_app; split_and!;
    try match goal with |- Forall _ (if ?b then _ else _) => destruct b end;
    repeat first [apply Forall_nil; exact I | apply Forall_cons; split]; cbn; auto.
Qed.

Lemma policy_weight_bound config f : f ∈ policy_filters config -> weight f <= 20.
Proof using Type.
  intros Hf. destruct (policy_weights config) as (wb & Hwb & Hw). rewrite Forall_forall in Hw.
  destruct (Hw f Hf) as [[_ ->]|[_ ->]]; lia.
Qed.

Lemma some_permit_v4 i l c :
  some_filter FWP_ACTION_PERMIT (permit_v4_filters i l) c =
  match c with
  | conn_v4 remote _ => existsb (fun a => Z.land remote 0xffffffff =? Z.land a 0xffffffff) l
  | conn_v6 _ _ => false
  end.
Proof using Type*.
  revert i. induction l as [|a l IH]; intros i; [by destruct c|].
  unfold some_filter in *. cbn [permit_v4_filters existsb v4 action]. rewrite IH.
  unfold applies, v4. destruct c as [remote port|remote port]; cbn; [|done].
  by rewrite meets_v4, andb_true_r.
Qed.

Lemma some_permit_v6 i l c :
  some_filter FWP_ACTION_PERMIT (permit_v6_filters i l) c =
  match c with
  | conn_v4 _ _ => false
  | conn_v6 remote _ => existsb (fun a => bool_decide (remote = a)) l
  end.
Proof using Type*.
  revert i. induction l as [|a l IH]; intros i; [by destruct c|].
  unfold some_filter in *. cbn [permit_v6_filters existsb v6 action]. rewrite IH.
  unfold applies, v6. destruct c as [remote port|remote port]; cbn; [done|].
  by rewrite meets_v6, andb_true_r.
Qed.

Lemma no_block_v4 i l c : some_filter FWP_ACTION_BLOCK (permit_v4_filters i l) c = false.
Proof using Type. revert i. induction l as [|a l IH]; intros i; [done|]. apply IH. Qed.

Lemma no_block_v6 i l c : some_filter FWP_ACTION_BLOCK (permit_v6_filters i l) c = false.
Proof using Type. revert i. induction l as [|a l IH]; intros i; [done|]. apply IH. Qed.

(** ** The connections of a policy *)

Definition server_permits (config : WfpAllowlistConfig) (port : Z) : bool :=
  (server_port config =? 0) || (port =? server_port config).

(** Evaluate the tests between constants in [some_filter] of a literal list. *)
Ltac eval_filters :=
  cbn -[Z.land loopback_v6]; unfold applies; cbn -[Z.land loopback_v6];
  rewrite ?meets_v4, ?meets_v6, ?meets_port;
  change (Z.land 0x7f000000 0xff000000) with 0x7f000000;
  change (bool_decide (FWP_ACTION_BLOCK = FWP_ACTION_PERMIT)) with false;
  change (bool_decide (FWP_ACTION_PERMIT = FWP_ACTION_BLOCK)) with false;
  change (bool_decide (FWP_ACTION_PERMIT = FWP_ACTION_PERMIT)) with true;
  change (bool_decide (FWP_ACTION_BLOCK = FWP_ACTION_BLOCK)) with true;
  change (bool_decide (kAleAuthConnectV4 = kAleAuthConnectV4)) with true;
  change (bool_decide (kAleAuthConnectV6 = kAleAuthConnectV6)) with true;
  change (bool_decide (kAleAuthConnectV4 = kAleAuthConnectV6)) with false;
  change (bool_decide (kAleAuthConnectV6 = kAleAuthConnectV4)) with false;
  cbn [andb orb remote_port negb]; rewrite ?andb_true_r, ?orb_false_r.

(** What default-deny lets through on each layer, as boolean tests. *)
Lemma some_permit_default config c :
  some_filter FWP_ACTION_PERMIT (default_deny_filters config) c =
  match c with
  | conn_v4 remote port =>
      permit_loopback config && (Z.land remote 0xff000000 =? 0x7f000000) ||
      permit_dns_dhcp config && ((port =? 53) || (port =? 67)) ||
      negb (server_ipv4 config =? 0) &&
        ((Z.land remote 0xffffffff =? Z.land (server_ipv4 config) 0xffffffff) &&
         server_permits config port)
  | conn_v6 remote port =>
      permit_loopback config && bool_decide (remote = loopback_v6) ||
      permit_dns_dhcp config && ((port =? 53) || (port =? 547)) ||
      negb (is_zero_ipv6 (server_ipv6 config)) &&
        (bool_decide (remote = server_ipv6 config) && server_permits config port)
  end.
Proof using Type*.
  unfold default_deny_filters. rewrite !some_filter_app. unfold some_filter, port_conditions, server_permits.
  destruct c as [remote port|remote port];
    destruct (permit_loopback config), (permit_dns_dhcp config), (server_ipv4 config =? 0),
      (is_zero_ipv6 (server_ipv6 config)), (Z.eqb_spec (server_port config) 0) as [E|E];
    eval_filters; rewrite <- ?orb_assoc; done.
Qed.

(** The legacy policy permits nothing by itself. *)
Lemma some_filter_ports config act c :
  some_filter act (port_block_filters config) c =
  bool_decide (act = FWP_ACTION_BLOCK) &&
  match c with
  | conn_v4 _ port => block_http config && (port =? 80) || block_https config && (port =? 443)
  | conn_v6 _ _ => false
  end.
Proof using Type*.
  unfold port_block_filters. rewrite some_filter_app. unfold some_filter.
  destruct c as [remote port|remote port], act, (block_http config), (block_https config);
    eval_filters; done.
Qed.

(** Default-deny blocks on both layers. *)
Lemma some_block_default config c :
  some_filter FWP_ACTION_BLOCK (default_deny_filters config) c = true.
Proof using Type. unfold default_deny_filters. by destruct c. Qed.

Lemma land_u32 v : u32 v -> Z.land v 0xffffffff = v.
Proof using Type.
  intros Hv. change 0xffffffff with (Z.ones 32). rewrite Z.land_ones by lia.
  apply Z.mod_small. ulia.
Qed.

Lemma land_octet v : u32 v -> Z.land v 0xff000000 = v / 2 ^ 24 * 2 ^ 24.
Proof using Type.
  intros Hv. rewrite <- Z.shiftr_div_pow2, <- Z.shiftl_mul_pow2, <- Z.ldiff_ones_r by lia.
  rewrite <- (land_u32 v) at 2 by done. change 0xff000000 with (Z.ldiff 0xffffffff (Z.ones 24)).
  apply Z.bits_inj'. intros n Hn. rewrite !Z.land_spec, !Z.ldiff_spec, !Z.land_spec.
  by rewrite andb_assoc.
Qed.

Lemma existsb_v4 config remote :
  Forall u32 (allowed_ipv4 config) -> u32 remote ->
  existsb (fun a => remote =? Z.land a 0xffffffff) (v4_addresses config) = true <->
  remote ∈ allowed_ipv4 config.
Proof using Type.
  intros HF Hr. rewrite existsb_exists. rewrite Forall_forall in HF.
  setoid_rewrite <- list_elem_of_In. unfold v4_addresses. setoid_rewrite elem_of_sort_unique. split.
  - intros (a & Ha & E%Z.eqb_eq). rewrite land_u32 in E by auto. by subst.
  - intros Ha. exists remote. split; [done|]. rewrite land_u32 by done. apply Z.eqb_refl.
Qed.

Lemma existsb_v6 config remote :
  existsb (fun a => bool_decide (remote = a)) (v6_addresses config) = true <->
  remote ∈ allowed_ipv6 config.
Proof using Type.
  rewrite existsb_exists. setoid_rewrite <- list_elem_of_In. unfold v6_addresses.
  setoid_rewrite elem_of_sort_unique. split.
  - intros (a & Ha & E). bool_to_prop. by subst.
  - intros Ha. exists remote. by rewrite bool_decide_eq_true_2.
Qed.

(** C35. What an installed policy lets out.  Under default-deny an IPv4
    connection is permitted exactly when loopback is permitted and the address
    is in 127.0.0.0/8, or DNS/DHCP is permitted and the port is 53 or 67, or it
    is to the server and its port (any port when none is given), or the address
    is on the list; IPv6 likewise with ::1 and ports 53 and 547.  The legacy
    policy blocks the chosen ports of unlisted IPv4 addresses only, and no IPv6
    connection. *)
Theorem wfp_policy_permits config c :
  Forall u32 (server_ipv4 config :: allowed_ipv4 config) ->
  match c with conn_v4 remote _ => u32 remote | conn_v6 _ _ => True end ->
  let to_server port := server_port config = 0 \/ port = server_port config in
  verdict (policy_filters config) c = FWP_ACTION_PERMIT <->
  if default_deny config then
    match c with
    | conn_v4 remote port =>
        permit_loopback config = true /\ remote / 2 ^ 24 = 127 \/
        permit_dns_dhcp config = true /\ (port = 53 \/ port = 67) \/
        server_ipv4 config <> 0 /\ remote = server_ipv4 config /\ to_server port \/
        remote ∈ allowed_ipv4 config
    | conn_v6 remote port =>
        permit_loopback config = true /\ remote = loopback_v6 \/
        permit_dns_dhcp config = true /\ (port = 53 \/ port = 547) \/
        is_zero_ipv6 (server_ipv6 config) = false /\ remote = server_ipv6 config /\
          to_server port \/
        remote ∈ allowed_ipv6 config
    end
  else
    match c with
    | conn_v4 remote port =>
        remote ∈ allowed_ipv4 config \/
        ~ (block_http config = true /\ port = 80 \/ block_https config = true /\ port = 443)
    | conn_v6 _ _ => True
    end.
Proof using Type*.
  intros [Hsrv HF]%Forall_cons Hr to_server.
  destruct (policy_weights config) as (wb & Hwb & Hw).
  rewrite (verdict_by_weight _ c wb Hwb Hw). unfold policy_filters. rewrite !some_filter_app.
  rewrite some_permit_v4, some_permit_v6, no_block_v4, no_block_v6, !orb_false_r.
  destruct (default_deny config).
  - rewrite some_permit_default, some_block_default. unfold server_permits, to_server.
    destruct c as [remote port|remote port].
    + rewrite land_octet, !land_u32, orb_false_r by done.
      rewrite !orb_true_iff, !andb_true_iff, !orb_true_iff, !negb_true_iff, !Z.eqb_eq, Z.eqb_neq,
        existsb_v4 by done.
      assert (remote / 2 ^ 24 * 2 ^ 24 = 0x7f000000 <-> remote / 2 ^ 24 = 127) as -> by lia.
      intuition done.
    + rewrite !orb_true_iff, !andb_true_iff, !orb_true_iff, !negb_true_iff, !Z.eqb_eq,
        !bool_decide_eq_true, existsb_v6. intuition done.
  - rewrite !some_filter_ports, bool_decide_eq_false_2, bool_decide_eq_true_2 by done. cbn [andb orb].
    destruct c as [remote port|remote port]; [|by intuition].
    rewrite land_u32, orb_false_r, existsb_v4, orb_false_iff, !andb_false_iff, !Z.eqb_neq by done.
    destruct (block_http config), (block_https config), (Z.eqb_spec port 80), (Z.eqb_spec port 443);
      intuition congruence.
Qed.

End Classify.

(** ** A concrete engine *)

(** The machine is its filters; nothing fails but an add whose key is taken or
    whose weight is out of range and a deletion of an absent key. *)
Definition FWP_E_INVALID_WEIGHT : Z := 0x80320025.

Definition map_engine (weight_limit : Z) : WfpEngine (gmap Guid Filter) := {|
  FwpmEngineOpen0 := fun m => (ERROR_SUCCESS, true, m);
  FwpmEngineClose0 := fun m => m;
  FwpmProviderAdd0 := fun m => (ERROR_SUCCESS, m);
  FwpmProviderDeleteByKey0 := fun m => (ERROR_SUCCESS, m);
  FwpmSubLayerAdd0 := fun m => (ERROR_SUCCESS, m);
  FwpmSubLayerDeleteByKey0 := fun m => (ERROR_SUCCESS, m);
  FwpmFilterAdd0 := fun f m =>
    if weight_limit <? weight f then (FWP_E_INVALID_WEIGHT, m)
    else
      match m !! filterKey f with
      | Some _ => (FWP_E_ALREADY_EXISTS, m)
      | None => (ERROR_SUCCESS, <[filterKey f := f]> m)
      end;
  FwpmFilterDeleteByKey0 := fun key m =>
    match m !! key with
    | Some _ => (ERROR_SUCCESS, delete key m)
    | None => (FWP_E_FILTER_NOT_FOUND, m)
    end
|}.

Lemma map_engine_laws weight_limit : @WfpEngineLaws _ (map_engine weight_limit) (fun m => m).
Proof.
  split; try done; cbn.
  - intros f m. destruct (weight_limit <? weight f); [by right|].
    destruct (m !! filterKey f) eqn:E; [right|left]; done.
  - intros key m. destruct (m !! key) eqn:E; [left|right; left]; done.
Qed.

Lemma map_engine_runs weight_limit :
  @WfpEngineRuns _ (map_engine weight_limit) (fun m => m) weight_limit.
Proof.
  split; try done; cbn; auto.
  - intros f m -> Hw. by rewrite (proj2 (Z.ltb_ge _ _) Hw).
  - intros f m Hw. by rewrite (proj2 (Z.ltb_lt _ _) Hw).
  - intros key m. destruct (m !! key); auto.
Qed.

(** The applicable filter of greatest weight, the first of several. *)
Fixpoint greatest (best : Filter) (fs : list Filter) : Filter :=
  match fs with
  | [] => best
  | f :: rest => greatest (if weight best <? weight f then f else best) rest
  end.

Lemma greatest_spec best fs :
  greatest best fs ∈ best :: fs /\
  forall g, g ∈ best :: fs -> weight g <= weight (greatest best fs).
Proof.
  revert best. induction fs as [|f fs IH]; intros best; cbn.
  { split; [by left|]. by intros g ->%list_elem_of_singleton. }
  destruct (IH (if weight best <? weight f then f else best)) as [Hin Hmax].
  destruct (Z.ltb_spec (weight best) (weight f)).
  - split; [set_solver|]. pose proof (Hmax f ltac:(by left)).
    intros g [->|Hg]%elem_of_cons; [lia|by apply Hmax].
  - split; [set_solver|]. pose proof (Hmax best ltac:(by left)).
    intros g [->|[->|Hg]%elem_of_cons]%elem_of_cons; [done|lia|]. apply Hmax. by right.
Qed.

Definition concrete_meets (cond : Condition) (c : Connection) : bool :=
  match cond, c with
  | ipv4_condition addr mask, conn_v4 remote _ => Z.land remote mask =? Z.land addr mask
  | ipv6_condition addr prefixLength, conn_v6 remote _ =>
      (prefixLength =? 128) && bool_decide (remote = addr)
  | port_condition port, _ => remote_port c =? port
  | _, _ => false
  end.

Definition concrete_verdict (fs : list Filter) (c : Connection) : Action :=
  match List.filter (fun f => bool_decide (layerKey f = connect_layer c) &&
                       forallb (fun cond => concrete_meets cond c) (conditions f)) fs with
  | [] => FWP_ACTION_PERMIT
  | f :: rest => action (greatest f rest)
  end.

Definition concrete_classify : WfpClassify :=
  {| meets := concrete_meets; verdict := concrete_verdict |}.

Lemma concrete_classify_laws : @WfpClassifyLaws concrete_classify.
Proof.
  split; try done; unfold verdict, concrete_classify, concrete_verdict, applies.
  - intros fs c HF. cbn.
    assert (List.filter (fun f => bool_decide (layerKey f = connect_layer c) &&
      forallb (fun cond => concrete_meets cond c) (conditions f)) fs = []) as ->; [|done].
    induction HF as [|f fs Hf _ IH]; cbn in *; [done|]. by rewrite Hf.
  - intros fs c f Hf Ha Hmax. cbn in *.
    assert (Hin : forall g, g ∈ List.filter (fun f => bool_decide (layerKey f = connect_layer c) &&
      forallb (fun cond => concrete_meets cond c) (conditions f)) fs <->
      g ∈ fs /\ bool_decide (layerKey g = connect_layer c) &&
        forallb (fun cond => concrete_meets cond c) (conditions g) = true).
    { intros g. by rewrite !list_elem_of_In, filter_In. }
    destruct (List.filter _ fs) as [|b rest] eqn:E.
    { exfalso. apply (not_elem_of_nil f), Hin. done. }
    destruct (greatest_spec b rest) as [Hgin Hg]. apply Hin in Hgin as [Hg1 Hg2].
    specialize (Hg f (proj2 (Hin f) (conj Hf Ha))).
    destruct (Hmax _ Hg1 Hg2) as [?|[_ ?]]; [lia|done].
Qed.

Definition sample_config : WfpAllowlistConfig :=
  {| allowed_ipv4 := [0x08080808; 0x08080404; 0x08080808]; allowed_ipv6 := [];
     server_ipv4 := 0xc0a8010a; server_ipv6 := zero_ipv6; server_port := 27961;
     default_deny := true; permit_loopback := true; permit_dns_dhcp := true;
     block_http := true; block_https := true |}.

(** Default-deny without a permit. *)
Definition silent_config : WfpAllowlistConfig :=
  {| allowed_ipv4 := []; allowed_ipv6 := []; server_ipv4 := 0; server_ipv6 := zero_ipv6;
     server_port := 0; default_deny := true; permit_loopback := false; permit_dns_dhcp := false;
     block_http := true; block_https := true |}.

Lemma empty_tidy : tidy ∅.
Proof.
  exists 0, 0. split_and!; try lia; try (intros; lia). intros k [f Hf].
  by rewrite lookup_empty in Hf.
Qed.

(** An engine of the documented range refuses the sample policy, and leaves
    nothing of it, and installs the one that permits nothing; one that takes the
    weight 20 installs the sample policy. *)
Lemma wfp_policy_installed_witness :
  let al := {| active := false; world := ∅ |} in
  (let '(r, al') := @apply _ (map_engine documented_weight_limit) sample_config al in
   r <> Ok tt /\ world al' = foreign ∅) /\
  (@apply _ (map_engine documented_weight_limit) silent_config al).1 = Ok tt /\
  (let '(r, al') := @apply _ (map_engine 20) sample_config al in
   r = Ok tt /\ world al' = policy_map (policy_filters sample_config) ∪ foreign ∅ /\
   world (@clear _ (map_engine 20) al').2 = foreign ∅).
Proof.
  intros al. pose proof empty_tidy as Ht.
  assert (Hs : len (v4_addresses sample_config) <= 4096 /\ len (v6_addresses sample_config) <= 4080)
    by (split; vm_compute; discriminate).
  assert (Hn : len (v4_addresses silent_config) <= 4096 /\ len (v6_addresses silent_config) <= 4080)
    by (split; vm_compute; discriminate).
  split; [|split].
  - pose proof (@wfp_policy_installed _ (map_engine documented_weight_limit) (fun m => m)
      (map_engine_laws _) documented_weight_limit (map_engine_runs _) sample_config al Ht
      (proj1 Hs) (proj2 Hs)) as H. cbv zeta in H.
    destruct (@apply _ (map_engine documented_weight_limit) sample_config al) as [r al'].
    destruct H as (_ & Hdoc & _ & Hfail & _). specialize (Hdoc eq_refl).
    assert (Hr : r <> Ok tt).
    { intros [_ [Hl _]]%Hdoc. discriminate Hl. }
    split; [exact Hr|]. destruct (Hfail Hr) as [[[Hd _] _]|[_ Hw]]; [discriminate Hd|exact Hw].
  - pose proof (@wfp_policy_installed _ (map_engine documented_weight_limit) (fun m => m)
      (map_engine_laws _) documented_weight_limit (map_engine_runs _) silent_config al Ht
      (proj1 Hn) (proj2 Hn)) as H. cbv zeta in H.
    destruct (@apply _ (map_engine documented_weight_limit) silent_config al) as [r al'].
    destruct H as (_ & Hdoc & _). apply (Hdoc eq_refl). split; [reflexivity|].
    repeat (split; [reflexivity|]). reflexivity.
  - pose proof (@wfp_policy_installed _ (map_engine 20) (fun m => m) (map_engine_laws _) 20
      (map_engine_runs _) sample_config al Ht (proj1 Hs) (proj2 Hs)) as H. cbv zeta in H.
    destruct (@apply _ (map_engine 20) sample_config al) as [r al'].
    destruct H as (H1 & _ & H2 & _ & _ & _ & H5).
    assert (r = Ok tt) as Hr.
    { apply H1. split; [intros [? _]; discriminate|]. split; [intros [_ Hc]; exact (Hc eq_refl)|].
      apply Forall_forall. intros f Hf. apply policy_weight_bound in Hf. exact Hf. }
    exact (conj Hr (conj (proj2 (H2 Hr)) H5)).
Defined.

Lemma wfp_policy_permits_witness :
  @verdict concrete_classify (policy_filters sample_config) (conn_v4 0x08080404 443) =
    FWP_ACTION_PERMIT /\
  @verdict concrete_classify (policy_filters sample_config) (conn_v4 0x01010101 443) <>
    FWP_ACTION_PERMIT.
Proof.
  assert (HF : Forall u32 (server_ipv4 sample_config :: allowed_ipv4 sample_config)).
  { repeat constructor; discriminate. }
  split.
  - apply (@wfp_policy_permits concrete_classify concrete_classify_laws sample_config
      (conn_v4 0x08080404 443) HF); [split; vm_compute; congruence|].
    right. right. right. right. left.
  - intros H. apply (@wfp_policy_permits concrete_classify concrete_classify_laws sample_config
      (conn_v4 0x01010101 443) HF) in H; [|split; vm_compute; congruence].
    cbn in H. rewrite !elem_of_cons, elem_of_nil in H. intuition discriminate.
Defined.

End WfpAllowlist.
