(* ===== verification/ExamLockdown.v ===== *)
(** The exam's network lockdown (client/include/nstu/exam_network_lockdown.hpp,
    client/include/nstu/exam_lockdown_controller.hpp and
    client/src/exam_lockdown_controller.cpp): when a student machine's firewall
    block goes up and when it comes down.

    The firewall is the interface [FirewallSeam] (the source's [ApplyFn] and
    [ClearFn]), which the service implements with [WfpAllowlist]; nothing is
    assumed of it but that a call runs as a whole, and a clear that answers with
    success may leave filters (the header of the controller says so).  What is
    followed is what the firewall was told.  Every method runs under the
    controller's mutex but [disarm], which releases it while it clears: it is
    three steps, between which any other call may come, also another [disarm]. *)

From S2P Require Import Prelude WfpAllowlist.

Module ExamLockdown.
Import WfpAllowlist.

(** ** [ExamNetworkLockdown] *)

Inductive LockdownAction := action_none | action_apply | action_clear.

Record ExamNetworkLockdown := mkLockdown {
  ld_config : WfpAllowlistConfig;
  ld_max_active_ms : Z;
  ld_stale_after_ms : Z;
  ld_start_ms : Z;
  ld_last_heartbeat_ms : Z;
  ld_desired : bool;
  ld_applied : bool
}.

Definition default_config : WfpAllowlistConfig :=
  {| allowed_ipv4 := []; allowed_ipv6 := []; server_ipv4 := 0; server_ipv6 := zero_ipv6;
     server_port := 0; default_deny := true; permit_loopback := true;
     permit_dns_dhcp := true; block_http := true; block_https := true |}.

Definition new_lockdown (max_active_ms stale_after_ms : Z) : ExamNetworkLockdown :=
  {| ld_config := default_config; ld_max_active_ms := max_active_ms;
     ld_stale_after_ms := stale_after_ms; ld_start_ms := 0; ld_last_heartbeat_ms := 0;
     ld_desired := false; ld_applied := false |}.

Definition ld_arm (l : ExamNetworkLockdown) (config : WfpAllowlistConfig) (now_ms : Z) :
    ExamNetworkLockdown :=
  {| l with ld_config := config; ld_desired := true; ld_start_ms := now_ms;
     ld_last_heartbeat_ms := now_ms |}.

Definition ld_heartbeat (l : ExamNetworkLockdown) (now_ms : Z) : ExamNetworkLockdown :=
  {| l with ld_last_heartbeat_ms := now_ms |}.

Definition ld_disarm (l : ExamNetworkLockdown) : ExamNetworkLockdown :=
  {| l with ld_desired := false |}.

Definition should_block (l : ExamNetworkLockdown) (now_ms : Z) : bool :=
  if negb (ld_desired l) then false
  else
    let active_for := if now_ms >=? ld_start_ms l then now_ms - ld_start_ms l else 0 in
    let since_heartbeat :=
      if now_ms >=? ld_last_heartbeat_ms l then now_ms - ld_last_heartbeat_ms l else 0 in
    (active_for <=? ld_max_active_ms l) && (since_heartbeat <=? ld_stale_after_ms l).

Definition poll (l : ExamNetworkLockdown) (now_ms : Z) : LockdownAction * ExamNetworkLockdown :=
  let want := should_block l now_ms in
  if want && negb (ld_applied l) then (action_apply, {| l with ld_applied := true |})
  else if negb want && ld_applied l then (action_clear, {| l with ld_applied := false |})
  else (action_none, l).

(** ** [ExamLockdownController] *)

Definition kMaxActiveCapMs : Z := 25 * 3600 * 1000.
Definition kDefaultStaleAfterMs : Z := 90000.
Definition kMaxApplyRetries : Z := 5.

Record ExamLockdownArmParams := mkArmParams {
  session_id : bytes;
  client_id : bytes;
  package_verified : bool;
  duration_seconds : Z;
  arm_allowed_ipv4 : list Z;
  arm_allowed_ipv6 : list bytes;
  arm_server_ipv4 : Z;
  arm_server_ipv6 : bytes;
  arm_server_port : Z;
  arm_default_deny : bool;
  arm_permit_loopback : bool;
  arm_permit_dns_dhcp : bool
}.

Record ExamLockdownController := mkController {
  current_epoch : Z;
  armed : bool;
  actually_blocked : bool;
  apply_retries : Z;
  last_apply_failed : bool;
  start_ms : Z;
  last_heartbeat_ms : Z;
  ctl_duration_seconds : Z;
  lockdown : ExamNetworkLockdown;
  last_error : string
}.

Definition new_controller : ExamLockdownController :=
  {| current_epoch := 0; armed := false; actually_blocked := false; apply_retries := 0;
     last_apply_failed := false; start_ms := 0; last_heartbeat_ms := 0;
     ctl_duration_seconds := 0; lockdown := new_lockdown kMaxActiveCapMs kDefaultStaleAfterMs;
     last_error := "" |}.

Definition is_zero_session (session_id : bytes) : bool :=
  forallb (fun b => bool_decide (b = byte_of 0)) session_id.

(** The token and the controller. *)
Definition begin_attempt (c : ExamLockdownController) : Z * ExamLockdownController :=
  let epoch := wrap64 (current_epoch c + 1) in (epoch, {| c with current_epoch := epoch |}).

Definition max_active (duration : Z) : Z :=
  let max_active_ms := wrap64 ((duration + 30 * 60) * 1000) in
  if max_active_ms >? kMaxActiveCapMs then kMaxActiveCapMs else max_active_ms.

Definition arm_config (params : ExamLockdownArmParams) : WfpAllowlistConfig :=
  {| allowed_ipv4 := arm_allowed_ipv4 params; allowed_ipv6 := arm_allowed_ipv6 params;
     server_ipv4 := arm_server_ipv4 params; server_ipv6 := arm_server_ipv6 params;
     server_port := arm_server_port params; default_deny := arm_default_deny params;
     permit_loopback := arm_permit_loopback params;
     permit_dns_dhcp := arm_permit_dns_dhcp params;
     block_http := true; block_https := true |}.

Definition arm (c : ExamLockdownController) (token : Z) (params : ExamLockdownArmParams)
    (configured_client_id : bytes) (now_ms : Z) : result unit * ExamLockdownController :=
  if negb (token =? current_epoch c) then (Err "stale or invalid arm token", c)
  else if is_zero_session (session_id params) then (Err "session_id is zero", c)
  else if negb (bool_decide (client_id params = configured_client_id))
  then (Err "client_id does not match configured service identity", c)
  else if negb (package_verified params) then (Err "package has not been verified", c)
  else if bool_decide (arm_allowed_ipv4 params = []) && bool_decide (arm_allowed_ipv6 params = []) &&
          (arm_server_ipv4 params =? 0) && bool_decide (arm_server_ipv6 params = zero_ipv6)
  then (Err "allowed IP set is empty", c)
  else
    let lockdown :=
      ld_arm (new_lockdown (max_active (duration_seconds params)) kDefaultStaleAfterMs)
        (arm_config params) now_ms in
    (Ok tt,
     {| c with ctl_duration_seconds := duration_seconds params; lockdown := lockdown;
        armed := true; start_ms := now_ms; last_heartbeat_ms := now_ms; apply_retries := 0;
        last_apply_failed := false |}).

Definition update_duration (c : ExamLockdownController) (duration : Z) : ExamLockdownController :=
  if negb (armed c) || (duration =? 0) then c
  else
    let config := ld_config (lockdown c) in
    let l := ld_arm (new_lockdown (max_active duration) kDefaultStaleAfterMs) config (start_ms c) in
    let l := if last_heartbeat_ms c >? start_ms c then ld_heartbeat l (last_heartbeat_ms c) else l in
    {| c with ctl_duration_seconds := duration; lockdown := l |}.

Definition heartbeat (c : ExamLockdownController) (now_ms : Z) : ExamLockdownController :=
  if negb (armed c) then c
  else {| c with last_heartbeat_ms := now_ms; lockdown := ld_heartbeat (lockdown c) now_ms |}.

(** [disarm], first locked part: whether to clear. *)
Definition disarm_request (c : ExamLockdownController) : bool * ExamLockdownController :=
  (actually_blocked c,
   {| c with current_epoch := wrap64 (current_epoch c + 1); armed := false;
      lockdown := ld_disarm (lockdown c) |}).

(** [disarm], second locked part, after a clear that succeeded. *)
Definition disarm_finish (c : ExamLockdownController) : ExamLockdownController :=
  {| c with actually_blocked := false; apply_retries := 0 |}.

(** *** The operations that call the firewall *)

Class FirewallSeam (F : Type) := {
  apply_fn : option (WfpAllowlistConfig -> F -> result unit * F);
  clear_fn : option (F -> result unit * F)
}.

(** A call of the firewall that answered with success. *)
Inductive FirewallCall :=
| called_apply (config : WfpAllowlistConfig)
| called_clear.

(** The firewall, and the calls it answered with success, the last one first. *)
Record Wall (F : Type) := mkWall { wall : F; answered : list FirewallCall }.
Arguments mkWall {F}. Arguments wall {F}. Arguments answered {F}.


Section Seam.
Context {F : Type} `{FirewallSeam F}.

Definition note (call : FirewallCall) (w : Wall F) (answer : result unit * F)
    : result unit * Wall F :=
  match answer with
  | (Ok u, f) => (Ok u, mkWall f (call :: answered w))
  | (Err error, f) => (Err error, mkWall f (answered w))
  end.

Definition call_apply (config : WfpAllowlistConfig) (w : Wall F) : result unit * Wall F :=
  match apply_fn with
  | Some apply => note (called_apply config) w (apply config (wall w))
  | None => (Err "", w)
  end.

Definition call_clear (w : Wall F) : result unit * Wall F :=
  match clear_fn with Some clear => note called_clear w (clear (wall w)) | None => (Err "", w) end.

Definition tick (c : ExamLockdownController) (now_ms : Z) (f : Wall F) :
    LockdownAction * ExamLockdownController * Wall F :=
  let c := {| c with lockdown := (poll (lockdown c) now_ms).2 |} in
  if ld_applied (lockdown c) && negb (actually_blocked c) then
    if negb (last_apply_failed c) && (apply_retries c <? kMaxApplyRetries) then
      let retries := apply_retries c + 1 in
      match call_apply (ld_config (lockdown c)) f with
      | (Ok _, f) =>
          (action_apply, {| c with apply_retries := retries; actually_blocked := true |}, f)
      | (Err err, f) =>
          (action_none,
           {| c with apply_retries := retries; last_error := err;
              last_apply_failed := (retries >=? kMaxApplyRetries) || last_apply_failed c |}, f)
      end
    else (action_none, c, f)
  else if negb (ld_applied (lockdown c)) && actually_blocked c then
    match call_clear f with
    | (Ok _, f) => (action_clear, {| c with actually_blocked := false; apply_retries := 0 |}, f)
    | (Err err, f) => (action_none, {| c with last_error := err |}, f)
    end
  else (action_none, c, f).

Definition startup_sweep (f : F) : result unit * F :=
  match clear_fn with Some clear => clear f | None => (Ok tt, f) end.

(** *** Histories

    A run is a sequence of steps: the calls under the mutex, and the three steps
    of a [disarm].  [accepted] is the log of the arms that were accepted, with the
    instant of each; [disarms] are the calls of [disarm] that are under way. *)

Inductive Op :=
| op_begin_attempt
| op_arm (token : Z) (params : ExamLockdownArmParams) (configured_client_id : bytes) (now_ms : Z)
| op_update_duration (duration : Z)
| op_heartbeat (now_ms : Z)
| op_disarm
| op_disarm_clear (n : nat)
| op_disarm_finish (n : nat)
| op_tick (now_ms : Z).

Record Accepted := mkAccepted {
  acc_params : ExamLockdownArmParams;
  acc_client_id : bytes;
  acc_now_ms : Z
}.

(** Where a [disarm] is: before its clear, or between that and its last part. *)
Inductive Disarm := must_clear | must_finish.

Record World := mkWorld {
  ctl : ExamLockdownController;
  firewall : Wall F;
  accepted : list Accepted;
  disarms : list Disarm
}.

(** [disarm] up to where it releases the mutex. *)
Definition disarm (w : World) : World :=
  let '(wants_clear, c) := disarm_request (ctl w) in
  {| w with ctl := c;
     disarms := if wants_clear then disarms w ++ [must_clear] else disarms w |}.

(** Its call of the firewall, without the mutex; a clear that fails ends it. *)
Definition disarm_clear (w : World) (n : nat) : World :=
  match disarms w !! n with
  | Some must_clear =>
      match call_clear (firewall w) with
      | (Ok _, f) => {| w with firewall := f; disarms := <[n := must_finish]> (disarms w) |}
      | (Err _, f) => {| w with firewall := f; disarms := delete n (disarms w) |}
      end
  | _ => w
  end.

(** Its last part, under the mutex again. *)
Definition disarm_end (w : World) (n : nat) : World :=
  match disarms w !! n with
  | Some must_finish => {| w with ctl := disarm_finish (ctl w); disarms := delete n (disarms w) |}
  | _ => w
  end.

Definition step (w : World) (op : Op) : World :=
  match op with
  | op_begin_attempt => {| w with ctl := (begin_attempt (ctl w)).2 |}
  | op_arm token params configured_client_id now_ms =>
      match arm (ctl w) token params configured_client_id now_ms with
      | (Ok _, c) =>
          {| w with ctl := c;
             accepted := mkAccepted params configured_client_id now_ms :: accepted w |}
      | (Err _, c) => {| w with ctl := c |}
      end
  | op_update_duration duration => {| w with ctl := update_duration (ctl w) duration |}
  | op_heartbeat now_ms => {| w with ctl := heartbeat (ctl w) now_ms |}
  | op_disarm => disarm w
  | op_disarm_clear n => disarm_clear w n
  | op_disarm_finish n => disarm_end w n
  | op_tick now_ms =>
      let '(_, c, f) := tick (ctl w) now_ms (firewall w) in {| w with ctl := c; firewall := f |}
  end.

Definition run (w : World) (ops : list Op) : World := fold_left step ops w.

(** The service starts with a sweep. *)
Definition start (f : F) : World :=
  {| ctl := new_controller; firewall := mkWall (startup_sweep f).2 []; accepted := [];
     disarms := [] |}.

End Seam.
#[global] Arguments World : clear implicits.

(** ** Proofs *)








Section Proofs.
Context {F : Type} `{FirewallSeam F}.







(** *** The invariant of a history *)





















End Proofs.

(** ** The allowlist as the firewall *)

Section WfpSeam.
Context {W : Type} `{WfpEngine W}.

(** The functions the service gives the controller. *)
#[local] Instance wfp_seam : FirewallSeam (WfpWebsiteAllowlist W) :=
  {| apply_fn := Some apply; clear_fn := Some clear |}.
End WfpSeam.

(** ** Histories *)

Definition sample_id (v : Z) : bytes := repeat (byte_of v) 16.

Definition sample_params (address : Z) : ExamLockdownArmParams :=
  {| session_id := sample_id 0x33; client_id := sample_id 0x11; package_verified := true;
     duration_seconds := 3600; arm_allowed_ipv4 := [address]; arm_allowed_ipv6 := [];
     arm_server_ipv4 := 0; arm_server_ipv6 := zero_ipv6; arm_server_port := 0;
     arm_default_deny := true; arm_permit_loopback := true; arm_permit_dns_dhcp := true |}.

(** A firewall that does as it is told: its state is the policy it enforces. *)
Definition obedient_seam : FirewallSeam (option WfpAllowlistConfig) :=
  {| apply_fn := Some (fun config _ => (Ok tt, Some config));
     clear_fn := Some (fun _ => (Ok tt, None)) |}.

Definition obedient_run (ops : list Op) : World (option WfpAllowlistConfig) :=
  @run _ obedient_seam (@start _ obedient_seam None) ops.

(** A second exam armed while the first one's block is up: ticks do not put up
    the second allowlist, the firewall keeps the first. *)
Lemma rearm_keeps_old_policy :
  let w := obedient_run
    [op_begin_attempt; op_arm 1 (sample_params 1) (sample_id 0x11) 1000; op_tick 1000;
     op_begin_attempt; op_arm 2 (sample_params 2) (sample_id 0x11) 5000; op_tick 5000;
     op_heartbeat 6000; op_tick 7000] in
  ld_config (lockdown (ctl w)) = arm_config (sample_params 2) /\
  wall (firewall w) = Some (arm_config (sample_params 1)).
Proof. split; reflexivity. Qed.

(** A disarm interrupted between its clear and its second lock: a tick clears
    too, a new exam is armed and applied, and then the disarm finishes.  The
    controller believes nothing is blocked, and the next disarm clears nothing. *)
Definition interrupted_ops : list Op :=
  [op_begin_attempt; op_arm 1 (sample_params 1) (sample_id 0x11) 1000; op_tick 1000;
   op_disarm; op_disarm_clear 0; op_tick 2000; op_begin_attempt;
   op_arm 3 (sample_params 2) (sample_id 0x11) 5000; op_tick 5000; op_disarm_finish 0].

Lemma interrupted_disarm_forgets_block :
  let w := obedient_run interrupted_ops in
  let w' := obedient_run (interrupted_ops ++ [op_disarm; op_tick 6000]) in
  actually_blocked (ctl w) = false /\ disarms w' = [] /\
  wall (firewall w') = Some (arm_config (sample_params 2)).
Proof. split_and!; reflexivity. Qed.



End ExamLockdown.
