(* ===== verification/OriginResolver.v ===== *)
(** The allowed origins of an exam (client/src/exam_lockdown_controller.cpp):
    from the manifest's origins to the IPv4 addresses the firewall lets through.
    The DNS lookup ([resolve_fn], or [getaddrinfo] when none is given) is a
    parameter. *)

From S2P Require Import Prelude UrlValidation.

Module OriginResolver.
Import UrlValidation.

(** ** [parse_origin_hostname] *)

Definition printable (c : byte) : bool :=
  let uc := byte_val c in negb ((uc <=? 0x20) || (uc >=? 0x7f)).

Definition starts_with_case_insensitive (str prefix : bytes) : bool := starts_with_ci str prefix.

(** [find("://") != npos]. *)
Fixpoint contains (needle str : bytes) : bool :=
  bool_decide (take (length needle) str = needle) ||
  match str with [] => false | _ :: str' => contains needle str' end.

(** [rfind(c)]. *)
Fixpoint rfind (c : byte) (str : bytes) : option nat :=
  match str with
  | [] => None
  | x :: str' =>
      match rfind c str' with
      | Some n => Some (S n)
      | None => if bool_decide (x = c) then Some O else None
      end
  end.

Definition is_digit (c : byte) : bool := (48 <=? byte_val c) && (byte_val c <=? 57).

(** [std::from_chars] on digits: at most five here, far below [ULONG_MAX]. *)
Definition decimal (digits : bytes) : Z :=
  fold_left (fun v d => v * 10 + (byte_val d - 48)) digits 0.

(** The text of a port is accepted. *)
Definition valid_port (port_str : bytes) : bool :=
  if bool_decide (port_str = []) || (len port_str >? 5) then false
  else if negb (forallb is_digit port_str) then false
  else let port := decimal port_str in negb ((port <? 1) || (port >? 65535)).

Definition label_character (c : byte) : bool :=
  let v := byte_val c in
  ((97 <=? v) && (v <=? 122)) || ((65 <=? v) && (v <=? 90)) || ((48 <=? v) && (v <=? 57)) ||
  (v =? 45).

Definition valid_label (label : bytes) : bool :=
  if bool_decide (label = []) || (len label >? 63) then false
  else if bool_decide (head label = Some (byte_of 45)) || bool_decide (last label = Some (byte_of 45))
  then false
  else forallb label_character label.

(** The label loop; [fuel] is the number of bytes from [start] on. *)
Fixpoint valid_labels (fuel : nat) (rest : bytes) : bool :=
  match fuel with
  | O => true
  | S fuel' =>
      if bool_decide (rest = []) then true
      else
        match find_first_of (text ".") rest with
        | None => valid_label rest
        | Some dot =>
            if valid_label (take dot rest) then valid_labels fuel' (drop (S dot) rest) else false
        end
  end.

(** The scheme, removed: [None] for a scheme that is not supported. *)
Definition strip_scheme (origin : bytes) : option bytes :=
  if starts_with_case_insensitive origin (text "https://") then Some (drop 8 origin)
  else if starts_with_case_insensitive origin (text "http://") then Some (drop 7 origin)
  else if bool_decide (take 2 origin = text "//") then Some (drop 2 origin)
  else if contains (text "://") origin then None
  else Some origin.

Definition strip_path (host_part : bytes) : bytes :=
  match find_first_of (text "/?#") host_part with
  | Some sep => take sep host_part
  | None => host_part
  end.

Definition strip_port (host_part : bytes) : option bytes :=
  match rfind (byte_of 58) host_part with
  | Some colon =>
      if valid_port (drop (S colon) host_part) then Some (take colon host_part) else None
  | None => Some host_part
  end.

Definition valid_host (host_part : bytes) : bool :=
  if bool_decide (host_part = []) || (len host_part >? 253) then false
  else if bool_decide (head host_part = Some (byte_of 46)) ||
          bool_decide (last host_part = Some (byte_of 46))
  then false
  else valid_labels (length host_part) host_part.

(** [Some hostname] is [true] with [hostname] set; [None] is [false]. *)
Definition parse_origin_hostname (origin : bytes) : option bytes :=
  if bool_decide (origin = []) || (len origin >? 253) then None
  else if negb (forallb printable origin) then None
  else if bool_decide (byte_of 64 ∈ origin) then None
  else
    match strip_scheme origin with
    | None => None
    | Some host_part =>
        match strip_port (strip_path host_part) with
        | None => None
        | Some host_part => if valid_host host_part then Some host_part else None
        end
    end.

(** ** Addresses *)

Definition is_disallowed_ipv4 (ip : Z) : bool :=
  if ip =? 0 then true
  else
    let first_octet := Z.land (Z.shiftr ip 24) 0xff in
    if first_octet =? 127 then true
    else if Z.land ip 0xffff0000 =? 0xa9fe0000 then true
    else first_octet >=? 224.

(** [b[i]] of the sixteen bytes. *)
Definition at_ (b : bytes) (i : nat) : Z := default 0 (byte_val <$> (b !! i)).

Definition all_zero_bytes (b : bytes) : bool := forallb (fun x => byte_val x =? 0) b.

Definition is_disallowed_ipv6 (b : bytes) : bool :=
  if all_zero_bytes b then true
  else if all_zero_bytes (take 15 b) && (at_ b 15 =? 1) then true
  else if all_zero_bytes (take 10 b) && (at_ b 10 =? 0xff) && (at_ b 11 =? 0xff) then
    is_disallowed_ipv4
      (Z.lor (Z.lor (Z.lor (Z.shiftl (at_ b 12) 24) (Z.shiftl (at_ b 13) 16))
                (Z.shiftl (at_ b 14) 8)) (at_ b 15))
  else if at_ b 0 =? 0xff then true
  else if (at_ b 0 =? 0xfe) && (Z.land (at_ b 1) 0xc0 =? 0x80) then true
  else if (at_ b 0 =? 0xfe) && (Z.land (at_ b 1) 0xc0 =? 0xc0) then true
  else if (at_ b 0 =? 0x01) && (at_ b 1 =? 0x00) && all_zero_bytes (take 6 (drop 2 b)) then true
  else (at_ b 0 =? 0x20) && (at_ b 1 =? 0x01) && (at_ b 2 =? 0x0d) && (at_ b 3 =? 0xb8).

(** ** [resolve_allowed_origins] *)

Section Resolve.
Variable resolve_fn : bytes -> list Z.

Fixpoint resolve_each (origins : list bytes) : list Z :=
  match origins with
  | [] => []
  | origin :: rest =>
      match parse_origin_hostname origin with
      | None => resolve_each rest
      | Some hostname =>
          List.filter (fun ip => negb (is_disallowed_ipv4 ip)) (resolve_fn hostname) ++
          resolve_each rest
      end
  end.

Definition resolve_allowed_origins (origins : list bytes) : list Z :=
  if len origins >? 32 then []
  else
    let resolved := resolve_each origins in
    if bool_decide (resolved = []) then [] else sort_unique Z.le resolved.

End Resolve.

(** ** What a hostname is *)

Fixpoint join_dots (labels : list bytes) : bytes :=
  match labels with
  | [] => []
  | [label] => label
  | label :: rest => label ++ text "." ++ join_dots rest
  end.

(** Letters, digits and hyphens, not at the ends, one to 63 of them. *)
Definition dns_label (label : bytes) : Prop :=
  0 < len label <= 63 /\ head label <> Some (byte_of 45) /\ last label <> Some (byte_of 45) /\
  Forall (fun c => label_character c = true) label.

Definition dns_hostname (host : bytes) : Prop :=
  exists labels, labels <> [] /\ host = join_dots labels /\ Forall dns_label labels.

Lemma valid_label_iff label : valid_label label = true <-> dns_label label.
Proof.
  unfold valid_label, dns_label. rewrite Forall_forall.
  destruct (bool_decide (label = []) || (len label >? 63)) eqn:E.
  - split; [done|]. intros (Hl & _). apply orb_true_iff in E as [E|E]; bool_to_prop; [|lia].
    assert (len label = 0) by (by rewrite E). lia.
  - bool_to_prop. assert (0 < len label).
    { destruct label; [done|]. rewrite len_cons. pose proof (len_nonneg label). lia. }
    destruct (bool_decide (head label = _) || bool_decide (last label = _)) eqn:E2.
    + split; [done|]. intros (_ & Hh1 & Hh2 & _). apply orb_true_iff in E2 as [?|?]; by bool_to_prop.
    + bool_to_prop. rewrite forallb_forall. setoid_rewrite <- list_elem_of_In.
      split; [|tauto]. intros HF. split; [lia|]. done.
Qed.

Lemma label_character_not_special c set :
  label_character c = true ->
  forallb (fun x => negb (label_character x)) set = true -> c ∉ set.
Proof.
  intros Hc HF Hin. rewrite forallb_forall in HF. apply list_elem_of_In, HF in Hin.
  by rewrite Hc in Hin.
Qed.

Lemma dns_label_no label set :
  dns_label label -> forallb (fun x => negb (label_character x)) set = true ->
  Forall (fun c => c ∉ set) label.
Proof.
  intros (_ & _ & _ & HF) Hs. eapply Forall_impl; [exact HF|]. intros c Hc. cbn in Hc.
  by eapply label_character_not_special.
Qed.

Lemma dot_text : text "." = [byte_of 46].
Proof. vm_compute. reflexivity. Qed.

Lemma join_dots_cons label labels :
  labels <> [] -> join_dots (label :: labels) = label ++ byte_of 46 :: join_dots labels.
Proof. destruct labels; [done|]. intros _. cbn [join_dots]. by rewrite dot_text. Qed.

Lemma valid_labels_sound fuel rest :
  (length rest <= fuel)%nat -> rest <> [] -> last rest <> Some (byte_of 46) ->
  valid_labels fuel rest = true -> dns_hostname rest.
Proof.
  revert rest. induction fuel as [|fuel IH]; intros rest Hf Hne Hlast; cbn [valid_labels].
  { destruct rest; [done|cbn in Hf; lia]. }
  rewrite bool_decide_eq_false_2 by done.
  destruct (find_first_of (text ".") rest) as [dot|] eqn:Ed.
  - apply find_first_of_Some in Ed as (c & rest' & E & Hc & _).
    assert (c = byte_of 46) as -> by (by apply list_elem_of_singleton in Hc).
    assert (Hd : drop (S dot) rest = rest').
    { rewrite E at 1. assert (length (take dot rest) = dot).
      { apply length_take_le. apply (f_equal length) in E. rewrite length_app, length_take in E.
        cbn in E. lia. }
      rewrite drop_app, H, drop_ge by lia. replace (S dot - dot)%nat with 1%nat by lia. done. }
    rewrite Hd. destruct (valid_label (take dot rest)) eqn:Hv; [|done].
    intros Hr. apply valid_label_iff in Hv.
    assert (Hne' : rest' <> []).
    { intros ->. rewrite E, last_snoc in Hlast. done. }
    destruct (IH rest') as (labels & Hl & -> & HF); [| | |done|].
    + apply (f_equal length) in E. rewrite length_app in E. cbn in E. lia.
    + done.
    + rewrite E, last_app_cons in Hlast. rewrite last_cons in Hlast.
      by destruct (last rest').
    + exists (take dot rest :: labels). split; [done|]. split; [|by constructor].
      by rewrite join_dots_cons, E at 1.
  - intros Hv%valid_label_iff. exists [rest]. split; [done|]. split; [done|]. by constructor.
Qed.

Lemma drop_past (pre : bytes) c post : drop (S (length pre)) (pre ++ c :: post) = post.
Proof. by induction pre. Qed.

Lemma find_first_of_at set pre c post :
  Forall (fun x => x ∉ set) pre -> c ∈ set ->
  find_first_of set (pre ++ c :: post) = Some (length pre).
Proof.
  intros HF Hc. induction HF as [|x pre Hx _ IH]; cbn.
  - by rewrite bool_decide_eq_true_2.
  - rewrite bool_decide_eq_false_2 by done. by rewrite IH.
Qed.

Lemma valid_labels_complete fuel labels :
  labels <> [] -> Forall dns_label labels -> valid_labels fuel (join_dots labels) = true.
Proof.
  intros Hne HF. revert fuel Hne. induction HF as [|label labels Hl HF IH]; [done|].
  intros [|fuel] _; [done|]. cbn [valid_labels].
  assert (Hnd : Forall (fun c => c ∉ text ".") label) by (by apply dns_label_no).
  destruct labels as [|label' labels].
  - cbn [join_dots]. rewrite (proj2 (find_first_of_None _ _)) by done.
    case_bool_decide; [done|]. by apply valid_label_iff.
  - rewrite join_dots_cons by done.
    rewrite bool_decide_eq_false_2 by (by destruct label).
    rewrite find_first_of_at by (done || by (rewrite dot_text; left)).
    rewrite take_app_length.
    rewrite (proj2 (valid_label_iff _) Hl).
    rewrite drop_past. by apply IH.
Qed.

Lemma dns_hostname_ends host :
  dns_hostname host ->
  host <> [] /\ (forall c, head host = Some c \/ last host = Some c -> label_character c = true).
Proof.
  intros (labels & Hne & -> & HF). revert Hne. induction HF as [|label labels Hl HF IH]; [done|].
  intros _. destruct Hl as (Hlen & _ & _ & Hch). rewrite Forall_forall in Hch.
  assert (Hln : label <> []) by (intros E; assert (len label = 0) by (by rewrite E); lia).
  assert (Hhead : forall c rest, head (label ++ rest) = Some c -> label_character c = true).
  { intros c rest Hc. apply Hch. destruct label; [done|]. injection Hc as <-. by left. }
  destruct labels as [|label' labels].
  - cbn [join_dots]. split; [done|]. intros c [Hc|Hc].
    + apply (Hhead c []). by rewrite app_nil_r.
    + apply Hch. by apply last_Some_elem_of.
  - rewrite join_dots_cons by done. destruct IH as [Hne IH]; [done|].
    split; [by destruct label|]. intros c [Hc|Hc]; [by eapply Hhead|].
    apply IH. right. rewrite last_app_cons, last_cons in Hc.
    by destruct (last (join_dots (label' :: labels))) eqn:E; [|apply last_None in E].
Qed.

Lemma dns_hostname_no host set :
  dns_hostname host -> byte_of 46 ∉ set ->
  forallb (fun x => negb (label_character x)) set = true -> Forall (fun c => c ∉ set) host.
Proof.
  intros (labels & _ & -> & HF) Hdot Hset.
  induction HF as [|label labels Hl HF IH]; [constructor|].
  pose proof (dns_label_no label set Hl Hset) as Hn. destruct labels; [done|].
  rewrite join_dots_cons by done. apply Forall_app. split; [done|]. constructor; [done|done].
Qed.

Lemma valid_host_iff host : valid_host host = true <-> dns_hostname host /\ len host <= 253.
Proof.
  unfold valid_host. split.
  - destruct (bool_decide (host = []) || (len host >? 253)) eqn:E; [done|].
    destruct (bool_decide (head host = _) || _) eqn:E2; [done|]. bool_to_prop.
    intros Hv. split; [|lia]. by eapply valid_labels_sound.
  - intros [Hd Hl]. destruct (dns_hostname_ends host Hd) as [Hne Hends].
    rewrite bool_decide_eq_false_2 by done. destruct (len host >? 253) eqn:E; [lia|]. cbn [orb].
    assert (Hdot : forall o, o = head host \/ o = last host -> o <> Some (byte_of 46)).
    { intros o Ho ->. assert (label_character (byte_of 46) = true); [|done].
      apply Hends. destruct Ho; auto. }
    rewrite !bool_decide_eq_false_2 by auto. cbn [orb].
    destruct Hd as (labels & Hn & -> & HF). by apply valid_labels_complete.
Qed.

(** ** Ports *)

Lemma rfind_None c str : rfind c str = None <-> c ∉ str.
Proof.
  induction str as [|x str IH]; cbn; [split; [intros _; apply not_elem_of_nil|done]|].
  rewrite not_elem_of_cons. destruct (rfind c str); [naive_solver|].
  case_bool_decide; naive_solver.
Qed.

Lemma rfind_at c pre post : c ∉ post -> rfind c (pre ++ c :: post) = Some (length pre).
Proof.
  intros Hc. induction pre as [|x pre IH]; cbn.
  - rewrite (proj2 (rfind_None c post)) by done. by rewrite bool_decide_eq_true_2.
  - by rewrite IH.
Qed.

Lemma rfind_Some c str n :
  rfind c str = Some n -> exists pre post, str = pre ++ c :: post /\ length pre = n /\ c ∉ post.
Proof.
  revert n. induction str as [|x str IH]; intros n; cbn; [done|].
  destruct (rfind c str) as [k|] eqn:E.
  - intros [= <-]. destruct (IH k eq_refl) as (pre & post & -> & <- & Hc).
    by exists (x :: pre), post.
  - case_bool_decide as Hx; [subst|done]. intros [= <-]. apply rfind_None in E.
    by exists [], str.
Qed.

Definition port_suffix (port : bytes) : Prop :=
  port = [] \/ exists digits, port = byte_of 58 :: digits /\ valid_port digits = true.

Lemma valid_port_digits digits :
  valid_port digits = true -> byte_of 58 ∉ digits.
Proof.
  unfold valid_port. destruct (_ || _); [done|]. destruct (forallb is_digit digits) eqn:E; [|done].
  intros _ Hin%list_elem_of_In. rewrite forallb_forall in E. by specialize (E _ Hin).
Qed.

Lemma strip_port_iff str host :
  dns_hostname host ->
  strip_port str = Some host <-> exists port, str = host ++ port /\ port_suffix port.
Proof.
  intros Hd. assert (Hh : byte_of 58 ∉ host).
  { intros Hin. assert (HF : Forall (fun c => c ∉ [byte_of 58]) host).
    { apply dns_hostname_no; [done| |vm_compute; reflexivity].
      refine (bool_decide_unpack _ _). vm_compute. exact I. }
    rewrite Forall_forall in HF. apply (HF _ Hin). by left. }
  unfold strip_port. split.
  - destruct (rfind (byte_of 58) str) as [n|] eqn:E.
    + apply rfind_Some in E as (pre & post & -> & <- & _).
      rewrite drop_past, take_app_length. destruct (valid_port post) eqn:Hv; [|done]. intros [= ->].
      eexists. split; [done|]. right. eauto.
    + intros [= ->]. exists []. rewrite app_nil_r. split; [done|by left].
  - intros (port & -> & [->|(digits & -> & Hv)]).
    + rewrite app_nil_r. by rewrite (proj2 (rfind_None _ _)).
    + rewrite rfind_at by (by apply valid_port_digits).
      by rewrite take_app_length, drop_past, Hv.
Qed.

(** ** Schemes *)

Lemma contains_spec needle str :
  contains needle str = true <-> exists pre post, str = pre ++ needle ++ post.
Proof.
  split.
  - induction str as [|x str IH]; cbn [contains]; intros E; apply orb_true_iff in E as [E|E];
      bool_to_prop; try done.
    + exists [], []. rewrite take_nil in E. by rewrite <- E.
    + exists [], (drop (length needle) (x :: str)). rewrite <- E at 1.
      cbn [app]. by rewrite take_drop.
    + destruct (IH E) as (pre & post & ->). by exists (x :: pre), post.
  - intros (pre & post & ->). induction pre as [|x pre IH]; cbn [app].
    + assert (bool_decide (take (length needle) (needle ++ post) = needle) = true) as E
        by (apply bool_decide_eq_true_2, take_app_length).
      destruct (needle ++ post); cbn [contains]; by rewrite E.
    + cbn [contains]. rewrite IH. apply orb_true_r.
Qed.

Lemma tolower_fixed b v :
  (v <? 97) || (122 <? v) = true -> tolower (byte_val b) = tolower v -> v < 65 \/ 90 < v ->
  byte_val b = v.
Proof. unfold tolower. repeat case_match; bool_to_prop; lia. Qed.

(** A scheme of either kind has [://] in it. *)
Lemma scheme_contains scheme rest :
  same_ci scheme (text "https://") \/ same_ci scheme (text "http://") ->
  contains (text "://") (scheme ++ rest) = true.
Proof.
  intros Hs. apply contains_spec.
  assert (Hend : forall a b c, tolower (byte_val a) = tolower 58 ->
    tolower (byte_val b) = tolower 47 -> tolower (byte_val c) = tolower 47 ->
    [a; b; c] = text "://").
  { intros a b c H1 H2 H3. apply tolower_fixed in H1, H2, H3; try (done || lia).
    apply (inj (map byte_val)). cbn [map]. rewrite H1, H2, H3. vm_compute. reflexivity. }
  assert (exists pre a b c, scheme = pre ++ [a; b; c] /\ tolower (byte_val a) = tolower 58 /\
    tolower (byte_val b) = tolower 47 /\ tolower (byte_val c) = tolower 47)
    as (pre & a & b & c & -> & H1 & H2 & H3).
  { destruct Hs as [Hs|Hs]; unfold same_ci, text in Hs; cbn in Hs;
      repeat match goal with H : Forall2 _ _ (_ :: _) |- _ => inversion H; clear H; subst end;
      match goal with H : Forall2 _ _ [] |- _ => inversion H; subst end.
    - by exists [x; x0; x1; x2; x3], x4, x5, x6.
    - by exists [x; x0; x1; x2], x3, x4, x5. }
  exists pre, rest. by rewrite <- (Hend a b c), <- app_assoc.
Qed.

(** What may come before the host. *)
Definition supported_scheme (scheme origin : bytes) : Prop :=
  same_ci scheme (text "https://") \/ same_ci scheme (text "http://") \/ scheme = text "//" \/
  scheme = [] /\ contains (text "://") origin = false.

Lemma strip_scheme_by_length origin :
  strip_scheme origin =
  match scheme_length origin with
  | Some n => Some (drop n origin)
  | None =>
      if bool_decide (take 2 origin = text "//") then Some (drop 2 origin)
      else if contains (text "://") origin then None else Some origin
  end.
Proof.
  unfold strip_scheme, scheme_length, starts_with_case_insensitive. by repeat case_match.
Qed.

Lemma strip_scheme_iff origin rest :
  take 2 rest <> text "//" ->
  strip_scheme origin = Some rest <->
  exists scheme, origin = scheme ++ rest /\ supported_scheme scheme origin.
Proof.
  intros Hrest. rewrite strip_scheme_by_length. unfold supported_scheme.
  assert (Hlen : forall scheme rest', origin = scheme ++ rest' ->
    same_ci scheme (text "https://") \/ same_ci scheme (text "http://") ->
    scheme_length origin = Some (length scheme)).
  { intros scheme rest' E Hs. apply scheme_length_spec. by exists scheme, rest'. }
  destruct (scheme_length origin) as [n|] eqn:En.
  - pose proof En as (scheme & rest' & E & Hn & Hs)%scheme_length_spec. split.
    + intros [= <-]. exists scheme. rewrite E, <- Hn, drop_app_length. tauto.
    + intros (scheme' & E' & [Hs'|[Hs'|[->|[-> Hc]]]]).
      1, 2: injection (Hlen scheme' rest E' ltac:(auto)) as ->;
        by rewrite E', drop_app_length.
      * rewrite E' in En. vm_compute in En. discriminate.
      * rewrite E, (scheme_contains _ _ Hs) in Hc. discriminate.
  - split.
    + case_bool_decide as H2.
      * intros [= <-]. exists (text "//"). rewrite <- H2 at 1. rewrite take_drop. auto.
      * destruct (contains (text "://") origin) eqn:Ec; [done|]. intros [= <-].
        exists []. split; [done|]. do 3 right. done.
    + intros (scheme & E & [Hs|[Hs|[->|[-> Hc]]]]).
      1, 2: discriminate (Hlen scheme rest E ltac:(auto)).
      * rewrite bool_decide_eq_true_2; [|by rewrite E]. by rewrite E.
      * cbn in E. subst. rewrite bool_decide_eq_false_2 by done. by rewrite Hc.
Qed.

(** ** Origins *)

(** A well-formed origin and its host. *)
Definition origin_of_host (origin host : bytes) : Prop :=
  0 < len origin <= 253 /\ Forall (fun c => printable c = true) origin /\
  byte_of 64 ∉ origin /\
  exists scheme port tail, origin = scheme ++ host ++ port ++ tail /\
    supported_scheme scheme origin /\ dns_hostname host /\ port_suffix port /\
    (tail = [] \/ exists c tail', tail = c :: tail' /\ c ∈ text "/?#").

Lemma port_suffix_no_separator port :
  port_suffix port -> Forall (fun c => c ∉ text "/?#") port.
Proof.
  intros [->|(digits & -> & Hv)]; [constructor|]. constructor.
  - refine (bool_decide_unpack _ _). vm_compute. exact I.
  - unfold valid_port in Hv. destruct (_ || _); [done|].
    destruct (forallb is_digit digits) eqn:E; [|done]. rewrite forallb_forall in E.
    apply Forall_forall. intros c Hc%list_elem_of_In%E Hin. unfold text in Hin. cbn in Hin.
    rewrite !elem_of_cons, elem_of_nil in Hin. by destruct Hin as [->|[->|[->|[]]]].
Qed.

Lemma dns_hostname_no_separator host :
  dns_hostname host -> Forall (fun c => c ∉ text "/?#") host.
Proof.
  intros Hd. apply dns_hostname_no; [done| |vm_compute; reflexivity].
  refine (bool_decide_unpack _ _). vm_compute. exact I.
Qed.

Lemma dns_hostname_no_slashes host rest : dns_hostname host -> take 2 (host ++ rest) <> text "//".
Proof.
  intros Hd E. destruct (dns_hostname_ends host Hd) as [Hne Hc].
  destruct host as [|c host]; [done|].
  specialize (Hc c (or_introl eq_refl)). cbn in E. injection E as -> _. done.
Qed.

Lemma strip_path_iff str host port :
  dns_hostname host -> port_suffix port ->
  strip_path str = host ++ port <->
  exists tail, str = host ++ port ++ tail /\
    (tail = [] \/ exists c tail', tail = c :: tail' /\ c ∈ text "/?#").
Proof.
  intros Hd Hp. unfold strip_path. split.
  - intros E. destruct (find_first_of (text "/?#") str) as [n|] eqn:En.
    + apply find_first_of_Some in En as (c & rest & Es & Hc & _). exists (c :: rest).
      rewrite E, <- app_assoc in Es. eauto 6.
    + exists []. rewrite app_nil_r. auto.
  - intros (tail & -> & Ht). rewrite app_assoc.
    pose proof (find_first_of_host (host ++ port) tail) as Hf.
    destruct (find_first_of (text "/?#") ((host ++ port) ++ tail)); apply Hf; try done;
      apply Forall_app; split; auto using port_suffix_no_separator, dns_hostname_no_separator.
Qed.

(** Which origins have which host. *)
Lemma parse_origin_hostname_iff origin host :
  parse_origin_hostname origin = Some host <-> origin_of_host origin host.
Proof.
  unfold parse_origin_hostname, origin_of_host.
  destruct (bool_decide (origin = []) || (len origin >? 253)) eqn:El.
  { split; [done|]. intros (Hl & _). apply orb_true_iff in El as [E|E]; bool_to_prop; [|lia].
    assert (len origin = 0) by (by rewrite E). lia. }
  bool_to_prop. assert (0 < len origin <= 253).
  { split; [|done]. destruct origin; [done|]. rewrite len_cons. pose proof (len_nonneg origin). lia. }
  assert (Hp : forallb printable origin = true <-> Forall (fun c => printable c = true) origin).
  { rewrite forallb_forall, Forall_forall. by setoid_rewrite list_elem_of_In. }
  destruct (forallb printable origin); cbn [negb];
    [|split; [done|intros (_ & HF & _); apply Hp in HF; done]].
  case_bool_decide; [split; [done|tauto]|].
  assert (HF : Forall (fun c => printable c = true) origin) by (by apply Hp).
  split.
  - destruct (strip_scheme origin) as [rest|] eqn:Es; [|done].
    destruct (strip_port (strip_path rest)) as [h|] eqn:Ep; [|done].
    destruct (valid_host h) eqn:Ev; [|done]. intros [= <-].
    apply valid_host_iff in Ev as [Hd _]. apply strip_port_iff in Ep as (port & Ep & Hport); [|done].
    apply strip_path_iff in Ep as (tail & -> & Ht); [|done|done].
    apply strip_scheme_iff in Es as (scheme & E & Hs);
      [|by apply dns_hostname_no_slashes].
    split; [done|]. split; [done|]. split; [done|]. by exists scheme, port, tail.
  - intros (_ & _ & _ & scheme & port & tail & E & Hs & Hd & Hport & Ht).
    rewrite (proj2 (strip_scheme_iff origin (host ++ port ++ tail)
      (dns_hostname_no_slashes _ _ Hd))) by eauto.
    rewrite (proj2 (strip_path_iff _ host port Hd Hport)) by eauto.
    rewrite (proj2 (strip_port_iff _ host Hd)) by eauto.
    rewrite (proj2 (valid_host_iff host)); [done|]. split; [done|].
    rewrite E, !len_app in H0. pose proof (len_nonneg scheme). pose proof (len_nonneg port).
    pose proof (len_nonneg tail). lia.
Qed.

(** ** Addresses *)

(** Not 0.0.0.0, 127.0.0.0/8, 169.254.0.0/16 or 224.0.0.0 and above. *)
Definition usable_ipv4 (ip : Z) : Prop :=
  ip <> 0 /\ ~ (0x7f000000 <= ip < 0x80000000) /\ ~ (0xa9fe0000 <= ip < 0xa9ff0000) /\
  ip < 0xe0000000.

Lemma is_disallowed_ipv4_iff ip : u32 ip -> is_disallowed_ipv4 ip = false <-> usable_ipv4 ip.
Proof.
  intros Hip. unfold is_disallowed_ipv4, usable_ipv4. change 0xff with (Z.ones 8).
  rewrite Z.land_ones, Z.shiftr_div_pow2 by lia.
  assert (Z.land ip 0xffff0000 = ip / 2 ^ 16 * 2 ^ 16) as ->.
  { rewrite <- Z.shiftr_div_pow2, <- Z.shiftl_mul_pow2, <- Z.ldiff_ones_r by lia.
    assert (Z.land ip (Z.ones 32) = ip) as Hm
      by (rewrite Z.land_ones by lia; apply Z.mod_small; ulia).
    rewrite <- Hm at 2. change 0xffff0000 with (Z.ldiff (Z.ones 32) (Z.ones 16)).
    apply Z.bits_inj'. intros n Hn. rewrite !Z.land_spec, !Z.ldiff_spec, !Z.land_spec.
    by rewrite andb_assoc. }
  assert (ip / 2 ^ 24 mod 2 ^ 8 = ip / 2 ^ 24) as -> by (apply Z.mod_small; ulia).
  apply urange4 in Hip. repeat case_match; bool_to_prop; split; try done; intros;
    Z.div_mod_to_equations; lia.
Qed.

(** An IPv4 address mapped into IPv6 is judged as the IPv4 address. *)
Lemma mapped_ipv6_as_ipv4 a b c d :
  is_disallowed_ipv6 (repeat (byte_of 0) 10 ++ [byte_of 0xff; byte_of 0xff; a; b; c; d]) =
  is_disallowed_ipv4
    (Z.lor (Z.lor (Z.lor (Z.shiftl (byte_val a) 24) (Z.shiftl (byte_val b) 16))
              (Z.shiftl (byte_val c) 8)) (byte_val d)).
Proof.
  assert (H0 : byte_val (byte_of 0) = 0) by (rewrite byte_val_of; done).
  assert (Hff : byte_val (byte_of 0xff) = 0xff) by (rewrite byte_val_of; done).
  unfold is_disallowed_ipv6, all_zero_bytes, at_. cbn. rewrite H0, Hff. reflexivity.
Qed.

(** ** The resolver *)

Lemma elem_of_resolve_each resolve_fn origins ip :
  ip ∈ resolve_each resolve_fn origins <->
  exists origin host, origin ∈ origins /\ parse_origin_hostname origin = Some host /\
    ip ∈ resolve_fn host /\ is_disallowed_ipv4 ip = false.
Proof.
  induction origins as [|origin origins IH]; cbn [resolve_each].
  { split; [by intros ?%elem_of_nil|]. by intros (? & ? & ?%elem_of_nil & _). }
  setoid_rewrite elem_of_cons. destruct (parse_origin_hostname origin) as [host|] eqn:E.
  - rewrite elem_of_app, IH, (list_elem_of_In (List.filter _ _)), filter_In, <- list_elem_of_In,
      negb_true_iff. split.
    + intros [[H1 H2]|(o & h & Ho & Hp & Hr)]; [exists origin, host|exists o, h]; auto.
    + intros (o & h & [->|Ho] & Hp & Hr); [left; congruence|right; eauto].
  - rewrite IH. split; [intros (o & h & Ho & Hr); exists o, h; auto|].
    intros (o & h & [->|Ho] & Hp & Hr); [congruence|eauto].
Qed.

(** C36. The addresses the firewall is given for an exam's origins: in order and
    each once, they are exactly the usable addresses that the lookup returns for
    the hosts of the well-formed origins, unless more than 32 origins are given,
    which gives none.  A host is a sequence of DNS labels taken from the origin
    between its scheme and its port or path; no loopback, link-local, multicast
    or reserved address gets through, whatever the lookup says. *)
Theorem origins_resolved resolve_fn origins :
  StronglySorted Z.le (resolve_allowed_origins resolve_fn origins) /\
  NoDup (resolve_allowed_origins resolve_fn origins) /\
  (forall ip, ip ∈ resolve_allowed_origins resolve_fn origins <->
     len origins <= 32 /\ exists origin host, origin ∈ origins /\ origin_of_host origin host /\
       ip ∈ resolve_fn host /\ is_disallowed_ipv4 ip = false) /\
  (forall ip, ~ u32 ip \/ (is_disallowed_ipv4 ip = false <-> usable_ipv4 ip)).
Proof.
  assert (Hsort := sort_unique_sorted Z.le (resolve_each resolve_fn origins)).
  assert (Hin : forall ip, ip ∈ resolve_each resolve_fn origins <->
    exists origin host, origin ∈ origins /\ origin_of_host origin host /\
       ip ∈ resolve_fn host /\ is_disallowed_ipv4 ip = false).
  { intros ip. rewrite elem_of_resolve_each. by setoid_rewrite parse_origin_hostname_iff. }
  assert (Hd : forall ip, ~ u32 ip \/ (is_disallowed_ipv4 ip = false <-> usable_ipv4 ip)).
  { intros ip. destruct (decide (u32 ip)); [right; by apply is_disallowed_ipv4_iff|by left]. }
  unfold resolve_allowed_origins. destruct (len origins >? 32) eqn:El; bool_to_prop.
  - split; [constructor|]. split; [constructor|]. split; [|done]. intros ip.
    split; [by intros ?%elem_of_nil|]. intros [? _]. lia.
  - case_bool_decide as E.
    + split; [constructor|]. split; [constructor|]. split; [|done]. intros ip.
      rewrite <- Hin, E. split; [by intros ?%elem_of_nil|by intros [_ ?]].
    + split; [apply Hsort|]. split; [apply Hsort|]. split; [|done]. intros ip.
      rewrite elem_of_sort_unique, Hin. split; [|tauto]. intros ?. split; [lia|done].
Qed.

End OriginResolver.
