(* ===== verification/ControlChannel.v ===== *)
(** The authenticated control channel (common/include/nstu/control_channel.hpp
    and common/src/control_channel.cpp): the two envelopes of a command (HMAC
    and AES-256-GCM) and the channel that numbers, protects and orders the
    commands of both directions.  Handshake holds the two handshakes.

    HMAC-SHA-256 and AES-GCM are Windows CNG calls and are parameters, as are
    the random generator and the socket: [Socket] lists the [net::TcpSocket]
    methods the source uses.  Clearing of key memory is modelled where the
    channel can still be used afterwards ([close] and moved-from channels). *)

From S2P Require Import Prelude Wire Codec Protocol Auth.

Module ControlChannel.
Import Protocol Auth.

(** ** Primitives *)

Definition kAeadKeyBytes : Z := 32.
Definition kAeadNonceBytes : nat := 12.
Definition kAeadAuthTagBytes : nat := 16.
Definition kAuthenticatedOverhead : Z := 24.
Definition kPreambleFlagNone : Z := 0.
Definition kPreambleFlagAead : Z := 1.

(** [BCryptEncrypt] and [BCryptDecrypt] in GCM mode with their set-up: key,
    nonce, associated data, then plaintext, or ciphertext and tag. *)
Class AesGcm := {
  gcm_encrypt : bytes -> bytes -> bytes -> bytes -> option (bytes * bytes);
  gcm_decrypt : bytes -> bytes -> bytes -> bytes -> bytes -> option bytes
}.

(** The messages of the individual CNG failures are one message here. *)
Definition encrypt_aead_gcm `{AesGcm} (key nonce associated_data plaintext : bytes) :
    result (bytes * bytes) :=
  if negb (len key =? kAeadKeyBytes) then Err "invalid AEAD key or buffer size"
  else
    match gcm_encrypt key nonce associated_data plaintext with
    | Some (ciphertext, tag) => Ok (ciphertext, tag)
    | None => Err "BCryptEncrypt GCM failed"
    end.

Definition decrypt_aead_gcm `{AesGcm} (key nonce associated_data ciphertext tag : bytes) :
    result bytes :=
  if negb (len key =? kAeadKeyBytes) then Err "invalid AEAD key or buffer size"
  else
    match gcm_decrypt key nonce associated_data ciphertext tag with
    | Some plaintext => Ok plaintext
    | None => Err "authenticated command AEAD decryption failed"
    end.

(** [header.resize(kCommandHeaderBytes + 8)], then the sequence. *)
Definition make_aead_aad (envelope : CommandEnvelope) (sequence : Z) : bytes :=
  encode_command_header envelope ++ write_le 8 sequence.

Definition xor_bytes (left right : bytes) : bytes :=
  zip_with (fun l r => byte_of (Z.lxor (byte_val l) (byte_val r))) left right.

(** [nonce[4 + i] ^= (sequence >> 8 i) & 0xff] for the eight bytes. *)
Definition construct_aead_nonce (iv_base : bytes) (sequence : Z) : bytes :=
  take 4 iv_base ++ xor_bytes (drop 4 iv_base) (write_le 8 sequence).

Record AeadSessionKeys := mkAeadKeys {
  client_to_server_key : bytes;
  server_to_client_key : bytes;
  client_to_server_iv : bytes;
  server_to_client_iv : bytes
}.

Record AuthenticatedSession := mkSession {
  as_session_key : bytes;
  as_client_id : bytes;
  as_key_id : Z;
  as_aead_enabled : bool;
  as_role : Z
}.

Record AuthenticatedCommand := mkCommand {
  cmd_envelope : CommandEnvelope;
  cmd_sequence : Z;
  cmd_payload : bytes
}.

Definition is_handshake_command (type : Z) : bool :=
  (type =? command_type_value CT_auth_hello) || (type =? command_type_value CT_auth_challenge) ||
  (type =? command_type_value CT_auth_proof) || (type =? command_type_value CT_auth_accept).

Definition time_is_valid (peer_time now maximum_clock_skew : Z) : bool :=
  let allowed := Z.max maximum_clock_skew 1 in
  let difference := if peer_time >? now then peer_time - now else now - peer_time in
  difference <=? allowed.

(** [generate_random] of eight bytes: [None] when it fails. *)
Definition random_request_id (random : option bytes) : Z :=
  match random with
  | None => 0
  | Some bs => let value := le_value 0 bs in if value =? 0 then 1 else value
  end.

Definition zero_digest : bytes := repeat (byte_of 0) 32.
Definition zero_iv : bytes := repeat (byte_of 0) 12.

Section Channel.
Variable bcrypt_hmac : bytes -> bytes -> option bytes.
Context {GCM : AesGcm}.

Definition derive_aead_session_keys (session_key : bytes) : option AeadSessionKeys :=
  if len session_key <? kMinimumProtocolKeyBytes then None
  else
    let c2s_key := hmac_sha256 bcrypt_hmac session_key (text "NSTU-AEAD-C2S-KEY-V1") in
    let s2c_key := hmac_sha256 bcrypt_hmac session_key (text "NSTU-AEAD-S2C-KEY-V1") in
    let c2s_iv := hmac_sha256 bcrypt_hmac session_key (text "NSTU-AEAD-C2S-IV-V1") in
    let s2c_iv := hmac_sha256 bcrypt_hmac session_key (text "NSTU-AEAD-S2C-IV-V1") in
    match c2s_key, s2c_key, c2s_iv, s2c_iv with
    | Some c2s_key, Some s2c_key, Some c2s_iv, Some s2c_iv =>
        Some (mkAeadKeys c2s_key s2c_key (take kAeadNonceBytes c2s_iv) (take kAeadNonceBytes s2c_iv))
    | _, _, _, _ => None
    end.

(** ** The two envelopes of a command *)

(** [normalized]: the current version and the size of the bare payload. *)
Definition normalize (envelope : CommandEnvelope) (payload : bytes) : CommandEnvelope :=
  {| envelope with ce_version := kCommandVersion; ce_payload_bytes := wrap32 (len payload) |}.

(** The outer frame of a sequence number, a tag and a body. *)
Definition wrap_command (normalized : CommandEnvelope) (sequence : Z) (tag body : bytes) : bytes :=
  let authenticated_payload := write_le 8 sequence ++ tag ++ body in
  encode_tcp_frame {| normalized with ce_payload_bytes := wrap32 (len authenticated_payload) |}
    authenticated_payload.

Definition refuses_command (envelope : CommandEnvelope) (payload : bytes) : bool :=
  is_handshake_command (ce_type envelope) ||
  (len payload >? kMaxCommandPayload - kAuthenticatedOverhead).

Definition encode_authenticated_command (session_key : bytes) (envelope : CommandEnvelope)
    (sequence : Z) (payload : bytes) : bytes :=
  if refuses_command envelope payload then []
  else
    let normalized := normalize envelope payload in
    match compute_control_auth_tag bcrypt_hmac session_key normalized sequence payload with
    | None => []
    | Some tag => wrap_command normalized sequence tag payload
    end.

Definition encode_authenticated_command_aead (key iv_base : bytes) (envelope : CommandEnvelope)
    (sequence : Z) (payload : bytes) : bytes :=
  if refuses_command envelope payload then []
  else
    let normalized := normalize envelope payload in
    let aad := make_aead_aad normalized sequence in
    let nonce := construct_aead_nonce iv_base sequence in
    match encrypt_aead_gcm key nonce aad payload with
    | Err _ => []
    | Ok (ciphertext, tag) => wrap_command normalized sequence tag ciphertext
    end.

Definition truncated_wrapper (wire_frame : TcpFrame) : bool :=
  (len (tf_payload wire_frame) <? kAuthenticatedOverhead) ||
  negb (ce_payload_bytes (tf_envelope wire_frame) =? len (tf_payload wire_frame)) ||
  is_handshake_command (ce_type (tf_envelope wire_frame)).

(** [normalized] of the decoders: only the size changes. *)
Definition inner_envelope (wire_frame : TcpFrame) (body : bytes) : CommandEnvelope :=
  let outer := tf_envelope wire_frame in {| outer with ce_payload_bytes := wrap32 (len body) |}.

Definition decode_authenticated_command (session_key : bytes) (wire_frame : TcpFrame) :
    result AuthenticatedCommand :=
  if truncated_wrapper wire_frame then Err "authenticated command wrapper is truncated"
  else
    let sequence := le_value 0 (take 8 (tf_payload wire_frame)) in
    let tag := take 16 (drop 8 (tf_payload wire_frame)) in
    let payload := drop 24 (tf_payload wire_frame) in
    let normalized := inner_envelope wire_frame payload in
    if negb (verify_control_auth_tag bcrypt_hmac session_key normalized sequence payload tag)
    then Err "authenticated command MAC failed"
    else Ok (mkCommand normalized sequence payload).

Definition decode_authenticated_command_aead (key iv_base : bytes) (wire_frame : TcpFrame) :
    result AuthenticatedCommand :=
  if truncated_wrapper wire_frame then Err "authenticated command wrapper is truncated"
  else
    let sequence := le_value 0 (take 8 (tf_payload wire_frame)) in
    let tag := take 16 (drop 8 (tf_payload wire_frame)) in
    let ciphertext := drop 24 (tf_payload wire_frame) in
    let normalized := inner_envelope wire_frame ciphertext in
    let aad := make_aead_aad normalized sequence in
    let nonce := construct_aead_nonce iv_base sequence in
    match decrypt_aead_gcm key nonce aad ciphertext tag with
    | Err e => Err e
    | Ok plaintext => Ok (mkCommand normalized sequence plaintext)
    end.

(** ** Sockets *)

(** What [recv] gives: some bytes, an orderly shutdown, or an error. *)
Inductive Received :=
| rx_bytes (data : bytes)
| rx_closed
| rx_failed (error : string).

(** [net::TcpSocket].  A send is [Ok] when the whole buffer was sent. *)
Class Socket (S : Type) := {
  sock_is_open : S -> bool;
  sock_receive : nat -> S -> Received * S;
  sock_send_all : bytes -> S -> result unit * S;
  sock_send_all_by : bytes -> S -> result unit * S;   (** with a deadline *)
  sock_close : S -> S
}.

Context {S : Type} {SO : Socket S}.

(** [receive_exact]: every turn of the loop takes at least one byte, so [want]
    turns are enough. *)
Fixpoint receive_exact (fuel want : nat) (s : S) : result bytes * S :=
  match want with
  | O => (Ok [], s)
  | _ =>
      match fuel with
      | O => (Err "", s)
      | Datatypes.S fuel' =>
          match sock_receive want s with
          | (rx_bytes (b :: data), s) =>
              match receive_exact fuel' (want - length (b :: data)) s with
              | (Ok more, s) => (Ok (b :: data ++ more), s)
              | (Err e, s) => (Err e, s)
              end
          | (rx_bytes [], s) | (rx_closed, s) => (Err "peer closed the TCP connection", s)
          | (rx_failed e, s) => (Err e, s)
          end
      end
  end.

Definition receive_bytes (want : nat) (s : S) : result bytes * S := receive_exact want want s.

Definition send_wire (wire : bytes) (s : S) : result unit * S :=
  if bool_decide (wire = []) then (Err "", s) else sock_send_all wire s.

Definition send_preamble (role : Z) (identity : bytes) (key_id flags : Z) (s : S) :
    result unit * S :=
  let is_server := role =? role_server in
  let preamble :=
    {| cp_version := kCommandVersion; cp_role := role; cp_flags := flags;
       cp_preamble_bytes := kConnectionPreambleBytes; cp_reserved := 0;
       cp_key_id := if is_server then 0 else key_id;
       cp_identity := if is_server then repeat (byte_of 0) 16 else identity |} in
  send_wire (encode_connection_preamble preamble) s.

Definition receive_preamble (s : S) : result ConnectionPreamble * S :=
  match receive_bytes (Z.to_nat kConnectionPreambleBytes) s with
  | (Err e, s) => (Err e, s)
  | (Ok wire, s) =>
      match decode_connection_preamble wire with
      | None => (Err "invalid connection preamble", s)
      | Some preamble => (Ok preamble, s)
      end
  end.

Definition receive_plain_frame (s : S) : result TcpFrame * S :=
  match receive_bytes 4 s with
  | (Err e, s) => (Err e, s)
  | (Ok prefix, s) =>
      let body_bytes := le_value 0 prefix in
      if (body_bytes <? kCommandHeaderBytes) ||
         (body_bytes >? kCommandHeaderBytes + kMaxCommandPayload)
      then (Err "invalid TCP frame size", s)
      else
        match receive_bytes (Z.to_nat body_bytes) s with
        | (Err e, s) => (Err e, s)
        | (Ok body, s) =>
            match decode_command_header body with
            | None => (Err "invalid TCP command envelope", s)
            | Some envelope =>
                if negb (ce_payload_bytes envelope =? len body - kCommandHeaderBytes)
                then (Err "invalid TCP command envelope", s)
                else (Ok (mkTcpFrame envelope (drop (Z.to_nat kCommandHeaderBytes) body)), s)
            end
        end
  end.

Definition plain_envelope (type request_id : Z) (payload : bytes) : CommandEnvelope :=
  {| ce_version := kCommandVersion; ce_type := type; ce_payload_bytes := wrap32 (len payload);
     ce_request_id := request_id |}.

Definition send_plain_frame (type request_id : Z) (payload : bytes) (s : S) : result unit * S :=
  if len payload >? kMaxCommandPayload then (Err "command payload exceeds protocol limit", s)
  else send_wire (encode_tcp_frame (plain_envelope type request_id payload) payload) s.

(** ** [AuthenticatedControlChannel] *)

Record Channel := mkChannel {
  ch_socket : S;
  ch_session_key : bytes;
  ch_aead_enabled : bool;
  ch_role : Z;
  ch_send_key : bytes;
  ch_send_iv_base : bytes;
  ch_receive_key : bytes;
  ch_receive_iv_base : bytes;
  ch_receive_sequence : ControlSequenceGuard;
  ch_send_sequence : Z;
  ch_send_exhausted : bool
}.

(** The constructor from a bare session key. *)
Definition legacy_channel (socket : S) (session_key : bytes) : Channel :=
  {| ch_socket := socket; ch_session_key := session_key; ch_aead_enabled := false;
     ch_role := role_client; ch_send_key := zero_digest; ch_send_iv_base := zero_iv;
     ch_receive_key := zero_digest; ch_receive_iv_base := zero_iv;
     ch_receive_sequence := guard_reset 0; ch_send_sequence := 0; ch_send_exhausted := false |}.

(** The constructor from a session. *)
Definition session_channel (socket : S) (session : AuthenticatedSession) : Channel :=
  let legacy := legacy_channel socket (as_session_key session) in
  let ch := {| legacy with ch_aead_enabled := as_aead_enabled session; ch_role := as_role session |} in
  if as_aead_enabled session then
    match derive_aead_session_keys (as_session_key session) with
    | Some keys =>
        if as_role session =? role_client then
          {| ch with ch_send_key := client_to_server_key keys;
             ch_send_iv_base := client_to_server_iv keys;
             ch_receive_key := server_to_client_key keys;
             ch_receive_iv_base := server_to_client_iv keys |}
        else
          {| ch with ch_send_key := server_to_client_key keys;
             ch_send_iv_base := server_to_client_iv keys;
             ch_receive_key := client_to_server_key keys;
             ch_receive_iv_base := client_to_server_iv keys |}
    | None => {| ch with ch_aead_enabled := false |}
    end
  else ch.

Definition close (ch : Channel) : Channel :=
  {| ch with ch_socket := sock_close (ch_socket ch); ch_session_key := zero_digest;
     ch_send_key := zero_digest; ch_receive_key := zero_digest; ch_send_iv_base := zero_iv;
     ch_receive_iv_base := zero_iv; ch_aead_enabled := false; ch_send_exhausted := true |}.

(** What a move leaves behind; the target gets every field, and [empty] is the
    moved-from socket. *)
Definition moved_from (empty : S) (other : Channel) : Channel :=
  {| other with ch_socket := empty; ch_session_key := zero_digest; ch_send_key := zero_digest;
     ch_receive_key := zero_digest; ch_send_iv_base := zero_iv; ch_receive_iv_base := zero_iv;
     ch_aead_enabled := false; ch_send_exhausted := true |}.

(** The bytes [send_impl] puts on the wire. *)
Definition outgoing_wire (ch : Channel) (type request_id : Z) (payload : bytes) : bytes :=
  let envelope := plain_envelope type request_id payload in
  if ch_aead_enabled ch
  then encode_authenticated_command_aead (ch_send_key ch) (ch_send_iv_base ch) envelope
         (ch_send_sequence ch) payload
  else encode_authenticated_command (ch_session_key ch) envelope (ch_send_sequence ch) payload.

Definition send_impl (ch : Channel) (type request_id : Z) (payload : bytes) (deadline : bool) :
    result unit * Channel :=
  if negb (sock_is_open (ch_socket ch)) || ch_send_exhausted ch || is_handshake_command type
  then (Err "authenticated channel cannot send", ch)
  else
    let wire := outgoing_wire ch type request_id payload in
    if bool_decide (wire = [])
    then (Err (if deadline then "authenticated command encoding failed" else ""), ch)
    else
      match (if deadline then sock_send_all_by wire (ch_socket ch)
             else sock_send_all wire (ch_socket ch)) with
      | (Err e, s) =>
          let ch := {| ch with ch_socket := s |} in
          (Err e, if deadline then close ch else ch)
      | (Ok _, s) =>
          (Ok tt,
           if ch_send_sequence ch =? u64_max
           then {| ch with ch_socket := s; ch_send_exhausted := true |}
           else {| ch with ch_socket := s; ch_send_sequence := wrap64 (ch_send_sequence ch + 1) |})
      end.

Definition receive (ch : Channel) : result AuthenticatedCommand * Channel :=
  if negb (sock_is_open (ch_socket ch)) then (Err "authenticated channel is closed", ch)
  else
    match receive_plain_frame (ch_socket ch) with
    | (Err e, s) => (Err e, {| ch with ch_socket := s |})
    | (Ok frame, s) =>
        let ch := {| ch with ch_socket := s |} in
        let command :=
          if ch_aead_enabled ch
          then decode_authenticated_command_aead (ch_receive_key ch) (ch_receive_iv_base ch) frame
          else decode_authenticated_command (ch_session_key ch) frame in
        match command with
        | Err _ => (Err "authenticated command sequence rejected", ch)
        | Ok command =>
            let '(ok, guard) := guard_accept (ch_receive_sequence ch) (cmd_sequence command) in
            let ch := {| ch with ch_receive_sequence := guard |} in
            if ok then (Ok command, ch)
            else (Err "authenticated command sequence rejected", ch)
        end
    end.

End Channel.
#[global] Arguments Channel : clear implicits.

(** ** A protection: what both envelopes do to a command

    [pr_seal] gives the tag and the body that go on the wire for a normalized
    envelope, a sequence number and a payload; [pr_open] takes them back. *)

Record Protection := mkProtection {
  pr_seal : CommandEnvelope -> Z -> bytes -> option (bytes * bytes);
  pr_open : CommandEnvelope -> Z -> bytes -> bytes -> option bytes
}.

(** Opening accepts exactly what sealing gives. *)
Class ProtectionLaws (P : Protection) := {
  pr_exact e q tag body payload :
    length tag = 16%nat ->
    pr_open P e q tag body = Some payload <-> pr_seal P e q payload = Some (tag, body);
  pr_sizes e q payload tag body :
    pr_seal P e q payload = Some (tag, body) -> length tag = 16%nat /\ length body = length payload
}.

Definition protected_encode (P : Protection) (c : AuthenticatedCommand) : bytes :=
  if refuses_command (cmd_envelope c) (cmd_payload c) then []
  else
    let normalized := normalize (cmd_envelope c) (cmd_payload c) in
    match pr_seal P normalized (cmd_sequence c) (cmd_payload c) with
    | None => []
    | Some (tag, body) => wrap_command normalized (cmd_sequence c) tag body
    end.

Definition protected_decode (P : Protection) (wire_frame : TcpFrame) : option AuthenticatedCommand :=
  if truncated_wrapper wire_frame then None
  else
    let sequence := le_value 0 (take 8 (tf_payload wire_frame)) in
    let tag := take 16 (drop 8 (tf_payload wire_frame)) in
    let body := drop 24 (tf_payload wire_frame) in
    let normalized := inner_envelope wire_frame body in
    match pr_open P normalized sequence tag body with
    | None => None
    | Some payload => Some (mkCommand normalized sequence payload)
    end.

(** A command as a channel hands it over. *)
Definition valid_command (c : AuthenticatedCommand) : Prop :=
  wf_envelope (cmd_envelope c) /\ ce_version (cmd_envelope c) = kVersion /\
  ce_payload_bytes (cmd_envelope c) = len (cmd_payload c) /\ u64 (cmd_sequence c) /\
  refuses_command (cmd_envelope c) (cmd_payload c) = false.

(** The frame of a valid command. *)
Definition sealed_frame (P : Protection) (c : AuthenticatedCommand) : option TcpFrame :=
  match pr_seal P (cmd_envelope c) (cmd_sequence c) (cmd_payload c) with
  | None => None
  | Some (tag, body) =>
      let outer := cmd_envelope c in
      Some (mkTcpFrame {| outer with ce_payload_bytes := 24 + len body |}
              (write_le 8 (cmd_sequence c) ++ tag ++ body))
  end.

Lemma normalize_id e payload :
  ce_version e = kVersion -> ce_payload_bytes e = len payload -> u32 (len payload) ->
  normalize e payload = e.
Proof.
  intros Hv Hp Hl. destruct e as [v t n r]; cbn in *. subst. unfold normalize; cbn.
  f_equal. unfold wrap32. apply Z.mod_small. ulia.
Qed.

Lemma refuses_command_false e payload :
  refuses_command e payload = false ->
  is_handshake_command (ce_type e) = false /\ len payload <= 65512 /\ u32 (len payload).
Proof.
  unfold refuses_command, kMaxCommandPayload, kAuthenticatedOverhead. intros H. bool_to_prop.
  pose proof (len_nonneg payload). split; [done|]. split; [lia|ulia].
Qed.

Section Protections.
Context (P : Protection) {PL : ProtectionLaws P}.

Lemma sealed_frame_wf c f :
  valid_command c -> sealed_frame P c = Some f -> wf_frame f.
Proof using Type*.
  intros ((Hw1 & Hw2 & Hw3 & Hw4) & Hv & Hp & Hq & Hr) Hs. unfold sealed_frame in Hs.
  apply refuses_command_false in Hr as (_ & Hl & _).
  destruct (pr_seal P _ _ _) as [[tag body]|] eqn:E; [|done]. apply pr_sizes in E as [Ht Hb].
  injection Hs as <-. pose proof (len_nonneg (cmd_payload c)).
  unfold wf_frame, wf_envelope, kMaxCommandPayload; cbn.
  rewrite !len_app, len_write_le, (len_length tag _ Ht). unfold len in *. rewrite Hb.
  split_and!; try done; try lia; ulia.
Qed.

Lemma protected_encode_frame c :
  valid_command c ->
  protected_encode P c =
  match sealed_frame P c with None => [] | Some f => encode_frame f end.
Proof using Type*.
  intros Hc. pose proof Hc as (_ & Hv & Hp & _ & Hr). unfold protected_encode, sealed_frame.
  rewrite Hr. apply refuses_command_false in Hr as (_ & Hl & Hu).
  rewrite normalize_id by done. destruct (pr_seal P _ _ _) as [[tag body]|] eqn:E; [|done].
  apply pr_sizes in E as [Ht Hb]. unfold wrap_command, encode_frame; cbn [tf_envelope tf_payload].
  f_equal. f_equal. rewrite !len_app, len_write_le, (len_length tag _ Ht).
  unfold wrap32. rewrite Z.mod_small; [lia|]. unfold len in *. lia.
Qed.

(** What opens is a valid command's sealed frame. *)
Lemma protected_decode_inv f c :
  wf_frame f -> protected_decode P f = Some c -> valid_command c /\ sealed_frame P c = Some f.
Proof using Type*.
  intros Hf. pose proof Hf as ((Hw1 & Hw2 & Hw3 & Hw4) & Hv & Hp & Hmax).
  unfold protected_decode, sealed_frame, truncated_wrapper, kAuthenticatedOverhead,
    kMaxCommandPayload in *. rewrite Hp, Z.eqb_refl.
  destruct f as [outer pl]; cbn [tf_envelope tf_payload] in *.
  destruct (_ || _) eqn:Eg; [done|]. bool_to_prop. set (body := drop 24 pl).
  assert (Hlen : length (take 16 (drop 8 pl)) = 16%nat).
  { unfold len in *. rewrite length_take, length_drop. lia. }
  assert (Hbody : len body = len pl - 24).
  { unfold body, len in *. rewrite length_drop. lia. }
  assert (Hpl : pl = write_le 8 (le_value 0 (take 8 pl)) ++ take 16 (drop 8 pl) ++ body).
  { assert (length (take 8 pl) = 8%nat) as E8 by (rewrite length_take; unfold len in *; lia).
    rewrite <- E8 at 1. rewrite write_le_value. unfold body.
    change 24%nat with (8 + 16)%nat. rewrite <- drop_drop, take_drop. by rewrite take_drop. }
  destruct (pr_open P _ _ _ _) as [payload|] eqn:Eo; [|done]. intros [= <-].
  apply pr_exact in Eo; [|done]. pose proof (pr_sizes _ _ _ _ _ Eo) as [_ Hbl].
  unfold valid_command; cbn [cmd_envelope cmd_sequence cmd_payload].
  assert (Hwrap : wrap32 (len body) = len payload).
  { unfold wrap32. rewrite Z.mod_small by (pose proof (len_nonneg pl); lia).
    unfold len. by rewrite Hbl. }
  assert (Hq : u64 (le_value 0 (take 8 pl))).
  { pose proof (le_value_range (take 8 pl)) as Hr. rewrite length_take in Hr.
    replace (8 `min` length pl)%nat with 8%nat in Hr by (unfold len in *; lia). exact Hr. }
  split; [split_and!|].
  + unfold inner_envelope, wf_envelope; cbn. split_and!; try done. rewrite Hwrap.
    unfold len in *. ulia.
  + done.
  + done.
  + done.
  + unfold refuses_command, inner_envelope, kMaxCommandPayload, kAuthenticatedOverhead; cbn.
    apply orb_false_iff. split; [done|]. unfold len in *. lia.
  + rewrite Eo. do 2 f_equal; [|by symmetry].
    destruct outer; cbn in *. f_equal. lia.
Qed.

(** A valid command's sealed frame opens to it. *)
Lemma protected_decode_sealed f c :
  wf_frame f -> valid_command c -> sealed_frame P c = Some f -> protected_decode P f = Some c.
Proof using Type*.
  intros Hf. pose proof Hf as ((Hw1 & Hw2 & Hw3 & Hw4) & Hv & Hp & Hmax).
  unfold protected_decode, sealed_frame, truncated_wrapper, kAuthenticatedOverhead,
    kMaxCommandPayload in *. rewrite Hp, Z.eqb_refl.
  destruct f as [outer pl]; cbn [tf_envelope tf_payload] in *.
  intros ((Hc1 & Hc2 & Hc3 & Hc4) & Hcv & Hcp & Hcq & Hcr) Hs.
  destruct (pr_seal P _ _ _) as [[tag body]|] eqn:Es; [|done].
  pose proof (pr_sizes _ _ _ _ _ Es) as [Htl Hbl]. injection Hs as <- <-.
  apply refuses_command_false in Hcr as (Hh & Hl & Hu). cbn [ce_type].
  rewrite Hh. pose proof (len_nonneg body).
  assert (Hn : len (write_le 8 (cmd_sequence c) ++ tag ++ body) = 24 + len body)
    by (rewrite !len_app, len_write_le, (len_length tag _ Htl); lia).
  rewrite Hn. destruct (Z.ltb_spec (24 + len body) 24); [lia|]. cbn [orb negb].
  assert (E8 : take 8 (write_le 8 (cmd_sequence c) ++ tag ++ body) = write_le 8 (cmd_sequence c))
    by (by rewrite take_app_length' by (by rewrite length_write_le)).
  assert (D8 : drop 8 (write_le 8 (cmd_sequence c) ++ tag ++ body) = tag ++ body)
    by (by rewrite drop_app_length' by (by rewrite length_write_le)).
  assert (D24 : drop 24 (write_le 8 (cmd_sequence c) ++ tag ++ body) = body).
  { change 24%nat with (8 + 16)%nat. rewrite <- drop_drop, D8. by apply drop_app_length'. }
  rewrite E8, D8, D24, take_app_length', le_value_write_id by done.
  assert (Hinner : inner_envelope (mkTcpFrame
    (let outer := cmd_envelope c in {| outer with ce_payload_bytes := 24 + len body |})
    (write_le 8 (cmd_sequence c) ++ tag ++ body)) body = cmd_envelope c).
  { unfold inner_envelope. cbn. destruct (cmd_envelope c); cbn in *. f_equal.
    rewrite Hcp. unfold wrap32, len in *. rewrite Hbl. apply Z.mod_small. lia. }
  cbv zeta in Hinner. rewrite Hinner, (proj2 (pr_exact _ _ _ _ _ Htl) Es). by destruct c.
Qed.

(** A frame opens to a command exactly when it is the sealed frame of it. *)
Lemma protected_decode_iff f c :
  wf_frame f -> protected_decode P f = Some c <-> valid_command c /\ sealed_frame P c = Some f.
Proof using Type*.
  intros Hf. split; [by apply protected_decode_inv|]. intros []. by apply protected_decode_sealed.
Qed.
End Protections.

(** ** The two protections *)

(** A SHA-256 digest has 32 bytes. *)
Definition digest_sized (bcrypt_hmac : bytes -> bytes -> option bytes) : Prop :=
  forall key message digest, bcrypt_hmac key message = Some digest -> length digest = 32%nat.

(** Documented of AES-GCM: the tag has 16 bytes, the ciphertext the size of the
    plaintext, and decryption gives a plaintext exactly for the ciphertext and
    tag its encryption gives. *)
Class AesGcmLaws `{AesGcm} := {
  gcm_sizes key nonce aad plaintext ciphertext tag :
    gcm_encrypt key nonce aad plaintext = Some (ciphertext, tag) ->
    length tag = 16%nat /\ length ciphertext = length plaintext;
  gcm_exact key nonce aad plaintext ciphertext tag :
    length tag = 16%nat ->
    gcm_decrypt key nonce aad ciphertext tag = Some plaintext <->
    gcm_encrypt key nonce aad plaintext = Some (ciphertext, tag)
}.

Section Instances.
Context (bcrypt_hmac : bytes -> bytes -> option bytes) {GCM : AesGcm}.

Definition hmac_protection (session_key : bytes) : Protection := {|
  pr_seal e q payload :=
    match compute_control_auth_tag bcrypt_hmac session_key e q payload with
    | None => None
    | Some tag => Some (tag, payload)
    end;
  pr_open e q tag body :=
    if verify_control_auth_tag bcrypt_hmac session_key e q body tag then Some body else None
|}.

Definition gcm_protection (key iv_base : bytes) : Protection := {|
  pr_seal e q payload :=
    match encrypt_aead_gcm key (construct_aead_nonce iv_base q) (make_aead_aad e q) payload with
    | Err _ => None
    | Ok (ciphertext, tag) => Some (tag, ciphertext)
    end;
  pr_open e q tag body :=
    result_value (decrypt_aead_gcm key (construct_aead_nonce iv_base q) (make_aead_aad e q) body tag)
|}.

Lemma encode_is_protected session_key e q payload :
  encode_authenticated_command bcrypt_hmac session_key e q payload =
  protected_encode (hmac_protection session_key) (mkCommand e q payload).
Proof.
  unfold encode_authenticated_command, protected_encode; cbn.
  by destruct (compute_control_auth_tag _ _ _ _ _).
Qed.

Lemma encode_aead_is_protected key iv e q payload :
  encode_authenticated_command_aead key iv e q payload =
  protected_encode (gcm_protection key iv) (mkCommand e q payload).
Proof.
  unfold encode_authenticated_command_aead, protected_encode; cbn.
  by destruct (encrypt_aead_gcm _ _ _ _) as [[]|].
Qed.

Lemma decode_is_protected session_key f :
  result_value (decode_authenticated_command bcrypt_hmac session_key f) =
  protected_decode (hmac_protection session_key) f.
Proof.
  unfold decode_authenticated_command, protected_decode; cbn.
  destruct (truncated_wrapper f); [done|]. by destruct (verify_control_auth_tag _ _ _ _ _ _).
Qed.

Lemma decode_aead_is_protected key iv f :
  result_value (decode_authenticated_command_aead key iv f) =
  protected_decode (gcm_protection key iv) f.
Proof.
  unfold decode_authenticated_command_aead, protected_decode; cbn.
  destruct (truncated_wrapper f); [done|]. by destruct (decrypt_aead_gcm _ _ _ _ _).
Qed.

#[export] Instance hmac_protection_laws session_key :
  digest_sized bcrypt_hmac -> ProtectionLaws (hmac_protection session_key).
Proof.
  intros Hd. assert (Hsize : forall e q payload tag,
    compute_control_auth_tag bcrypt_hmac session_key e q payload = Some tag -> length tag = 16%nat).
  { intros e q payload tag. unfold compute_control_auth_tag, hmac_sha256.
    destruct (len session_key <? _); [done|]. destruct (_ || _); [done|].
    destruct (bcrypt_hmac session_key _) as [digest|] eqn:E; [|done]. intros [= <-].
    apply Hd in E. rewrite length_take. lia. }
  split; cbn; intros e q.
  - intros tag body payload Ht. unfold verify_control_auth_tag, kControlAuthTagBytes.
    rewrite (len_length _ _ Ht). cbn [negb Z.eqb].
    destruct (compute_control_auth_tag bcrypt_hmac session_key e q body) as [expected|] eqn:E.
    + destruct (constant_time_equal expected tag) eqn:Ec.
      * apply constant_time_equal_spec in Ec as ->. split; [intros [= <-]; by rewrite E|].
        destruct (compute_control_auth_tag _ _ _ _ payload); [|done]. by intros [= _ ->].
      * split; [done|]. destruct (compute_control_auth_tag _ _ _ _ payload) eqn:E'; [|done].
        intros [= -> ->]. rewrite E in E'. injection E' as ->.
        by rewrite (proj2 (constant_time_equal_spec tag tag)) in Ec.
    + split; [done|]. destruct (compute_control_auth_tag _ _ _ _ payload) eqn:E'; [|done].
      intros [= -> ->]. congruence.
  - intros payload tag body. destruct (compute_control_auth_tag _ _ _ _ payload) eqn:E; [|done].
    intros [= <- <-]. split; [by eapply Hsize|done].
Qed.

#[export] Instance gcm_protection_laws `{!AesGcmLaws} key iv : ProtectionLaws (gcm_protection key iv).
Proof.
  split; cbn; intros e q; unfold encrypt_aead_gcm, decrypt_aead_gcm;
    destruct (negb (len key =? kAeadKeyBytes)).
  - done.
  - intros tag body payload Ht.
    pose proof (gcm_exact key (construct_aead_nonce iv q) (make_aead_aad e q) payload body tag Ht) as HX.
    destruct (gcm_decrypt _ _ _ _ _) as [p|], (gcm_encrypt _ _ _ payload) as [[c t]|]; cbn;
      naive_solver.
  - done.
  - intros payload tag body. destruct (gcm_encrypt _ _ _ _) as [[c t]|] eqn:E; [|done].
    intros [= <- <-]. by apply gcm_sizes in E.
Qed.
End Instances.

(** ** Sockets *)

(** [stream s] is what the connection still has to deliver, in order; [sent s]
    what was sent on it.  [recv] gives a beginning of the stream. *)
Class SocketLaws (S : Type) `{Socket S} (stream sent : S -> bytes) := {
  law_receive n s :
    let '(r, s') := sock_receive n s in
    match r with
    | rx_bytes data => (length data <= n)%nat /\ stream s = data ++ stream s'
    | _ => stream s' = stream s
    end /\ sent s' = sent s /\ sock_is_open s' = sock_is_open s;
  law_send wire s :
    let '(r, s') := sock_send_all wire s in
    (r = Ok tt -> sent s' = sent s ++ wire) /\ stream s' = stream s /\
    sock_is_open s' = sock_is_open s;
  law_send_by wire s :
    let '(r, s') := sock_send_all_by wire s in
    (r = Ok tt -> sent s' = sent s ++ wire) /\ stream s' = stream s /\
    sock_is_open s' = sock_is_open s
}.

(** A connection that stays up: what is in the stream arrives, in pieces of the
    transport's choosing, and every send is taken. *)
Class SocketWorks (S : Type) `{Socket S} (stream : S -> bytes) := {
  works_receive n s :
    (0 < n)%nat -> sock_is_open s = true -> stream s <> [] ->
    exists b data s', sock_receive n s = (rx_bytes (b :: data), s');
  works_send wire s : sock_is_open s = true -> (sock_send_all wire s).1 = Ok tt;
  works_send_by wire s : sock_is_open s = true -> (sock_send_all_by wire s).1 = Ok tt
}.

Section Streams.
Context {S : Type} `{SL : SocketLaws S stream sent}.

Lemma receive_exact_spec fuel want s :
  let '(r, s') := receive_exact fuel want s in
  match r with
  | Ok data => length data = want /\ stream s = data ++ stream s'
  | Err _ => exists gone, stream s = gone ++ stream s'
  end /\ sent s' = sent s /\ sock_is_open s' = sock_is_open s.
Proof using Type*.
  assert (Hnil : forall s s', stream s' = stream s -> exists gone, stream s = gone ++ stream s')
    by (intros s0 s' E; by exists []).
  revert want s. induction fuel as [|fuel IH]; intros want s; destruct want as [|want];
    try (split; [|done]; (split; done) || by apply Hnil).
  cbn [receive_exact]. pose proof (law_receive (Datatypes.S want) s) as HL.
  destruct (sock_receive (Datatypes.S want) s) as [[[|b data]| |e] s1].
  1: { destruct HL as [[_ HL] Hr]. split; [by exists []|exact Hr]. }
  2, 3: destruct HL as [HL Hr]; split; [by apply Hnil|exact Hr].
  destruct HL as ((Hl & Hs) & Hsent & Hopen).
  specialize (IH (Datatypes.S want - length (b :: data))%nat s1).
  destruct (receive_exact fuel _ s1) as [[more|e] s2]; destruct IH as (HI & Hsent' & Hopen');
    (split; [|split; congruence]).
  - destruct HI as [Hlen Hs']. split; [cbn in *; rewrite length_app; lia|].
    rewrite Hs, Hs'. cbn. by rewrite app_assoc.
  - destruct HI as [gone Hs']. exists ((b :: data) ++ gone). by rewrite Hs, Hs', app_assoc.
Qed.

Lemma receive_exact_delivers `{!SocketWorks S stream} fuel want s :
  (want <= fuel)%nat -> sock_is_open s = true -> (want <= length (stream s))%nat ->
  exists s', receive_exact fuel want s = (Ok (take want (stream s)), s') /\
    stream s' = drop want (stream s).
Proof using Type*.
  revert want s. induction fuel as [|fuel IH]; intros want s Hf Ho Hw;
    destruct want as [|want]; try lia; try (exists s; cbn; by rewrite drop_0, take_0).
  cbn [receive_exact].
  destruct (works_receive (Datatypes.S want) s) as (b & data & s1 & E); [lia|done| |].
  { intros E. rewrite E in Hw. cbn in Hw. lia. }
  pose proof (law_receive (Datatypes.S want) s) as HL. rewrite E in HL |- *.
  destruct HL as ((Hl & Hs) & _ & Ho1). rewrite Hs, length_app in Hw.
  destruct (IH (Datatypes.S want - length (b :: data))%nat s1) as (s2 & E2 & Hs2);
    [cbn in *; lia|congruence|lia|].
  rewrite E2. exists s2. rewrite Hs2, Hs.
  rewrite take_app_ge, drop_app_ge by lia. done.
Qed.

(** The two reads of a frame are one step of the frame parser. *)
Lemma plain_frame_parse prefix body :
  length prefix = 4%nat -> length body = Z.to_nat (le_value 0 prefix) ->
  next_frame (prefix ++ body) =
  (let body_bytes := le_value 0 prefix in
   if (body_bytes <? kCommandHeaderBytes) ||
      (body_bytes >? kCommandHeaderBytes + kMaxCommandPayload) then Violation
   else
     match decode_command_header body with
     | None => Violation
     | Some envelope =>
         if negb (ce_payload_bytes envelope =? len body - kCommandHeaderBytes) then Violation
         else Emit (mkTcpFrame envelope (drop (Z.to_nat kCommandHeaderBytes) body)) []
     end).
Proof using Type.
  intros Hp Hb. pose proof (le_value_range prefix) as Hr. rewrite Hp in Hr.
  assert (Hlen : len body = le_value 0 prefix) by (unfold len; ulia).
  unfold next_frame. rewrite len_app, (len_length _ _ Hp), Hlen.
  destruct (Z.ltb_spec (Z.of_nat 4 + le_value 0 prefix) 4); [ulia|].
  assert (read_le 4 (prefix ++ body) = Some (le_value 0 prefix, body)) as ->.
  { rewrite <- (write_le_value prefix) at 1. rewrite Hp. by apply read_le_write. }
  cbv zeta. destruct (_ || _); [done|].
  destruct (Z.ltb_spec (Z.of_nat 4 + le_value 0 prefix) (4 + le_value 0 prefix)); [lia|].
  rewrite take_ge by (unfold len in *; lia).
  destruct (decode_command_header body) as [envelope|]; [|done].
  destruct (negb _); [done|]. f_equal. apply drop_ge.
  rewrite length_app, Hp. unfold len in *. ulia.
Qed.

Lemma receive_plain_frame_spec s :
  let '(r, s') := receive_plain_frame s in
  match r with
  | Ok f => wf_frame f /\ stream s = encode_frame f ++ stream s'
  | Err _ => exists gone, stream s = gone ++ stream s'
  end /\ sent s' = sent s /\ sock_is_open s' = sock_is_open s.
Proof using Type*.
  unfold receive_plain_frame, receive_bytes. pose proof (receive_exact_spec 4 4 s) as H1.
  destruct (receive_exact 4 4 s) as [[prefix|e] s1]; [|done].
  destruct H1 as ((Hp & Hs) & Hrest). cbv zeta.
  destruct (_ || _) eqn:Eg; [split; [by exists prefix|done]|].
  pose proof (receive_exact_spec (Z.to_nat (le_value 0 prefix)) (Z.to_nat (le_value 0 prefix)) s1) as H2.
  destruct (receive_exact _ _ s1) as [[body|e] s2]; destruct H2 as (HB & Hsent & Hopen);
    (assert (Hkeep : sent s2 = sent s /\ sock_is_open s2 = sock_is_open s)
      by (destruct Hrest; split; congruence)).
  2: { split; [|done]. destruct HB as [gone HB]. exists (prefix ++ gone).
       by rewrite Hs, HB, app_assoc. }
  destruct HB as [Hb Hs2].
  assert (Hgone : stream s = (prefix ++ body) ++ stream s2) by (by rewrite Hs, Hs2, app_assoc).
  pose proof (plain_frame_parse prefix body Hp Hb) as HP. cbv zeta in HP. rewrite Eg in HP.
  destruct (decode_command_header body) as [envelope|]; [|split; [by eexists|done]].
  destruct (negb _); [split; [by eexists|done]|]. split; [|done].
  apply next_frame_emit_inv in HP as [Hf E]. split; [done|].
  rewrite Hgone, E. by rewrite app_nil_r.
Qed.

Lemma receive_plain_frame_delivers `{!SocketWorks S stream} s f rest :
  wf_frame f -> sock_is_open s = true -> stream s = encode_frame f ++ rest ->
  exists s', receive_plain_frame s = (Ok f, s') /\ stream s' = rest.
Proof using Type*.
  intros Hf Ho Hs. pose proof (encode_frame_eq f Hf) as He. pose proof (len_encode_frame f Hf) as Hlen.
  pose proof Hf as (Hw & Hv & Hp & Hmax). unfold kMaxCommandPayload in Hmax.
  set (n := kCommandHeaderBytes + len (tf_payload f)) in *.
  set (body := encode_command_header (tf_envelope f) ++ tf_payload f) in *.
  pose proof (len_nonneg (tf_payload f)).
  assert (Hn : u32 n) by (unfold n, kCommandHeaderBytes; ulia).
  assert (Hbody : length body = Z.to_nat n).
  { apply length_len. unfold body, n. by rewrite len_app, len_encode_command_header. }
  unfold receive_plain_frame, receive_bytes.
  destruct (receive_exact_delivers 4 4 s) as (s1 & E1 & Hs1); [lia|done| |].
  { rewrite Hs, length_app. unfold len in Hlen. lia. }
  pose proof (receive_exact_spec 4 4 s) as HE. rewrite E1 in HE. destruct HE as (_ & _ & Ho1).
  rewrite E1. rewrite Hs, He, <- app_assoc, take_app_length' by (by rewrite length_write_le).
  rewrite Hs, He, <- app_assoc, drop_app_length' in Hs1 by (by rewrite length_write_le).
  cbv zeta. rewrite le_value_write_id by done.
  pose proof (next_frame_encode f [] Hf) as HN. rewrite app_nil_r, He in HN.
  rewrite plain_frame_parse in HN; [|by rewrite length_write_le|by rewrite le_value_write_id].
  rewrite le_value_write_id in HN by done. cbv zeta in HN.
  destruct (_ || _); [done|].
  destruct (receive_exact_delivers (Z.to_nat n) (Z.to_nat n) s1) as (s2 & E2 & Hs2); [lia|congruence| |].
  { rewrite Hs1, length_app. lia. }
  rewrite E2. rewrite Hs1, take_app_length' by done. rewrite Hs1, drop_app_length' in Hs2 by done.
  destruct (decode_command_header body) as [envelope|]; [|done]. destruct (negb _); [done|].
  injection HN as ->. by exists s2.
Qed.
End Streams.

(** ** The channel *)

Section Channels.
Context (bcrypt_hmac : bytes -> bytes -> option bytes) {GCM : AesGcm} `{!AesGcmLaws}.
Context (Hdigest : digest_sized bcrypt_hmac).
Context {S : Type} `{SL : SocketLaws S stream sent}.
Implicit Types ch : Channel S.

Definition send_protection ch : Protection :=
  if ch_aead_enabled ch then gcm_protection (ch_send_key ch) (ch_send_iv_base ch)
  else hmac_protection bcrypt_hmac (ch_session_key ch).

Definition receive_protection ch : Protection :=
  if ch_aead_enabled ch then gcm_protection (ch_receive_key ch) (ch_receive_iv_base ch)
  else hmac_protection bcrypt_hmac (ch_session_key ch).

#[local] Instance send_protection_laws ch : ProtectionLaws (send_protection ch).
Proof using All. unfold send_protection. destruct (ch_aead_enabled ch);
  [by apply gcm_protection_laws|by apply hmac_protection_laws].
Qed.

#[local] Instance receive_protection_laws ch : ProtectionLaws (receive_protection ch).
Proof using All. unfold receive_protection. destruct (ch_aead_enabled ch);
  [by apply gcm_protection_laws|by apply hmac_protection_laws].
Qed.

(** *** Receiving *)

(** [n] calls of [receive]; the commands of those that gave one. *)
Fixpoint receive_many (n : nat) ch : list AuthenticatedCommand * Channel S :=
  match n with
  | O => ([], ch)
  | Datatypes.S n' =>
      let '(r, ch1) := receive bcrypt_hmac ch in
      let '(later, ch2) := receive_many n' ch1 in
      (match r with Ok c => c :: later | Err _ => later end, ch2)
  end.

(** The guard after [k] commands. *)
Definition guard_at (g : ControlSequenceGuard) (k : Z) : Prop :=
  (g = mkGuard k false /\ k <= u64_max) \/ (exhausted_ g = true /\ k = u64_max + 1).

Lemma guard_accept_at g k q :
  guard_at g k -> 0 <= k ->
  let '(ok, g') := guard_accept g q in
  if ok then q = k /\ guard_at g' (k + 1) else g' = g.
Proof using Type.
  intros [[-> Hk]|[Hx ->]] Hk0; unfold guard_accept.
  - cbn. destruct (Z.eqb_spec q k) as [->|]; [cbn|done]. unfold guard_at.
    destruct (Z.eqb_spec k u64_max) as [->|]; [split; [done|by right]|].
    split; [done|left]. split; [|lia]. f_equal. unfold wrap64. apply Z.mod_small.
    unfold u64_max in *. lia.
  - by rewrite Hx.
Qed.

(** One call of [receive] on an open channel. *)
Lemma receive_spec ch k :
  sock_is_open (ch_socket ch) = true -> guard_at (ch_receive_sequence ch) k -> 0 <= k ->
  let '(r, ch') := receive bcrypt_hmac ch in
  receive_protection ch' = receive_protection ch /\ sock_is_open (ch_socket ch') = true /\
  match r with
  | Ok c => cmd_sequence c = k /\ guard_at (ch_receive_sequence ch') (k + 1) /\
      exists f, wf_frame f /\
        stream (ch_socket ch) = encode_frame f ++ stream (ch_socket ch') /\
        protected_decode (receive_protection ch) f = Some c
  | Err _ => ch_receive_sequence ch' = ch_receive_sequence ch /\
      exists gone, stream (ch_socket ch) = gone ++ stream (ch_socket ch')
  end.
Proof using All.
  intros Ho Hg Hk. unfold receive. rewrite Ho. cbn [negb].
  pose proof (receive_plain_frame_spec (ch_socket ch)) as HF.
  destruct (receive_plain_frame (ch_socket ch)) as [[f|e] s']; destruct HF as (HF & _ & Hopen);
    [|cbn; rewrite Hopen; auto]. destruct HF as [Hf Hs].
  set (command := if ch_aead_enabled _ then _ else _).
  assert (Hc : result_value command = protected_decode (receive_protection ch) f).
  { unfold command, receive_protection. cbn. destruct (ch_aead_enabled ch);
      [apply decode_aead_is_protected|apply decode_is_protected]. }
  clearbody command. destruct command as [c|e]; cbn in Hc; [|cbn; rewrite Hopen; eauto].
  cbn [ch_receive_sequence]. pose proof (guard_accept_at _ k (cmd_sequence c) Hg Hk) as HG.
  destruct (guard_accept (ch_receive_sequence ch) (cmd_sequence c)) as [[] g'].
  - destruct HG as [-> Hg']. cbn. rewrite Hopen. split; [done|]. split; [done|]. split; [done|].
    split; [done|]. by exists f.
  - subst. cbn. rewrite Hopen. eauto.
Qed.

(** No frame of the stream opens to a command that is not in [log]. *)
Definition unforged (P : Protection) (log : list AuthenticatedCommand) (bs : bytes) : Prop :=
  forall pre f post c, bs = pre ++ encode_frame f ++ post -> wf_frame f ->
    protected_decode P f = Some c -> c ∈ log.

Lemma unforged_tail P log pre bs : unforged P log (pre ++ bs) -> unforged P log bs.
Proof using Type.
  intros Hu pre' f post c -> Hf Hc. apply (Hu (pre ++ pre') f post c); [|done..].
  by rewrite <- app_assoc.
Qed.

(** Whatever the stream holds, only the log is received, in order, from its
    beginning. *)
Lemma receive_many_prefix n ch log k :
  sock_is_open (ch_socket ch) = true -> guard_at (ch_receive_sequence ch) k -> 0 <= k ->
  map cmd_sequence log = seqZ 0 (len log) ->
  unforged (receive_protection ch) log (stream (ch_socket ch)) ->
  exists m, (receive_many n ch).1 = take m (drop (Z.to_nat k) log).
Proof using All.
  intros Ho Hg Hk Hlog. revert ch k Ho Hg Hk. induction n as [|n IH]; intros ch k Ho Hg Hk Hu.
  { by exists 0%nat. }
  cbn [receive_many]. pose proof (receive_spec ch k Ho Hg Hk) as HR.
  destruct (receive bcrypt_hmac ch) as [r ch1]. destruct HR as (Hp & Ho1 & HR).
  destruct r as [c|e].
  - destruct HR as (Hq & Hg1 & f & Hf & Hs & Hd).
    assert (Hin : c ∈ log) by (apply (Hu [] f (stream (ch_socket ch1))); [by rewrite Hs|done..]).
    assert (Hat : log !! Z.to_nat k = Some c).
    { apply list_elem_of_lookup in Hin as [i Hi].
      assert (map cmd_sequence log !! i = Some (cmd_sequence c)) as Hi'
        by (rewrite list_lookup_fmap, Hi; done).
      rewrite Hlog, Hq in Hi'. apply lookup_seqZ in Hi' as [-> ?].
      by replace (Z.to_nat (0 + Z.of_nat i)) with i by lia. }
    destruct (IH ch1 (k + 1)) as [m Hm]; [done|done|lia| |].
    { rewrite Hp. eapply unforged_tail. by rewrite <- Hs. }
    destruct (receive_many n ch1) as [later ch2]. cbn in Hm |- *. exists (Datatypes.S m).
    rewrite (drop_S _ _ _ Hat), Hm. cbn. by replace (Z.to_nat (k + 1)) with (Datatypes.S (Z.to_nat k)) by lia.
  - destruct HR as (Hsame & gone & Hs). destruct (IH ch1 k) as [m Hm]; [done|congruence|done| |].
    { rewrite Hp. eapply unforged_tail. by rewrite <- Hs. }
    destruct (receive_many n ch1) as [later ch2]. by exists m.
Qed.
(** An untouched stream of sealed commands is received in full. *)
Lemma receive_many_delivers `{!SocketWorks S stream} log ch k rest :
  sock_is_open (ch_socket ch) = true -> guard_at (ch_receive_sequence ch) k -> 0 <= k ->
  map cmd_sequence log = seqZ k (len log) ->
  Forall (fun c => valid_command c /\ is_Some (sealed_frame (receive_protection ch) c)) log ->
  stream (ch_socket ch) = concat (map (protected_encode (receive_protection ch)) log) ++ rest ->
  exists ch', receive_many (length log) ch = (log, ch') /\ stream (ch_socket ch') = rest.
Proof using All.
  revert ch k. induction log as [|c log IH]; intros ch k Ho Hg Hk Hq HF Hs; [by exists ch|].
  apply Forall_cons in HF as [[Hc [f Hsf]] HF]. cbn [map concat] in Hs, Hq.
  rewrite (protected_encode_frame _ c Hc), Hsf, <- app_assoc in Hs.
  pose proof (sealed_frame_wf _ _ _ Hc Hsf) as Hf.
  rewrite len_cons, seqZ_cons in Hq by (pose proof (len_nonneg log); lia).
  injection Hq as Hq Hq'. replace (Z.pred (len log + 1)) with (len log) in Hq' by lia.
  destruct (receive_plain_frame_delivers (ch_socket ch) f _ Hf Ho Hs) as (s' & Er & Hs').
  cbn [receive_many length]. pose proof (receive_spec ch k Ho Hg Hk) as HR.
  assert (Hr : exists ch1, receive bcrypt_hmac ch = (Ok c, ch1) /\ ch_socket ch1 = s').
  { unfold receive. rewrite Ho, Er. cbn [negb].
    set (command := if ch_aead_enabled _ then _ else _).
    assert (Hcmd : result_value command = Some c).
    { transitivity (protected_decode (receive_protection ch) f).
      - unfold command, receive_protection. cbn. destruct (ch_aead_enabled ch);
          [apply decode_aead_is_protected|apply decode_is_protected].
      - exact (protected_decode_sealed _ _ _ Hf Hc Hsf). }
    destruct command as [c'|e]; [|done]. injection Hcmd as ->. cbn [ch_receive_sequence].
    pose proof (guard_accept_at _ k (cmd_sequence c) Hg Hk) as HG.
    destruct (guard_accept (ch_receive_sequence ch) (cmd_sequence c)) as [[] g'] eqn:Eg;
      [by eexists|]. exfalso. destruct Hc as (_ & _ & _ & Hu & _).
    destruct Hg as [[E _]|[_ Hmax]]; [|rewrite Hq, Hmax, urange8 in Hu; unfold u64_max in Hu; lia].
    rewrite E in Eg.
    unfold guard_accept in Eg. cbn in Eg. rewrite Hq, Z.eqb_refl in Eg. cbn in Eg.
    by destruct (k =? u64_max). }
  destruct Hr as (ch1 & Hr & Hsock). rewrite Hr in HR |- *.
  destruct HR as (Hp & Ho1 & _ & Hg1 & _).
  destruct (IH ch1 (k + 1)) as (ch2 & Hm & Hrest); [done|done|lia|exact Hq'|by rewrite Hp| |].
  { by rewrite Hsock, Hs', Hp. }
  rewrite Hm. by exists ch2.
Qed.

(** *** Sending *)

Record Message := mkMessage {
  m_type : Z;
  m_request_id : Z;
  m_payload : bytes;
  m_deadline : bool
}.

Definition wf_message (m : Message) : Prop := u16 (m_type m) /\ u64 (m_request_id m).

Definition send ch (m : Message) : result unit * Channel S :=
  send_impl bcrypt_hmac ch (m_type m) (m_request_id m) (m_payload m) (m_deadline m).

Definition command_of ch (m : Message) : AuthenticatedCommand :=
  mkCommand (plain_envelope (m_type m) (m_request_id m) (m_payload m)) (ch_send_sequence ch)
    (m_payload m).

(** The commands of the sends that succeeded. *)
Fixpoint run_sends ch (msgs : list Message) : list AuthenticatedCommand * Channel S :=
  match msgs with
  | [] => ([], ch)
  | m :: rest =>
      let '(r, ch1) := send ch m in
      let '(log, ch2) := run_sends ch1 rest in
      (match r with Ok _ => command_of ch m :: log | Err _ => log end, ch2)
  end.

Lemma outgoing_is_protected ch m :
  outgoing_wire bcrypt_hmac ch (m_type m) (m_request_id m) (m_payload m) =
  protected_encode (send_protection ch) (command_of ch m).
Proof using Type.
  unfold outgoing_wire, send_protection. destruct (ch_aead_enabled ch);
    [apply encode_aead_is_protected|apply encode_is_protected].
Qed.

(** What is sent is the sealed frame of a valid command. *)
Lemma outgoing_valid ch m :
  wf_message m -> u64 (ch_send_sequence ch) ->
  protected_encode (send_protection ch) (command_of ch m) <> [] ->
  valid_command (command_of ch m) /\ is_Some (sealed_frame (send_protection ch) (command_of ch m)).
Proof using All.
  intros [Ht Hr] Hq Hne.
  assert (Hc : valid_command (command_of ch m)).
  { assert (Href : refuses_command (cmd_envelope (command_of ch m)) (m_payload m) = false).
    { unfold protected_encode in Hne. cbn [cmd_payload command_of] in Hne.
      destruct (refuses_command _ (m_payload m)); done. }
    pose proof (refuses_command_false _ _ Href) as (_ & Hl & Hu).
    assert (wrap32 (len (m_payload m)) = len (m_payload m)) as Hw
      by (unfold wrap32; apply Z.mod_small; ulia).
    unfold valid_command, wf_envelope; cbn. rewrite Hw. split_and!; done. }
  split; [done|]. rewrite (protected_encode_frame _ _ Hc) in Hne.
  destruct (sealed_frame _ _); [by eexists|done].
Qed.

Lemma send_spec `{!SocketWorks S stream} ch m :
  wf_message m -> sock_is_open (ch_socket ch) = true -> u64 (ch_send_sequence ch) ->
  let '(r, ch') := send ch m in
  match r with
  | Err _ => ch' = ch
  | Ok _ => ch_send_exhausted ch = false /\
      valid_command (command_of ch m) /\
      is_Some (sealed_frame (send_protection ch) (command_of ch m)) /\
      sent (ch_socket ch') =
        sent (ch_socket ch) ++ protected_encode (send_protection ch) (command_of ch m) /\
      send_protection ch' = send_protection ch /\ sock_is_open (ch_socket ch') = true /\
      (ch_send_exhausted ch' = true /\ ch_send_sequence ch' = ch_send_sequence ch \/
       ch_send_exhausted ch' = false /\ ch_send_sequence ch' = ch_send_sequence ch + 1 /\
       u64 (ch_send_sequence ch'))
  end.
Proof using All.
  intros Hm Ho Hq. unfold send, send_impl. rewrite Ho. cbn [negb orb].
  destruct (ch_send_exhausted ch) eqn:Ex; [done|].
  destruct (is_handshake_command (m_type m)); [done|]. cbn [orb].
  rewrite outgoing_is_protected. case_bool_decide as Hne; [done|].
  set (wire := protected_encode _ _) in *. destruct (outgoing_valid ch m Hm Hq Hne) as [Hc Hsf].
  assert (HS : exists s', (if m_deadline m then sock_send_all_by wire (ch_socket ch)
      else sock_send_all wire (ch_socket ch)) = (Ok tt, s') /\
    sent s' = sent (ch_socket ch) ++ wire /\ sock_is_open s' = true).
  { pose proof (law_send wire (ch_socket ch)) as H1. pose proof (works_send wire (ch_socket ch) Ho) as W1.
    pose proof (law_send_by wire (ch_socket ch)) as H2.
    pose proof (works_send_by wire (ch_socket ch) Ho) as W2.
    destruct (m_deadline m).
    - destruct (sock_send_all_by wire (ch_socket ch)) as [r s']. cbn in W2. subst r.
      exists s'. destruct H2 as (HA & _ & HC). split; [done|]. split; [by apply HA|congruence].
    - destruct (sock_send_all wire (ch_socket ch)) as [r s']. cbn in W1. subst r.
      exists s'. destruct H1 as (HA & _ & HC). split; [done|]. split; [by apply HA|congruence]. }
  destruct HS as (s' & -> & Hsent & Hopen).
  destruct (Z.eqb_spec (ch_send_sequence ch) u64_max) as [E|E]; cbn; split_and!; try done; auto.
  right. assert (wrap64 (ch_send_sequence ch + 1) = ch_send_sequence ch + 1) as ->
    by (unfold wrap64; apply Z.mod_small; unfold u64_max in *; ulia).
  split; [done|]. split; [done|]. unfold u64_max in *. ulia.
Qed.

Lemma run_sends_exhausted ch msgs :
  ch_send_exhausted ch = true -> run_sends ch msgs = ([], ch).
Proof using Type.
  intros Hx. induction msgs as [|m msgs IH]; [done|]. cbn [run_sends].
  assert (exists e, send ch m = (Err e, ch)) as [e ->].
  { unfold send, send_impl. rewrite Hx, orb_true_r. by eexists. }
  by rewrite IH.
Qed.

Lemma run_sends_spec `{!SocketWorks S stream} ch msgs :
  Forall wf_message msgs -> sock_is_open (ch_socket ch) = true -> u64 (ch_send_sequence ch) ->
  let '(log, ch') := run_sends ch msgs in
  map cmd_sequence log = seqZ (ch_send_sequence ch) (len log) /\
  Forall (fun c => valid_command c /\ is_Some (sealed_frame (send_protection ch) c)) log /\
  sent (ch_socket ch') =
    sent (ch_socket ch) ++ concat (map (protected_encode (send_protection ch)) log).
Proof using All.
  intros HF. revert ch. induction HF as [|m msgs Hm HF IH]; intros ch Ho Hq; cbn [run_sends].
  { cbn. rewrite app_nil_r. split; [done|]. by split. }
  pose proof (send_spec ch m Hm Ho Hq) as HS. destruct (send ch m) as [[u|e] ch1].
  2: { subst ch1. specialize (IH ch Ho Hq). by destruct (run_sends ch msgs). }
  destruct HS as (_ & Hc & Hsf & Hsent & Hp & Ho1 & Hnext).
  assert (HI : let '(log, ch') := run_sends ch1 msgs in
    map cmd_sequence log = seqZ (ch_send_sequence ch + 1) (len log) /\
    Forall (fun c => valid_command c /\ is_Some (sealed_frame (send_protection ch) c)) log /\
    sent (ch_socket ch') =
      sent (ch_socket ch1) ++ concat (map (protected_encode (send_protection ch)) log)).
  { destruct Hnext as [[Hx _]|(_ & Hn & Hu)].
    - rewrite run_sends_exhausted by done. cbn. rewrite app_nil_r. split; [done|]. by split.
    - specialize (IH ch1 Ho1 Hu). rewrite Hn, Hp in IH. exact IH. }
  destruct (run_sends ch1 msgs) as [log ch2]. destruct HI as (H1 & H2 & H3).
  cbn [map concat]. rewrite len_cons, seqZ_cons by (pose proof (len_nonneg log); lia).
  replace (Z.pred (len log + 1)) with (len log) by lia.
  split; [by rewrite H1|]. split; [by constructor|]. by rewrite H3, Hsent, <- app_assoc.
Qed.

(** *** Two ends of a session *)

(** Sessions that agree on the key and the mode, one of them the client's. *)
Definition paired (a b : AuthenticatedSession) : Prop :=
  as_session_key a = as_session_key b /\ as_aead_enabled a = as_aead_enabled b /\
  (as_role a =? role_client) = negb (as_role b =? role_client).

Lemma session_channel_fields s sess :
  let ch : Channel S := session_channel bcrypt_hmac s sess in
  ch_socket ch = s /\ ch_receive_sequence ch = guard_reset 0 /\ ch_send_sequence ch = 0 /\
  ch_send_exhausted ch = false.
Proof using Type.
  unfold session_channel. destruct (as_aead_enabled sess); [|done].
  destruct (derive_aead_session_keys _ _); [|done]. by destruct (as_role sess =? role_client).
Qed.

Lemma paired_protection sa sb a b :
  paired a b ->
  receive_protection (session_channel bcrypt_hmac sb b) =
  send_protection (session_channel bcrypt_hmac sa a).
Proof using Type.
  intros (Hk & Hm & Hr). unfold session_channel, receive_protection, send_protection.
  rewrite <- Hk, <- Hm. destruct (as_aead_enabled a); [|done].
  destruct (derive_aead_session_keys _ _); [|done]. rewrite Hr.
  by destruct (as_role b =? role_client).
Qed.

(** C19. A channel is a FIFO of commands.  When one end of a session has sent
    some messages, its log is numbered from zero and what it put on the wire is
    the sealed frames of the log; the other end, reading that stream through any
    segmentation, receives exactly the log in order and leaves what follows
    unread.  And whatever the stream holds instead, as long as no frame of it
    opens to a command that was not sent, what is received is a beginning of the
    log: nothing twice, nothing out of order, nothing skipped or altered. *)
Theorem channel_is_a_fifo `{!SocketWorks S stream} sa sb a b msgs n :
  paired a b -> sock_is_open sa = true -> sock_is_open sb = true -> Forall wf_message msgs ->
  let A := session_channel bcrypt_hmac sa a in
  let B := session_channel bcrypt_hmac sb b in
  let '(log, A') := run_sends A msgs in
  let wire := concat (map (protected_encode (send_protection A)) log) in
  map cmd_sequence log = seqZ 0 (len log) /\ Forall valid_command log /\
  sent (ch_socket A') = sent sa ++ wire /\
  (forall rest, stream sb = wire ++ rest ->
     exists B', receive_many (length log) B = (log, B') /\ stream (ch_socket B') = rest) /\
  (unforged (send_protection A) log (stream sb) ->
     exists m, (receive_many n B).1 = take m log).
Proof using All.
  intros Hpair Ha Hb HF A B.
  destruct (session_channel_fields sa a) as (HA1 & _ & HA3 & _). fold A in HA1, HA3.
  destruct (session_channel_fields sb b) as (HB1 & HB2 & _). fold B in HB1, HB2.
  pose proof (paired_protection sa sb a b Hpair) as HP. fold A B in HP.
  assert (Hg : guard_at (ch_receive_sequence B) 0) by (rewrite HB2; by left).
  pose proof (run_sends_spec A msgs HF) as HS. rewrite HA1, HA3 in HS.
  destruct (run_sends A msgs) as [log A']. destruct HS as (H1 & H2 & H3); [done|done|].
  split; [done|]. split; [by eapply Forall_impl; [exact H2|intros c []]|]. split; [done|]. split.
  - intros rest Hs. apply (receive_many_delivers log B 0 rest); rewrite ?HB1, ?HP; done.
  - intros Hu. apply (receive_many_prefix n B log 0); rewrite ?HB1, ?HP; done.
Qed.
End Channels.

(** ** Nonces *)

Lemma byte_xor_inj k a b :
  byte_of (Z.lxor (byte_val k) (byte_val a)) = byte_of (Z.lxor (byte_val k) (byte_val b)) -> a = b.
Proof.
  intros E. apply (f_equal byte_val) in E. rewrite !byte_val_of in E.
  assert (Hx : forall x, Z.lxor (byte_val k) (byte_val x) mod 256 = Z.lxor (byte_val k) (byte_val x)).
  { intros x. pose proof (byte_val_range k). pose proof (byte_val_range x). apply Z.mod_small.
    split; [apply Z.lxor_nonneg; lia|].
    destruct (decide (Z.lxor (byte_val k) (byte_val x) = 0)) as [->|Hne]; [lia|].
    assert (0 < Z.lxor (byte_val k) (byte_val x))
      by (assert (0 <= Z.lxor (byte_val k) (byte_val x)) by (apply Z.lxor_nonneg; lia); lia).
    change 256 with (2 ^ 8). apply Z.log2_lt_pow2; [done|].
    eapply Z.le_lt_trans; [apply Z.log2_lxor; lia|].
    apply Z.max_lub_lt; [destruct (decide (byte_val k = 0)) as [->|]|
      destruct (decide (byte_val x = 0)) as [->|]]; try done;
      apply Z.log2_lt_pow2; lia. }
  rewrite !Hx in E. apply (inj byte_val).
  apply (f_equal (Z.lxor (byte_val k))) in E.
  by rewrite <- !Z.lxor_assoc, !Z.lxor_nilpotent, !Z.lxor_0_l in E.
Qed.

Lemma xor_bytes_inj iv l r :
  length l = length iv -> length r = length iv -> xor_bytes iv l = xor_bytes iv r -> l = r.
Proof.
  unfold xor_bytes. revert l r. induction iv as [|k iv IH]; intros [|a l] [|b r] Hl Hr E; try done.
  cbn in E. injection E as E1 E2. f_equal; [by eapply byte_xor_inj|]. apply IH; [by injection Hl|by injection Hr|done].
Qed.

Lemma construct_aead_nonce_inj iv q q' :
  length iv = kAeadNonceBytes -> u64 q -> u64 q' ->
  construct_aead_nonce iv q = construct_aead_nonce iv q' -> q = q'.
Proof.
  intros Hiv Hq Hq' E. unfold construct_aead_nonce in E. apply app_inv_head in E.
  apply xor_bytes_inj in E; [by apply write_le_inj in E|..];
    rewrite length_write_le, length_drop, Hiv; done.
Qed.

Section Nonces.
Context (bcrypt_hmac : bytes -> bytes -> option bytes) {GCM : AesGcm} {S : Type} {SO : Socket S}.

(** The sequence numbers under which sends handed a protected command to the
    socket, whether or not the socket took it. *)
Fixpoint used_sequences (ch : Channel S) (msgs : list Message) : list Z :=
  match msgs with
  | [] => []
  | m :: rest =>
      let later := used_sequences (send bcrypt_hmac ch m).2 rest in
      if negb (sock_is_open (ch_socket ch)) || ch_send_exhausted ch ||
         is_handshake_command (m_type m) ||
         bool_decide (outgoing_wire bcrypt_hmac ch (m_type m) (m_request_id m) (m_payload m) = [])
      then later
      else ch_send_sequence ch :: later
  end.

Lemma used_sequences_exhausted ch msgs : ch_send_exhausted ch = true -> used_sequences ch msgs = [].
Proof using Type.
  intros Hx. induction msgs as [|m msgs IH]; [done|]. cbn [used_sequences].
  assert ((send bcrypt_hmac ch m).2 = ch) as ->.
  { unfold send, send_impl. by rewrite Hx, orb_true_r. }
  by rewrite IH, Hx, orb_true_r.
Qed.

Lemma used_sequences_fresh ch msgs :
  (forall wire s, (sock_send_all wire s).1 = Ok tt) -> u64 (ch_send_sequence ch) ->
  NoDup (used_sequences ch msgs) /\
  Forall (fun q => ch_send_sequence ch <= q /\ u64 q) (used_sequences ch msgs).
Proof using Type.
  intros Hord. revert ch. induction msgs as [|m msgs IH]; intros ch Hq; [split; constructor|].
  cbn [used_sequences]. unfold send, send_impl.
  destruct (negb _ || ch_send_exhausted ch || is_handshake_command (m_type m)); cbn [orb];
    [by apply IH|].
  destruct (bool_decide (outgoing_wire _ _ _ _ _ = [])); [by apply IH|].
  set (sending := if m_deadline m then _ else _).
  destruct sending as [[u|e] s'] eqn:Es.
  - cbn [snd]. destruct (Z.eqb_spec (ch_send_sequence ch) u64_max) as [E|E].
    + rewrite used_sequences_exhausted by done. split; [apply NoDup_singleton|].
      constructor; [split; [lia|done]|constructor].
    + assert (wrap64 (ch_send_sequence ch + 1) = ch_send_sequence ch + 1) as Hw
        by (unfold wrap64; apply Z.mod_small; unfold u64_max in *; ulia).
      assert (Hq' : u64 (ch_send_sequence ch + 1)) by (unfold u64_max in *; ulia).
      rewrite Hw. set (ch1 := {| ch with ch_socket := s'; ch_send_sequence := ch_send_sequence ch + 1 |}).
      destruct (IH ch1 Hq') as [HN HF]. cbn [ch_send_sequence ch1] in HF. split.
      * constructor; [|done]. intros Hin. rewrite Forall_forall in HF.
        destruct (HF _ Hin). lia.
      * constructor; [split; [lia|done]|]. eapply Forall_impl; [exact HF|]. cbn. intros q []. split; [lia|done].
  - unfold sending in Es. destruct (m_deadline m).
    + cbn [snd]. rewrite used_sequences_exhausted by done. split; [apply NoDup_singleton|].
      constructor; [split; [lia|done]|constructor].
    + specialize (Hord (outgoing_wire bcrypt_hmac ch (m_type m) (m_request_id m) (m_payload m))
        (ch_socket ch)). by rewrite Es in Hord.
Qed.

(** A failed send without a deadline changes nothing but the socket. *)
Lemma failed_send_keeps_nonce ch m e ch' :
  m_deadline m = false -> send bcrypt_hmac ch m = (Err e, ch') ->
  ch_send_key ch' = ch_send_key ch /\ ch_send_iv_base ch' = ch_send_iv_base ch /\
  ch_send_sequence ch' = ch_send_sequence ch /\ ch_aead_enabled ch' = ch_aead_enabled ch /\
  ch_send_exhausted ch' = ch_send_exhausted ch.
Proof using Type.
  intros Hd. unfold send, send_impl. rewrite Hd.
  destruct (_ || is_handshake_command _); [by intros [= _ <-]|].
  case_bool_decide; [by intros [= _ <-]|].
  destruct (sock_send_all _ _) as [[u|e'] s']; [done|]. by intros [= _ <-].
Qed.

(** An AES-GCM channel encrypts under a different nonce every time, whatever
    becomes of the sends that have a deadline (a failed one closes the channel),
    provided no send without a deadline fails.  When one does, the channel keeps
    its key, its nonce and its readiness to send: the next command is encrypted
    under the nonce of the failed one. *)
Theorem nonces_never_repeat ch msgs :
  length (ch_send_iv_base ch) = kAeadNonceBytes -> u64 (ch_send_sequence ch) ->
  ((forall wire s, (sock_send_all wire s).1 = Ok tt) ->
   NoDup (map (construct_aead_nonce (ch_send_iv_base ch)) (used_sequences ch msgs))) /\
  (forall m e ch', m_deadline m = false -> send bcrypt_hmac ch m = (Err e, ch') ->
     ch_send_key ch' = ch_send_key ch /\ ch_send_exhausted ch' = ch_send_exhausted ch /\
     construct_aead_nonce (ch_send_iv_base ch') (ch_send_sequence ch') =
       construct_aead_nonce (ch_send_iv_base ch) (ch_send_sequence ch)).
Proof using Type.
  intros Hiv Hq. split.
  - intros Hord. destruct (used_sequences_fresh ch msgs Hord Hq) as [HN HF].
    apply NoDup_fmap_2_strong; [|done]. rewrite Forall_forall in HF.
    intros x y Hx%HF Hy%HF. apply construct_aead_nonce_inj; [done|apply Hx|apply Hy].
  - intros m e ch' Hd HF. apply (failed_send_keeps_nonce ch m e ch' Hd) in HF as (H1 & H2 & H3 & _ & H5).
    by rewrite H2, H3.
Qed.
End Nonces.

(** ** Examples *)

(** A connection in memory: what is still to be read, what was written, and how
    many more sends the transport takes. *)
Record Pipe := mkPipe { pp_in : bytes; pp_out : bytes; pp_open : bool; pp_sends : nat }.

Definition pipe_send (wire : bytes) (p : Pipe) : result unit * Pipe :=
  match pp_sends p with
  | O => (Err "send failed", p)
  | Datatypes.S n => (Ok tt, {| p with pp_out := pp_out p ++ wire; pp_sends := n |})
  end.

#[export] Instance pipe_socket : Socket Pipe := {
  sock_is_open := pp_open;
  sock_receive n p :=
    match pp_in p with
    | [] => (rx_closed, p)
    | _ => (rx_bytes (take (min n 7) (pp_in p)), {| p with pp_in := drop (min n 7) (pp_in p) |})
    end;
  sock_send_all := pipe_send;
  sock_send_all_by := pipe_send;
  sock_close p := {| p with pp_open := false |}
}.

#[export] Instance pipe_laws : SocketLaws Pipe pp_in pp_out.
Proof.
  split.
  - intros n [i o b k]. cbn. destruct i as [|x i]; [done|]. cbn [pp_in]. split; [|done].
    split; [rewrite length_take; lia|]. cbn. by rewrite take_drop.
  - intros wire [i o b [|k]]; by split.
  - intros wire [i o b [|k]]; by split.
Qed.

(** A connection that takes every send. *)
Record Line := mkLine { ln_in : bytes; ln_out : bytes; ln_open : bool }.

#[export] Instance line_socket : Socket Line := {
  sock_is_open := ln_open;
  sock_receive n p :=
    match ln_in p with
    | [] => (rx_closed, p)
    | _ => (rx_bytes (take (min n 7) (ln_in p)), {| p with ln_in := drop (min n 7) (ln_in p) |})
    end;
  sock_send_all wire p := (Ok tt, {| p with ln_out := ln_out p ++ wire |});
  sock_send_all_by wire p := (Ok tt, {| p with ln_out := ln_out p ++ wire |});
  sock_close p := {| p with ln_open := false |}
}.

#[export] Instance line_laws : SocketLaws Line ln_in ln_out.
Proof.
  split; [|by intros wire [i o b]..].
  intros n [i o b]. cbn. destruct i as [|x i]; [done|]. cbn [ln_in]. split; [|done].
  split; [rewrite length_take; lia|]. cbn. by rewrite take_drop.
Qed.

#[export] Instance line_works : SocketWorks Line ln_in.
Proof.
  split; [|done..]. intros [|n] [i o b] Hn _; [lia|]. cbn. destruct i as [|x i]; [done|].
  intros _. by eexists _, _, _.
Qed.

(** A MAC and a cipher to run the definitions with. *)
Definition zero_hmac (key message : bytes) : option bytes := Some zero_digest.
Definition zero_tag : bytes := repeat (byte_of 0) 16.

#[export] Instance plain_gcm : AesGcm := {
  gcm_encrypt key nonce aad plaintext := Some (plaintext, zero_tag);
  gcm_decrypt key nonce aad ciphertext tag :=
    if bool_decide (tag = zero_tag) then Some ciphertext else None
}.

#[export] Instance plain_gcm_laws : AesGcmLaws.
Proof.
  split; cbn.
  - intros _ _ _ p c t [= <- <-]. done.
  - intros _ _ _ p c t _. case_bool_decide as E; naive_solver.
Qed.

Lemma zero_hmac_sized : digest_sized zero_hmac.
Proof. by intros key message digest [= <-]. Qed.

Definition sample_session (role : Z) : AuthenticatedSession :=
  mkSession zero_digest (repeat (byte_of 7) 16) 1 true role.
Definition sample_messages : list Message :=
  [mkMessage (command_type_value CT_heartbeat) 5 (text "abc") false;
   mkMessage (command_type_value CT_heartbeat) 6 [] true].
Definition sample_sender : Line := mkLine [] [] true.
Definition sample_log : list AuthenticatedCommand :=
  (run_sends zero_hmac (session_channel zero_hmac sample_sender (sample_session role_client))
     sample_messages).1.
Definition sample_wire : bytes :=
  concat (map (protected_encode
    (send_protection zero_hmac
       (session_channel zero_hmac sample_sender (sample_session role_client)))) sample_log).

#[export] Instance command_envelope_eq_dec : EqDecision CommandEnvelope.
Proof. solve_decision. Defined.
#[export] Instance authenticated_command_eq_dec : EqDecision AuthenticatedCommand.
Proof. solve_decision. Defined.

(** [unforged], tried at every position of the stream. *)
Definition unforged_check (P : Protection) (log : list AuthenticatedCommand) (bs : bytes) : bool :=
  forallb (fun k =>
    match next_frame (drop k bs) with
    | Emit f _ =>
        match protected_decode P f with
        | Some c => bool_decide (c ∈ log)
        | None => true
        end
    | _ => true
    end) (seq 0 (Datatypes.S (length bs))).

Lemma unforged_check_sound P log bs : unforged_check P log bs = true -> unforged P log bs.
Proof.
  intros H pre f post c -> Hf Hc. unfold unforged_check in H. rewrite forallb_forall in H.
  specialize (H (length pre)). rewrite drop_app_length, next_frame_encode, Hc in H by done.
  apply bool_decide_eq_true in H; [done|]. apply list_elem_of_In, elem_of_seq.
  rewrite length_app. lia.
Qed.

Lemma channel_is_a_fifo_witness :
  len sample_log = 2 /\
  (exists B', receive_many zero_hmac (length sample_log)
     (session_channel zero_hmac (mkLine sample_wire [] true) (sample_session role_server)) =
       (sample_log, B')) /\
  exists m, (receive_many zero_hmac 3
    (session_channel zero_hmac (mkLine (drop 51 sample_wire ++ sample_wire) [] true)
       (sample_session role_server))).1 = take m sample_log.
Proof.
  assert (Hpair : paired (sample_session role_client) (sample_session role_server)) by done.
  assert (HF : Forall wf_message sample_messages)
    by (repeat (constructor; [split; by vm_compute|]); constructor).
  split; [by vm_compute|]. split.
  - pose proof (channel_is_a_fifo zero_hmac zero_hmac_sized sample_sender
      (mkLine sample_wire [] true) _ _ sample_messages 0 Hpair eq_refl eq_refl HF) as H.
    cbv zeta in H. unfold sample_log in *.
    destruct (run_sends zero_hmac _ sample_messages) as [log A'] eqn:E.
    destruct H as (_ & _ & _ & H & _). destruct (H []) as (B' & HB & _).
    + unfold sample_wire, sample_log. rewrite E. cbn [ln_in fst]. by rewrite app_nil_r.
    + by exists B'.
  - pose proof (channel_is_a_fifo zero_hmac zero_hmac_sized sample_sender
      (mkLine (drop 51 sample_wire ++ sample_wire) [] true) _ _ sample_messages 3
      Hpair eq_refl eq_refl HF) as H.
    cbv zeta in H.
    assert (Hu : unforged_check (send_protection zero_hmac
      (session_channel zero_hmac sample_sender (sample_session role_client))) sample_log
      (drop 51 sample_wire ++ sample_wire) = true) by (vm_compute; reflexivity).
    apply unforged_check_sound in Hu. unfold sample_log in *.
    destruct (run_sends zero_hmac _ sample_messages) as [log A'] eqn:E.
    destruct H as (_ & _ & _ & _ & H). by apply H.
Defined.

(** Two sends and a refused one on a connection that takes no more than two. *)
Definition sample_pipe_channel : Channel Pipe :=
  session_channel zero_hmac (mkPipe [] [] true 2) (sample_session role_client).

Lemma nonces_never_repeat_witness :
  length (ch_send_iv_base sample_pipe_channel) = kAeadNonceBytes /\
  exists e ch', send zero_hmac {| sample_pipe_channel with ch_socket := mkPipe [] [] true 0 |}
    (mkMessage (command_type_value CT_heartbeat) 5 (text "abc") false) = (Err e, ch') /\
  construct_aead_nonce (ch_send_iv_base ch') (ch_send_sequence ch') =
    construct_aead_nonce (ch_send_iv_base sample_pipe_channel) (ch_send_sequence sample_pipe_channel).
Proof.
  split; [by vm_compute|]. eexists _, _. split; [reflexivity|].
  set (ch := {| sample_pipe_channel with ch_socket := mkPipe [] [] true 0 |}).
  destruct (nonces_never_repeat zero_hmac ch sample_messages) as [_ H];
    [by vm_compute|by vm_compute|].
  eapply (H (mkMessage (command_type_value CT_heartbeat) 5 (text "abc") false)); [done|].
  by vm_compute.
Defined.

End ControlChannel.
