(* ===== verification/Handshake.v ===== *)
(** The mutual handshake in front of a control channel (client_handshake and
    server_handshake of common/src/control_channel.cpp).

    Each side runs against its own socket; what the peer or an attacker makes of
    the connection is the socket's stream.  The random generator's results, the
    clock readings and the key resolver's answers are arguments. *)

From S2P Require Import Prelude Wire Codec Protocol Auth ControlChannel.

Module Handshake.
Import Protocol Auth ControlChannel.

(** ** A state and error monad *)

Definition io (St A : Type) : Type := St -> result A * St.

Definition io_ret {St A} (a : A) : io St A := fun s => (Ok a, s).
Definition io_fail {St A} (e : string) : io St A := fun s => (Err e, s).

Definition io_bind {St A B} (m : io St A) (k : A -> io St B) : io St B := fun s =>
  match m s with
  | (Ok a, s') => k a s'
  | (Err e, s') => (Err e, s')
  end.

(** [set_error] after a failed call. *)
Definition io_error {St A} (e : string) (m : io St A) : io St A := fun s =>
  match m s with
  | (Ok a, s') => (Ok a, s')
  | (Err _, s') => (Err e, s')
  end.

Definition io_check {St} (e : string) (b : bool) : io St unit :=
  if b then io_ret tt else io_fail e.

Definition io_some {St A} (e : string) (o : option A) : io St A :=
  match o with Some a => io_ret a | None => io_fail e end.

Definition io_lift {St T A} (m : io St A) : io (St * T) A := fun '(s, t) =>
  let '(r, s') := m s in (r, (s', t)).

Declare Scope io_scope.
Delimit Scope io_scope with io.
Notation "'let*' x ':=' m 'in' k" := (io_bind m (fun x => k))
  (at level 200, x name, m at level 100, k at level 200, right associativity) : io_scope.
Notation "'let*' '_' ':=' m 'in' k" := (io_bind m (fun _ => k))
  (at level 200, m at level 100, k at level 200, right associativity) : io_scope.
Open Scope io_scope.

Section Handshakes.
Variable bcrypt_hmac : bytes -> bytes -> option bytes.
Context {S : Type} {SO : Socket S}.

Definition aead_flag (enabled : bool) : Z := if enabled then kPreambleFlagAead else kPreambleFlagNone.

Definition wants_aead (flags : Z) : bool := negb (Z.land flags kPreambleFlagAead =? 0).

(** A frame of the given type for the given request, with a further condition. *)
Definition receive_handshake_frame (e : string) (type : Z) (request : option Z)
    (fits : bytes -> bool) : io S TcpFrame :=
  let* frame := io_error e receive_plain_frame in
  let* _ := io_check e
    ((ce_type (tf_envelope frame) =? type) &&
     match request with
     | Some request_id => ce_request_id (tf_envelope frame) =? request_id
     | None => true
     end && fits (tf_payload frame)) in
  io_ret frame.

Definition receive_peer_preamble (e : string) (role : Z) : io S ConnectionPreamble :=
  let* preamble := io_error e receive_preamble in
  let* _ := io_check e (cp_role preamble =? role) in
  io_ret preamble.

(** [client_nonce] and [request_random] are what [generate_random] gives. *)
Definition client_handshake (client_id : bytes) (key_id : Z) (pre_shared_key : bytes)
    (now_unix_seconds maximum_clock_skew : Z) (client_nonce request_random : option bytes)
    (request_aead : bool) : io S AuthenticatedSession :=
  let* nonce := io_some "client hello generation failed" client_nonce in
  let hello := mkAuthHello client_id nonce now_unix_seconds key_id in
  let* _ := io_check "client hello generation failed" (validate_auth_hello hello) in
  let request_id := random_request_id request_random in
  let* _ := io_check "" (negb (request_id =? 0)) in
  let* _ := send_preamble role_client client_id key_id (aead_flag request_aead) in
  let* _ := send_plain_frame (command_type_value CT_auth_hello) request_id
              (encode_auth_hello hello) in
  let* server_preamble := receive_peer_preamble "invalid server connection preamble" role_server in
  let aead_negotiated := request_aead && wants_aead (cp_flags server_preamble) in
  let* challenge_frame :=
    receive_handshake_frame "unexpected authentication challenge"
      (command_type_value CT_auth_challenge) (Some request_id) (fun _ => true) in
  let* challenge := io_some "invalid or stale authentication challenge"
                      (decode_auth_challenge (tf_payload challenge_frame)) in
  let* _ := io_check "invalid or stale authentication challenge"
    (validate_auth_challenge challenge &&
     time_is_valid (ac_unix_time_seconds challenge) now_unix_seconds maximum_clock_skew) in
  let* client_proof := io_some "" (compute_client_proof bcrypt_hmac pre_shared_key hello challenge) in
  let* session_key := io_some "" (derive_session_key bcrypt_hmac pre_shared_key hello challenge) in
  let* _ := send_plain_frame (command_type_value CT_auth_proof) request_id client_proof in
  let* accept_frame :=
    receive_handshake_frame "unexpected authentication acceptance frame"
      (command_type_value CT_auth_accept) (Some request_id) (fun payload => len payload =? 32) in
  let* expected_server_proof := io_some "server authentication proof failed"
    (compute_server_proof bcrypt_hmac session_key hello challenge) in
  let* _ := io_check "server authentication proof failed"
    (constant_time_equal expected_server_proof (tf_payload accept_frame)) in
  io_ret (mkSession session_key client_id key_id aead_negotiated role_client).

(** [replay_protector.accept]. *)
Definition io_replay (e : string) (hello : AuthHello) (now : Z) : io (S * ReplayProtector) unit :=
  fun '(s, rp) =>
    let '(ok, rp') := replay_accept rp hello now in
    (if ok then Ok tt else Err e, (s, rp')).

Definition server_handshake (key_resolver : bytes -> Z -> option bytes) (now_unix_seconds : Z)
    (server_nonce : option bytes) (allow_aead : bool) : io (S * ReplayProtector) AuthenticatedSession :=
  let* preamble := io_lift (receive_peer_preamble "expected client connection preamble" role_client) in
  let aead_negotiated := allow_aead && wants_aead (cp_flags preamble) in
  let* hello_frame := io_lift (receive_handshake_frame "expected authentication hello"
                                 (command_type_value CT_auth_hello) None (fun _ => true)) in
  let request_id := ce_request_id (tf_envelope hello_frame) in
  let* hello := io_some "invalid authentication hello"
                  (decode_auth_hello (tf_payload hello_frame)) in
  let* _ := io_check "invalid authentication hello" (validate_auth_hello hello) in
  let* _ := io_check "connection preamble identity mismatch"
    (bool_decide (ah_client_id hello = cp_identity preamble) &&
     (ah_key_id hello =? cp_key_id preamble)) in
  let* pre_shared_key := io_some "unknown client key"
                           (key_resolver (ah_client_id hello) (ah_key_id hello)) in
  let* _ := io_check "unknown client key"
              (negb (len pre_shared_key <? kMinimumProtocolKeyBytes)) in
  let* nonce := io_some "" server_nonce in
  let challenge := mkAuthChallenge nonce now_unix_seconds in
  let* _ := io_lift (send_preamble role_server (repeat (byte_of 0) 16) 0
                       (aead_flag aead_negotiated)) in
  let* _ := io_lift (send_plain_frame (command_type_value CT_auth_challenge) request_id
                       (encode_auth_challenge challenge)) in
  let* proof_frame := io_lift
    (receive_handshake_frame "unexpected client authentication proof"
       (command_type_value CT_auth_proof) (Some request_id) (fun payload => len payload =? 32)) in
  let* expected_client_proof := io_some "client authentication proof or replay check failed"
    (compute_client_proof bcrypt_hmac pre_shared_key hello challenge) in
  let* _ := io_check "client authentication proof or replay check failed"
    (constant_time_equal expected_client_proof (tf_payload proof_frame)) in
  let* _ := io_replay "client authentication proof or replay check failed" hello now_unix_seconds in
  let* session_key := io_some "session key derivation failed"
    (derive_session_key bcrypt_hmac pre_shared_key hello challenge) in
  let* server_proof := io_some "" (compute_server_proof bcrypt_hmac session_key hello challenge) in
  let* _ := io_lift (send_plain_frame (command_type_value CT_auth_accept) request_id server_proof) in
  io_ret (mkSession session_key (ah_client_id hello) (ah_key_id hello) aead_negotiated role_server).

End Handshakes.

(** ** Runs of the monad *)

Section Monad.
Context {St A B : Type}.

Lemma io_bind_ok (m : io St A) (k : A -> io St B) s b s' :
  io_bind m k s = (Ok b, s') -> exists a s1, m s = (Ok a, s1) /\ k a s1 = (Ok b, s').
Proof. unfold io_bind. destruct (m s) as [[a|e] s1]; [by eexists _, _|done]. Qed.

Lemma io_bind_run (m : io St A) (k : A -> io St B) s a s1 :
  m s = (Ok a, s1) -> io_bind m k s = k a s1.
Proof. unfold io_bind. by intros ->. Qed.

Lemma io_check_ok e b (s s' : St) u : io_check e b s = (Ok u, s') -> b = true /\ s' = s.
Proof. destruct b; [|done]. by intros [= _ <-]. Qed.

Lemma io_some_ok e (o : option A) (s s' : St) a : io_some e o s = (Ok a, s') -> o = Some a /\ s' = s.
Proof. destruct o; [|done]. by intros [= <- <-]. Qed.

Lemma io_error_ok e (m : io St A) s a s' : io_error e m s = (Ok a, s') <-> m s = (Ok a, s').
Proof. unfold io_error. by destruct (m s) as [[] ?]. Qed.

Lemma io_lift_ok (m : io St A) s t a st' :
  @io_lift St B A m (s, t) = (Ok a, st') <-> exists s', m s = (Ok a, s') /\ st' = (s', t).
Proof.
  cbn. destruct (m s) as [r s']. split.
  - intros [= -> <-]. by exists s'.
  - by intros (? & [= -> ->] & ->).
Qed.
End Monad.

(** Take a successful run apart, or run it step by step. *)
Ltac io_inv :=
  repeat match goal with
  | H : io_bind _ _ _ = (Ok _, _) |- _ =>
      let E := fresh "E" in apply io_bind_ok in H as (? & ? & E & H)
  | H : io_check _ _ _ = (Ok _, _) |- _ => apply io_check_ok in H as [H ->]
  | H : io_some _ _ _ = (Ok _, _) |- _ => apply io_some_ok in H as [H ->]
  | H : io_ret _ _ = (Ok _, _) |- _ => injection H as <- <-
  | H : io_lift _ (_, _) = (Ok _, _) |- _ => apply io_lift_ok in H as (? & H & ->)
  | H : (?a && ?b) = true |- _ => apply andb_true_iff in H as [? ?]
  end.

(** One step of a run: a socket call whose result [R] is known, or a pure test. *)
Ltac lift_step R :=
  rewrite (io_bind_run _ _ _ _ _ (proj2 (io_lift_ok _ _ _ _ _) (ex_intro _ _ (conj R eq_refl)))).
Ltac sock_step R := rewrite (io_bind_run _ _ _ _ _ R).
Ltac pure_step :=
  match goal with
  | |- context [io_bind (io_some ?e (Some ?a)) ?k ?s] =>
      change (io_bind (io_some e (Some a)) k s) with (k a s)
  | |- context [io_bind (io_check ?e ?b) ?k ?s] =>
      change (io_bind (io_check e b) k s) with (k tt s)
  end; cbv beta.

(** ** Bytes in and bytes out of a step *)

Section Transport.
Context {S : Type} {SO : Socket S} {stream sent : S -> bytes} {SL : SocketLaws S stream sent}.

Definition moves (s s' : S) (input output : bytes) : Prop :=
  stream s = input ++ stream s' /\ sent s' = sent s ++ output /\
  sock_is_open s' = sock_is_open s.

Lemma moves_trans s1 s2 s3 i1 i2 o1 o2 :
  moves s1 s2 i1 o1 -> moves s2 s3 i2 o2 -> moves s1 s3 (i1 ++ i2) (o1 ++ o2).
Proof using Type.
  intros (H1 & H2 & H3) (H4 & H5 & H6). unfold moves. rewrite H1, H4, H5, H2, <- !app_assoc.
  split_and!; congruence.
Qed.

Definition handshake_frame (type request_id : Z) (payload : bytes) : TcpFrame :=
  mkTcpFrame (plain_envelope type request_id payload) payload.

Definition peer_preamble (role : Z) (identity : bytes) (key_id flags : Z) : ConnectionPreamble :=
  mkConnectionPreamble kCommandVersion role flags kConnectionPreambleBytes 0 key_id identity.

Lemma send_wire_moves wire s s' : send_wire wire s = (Ok tt, s') -> moves s s' [] wire.
Proof using Type*.
  unfold send_wire. case_bool_decide; [done|]. intros E. pose proof (law_send wire s) as HL.
  rewrite E in HL. destruct HL as (H1 & H2 & H3). split_and!; [done| |done]. by apply H1.
Qed.

Lemma send_wire_works `{!SocketWorks S stream} wire s :
  wire <> [] -> sock_is_open s = true -> exists s', send_wire wire s = (Ok tt, s') /\ moves s s' [] wire.
Proof using Type*.
  intros Hne Ho. pose proof (works_send wire s Ho) as HW.
  destruct (send_wire wire s) as [r s'] eqn:E. exists s'. assert (r = Ok tt) as ->.
  { revert E. unfold send_wire. rewrite bool_decide_eq_false_2 by done.
    destruct (sock_send_all wire s) as [r0 s0]. cbn in HW. by intros [= <- <-]. }
  split; [done|]. by apply send_wire_moves.
Qed.

Lemma send_preamble_eq role id key_id flags (s : S) :
  send_preamble role id key_id flags s =
  send_wire (encode_connection_preamble
    (if role =? role_server then peer_preamble role (repeat (byte_of 0) 16) 0 flags
     else peer_preamble role id key_id flags)) s.
Proof using Type. unfold send_preamble. by destruct (role =? role_server). Qed.

Lemma send_plain_frame_eq type rid payload (s : S) :
  len payload <= kMaxCommandPayload ->
  send_plain_frame type rid payload s =
  send_wire (encode_frame (handshake_frame type rid payload)) s.
Proof using Type.
  intros Hl. unfold send_plain_frame. destruct (Z.gtb_spec (len payload) kMaxCommandPayload); [lia|done].
Qed.

Lemma send_plain_frame_moves type rid payload s u s' :
  send_plain_frame type rid payload s = (Ok u, s') ->
  moves s s' [] (encode_frame (handshake_frame type rid payload)).
Proof using Type*.
  destruct u. unfold send_plain_frame. destruct (_ >? _); [done|]. apply send_wire_moves.
Qed.

Lemma handshake_frame_wf type rid payload :
  u16 type -> u64 rid -> len payload <= kMaxCommandPayload ->
  wf_frame (handshake_frame type rid payload).
Proof using Type.
  intros Ht Hr Hl. unfold kMaxCommandPayload in *. pose proof (len_nonneg payload).
  unfold wf_frame, wf_envelope, handshake_frame, plain_envelope; cbn.
  assert (wrap32 (len payload) = len payload) as -> by (unfold wrap32; apply Z.mod_small; lia).
  unfold kMaxCommandPayload. split_and!; try done; ulia.
Qed.

(** A frame read with its type and its request is the handshake frame of its payload. *)
Lemma handshake_frame_intro f type rid :
  wf_frame f -> ce_type (tf_envelope f) = type -> ce_request_id (tf_envelope f) = rid ->
  f = handshake_frame type rid (tf_payload f).
Proof using Type.
  destruct f as [[v t n r] p]. intros (Hw & Hv & Hp & Hm) Ht Hr; cbn in *. subst.
  unfold handshake_frame, plain_envelope; cbn. do 2 f_equal. unfold wrap32.
  symmetry. apply Z.mod_small. unfold kMaxCommandPayload in *. pose proof (len_nonneg p). lia.
Qed.

Lemma receive_handshake_frame_ok e type request fits s f s' :
  receive_handshake_frame e type request fits s = (Ok f, s') ->
  exists rid, f = handshake_frame type rid (tf_payload f) /\ wf_frame f /\
    ce_request_id (tf_envelope f) = rid /\
    (request = None \/ request = Some rid) /\ fits (tf_payload f) = true /\
    moves s s' (encode_frame f) [].
Proof using Type*.
  unfold receive_handshake_frame. intros H. io_inv. rewrite io_error_ok in E.
  pose proof (receive_plain_frame_spec s) as HS. rewrite E in HS.
  destruct HS as ((Hf & Hs) & Hsent & Ho). bool_to_prop.
  exists (ce_request_id (tf_envelope x)). split_and!; try done.
  - by apply handshake_frame_intro.
  - destruct request; [right|by left]. bool_to_prop. by f_equal.
  - unfold moves. by rewrite app_nil_r.
Qed.

Lemma receive_handshake_frame_run `{!SocketWorks S stream} e type request fits rid payload s rest :
  stream s = encode_frame (handshake_frame type rid payload) ++ rest ->
  u16 type -> u64 rid -> len payload <= kMaxCommandPayload ->
  (request = None \/ request = Some rid) -> fits payload = true -> sock_is_open s = true ->
  exists s', receive_handshake_frame e type request fits s =
      (Ok (handshake_frame type rid payload), s') /\
    moves s s' (encode_frame (handshake_frame type rid payload)) [] /\ stream s' = rest.
Proof using Type*.
  intros Hs Ht Hr Hl Hq Hfit Ho.
  destruct (receive_plain_frame_delivers s _ rest (handshake_frame_wf type rid payload Ht Hr Hl) Ho Hs)
    as (s' & E & Hrest). exists s'. split; [|split; [|done]].
  - unfold receive_handshake_frame. rewrite (io_bind_run _ _ _ (handshake_frame type rid payload) s')
      by (by rewrite io_error_ok). cbn. rewrite Z.eqb_refl, Hfit.
    destruct Hq as [-> | ->]; [done|]. by rewrite Z.eqb_refl.
  - pose proof (receive_plain_frame_spec s) as HS. rewrite E in HS.
    destruct HS as (_ & Hsent & Hop). unfold moves. by rewrite Hs, Hrest, app_nil_r.
Qed.

Lemma receive_peer_preamble_ok e role s p s' :
  receive_peer_preamble e role s = (Ok p, s') ->
  admissible_preamble p /\ cp_role p = role /\ moves s s' (encode_connection_preamble p) [].
Proof using Type*.
  unfold receive_peer_preamble. intros H. io_inv. rewrite io_error_ok in E.
  unfold receive_preamble, receive_bytes in E.
  pose proof (receive_exact_spec (Z.to_nat kConnectionPreambleBytes)
    (Z.to_nat kConnectionPreambleBytes) s) as HS.
  destruct (receive_exact _ _ s) as [[wire|] s1]; [|done]. destruct HS as ((Hl & Hs) & Hsent & Ho).
  destruct (decode_connection_preamble wire) as [p|] eqn:Ed; [|done]. injection E as -> ->.
  apply decode_preamble_inv in Ed as [Ha ->]. bool_to_prop. split_and!; try done.
  unfold moves. by rewrite app_nil_r.
Qed.

Lemma receive_peer_preamble_run `{!SocketWorks S stream} e p s rest :
  admissible_preamble p -> sock_is_open s = true ->
  stream s = encode_connection_preamble p ++ rest ->
  exists s', receive_peer_preamble e (cp_role p) s = (Ok p, s') /\
    moves s s' (encode_connection_preamble p) [] /\ stream s' = rest.
Proof using Type*.
  intros Hp Ho Hs. pose proof (preamble_decodes p Hp) as Hd.
  assert (Hlen : length (encode_connection_preamble p) = Z.to_nat kConnectionPreambleBytes).
  { unfold decode_connection_preamble in Hd. destruct (negb _) eqn:E; [done|]. bool_to_prop.
    unfold len in *. lia. }
  set (n := Z.to_nat kConnectionPreambleBytes) in *.
  destruct (receive_exact_delivers n n s) as (s' & E & Hrest); [lia|done| |].
  { rewrite Hs, length_app. lia. }
  pose proof (receive_exact_spec n n s) as HS. rewrite E in HS. destruct HS as (_ & Hsent & Hop).
  rewrite Hs, take_app_length' in E by done. rewrite Hs, drop_app_length' in Hrest by done.
  exists s'. split; [|split; [|done]].
  - unfold receive_peer_preamble. rewrite (io_bind_run _ _ _ p s').
    + cbn. by rewrite Z.eqb_refl.
    + rewrite io_error_ok. unfold receive_preamble, receive_bytes. fold n. by rewrite E, Hd.
  - unfold moves. by rewrite Hs, Hrest, app_nil_r.
Qed.

End Transport.
#[global] Arguments moves {S SO} stream sent s s' input output.

(** ** The two sides *)

(** The three values both sides compute from the shared key, the hello and the
    challenge: the client's proof, the session key and the server's proof. *)
Definition evidence (bcrypt_hmac : bytes -> bytes -> option bytes) (pre_shared_key : bytes)
    (hello : AuthHello) (challenge : AuthChallenge) (proof session_key accept : bytes) : Prop :=
  compute_client_proof bcrypt_hmac pre_shared_key hello challenge = Some proof /\
  derive_session_key bcrypt_hmac pre_shared_key hello challenge = Some session_key /\
  compute_server_proof bcrypt_hmac session_key hello challenge = Some accept.

(** What each side sends. *)
Definition client_sends (request_id flags : Z) (hello : AuthHello) (proof : bytes) : bytes * bytes :=
  (encode_connection_preamble
     (peer_preamble role_client (ah_client_id hello) (ah_key_id hello) flags) ++
   encode_frame (handshake_frame (command_type_value CT_auth_hello) request_id
     (encode_auth_hello hello)),
   encode_frame (handshake_frame (command_type_value CT_auth_proof) request_id proof)).

Definition server_sends (request_id flags : Z) (challenge : AuthChallenge) (accept : bytes) :
    bytes * bytes :=
  (encode_connection_preamble (peer_preamble role_server (repeat (byte_of 0) 16) 0 flags) ++
   encode_frame (handshake_frame (command_type_value CT_auth_challenge) request_id
     (encode_auth_challenge challenge)),
   encode_frame (handshake_frame (command_type_value CT_auth_accept) request_id accept)).

Definition sent_in_full (parts : bytes * bytes) : bytes := parts.1 ++ parts.2.

(** Preambles that are received are one of these two. *)
Lemma server_preamble_eq p :
  admissible_preamble p -> cp_role p = role_server ->
  p = peer_preamble role_server (repeat (byte_of 0) 16) 0 (cp_flags p).
Proof.
  destruct p as [v r f n z k id]. intros (Hw & Hv & Hn & Hz & Hrole) Hr; cbn in *. subst.
  destruct Hrole as [[E _]|(_ & Hid & ->)]; [done|]. unfold peer_preamble. f_equal.
  destruct Hw as (_ & _ & _ & _ & _ & _ & Hlen). cbn in Hlen. clear -Hid Hlen.
  assert (Forall (fun b => b = byte_of 0) id) as HF.
  { unfold any_nonzero in Hid. rewrite Forall_forall. intros b Hb.
    rewrite <- (byte_of_val b). f_equal. destruct (decide (byte_val b = 0)) as [|Hne]; [done|].
    exfalso. apply not_true_iff_false in Hid. apply Hid, existsb_exists. exists b.
    split; [by apply list_elem_of_In|]. by rewrite (proj2 (Z.eqb_neq _ _) Hne). }
  assert (id = repeat (byte_of 0) (length id)) as E; [|by rewrite E, Hlen].
  clear Hid Hlen. induction HF as [|b id -> _ IH]; [done|]. cbn. by f_equal.
Qed.

Lemma client_preamble_eq p :
  admissible_preamble p -> cp_role p = role_client ->
  p = peer_preamble role_client (cp_identity p) (cp_key_id p) (cp_flags p).
Proof. destruct p. intros (_ & ? & ? & ? & _) ?; cbn in *. by subst. Qed.

Lemma decode_challenge_iff w c :
  decode_auth_challenge w = Some c <-> wf_challenge c /\ w = encode_auth_challenge c.
Proof. exact (decode_iff w c). Qed.

Lemma decode_hello_iff w h :
  decode_auth_hello w = Some h <-> wf_hello h /\ w = encode_auth_hello h.
Proof. exact (decode_iff w h). Qed.

(** What a step of a successful run says of the bytes. *)
Ltac step_facts :=
  repeat match goal with
  | H : send_preamble _ _ _ _ _ = (Ok ?u, _) |- _ =>
      destruct u; rewrite send_preamble_eq in H; apply send_wire_moves in H
  | H : send_plain_frame _ _ _ _ = (Ok _, _) |- _ => apply send_plain_frame_moves in H
  | H : receive_peer_preamble _ _ _ = (Ok ?p, _) |- _ =>
      let Hp := fresh "Hp" in let Hr := fresh "Hr" in
      apply receive_peer_preamble_ok in H as (Hp & Hr & H);
      let Ep := fresh "Ep" in
      first [pose proof (server_preamble_eq p Hp Hr) as Ep|
             pose proof (client_preamble_eq p Hp Hr) as Ep];
      rewrite Ep in H
  | H : receive_handshake_frame _ _ ?q _ _ = (Ok ?f, _) |- _ =>
      let rid := fresh "rid" in let Hf := fresh "Hf" in let Hq := fresh "Hq" in
      apply receive_handshake_frame_ok in H as (rid & Hf & ? & ? & Hq & ? & H);
      rewrite Hf in H;
      lazymatch q with
      | Some _ => destruct Hq as [|[= <-]]; [discriminate|]
      | None => clear Hq
      end
  | H : decode_auth_challenge ?w = Some ?c |- _ =>
      apply decode_challenge_iff in H as [? H]; rewrite H in *
  | H : decode_auth_hello ?w = Some ?c |- _ =>
      apply decode_hello_iff in H as [? H]; rewrite H in *
  | H : constant_time_equal _ _ = true |- _ => apply constant_time_equal_spec in H
  end.

Ltac chain_moves :=
  repeat match goal with
  | M1 : moves _ _ ?a ?b _ _, M2 : moves _ _ ?b ?c _ _ |- _ =>
      let M := fresh "M" in pose proof (moves_trans _ _ _ _ _ _ _ M1 M2) as M; clear M1 M2
  end; rewrite ?app_nil_r, ?app_nil_l in *.

Section Sides.
Context (bcrypt_hmac : bytes -> bytes -> option bytes).
Context {S : Type} {SO : Socket S} {stream sent : S -> bytes} {SL : SocketLaws S stream sent}.

(** A successful client run: the preamble [p] and the challenge [c] are what it
    was given. *)
Definition client_completes (client_id : bytes) (key_id : Z) (psk : bytes) (now skew : Z)
    (client_nonce request_random : option bytes) (request_aead : bool) (flags : Z)
    (c : AuthChallenge) (session : AuthenticatedSession) (input output : bytes) : Prop :=
  exists nonce proof session_key accept,
    let hello := mkAuthHello client_id nonce now key_id in
    let request_id := random_request_id request_random in
    client_nonce = Some nonce /\ validate_auth_hello hello = true /\ request_id <> 0 /\
    wf_challenge c /\ u8 flags /\ time_is_valid (ac_unix_time_seconds c) now skew = true /\
    evidence bcrypt_hmac psk hello c proof session_key accept /\
    session = mkSession session_key client_id key_id (request_aead && wants_aead flags) role_client /\
    input = sent_in_full (server_sends request_id flags c accept) /\
    output = sent_in_full (client_sends request_id (aead_flag request_aead) hello proof).

Lemma evidence_valid psk h c proof key accept :
  evidence bcrypt_hmac psk h c proof key accept ->
  32 <= len psk /\ validate_auth_hello h = true /\ validate_auth_challenge c = true.
Proof using Type.
  intros (H1 & _ & _). unfold compute_client_proof, proof_guard, kMinimumProtocolKeyBytes in H1.
  destruct (_ || _) eqn:E; [done|]. bool_to_prop. split_and!; [lia|done..].
Qed.

Lemma client_handshake_ok client_id key_id psk now skew client_nonce random aead s session s' :
  client_handshake bcrypt_hmac client_id key_id psk now skew client_nonce random aead s =
    (Ok session, s') ->
  exists flags c input output,
    client_completes client_id key_id psk now skew client_nonce random aead flags c session
      input output /\
    moves stream sent s s' input output.
Proof using Type*.
  unfold client_handshake. intros HR. io_inv. step_facts. chain_moves.
  match goal with Hp : admissible_preamble ?p, M : moves _ _ _ _ _ _ |- _ =>
    pose proof Hp as ((_ & _ & Hu & _) & _); exists (cp_flags p) end.
  eexists _, _, _. split; [|exact M]. bool_to_prop. eexists _, _, _, _. cbv zeta.
  split_and!; try done; subst; unfold sent_in_full, client_sends, server_sends; cbn;
    by rewrite <- !app_assoc.
Qed.

(** A digest is 32 bytes. *)
Lemma evidence_sizes psk h c proof key accept :
  digest_sized bcrypt_hmac -> evidence bcrypt_hmac psk h c proof key accept ->
  len proof = 32 /\ len key = 32 /\ len accept = 32.
Proof using Type.
  intros Hd (H1 & H2 & H3).
  assert (Hs : forall k m d, hmac_sha256 bcrypt_hmac k m = Some d -> len d = 32).
  { unfold hmac_sha256. intros k m d. destruct (_ || _); [done|]. intros E%Hd. unfold len. lia. }
  unfold compute_client_proof, derive_session_key, compute_server_proof in *.
  destruct (proof_guard psk h c), (proof_guard key h c); try done. split_and!; eauto.
Qed.

Lemma peer_preamble_nonempty role id k flags :
  known_role role = true -> encode_connection_preamble (peer_preamble role id k flags) <> [].
Proof using Type.
  intros Hk E. unfold encode_connection_preamble in E. cbn [peer_preamble cp_role
    cp_preamble_bytes cp_reserved] in E. rewrite Hk in E. done.
Qed.

Lemma server_preamble_admissible flags :
  u8 flags -> admissible_preamble (peer_preamble role_server (repeat (byte_of 0) 16) 0 flags).
Proof using Type.
  intros Hu. unfold admissible_preamble, wf_preamble, peer_preamble; cbn.
  split_and!; try done; right; split; [by left|done].
Qed.

Lemma client_preamble_admissible h flags :
  u8 flags -> wf_hello h -> validate_auth_hello h = true ->
  admissible_preamble (peer_preamble role_client (ah_client_id h) (ah_key_id h) flags).
Proof using Type.
  intros Hu (H1 & H2 & H3 & H4) Hv. unfold validate_auth_hello in Hv. bool_to_prop.
  unfold admissible_preamble, wf_preamble, peer_preamble; cbn. split_and!; try done. left. done.
Qed.
Lemma send_preamble_run `{!SocketWorks S stream} role id k flags s p :
  (if role =? role_server then peer_preamble role (repeat (byte_of 0) 16) 0 flags
   else peer_preamble role id k flags) = p ->
  known_role role = true -> sock_is_open s = true ->
  exists s', send_preamble role id k flags s = (Ok tt, s') /\
    moves stream sent s s' [] (encode_connection_preamble p).
Proof using Type*.
  intros <- Hk Ho. rewrite send_preamble_eq. apply send_wire_works; [|done].
  by destruct (role =? role_server); apply peer_preamble_nonempty.
Qed.

Lemma send_plain_frame_run `{!SocketWorks S stream} type rid payload s :
  u16 type -> u64 rid -> len payload <= kMaxCommandPayload -> sock_is_open s = true ->
  exists s', send_plain_frame type rid payload s = (Ok tt, s') /\
    moves stream sent s s' [] (encode_frame (handshake_frame type rid payload)).
Proof using Type*.
  intros Ht Hr Hl Ho. rewrite send_plain_frame_eq by done. apply send_wire_works; [|done].
  intros E. pose proof (len_encode_frame _ (handshake_frame_wf type rid payload Ht Hr Hl)) as HL.
  rewrite E in HL. change (0 = 24 + len payload) in HL. pose proof (len_nonneg payload). lia.
Qed.

(** What a sender leaves to be read. *)
Lemma moves_output s s' o input :
  moves stream sent s s' [] o -> sock_is_open s = true -> stream s = input ->
  sock_is_open s' = true /\ stream s' = input.
Proof using Type. intros (H1 & _ & H2) Ho Hs. rewrite app_nil_l in H1. split; congruence. Qed.

Lemma moves_input s s' i o :
  moves stream sent s s' i o -> sock_is_open s = true -> sock_is_open s' = true.
Proof using Type. intros (_ & _ & H) Ho. congruence. Qed.

(** Fed what a server sends, a client completes. *)
Lemma client_handshake_run `{!SocketWorks S stream} client_id key_id psk now skew client_nonce
    random aead flags c session input output s rest :
  digest_sized bcrypt_hmac -> u64 (random_request_id random) ->
  (forall nonce, client_nonce = Some nonce -> wf_hello (mkAuthHello client_id nonce now key_id)) ->
  client_completes client_id key_id psk now skew client_nonce random aead flags c session
    input output ->
  sock_is_open s = true -> stream s = input ++ rest ->
  exists s', client_handshake bcrypt_hmac client_id key_id psk now skew client_nonce random aead s =
      (Ok session, s') /\ moves stream sent s s' input output.
Proof using Type*.
  intros Hd Hrid Hwf (nonce & proof & key & accept & Hn & Hv & Hr & Hc & Hf & Ht & He & -> & -> & ->) Ho Hs.
  specialize (Hwf nonce Hn). cbv zeta in *. set (hello := mkAuthHello client_id nonce now key_id) in *.
  set (rid := random_request_id random) in *.
  destruct (evidence_sizes _ _ _ _ _ _ Hd He) as (L1 & L2 & L3).
  destruct (evidence_valid _ _ _ _ _ _ He) as (_ & _ & Hvc). destruct He as (E1 & E2 & E3).
  unfold sent_in_full, server_sends in Hs. cbn [fst snd] in Hs. rewrite <- !app_assoc in Hs.
  pose proof (len_encode_auth_hello _ Hwf) as LH. pose proof (len_encode_auth_challenge _ Hc) as LC.
  destruct (send_preamble_run role_client client_id key_id (aead_flag aead) s _ eq_refl eq_refl Ho)
    as (s1 & R1 & M1). destruct (moves_output _ _ _ _ M1 Ho Hs) as [O1 S1].
  destruct (send_plain_frame_run (command_type_value CT_auth_hello) rid (encode_auth_hello hello) s1)
    as (s2 & R2 & M2); [done|done|rewrite LH; done|done|].
  destruct (moves_output _ _ _ _ M2 O1 S1) as [O2 S2].
  destruct (receive_peer_preamble_run "invalid server connection preamble" _ s2 _
    (server_preamble_admissible flags Hf) O2 S2) as (s3 & R3 & M3 & S3).
  pose proof (moves_input _ _ _ _ M3 O2) as O3.
  destruct (receive_handshake_frame_run "unexpected authentication challenge"
    (command_type_value CT_auth_challenge) (Some rid) (fun _ => true) rid (encode_auth_challenge c)
    s3 _ S3) as (s4 & R4 & M4 & S4); [done|done|rewrite LC; done|by right|done|done|].
  pose proof (moves_input _ _ _ _ M4 O3) as O4.
  destruct (send_plain_frame_run (command_type_value CT_auth_proof) rid proof s4)
    as (s5 & R5 & M5); [done|done|rewrite L1; done|done|].
  destruct (moves_output _ _ _ _ M5 O4 S4) as [O5 S5].
  destruct (receive_handshake_frame_run "unexpected authentication acceptance frame"
    (command_type_value CT_auth_accept) (Some rid) (fun payload => len payload =? 32) rid accept
    s5 _ S5) as (s6 & R6 & M6 & S6);
    [done|done|rewrite L3; done|by right|rewrite L3; done|done|].
  exists s6. split.
  - unfold client_handshake. rewrite Hn. pure_step. fold hello rid. rewrite Hv. pure_step.
    rewrite (proj2 (Z.eqb_neq _ _) Hr). pure_step. sock_step R1. sock_step R2. sock_step R3.
    sock_step R4. cbn [handshake_frame tf_payload].
    rewrite (proj2 (decode_challenge_iff _ _) (conj Hc eq_refl)). pure_step. rewrite Hvc, Ht.
    pure_step. rewrite E1. pure_step. rewrite E2. pure_step. sock_step R5. sock_step R6.
    rewrite E3. pure_step. cbn [handshake_frame tf_payload].
    by rewrite (proj2 (constant_time_equal_spec accept accept) eq_refl).
  - chain_moves. unfold sent_in_full, client_sends, server_sends. cbn [fst snd].
    rewrite <- !app_assoc. exact M.
Qed.

(** A successful server run: the flags, the request and the hello are what it
    was given. *)
Definition server_completes (key_resolver : bytes -> Z -> option bytes) (now : Z)
    (server_nonce : option bytes) (allow_aead : bool) (flags request_id : Z) (hello : AuthHello)
    (rp : ReplayProtector) (session : AuthenticatedSession) (rp' : ReplayProtector)
    (input output : bytes) : Prop :=
  exists psk nonce proof session_key accept,
    let challenge := mkAuthChallenge nonce now in
    let aead := allow_aead && wants_aead flags in
    server_nonce = Some nonce /\ wf_hello hello /\ u8 flags /\ u64 request_id /\
    key_resolver (ah_client_id hello) (ah_key_id hello) = Some psk /\
    evidence bcrypt_hmac psk hello challenge proof session_key accept /\
    replay_accept rp hello now = (true, rp') /\
    session = mkSession session_key (ah_client_id hello) (ah_key_id hello) aead role_server /\
    input = sent_in_full (client_sends request_id flags hello proof) /\
    output = sent_in_full (server_sends request_id (aead_flag aead) challenge accept).

Lemma io_replay_ok e h now (s : S) rp u st :
  io_replay e h now (s, rp) = (Ok u, st) <->
  exists rp', replay_accept rp h now = (true, rp') /\ st = (s, rp').
Proof using Type.
  cbn. destruct (replay_accept rp h now) as [[] rp1]; split; destruct u.
  - intros [= <-]. by exists rp1.
  - by intros (? & [= ->] & ->).
  - done.
  - by intros (? & ? & ?).
Qed.

Lemma server_handshake_ok key_resolver now server_nonce allow s rp session s' rp' :
  server_handshake bcrypt_hmac key_resolver now server_nonce allow (s, rp) =
    (Ok session, (s', rp')) ->
  exists flags request_id hello input output,
    server_completes key_resolver now server_nonce allow flags request_id hello rp session rp'
      input output /\
    moves stream sent s s' input output.
Proof using Type*.
  unfold server_handshake. intros HR. io_inv.
  match goal with H : io_replay _ _ _ _ = _ |- _ => apply io_replay_ok in H as (rp1 & Hrp & ->) end.
  io_inv. step_facts. chain_moves. bool_to_prop.
  match goal with Hf : wf_frame ?f, Er : ce_request_id (tf_envelope ?f) = ?rid,
      Ef : _ = handshake_frame (command_type_value CT_auth_hello) ?rid _, Eh : wf_hello ?h,
      Hp : admissible_preamble ?p, M : moves _ _ _ _ _ _ |- _ =>
    pose proof Hp as ((_ & _ & Hu & _) & _); pose proof Hf as ((_ & _ & _ & Hrid) & _);
    rewrite Er in *; exists (cp_flags p), rid, h end.
  eexists _, _. split; [|exact M]. unfold server_completes. eexists _, _, _, _, _. cbv zeta.
  split_and!; try done; subst; unfold sent_in_full, client_sends, server_sends; cbn [fst snd];
    rewrite <- ?app_assoc; try done.
  congruence.
Qed.
Lemma client_sends_full rid flags h proof rest :
  sent_in_full (client_sends rid flags h proof) ++ rest =
  encode_connection_preamble (peer_preamble role_client (ah_client_id h) (ah_key_id h) flags) ++
  encode_frame (handshake_frame (command_type_value CT_auth_hello) rid (encode_auth_hello h)) ++
  encode_frame (handshake_frame (command_type_value CT_auth_proof) rid proof) ++ rest.
Proof using Type. unfold sent_in_full, client_sends. cbn [fst snd]. by rewrite <- !app_assoc. Qed.

(** Fed what a client sends, a server completes. *)
Lemma server_handshake_run `{!SocketWorks S stream} key_resolver now server_nonce allow flags rid
    hello rp session rp' input output s rest :
  digest_sized bcrypt_hmac ->
  (forall nonce, server_nonce = Some nonce -> wf_challenge (mkAuthChallenge nonce now)) ->
  server_completes key_resolver now server_nonce allow flags rid hello rp session rp' input output ->
  sock_is_open s = true -> stream s = input ++ rest ->
  exists s', server_handshake bcrypt_hmac key_resolver now server_nonce allow (s, rp) =
      (Ok session, (s', rp')) /\ moves stream sent s s' input output.
Proof using Type*.
  intros Hd Hwf (psk & nonce & proof & key & accept & Hn & Hh & Hf & Hrid & Hk & He & Hrp & -> & -> & ->) Ho Hs.
  specialize (Hwf nonce Hn). cbv zeta in *. set (c := mkAuthChallenge nonce now) in *.
  destruct (evidence_sizes _ _ _ _ _ _ Hd He) as (L1 & L2 & L3).
  destruct (evidence_valid _ _ _ _ _ _ He) as (Lk & Hvh & _). destruct He as (E1 & E2 & E3).
  rewrite client_sends_full in Hs.
  pose proof (len_encode_auth_hello _ Hh) as LH. pose proof (len_encode_auth_challenge _ Hwf) as LC.
  set (aead := allow && wants_aead flags).
  destruct (receive_peer_preamble_run "expected client connection preamble" _ s _
    (client_preamble_admissible hello flags Hf Hh Hvh) Ho Hs) as (s1 & R1 & M1 & S1).
  pose proof (moves_input _ _ _ _ M1 Ho) as O1.
  destruct (receive_handshake_frame_run "expected authentication hello"
    (command_type_value CT_auth_hello) None (fun _ => true) rid (encode_auth_hello hello)
    s1 _ S1) as (s2 & R2 & M2 & S2); [done|done|rewrite LH; done|by left|done|done|].
  pose proof (moves_input _ _ _ _ M2 O1) as O2.
  destruct (send_preamble_run role_server (repeat (byte_of 0) 16) 0 (aead_flag aead) s2 _
    eq_refl eq_refl O2) as (s3 & R3 & M3). destruct (moves_output _ _ _ _ M3 O2 S2) as [O3 S3].
  destruct (send_plain_frame_run (command_type_value CT_auth_challenge) rid
    (encode_auth_challenge c) s3) as (s4 & R4 & M4); [done|done|rewrite LC; done|done|].
  destruct (moves_output _ _ _ _ M4 O3 S3) as [O4 S4].
  destruct (receive_handshake_frame_run "unexpected client authentication proof"
    (command_type_value CT_auth_proof) (Some rid) (fun payload => len payload =? 32) rid proof
    s4 _ S4) as (s5 & R5 & M5 & S5); [done|done|rewrite L1; done|by right|rewrite L1; done|done|].
  pose proof (moves_input _ _ _ _ M5 O4) as O5.
  destruct (send_plain_frame_run (command_type_value CT_auth_accept) rid accept s5)
    as (s6 & R6 & M6); [done|done|rewrite L3; done|done|].
  exists s6. split.
  - unfold server_handshake. lift_step R1. cbn [cp_flags cp_identity cp_key_id peer_preamble].
    lift_step R2. cbn [handshake_frame tf_envelope tf_payload plain_envelope ce_request_id].
    rewrite (proj2 (decode_hello_iff _ _) (conj Hh eq_refl)). pure_step. rewrite Hvh. pure_step.
    rewrite bool_decide_eq_true_2, Z.eqb_refl by done. pure_step. rewrite Hk. pure_step.
    rewrite (proj2 (Z.ltb_ge _ _)) by exact Lk. pure_step. rewrite Hn. pure_step.
    lift_step R3. lift_step R4. lift_step R5. fold c. rewrite E1. pure_step.
    cbn [handshake_frame tf_payload].
    rewrite (proj2 (constant_time_equal_spec proof proof) eq_refl). pure_step.
    rewrite (io_bind_run _ _ _ tt (s5, rp')) by (apply io_replay_ok; by exists rp').
    rewrite E2. pure_step. rewrite E3. pure_step. by lift_step R6.
  - chain_moves. unfold sent_in_full, client_sends, server_sends. cbn [fst snd].
    rewrite <- !app_assoc. exact M.
Qed.
End Sides.

(** ** The two sides together *)

Section Agreement.
Context (bcrypt_hmac : bytes -> bytes -> option bytes) (Hdigest : digest_sized bcrypt_hmac).
Context {S : Type} {SO : Socket S} {stream sent : S -> bytes} {SL : SocketLaws S stream sent}.

Lemma wants_aead_flag b : wants_aead (aead_flag b) = b.
Proof using Type. by destruct b. Qed.

Lemma aead_flag_u8 b : u8 (aead_flag b).
Proof using Type. by destruct b. Qed.

(** C31. A handshake between a client and a server that share the key completes:
    each side, reading what the other sends (in any segmentation), accepts, sends
    what the other was reading, and the two sessions are paired, with AES-GCM on
    exactly when both sides want it. *)
Theorem handshake_completes `{!SocketWorks S stream} sc ss psk hello challenge proof key accept
    random skew key_resolver rp rp' request allow rest_c rest_s :
  wf_hello hello -> wf_challenge challenge ->
  evidence bcrypt_hmac psk hello challenge proof key accept ->
  time_is_valid (ac_unix_time_seconds challenge) (ah_unix_time_seconds hello) skew = true ->
  u64 (random_request_id random) -> random_request_id random <> 0 ->
  key_resolver (ah_client_id hello) (ah_key_id hello) = Some psk ->
  replay_accept rp hello (ac_unix_time_seconds challenge) = (true, rp') ->
  sock_is_open sc = true -> sock_is_open ss = true ->
  let rid := random_request_id random in
  let from_client := sent_in_full (client_sends rid (aead_flag request) hello proof) in
  let from_server := sent_in_full (server_sends rid (aead_flag (allow && request)) challenge accept) in
  stream sc = from_server ++ rest_c -> stream ss = from_client ++ rest_s ->
  exists a b sc' ss',
    client_handshake bcrypt_hmac (ah_client_id hello) (ah_key_id hello) psk
      (ah_unix_time_seconds hello) skew (Some (ah_client_nonce hello)) random request sc =
      (Ok a, sc') /\
    server_handshake bcrypt_hmac key_resolver (ac_unix_time_seconds challenge)
      (Some (ac_server_nonce challenge)) allow (ss, rp) = (Ok b, (ss', rp')) /\
    paired a b /\ as_session_key a = key /\ as_aead_enabled a = allow && request /\
    as_client_id b = ah_client_id hello /\ as_key_id b = ah_key_id hello /\
    moves stream sent sc sc' from_server from_client /\
    moves stream sent ss ss' from_client from_server.
Proof using All.
  intros Hh Hc He Ht Hrid Hr Hk Hrp Hoc Hos rid from_client from_server Hsc Hss.
  destruct (evidence_valid _ _ _ _ _ _ _ He) as (_ & Hv & _).
  destruct hello as [id nonce t kid], challenge as [sn now]; cbn in *.
  destruct (client_handshake_run bcrypt_hmac id kid psk t skew (Some nonce) random request
    (aead_flag (allow && request)) (mkAuthChallenge sn now)
    (mkSession key id kid (request && (allow && request)) role_client) from_server from_client sc rest_c)
    as (sc' & Ec & Mc); try done.
  { by intros ? [= <-]. }
  { exists nonce, proof, key, accept. rewrite wants_aead_flag. cbv zeta.
    split_and!; try done. apply aead_flag_u8. }
  destruct (server_handshake_run bcrypt_hmac key_resolver now (Some sn) allow (aead_flag request) rid
    (mkAuthHello id nonce t kid) rp (mkSession key id kid (allow && request) role_server) rp'
    from_client from_server ss rest_s) as (ss' & Es & Ms); try done.
  { by intros ? [= <-]. }
  { exists psk, sn, proof, key, accept. rewrite wants_aead_flag. cbv zeta.
    split_and!; try done. apply aead_flag_u8. }
  eexists _, _, sc', ss'. split; [exact Ec|]. split; [exact Es|]. cbn.
  unfold paired; cbn. split_and!; try done; by destruct allow, request.
Qed.

(** The MACs under [key] that occur in [received] are those of messages its
    holders published. *)
Definition unforged_macs (key : bytes) (published : list AuthMessage) (received : bytes) : Prop :=
  forall message tag pre post,
    hmac_sha256 bcrypt_hmac key message = Some tag -> received = pre ++ tag ++ post ->
    exists m, m ∈ published /\ valid_auth_message m /\ message = auth_message_bytes m.

Lemma unforged_message key published received m tag pre post :
  unforged_macs key published received -> valid_auth_message m ->
  hmac_sha256 bcrypt_hmac key (auth_message_bytes m) = Some tag ->
  received = pre ++ tag ++ post -> m ∈ published.
Proof using Type.
  intros Hu Hm Ht Er. destruct (Hu _ _ _ _ Ht Er) as (m' & Hin & Hm' & E).
  by rewrite (auth_message_bytes_inj m m').
Qed.

(** The payload of a handshake frame is the end of its bytes. *)
Lemma handshake_frame_payload type rid payload :
  u16 type -> u64 rid -> len payload <= kMaxCommandPayload ->
  exists head, encode_frame (handshake_frame type rid payload) = head ++ payload.
Proof using Type.
  intros Ht Hr Hl. rewrite encode_frame_eq by by apply handshake_frame_wf.
  cbn [handshake_frame tf_payload]. rewrite app_assoc. by eexists.
Qed.

Lemma client_proof_occurs rid flags h proof rest :
  u64 rid -> len proof = 32 ->
  exists pre, sent_in_full (client_sends rid flags h proof) ++ rest = pre ++ proof ++ rest.
Proof using Type.
  intros Hr Hl. destruct (handshake_frame_payload (command_type_value CT_auth_proof) rid proof)
    as [head E]; [done|done|by rewrite Hl|].
  unfold sent_in_full, client_sends. cbn [fst snd]. rewrite E, (app_assoc _ head), <- (app_assoc _ proof).
  by eexists.
Qed.

Lemma server_proof_occurs rid flags c accept rest :
  u64 rid -> len accept = 32 ->
  exists pre, sent_in_full (server_sends rid flags c accept) ++ rest = pre ++ accept ++ rest.
Proof using Type.
  intros Hr Hl. destruct (handshake_frame_payload (command_type_value CT_auth_accept) rid accept)
    as [head E]; [done|done|by rewrite Hl|].
  unfold sent_in_full, server_sends. cbn [fst snd]. rewrite E, (app_assoc _ head), <- (app_assoc _ accept).
  by eexists.
Qed.

Lemma client_proof_mac psk h c proof :
  compute_client_proof bcrypt_hmac psk h c = Some proof ->
  hmac_sha256 bcrypt_hmac psk (auth_message_bytes (ClientProof h c)) = Some proof.
Proof using Type. unfold compute_client_proof. by destruct (proof_guard _ _ _). Qed.

Lemma server_proof_mac key h c accept :
  compute_server_proof bcrypt_hmac key h c = Some accept ->
  hmac_sha256 bcrypt_hmac key (auth_message_bytes (ServerProof h c)) = Some accept.
Proof using Type. unfold compute_server_proof. by destruct (proof_guard _ _ _). Qed.

(** C20. Mutual authentication against an attacker who controls the connection but
    cannot forge MACs.  A server that accepts a session was answered by a holder
    of that client's key: the client's proof for the hello it read and the very
    challenge it drew was published, the replay protector had not seen the hello,
    and the session key comes from those two.  A client that accepts was answered
    by a holder of the session key, with the server's proof for its own hello and
    the challenge it read, a recent one.  Two sides whose proofs name the same
    hello and challenge have the same session key, client and key number. *)
Theorem handshake_agreement psk published accepted
    key_resolver now_s server_nonce allow ss rp b ss' rp'
    client_id key_id now_c skew client_nonce random request sc a sc' :
  (forall nonce, server_nonce = Some nonce -> wf_challenge (mkAuthChallenge nonce now_s)) ->
  (forall nonce, client_nonce = Some nonce -> wf_hello (mkAuthHello client_id nonce now_c key_id)) ->
  u64 (random_request_id random) ->
  server_handshake bcrypt_hmac key_resolver now_s server_nonce allow (ss, rp) =
    (Ok b, (ss', rp')) ->
  client_handshake bcrypt_hmac client_id key_id psk now_c skew client_nonce random request sc =
    (Ok a, sc') ->
  key_resolver (as_client_id b) (as_key_id b) = Some psk ->
  unforged_macs psk published (stream ss) ->
  unforged_macs (as_session_key a) accepted (stream sc) ->
  exists hs cs hc cc,
    (ClientProof hs cs ∈ published /\ server_nonce = Some (ac_server_nonce cs) /\
     ac_unix_time_seconds cs = now_s /\ ah_client_id hs = as_client_id b /\
     ah_key_id hs = as_key_id b /\ replay_accept rp hs now_s = (true, rp') /\
     derive_session_key bcrypt_hmac psk hs cs = Some (as_session_key b)) /\
    (ServerProof hc cc ∈ accepted /\ client_nonce = Some (ah_client_nonce hc) /\
     ah_unix_time_seconds hc = now_c /\ ah_client_id hc = client_id /\ ah_key_id hc = key_id /\
     time_is_valid (ac_unix_time_seconds cc) now_c skew = true /\
     derive_session_key bcrypt_hmac psk hc cc = Some (as_session_key a)) /\
    (hs = hc -> cs = cc -> as_session_key a = as_session_key b /\
       as_client_id a = as_client_id b /\ as_key_id a = as_key_id b).
Proof using All.
  intros Hws Hwc Hrid Hs Hc Hk Hps Hpc.
  apply (server_handshake_ok bcrypt_hmac (stream:=stream) (sent:=sent)) in Hs as (fs & rid & hs & i & o & (psk' & sn & proof & key & acc &
    Hn & Hh & _ & Hr & Hk' & He & Hrp & -> & -> & _) & (Ms & _)).
  apply (client_handshake_ok bcrypt_hmac (stream:=stream) (sent:=sent)) in Hc as (fc & cc & i' & o' & (cn & proof' & key' & acc' & Hn' & _ &
    _ & Hcc & _ & Ht & He' & -> & -> & _) & (Mc & _)).
  cbn [as_client_id as_key_id as_session_key] in *. rewrite Hk in Hk'. injection Hk' as <-. specialize (Hws _ Hn). specialize (Hwc _ Hn').
  destruct (evidence_sizes _ _ _ _ _ _ _ Hdigest He) as (Hl & _ & _).
  destruct (evidence_sizes _ _ _ _ _ _ _ Hdigest He') as (_ & _ & Hl').
  destruct He as (E1 & E2 & E3), He' as (E1' & E2' & E3').
  exists hs, (mkAuthChallenge sn now_s), (mkAuthHello client_id cn now_c key_id), cc.
  split; [|split].
  - split_and!; try done. destruct (client_proof_occurs rid fs hs proof (stream ss') Hr Hl) as [pre E].
    rewrite E in Ms.
    exact (unforged_message _ _ _ (ClientProof hs _) _ _ _ Hps (conj Hh Hws)
      (client_proof_mac _ _ _ _ E1) Ms).
  - split_and!; try done.
    destruct (server_proof_occurs (random_request_id random) fc cc acc' (stream sc') Hrid Hl')
      as [pre E]. rewrite E in Mc.
    exact (unforged_message _ _ _ (ServerProof _ cc) _ _ _ Hpc (conj Hwc Hcc)
      (server_proof_mac _ _ _ _ E3') Mc).
  - intros E Ec. subst hs cc. cbn. rewrite E2 in E2'. injection E2' as ->. done.
Qed.

(** The mode is not part of what the sides agree on: a client that accepts one
    stream accepts the same stream with other flags in the server's preamble, and
    takes its mode from them. *)
Lemma preamble_flags_unauthenticated `{!SocketWorks S stream} client_id key_id psk now skew nonce
    random request flags flags' c a input output s rest :
  u64 (random_request_id random) -> wf_hello (mkAuthHello client_id nonce now key_id) -> u8 flags' ->
  client_completes bcrypt_hmac client_id key_id psk now skew (Some nonce) random request flags c a
    input output ->
  sock_is_open s = true ->
  exists input', length input' = length input /\
    (stream s = input' ++ rest ->
     exists s', client_handshake bcrypt_hmac client_id key_id psk now skew (Some nonce) random
         request s =
       (Ok (mkSession (as_session_key a) client_id key_id (request && wants_aead flags') role_client),
        s')).
Proof using All.
  intros Hr Hw Hf (n & proof & key & accept & Hn & Hv & Hr0 & Hc & _ & Ht & He & -> & -> & ->) Ho.
  exists (sent_in_full (server_sends (random_request_id random) flags' c accept)). split.
  { unfold sent_in_full, server_sends. cbn [fst snd]. by rewrite !length_app. }
  intros Hs. edestruct (client_handshake_run bcrypt_hmac client_id key_id psk now skew (Some nonce)
    random request flags' c) as (s' & E & _); [done|done| | |done|exact Hs|].
  - by intros ? [= <-].
  - exists n, proof, key, accept. by split_and!.
  - by exists s'.
Qed.
End Agreement.
(** ** Examples *)

Definition sample_psk : bytes := repeat (byte_of 0x51) 32.
Definition sample_random : option bytes := Some (repeat (byte_of 1) 8).
Definition sample_rid : Z := random_request_id sample_random.
Definition sample_resolver (_ : bytes) (_ : Z) : option bytes := Some sample_psk.
Definition sample_replay : ReplayProtector := replay_create 16 120.
Definition sample_replay' : ReplayProtector := (replay_accept sample_replay sample_hello 1001).2.

Definition digest_of (v : Z) : bytes := repeat (byte_of v) 32.

(** A MAC given by a table: the three values of one handshake, and one digest for
    everything else. *)
Definition table_hmac (key message : bytes) : option bytes :=
  Some (if bool_decide (key = sample_psk /\ message = auth_message_bytes (ClientProof sample_hello sample_challenge))
        then digest_of 0xa1
        else if bool_decide (key = sample_psk /\ message = auth_message_bytes (SessionKey sample_hello sample_challenge))
        then digest_of 0xa2
        else if bool_decide (key = digest_of 0xa2 /\ message = auth_message_bytes (ServerProof sample_hello sample_challenge))
        then digest_of 0xa3
        else digest_of 0xee).

Lemma table_hmac_sized : digest_sized table_hmac.
Proof.
  intros key message digest. unfold table_hmac. intros [= <-].
  by repeat case_bool_decide.
Qed.

Lemma sample_evidence :
  evidence table_hmac sample_psk sample_hello sample_challenge
    (digest_of 0xa1) (digest_of 0xa2) (digest_of 0xa3).
Proof. split_and!; vm_compute; reflexivity. Qed.

Definition sample_from_client : bytes :=
  sent_in_full (client_sends sample_rid 1 sample_hello (digest_of 0xa1)).
Definition sample_from_server : bytes :=
  sent_in_full (server_sends sample_rid 1 sample_challenge (digest_of 0xa3)).
Definition sample_client_end : Line := mkLine sample_from_server [] true.
Definition sample_server_end : Line := mkLine sample_from_client [] true.

Lemma sample_hello_wf : wf_hello sample_hello.
Proof. repeat split; by vm_compute. Qed.

Lemma sample_challenge_wf : wf_challenge sample_challenge.
Proof. repeat split; by vm_compute. Qed.

Lemma sample_replay_accepts : replay_accept sample_replay sample_hello 1001 = (true, sample_replay').
Proof.
  unfold sample_replay'. assert ((replay_accept sample_replay sample_hello 1001).1 = true) as E
    by by vm_compute.
  by destruct (replay_accept sample_replay sample_hello 1001) as [ok rp]; cbn in E |- *; subst.
Qed.

Lemma handshake_completes_witness :
  exists a b sc' ss',
    client_handshake table_hmac (repeat (byte_of 7) 16) 1 sample_psk 1000 120
      (Some (repeat (byte_of 9) 32)) sample_random true sample_client_end = (Ok a, sc') /\
    server_handshake table_hmac sample_resolver 1001 (Some (repeat (byte_of 3) 32)) true
      (sample_server_end, sample_replay) = (Ok b, (ss', sample_replay')) /\
    paired a b /\ as_aead_enabled a = true.
Proof.
  destruct (handshake_completes table_hmac table_hmac_sized sample_client_end sample_server_end
    sample_psk sample_hello sample_challenge _ _ _ sample_random 120 sample_resolver sample_replay
    sample_replay' true true [] [] sample_hello_wf sample_challenge_wf sample_evidence)
    as (a & b & sc' & ss' & Hc & Hs & Hp & _ & Ha & _).
  1-4: by vm_compute.
  - exact sample_replay_accepts.
  - done.
  - done.
  - by rewrite app_nil_r.
  - by rewrite app_nil_r.
  - exists a, b, sc', ss'. exact (conj Hc (conj Hs (conj Hp Ha))).
Defined.

(** Does [tag] occur in the bytes? *)
Definition occurs (tag received : bytes) : bool :=
  existsb (fun k => bool_decide (take (length tag) (drop k received) = tag))
    (seq 0 (Datatypes.S (length received))).

Lemma occurs_complete tag pre post : occurs tag (pre ++ tag ++ post) = true.
Proof.
  apply existsb_exists. exists (length pre). rewrite drop_app_length, take_app_length.
  split; [|by apply bool_decide_eq_true_2]. apply list_elem_of_In, elem_of_seq.
  rewrite length_app. lia.
Qed.

(** A digest of the table that does not occur is no forgery. *)
Lemma table_unforged key published received :
  (forall m tag, table_hmac key m = Some tag -> occurs tag received = true ->
     exists a, a ∈ published /\ valid_auth_message a /\ m = auth_message_bytes a) ->
  unforged_macs table_hmac key published received.
Proof.
  intros H m tag pre post Ht ->. unfold hmac_sha256 in Ht. destruct (_ || _); [done|].
  exact (H m tag Ht (occurs_complete tag pre post)).
Qed.

Lemma sample_unforged :
  unforged_macs table_hmac sample_psk [ClientProof sample_hello sample_challenge] sample_from_client /\
  unforged_macs table_hmac (digest_of 0xa2) [ServerProof sample_hello sample_challenge]
    sample_from_server.
Proof.
  assert (Hbad : forallb (fun tag => negb (occurs tag sample_from_client) && negb (occurs tag sample_from_server))
    [digest_of 0xa2; digest_of 0xee] = true) by (vm_compute; reflexivity).
  assert (Ha1 : occurs (digest_of 0xa1) sample_from_server = false) by (vm_compute; reflexivity).
  assert (Ha3 : occurs (digest_of 0xa3) sample_from_client = false) by (vm_compute; reflexivity).
  cbn [forallb] in Hbad. bool_to_prop.
  assert (Hv : valid_auth_message (ClientProof sample_hello sample_challenge))
    by (split; [apply sample_hello_wf|apply sample_challenge_wf]).
  split; apply table_unforged; intros m tag; unfold table_hmac; intros [= <-] Hocc;
    repeat case_bool_decide; try congruence.
  - exists (ClientProof sample_hello sample_challenge). split; [by left|].
    split; [done|]. by match goal with H : _ /\ _ = _ |- _ => destruct H end.
  - exists (ServerProof sample_hello sample_challenge). split; [by left|].
    split; [done|]. by match goal with H : _ /\ _ = _ |- _ => destruct H end.
Qed.

Definition sample_session_of (role : Z) : AuthenticatedSession :=
  mkSession (digest_of 0xa2) (repeat (byte_of 7) 16) 1 true role.

Lemma sample_client_accepts :
  (client_handshake table_hmac (repeat (byte_of 7) 16) 1 sample_psk 1000 120
     (Some (repeat (byte_of 9) 32)) sample_random true sample_client_end).1 =
  Ok (sample_session_of role_client).
Proof. vm_compute. reflexivity. Qed.

Lemma sample_server_accepts :
  (server_handshake table_hmac sample_resolver 1001 (Some (repeat (byte_of 3) 32)) true
     (sample_server_end, sample_replay)).1 = Ok (sample_session_of role_server).
Proof. vm_compute. reflexivity. Qed.

Lemma handshake_agreement_witness :
  exists a b sc' ss' rp',
    client_handshake table_hmac (repeat (byte_of 7) 16) 1 sample_psk 1000 120
      (Some (repeat (byte_of 9) 32)) sample_random true sample_client_end = (Ok a, sc') /\
    server_handshake table_hmac sample_resolver 1001 (Some (repeat (byte_of 3) 32)) true
      (sample_server_end, sample_replay) = (Ok b, (ss', rp')) /\
    exists hs cs, ClientProof hs cs ∈ [ClientProof sample_hello sample_challenge] /\
      derive_session_key table_hmac sample_psk hs cs = Some (as_session_key b).
Proof.
  assert (Hws : forall nonce, Some (repeat (byte_of 3) 32) = Some nonce ->
    wf_challenge (mkAuthChallenge nonce 1001)) by (intros ? [= <-]; exact sample_challenge_wf).
  assert (Hwc : forall nonce, Some (repeat (byte_of 9) 32) = Some nonce ->
    wf_hello (mkAuthHello (repeat (byte_of 7) 16) nonce 1000 1))
    by (intros ? [= <-]; exact sample_hello_wf).
  assert (Hr : u64 (random_request_id sample_random)) by by vm_compute.
  pose proof sample_client_accepts as Ec. pose proof sample_server_accepts as Es.
  destruct (client_handshake _ _ _ _ _ _ _ _ _ _) as [ra sc'] eqn:Hc.
  destruct (server_handshake _ _ _ _ _ _) as [rb [ss' rp']] eqn:Hs.
  cbn [fst] in Ec, Es. rewrite Ec in Hc. rewrite Es in Hs. destruct sample_unforged as [U1 U2].
  change sample_from_client with (ln_in sample_server_end) in U1.
  change sample_from_server with (ln_in sample_client_end) in U2.
  change (digest_of 0xa2) with (as_session_key (sample_session_of role_client)) in U2.
  pose proof (handshake_agreement table_hmac table_hmac_sized (stream := ln_in) (sent := ln_out)
    sample_psk _ _ _ _ _ _ _ _ _ _ _ _ _ _ _ _ _ _ _ _ _ Hws Hwc Hr Hs Hc eq_refl U1 U2) as HA.
  destruct HA
    as (hs & cs & hc & cc & (Hin & _ & _ & _ & _ & _ & Hk) & _).
  eexists _, _, sc', ss', rp'. rewrite Ec, Es. split; [reflexivity|]. split; [reflexivity|]. exists hs, cs. exact (conj Hin Hk).
Defined.

End Handshake.
