(* ===== verification/Json.v ===== *)
(** The pieces shared by the two hand-written JSON readers of the update code
    (JsonReader in common/src/update_manifest.cpp, MiniJsonReader in
    common/src/update_staging.cpp): white space, punctuation, booleans, and
    decimal numbers as [std::ostream] and [std::to_chars] print them.

    A reader keeps a [pos] in its input; here each step takes and returns the
    unread rest of the input. *)

From S2P Require Import Prelude.

Module Json.

(** ** Characters *)

Definition quote : byte := Byte.x22.
Definition backslash : byte := Byte.x5c.

(** [std::isdigit] and [std::isxdigit] of the "C" locale. *)
Definition isdigit (c : byte) : bool := (48 <=? byte_val c) && (byte_val c <=? 57).

Definition isxdigit (c : byte) : bool :=
  isdigit c || ((65 <=? byte_val c) && (byte_val c <=? 70)) ||
  ((97 <=? byte_val c) && (byte_val c <=? 102)).

Definition is_white (c : byte) : bool :=
  bool_decide (c = Byte.x20 \/ c = Byte.x09 \/ c = Byte.x0d \/ c = Byte.x0a).

(** ** The reader *)

Fixpoint skip_whitespace (input : bytes) : bytes :=
  match input with
  | c :: rest => if is_white c then skip_whitespace rest else input
  | [] => []
  end.

(** The white space is skipped whether or not the character matches. *)
Definition match_char (expected : byte) (input : bytes) : bool * bytes :=
  match skip_whitespace input with
  | c :: rest => if bool_decide (c = expected) then (true, rest) else (false, c :: rest)
  | [] => (false, [])
  end.

Fixpoint digits_loop (maximum val : Z) (input : bytes) : option (Z * bytes) :=
  match input with
  | c :: rest =>
      if isdigit c then
        let digit := byte_val c - 48 in
        if val >? (maximum - digit) / 10 then None
        else digits_loop maximum (val * 10 + digit) rest
      else Some (val, input)
  | [] => Some (val, [])
  end.

Definition parse_bool (input : bytes) : option (bool * bytes) :=
  let input := skip_whitespace input in
  if bool_decide (take 4 input = text "true") then Some (true, drop 4 input)
  else if bool_decide (take 5 input = text "false") then Some (false, drop 5 input)
  else None.

(** ** Numbers in decimal *)

Fixpoint dec_loop (fuel : nat) (n : Z) (acc : bytes) : bytes :=
  match fuel with
  | O => acc
  | S fuel' =>
      let acc := byte_of (48 + n mod 10) :: acc in
      if n <? 10 then acc else dec_loop fuel' (n / 10) acc
  end.

(** Twenty digits are enough for 64 bits. *)
Definition dec (n : Z) : bytes := dec_loop 20 n [].

Definition dec_value (v : Z) (ds : bytes) : Z :=
  fold_left (fun v c => v * 10 + (byte_val c - 48)) ds v.

(** ** Lemmas *)

Lemma digit_byte d : 0 <= d < 10 -> isdigit (byte_of (48 + d)) = true /\ byte_val (byte_of (48 + d)) = 48 + d.
Proof.
  intros Hd. unfold isdigit. rewrite byte_val_of, Z.mod_small by lia.
  split; [|done]. apply andb_true_iff. split; lia.
Qed.

Lemma dec_value_app v a b : dec_value v (a ++ b) = dec_value (dec_value v a) b.
Proof. apply fold_left_app. Qed.

Lemma dec_loop_spec fuel n acc :
  0 <= n < 10 ^ Z.of_nat fuel -> (0 < fuel)%nat ->
  exists ds, dec_loop fuel n acc = ds ++ acc /\ forallb isdigit ds = true /\ ds <> [] /\
    dec_value 0 ds = n /\ (head ds = Some (byte_of 48) -> n = 0).
Proof.
  revert n acc. induction fuel as [|fuel IH]; intros n acc Hn Hf; [lia|]. cbn [dec_loop].
  pose proof (Z.mod_pos_bound n 10 ltac:(lia)) as Hm.
  destruct (digit_byte (n mod 10) Hm) as [Hd Hv].
  destruct (Z.ltb_spec n 10) as [Hlt|Hge].
  - rewrite Z.mod_small in * by lia. exists [byte_of (48 + n)]. split; [done|]. cbn [forallb]. rewrite Hd.
    split; [done|]. split; [done|]. split; [unfold dec_value; cbn [fold_left]; rewrite Hv; lia|].
    intros E. apply (inj Some) in E.
    apply (f_equal byte_val) in E. rewrite Hv, byte_val_of in E.
    change (48 mod 256) with 48 in E. lia.
  - destruct fuel as [|fuel]; [change (10 ^ Z.of_nat 1) with 10 in Hn; lia|].
    destruct (IH (n / 10) (byte_of (48 + n mod 10) :: acc)) as (ds & -> & Hds & Hne & Hval & Hz).
    { rewrite Nat2Z.inj_succ, Z.pow_succ_r in Hn by lia.
      split; [apply Z.div_pos; lia|]. apply Z.div_lt_upper_bound; lia. }
    { lia. }
    exists (ds ++ [byte_of (48 + n mod 10)]). rewrite <- app_assoc. split; [done|].
    rewrite forallb_app, Hds. cbn [forallb]. rewrite Hd. split; [done|].
    split; [by destruct ds|]. rewrite dec_value_app, Hval. unfold dec_value at 1. cbn [fold_left].
    rewrite Hv. split; [pose proof (Z.div_mod n 10); lia|].
    destruct ds as [|c ds]; [done|]. cbn. intros E. apply Hz in E.
    assert (n / 10 = 0) by done. pose proof (Z.div_mod n 10). lia.
Qed.

Lemma dec_spec n :
  u64 n -> exists c ds, dec n = c :: ds /\ forallb isdigit (dec n) = true /\
    dec_value 0 (dec n) = n /\ (c = byte_of 48 -> n = 0).
Proof.
  intros Hn. destruct (dec_loop_spec 20 n []) as (ds & E & Hd & Hne & Hv & Hz).
  { split; [ulia|]. change (10 ^ Z.of_nat 20) with 100000000000000000000. ulia. }
  { lia. }
  unfold dec. rewrite E, app_nil_r. destruct ds as [|c ds]; [done|]. exists c, ds.
  split; [done|]. split; [done|]. split; [done|]. intros ->. by apply Hz.
Qed.

Lemma dec_inj m n : u64 m -> u64 n -> dec m = dec n -> m = n.
Proof.
  intros Hm Hn E. destruct (dec_spec m Hm) as (_ & _ & _ & _ & <- & _).
  destruct (dec_spec n Hn) as (_ & _ & _ & _ & <- & _). by rewrite E.
Qed.

Lemma dec_value_mono v ds : 0 <= v -> forallb isdigit ds = true -> v <= dec_value v ds.
Proof.
  revert v. induction ds as [|c ds IH]; intros v Hv Hd; [done|]. cbn in Hd.
  apply andb_true_iff in Hd as [Hc Hd]. unfold isdigit in Hc. bool_to_prop. cbn.
  etransitivity; [|apply IH; [lia|done]]. lia.
Qed.

(** Reading digits back, when the number fits. *)
Lemma digits_loop_read maximum v ds rest :
  0 <= v -> forallb isdigit ds = true -> dec_value v ds <= maximum ->
  match rest with c :: _ => isdigit c = false | [] => True end ->
  digits_loop maximum v (ds ++ rest) = Some (dec_value v ds, rest).
Proof.
  revert v. induction ds as [|c ds IH]; intros v Hv Hd Hm Hr; cbn.
  { destruct rest as [|c rest]; [done|]. cbn. by rewrite Hr. }
  cbn in Hd. apply andb_true_iff in Hd as [Hc Hd]. rewrite Hc.
  unfold isdigit in Hc. bool_to_prop. set (d := byte_val c - 48) in *.
  assert (Hle : v * 10 + d <= maximum).
  { etransitivity; [|exact Hm]. apply (dec_value_mono (v * 10 + d) ds); [lia|done]. }
  destruct (Z.gtb_spec v ((maximum - d) / 10)) as [Hgt|Hok].
  - exfalso. apply Z.lt_gt, Z.gt_lt in Hgt. assert (v <= (maximum - d) / 10); [|lia].
    apply Z.div_le_lower_bound; lia.
  - apply IH; [lia|done|done|done].
Qed.

(** What the loop read. *)
Lemma digits_loop_inv maximum v input w rest :
  0 <= v <= maximum -> digits_loop maximum v input = Some (w, rest) ->
  exists ds, input = ds ++ rest /\ forallb isdigit ds = true /\ w = dec_value v ds /\
    v <= w <= maximum.
Proof.
  revert v. induction input as [|c input IH]; intros v Hv; cbn.
  { intros [= <- <-]. exists []. split_and!; try done; lia. }
  destruct (isdigit c) eqn:Hc; [|intros [= <- <-]; exists []; split_and!; try done; lia].
  destruct (Z.gtb_spec v ((maximum - (byte_val c - 48)) / 10)) as [|Hle]; [done|].
  pose proof Hc as Hd. unfold isdigit in Hd. bool_to_prop.
  assert (v * 10 + (byte_val c - 48) <= maximum).
  { assert (v * 10 <= (maximum - (byte_val c - 48)) / 10 * 10) by lia.
    pose proof (Z.mul_div_le (maximum - (byte_val c - 48)) 10). lia. }
  intros (ds & -> & Hds & -> & Hw)%IH; [|lia]. exists (c :: ds). cbn. rewrite Hc.
  split_and!; try done; lia.
Qed.

(** A test that every byte passes, tried on all of them. *)
Lemma byte_forall (P : byte -> bool) :
  forallb (fun v => P (byte_of v)) (seqZ 0 256) = true -> forall c, P c = true.
Proof.
  rewrite forallb_forall. intros H c. rewrite <- (byte_of_val c). apply H.
  apply list_elem_of_In, elem_of_seqZ. pose proof (byte_val_range c). lia.
Qed.

(** *** White space and punctuation *)

Definition starts_black (s : bytes) : bool :=
  match s with c :: _ => negb (is_white c) | [] => true end.

Lemma skip_black s : starts_black s = true -> skip_whitespace s = s.
Proof. destruct s as [|c s]; [done|]. cbn. by destruct (is_white c). Qed.

Lemma skip_white w s : forallb is_white w = true -> skip_whitespace (w ++ s) = skip_whitespace s.
Proof.
  induction w as [|c w IH]; [done|]. cbn. intros [-> Hw]%andb_true_iff. by apply IH.
Qed.

Lemma skip_idem s : skip_whitespace (skip_whitespace s) = skip_whitespace s.
Proof. induction s as [|c s IH]; [done|]. cbn. destruct (is_white c) eqn:E; [done|]. cbn. by rewrite E. Qed.

Lemma match_char_same c s : is_white c = false -> match_char c (c :: s) = (true, s).
Proof. intros E. unfold match_char. cbn. by rewrite E, bool_decide_eq_true_2. Qed.

Lemma match_char_other c d s :
  is_white d = false -> d <> c -> match_char c (d :: s) = (false, d :: s).
Proof. intros E Hne. unfold match_char. cbn. by rewrite E, bool_decide_eq_false_2. Qed.

Lemma match_char_white c w s :
  forallb is_white w = true -> match_char c (w ++ s) = match_char c s.
Proof. intros Hw. unfold match_char. by rewrite skip_white. Qed.

Lemma parse_bool_read (b : bool) rest :
  parse_bool (text (if b then "true" else "false") ++ rest) = Some (b, rest).
Proof. by destruct b. Qed.

End Json.
