(* ===== verification/PublicText.v ===== *)
(** Public diagnostics (common/src/telemetry.cpp): the filter that every text
    passes before it leaves the machine, and the bounded list of recent events
    and the report that are made of filtered text.

    Text is bytes; the character classes are those of the "C" locale.  A position
    in the text is the rest of the text from there. *)

From S2P Require Import Prelude Json.

Module PublicText.
Import Json.

(** ** Characters *)

Definition in_range (low high : Z) (c : byte) : bool := (low <=? byte_val c) && (byte_val c <=? high).

Definition ascii_space (c : byte) : bool := (byte_val c =? 32) || in_range 9 13 c.
Definition ascii_digit (c : byte) : bool := isdigit c.
Definition ascii_alpha (c : byte) : bool := in_range 65 90 c || in_range 97 122 c.
Definition isalnum (c : byte) : bool := ascii_alpha c || isdigit c.
Definition iscntrl (c : byte) : bool := in_range 0 31 c || (byte_val c =? 127).

Definition ascii_lower (c : byte) : byte :=
  if in_range 65 90 c then byte_of (byte_val c + 32) else c.

Definition lower_ascii (value : bytes) : bytes := map ascii_lower value.

(** The character [c] of a literal. *)
Definition is_char (c : string) (b : byte) : bool := bool_decide ([b] = text c).
Definition one_of (set : bytes) (b : byte) : bool := bool_decide (b ∈ set).

Definition space : byte := Byte.x20.
Definition question_mark : byte := Byte.x3f.

(** ** Sensitive words *)

Definition punctuation : bytes := quote :: text "'()[]{}<>,;".

Fixpoint trim_front (token : bytes) : bytes :=
  match token with
  | c :: rest => if one_of punctuation c then trim_front rest else token
  | [] => []
  end.

Fixpoint trim_back (reversed : bytes) : bytes :=
  match reversed with
  | c :: rest => if one_of punctuation c || is_char "." c then trim_back rest else reversed
  | [] => []
  end.

Definition trim_token (token : bytes) : bytes := rev (trim_back (rev (trim_front token))).

(** The text before and after the first character of a class. *)
Fixpoint split_first (class : byte -> bool) (token : bytes) : option (bytes * bytes) :=
  match token with
  | [] => None
  | c :: rest =>
      if class c then Some ([], rest)
      else match split_first class rest with
           | Some (before, after) => Some (c :: before, after)
           | None => None
           end
  end.

Definition keys : list bytes :=
  [text "authorization"; text "clientid"; text "hostname"; text "machine"; text "machinename";
   text "password"; text "psk"; text "school"; text "secret"; text "token"; text "username";
   text "sas"; text "sascode"; text "pairingcode"].

Definition is_dash (c : byte) : bool := is_char "-" c || is_char "_" c.

(** [key.erase(std::remove_if(...))]. *)
Definition without_dashes (key : bytes) : bytes := List.filter (fun c => negb (is_dash c)) key.

Definition sensitive_assignment (token : bytes) : bool :=
  match split_first (fun c => is_char "=" c || is_char ":" c) token with
  | None => false
  | Some (before, _) => bool_decide (without_dashes (lower_ascii before) ∈ keys)
  end.

Fixpoint drop_back (reversed : bytes) : bytes :=
  match reversed with
  | c :: rest => if is_char ":" c || is_char "=" c then drop_back rest else reversed
  | [] => []
  end.

Definition sensitive_key (token : bytes) : bool :=
  let key := lower_ascii (trim_token token) in
  bool_decide (without_dashes (rev (drop_back (rev key))) ∈ keys).

Fixpoint drive_path (token : bytes) : bool :=
  match token with
  | a :: ((b :: c :: _) as rest) =>
      ascii_alpha a && is_char ":" b && (is_char "\" c || is_char "/" c) || drive_path rest
  | _ => false
  end.

Definition contains_windows_path (token : bytes) : bool :=
  match token with
  | a :: b :: _ => is_char "\" a && is_char "\" b || is_char "/" a && is_char "/" b
  | _ => false
  end || drive_path token.

Definition contains_email (token : bytes) : bool :=
  match split_first (is_char "@") token with
  | None => false
  | Some (before, after) =>
      negb (bool_decide (before = [])) && existsb (is_char ".") after
  end.

(** ** Addresses *)

(** At most [digits] digits of an octet. *)
Fixpoint read_octet (digits : nat) (octet : Z) (rest : bytes) : Z * bytes :=
  match digits, rest with
  | S digits', c :: rest' =>
      if ascii_digit c then read_octet digits' (octet * 10 + (byte_val c - 48)) rest'
      else (octet, rest)
  | _, _ => (octet, rest)
  end.

Definition starts (class : byte -> bool) (rest : bytes) : bool :=
  match rest with c :: _ => class c | [] => false end.

(** The text after [parts] octets separated by dots. *)
Fixpoint after_octets (parts : nat) (rest : bytes) : option bytes :=
  match parts with
  | O => Some rest
  | S parts' =>
      if negb (starts ascii_digit rest) then None
      else
        let '(octet, rest) := read_octet 3 0 rest in
        if (octet >? 255) || starts ascii_digit rest then None
        else
          match parts', rest with
          | O, _ => Some rest
          | _, c :: rest' => if is_char "." c then after_octets parts' rest' else None
          | _, [] => None
          end
  end.

Definition ipv4_length (value : bytes) : Z :=
  match after_octets 4 value with Some rest => len value - len rest | None => 0 end.

Fixpoint contains_ipv4 (token : bytes) : bool :=
  match token with
  | [] => false
  | c :: rest => ascii_digit c && negb (ipv4_length token =? 0) || contains_ipv4 rest
  end.

Definition ipv6_character (c : byte) : bool := isxdigit c || one_of (text ":.%[]") c.

Definition contains_ip_address (token : bytes) : bool :=
  contains_ipv4 token ||
  (2 <=? len (List.filter (is_char ":") token)) && forallb ipv6_character token.

(** [groups] pairs of hexadecimal digits and nothing more. *)
Fixpoint mac_groups (groups : nat) (separator : byte) (token : bytes) : bool :=
  match groups with
  | O => bool_decide (token = [])
  | S groups' =>
      match token with
      | a :: b :: rest =>
          isxdigit a && isxdigit b &&
          match groups', rest with
          | O, _ => bool_decide (rest = [])
          | _, c :: rest' => bool_decide (c = separator) && mac_groups groups' separator rest'
          | _, [] => false
          end
      | _ => false
      end
  end.

Definition contains_mac_address (token : bytes) : bool :=
  mac_groups 6 Byte.x3a token || mac_groups 6 Byte.x2d token.

Definition encoded_character (c : byte) : bool := isalnum c || one_of (text "+/_=-") c.

Definition looks_like_secret (token : bytes) : bool :=
  negb (len token <? 32) &&
  forallb encoded_character token &&
  ((4 <=? len (List.filter (is_char "-") token)) || (40 <=? len token)).

Fixpoint skip_digits (rest : bytes) : bytes :=
  match rest with c :: rest' => if ascii_digit c then skip_digits rest' else rest | [] => [] end.

Definition client_prefix : bytes := text "client ".

(** The text after a client identifier that starts here. *)
Definition contains_client_identifier (rest : bytes) : option bytes :=
  if negb (bool_decide (lower_ascii (take 7 rest) = client_prefix)) then None
  else
    let digits := drop 7 rest in
    if starts ascii_digit digits then Some (skip_digits digits) else None.

(** ** The filter *)

Definition append_limited (output value : bytes) (maximum : Z) : bytes :=
  if len output >=? maximum then output
  else output ++ take (Z.to_nat (maximum - len output)) value.

Fixpoint skip_spaces (rest : bytes) : bytes :=
  match rest with c :: rest' => if ascii_space c then skip_spaces rest' else rest | [] => [] end.

Fixpoint take_token (rest : bytes) : bytes * bytes :=
  match rest with
  | [] => ([], [])
  | c :: rest' =>
      if ascii_space c then ([], rest)
      else let '(token, after) := take_token rest' in (c :: token, after)
  end.

(** A copied token, without its control characters, and whether it was cut. *)
Fixpoint copy_token (output token : bytes) (maximum : Z) : bytes * bool :=
  match token with
  | [] => (output, false)
  | c :: rest =>
      if len output >=? maximum then (output, true)
      else copy_token (if iscntrl c then append_limited output [question_mark] maximum else output ++ [c])
             rest maximum
  end.

Definition redact_tail (core : bytes) : bool :=
  sensitive_assignment core || sensitive_key core || contains_windows_path core.

Definition redact_token (core : bytes) : bool :=
  contains_email core || contains_ip_address core || contains_mac_address core ||
  looks_like_secret core.

Definition redacted : bytes := text "<redacted>".
Definition client_id_text : bytes := text "client <id>".

(** The loop: the output, whether a token was cut, and the text not looked at.
    Every turn takes a byte of the text at least. *)
Fixpoint sanitize_loop (fuel : nat) (maximum : Z) (rest output : bytes) (truncated : bool)
    : bytes * bool * bytes :=
  match fuel, rest with
  | O, _ | _, [] => (output, truncated, rest)
  | S fuel', c :: _ =>
      if negb (len output <? maximum) then (output, truncated, rest)
      else
        match contains_client_identifier rest with
        | Some rest' =>
            sanitize_loop fuel' maximum rest' (append_limited output client_id_text maximum) truncated
        | None =>
            if ascii_space c then
              let output :=
                if negb (bool_decide (output = [])) && negb (bool_decide (last output = Some space))
                then append_limited output [space] maximum else output in
              sanitize_loop fuel' maximum (skip_spaces rest) output truncated
            else
              let '(token, rest') := take_token rest in
              let core := trim_token token in
              if redact_tail core then (append_limited output redacted maximum, truncated, [])
              else if redact_token core then
                sanitize_loop fuel' maximum rest' (append_limited output redacted maximum) truncated
              else
                let '(output, cut) := copy_token output token maximum in
                sanitize_loop fuel' maximum rest' output (truncated || cut)
        end
  end.

Definition sanitize_public_text (text_ : bytes) (maximum_bytes : Z) : bytes :=
  if maximum_bytes =? 0 then []
  else
    let '(output, truncated, rest) := sanitize_loop (length text_) maximum_bytes text_ [] false in
    if (truncated || negb (bool_decide (rest = []))) && (maximum_bytes >=? 3)
    then take (Z.to_nat (Z.min (len output) (maximum_bytes - 3))) output ++ text "..."
    else output.

(** ** Events and the report *)

Definition kMaximumEvents : Z := 64.
Definition kMaximumPublicTextBytes : Z := 512.

Inductive Severity : Set := information | warning | error.

#[export] Instance Severity_eq_dec : EqDecision Severity.
Proof. solve_decision. Defined.

Record ConsentPolicy := mkConsent {
  collect_in_background : bool;
  prompt_on_error : bool
}.

Record Field := mkField { fd_name : bytes; fd_value : bytes }.

Record Event := mkEvent {
  pe_severity : Severity;
  pe_component : bytes;
  pe_detail : bytes
}.

#[export] Instance Event_eq_dec : EqDecision Event.
Proof. solve_decision. Defined.

Record PublicReport := mkReport {
  pr_application : bytes;
  pr_version : bytes;
  pr_build_channel : bytes;
  pr_fields : list Field;
  pr_events : list Event
}.

Definition collection_enabled (policy : ConsentPolicy) : bool := collect_in_background policy.

Definition should_prompt_for_error (policy : ConsentPolicy) : bool :=
  collect_in_background policy && prompt_on_error policy.

Definition severity_text (severity : Severity) : bytes :=
  match severity with
  | information => text "info"
  | warning => text "warning"
  | error => text "error"
  end.

Definition sanitized (event : Event) : Event :=
  mkEvent (pe_severity event) (sanitize_public_text (pe_component event) 64)
    (sanitize_public_text (pe_detail event) kMaximumPublicTextBytes).

Fixpoint drop_oldest {A} (events : list A) (capacity : Z) : list A :=
  match events with
  | [] => []
  | _ :: rest => if len events >=? capacity then drop_oldest rest capacity else events
  end.

Definition append_bounded_event (events : list Event) (event : Event) (capacity : Z) : list Event :=
  if capacity =? 0 then events
  else
    let event := sanitized event in
    if bool_decide (pe_component event = []) || bool_decide (pe_detail event = []) then events
    else if bool_decide (last events = Some event) then events
    else drop_oldest events capacity ++ [event].

Definition newline : bytes := [Byte.x0a].

Definition field_line (field : Field) : bytes :=
  text "- " ++ sanitize_public_text (fd_name field) 64 ++ text ": " ++
  sanitize_public_text (fd_value field) 192 ++ newline.

Definition event_line (event : Event) : bytes :=
  text "- `" ++ severity_text (pe_severity event) ++ text "` `" ++
  sanitize_public_text (pe_component event) 64 ++ text "`: " ++
  sanitize_public_text (pe_detail event) kMaximumPublicTextBytes ++ newline.

Definition build_public_markdown (report : PublicReport) : bytes :=
  text "# NSTU privacy-filtered diagnostic report" ++ newline ++ newline ++
  text "> Review this report before posting. It intentionally excludes IP/MAC addresses, host and user names, file paths, secrets, screenshots, chat, and exam content." ++
  newline ++ newline ++ text "## Build" ++ newline ++ newline ++
  text "- Application: " ++ sanitize_public_text (pr_application report) 96 ++ newline ++
  text "- Version: " ++ sanitize_public_text (pr_version report) 64 ++ newline ++
  text "- Channel: " ++ sanitize_public_text (pr_build_channel report) 64 ++ newline ++ newline ++
  (if bool_decide (pr_fields report = []) then []
   else text "## Configuration" ++ newline ++ newline ++ concat (map field_line (pr_fields report)) ++
        newline) ++
  text "## Recent diagnostic events" ++ newline ++ newline ++
  (if bool_decide (pr_events report = []) then text "No events were collected." ++ newline
   else
     let first :=
       if len (pr_events report) >? kMaximumEvents then len (pr_events report) - kMaximumEvents else 0 in
     concat (map event_line (drop (Z.to_nat first) (pr_events report)))).

(** ** Tried on the texts of the tests *)

Example sanitize_password :
  sanitize_public_text (text "login ok password=hunter2 again") 64 = text "login ok <redacted>".
Proof. vm_compute. reflexivity. Qed.

Example sanitize_mixed :
  sanitize_public_text (text "Client 42 at 10.1.2.3, mail a@b.co mac 00:11:22:aa:bb:cc") 128 =
  text "client <id> at <redacted> mail <redacted> mac <redacted>".
Proof. vm_compute. reflexivity. Qed.

Example sanitize_path :
  sanitize_public_text (text "read C:\Users\pat failed") 128 = text "read <redacted>".
Proof. vm_compute. reflexivity. Qed.

Example sanitize_cut : sanitize_public_text (text "abcdefgh") 6 = text "abc...".
Proof. vm_compute. reflexivity. Qed.

(** The digits after the word "client" are taken for an identifier even when they
    begin an address, and what is left of the address passes. *)
Example address_after_client :
  sanitize_public_text (text "lost client 192.168.7.12 again") 128 =
  text "lost client <id>.168.7.12 again".
Proof. vm_compute. reflexivity. Qed.

(** ** Words *)

(** The words of a text that [word] begins. *)
Fixpoint words_from (word rest : bytes) : list bytes :=
  match rest with
  | [] => [word]
  | c :: rest' =>
      if bool_decide (c = space) then word :: words_from [] rest' else words_from (word ++ [c]) rest'
  end.

Definition words (t : bytes) : list bytes := words_from [] t.

(** Everything but the last word, which may be cut, and the last word. *)
Definition complete_words (t : bytes) : list bytes := removelast (words t).
Definition last_word (t : bytes) : bytes := List.last (words t) [].

Lemma words_from_nonempty word rest : words_from word rest <> [].
Proof.
  revert word. induction rest as [|c rest IH]; intros word; [done|]. cbn. case_bool_decide; [done|apply IH].
Qed.

Lemma words_from_app a : forall word b,
  words_from word (a ++ b) =
  removelast (words_from word a) ++ words_from (List.last (words_from word a) []) b.
Proof.
  induction a as [|c a IH]; intros word b; [done|]. cbn [app words_from]. case_bool_decide; [|apply IH].
  rewrite IH. pose proof (words_from_nonempty [] a). by destruct (words_from [] a).
Qed.

Lemma words_app a b : words (a ++ b) = complete_words a ++ words_from (last_word a) b.
Proof. apply words_from_app. Qed.

Lemma words_from_no_space b : forall word,
  Forall (fun c => c <> space) b -> words_from word b = [word ++ b].
Proof.
  induction b as [|c b IH]; intros word Hb; [by rewrite app_nil_r|].
  apply Forall_cons in Hb as [Hc Hb]. cbn. rewrite bool_decide_eq_false_2 by done.
  rewrite IH by done. by rewrite <- app_assoc.
Qed.

Lemma words_split t : words t = complete_words t ++ [last_word t].
Proof. apply app_removelast_last, words_from_nonempty. Qed.

Lemma complete_words_app a b : complete_words a `prefix_of` complete_words (a ++ b).
Proof.
  unfold complete_words at 2. rewrite words_app, removelast_app by apply words_from_nonempty. by eexists.
Qed.

Lemma last_word_space t : last t = Some space -> last_word t = [].
Proof.
  intros H. apply last_Some in H as [a ->]. unfold last_word. rewrite words_app.
  change (words_from (last_word a) [space]) with ([last_word a] ++ [[]]). rewrite app_assoc.
  apply List.last_last.
Qed.

(** ** Control characters *)

(** The character a copied token has in place of [c]. *)
Definition mask (c : byte) : byte := if iscntrl c then question_mark else c.

Definition plain (t : bytes) : Prop := Forall (fun c => iscntrl c = false) t.

(** A class that [mask] respects. *)
Definition respects (class : byte -> bool) : Prop := forall c, class (mask c) = class c.

Ltac by_bytes :=
  match goal with |- respects ?p =>
    let H := fresh in
    pose proof (byte_forall (fun c => Bool.eqb (p (mask c)) (p c))) as H;
    specialize (H ltac:(vm_compute; reflexivity)); intros c; apply Bool.eqb_prop; exact (H c)
  end.

Lemma mask_digit : respects isdigit. Proof. by_bytes. Qed.
Lemma mask_xdigit : respects isxdigit. Proof. by_bytes. Qed.
Lemma mask_alpha : respects ascii_alpha. Proof. by_bytes. Qed.
Lemma mask_dot : respects (is_char "."). Proof. by_bytes. Qed.
Lemma mask_at : respects (is_char "@"). Proof. by_bytes. Qed.
Lemma mask_colon : respects (is_char ":"). Proof. by_bytes. Qed.
Lemma mask_equals : respects (is_char "="). Proof. by_bytes. Qed.
Lemma mask_hyphen : respects (is_char "-"). Proof. by_bytes. Qed.
Lemma mask_slash : respects (is_char "/"). Proof. by_bytes. Qed.
Lemma mask_backslash : respects (is_char "\"). Proof. by_bytes. Qed.
Lemma mask_dash : respects is_dash. Proof. by_bytes. Qed.
Lemma mask_punctuation : respects (one_of punctuation). Proof. by_bytes. Qed.
Lemma mask_ipv6 : respects ipv6_character. Proof. by_bytes. Qed.
Lemma mask_encoded : respects encoded_character. Proof. by_bytes. Qed.
Lemma mask_trimmed : respects (fun c => one_of punctuation c || is_char "." c). Proof. by_bytes. Qed.
Lemma mask_assigned : respects (fun c => is_char "=" c || is_char ":" c). Proof. by_bytes. Qed.
Lemma mask_assigned' : respects (fun c => is_char ":" c || is_char "=" c). Proof. by_bytes. Qed.

#[local] Hint Rewrite mask_digit mask_xdigit mask_alpha mask_dot mask_at mask_colon mask_equals
  mask_hyphen mask_slash mask_backslash mask_dash mask_punctuation mask_ipv6 mask_encoded : masked.

Lemma mask_plain c : iscntrl (mask c) = false.
Proof.
  pose proof (byte_forall (fun c => negb (iscntrl (mask c)))) as H.
  specialize (H ltac:(vm_compute; reflexivity) c). cbv beta in H. by bool_to_prop.
Qed.

Lemma mask_space c : ascii_space c = false -> mask c <> space.
Proof.
  pose proof (byte_forall (fun c => ascii_space c || negb (bool_decide (mask c = space)))) as H.
  specialize (H ltac:(vm_compute; reflexivity) c). cbv beta in H. intros E. rewrite E in H. cbn [orb] in H. by bool_to_prop.
Qed.

Lemma mask_separator c d : iscntrl d = false -> d <> question_mark ->
  bool_decide (mask c = d) = bool_decide (c = d).
Proof.
  intros Hd Hq. apply bool_decide_ext. unfold mask. destruct (iscntrl c) eqn:E; [|done].
  split; [congruence|intros ->; congruence].
Qed.

Lemma filter_mask class t : respects class ->
  List.filter class (map mask t) = map mask (List.filter class t).
Proof.
  intros H. induction t as [|c t IH]; [done|]. cbn. rewrite H, IH. by destruct (class c).
Qed.

Lemma forallb_mask class t : respects class -> forallb class (map mask t) = forallb class t.
Proof. intros H. induction t as [|c t IH]; [done|]. cbn. by rewrite H, IH. Qed.

Lemma existsb_mask class t : respects class -> existsb class (map mask t) = existsb class t.
Proof. intros H. induction t as [|c t IH]; [done|]. cbn. by rewrite H, IH. Qed.

Lemma split_first_mask class t : respects class ->
  split_first class (map mask t) =
  (fun ba => (map mask ba.1, map mask ba.2)) <$> split_first class t.
Proof.
  intros H. induction t as [|c t IH]; [done|]. cbn. rewrite H, IH. destruct (class c); [done|].
  by destruct (split_first class t) as [[before after]|].
Qed.

Lemma trim_token_mask t : trim_token (map mask t) = map mask (trim_token t).
Proof.
  assert (F : forall t, trim_front (map mask t) = map mask (trim_front t)).
  { clear t. intros t. induction t as [|c t IH]; [done|]. cbn. rewrite mask_punctuation, IH.
    by destruct (one_of punctuation c). }
  assert (B : forall t, trim_back (map mask t) = map mask (trim_back t)).
  { clear t. intros t. induction t as [|c t IH]; [done|]. cbn. rewrite mask_punctuation, mask_dot, IH.
    by destruct (_ || _). }
  unfold trim_token. by rewrite F, <- map_rev, B, map_rev.
Qed.

(** Everything else of a word is unchanged. *)
Definition word_char (c : byte) : bool := ascii_alpha c.

Lemma mask_key t : bool_decide (map mask t ∈ keys) = bool_decide (t ∈ keys).
Proof.
  assert (Hkeys : Forall (fun k => forallb word_char k = true) keys) by (repeat constructor).
  rewrite Forall_forall in Hkeys.
  assert (Hid : forall t, forallb word_char t = true -> map mask t = t).
  { clear t. intros t Ht. rewrite <- (map_id t) at 2. apply map_ext_in. intros c Hc.
    rewrite forallb_forall in Ht. specialize (Ht c Hc). unfold mask.
    pose proof (byte_forall (fun c => negb (word_char c && iscntrl c))) as H.
    specialize (H ltac:(vm_compute; reflexivity) c). cbv beta in H. rewrite Ht in H. bool_to_prop.
    cbn [andb] in H. by rewrite H. }
  apply bool_decide_ext. split; intros H.
  - pose proof (Hkeys _ H) as Hk. rewrite (forallb_mask word_char) in Hk by exact mask_alpha.
    by rewrite Hid in H.
  - by rewrite Hid by (by apply Hkeys).
Qed.

Lemma lower_mask t : lower_ascii (map mask t) = map mask (lower_ascii t).
Proof.
  unfold lower_ascii. rewrite !map_map. apply map_ext. intros c.
  pose proof (byte_forall (fun c => bool_decide (ascii_lower (mask c) = mask (ascii_lower c)))) as H.
  specialize (H ltac:(vm_compute; reflexivity) c). cbv beta in H. by bool_to_prop.
Qed.

Lemma without_dashes_mask t : without_dashes (map mask t) = map mask (without_dashes t).
Proof. apply filter_mask. intros c. by rewrite mask_dash. Qed.

Lemma drop_back_mask t : drop_back (map mask t) = map mask (drop_back t).
Proof.
  induction t as [|c t IH]; [done|]. cbn. rewrite mask_colon, mask_equals, IH. by destruct (_ || _).
Qed.

Lemma redact_tail_mask t : redact_tail (map mask t) = redact_tail t.
Proof.
  unfold redact_tail. f_equal; [f_equal|].
  - unfold sensitive_assignment. rewrite split_first_mask by exact mask_assigned.
    destruct (split_first _ t) as [[before after]|]; [|done]. cbn.
    by rewrite lower_mask, without_dashes_mask, mask_key.
  - unfold sensitive_key.
    by rewrite trim_token_mask, lower_mask, <- map_rev, drop_back_mask, <- map_rev, without_dashes_mask, mask_key.
  - unfold contains_windows_path. f_equal.
    + destruct t as [|a [|b t]]; [done..|]. cbn. by autorewrite with masked.
    + induction t as [|a [|b [|c t]] IH]; [done..|].
      change (drive_path (map mask (a :: b :: c :: t))) with
        (ascii_alpha (mask a) && is_char ":" (mask b) && (is_char "\" (mask c) || is_char "/" (mask c)) ||
         drive_path (map mask (b :: c :: t))).
      rewrite IH. by autorewrite with masked.
Qed.

Lemma read_octet_mask n : forall v t,
  read_octet n v (map mask t) = ((read_octet n v t).1, map mask (read_octet n v t).2).
Proof.
  induction n as [|n IH]; intros v t; [done|]. destruct t as [|c t]; [done|]. cbn.
  unfold ascii_digit. rewrite mask_digit. destruct (isdigit c) eqn:E; [|done]. rewrite <- IH. do 2 f_equal.
  unfold mask. pose proof (byte_forall (fun c => negb (isdigit c && iscntrl c))) as H.
  specialize (H ltac:(vm_compute; reflexivity) c). cbv beta in H. rewrite E in H. bool_to_prop.
  cbn [andb] in H. by rewrite H.
Qed.

Lemma starts_mask class t : respects class -> starts class (map mask t) = starts class t.
Proof. intros H. destruct t as [|c t]; [done|]. apply H. Qed.

Lemma after_octets_mask n : forall t,
  after_octets n (map mask t) = map mask <$> after_octets n t.
Proof.
  induction n as [|n IH]; intros t; [done|]. cbn [after_octets].
  rewrite starts_mask by exact mask_digit. destruct (negb _); [done|]. rewrite read_octet_mask.
  destruct (read_octet 3 0 t) as [v r]. cbn [fst snd]. rewrite starts_mask by exact mask_digit.
  destruct (_ || _); [done|]. destruct n as [|n]; [done|]. destruct r as [|c r]; [done|].
  cbn [map]. rewrite mask_dot. destruct (is_char "." c); [|done]. apply IH.
Qed.

Lemma mac_groups_mask sep n : iscntrl sep = false -> sep <> question_mark ->
  forall t, mac_groups n sep (map mask t) = mac_groups n sep t.
Proof.
  intros Hs Hq. induction n as [|n IH]; intros t; [by destruct t|].
  destruct t as [|a [|b t]]; [done..|]. cbn [mac_groups map]. rewrite !mask_xdigit. f_equal.
  destruct n as [|n]; [by destruct t|]. destruct t as [|c t]; [done|]. cbn [map].
  by rewrite mask_separator, IH.
Qed.

Lemma redact_token_mask t : redact_token (map mask t) = redact_token t.
Proof.
  unfold redact_token. f_equal; [f_equal; [f_equal|]|].
  - unfold contains_email. rewrite split_first_mask by exact mask_at.
    destruct (split_first _ t) as [[before after]|]; [|done]. cbn.
    rewrite existsb_mask by exact mask_dot. f_equal. by destruct before.
  - unfold contains_ip_address. rewrite forallb_mask by exact mask_ipv6.
    rewrite filter_mask by exact mask_colon. unfold len at 1. rewrite length_map. f_equal.
    induction t as [|c t IH]; [done|]. cbn [map contains_ipv4].
    change (mask c :: map mask t) with (map mask (c :: t)). rewrite IH. f_equal. unfold ascii_digit.
    rewrite mask_digit. do 2 f_equal. unfold ipv4_length. rewrite after_octets_mask.
    destruct (after_octets 4 (c :: t)); [|done]. cbn [fmap option_fmap option_map].
    unfold len. by rewrite !length_map.
  - unfold contains_mac_address. by rewrite !mac_groups_mask.
  - unfold looks_like_secret. rewrite forallb_mask by exact mask_encoded.
    rewrite filter_mask by exact mask_hyphen. unfold len. by rewrite !length_map.
Qed.

(** ** The loop *)

Definition safe_word (word : bytes) : bool :=
  let core := trim_token word in negb (redact_tail core || redact_token core).

(** A word of the output is safe, or stands after an identifier that was cut out of it. *)
Definition word_ok (word : bytes) : Prop :=
  safe_word word = true \/ text "<id>" `prefix_of` word.

Lemma append_limited_spec output v maximum :
  len output <= maximum -> append_limited output v maximum = take (Z.to_nat maximum) (output ++ v).
Proof.
  intros Hl. unfold append_limited. rewrite Z.geb_leb. unfold len in *. destruct (Z.leb_spec maximum (Z.of_nat (length output))).
  - replace (Z.to_nat maximum) with (length output) by lia. by rewrite take_app_length.
  - rewrite take_app_ge by lia. do 2 f_equal. lia.
Qed.

Lemma copy_token_spec token maximum : forall output,
  len output <= maximum ->
  copy_token output token maximum =
    (take (Z.to_nat maximum) (output ++ map mask token),
     bool_decide (maximum < len output + len token)).
Proof.
  induction token as [|c token IH]; intros output Hl; cbn [copy_token map].
  - rewrite app_nil_r, take_ge by (unfold len in Hl; lia).
    by rewrite bool_decide_eq_false_2 by (rewrite len_nil; lia).
  - rewrite Z.geb_leb, len_cons. pose proof (len_nonneg token). destruct (Z.leb_spec maximum (len output)).
    + rewrite bool_decide_eq_true_2 by lia. unfold len in *.
      replace (Z.to_nat maximum) with (length output) by lia. by rewrite take_app_length.
    + assert (E : (if iscntrl c then append_limited output [question_mark] maximum else output ++ [c]) =
        output ++ [mask c]).
      { unfold mask. destruct (iscntrl c); [|done]. rewrite append_limited_spec by done.
        apply take_ge. rewrite length_app. cbn. unfold len in *. lia. }
      rewrite E, IH by (rewrite len_app, len_cons, len_nil; lia). rewrite <- app_assoc, len_app.
      f_equal. apply bool_decide_ext. rewrite len_cons, len_nil. lia.
Qed.

(** Where a word may be going on: after an identifier, or at its end. *)
Definition ends_ok (output rest : bytes) : Prop :=
  last_word output = [] \/ text "<id>" `prefix_of` last_word output \/
  rest = [] \/ starts ascii_space rest = true.

Record loop_state (maximum : Z) (rest output : bytes) (truncated : bool) : Prop := {
  ls_len : len output <= maximum;
  ls_plain : plain output;
  ls_words : Forall word_ok (complete_words output);
  ls_room : len output < maximum ->
    truncated = false /\ Forall word_ok (words output) /\ ends_ok output rest
}.

Lemma complete_words_ok a b : Forall word_ok (complete_words (a ++ b)) -> Forall word_ok (complete_words a).
Proof. intros H. destruct (complete_words_app a b) as [k E]. rewrite E in H. by apply Forall_app in H as [H _]. Qed.

(** Appending what keeps the words good, as far as there is room. *)
Lemma advance maximum rest rest' output truncated truncated' v :
  loop_state maximum rest output truncated -> len output < maximum -> plain v ->
  Forall word_ok (words (output ++ v)) -> ends_ok (output ++ v) rest' ->
  (len (output ++ v) <= maximum -> truncated' = false) ->
  loop_state maximum rest' (take (Z.to_nat maximum) (output ++ v)) truncated'.
Proof.
  intros [Hl Hp Hc Hr] Hlt Hv Hw He Ht. pose proof (len_nonneg output). constructor.
  - unfold len. rewrite length_take. lia.
  - apply Forall_take. by apply Forall_app.
  - rewrite words_split in Hw. apply Forall_app in Hw as [Hw _].
    rewrite <- (take_drop (Z.to_nat maximum) (output ++ v)) in Hw. by apply complete_words_ok in Hw.
  - intros Hroom. assert (len (output ++ v) < maximum).
    { unfold len in *. rewrite length_take in Hroom. lia. }
    rewrite take_ge by (unfold len in *; lia). split; [apply Ht; lia|done].
Qed.

(** A piece without spaces goes on the last word. *)
Lemma last_word_app output v :
  Forall (fun c => c <> space) v -> last_word (output ++ v) = last_word output ++ v.
Proof.
  intros Hv. unfold last_word at 1. rewrite words_app, words_from_no_space by done. apply List.last_last.
Qed.

Lemma piece_ok rest output v :
  starts ascii_space rest = false -> rest <> [] -> ends_ok output rest ->
  Forall word_ok (words output) -> Forall (fun c => c <> space) v -> word_ok v ->
  Forall word_ok (words (output ++ v)).
Proof.
  intros Hs Hne He Hw Hv Hok. rewrite words_split in Hw. apply Forall_app in Hw as [Hw _].
  rewrite words_app, words_from_no_space by done. apply Forall_app. split; [done|]. constructor; [|constructor].
  destruct He as [E|[[k E]|[E|E]]]; [by rewrite E| |done|congruence].
  right. rewrite E. exists (k ++ v). by rewrite <- app_assoc.
Qed.

Lemma client_ok rest output :
  starts ascii_space rest = false -> rest <> [] -> ends_ok output rest -> Forall word_ok (words output) ->
  Forall word_ok (words (output ++ client_id_text)) /\ text "<id>" `prefix_of` last_word (output ++ client_id_text).
Proof.
  intros Hs Hne He Hw.
  assert (E : output ++ client_id_text = ((output ++ text "client") ++ [space]) ++ text "<id>")
    by (by rewrite <- !app_assoc).
  assert (Hid : Forall (fun c => c <> space) (text "<id>")) by (by repeat constructor).
  assert (Hend : last_word ((output ++ text "client") ++ [space]) = []) by (apply last_word_space; by rewrite last_snoc).
  assert (H1 : Forall word_ok (words (output ++ text "client"))).
  { apply (piece_ok rest); try done; [by repeat constructor|]. left. vm_compute. reflexivity. }
  rewrite E. split.
  - rewrite (words_app _ (text "<id>")), Hend, words_from_no_space by done. apply Forall_app. split.
    + unfold complete_words. rewrite words_app.
      change (words_from (last_word (output ++ text "client")) [space])
        with ([last_word (output ++ text "client")] ++ [[]]).
      rewrite app_assoc, removelast_last, <- words_split. done.
    + constructor; [|constructor]. right. by exists [].
  - rewrite last_word_app, Hend by done. by exists [].
Qed.

Lemma space_ok output :
  Forall word_ok (words output) -> Forall word_ok (words (output ++ [space])) /\ last_word (output ++ [space]) = [].
Proof.
  intros Hw. split; [|apply last_word_space; by rewrite last_snoc].
  rewrite words_app. change (words_from (last_word output) [space]) with ([last_word output] ++ [[]]).
  rewrite app_assoc, <- words_split. apply Forall_app. split; [done|].
  constructor; [|constructor]. left. vm_compute. reflexivity.
Qed.

Lemma skip_spaces_length rest : (length (skip_spaces rest) <= length rest)%nat.
Proof. induction rest as [|c rest IH]; [done|]. cbn. destruct (ascii_space c); cbn; lia. Qed.

Lemma skip_digits_length rest : (length (skip_digits rest) <= length rest)%nat.
Proof. induction rest as [|c rest IH]; [done|]. cbn. destruct (ascii_digit c); cbn; lia. Qed.

Lemma take_token_spec rest token rest' :
  take_token rest = (token, rest') ->
  rest = token ++ rest' /\ Forall (fun c => ascii_space c = false) token /\
  (rest' = [] \/ starts ascii_space rest' = true).
Proof.
  revert token rest'. induction rest as [|c rest IH]; intros token rest'; cbn.
  - intros [= <- <-]. by auto.
  - destruct (ascii_space c) eqn:E; [intros [= <- <-]; by auto|].
    destruct (take_token rest) as [tok after]. intros [= <- <-].
    destruct (IH _ _ eq_refl) as (-> & Ht & Hr). split; [done|]. split; [by constructor|done].
Qed.

Lemma client_identifier_inv rest rest' :
  contains_client_identifier rest = Some rest' ->
  starts ascii_space rest = false /\ (length rest' < length rest)%nat.
Proof.
  unfold contains_client_identifier. case_bool_decide as E; [|done]. cbn [negb].
  destruct (starts ascii_digit (drop 7 rest)); [|done]. intros [= <-].
  pose proof (skip_digits_length (drop 7 rest)) as H. rewrite length_drop in H.
  destruct rest as [|c rest]; [done|]. split; [|cbn in *; lia]. cbn in E. injection E as E _. cbn.
  pose proof (byte_forall (fun c => negb (bool_decide (ascii_lower c = Byte.x63) && ascii_space c))) as Hb.
  specialize (Hb ltac:(vm_compute; reflexivity) c). cbv beta in Hb.
  rewrite bool_decide_eq_true_2 in Hb by done. by bool_to_prop.
Qed.

Lemma mask_token token :
  Forall (fun c => ascii_space c = false) token ->
  Forall (fun c => c <> space) (map mask token) /\ plain (map mask token).
Proof.
  intros Ht. split; apply Forall_map; [|apply Forall_true; intros c; apply mask_plain].
  eapply Forall_impl; [exact Ht|]. intros c. apply mask_space.
Qed.

Lemma copied_token_safe token :
  redact_tail (trim_token token) = false -> redact_token (trim_token token) = false ->
  word_ok (map mask token).
Proof.
  intros H1 H2. left. unfold safe_word. by rewrite trim_token_mask, redact_tail_mask, redact_token_mask, H1, H2.
Qed.

Lemma literal_facts :
  plain redacted /\ Forall (fun c => c <> space) redacted /\ word_ok redacted /\ plain client_id_text /\
  plain [space].
Proof. split_and!; by repeat constructor. Qed.

(** One turn. *)
Lemma turn maximum c rest output truncated :
  let all := c :: rest in
  loop_state maximum all output truncated -> len output < maximum ->
  (forall rest', contains_client_identifier all = Some rest' ->
    loop_state maximum rest' (append_limited output client_id_text maximum) truncated) /\
  (ascii_space c = true ->
    loop_state maximum (skip_spaces all) (append_limited output [space] maximum) truncated /\
    (output = [] \/ last output = Some space -> loop_state maximum (skip_spaces all) output truncated)) /\
  (ascii_space c = false -> forall token rest', take_token all = (token, rest') ->
    loop_state maximum [] (append_limited output redacted maximum) truncated /\
    loop_state maximum rest' (append_limited output redacted maximum) truncated /\
    (redact_tail (trim_token token) = false -> redact_token (trim_token token) = false ->
     loop_state maximum rest' (take (Z.to_nat maximum) (output ++ map mask token))
       (truncated || bool_decide (maximum < len output + len token)))).
Proof.
  intros all Hst Hlt. destruct (ls_room _ _ _ _ Hst Hlt) as (Ht & Hw & He).
  pose proof (ls_len _ _ _ _ Hst) as Hl.
  destruct literal_facts as (Pr & Sr & Or & Pc & Ps).
  split; [|split].
  - intros rest' E. apply client_identifier_inv in E as [Hs _].
    rewrite append_limited_spec by done. destruct (client_ok all output Hs ltac:(done) He Hw) as [H1 H2].
    eapply advance; try done. right. by left.
  - intros Hc. rewrite append_limited_spec by done. destruct (space_ok output Hw) as [H1 H2]. split.
    + eapply advance; try done. by left.
    + intros Hout. constructor; try apply Hst. intros _. split; [done|]. split; [done|]. left.
      destruct Hout as [Ho|Ho]; [by subst output|by apply last_word_space].
  - intros Hc token rest' E. apply take_token_spec in E as (Hall & Htok & Hrest).
    rewrite append_limited_spec by done.
    assert (H1 : Forall word_ok (words (output ++ redacted))) by (by apply (piece_ok all)).
    split_and!.
    + eapply advance; try done. right. right. by left.
    + eapply advance; try done. right. by right.
    + intros Hr1 Hr2. destruct (mask_token token Htok) as [Hm1 Hm2].
      eapply advance; try done; [|right; by right|].
      * apply (piece_ok all); try done. by apply copied_token_safe.
      * rewrite Ht, len_app. intros Hle. apply bool_decide_eq_false_2. unfold len in *.
        rewrite length_map in Hle. lia.
Qed.

Lemma loop_spec fuel : forall maximum rest output truncated output' truncated' rest',
  (length rest <= fuel)%nat -> loop_state maximum rest output truncated ->
  sanitize_loop fuel maximum rest output truncated = (output', truncated', rest') ->
  loop_state maximum rest' output' truncated' /\ (len output' < maximum -> rest' = []).
Proof.
  induction fuel as [|fuel IH]; intros maximum rest output truncated output' truncated' rest' Hf Hst.
  { destruct rest; [|cbn in Hf; lia]. intros [= <- <- <-]. done. }
  destruct rest as [|c rest]; [intros [= <- <- <-]; done|]. cbn [sanitize_loop].
  destruct (Z.ltb_spec (len output) maximum) as [Hlt|Hge]; cbn [negb]; [|intros [= <- <- <-]; split; [done|lia]].
  destruct (turn maximum c rest output truncated Hst Hlt) as (Hclient & Hspace & Htoken).
  destruct (contains_client_identifier (c :: rest)) as [after|] eqn:Ec.
  { apply IH; [|by apply Hclient]. apply client_identifier_inv in Ec as [_ Hlen]. cbn in *. lia. }
  destruct (ascii_space c) eqn:Es.
  - destruct (Hspace eq_refl) as [H1 H2]. apply IH.
    + cbn. rewrite Es. pose proof (skip_spaces_length rest). cbn in Hf. lia.
    + destruct (decide (output = [])) as [Eo|Eo]; [rewrite bool_decide_eq_true_2 by done; apply H2; by left|].
      rewrite (bool_decide_eq_false_2 (output = [])) by done. cbn [negb andb].
      case_bool_decide; cbn [negb]; [apply H2; by right|done].
  - destruct (take_token (c :: rest)) as [token after] eqn:Et.
    destruct (Htoken eq_refl token after eq_refl) as (H1 & H2 & H3).
    assert (Hlen : (length after <= fuel)%nat).
    { cbn in Et. rewrite Es in Et. destruct (take_token rest) as [tok aft] eqn:E2. injection Et as <- <-.
      apply take_token_spec in E2 as [-> _]. cbn in Hf. rewrite length_app in Hf. lia. }
    destruct (redact_tail _) eqn:E1; [intros [= <- <- <-]; by split|].
    destruct (redact_token _) eqn:E2; [by apply IH|].
    rewrite copy_token_spec by apply Hst. by apply IH, H3.
Qed.

(** ** What leaves the machine *)

(** The output of the filter. *)
Lemma sanitize_public_text_spec (t : bytes) (maximum_bytes : Z) :
  0 <= maximum_bytes ->
  let output := sanitize_public_text t maximum_bytes in
  len output <= maximum_bytes /\ plain output /\ Forall word_ok (complete_words output) /\
  (len output < maximum_bytes -> Forall word_ok (words output)).
Proof.
  intros Hm output. subst output. unfold sanitize_public_text.
  assert (Hnil : word_ok []) by (left; vm_compute; reflexivity).
  destruct (Z.eqb_spec maximum_bytes 0) as [->|Hpos].
  { split_and!; [done|constructor|constructor|]. by rewrite len_nil. }
  destruct (sanitize_loop _ _ _ _ _) as [[output truncated] rest] eqn:E.
  assert (Hst : loop_state maximum_bytes t [] false).
  { constructor; [done|constructor|constructor|]. intros _. split; [done|]. split; [by constructor|by left]. }
  destruct (loop_spec _ _ _ _ _ _ _ _ (le_n _) Hst E) as [[Hl Hp Hw Hr] Hfull].
  destruct (truncated || negb (bool_decide (rest = []))) eqn:Ecut; cbn [andb].
  - assert (Hge : len output = maximum_bytes).
    { destruct (Z.lt_ge_cases (len output) maximum_bytes) as [Hlt|?]; [|lia].
      destruct (Hr Hlt) as [-> _]. by rewrite (Hfull Hlt) in Ecut. }
    destruct (Z.geb_spec maximum_bytes 3); [|split_and!; try done; lia].
    assert (Hlen : len (take (Z.to_nat (Z.min (len output) (maximum_bytes - 3))) output ++ text "...") =
      maximum_bytes).
    { rewrite len_app. change (len (text "...")) with 3. unfold len in *. rewrite length_take. lia. }
    rewrite Hlen. split; [lia|]. split; [apply Forall_app; split; [by apply Forall_take|by repeat constructor]|].
    split; [|lia].
    unfold complete_words. rewrite words_app, words_from_no_space, removelast_last by (by repeat constructor).
    rewrite <- (take_drop (Z.to_nat (Z.min (len output) (maximum_bytes - 3))) output) in Hw.
    by apply complete_words_ok in Hw.
  - split_and!; try done. intros Hlt. by apply Hr.
Qed.

Lemma sanitized_len (t : bytes) (maximum_bytes : Z) :
  0 <= maximum_bytes -> len (sanitize_public_text t maximum_bytes) <= maximum_bytes.
Proof. intros Hm. by apply (sanitize_public_text_spec t maximum_bytes). Qed.

(** C37. Text that passed the filter is public.  Whatever the text and the limit,
    the result is within the limit, has no control character (so no tab and no
    line break), and of its words, between spaces, each but a last one that may
    be cut off is safe: it is no assignment to or mention of a secret's name, no
    Windows path, e-mail address, IP or MAC address and nothing that looks like
    a key, unless it continues a client identifier that was cut out of it; and
    when the result is shorter than the limit, so is the last word. *)
Theorem filtered_text_is_public (t : bytes) (maximum_bytes : Z) :
  0 <= maximum_bytes ->
  let output := sanitize_public_text t maximum_bytes in
  len output <= maximum_bytes /\ plain output /\ Forall word_ok (complete_words output) /\
  (len output < maximum_bytes -> Forall word_ok (words output)).
Proof. apply sanitize_public_text_spec. Qed.

Lemma filtered_text_is_public_witness :
  Forall word_ok (words (sanitize_public_text (text "login from 10.1.2.3 ok") 64)).
Proof.
  apply (filtered_text_is_public (text "login from 10.1.2.3 ok") 64); [lia|]. vm_compute. reflexivity.
Defined.

End PublicText.
