(* ===== verification/AuditLog.v ===== *)
(** The activity audit log (common/src/audit.cpp): the record line and the wire
    codecs, the client's spool, the server's rotating sink and the upload rate
    limiter, with the server's handler of an uploaded chunk
    (server/src/control_plane.cpp) and the client's upload and acknowledgement
    (client/service/main.cpp).

    The clock and the outcomes of the file-system calls are parameters.  The
    limiter's [double]s are the binary64 operations of SpecFloat. *)

From Stdlib Require Import SpecFloat.
From S2P Require Import Prelude Wire Json PublicText.
Import ReaderNotations.
#[local] Open Scope nstu_scope.

Module AuditLog.
Import Json.

(** ** Records *)

Definition kMaximumFieldBytes : Z := 128.
Definition kMaximumDetailBytes : Z := 256.
Definition kMaximumEventsPerChunk : Z := 64.
Definition kMaximumChunkBytes : Z := 32 * 1024.
Definition kMaximumSinkFileBytes : Z := 8 * 1024 * 1024.
Definition kMaximumSinkFiles : nat := 8.

(** The values of [Category] and [Severity]. *)
Definition category_enrollment : Z := 1.
Definition category_system : Z := 7.
Definition severity_info : Z := 1.
Definition severity_error : Z := 3.

Record Event := mkEvent {
  ev_category : Z;
  ev_severity : Z;
  ev_component : bytes;
  ev_action : bytes;
  ev_result : bytes;
  ev_operation_id : Z;
  ev_client_id : Z;
  ev_detail : bytes
}.

Record AuditRecord := mkAuditRecord {
  ar_sequence : Z;
  ar_timestamp : Z;
  ar_event : Event
}.

Definition category_in_range (value : Z) : bool :=
  (category_enrollment <=? value) && (value <=? category_system).

Definition severity_in_range (value : Z) : bool :=
  (severity_info <=? value) && (value <=? severity_error).

Definition category_to_string (category : Z) : bytes :=
  match category with
  | 1 => text "enrollment"
  | 2 => text "managed_mode"
  | 3 => text "uwf"
  | 4 => text "exam"
  | 5 => text "session"
  | 6 => text "security"
  | 7 => text "system"
  | _ => text "unknown"
  end.

Definition severity_to_string (severity : Z) : bytes :=
  match severity with
  | 1 => text "info"
  | 2 => text "warning"
  | 3 => text "error"
  | _ => text "unknown"
  end.

Definition tab : byte := Byte.x09.
Definition line_feed : byte := Byte.x0a.
Definition carriage_return : byte := Byte.x0d.

(** The second pass over a character. *)
Definition keep (value : byte) : byte :=
  if bool_decide (value = tab) || bool_decide (value = line_feed) || bool_decide (value = carriage_return)
  then PublicText.space else value.

Definition sanitize_audit_field (text_ : bytes) (maximum_bytes : Z) : bytes :=
  map keep (PublicText.sanitize_public_text text_ maximum_bytes).

Definition sanitize_event (event : Event) : Event :=
  mkEvent (ev_category event) (ev_severity event)
    (sanitize_audit_field (ev_component event) kMaximumFieldBytes)
    (sanitize_audit_field (ev_action event) kMaximumFieldBytes)
    (sanitize_audit_field (ev_result event) kMaximumFieldBytes)
    (ev_operation_id event) (ev_client_id event)
    (sanitize_audit_field (ev_detail event) kMaximumDetailBytes).

Definition format_record_line (record : AuditRecord) : bytes :=
  let clean := sanitize_event (ar_event record) in
  dec (ar_timestamp record) ++ [tab] ++ dec (ar_sequence record) ++ [tab] ++
  category_to_string (ev_category clean) ++ [tab] ++
  severity_to_string (ev_severity clean) ++ [tab] ++
  ev_component clean ++ [tab] ++ ev_action clean ++ [tab] ++ ev_result clean ++
  [tab] ++ text "op=" ++ dec (ev_operation_id clean) ++
  [tab] ++ text "client=" ++ dec (ev_client_id clean) ++ [tab] ++
  ev_detail clean ++ [line_feed].

(** ** Wire format *)

Definition append_string (value : bytes) : bytes := write_le 2 (len value) ++ value.

Definition encode_record (record : AuditRecord) : bytes :=
  let clean := sanitize_event (ar_event record) in
  write_le 8 (ar_sequence record) ++ write_le 8 (ar_timestamp record) ++
  write_le 1 (ev_category clean) ++ write_le 1 (ev_severity clean) ++
  write_le 8 (ev_operation_id clean) ++ write_le 8 (ev_client_id clean) ++
  append_string (ev_component clean) ++ append_string (ev_action clean) ++
  append_string (ev_result clean) ++ append_string (ev_detail clean).

(** The loop of [encode_audit_chunk]. *)
Fixpoint chunk_body (records : list AuditRecord) (count : Z) (body : bytes) : Z * bytes :=
  match records with
  | [] => (count, body)
  | record :: rest =>
      if count >=? kMaximumEventsPerChunk then (count, body)
      else
        let encoded := encode_record record in
        if 3 + len body + len encoded >? kMaximumChunkBytes then (count, body)
        else chunk_body rest (count + 1) (body ++ encoded)
  end.

Definition encode_audit_chunk (records : list AuditRecord) : bytes :=
  let '(count, body) := chunk_body records 0 [] in
  write_le 1 1 ++ write_le 2 count ++ body.

Definition read_string (maximum : Z) : reader bytes :=
  length <- read_le 2 ;;
  guard (length <=? maximum) ;;
  read_bytes (Z.to_nat length).

Definition read_record : reader AuditRecord :=
  sequence <- read_le 8 ;;
  timestamp <- read_le 8 ;;
  category <- read_le 1 ;;
  guard (category_in_range category) ;;
  severity <- read_le 1 ;;
  guard (severity_in_range severity) ;;
  operation_id <- read_le 8 ;;
  client_id <- read_le 8 ;;
  component <- read_string kMaximumFieldBytes ;;
  action <- read_string kMaximumFieldBytes ;;
  result <- read_string kMaximumFieldBytes ;;
  detail <- read_string kMaximumDetailBytes ;;
  rret (mkAuditRecord sequence timestamp
          (sanitize_event (mkEvent category severity component action result operation_id client_id detail))).

Definition chunk_reader : reader (list AuditRecord) :=
  version <- read_le 1 ;;
  guard (version =? 1) ;;
  count <- read_le 2 ;;
  guard (count <=? kMaximumEventsPerChunk) ;;
  records <- read_many (Z.to_nat count) read_record ;;
  remaining <- rremaining ;;
  guard (remaining =? 0) ;;
  rret records.

Definition decode_audit_chunk (payload : bytes) : option (list AuditRecord) :=
  if len payload >? kMaximumChunkBytes then None else run_reader chunk_reader payload.

Definition encode_audit_ack (last_accepted_sequence : Z) : bytes :=
  write_le 1 1 ++ write_le 8 last_accepted_sequence.

Definition decode_audit_ack : bytes -> option Z :=
  run_reader (version <- read_le 1 ;;
    guard (version =? 1) ;;
    sequence <- read_le 8 ;;
    remaining <- rremaining ;;
    guard (remaining =? 0) ;;
    rret sequence).

(** ** The spool *)

Record Spool := mkSpool {
  sp_records : list AuditRecord;
  sp_capacity : Z;
  sp_next_sequence : Z;
  sp_dropped : Z
}.

Definition new_spool (capacity : Z) : Spool :=
  mkSpool [] (if capacity =? 0 then 1 else capacity) 1 0.

Fixpoint make_room (records : list AuditRecord) (capacity dropped : Z) : list AuditRecord * Z :=
  match records with
  | [] => ([], dropped)
  | _ :: rest =>
      if len records >=? capacity then make_room rest capacity (wrap64 (dropped + 1))
      else (records, dropped)
  end.

(** The new spool and the sequence of the record. *)
Definition emit (s : Spool) (event : Event) (now : Z) : Spool * Z :=
  let '(records, dropped) := make_room (sp_records s) (sp_capacity s) (sp_dropped s) in
  let record := mkAuditRecord (sp_next_sequence s) now (sanitize_event event) in
  (mkSpool (records ++ [record]) (sp_capacity s) (wrap64 (sp_next_sequence s + 1)) dropped,
   sp_next_sequence s).

Definition peek_chunk (s : Spool) (max_events : Z) : list AuditRecord :=
  take (Z.to_nat (Z.min max_events (len (sp_records s)))) (sp_records s).

Fixpoint drop_acknowledged (records : list AuditRecord) (last_acked_sequence : Z) : list AuditRecord :=
  match records with
  | [] => []
  | record :: rest =>
      if ar_sequence record <=? last_acked_sequence then drop_acknowledged rest last_acked_sequence
      else records
  end.

Definition acknowledge (s : Spool) (last_acked_sequence : Z) : Spool :=
  mkSpool (drop_acknowledged (sp_records s) last_acked_sequence) (sp_capacity s) (sp_next_sequence s)
    (sp_dropped s).

Definition spool_size (s : Spool) : Z := len (sp_records s).
Definition dropped_count (s : Spool) : Z := sp_dropped s.
Definition spool_empty (s : Spool) : bool := bool_decide (sp_records s = []).

(** ** The sink

    The directory has the active file audit.log and the rotated files
    audit.<index>.log.  A call that fails changes nothing. *)

Record Sink := mkSink {
  sk_open : bool;
  sk_active : option bytes;
  sk_rotated : gmap nat bytes
}.

Record RotateCalls := mkRotateCalls {
  rt_remove : bool;
  rt_exists : nat -> bool;      (* the query of a rotated file works *)
  rt_rename : nat -> bool;      (* renaming a rotated file works *)
  rt_active_exists : bool;
  rt_active_rename : bool
}.

Definition open_sink (s : Sink) (directories : bool) : bool * Sink :=
  if negb directories then (false, s) else (true, mkSink true (sk_active s) (sk_rotated s)).

Definition close_sink (s : Sink) : Sink := mkSink false (sk_active s) (sk_rotated s).

(** [rename(rotated_path(index - 1), rotated_path(index))] for [index] down to 2. *)
Fixpoint shift_rotated (index : nat) (calls : RotateCalls) (rotated : gmap nat bytes) : gmap nat bytes :=
  match index with
  | S ((S _) as from) =>
      let rotated :=
        match rotated !! from with
        | Some contents =>
            if rt_exists calls from && rt_rename calls from
            then delete from (<[index := contents]> rotated) else rotated
        | None => rotated
        end in
      shift_rotated from calls rotated
  | _ => rotated
  end.

Definition rotate_locked (s : Sink) (calls : RotateCalls) : bool * Sink :=
  let oldest := (kMaximumSinkFiles - 1)%nat in
  let rotated := if rt_remove calls then delete oldest (sk_rotated s) else sk_rotated s in
  let rotated := shift_rotated oldest calls rotated in
  match sk_active s with
  | Some contents =>
      if rt_active_exists calls then
        if rt_active_rename calls then (true, mkSink (sk_open s) None (<[1%nat := contents]> rotated))
        else (false, mkSink (sk_open s) (sk_active s) rotated)
      else (true, mkSink (sk_open s) (sk_active s) rotated)
  | None => (true, mkSink (sk_open s) None rotated)
  end.

Record SinkCalls := mkSinkCalls {
  sc_query : bool;              (* [exists] and [file_size] work *)
  sc_rotate : RotateCalls;
  sc_create : bool;
  sc_size : bool;               (* [GetFileSizeEx] works *)
  sc_write : Z -> option Z;     (* at an offset: bytes written, or failure *)
  sc_flush : bool;
  sc_rollback : bool            (* [SetFilePointerEx] and [SetEndOfFile] work *)
}.

(** [WriteFile] at the file pointer. *)
Definition overwrite (contents : bytes) (pointer : Z) (data : bytes) : bytes :=
  take (Z.to_nat pointer) contents ++ data ++ drop (Z.to_nat (pointer + len data)) contents.

(** The write loop.  The handle is opened with FILE_WRITE_DATA besides
    FILE_APPEND_DATA: its writes are not forced to the end of the file, but go to
    the file pointer, which starts at the beginning of the file and follows
    [offset]. *)
Fixpoint write_line (fuel : nat) (write : Z -> option Z) (line : bytes) (offset : Z) (contents : bytes)
    : bool * bytes :=
  if negb (offset <? len line) then (true, contents)
  else
    match fuel with
    | O => (false, contents)
    | S fuel' =>
        let chunk := Z.min (len line - offset) (2 ^ 20) in
        match write offset with
        | None => (false, contents)
        | Some written =>
            if written =? 0 then (false, contents)
            else
              let written := Z.min written chunk in
              let data := take (Z.to_nat written) (drop (Z.to_nat offset) line) in
              write_line fuel' write line (offset + written) (overwrite contents offset data)
        end
    end.

(** The part of [write] with the file open. *)
Definition write_file (calls : SinkCalls) (line contents : bytes) : bool * bytes :=
  let original := if sc_size calls then len contents else 0 in
  let '(written, contents') := write_line (length line) (sc_write calls) line 0 contents in
  let succeeded := written && sc_flush calls in
  if succeeded then (true, contents')
  else (false, if sc_rollback calls then take (Z.to_nat original) contents' else contents').

Definition write (s : Sink) (record : AuditRecord) (calls : SinkCalls) : bool * Sink :=
  if negb (sk_open s) then (false, s)
  else
    let line := format_record_line record in
    let current := len (default [] (sk_active s)) in
    let '(ready, s) :=
      if sc_query calls && (current + len line >? kMaximumSinkFileBytes)
      then rotate_locked s (sc_rotate calls) else (true, s) in
    if negb ready then (false, s)
    else if negb (sc_create calls) then (false, s)
    else
      let '(succeeded, contents) := write_file calls line (default [] (sk_active s)) in
      (succeeded, mkSink (sk_open s) (Some contents) (sk_rotated s)).

(** ** The rate limiter *)

Abbreviation double := spec_float.

Definition prec : Z := 53.
Definition emax : Z := 1024.
Definition double_of (z : Z) : double := binary_normalize prec emax z 0 false.

(** [1.0 / 5000.0] and [3.0]. *)
Definition refill_per_millisecond : double := SFdiv prec emax (double_of 1) (double_of 5000).
Definition burst : double := double_of 3.

(** [std::min]. *)
Definition double_min (a b : double) : double := if SFltb b a then b else a.

Record Bucket := mkBucket { bk_tokens : double; bk_last_refill : Z }.

Abbreviation Limiter := (gmap Z Bucket).

Definition allow (buckets : Limiter) (client_id now : Z) : bool * Limiter :=
  let bucket := default (mkBucket (double_of 0) 0) (buckets !! client_id) in
  let bucket :=
    if bk_last_refill bucket =? 0 then mkBucket burst now
    else if now >? bk_last_refill bucket then
      let elapsed := now - bk_last_refill bucket in
      mkBucket (double_min burst (SFadd prec emax (bk_tokens bucket)
        (SFmul prec emax (double_of elapsed) refill_per_millisecond))) now
    else bucket in
  if SFleb (double_of 1) (bk_tokens bucket)
  then (true, <[client_id := mkBucket (SFsub prec emax (bk_tokens bucket) (double_of 1)) (bk_last_refill bucket)]> buckets)
  else (false, <[client_id := bucket]> buckets).

(** ** The server's handler *)

(** The records written before the first failure, and the last of their
    sequences. *)
Fixpoint write_records (s : Sink) (records : list AuditRecord) (calls : nat -> SinkCalls)
    (last_accepted : Z) : Sink * Z :=
  match records with
  | [] => (s, last_accepted)
  | record :: rest =>
      let '(written, s) := write s record (calls O) in
      if negb written then (s, last_accepted)
      else write_records s rest (fun n => calls (S n)) (ar_sequence record)
  end.

Definition greatest_sequence (records : list AuditRecord) : Z :=
  fold_left (fun last_accepted record => Z.max last_accepted (ar_sequence record)) records 0.

(** The sink, the limiter and the acknowledgement; [None] disconnects. *)
Definition process_audit_upload (sink : Sink) (limiter : Limiter) (registry_id : Z) (payload : bytes)
    (now : Z) (calls : nat -> SinkCalls) : Sink * Limiter * option bytes :=
  match decode_audit_chunk payload with
  | None => (sink, limiter, None)
  | Some records =>
      let '(allowed, limiter) := allow limiter registry_id now in
      let '(sink, last_accepted) :=
        if negb allowed then (sink, 0)
        else if negb (sk_open sink) then (sink, greatest_sequence records)
        else write_records sink records calls 0 in
      (sink, limiter, Some (encode_audit_ack last_accepted))
  end.

(** ** The client's side *)

Definition kAuditUploadMilliseconds : Z := 5000.

(** The audit part of [pop_outbound_message]: a chunk, and when the next one may
    go. *)
Definition pop_audit_upload (s : Spool) (next_upload now : Z) : option bytes * Z :=
  if negb (spool_empty s) && (now >=? next_upload) then
    let chunk := peek_chunk s kMaximumEventsPerChunk in
    if bool_decide (chunk = []) then (None, next_upload)
    else
      let payload := encode_audit_chunk chunk in
      if bool_decide (payload = []) then (None, next_upload)
      else (Some payload, now + kAuditUploadMilliseconds)
  else (None, next_upload).

Definition process_audit_ack (s : Spool) (payload : bytes) : Spool :=
  match decode_audit_ack payload with
  | Some sequence => acknowledge s sequence
  | None => s
  end.

(** ** Tried on the tests *)

Definition sample_record (sequence : Z) (detail : string) : AuditRecord :=
  mkAuditRecord sequence 1700000000000
    (mkEvent 6 2 (text "svc") (text "tick") (text "ok") 7 3 (text detail)).

Example line_of_a_record :
  format_record_line (sample_record 1 "token=abcdef host") =
  text "1700000000000" ++ [tab] ++ text "1" ++ [tab] ++ text "security" ++ [tab] ++ text "warning" ++ [tab] ++
  text "svc" ++ [tab] ++ text "tick" ++ [tab] ++ text "ok" ++ [tab] ++ text "op=7" ++ [tab] ++
  text "client=3" ++ [tab] ++ text "<redacted>" ++ [line_feed].
Proof. vm_compute. reflexivity. Qed.

Definition limiter_run (times : list (Z * Z)) : list bool :=
  (fold_left (fun '(answers, buckets) '(client, now) =>
     let '(answer, buckets) := allow buckets client now in (answers ++ [answer], buckets))
   times ([], ∅)).1.

Example limiter_test :
  limiter_run [(1, 1000); (1, 1000); (1, 1000); (1, 1000); (1, 6000); (1, 6000); (2, 1000)] =
  [true; true; true; false; true; false; true].
Proof. vm_compute. reflexivity. Qed.

(** ** Sanitised events *)

(** A field of a record: no control character, and within its maximum. *)
Definition field_ok (maximum : Z) (field : bytes) : Prop :=
  len field <= maximum /\ Forall (fun c => c <> tab /\ c <> line_feed) field.

Lemma sanitize_audit_field_ok (t : bytes) (maximum : Z) :
  0 <= maximum -> field_ok maximum (sanitize_audit_field t maximum).
Proof.
  intros Hm. unfold field_ok, sanitize_audit_field. split.
  - unfold len. rewrite length_map. by apply PublicText.sanitized_len.
  - apply Forall_map, Forall_true. intros c.
    pose proof (byte_forall (fun value => negb (bool_decide (keep value = tab) || bool_decide (keep value = line_feed)))) as H.
    specialize (H ltac:(vm_compute; reflexivity) c). cbv beta in H. by bool_to_prop.
Qed.

Definition typed_event (e : Event) : Prop :=
  category_in_range (ev_category e) = true /\ severity_in_range (ev_severity e) = true /\
  u64 (ev_operation_id e) /\ u64 (ev_client_id e).

Definition typed_record (r : AuditRecord) : Prop :=
  u64 (ar_sequence r) /\ u64 (ar_timestamp r) /\ typed_event (ar_event r).

Definition fields_ok (e : Event) : Prop :=
  field_ok kMaximumFieldBytes (ev_component e) /\ field_ok kMaximumFieldBytes (ev_action e) /\
  field_ok kMaximumFieldBytes (ev_result e) /\ field_ok kMaximumDetailBytes (ev_detail e).

Lemma sanitize_event_ok (e : Event) : fields_ok (sanitize_event e).
Proof. unfold fields_ok. split_and!; by apply sanitize_audit_field_ok. Qed.

(** ** The record line *)

Definition record_fields (r : AuditRecord) : list bytes :=
  let clean := sanitize_event (ar_event r) in
  [dec (ar_timestamp r); dec (ar_sequence r); category_to_string (ev_category clean);
   severity_to_string (ev_severity clean); ev_component clean; ev_action clean; ev_result clean;
   text "op=" ++ dec (ev_operation_id clean); text "client=" ++ dec (ev_client_id clean); ev_detail clean].

Fixpoint tab_separated (fields : list bytes) : bytes :=
  match fields with
  | [] => []
  | [field] => field
  | field :: rest => field ++ [tab] ++ tab_separated rest
  end.

Definition on_one_line (field : bytes) : Prop := Forall (fun c => c <> tab /\ c <> line_feed) field.

Lemma record_line_fields (r : AuditRecord) :
  format_record_line r = tab_separated (record_fields r) ++ [line_feed].
Proof. unfold format_record_line, record_fields. cbn [tab_separated]. by rewrite <- !app_assoc. Qed.

Lemma dec_on_one_line (n : Z) : u64 n -> on_one_line (dec n).
Proof.
  intros Hn. destruct (dec_spec n Hn) as (_ & _ & _ & Hd & _). apply Forall_forall. intros c Hc.
  rewrite forallb_forall in Hd. specialize (Hd c ltac:(by apply list_elem_of_In)).
  pose proof (byte_forall (fun c => negb (isdigit c && (bool_decide (c = tab) || bool_decide (c = line_feed))))) as H.
  specialize (H ltac:(vm_compute; reflexivity) c). cbv beta in H. rewrite Hd in H. cbn [andb] in H. bool_to_prop. by split.
Qed.

Lemma name_on_one_line (v : Z) :
  on_one_line (category_to_string v) /\ on_one_line (severity_to_string v).
Proof.
  unfold category_to_string, severity_to_string. split; repeat case_match; by repeat constructor.
Qed.

Lemma record_fields_on_one_line (r : AuditRecord) :
  typed_record r -> Forall on_one_line (record_fields r).
Proof.
  intros (Hs & Ht & _ & _ & Ho & Hc). destruct (sanitize_event_ok (ar_event r)) as ([_ H1] & [_ H2] & [_ H3] & [_ H4]).
  unfold record_fields. cbv zeta. repeat (apply Forall_cons; split); try done.
  - by apply dec_on_one_line.
  - by apply dec_on_one_line.
  - apply name_on_one_line.
  - apply name_on_one_line.
  - by apply dec_on_one_line.
  - by apply dec_on_one_line.
Qed.

Lemma field_boundary (a b x y : bytes) (c : byte) :
  Forall (fun d => d <> c) a -> Forall (fun d => d <> c) b -> a ++ c :: x = b ++ c :: y -> a = b /\ x = y.
Proof.
  revert b. induction a as [|d a IH]; intros [|d' b] Ha Hb E; cbn in E.
  - by injection E as ->.
  - injection E as -> _. by apply Forall_cons in Hb as [? _].
  - injection E as -> _. by apply Forall_cons in Ha as [? _].
  - injection E as -> E. apply Forall_cons in Ha as [_ Ha], Hb as [_ Hb].
    destruct (IH b Ha Hb E) as [-> ->]. done.
Qed.

Lemma tab_separated_inj (fs gs : list bytes) :
  length fs = length gs -> Forall on_one_line fs -> Forall on_one_line gs ->
  tab_separated fs = tab_separated gs -> fs = gs.
Proof.
  assert (Hw : forall f, on_one_line f -> Forall (fun d => d <> tab) f)
    by (intros f Hf; eapply Forall_impl; [exact Hf|]; by intros c [? _]).
  revert gs. induction fs as [|f fs IH]; intros [|g gs] Hl Hf Hg; try done. cbn in Hl.
  apply Forall_cons in Hf as [Hf Hfs], Hg as [Hg Hgs].
  destruct fs as [|f2 fs], gs as [|g2 gs]; try done; cbn [tab_separated].
  - by intros ->.
  - intros E. apply field_boundary in E as [-> E]; [|by apply Hw..]. f_equal. apply IH; [cbn in *; lia|done..].
Qed.

Lemma tab_separated_no_feed (fs : list bytes) :
  Forall on_one_line fs -> Forall (fun c => c <> line_feed) (tab_separated fs).
Proof.
  assert (Hw : forall f, on_one_line f -> Forall (fun d => d <> line_feed) f)
    by (intros f Hf; eapply Forall_impl; [exact Hf|]; by intros c [_ ?]).
  induction 1 as [|f fs Hf Hfs IH]; [constructor|]. destruct fs as [|g fs]; cbn [tab_separated]; [by apply Hw|].
  apply Forall_app. split; [by apply Hw|]. by constructor.
Qed.

(** A record is one line, and the line is unambiguous: whatever the caller put
    into the record, the line feed of its formatted line is the last byte and the
    only one; and when two records give the same line, they agree in time,
    sequence, operation, client, the printed category and severity, and in every
    sanitised field. *)
Theorem record_line_unambiguous (r r' : AuditRecord) :
  typed_record r -> typed_record r' ->
  (exists line, format_record_line r = line ++ [line_feed] /\ line_feed ∉ line) /\
  (format_record_line r = format_record_line r' ->
   ar_timestamp r = ar_timestamp r' /\ ar_sequence r = ar_sequence r' /\
   ev_operation_id (ar_event r) = ev_operation_id (ar_event r') /\
   ev_client_id (ar_event r) = ev_client_id (ar_event r') /\ record_fields r = record_fields r').
Proof.
  intros Hr Hr'. pose proof (record_fields_on_one_line r Hr) as Hf.
  pose proof (record_fields_on_one_line r' Hr') as Hf'. rewrite !record_line_fields. split.
  - exists (tab_separated (record_fields r)). split; [done|]. intros Hin.
    pose proof (tab_separated_no_feed _ Hf) as H. rewrite Forall_forall in H. by apply (H line_feed).
  - intros E. apply app_inj_tail in E as [E _]. apply tab_separated_inj in E; [|done..].
    pose proof E as E'. unfold record_fields in E'. cbv zeta in E'.
    injection E' as E1 E2 _ _ _ _ _ E3 E4 _.
    destruct Hr as (Hs & Ht & _ & _ & Ho & Hc), Hr' as (Hs' & Ht' & _ & _ & Ho' & Hc').
    exact (conj (dec_inj _ _ Ht Ht' E1) (conj (dec_inj _ _ Hs Hs' E2)
      (conj (dec_inj _ _ Ho Ho' E3) (conj (dec_inj _ _ Hc Hc' E4) E)))).
Qed.

(** ** Chunks *)

(** A record as the server has it: sanitised by the sender and on receipt. *)
Definition received (r : AuditRecord) : AuditRecord :=
  mkAuditRecord (ar_sequence r) (ar_timestamp r) (sanitize_event (sanitize_event (ar_event r))).

Lemma read_string_append (maximum : Z) (v rest : bytes) :
  len v <= maximum -> maximum <= u16_max -> read_string maximum (append_string v ++ rest) = Some (v, rest).
Proof.
  intros Hv Hm. pose proof (len_nonneg v). unfold read_string, append_string. rewrite <- app_assoc.
  rewrite rbind_read_le by ulia. rewrite rbind_guard by lia. apply read_bytes_app. unfold len. lia.
Qed.

Lemma rbind_read_audit_string {B} (maximum : Z) (v rest : bytes) (k : bytes -> reader B) :
  len v <= maximum -> maximum <= u16_max ->
  rbind (read_string maximum) k (append_string v ++ rest) = k v rest.
Proof. intros Hv Hm. unfold rbind. by rewrite read_string_append. Qed.

Lemma range_u8 (v : Z) :
  category_in_range v = true \/ severity_in_range v = true -> u8 v.
Proof.
  unfold category_in_range, severity_in_range, category_enrollment, category_system, severity_info, severity_error.
  intros [H|H]; bool_to_prop; ulia.
Qed.

Lemma read_encoded_record (r : AuditRecord) (rest : bytes) :
  typed_record r -> read_record (encode_record r ++ rest) = Some (received r, rest).
Proof.
  intros (Hs & Ht & Hcat & Hsev & Ho & Hc).
  destruct (sanitize_event_ok (ar_event r)) as ([L1 _] & [L2 _] & [L3 _] & [L4 _]).
  set (clean := sanitize_event (ar_event r)) in *. unfold read_record, encode_record. fold clean.
  assert (Ecat : ev_category clean = ev_category (ar_event r)) by done.
  assert (Esev : ev_severity clean = ev_severity (ar_event r)) by done.
  assert (Eo : ev_operation_id clean = ev_operation_id (ar_event r)) by done.
  assert (Ec : ev_client_id clean = ev_client_id (ar_event r)) by done.
  rewrite <- !app_assoc.
  rewrite rbind_read_le by done. rewrite rbind_read_le by done.
  rewrite rbind_read_le by (rewrite Ecat; apply range_u8; by left). rewrite Ecat, rbind_guard by done.
  rewrite rbind_read_le by (rewrite Esev; apply range_u8; by right). rewrite Esev, rbind_guard by done.
  rewrite rbind_read_le by (by rewrite Eo). rewrite rbind_read_le by (by rewrite Ec).
  rewrite !rbind_read_audit_string by done. rewrite Eo, Ec. done.
Qed.

Lemma encoded_record_size (r : AuditRecord) : len (encode_record r) <= 682.
Proof.
  destruct (sanitize_event_ok (ar_event r)) as ([L1 _] & [L2 _] & [L3 _] & [L4 _]).
  unfold encode_record, append_string, kMaximumFieldBytes, kMaximumDetailBytes in *. cbv zeta.
  rewrite !len_app, !len_write_le. lia.
Qed.

(** The loop takes the records that fit, in order. *)
Lemma chunk_body_spec (records : list AuditRecord) : forall count body count' body',
  chunk_body records count body = (count', body') ->
  0 <= count <= kMaximumEventsPerChunk -> 3 + len body <= kMaximumChunkBytes ->
  exists k : nat, count' = count + Z.of_nat k /\ (k <= length records)%nat /\
    body' = body ++ concat (map encode_record (take k records)) /\
    count' <= kMaximumEventsPerChunk /\ 3 + len body' <= kMaximumChunkBytes /\
    (records <> [] -> count < kMaximumEventsPerChunk -> 3 + len body + 682 <= kMaximumChunkBytes -> (0 < k)%nat) /\
    ((k < length records)%nat -> count' < kMaximumEventsPerChunk ->
       3 + len (body ++ concat (map encode_record (take (S k) records))) > kMaximumChunkBytes).
Proof.
  induction records as [|r records IH]; intros count body count' body'; cbn [chunk_body].
  { intros [= <- <-] Hc Hb. exists O. cbn. rewrite app_nil_r. split_and!; (done || (intros; lia)). }
  rewrite Z.geb_leb. destruct (Z.leb_spec kMaximumEventsPerChunk count).
  { intros [= <- <-] Hc Hb. exists O. cbn. rewrite app_nil_r. split_and!; (done || (intros; lia)). }
  rewrite Z.gtb_ltb. destruct (Z.ltb_spec kMaximumChunkBytes (3 + len body + len (encode_record r))).
  { intros [= <- <-] Hc Hb. exists O. cbn. rewrite !app_nil_r. pose proof (encoded_record_size r).
    split_and!; try (done || (intros; lia)). intros _ _. rewrite len_app. lia. }
  intros E Hc Hb. apply IH in E as (k & -> & Hk & -> & H1 & H2 & _ & H3); [|lia|rewrite len_app; lia].
  exists (S k). cbn [take map concat length]. rewrite <- app_assoc. rewrite <- app_assoc in H2.
  split_and!; try (done || (intros; lia)). intros Hlt Hn. rewrite app_assoc. apply H3; lia.
Qed.

(** How many of the records go into one chunk. *)
Definition chunk_count (records : list AuditRecord) : nat := Z.to_nat (chunk_body records 0 []).1.

Lemma encode_audit_chunk_spec (records : list AuditRecord) :
  encode_audit_chunk records =
    write_le 1 1 ++ write_le 2 (Z.of_nat (chunk_count records)) ++
    concat (map encode_record (take (chunk_count records) records)) /\
  Z.of_nat (chunk_count records) <= kMaximumEventsPerChunk /\ (chunk_count records <= length records)%nat /\
  len (encode_audit_chunk records) <= kMaximumChunkBytes /\
  (records <> [] -> (0 < chunk_count records)%nat).
Proof.
  unfold encode_audit_chunk, chunk_count. destruct (chunk_body records 0 []) as [count body] eqn:E.
  apply chunk_body_spec in E as (k & -> & Hk & -> & H1 & H2 & H3 & _); [|done|done]. cbn [fst app].
  rewrite Z.add_0_l, Nat2Z.id. split; [done|]. split; [done|]. split; [done|]. split.
  - cbn [app] in H2. rewrite !len_app, !len_write_le. lia.
  - intros Hne. apply H3; done.
Qed.

(** The first [n] records are within the limits of a chunk: 64 records, and 32 KiB
    with the header. *)
Definition chunk_fits (records : list AuditRecord) (n : nat) : Prop :=
  Z.of_nat n <= 64 /\ 3 + len (concat (map encode_record (take n records))) <= 32 * 1024.

Lemma chunk_count_greatest (records : list AuditRecord) :
  chunk_fits records (chunk_count records) /\
  forall n, (n <= length records)%nat -> chunk_fits records n -> (n <= chunk_count records)%nat.
Proof.
  unfold chunk_count. destruct (chunk_body records 0 []) as [count body] eqn:E.
  apply chunk_body_spec in E as (k & -> & Hk & -> & H1 & H2 & _ & H3); [|done|done].
  cbn [fst app] in *. rewrite Z.add_0_l, Nat2Z.id in *.
  unfold chunk_fits, kMaximumEventsPerChunk, kMaximumChunkBytes in *. split; [done|].
  intros n Hn [Hn1 Hn2]. destruct (decide (n <= k)%nat) as [|Hlt]; [done|].
  assert (take n records = take (S k) records ++ drop (S k) (take n records)) as E.
  { rewrite <- (take_drop (S k) (take n records)) at 1. by rewrite take_take, Nat.min_l by lia. }
  rewrite E, map_app, concat_app, len_app in Hn2.
  pose proof (len_nonneg (concat (map encode_record (drop (S k) (take n records))))).
  specialize (H3 ltac:(lia) ltac:(lia)). lia.
Qed.

Lemma read_encoded_records (records : list AuditRecord) (rest : bytes) :
  Forall typed_record records ->
  read_many (length records) read_record (concat (map encode_record records) ++ rest) =
    Some (map received records, rest).
Proof.
  induction 1 as [|r records Hr Hrs IH]; [done|]. cbn [length read_many map concat].
  rewrite <- app_assoc. unfold rbind at 1. rewrite read_encoded_record by done.
  unfold rbind. rewrite IH. done.
Qed.

Lemma decode_encoded_chunk (records : list AuditRecord) :
  Forall typed_record records ->
  decode_audit_chunk (encode_audit_chunk records) =
    Some (map received (take (chunk_count records) records)).
Proof.
  intros Hr. destruct (encode_audit_chunk_spec records) as (E & Hc & Hk & Hlen & _).
  unfold decode_audit_chunk. rewrite Z.gtb_ltb. destruct (Z.ltb_spec kMaximumChunkBytes
    (len (encode_audit_chunk records))); [lia|]. rewrite E. unfold run_reader, chunk_reader, kMaximumEventsPerChunk in *.
  rewrite rbind_read_le by ulia. rewrite rbind_guard by done. rewrite rbind_read_le by ulia.
  rewrite rbind_guard by lia. rewrite Nat2Z.id. unfold rbind at 1.
  rewrite <- (app_nil_r (concat _)).
  replace (chunk_count records) with (length (take (chunk_count records) records)) at 1
    by (rewrite length_take; lia).
  rewrite read_encoded_records by (by apply Forall_take). done.
Qed.

Lemma read_record_inv (input : bytes) (r : AuditRecord) (rest : bytes) :
  read_record input = Some (r, rest) -> typed_record r /\ fields_ok (ar_event r).
Proof.
  unfold read_record. intros H. reader_inv.
  split; [split_and!; done|apply sanitize_event_ok].
Qed.

(** C38. The audit upload is exact and safe.  A chunk carries the longest prefix
    of the records that is within the two limits, 64 records and 32 KiB, at least
    one record, and no byte more, and the server reads exactly these, sanitised
    again; and whatever bytes a client sends, a record the server accepts has
    fields within their bounds and without tabs or line feeds, and at most 64 come
    in one chunk. *)
Theorem audit_chunk_exact (records : list AuditRecord) :
  Forall typed_record records ->
  let payload := encode_audit_chunk records in
  (exists n : nat, (n <= length records)%nat /\ chunk_fits records n /\
     (forall m, (m <= length records)%nat -> chunk_fits records m -> (m <= n)%nat) /\
     (records <> [] -> (0 < n)%nat) /\
     len payload = 3 + len (concat (map encode_record (take n records))) /\
     decode_audit_chunk payload = Some (map received (take n records))) /\
  forall any_bytes accepted, decode_audit_chunk any_bytes = Some accepted ->
    len accepted <= kMaximumEventsPerChunk /\
    Forall (fun r => typed_record r /\ fields_ok (ar_event r)) accepted.
Proof.
  intros Hr payload. destruct (encode_audit_chunk_spec records) as (E & _ & Hk & _ & Hne).
  destruct (chunk_count_greatest records) as [Hfit Hmax]. split.
  { exists (chunk_count records). split_and!; try done; [|by apply decode_encoded_chunk].
    unfold payload. rewrite E, !len_app, !len_write_le. lia. }
  intros any_bytes accepted. unfold decode_audit_chunk. case_match; [done|]. unfold chunk_reader. intros Hrun.
  reader_inv. bool_to_prop.
  match goal with H : read_many _ _ _ = Some _ |- _ => rename H into Hmany end.
  assert (Hall : forall n input rs rest, read_many n read_record input = Some (rs, rest) ->
    length rs = n /\ Forall (fun r => typed_record r /\ fields_ok (ar_event r)) rs).
  { clear. intros n. induction n as [|n IH]; intros input rs rest; cbn [read_many].
    - intros [= <- <-]. by split.
    - intros E. apply rbind_inv in E as (r & mid & Hread & E). apply rbind_inv in E as (rs' & end_ & Hrest & E).
      injection E as <- <-. destruct (IH _ _ _ Hrest) as [<- Hf]. split; [done|].
      constructor; [by eapply read_record_inv|done]. }
  destruct (Hall _ _ _ _ Hmany) as [Hn Hf]. split; [|done]. unfold len. rewrite Hn. ulia.
Qed.

Lemma sample_record_typed (n : Z) (detail : string) : u64 n -> typed_record (sample_record n detail).
Proof.
  intros Hn. assert (H : u64 1700000000000 /\ u64 7 /\ u64 3) by (split_and!; ulia). destruct H as (? & ? & ?).
  split; [done|]. split; [done|]. by split_and!.
Qed.

Lemma record_line_unambiguous_witness :
  typed_record (sample_record 1 "token=abcdef host") /\
  exists line, format_record_line (sample_record 1 "token=abcdef host") = line ++ [line_feed] /\ line_feed ∉ line.
Proof.
  assert (H : typed_record (sample_record 1 "token=abcdef host")) by (apply sample_record_typed; ulia).
  split; [exact H|]. exact (proj1 (record_line_unambiguous _ _ H H)).
Defined.

(** Two records go into one chunk; of seventy, the first sixty-four. *)
Lemma audit_chunk_exact_witness :
  decode_audit_chunk (encode_audit_chunk [sample_record 1 "a"; sample_record 2 "b"]) =
    Some (map received [sample_record 1 "a"; sample_record 2 "b"]) /\
  decode_audit_chunk (encode_audit_chunk (replicate 70 (sample_record 1 "a"))) =
    Some (map received (replicate 64 (sample_record 1 "a"))).
Proof.
  assert (typed_record (sample_record 1 "a") /\ typed_record (sample_record 2 "b")) as [T1 T2]
    by (split; apply sample_record_typed; ulia).
  split.
  - destruct (audit_chunk_exact [sample_record 1 "a"; sample_record 2 "b"]) as [(n & Hn & _ & Hmax & _ & _ & E) _].
    { by repeat (apply Forall_cons; split). }
    assert (n = 2%nat) as ->; [|exact E]. cbn in Hn.
    assert (2 <= n)%nat by (apply (Hmax 2%nat); [cbn; lia|split; vm_compute; discriminate]). lia.
  - destruct (audit_chunk_exact (replicate 70 (sample_record 1 "a"))) as [(n & Hn & Hfit & Hmax & _ & _ & E) _].
    { by apply Forall_replicate. }
    destruct Hfit as [Hn' _].
    assert (64 <= n)%nat by (apply (Hmax 64%nat); [rewrite length_replicate; lia|split; vm_compute; discriminate]).
    assert (n = 64%nat) as -> by lia. rewrite E, take_replicate. reflexivity.
Defined.

(** ** What a write does to the file *)

Lemma overwrite_front (line old : bytes) (offset n : Z) :
  0 <= offset -> 0 <= n -> offset + n <= len line ->
  overwrite (take (Z.to_nat offset) line ++ drop (Z.to_nat offset) old) offset
    (take (Z.to_nat n) (drop (Z.to_nat offset) line)) =
  take (Z.to_nat (offset + n)) line ++ drop (Z.to_nat (offset + n)) old.
Proof.
  intros Ho Hn Hle. unfold overwrite, len in *.
  rewrite take_app_length' by (rewrite length_take; lia).
  assert (E : Z.of_nat (length (take (Z.to_nat n) (drop (Z.to_nat offset) line))) = n)
    by (rewrite length_take, length_drop; lia).
  rewrite E, drop_app_ge by (rewrite length_take; lia). rewrite length_take, drop_drop.
  replace (Z.to_nat offset + (Z.to_nat (offset + n) - Z.to_nat offset `min` length line))%nat
    with (Z.to_nat (offset + n)) by lia.
  rewrite app_assoc. f_equal. replace (Z.to_nat (offset + n)) with (Z.to_nat offset + Z.to_nat n)%nat by lia.
  by rewrite take_take_drop.
Qed.

Lemma write_line_front (write : Z -> option Z) (line old : bytes) (fuel : nat) : forall offset ok contents,
  0 <= offset <= len line -> (forall o n, write o = Some n -> 0 <= n) ->
  write_line fuel write line offset (take (Z.to_nat offset) line ++ drop (Z.to_nat offset) old) = (ok, contents) ->
  exists n, 0 <= n <= len line /\ contents = take (Z.to_nat n) line ++ drop (Z.to_nat n) old /\
    (ok = true -> n = len line).
Proof.
  induction fuel as [|fuel IH]; intros offset ok contents Ho Hw; cbn [write_line].
  { destruct (Z.ltb_spec offset (len line)); intros [= <- <-]; exists offset; split_and!; (done || lia). }
  destruct (Z.ltb_spec offset (len line)); cbn [negb].
  2:{ intros [= <- <-]. exists offset. split_and!; (done || lia). }
  destruct (write offset) as [n|] eqn:En; [|intros [= <- <-]; exists offset; split_and!; (done || lia)].
  destruct (Z.eqb_spec n 0); [intros [= <- <-]; exists offset; split_and!; (done || lia)|].
  specialize (Hw offset n En) as Hn. rewrite overwrite_front by lia. apply IH; [lia|done].
Qed.

(** The bytes an accepted record replaces: a sink's write starts at the front of
    the active file, whatever the file holds. *)
Lemma write_replaces_front (s s' : Sink) (r : AuditRecord) (calls : SinkCalls) :
  (forall o n, sc_write calls o = Some n -> 0 <= n) ->
  len (default [] (sk_active s)) + len (format_record_line r) <= kMaximumSinkFileBytes ->
  write s r calls = (true, s') ->
  sk_active s' = Some (format_record_line r ++
    drop (length (format_record_line r)) (default [] (sk_active s))).
Proof.
  intros Hw Hsize. unfold write. destruct (sk_open s); cbn [negb]; [|done].
  rewrite Z.gtb_ltb. destruct (Z.ltb_spec kMaximumSinkFileBytes
    (len (default [] (sk_active s)) + len (format_record_line r))); [lia|]. rewrite andb_false_r. cbn [negb].
  destruct (sc_create calls); cbn [negb]; [|done]. unfold write_file.
  destruct (write_line _ _ _ _ _) as [ok contents] eqn:E.
  apply (write_line_front _ _ (default [] (sk_active s)) _ 0) in E as (n & Hn & -> & Hok);
    [|pose proof (len_nonneg (format_record_line r)); lia|done].
  destruct ok; cbn [andb]; [|done]. rewrite (Hok eq_refl).
  destruct (sc_flush calls); [|done]. intros [= <-]. cbn. unfold len. rewrite Nat2Z.id.
  by rewrite take_ge by done.
Qed.

Definition good_sink : SinkCalls :=
  mkSinkCalls true (mkRotateCalls true (fun _ => true) (fun _ => true) true true) true true
    (fun _ => Some 65536) true true.

(** Two records of the same size, both accepted: the file has the second one only. *)
Example second_record_overwrites_first :
  let opened := (open_sink (mkSink false None ∅) true).2 in
  let '(first, s1) := write opened (sample_record 1 "a") good_sink in
  let '(second, s2) := write s1 (sample_record 2 "b") good_sink in
  first = true /\ second = true /\ sk_active s2 = Some (format_record_line (sample_record 2 "b")).
Proof. vm_compute. by repeat split. Qed.

(** When the size of the file is not known, undoing a failed write empties it. *)
Example rollback_without_size_empties_the_file :
  let opened := mkSink true (Some (text "earlier records")) ∅ in
  let calls := mkSinkCalls true (sc_rotate good_sink) true false (fun _ => None) true true in
  let '(ok, s) := write opened (sample_record 1 "a") calls in ok = false /\ sk_active s = Some [].
Proof. vm_compute. by split. Qed.

End AuditLog.
