(* ===== verification/AuditUpload.v ===== *)
(** The audit upload as a whole: a client process that emits records into its
    spool and uploads chunks of them, the server that writes them to its sink and
    acknowledges, and the acknowledgements that empty the spool.

    Uploads and acknowledgements travel through the authenticated channel: what
    one side receives the other sent, but late, repeatedly or not at all.  The
    sink is shared with the server's own records and may fail at every call. *)

From S2P Require Import Prelude Wire AuditLog.

Module AuditUpload.
Import AuditLog.

(** ** Runs *)

Inductive AuditOp : Type :=
| client_emits (event : Event) (now : Z)
| client_uploads (now : Z)
| client_receives (index : nat)
| server_receives (index : nat) (registry_id now : Z) (calls : nat -> SinkCalls)
| server_opens_sink (directories : bool)
| server_closes_sink
| server_writes (record : AuditRecord) (calls : SinkCalls).

(** Both sides, what each sent, and for the statements: the records emitted,
    those dropped from a full spool, those the sink took and those acknowledged
    without a sink. *)
Record AuditSystem := mkAuditSystem {
  as_spool : Spool;
  as_next_upload : Z;
  as_sink : Sink;
  as_limiter : Limiter;
  as_uploads : list bytes;
  as_acks : list bytes;
  as_emitted : list AuditRecord;
  as_dropped : list AuditRecord;
  as_written : list AuditRecord;
  as_waived : list AuditRecord
}.

(** The records that [write_records] wrote. *)
Fixpoint written_records (s : Sink) (records : list AuditRecord) (calls : nat -> SinkCalls) : list AuditRecord :=
  match records with
  | [] => []
  | record :: rest =>
      let '(written, s) := write s record (calls O) in
      if negb written then [] else record :: written_records s rest (fun n => calls (S n))
  end.

(** The records of an upload that were written, and those passed over because
    there is no sink. *)
Definition taken (sink : Sink) (limiter : Limiter) (registry_id : Z) (payload : bytes) (now : Z)
    (calls : nat -> SinkCalls) : list AuditRecord * list AuditRecord :=
  match decode_audit_chunk payload with
  | None => ([], [])
  | Some records =>
      if negb (allow limiter registry_id now).1 then ([], [])
      else if negb (sk_open sink) then ([], records)
      else (written_records sink records calls, [])
  end.

Definition audit_step (s : AuditSystem) (op : AuditOp) : AuditSystem :=
  match op with
  | client_emits event now =>
      let '(spool, sequence) := emit (as_spool s) event now in
      let gone := (len (sp_records (as_spool s)) + 1 - len (sp_records spool))%Z in
      mkAuditSystem spool (as_next_upload s) (as_sink s) (as_limiter s) (as_uploads s) (as_acks s)
        (as_emitted s ++ [mkAuditRecord sequence now (sanitize_event event)])
        (as_dropped s ++ take (Z.to_nat gone) (sp_records (as_spool s))) (as_written s) (as_waived s)
  | client_uploads now =>
      let '(payload, next_upload) := pop_audit_upload (as_spool s) (as_next_upload s) now in
      mkAuditSystem (as_spool s) next_upload (as_sink s) (as_limiter s)
        (as_uploads s ++ match payload with Some p => [p] | None => [] end) (as_acks s) (as_emitted s)
        (as_dropped s) (as_written s) (as_waived s)
  | client_receives index =>
      match as_acks s !! index with
      | None => s
      | Some payload =>
          mkAuditSystem (process_audit_ack (as_spool s) payload) (as_next_upload s) (as_sink s) (as_limiter s)
            (as_uploads s) (as_acks s) (as_emitted s) (as_dropped s) (as_written s) (as_waived s)
      end
  | server_receives index registry_id now calls =>
      match as_uploads s !! index with
      | None => s
      | Some payload =>
          let '(sink, limiter, ack) :=
            process_audit_upload (as_sink s) (as_limiter s) registry_id payload now calls in
          let '(written, waived) := taken (as_sink s) (as_limiter s) registry_id payload now calls in
          mkAuditSystem (as_spool s) (as_next_upload s) sink limiter (as_uploads s)
            (as_acks s ++ match ack with Some a => [a] | None => [] end) (as_emitted s) (as_dropped s)
            (as_written s ++ written) (as_waived s ++ waived)
      end
  | server_opens_sink directories =>
      mkAuditSystem (as_spool s) (as_next_upload s) (open_sink (as_sink s) directories).2 (as_limiter s)
        (as_uploads s) (as_acks s) (as_emitted s) (as_dropped s) (as_written s) (as_waived s)
  | server_closes_sink =>
      mkAuditSystem (as_spool s) (as_next_upload s) (close_sink (as_sink s)) (as_limiter s)
        (as_uploads s) (as_acks s) (as_emitted s) (as_dropped s) (as_written s) (as_waived s)
  | server_writes record calls =>
      mkAuditSystem (as_spool s) (as_next_upload s) (write (as_sink s) record calls).2 (as_limiter s)
        (as_uploads s) (as_acks s) (as_emitted s) (as_dropped s) (as_written s) (as_waived s)
  end.

Definition initial_audit (capacity : Z) : AuditSystem :=
  mkAuditSystem (new_spool capacity) 0 (mkSink false None ∅) ∅ [] [] [] [] [] [].

Definition audit_run (capacity : Z) (ops : list AuditOp) : AuditSystem :=
  fold_left audit_step ops (initial_audit capacity).

(** Events and the clock have their types. *)
Definition audit_op_ok (op : AuditOp) : Prop :=
  match op with
  | client_emits event now => typed_event event /\ u64 now
  | _ => True
  end.

(** ** The pieces *)

Lemma make_room_spec (records : list AuditRecord) (capacity : Z) : forall dropped,
  1 <= capacity -> u64 dropped ->
  exists k : nat, (k <= length records)%nat /\
    make_room records capacity dropped = (drop k records, (dropped + Z.of_nat k) mod 2 ^ 64) /\
    len (drop k records) + 1 <= Z.max capacity 1 /\ (len records < capacity -> k = 0%nat).
Proof.
  induction records as [|r records IH]; intros dropped Hc Hd; cbn [make_room].
  - exists O. rewrite Z.add_0_r, Z.mod_small by ulia. cbn [drop]. rewrite len_nil. split_and!; (done || lia).
  - rewrite Z.geb_leb. destruct (Z.leb_spec capacity (len (r :: records))) as [Hle|Hgt].
    + assert (u64 (wrap64 (dropped + 1))) by ulia.
      destruct (IH (wrap64 (dropped + 1)) Hc ltac:(done)) as (k & Hk & -> & Hl & _).
      exists (S k). cbn [drop length]. split; [lia|]. split; [|split; [done|lia]].
      f_equal. unfold wrap64. rewrite Zplus_mod_idemp_l. f_equal. lia.
    + exists O. cbn [drop]. rewrite Z.add_0_r, Z.mod_small by ulia. split_and!; (done || lia).
Qed.

Lemma drop_acknowledged_spec (records : list AuditRecord) (n : Z) :
  exists k : nat, drop_acknowledged records n = drop k records /\
    Forall (fun r => ar_sequence r <= n) (take k records).
Proof.
  induction records as [|r records (k & E & Hk)]; cbn [drop_acknowledged]; [by exists O|].
  destruct (Z.leb_spec (ar_sequence r) n); [|by exists O]. exists (S k). split; [done|]. by constructor.
Qed.

Lemma decode_encoded_ack (n : Z) : u64 n -> decode_audit_ack (encode_audit_ack n) = Some n.
Proof.
  intros Hn. unfold decode_audit_ack, encode_audit_ack, run_reader. rewrite <- (app_nil_r (write_le 8 n)).
  rewrite rbind_read_le by ulia. rewrite rbind_guard by done. by rewrite rbind_read_le.
Qed.

(** The last sequence acknowledged is that of the last record written. *)
Lemma write_records_spec (records : list AuditRecord) : forall s calls last s' last',
  write_records s records calls last = (s', last') ->
  exists k : nat, written_records s records calls = take k records /\ (k <= length records)%nat /\
    (k = 0%nat /\ last' = last \/ exists r, records !! (k - 1)%nat = Some r /\ (0 < k)%nat /\ last' = ar_sequence r).
Proof.
  induction records as [|r records IH]; intros s calls last s' last'; cbn [write_records written_records].
  { intros [= <- <-]. exists O. by auto. }
  destruct (write s r (calls O)) as [written s1]. destruct written; cbn [negb].
  2:{ intros [= <- <-]. exists O. split; [done|]. split; [cbn; lia|]. by left. }
  intros E. destruct (IH _ _ _ _ _ E) as (k & -> & Hk & Hlast). exists (S k). cbn [take length].
  split; [done|]. split; [lia|]. right. destruct Hlast as [[-> ->]|(x & Hx & Hpos & ->)].
  - exists r. split_and!; [done|lia|done].
  - exists x. split_and!; [|lia|done]. destruct k as [|k]; [lia|]. 
    replace (S (S k) - 1)%nat with (S k) by lia. by replace (S k - 1)%nat with k in Hx by lia.
Qed.

Lemma greatest_sequence_spec (records : list AuditRecord) :
  greatest_sequence records = 0 \/
  exists j r, records !! j = Some r /\ greatest_sequence records = ar_sequence r.
Proof.
  unfold greatest_sequence. induction records as [|r records IH] using rev_ind; [by left|].
  rewrite fold_left_app. cbn [fold_left].
  destruct (Z.max_spec (fold_left (fun last record => Z.max last (ar_sequence record)) records 0) (ar_sequence r))
    as [[_ ->]|[_ ->]].
  - right. exists (length records), r. split; [|done]. by rewrite list_lookup_middle.
  - destruct IH as [IH|(j & x & Hj & IH)]; [by left|]. right. exists j, x. split; [|done].
    by apply lookup_app_l_Some.
Qed.

(** ** Accounting *)

(** A record is settled when it was dropped, or taken as the server read it. *)
Definition settled (dropped accepted : list AuditRecord) (r : AuditRecord) : Prop :=
  r ∈ dropped \/ received r ∈ accepted.

Definition numbered (emitted : list AuditRecord) : Prop :=
  map ar_sequence emitted = seqZ 1 (len emitted).

(** A chunk was cut from the spool, before which everything was settled. *)
Definition upload_ok (emitted dropped accepted : list AuditRecord) (payload : bytes) : Prop :=
  exists pre chunk post, emitted = pre ++ chunk ++ post /\ payload = encode_audit_chunk chunk /\
    Forall (settled dropped accepted) pre.

Definition ack_ok (emitted dropped accepted : list AuditRecord) (payload : bytes) : Prop :=
  forall n, decode_audit_ack payload = Some n ->
  n <= len emitted /\ forall r, r ∈ emitted -> ar_sequence r <= n -> settled dropped accepted r.

Record audit_inv (capacity : Z) (s : AuditSystem) : Prop := {
  ai_numbered : numbered (as_emitted s);
  ai_typed : Forall typed_record (as_emitted s);
  ai_next : sp_next_sequence (as_spool s) = len (as_emitted s) + 1;
  ai_capacity : sp_capacity (as_spool s) = capacity /\ len (sp_records (as_spool s)) <= capacity;
  ai_dropped : sp_dropped (as_spool s) = len (as_dropped s) mod 2 ^ 64 /\
    len (as_dropped s) <= len (as_emitted s) - len (sp_records (as_spool s));
  ai_spool : exists gone, as_emitted s = gone ++ sp_records (as_spool s) /\
    Forall (settled (as_dropped s) (as_written s ++ as_waived s)) gone;
  ai_uploads : Forall (upload_ok (as_emitted s) (as_dropped s) (as_written s ++ as_waived s)) (as_uploads s);
  ai_acks : Forall (ack_ok (as_emitted s) (as_dropped s) (as_written s ++ as_waived s)) (as_acks s)
}.

Lemma settled_mono dropped dropped' accepted accepted' r :
  (forall x, x ∈ dropped -> x ∈ dropped') -> (forall x, x ∈ accepted -> x ∈ accepted') ->
  settled dropped accepted r -> settled dropped' accepted' r.
Proof. intros H1 H2 [H|H]; [left; by apply H1|right; by apply H2]. Qed.

Lemma upload_ok_mono emitted more dropped dropped' accepted accepted' payload :
  (forall x, x ∈ dropped -> x ∈ dropped') -> (forall x, x ∈ accepted -> x ∈ accepted') ->
  upload_ok emitted dropped accepted payload -> upload_ok (emitted ++ more) dropped' accepted' payload.
Proof.
  intros H1 H2 (pre & chunk & post & -> & Hp & Hs). exists pre, chunk, (post ++ more).
  rewrite <- !app_assoc. split; [done|]. split; [done|]. eapply Forall_impl; [exact Hs|].
  intros r. by apply settled_mono.
Qed.

(** Later records have greater sequences. *)
Lemma numbered_split emitted pre r post r' :
  numbered emitted -> emitted = pre ++ r :: post -> r' ∈ emitted -> ar_sequence r' <= ar_sequence r ->
  r' ∈ pre ++ [r].
Proof.
  intros Hn -> Hr' Hle. rewrite (app_assoc pre [r] post : pre ++ r :: post = _) in Hn, Hr'.
  apply elem_of_app in Hr' as [Hr'|Hr']; [done|]. exfalso. unfold numbered in Hn.
  apply list_elem_of_lookup in Hr' as [i Hi].
  assert (H1 : map ar_sequence ((pre ++ [r]) ++ post) !! (length pre + 1 + i)%nat = Some (ar_sequence r')).
  { rewrite list_lookup_fmap, lookup_app_r by (rewrite length_app; cbn; lia). rewrite length_app. cbn.
    replace (length pre + 1 + i - (length pre + 1))%nat with i by lia. by rewrite Hi. }
  assert (H2 : map ar_sequence ((pre ++ [r]) ++ post) !! length pre = Some (ar_sequence r)).
  { rewrite list_lookup_fmap, lookup_app_l by (rewrite length_app; cbn; lia).
    by rewrite list_lookup_middle. }
  rewrite Hn in H1, H2. apply lookup_seqZ in H1, H2. lia.
Qed.

Lemma numbered_bounds emitted r : numbered emitted -> r ∈ emitted -> 1 <= ar_sequence r <= len emitted.
Proof.
  intros Hn Hr. assert (H : ar_sequence r ∈ map ar_sequence emitted) by (by apply list_elem_of_fmap_2).
  rewrite Hn in H. apply elem_of_seqZ in H. lia.
Qed.

(** Taking the first records of a chunk settles everything up to them. *)
Lemma ack_of_taken emitted dropped accepted pre chunk post k n :
  numbered emitted -> emitted = pre ++ chunk ++ post -> Forall (settled dropped accepted) pre ->
  (forall r, r ∈ take k chunk -> received r ∈ accepted) ->
  n = 0 \/ (exists j r, (j < k)%nat /\ chunk !! j = Some r /\ n = ar_sequence r) ->
  u64 n -> ack_ok emitted dropped accepted (encode_audit_ack n).
Proof.
  intros Hn He Hpre Htaken Hcase Hu m Hm. rewrite decode_encoded_ack in Hm by done. injection Hm as <-.
  destruct Hcase as [->|(j & x & Hj & Hx & ->)].
  { split; [apply len_nonneg|]. intros r Hr Hle. pose proof (numbered_bounds _ _ Hn Hr). lia. }
  apply list_elem_of_split_length in Hx as (before & after & Ec & Hlen).
  assert (Hsplit : emitted = (pre ++ before) ++ x :: (after ++ post)) by (rewrite He, Ec, <- !app_assoc; done).
  split.
  { apply numbered_bounds; [done|]. rewrite Hsplit. apply elem_of_app. right. by left. }
  intros r Hr Hle.
  pose proof (numbered_split _ _ _ _ _ Hn Hsplit Hr Hle) as Hin.
  rewrite <- app_assoc in Hin. apply elem_of_app in Hin as [Hin|Hin].
  - rewrite Forall_forall in Hpre. by apply Hpre.
  - right. apply Htaken. rewrite Ec. apply list_elem_of_lookup in Hin as [i Hi].
    apply list_elem_of_lookup. exists i. pose proof (lookup_lt_Some _ _ _ Hi) as Hlt.
    rewrite length_app in Hlt. cbn in Hlt. rewrite lookup_take_lt by lia.
    rewrite (app_assoc before [x] after : before ++ x :: after = _). by apply lookup_app_l_Some.
Qed.

Lemma ack_ok_mono emitted dropped dropped' accepted accepted' payload :
  (forall x, x ∈ dropped -> x ∈ dropped') -> (forall x, x ∈ accepted -> x ∈ accepted') ->
  ack_ok emitted dropped accepted payload -> ack_ok emitted dropped' accepted' payload.
Proof.
  intros H1 H2 Ha n Hn. destruct (Ha n Hn) as [Hle Hr]. split; [done|]. intros r Hin Hs.
  eapply settled_mono; [done..|]. by apply Hr.
Qed.

Lemma ack_ok_snoc emitted dropped accepted payload r :
  ar_sequence r = len emitted + 1 -> ack_ok emitted dropped accepted payload ->
  ack_ok (emitted ++ [r]) dropped accepted payload.
Proof.
  intros Hr Ha n Hn. destruct (Ha n Hn) as [Hle Hall]. rewrite len_app, len_cons, len_nil. split; [lia|].
  intros x [Hx|Hx%list_elem_of_singleton]%elem_of_app Hs; [by apply Hall|subst x; lia].
Qed.

(** *** Emitting *)

Lemma emit_step capacity s event now :
  1 <= capacity -> audit_inv capacity s -> audit_op_ok (client_emits event now) ->
  len (as_emitted s) + 1 < u64_max ->
  audit_inv capacity (audit_step s (client_emits event now)).
Proof.
  intros Hcap [Hn Ht Hnext [Hc Hlen] [Hd Hdlen] (gone & Hsp & Hg) Hu Ha] [He Hnow] Hmax.
  pose proof (len_nonneg (as_emitted s)). pose proof (len_nonneg (as_dropped s)).
  assert (Hdu : u64 (sp_dropped (as_spool s))) by (rewrite Hd; apply Z.mod_pos_bound; lia).
  cbn [audit_step]. unfold emit. rewrite Hc.
  destruct (make_room_spec (sp_records (as_spool s)) capacity (sp_dropped (as_spool s)) Hcap Hdu)
    as (k & Hk & -> & Hroom & Hfit).
  set (r := mkAuditRecord (sp_next_sequence (as_spool s)) now (sanitize_event event)).
  cbn [sp_records sp_next_sequence sp_capacity sp_dropped].
  replace (Z.to_nat (len (sp_records (as_spool s)) + 1 -
    len (drop k (sp_records (as_spool s)) ++ [r]))) with k
    by (rewrite len_app, len_cons, len_nil; unfold len; rewrite length_drop; lia).
  set (old := sp_records (as_spool s)) in *. set (accepted := as_written s ++ as_waived s) in *.
  assert (Hdropped : forall x, x ∈ as_dropped s -> x ∈ as_dropped s ++ take k old)
    by (intros x Hx; apply elem_of_app; by left).
  assert (Hseq : ar_sequence r = len (as_emitted s) + 1) by done.
  constructor; cbn [as_emitted as_spool as_dropped as_written as_waived as_uploads as_acks
    sp_next_sequence sp_capacity sp_records sp_dropped].
  - unfold numbered. rewrite map_app, Hn, len_app, len_cons, len_nil, Z.add_0_l, seqZ_app by lia.
    cbn [map]. rewrite Hseq, (seqZ_cons (1 + len (as_emitted s)) 1) by lia. cbn. do 2 f_equal. lia.
  - apply Forall_app. split; [done|]. constructor; [|constructor].
    split; [rewrite Hseq; ulia|]. split; [done|]. destruct He as (? & ? & ? & ?). by split_and!.
  - rewrite Hnext, len_app, len_cons, len_nil. unfold wrap64. rewrite Z.mod_small by (unfold u64_max in *; lia). lia.
  - split; [done|]. rewrite len_app, len_cons, len_nil. lia.
  - rewrite Hd, Zplus_mod_idemp_l, !len_app, !len_cons, !len_nil.
    assert (Z.of_nat k = len (take k old)) by (unfold len; rewrite length_take; lia).
    assert (len (drop k old) = len old - Z.of_nat k) by (unfold len; rewrite length_drop; lia).
    split; [f_equal; lia|lia].
  - exists (gone ++ take k old). split.
    + rewrite Hsp. rewrite <- (take_drop k old) at 1. by rewrite <- !app_assoc.
    + apply Forall_app. split.
      * eapply Forall_impl; [exact Hg|]. intros x. by apply settled_mono.
      * apply Forall_forall. intros x Hx. left. apply elem_of_app. by right.
  - eapply Forall_impl; [exact Hu|]. intros p. by apply upload_ok_mono.
  - eapply Forall_impl; [exact Ha|]. intros p Hp. apply ack_ok_snoc; [done|]. by eapply ack_ok_mono.
Qed.

(** *** Uploading and acknowledging *)

Lemma upload_step capacity s now :
  audit_inv capacity s -> audit_inv capacity (audit_step s (client_uploads now)).
Proof.
  intros [Hn Ht Hnext Hc Hd Hsp Hu Ha]. cbn [audit_step].
  destruct (pop_audit_upload _ _ _) as [payload next] eqn:E.
  constructor; try done. cbn. apply Forall_app. split; [done|].
  destruct payload as [p|]; [|constructor]. constructor; [|constructor].
  unfold pop_audit_upload in E. destruct (_ && _) in E; [|done]. case_bool_decide; [done|].
  case_bool_decide; [done|]. injection E as <- _. destruct Hsp as (gone & He & Hg).
  exists gone, (peek_chunk (as_spool s) kMaximumEventsPerChunk),
    (drop (Z.to_nat (Z.min kMaximumEventsPerChunk (len (sp_records (as_spool s))))) (sp_records (as_spool s))).
  split; [|done]. rewrite He at 1. unfold peek_chunk. by rewrite take_drop.
Qed.

Lemma ack_step capacity s index :
  audit_inv capacity s -> audit_inv capacity (audit_step s (client_receives index)).
Proof.
  intros Hinv. cbn [audit_step]. destruct (as_acks s !! index) as [payload|] eqn:E; [|done].
  destruct Hinv as [Hn Ht Hnext [Hc Hlen] [Hd Hdl] Hsp Hu Ha]. unfold process_audit_ack.
  destruct (decode_audit_ack payload) as [n|] eqn:En; [|by constructor].
  rewrite Forall_lookup in Ha. destruct (Ha _ _ E n En) as [_ Hall].
  destruct (drop_acknowledged_spec (sp_records (as_spool s)) n) as (k & Ek & Hk).
  destruct Hsp as (gone & He & Hg).
  assert (Hshort : len (drop k (sp_records (as_spool s))) <= len (sp_records (as_spool s)))
    by (unfold len; rewrite length_drop; lia).
  constructor; cbn; rewrite ?Ek; try done.
  - split; [done|lia].
  - split; [done|lia].
  - exists (gone ++ take k (sp_records (as_spool s))). rewrite <- app_assoc, take_drop. split; [done|].
    apply Forall_app. split; [done|]. apply Forall_forall. intros r Hr. rewrite Forall_forall in Hk.
    apply Hall; [|by apply Hk]. rewrite He. apply elem_of_app. right. by eapply subseteq_take.
  - by apply Forall_lookup.
Qed.

(** *** The server *)

Lemma taken_spec emitted dropped accepted s payload registry_id now calls :
  numbered emitted -> Forall typed_record emitted -> len emitted <= u64_max ->
  upload_ok emitted dropped accepted payload ->
  let '(written, waived) := taken (as_sink s) (as_limiter s) registry_id payload now calls in
  forall ack, (process_audit_upload (as_sink s) (as_limiter s) registry_id payload now calls).2 = Some ack ->
    ack_ok emitted dropped (accepted ++ written ++ waived) ack.
Proof.
  intros Hn Ht Hmax (pre & chunk & post & He & -> & Hs). unfold taken, process_audit_upload.
  assert (Hchunk : Forall typed_record chunk) by (rewrite He in Ht; by apply Forall_app in Ht as [_ [Ht _]%Forall_app]).
  rewrite decode_encoded_chunk by done. set (c := chunk_count chunk).
  assert (Hpre : forall more, Forall (settled dropped (accepted ++ more)) pre).
  { intros more. eapply Forall_impl; [exact Hs|]. intros x. apply settled_mono; [done|].
    intros y Hy. apply elem_of_app. by left. }
  assert (Hu : forall r, r ∈ emitted -> u64 (ar_sequence r)).
  { intros r Hr. pose proof (numbered_bounds _ _ Hn Hr). ulia. }
  assert (Hin : forall r j, chunk !! j = Some r -> r ∈ emitted).
  { intros r j Hj. rewrite He. apply elem_of_app. right. apply elem_of_app. left. by eapply list_elem_of_lookup_2. }
  destruct (allow (as_limiter s) registry_id now) as [allowed limiter]. cbn [fst].
  destruct allowed; cbn [negb].
  2:{ intros ack [= <-]. refine (ack_of_taken _ _ _ pre chunk post 0 0 Hn He (Hpre _) _ (or_introl eq_refl) _);
      [|ulia]. intros r Hr. by apply not_elem_of_nil in Hr. }
  assert (Hlook : forall j x, map received (take c chunk) !! j = Some x ->
    exists r, chunk !! j = Some r /\ x = received r).
  { intros j x Hj. rewrite list_lookup_fmap in Hj.
    destruct (take c chunk !! j) as [r|] eqn:Er; [|done]. injection Hj as <-.
    exists r. split; [|done]. by apply lookup_take_Some in Er as [? _]. }
  destruct (sk_open (as_sink s)) eqn:Eopen; cbn [negb].
  - destruct (write_records (as_sink s) (map received (take c chunk)) calls 0) as [sink last] eqn:Ew.
    destruct (write_records_spec _ _ _ _ _ _ Ew) as (k & -> & Hk & Hlast). intros ack [= <-].
    rewrite length_map, length_take in Hk. rewrite app_nil_r.
    assert (Hcase : last = 0 \/ exists j r, (j < k)%nat /\ chunk !! j = Some r /\ last = ar_sequence r).
    { destruct Hlast as [[_ ->]|(x & Hx & Hpos & ->)]; [by left|right].
      destruct (Hlook _ _ Hx) as (r & Hr & ->). exists (k - 1)%nat, r. split_and!; [lia|done|done]. }
    refine (ack_of_taken _ _ _ pre chunk post k last Hn He (Hpre _) _ Hcase _).
    + intros r Hr. apply elem_of_app. right. rewrite firstn_map, take_take.
      replace (k `min` c)%nat with k by lia. by apply list_elem_of_fmap_2.
    + destruct Hcase as [->|(j & r & _ & Hr & ->)]; [ulia|]. by eapply Hu, Hin.
  - intros ack [= <-].
    assert (Hcase : greatest_sequence (map received (take c chunk)) = 0 \/
      exists j r, (j < c)%nat /\ chunk !! j = Some r /\
        greatest_sequence (map received (take c chunk)) = ar_sequence r).
    { destruct (greatest_sequence_spec (map received (take c chunk))) as [H|(j & x & Hj & H)]; [by left|right].
      destruct (Hlook _ _ Hj) as (r & Hr & ->). exists j, r. split_and!; [|done|done].
      apply lookup_lt_Some in Hj. rewrite length_map, length_take in Hj. lia. }
    refine (ack_of_taken _ _ _ pre chunk post c _ Hn He (Hpre _) _ Hcase _).
    + intros r Hr. apply elem_of_app. right. by apply list_elem_of_fmap_2.
    + destruct Hcase as [->|(j & r & _ & Hr & ->)]; [ulia|]. by eapply Hu, Hin.
Qed.

Lemma receive_step capacity s index registry_id now calls :
  audit_inv capacity s -> len (as_emitted s) <= u64_max ->
  audit_inv capacity (audit_step s (server_receives index registry_id now calls)).
Proof.
  intros Hinv Hmax. cbn [audit_step]. destruct (as_uploads s !! index) as [payload|] eqn:E; [|done].
  destruct Hinv as [Hn Ht Hnext Hc Hd (gone & He & Hg) Hu Ha].
  pose proof (taken_spec (as_emitted s) (as_dropped s) (as_written s ++ as_waived s) s payload registry_id now
    calls Hn Ht Hmax ltac:(rewrite Forall_lookup in Hu; by eapply Hu)) as Hspec.
  destruct (process_audit_upload _ _ _ _ _ _) as [[sink limiter] ack].
  destruct (taken _ _ _ _ _ _) as [written waived].
  assert (Hmore : forall x, x ∈ as_written s ++ as_waived s ->
    x ∈ (as_written s ++ written) ++ as_waived s ++ waived).
  { intros x. rewrite !elem_of_app. tauto. }
  constructor; try done; cbn [as_emitted as_dropped as_written as_waived as_spool as_uploads as_acks].
  - exists gone. split; [done|]. eapply Forall_impl; [exact Hg|]. intros x. by apply settled_mono.
  - eapply Forall_impl; [exact Hu|]. intros p Hp. rewrite <- (app_nil_r (as_emitted s)). by eapply upload_ok_mono.
  - apply Forall_app. split.
    + eapply Forall_impl; [exact Ha|]. intros p. by apply ack_ok_mono.
    + destruct ack as [a|]; constructor; [|constructor]. eapply ack_ok_mono; [done| |by apply Hspec].
      intros x. rewrite !elem_of_app. tauto.
Qed.

(** ** Every record is accounted for *)

Lemma audit_run_inv capacity ops :
  0 <= capacity -> Forall audit_op_ok ops -> Z.of_nat (length ops) < u64_max ->
  let s := audit_run capacity ops in
  audit_inv (if capacity =? 0 then 1 else capacity) s /\ len (as_emitted s) <= Z.of_nat (length ops).
Proof.
  intros Hcap. set (room := if capacity =? 0 then 1 else capacity).
  assert (Hroom : 1 <= room) by (unfold room; destruct (Z.eqb_spec capacity 0); lia).
  unfold audit_run. induction ops as [|op ops IH] using rev_ind; intros Hops Hlen.
  { split; [|done]. constructor; cbn; try done; [split; [done|change (0 <= room); lia]|by exists []]. }
  rewrite fold_left_app. cbn [fold_left]. rewrite length_app in *. cbn [length] in *.
  apply Forall_app in Hops as [Hops [Hop _]%Forall_cons]. destruct (IH Hops ltac:(lia)) as [Hinv Hn].
  set (s := fold_left audit_step ops (initial_audit capacity)) in *. cbn [length].
  destruct op as [event now|now|index|index id now calls|directories| |record calls].
  - split; [apply emit_step; try done; lia|]. cbn [audit_step]. destruct (emit _ _ _). cbn.
    rewrite len_app, len_cons, len_nil. lia.
  - split; [by apply upload_step|]. cbn [audit_step]. destruct (pop_audit_upload _ _ _). cbn. lia.
  - split; [by apply ack_step|]. cbn [audit_step]. destruct (as_acks s !! index); cbn; lia.
  - split; [apply receive_step; [done|lia]|]. cbn [audit_step]. destruct (as_uploads s !! index); [|lia].
    destruct (process_audit_upload _ _ _ _ _ _) as [[sink limiter] ack]. destruct (taken _ _ _ _ _ _). cbn. lia.
  - split; [destruct Hinv; by constructor|cbn; lia].
  - split; [destruct Hinv; by constructor|cbn; lia].
  - split; [destruct Hinv; by constructor|cbn; lia].
Qed.

(** C21. Every audit record is accounted for.  In any run of emitting, uploading,
    acknowledging, of chunks and acknowledgements that arrive late, repeatedly or
    never, of throttling and of a sink that is closed, reopened, written by others
    and fails at will: the records of a client process are numbered 1, 2, ...; the
    spool holds the latest of them, never more than its capacity; and each earlier
    one either was dropped because the spool was full, which the counter counts,
    or was written by the sink's [write] as the server received it, or was
    acknowledged by a server that has no sink open. *)
Theorem audit_records_accounted (capacity : Z) (ops : list AuditOp) :
  0 <= capacity -> Forall audit_op_ok ops -> Z.of_nat (length ops) < u64_max ->
  let s := audit_run capacity ops in
  map ar_sequence (as_emitted s) = seqZ 1 (len (as_emitted s)) /\
  len (sp_records (as_spool s)) <= Z.max 1 capacity /\
  dropped_count (as_spool s) = len (as_dropped s) /\
  exists gone, as_emitted s = gone ++ sp_records (as_spool s) /\
    forall r, r ∈ gone ->
      r ∈ as_dropped s \/ received r ∈ as_written s \/ received r ∈ as_waived s.
Proof.
  intros Hcap Hops Hlen s. destruct (audit_run_inv capacity ops Hcap Hops Hlen) as [Hinv Hn].
  fold s in Hinv, Hn. destruct Hinv as [Hnum _ _ [_ Hroom] [Hd Hdl] (gone & He & Hg) _ _].
  split; [exact Hnum|]. split; [destruct (Z.eqb_spec capacity 0); lia|]. split.
  - unfold dropped_count. rewrite Hd. apply Z.mod_small. pose proof (len_nonneg (as_dropped s)).
    pose proof (len_nonneg (sp_records (as_spool s))). unfold u64_max in *. lia.
  - exists gone. split; [exact He|]. intros r Hr. rewrite Forall_forall in Hg.
    destruct (Hg r Hr) as [H|H]; [by left|right]. by apply elem_of_app in H.
Qed.

(** ** A concrete run

    Two events are emitted, uploaded in one chunk, written and acknowledged. *)

Definition sample_event : Event := mkEvent 6 2 (text "svc") (text "tick") (text "ok") 7 3 (text "detail").

Definition sample_audit_ops : list AuditOp :=
  [client_emits sample_event 1000; client_emits sample_event 2000; server_opens_sink true;
   client_uploads 10; server_receives 0 3 5000 (fun _ => good_sink); client_receives 0;
   client_emits sample_event 3000].

Lemma sample_audit_ops_ok : Forall audit_op_ok sample_audit_ops.
Proof.
  assert (typed_event sample_event) by (split_and!; (done || ulia)).
  repeat (apply Forall_cons; split); try apply Forall_nil_2; cbn; try done; split; (done || ulia).
Qed.

Lemma audit_records_accounted_witness :
  let s := audit_run 4096 sample_audit_ops in
  map ar_sequence (sp_records (as_spool s)) = [3] /\ map ar_sequence (as_written s) = [1; 2] /\
  exists gone, as_emitted s = gone ++ sp_records (as_spool s) /\
    forall r, r ∈ gone -> r ∈ as_dropped s \/ received r ∈ as_written s \/ received r ∈ as_waived s.
Proof.
  split; [vm_compute; reflexivity|]. split; [vm_compute; reflexivity|].
  destruct (audit_records_accounted 4096 sample_audit_ops) as (_ & _ & _ & H);
    [lia|apply sample_audit_ops_ok|reflexivity|exact H].
Defined.

End AuditUpload.
