(* ===== verification/Pairing.v ===== *)
(** Verified pairing (common/include/nstu/pairing.hpp and
    common/src/pairing.cpp): the ephemeral key agreement, the transcript both
    sides must agree on, the secrets derived from it with the six-digit code the
    operator compares, the confirmation tags and the five pairing messages.

    HMAC-SHA-256, SHA-256 and the elliptic-curve provider are Windows CNG calls
    and are parameters.  Wiping of local key material is not modelled; wiping of
    a [PairingSecrets] object is. *)

From S2P Require Import Prelude Wire Codec Protocol Auth.
Import ReaderNotations Protocol.
#[local] Open Scope nstu_scope.

Module Pairing.

(** ** Constants and messages *)

Definition kPairingVersion : Z := 1.
Definition kSasDigits : nat := 6.
Definition kMaximumIdentityBytes : Z := 128.
Definition kMaximumPublicKeyBytes : Z := 256.
Definition kMaximumPairingMessageBytes : Z := 1024.
Definition kEccBlobHeaderBytes : Z := 8.
Definition kSha256Bytes : Z := 32.

(** [kTranscriptMagic] and the labels. *)
Definition kTranscriptMagic : bytes := text "NSTP".
Definition kConfirmLabel : bytes := text "nstu-pair-confirm-v1".
Definition kSasLabel : bytes := text "nstu-pair-sas-v1".
Definition kEnrolledKeyLabel : bytes := text "nstu-pair-key-v1".
Definition kClientTagLabel : bytes := text "nstu-pair-tag-client-v1".
Definition kServerTagLabel : bytes := text "nstu-pair-tag-server-v1".
Definition kClientIdLabel : bytes := text "NSTU-CLIENT-ID-V1".

(** [KeyAgreement], cast from the wire before it is checked. *)
Definition x25519 : Z := 1.
Definition nist_p256 : Z := 2.

(** [ConfirmationRole]. *)
Definition role_client : Z := 1.
Definition role_server : Z := 2.

Record PairingTranscript := mkPairingTranscript {
  pt_version : Z;
  pt_agreement : Z;
  pt_client_uuid : bytes;
  pt_client_hostname : bytes;
  pt_client_public_key : bytes;
  pt_server_public_key : bytes;
  pt_client_nonce : bytes;
  pt_server_nonce : bytes
}.

Record PairingSecrets := mkPairingSecrets {
  ps_confirm_key : bytes;
  ps_enrolled_key : bytes;
  ps_short_authentication_string : bytes
}.

Record PairingHello := mkPairingHello {
  ph_version : Z;
  ph_agreement : Z;
  ph_client_uuid : bytes;
  ph_client_hostname : bytes;
  ph_client_public_key : bytes;
  ph_client_nonce : bytes
}.

Record PairingOffer := mkPairingOffer {
  po_version : Z;
  po_agreement : Z;
  po_server_public_key : bytes;
  po_server_nonce : bytes
}.

(** [PairingConfirm] has one field, the client's tag. *)
Record PairingConfirm := mkPairingConfirm { pc_client_tag : bytes }.

Record PairingAccept := mkPairingAccept {
  pa_key_id : Z;
  pa_server_tag : bytes
}.

Inductive PairingRejectReason : Set :=
| unspecified | operator_declined | timed_out | unavailable | protocol_error | confirmation_failed.

#[export] Instance reject_reason_eq_dec : EqDecision PairingRejectReason.
Proof. solve_decision. Defined.

Definition reject_reason_value (reason : PairingRejectReason) : Z :=
  match reason with
  | unspecified => 0 | operator_declined => 1 | timed_out => 2
  | unavailable => 3 | protocol_error => 4 | confirmation_failed => 5
  end.

(** The cast of a value that was checked against the last reason. *)
Definition reject_reason_of (v : Z) : PairingRejectReason :=
  if v =? 1 then operator_declined else if v =? 2 then timed_out
  else if v =? 3 then unavailable else if v =? 4 then protocol_error
  else if v =? 5 then confirmation_failed else unspecified.

(** ** Readers and tests *)

(** [read_blob] and [read_text]: a 16-bit length and that many bytes. *)
Definition read_blob : reader bytes :=
  length <- read_le 2 ;;
  read_bytes (Z.to_nat length).

(** The append of a 16-bit length and the bytes. *)
Definition append_blob (value : bytes) : bytes := write_le 2 (len value) ++ value.

Definition identity_character (character : byte) : bool :=
  let code := byte_val character in (0x20 <=? code) && (code <? 0x7f).

Definition valid_identity (value : bytes) : bool :=
  if (len value =? 0) || (len value >? kMaximumIdentityBytes) then false
  else forallb identity_character value.

Definition valid_public_key (key : bytes) : bool :=
  negb (len key =? 0) && (len key <=? kMaximumPublicKeyBytes).

Definition known_agreement (agreement : Z) : bool :=
  (agreement =? x25519) || (agreement =? nist_p256).

Definition key_agreement_name (agreement : Z) : bytes :=
  if agreement =? x25519 then text "Curve25519"
  else if agreement =? nist_p256 then text "NIST P-256"
  else text "unknown".

(** ** The transcript *)

Definition valid_transcript (transcript : PairingTranscript) : bool :=
  negb (pt_version transcript =? 0) && known_agreement (pt_agreement transcript) &&
  valid_identity (pt_client_uuid transcript) && valid_identity (pt_client_hostname transcript) &&
  valid_public_key (pt_client_public_key transcript) &&
  valid_public_key (pt_server_public_key transcript) &&
  any_nonzero (pt_client_nonce transcript) && any_nonzero (pt_server_nonce transcript).

Definition encode_transcript (transcript : PairingTranscript) : option bytes :=
  if negb (valid_transcript transcript) then None
  else
    Some (kTranscriptMagic ++ write_le 2 (pt_version transcript) ++
          write_le 2 (pt_agreement transcript) ++
          append_blob (pt_client_uuid transcript) ++
          append_blob (pt_client_hostname transcript) ++
          append_blob (pt_client_public_key transcript) ++
          append_blob (pt_server_public_key transcript) ++
          pt_client_nonce transcript ++ pt_server_nonce transcript).

Definition make_transcript (hello : PairingHello) (offer : PairingOffer)
    : option PairingTranscript :=
  if negb (ph_version hello =? po_version offer) ||
     negb (ph_agreement hello =? po_agreement offer) then None
  else
    let transcript := mkPairingTranscript (ph_version hello) (ph_agreement hello)
      (ph_client_uuid hello) (ph_client_hostname hello) (ph_client_public_key hello)
      (po_server_public_key offer) (ph_client_nonce hello) (po_server_nonce offer) in
    if negb (valid_transcript transcript) then None else Some transcript.

(** ** The five messages *)

(** The test in front of [encode_pairing_hello] and behind its decoder. *)
Definition hello_admissible (hello : PairingHello) : bool :=
  valid_identity (ph_client_uuid hello) && valid_identity (ph_client_hostname hello) &&
  valid_public_key (ph_client_public_key hello) && known_agreement (ph_agreement hello) &&
  negb (ph_version hello =? 0) && any_nonzero (ph_client_nonce hello).

Definition encode_pairing_hello (hello : PairingHello) : bytes :=
  if negb (hello_admissible hello) then []
  else
    write_le 2 (ph_version hello) ++ write_le 2 (ph_agreement hello) ++
    append_blob (ph_client_uuid hello) ++ append_blob (ph_client_hostname hello) ++
    append_blob (ph_client_public_key hello) ++ ph_client_nonce hello.

Definition pairing_hello_reader : reader PairingHello :=
  version <- read_le 2 ;;
  agreement <- read_le 2 ;;
  client_uuid <- read_blob ;;
  client_hostname <- read_blob ;;
  client_public_key <- read_blob ;;
  client_nonce <- read_bytes 32 ;;
  left <- rremaining ;;
  guard (left =? 0) ;;
  rret (mkPairingHello version agreement client_uuid client_hostname client_public_key client_nonce).

Definition decode_pairing_hello (payload : bytes) : option PairingHello :=
  if len payload >? kMaximumPairingMessageBytes then None
  else
    match run_reader pairing_hello_reader payload with
    | None => None
    | Some hello => if negb (hello_admissible hello) then None else Some hello
    end.

Definition offer_admissible (offer : PairingOffer) : bool :=
  valid_public_key (po_server_public_key offer) && known_agreement (po_agreement offer) &&
  negb (po_version offer =? 0) && any_nonzero (po_server_nonce offer).

Definition encode_pairing_offer (offer : PairingOffer) : bytes :=
  if negb (offer_admissible offer) then []
  else
    write_le 2 (po_version offer) ++ write_le 2 (po_agreement offer) ++
    append_blob (po_server_public_key offer) ++ po_server_nonce offer.

Definition pairing_offer_reader : reader PairingOffer :=
  version <- read_le 2 ;;
  agreement <- read_le 2 ;;
  server_public_key <- read_blob ;;
  server_nonce <- read_bytes 32 ;;
  left <- rremaining ;;
  guard (left =? 0) ;;
  rret (mkPairingOffer version agreement server_public_key server_nonce).

Definition decode_pairing_offer (payload : bytes) : option PairingOffer :=
  if len payload >? kMaximumPairingMessageBytes then None
  else
    match run_reader pairing_offer_reader payload with
    | None => None
    | Some offer => if negb (offer_admissible offer) then None else Some offer
    end.

Definition encode_pairing_confirm (confirm : PairingConfirm) : bytes := pc_client_tag confirm.

Definition decode_pairing_confirm (payload : bytes) : option PairingConfirm :=
  if negb (len payload =? kSha256Bytes) then None else Some (mkPairingConfirm payload).

Definition encode_pairing_accept (accept : PairingAccept) : bytes :=
  if pa_key_id accept =? 0 then []
  else write_le 4 (pa_key_id accept) ++ pa_server_tag accept.

Definition pairing_accept_reader : reader PairingAccept :=
  key_id <- read_le 4 ;;
  server_tag <- read_bytes 32 ;;
  guard negb (key_id =? 0) ;;
  rret (mkPairingAccept key_id server_tag).

Definition decode_pairing_accept (payload : bytes) : option PairingAccept :=
  if negb (len payload =? 4 + kSha256Bytes) then None
  else run_reader pairing_accept_reader payload.

Definition encode_pairing_reject (reason : PairingRejectReason) : bytes :=
  write_le 2 (reject_reason_value reason).

Definition decode_pairing_reject (payload : bytes) : option PairingRejectReason :=
  if negb (len payload =? 2) then None
  else
    match run_reader (read_le 2) payload with
    | None => None
    | Some reason =>
        if reason >? reject_reason_value confirmation_failed then None
        else Some (reject_reason_of reason)
    end.

Definition pairing_reject_reason_text (reason : PairingRejectReason) : bytes :=
  match reason with
  | operator_declined => text "the teacher declined this machine"
  | timed_out => text "the pairing request expired before it was answered"
  | unavailable => text "the server is not accepting pairings right now"
  | protocol_error => text "the pairing exchange was malformed"
  | confirmation_failed => text "the pairing confirmation did not match"
  | unspecified => text "the pairing was refused"
  end.

(** ** The code both screens show *)

(** The first eight bytes of the digest, most significant first. *)
Definition sas_value (digest : bytes) : Z :=
  fold_left (fun value b => Z.lor (wrap64 (Z.shiftl value 8)) (byte_val b)) (take 8 digest) 0.

(** [for (index = 0; index < kSasDigits; ++index) modulus *= 10u]. *)
Definition sas_modulus : Z := Nat.iter kSasDigits (fun modulus => wrap64 (modulus * 10)) 1.

(** The loop from the last digit to the first. *)
Fixpoint sas_digits (index : nat) (value : Z) (digits : bytes) : bytes :=
  match index with
  | O => digits
  | S index => sas_digits index (value / 10) (byte_of (48 + value mod 10) :: digits)
  end.

Definition format_sas (digest : bytes) : bytes :=
  sas_digits kSasDigits (sas_value digest mod sas_modulus) [].

Definition format_short_authentication_string (sas : bytes) : bytes :=
  if len sas =? Z.of_nat kSasDigits then take 3 sas ++ text " " ++ drop 3 sas else sas.

(** [secure_zero(PairingSecrets&)]. *)
Definition secure_zero_secrets (secrets : PairingSecrets) : PairingSecrets :=
  let zero := map (fun _ => byte_of 0) in
  mkPairingSecrets (zero (ps_confirm_key secrets)) (zero (ps_enrolled_key secrets)) [].

(** ** Secrets and tags *)

Section Crypto.
Variable bcrypt_hmac : bytes -> bytes -> option bytes.
Variable bcrypt_sha256 : bytes -> option bytes.

(** [security::sha256]: the size guard around the CNG calls. *)
Definition sha256 (message : bytes) : option bytes :=
  if len message >? u32_max then None else bcrypt_sha256 message.

Definition hkdf_sha256 (input_key_material salt info : bytes) : option bytes :=
  if len input_key_material =? 0 then None
  else
    match Auth.hmac_sha256 bcrypt_hmac salt input_key_material with
    | None => None
    | Some pseudo_random_key =>
        Auth.hmac_sha256 bcrypt_hmac pseudo_random_key (info ++ [byte_of 1])
    end.

Definition derive_pairing_secrets (shared_secret : bytes) (transcript : PairingTranscript)
    : option PairingSecrets :=
  if len shared_secret <? Auth.kMinimumProtocolKeyBytes then None
  else
    match encode_transcript transcript with
    | None => None
    | Some encoded =>
        match sha256 encoded with
        | None => None
        | Some salt =>
            let confirm := hkdf_sha256 shared_secret salt kConfirmLabel in
            let sas_material := hkdf_sha256 shared_secret salt kSasLabel in
            let enrolled := hkdf_sha256 shared_secret salt kEnrolledKeyLabel in
            match confirm, sas_material, enrolled with
            | Some confirm, Some sas_material, Some enrolled =>
                Some (mkPairingSecrets confirm enrolled (format_sas sas_material))
            | _, _, _ => None
            end
        end
    end.

Definition tag_for_role (secrets : PairingSecrets) (transcript : PairingTranscript) (role : Z)
    : option bytes :=
  if negb (role =? role_client) && negb (role =? role_server) then None
  else
    match encode_transcript transcript with
    | None => None
    | Some encoded =>
        let label := if role =? role_client then kClientTagLabel else kServerTagLabel in
        Auth.hmac_sha256 bcrypt_hmac (ps_confirm_key secrets) (label ++ encoded)
    end.

Definition confirmation_tag (secrets : PairingSecrets) (transcript : PairingTranscript) (role : Z)
    : option bytes := tag_for_role secrets transcript role.

Definition verify_confirmation_tag (secrets : PairingSecrets) (transcript : PairingTranscript)
    (role : Z) (received : bytes) : bool :=
  match tag_for_role secrets transcript role with
  | Some expected => Auth.constant_time_equal expected received
  | None => false
  end.

Definition client_id_from_uuid (uuid : bytes) : option bytes :=
  if (len uuid =? 0) || (len uuid >? kMaximumIdentityBytes) then None
  else
    match sha256 (kClientIdLabel ++ uuid) with
    | None => None
    | Some digest => Some (take 16 digest)
    end.
End Crypto.

(** ** The ephemeral key pair *)

(** The outcomes of the provider's calls while one key pair is generated, over
    the provider's private keys [K]: opening the two providers and selecting the
    curve, generating for an agreement and a length, finalizing, the size that the
    first export call reports and the bytes the second one writes. *)
Record GenerateCalls (K : Type) := mkGenerateCalls {
  gc_open_p256 : bool;
  gc_open_ecdh : bool;
  gc_set_curve25519 : bool;
  gc_generate : Z -> Z -> option K;
  gc_finalize : K -> bool;
  gc_export_size : K -> option Z;
  gc_export : K -> option bytes
}.
Arguments mkGenerateCalls {K}.
Arguments gc_open_p256 {K}. Arguments gc_open_ecdh {K}. Arguments gc_set_curve25519 {K}.
Arguments gc_generate {K}. Arguments gc_finalize {K}.
Arguments gc_export_size {K}. Arguments gc_export {K}.

(** The calls of a key agreement: importing a peer's blob, the agreement, the
    size of the raw secret and the bytes that deriving it writes. *)
Class KeyProvider (K : Type) := {
  bcrypt_import : Z -> bytes -> bool;
  bcrypt_secret_agreement : K -> bytes -> bool;
  bcrypt_secret_size : K -> bytes -> option Z;
  bcrypt_secret : K -> bytes -> option bytes
}.

(** [EphemeralKeyPair::Impl]; a moved-from key pair has none. *)
Record KeyPairImpl (K : Type) := mkKeyPairImpl {
  im_key : K;
  im_agreement : Z;
  im_public_blob : bytes
}.
Arguments mkKeyPairImpl {K}.
Arguments im_key {K}. Arguments im_agreement {K}. Arguments im_public_blob {K}.

Definition EphemeralKeyPair (K : Type) : Type := option (KeyPairImpl K).

Section KeyPairs.
Context {K : Type}.

Definition open_agreement_provider (calls : GenerateCalls K) (agreement : Z) : bool :=
  if agreement =? nist_p256 then gc_open_p256 calls
  else if negb (gc_open_ecdh calls) then false
  else gc_set_curve25519 calls.

Definition candidate_lengths (agreement : Z) : list Z :=
  if agreement =? nist_p256 then [256; 0] else [0; 255].

(** The loop over the candidate lengths. *)
Fixpoint generate_finalized_pair (calls : GenerateCalls K) (agreement : Z) (lengths : list Z)
    : option K :=
  match lengths with
  | [] => None
  | length :: rest =>
      match gc_generate calls agreement length with
      | None => generate_finalized_pair calls agreement rest
      | Some key =>
          if gc_finalize calls key then Some key
          else generate_finalized_pair calls agreement rest
      end
  end.

Definition export_public_blob (calls : GenerateCalls K) (key : K) : option bytes :=
  match gc_export_size calls key with
  | None => None
  | Some required =>
      if (required <=? kEccBlobHeaderBytes) || (required >? kMaximumPublicKeyBytes) then None
      else
        match gc_export calls key with
        | None => None
        | Some blob => if negb (len blob =? required) then None else Some blob
        end
  end.

(** The body of the loop over the preferred agreements. *)
Definition generate_for (calls : GenerateCalls K) (agreement : Z) : option (KeyPairImpl K) :=
  if negb (open_agreement_provider calls agreement) then None
  else
    match generate_finalized_pair calls agreement (candidate_lengths agreement) with
    | None => None
    | Some key =>
        match export_public_blob calls key with
        | None => None
        | Some public_blob => Some (mkKeyPairImpl key agreement public_blob)
        end
    end.

Fixpoint generate_preferred (calls : GenerateCalls K) (preference : list Z)
    : result (EphemeralKeyPair K) :=
  match preference with
  | [] => Err "no usable elliptic-curve key agreement provider"
  | agreement :: rest =>
      match generate_for calls agreement with
      | Some impl => Ok (Some impl)
      | None => generate_preferred calls rest
      end
  end.

Definition generate (calls : GenerateCalls K) : result (EphemeralKeyPair K) :=
  generate_preferred calls [x25519; nist_p256].

Definition pair_agreement (pair : EphemeralKeyPair K) : Z :=
  match pair with None => x25519 | Some impl => im_agreement impl end.

Definition public_key (pair : EphemeralKeyPair K) : bytes :=
  match pair with None => [] | Some impl => im_public_blob impl end.

(** [read_u32_le] at an offset inside the input. *)
Definition read_u32_le (input : bytes) (offset : nat) : Z := le_value 0 (take 4 (drop offset input)).

(** Deriving the raw secret, with its bounds. *)
Definition derive_raw_secret `{KeyProvider K} (key : K) (peer_public_key : bytes) : option bytes :=
  match bcrypt_secret_size key peer_public_key with
  | None => None
  | Some required =>
      if (Auth.kMinimumProtocolKeyBytes <=? required) && (required <=? kMaximumPublicKeyBytes) then
        match bcrypt_secret key peer_public_key with
        | None => None
        | Some secret =>
            if (len secret =? required) && any_nonzero secret then Some secret else None
        end
      else None
  end.

Definition agree `{KeyProvider K} (pair : EphemeralKeyPair K) (peer_public_key : bytes)
    : result bytes :=
  match pair with
  | None => Err "pairing key pair is not initialised"
  | Some impl =>
      let own := im_public_blob impl in
      if len own <=? kEccBlobHeaderBytes then Err "pairing key pair is not initialised"
      else if negb (len peer_public_key =? len own) then
        Err "peer public key has an unexpected length"
      else if negb (read_u32_le peer_public_key 0 =? read_u32_le own 0) ||
              negb (read_u32_le peer_public_key 4 =? read_u32_le own 4) then
        Err "peer public key uses a different curve"
      else if bool_decide (peer_public_key = own) then Err "peer echoed our own public key"
      else if negb (bcrypt_import (im_agreement impl) peer_public_key) then
        Err "peer public key was rejected by the provider"
      else if negb (bcrypt_secret_agreement (im_key impl) peer_public_key) then
        Err "key agreement failed"
      else
        match derive_raw_secret (im_key impl) peer_public_key with
        | None => Err "shared secret derivation failed"
        | Some secret => Ok secret
        end
  end.
End KeyPairs.

(** ** Codecs *)

Definition wf_pairing_hello (h : PairingHello) : Prop :=
  hello_admissible h = true /\ u16 (ph_version h) /\ length (ph_client_nonce h) = 32%nat.

Definition wf_pairing_offer (o : PairingOffer) : Prop :=
  offer_admissible o = true /\ u16 (po_version o) /\ length (po_server_nonce o) = 32%nat.

Definition wf_pairing_confirm (c : PairingConfirm) : Prop := length (pc_client_tag c) = 32%nat.

Definition wf_pairing_accept (a : PairingAccept) : Prop :=
  pa_key_id a <> 0 /\ u32 (pa_key_id a) /\ length (pa_server_tag a) = 32%nat.

Lemma read_blob_run {B} (value rest : bytes) (k : bytes -> reader B) :
  u16 (len value) -> rbind read_blob k (append_blob value ++ rest) = k value rest.
Proof.
  intros Hv. unfold read_blob, append_blob. rewrite <- app_assoc. reader_run. done.
Qed.

Lemma read_blob_inv input value rest :
  read_blob input = Some (value, rest) -> input = append_blob value ++ rest /\ u16 (len value).
Proof.
  unfold read_blob. intros H. reader_inv.
  match goal with Hl : length value = Z.to_nat ?n, Hu : urange 2 ?n |- _ =>
    assert (n = len value) as -> by (unfold len; ulia) end.
  unfold append_blob. by rewrite <- app_assoc.
Qed.

Lemma valid_identity_len v : valid_identity v = true -> 1 <= len v <= 128.
Proof.
  unfold valid_identity, kMaximumIdentityBytes. pose proof (len_nonneg v).
  destruct ((len v =? 0) || (len v >? 128)) eqn:E; [done|]. bool_to_prop. lia.
Qed.

Lemma valid_public_key_len k : valid_public_key k = true -> 1 <= len k <= 256.
Proof.
  unfold valid_public_key, kMaximumPublicKeyBytes. pose proof (len_nonneg k) as Hl.
  intros H. bool_to_prop. lia.
Qed.

Lemma known_agreement_u16 a : known_agreement a = true -> u16 a.
Proof. unfold known_agreement, x25519, nist_p256. intros [?|?]%orb_true_iff; ulia. Qed.

Lemma hello_sizes h :
  hello_admissible h = true ->
  u16 (ph_agreement h) /\ 1 <= len (ph_client_uuid h) <= 128 /\
  1 <= len (ph_client_hostname h) <= 128 /\ 1 <= len (ph_client_public_key h) <= 256.
Proof.
  unfold hello_admissible. intros H. bool_to_prop.
  refine (conj _ (conj _ (conj _ _)));
    eauto using known_agreement_u16, valid_identity_len, valid_public_key_len.
Qed.

Lemma offer_sizes o :
  offer_admissible o = true -> u16 (po_agreement o) /\ 1 <= len (po_server_public_key o) <= 256.
Proof.
  unfold offer_admissible. intros H. bool_to_prop.
  refine (conj _ _); eauto using known_agreement_u16, valid_public_key_len.
Qed.

Lemma len_append_blob v : len (append_blob v) = 2 + len v.
Proof. unfold append_blob. autorewrite with wire. lia. Qed.
#[local] Hint Rewrite len_append_blob : wire.

(** Decoder steps over the pairing fields. *)
Ltac blob_run :=
  repeat first [rewrite read_blob_run by ulia | reader_step; cbv beta].

Ltac blob_inv :=
  repeat first [match goal with H : read_blob _ = Some _ |- _ => apply read_blob_inv in H as [-> ?] end
               | progress reader_inv].

#[export] Program Instance pairing_hello_codec : Codec PairingHello := {|
  encode := encode_pairing_hello; decode := decode_pairing_hello; valid := wf_pairing_hello |}.
Next Obligation.
  intros h (Ha & Hv & Hn). pose proof (hello_sizes h Ha) as (Hg & Hu & Hh & Hp).
  unfold decode_pairing_hello, encode_pairing_hello. rewrite Ha. cbn [negb].
  pose proof (len_length _ _ Hn).
  destruct (Z.gtb_spec (len (write_le 2 (ph_version h) ++ write_le 2 (ph_agreement h) ++
    append_blob (ph_client_uuid h) ++ append_blob (ph_client_hostname h) ++
    append_blob (ph_client_public_key h) ++ ph_client_nonce h)) kMaximumPairingMessageBytes) as [Hl|_].
  { autorewrite with wire in Hl. unfold kMaximumPairingMessageBytes in Hl. lia. }
  unfold run_reader, pairing_hello_reader. blob_run.
  cbn. destruct h; cbn in *. by rewrite Ha.
Qed.
Next Obligation.
  intros w h. unfold decode_pairing_hello. destruct (len w >? _); [done|].
  destruct (run_reader pairing_hello_reader w) as [h'|] eqn:E; [|done].
  destruct (hello_admissible h') eqn:Ha; [|done]. cbn [negb]. intros [= ->].
  unfold pairing_hello_reader in E. blob_inv. bool_to_prop. no_rest.
  split; [by split_and!|]. unfold encode_pairing_hello. rewrite Ha. cbn. by rewrite ?app_nil_r.
Qed.

#[export] Program Instance pairing_offer_codec : Codec PairingOffer := {|
  encode := encode_pairing_offer; decode := decode_pairing_offer; valid := wf_pairing_offer |}.
Next Obligation.
  intros o (Ha & Hv & Hn). pose proof (offer_sizes o Ha) as (Hg & Hp).
  unfold decode_pairing_offer, encode_pairing_offer. rewrite Ha. cbn [negb].
  pose proof (len_length _ _ Hn).
  destruct (Z.gtb_spec (len (write_le 2 (po_version o) ++ write_le 2 (po_agreement o) ++
    append_blob (po_server_public_key o) ++ po_server_nonce o)) kMaximumPairingMessageBytes) as [Hl|_].
  { autorewrite with wire in Hl. unfold kMaximumPairingMessageBytes in Hl. lia. }
  unfold run_reader, pairing_offer_reader. blob_run.
  cbn. destruct o; cbn in *. by rewrite Ha.
Qed.
Next Obligation.
  intros w o. unfold decode_pairing_offer. destruct (len w >? _); [done|].
  destruct (run_reader pairing_offer_reader w) as [o'|] eqn:E; [|done].
  destruct (offer_admissible o') eqn:Ha; [|done]. cbn [negb]. intros [= ->].
  unfold pairing_offer_reader in E. blob_inv. bool_to_prop. no_rest.
  split; [by split_and!|]. unfold encode_pairing_offer. rewrite Ha. cbn. by rewrite ?app_nil_r.
Qed.

#[export] Program Instance pairing_confirm_codec : Codec PairingConfirm := {|
  encode := encode_pairing_confirm; decode := decode_pairing_confirm; valid := wf_pairing_confirm |}.
Next Obligation.
  intros c Hc. unfold decode_pairing_confirm, encode_pairing_confirm, kSha256Bytes.
  rewrite (len_length _ _ Hc). by destruct c.
Qed.
Next Obligation.
  intros w c. unfold decode_pairing_confirm, kSha256Bytes.
  destruct (Z.eqb_spec (len w) 32) as [E|]; [|done]. intros [= <-].
  split; [|done]. unfold wf_pairing_confirm; cbn. unfold len in E. lia.
Qed.

#[export] Program Instance pairing_accept_codec : Codec PairingAccept := {|
  encode := encode_pairing_accept; decode := decode_pairing_accept; valid := wf_pairing_accept |}.
Next Obligation.
  intros a (H0 & Hk & Ht). unfold decode_pairing_accept, encode_pairing_accept, kSha256Bytes.
  destruct (Z.eqb_spec (pa_key_id a) 0); [done|]. autorewrite with wire.
  rewrite (len_length _ _ Ht). change (Z.of_nat 4 + Z.of_nat 32 =? 4 + 32) with true. cbn [negb].
  unfold run_reader, pairing_accept_reader. reader_run. by destruct a.
Qed.
Next Obligation.
  intros w a. unfold decode_pairing_accept, kSha256Bytes.
  destruct (Z.eqb_spec (len w) (4 + 32)) as [Hl|]; [cbn [negb]|done].
  intros H. unfold pairing_accept_reader in H. reader_inv. bool_to_prop. no_rest.
  split; [by split_and!|]. unfold encode_pairing_accept; cbn.
  destruct (Z.eqb_spec x0 0); [done|]. by rewrite app_nil_r.
Qed.

#[export] Program Instance pairing_reject_codec : Codec PairingRejectReason := {|
  encode := encode_pairing_reject; decode := decode_pairing_reject; valid := fun _ => True |}.
Next Obligation.
  intros r _. unfold decode_pairing_reject, encode_pairing_reject. autorewrite with wire.
  change (Z.of_nat 2 =? 2) with true. cbn [negb]. unfold run_reader.
  rewrite <- (app_nil_r (write_le 2 _)), read_le_write by (destruct r; by vm_compute).
  by destruct r.
Qed.
Next Obligation.
  intros w r. unfold decode_pairing_reject.
  destruct (Z.eqb_spec (len w) 2) as [Hl|]; [cbn [negb]|done].
  destruct (run_reader (read_le 2) w) as [v|] eqn:E; [|done].
  destruct (v >? _) eqn:Hv; [done|]. intros [= <-]. split; [done|].
  reader_inv. no_rest. rewrite app_nil_r. unfold encode_pairing_reject. f_equal.
  change (reject_reason_value confirmation_failed) with 5 in Hv. bool_to_prop.
  assert (v = 0 \/ v = 1 \/ v = 2 \/ v = 3 \/ v = 4 \/ v = 5) as Hc by ulia.
  by destruct Hc as [-> | [-> | [-> | [-> | [-> | ->]]]]].
Qed.

(** ** The transcript determines the exchange *)

(** The C++ types of the fields. *)
Definition typed_transcript (t : PairingTranscript) : Prop :=
  u16 (pt_version t) /\ length (pt_client_nonce t) = 32%nat /\ length (pt_server_nonce t) = 32%nat.

(** The message under a confirmation tag. *)
Definition tag_message (role : Z) (encoded : bytes) : bytes :=
  (if role =? role_client then kClientTagLabel else kServerTagLabel) ++ encoded.

Lemma append_blob_app_inj a b r s :
  u16 (len a) -> u16 (len b) -> append_blob a ++ r = append_blob b ++ s -> a = b /\ r = s.
Proof.
  intros Ha Hb. unfold append_blob. rewrite <- !app_assoc.
  intros [El E]%write_le_app_inj; [|done..]. apply app_inj_1 in E; [done|].
  unfold len in El. lia.
Qed.

Lemma valid_transcript_sizes t :
  valid_transcript t = true ->
  u16 (pt_agreement t) /\ u16 (len (pt_client_uuid t)) /\ u16 (len (pt_client_hostname t)) /\
  u16 (len (pt_client_public_key t)) /\ u16 (len (pt_server_public_key t)).
Proof.
  unfold valid_transcript. intros H. bool_to_prop.
  repeat match goal with
  | K : valid_identity _ = true |- _ => apply valid_identity_len in K
  | K : valid_public_key _ = true |- _ => apply valid_public_key_len in K
  end.
  split; [by apply known_agreement_u16|]. split_and!; ulia.
Qed.

Lemma encode_transcript_inj t1 t2 w :
  typed_transcript t1 -> typed_transcript t2 ->
  encode_transcript t1 = Some w -> encode_transcript t2 = Some w -> t1 = t2.
Proof.
  unfold encode_transcript. intros (Hv1 & Hc1 & _) (Hv2 & Hc2 & _).
  destruct (valid_transcript t1) eqn:E1; [cbn [negb]|done].
  destruct (valid_transcript t2) eqn:E2; [cbn [negb]|done].
  apply valid_transcript_sizes in E1 as (Ha1 & Hu1 & Hh1 & Hp1 & Hs1).
  apply valid_transcript_sizes in E2 as (Ha2 & Hu2 & Hh2 & Hp2 & Hs2).
  intros Hw1 Hw2. rewrite <- Hw1 in Hw2. apply (inj Some) in Hw2 as E. apply app_inv_head in E. symmetry in E.
  apply write_le_app_inj in E as [? E]; [|done..].
  apply write_le_app_inj in E as [? E]; [|done..].
  do 4 (apply append_blob_app_inj in E as [? E]; [|done..]).
  apply app_inj_1 in E as [? ?]; [|congruence]. destruct t1, t2; cbn in *; congruence.
Qed.

(** Neither the two roles nor two transcripts share a tag message. *)
Lemma tag_message_inj r1 r2 t1 t2 w1 w2 :
  typed_transcript t1 -> typed_transcript t2 ->
  (r1 = role_client \/ r1 = role_server) -> (r2 = role_client \/ r2 = role_server) ->
  encode_transcript t1 = Some w1 -> encode_transcript t2 = Some w2 ->
  tag_message r1 w1 = tag_message r2 w2 -> r1 = r2 /\ t1 = t2.
Proof.
  intros H1 H2 Hr1 Hr2 E1 E2 E. unfold tag_message in E.
  apply app_inj_1 in E as [El ->]; [|by destruct Hr1 as [-> | ->], Hr2 as [-> | ->]].
  split; [|by eapply encode_transcript_inj].
  destruct Hr1 as [-> | ->], Hr2 as [-> | ->]; try done;
    exfalso; apply (f_equal (fun l => nth 14 l Byte.x00)) in El; vm_compute in El; discriminate El.
Qed.

Section Tags.
Context (bcrypt_hmac : bytes -> bytes -> option bytes) (bcrypt_sha256 : bytes -> option bytes).

Lemma confirmation_tag_inv secrets transcript role tag :
  confirmation_tag bcrypt_hmac secrets transcript role = Some tag ->
  (role = role_client \/ role = role_server) /\ exists w,
    encode_transcript transcript = Some w /\
    Auth.hmac_sha256 bcrypt_hmac (ps_confirm_key secrets) (tag_message role w) = Some tag.
Proof.
  unfold confirmation_tag, tag_for_role, tag_message.
  destruct (negb (role =? role_client) && negb (role =? role_server)) eqn:Er; [done|].
  destruct (encode_transcript transcript) as [w|]; [|done]. intros Ht.
  split; [|by exists w]. apply andb_false_iff in Er as [Er|Er]; bool_to_prop; auto.
Qed.

Lemma verify_confirmation_tag_iff secrets transcript role tag :
  verify_confirmation_tag bcrypt_hmac secrets transcript role tag = true <->
  confirmation_tag bcrypt_hmac secrets transcript role = Some tag.
Proof.
  unfold verify_confirmation_tag, confirmation_tag.
  destruct (tag_for_role bcrypt_hmac secrets transcript role) as [expected|]; [|done].
  rewrite Auth.constant_time_equal_spec. split; [by intros ->|by intros [= ->]].
Qed.
End Tags.

(** ** The six digits *)

Definition decimal_digit (b : byte) : Prop := 48 <= byte_val b <= 57.

(** The number a string of decimal digits denotes. *)
Definition decimal_value (digits : bytes) : Z :=
  fold_left (fun v b => v * 10 + (byte_val b - 48)) digits 0.

Lemma decimal_value_snoc ds b : decimal_value (ds ++ [b]) = decimal_value ds * 10 + (byte_val b - 48).
Proof. unfold decimal_value. by rewrite fold_left_app. Qed.

Lemma sas_digits_spec n : forall v acc, 0 <= v -> exists ds,
  sas_digits n v acc = ds ++ acc /\ length ds = n /\ Forall decimal_digit ds /\
  decimal_value ds = v mod 10 ^ Z.of_nat n.
Proof.
  induction n as [|n IH]; intros v acc Hv; cbn [sas_digits].
  - exists []. split_and!; try done. change (10 ^ Z.of_nat 0) with 1. by rewrite Z.mod_1_r.
  - destruct (IH (v / 10) (byte_of (48 + v mod 10) :: acc)) as (ds & E & Hl & Hd & Hv').
    { apply Z.div_pos; lia. }
    pose proof (Z.mod_pos_bound v 10 ltac:(lia)) as Hm.
    assert (byte_val (byte_of (48 + v mod 10)) = 48 + v mod 10) as Hb.
    { rewrite byte_val_of. apply Z.mod_small. lia. }
    exists (ds ++ [byte_of (48 + v mod 10)]). split_and!.
    + by rewrite E, <- app_assoc.
    + rewrite length_app, Hl. cbn. lia.
    + apply Forall_app_2; [done|]. constructor; [|done]. unfold decimal_digit. lia.
    + rewrite decimal_value_snoc, Hv', Hb.
      rewrite Nat2Z.inj_succ, Z.pow_succ_r, Z.rem_mul_r by lia. lia.
Qed.

Lemma sas_value_nonneg digest : 0 <= sas_value digest.
Proof.
  unfold sas_value. assert (forall bs v, 0 <= v ->
    0 <= fold_left (fun value b => Z.lor (wrap64 (Z.shiftl value 8)) (byte_val b)) bs v) as H.
  { induction bs as [|b bs IH]; intros v Hv; cbn; [done|]. apply IH.
    apply Z.lor_nonneg. pose proof (byte_val_range b). split; [|lia].
    unfold wrap64. apply Z.mod_pos_bound. lia. }
  by apply H.
Qed.

(** The code is six decimal digits: the first 64 bits of the digest modulo a
    million. *)
Lemma format_sas_spec digest :
  length (format_sas digest) = 6%nat /\ Forall decimal_digit (format_sas digest) /\
  decimal_value (format_sas digest) = sas_value digest mod 1000000.
Proof.
  unfold format_sas. change sas_modulus with 1000000.
  destruct (sas_digits_spec kSasDigits (sas_value digest mod 1000000) []) as (ds & -> & Hl & Hd & Hv).
  { apply Z.mod_pos_bound. lia. }
  rewrite app_nil_r. split_and!; [done..|]. rewrite Hv.
  change (10 ^ Z.of_nat kSasDigits) with 1000000. by rewrite Z.mod_mod.
Qed.

(** ** Properties *)

(** The pairing messages.  For each of the five messages, bytes decode to a
    message precisely when they are the encoding of it and it has the types and
    passes the tests of its encoder: nothing else is read, and nothing an encoder
    sends is refused. *)
Theorem pairing_messages_decode_iff (w : bytes) :
  (forall h, decode_pairing_hello w = Some h <-> wf_pairing_hello h /\ w = encode_pairing_hello h) /\
  (forall o, decode_pairing_offer w = Some o <-> wf_pairing_offer o /\ w = encode_pairing_offer o) /\
  (forall c, decode_pairing_confirm w = Some c <->
     wf_pairing_confirm c /\ w = encode_pairing_confirm c) /\
  (forall a, decode_pairing_accept w = Some a <-> wf_pairing_accept a /\ w = encode_pairing_accept a) /\
  (forall r, decode_pairing_reject w = Some r <-> w = encode_pairing_reject r).
Proof.
  split_and!.
  - exact (fun h => decode_iff (A := PairingHello) w h).
  - exact (fun o => decode_iff (A := PairingOffer) w o).
  - exact (fun c => decode_iff (A := PairingConfirm) w c).
  - exact (fun a => decode_iff (A := PairingAccept) w a).
  - intros r. pose proof (decode_iff (A := PairingRejectReason) w r) as H. cbn in H. tauto.
Qed.

(** Two MACs that do not collide. *)
Definition no_collision (bcrypt_hmac : bytes -> bytes -> option bytes) (k1 m1 k2 m2 : bytes) : Prop :=
  forall tag, Auth.hmac_sha256 bcrypt_hmac k1 m1 = Some tag ->
    Auth.hmac_sha256 bcrypt_hmac k2 m2 = Some tag -> k1 = k2 /\ m1 = m2.

(** What a confirmation tag proves.  When one side verifies, for a role, a tag
    that the other side computed for a role, and the MACs of the two messages do
    not collide, the two roles, the two confirmation keys and the two transcripts
    are the same: versions, curve, machine identity, host name, both public keys
    and both nonces. *)
Theorem tag_binds_the_exchange (bcrypt_hmac : bytes -> bytes -> option bytes)
    (mine theirs : PairingSecrets) (seen sent : PairingTranscript) (role role' : Z) (tag : bytes) :
  typed_transcript seen -> typed_transcript sent ->
  (forall w w', encode_transcript seen = Some w -> encode_transcript sent = Some w' ->
     no_collision bcrypt_hmac (ps_confirm_key mine) (tag_message role w)
       (ps_confirm_key theirs) (tag_message role' w')) ->
  confirmation_tag bcrypt_hmac theirs sent role' = Some tag ->
  verify_confirmation_tag bcrypt_hmac mine seen role tag = true ->
  role = role' /\ ps_confirm_key mine = ps_confirm_key theirs /\ seen = sent.
Proof.
  intros H1 H2 Hn Ht Hv. apply verify_confirmation_tag_iff in Hv.
  apply confirmation_tag_inv in Hv as (Hr & w & Ew & Hm).
  apply confirmation_tag_inv in Ht as (Hr' & w' & Ew' & Hm').
  destruct (Hn _ _ Ew Ew' tag Hm Hm') as [Hk E].
  by destruct (tag_message_inj _ _ _ _ _ _ H1 H2 Hr Hr' Ew Ew' E).
Qed.

(** ** Examples *)

Definition sample_transcript : PairingTranscript :=
  mkPairingTranscript 1 x25519 (text "uuid-1") (text "LAB-01") (repeat (byte_of 3) 72)
    (repeat (byte_of 4) 72) (repeat (byte_of 5) 32) (repeat (byte_of 6) 32).

(** A stand-in for HMAC: the first 32 bytes of key and message, padded. *)
Definition prefix_hmac (key message : bytes) : option bytes :=
  Some (take 32 (key ++ message ++ repeat (byte_of 0) 32)).

Definition sample_secrets : PairingSecrets :=
  mkPairingSecrets (text "K") (repeat (byte_of 8) 32) (text "123456").

Definition sample_tag : bytes :=
  default [] (confirmation_tag prefix_hmac sample_secrets sample_transcript role_client).

(** The code of a digest. *)
Example sas_of_digest :
  format_sas (map byte_of [0; 0; 0; 0; 0; 0x12; 0xd6; 0x87; 0xff; 0xff]) = text "234567".
Proof. by vm_compute. Qed.

Lemma tag_binds_the_exchange_witness :
  confirmation_tag prefix_hmac sample_secrets sample_transcript role_client = Some sample_tag /\
  (role_client = role_client /\ ps_confirm_key sample_secrets = ps_confirm_key sample_secrets /\
   sample_transcript = sample_transcript).
Proof.
  assert (confirmation_tag prefix_hmac sample_secrets sample_transcript role_client = Some sample_tag)
    as Ht by (by vm_compute).
  split; [exact Ht|].
  apply (tag_binds_the_exchange prefix_hmac sample_secrets sample_secrets sample_transcript
    sample_transcript role_client role_client sample_tag); [by vm_compute|by vm_compute| |exact Ht|].
  - intros w w' Ew Ew'. rewrite Ew in Ew'. injection Ew' as <-. by split.
  - by vm_compute.
Defined.

End Pairing.
