(* ===== verification/Enrollment.v ===== *)
(** Enrollment with a shared secret (common/include/nstu/enrollment.hpp and
    common/src/enrollment.cpp): the request a client authenticates with the
    enrollment secret, the key both sides derive from it, and the authority that
    admits each request once. *)

From S2P Require Import Prelude Wire Codec Protocol Auth KeyStore.
Import ReaderNotations Protocol.
#[local] Open Scope nstu_scope.

Module Enrollment.

Definition kEnrollmentRequestBytes : Z := 92.

Record EnrollmentRequest := mkEnrollmentRequest {
  er_client_id : bytes;
  er_key_id : Z;
  er_nonce : bytes;
  er_unix_time_seconds : Z;
  er_authenticator : bytes
}.

Definition enrollment_message (label : bytes) (request : EnrollmentRequest) : bytes :=
  label ++ er_client_id request ++ write_le 4 (er_key_id request) ++ er_nonce request ++
  write_le 8 (er_unix_time_seconds request).

Definition kEnrollmentAuthLabel : bytes := text "NSTU-ENROLLMENT-AUTH-V1".
Definition kEnrolledKeyLabel : bytes := text "NSTU-ENROLLED-KEY-V1".

Definition valid_request_fields (request : EnrollmentRequest) : bool :=
  negb (er_key_id request =? 0) && negb (er_unix_time_seconds request =? 0) &&
  any_nonzero (er_client_id request) && any_nonzero (er_nonce request).

Definition encode_enrollment_request (request : EnrollmentRequest) : bytes :=
  if negb (valid_request_fields request) then []
  else
    er_client_id request ++ write_le 4 (er_key_id request) ++ er_nonce request ++
    write_le 8 (er_unix_time_seconds request) ++ er_authenticator request.

Definition enrollment_request_reader : reader EnrollmentRequest :=
  client_id <- read_bytes 16 ;;
  key_id <- read_le 4 ;;
  nonce <- read_bytes 32 ;;
  unix_time_seconds <- read_le 8 ;;
  authenticator <- read_bytes 32 ;;
  rret (mkEnrollmentRequest client_id key_id nonce unix_time_seconds authenticator).

Definition decode_enrollment_request (wire : bytes) : option EnrollmentRequest :=
  if negb (len wire =? kEnrollmentRequestBytes) then None
  else
    match run_reader enrollment_request_reader wire with
    | None => None
    | Some request => if valid_request_fields request then Some request else None
    end.

Section Crypto.
Variable bcrypt_hmac : bytes -> bytes -> option bytes.

(** [generate_random(request.nonce)] gives the nonce or fails. *)
Definition create_enrollment_request (client_id : bytes) (key_id unix_time_seconds : Z)
    (enrollment_secret : bytes) (random : option bytes) : option EnrollmentRequest :=
  if len enrollment_secret <? Auth.kMinimumProtocolKeyBytes then None
  else
    match random with
    | None => None
    | Some nonce =>
        let request := mkEnrollmentRequest client_id key_id nonce unix_time_seconds
          (repeat (byte_of 0) 32) in
        if negb (valid_request_fields request) then None
        else
          match Auth.hmac_sha256 bcrypt_hmac enrollment_secret
                  (enrollment_message kEnrollmentAuthLabel request) with
          | None => None
          | Some authenticator => Some {| request with er_authenticator := authenticator |}
          end
    end.

Definition derive_enrolled_key (enrollment_secret : bytes) (request : EnrollmentRequest)
    : option bytes :=
  if (len enrollment_secret <? Auth.kMinimumProtocolKeyBytes) ||
     negb (valid_request_fields request) then None
  else
    Auth.hmac_sha256 bcrypt_hmac enrollment_secret (enrollment_message kEnrolledKeyLabel request).

(** [EnrollmentAuthority]. *)
Record EnrollmentAuthority := mkEnrollmentAuthority {
  ea_secret : bytes;
  ea_replay_protector : Auth.ReplayProtector;
  ea_maximum_clock_skew : Z
}.

Definition new_authority (enrollment_secret : bytes) (replay_capacity maximum_clock_skew : Z)
    : EnrollmentAuthority :=
  mkEnrollmentAuthority enrollment_secret (Auth.replay_create replay_capacity maximum_clock_skew)
    (Z.max maximum_clock_skew 1).

(** The [AuthHello] the replay protector is asked about. *)
Definition replay_identity (request : EnrollmentRequest) : Auth.AuthHello :=
  Auth.mkAuthHello (er_client_id request) (er_nonce request) (er_unix_time_seconds request)
    (er_key_id request).

Definition authority_accept (authority : EnrollmentAuthority) (request : EnrollmentRequest)
    (now_unix_seconds : Z) (key_store : KeyStore.KeyStore)
    : result KeyStore.KeyStore * EnrollmentAuthority :=
  if (len (ea_secret authority) <? Auth.kMinimumProtocolKeyBytes) ||
     negb (valid_request_fields request)
  then (Err "invalid enrollment request", authority)
  else if Auth.clock_difference (er_unix_time_seconds request) now_unix_seconds
            >? ea_maximum_clock_skew authority
  then (Err "enrollment request is outside the clock window", authority)
  else
    match Auth.hmac_sha256 bcrypt_hmac (ea_secret authority)
            (enrollment_message kEnrollmentAuthLabel request) with
    | None => (Err "enrollment authentication failed", authority)
    | Some expected =>
        if negb (Auth.constant_time_equal expected (er_authenticator request))
        then (Err "enrollment authentication failed", authority)
        else
          let '(fresh, replay_protector) :=
            Auth.replay_accept (ea_replay_protector authority) (replay_identity request)
              now_unix_seconds in
          let authority := {| authority with ea_replay_protector := replay_protector |} in
          if negb fresh then (Err "enrollment request was replayed", authority)
          else
            match derive_enrolled_key (ea_secret authority) request with
            | None => (Err "enrollment key derivation failed", authority)
            | Some key =>
                (KeyStore.enroll key_store (er_client_id request) (er_key_id request) key, authority)
            end
    end.
End Crypto.

(** ** The request codec *)

Definition wf_enrollment_request (r : EnrollmentRequest) : Prop :=
  valid_request_fields r = true /\ length (er_client_id r) = 16%nat /\ u32 (er_key_id r) /\
  length (er_nonce r) = 32%nat /\ u64 (er_unix_time_seconds r) /\
  length (er_authenticator r) = 32%nat.

#[export] Program Instance enrollment_request_codec : Codec EnrollmentRequest := {|
  encode := encode_enrollment_request; decode := decode_enrollment_request;
  valid := wf_enrollment_request |}.
Next Obligation.
  intros r (Hv & Hc & Hk & Hn & Ht & Ha). unfold decode_enrollment_request, encode_enrollment_request.
  rewrite Hv. cbn [negb]. autorewrite with wire.
  rewrite (len_length _ _ Hc), (len_length _ _ Hn), (len_length _ _ Ha).
  match goal with |- context [negb (?a =? ?b)] => change (a =? b) with true end. cbn [negb].
  unfold run_reader, enrollment_request_reader. reader_run. cbn. destruct r; cbn in *. by rewrite Hv.
Qed.
Next Obligation.
  intros w r. unfold decode_enrollment_request, kEnrollmentRequestBytes.
  destruct (Z.eqb_spec (len w) 92) as [Hl|]; [cbn [negb]|done].
  destruct (run_reader enrollment_request_reader w) as [r'|] eqn:E; [|done].
  destruct (valid_request_fields r') eqn:Hv; [|done]. intros [= ->].
  unfold enrollment_request_reader in E. reader_inv. no_rest.
  split; [by split_and!|]. unfold encode_enrollment_request. rewrite Hv. cbn. by rewrite app_nil_r.
Qed.

(** ** The authority *)

Section Laws.
Context (bcrypt_hmac : bytes -> bytes -> option bytes).

(** What [accept] tested when it succeeded. *)
Lemma authority_accept_ok a r now s s' a' :
  authority_accept bcrypt_hmac a r now s = (Ok s', a') ->
  Auth.kMinimumProtocolKeyBytes <= len (ea_secret a) /\ valid_request_fields r = true /\
  Auth.clock_difference (er_unix_time_seconds r) now <= ea_maximum_clock_skew a /\
  Auth.hmac_sha256 bcrypt_hmac (ea_secret a) (enrollment_message kEnrollmentAuthLabel r) =
    Some (er_authenticator r) /\
  Auth.replay_accept (ea_replay_protector a) (replay_identity r) now = (true, ea_replay_protector a') /\
  exists key, derive_enrolled_key bcrypt_hmac (ea_secret a) r = Some key /\
    KeyStore.enroll s (er_client_id r) (er_key_id r) key = Ok s'.
Proof.
  unfold authority_accept.
  destruct (_ || _) eqn:E1; [done|]. bool_to_prop.
  destruct (_ >? _) eqn:E2; [done|].
  destruct (Auth.hmac_sha256 _ _ _) as [expected|]; [|done].
  destruct (Auth.constant_time_equal expected _) eqn:E3; [|done]. cbn [negb].
  apply Auth.constant_time_equal_spec in E3 as ->.
  destruct (Auth.replay_accept _ _ _) as [fresh rp]. destruct fresh; [|done]. cbn [negb].
  cbn [ea_secret]. destruct (derive_enrolled_key _ _ _) as [key|]; [|done]. intros [= Hs <-].
  bool_to_prop. split_and!; try done. by exists key.
Qed.

Lemma authority_keeps a r now s :
  let '(_, a') := authority_accept bcrypt_hmac a r now s in
  ea_secret a' = ea_secret a /\ ea_maximum_clock_skew a' = ea_maximum_clock_skew a.
Proof.
  unfold authority_accept. destruct (_ || _); [done|]. destruct (_ >? _); [done|].
  destruct (Auth.hmac_sha256 _ _ _); [|done]. destruct (negb _); [done|].
  destruct (Auth.replay_accept _ _ _) as [[] rp]; cbn; [|done].
  by destruct (derive_enrolled_key _ _ _).
Qed.

Lemma enrollment_request_ok client_id key_id t secret random r :
  create_enrollment_request bcrypt_hmac client_id key_id t secret random = Some r ->
  Auth.kMinimumProtocolKeyBytes <= len secret /\ valid_request_fields r = true /\
  er_client_id r = client_id /\ er_key_id r = key_id /\ er_unix_time_seconds r = t /\
  random = Some (er_nonce r) /\
  Auth.hmac_sha256 bcrypt_hmac secret (enrollment_message kEnrollmentAuthLabel r) =
    Some (er_authenticator r).
Proof.
  unfold create_enrollment_request. destruct (len secret <? _) eqn:El; [done|].
  destruct random as [nonce|]; [|done].
  destruct (valid_request_fields _) eqn:Hv; [|done]. cbn [negb].
  destruct (Auth.hmac_sha256 _ _ _) as [tag|] eqn:Et; [|done]. intros [= <-].
  bool_to_prop. split_and!; done.
Qed.

Lemma enroll_resolves s s' c i key :
  u32 i -> KeyStore.enroll s c i key = Ok s' -> KeyStore.resolve s' c i = Some key.
Proof.
  unfold KeyStore.enroll. intros Hi. destruct (_ || _) eqn:E; [done|]. bool_to_prop.
  case_bool_decide; [done|]. intros [= <-]. unfold KeyStore.resolve.
  destruct (Z.eqb_spec i 0); [done|]. rewrite lookup_insert_eq. cbn.
  match goal with H : KeyStore.valid_key key = true |- _ => by rewrite H end.
Qed.
End Laws.
End Enrollment.
