(* ===== verification/Discovery.v ===== *)
(** Discovery datagrams (common/include/nstu/discovery.hpp and
    common/src/discovery.cpp): the authenticated request and response by which an
    enrolled client finds its server, and the unauthenticated probe and beacon an
    unenrolled one uses.  DiscoveryRuns holds the client's sweeps and the
    server's responder.

    HMAC-SHA-256 and SHA-256 are CNG calls and are parameters. *)

From S2P Require Import Prelude Wire Codec Protocol Auth Pairing.
Import ReaderNotations Protocol.
#[local] Open Scope nstu_scope.

Module Discovery.

Definition kMagic : bytes := text "NSTD".
Definition kPairingMagic : bytes := text "NSTP".
Definition kDiscoveryVersion : Z := 1.
Definition kDiscoveryPacketBytes : Z := 104.
Definition kMaximumServerNameBytes : Z := 64.
Definition kPairingProbeBytes : Z := 80.
Definition kMaximumDiscoveryDatagramBytes : Z := 256.

(** [PacketKind] and [PairingPacketKind]. *)
Definition kind_request : Z := 1.
Definition kind_response : Z := 2.
Definition kind_probe : Z := 1.
Definition kind_beacon : Z := 2.

Record PairingProbe := mkPairingProbe {
  pp_client_nonce : bytes;
  pp_unix_time_seconds : Z
}.

Record PairingBeacon := mkPairingBeacon {
  pb_client_nonce : bytes;
  pb_unix_time_seconds : Z;
  pb_control_port : Z;
  pb_server_name : bytes
}.

Record Packet := mkPacket {
  pk_kind : Z;
  pk_client_id : bytes;
  pk_key_id : Z;
  pk_client_nonce : bytes;
  pk_unix_time_seconds : Z;
  pk_control_port : Z;
  pk_authenticator : bytes
}.

Record DiscoveryRequest := mkDiscoveryRequest {
  dq_client_id : bytes;
  dq_key_id : Z;
  dq_client_nonce : bytes;
  dq_unix_time_seconds : Z;
  dq_authenticator : bytes
}.

Record DiscoveryResponse := mkDiscoveryResponse {
  dr_client_id : bytes;
  dr_key_id : Z;
  dr_client_nonce : bytes;
  dr_unix_time_seconds : Z;
  dr_control_port : Z;
  dr_authenticator : bytes
}.

Definition valid_request_fields (request : DiscoveryRequest) : bool :=
  negb (dq_key_id request =? 0) && negb (dq_unix_time_seconds request =? 0) &&
  any_nonzero (dq_client_id request) && any_nonzero (dq_client_nonce request).

Definition valid_response_fields (response : DiscoveryResponse) : bool :=
  negb (dr_key_id response =? 0) && negb (dr_unix_time_seconds response =? 0) &&
  negb (dr_control_port response =? 0) && any_nonzero (dr_client_id response) &&
  any_nonzero (dr_client_nonce response).

Definition time_is_valid (peer_time now maximum_clock_skew : Z) : bool :=
  let allowed := Z.max maximum_clock_skew 1 in
  let difference := if peer_time >? now then peer_time - now else now - peer_time in
  difference <=? allowed.

(** ** The authenticated packet *)

Definition authentication_message (domain : bytes) (kind : Z) (client_id : bytes) (key_id : Z)
    (client_nonce : bytes) (unix_time_seconds control_port : Z) : bytes :=
  domain ++ write_le 2 kDiscoveryVersion ++ write_le 2 kind ++ client_id ++ write_le 4 key_id ++
  client_nonce ++ write_le 8 unix_time_seconds ++ write_le 2 control_port.

Definition encode_packet (packet : Packet) : bytes :=
  let wire :=
    kMagic ++ write_le 2 kDiscoveryVersion ++ write_le 2 (pk_kind packet) ++ pk_client_id packet ++
    write_le 4 (pk_key_id packet) ++ pk_client_nonce packet ++
    write_le 8 (pk_unix_time_seconds packet) ++ write_le 2 (pk_control_port packet) ++
    write_le 2 0 ++ pk_authenticator packet in
  if negb (len wire =? kDiscoveryPacketBytes) then [] else wire.

Definition packet_reader : reader Packet :=
  magic <- read_bytes 4 ;;
  guard bool_decide (magic = kMagic) ;;
  version <- read_le 2 ;;
  guard (version =? kDiscoveryVersion) ;;
  kind <- read_le 2 ;;
  guard ((kind =? kind_request) || (kind =? kind_response)) ;;
  client_id <- read_bytes 16 ;;
  key_id <- read_le 4 ;;
  client_nonce <- read_bytes 32 ;;
  unix_time_seconds <- read_le 8 ;;
  control_port <- read_le 2 ;;
  reserved <- read_le 2 ;;
  guard (reserved =? 0) ;;
  authenticator <- read_bytes 32 ;;
  rret (mkPacket kind client_id key_id client_nonce unix_time_seconds control_port authenticator).

Definition decode_packet (wire : bytes) : option Packet :=
  if negb (len wire =? kDiscoveryPacketBytes) then None else run_reader packet_reader wire.

(** ** Requests and responses *)

Definition kRequestDomain : bytes := text "NSTU-DISCOVERY-REQUEST-V1".
Definition kResponseDomain : bytes := text "NSTU-DISCOVERY-RESPONSE-V1".

Definition request_message (request : DiscoveryRequest) : bytes :=
  authentication_message kRequestDomain kind_request (dq_client_id request) (dq_key_id request)
    (dq_client_nonce request) (dq_unix_time_seconds request) 0.

Definition response_message (response : DiscoveryResponse) : bytes :=
  authentication_message kResponseDomain kind_response (dr_client_id response) (dr_key_id response)
    (dr_client_nonce response) (dr_unix_time_seconds response) (dr_control_port response).

Definition encode_request (request : DiscoveryRequest) : bytes :=
  if negb (valid_request_fields request) || negb (any_nonzero (dq_authenticator request)) then []
  else
    encode_packet (mkPacket kind_request (dq_client_id request) (dq_key_id request)
      (dq_client_nonce request) (dq_unix_time_seconds request) 0 (dq_authenticator request)).

Definition decode_request (wire : bytes) : option DiscoveryRequest :=
  match decode_packet wire with
  | None => None
  | Some packet =>
      if negb (pk_kind packet =? kind_request) || negb (pk_control_port packet =? 0) then None
      else
        let request := mkDiscoveryRequest (pk_client_id packet) (pk_key_id packet)
          (pk_client_nonce packet) (pk_unix_time_seconds packet) (pk_authenticator packet) in
        if valid_request_fields request && any_nonzero (dq_authenticator request)
        then Some request else None
  end.

Definition encode_response (response : DiscoveryResponse) : bytes :=
  if negb (valid_response_fields response) || negb (any_nonzero (dr_authenticator response)) then []
  else
    encode_packet (mkPacket kind_response (dr_client_id response) (dr_key_id response)
      (dr_client_nonce response) (dr_unix_time_seconds response) (dr_control_port response)
      (dr_authenticator response)).

Definition decode_response (wire : bytes) : option DiscoveryResponse :=
  match decode_packet wire with
  | None => None
  | Some packet =>
      if negb (pk_kind packet =? kind_response) || (pk_control_port packet =? 0) then None
      else
        let response := mkDiscoveryResponse (pk_client_id packet) (pk_key_id packet)
          (pk_client_nonce packet) (pk_unix_time_seconds packet) (pk_control_port packet)
          (pk_authenticator packet) in
        if valid_response_fields response && any_nonzero (dr_authenticator response)
        then Some response else None
  end.

Section Crypto.
Variable bcrypt_hmac : bytes -> bytes -> option bytes.

(** [generate_random(request.client_nonce)] gives the nonce or fails. *)
Definition create_request (client_id : bytes) (key_id unix_time_seconds : Z)
    (pre_shared_key : bytes) (random : option bytes) : option DiscoveryRequest :=
  if (key_id =? 0) || (unix_time_seconds =? 0) ||
     (len pre_shared_key <? Auth.kMinimumProtocolKeyBytes) || negb (any_nonzero client_id) then None
  else
    match random with
    | None => None
    | Some client_nonce =>
        let request :=
          mkDiscoveryRequest client_id key_id client_nonce unix_time_seconds (repeat (byte_of 0) 32) in
        match Auth.hmac_sha256 bcrypt_hmac pre_shared_key (request_message request) with
        | None => None
        | Some authenticator => Some {| request with dq_authenticator := authenticator |}
        end
    end.

Definition verify_request (request : DiscoveryRequest) (pre_shared_key : bytes)
    (now_unix_seconds maximum_clock_skew : Z) : bool :=
  if negb (valid_request_fields request) ||
     (len pre_shared_key <? Auth.kMinimumProtocolKeyBytes) ||
     negb (time_is_valid (dq_unix_time_seconds request) now_unix_seconds maximum_clock_skew)
  then false
  else
    match Auth.hmac_sha256 bcrypt_hmac pre_shared_key (request_message request) with
    | None => false
    | Some expected => Auth.constant_time_equal expected (dq_authenticator request)
    end.

Definition create_response (request : DiscoveryRequest) (control_port unix_time_seconds : Z)
    (pre_shared_key : bytes) : option DiscoveryResponse :=
  if negb (valid_request_fields request) || (control_port =? 0) || (unix_time_seconds =? 0) ||
     (len pre_shared_key <? Auth.kMinimumProtocolKeyBytes) then None
  else
    let response := mkDiscoveryResponse (dq_client_id request) (dq_key_id request)
      (dq_client_nonce request) unix_time_seconds control_port (repeat (byte_of 0) 32) in
    match Auth.hmac_sha256 bcrypt_hmac pre_shared_key (response_message response) with
    | None => None
    | Some authenticator => Some {| response with dr_authenticator := authenticator |}
    end.

Definition verify_response (response : DiscoveryResponse) (request : DiscoveryRequest)
    (pre_shared_key : bytes) (now_unix_seconds maximum_clock_skew : Z) : bool :=
  if negb (valid_response_fields response) ||
     negb (bool_decide (dr_client_id response = dq_client_id request)) ||
     negb (dr_key_id response =? dq_key_id request) ||
     negb (bool_decide (dr_client_nonce response = dq_client_nonce request)) ||
     (len pre_shared_key <? Auth.kMinimumProtocolKeyBytes) ||
     negb (time_is_valid (dr_unix_time_seconds response) now_unix_seconds maximum_clock_skew)
  then false
  else
    match Auth.hmac_sha256 bcrypt_hmac pre_shared_key (response_message response) with
    | None => false
    | Some expected => Auth.constant_time_equal expected (dr_authenticator response)
    end.
End Crypto.

(** ** Probes and beacons *)

Definition server_name_byte (character : byte) : byte :=
  let code := byte_val character in
  if (0x20 <=? code) && (code <? 0x7f) then character else byte_of 63.

Definition sanitize_server_name (name : bytes) : bytes :=
  map server_name_byte (take (Z.to_nat kMaximumServerNameBytes) name).

Definition pairing_digest_message (domain : bytes) (kind : Z) (fields : PairingBeacon) : bytes :=
  domain ++ write_le 2 kDiscoveryVersion ++ write_le 2 kind ++ pb_client_nonce fields ++
  write_le 8 (pb_unix_time_seconds fields) ++ write_le 2 (pb_control_port fields) ++
  write_le 2 (len (pb_server_name fields)) ++ pb_server_name fields.

Definition is_pairing_datagram (wire : bytes) : bool :=
  (len kPairingMagic <=? len wire) && bool_decide (take 4 wire = kPairingMagic).

Definition kProbeDomain : bytes := text "NSTU-PAIRING-PROBE-V1".
Definition kBeaconDomain : bytes := text "NSTU-PAIRING-BEACON-V1".

(** The probe's digest is taken over a beacon without port and name. *)
Definition probe_fields (probe : PairingProbe) : PairingBeacon :=
  mkPairingBeacon (pp_client_nonce probe) (pp_unix_time_seconds probe) 0 [].

Section Digests.
Variable bcrypt_sha256 : bytes -> option bytes.

Definition probe_digest (probe : PairingProbe) : option bytes :=
  Pairing.sha256 bcrypt_sha256 (pairing_digest_message kProbeDomain kind_probe (probe_fields probe)).

Definition beacon_digest (beacon : PairingBeacon) : option bytes :=
  Pairing.sha256 bcrypt_sha256 (pairing_digest_message kBeaconDomain kind_beacon beacon).

Definition probe_wire (probe : PairingProbe) (digest : bytes) : bytes :=
  kPairingMagic ++ write_le 2 kDiscoveryVersion ++ write_le 2 kind_probe ++
  pp_client_nonce probe ++ write_le 8 (pp_unix_time_seconds probe) ++ digest.

Definition encode_pairing_probe (probe : PairingProbe) : bytes :=
  if (pp_unix_time_seconds probe =? 0) || negb (any_nonzero (pp_client_nonce probe)) then []
  else
    match probe_digest probe with
    | None => []
    | Some digest =>
        let wire := probe_wire probe digest in
        if len wire =? kPairingProbeBytes then wire else []
    end.

(** The digest is compared against the bytes left of the datagram. *)
Definition pairing_probe_reader : reader PairingProbe :=
  magic <- read_bytes 4 ;;
  version <- read_le 2 ;;
  guard (version =? kDiscoveryVersion) ;;
  kind <- read_le 2 ;;
  guard (kind =? kind_probe) ;;
  client_nonce <- read_bytes 32 ;;
  unix_time_seconds <- read_le 8 ;;
  guard (negb (unix_time_seconds =? 0) && any_nonzero client_nonce) ;;
  received <- read_rest ;;
  guard bool_decide (probe_digest (mkPairingProbe client_nonce unix_time_seconds) = Some received) ;;
  rret (mkPairingProbe client_nonce unix_time_seconds).

Definition decode_pairing_probe (wire : bytes) : option PairingProbe :=
  if negb (len wire =? kPairingProbeBytes) || negb (is_pairing_datagram wire) then None
  else run_reader pairing_probe_reader wire.

Definition beacon_wire (beacon : PairingBeacon) (digest : bytes) : bytes :=
  kPairingMagic ++ write_le 2 kDiscoveryVersion ++ write_le 2 kind_beacon ++
  pb_client_nonce beacon ++ write_le 8 (pb_unix_time_seconds beacon) ++
  write_le 2 (pb_control_port beacon) ++ write_le 2 (len (pb_server_name beacon)) ++
  pb_server_name beacon ++ digest.

Definition encode_pairing_beacon (beacon : PairingBeacon) : bytes :=
  if (pb_unix_time_seconds beacon =? 0) || (pb_control_port beacon =? 0) ||
     negb (any_nonzero (pb_client_nonce beacon)) ||
     (len (pb_server_name beacon) >? kMaximumServerNameBytes) then []
  else
    match beacon_digest beacon with
    | None => []
    | Some digest =>
        let wire := beacon_wire beacon digest in
        if len wire <=? kMaximumDiscoveryDatagramBytes then wire else []
    end.

(** [kFixedBytes] of [decode_pairing_beacon]. *)
Definition kFixedBytes : Z := 84.

Definition pairing_beacon_reader : reader PairingBeacon :=
  magic <- read_bytes 4 ;;
  version <- read_le 2 ;;
  guard (version =? kDiscoveryVersion) ;;
  kind <- read_le 2 ;;
  guard (kind =? kind_beacon) ;;
  client_nonce <- read_bytes 32 ;;
  unix_time_seconds <- read_le 8 ;;
  control_port <- read_le 2 ;;
  name_bytes <- read_le 2 ;;
  left <- rremaining ;;
  guard (negb (name_bytes >? kMaximumServerNameBytes) && (left =? name_bytes + 32) &&
         negb (unix_time_seconds =? 0) && negb (control_port =? 0) && any_nonzero client_nonce) ;;
  server_name <- read_bytes (Z.to_nat name_bytes) ;;
  guard bool_decide (server_name = sanitize_server_name server_name) ;;
  received <- read_rest ;;
  guard bool_decide (beacon_digest
    (mkPairingBeacon client_nonce unix_time_seconds control_port server_name) = Some received) ;;
  rret (mkPairingBeacon client_nonce unix_time_seconds control_port server_name).

Definition decode_pairing_beacon (wire : bytes) : option PairingBeacon :=
  if (len wire <? kFixedBytes) || (len wire >? kMaximumDiscoveryDatagramBytes) ||
     negb (is_pairing_datagram wire) then None
  else run_reader pairing_beacon_reader wire.
End Digests.

(** ** Codecs *)

Definition wf_packet (p : Packet) : Prop :=
  (pk_kind p = kind_request \/ pk_kind p = kind_response) /\ length (pk_client_id p) = 16%nat /\
  u32 (pk_key_id p) /\ length (pk_client_nonce p) = 32%nat /\ u64 (pk_unix_time_seconds p) /\
  u16 (pk_control_port p) /\ length (pk_authenticator p) = 32%nat.

#[export] Program Instance packet_codec : Codec Packet := {|
  encode := encode_packet; decode := decode_packet; valid := wf_packet |}.
Next Obligation.
  intros p (Hk & Hc & Hi & Hn & Ht & Hp & Ha).
  assert (u16 (pk_kind p) /\ ((pk_kind p =? kind_request) || (pk_kind p =? kind_response)) = true)
    as [Hku Hkt] by (destruct Hk as [-> | ->]; by vm_compute).
  unfold decode_packet, encode_packet. cbv zeta.
  set (wire := kMagic ++ _). assert (len wire = kDiscoveryPacketBytes) as Hl.
  { unfold wire. autorewrite with wire.
    rewrite (len_length _ _ Hc), (len_length _ _ Hn), (len_length _ _ Ha). done. }
  rewrite Hl. cbn [negb Z.eqb]. change (kDiscoveryPacketBytes =? kDiscoveryPacketBytes) with true.
  cbn [negb]. rewrite Hl. change (kDiscoveryPacketBytes =? kDiscoveryPacketBytes) with true.
  cbn [negb]. unfold run_reader, packet_reader, wire. reader_run. by destruct p.
Qed.
Next Obligation.
  intros w p. unfold decode_packet, kDiscoveryPacketBytes.
  destruct (Z.eqb_spec (len w) 104) as [Hl|]; [cbn [negb]|done]. intros E.
  unfold packet_reader in E. reader_inv. bool_to_prop. subst. no_rest.
  match goal with K : (_ =? kind_request) || _ = true |- _ => apply orb_true_iff in K as K' end.
  rewrite !Z.eqb_eq in K'. split; [by unfold wf_packet; cbn; split_and!|].
  unfold encode_packet. cbn [pk_kind pk_client_id pk_key_id pk_client_nonce pk_unix_time_seconds
    pk_control_port pk_authenticator]. autorewrite with wire. rewrite app_nil_r.
  unfold kDiscoveryPacketBytes. by destruct (Z.eqb_spec (len kMagic +
    (Z.of_nat 2 + (Z.of_nat 2 + (len x12 + (Z.of_nat 4 + (len x16 + (Z.of_nat 8 + (Z.of_nat 2 +
    (Z.of_nat 2 + len x26))))))))) 104); [|lia].
Qed.

Lemma packet_decodes p : wf_packet p -> decode_packet (encode_packet p) = Some p.
Proof. exact (decode_encode p). Qed.

Lemma packet_decode_inv w p : decode_packet w = Some p -> wf_packet p /\ w = encode_packet p.
Proof. exact (decode_exact w p). Qed.

Definition wf_request (q : DiscoveryRequest) : Prop :=
  valid_request_fields q = true /\ any_nonzero (dq_authenticator q) = true /\
  length (dq_client_id q) = 16%nat /\ u32 (dq_key_id q) /\ length (dq_client_nonce q) = 32%nat /\
  u64 (dq_unix_time_seconds q) /\ length (dq_authenticator q) = 32%nat.

Definition wf_response (r : DiscoveryResponse) : Prop :=
  valid_response_fields r = true /\ any_nonzero (dr_authenticator r) = true /\
  length (dr_client_id r) = 16%nat /\ u32 (dr_key_id r) /\ length (dr_client_nonce r) = 32%nat /\
  u64 (dr_unix_time_seconds r) /\ u16 (dr_control_port r) /\ length (dr_authenticator r) = 32%nat.

#[export] Program Instance request_codec : Codec DiscoveryRequest := {|
  encode := encode_request; decode := decode_request; valid := wf_request |}.
Next Obligation.
  intros q (Hv & Ha & Hq). unfold decode_request, encode_request. rewrite Hv, Ha. cbn [negb orb].
  rewrite packet_decodes.
  - cbn. destruct q; cbn in *. by rewrite Hv, Ha.
  - unfold wf_packet; cbn. split_and!; first [by left | by right | tauto | by vm_compute].
Qed.
Next Obligation.
  intros w q. unfold decode_request. destruct (decode_packet w) as [p|] eqn:E; [|done].
  apply packet_decode_inv in E as [Hp ->].
  destruct (_ || _) eqn:Ek; [done|]. destruct (_ && _) eqn:Ev; [|done]. intros [= <-].
  apply andb_true_iff in Ev as [Hv Ha]. bool_to_prop. destruct Hp as (_ & Hp). split.
  - unfold wf_request; cbn in *. tauto.
  - unfold encode_request. cbn in *. rewrite Hv, Ha. cbn. destruct p; cbn in *. by subst.
Qed.

#[export] Program Instance response_codec : Codec DiscoveryResponse := {|
  encode := encode_response; decode := decode_response; valid := wf_response |}.
Next Obligation.
  intros r (Hv & Ha & Hr). unfold decode_response, encode_response. rewrite Hv, Ha. cbn [negb orb].
  rewrite packet_decodes.
  - cbn. assert (dr_control_port r =? 0 = false) as ->.
    { unfold valid_response_fields in Hv. apply Z.eqb_neq. by bool_to_prop. }
    destruct r; cbn in *. by rewrite Hv, Ha.
  - unfold wf_packet; cbn. split_and!; first [by left | by right | tauto | by vm_compute].
Qed.
Next Obligation.
  intros w r. unfold decode_response. destruct (decode_packet w) as [p|] eqn:E; [|done].
  apply packet_decode_inv in E as [Hp ->].
  destruct (_ || _) eqn:Ek; [done|]. destruct (_ && _) eqn:Ev; [|done]. intros [= <-].
  apply andb_true_iff in Ev as [Hv Ha]. bool_to_prop. destruct Hp as (_ & Hp). split.
  - unfold wf_response; cbn in *. tauto.
  - unfold encode_response. cbn in *. rewrite Hv, Ha. cbn. destruct p; cbn in *. by subst.
Qed.

Lemma request_decodes q : wf_request q -> decode_request (encode_request q) = Some q.
Proof. exact (decode_encode q). Qed.

Lemma request_decode_inv w q : decode_request w = Some q -> wf_request q /\ w = encode_request q.
Proof. exact (decode_exact w q). Qed.

Lemma response_decodes r : wf_response r -> decode_response (encode_response r) = Some r.
Proof. exact (decode_encode r). Qed.

Lemma response_decode_inv w r : decode_response w = Some r -> wf_response r /\ w = encode_response r.
Proof. exact (decode_exact w r). Qed.

(** A packet has its size, and is not taken for a pairing datagram. *)
Lemma decode_packet_shape w p :
  decode_packet w = Some p -> len w = kDiscoveryPacketBytes /\ is_pairing_datagram w = false.
Proof.
  unfold decode_packet. destruct (Z.eqb_spec (len w) kDiscoveryPacketBytes); [cbn [negb]|done].
  intros E. split; [done|]. unfold packet_reader in E. reader_inv. bool_to_prop. subst.
  unfold is_pairing_datagram. apply andb_false_iff. right. apply bool_decide_eq_false.
  change 4%nat with (length kMagic). rewrite take_app_length. by vm_compute.
Qed.

Lemma request_shape q :
  wf_request q -> len (encode_request q) = kDiscoveryPacketBytes /\
  is_pairing_datagram (encode_request q) = false.
Proof.
  intros Hq. pose proof (request_decodes q Hq) as E. unfold decode_request in E.
  destruct (decode_packet _) as [p|] eqn:Ep; [|done]. by apply decode_packet_shape in Ep.
Qed.

Lemma response_shape r : wf_response r -> len (encode_response r) = kDiscoveryPacketBytes.
Proof.
  intros Hr. pose proof (response_decodes r Hr) as E. unfold decode_response in E.
  destruct (decode_packet _) as [p|] eqn:Ep; [|done]. by apply decode_packet_shape in Ep as [? _].
Qed.

(** ** Names and datagrams without a key *)

Lemma server_name_byte_printable b :
  0x20 <= byte_val (server_name_byte b) < 0x7f /\
  (0x20 <= byte_val b < 0x7f -> server_name_byte b = b).
Proof.
  unfold server_name_byte.
  destruct ((0x20 <=? byte_val b) && (byte_val b <? 0x7f)) eqn:E.
  - bool_to_prop. split; [lia|done].
  - rewrite byte_val_of. change (63 mod 256) with 63. split; [lia|]. intros Hb.
    apply andb_false_iff in E as [E|E]; bool_to_prop; lia.
Qed.

(** The name is printable ASCII within 64 bytes, and a name that already is one
    is kept. *)
Lemma sanitize_server_name_spec name :
  len (sanitize_server_name name) <= kMaximumServerNameBytes /\
  Forall (fun b => 0x20 <= byte_val b < 0x7f) (sanitize_server_name name) /\
  (len name <= kMaximumServerNameBytes -> Forall (fun b => 0x20 <= byte_val b < 0x7f) name ->
     sanitize_server_name name = name).
Proof.
  unfold sanitize_server_name, kMaximumServerNameBytes. split_and!.
  - unfold len. rewrite length_map, length_take. lia.
  - apply Forall_map, Forall_true. intros b. apply server_name_byte_printable.
  - unfold len. intros Hl Hp. rewrite take_ge by lia.
    induction Hp as [|b bs Hb _ IH]; [done|]. cbn in Hl |- *.
    rewrite IH by lia. f_equal. by apply server_name_byte_printable.
Qed.

Section DigestCodecs.
Context (bcrypt_sha256 : bytes -> option bytes).
Context (Hsized : forall m d, bcrypt_sha256 m = Some d -> length d = 32%nat).

Definition wf_probe (p : PairingProbe) : Prop :=
  length (pp_client_nonce p) = 32%nat /\ any_nonzero (pp_client_nonce p) = true /\
  u64 (pp_unix_time_seconds p) /\ pp_unix_time_seconds p <> 0 /\
  is_Some (probe_digest bcrypt_sha256 p).

Definition wf_beacon (b : PairingBeacon) : Prop :=
  length (pb_client_nonce b) = 32%nat /\ any_nonzero (pb_client_nonce b) = true /\
  u64 (pb_unix_time_seconds b) /\ pb_unix_time_seconds b <> 0 /\
  u16 (pb_control_port b) /\ pb_control_port b <> 0 /\
  pb_server_name b = sanitize_server_name (pb_server_name b) /\
  is_Some (beacon_digest bcrypt_sha256 b).

Lemma sha256_sized m d : Pairing.sha256 bcrypt_sha256 m = Some d -> length d = 32%nat.
Proof using Hsized. unfold Pairing.sha256. destruct (_ >? _); [done|]. apply Hsized. Qed.

Lemma probe_digest_sized p d : probe_digest bcrypt_sha256 p = Some d -> length d = 32%nat.
Proof using Hsized. unfold probe_digest. apply sha256_sized. Qed.

Lemma beacon_digest_sized b d : beacon_digest bcrypt_sha256 b = Some d -> length d = 32%nat.
Proof using Hsized. unfold beacon_digest. apply sha256_sized. Qed.

Lemma pairing_datagram_intro rest : is_pairing_datagram (kPairingMagic ++ rest) = true.
Proof.
  unfold is_pairing_datagram. rewrite len_app. pose proof (len_nonneg rest).
  apply andb_true_iff. split; [lia|].
  rewrite bool_decide_true; [done|]. change 4%nat with (length kPairingMagic).
  apply take_app_length.
Qed.

Lemma pairing_datagram_head m rest :
  length m = 4%nat -> is_pairing_datagram (m ++ rest) = true -> m = kPairingMagic.
Proof.
  unfold is_pairing_datagram. intros Hm [_ H%bool_decide_eq_true]%andb_true_iff.
  by rewrite <- Hm, take_app_length in H.
Qed.

Lemma len_probe_wire p d :
  length (pp_client_nonce p) = 32%nat -> length d = 32%nat -> len (probe_wire p d) = kPairingProbeBytes.
Proof.
  intros Hn Hl. unfold probe_wire. autorewrite with wire.
  by rewrite (len_length _ _ Hn), (len_length _ _ Hl).
Qed.

Lemma probe_reader_run p d :
  length (pp_client_nonce p) = 32%nat -> any_nonzero (pp_client_nonce p) = true ->
  u64 (pp_unix_time_seconds p) -> pp_unix_time_seconds p <> 0 ->
  probe_digest bcrypt_sha256 p = Some d ->
  run_reader (pairing_probe_reader bcrypt_sha256) (probe_wire p d) = Some p.
Proof.
  destruct p as [nonce t]; cbn [pp_client_nonce pp_unix_time_seconds].
  intros Hn Hz Hu H0 Hd. unfold run_reader, pairing_probe_reader, probe_wire.
  cbn [pp_client_nonce pp_unix_time_seconds].
  assert (negb (t =? 0) && any_nonzero nonce = true) as Hg.
  { rewrite Hz. by destruct (Z.eqb_spec t 0). }
  assert (bool_decide (probe_digest bcrypt_sha256 (mkPairingProbe nonce t) = Some d) = true) as Hb
    by by apply bool_decide_eq_true.
  reader_run. done.
Qed.

Lemma encode_probe_eq p d :
  length (pp_client_nonce p) = 32%nat -> any_nonzero (pp_client_nonce p) = true ->
  pp_unix_time_seconds p <> 0 -> probe_digest bcrypt_sha256 p = Some d ->
  encode_pairing_probe bcrypt_sha256 p = probe_wire p d.
Proof using Hsized.
  intros Hn Hz H0 Hd. pose proof (probe_digest_sized _ _ Hd) as Hl. apply Z.eqb_neq in H0.
  unfold encode_pairing_probe. rewrite Hd, Hz, H0. cbn [negb orb].
  by rewrite len_probe_wire, Z.eqb_refl.
Qed.

Lemma pairing_probe_decodes p :
  wf_probe p -> decode_pairing_probe bcrypt_sha256 (encode_pairing_probe bcrypt_sha256 p) = Some p.
Proof using Hsized.
  intros (Hn & Hz & Hu & H0 & [d Hd]). pose proof (probe_digest_sized _ _ Hd) as Hl.
  rewrite (encode_probe_eq p d) by done. unfold decode_pairing_probe.
  pose proof (len_probe_wire p d Hn Hl) as Hw. apply Z.eqb_eq in Hw as ->.
  assert (is_pairing_datagram (probe_wire p d) = true) as -> by apply pairing_datagram_intro.
  by apply probe_reader_run.
Qed.

Lemma pairing_probe_inv w p :
  decode_pairing_probe bcrypt_sha256 w = Some p ->
  wf_probe p /\ w = encode_pairing_probe bcrypt_sha256 p.
Proof using Hsized.
  unfold decode_pairing_probe. destruct (negb (_ =? _) || _) eqn:E0; [done|]. intros E.
  apply orb_false_iff in E0 as [_ Em%negb_false_iff].
  unfold pairing_probe_reader in E. reader_inv. bool_to_prop. subst.
  apply pairing_datagram_head in Em as ->; [|done].
  match goal with K : probe_digest _ ?q = Some _ |- _ => split; [by unfold wf_probe; split_and!|];
    by rewrite (encode_probe_eq q _ ltac:(done) ltac:(done) ltac:(done) K) end.
Qed.

Lemma len_beacon_wire b d :
  length (pb_client_nonce b) = 32%nat -> length d = 32%nat ->
  len (beacon_wire b d) = kFixedBytes + len (pb_server_name b).
Proof.
  intros Hn Hl. unfold beacon_wire, kFixedBytes. autorewrite with wire.
  rewrite (len_length _ _ Hn), (len_length _ _ Hl). change (len kPairingMagic) with 4. lia.
Qed.

Lemma room_name_len name : name = sanitize_server_name name -> len name <= kMaximumServerNameBytes.
Proof. intros ->. apply sanitize_server_name_spec. Qed.

Lemma encode_beacon_eq b d :
  length (pb_client_nonce b) = 32%nat -> any_nonzero (pb_client_nonce b) = true ->
  pb_unix_time_seconds b <> 0 -> pb_control_port b <> 0 ->
  pb_server_name b = sanitize_server_name (pb_server_name b) ->
  beacon_digest bcrypt_sha256 b = Some d ->
  encode_pairing_beacon bcrypt_sha256 b = beacon_wire b d.
Proof using Hsized.
  intros Hn Hz H0 Hp Hs%room_name_len Hd. pose proof (beacon_digest_sized _ _ Hd) as Hl.
  apply Z.eqb_neq in H0, Hp. unfold encode_pairing_beacon. rewrite Hd, Hz, H0, Hp. cbn [negb orb].
  rewrite len_beacon_wire by done.
  unfold kMaximumServerNameBytes, kFixedBytes, kMaximumDiscoveryDatagramBytes in *.
  destruct (Z.gtb_spec (len (pb_server_name b)) 64); [lia|].
  by destruct (Z.leb_spec (84 + len (pb_server_name b)) 256); [|lia].
Qed.

Lemma beacon_reader_run b d :
  wf_beacon b -> beacon_digest bcrypt_sha256 b = Some d ->
  run_reader (pairing_beacon_reader bcrypt_sha256) (beacon_wire b d) = Some b.
Proof using Hsized.
  destruct b as [nonce t port name]; unfold wf_beacon;
    cbn [pb_client_nonce pb_unix_time_seconds pb_control_port pb_server_name].
  intros (Hn & Hz & Hu & H0 & Hp & Hp0 & Hs & _) Hd. pose proof (beacon_digest_sized _ _ Hd) as Hl.
  pose proof (room_name_len _ Hs) as Hlen. pose proof (len_nonneg name).
  unfold run_reader, pairing_beacon_reader, beacon_wire, kMaximumServerNameBytes in *.
  cbn [pb_client_nonce pb_unix_time_seconds pb_control_port pb_server_name].
  apply (bool_decide_eq_true_2 _) in Hs, Hd.
  assert (negb (len name >? 64) && (len (name ++ d) =? len name + 32) && negb (t =? 0) &&
    negb (port =? 0) && any_nonzero nonce = true) as Hg.
  { rewrite Hz, len_app, (len_length _ _ Hl). apply Z.eqb_neq in H0, Hp0. rewrite H0, Hp0.
    destruct (Z.gtb_spec (len name) 64); [lia|]. by rewrite Z.eqb_refl. }
  reader_run. done.
Qed.

Lemma pairing_beacon_decodes b :
  wf_beacon b -> decode_pairing_beacon bcrypt_sha256 (encode_pairing_beacon bcrypt_sha256 b) = Some b.
Proof using Hsized.
  intros Hb. pose proof Hb as (Hn & Hz & Hu & H0 & Hp & Hp0 & Hs & [d Hd]).
  pose proof (beacon_digest_sized _ _ Hd) as Hl. pose proof (room_name_len _ Hs) as Hlen.
  rewrite (encode_beacon_eq b d) by done. unfold decode_pairing_beacon.
  rewrite len_beacon_wire by done. pose proof (len_nonneg (pb_server_name b)).
  unfold kMaximumServerNameBytes, kFixedBytes, kMaximumDiscoveryDatagramBytes in *.
  assert (is_pairing_datagram (beacon_wire b d) = true) as -> by apply pairing_datagram_intro.
  destruct (Z.ltb_spec (84 + len (pb_server_name b)) 84); [lia|].
  destruct (Z.gtb_spec (84 + len (pb_server_name b)) 256); [lia|]. cbn [negb orb].
  by apply beacon_reader_run.
Qed.

Lemma pairing_beacon_inv w b :
  decode_pairing_beacon bcrypt_sha256 w = Some b ->
  wf_beacon b /\ w = encode_pairing_beacon bcrypt_sha256 b.
Proof using Hsized.
  unfold decode_pairing_beacon. destruct (_ || _) eqn:E0; [done|]. intros E.
  apply orb_false_iff in E0 as [_ Em%negb_false_iff].
  unfold pairing_beacon_reader in E. reader_inv. bool_to_prop.
  subst. apply pairing_datagram_head in Em as ->; [|done].
  match goal with K : beacon_digest _ ?q = Some _ |- _ =>
    rewrite (encode_beacon_eq q _ ltac:(done) ltac:(done) ltac:(done) ltac:(done) ltac:(done) K) end.
  unfold beacon_wire; cbn [pb_client_nonce pb_unix_time_seconds pb_control_port pb_server_name].
  match goal with Hl : length ?name = Z.to_nat ?n, Hu : urange 2 ?n |- _ =>
    assert (n = len name) as -> by (unfold len; ulia) end.
  split; [|done]. by unfold wf_beacon; cbn; split_and!.
Qed.
End DigestCodecs.

End Discovery.
