(* ===== verification/DiscoveryRuns.v ===== *)
(** Discovery at work (common/src/discovery.cpp): the targets a client sends to,
    its two sweeps over the datagrams that come back, and the server's responder.

    Sockets, the adapter list, address conversion, the clocks and the random
    generator are Windows calls and are parameters; a loop runs over the list of
    what its turns observe. *)

From S2P Require Import Prelude Wire Codec Protocol Auth RateLimiter KeyStore Json Pairing Discovery.
Import Discovery.

Module DiscoveryRuns.

(** ** Targets *)

Definition kMaximumDiscoveryTargets : Z := 32.
Definition INADDR_BROADCAST : Z := 0xffffffff.

(** The fields of [IP_ADAPTER_ADDRESSES] and [IP_ADAPTER_UNICAST_ADDRESS] that
    are read; addresses are 32-bit numbers in host order. *)
Record Unicast := mkUnicast { un_inet : bool; un_prefix : Z; un_address : Z }.

Record Adapter := mkAdapter {
  ad_up : bool;
  ad_loopback : bool;
  ad_tunnel : bool;
  ad_unicast : list Unicast
}.

(** The targets and the addresses already in them. *)
Definition append_unique_target (targets : list Z) (address : Z) : list Z :=
  if len targets >=? kMaximumDiscoveryTargets then targets
  else if bool_decide (address ∈ targets) then targets
  else targets ++ [address].

Definition broadcast_address (host_address prefix : Z) : Z :=
  let mask := wrap32 (Z.shiftl 0xffffffff (32 - prefix)) in
  Z.lor (Z.land host_address mask) (Z.lxor mask 0xffffffff).

Definition skip_adapter (adapter : Adapter) : bool :=
  negb (ad_up adapter) || ad_loopback adapter || ad_tunnel adapter.

Definition skip_unicast (unicast : Unicast) : bool :=
  negb (un_inet unicast) || (un_prefix unicast =? 0) || (un_prefix unicast >? 30).

Definition append_unicast (targets : list Z) (unicast : Unicast) : list Z :=
  if skip_unicast unicast then targets
  else append_unique_target targets (broadcast_address (un_address unicast) (un_prefix unicast)).

Definition append_adapter (targets : list Z) (adapter : Adapter) : list Z :=
  if skip_adapter adapter then targets
  else fold_left append_unicast (ad_unicast adapter) targets.

(** [None]: [GetAdaptersAddresses] failed. *)
Definition adapter_broadcast_targets (adapters : option (list Adapter)) : list Z :=
  let targets :=
    match adapters with Some adapters => fold_left append_adapter adapters [] | None => [] end in
  append_unique_target targets INADDR_BROADCAST.

Record ClientDiscoveryOptions := mkClientDiscoveryOptions {
  co_discovery_port : Z;
  co_timeout : Z;
  co_maximum_endpoints : Z;
  co_target_addresses : list bytes
}.

Section Targets.
(** [InetPtonA]. *)
Variable inet_pton : bytes -> option Z.

Definition ipv4_endpoint (address : bytes) (port : Z) : option Z :=
  if bool_decide (address = []) || (len address >? 255) || (port =? 0) then None
  else inet_pton address.

Fixpoint explicit_targets (addresses : list bytes) (port : Z) (targets : list Z) : result (list Z) :=
  match addresses with
  | [] => Ok targets
  | address :: rest =>
      match ipv4_endpoint address port with
      | None => Err "discovery target is not a valid IPv4 address"
      | Some endpoint => explicit_targets rest port (append_unique_target targets endpoint)
      end
  end.

Definition discovery_targets (options : ClientDiscoveryOptions) (adapters : option (list Adapter))
    : result (list Z) :=
  if bool_decide (co_target_addresses options = []) then Ok (adapter_broadcast_targets adapters)
  else if len (co_target_addresses options) >? kMaximumDiscoveryTargets
  then Err "too many explicit IPv4 discovery targets"
  else explicit_targets (co_target_addresses options) (co_discovery_port options) [].
End Targets.

(** ** The sweep for authenticated servers *)

Record ServerEndpoint := mkServerEndpoint { se_address : bytes; se_port : Z }.

Inductive Select := select_timeout | select_error | select_ready.

(** What one turn of a receive loop observes: the steady clock at the loop's
    test, [select], the datagram or a failed receive, its sender, and the system
    clock. *)
Record Turn := mkTurn {
  tn_now : Z;
  tn_select : Select;
  tn_received : option bytes;
  tn_inet : bool;
  tn_source_port : Z;
  tn_address : option bytes;
  tn_unix_now : Z
}.

Definition lookup_text (address : bytes) (port : Z) : bytes := address ++ text ":" ++ Json.dec port.

Section Sweeps.
Variable bcrypt_hmac : bytes -> bytes -> option bytes.
Variable bcrypt_sha256 : bytes -> option bytes.

(** [std::chrono::seconds maximum_clock_skew = 120]. *)
Definition kMaximumClockSkew : Z := 120.

(** The endpoint a turn's datagram names, if it is to be believed. *)
Definition accept_response (request : DiscoveryRequest) (pre_shared_key : bytes) (port : Z)
    (turn : Turn) : option ServerEndpoint :=
  match tn_received turn with
  | None => None
  | Some buffer =>
      if negb (len buffer =? kDiscoveryPacketBytes) || negb (tn_inet turn) ||
         negb (tn_source_port turn =? port) then None
      else
        match decode_response buffer with
        | None => None
        | Some response =>
            if negb (verify_response bcrypt_hmac response request pre_shared_key (tn_unix_now turn)
                       kMaximumClockSkew) then None
            else
              match tn_address turn with
              | None => None
              | Some address => Some (mkServerEndpoint address (dr_control_port response))
              end
        end
  end.

(** The loop; [None] while it has not ended. *)
Fixpoint sweep_servers (request : DiscoveryRequest) (pre_shared_key : bytes) (port deadline limit : Z)
    (endpoints : list ServerEndpoint) (seen : gset bytes) (turns : list Turn)
    : option (result (list ServerEndpoint)) :=
  match turns with
  | [] => None
  | turn :: rest =>
      if negb ((tn_now turn <? deadline) && (len endpoints <? limit)) then Some (Ok endpoints)
      else
        match tn_select turn with
        | select_timeout => Some (Ok endpoints)
        | select_error => Some (Err "UDP discovery wait")
        | select_ready =>
            match accept_response request pre_shared_key port turn with
            | None => sweep_servers request pre_shared_key port deadline limit endpoints seen rest
            | Some endpoint =>
                let lookup := lookup_text (se_address endpoint) (se_port endpoint) in
                if bool_decide (lookup ∈ seen)
                then sweep_servers request pre_shared_key port deadline limit endpoints seen rest
                else sweep_servers request pre_shared_key port deadline limit
                       (endpoints ++ [endpoint]) ({[lookup]} ∪ seen) rest
            end
        end
  end.

(** [std::clamp]. *)
Definition clamp (value low high : Z) : Z := Z.max low (Z.min value high).

(** [discover_authenticated_servers] once the request has gone out at [start]. *)
Definition collect_servers (options : ClientDiscoveryOptions) (request : DiscoveryRequest)
    (pre_shared_key : bytes) (start : Z) (turns : list Turn) : option (result (list ServerEndpoint)) :=
  let timeout := clamp (co_timeout options) 100 5000 in
  let endpoint_limit := clamp (co_maximum_endpoints options) 1 32 in
  match sweep_servers request pre_shared_key (co_discovery_port options) (start + timeout)
          endpoint_limit [] ∅ turns with
  | Some (Ok []) => Some (Err "no authenticated NSTU discovery response received")
  | other => other
  end.

(** The calls in front of it: the request, then the targets it is sent to;
    [sent] says whether sending to a target worked. *)
Definition send_discovery (options : ClientDiscoveryOptions) (client_id : bytes) (key_id unix_now : Z)
    (pre_shared_key : bytes) (random : option bytes) (inet_pton : bytes -> option Z)
    (adapters : option (list Adapter)) (sent : Z -> bool) : result (DiscoveryRequest * bytes) :=
  if (co_discovery_port options =? 0) || (co_maximum_endpoints options =? 0) ||
     (len pre_shared_key <? Auth.kMinimumProtocolKeyBytes)
  then Err "invalid authenticated discovery configuration"
  else
    match create_request bcrypt_hmac client_id key_id unix_now pre_shared_key random with
    | None => Err "authenticated discovery request generation failed"
    | Some request =>
        let wire := encode_request request in
        if negb (len wire =? kDiscoveryPacketBytes)
        then Err "authenticated discovery request encoding failed"
        else
          match discovery_targets inet_pton options adapters with
          | Err e => Err e
          | Ok targets =>
              if bool_decide (targets = []) then Err "no IPv4 discovery target is available"
              else if negb (existsb sent targets) then Err "UDP discovery send"
              else Ok (request, wire)
          end
    end.

(** What goes out in front of the other sweep. *)
Definition send_probe (options : ClientDiscoveryOptions) (unix_now : Z) (random : option bytes)
    (inet_pton : bytes -> option Z) (adapters : option (list Adapter)) (sent : Z -> bool)
    : result (PairingProbe * bytes) :=
  if (co_discovery_port options =? 0) || (co_maximum_endpoints options =? 0)
  then Err "invalid pairing discovery configuration"
  else
    match random with
    | None => Err "pairing probe nonce generation failed"
    | Some client_nonce =>
        let probe := mkPairingProbe client_nonce unix_now in
        let wire := encode_pairing_probe bcrypt_sha256 probe in
        if negb (len wire =? kPairingProbeBytes) then Err "pairing probe encoding failed"
        else
          match discovery_targets inet_pton options adapters with
          | Err e => Err e
          | Ok targets =>
              if bool_decide (targets = []) then Err "no IPv4 discovery target is available"
              else if negb (existsb sent targets) then Err "UDP pairing probe send"
              else Ok (probe, wire)
          end
    end.

(** ** The sweep for pairing candidates *)

Record PairingCandidate := mkPairingCandidate { ca_address : bytes; ca_port : Z; ca_server_name : bytes }.

Definition accept_beacon (client_nonce : bytes) (port : Z) (turn : Turn) : option PairingCandidate :=
  match tn_received turn with
  | None => None
  | Some datagram =>
      if (len datagram =? 0) || negb (tn_inet turn) || negb (tn_source_port turn =? port) then None
      else
        match decode_pairing_beacon bcrypt_sha256 datagram with
        | None => None
        | Some beacon =>
            if negb (bool_decide (pb_client_nonce beacon = client_nonce)) then None
            else
              match tn_address turn with
              | None => None
              | Some address =>
                  Some (mkPairingCandidate address (pb_control_port beacon) (pb_server_name beacon))
              end
        end
  end.

Fixpoint sweep_candidates (client_nonce : bytes) (port deadline limit : Z)
    (candidates : list PairingCandidate) (seen : gset bytes) (turns : list Turn)
    : option (result (list PairingCandidate)) :=
  match turns with
  | [] => None
  | turn :: rest =>
      if negb ((tn_now turn <? deadline) && (len candidates <? limit)) then Some (Ok candidates)
      else
        match tn_select turn with
        | select_timeout => Some (Ok candidates)
        | select_error => Some (Err "UDP pairing wait")
        | select_ready =>
            match accept_beacon client_nonce port turn with
            | None => sweep_candidates client_nonce port deadline limit candidates seen rest
            | Some candidate =>
                let lookup := lookup_text (ca_address candidate) (ca_port candidate) in
                if bool_decide (lookup ∈ seen)
                then sweep_candidates client_nonce port deadline limit candidates seen rest
                else sweep_candidates client_nonce port deadline limit
                       (candidates ++ [candidate]) ({[lookup]} ∪ seen) rest
            end
        end
  end.

Definition collect_candidates (options : ClientDiscoveryOptions) (probe : PairingProbe) (start : Z)
    (turns : list Turn) : option (result (list PairingCandidate)) :=
  let timeout := clamp (co_timeout options) 100 5000 in
  let candidate_limit := clamp (co_maximum_endpoints options) 1 32 in
  match sweep_candidates (pp_client_nonce probe) (co_discovery_port options) (start + timeout)
          candidate_limit [] ∅ turns with
  | Some (Ok []) => Some (Err "no NSTU server answered the pairing probe")
  | other => other
  end.
End Sweeps.

(** ** The responder *)

(** [AuthenticatedDiscoveryResponder::Impl]; the key store it points to is an
    argument, [None] while it is stopped. *)
Record Responder := mkResponder {
  rs_rate_limiter : RateLimiter.HandshakeRateLimiter;
  rs_replay_protector : Auth.ReplayProtector;
  rs_beacon_name : bytes;
  rs_beacon_enabled : bool;
  rs_control_port : Z;
  rs_pairing_probes_received : Z;
  rs_pairing_beacons_sent : Z
}.

(** The members' initial values; the replay protector's are its defaults. *)
Definition new_responder : Responder :=
  mkResponder (RateLimiter.create (RateLimiter.mkPolicy 2048 8 30 60)) (Auth.replay_create 4096 120)
    [] false 0 0 0.

(** [start] once the socket is bound. *)
Definition start_responder (r : Responder) (control_port : Z) : Responder :=
  {| r with rs_control_port := control_port;
            rs_replay_protector := Auth.replay_clear (rs_replay_protector r) |}.

Definition stop_responder (r : Responder) : Responder :=
  {| r with rs_control_port := 0;
            rs_replay_protector := Auth.replay_clear (rs_replay_protector r) |}.

Definition set_pairing_beacon (r : Responder) (enabled : bool) (server_name : bytes) : Responder :=
  let sanitized := sanitize_server_name server_name in
  {| r with rs_beacon_name := sanitized;
            rs_beacon_enabled := enabled && negb (bool_decide (sanitized = [])) |}.

(** A datagram: sender, bytes or a failed receive, the two clocks, and whether
    the answer is sent in full. *)
Record Arrival := mkArrival {
  ar_inet : bool;
  ar_source : option bytes;
  ar_received : option bytes;
  ar_steady_now : Z;
  ar_unix_now : Z;
  ar_sent : bool
}.

Section Responders.
Variable bcrypt_hmac : bytes -> bytes -> option bytes.
Variable bcrypt_sha256 : bytes -> option bytes.
Variable iteration : gmap bytes RateLimiter.Entry -> list (bytes * RateLimiter.Entry).

Definition with_failure (r : Responder) (source : bytes) (now : Z) : Responder :=
  {| r with rs_rate_limiter := RateLimiter.record_failure iteration (rs_rate_limiter r) source now |}.

Definition with_success (r : Responder) (source : bytes) : Responder :=
  {| r with rs_rate_limiter := RateLimiter.record_success (rs_rate_limiter r) source |}.

(** The responder and the bytes it tries to send. *)
Definition answer_pairing_probe (r : Responder) (arrival : Arrival) (source datagram : bytes)
    : Responder * option bytes :=
  match decode_pairing_probe bcrypt_sha256 datagram with
  | None => (with_failure r source (ar_steady_now arrival), None)
  | Some probe =>
      let r := {| r with rs_pairing_probes_received := wrap64 (rs_pairing_probes_received r + 1) |} in
      let now := ar_unix_now arrival in
      if negb (time_is_valid (pp_unix_time_seconds probe) now 120)
      then (with_failure r source (ar_steady_now arrival), None)
      else if negb (rs_beacon_enabled r) then (r, None)
      else
        let beacon :=
          mkPairingBeacon (pp_client_nonce probe) now (rs_control_port r) (rs_beacon_name r) in
        let wire := encode_pairing_beacon bcrypt_sha256 beacon in
        if bool_decide (wire = []) then (r, None)
        else if ar_sent arrival
        then (with_success
                {| r with rs_pairing_beacons_sent := wrap64 (rs_pairing_beacons_sent r + 1) |}
                source, Some wire)
        else (r, Some wire)
  end.

Definition replay_identity (request : DiscoveryRequest) : Auth.AuthHello :=
  Auth.mkAuthHello (dq_client_id request) (dq_client_nonce request) (dq_unix_time_seconds request)
    (dq_key_id request).

(** The authenticated half of the loop's body. *)
Definition answer_request (r : Responder) (key_store : option KeyStore.KeyStore) (arrival : Arrival)
    (source datagram : bytes) : Responder * option bytes :=
  let failed := with_failure r source (ar_steady_now arrival) in
  match decode_request datagram, key_store with
  | Some request, Some key_store =>
      let now := ar_unix_now arrival in
      match KeyStore.resolve key_store (dq_client_id request) (dq_key_id request) with
      | None => (failed, None)
      | Some key =>
          if negb (verify_request bcrypt_hmac request key now 120) then (failed, None)
          else
            let '(fresh, replay_protector) :=
              Auth.replay_accept (rs_replay_protector r) (replay_identity request) now in
            let r := {| r with rs_replay_protector := replay_protector |} in
            let failed := with_failure r source (ar_steady_now arrival) in
            if negb fresh then (r, None)
            else
              match create_response bcrypt_hmac request (rs_control_port r) now key with
              | None => (failed, None)
              | Some response =>
                  let wire := encode_response response in
                  if negb (len wire =? kDiscoveryPacketBytes) then (failed, None)
                  else ((if ar_sent arrival then with_success r source else r), Some wire)
              end
      end
  | _, _ => (failed, None)
  end.

(** The body of [run] for a datagram that [select] announced. *)
Definition respond (r : Responder) (key_store : option KeyStore.KeyStore) (arrival : Arrival)
    : Responder * option bytes :=
  if negb (ar_inet arrival) then (r, None)
  else
    match ar_source arrival with
    | None => (r, None)
    | Some source =>
        let '(allowed, rate_limiter) :=
          RateLimiter.allow (rs_rate_limiter r) source (ar_steady_now arrival) in
        let r := {| r with rs_rate_limiter := rate_limiter |} in
        let failed := with_failure r source (ar_steady_now arrival) in
        if negb allowed then (r, None)
        else
          match ar_received arrival with
          | None => (failed, None)
          | Some datagram =>
              if len datagram =? 0 then (failed, None)
              else if is_pairing_datagram datagram
              then answer_pairing_probe r arrival source datagram
              else if negb (len datagram =? kDiscoveryPacketBytes) then (failed, None)
              else answer_request r key_store arrival source datagram
          end
    end.
End Responders.

(** ** Targets are distinct and bounded *)

Lemma append_unique_target_inv targets address :
  NoDup targets -> len targets <= kMaximumDiscoveryTargets ->
  NoDup (append_unique_target targets address) /\
  len (append_unique_target targets address) <= kMaximumDiscoveryTargets /\
  (forall t, t ∈ append_unique_target targets address -> t ∈ targets \/ t = address).
Proof.
  intros Hn Hl. unfold append_unique_target.
  destruct (Z.geb_spec (len targets) kMaximumDiscoveryTargets); [auto|].
  case_bool_decide as Hin; [auto|]. split_and!.
  - apply NoDup_app. split_and!; [done| |apply NoDup_singleton].
    intros t Ht ->%list_elem_of_singleton. done.
  - rewrite len_app. unfold len at 2. cbn. lia.
  - intros t [Ht|Ht%list_elem_of_singleton]%elem_of_app; auto.
Qed.

Lemma explicit_targets_inv inet_pton addresses port : forall targets targets',
  NoDup targets -> len targets <= kMaximumDiscoveryTargets ->
  explicit_targets inet_pton addresses port targets = Ok targets' ->
  NoDup targets' /\ len targets' <= kMaximumDiscoveryTargets /\
  (forall t, t ∈ targets' -> t ∈ targets \/ exists a, a ∈ addresses /\ inet_pton a = Some t).
Proof.
  induction addresses as [|address rest IH]; intros targets targets' Hn Hl; cbn.
  - intros [= <-]. auto.
  - unfold ipv4_endpoint. destruct (_ || _); [done|].
    destruct (inet_pton address) as [e|] eqn:Ee; [|done]. intros H.
    destruct (append_unique_target_inv targets e Hn Hl) as (Hn' & Hl' & Hin).
    destruct (IH _ _ Hn' Hl' H) as (Hn2 & Hl2 & Hin2). split_and!; [done..|].
    intros t Ht. destruct (Hin2 t Ht) as [Ht'|(a & Ha & Et)].
    + destruct (Hin t Ht') as [?| ->]; [auto|]. right. exists address. split; [left|done].
    + right. exists a. split; [by right|done].
Qed.

Lemma adapter_targets_inv adapters : forall targets,
  NoDup targets -> len targets <= kMaximumDiscoveryTargets ->
  NoDup (fold_left append_adapter adapters targets) /\
  len (fold_left append_adapter adapters targets) <= kMaximumDiscoveryTargets.
Proof.
  assert (forall us targets, NoDup targets -> len targets <= kMaximumDiscoveryTargets ->
    NoDup (fold_left append_unicast us targets) /\
    len (fold_left append_unicast us targets) <= kMaximumDiscoveryTargets) as Hu.
  { induction us as [|u us IH]; intros targets Hn Hl; cbn; [done|]. apply IH; unfold append_unicast;
      destruct (skip_unicast u); try done; by apply append_unique_target_inv. }
  induction adapters as [|a rest IH]; intros targets Hn Hl; cbn; [done|].
  apply IH; unfold append_adapter; destruct (skip_adapter a); try done; by apply Hu.
Qed.

(** Whatever the options and adapters, the request goes to distinct addresses, at
    most 32 of them. *)
Lemma discovery_targets_bounded inet_pton options adapters targets :
  discovery_targets inet_pton options adapters = Ok targets ->
  NoDup targets /\ len targets <= kMaximumDiscoveryTargets.
Proof.
  assert (NoDup (@nil Z) /\ len (@nil Z) <= kMaximumDiscoveryTargets) as [H0 H0']
    by (split; [constructor|by vm_compute]).
  unfold discovery_targets. case_bool_decide.
  - intros [= <-]. unfold adapter_broadcast_targets.
    destruct adapters as [adapters|].
    + destruct (adapter_targets_inv adapters [] H0 H0') as [Hn Hl].
      by destruct (append_unique_target_inv _ INADDR_BROADCAST Hn Hl) as (? & ? & _).
    + by destruct (append_unique_target_inv [] INADDR_BROADCAST H0 H0') as (? & ? & _).
  - destruct (_ >? _); [done|]. intros H1. by apply explicit_targets_inv in H1 as (? & ? & _).
Qed.

Example class_c_broadcast : broadcast_address 0xc0a80117 24 = 0xc0a801ff.
Proof. by vm_compute. Qed.

(** ** What the sweep believes *)

(** The two kinds of message the key authenticates, without their tags. *)
Inductive DiscoveryMessage :=
| RequestSent (request : DiscoveryRequest)
| ResponseSent (response : DiscoveryResponse).

Definition message_bytes (m : DiscoveryMessage) : bytes :=
  match m with
  | RequestSent request => request_message request
  | ResponseSent response => response_message response
  end.

Definition untagged (response : DiscoveryResponse) : DiscoveryResponse :=
  {| response with dr_authenticator := [] |}.

Definition typed_message (m : DiscoveryMessage) : Prop :=
  match m with
  | RequestSent q => length (dq_client_id q) = 16%nat /\ u32 (dq_key_id q) /\
      length (dq_client_nonce q) = 32%nat /\ u64 (dq_unix_time_seconds q)
  | ResponseSent r => length (dr_client_id r) = 16%nat /\ u32 (dr_key_id r) /\
      length (dr_client_nonce r) = 32%nat /\ u64 (dr_unix_time_seconds r) /\ u16 (dr_control_port r)
  end.

(** A response's message is no request's, and determines the response. *)
Lemma response_message_inj r m :
  typed_message (ResponseSent r) -> typed_message m ->
  response_message r = message_bytes m ->
  exists r', m = ResponseSent r' /\ untagged r' = untagged r.
Proof.
  intros (Hc & Hk & Hn & Ht & Hp) Hm E. destruct m as [q|r'].
  - exfalso. apply (f_equal (fun l => nth 17 l Byte.x00)) in E. by vm_compute in E.
  - destruct Hm as (Hc' & Hk' & Hn' & Ht' & Hp'). exists r'. split; [done|].
    cbn [message_bytes] in E. unfold response_message, authentication_message in E.
    apply app_inv_head in E.
    apply write_le_app_inj in E as [_ E]; [|by vm_compute..].
    apply write_le_app_inj in E as [_ E]; [|by vm_compute..].
    apply app_inj_1 in E as [E1 E]; [|congruence].
    apply write_le_app_inj in E as [E2 E]; [|done..].
    apply app_inj_1 in E as [E3 E]; [|congruence].
    apply write_le_app_inj in E as [E4 E]; [|done..].
    apply write_le_inj in E as E5; [|done..].
    unfold untagged. destruct r, r'; cbn in *. congruence.
Qed.

Section Sweeping.
Context (bcrypt_hmac : bytes -> bytes -> option bytes).

Lemma verify_response_ok response request key now skew :
  verify_response bcrypt_hmac response request key now skew = true ->
  valid_response_fields response = true /\ dr_client_id response = dq_client_id request /\
  dr_key_id response = dq_key_id request /\ dr_client_nonce response = dq_client_nonce request /\
  time_is_valid (dr_unix_time_seconds response) now skew = true /\
  Auth.hmac_sha256 bcrypt_hmac key (response_message response) = Some (dr_authenticator response).
Proof.
  unfold verify_response. destruct (_ || _) eqn:E; [done|].
  destruct (Auth.hmac_sha256 _ _ _) as [expected|]; [|done].
  intros ->%Auth.constant_time_equal_spec. bool_to_prop. by split_and!.
Qed.

Lemma time_is_valid_within t now : time_is_valid t now kMaximumClockSkew = true -> Z.abs (t - now) <= 120.
Proof using Type. unfold time_is_valid, kMaximumClockSkew. repeat case_match; intros; bool_to_prop; lia. Qed.

(** What [accept_response] found in a turn it took an endpoint from. *)
Lemma accept_response_ok request key port turn endpoint :
  accept_response bcrypt_hmac request key port turn = Some endpoint ->
  exists response, tn_received turn = Some (encode_response response) /\ wf_response response /\
    tn_source_port turn = port /\ tn_address turn = Some (se_address endpoint) /\
    dr_control_port response = se_port endpoint /\
    verify_response bcrypt_hmac response request key (tn_unix_now turn) kMaximumClockSkew = true.
Proof.
  unfold accept_response. destruct (tn_received turn) as [buffer|]; [|done].
  destruct (_ || _) eqn:E0; [done|]. bool_to_prop.
  destruct (decode_response buffer) as [response|] eqn:Ed; [|done].
  apply response_decode_inv in Ed as [Hw ->].
  destruct (verify_response _ _ _ _ _ _) eqn:Ev; [|done].
  destruct (tn_address turn) as [address|]; [|done]. intros [= <-]. exists response. by split_and!.
Qed.

(** The shape of a sweep that ended well: what it started with, then endpoints
    accepted from its turns, without repetition and within the limit. *)
Lemma sweep_servers_ok request key port deadline limit turns : forall endpoints seen endpoints',
  (forall e, e ∈ endpoints <-> lookup_text (se_address e) (se_port e) ∈ seen /\ e ∈ endpoints) ->
  NoDup endpoints -> len endpoints <= limit ->
  sweep_servers bcrypt_hmac request key port deadline limit endpoints seen turns = Some (Ok endpoints') ->
  NoDup endpoints' /\ len endpoints' <= limit /\
  (forall e, e ∈ endpoints' -> e ∈ endpoints \/
     exists turn, turn ∈ turns /\ tn_now turn < deadline /\ tn_select turn = select_ready /\
       accept_response bcrypt_hmac request key port turn = Some e).
Proof.
  induction turns as [|turn rest IH]; intros endpoints seen endpoints' Hs Hn Hl; cbn; [done|].
  destruct (_ && _) eqn:Et; cbn [negb]; [|intros [= <-]; auto].
  destruct (tn_select turn) eqn:Esel; [intros [= <-]; auto|done|].
  assert (Hskip : sweep_servers bcrypt_hmac request key port deadline limit endpoints seen rest =
      Some (Ok endpoints') -> NoDup endpoints' /\ len endpoints' <= limit /\
    (forall e, e ∈ endpoints' -> e ∈ endpoints \/ exists turn', turn' ∈ turn :: rest /\
      tn_now turn' < deadline /\ tn_select turn' = select_ready /\
      accept_response bcrypt_hmac request key port turn' = Some e)).
  { intros H. destruct (IH _ _ _ Hs Hn Hl H) as (? & ? & Hin). split_and!; [done..|].
    intros e He. destruct (Hin e He) as [|(t & Ht & E)]; [auto|]. right. exists t.
    split; [by right|done]. }
  destruct (accept_response _ _ _ _ turn) as [endpoint|] eqn:Ea; [|exact Hskip].
  case_bool_decide as Hseen; [exact Hskip|]. clear Hskip. intros H. bool_to_prop.
  assert (len (endpoints ++ [endpoint]) <= limit) as Hl'.
  { rewrite len_app. unfold len at 2. cbn. lia. }
  assert (NoDup (endpoints ++ [endpoint])) as Hn'.
  { apply NoDup_app. split_and!; [done| |apply NoDup_singleton].
    intros e He ->%list_elem_of_singleton. apply Hs in He. tauto. }
  destruct (fun Hs' => IH _ _ _ Hs' Hn' Hl' H) as (? & ? & Hin).
  { intros e. rewrite elem_of_app, list_elem_of_singleton, elem_of_union, elem_of_singleton.
    specialize (Hs e). split; [|tauto]. intros [He| ->]; tauto. }
  split_and!; [done..|]. intros e He. destruct (Hin e He) as [He'|(t & Ht & E)].
  - apply elem_of_app in He' as [?| ->%list_elem_of_singleton]; [auto|]. right. exists turn.
    split; [left|]. split; [lia|done].
  - right. exists t. split; [by right|done].
Qed.

(** The MACs under [key] in accepted datagrams are those of messages its holders
    published. *)
Definition unforged (key : bytes) (published : list DiscoveryMessage) (turns : list Turn) : Prop :=
  forall turn response, turn ∈ turns -> tn_received turn = Some (encode_response response) ->
    wf_response response ->
    Auth.hmac_sha256 bcrypt_hmac key (response_message response) = Some (dr_authenticator response) ->
    exists m, m ∈ published /\ typed_message m /\ message_bytes m = response_message response.

(** C25. What authenticated discovery finds.  Against an attacker who sends any
    datagrams but cannot forge MACs, every endpoint the sweep reports comes from a
    datagram of one of its turns, received before the deadline from the discovery
    port and from the endpoint's address, whose response some holder of the
    client's key published, in answer to this very request (its client id, key id
    and nonce), naming that control port, with a time within 120 seconds of the
    system clock of that turn; the endpoints are distinct and no more than asked
    for, nor than 32.  The address itself is not authenticated, as it is the
    datagram's sender. *)
Theorem discovered_servers_hold_the_key options request key start turns endpoints
    (published : list DiscoveryMessage) :
  collect_servers bcrypt_hmac options request key start turns = Some (Ok endpoints) ->
  unforged key published turns ->
  endpoints <> [] /\ NoDup endpoints /\ len endpoints <= Z.max 1 (Z.min (co_maximum_endpoints options) 32) /\
  forall endpoint, endpoint ∈ endpoints -> exists turn response tag,
    turn ∈ turns /\ tn_now turn < start + Z.max 100 (Z.min (co_timeout options) 5000) /\
    tn_received turn = Some (encode_response {| response with dr_authenticator := tag |}) /\
    tn_source_port turn = co_discovery_port options /\ tn_address turn = Some (se_address endpoint) /\
    ResponseSent response ∈ published /\ dr_client_id response = dq_client_id request /\
    dr_key_id response = dq_key_id request /\ dr_client_nonce response = dq_client_nonce request /\
    dr_control_port response = se_port endpoint /\ se_port endpoint <> 0 /\
    Z.abs (dr_unix_time_seconds response - tn_unix_now turn) <= 120.
Proof.
  unfold collect_servers. intros H Hu.
  destruct (sweep_servers _ _ _ _ _ _ _ _ turns) as [[[|e0 es]|]|] eqn:Es; try done.
  injection H as <-. apply sweep_servers_ok in Es as (Hn & Hl & Hin);
    [|set_solver|constructor|unfold clamp, len; cbn; lia].
  split_and!; [done..|]. intros e He.
  destruct (Hin e He) as [[]%elem_of_nil|(turn & Ht & Hnow & _ & Ha)].
  apply accept_response_ok in Ha as (r & Hr & Hw & Hport & Haddr & Hp & Hv).
  apply verify_response_ok in Hv as (Hf & Hc & Hk & Hnn & Htm & Hm).
  destruct (Hu turn r Ht Hr Hw Hm) as (m & Hpub & Hty & Em).
  assert (typed_message (ResponseSent r)) as Hty' by (unfold wf_response in Hw; cbn; tauto).
  destruct (response_message_inj r m Hty' Hty (eq_sym Em)) as (r' & -> & E).
  exists turn, r', (dr_authenticator r).
  assert (r = {| r' with dr_authenticator := dr_authenticator r |}) as Er
    by (unfold untagged in E; destruct r, r'; cbn in *; injection E; intros; by subst).
  rewrite <- Er. apply time_is_valid_within in Htm.
  rewrite Er in Hc, Hk, Hnn, Hp, Htm, Hf. unfold valid_response_fields in Hf. cbn in *. bool_to_prop.
  split_and!; congruence || done.
Qed.
End Sweeping.

(** ** What the responder answers *)

Section Answers.
Context (bcrypt_hmac : bytes -> bytes -> option bytes) (bcrypt_sha256 : bytes -> option bytes).
Context (iteration : gmap bytes RateLimiter.Entry -> list (bytes * RateLimiter.Entry)).

Lemma verify_request_ok request key now skew :
  verify_request bcrypt_hmac request key now skew = true <->
  valid_request_fields request = true /\ Auth.kMinimumProtocolKeyBytes <= len key /\
  time_is_valid (dq_unix_time_seconds request) now skew = true /\
  Auth.hmac_sha256 bcrypt_hmac key (request_message request) = Some (dq_authenticator request).
Proof.
  unfold verify_request. destruct (_ || _) eqn:E.
  - split; [done|]. intros (Hv & Hk & Ht & _). rewrite Hv, Ht in E. cbn in E. bool_to_prop. lia.
  - bool_to_prop. destruct (Auth.hmac_sha256 _ _ _) as [expected|]; [|naive_solver].
    rewrite Auth.constant_time_equal_spec. naive_solver.
Qed.

(** Whatever arrives, what the responder sends is either its name and control
    port, for a timely probe while the operator has the window open, or a response
    to a timely request that carries the MAC of a key the store resolves for the
    client it names, and that was not seen before. *)
Theorem responder_answers_only (r r' : Responder) (key_store : option KeyStore.KeyStore)
    (arrival : Arrival) (wire : bytes) :
  respond bcrypt_hmac bcrypt_sha256 iteration r key_store arrival = (r', Some wire) ->
  exists source datagram, ar_source arrival = Some source /\ ar_received arrival = Some datagram /\
  (RateLimiter.allow (rs_rate_limiter r) source (ar_steady_now arrival)).1 = true /\
  ((exists probe, rs_beacon_enabled r = true /\
      decode_pairing_probe bcrypt_sha256 datagram = Some probe /\
      time_is_valid (pp_unix_time_seconds probe) (ar_unix_now arrival) 120 = true /\
      wire = encode_pairing_beacon bcrypt_sha256 (mkPairingBeacon (pp_client_nonce probe)
        (ar_unix_now arrival) (rs_control_port r) (rs_beacon_name r))) \/
   (exists store request key response, key_store = Some store /\
      decode_request datagram = Some request /\
      KeyStore.resolve store (dq_client_id request) (dq_key_id request) = Some key /\
      verify_request bcrypt_hmac request key (ar_unix_now arrival) 120 = true /\
      (Auth.replay_accept (rs_replay_protector r) (replay_identity request) (ar_unix_now arrival)).1
        = true /\
      create_response bcrypt_hmac request (rs_control_port r) (ar_unix_now arrival) key = Some response /\
      wire = encode_response response)).
Proof.
  unfold respond. destruct (ar_inet arrival); cbn [negb]; [|done].
  destruct (ar_source arrival) as [source|]; [|done].
  destruct (RateLimiter.allow _ _ _) as [allowed limiter] eqn:El. cbv zeta.
  destruct allowed; cbn [negb]; [|done].
  destruct (ar_received arrival) as [datagram|]; [|done]. destruct (len datagram =? 0); [done|].
  intros H. exists source, datagram. rewrite El. split_and!; [done..|].
  destruct (is_pairing_datagram datagram).
  - left. unfold answer_pairing_probe in H. destruct (decode_pairing_probe _ _) as [probe|]; [|done].
    cbv zeta in H. destruct (time_is_valid _ _ _) eqn:Et; cbn [negb] in H; [|done].
    cbn [rs_beacon_enabled] in H. destruct (rs_beacon_enabled r) eqn:Eb; cbn [negb] in H; [|done].
    case_bool_decide; [done|]. exists probe. split_and!; try done.
    by destruct (ar_sent arrival); injection H as _ <-.
  - right. destruct (negb (len datagram =? _)); [done|]. unfold answer_request in H.
    destruct (decode_request datagram) as [request|] eqn:Ed; [|done].
    destruct key_store as [store|]; [|done]. cbv zeta in H.
    destruct (KeyStore.resolve _ _ _) as [key|] eqn:Ek; [|done].
    destruct (verify_request _ _ _ _ _) eqn:Ev; cbn [negb] in H; [|done].
    cbn [rs_replay_protector rs_control_port] in H.
    destruct (Auth.replay_accept _ _ _) as [fresh rp] eqn:Er.
    destruct fresh; cbn [negb] in H; [|done].
    destruct (create_response _ _ _ _ _) as [response|] eqn:Ec; [|done].
    destruct (negb (len (encode_response response) =? _)); [done|].
    exists store, request, key, response. rewrite Er. split_and!; try done. by injection H as _ <-.
Qed.

Lemma create_request_ok client_id key_id t key nonce request :
  create_request bcrypt_hmac client_id key_id t key (Some nonce) = Some request ->
  exists tag, request = mkDiscoveryRequest client_id key_id nonce t tag /\ key_id <> 0 /\ t <> 0 /\
    Protocol.any_nonzero client_id = true /\ Auth.kMinimumProtocolKeyBytes <= len key /\
    Auth.hmac_sha256 bcrypt_hmac key (request_message request) = Some tag.
Proof.
  unfold create_request. destruct (_ || _) eqn:E; [done|]. bool_to_prop.
  destruct (Auth.hmac_sha256 _ _ _) as [tag|] eqn:Et; [|done]. intros [= <-].
  exists tag. by split_and!.
Qed.

Lemma hmac_available key m m' tag :
  (forall m, len m <= u32_max -> is_Some (bcrypt_hmac key m)) ->
  Auth.hmac_sha256 bcrypt_hmac key m = Some tag -> len m' <= u32_max ->
  exists tag', Auth.hmac_sha256 bcrypt_hmac key m' = Some tag' /\ bcrypt_hmac key m' = Some tag'.
Proof.
  intros Ha. unfold Auth.hmac_sha256. destruct (_ || _) eqn:E; [done|]. intros _ Hm.
  bool_to_prop. destruct (Ha m' Hm) as [tag' Et]. exists tag'. split; [|done].
  destruct (_ || _) eqn:E'; [|done]. exfalso. apply orb_true_iff in E' as [E'|E']; [|bool_to_prop; lia].
  apply orb_true_iff in E' as [E'|E']; bool_to_prop; lia.
Qed.

(** The documented behaviour of HMAC-SHA-256 under a key: it is available for
    every message of admissible size and gives 32 bytes, which are not all zero
    (the source takes an all-zero tag for a missing one). *)
Record hmac_works (key : bytes) : Prop := {
  hw_size m d : bcrypt_hmac key m = Some d -> length d = 32%nat;
  hw_nonzero m d : bcrypt_hmac key m = Some d -> Protocol.any_nonzero d = true;
  hw_total m : len m <= u32_max -> is_Some (bcrypt_hmac key m)
}.

Lemma hmac_raw key m tag :
  Auth.hmac_sha256 bcrypt_hmac key m = Some tag -> bcrypt_hmac key m = Some tag.
Proof. unfold Auth.hmac_sha256. by destruct (_ || _). Qed.

(** A created request is well-formed, and the response made for it under the same
    key verifies against it. *)
Lemma created_request_answered client_id key_id t key nonce request port now :
  length client_id = 16%nat -> u32 key_id -> u64 t -> length nonce = 32%nat ->
  Protocol.any_nonzero nonce = true -> hmac_works key ->
  create_request bcrypt_hmac client_id key_id t key (Some nonce) = Some request ->
  u16 port -> port <> 0 -> u64 now -> now <> 0 ->
  wf_request request /\ dq_client_id request = client_id /\ dq_key_id request = key_id /\
  (forall at_server skew, time_is_valid t at_server skew = true ->
     verify_request bcrypt_hmac request key at_server skew = true) /\
  exists response, create_response bcrypt_hmac request port now key = Some response /\
    wf_response response /\ dr_control_port response = port /\
    (forall at_client skew, time_is_valid now at_client skew = true ->
       verify_response bcrypt_hmac response request key at_client skew = true).
Proof.
  intros Hc Hk Ht Hn Hz [Hsize Hnz Htotal] Hreq Hp Hp0 Hu Hu0.
  apply create_request_ok in Hreq as (tag & -> & Hk0 & Ht0 & Hcz & Hkey & Hmac).
  pose proof (hmac_raw _ _ _ Hmac) as Hraw. pose proof Hk0 as Hk1. pose proof Ht0 as Ht1.
  apply Z.eqb_neq in Hk1, Ht1, Hp0, Hu0.
  set (request := mkDiscoveryRequest client_id key_id nonce t tag) in *.
  assert (valid_request_fields request = true) as Hv
    by (unfold valid_request_fields; cbn; by rewrite Hcz, Hz, Hk1, Ht1).
  pose (message := response_message (mkDiscoveryResponse client_id key_id nonce now port [])).
  destruct (hmac_available key (request_message request) message tag Htotal Hmac)
    as (tag' & Hmac' & Hraw').
  { unfold message, response_message, authentication_message. autorewrite with wire. cbn.
    rewrite (len_length _ _ Hc), (len_length _ _ Hn). by vm_compute. }
  assert (valid_response_fields (mkDiscoveryResponse client_id key_id nonce now port tag') = true)
    as Hvr by (unfold valid_response_fields; cbn; by rewrite Hcz, Hz, Hk1, Hu0, Hp0).
  split; [unfold wf_request; cbn in *; split_and!; try done; by eauto|].
  split_and!; [done..|intros; by apply verify_request_ok|].
  exists (mkDiscoveryResponse client_id key_id nonce now port tag'). split_and!; try done.
  - unfold create_response. rewrite Hv, Hp0, Hu0.
    destruct (Z.ltb_spec (len key) Auth.kMinimumProtocolKeyBytes); [lia|].
    by unfold message in Hmac'; cbn in Hmac' |- *; rewrite Hmac'.
  - unfold wf_response; cbn in *; split_and!; try done; by eauto.
  - intros at_client skew Hs. unfold message in Hmac'. cbn in Hmac'.
    unfold verify_response. rewrite Hvr. cbn. rewrite Hs, !bool_decide_true, Z.eqb_refl, Hmac' by done.
    destruct (Z.ltb_spec (len key) Auth.kMinimumProtocolKeyBytes); [lia|]. cbn [negb orb].
    by apply Auth.constant_time_equal_spec.
Qed.

(** A request made with a key finds the server that has it: the request the client
    creates passes, for a source that is not blocked and clocks within two
    minutes, the responder's tests, and the response passes the client's. *)
Theorem discovery_exchange_completes client_id key_id t key nonce request r store arrival source
    turn address :
  length client_id = 16%nat -> u32 key_id -> u64 t -> length nonce = 32%nat ->
  Protocol.any_nonzero nonce = true -> hmac_works key ->
  create_request bcrypt_hmac client_id key_id t key (Some nonce) = Some request ->
  u16 (rs_control_port r) -> rs_control_port r <> 0 ->
  ar_inet arrival = true -> ar_source arrival = Some source ->
  (RateLimiter.allow (rs_rate_limiter r) source (ar_steady_now arrival)).1 = true ->
  ar_received arrival = Some (encode_request request) ->
  KeyStore.resolve store client_id key_id = Some key ->
  u64 (ar_unix_now arrival) -> ar_unix_now arrival <> 0 ->
  time_is_valid t (ar_unix_now arrival) 120 = true ->
  (Auth.replay_accept (rs_replay_protector r) (replay_identity request) (ar_unix_now arrival)).1 = true ->
  exists r' wire,
    respond bcrypt_hmac bcrypt_sha256 iteration r (Some store) arrival = (r', Some wire) /\
    (tn_received turn = Some wire -> tn_inet turn = true -> tn_address turn = Some address ->
     time_is_valid (ar_unix_now arrival) (tn_unix_now turn) kMaximumClockSkew = true ->
     accept_response bcrypt_hmac request key (tn_source_port turn) turn =
       Some (mkServerEndpoint address (rs_control_port r))).
Proof.
  intros Hc Hk Ht Hn Hz Hworks Hreq Hp Hp0 Hi Hsrc Hal Hrec Hres Hu Hu0 Htm Hfresh.
  destruct (created_request_answered client_id key_id t key nonce request (rs_control_port r)
    (ar_unix_now arrival)) as (Hw & Ec & Ek & Hver & response & Hcr & Hwr & Eport & Hverr); [done..|].
  destruct (request_shape _ Hw) as [Hlen Hnp]. pose proof (response_shape _ Hwr) as Hlr.
  destruct (RateLimiter.allow _ _ _) as [allowed limiter] eqn:El. cbn in Hal. subst allowed.
  destruct (Auth.replay_accept _ _ _) as [fresh rp] eqn:Er. cbn in Hfresh. subst fresh.
  eexists _, (encode_response response). split.
  - unfold respond. rewrite Hi, Hsrc. cbn [negb]. rewrite El. cbn [negb].
    rewrite Hrec, Hnp, Hlen. cbv zeta. change (kDiscoveryPacketBytes =? 0) with false.
    rewrite Z.eqb_refl. cbn [negb]. unfold answer_request. rewrite request_decodes by done. cbv zeta.
    rewrite Ec, Ek, Hres, Hver by done. cbn [negb rs_replay_protector rs_control_port].
    rewrite Er. cbn [negb]. rewrite Hcr, Hlr, Z.eqb_refl. reflexivity.
  - intros Hr2 Hi2 Ha2 Ht2. unfold accept_response. rewrite Hr2, Hlr, Hi2, !Z.eqb_refl. cbn [negb orb].
    rewrite response_decodes, Hverr, Ha2, Eport by done. done.
Qed.
End Answers.

(** ** Example: one server answers a sweep. *)

Definition sample_key : bytes := repeat (byte_of 7) 32.
Definition sample_nonce : bytes := repeat (byte_of 3) 32.
Definition sample_options : ClientDiscoveryOptions := mkClientDiscoveryOptions 47001 1200 8 [].

Definition sample_request : DiscoveryRequest :=
  mkDiscoveryRequest (repeat (byte_of 1) 16) 1 sample_nonce 1000 sample_key.

Definition sample_response : DiscoveryResponse :=
  mkDiscoveryResponse (repeat (byte_of 1) 16) 1 sample_nonce 1010 47000 sample_key.

Definition sample_turn : Turn :=
  mkTurn 10 select_ready (Some (encode_response sample_response)) true 47001 (Some (text "10.0.0.2")) 1012.

Definition sample_end : Turn := mkTurn 2000 select_timeout None false 0 None 1013.

Lemma sample_response_wf : wf_response sample_response.
Proof. unfold wf_response. split_and!; by vm_compute. Qed.

Lemma discovered_servers_hold_the_key_witness :
  collect_servers Pairing.prefix_hmac sample_options sample_request sample_key 0
    [sample_turn; sample_end] = Some (Ok [mkServerEndpoint (text "10.0.0.2") 47000]) /\
  (exists turn response, turn ∈ [sample_turn; sample_end] /\ tn_now turn < 1200 /\
     ResponseSent response ∈ [ResponseSent sample_response] /\
     dr_client_nonce response = dq_client_nonce sample_request /\
     dr_control_port response = 47000 /\
     Z.abs (dr_unix_time_seconds response - tn_unix_now turn) <= 120).
Proof.
  assert (collect_servers Pairing.prefix_hmac sample_options sample_request sample_key 0
    [sample_turn; sample_end] = Some (Ok [mkServerEndpoint (text "10.0.0.2") 47000])) as Hrun
    by (by vm_compute).
  split; [exact Hrun|].
  destruct (discovered_servers_hold_the_key Pairing.prefix_hmac sample_options sample_request
    sample_key 0 [sample_turn; sample_end] _ [ResponseSent sample_response] Hrun) as (_ & _ & _ & H).
  - intros turn response [->|[->|[]%elem_of_nil]%elem_of_cons]%elem_of_cons Hr Hw Hm; [|done].
    injection Hr as E. exists (ResponseSent sample_response).
    assert (response = sample_response) as ->.
    { pose proof (response_decodes _ Hw) as E1. rewrite <- E in E1.
      rewrite (response_decodes _ sample_response_wf) in E1. by injection E1. }
    split; [left|]. split; [|done]. cbn [typed_message]. split_and!; by vm_compute.
  - destruct (H (mkServerEndpoint (text "10.0.0.2") 47000))
      as (turn & response & tag & H1 & H2 & _ & _ & _ & H3 & _ & _ & H4 & H5 & _ & H6); [left|].
    exists turn, response. split; [exact H1|]. split; [exact H2|]. split; [exact H3|].
    split; [exact H4|]. split; [exact H5|exact H6].
Defined.
End DiscoveryRuns.
