(* ===== verification/ServerState.v ===== *)
(** The state of the server's control plane before and at authentication
    (ServerControlPlane::Impl of server/src/control_plane.cpp), and the calls its
    handlers share.

    Each handler is one step.  The object of a connection outlives its entry in
    [states_] while a handler holds it, so the objects and the entries are kept
    apart; connection ids are never given out twice (iocp_dispatcher.cpp).
    Transport, clocks, the random generator and key storage are Windows calls:
    [Env] lists their outcomes during a step. *)

From S2P Require Import Prelude Wire Protocol Auth KeyStore ControlChannel ClientRegistry Pairing.
From S2P Require Import Enrollment Discovery.

Module ServerState.
Import Protocol Auth ControlChannel.

Definition kMaximumPendingPairings : Z := 16.

(** [std::chrono::seconds kPairingApprovalWindow], in milliseconds. *)
Definition kPairingApprovalWindow : Z := 180000.

Inductive Stage : Set :=
| initial | enrollment | enrollment_complete | probe_complete | pairing_offered | pairing_pending
| auth_hello | auth_proof | authenticated.

#[export] Instance stage_eq_dec : EqDecision Stage.
Proof. solve_decision. Defined.

(** [pairing_settled], which does not live under the connection's mutex, is kept
    in the server's state. *)
Record ConnectionState := mkConnectionState {
  cn_connection_id : Z;
  cn_source : bytes;
  cn_stage : Stage;
  cn_initial_buffer : bytes;
  cn_parser : bytes;
  cn_preamble : ConnectionPreamble;
  cn_hello : AuthHello;
  cn_challenge : AuthChallenge;
  cn_pre_shared_key : bytes;
  cn_session_key : bytes;
  cn_aead_enabled : bool;
  cn_send_key : bytes;
  cn_send_iv_base : bytes;
  cn_receive_key : bytes;
  cn_receive_iv_base : bytes;
  cn_receive_sequence : ControlSequenceGuard;
  cn_send_sequence : Z;
  cn_handshake_request_id : Z;
  cn_pairing_id : Z;
  cn_registry_id : Z
}.

(** The members' initial values. *)
Definition default_preamble : ConnectionPreamble :=
  mkConnectionPreamble kCommandVersion Protocol.role_client 0 kConnectionPreambleBytes 0 0
    (repeat (byte_of 0) 16).

Definition new_connection (id : Z) (source : bytes) : ConnectionState := {|
  cn_connection_id := id;
  cn_source := source;
  cn_stage := initial;
  cn_initial_buffer := [];
  cn_parser := [];
  cn_preamble := default_preamble;
  cn_hello := mkAuthHello (repeat (byte_of 0) 16) (repeat (byte_of 0) 32) 0 0;
  cn_challenge := mkAuthChallenge (repeat (byte_of 0) 32) 0;
  cn_pre_shared_key := [];
  cn_session_key := zero_digest;
  cn_aead_enabled := false;
  cn_send_key := zero_digest;
  cn_send_iv_base := zero_iv;
  cn_receive_key := zero_digest;
  cn_receive_iv_base := zero_iv;
  cn_receive_sequence := guard_reset 0;
  cn_send_sequence := 0;
  cn_handshake_request_id := 0;
  cn_pairing_id := 0;
  cn_registry_id := 0
|}.

Record PendingPairingRecord := mkPendingPairingRecord {
  pr_pairing_id : Z;
  pr_connection_id : Z;
  pr_request_id : Z;
  pr_address : bytes;
  pr_transcript : Pairing.PairingTranscript;
  pr_secrets : Pairing.PairingSecrets;
  pr_expires_at : Z;
  pr_client_confirmed : bool
}.

(** What the handlers tell the outside: the dispatcher, the discovery responder,
    and the handlers of the commands that are modelled elsewhere
    or not at all. *)
Inductive Effect :=
| Sent (id : Z) (wire : bytes)
| Disconnect (id : Z)
| HandshakeFailure (id : Z) (detail : string)
| HandshakeSuccess (id : Z)
| SetBeacon (open : bool) (name : bytes)
| Handed (id : Z) (command : AuthenticatedCommand).

(** [keyring_configured]: the configuration names a keyring file. *)
Record Server := mkServer {
  sv_objects : gmap Z ConnectionState;
  sv_states : gset Z;
  sv_client_connections : gmap Z Z;
  sv_registry : ClientRegistry.registry;
  sv_key_store : KeyStore.KeyStore;
  sv_enrollment_authority : option Enrollment.EnrollmentAuthority;
  sv_replay_protector : ReplayProtector;
  sv_pairing_window_open : bool;
  sv_server_name : bytes;
  sv_pending_pairings : gmap Z PendingPairingRecord;
  sv_next_pairing_id : Z;
  sv_settled : gset Z;
  sv_keyring_configured : bool;
  sv_chat_history : gmap Z (list (bool * bytes));
  sv_next_request_id : Z;
  sv_effects : list Effect
}.

(** The outcomes of the calls a step makes, over the provider's keys [K]: the two
    steady-clock readings, the system clock, sending to a connection, saving the
    keyring, the random nonce, the key pair, the clock and allocation inside the
    registry, what a handler modelled elsewhere returns, and the telemetry enable
    that is due to the client when it has an eligible exam context. *)
Record Env (K : Type) := mkEnv {
  ev_now : Z;
  ev_later : Z;
  ev_unix_now : Z;
  ev_send : Z -> bool;
  ev_save : bytes -> bool;
  ev_random : option bytes;
  ev_generate : Pairing.GenerateCalls K;
  ev_registry_now : Z;
  ev_allocated : bool;
  ev_handled : bool;
  ev_telemetry_enable : option bytes
}.
Arguments mkEnv {K}.
Arguments ev_now {K}. Arguments ev_later {K}. Arguments ev_unix_now {K}. Arguments ev_send {K}.
Arguments ev_save {K}. Arguments ev_random {K}. Arguments ev_generate {K}.
Arguments ev_registry_now {K}. Arguments ev_allocated {K}. Arguments ev_handled {K}.
Arguments ev_telemetry_enable {K}.

(** ** Shared calls *)

Definition emit (s : Server) (e : Effect) : Server := {| s with sv_effects := sv_effects s ++ [e] |}.

Definition fail_handshake (s : Server) (cn : ConnectionState) (detail : string) : Server :=
  emit s (HandshakeFailure (cn_connection_id cn) detail).

(** [dispatcher_.send]. *)
Definition send {K} (env : Env K) (s : Server) (id : Z) (wire : bytes) : bool * Server :=
  if ev_send env id then (true, emit s (Sent id wire)) else (false, s).

Definition plain_frame (type : CommandType) (request_id : Z) (payload : bytes) : bytes :=
  encode_tcp_frame (plain_envelope (command_type_value type) request_id payload) payload.

Definition encode_u32 (value : Z) : bytes := write_le 4 value.

(** FNV-1a over the client id, never zero. *)
Definition registry_id_for (identity : bytes) : Z :=
  let hash :=
    fold_left (fun hash value => wrap64 (Z.lxor hash (byte_val value) * 1099511628211))
      identity 14695981039346656037 in
  if hash =? 0 then 1 else hash.

(** [%08llx] of the low 32 bits. *)
Definition hex_digit (v : Z) : byte := byte_of (if v <? 10 then 48 + v else 87 + v).

Definition fallback_hostname (registry_id : Z) : bytes :=
  text "Client-" ++
  map (fun index => hex_digit (Z.land (Z.shiftr (Z.land registry_id 0xffffffff) (4 * index)) 15))
    [7; 6; 5; 4; 3; 2; 1; 0].

(** [is_live_state_locked] and [is_current_state_locked]. *)
Definition is_live_state (s : Server) (cn : ConnectionState) : bool :=
  bool_decide (cn_connection_id cn ∈ sv_states s).

Definition is_current_state (s : Server) (cn : ConnectionState) : bool :=
  is_live_state s cn && bool_decide (cn_stage cn = authenticated) &&
  negb (cn_registry_id cn =? 0) &&
  (cn_registry_id cn =? registry_id_for (ah_client_id (cn_hello cn))) &&
  bool_decide (sv_client_connections s !! cn_registry_id cn = Some (cn_connection_id cn)).

Definition mutate_current_registry (s : Server) (cn : ConnectionState)
    (mutation : ClientRegistry.registry -> Z -> ClientRegistry.registry * bool) : bool * Server :=
  if negb (is_current_state s cn) then (false, s)
  else
    let '(registry, result) := mutation (sv_registry s) (cn_registry_id cn) in
    (result, {| s with sv_registry := registry |}).

(** The keyring is saved, or the store put back as it was: [save_keyring] under
    [keyring_path], and [replace] with the earlier snapshot. *)
Definition persist_keys {K} (env : Env K) (s : Server) (previous : list KeyStore.KeyRecord)
    : bool * Server :=
  if negb (sv_keyring_configured s) || KeyStore.save_keyring (ev_save env) (sv_key_store s)
  then (true, s)
  else
    let restored :=
      match KeyStore.replace (sv_key_store s) previous with
      | Ok store => store
      | Err _ => sv_key_store s
      end in
    (false, {| s with sv_key_store := restored |}).
End ServerState.
