(* ===== verification/PairingServer.v ===== *)
(** The server's half of verified pairing (server/src/control_plane.cpp): the
    table of pending requests, the operator's calls on it and the handlers of the
    three frames an unenrolled client sends.

    The pending table is an [unordered_map]; where it is walked, the order only
    decides the order of messages to different connections, and the model walks
    it in one order. *)

From S2P Require Import Prelude Wire Protocol Auth KeyStore ControlChannel Pairing Discovery ServerState.

Module PairingServer.
Import Protocol Auth ControlChannel ServerState.

(** ** Pending requests *)

(** [AbandonedPairing]. *)
Record AbandonedPairing := mkAbandonedPairing { ab_connection_id : Z; ab_request_id : Z }.

Definition abandoned_of (record : PendingPairingRecord) : AbandonedPairing :=
  mkAbandonedPairing (pr_connection_id record) (pr_request_id record).

Definition abandoned_all (pending : gmap Z PendingPairingRecord) : list AbandonedPairing :=
  map (fun entry => abandoned_of entry.2) (map_to_list pending).

Definition with_pending (s : Server) (pending : gmap Z PendingPairingRecord) : Server :=
  {| s with sv_pending_pairings := pending |}.

(** Those whose window has passed at [now], and the table without them. *)
Definition is_expired (now : Z) (record : PendingPairingRecord) : bool :=
  negb (pr_expires_at record >? now).

Definition take_expired (s : Server) (now : Z) : list AbandonedPairing * Server :=
  (abandoned_all (filter (fun entry => is_expired now entry.2 = true) (sv_pending_pairings s)),
   with_pending s (filter (fun entry => is_expired now entry.2 = false) (sv_pending_pairings s))).

Definition drop_pending_pairing (s : Server) (pairing_id : Z) : Server :=
  with_pending s (delete pairing_id (sv_pending_pairings s)).

Definition drop_pending_pairings_for (s : Server) (connection_id : Z) : Server :=
  with_pending s
    (filter (fun entry => pr_connection_id entry.2 <> connection_id) (sv_pending_pairings s)).

Definition settle_pairing_connection (s : Server) (connection_id : Z) : Server :=
  if bool_decide (connection_id ∈ sv_states s)
  then {| s with sv_settled := {[connection_id]} ∪ sv_settled s |}
  else s.

Section Handlers.
Context {K : Type} `{Pairing.KeyProvider K}.
Variable bcrypt_hmac : bytes -> bytes -> option bytes.
Variable bcrypt_sha256 : bytes -> option bytes.

Definition send_pairing_reject (env : Env K) (s : Server) (connection_id request_id : Z)
    (reason : Pairing.PairingRejectReason) : Server :=
  let payload := Pairing.encode_pairing_reject reason in
  if bool_decide (payload = []) then s
  else (send env s connection_id (plain_frame CT_pairing_reject request_id payload)).2.

Definition refuse_pairing (env : Env K) (s : Server) (cn : ConnectionState) (request_id : Z)
    (reason : Pairing.PairingRejectReason) (detail : string) : bool * ConnectionState * Server :=
  (false, cn,
   fail_handshake (send_pairing_reject env s (cn_connection_id cn) request_id reason) cn detail).

Fixpoint refuse_abandoned (env : Env K) (s : Server) (abandoned : list AbandonedPairing)
    (reason : Pairing.PairingRejectReason) : Server :=
  match abandoned with
  | [] => s
  | entry :: rest =>
      let s := send_pairing_reject env s (ab_connection_id entry) (ab_request_id entry) reason in
      refuse_abandoned env (settle_pairing_connection s (ab_connection_id entry)) rest reason
  end.

(** ** The operator's calls *)

Definition set_pairing_window (env : Env K) (s : Server) (open : bool) (server_name : bytes) : Server :=
  let effective_name :=
    if bool_decide (sv_server_name s = []) then server_name else sv_server_name s in
  let s := emit s (SetBeacon open effective_name) in
  let s := {| s with sv_pairing_window_open := open |} in
  if open then s
  else
    let abandoned := abandoned_all (sv_pending_pairings s) in
    refuse_abandoned env (with_pending s ∅) abandoned Pairing.unavailable.

Definition set_server_name (s : Server) (name : bytes) : Server :=
  let sanitized := Discovery.sanitize_server_name name in
  let s := {| s with sv_server_name := sanitized |} in
  if sv_pairing_window_open s then emit s (SetBeacon true sanitized) else s.

(** [PendingPairing], what the operator is shown. *)
Record PendingPairing := mkPendingPairing {
  pp_pairing_id : Z;
  pp_client_uuid : bytes;
  pp_hostname : bytes;
  pp_address : bytes;
  pp_short_authentication_string : bytes;
  pp_seconds_remaining : Z
}.

Definition shown_pairing (now : Z) (entry : Z * PendingPairingRecord) : list PendingPairing :=
  let record := entry.2 in
  if negb (pr_client_confirmed record) || (pr_expires_at record <=? now) then []
  else
    [mkPendingPairing entry.1 (Pairing.pt_client_uuid (pr_transcript record))
       (Pairing.pt_client_hostname (pr_transcript record)) (pr_address record)
       (Pairing.ps_short_authentication_string (pr_secrets record))
       (wrap32 ((pr_expires_at record - now) / 1000))].

Definition pairing_order (left right : PendingPairing) : Prop :=
  pp_pairing_id left <= pp_pairing_id right.

#[export] Instance pairing_order_dec : RelDecision pairing_order.
Proof. intros l r. unfold pairing_order. apply _. Defined.

Definition pending_pairings (s : Server) (now : Z) : list PendingPairing :=
  merge_sort pairing_order
    (concat (map (shown_pairing now) (map_to_list (sv_pending_pairings s)))).

(** What is done with the record once it is out of the table. *)
Definition install_pairing (env : Env K) (s : Server) (record : PendingPairingRecord)
    : result unit * Server :=
  match Pairing.client_id_from_uuid bcrypt_sha256 (Pairing.pt_client_uuid (pr_transcript record)) with
  | None => (Err "client UUID is not a usable identity", s)
  | Some client_id =>
      match Pairing.confirmation_tag bcrypt_hmac (pr_secrets record) (pr_transcript record)
              Pairing.role_server with
      | None => (Err "pairing confirmation tag could not be computed", s)
      | Some server_tag =>
          let previous := KeyStore.snapshot (sv_key_store s) in
          match KeyStore.rotate (sv_key_store s) client_id
                  (Pairing.ps_enrolled_key (pr_secrets record)) with
          | Err e => (Err e, s)
          | Ok (key_id, store) =>
              let '(saved, s) := persist_keys env {| s with sv_key_store := store |} previous in
              if negb saved then (Err "paired key could not be persisted", s)
              else
                let payload :=
                  Pairing.encode_pairing_accept (Pairing.mkPairingAccept key_id server_tag) in
                if bool_decide (payload = []) then (Err "pairing acceptance encoding failed", s)
                else
                  let wire := plain_frame CT_pairing_accept (pr_request_id record) payload in
                  let s := settle_pairing_connection s (pr_connection_id record) in
                  let '(sent, s) := send env s (pr_connection_id record) wire in
                  if negb sent
                  then (Err "client disconnected before it could be told the result", s)
                  else (Ok tt, emit s (HandshakeSuccess (pr_connection_id record)))
          end
      end
  end.

Definition approve_pairing (env : Env K) (s : Server) (pairing_id : Z) : result unit * Server :=
  let '(expired, s) := take_expired s (ev_now env) in
  let found :=
    match sv_pending_pairings s !! pairing_id with
    | Some record => if pr_client_confirmed record then Some record else None
    | None => None
    end in
  match found with
  | None =>
      (Err "pairing request is no longer pending",
       refuse_abandoned env s expired Pairing.timed_out)
  | Some record =>
      let s := drop_pending_pairing s pairing_id in
      install_pairing env (refuse_abandoned env s expired Pairing.timed_out) record
  end.

Definition reject_pairing (env : Env K) (s : Server) (pairing_id : Z) : result unit * Server :=
  match sv_pending_pairings s !! pairing_id with
  | None => (Err "pairing request is no longer pending", s)
  | Some record =>
      let s := drop_pending_pairing s pairing_id in
      let s := send_pairing_reject env s (pr_connection_id record) (pr_request_id record)
                 Pairing.operator_declined in
      (Ok tt, settle_pairing_connection s (pr_connection_id record))
  end.

Definition expire_pending_pairings (env : Env K) (s : Server) : Z * Server :=
  let '(expired, s) := take_expired s (ev_now env) in
  (len expired, refuse_abandoned env s expired Pairing.timed_out).

(** ** Frames *)

(** The key exchange of [process_pairing_hello]: the offer, the transcript and the
    secrets, or the reason and text of the refusal. *)
Definition answer_hello (env : Env K) (hello : Pairing.PairingHello)
    : (Pairing.PairingOffer * Pairing.PairingTranscript * Pairing.PairingSecrets) +
      (Pairing.PairingRejectReason * string) :=
  match Pairing.generate (ev_generate env) with
  | Err _ => inr (Pairing.protocol_error, "pairing key agreement is unavailable"%string)
  | Ok key_pair =>
      if negb (Pairing.pair_agreement key_pair =? Pairing.ph_agreement hello)
      then inr (Pairing.protocol_error, "pairing key agreement is unavailable"%string)
      else
        match ev_random env with
        | None => inr (Pairing.unspecified, "pairing nonce generation failed"%string)
        | Some server_nonce =>
            let offer := Pairing.mkPairingOffer Pairing.kPairingVersion
              (Pairing.pair_agreement key_pair) (Pairing.public_key key_pair) server_nonce in
            match Pairing.make_transcript hello offer with
            | None => inr (Pairing.protocol_error, "pairing transcript is malformed"%string)
            | Some transcript =>
                match Pairing.agree key_pair (Pairing.ph_client_public_key hello) with
                | Err _ => inr (Pairing.protocol_error, "pairing key agreement rejected the peer key"%string)
                | Ok shared =>
                    match Pairing.derive_pairing_secrets bcrypt_hmac bcrypt_sha256 shared transcript with
                    | None => inr (Pairing.unspecified, "pairing key derivation failed"%string)
                    | Some secrets => inl (offer, transcript, secrets)
                    end
                end
            end
        end
  end.

(** The admission under the pairing mutex: the new id, or the text of the refusal. *)
Definition admit_pairing (env : Env K) (s : Server) (cn : ConnectionState) (request_id : Z)
    (transcript : Pairing.PairingTranscript) (secrets : Pairing.PairingSecrets) : result Z * Server :=
  if negb (sv_pairing_window_open s) then (Err "pairing window is closed", s)
  else if Z.of_nat (size (sv_pending_pairings s)) >=? kMaximumPendingPairings
  then (Err "too many pairing requests are pending", s)
  else
    let pairing_id := sv_next_pairing_id s in
    let record := mkPendingPairingRecord pairing_id (cn_connection_id cn) request_id (cn_source cn)
      transcript secrets (ev_later env + kPairingApprovalWindow) false in
    (Ok pairing_id,
     {| s with sv_next_pairing_id := wrap64 (pairing_id + 1);
               sv_pending_pairings :=
                 match sv_pending_pairings s !! pairing_id with
                 | Some _ => sv_pending_pairings s
                 | None => <[pairing_id := record]> (sv_pending_pairings s)
                 end |}).

Definition process_pairing_hello (env : Env K) (s : Server) (cn : ConnectionState) (frame : TcpFrame)
    : bool * ConnectionState * Server :=
  let request_id := ce_request_id (tf_envelope frame) in
  match Pairing.decode_pairing_hello (tf_payload frame) with
  | None => refuse_pairing env s cn request_id Pairing.protocol_error "invalid pairing hello"
  | Some hello =>
      match answer_hello env hello with
      | inr (reason, detail) => refuse_pairing env s cn request_id reason detail
      | inl (offer, transcript, secrets) =>
          let offer_payload := Pairing.encode_pairing_offer offer in
          if bool_decide (offer_payload = [])
          then (false, cn, fail_handshake s cn "pairing offer encoding failed")
          else
            let '(expired, s) := take_expired s (ev_now env) in
            let '(admitted, s) := admit_pairing env s cn request_id transcript secrets in
            let s := refuse_abandoned env s expired Pairing.timed_out in
            match admitted with
            | Err refusal => refuse_pairing env s cn request_id Pairing.unavailable refusal
            | Ok pairing_id =>
                let wire := plain_frame CT_pairing_offer request_id offer_payload in
                let '(sent, s) := send env s (cn_connection_id cn) wire in
                if negb sent then (false, cn, drop_pending_pairing s pairing_id)
                else
                  (true,
                   {| cn with cn_pairing_id := pairing_id;
                              cn_handshake_request_id := request_id;
                              cn_stage := pairing_offered |}, s)
            end
      end
  end.

Definition answer_pairing_heartbeat (env : Env K) (s : Server) (cn : ConnectionState)
    (frame : TcpFrame) : bool * ConnectionState * Server :=
  if negb (bool_decide (tf_payload frame = []))
  then (false, cn, fail_handshake s cn "invalid pairing heartbeat")
  else
    let wire := plain_frame CT_heartbeat (ce_request_id (tf_envelope frame)) [] in
    let '(sent, s) := send env s (cn_connection_id cn) wire in
    (sent, cn, s).

(** The client's tag against the pending record. *)
Definition confirm_verified (record : PendingPairingRecord) (payload : bytes) : bool :=
  match Pairing.decode_pairing_confirm payload with
  | None => false
  | Some confirm =>
      Pairing.verify_confirmation_tag bcrypt_hmac (pr_secrets record) (pr_transcript record)
        Pairing.role_client (Pairing.pc_client_tag confirm)
  end.

Definition process_pairing_confirm (env : Env K) (s : Server) (cn : ConnectionState)
    (frame : TcpFrame) : bool * ConnectionState * Server :=
  let envelope := tf_envelope frame in
  if ce_type envelope =? command_type_value CT_heartbeat then answer_pairing_heartbeat env s cn frame
  else if negb (ce_type envelope =? command_type_value CT_pairing_confirm) ||
          negb (ce_request_id envelope =? cn_handshake_request_id cn)
  then (false, cn, fail_handshake s cn "expected pairing confirmation")
  else
    match sv_pending_pairings s !! cn_pairing_id cn with
    | None => (false, cn, fail_handshake s cn "pairing request is no longer pending")
    | Some record =>
        if confirm_verified record (tf_payload frame)
        then
          let record := {| record with pr_client_confirmed := true;
                                       pr_expires_at := ev_now env + kPairingApprovalWindow |} in
          (true, {| cn with cn_stage := pairing_pending |},
           with_pending s (<[cn_pairing_id cn := record]> (sv_pending_pairings s)))
        else
          refuse_pairing env (drop_pending_pairing s (cn_pairing_id cn)) cn
            (ce_request_id envelope) Pairing.confirmation_failed
            "pairing confirmation did not verify"
    end.

Definition process_pairing_wait (env : Env K) (s : Server) (cn : ConnectionState) (frame : TcpFrame)
    : bool * ConnectionState * Server :=
  if bool_decide (cn_connection_id cn ∈ sv_settled s)
  then (false, cn, emit s (Disconnect (cn_connection_id cn)))
  else if negb (ce_type (tf_envelope frame) =? command_type_value CT_heartbeat)
  then (false, cn, fail_handshake s cn "unexpected frame while pairing is pending")
  else answer_pairing_heartbeat env s cn frame.
End Handlers.
End PairingServer.
