(* ===== verification/ServerConnection.v ===== *)
(** The server's side of a connection (server/src/control_plane.cpp): from the
    first bytes, through enrollment, pairing or the mutual handshake, to the
    commands of an authenticated client.

    Received bytes reach [on_bytes] while the connection is in [states_]; a thread
    that looked its object up may also run the rest ([on_bytes_body]) after the
    connection has been removed.  Commands of exams, telemetry and audit are handed
    to their own handlers (see Delivery and AuditLog). *)

From S2P Require Import Prelude Wire Protocol Auth KeyStore ControlChannel ControlMessages.
From S2P Require Import ClientRegistry Pairing Enrollment ServerState PairingServer.

Module ServerConnection.
Import Protocol Auth ControlChannel ServerState PairingServer.

Definition kMaxChatEntries : Z := 200.
Definition kMaximumChatBytes : Z := 4096.

(** ** Enrollment and the handshake *)

Section Handlers.
Context {K : Type} `{Pairing.KeyProvider K} {GCM : AesGcm}.
Variable bcrypt_hmac : bytes -> bytes -> option bytes.
Variable bcrypt_sha256 : bytes -> option bytes.

Definition process_enrollment (env : Env K) (s : Server) (cn : ConnectionState) (frame : TcpFrame)
    : bool * ConnectionState * Server :=
  match sv_enrollment_authority s with
  | None => (false, cn, fail_handshake s cn "enrollment is disabled or malformed")
  | Some authority =>
      if negb (ce_type (tf_envelope frame) =? command_type_value CT_enrollment_request)
      then (false, cn, fail_handshake s cn "enrollment is disabled or malformed")
      else
        match Enrollment.decode_enrollment_request (tf_payload frame) with
        | None => (false, cn, fail_handshake s cn "invalid enrollment payload")
        | Some request =>
            let previous := KeyStore.snapshot (sv_key_store s) in
            let '(accepted, authority) :=
              Enrollment.authority_accept bcrypt_hmac authority request (ev_unix_now env)
                (sv_key_store s) in
            let s := {| s with sv_enrollment_authority := Some authority |} in
            match accepted with
            | Err enrollment_error => (false, cn, fail_handshake s cn enrollment_error)
            | Ok store =>
                let '(saved, s) := persist_keys env {| s with sv_key_store := store |} previous in
                if negb saved
                then (false, cn, fail_handshake s cn "enrolled key could not be persisted")
                else
                  let response := encode_u32 (Enrollment.er_key_id request) in
                  let wire := plain_frame CT_enrollment_accept (ce_request_id (tf_envelope frame))
                    response in
                  let '(sent, s) := send env s (cn_connection_id cn) wire in
                  if negb sent then (false, cn, s)
                  else
                    (true, {| cn with cn_stage := enrollment_complete |},
                     emit s (HandshakeSuccess (cn_connection_id cn)))
            end
        end
  end.

Definition server_preamble (flags : Z) : ConnectionPreamble :=
  {| default_preamble with cp_role := Protocol.role_server; cp_flags := flags |}.

(** What an accepted hello, a drawn nonce and a sent challenge leave in the
    connection. *)
Definition with_hello (cn : ConnectionState) (hello : AuthHello) (key : bytes) (now : Z)
    : ConnectionState :=
  {| cn with cn_hello := hello; cn_pre_shared_key := key;
             cn_challenge := mkAuthChallenge (ac_server_nonce (cn_challenge cn)) now |}.

Definition with_challenge (cn : ConnectionState) (server_nonce : bytes) (aead : bool)
    : ConnectionState :=
  {| cn with cn_challenge :=
               mkAuthChallenge server_nonce (ac_unix_time_seconds (cn_challenge cn));
             cn_aead_enabled := aead || cn_aead_enabled cn |}.

Definition awaiting_proof (cn : ConnectionState) (request_id : Z) : ConnectionState :=
  {| cn with cn_handshake_request_id := request_id; cn_stage := auth_proof |}.

Definition process_auth_hello (env : Env K) (s : Server) (cn : ConnectionState) (frame : TcpFrame)
    : bool * ConnectionState * Server :=
  if negb (ce_type (tf_envelope frame) =? command_type_value CT_auth_hello)
  then (false, cn, fail_handshake s cn "expected authentication hello")
  else
    match decode_auth_hello (tf_payload frame) with
    | None => (false, cn, fail_handshake s cn "authentication identity mismatch")
    | Some hello =>
        if negb (validate_auth_hello hello) ||
           negb (bool_decide (ah_client_id hello = cp_identity (cn_preamble cn))) ||
           negb (ah_key_id hello =? cp_key_id (cn_preamble cn))
        then (false, cn, fail_handshake s cn "authentication identity mismatch")
        else
          match KeyStore.resolve (sv_key_store s) (ah_client_id hello) (ah_key_id hello) with
          | None => (false, cn, fail_handshake s cn "unknown or revoked client key")
          | Some key =>
              let cn := with_hello cn hello key (ev_unix_now env) in
              match ev_random env with
              | None => (false, cn, fail_handshake s cn "challenge generation failed")
              | Some server_nonce =>
                  let aead := negb (Z.land (cp_flags (cn_preamble cn)) kPreambleFlagAead =? 0) in
                  let flags := if aead then Z.lor 0 kPreambleFlagAead else 0 in
                  let cn := with_challenge cn server_nonce aead in
                  let request_id := ce_request_id (tf_envelope frame) in
                  let wire := encode_connection_preamble (server_preamble flags) ++
                    plain_frame CT_auth_challenge request_id (encode_auth_challenge (cn_challenge cn)) in
                  let '(sent, s) := send env s (cn_connection_id cn) wire in
                  if negb sent then (false, cn, s) else (true, awaiting_proof cn request_id, s)
              end
          end
    end.

(** [send_authenticated_locked]. *)
Definition send_authenticated (env : Env K) (s : Server) (cn : ConnectionState) (type : CommandType)
    (request_id : Z) (payload : bytes) : bool * ConnectionState * Server :=
  if negb (bool_decide (cn_stage cn = authenticated)) || (cn_send_sequence cn =? u64_max) ||
     (len payload >? kMaxCommandPayload)
  then (false, cn, s)
  else
    let envelope := plain_envelope (command_type_value type) request_id payload in
    let wire :=
      if cn_aead_enabled cn
      then encode_authenticated_command_aead (cn_send_key cn) (cn_send_iv_base cn) envelope
             (cn_send_sequence cn) payload
      else encode_authenticated_command bcrypt_hmac (cn_session_key cn) envelope
             (cn_send_sequence cn) payload in
    if bool_decide (wire = []) then (false, cn, s)
    else
      let '(sent, s) := send env s (cn_connection_id cn) wire in
      if negb sent then (false, cn, s)
      else (true, {| cn with cn_send_sequence := cn_send_sequence cn + 1 |}, s).

(** [next_request_id_.fetch_add(1)]. *)
Definition take_request_id (s : Server) : Z * Server :=
  (sv_next_request_id s,
   {| s with sv_next_request_id := wrap64 (sv_next_request_id s + 1) |}).

(** [send_telemetry_enable_locked] for an eligible context; the audit event of a
    failure is not modelled. *)
Definition send_telemetry_enable (env : Env K) (s : Server) (cn : ConnectionState)
    : ConnectionState * Server :=
  match ev_telemetry_enable env with
  | None => (cn, s)
  | Some payload =>
      let '(request_id, s) := take_request_id s in
      let '(_, cn, s) :=
        send_authenticated env s cn CT_exam_telemetry_enable request_id payload in
      (cn, s)
  end.

(** The keys of an AEAD session: the server sends on the server-to-client side. *)
Definition install_keys (cn : ConnectionState) : option ConnectionState :=
  if negb (cn_aead_enabled cn) then Some cn
  else
    match derive_aead_session_keys bcrypt_hmac (cn_session_key cn) with
    | None => None
    | Some keys =>
        Some {| cn with cn_send_key := server_to_client_key keys;
                        cn_send_iv_base := server_to_client_iv keys;
                        cn_receive_key := client_to_server_key keys;
                        cn_receive_iv_base := client_to_server_iv keys |}
    end.

(** [ClientRecord record;] with the fields a handler sets. *)
Definition delivery_multicast : Z := 0.

Definition default_record (id : Z) (hostname address : bytes) (status : ClientRegistry.ClientStatus)
    (delivery last_seen : Z) : ClientRegistry.ClientRecord :=
  ClientRegistry.mkClientRecord id hostname address status delivery 0 0 0 false false false false
    ClientRegistry.initial_uwf 0 0 0 0 0 0 None 0 0 last_seen false [] 0 [] 0 [] false.

(** The publication under the ownership mutex: the server, and the connection the
    client had before, 0 for none. *)
Definition publish (env : Env K) (s : Server) (cn : ConnectionState) (registry_id : Z)
    : option (Z * ConnectionState * Server) :=
  if negb (is_live_state s cn) then None
  else
    let previous_connection := default 0 (sv_client_connections s !! registry_id) in
    let cn := {| cn with cn_registry_id := registry_id; cn_stage := authenticated |} in
    let record := default_record registry_id (fallback_hostname registry_id) (cn_source cn)
      ClientRegistry.online delivery_multicast (ev_now env) in
    let registry :=
      (ClientRegistry.demote_uwf_verification (sv_registry s) registry_id (ev_registry_now env)).1 in
    Some (previous_connection, cn,
      {| s with sv_client_connections :=
                  <[registry_id := cn_connection_id cn]> (sv_client_connections s);
                sv_registry := ClientRegistry.upsert registry record |}).

Definition process_auth_proof (env : Env K) (s : Server) (cn : ConnectionState) (frame : TcpFrame)
    : bool * ConnectionState * Server :=
  let envelope := tf_envelope frame in
  if negb (ce_type envelope =? command_type_value CT_auth_proof) ||
     negb (ce_request_id envelope =? cn_handshake_request_id cn) ||
     negb (len (tf_payload frame) =? 32)
  then (false, cn, fail_handshake s cn "unexpected authentication proof")
  else
    let matches :=
      match compute_client_proof bcrypt_hmac (cn_pre_shared_key cn) (cn_hello cn) (cn_challenge cn) with
      | Some expected => constant_time_equal expected (tf_payload frame)
      | None => false
      end in
    let '(fresh, replay_protector) :=
      if matches then replay_accept (sv_replay_protector s) (cn_hello cn) (ev_unix_now env)
      else (false, sv_replay_protector s) in
    let s := {| s with sv_replay_protector := replay_protector |} in
    if negb fresh
    then (false, cn, fail_handshake s cn "authentication proof or replay rejected")
    else
      let session_key :=
        derive_session_key bcrypt_hmac (cn_pre_shared_key cn) (cn_hello cn) (cn_challenge cn) in
      let cn := {| cn with cn_pre_shared_key := [] |} in
      match session_key with
      | None => (false, cn, fail_handshake s cn "session key derivation failed")
      | Some session_key =>
          match compute_server_proof bcrypt_hmac session_key (cn_hello cn) (cn_challenge cn) with
          | None => (false, cn, fail_handshake s cn "server proof generation failed")
          | Some server_proof =>
              let wire := plain_frame CT_auth_accept (cn_handshake_request_id cn) server_proof in
              let '(sent, s) := send env s (cn_connection_id cn) wire in
              if negb sent then (false, cn, s)
              else
                let cn := {| cn with cn_session_key := session_key |} in
                match install_keys cn with
                | None => (false, cn, fail_handshake s cn "AEAD session key derivation failed")
                | Some cn =>
                    let cn := {| cn with cn_receive_sequence := guard_reset 0; cn_send_sequence := 0 |} in
                    let registry_id := registry_id_for (ah_client_id (cn_hello cn)) in
                    match publish env s cn registry_id with
                    | None => (false, cn, s)
                    | Some (previous_connection, cn, s) =>
                        let s := emit s (HandshakeSuccess (cn_connection_id cn)) in
                        let s :=
                          if negb (previous_connection =? 0) &&
                             negb (previous_connection =? cn_connection_id cn)
                          then emit s (Disconnect previous_connection) else s in
                        let '(cn, s) := send_telemetry_enable env s cn in
                        (true, cn, s)
                    end
                end
          end
      end.

(** ** Commands of an authenticated client *)

Definition drop_connection (s : Server) (cn : ConnectionState) : bool * ConnectionState * Server :=
  (false, cn, emit s (Disconnect (cn_connection_id cn))).

(** A report that must decode and must come from the client's current
    connection. *)
Definition required_report {A} (s : Server) (cn : ConnectionState) (report : option A)
    (mutation : A -> ClientRegistry.registry -> Z -> ClientRegistry.registry * bool)
    : bool * ConnectionState * Server :=
  match report with
  | None => drop_connection s cn
  | Some report =>
      let '(ok, s) := mutate_current_registry s cn (mutation report) in
      if negb ok then drop_connection s cn else (true, cn, s)
  end.

Definition status_record (cn : ConnectionState) (report : ControlMessages.ClientStatusReport)
    (now id : Z) : ClientRegistry.ClientRecord :=
  let record := default_record id (ControlMessages.cs_hostname report) (cn_source cn)
    (if ControlMessages.cs_locked report then ClientRegistry.locked else ClientRegistry.online)
    (ControlMessages.cs_delivery report) now in
  {| record with
     ClientRegistry.cr_latency_ms := ControlMessages.cs_latency_ms report;
     ClientRegistry.cr_packet_loss_per_mille := ControlMessages.cs_packet_loss_per_mille report;
     ClientRegistry.cr_packet_loss_sample_size := ControlMessages.cs_packet_loss_sample_size report;
     ClientRegistry.cr_streaming := ControlMessages.cs_streaming report;
     ClientRegistry.cr_snapshotting := ControlMessages.cs_snapshotting report;
     ClientRegistry.cr_viewing_broadcast := ControlMessages.cs_viewing_broadcast report;
     ClientRegistry.cr_frames_per_second := ControlMessages.cs_frames_per_second report;
     ClientRegistry.cr_snapshot_interval_seconds :=
       ControlMessages.cs_snapshot_interval_seconds report |}.

Definition record_chat (s : Server) (id : Z) (from_teacher : bool) (line : bytes) : Server :=
  if bool_decide (line = []) then s
  else
    let log := default [] (sv_chat_history s !! id) ++ [(from_teacher, line)] in
    let log := drop (Z.to_nat (len log - kMaxChatEntries)) log in
    {| s with sv_chat_history := <[id := log]> (sv_chat_history s) |}.

Definition is_handed (type : Z) : bool :=
  (type =? command_type_value CT_exam_answer_event) ||
  (type =? command_type_value CT_exam_state_request) ||
  (type =? command_type_value CT_exam_ready) ||
  (type =? command_type_value CT_exam_telemetry_batch).

Definition dispatch_command (env : Env K) (s : Server) (cn : ConnectionState)
    (command : AuthenticatedCommand) : bool * ConnectionState * Server :=
  let type := ce_type (cmd_envelope command) in
  let payload := cmd_payload command in
  let now := ev_registry_now env in
  let has t := type =? command_type_value t in
  let handed := (ev_handled env, cn, emit s (Handed (cn_connection_id cn) command)) in
  if is_handed type then handed
  else if has CT_heartbeat then
    (true, cn, (mutate_current_registry s cn (fun r id => ClientRegistry.touch r id now)).2)
  else if has CT_uwf_report then
    required_report s cn (ControlMessages.decode_uwf_configure_report payload)
      (fun report r id => ClientRegistry.set_uwf_report r id report now)
  else if has CT_uwf_fleet_status then
    required_report s cn (ControlMessages.decode_uwf_fleet_status_report payload)
      (fun report r id => ClientRegistry.set_uwf_fleet_status r id report now)
  else if has CT_audit_upload then handed
  else if has CT_freeze_report then
    required_report s cn (ControlMessages.decode_freeze_state payload)
      (fun frozen r id => ClientRegistry.set_frozen r id frozen now)
  else if has CT_help_request then
    required_report s cn (ControlMessages.decode_help_request payload)
      (fun help r id => ClientRegistry.set_help_request r id (ControlMessages.hr_active help)
         (ControlMessages.hr_message help) (ControlMessages.hr_timestamp help) now)
  else if has CT_wol_report then
    required_report s cn (ControlMessages.decode_wol_report payload)
      (fun wol r id => ClientRegistry.set_wol_report r id (ControlMessages.wr_mac wol)
         (ControlMessages.wr_support wol) now)
  else if has CT_fleet_metadata then
    required_report s cn (ControlMessages.decode_fleet_metadata payload)
      (fun metadata r id => ClientRegistry.set_fleet_metadata r id
         (ControlMessages.fm_client_version metadata) (ControlMessages.fm_agent_connected metadata) now)
  else if has CT_status_report || has CT_hello then
    match ControlMessages.decode_status_report payload with
    | None => drop_connection s cn
    | Some report =>
        (true, cn, (mutate_current_registry s cn
          (fun r id => (ClientRegistry.upsert r (status_record cn report (ev_now env) id), true))).2)
    end
  else if has CT_snapshot_frame then
    required_report s cn (ControlMessages.decode_snapshot_frame payload)
      (fun snapshot r id => ClientRegistry.update_snapshot r id snapshot (ev_allocated env) now)
  else if has CT_client_chat then
    (true, cn,
     if negb (bool_decide (payload = [])) && (len payload <=? kMaximumChatBytes)
     then record_chat s (cn_registry_id cn) false payload else s)
  else (true, cn, s).

Definition process_authenticated (env : Env K) (s : Server) (cn : ConnectionState) (frame : TcpFrame)
    : bool * ConnectionState * Server :=
  let command :=
    if cn_aead_enabled cn
    then decode_authenticated_command_aead (cn_receive_key cn) (cn_receive_iv_base cn) frame
    else decode_authenticated_command bcrypt_hmac (cn_session_key cn) frame in
  match command with
  | Err _ => drop_connection s cn
  | Ok command =>
      let '(in_order, receive_sequence) := guard_accept (cn_receive_sequence cn) (cmd_sequence command) in
      let cn := {| cn with cn_receive_sequence := receive_sequence |} in
      if negb in_order then drop_connection s cn
      else dispatch_command env s cn command
  end.

(** ** Frames and bytes *)

Definition process_frame (env : Env K) (s : Server) (cn : ConnectionState) (frame : TcpFrame)
    : bool * ConnectionState * Server :=
  match cn_stage cn with
  | enrollment =>
      if ce_type (tf_envelope frame) =? command_type_value CT_pairing_hello
      then process_pairing_hello bcrypt_hmac bcrypt_sha256 env s cn frame
      else process_enrollment env s cn frame
  | pairing_offered => process_pairing_confirm bcrypt_hmac env s cn frame
  | pairing_pending => process_pairing_wait env s cn frame
  | enrollment_complete | probe_complete => drop_connection s cn
  | auth_hello => process_auth_hello env s cn frame
  | auth_proof => process_auth_proof env s cn frame
  | authenticated => process_authenticated env s cn frame
  | initial => (false, cn, fail_handshake s cn "unexpected control-plane state")
  end.

(** The loop over the frames of one read; each frame has its own outcomes. *)
Fixpoint process_frames (env : nat -> Env K) (s : Server) (cn : ConnectionState)
    (frames : list TcpFrame) : ConnectionState * Server :=
  match frames with
  | [] => (cn, s)
  | frame :: rest =>
      let '(continue, cn, s) := process_frame (env O) s cn frame in
      if negb continue then (cn, s) else process_frames (fun n => env (S n)) s cn rest
  end.

(** The start of a connection: what it decides from the buffered bytes, and the
    bytes left for the parser, [None] for an early return. *)
Definition process_initial (env : Env K) (s : Server) (cn : ConnectionState) (input : bytes)
    : option bytes * ConnectionState * Server :=
  let buffer := cn_initial_buffer cn ++ input in
  let cn := {| cn with cn_initial_buffer := buffer |} in
  if len buffer <? 4 then (None, cn, s)
  else if le_value 0 (take 4 buffer) =? kMagic then
    if len buffer <? kConnectionPreambleBytes then (None, cn, s)
    else
      match decode_connection_preamble (take (Z.to_nat kConnectionPreambleBytes) buffer) with
      | None => (None, cn, fail_handshake s cn "invalid client preamble")
      | Some preamble =>
          if cp_role preamble =? role_diagnostic then
            let probe_response := encode_connection_preamble (server_preamble 0) in
            let '(sent, s) :=
              if bool_decide (probe_response = []) then (false, s)
              else send env s (cn_connection_id cn) probe_response in
            if negb sent
            then (None, cn, fail_handshake s cn "diagnostic response could not be sent")
            else (None, {| cn with cn_initial_buffer := []; cn_stage := probe_complete |}, s)
          else if negb (cp_role preamble =? Protocol.role_client)
          then (None, cn, fail_handshake s cn "invalid client preamble")
          else
            (Some (drop (Z.to_nat kConnectionPreambleBytes) buffer),
             {| cn with cn_preamble := preamble; cn_stage := auth_hello;
                        cn_initial_buffer := [] |}, s)
      end
  else (Some buffer, {| cn with cn_stage := enrollment; cn_initial_buffer := [] |}, s).

(** [on_bytes] after the connection's object has been looked up and locked. *)
Definition on_bytes_body (env : nat -> Env K) (s : Server) (cn : ConnectionState) (input : bytes)
    : ConnectionState * Server :=
  let '(input, cn, s) :=
    if bool_decide (cn_stage cn = initial) then process_initial (env O) s cn input
    else (Some input, cn, s) in
  match input with
  | None => (cn, s)
  | Some input =>
      if bool_decide (input = []) then (cn, s)
      else
        match feed (cn_parser cn) input [] with
        | Some (true, buffer, frames) =>
            process_frames (fun n => env (S n)) s {| cn with cn_parser := buffer |} frames
        | Some (false, buffer, _) =>
            let cn := {| cn with cn_parser := buffer |} in
            (cn, fail_handshake s cn "invalid control framing")
        | None => (cn, s)
        end
  end.

(** ** The operator's commands *)

(** [state_for_client]: the live object of the client's current connection. *)
Definition state_for_client (s : Server) (client_id : Z) : option ConnectionState :=
  match sv_client_connections s !! client_id with
  | None => None
  | Some id => if bool_decide (id ∈ sv_states s) then sv_objects s !! id else None
  end.

Definition store_object (s : Server) (cn : ConnectionState) : Server :=
  {| s with sv_objects := <[cn_connection_id cn := cn]> (sv_objects s) |}.

(** [send_command] for every command but exam start and stop, which have entry
    points of their own. *)
Definition send_command (env : Env K) (s : Server) (client_id : Z) (type : CommandType)
    (payload : bytes) : bool * Server :=
  match state_for_client s client_id with
  | None => (false, s)
  | Some cn =>
      if negb (bool_decide (cn_stage cn = authenticated)) || (cn_send_sequence cn =? u64_max)
      then (false, s)
      else
        let '(request_id, s) := take_request_id s in
        let '(sent, cn, s) := send_authenticated env s cn type request_id payload in
        (sent, store_object s cn)
  end.

(** One recipient of a broadcast. *)
Definition broadcast_to (env : Env K) (type : CommandType) (payload : bytes) (acc : bool * Server)
    (id : Z) : bool * Server :=
  let '(succeeded, s) := acc in
  match sv_objects s !! id with
  | None => (succeeded, s)
  | Some cn =>
      if negb (bool_decide (cn_stage cn = authenticated)) || (cn_send_sequence cn =? u64_max)
      then (false, s)
      else
        let '(request_id, s) := take_request_id s in
        let '(sent, cn, s) := send_authenticated env s cn type request_id payload in
        (succeeded && sent, store_object s cn)
  end.

(** The recipients are collected first, in the order of the hash map: one order
    stands for all, as the connections are different. *)
Definition broadcast_command (env : Env K) (s : Server) (type : CommandType) (payload : bytes)
    : bool * Server :=
  let recipients :=
    List.filter (fun id => bool_decide (id ∈ sv_states s))
      (map snd (map_to_list (sv_client_connections s))) in
  if bool_decide (recipients = []) then (false, s)
  else fold_left (broadcast_to env type payload) recipients (true, s).

(** [send_chat]: the command, then the line in the log. *)
Definition send_chat (env : Env K) (s : Server) (client_id : Z) (message : bytes) : bool * Server :=
  if bool_decide (message = []) || (len message >? kMaximumChatBytes) then (false, s)
  else
    let '(sent, s) := send_command env s client_id CT_chat message in
    if negb sent then (false, s) else (true, record_chat s client_id true message).
End Handlers.
End ServerConnection.
