(* ===== verification/ServerRuns.v ===== *)
(** Runs of the server's control plane (server/src/control_plane.cpp): the
    callbacks of the dispatcher and the operator's calls as operations on one
    state, and what holds in every state a run reaches.

    Handlers lock the connection they work on and take the state's mutexes for
    moments only; an operation here is one call, and a call that outlives the
    removal of its connection is [BytesResumed]. *)

From S2P Require Import Prelude Wire Codec Protocol Auth KeyStore ControlChannel ControlMessages.
From S2P Require Import Handshake ClientRegistry Pairing Enrollment ServerState PairingServer.
From S2P Require Import ServerConnection.

Module ServerRuns.
Import Protocol Auth ControlChannel ServerState PairingServer ServerConnection.

(** ** Callbacks and operations *)

(** The dispatcher's [on_connected]; it never gives an id out twice. *)
Definition on_connected (s : Server) (id : Z) (source : bytes) : Server :=
  match sv_objects s !! id with
  | Some _ => s
  | None =>
      {| s with sv_objects := <[id := new_connection id source]> (sv_objects s);
                sv_states := {[id]} ∪ sv_states s |}
  end.

(** Giving up the client a removed connection stood for, if it still does. *)
Definition release_client (s : Server) (id registry_id now : Z) : Server :=
  if bool_decide (registry_id <> 0 /\ sv_client_connections s !! registry_id = Some id) then
    let registry := (ClientRegistry.set_status (sv_registry s) registry_id ClientRegistry.offline).1 in
    {| s with sv_client_connections := delete registry_id (sv_client_connections s);
              sv_registry := (ClientRegistry.demote_uwf_verification registry registry_id now).1 |}
  else s.

Definition on_disconnected (s : Server) (id now : Z) : Server :=
  if bool_decide (id ∈ sv_states s) then
    let registry_id := match sv_objects s !! id with Some cn => cn_registry_id cn | None => 0 end in
    let s := {| s with sv_states := sv_states s ∖ {[id]} |} in
    drop_pending_pairings_for (release_client s id registry_id now) id
  else s.

Inductive Operation (K : Type) :=
| Connected (id : Z) (source : bytes)
| BytesReceived (id : Z) (input : bytes) (env : nat -> Env K)
| BytesResumed (id : Z) (input : bytes) (env : nat -> Env K)
| Disconnected (id now : Z)
| PairingWindow (open : bool) (name : bytes) (env : Env K)
| RoomName (name : bytes)
| Approved (pairing_id : Z) (env : Env K)
| Rejected (pairing_id : Z) (env : Env K)
| PairingsExpired (env : Env K)
| CommandSent (client_id : Z) (type : CommandType) (payload : bytes) (env : Env K)
| Broadcast (type : CommandType) (payload : bytes) (env : Env K)
| ChatSent (client_id : Z) (message : bytes) (env : Env K)
| KeysChanged (op : KeyStore.Operation).
Arguments Connected {K}. Arguments BytesReceived {K}. Arguments BytesResumed {K}.
Arguments Disconnected {K}. Arguments PairingWindow {K}. Arguments RoomName {K}.
Arguments Approved {K}. Arguments Rejected {K}. Arguments PairingsExpired {K}.
Arguments CommandSent {K}. Arguments Broadcast {K}. Arguments ChatSent {K}. Arguments KeysChanged {K}.

Section Runs.
Context {K : Type} `{Pairing.KeyProvider K} {GCM : AesGcm}.
Variable bcrypt_hmac : bytes -> bytes -> option bytes.
Variable bcrypt_sha256 : bytes -> option bytes.

(** [on_bytes] on an object that has been looked up. *)
Definition on_bytes (s : Server) (id : Z) (input : bytes) (env : nat -> Env K) : Server :=
  match sv_objects s !! id with
  | None => s
  | Some cn =>
      let '(cn, s) := on_bytes_body bcrypt_hmac bcrypt_sha256 env s cn input in
      store_object s cn
  end.

Definition perform (s : Server) (op : Operation K) : Server :=
  match op with
  | Connected id source => on_connected s id source
  | BytesReceived id input env =>
      if bool_decide (id ∈ sv_states s) then on_bytes s id input env else s
  | BytesResumed id input env => on_bytes s id input env
  | Disconnected id now => on_disconnected s id now
  | PairingWindow open name env => set_pairing_window env s open name
  | RoomName name => set_server_name s name
  | Approved pairing_id env => (approve_pairing bcrypt_hmac bcrypt_sha256 env s pairing_id).2
  | Rejected pairing_id env => (reject_pairing env s pairing_id).2
  | PairingsExpired env => (expire_pending_pairings env s).2
  | CommandSent client_id type payload env =>
      (send_command bcrypt_hmac env s client_id type payload).2
  | Broadcast type payload env => (broadcast_command bcrypt_hmac env s type payload).2
  | ChatSent client_id message env => (send_chat bcrypt_hmac env s client_id message).2
  | KeysChanged op => {| s with sv_key_store := KeyStore.perform (sv_key_store s) op |}
  end.

Definition run (s : Server) (ops : list (Operation K)) : Server := fold_left perform ops s.

(** The bytes of an operation that reach a connection's object, and all of them
    in a run. *)
Definition handed (s : Server) (id : Z) (op : Operation K) : bytes :=
  match op with
  | BytesReceived id' input _ => if (id' =? id) && bool_decide (id ∈ sv_states s) then input else []
  | BytesResumed id' input _ => if id' =? id then input else []
  | _ => []
  end.

Fixpoint received (id : Z) (s : Server) (ops : list (Operation K)) : bytes :=
  match ops with
  | [] => []
  | op :: rest => handed s id op ++ received id (perform s op) rest
  end.

Lemma run_snoc s ops op : run s (ops ++ [op]) = perform (run s ops) op.
Proof using Type. unfold run. by rewrite fold_left_app. Qed.

Lemma received_snoc id ops op : forall s,
  received id s (ops ++ [op]) = received id s ops ++ handed (run s ops) id op.
Proof using Type.
  induction ops as [|o ops IH]; intros s; cbn; [by rewrite app_nil_r|].
  by rewrite IH, app_assoc.
Qed.
End Runs.

(** ** What a call leaves alone *)

(** The connections with their clients, and the keys. *)
Definition clients_of (s : Server) :=
  (sv_objects s, sv_states s, sv_client_connections s, sv_registry s).

(** The requests waiting for the operator. *)
Definition pairings_of (s : Server) := (sv_pending_pairings s, sv_pairing_window_open s).

Definition still (s : Server) := (clients_of s, sv_key_store s, pairings_of s).

Section Frames.
Context {K : Type} `{Pairing.KeyProvider K} {GCM : AesGcm}.
Context (bcrypt_hmac : bytes -> bytes -> option bytes) (bcrypt_sha256 : bytes -> option bytes).

Lemma send_still (env : Env K) s id wire : still (send env s id wire).2 = still s.
Proof using Type. unfold send. by destruct (ev_send env id). Qed.

Lemma send_inv (env : Env K) s id wire sent s' : send env s id wire = (sent, s') -> still s' = still s.
Proof using Type. intros E. pose proof (send_still env s id wire) as Hs. by rewrite E in Hs. Qed.

Lemma send_pairing_reject_still (env : Env K) s id rid reason :
  still (send_pairing_reject env s id rid reason) = still s.
Proof using Type. unfold send_pairing_reject. case_match; [done|apply send_still]. Qed.

Lemma settle_still s id : still (settle_pairing_connection s id) = still s.
Proof. unfold settle_pairing_connection. by case_match. Qed.

Lemma refuse_abandoned_still (env : Env K) abandoned reason : forall s,
  still (refuse_abandoned env s abandoned reason) = still s.
Proof using Type.
  induction abandoned as [|a rest IH]; intros s; cbn; [done|].
  by rewrite IH, settle_still, send_pairing_reject_still.
Qed.

Lemma refuse_abandoned_clients (env : Env K) abandoned reason s :
  clients_of (refuse_abandoned env s abandoned reason) = clients_of s.
Proof using Type.
  pose proof (refuse_abandoned_still env abandoned reason s) as E. unfold still in E. congruence.
Qed.

Lemma persist_keys_clients (env : Env K) s previous saved s' :
  persist_keys env s previous = (saved, s') -> clients_of s' = clients_of s.
Proof using Type. unfold persist_keys. case_match; by intros [= <- <-]. Qed.
End Frames.

#[export] Hint Rewrite @send_still @send_pairing_reject_still settle_still @refuse_abandoned_still
  : still.

(** Close a goal on what a handler left alone, its calls being destructed. *)
Ltac still_calls :=
  repeat match goal with
  | E : send _ _ _ _ = (_, _) |- _ => apply send_inv in E
  | E : persist_keys _ _ _ = (_, _) |- _ => apply persist_keys_clients in E
  end.

Ltac by_still :=
  still_calls; autorewrite with still; unfold still, clients_of, pairings_of in *; cbn in *; congruence.

(** ** What each handler changes *)

Definition auth_stage (stage : Stage) : bool :=
  match stage with auth_hello | auth_proof | authenticated => true | _ => false end.

(** The fields of a connection that no frame before authentication touches. *)
Definition frame_id (cn : ConnectionState) :=
  (cn_connection_id cn, cn_initial_buffer cn, cn_parser cn, cn_registry_id cn).

(** Outside the handshake and its result: nothing about clients. *)
Definition calm (s : Server) (cn : ConnectionState) (s' : Server) (cn' : ConnectionState) : Prop :=
  clients_of s' = clients_of s /\ frame_id cn' = frame_id cn /\ auth_stage (cn_stage cn') = false /\
  (cn_stage cn' = initial -> cn_stage cn = initial).

Section Handlers.
Context {K : Type} `{Pairing.KeyProvider K} {GCM : AesGcm}.
Context (bcrypt_hmac : bytes -> bytes -> option bytes) (bcrypt_sha256 : bytes -> option bytes).

Lemma refuse_pairing_calm (env : Env K) s cn rid reason detail b cn' s' :
  auth_stage (cn_stage cn) = false ->
  refuse_pairing env s cn rid reason detail = (b, cn', s') -> calm s cn s' cn'.
Proof using Type.
  intros Ha [= <- <- <-]. split_and!; [|done..]. unfold fail_handshake, emit.
  pose proof (send_pairing_reject_still env s (cn_connection_id cn) rid reason). by_still.
Qed.

Lemma answer_heartbeat_calm (env : Env K) s cn frame b cn' s' :
  auth_stage (cn_stage cn) = false ->
  answer_pairing_heartbeat env s cn frame = (b, cn', s') -> calm s cn s' cn'.
Proof using Type.
  intros Ha. unfold answer_pairing_heartbeat. repeat case_match; intros [= <- <- <-];
    (split_and!; [|done..]); by_still.
Qed.

Lemma calm_trans s0 cn0 s1 cn1 s2 cn2 :
  calm s0 cn0 s1 cn1 -> calm s1 cn1 s2 cn2 -> calm s0 cn0 s2 cn2.
Proof. unfold calm. intuition congruence. Qed.

Lemma admit_pairing_still (env : Env K) s cn rid transcript secrets r s' :
  admit_pairing env s cn rid transcript secrets = (r, s') -> clients_of s' = clients_of s.
Proof using Type. unfold admit_pairing. repeat case_match; by intros [= <- <-]. Qed.

Lemma pairing_hello_calm (env : Env K) s cn frame b cn' s' :
  auth_stage (cn_stage cn) = false ->
  process_pairing_hello bcrypt_hmac bcrypt_sha256 env s cn frame = (b, cn', s') -> calm s cn s' cn'.
Proof using Type.
  intros Ha. unfold process_pairing_hello. cbv zeta.
  destruct (Pairing.decode_pairing_hello _) as [hello|]; [|by apply refuse_pairing_calm].
  destruct (answer_hello _ _ _ _) as [[[offer transcript] secrets]|[reason detail]];
    [|by apply refuse_pairing_calm].
  case_match; [intros [= <- <- <-]; by split_and!|].
  cbn [take_expired]. destruct (admit_pairing _ _ _ _ _ _) as [admitted s1] eqn:Ea.
  apply admit_pairing_still in Ea. destruct admitted as [pid|refusal].
  - destruct (send _ _ _ _) as [sent s2] eqn:Es. apply send_inv in Es.
    autorewrite with still in Es. destruct sent; intros [= <- <- <-]; (split_and!; [|done..]);
    unfold drop_pending_pairing, with_pending; by_still.
  - intros Hr. apply refuse_pairing_calm in Hr; [|done]. eapply calm_trans; [|exact Hr].
    split_and!; [|done..]. pose proof (refuse_abandoned_still env
      (abandoned_all (filter (fun entry => is_expired (ev_now env) entry.2 = true)
        (sv_pending_pairings s))) Pairing.timed_out s1). by_still.
Qed.

Lemma pairing_confirm_calm (env : Env K) s cn frame b cn' s' :
  auth_stage (cn_stage cn) = false ->
  process_pairing_confirm bcrypt_hmac env s cn frame = (b, cn', s') -> calm s cn s' cn'.
Proof using Type.
  intros Ha. unfold process_pairing_confirm. cbv zeta.
  case_match; [by apply answer_heartbeat_calm|].
  case_match; [intros [= <- <- <-]; by split_and!|].
  case_match; [|intros [= <- <- <-]; by split_and!].
  case_match; [intros [= <- <- <-]; by split_and!|].
  intros Hr. apply refuse_pairing_calm in Hr; [|done]. eapply calm_trans; [|exact Hr].
  by split_and!.
Qed.

Lemma pairing_wait_calm (env : Env K) s cn frame b cn' s' :
  auth_stage (cn_stage cn) = false ->
  process_pairing_wait env s cn frame = (b, cn', s') -> calm s cn s' cn'.
Proof using Type.
  intros Ha. unfold process_pairing_wait.
  repeat (case_match; [intros [= <- <- <-]; by split_and!|]). by apply answer_heartbeat_calm.
Qed.

Lemma enrollment_calm (env : Env K) s cn frame b cn' s' :
  auth_stage (cn_stage cn) = false ->
  process_enrollment bcrypt_hmac env s cn frame = (b, cn', s') -> calm s cn s' cn'.
Proof using Type.
  intros Ha. unfold process_enrollment. cbv zeta.
  repeat case_match; intros [= <- <- <-]; (split_and!; [|done..]); by_still.
Qed.

(** Frames before the handshake. *)
Lemma other_frame_calm (env : Env K) s cn frame b cn' s' :
  auth_stage (cn_stage cn) = false ->
  process_frame bcrypt_hmac bcrypt_sha256 env s cn frame = (b, cn', s') -> calm s cn s' cn'.
Proof using Type.
  intros Ha. unfold process_frame. destruct (cn_stage cn) eqn:Est; try discriminate Ha.
  all: try (intros [= <- <- <-]; split_and!; cbn; by rewrite ?Est).
  - case_match; [apply pairing_hello_calm|apply enrollment_calm]; by rewrite Est.
  - apply pairing_confirm_calm. by rewrite Est.
  - apply pairing_wait_calm. by rewrite Est.
Qed.

Lemma send_authenticated_spec (env : Env K) s cn type rid payload b cn' s' :
  send_authenticated bcrypt_hmac env s cn type rid payload = (b, cn', s') ->
  still s' = still s /\ exists q, cn' = {| cn with cn_send_sequence := q |}.
Proof using Type.
  assert (exists q, cn = {| cn with cn_send_sequence := q |}) as Hid
    by (exists (cn_send_sequence cn); by destruct cn).
  unfold send_authenticated. cbv zeta. repeat case_match; intros [= <- <- <-];
    (split; [by_still|]); eauto.
Qed.

Lemma send_telemetry_enable_spec (env : Env K) s cn cn' s' :
  send_telemetry_enable bcrypt_hmac env s cn = (cn', s') ->
  still s' = still s /\ exists q, cn' = {| cn with cn_send_sequence := q |}.
Proof using Type.
  assert (exists q, cn = {| cn with cn_send_sequence := q |}) as Hid
    by (exists (cn_send_sequence cn); by destruct cn).
  unfold send_telemetry_enable. case_match; [|intros [= <- <-]; eauto]. cbn [take_request_id].
  destruct (send_authenticated _ _ _ _ _ _ _) as [[b cn1] s1] eqn:E. intros [= <- <-].
  apply send_authenticated_spec in E as [E Hq]. split; [by_still|done].
Qed.

Lemma decoded_hello_wf w hello : decode_auth_hello w = Some hello -> wf_hello hello.
Proof using Type. exact (fun E => proj1 (decode_exact (A := AuthHello) w hello E)). Qed.

(** A challenge made of what the generator and the clock gave. *)
Definition drawn (env : Env K) (challenge : AuthChallenge) : Prop :=
  exists nonce, ev_random env = Some nonce /\ challenge = mkAuthChallenge nonce (ev_unix_now env).

(** The hello: refused, or the client's key has been looked up. *)
Lemma auth_hello_spec (env : Env K) s cn frame b cn' s' :
  cn_stage cn = auth_hello ->
  process_auth_hello env s cn frame = (b, cn', s') ->
  still s' = still s /\ frame_id cn' = frame_id cn /\
  (cn_stage cn' = auth_hello \/
   cn_stage cn' = auth_proof /\
   KeyStore.resolve (sv_key_store s) (ah_client_id (cn_hello cn')) (ah_key_id (cn_hello cn')) =
     Some (cn_pre_shared_key cn') /\
   wf_hello (cn_hello cn') /\ drawn env (cn_challenge cn')).
Proof using Type.
  intros Hst. unfold process_auth_hello.
  destruct (negb _); [intros [= <- <- <-]; auto|].
  destruct (decode_auth_hello _) as [hello|] eqn:Ed; [|intros [= <- <- <-]; auto].
  apply decoded_hello_wf in Ed as Hw.
  destruct (_ || _); [intros [= <- <- <-]; auto|].
  destruct (KeyStore.resolve _ _ _) as [key|] eqn:Ek; [|intros [= <- <- <-]; auto].
  destruct (ev_random env) as [nonce|] eqn:Er; [|intros [= <- <- <-]; auto]. cbv zeta.
  destruct (send _ _ _ _) as [sent s1] eqn:Es. apply send_inv in Es.
  destruct sent; intros [= <- <- <-]; [|auto]. split_and!; [done|done|right].
  split_and!; try done. by exists nonce.
Qed.

(** The proof that made a connection authenticated. *)
Definition proven (key : bytes) (cn : ConnectionState) (proof : bytes) : Prop :=
  compute_client_proof bcrypt_hmac key (cn_hello cn) (cn_challenge cn) = Some proof /\
  derive_session_key bcrypt_hmac key (cn_hello cn) (cn_challenge cn) = Some (cn_session_key cn) /\
  cn_registry_id cn = registry_id_for (ah_client_id (cn_hello cn)).

Definition proof_frame (cn : ConnectionState) (proof : bytes) : TcpFrame :=
  Handshake.handshake_frame (command_type_value CT_auth_proof) (cn_handshake_request_id cn) proof.

Definition handshake_fields (cn : ConnectionState) :=
  (cn_hello cn, cn_challenge cn, cn_handshake_request_id cn,
   (cn_connection_id cn, cn_initial_buffer cn, cn_parser cn)).

(** The proof: refused, or the connection is published as its client's. *)
Inductive proof_outcome (s : Server) (cn : ConnectionState) (frame : TcpFrame)
  : ConnectionState -> Server -> Prop :=
| proof_refused cn' s' :
    still s' = still s -> handshake_fields cn' = handshake_fields cn ->
    cn_registry_id cn' = cn_registry_id cn -> cn_stage cn' = auth_proof ->
    cn_pre_shared_key cn' = cn_pre_shared_key cn \/ cn_pre_shared_key cn' = [] ->
    proof_outcome s cn frame cn' s'
| proof_published cn' s' :
    sv_objects s' = sv_objects s -> sv_states s' = sv_states s -> sv_key_store s' = sv_key_store s ->
    pairings_of s' = pairings_of s -> cn_connection_id cn ∈ sv_states s ->
    sv_client_connections s' =
      <[cn_registry_id cn' := cn_connection_id cn]> (sv_client_connections s) ->
    handshake_fields cn' = handshake_fields cn -> cn_stage cn' = authenticated ->
    proven (cn_pre_shared_key cn) cn' (tf_payload frame) ->
    ce_type (tf_envelope frame) = command_type_value CT_auth_proof ->
    ce_request_id (tf_envelope frame) = cn_handshake_request_id cn ->
    proof_outcome s cn frame cn' s'.

Lemma install_keys_spec cn cn' :
  install_keys bcrypt_hmac cn = Some cn' ->
  handshake_fields cn' = handshake_fields cn /\ cn_stage cn' = cn_stage cn /\
  cn_registry_id cn' = cn_registry_id cn /\ cn_pre_shared_key cn' = cn_pre_shared_key cn /\
  cn_session_key cn' = cn_session_key cn.
Proof using Type.
  unfold install_keys. repeat case_match; intros [= <-]; done.
Qed.

Lemma auth_proof_spec (env : Env K) s cn frame b cn' s' :
  cn_stage cn = auth_proof ->
  process_auth_proof bcrypt_hmac env s cn frame = (b, cn', s') ->
  proof_outcome s cn frame cn' s'.
Proof using Type.
  intros Hst. unfold process_auth_proof. cbv zeta.
  destruct (_ || _) eqn:Eg; [intros [= <- <- <-]; by apply proof_refused; auto|].
  bool_to_prop.
  destruct (compute_client_proof _ _ _ _) as [expected|] eqn:Ep;
    [|cbn; intros [= <- <- <-]; by apply proof_refused; auto].
  destruct (constant_time_equal expected _) eqn:Ec;
    [|cbn; intros [= <- <- <-]; by apply proof_refused; auto].
  apply constant_time_equal_spec in Ec as ->.
  destruct (replay_accept _ _ _) as [fresh rp]. destruct fresh; cbn [negb];
    [|intros [= <- <- <-]; by apply proof_refused; auto].
  destruct (derive_session_key _ _ _ _) as [session_key|] eqn:Ek;
    [|intros [= <- <- <-]; by apply proof_refused; auto].
  destruct (compute_server_proof _ _ _ _) as [server_proof|];
    [|intros [= <- <- <-]; by apply proof_refused; auto].
  destruct (send _ _ _ _) as [sent s1] eqn:Es. apply send_inv in Es.
  destruct sent; cbn [negb]; [|intros [= <- <- <-]; apply proof_refused; auto; by_still].
  destruct (install_keys _ _) as [cn1|] eqn:Ei;
    [|intros [= <- <- <-]; apply proof_refused; auto; by_still].
  apply install_keys_spec in Ei as (Ef & Est & Er & Eps & Ess).
  unfold handshake_fields in Ef. cbn in Ef, Est, Er, Eps, Ess. injection Ef as ? ? ? ? ? ?.
  unfold publish, is_live_state. cbn. case_bool_decide as El; cbn [negb].
  2: { intros [= <- <- <-]. apply proof_refused; cbn; try congruence; [by_still| |].
       - unfold handshake_fields. cbn. congruence.
       - right. congruence. }
  destruct (send_telemetry_enable _ _ _ _) as [cn2 s2] eqn:Et. intros [= <- <- <-].
  apply send_telemetry_enable_spec in Et as [Et [q ->]]. injection Es as ? ? ? ? ? ? ?.
  apply proof_published; cbn; try done; unfold still, clients_of, pairings_of in *.
  - destruct (_ && _) in Et; cbn in Et; congruence.
  - destruct (_ && _) in Et; cbn in Et; congruence.
  - destruct (_ && _) in Et; cbn in Et; congruence.
  - destruct (_ && _) in Et; cbn in Et; congruence.
  - congruence.
  - destruct (_ && _) in Et; cbn in Et; congruence.
  - unfold handshake_fields. cbn. congruence.
  - unfold proven. cbn. split_and!; congruence.
Qed.

(** A command of an authenticated connection. *)
Definition session_fields (cn : ConnectionState) :=
  (handshake_fields cn, cn_session_key cn, cn_registry_id cn, cn_stage cn).

(** The connections and keys stay; the registry only changes for the client's
    current connection. *)
Definition command_outcome (s : Server) (cn : ConnectionState) (s' : Server) (cn' : ConnectionState)
    : Prop :=
  session_fields cn' = session_fields cn /\ sv_objects s' = sv_objects s /\
  sv_states s' = sv_states s /\ sv_client_connections s' = sv_client_connections s /\
  sv_key_store s' = sv_key_store s /\ pairings_of s' = pairings_of s /\
  (is_current_state s cn = false -> sv_registry s' = sv_registry s).

Lemma outcome_nothing s cn e : command_outcome s cn (emit s e) cn.
Proof. by split_and!. Qed.

Lemma mutate_outcome s cn mutation :
  command_outcome s cn (mutate_current_registry s cn mutation).2 cn.
Proof.
  unfold mutate_current_registry. destruct (is_current_state s cn) eqn:Ec; cbn [negb]; [|done].
  destruct (mutation _ _) as [registry result]. split_and!; try done. cbn. congruence.
Qed.

Lemma outcome_emit s cn s' cn' e :
  command_outcome s cn s' cn' -> command_outcome s cn (emit s' e) cn'.
Proof. done. Qed.

Lemma required_report_outcome {A} s cn (report : option A) mutation b cn' s' :
  required_report s cn report mutation = (b, cn', s') -> command_outcome s cn s' cn'.
Proof.
  unfold required_report, drop_connection. destruct report as [report|].
  - pose proof (mutate_outcome s cn (mutation report)) as Hm.
    destruct (mutate_current_registry _ _ _) as [[] s1]; intros [= <- <- <-]; [done|].
    by apply outcome_emit.
  - intros [= <- <- <-]. apply outcome_nothing.
Qed.

Lemma record_chat_outcome s cn id from_teacher line :
  command_outcome s cn (record_chat s id from_teacher line) cn.
Proof. unfold record_chat. case_match; by split_and!. Qed.

Lemma dispatch_outcome (env : Env K) s cn command b cn' s' :
  dispatch_command env s cn command = (b, cn', s') -> command_outcome s cn s' cn'.
Proof using Type.
  unfold dispatch_command. cbv zeta.
  repeat match goal with
  | |- (if ?c then required_report _ _ _ _ else _) = _ -> _ =>
      destruct c; [by apply required_report_outcome|]
  | |- (if ?c then _ else _) = _ -> _ => destruct c
  end; try (intros [= <- <- <-]; first
    [by apply mutate_outcome | apply record_chat_outcome | by split_and!]).
  1: destruct (ControlMessages.decode_status_report _); intros [= <- <- <-].
  - apply mutate_outcome.
  - apply outcome_nothing.
  - intros [= <- <- <-]. destruct (_ && _); [apply record_chat_outcome|by split_and!].
Qed.

Lemma authenticated_spec (env : Env K) s cn frame b cn' s' :
  process_authenticated bcrypt_hmac env s cn frame = (b, cn', s') -> command_outcome s cn s' cn'.
Proof using Type.
  unfold process_authenticated. cbv zeta.
  destruct (if cn_aead_enabled cn then _ else _) as [command|]; [|
    intros [= <- <- <-]; apply outcome_nothing].
  destruct (guard_accept _ _) as [[] guard]; cbn [negb].
  - by intros Hd%dispatch_outcome.
  - by intros [= <- <- <-].
Qed.
End Handlers.

(** ** A connection that is what it says *)

(** A frame that occurs in bytes. *)
Definition heard (got : bytes) (f : TcpFrame) : Prop :=
  wf_frame f /\ exists before after, got = before ++ encode_frame f ++ after.

Definition suffix_of (tail whole : bytes) : Prop := exists before, whole = before ++ tail.

Lemma suffix_nil whole : suffix_of [] whole.
Proof. exists whole. by rewrite app_nil_r. Qed.

Lemma suffix_app tail whole more : suffix_of tail whole -> suffix_of (tail ++ more) (whole ++ more).
Proof. intros [b ->]. exists b. by rewrite app_assoc. Qed.

Lemma suffix_drop n tail whole : suffix_of tail whole -> suffix_of (drop n tail) whole.
Proof.
  intros [b ->]. exists (b ++ take n tail). by rewrite <- app_assoc, take_drop.
Qed.

Lemma heard_app got more f : heard got f -> heard (got ++ more) f.
Proof. intros (Hw & b & a & ->). split; [done|]. exists b, (a ++ more). by rewrite <- !app_assoc. Qed.

Lemma heard_in_suffix tail whole f : suffix_of tail whole -> heard tail f -> heard whole f.
Proof.
  intros [p ->] (Hw & b & a & ->). split; [done|]. exists (p ++ b), a. by rewrite !app_assoc.
Qed.

(** What a parser makes of a suffix: frames heard, and a suffix again. *)
Lemma feed_suffix buffer input whole ok buffer' frames :
  suffix_of (buffer ++ input) whole -> feed buffer input [] = Some (ok, buffer', frames) ->
  Forall wf_frame frames /\ (ok = true -> Forall (heard whole) frames) /\ suffix_of buffer' whole.
Proof.
  intros Hs Hf. destruct (feed_total_and_sound buffer input []) as (ok' & b' & gs & E & Hw & Ht & Hn).
  rewrite Hf in E. injection E as <- <- E. cbn in E. subst gs. split; [done|].
  destruct ok; [|split; [done|rewrite Hn by done; apply suffix_nil]].
  destruct (Ht eq_refl) as (_ & _ & Eq). split.
  - intros _. apply Forall_forall. intros f Hin. apply (heard_in_suffix _ _ _ Hs).
    split; [by eapply Forall_forall in Hw|]. apply list_elem_of_split in Hin as (l1 & l2 & ->). rewrite Eq, map_app, concat_app. cbn.
    exists (concat (map encode_frame l1)), (concat (map encode_frame l2) ++ buffer').
    by rewrite <- !app_assoc.
  - eapply (suffix_drop (length (concat (map encode_frame frames)))) in Hs.
    by rewrite Eq, drop_app_length in Hs.
Qed.

Section Vouched.
Context {K : Type} `{Pairing.KeyProvider K} {GCM : AesGcm}.
Context (bcrypt_hmac : bytes -> bytes -> option bytes) (bcrypt_sha256 : bytes -> option bytes).

(** [R client_id key_id key]: the store once resolved that key; [I challenge]: it
    was drawn for this connection. *)
Context (R : bytes -> Z -> bytes -> Prop) (I : AuthChallenge -> Prop).

(** What stands behind the stage of a connection that was given [got]. *)
Definition vouched (got : bytes) (cn : ConnectionState) : Prop :=
  (cn_stage cn <> authenticated -> cn_registry_id cn = 0) /\
  (cn_stage cn = auth_proof -> cn_pre_shared_key cn = [] \/
     R (ah_client_id (cn_hello cn)) (ah_key_id (cn_hello cn)) (cn_pre_shared_key cn)) /\
  (cn_stage cn = auth_proof \/ cn_stage cn = authenticated ->
     wf_hello (cn_hello cn) /\ I (cn_challenge cn)) /\
  (cn_stage cn = authenticated -> exists key proof,
     R (ah_client_id (cn_hello cn)) (ah_key_id (cn_hello cn)) key /\
     proven bcrypt_hmac key cn proof /\ heard got (proof_frame cn proof)).

(** A client's entry, when a connection has had its turn. *)
Inductive claimed (s : Server) (cn : ConnectionState) (s' : Server) (cn' : ConnectionState) : Prop :=
| claims_nothing :
    sv_client_connections s' = sv_client_connections s -> cn_registry_id cn' = cn_registry_id cn ->
    (cn_stage cn = authenticated -> cn_stage cn' = authenticated) -> claimed s cn s' cn'
| claims_its_client :
    cn_stage cn <> authenticated -> cn_stage cn' = authenticated ->
    cn_connection_id cn ∈ sv_states s ->
    sv_client_connections s' =
      <[cn_registry_id cn' := cn_connection_id cn]> (sv_client_connections s) ->
    claimed s cn s' cn'.

Definition transport (cn : ConnectionState) :=
  (cn_connection_id cn, cn_initial_buffer cn, cn_parser cn).

(** A turn in the handshake or after it. *)
Definition auth_turn (got : bytes) (s : Server) (cn : ConnectionState) (s' : Server)
    (cn' : ConnectionState) : Prop :=
  auth_stage (cn_stage cn') = true /\ vouched got cn' /\ claimed s cn s' cn' /\
  transport cn' = transport cn /\ sv_objects s' = sv_objects s /\ sv_states s' = sv_states s /\
  sv_key_store s' = sv_key_store s.

Lemma claimed_trans s cn s1 cn1 s2 cn2 :
  cn_connection_id cn1 = cn_connection_id cn -> sv_states s1 = sv_states s ->
  claimed s cn s1 cn1 -> claimed s1 cn1 s2 cn2 -> claimed s cn s2 cn2.
Proof.
  intros Ei Es [E1 E2 E3|N1 A1 L1 E1] [F1 F2 F3|N2 A2 L2 F1].
  - apply claims_nothing; [congruence|congruence|auto].
  - apply claims_its_client; [auto|done|congruence|congruence].
  - apply claims_its_client; [done|auto|done|congruence].
  - done.
Qed.

Lemma auth_turn_trans got s cn s1 cn1 s2 cn2 :
  auth_turn got s cn s1 cn1 -> auth_turn got s1 cn1 s2 cn2 -> auth_turn got s cn s2 cn2.
Proof.
  intros (A1 & V1 & C1 & T1 & O1 & S1 & K1) (A2 & V2 & C2 & T2 & O2 & S2 & K2).
  split_and!; try congruence. eapply (claimed_trans s cn s1 cn1); try done.
  unfold transport in T1. congruence.
Qed.

Lemma proven_needs_key cn proof key : proven bcrypt_hmac key cn proof -> key <> [].
Proof. intros (Hp & _) ->. unfold compute_client_proof, proof_guard in Hp. by cbn in Hp. Qed.

Lemma auth_frame_turn (env : Env K) got s cn frame b cn' s' :
  auth_stage (cn_stage cn) = true -> vouched got cn -> heard got frame -> wf_frame frame ->
  (forall c i k, KeyStore.resolve (sv_key_store s) c i = Some k -> R c i k) ->
  (forall c, drawn env c -> I c) ->
  process_frame bcrypt_hmac bcrypt_sha256 env s cn frame = (b, cn', s') ->
  auth_turn got s cn s' cn'.
Proof using Type.
  intros Ha (Hz & Hp & Hi & Hauth) Hh Hw HR HI. unfold process_frame.
  destruct (cn_stage cn) eqn:Est; try discriminate Ha; clear Ha.
  - intros (Hs & Hf & Hcase)%auth_hello_spec; [|done]. unfold frame_id in Hf. injection Hf as ? ? ? Hr.
    injection Hs as ? ? ? ? Hks _ _. rewrite Hz in Hr by done.
    split_and!; try done; [by destruct Hcase as [->|[-> _]]| | |unfold transport; congruence].
    + destruct Hcase as [Hst|(Hst & Hres & Hwh & Hd)]; unfold vouched; rewrite Hst;
        split_and!; try done; [by intros [|]|intros _; right; by apply HR|]. auto.
    + apply claims_nothing; [done| |by rewrite Est]. by rewrite Hr, Hz.
  - intros Ho%auth_proof_spec; [|done]. destruct Ho as
      [cn' s' Hs Hf Hr Hst Hk | cn' s' Hob Hss Hks _ Hl Hcc Hf Hst Hpr Hty Hrid].
    + injection Hs as ? ? ? ? ?. unfold handshake_fields in Hf. injection Hf as Eh Ec Er ? ? ?.
      split_and!; try done; [by rewrite Hst| | |unfold transport; congruence].
      * unfold vouched. rewrite Hst, Eh, Ec, Hr. split_and!; [by intros _; apply Hz| |auto|done].
        intros _. destruct Hk as [-> | ->]; [by apply Hp|by left].
      * by apply claims_nothing; [..|rewrite Est].
    + unfold handshake_fields in Hf. injection Hf as Eh Ec Er ? ? ?.
      split_and!; try done; [by rewrite Hst| | |unfold transport; congruence].
      * unfold vouched. rewrite Hst. split_and!; [done|done|rewrite Eh, Ec; auto|]. intros _.
        exists (cn_pre_shared_key cn), (tf_payload frame). rewrite Eh. split_and!; [|done|].
        -- destruct (Hp eq_refl) as [E|]; [|done]. by apply proven_needs_key in Hpr.
        -- unfold proof_frame. rewrite Er.
           by rewrite <- (Handshake.handshake_frame_intro _ _ _ Hw Hty Hrid).
      * apply claims_its_client; [by rewrite Est|done..].
  - intros (Hf & Hob & Hss & Hcc & Hks & _)%authenticated_spec.
    unfold session_fields, handshake_fields in Hf. injection Hf as Eh Ec Er ? ? ? Ek Erg Hst.
    rewrite Est in Hst.
    split_and!; try done; [by rewrite Hst| | |unfold transport; congruence].
    + unfold vouched, proven, proof_frame. rewrite Hst, Eh, Ec, Er, Ek, Erg. split_and!; done.
    + apply claims_nothing; [done|done|by rewrite Hst].
Qed.

Lemma auth_frames_turn got frames : forall (env : nat -> Env K) s cn cn' s',
  auth_stage (cn_stage cn) = true -> vouched got cn ->
  Forall (heard got) frames -> Forall wf_frame frames ->
  (forall c i k, KeyStore.resolve (sv_key_store s) c i = Some k -> R c i k) ->
  (forall n c, drawn (env n) c -> I c) ->
  process_frames bcrypt_hmac bcrypt_sha256 env s cn frames = (cn', s') ->
  auth_turn got s cn s' cn'.
Proof using Type.
  induction frames as [|frame rest IH]; intros env s cn cn' s' Ha Hv Hh Hw HR HI; cbn.
  - intros [= <- <-]. split_and!; try done. by apply claims_nothing.
  - destruct (process_frame _ _ _ _ _ _) as [[continue cn1] s1] eqn:Ef.
    inversion Hh; inversion Hw; subst.
    apply (auth_frame_turn _ got) in Ef; [|done..|by apply HI].
    destruct continue; cbn [negb]; [|by intros [= <- <-]].
    intros Hr. eapply auth_turn_trans; [exact Ef|]. destruct Ef as (A1 & V1 & _ & _ & _ & _ & K1).
    apply (IH (fun n => env (S n)) s1 cn1); try done; [by rewrite K1|intros n; apply HI].
Qed.

Lemma other_frames_calm frames : forall (env : nat -> Env K) s cn cn' s',
  auth_stage (cn_stage cn) = false ->
  process_frames bcrypt_hmac bcrypt_sha256 env s cn frames = (cn', s') -> calm s cn s' cn'.
Proof using Type.
  induction frames as [|frame rest IH]; intros env s cn cn' s' Ha; cbn.
  - intros [= <- <-]. by split_and!.
  - destruct (process_frame _ _ _ _ _ _) as [[continue cn1] s1] eqn:Ef.
    apply other_frame_calm in Ef; [|done]. destruct continue; cbn [negb]; [|by intros [= <- <-]].
    intros Hr. eapply calm_trans; [exact Ef|]. eapply IH; [|exact Hr]. by destruct Ef as (_ & _ & ? & _).
Qed.

(** A connection's object, and the bytes it was given. *)
Definition sound_object (got : bytes) (id : Z) (cn : ConnectionState) : Prop :=
  cn_connection_id cn = id /\ suffix_of (cn_initial_buffer cn) got /\
  suffix_of (cn_parser cn) got /\ (cn_stage cn = initial -> cn_parser cn = []) /\
  (cn_stage cn <> initial -> cn_initial_buffer cn = []) /\ vouched got cn.

Lemma vouched_app got more cn : vouched got cn -> vouched (got ++ more) cn.
Proof.
  intros (Hz & Hp & Hi & Ha). split_and!; [done..|]. intros Hst.
  destruct (Ha Hst) as (key & proof & ? & ? & ?). exists key, proof. split_and!; [done..|].
  by apply heard_app.
Qed.

Lemma vouched_other got cn' :
  auth_stage (cn_stage cn') = false -> cn_registry_id cn' = 0 -> vouched got cn'.
Proof.
  intros Ha Hr. split_and!; [done|intros E; by rewrite E in Ha| |intros E; by rewrite E in Ha].
  intros [E|E]; by rewrite E in Ha.
Qed.

(** The first bytes: the connection waits, or starts and leaves the rest to the
    parser. *)
Lemma process_initial_spec (env : Env K) got s cn input rest cn' s' :
  cn_stage cn = initial -> suffix_of (cn_initial_buffer cn) got ->
  process_initial env s cn input = (rest, cn', s') ->
  clients_of s' = clients_of s /\ sv_key_store s' = sv_key_store s /\
  cn_connection_id cn' = cn_connection_id cn /\ cn_parser cn' = cn_parser cn /\
  cn_registry_id cn' = cn_registry_id cn /\ suffix_of (cn_initial_buffer cn') (got ++ input) /\
  (cn_stage cn' <> initial -> cn_initial_buffer cn' = []) /\
  match rest with
  | None => auth_stage (cn_stage cn') = false
  | Some rest => (cn_stage cn' = auth_hello \/ cn_stage cn' = enrollment) /\
                 suffix_of rest (got ++ input)
  end.
Proof using Type.
  intros Hst Hs. apply (suffix_app _ _ input) in Hs. unfold process_initial. cbv zeta.
  destruct (_ <? 4); [intros [= <- <- <-]; cbn; rewrite Hst; by split_and!|].
  destruct (_ =? kMagic).
  2: { intros [= <- <- <-]. cbn. split_and!; try done; [apply suffix_nil|by right]. }
  destruct (_ <? kConnectionPreambleBytes); [intros [= <- <- <-]; cbn; rewrite Hst; by split_and!|].
  destruct (decode_connection_preamble _) as [preamble|];
    [|intros [= <- <- <-]; cbn; rewrite Hst; by split_and!].
  destruct (_ =? role_diagnostic).
  - destruct (if bool_decide _ then _ else _) as [sent s1] eqn:E.
    assert (still s1 = still s) as E1.
    { case_bool_decide; [by injection E as <- <-|by apply send_inv in E]. }
    injection E1 as ? ? ? ? ? ? ?.
    destruct sent; intros [= <- <- <-]; cbn; rewrite ?Hst; unfold clients_of; cbn;
      split_and!; try done; try congruence. apply suffix_nil.
  - destruct (negb _); intros [= <- <- <-]; cbn; rewrite ?Hst; split_and!; try done;
      [apply suffix_nil|by left|by apply suffix_drop].
Qed.

(** What [on_bytes_body] has before it feeds the parser. *)
Lemma on_bytes_start (env : nat -> Env K) got id s cn input rest cn1 s1 :
  sound_object got id cn ->
  (if bool_decide (cn_stage cn = initial) then process_initial (env O) s cn input
   else (Some input, cn, s)) = (rest, cn1, s1) ->
  clients_of s1 = clients_of s /\ sv_key_store s1 = sv_key_store s /\ claimed s cn s1 cn1 /\
  cn_connection_id cn1 = id /\ suffix_of (cn_initial_buffer cn1) (got ++ input) /\
  (cn_stage cn1 <> initial -> cn_initial_buffer cn1 = []) /\ vouched (got ++ input) cn1 /\
  match rest with
  | None => cn_parser cn1 = []
  | Some rest => cn_stage cn1 <> initial /\ suffix_of (cn_parser cn1 ++ rest) (got ++ input)
  end.
Proof using Type.
  intros (Hid & Hib & Hpa & Hini & Hne & Hv). case_bool_decide as Est.
  - intros Ei. apply (process_initial_spec _ got) in Ei
      as (Hc & Hk & Hi1 & Hp1 & Hr1 & Hs1 & Hn1 & Hrest); [|done..].
    rewrite (Hini Est) in Hp1. assert (cn_registry_id cn1 = 0) as Hz
      by (rewrite Hr1; apply Hv; by rewrite Est).
    split_and!; try done; [|congruence| |].
    + apply claims_nothing; [unfold clients_of in Hc; congruence|done|by rewrite Est].
    + destruct rest as [rest|]; [|by apply vouched_other].
      destruct Hrest as [[Hst|Hst] _]; [|by apply vouched_other; [rewrite Hst|]].
      split_and!; [done|intros E; by rewrite Hst in E|intros [E|E]; by rewrite Hst in E
        |intros E; by rewrite Hst in E].
    + destruct rest as [rest|]; [|done]. destruct Hrest as [Hst Hrest]. rewrite Hp1.
      split; [by destruct Hst as [-> | ->]|done].
  - intros [= <- <- <-]. split_and!; try done; [by apply claims_nothing| | |by apply suffix_app].
    + rewrite Hne by done. apply suffix_nil.
    + by apply vouched_app.
Qed.

Lemma on_bytes_body_spec (env : nat -> Env K) got id s cn input cn' s' :
  sound_object got id cn ->
  (forall c i k, KeyStore.resolve (sv_key_store s) c i = Some k -> R c i k) ->
  (forall n c, drawn (env n) c -> I c) ->
  on_bytes_body bcrypt_hmac bcrypt_sha256 env s cn input = (cn', s') ->
  sound_object (got ++ input) id cn' /\ claimed s cn s' cn' /\
  sv_objects s' = sv_objects s /\ sv_states s' = sv_states s.
Proof using Type.
  intros Ho HR HI. unfold on_bytes_body.
  destruct (if bool_decide (cn_stage cn = initial) then _ else _) as [[rest cn1] s1] eqn:Ei.
  apply (on_bytes_start _ got id) in Ei as (Hc1 & Hk1 & Hcl1 & Hid1 & Hib1 & Hne1 & Hv1 & Hrest); [|done].
  injection Hc1 as Eob1 Est1 Ecc1 Erg1. destruct rest as [rest|].
  2: { intros [= <- <-]. split_and!; try done. unfold sound_object. rewrite Hrest.
       split_and!; try done. apply suffix_nil. }
  destruct Hrest as [Hni Hsuf]. case_bool_decide as Hnil.
  { intros [= <- <-]. subst rest. rewrite app_nil_r in Hsuf. by split_and!. }
  destruct (feed _ _ _) as [[[ok buffer] frames]|] eqn:Ef.
  2: { exfalso. destruct (feed_total_and_sound (cn_parser cn1) rest []) as (? & ? & ? & E & _).
       congruence. }
  apply (feed_suffix _ _ _ _ _ _ Hsuf) in Ef as (Hwf & Hh & Hb).
  set (cn2 := {| cn1 with cn_parser := buffer |}).
  assert (claimed s cn s1 cn2) as Hcl2.
  { destruct Hcl1; [by apply claims_nothing|by apply claims_its_client]. }
  assert (sound_object (got ++ input) id cn2) as Ho2 by by split_and!.
  destruct ok; [intros Hp|].
  2: { intros [= <- <-]. split_and!; try done.
       destruct Hcl2; [by apply claims_nothing|by apply claims_its_client]. }
  destruct (auth_stage (cn_stage cn1)) eqn:Ea.
  - apply (auth_frames_turn (got ++ input)) in Hp;
      [|done|done|by apply Hh|done|by rewrite Hk1|intros n; apply HI].
    destruct Hp as (Ha' & Hv' & Hcl' & Ht & Eob & Est & _). injection Ht as Ei Eib Epa.
    split_and!; try congruence.
    + split_and!; [by rewrite Ei|by rewrite Eib|by rewrite Epa| | |done].
      * intros E. by rewrite E in Ha'.
      * intros _. rewrite Eib. by apply Hne1.
    + apply (claimed_trans s cn s1 cn2); [|congruence|done..]. cbn. by destruct Ho as [-> _].
  - apply other_frames_calm in Hp; [|done]. destruct Hp as (Hc & Hf & Ha' & Hi).
    injection Hc as Eob Est Ecc Erg. injection Hf as Ei Eib Epa Er.
    split_and!; try congruence.
    + split_and!; [by rewrite Ei|by rewrite Eib|by rewrite Epa| | |].
      * intros E. by apply Hi in E.
      * intros _. rewrite Eib. by apply Hne1.
      * apply vouched_other; [done|]. rewrite Er. apply Hv1. intros E. by rewrite E in Ea.
    + apply (claimed_trans s cn s1 cn2); [|congruence|done|].
      { cbn. by destruct Ho as [-> _]. }
      apply claims_nothing; [done|done|].
      change (cn_stage cn2) with (cn_stage cn1). intros E. by rewrite E in Ea.
Qed.
End Vouched.

(** ** The invariant of every reachable state *)

Lemma registry_id_for_nonzero identity : registry_id_for identity <> 0.
Proof. unfold registry_id_for. case_match eqn:E; [done|]. bool_to_prop. done. Qed.

Section Invariant.
Context {K : Type} `{Pairing.KeyProvider K} {GCM : AesGcm}.
Context (bcrypt_hmac : bytes -> bytes -> option bytes) (bcrypt_sha256 : bytes -> option bytes).

Notation step := (perform bcrypt_hmac bcrypt_sha256).
Notation reach := (run bcrypt_hmac bcrypt_sha256).
Notation given := (received bcrypt_hmac bcrypt_sha256).

Record sound (R : bytes -> Z -> bytes -> Prop) (I : Z -> AuthChallenge -> Prop)
    (got : Z -> bytes) (s : Server) : Prop := {
  sound_objects : forall id cn, sv_objects s !! id = Some cn ->
    sound_object bcrypt_hmac R (I id) (got id) id cn;
  sound_states : forall id, id ∈ sv_states s -> is_Some (sv_objects s !! id);
  sound_clients : forall rid id, sv_client_connections s !! rid = Some id ->
    id ∈ sv_states s /\ exists cn, sv_objects s !! id = Some cn /\
      cn_stage cn = authenticated /\ cn_registry_id cn = rid
}.

Lemma sound_object_weaken (R R' : bytes -> Z -> bytes -> Prop) (I I' : AuthChallenge -> Prop) got id cn :
  (forall c i k, R c i k -> R' c i k) -> (forall c, I c -> I' c) ->
  sound_object bcrypt_hmac R I got id cn -> sound_object bcrypt_hmac R' I' got id cn.
Proof using Type.
  intros HR HI (? & ? & ? & ? & ? & (Hz & Hp & Hi & Ha)). split_and!; try done. split_and!; [done| | |].
  - intros E. destruct (Hp E); auto.
  - intros E. destruct (Hi E); auto.
  - intros E. destruct (Ha E) as (key & proof & ? & ? & ?). exists key, proof. auto.
Qed.

Lemma sound_weaken (R R' : bytes -> Z -> bytes -> Prop) (I I' : Z -> AuthChallenge -> Prop) got s :
  (forall c i k, R c i k -> R' c i k) -> (forall id c, I id c -> I' id c) ->
  sound R I got s -> sound R' I' got s.
Proof using Type.
  intros HR HI [Ho Hs Hc]. split; [|done..]. intros id cn E.
  by apply (sound_object_weaken R R' (I id) (I' id)); [|apply HI|apply Ho].
Qed.

Lemma sound_clients_of R I got s s' : clients_of s' = clients_of s -> sound R I got s -> sound R I got s'.
Proof using Type. intros [= E1 E2 E3 _] [Ho Hs Hc]. split; by rewrite ?E1, ?E2, ?E3. Qed.

(** One connection's turn: its object is stored again. *)
Lemma sound_turn R I got got' s id cn s' cn' :
  sound R I got s -> sv_objects s !! id = Some cn -> (forall id', id' <> id -> got' id' = got id') ->
  sound_object bcrypt_hmac R (I id) (got' id) id cn' -> claimed s cn s' cn' ->
  sv_objects s' = sv_objects s -> sv_states s' = sv_states s ->
  sound R I got' (store_object s' cn').
Proof using Type.
  intros [Ho Hs Hc] Hid Hgot Hcn' Hcl Eo Es. destruct (Ho _ _ Hid) as (Eid & _).
  pose proof Hcn' as (Eid' & _). unfold store_object. rewrite Eid'. split; cbn.
  - intros id' cn''. rewrite Eo. destruct (decide (id' = id)) as [->|Hne].
    + rewrite lookup_insert_eq. by intros [= <-].
    + rewrite lookup_insert_ne by done. rewrite Hgot by done. apply Ho.
  - intros id' Hin. rewrite Es in Hin. rewrite Eo. destruct (decide (id' = id)) as [->|Hne].
    + rewrite lookup_insert_eq. eauto.
    + rewrite lookup_insert_ne by done. by apply Hs.
  - intros rid id' E. rewrite Es, Eo.
    assert (Hold : sv_client_connections s !! rid = Some id' -> id' ∈ sv_states s /\
      exists cn0, <[id := cn']> (sv_objects s) !! id' = Some cn0 /\ cn_stage cn0 = authenticated /\
        cn_registry_id cn0 = rid \/ id' = id /\ cn_stage cn = authenticated /\ cn_registry_id cn = rid).
    { intros E0. destruct (Hc _ _ E0) as (Hin & cn0 & E1 & E2 & E3). split; [done|].
      destruct (decide (id' = id)) as [->|Hne].
      - rewrite Hid in E1. injection E1 as <-. exists cn. by right.
      - exists cn0. left. by rewrite lookup_insert_ne. }
    destruct Hcl as [Ec Er Hst|Hns Hst Hin Ec]; rewrite Ec in E.
    + destruct (Hold E) as (Hin & cn0 & [H0|(-> & E1 & E2)]); split; try done; [by exists cn0|].
      exists cn'. rewrite lookup_insert_eq, Er. auto.
    + rewrite Eid in *. apply lookup_insert_Some in E as [[<- <-]|[Hne E]].
      * split; [done|]. exists cn'. by rewrite lookup_insert_eq.
      * destruct (Hold E) as (Hin' & cn0 & [H0|(-> & E1 & E2)]); [split; [done|]; by exists cn0|done].
Qed.

Lemma new_connection_sound R I got id source :
  sound_object bcrypt_hmac R I got id (new_connection id source).
Proof using Type.
  split_and!; try done; try apply suffix_nil. by apply vouched_other.
Qed.

Lemma sound_connected R I got s id source :
  sound R I got s -> sound R I got (on_connected s id source).
Proof using Type.
  intros Hs. unfold on_connected. destruct (sv_objects s !! id) as [cn|] eqn:E; [done|].
  destruct Hs as [Ho Hst Hc]. split; cbn.
  - intros id' cn'. destruct (decide (id' = id)) as [->|Hne].
    + rewrite lookup_insert_eq. intros [= <-]. apply new_connection_sound.
    + rewrite lookup_insert_ne by done. apply Ho.
  - intros id' [Hin|Hin]%elem_of_union.
    + apply elem_of_singleton in Hin as ->. rewrite lookup_insert_eq. eauto.
    + destruct (decide (id' = id)) as [->|Hne]; [rewrite lookup_insert_eq; eauto|].
      rewrite lookup_insert_ne by done. by apply Hst.
  - intros rid id' E1. destruct (Hc _ _ E1) as (Hin & cn & E2 & ?).
    split; [by apply elem_of_union_r|].
    exists cn. rewrite lookup_insert_ne; [done|]. intros ->. congruence.
Qed.

Lemma sound_disconnected R I got s id now : sound R I got s -> sound R I got (on_disconnected s id now).
Proof using Type.
  intros Hs. unfold on_disconnected. case_bool_decide as Hin; [|done]. destruct Hs as [Ho Hst Hc].
  destruct (Hst _ Hin) as [cn Ecn]. rewrite Ecn.
  assert (forall rid, sv_client_connections s !! rid = Some id ->
    rid = cn_registry_id cn /\ cn_registry_id cn <> 0) as Hmine.
  { intros rid E. destruct (Hc _ _ E) as (_ & cn' & E1 & E2 & E3). rewrite Ecn in E1.
    injection E1 as <-. split; [done|]. destruct (Ho _ _ Ecn) as (_ & _ & _ & _ & _ & (_ & _ & _ & Ha)).
    destruct (Ha E2) as (? & ? & _ & (_ & _ & ->) & _). apply registry_id_for_nonzero. }
  unfold drop_pending_pairings_for, with_pending, release_client. cbn.
  case_bool_decide as Hown; split; cbn; try done.
  - intros id' [Hin' _]%elem_of_difference. by apply Hst.
  - intros rid id' [Hne E]%lookup_delete_Some. destruct (Hc _ _ E) as (Hin' & Hcn).
    split; [|done]. apply elem_of_difference. split; [done|]. intros ->%elem_of_singleton.
    destruct (Hmine _ E). congruence.
  - intros id' [Hin' _]%elem_of_difference. by apply Hst.
  - intros rid id' E. destruct (Hc _ _ E) as (Hin' & Hcn). split; [|done].
    apply elem_of_difference. split; [done|]. intros ->%elem_of_singleton.
    destruct (Hmine _ E) as [-> Hz]. by destruct Hown.
Qed.

(** A command sent to a connection moves its sequence number only. *)
Lemma sound_sent R I got s id cn q :
  sound R I got s -> sv_objects s !! id = Some cn ->
  sound R I got (store_object s {| cn with cn_send_sequence := q |}).
Proof using Type.
  intros Hs Ecn. pose proof Hs as [Ho _ _].
  eapply (sound_turn _ _ got got s id cn s); try done; [by apply (Ho _ _ Ecn)|].
  by apply claims_nothing.
Qed.

Lemma sound_send_authenticated R I got s s0 id cn (env : Env K) type rid payload b cn' s' :
  clients_of s0 = clients_of s -> sound R I got s -> sv_objects s !! id = Some cn ->
  send_authenticated bcrypt_hmac env s0 cn type rid payload = (b, cn', s') ->
  sound R I got (store_object s' cn').
Proof using Type.
  intros Ec Hs Ecn [E [q ->]]%send_authenticated_spec. injection E as E1 E2 E3 E4 _ _ _.
  injection Ec as F1 F2 F3 F4.
  eapply (sound_clients_of _ _ _ (store_object s {| cn with cn_send_sequence := q |})).
  - unfold store_object, clients_of. cbn. congruence.
  - by eapply sound_sent.
Qed.

Lemma sound_send_command R I got s (env : Env K) client_id type payload :
  sound R I got s -> sound R I got (send_command bcrypt_hmac env s client_id type payload).2.
Proof using Type.
  intros Hs. unfold send_command. destruct (state_for_client s client_id) as [cn|] eqn:E; [|done].
  destruct (_ || _); [done|]. cbn [take_request_id].
  destruct (send_authenticated _ _ _ _ _ _ _) as [[b cn'] s'] eqn:Es. cbn.
  unfold state_for_client in E. destruct (sv_client_connections s !! client_id) as [id|]; [|done].
  case_bool_decide; [|done]. by refine (sound_send_authenticated _ _ _ _ _ _ _ _ _ _ _ _ _ _ _ Hs E Es).
Qed.

Lemma sound_broadcast R I got s (env : Env K) type payload :
  sound R I got s -> sound R I got (broadcast_command bcrypt_hmac env s type payload).2.
Proof using Type.
  intros Hs. unfold broadcast_command. cbv zeta. destruct (bool_decide _); [done|].
  generalize (List.filter (fun id => bool_decide (id ∈ sv_states s))
    (map snd (map_to_list (sv_client_connections s)))). intros ids.
  generalize true. revert s Hs. induction ids as [|id ids IH]; intros s Hs ok; [done|].
  cbn [fold_left]. unfold broadcast_to at 2.
  destruct (sv_objects s !! id) as [cn|] eqn:E; [|by apply IH].
  destruct (_ || _); [by apply IH|]. cbn [take_request_id].
  destruct (send_authenticated _ _ _ _ _ _ _) as [[b cn'] s'] eqn:Es.
  apply IH. by refine (sound_send_authenticated _ _ _ _ _ _ _ _ _ _ _ _ _ _ _ Hs E Es).
Qed.

Lemma install_pairing_clients (env : Env K) s record :
  clients_of (install_pairing bcrypt_hmac bcrypt_sha256 env s record).2 = clients_of s.
Proof using Type.
  unfold install_pairing. destruct (Pairing.client_id_from_uuid _ _) as [client_id|]; [|done].
  destruct (Pairing.confirmation_tag _ _ _ _) as [tag|]; [|done].
  destruct (KeyStore.rotate _ _ _) as [[key_id store]|]; [|done].
  destruct (persist_keys _ _ _) as [saved s1] eqn:Ep. apply persist_keys_clients in Ep.
  change (clients_of s1 = clients_of s) in Ep.
  destruct saved; cbn [negb]; [|done]. destruct (bool_decide _); [done|].
  destruct (send _ _ _ _) as [sent s2] eqn:Es. apply send_inv in Es. rewrite settle_still in Es.
  injection Es as E1 E2 E3 E4 _ _ _. rewrite <- Ep. unfold clients_of. destruct sent; cbn; congruence.
Qed.

Lemma approve_clients (env : Env K) s pairing_id :
  clients_of (approve_pairing bcrypt_hmac bcrypt_sha256 env s pairing_id).2 = clients_of s.
Proof using Type.
  unfold approve_pairing. cbn [take_expired].
  match goal with |- context [match ?o with Some _ => _ | None => _ end] =>
    match o with match _ with _ => _ end => destruct o as [record|] end end.
  - by rewrite install_pairing_clients, refuse_abandoned_clients.
  - cbn [snd]. by rewrite refuse_abandoned_clients.
Qed.

Lemma quiet_operation s (op : Operation K) :
  match op with
  | PairingWindow _ _ _ | RoomName _ | Approved _ _ | Rejected _ _ | PairingsExpired _
  | KeysChanged _ => clients_of (step s op) = clients_of s
  | _ => True
  end.
Proof using Type.
  destruct op; try done; cbn.
  - unfold set_pairing_window. destruct open; [done|]. by rewrite refuse_abandoned_clients.
  - unfold set_server_name. by case_match.
  - apply approve_clients.
  - unfold reject_pairing. destruct (sv_pending_pairings s !! pairing_id) as [record|]; [|done].
    cbn. pose proof (settle_still (send_pairing_reject env (drop_pending_pairing s pairing_id)
      (pr_connection_id record) (pr_request_id record) Pairing.operator_declined)
      (pr_connection_id record)) as E. rewrite send_pairing_reject_still in E.
    unfold still, clients_of in *. cbn in E. congruence.
  - cbn [snd]. by rewrite refuse_abandoned_clients.
Qed.

Lemma handed_other s id id' (op : Operation K) input env :
  (op = BytesReceived id' input env \/ op = BytesResumed id' input env) -> id <> id' ->
  handed s id op = [].
Proof using Type.
  intros [-> | ->] Hne; cbn; rewrite (proj2 (Z.eqb_neq id' id)) by congruence; done.
Qed.

Lemma sound_on_bytes R I got got' s id input (env : nat -> Env K) :
  sound R I got s -> (forall c i k, KeyStore.resolve (sv_key_store s) c i = Some k -> R c i k) ->
  (forall n c, drawn (env n) c -> I id c) ->
  (forall id', id' <> id -> got' id' = got id') -> got' id = got id ++ input ->
  sound R I got' (on_bytes bcrypt_hmac bcrypt_sha256 s id input env).
Proof using Type.
  intros Hs HR HI Hgot Hid. unfold on_bytes. destruct (sv_objects s !! id) as [cn|] eqn:E.
  - destruct (on_bytes_body _ _ _ _ _ _) as [cn' s'] eqn:Eb.
    pose proof Hs as [Ho _ _]. pose proof (Ho _ _ E) as Hcn.
    apply (on_bytes_body_spec _ _ R (I id) _ (got id) id) in Eb as (Hcn' & Hcl & Eo & Es); [|done..].
    rewrite <- Hid in Hcn'. by eapply sound_turn.
  - destruct Hs as [Ho Hst Hc]. split; [|done..]. intros id' cn E'.
    rewrite Hgot; [by apply Ho|]. congruence.
Qed.

Lemma sound_ext R I got got' s : (forall id, got' id = got id) -> sound R I got s -> sound R I got' s.
Proof using Type. intros E [Ho Hst Hc]. split; [|done..]. intros id cn. rewrite E. apply Ho. Qed.

(** A challenge drawn while a connection was having its turn. *)
Definition issued_in (id : Z) (op : Operation K) (challenge : AuthChallenge) : Prop :=
  match op with
  | BytesReceived id' _ env | BytesResumed id' _ env =>
      id' = id /\ exists n, drawn (env n) challenge
  | _ => False
  end.

Lemma sound_perform R I got s (op : Operation K) :
  sound R I got s -> (forall c i k, KeyStore.resolve (sv_key_store s) c i = Some k -> R c i k) ->
  (forall id c, issued_in id op c -> I id c) ->
  sound R I (fun id => got id ++ handed s id op) (step s op).
Proof using Type.
  intros Hs HR HI.
  destruct op as [| id input env| id input env | | | | | | | | | |]; cbn [ServerRuns.perform];
    try (eapply (sound_ext _ _ got); [intros; cbn; by rewrite app_nil_r|]).
  - by apply sound_connected.
  - case_bool_decide as Hin.
    + apply (sound_on_bytes _ _ got); [done|done|by intros n c Hd; apply HI; split; [|exists n]| |].
      * intros id' Hne. rewrite (handed_other _ _ id _ input env); [by rewrite app_nil_r|by left|done].
      * cbn. by rewrite Z.eqb_refl, bool_decide_eq_true_2 by done.
    + eapply (sound_ext _ _ got); [|done]. intros id'. cbn. destruct (Z.eqb_spec id id') as [->|].
      * by rewrite bool_decide_eq_false_2, app_nil_r by done.
      * by rewrite app_nil_r.
  - apply (sound_on_bytes _ _ got); [done|done|by intros n c Hd; apply HI; split; [|exists n]| |].
    + intros id' Hne. rewrite (handed_other _ _ id _ input env); [by rewrite app_nil_r|by right|done].
    + cbn. by rewrite Z.eqb_refl.
  - by apply sound_disconnected.
  - eapply sound_clients_of; [|done]. apply (quiet_operation s (PairingWindow open name env)).
  - eapply sound_clients_of; [|done]. apply (quiet_operation s (RoomName name)).
  - eapply sound_clients_of; [|done]. apply (quiet_operation s (Approved pairing_id env)).
  - eapply sound_clients_of; [|done]. apply (quiet_operation s (Rejected pairing_id env)).
  - eapply sound_clients_of; [|done]. apply (quiet_operation s (PairingsExpired env)).
  - by apply sound_send_command.
  - by apply sound_broadcast.
  - unfold send_chat. destruct (_ || _); [done|].
    pose proof (sound_send_command R I got s env client_id CT_chat message Hs) as Hc.
    destruct (send_command _ _ _ _ _ _) as [[] s1]; [|done]. cbn. unfold record_chat.
    case_match; [done|]. by apply (sound_clients_of R I got s1).
  - by apply (sound_clients_of R I got s).
Qed.

(** A server nobody has connected to yet. *)
Definition idle (s : Server) : Prop :=
  sv_objects s = ∅ /\ sv_states s = ∅ /\ sv_client_connections s = ∅.

(** Some earlier state of the run resolved the key. *)
Definition resolved (s0 : Server) (ops : list (Operation K)) (c : bytes) (i : Z) (key : bytes) : Prop :=
  exists before after, ops = before ++ after /\
    KeyStore.resolve (sv_key_store (reach s0 before)) c i = Some key.

Lemma resolved_snoc s0 ops op c i key : resolved s0 ops c i key -> resolved s0 (ops ++ [op]) c i key.
Proof using Type. intros (b & a & -> & E). exists b, (a ++ [op]). by rewrite app_assoc. Qed.

(** A challenge of this connection, drawn in the run. *)
Definition issued (ops : list (Operation K)) (id : Z) (challenge : AuthChallenge) : Prop :=
  exists op, op ∈ ops /\ issued_in id op challenge.

Lemma run_sound s0 ops : idle s0 ->
  sound (resolved s0 ops) (issued ops) (fun id => given id s0 ops) (reach s0 ops).
Proof using Type.
  intros (E1 & E2 & E3). induction ops as [|op ops IH] using rev_ind.
  - split; cbn; rewrite ?E1, ?E2, ?E3.
    + intros id cn E. by rewrite lookup_empty in E.
    + intros id Hin. by apply elem_of_empty in Hin.
    + intros rid id E. by rewrite lookup_empty in E.
  - rewrite run_snoc. eapply (sound_ext _ _ (fun id => given id s0 ops ++ handed (reach s0 ops) id op)).
    { intros id. apply received_snoc. }
    apply sound_perform.
    + eapply sound_weaken; [| |exact IH]; [intros; by apply resolved_snoc|].
      intros id c (o & Hin & Hi). exists o. split; [by apply elem_of_app; left|done].
    + intros c i k E. exists ops, [op]. by split.
    + intros id c Hi. exists op. split; [apply elem_of_app; right; by left|done].
Qed.

(** ** Properties *)

(** What the client's entry stands for, without an attacker in mind. *)
Lemma connected_client s0 ops registry_id id :
  idle s0 -> sv_client_connections (reach s0 ops) !! registry_id = Some id ->
  exists cn key proof, sv_objects (reach s0 ops) !! id = Some cn /\ id ∈ sv_states (reach s0 ops) /\
    registry_id = registry_id_for (ah_client_id (cn_hello cn)) /\
    wf_hello (cn_hello cn) /\ issued ops id (cn_challenge cn) /\
    resolved s0 ops (ah_client_id (cn_hello cn)) (ah_key_id (cn_hello cn)) key /\
    proven bcrypt_hmac key cn proof /\ heard (given id s0 ops) (proof_frame cn proof).
Proof using Type.
  intros Hi Hc. pose proof (run_sound s0 ops Hi) as [Ho _ Hcl].
  destruct (Hcl _ _ Hc) as (Hin & cn & Ecn & Est & Erg).
  destruct (Ho _ _ Ecn) as (_ & _ & _ & _ & _ & (_ & _ & Hd & Ha)).
  destruct (Ha Est) as (key & proof & HR & Hp & Hh). destruct (Hd (or_intror Est)) as [Hw Hch].
  exists cn, key, proof. split_and!; try done. destruct Hp as (_ & _ & E). congruence.
Qed.

(** C10. Who a connected client is.  In every state the control plane reaches, with
    connections coming and going, bytes in any pieces, the operator's pairings,
    approvals and commands and changes of the keys in any order, and against an
    attacker who sends any bytes but cannot forge MACs: when the server lists a
    connection as a client's, then that connection is open, its hello names that
    client, the client's key was the one the store resolved at an earlier moment
    of the run, a holder of that key computed the proof for exactly this hello and
    exactly the challenge that was drawn for this connection, and the session key
    is the one that both derive from the key, the hello and the challenge. *)
Theorem connected_client_holds_the_key s0 (ops : list (Operation K)) (registry_id id : Z)
    (published : bytes -> list AuthMessage) :
  idle s0 -> sv_client_connections (reach s0 ops) !! registry_id = Some id ->
  (forall c, issued ops id c -> wf_challenge c) ->
  (forall key, Handshake.unforged_macs bcrypt_hmac key (published key) (given id s0 ops)) ->
  exists cn key before after,
    sv_objects (reach s0 ops) !! id = Some cn /\ id ∈ sv_states (reach s0 ops) /\
    registry_id = registry_id_for (ah_client_id (cn_hello cn)) /\
    ops = before ++ after /\
    KeyStore.resolve (sv_key_store (reach s0 before)) (ah_client_id (cn_hello cn))
      (ah_key_id (cn_hello cn)) = Some key /\
    issued ops id (cn_challenge cn) /\
    ClientProof (cn_hello cn) (cn_challenge cn) ∈ published key /\
    derive_session_key bcrypt_hmac key (cn_hello cn) (cn_challenge cn) = Some (cn_session_key cn).
Proof using Type.
  intros Hi Hc Hdraws Hu. apply (connected_client _ _ _ _ Hi) in Hc
    as (cn & key & proof & Ecn & Hin & Er & Hw & Hch & (b & a & -> & Hres) & Hp & Hwf & pre & post & Eg).
  exists cn, key, b, a. destruct Hp as (Hp & Hd & _). split_and!; try done.
  rewrite encode_frame_eq in Eg by done. cbn [proof_frame Handshake.handshake_frame tf_payload] in Eg.
  unfold proof_frame, Handshake.handshake_frame in Eg. cbn [tf_payload tf_envelope] in Eg.
  rewrite !app_assoc, <- (app_assoc _ proof) in Eg.
  eapply (Handshake.unforged_message _ _ _ _ (ClientProof _ _)); [apply Hu|by split; [|apply Hdraws]| |exact Eg].
  by apply Handshake.client_proof_mac.
Qed.

(** ** Connections that have been superseded *)

Lemma current_same s cn s' cn' :
  command_outcome s cn s' cn' -> is_current_state s' cn' = is_current_state s cn.
Proof.
  intros (Ef & _ & Es & Ec & _). unfold session_fields, handshake_fields in Ef.
  injection Ef as Eh _ _ Ei _ _ _ Er Est. unfold is_current_state, is_live_state.
  by rewrite Eh, Ei, Er, Est, Es, Ec.
Qed.

Lemma command_trans s cn s1 cn1 s2 cn2 :
  command_outcome s cn s1 cn1 -> command_outcome s1 cn1 s2 cn2 -> command_outcome s cn s2 cn2.
Proof.
  intros H1 H2. pose proof (current_same _ _ _ _ H1) as Ecur.
  destruct H1 as (?&?&?&?&?&?&Hr1), H2 as (?&?&?&?&?&?&Hr2). split_and!; try congruence.
  intros E. rewrite Hr2 by congruence. auto.
Qed.

Lemma authenticated_frames frames : forall (env : nat -> Env K) s cn cn' s',
  cn_stage cn = authenticated ->
  process_frames bcrypt_hmac bcrypt_sha256 env s cn frames = (cn', s') -> command_outcome s cn s' cn'.
Proof using Type.
  induction frames as [|frame rest IH]; intros env s cn cn' s' Hst; cbn.
  - intros [= <- <-]. by split_and!.
  - unfold process_frame. rewrite Hst.
    destruct (process_authenticated _ _ _ _ _) as [[continue cn1] s1] eqn:Ef.
    apply authenticated_spec in Ef. destruct continue; cbn [negb]; [|by intros [= <- <-]].
    intros Hr. eapply command_trans; [exact Ef|]. eapply IH; [|exact Hr].
    destruct Ef as (Ef & _). unfold session_fields in Ef. congruence.
Qed.

Lemma on_bytes_authenticated (env : nat -> Env K) s cn input cn' s' :
  cn_stage cn = authenticated ->
  on_bytes_body bcrypt_hmac bcrypt_sha256 env s cn input = (cn', s') ->
  sv_states s' = sv_states s /\ sv_client_connections s' = sv_client_connections s /\
  sv_key_store s' = sv_key_store s /\ pairings_of s' = pairings_of s /\
  (is_current_state s cn = false -> sv_registry s' = sv_registry s).
Proof using Type.
  intros Hst. unfold on_bytes_body. rewrite bool_decide_eq_false_2 by (by rewrite Hst).
  case_bool_decide; [by intros [= <- <-]|].
  destruct (feed _ _ _) as [[[[] buffer] frames]|]; [|by intros [= <- <-]..].
  intros Hf. apply authenticated_frames in Hf; [|done].
  by destruct Hf as (_ & _ & ? & ? & ? & ? & ?).
Qed.

Lemma turn_of_superseded s (env : nat -> Env K) id cn input :
  sv_objects s !! id = Some cn -> cn_stage cn = authenticated -> is_current_state s cn = false ->
  let s' := on_bytes bcrypt_hmac bcrypt_sha256 s id input env in
  sv_registry s' = sv_registry s /\ sv_client_connections s' = sv_client_connections s /\
  sv_key_store s' = sv_key_store s.
Proof using Type.
  intros Ecn Hst Hcur. unfold on_bytes. rewrite Ecn.
  destruct (on_bytes_body _ _ _ _ _ _) as [cn' s'] eqn:Eb.
  apply on_bytes_authenticated in Eb; [|done]. destruct Eb as (? & ? & ? & ? & Hr). cbn. auto.
Qed.

(** C11. A connection that lost its client is inert.  Once an authenticated
    connection has been removed, or its client has connected again, whatever
    bytes arrive on it, also in a call that started before, and whenever the late
    notice of its removal comes, the registry, the clients' connections and the
    keys stay as they are: the new connection's status and protection evidence
    cannot be undone by the old one. *)
Theorem superseded_connection_is_inert s0 (ops : list (Operation K)) id cn input
    (env : nat -> Env K) now op :
  idle s0 -> let s := reach s0 ops in
  sv_objects s !! id = Some cn -> cn_stage cn = authenticated ->
  (id ∉ sv_states s \/
   sv_client_connections s !! registry_id_for (ah_client_id (cn_hello cn)) <> Some id) ->
  op ∈ [BytesReceived id input env; BytesResumed id input env; Disconnected id now] ->
  let s' := step s op in
  sv_registry s' = sv_registry s /\ sv_client_connections s' = sv_client_connections s /\
  sv_key_store s' = sv_key_store s.
Proof using Type.
  intros Hi s Ecn Hst Hlost Hop. pose proof (run_sound s0 ops Hi) as [Ho _ _]. fold s in Ho.
  destruct (Ho _ _ Ecn) as (Eid & _ & _ & _ & _ & (_ & _ & _ & Ha)).
  destruct (Ha Hst) as (? & ? & _ & (_ & _ & Er) & _).
  assert (is_current_state s cn = false) as Hcur.
  { unfold is_current_state, is_live_state. rewrite Er, Eid.
    destruct Hlost as [Hl|Hl]; [by rewrite bool_decide_eq_false_2|].
    by rewrite (bool_decide_eq_false_2 _ Hl), andb_false_r. }
  apply elem_of_cons in Hop as [->|Hop]; [|apply elem_of_cons in Hop as [->|Hop]];
    [| |apply list_elem_of_singleton in Hop as ->]; cbn.
  - case_bool_decide; [|done]. by apply (turn_of_superseded _ _ _ cn).
  - by apply (turn_of_superseded _ _ _ cn).
  - unfold on_disconnected. case_bool_decide as Hin; [|done]. rewrite Ecn, Er.
    unfold release_client. cbn. rewrite bool_decide_eq_false_2; [done|].
    intros [_ E]. destruct Hlost as [Hl|Hl]; [by apply Hl|by apply Hl].
Qed.
End Invariant.

(** ** Examples *)

#[export] Instance no_keys : Pairing.KeyProvider unit := {
  Pairing.bcrypt_import _ _ := false;
  Pairing.bcrypt_secret_agreement _ _ := false;
  Pairing.bcrypt_secret_size _ _ := None;
  Pairing.bcrypt_secret _ _ := None
}.

Definition no_calls : Pairing.GenerateCalls unit :=
  Pairing.mkGenerateCalls false false false (fun _ _ => None) (fun _ => false) (fun _ => None)
    (fun _ => None).

Definition sample_env (nonce : bytes) (unix_now : Z) (n : nat) : Env unit :=
  mkEnv 5 5 unix_now (fun _ => true) (fun _ => true) (Some nonce) no_calls 5 true true None.

Definition sample_client : bytes := repeat (byte_of 7) 16.

Definition sample_server : Server :=
  mkServer ∅ ∅ ∅ ∅
    {[KeyStore.make_lookup_key sample_client 1 :=
        KeyStore.mkKeyRecord sample_client 1 Handshake.sample_psk false]}
    None (replay_create 16 120) false [] ∅ 1 ∅ false ∅ 1 [].

Definition sample_ops : list (Operation unit) :=
  [Connected 1 (text "10.0.0.7");
   BytesReceived 1 Handshake.sample_from_client
     (sample_env (ac_server_nonce sample_challenge) (ac_unix_time_seconds sample_challenge))].

Definition no_sha256 (_ : bytes) : option bytes := None.

Lemma sample_run_connects :
  sv_client_connections (run Handshake.table_hmac no_sha256 sample_server sample_ops)
    !! registry_id_for sample_client = Some 1.
Proof. vm_compute. reflexivity. Qed.

Lemma sample_run_unforged key :
  Handshake.unforged_macs Handshake.table_hmac key [ClientProof sample_hello sample_challenge]
    (received Handshake.table_hmac no_sha256 1 sample_server sample_ops).
Proof.
  assert (received Handshake.table_hmac no_sha256 1 sample_server sample_ops =
    Handshake.sample_from_client) as -> by (vm_compute; reflexivity).
  assert (Hbad : forallb (fun tag => negb (Handshake.occurs tag Handshake.sample_from_client))
    [Handshake.digest_of 0xa2; Handshake.digest_of 0xa3; Handshake.digest_of 0xee] = true)
    by (vm_compute; reflexivity).
  cbn [forallb] in Hbad. bool_to_prop.
  apply Handshake.table_unforged. intros m tag. unfold Handshake.table_hmac. intros [= <-] Hocc.
  repeat case_bool_decide; try congruence.
  exists (ClientProof sample_hello sample_challenge). split; [by left|].
  split; [split; [apply Handshake.sample_hello_wf|apply Handshake.sample_challenge_wf]|].
  by match goal with H : _ /\ _ = _ |- _ => destruct H end.
Qed.

Lemma sample_draws c : issued sample_ops 1 c -> wf_challenge c.
Proof.
  intros (op & Hin & Hi). apply elem_of_cons in Hin as [->|Hin]; [done|].
  apply list_elem_of_singleton in Hin as ->. destruct Hi as (_ & n & nonce & E & ->).
  injection E as <-. apply Handshake.sample_challenge_wf.
Qed.

Lemma connected_client_holds_the_key_witness :
  exists cn key before after,
    sv_objects (run Handshake.table_hmac no_sha256 sample_server sample_ops) !! 1 = Some cn /\
    sample_ops = before ++ after /\
    KeyStore.resolve (sv_key_store (run Handshake.table_hmac no_sha256 sample_server before))
      (ah_client_id (cn_hello cn)) (ah_key_id (cn_hello cn)) = Some key /\
    ClientProof (cn_hello cn) (cn_challenge cn) ∈ [ClientProof sample_hello sample_challenge].
Proof.
  assert (idle sample_server) as Hi by by split_and!.
  destruct (connected_client_holds_the_key Handshake.table_hmac no_sha256 sample_server sample_ops
    (registry_id_for sample_client) 1 (fun _ => [ClientProof sample_hello sample_challenge]) Hi
    sample_run_connects sample_draws sample_run_unforged)
    as (cn & key & b & a & H1 & _ & _ & H2 & H3 & _ & H4 & _).
  exists cn, key, b, a. exact (conj H1 (conj H2 (conj H3 H4))).
Defined.

(** The client connects again while its first connection is still there. *)
Definition second_hello : AuthHello :=
  mkAuthHello sample_client (repeat (byte_of 8) 32) 1000 1.

Definition second_ops : list (Operation unit) :=
  sample_ops ++
  [Connected 2 (text "10.0.0.7");
   BytesReceived 2
     (Handshake.sent_in_full (Handshake.client_sends Handshake.sample_rid 1 second_hello
        (Handshake.digest_of 0xee)))
     (sample_env (ac_server_nonce sample_challenge) (ac_unix_time_seconds sample_challenge))].

Definition second_server : Server :=
  run Handshake.table_hmac no_sha256 sample_server second_ops.

Lemma second_run_supersedes :
  option_map (fun cn => (bool_decide (cn_stage cn = authenticated), ah_client_id (cn_hello cn)))
    (sv_objects second_server !! 1) = Some (true, sample_client) /\
  sv_client_connections second_server !! registry_id_for sample_client = Some 2.
Proof. split; vm_compute; reflexivity. Qed.

Lemma superseded_connection_is_inert_witness :
  sv_registry (perform Handshake.table_hmac no_sha256 second_server (Disconnected 1 9)) =
    sv_registry second_server /\
  sv_client_connections (perform Handshake.table_hmac no_sha256 second_server (Disconnected 1 9)) =
    sv_client_connections second_server.
Proof.
  assert (idle sample_server) as Hi by by split_and!.
  pose proof second_run_supersedes as [H1 H2].
  destruct (sv_objects second_server !! 1) as [cn|] eqn:Ecn; [|discriminate H1].
  cbn in H1. injection H1 as Hst Hc. apply bool_decide_eq_true in Hst. unfold second_server in Ecn.
  destruct (superseded_connection_is_inert Handshake.table_hmac no_sha256 sample_server second_ops 1
    cn [] (sample_env [] 0) 9 (Disconnected 1 9) Hi Ecn Hst) as (E1 & E2 & _).
  - right. rewrite Hc. intros E. pose proof (eq_trans (eq_sym H2) E) as E2. discriminate E2.
  - right. right. left.
  - exact (conj E1 E2).
Defined.
End ServerRuns.
