(* ===== verification/PairingRuns.v ===== *)
(** Pairing over runs of the control plane (server/src/control_plane.cpp): the
    bounds of the table of pending requests, and what stands behind a key that
    the operator's approval installs. *)

From S2P Require Import Prelude Wire Codec Protocol Auth KeyStore ControlChannel Handshake Pairing.
From S2P Require Import Enrollment Discovery ServerState PairingServer ServerConnection ServerRuns.

Module PairingRuns.
Import Protocol Auth ControlChannel ServerState PairingServer ServerConnection ServerRuns.

Section Tables.
Context {K : Type} `{Pairing.KeyProvider K} {GCM : AesGcm}.
Context (bcrypt_hmac : bytes -> bytes -> option bytes) (bcrypt_sha256 : bytes -> option bytes).

(** ** How one turn changes the table *)

(** The window stays; a record of the table was there before or is as [G] says;
    there are never more than sixteen after sixteen, and none while the window is
    closed. *)
Record table_step (G : PendingPairingRecord -> Prop) (s s' : Server) : Prop := {
  ts_window : sv_pairing_window_open s' = sv_pairing_window_open s;
  ts_records : forall pid r, sv_pending_pairings s' !! pid = Some r ->
    sv_pending_pairings s !! pid = Some r \/ G r;
  ts_size : (size (sv_pending_pairings s') <= Nat.max (size (sv_pending_pairings s)) 16)%nat;
  ts_closed : sv_pairing_window_open s = false -> sv_pending_pairings s = ∅ ->
    sv_pending_pairings s' = ∅
}.

Lemma table_same G s s' : pairings_of s' = pairings_of s -> table_step G s s'.
Proof. intros [= Ep Ew]. split; rewrite ?Ep; auto. lia. Qed.

Lemma table_trans G s s1 s2 : table_step G s s1 -> table_step G s1 s2 -> table_step G s s2.
Proof.
  intros [W1 R1 S1 C1] [W2 R2 S2 C2]. split; [congruence| |lia|].
  - intros pid r E. destruct (R2 _ _ E) as [E1|]; [|auto]. by apply R1.
  - intros Hw He. apply C2; [congruence|auto].
Qed.

(** Records only taken away. *)
Lemma table_fewer G s s' :
  sv_pairing_window_open s' = sv_pairing_window_open s ->
  sv_pending_pairings s' ⊆ sv_pending_pairings s -> table_step G s s'.
Proof.
  intros Hw Hsub. split; [done| | |].
  - intros pid r E. left. by eapply lookup_weaken.
  - apply map_subseteq_size in Hsub. lia.
  - intros _ He. rewrite He in Hsub. apply map_empty. intros i.
    destruct (_ !! i) as [r|] eqn:E; [|done]. by apply (lookup_weaken _ _ _ _ E) in Hsub.
Qed.

Lemma still_table G s s' : still s' = still s -> table_step G s s'.
Proof. intros E. apply table_same. unfold still in E. congruence. Qed.

Lemma table_send G (env : Env K) s id wire sent s' :
  send env s id wire = (sent, s') -> table_step G s s'.
Proof using Type. intros E%send_inv. by apply still_table. Qed.

Lemma refuse_pairing_table G (env : Env K) s cn rid reason detail b cn' s' :
  refuse_pairing env s cn rid reason detail = (b, cn', s') -> table_step G s s'.
Proof using Type.
  intros [= <- <- <-]. eapply table_trans; [|by apply table_same].
  apply still_table, send_pairing_reject_still.
Qed.

Lemma heartbeat_table G (env : Env K) s cn frame b cn' s' :
  answer_pairing_heartbeat env s cn frame = (b, cn', s') -> table_step G s s'.
Proof using Type.
  unfold answer_pairing_heartbeat. case_match; [intros [= <- <- <-]; by apply table_same|].
  destruct (send _ _ _ _) as [sent s1] eqn:Es. intros [= <- <- <-].
  by apply (table_send G) in Es.
Qed.

Lemma take_expired_table G s now : table_step G s (take_expired s now).2.
Proof. apply table_fewer; [done|]. cbn. apply map_filter_subseteq. Qed.

Lemma drop_table G s pid : table_step G s (drop_pending_pairing s pid).
Proof. apply table_fewer; [done|]. cbn. apply delete_subseteq. Qed.

Lemma persist_table G (env : Env K) s previous saved s' :
  persist_keys env s previous = (saved, s') -> table_step G s s'.
Proof using Type. unfold persist_keys. case_match; intros [= <- <-]; by apply table_same. Qed.

(** ** What a record stands for *)

(** Its secrets come from an agreement with the client's public key, over its own
    transcript. *)
Definition derived (r : PendingPairingRecord) : Prop :=
  exists (key_pair : Pairing.EphemeralKeyPair K) shared,
    Pairing.agree key_pair (Pairing.pt_client_public_key (pr_transcript r)) = Ok shared /\
    Pairing.public_key key_pair = Pairing.pt_server_public_key (pr_transcript r) /\
    Pairing.derive_pairing_secrets bcrypt_hmac bcrypt_sha256 shared (pr_transcript r) =
      Some (pr_secrets r).

(** The client's tag over the record's transcript, in a confirmation frame. *)
Definition tagged (r : PendingPairingRecord) (frame : TcpFrame) : Prop :=
  ce_type (tf_envelope frame) = command_type_value CT_pairing_confirm /\
  Pairing.confirmation_tag bcrypt_hmac (pr_secrets r) (pr_transcript r) Pairing.role_client =
    Some (tf_payload frame).

(** [H frame]: it was heard; [T now]: the clock showed it. *)
Definition stands (H : TcpFrame -> Prop) (T : Z -> Prop) (r : PendingPairingRecord) : Prop :=
  derived r /\
  (pr_client_confirmed r = true ->
   (exists frame, H frame /\ tagged r frame) /\
   exists now, T now /\ pr_expires_at r = now + kPairingApprovalWindow).

Lemma answer_hello_derived (env : Env K) hello offer transcript secrets pid cid rid addr t c :
  answer_hello bcrypt_hmac bcrypt_sha256 env hello = inl (offer, transcript, secrets) ->
  derived (mkPendingPairingRecord pid cid rid addr transcript secrets t c).
Proof using Type.
  unfold answer_hello. destruct (Pairing.generate _) as [key_pair|]; [|done].
  destruct (negb _); [done|]. destruct (ev_random env) as [nonce|]; [|done].
  destruct (Pairing.make_transcript _ _) as [t'|] eqn:Et; [|done].
  destruct (Pairing.agree _ _) as [shared|] eqn:Ea; [|done].
  destruct (Pairing.derive_pairing_secrets _ _ _ _) as [sec|] eqn:Ed; [|done].
  intros [= _ <- <-]. exists key_pair, shared. cbn.
  unfold Pairing.make_transcript in Et. destruct (_ || _); [done|]. destruct (negb _); [done|].
  injection Et as <-. by split_and!.
Qed.

Lemma admit_table (G : PendingPairingRecord -> Prop) (env : Env K) s cn rid transcript secrets r s' :
  (forall pid t, G (mkPendingPairingRecord pid (cn_connection_id cn) rid (cn_source cn) transcript
     secrets t false)) ->
  admit_pairing env s cn rid transcript secrets = (r, s') -> table_step G s s'.
Proof using Type.
  intros HG. unfold admit_pairing. destruct (sv_pairing_window_open s) eqn:Ew; cbn [negb];
    [|intros [= <- <-]; by apply table_same].
  destruct (Z.geb_spec (Z.of_nat (size (sv_pending_pairings s))) kMaximumPendingPairings);
    [intros [= <- <-]; by apply table_same|].
  destruct (sv_pending_pairings s !! sv_next_pairing_id s) as [r0|] eqn:En; intros [= <- <-].
  { apply table_same. unfold pairings_of. cbn. congruence. }
  split; cbn; [done| | |congruence].
  - intros pid r'. rewrite lookup_insert_Some. intros [[_ <-]|[_ E]]; [right; apply HG|by left].
  - rewrite map_size_insert_None by done. unfold kMaximumPendingPairings in *. lia.
Qed.

Lemma refuse_abandoned_table G (env : Env K) s abandoned reason :
  table_step G s (refuse_abandoned env s abandoned reason).
Proof using Type. apply still_table, refuse_abandoned_still. Qed.

Section Turn.
Context (H0 : TcpFrame -> Prop) (T : Z -> Prop).

Lemma hello_table (env : Env K) s cn frame b cn' s' :
  process_pairing_hello bcrypt_hmac bcrypt_sha256 env s cn frame = (b, cn', s') ->
  table_step (stands H0 T) s s'.
Proof using Type.
  unfold process_pairing_hello. cbv zeta.
  destruct (Pairing.decode_pairing_hello _) as [hello|]; [|apply refuse_pairing_table].
  destruct (answer_hello _ _ _ _) as [[[offer transcript] secrets]|[reason detail]] eqn:Eh;
    [|apply refuse_pairing_table].
  case_match; [intros [= <- <- <-]; by apply table_same|].
  pose proof (take_expired_table (stands H0 T) s (ev_now env)) as Ht.
  destruct (take_expired s (ev_now env)) as [expired s0]. cbn in Ht.
  destruct (admit_pairing _ _ _ _ _ _) as [admitted s1] eqn:Ea.
  apply (admit_table (stands H0 T)) in Ea.
  2: { intros pid t. split; [|done]. by eapply answer_hello_derived. }
  pose proof (table_trans _ _ _ _ (table_trans _ _ _ _ Ht Ea)
    (refuse_abandoned_table _ env s1 expired Pairing.timed_out)) as H2.
  destruct admitted as [pid|refusal].
  - destruct (send _ _ _ _) as [sent s2] eqn:Es. apply (table_send (stands H0 T)) in Es.
    destruct sent; intros [= <- <- <-]; [by eapply table_trans|].
    eapply table_trans; [by eapply table_trans|]. apply drop_table.
  - intros Hr. eapply table_trans; [exact H2|]. by eapply refuse_pairing_table.
Qed.

Lemma confirm_table (env : Env K) s cn frame b cn' s' :
  (forall pid r, sv_pending_pairings s !! pid = Some r -> derived r) ->
  H0 frame -> T (ev_now env) ->
  process_pairing_confirm bcrypt_hmac env s cn frame = (b, cn', s') ->
  table_step (stands H0 T) s s'.
Proof using Type.
  intros Hd Hh Ht. unfold process_pairing_confirm. cbv zeta.
  case_match; [apply heartbeat_table|].
  destruct (_ || _) eqn:Eg; [intros [= <- <- <-]; by apply table_same|]. bool_to_prop.
  destruct (sv_pending_pairings s !! cn_pairing_id cn) as [record|] eqn:Er;
    [|intros [= <- <- <-]; by apply table_same].
  destruct (confirm_verified _ _ _) eqn:Ev.
  - intros [= <- <- <-]. unfold with_pending. split; cbn; [done| | |].
    + intros pid r. rewrite lookup_insert_Some. intros [[_ <-]|[_ E]]; [right|by left].
      split; [exact (Hd _ _ Er)|]. intros _. split; [|by exists (ev_now env)].
      exists frame. split; [done|]. split; [done|]. unfold confirm_verified in Ev. cbn.
      destruct (Pairing.decode_pairing_confirm (tf_payload frame)) as [confirm|] eqn:Ec; [|done].
      apply Pairing.verify_confirmation_tag_iff in Ev. rewrite Ev. f_equal.
      unfold Pairing.decode_pairing_confirm in Ec. destruct (negb _); [done|].
      by injection Ec as <-.
    + rewrite map_size_insert_Some; [lia|done].
    + intros _ E. rewrite E in Er. by rewrite lookup_empty in Er.
  - intros Hr. eapply table_trans; [apply (drop_table _ s (cn_pairing_id cn))|].
    by eapply refuse_pairing_table.
Qed.

Lemma wait_table (env : Env K) s cn frame b cn' s' :
  process_pairing_wait env s cn frame = (b, cn', s') -> table_step (stands H0 T) s s'.
Proof using Type.
  unfold process_pairing_wait.
  repeat (case_match; [intros [= <- <- <-]; by apply table_same|]). apply heartbeat_table.
Qed.

Lemma enrollment_table (env : Env K) s cn frame b cn' s' :
  process_enrollment bcrypt_hmac env s cn frame = (b, cn', s') -> table_step (stands H0 T) s s'.
Proof using Type.
  unfold process_enrollment. cbv zeta.
  destruct (sv_enrollment_authority s); [|intros [= <- <- <-]; by apply table_same].
  destruct (negb _); [intros [= <- <- <-]; by apply table_same|].
  destruct (Enrollment.decode_enrollment_request _); [|intros [= <- <- <-]; by apply table_same].
  destruct (Enrollment.authority_accept _ _ _ _ _) as [[store|] authority];
    [|intros [= <- <- <-]; by apply table_same].
  destruct (persist_keys _ _ _) as [saved s1] eqn:Ep.
  apply (persist_table (stands H0 T)) in Ep.
  assert (table_step (stands H0 T) s s1) as H1 by (eapply table_trans; [|exact Ep]; by apply table_same).
  destruct saved; cbn [negb].
  2: { intros [= <- <- <-]. apply (table_trans _ _ s1); [done|by apply table_same]. }
  destruct (send _ _ _ _) as [sent s2] eqn:Es. apply (table_send (stands H0 T)) in Es.
  assert (table_step (stands H0 T) s s2) as H2 by by eapply table_trans.
  destruct sent; intros [= <- <- <-]; [|done].
  apply (table_trans _ _ s2); [done|by apply table_same].
Qed.

(** Any frame. *)
Lemma frame_table (env : Env K) s cn frame b cn' s' :
  (forall pid r, sv_pending_pairings s !! pid = Some r -> derived r) ->
  H0 frame -> T (ev_now env) ->
  process_frame bcrypt_hmac bcrypt_sha256 env s cn frame = (b, cn', s') ->
  table_step (stands H0 T) s s'.
Proof using Type.
  intros Hd Hh Ht. unfold process_frame. destruct (cn_stage cn) eqn:Est.
  - intros [= <- <- <-]. by apply table_same.
  - case_match; [apply hello_table|apply enrollment_table].
  - intros [= <- <- <-]. by apply table_same.
  - intros [= <- <- <-]. by apply table_same.
  - by apply confirm_table.
  - apply wait_table.
  - intros (Hs & _)%auth_hello_spec; [|done]. by apply still_table.
  - intros Ho%auth_proof_spec; [|done]. destruct Ho; [by apply still_table|by apply table_same].
  - intros (_ & _ & _ & _ & _ & Hp & _)%authenticated_spec. by apply table_same.
Qed.

Lemma table_derived s s' :
  (forall pid r, sv_pending_pairings s !! pid = Some r -> derived r) ->
  table_step (stands H0 T) s s' ->
  forall pid r, sv_pending_pairings s' !! pid = Some r -> derived r.
Proof using Type. intros Hd Ht pid r E. apply (ts_records _ _ _ Ht) in E as [E|[Hr _]]; eauto. Qed.

Lemma frames_table frames : forall (env : nat -> Env K) s cn cn' s',
  (forall pid r, sv_pending_pairings s !! pid = Some r -> derived r) ->
  Forall H0 frames -> (forall n, T (ev_now (env n))) ->
  process_frames bcrypt_hmac bcrypt_sha256 env s cn frames = (cn', s') ->
  table_step (stands H0 T) s s'.
Proof using Type.
  induction frames as [|frame rest IH]; intros env s cn cn' s' Hd Hh Ht; cbn.
  - intros [= <- <-]. by apply table_same.
  - destruct (process_frame _ _ _ _ _ _) as [[continue cn1] s1] eqn:Ef.
    apply Forall_cons in Hh as [Hh Hrest]. apply frame_table in Ef; [|done..].
    destruct continue; cbn [negb]; [|by intros [= <- <-]].
    intros Hr. eapply table_trans; [exact Ef|].
    apply (IH (fun n => env (S n)) s1 cn1 cn'); try done. by eapply table_derived.
Qed.

Lemma initial_table (env : Env K) s cn input rest cn' s' :
  process_initial env s cn input = (rest, cn', s') -> table_step (stands H0 T) s s'.
Proof using Type.
  unfold process_initial. cbv zeta.
  destruct (_ <? 4); [intros [= <- <- <-]; by apply table_same|].
  destruct (_ =? kMagic); [|intros [= <- <- <-]; by apply table_same].
  destruct (_ <? kConnectionPreambleBytes); [intros [= <- <- <-]; by apply table_same|].
  destruct (decode_connection_preamble _) as [preamble|]; [|intros [= <- <- <-]; by apply table_same].
  destruct (_ =? role_diagnostic).
  - destruct (if bool_decide _ then _ else _) as [sent s1] eqn:E.
    assert (table_step (stands H0 T) s s1) as H1.
    { case_bool_decide; [injection E as <- <-; by apply table_same|].
      by apply (table_send (stands H0 T)) in E. }
    destruct sent; intros [= <- <- <-]; [done|].
    eapply table_trans; [exact H1|]. by apply table_same.
  - destruct (negb _); intros [= <- <- <-]; by apply table_same.
Qed.

(** One read of a connection whose parser holds a suffix of what was given to it. *)
Lemma bytes_table R I got id (env : nat -> Env K) s cn input cn' s' :
  sound_object bcrypt_hmac R I got id cn ->
  (forall pid r, sv_pending_pairings s !! pid = Some r -> derived r) ->
  (forall frame, heard (got ++ input) frame -> H0 frame) -> (forall n, T (ev_now (env n))) ->
  on_bytes_body bcrypt_hmac bcrypt_sha256 env s cn input = (cn', s') ->
  table_step (stands H0 T) s s'.
Proof using Type.
  intros Ho Hd Hh Ht. unfold on_bytes_body.
  destruct (if bool_decide (cn_stage cn = initial) then _ else _) as [[rest cn1] s1] eqn:Ei.
  assert (table_step (stands H0 T) s s1) as H1.
  { case_bool_decide; [by eapply initial_table|]. injection Ei as _ _ <-. by apply table_same. }
  apply (on_bytes_start bcrypt_hmac R I _ got id) in Ei as (_ & _ & _ & _ & _ & _ & _ & Hrest); [|done].
  destruct rest as [rest|]; [|by intros [= <- <-]]. destruct Hrest as [_ Hsuf].
  case_bool_decide; [by intros [= <- <-]|].
  destruct (feed _ _ _) as [[[ok buffer] frames]|] eqn:Ef; [|by intros [= <- <-]].
  apply (feed_suffix _ _ _ _ _ _ Hsuf) in Ef as (_ & Hf & _).
  destruct ok; [intros Hp|intros [= <- <-]; eapply table_trans; [exact H1|]; by apply table_same].
  eapply table_trans; [exact H1|]. eapply frames_table; [| | |exact Hp]; [| |intros n; apply Ht].
  - by eapply table_derived.
  - eapply Forall_impl; [by apply Hf|]. exact Hh.
Qed.
End Turn.
End Tables.

(** ** Runs *)

Section Invariant.
Context {K : Type} `{Pairing.KeyProvider K} {GCM : AesGcm}.
Context (bcrypt_hmac : bytes -> bytes -> option bytes) (bcrypt_sha256 : bytes -> option bytes).

Notation step := (perform bcrypt_hmac bcrypt_sha256).
Notation reach := (run bcrypt_hmac bcrypt_sha256).
Notation given := (received bcrypt_hmac bcrypt_sha256).
Notation derived := (derived (K := K) bcrypt_hmac bcrypt_sha256).
Notation tagged := (tagged bcrypt_hmac).
Notation stands := (stands (K := K) bcrypt_hmac bcrypt_sha256).

(** Never more than sixteen requests, none while the window is closed, and each
    stands for an exchange. *)
Record orderly (H0 : TcpFrame -> Prop) (T : Z -> Prop) (s : Server) : Prop := {
  ord_size : (size (sv_pending_pairings s) <= 16)%nat;
  ord_closed : sv_pairing_window_open s = false -> sv_pending_pairings s = ∅;
  ord_records : forall pid r, sv_pending_pairings s !! pid = Some r -> stands H0 T r
}.

Lemma stands_weaken (H0 H1 : TcpFrame -> Prop) (T0 T1 : Z -> Prop) r :
  (forall f, H0 f -> H1 f) -> (forall n, T0 n -> T1 n) -> stands H0 T0 r -> stands H1 T1 r.
Proof using Type.
  intros HH HT [Hd Hc]. split; [done|]. intros E.
  destruct (Hc E) as [(f & Hf & Ht) (n & Hn & Ee)]. split; eauto.
Qed.

Lemma orderly_weaken (H0 H1 : TcpFrame -> Prop) (T0 T1 : Z -> Prop) s :
  (forall f, H0 f -> H1 f) -> (forall n, T0 n -> T1 n) -> orderly H0 T0 s -> orderly H1 T1 s.
Proof using Type.
  intros HH HT [Hs Hc Hr]. split; [done|done|]. intros pid r E. by eapply stands_weaken; [..|eapply Hr].
Qed.

Lemma orderly_step H0 T s s' :
  table_step (stands H0 T) s s' -> orderly H0 T s -> orderly H0 T s'.
Proof using Type.
  intros [Hw Hr Hz Hc] [Os Oc Or]. split; [lia| |].
  - intros E. rewrite Hw in E. auto.
  - intros pid r E. apply Hr in E as [E|E]; eauto.
Qed.

Lemma send_command_pairings (env : Env K) s client_id type payload :
  pairings_of (send_command bcrypt_hmac env s client_id type payload).2 = pairings_of s.
Proof using Type.
  unfold send_command. destruct (state_for_client s client_id) as [cn|]; [|done].
  destruct (_ || _); [done|]. cbn [take_request_id].
  destruct (send_authenticated _ _ _ _ _ _ _) as [[b cn'] s'] eqn:Es.
  apply send_authenticated_spec in Es as [Es _]. unfold still, pairings_of in *. cbn in *. congruence.
Qed.

Lemma broadcast_pairings (env : Env K) s type payload :
  pairings_of (broadcast_command bcrypt_hmac env s type payload).2 = pairings_of s.
Proof using Type.
  unfold broadcast_command. cbv zeta. destruct (bool_decide _); [done|].
  generalize (List.filter (fun id => bool_decide (id ∈ sv_states s))
    (map snd (map_to_list (sv_client_connections s)))). intros ids. generalize true.
  revert s. induction ids as [|id ids IH]; intros s ok; [done|].
  cbn [fold_left]. unfold broadcast_to at 2.
  destruct (sv_objects s !! id) as [cn|] eqn:E; [|by apply IH].
  destruct (_ || _); [by apply IH|]. cbn [take_request_id].
  destruct (send_authenticated _ _ _ _ _ _ _) as [[b cn'] s'] eqn:Es. rewrite IH.
  apply send_authenticated_spec in Es as [Es _]. unfold still, pairings_of in *. cbn in *. congruence.
Qed.

Lemma send_chat_pairings (env : Env K) s client_id message :
  pairings_of (send_chat bcrypt_hmac env s client_id message).2 = pairings_of s.
Proof using Type.
  unfold send_chat. destruct (_ || _); [done|].
  pose proof (send_command_pairings env s client_id CT_chat message) as Hc.
  destruct (send_command _ _ _ _ _ _) as [[] s1]; [|done]. cbn. unfold record_chat.
  by case_match.
Qed.

Lemma persist_pairings (env : Env K) s previous saved s' :
  persist_keys env s previous = (saved, s') -> pairings_of s' = pairings_of s.
Proof using Type. unfold persist_keys. case_match; by intros [= <- <-]. Qed.

Lemma refuse_abandoned_pairings (env : Env K) s abandoned reason :
  pairings_of (refuse_abandoned env s abandoned reason) = pairings_of s.
Proof using Type.
  pose proof (refuse_abandoned_still env abandoned reason s) as E. unfold still in E. congruence.
Qed.

Lemma install_pairings (env : Env K) s record :
  pairings_of (install_pairing bcrypt_hmac bcrypt_sha256 env s record).2 = pairings_of s.
Proof using Type.
  unfold install_pairing. destruct (Pairing.client_id_from_uuid _ _) as [client_id|]; [|done].
  destruct (Pairing.confirmation_tag _ _ _ _) as [tag|]; [|done].
  destruct (KeyStore.rotate _ _ _) as [[key_id store]|]; [|done].
  destruct (persist_keys _ _ _) as [saved s1] eqn:Ep. apply persist_pairings in Ep.
  change (pairings_of s1 = pairings_of s) in Ep.
  destruct saved; cbn [negb]; [|done]. destruct (bool_decide _); [done|].
  destruct (send _ _ _ _) as [sent s2] eqn:Es. apply send_inv in Es. rewrite settle_still in Es.
  assert (pairings_of s2 = pairings_of s1) as E2 by (unfold still in Es; congruence).
  rewrite <- Ep, <- E2. by destruct sent.
Qed.

(** The operator's calls, the commands and the dispatcher's callbacks take records
    away at most. *)
Lemma approve_table G (env : Env K) s pid :
  table_step G s (approve_pairing bcrypt_hmac bcrypt_sha256 env s pid).2.
Proof using Type.
  unfold approve_pairing. pose proof (take_expired_table G s (ev_now env)) as Ht.
  destruct (take_expired s (ev_now env)) as [expired s1]. cbn in Ht.
  destruct (match sv_pending_pairings s1 !! pid with Some _ => _ | None => _ end) as [record|].
  - eapply table_trans; [exact Ht|]. eapply table_trans; [apply (drop_table _ s1 pid)|].
    apply table_same. by rewrite install_pairings, refuse_abandoned_pairings.
  - eapply table_trans; [exact Ht|]. apply table_same. apply refuse_abandoned_pairings.
Qed.

Lemma reject_table G (env : Env K) s pid : table_step G s (reject_pairing env s pid).2.
Proof using Type.
  unfold reject_pairing. destruct (sv_pending_pairings s !! pid) as [record|]; [|by apply table_same].
  eapply table_trans; [apply (drop_table _ s pid)|]. apply still_table. cbn.
  by rewrite settle_still, send_pairing_reject_still.
Qed.

Lemma expire_table G (env : Env K) s : table_step G s (expire_pending_pairings env s).2.
Proof using Type.
  unfold expire_pending_pairings. pose proof (take_expired_table G s (ev_now env)) as Ht.
  destruct (take_expired s (ev_now env)) as [expired s1]. cbn in *.
  eapply table_trans; [exact Ht|]. apply table_same, refuse_abandoned_pairings.
Qed.

Lemma disconnected_table G s id now : table_step G s (on_disconnected s id now).
Proof using Type.
  unfold on_disconnected. case_bool_decide; [|by apply table_same]. cbv zeta.
  set (s1 := release_client _ _ _ _). apply (table_trans _ _ s1).
  - apply table_same. unfold s1, release_client. by case_match.
  - apply table_fewer; [done|]. cbn. apply map_filter_subseteq.
Qed.

Lemma calls_table G s (op : Operation K) :
  match op with
  | BytesReceived _ _ _ | BytesResumed _ _ _ | PairingWindow _ _ _ => True
  | _ => table_step G s (step s op)
  end.
Proof using Type.
  destruct op; try done; cbn [perform]; try (by apply table_same).
  - unfold on_connected. case_match; by apply table_same.
  - apply disconnected_table.
  - unfold set_server_name. case_match; by apply table_same.
  - apply approve_table.
  - apply reject_table.
  - apply expire_table.
  - apply table_same, send_command_pairings.
  - apply table_same, broadcast_pairings.
  - apply table_same, send_chat_pairings.
Qed.

(** A clock reading of a call that handles bytes. *)
Definition clocked (op : Operation K) (now : Z) : Prop :=
  match op with
  | BytesReceived _ _ env | BytesResumed _ _ env => exists n, ev_now (env n) = now
  | _ => False
  end.

Lemma on_bytes_orderly R I got (H0 : TcpFrame -> Prop) (T : Z -> Prop) s id input (env : nat -> Env K) :
  sound bcrypt_hmac R I got s -> orderly H0 T s ->
  (forall frame, heard (got id ++ input) frame -> H0 frame) -> (forall n, T (ev_now (env n))) ->
  orderly H0 T (on_bytes bcrypt_hmac bcrypt_sha256 s id input env).
Proof using Type.
  intros [Ho _ _] Hord Hh Ht. unfold on_bytes. destruct (sv_objects s !! id) as [cn|] eqn:E; [|done].
  destruct (on_bytes_body _ _ _ _ _ _) as [cn' s'] eqn:Eb.
  apply (bytes_table bcrypt_hmac bcrypt_sha256 H0 T R (I id) (got id) id) in Eb; try done; [|by apply Ho|].
  - eapply orderly_step; [|exact Hord]. eapply table_trans; [exact Eb|]. by apply table_same.
  - intros pid r Er. by apply (ord_records _ _ _ Hord) in Er as [Hd _].
Qed.

Lemma orderly_perform R I got (H0 : TcpFrame -> Prop) (T : Z -> Prop) s (op : Operation K) :
  sound bcrypt_hmac R I got s -> orderly H0 T s ->
  (forall id frame, heard (got id ++ handed s id op) frame -> H0 frame) ->
  (forall now, clocked op now -> T now) -> orderly H0 T (step s op).
Proof using Type.
  intros Hs Hord Hh Ht. pose proof (calls_table (stands H0 T) s op) as Hc.
  destruct op as [| id input env| id input env | | open name env | | | | | | | |];
    try (by eapply orderly_step); cbn [perform].
  - case_bool_decide as Hin; [|done]. apply (on_bytes_orderly R I got); try done.
    + intros frame Hf. apply (Hh id). cbn. by rewrite Z.eqb_refl, bool_decide_eq_true_2.
    + intros n. apply Ht. by exists n.
  - apply (on_bytes_orderly R I got); try done.
    + intros frame Hf. apply (Hh id). cbn. by rewrite Z.eqb_refl.
    + intros n. apply Ht. by exists n.
  - unfold set_pairing_window. destruct Hord as [Os Oc Or]. destruct open; [by split|].
    match goal with |- orderly _ _ (refuse_abandoned ?e ?t ?l ?r) =>
      pose proof (refuse_abandoned_pairings e t l r) as E; set (s' := refuse_abandoned e t l r) in * end.
    unfold pairings_of in E. cbn in E. injection E as E1 E2. split; rewrite ?E1; [|done|].
    + rewrite map_size_empty. lia.
    + intros pid r Er. by rewrite lookup_empty in Er.
Qed.

(** ** Properties *)

Definition heard_in (s0 : Server) (ops : list (Operation K)) (frame : TcpFrame) : Prop :=
  exists id, heard (given id s0 ops) frame.

Definition clocked_in (ops : list (Operation K)) (now : Z) : Prop :=
  exists op, op ∈ ops /\ clocked op now.

Lemma run_orderly s0 ops : idle s0 -> sv_pending_pairings s0 = ∅ ->
  orderly (heard_in s0 ops) (clocked_in ops) (reach s0 ops).
Proof using Type.
  intros Hi He. induction ops as [|op ops IH] using rev_ind.
  - split; cbn; rewrite He; [rewrite map_size_empty; lia|done|].
    intros pid r E. by rewrite lookup_empty in E.
  - rewrite run_snoc. eapply (orderly_perform _ _ (fun id => given id s0 ops)).
    + by apply run_sound.
    + eapply orderly_weaken; [| |exact IH].
      * intros f [id Hf]. exists id. rewrite received_snoc. by apply heard_app.
      * intros n (o & Hin & Ho). exists o. split; [by apply elem_of_app; left|done].
    + intros id f Hf. exists id. by rewrite received_snoc.
    + intros n Hn. exists op. split; [apply elem_of_app; right; by left|done].
Qed.

(** An installed key is the one of the record. *)
Lemma install_ok (env : Env K) s r s' :
  install_pairing bcrypt_hmac bcrypt_sha256 env s r = (Ok tt, s') ->
  exists client_id key_id,
    Pairing.client_id_from_uuid bcrypt_sha256 (Pairing.pt_client_uuid (pr_transcript r)) = Some client_id /\
    KeyStore.rotate (sv_key_store s) client_id (Pairing.ps_enrolled_key (pr_secrets r)) =
      Ok (key_id, sv_key_store s').
Proof using Type.
  unfold install_pairing. destruct (Pairing.client_id_from_uuid _ _) as [client_id|]; [|done].
  destruct (Pairing.confirmation_tag _ _ _ _) as [tag|]; [|done].
  destruct (KeyStore.rotate _ _ _) as [[key_id store]|] eqn:Er; [|done].
  destruct (persist_keys _ _ _) as [saved s1] eqn:Ep. unfold persist_keys in Ep.
  destruct (_ || _); injection Ep as <- <-; cbn [negb]; [|done]. destruct (bool_decide _); [done|].
  destruct (send _ _ _ _) as [sent s2] eqn:Es. apply send_inv in Es. rewrite settle_still in Es.
  destruct sent; cbn [negb]; [|done]. intros [= <-]. exists client_id, key_id. split; [done|].
  rewrite Er. unfold still in Es. cbn in *. congruence.
Qed.

Lemma approve_spec (env : Env K) s pid result s' :
  approve_pairing bcrypt_hmac bcrypt_sha256 env s pid = (result, s') ->
  sv_key_store s' = sv_key_store s /\ result <> Ok tt \/
  exists r s1, sv_pending_pairings s !! pid = Some r /\ pr_client_confirmed r = true /\
    ev_now env < pr_expires_at r /\ sv_pending_pairings s' !! pid = None /\
    sv_key_store s1 = sv_key_store s /\
    install_pairing bcrypt_hmac bcrypt_sha256 env s1 r = (result, s').
Proof using Type.
  unfold approve_pairing. cbn [take_expired].
  set (s1 := with_pending s (filter _ _)).
  destruct (sv_pending_pairings s1 !! pid) as [r|] eqn:Er;
    [destruct (pr_client_confirmed r) eqn:Ec|].
  - intros Ei. right. exists r. eexists. split_and!; [| | | | |exact Ei].
    + by apply map_lookup_filter_Some in Er as [Er _].
    + done.
    + apply map_lookup_filter_Some in Er as [_ Er]. unfold is_expired in Er. cbn in Er.
      bool_to_prop. lia.
    + match type of Ei with (install_pairing _ _ _ ?s2 _ = _) =>
        pose proof (install_pairings env s2 r) as Hp end.
      rewrite Ei, refuse_abandoned_pairings in Hp. injection Hp as E1 _. cbn in E1. rewrite E1.
      apply lookup_delete_eq.
    + match goal with |- context [refuse_abandoned ?e ?t ?l ?w] =>
        pose proof (refuse_abandoned_still e l w t) as Hp end.
      unfold still in Hp. cbn in *. congruence.
  - intros [= <- <-]. left. split; [|done].
    match goal with |- context [refuse_abandoned ?e ?t ?l ?w] =>
      pose proof (refuse_abandoned_still e l w t) as Hp end.
    unfold still in Hp. cbn in *. congruence.
  - intros [= <- <-]. left. split; [|done].
    match goal with |- context [refuse_abandoned ?e ?t ?l ?w] =>
      pose proof (refuse_abandoned_still e l w t) as Hp end.
    unfold still in Hp. cbn in *. congruence.
Qed.

(** A confirmed request that has time left is one the operator sees. *)
Lemma confirmed_is_shown s pid r now :
  sv_pending_pairings s !! pid = Some r -> pr_client_confirmed r = true -> now < pr_expires_at r ->
  exists shown, shown ∈ pending_pairings s now /\ pp_pairing_id shown = pid /\
    pp_short_authentication_string shown = Pairing.ps_short_authentication_string (pr_secrets r) /\
    pp_client_uuid shown = Pairing.pt_client_uuid (pr_transcript r).
Proof using Type.
  intros E Ec Ht. eexists. split.
  - unfold pending_pairings. rewrite merge_sort_Permutation, list_elem_of_In, in_concat.
    exists (shown_pairing now (pid, r)). split.
    + apply in_map, list_elem_of_In. by apply elem_of_map_to_list.
    + unfold shown_pairing. cbn. rewrite Ec, (proj2 (Z.leb_gt _ _) Ht). by left.
  - done.
Qed.

(** C12. Approval needs the client's confirmation and the operator's view.  In
    every state the control plane reaches, whatever frames arrived and whatever
    the operator did, when an approval succeeds or merely changes the key store,
    the request was pending with time left on its window and the operator's list
    showed it with the code its secrets give; those secrets come from a key
    agreement with the client's public key over the request's transcript; a
    confirmation frame with the client's tag over that transcript had been heard,
    and the window runs three minutes from a clock reading of such a frame; the
    request is gone afterwards; and a success leaves exactly the rotation that
    installs the exchange's key for the client's identity. *)
Theorem approval_needs_confirmation s0 (ops : list (Operation K)) (env : Env K) pid result s' :
  idle s0 -> sv_pending_pairings s0 = ∅ -> let s := reach s0 ops in
  approve_pairing bcrypt_hmac bcrypt_sha256 env s pid = (result, s') ->
  result = Ok tt \/ sv_key_store s' <> sv_key_store s ->
  exists r shown confirm now client_id,
    sv_pending_pairings s !! pid = Some r /\ derived r /\
    shown ∈ pending_pairings s (ev_now env) /\ pp_pairing_id shown = pid /\
    pp_short_authentication_string shown = Pairing.ps_short_authentication_string (pr_secrets r) /\
    heard_in s0 ops confirm /\ tagged r confirm /\
    clocked_in ops now /\ ev_now env < now + kPairingApprovalWindow /\
    sv_pending_pairings s' !! pid = None /\
    Pairing.client_id_from_uuid bcrypt_sha256 (Pairing.pt_client_uuid (pr_transcript r)) = Some client_id /\
    (result = Ok tt -> exists key_id,
       KeyStore.rotate (sv_key_store s) client_id (Pairing.ps_enrolled_key (pr_secrets r)) =
         Ok (key_id, sv_key_store s')).
Proof using Type.
  intros Hi He s Ha Hsome. pose proof (run_orderly s0 ops Hi He) as [_ _ Hr].
  apply approve_spec in Ha as [[Ek En]|(r & s1 & Er & Ec & Ht & Hgone & Ek & Eins)];
    [by destruct Hsome|].
  destruct (Hr _ _ Er) as [Hd Hst]. destruct (Hst Ec) as [(f & Hf & Htag) (now & Hn & Ee)].
  destruct (confirmed_is_shown s pid r (ev_now env) Er Ec Ht) as (shown & Hin & Hp & Hsas & _).
  destruct (Pairing.client_id_from_uuid bcrypt_sha256 (Pairing.pt_client_uuid (pr_transcript r)))
    as [client_id|] eqn:Eid.
  2: { unfold install_pairing in Eins. rewrite Eid in Eins. injection Eins as <- <-.
       by destruct Hsome. }
  exists r, shown, f, now, client_id. rewrite Ee in Ht. split_and!; try done.
  intros ->. apply install_ok in Eins as (c & k & E1 & E2). rewrite Eid in E1. injection E1 as <-.
  exists k. by rewrite <- Ek.
Qed.

(** C13. The table of pairing requests is bounded.  Whatever frames unenrolled
    peers send over however many connections, and however the operator's calls
    interleave with them, the server never holds more than sixteen requests, and
    none at all while the pairing window is closed: not after a closing that
    races a request, nor after a request that arrives late. *)
Theorem pairing_requests_bounded s0 (ops : list (Operation K)) :
  idle s0 -> sv_pending_pairings s0 = ∅ -> let s := reach s0 ops in
  (size (sv_pending_pairings s) <= 16)%nat /\
  (sv_pairing_window_open s = false ->
     sv_pending_pairings s = ∅ /\ forall now, pending_pairings s now = []).
Proof using Type.
  intros Hi He s. destruct (run_orderly s0 ops Hi He) as [Hs Hc _]. fold s in Hs, Hc. split; [done|].
  intros Hw. split; [by apply Hc|]. intros now. unfold pending_pairings.
  by rewrite (Hc Hw), map_to_list_empty.
Qed.
End Invariant.

(** ** Examples *)

(** A provider that agrees with every key. *)
#[export] Instance agreeing_keys : Pairing.KeyProvider bool := {
  Pairing.bcrypt_import _ _ := true;
  Pairing.bcrypt_secret_agreement _ _ := true;
  Pairing.bcrypt_secret_size _ _ := Some 32;
  Pairing.bcrypt_secret _ _ := Some (repeat (byte_of 2) 32)
}.

Definition server_key : bytes := repeat (byte_of 4) 72.

Definition generating : Pairing.GenerateCalls bool :=
  Pairing.mkGenerateCalls true true true (fun _ _ => Some true) (fun _ => true) (fun _ => Some 72)
    (fun _ => Some server_key).

Definition pairing_env (now : Z) : Env bool :=
  mkEnv now now 0 (fun _ => true) (fun _ => true) (Some (repeat (byte_of 6) 32)) generating
    now true true None.

Definition constant_hmac (_ _ : bytes) : option bytes := Some (repeat (byte_of 9) 32).
Definition constant_sha256 (_ : bytes) : option bytes := Some (repeat (byte_of 8) 32).

Definition sample_hello : Pairing.PairingHello :=
  Pairing.mkPairingHello 1 Pairing.x25519 (text "uuid-1") (text "LAB-01")
    (repeat (byte_of 4) 71 ++ [byte_of 3]) (repeat (byte_of 5) 32).

Definition client_frame (type : CommandType) (payload : bytes) : bytes := plain_frame type 7 payload.

Definition pairing_ops : list (Operation bool) :=
  [PairingWindow true (text "Room") (pairing_env 1000);
   Connected 1 (text "10.0.0.7");
   BytesReceived 1 (client_frame CT_pairing_hello (Pairing.encode_pairing_hello sample_hello))
     (fun _ => pairing_env 2000);
   BytesReceived 1 (client_frame CT_pairing_confirm (repeat (byte_of 9) 32))
     (fun _ => pairing_env 3000)].

Definition pairing_server : Server :=
  mkServer ∅ ∅ ∅ ∅ ∅ None (replay_create 16 120) false [] ∅ 1 ∅ false ∅ 1 [].

Definition after_pairing : Server := run constant_hmac constant_sha256 pairing_server pairing_ops.

(** The three-minute window ends at the very moment; then the approval fails. *)
Example approved_in_time :
  (approve_pairing constant_hmac constant_sha256 (pairing_env 182999) after_pairing 1).1 = Ok tt /\
  KeyStore.succeeds (approve_pairing constant_hmac constant_sha256 (pairing_env 183000) after_pairing 1).1 =
    false.
Proof. split; vm_compute; reflexivity. Qed.

(** When the key cannot be saved, the request is gone but its client has not been
    told: its heartbeats are still answered. *)
Definition failing_env : Env bool :=
  mkEnv 4000 4000 0 (fun _ => true) (fun _ => false) None generating 4000 true true None.

Definition after_failure : result unit * Server :=
  approve_pairing constant_hmac constant_sha256 failing_env
    {| after_pairing with sv_keyring_configured := true |} 1.

Example failed_approval_strands_client :
  KeyStore.succeeds after_failure.1 = false /\
  size (sv_pending_pairings after_failure.2) = 0%nat /\
  sv_effects after_failure.2 = sv_effects after_pairing /\
  option_map (fun cn =>
    (process_pairing_wait (pairing_env 5000) after_failure.2 cn
       (mkTcpFrame (plain_envelope (command_type_value CT_heartbeat) 8 []) [])).1.1)
    (sv_objects after_failure.2 !! 1) = Some true.
Proof. split_and!; vm_compute; reflexivity. Qed.

Lemma approval_needs_confirmation_witness :
  idle pairing_server /\ sv_pending_pairings pairing_server = ∅ /\
  (approve_pairing constant_hmac constant_sha256 (pairing_env 4000) after_pairing 1).1 = Ok tt /\
  exists r confirm, sv_pending_pairings after_pairing !! 1 = Some r /\
    heard_in constant_hmac constant_sha256 pairing_server pairing_ops confirm /\
    tagged constant_hmac r confirm.
Proof.
  assert (idle pairing_server) as Hi by by split_and!.
  assert (sv_pending_pairings pairing_server = ∅) as He by done.
  destruct (approve_pairing constant_hmac constant_sha256 (pairing_env 4000) after_pairing 1)
    as [result s'] eqn:Ea.
  assert (result = Ok tt) as Hr.
  { assert ((approve_pairing constant_hmac constant_sha256 (pairing_env 4000) after_pairing 1).1 = Ok tt)
      as E by (vm_compute; reflexivity). rewrite Ea in E. exact E. }
  unfold after_pairing in Ea |- *.
  destruct (approval_needs_confirmation constant_hmac constant_sha256 pairing_server pairing_ops
    (pairing_env 4000) 1 result s' Hi He Ea (or_introl Hr))
    as (r & shown & confirm & now & c & E1 & _ & _ & _ & _ & E2 & E3 & _).
  split; [exact Hi|]. split; [exact He|]. split; [exact Hr|]. exists r, confirm.
  exact (conj E1 (conj E2 E3)).
Defined.

Lemma pairing_requests_bounded_witness :
  sv_pairing_window_open after_pairing = true /\ size (sv_pending_pairings after_pairing) = 1%nat /\
  (size (sv_pending_pairings after_pairing) <= 16)%nat.
Proof.
  split; [vm_compute; reflexivity|]. split; [vm_compute; reflexivity|].
  apply (pairing_requests_bounded constant_hmac constant_sha256 pairing_server pairing_ops);
    [by split_and!|done].
Defined.
End PairingRuns.
