(* ===== verification/PairingClient.v ===== *)
(** The client's half of verified pairing (client/src/client_pairing.cpp): one
    exchange with a candidate server, in which the student compares a code before
    the client confirms, and the choice of a room's server.

    Sockets, clocks, the callbacks to the student's screen, the stop token and the
    random generator are the outside: a script lists what they answer, a turn per
    round of a loop.  Reading the machine's identity from the registry is not
    modelled. *)

From S2P Require Import Prelude Wire Protocol Auth ControlChannel Pairing UrlValidation.
From S2P Require Import Discovery DiscoveryRuns ServerState.

Module PairingClient.
Import Protocol ServerState.

(** ** Text *)

Definition kWaitSliceMs : Z := 250.

(** [narrow_ascii] on UTF-16 code units. *)
Definition narrow_ascii (wide : list Z) : bytes :=
  map byte_of (List.filter (fun character => (0x20 <=? character) && (character <? 0x7f)) wide).

(** [find_first_not_of] of spaces, tabs and line ends. *)
Definition trimmed (c : byte) : bool :=
  (byte_val c =? 32) || (byte_val c =? 9) || (byte_val c =? 13) || (byte_val c =? 10).

Fixpoint drop_trimmed (s : bytes) : bytes :=
  match s with
  | c :: rest => if trimmed c then drop_trimmed rest else s
  | [] => []
  end.

Definition trim_ascii (s : bytes) : bytes := rev (drop_trimmed (rev (drop_trimmed s))).

Fixpoint equals_ignoring_case (a b : bytes) : bool :=
  match a, b with
  | [], [] => true
  | lhs :: a, rhs :: b =>
      (UrlValidation.tolower (byte_val lhs) =? UrlValidation.tolower (byte_val rhs)) &&
      equals_ignoring_case a b
  | _, _ => false
  end.

(** The request id: random, and 1 rather than 0 or nothing. *)
Definition random_request_id (random : option bytes) : Z :=
  match random with
  | None => 1
  | Some random =>
      let value := le_value 0 random in
      if value =? 0 then 1 else value
  end.

(** ** Choices and outcomes *)

Inductive StudentConfirmationChoice : Set :=
| confirmed | rejected | mismatched_code | student_timed_out | no_ui | waiting.

#[export] Instance choice_eq_dec : EqDecision StudentConfirmationChoice.
Proof. solve_decision. Defined.

Inductive StudentConfirmationDecision : Set := save | refuse.

#[export] Instance decision_eq_dec : EqDecision StudentConfirmationDecision.
Proof. solve_decision. Defined.

Record StudentConfirmation := mkStudentConfirmation {
  sc_choice : StudentConfirmationChoice;
  sc_confirmed_code : bytes
}.

Definition student_confirmation_choice_text (choice : StudentConfirmationChoice) : string :=
  match choice with
  | confirmed => "confirmed"
  | rejected => "rejected"
  | mismatched_code => "mismatched code"
  | student_timed_out => "timed out"
  | no_ui => "no UI session"
  | waiting => "waiting"
  end.

Definition student_confirmation_decision_text (decision : StudentConfirmationDecision) : string :=
  match decision with save => "save" | refuse => "refuse" end.

Definition evaluate_student_confirmation (code_shown : bool) (choice : StudentConfirmationChoice)
    (expected_code confirmed_code : bytes) : StudentConfirmationDecision :=
  if negb code_shown then refuse
  else
    match choice with
    | confirmed =>
        if negb (bool_decide (expected_code = [])) && negb (bool_decide (confirmed_code = [])) &&
           bool_decide (expected_code = confirmed_code)
        then save else refuse
    | _ => refuse
    end.

Inductive PairingOutcome : Set :=
| enrolled | declined | timed_out | unavailable | failed | student_refused.

#[export] Instance outcome_eq_dec : EqDecision PairingOutcome.
Proof. solve_decision. Defined.

Definition pairing_outcome_text (outcome : PairingOutcome) : string :=
  match outcome with
  | enrolled => "this computer is now managed"
  | declined => "the teacher did not approve this computer"
  | timed_out => "nobody approved this computer in time"
  | unavailable => "the server is not accepting new computers right now"
  | student_refused => "student refused pairing / Hoc sinh da tu choi ghep noi"
  | failed => "pairing did not finish"
  end.

Definition outcome_from_reject (reason : Pairing.PairingRejectReason) : PairingOutcome :=
  match reason with
  | Pairing.operator_declined => declined
  | Pairing.timed_out => timed_out
  | Pairing.unavailable => unavailable
  | _ => failed
  end.

Record ClientRuntimeConfig := mkClientRuntimeConfig {
  rc_server_address : bytes;
  rc_server_port : Z;
  rc_client_id : bytes;
  rc_key_id : Z;
  rc_pre_shared_key : bytes;
  rc_preferred_room : bytes
}.

Definition default_config : ClientRuntimeConfig :=
  mkClientRuntimeConfig [] 47001 (repeat (byte_of 0) 16) 0 [] [].

(** With the error text. *)
Record PairingAttemptResult := mkPairingAttemptResult {
  ar_outcome : PairingOutcome;
  ar_config : ClientRuntimeConfig;
  ar_error : string
}.

Definition ended (outcome : PairingOutcome) (error : string) : PairingAttemptResult :=
  mkPairingAttemptResult outcome default_config error.

(** ** Frames *)

Record FrameReader := mkFrameReader { rd_buffer : bytes; rd_ready : list TcpFrame }.

Definition take_frame (reader : FrameReader) : option TcpFrame * FrameReader :=
  match rd_ready reader with
  | [] => (None, reader)
  | frame :: rest => (Some frame, mkFrameReader (rd_buffer reader) rest)
  end.

(** [None] received: the connection is closed or broken. *)
Definition pump (reader : FrameReader) (received : option bytes) : result FrameReader :=
  match received with
  | None => Err "the server closed the pairing connection"
  | Some input =>
      match feed (rd_buffer reader) input [] with
      | Some (true, buffer, frames) => Ok (mkFrameReader buffer (rd_ready reader ++ frames))
      | _ => Err "the server sent a malformed pairing frame"
      end
  end.

(** The loop of [read_frame]; [None] when the script of receives is over. *)
Fixpoint read_frame (reader : FrameReader) (receives : list (option bytes))
    : option (result (TcpFrame * FrameReader)) :=
  match take_frame reader with
  | (Some frame, reader) => Some (Ok (frame, reader))
  | (None, _) =>
      match receives with
      | [] => None
      | received :: receives =>
          match pump reader received with
          | Err e => Some (Err e)
          | Ok reader => read_frame reader receives
          end
      end
  end.

(** What the exchange does that others see, in order. *)
Inductive Event :=
| Told (type : CommandType) (request_id : Z) (payload : bytes)
| Shown (code server_name : bytes)
| Answered (answer : StudentConfirmation).

(** [send_frame]; [sent] is the text of a send that fails. *)
Definition send_frame (sent : option string) (type : CommandType) (request_id : Z) (payload : bytes)
    (log : list Event) : result (list Event) :=
  let not_sent := "the pairing request was not sent"%string in
  if bool_decide (plain_frame type request_id payload = []) then Err not_sent
  else
    match sent with
    | Some send_error => Err (if bool_decide (send_error = ""%string) then not_sent else send_error)
    | None => Ok (log ++ [Told type request_id payload])
    end.

(** The rejection that a frame carries. *)
Definition rejected_by (frame : TcpFrame) : PairingAttemptResult :=
  let outcome :=
    match Pairing.decode_pairing_reject (tf_payload frame) with
    | Some reason => outcome_from_reject reason
    | None => failed
    end in
  ended outcome (pairing_outcome_text outcome).

Definition has_type (frame : TcpFrame) (type : CommandType) : bool :=
  ce_type (tf_envelope frame) =? command_type_value type.

(** ** Waiting *)

(** A frame that is there, or one that arrives within the slice: [None] received
    when nothing does. *)
Definition arrived_frame (reader : FrameReader) (received : option (option bytes))
    : result (option TcpFrame * FrameReader) :=
  match take_frame reader with
  | (Some frame, reader) => Ok (Some frame, reader)
  | (None, _) =>
      match received with
      | None => Ok (None, reader)
      | Some received =>
          match pump reader received with
          | Err e => Err e
          | Ok reader => Ok (take_frame reader)
          end
      end
  end.

(** A heartbeat when it is due: the next one and the log. *)
Definition beat (now next_heartbeat : Z) (sent : option string) (now_after interval request_id : Z)
    (log : list Event) : result (Z * list Event) :=
  if now >=? next_heartbeat then
    match send_frame sent CT_heartbeat request_id [] log with
    | Err e => Err e
    | Ok log => Ok (now_after + interval, log)
    end
  else Ok (next_heartbeat, log).

(** One round of the wait for the student. *)
Record StudentTurn := mkStudentTurn {
  st_stopped : bool;
  st_now : Z;
  st_answer : StudentConfirmation;
  st_stopped_after : bool;
  st_now_after : Z;
  st_beat_now : Z;
  st_beat_sent : option string;
  st_beat_after : Z;
  st_received : option (option bytes)
}.

(** The frames that came meanwhile: heartbeats pass, anything else ends it. *)
Fixpoint drain (frames : list TcpFrame) : option PairingAttemptResult :=
  match frames with
  | [] => None
  | frame :: rest =>
      if has_type frame CT_heartbeat then drain rest
      else if has_type frame CT_pairing_reject then Some (rejected_by frame)
      else Some (ended failed "the server sent an unexpected pairing reply")
  end.

(** The loop before the confirmation; [inr]: the student has confirmed. *)
Fixpoint await_student (turns : list StudentTurn) (code server_name : bytes)
    (deadline interval request_id next_heartbeat : Z) (reader : FrameReader) (log : list Event)
    : option (PairingAttemptResult * list Event + Z * FrameReader * list Event) :=
  match turns with
  | [] => None
  | turn :: turns =>
      if st_stopped turn then Some (inl (ended failed "pairing was cancelled", log))
      else if st_now turn >=? deadline
      then Some (inl (ended timed_out (pairing_outcome_text timed_out), log))
      else
        let answer := st_answer turn in
        let log := log ++ [Answered answer] in
        if st_stopped_after turn then Some (inl (ended failed "pairing was cancelled", log))
        else if st_now_after turn >=? deadline
        then Some (inl (ended timed_out (pairing_outcome_text timed_out), log))
        else if negb (bool_decide (sc_choice answer = waiting)) then
          match evaluate_student_confirmation true (sc_choice answer) code (sc_confirmed_code answer) with
          | save => Some (inr (next_heartbeat, reader, log))
          | refuse =>
              let outcome :=
                if bool_decide (sc_choice answer = student_timed_out) then timed_out
                else student_refused in
              Some (inl (ended outcome (pairing_outcome_text outcome), log))
          end
        else
          match beat (st_beat_now turn) next_heartbeat (st_beat_sent turn) (st_beat_after turn)
                  interval request_id log with
          | Err e => Some (inl (ended failed e, log))
          | Ok (next_heartbeat, log) =>
              match arrived_frame reader (st_received turn) with
              | Err e => Some (inl (ended failed e, log))
              | Ok (frame, reader) =>
                  let frames :=
                    match frame with Some frame => frame :: rd_ready reader | None => [] end in
                  match drain frames with
                  | Some ending => Some (inl (ending, log))
                  | None =>
                      await_student turns code server_name deadline interval request_id
                        next_heartbeat
                        (match frame with
                         | Some _ => mkFrameReader (rd_buffer reader) []
                         | None => reader
                         end) log
                  end
              end
          end
  end.

(** One round of the wait for the operator. *)
Record ApprovalTurn := mkApprovalTurn {
  at_stopped : bool;
  at_now : Z;
  at_received : option (option bytes);
  at_beat_now : Z;
  at_beat_sent : option string;
  at_beat_after : Z
}.

Section Exchange.
Context {K : Type} `{Pairing.KeyProvider K}.
Variable bcrypt_hmac : bytes -> bytes -> option bytes.
Variable bcrypt_sha256 : bytes -> option bytes.

(** The approval, or why it is none. *)
Definition approved_by (candidate : DiscoveryRuns.PairingCandidate) (client_id : bytes)
    (transcript : Pairing.PairingTranscript) (secrets : Pairing.PairingSecrets) (frame : TcpFrame)
    : PairingAttemptResult :=
  if has_type frame CT_pairing_reject then rejected_by frame
  else if negb (has_type frame CT_pairing_accept)
  then ended failed "the server sent an unexpected pairing reply"
  else
    match Pairing.decode_pairing_accept (tf_payload frame) with
    | None => ended failed "the pairing approval was malformed"
    | Some accept =>
        if Pairing.pa_key_id accept =? 0 then ended failed "the pairing approval was malformed"
        else if negb (Pairing.verify_confirmation_tag bcrypt_hmac secrets transcript
                        Pairing.role_server (Pairing.pa_server_tag accept))
        then ended failed "the server's approval did not verify"
        else
          mkPairingAttemptResult enrolled
            (mkClientRuntimeConfig (DiscoveryRuns.ca_address candidate) (DiscoveryRuns.ca_port candidate)
               client_id (Pairing.pa_key_id accept) (Pairing.ps_enrolled_key secrets) [])
            ""
    end.

(** The loop after the confirmation. *)
Fixpoint await_approval (turns : list ApprovalTurn) (candidate : DiscoveryRuns.PairingCandidate)
    (client_id : bytes) (transcript : Pairing.PairingTranscript) (secrets : Pairing.PairingSecrets)
    (deadline interval request_id next_heartbeat : Z) (reader : FrameReader) (log : list Event)
    : option (PairingAttemptResult * list Event) :=
  match turns with
  | [] => None
  | turn :: turns =>
      if at_stopped turn then Some (ended failed "pairing was cancelled", log)
      else if at_now turn >=? deadline
      then Some (ended timed_out (pairing_outcome_text timed_out), log)
      else
        match arrived_frame reader (at_received turn) with
        | Err e => Some (ended failed e, log)
        | Ok (None, reader) =>
            match beat (at_beat_now turn) next_heartbeat (at_beat_sent turn) (at_beat_after turn)
                    interval request_id log with
            | Err e => Some (ended failed e, log)
            | Ok (next_heartbeat, log) =>
                await_approval turns candidate client_id transcript secrets deadline interval
                  request_id next_heartbeat reader log
            end
        | Ok (Some frame, reader) =>
            if has_type frame CT_heartbeat then
              await_approval turns candidate client_id transcript secrets deadline interval
                request_id next_heartbeat reader log
            else Some (approved_by candidate client_id transcript secrets frame, log)
        end
  end.

(** ** The exchange *)

Record PairingAttemptOptions := mkPairingAttemptOptions {
  po_approval_timeout : Z;
  po_heartbeat_interval_ms : Z;
  po_student_confirmation : bool
}.

(** What the outside answers outside the loops; the texts are those of calls that
    fail. *)
Record Script := mkScript {
  sp_code_observer : bool;
  sp_generate : Pairing.GenerateCalls K;
  sp_client_nonce : option bytes;
  sp_winsock : bool;
  sp_connected : option string;
  sp_request_id : option bytes;
  sp_hello_sent : option string;
  sp_offers : list (option bytes);
  sp_shown_at : Z;
  sp_first_beat : Z;
  sp_student : list StudentTurn;
  sp_confirm_sent : option string;
  sp_confirmed_at : Z;
  sp_approval : list ApprovalTurn
}.

(** From the offer on: what the exchange agreed on. *)
Definition agree_on (key_pair : Pairing.EphemeralKeyPair K) (hello : Pairing.PairingHello)
    (offered : TcpFrame)
    : PairingAttemptResult + Pairing.PairingTranscript * Pairing.PairingSecrets :=
  if has_type offered CT_pairing_reject then inl (rejected_by offered)
  else if negb (has_type offered CT_pairing_offer)
  then inl (ended failed "the server did not answer the pairing request")
  else
    match Pairing.decode_pairing_offer (tf_payload offered) with
    | None => inl (ended failed "the server's pairing offer was malformed")
    | Some offer =>
        match Pairing.make_transcript hello offer with
        | None => inl (ended failed "the pairing transcript was rejected")
        | Some transcript =>
            match Pairing.agree key_pair (Pairing.po_server_public_key offer) with
            | Err e => inl (ended failed e)
            | Ok shared =>
                match Pairing.derive_pairing_secrets bcrypt_hmac bcrypt_sha256 shared transcript with
                | None => inl (ended failed "the pairing secrets could not be derived")
                | Some secrets => inr (transcript, secrets)
                end
            end
        end
    end.

Definition make_hello (key_pair : Pairing.EphemeralKeyPair K) (client_uuid hostname nonce : bytes)
    : Pairing.PairingHello :=
  Pairing.mkPairingHello Pairing.kPairingVersion (Pairing.pair_agreement key_pair) client_uuid
    hostname (Pairing.public_key key_pair) nonce.

(** The student, the confirmation and the operator. *)
Definition confirm_and_wait (candidate : DiscoveryRuns.PairingCandidate) (client_id : bytes)
    (options : PairingAttemptOptions) (script : Script) (request_id : Z)
    (transcript : Pairing.PairingTranscript) (secrets : Pairing.PairingSecrets)
    (reader : FrameReader) (log : list Event) : option (PairingAttemptResult * list Event) :=
  let code := Pairing.ps_short_authentication_string secrets in
  let log := log ++ [Shown code (DiscoveryRuns.ca_server_name candidate)] in
  if negb (po_student_confirmation options)
  then Some (ended failed "student confirmation unavailable", log)
  else
    let interval := po_heartbeat_interval_ms options in
    match await_student (sp_student script) code (DiscoveryRuns.ca_server_name candidate)
            (sp_shown_at script + po_approval_timeout options) interval request_id
            (sp_first_beat script + interval) reader log with
    | None => None
    | Some (inl ending) => Some ending
    | Some (inr (next_heartbeat, reader, log)) =>
        match Pairing.confirmation_tag bcrypt_hmac secrets transcript Pairing.role_client with
        | None => Some (ended failed "the pairing confirmation could not be computed", log)
        | Some tag =>
            match send_frame (sp_confirm_sent script) CT_pairing_confirm request_id
                    (Pairing.encode_pairing_confirm (Pairing.mkPairingConfirm tag)) log with
            | Err e => Some (ended failed e, log)
            | Ok log =>
                await_approval (sp_approval script) candidate client_id transcript secrets
                  (sp_confirmed_at script + po_approval_timeout options) interval request_id
                  next_heartbeat reader log
            end
        end
    end.

(** [None]: the script is over and the client is still waiting. *)
Definition pair_with_server (candidate : DiscoveryRuns.PairingCandidate) (client_uuid hostname : bytes)
    (options : PairingAttemptOptions) (script : Script) : option (PairingAttemptResult * list Event) :=
  if negb (sp_code_observer script)
  then Some (ended failed "the pairing code cannot be displayed (no UI session)", [])
  else
    match Pairing.client_id_from_uuid bcrypt_sha256 client_uuid with
    | None => Some (ended failed "this computer has no usable identity", [])
    | Some client_id =>
        match Pairing.generate (sp_generate script) with
        | Err e => Some (ended failed e, [])
        | Ok key_pair =>
            match sp_client_nonce script with
            | None => Some (ended failed "the pairing nonce could not be generated", [])
            | Some nonce =>
                let hello := make_hello key_pair client_uuid hostname nonce in
                let hello_payload := Pairing.encode_pairing_hello hello in
                if bool_decide (hello_payload = [])
                then Some (ended failed "the pairing request could not be encoded", [])
                else if negb (sp_winsock script)
                then Some (ended failed "Winsock initialization failed", [])
                else if sp_connected script is Some e then Some (ended failed e, [])
                else
                  let request_id := random_request_id (sp_request_id script) in
                  match send_frame (sp_hello_sent script) CT_pairing_hello request_id hello_payload [] with
                  | Err e => Some (ended failed e, [])
                  | Ok log =>
                      match read_frame (mkFrameReader [] []) (sp_offers script) with
                      | None => None
                      | Some (Err e) => Some (ended failed e, log)
                      | Some (Ok (offered, reader)) =>
                          match agree_on key_pair hello offered with
                          | inl ending => Some (ending, log)
                          | inr (transcript, secrets) =>
                              confirm_and_wait candidate client_id options script request_id
                                transcript secrets reader log
                          end
                      end
                  end
            end
        end
    end.
End Exchange.

(** ** Rooms *)

Inductive RoomSelection : Set :=
| no_preference
| matched (index : nat)
| unmatched.

(** The loop over the candidates from [index] on; [found] is an earlier match. *)
Fixpoint match_room (candidates : list DiscoveryRuns.PairingCandidate) (wanted : bytes) (index : nat)
    (found : option nat) : RoomSelection :=
  match candidates with
  | [] => match found with Some i => matched i | None => unmatched end
  | candidate :: rest =>
      if negb (equals_ignoring_case (trim_ascii (DiscoveryRuns.ca_server_name candidate)) wanted)
      then match_room rest wanted (S index) found
      else
        match found with
        | Some _ => unmatched
        | None => match_room rest wanted (S index) (Some index)
        end
  end.

Definition select_preferred_room_candidate (candidates : list DiscoveryRuns.PairingCandidate)
    (preferred_room : bytes) : RoomSelection :=
  let wanted := trim_ascii (Discovery.sanitize_server_name preferred_room) in
  if bool_decide (wanted = []) then no_preference else match_room candidates wanted O None.

(** ** What the exchange does, in order *)

(** No confirmation among them. *)
Definition quiet (log : list Event) : Prop := forall rid tag, Told CT_pairing_confirm rid tag ∉ log.

Lemma quiet_nil : quiet [].
Proof. intros rid tag H. by apply not_elem_of_nil in H. Qed.

Lemma quiet_app l1 l2 : quiet l1 -> quiet l2 -> quiet (l1 ++ l2).
Proof. intros H1 H2 rid tag [H|H]%elem_of_app; [by eapply H1|by eapply H2]. Qed.

Lemma quiet_one e :
  match e with Told CT_pairing_confirm _ _ => False | _ => True end -> quiet [e].
Proof. intros He rid tag H. apply list_elem_of_singleton in H. by subst e. Qed.

Lemma send_frame_spec sent type rid payload log log' :
  send_frame sent type rid payload log = Ok log' -> log' = log ++ [Told type rid payload].
Proof. unfold send_frame. destruct (bool_decide _), sent; try done; by intros [= <-]. Qed.

Lemma beat_spec now next sent after interval rid log next' log' :
  beat now next sent after interval rid log = Ok (next', log') ->
  exists more, log' = log ++ more /\ quiet more.
Proof.
  unfold beat. destruct (now >=? next).
  - destruct (send_frame _ _ _ _ _) as [l|] eqn:E; [|done]. intros [= <- <-].
    apply send_frame_spec in E as ->. eexists. split; [done|]. by apply quiet_one.
  - intros [= <- <-]. exists []. rewrite app_nil_r. split; [done|]. apply quiet_nil.
Qed.

Lemma outcome_from_reject_ne reason : outcome_from_reject reason <> enrolled.
Proof. by destruct reason. Qed.

Lemma rejected_not_enrolled frame : ar_outcome (rejected_by frame) <> enrolled.
Proof.
  unfold rejected_by. cbn. destruct (Pairing.decode_pairing_reject _); [|done].
  apply outcome_from_reject_ne.
Qed.

Lemma drain_not_enrolled frames ending : drain frames = Some ending -> ar_outcome ending <> enrolled.
Proof.
  induction frames as [|frame rest IH]; cbn; [done|]. destruct (has_type frame CT_heartbeat); [done|].
  destruct (has_type frame CT_pairing_reject); intros [= <-]; [apply rejected_not_enrolled|done].
Qed.

(** The student's wait ends without an enrolment, or with the student's
    confirmation of the very code. *)
Definition waited (code : bytes) (log : list Event)
    (r : PairingAttemptResult * list Event + Z * FrameReader * list Event) : Prop :=
  match r with
  | inl (ending, log') => ar_outcome ending <> enrolled /\ exists more, log' = log ++ more /\ quiet more
  | inr (_, _, log') =>
      exists more answer, log' = log ++ more ++ [Answered answer] /\ quiet more /\
        sc_choice answer = confirmed /\ sc_confirmed_code answer = code /\ code <> []
  end.

Lemma waited_after code log more r :
  quiet more -> waited code (log ++ more) r -> waited code log r.
Proof.
  intros Hm. destruct r as [[ending log']|[[next reader] log']]; cbn.
  - intros (He & more' & -> & Hq). split; [done|]. exists (more ++ more').
    rewrite app_assoc. split; [done|]. by apply quiet_app.
  - intros (more' & answer & -> & Hq & ?). exists (more ++ more'), answer.
    rewrite <- !app_assoc. split; [done|]. split; [by apply quiet_app|done].
Qed.

Lemma saved_confirmed code choice confirmed_code :
  evaluate_student_confirmation true choice code confirmed_code = save ->
  choice = confirmed /\ confirmed_code = code /\ code <> [].
Proof.
  unfold evaluate_student_confirmation. cbn [negb]. destruct choice; try done.
  destruct (_ && _) eqn:E; [|done]. bool_to_prop. intros _. split_and!; try done; naive_solver.
Qed.

Lemma await_student_spec turns : forall code name deadline interval rid next reader log r,
  await_student turns code name deadline interval rid next reader log = Some r -> waited code log r.
Proof.
  induction turns as [|turn turns IH]; intros code name deadline interval rid next reader log r;
    cbn [await_student]; [done|].
  assert (forall ending l more, ar_outcome ending <> enrolled -> quiet more -> l = log ++ more ->
    waited code log (inl (ending, l))) as Hend.
  { intros ending l more He Hq ->. split; [done|]. by exists more. }
  pose proof (quiet_one (Answered (st_answer turn)) I) as Hq1.
  destruct (st_stopped turn); [intros [= <-]; apply (Hend _ _ []); by rewrite ?app_nil_r; try apply quiet_nil|].
  destruct (_ >=? _); [intros [= <-]; apply (Hend _ _ []); by rewrite ?app_nil_r; try apply quiet_nil|].
  destruct (st_stopped_after turn); [intros [= <-]; by apply (Hend _ _ [Answered (st_answer turn)])|].
  destruct (_ >=? _); [intros [= <-]; by apply (Hend _ _ [Answered (st_answer turn)])|].
  case_bool_decide; cbn [negb].
  2: { destruct (evaluate_student_confirmation _ _ _ _) eqn:Ev; intros [= <-].
       - apply saved_confirmed in Ev as (? & ? & ?). exists [], (st_answer turn).
         split_and!; try done. apply quiet_nil.
       - apply (Hend _ _ [Answered (st_answer turn)]); [|done|done]. by case_bool_decide. }
  destruct (beat _ _ _ _ _ _ _) as [[next' log1]|] eqn:Eb.
  2: { intros [= <-]. by apply (Hend _ _ [Answered (st_answer turn)]). }
  apply beat_spec in Eb as (more & -> & Hqm). rewrite <- app_assoc.
  assert (quiet ([Answered (st_answer turn)] ++ more)) as Hq by (by apply quiet_app).
  destruct (arrived_frame _ _) as [[frame reader']|]; [|intros [= <-]; by eapply Hend].
  destruct (drain _) as [ending|] eqn:Ed.
  - intros [= <-]. eapply Hend; [by eapply drain_not_enrolled|exact Hq|done].
  - intros Hr. apply IH in Hr. by eapply waited_after.
Qed.

(** ** The operator's answer *)

(** What an enrolment rests on: an accept whose tag verifies, over what both
    sides said, as the server's. *)
Definition enrolled_by (bcrypt_hmac : bytes -> bytes -> option bytes)
    (candidate : DiscoveryRuns.PairingCandidate) (client_id : bytes)
    (transcript : Pairing.PairingTranscript) (secrets : Pairing.PairingSecrets)
    (frame : TcpFrame) (config : ClientRuntimeConfig) : Prop :=
  exists accept, has_type frame CT_pairing_accept = true /\
    Pairing.decode_pairing_accept (tf_payload frame) = Some accept /\
    Pairing.confirmation_tag bcrypt_hmac secrets transcript Pairing.role_server =
      Some (Pairing.pa_server_tag accept) /\
    Pairing.pa_key_id accept <> 0 /\
    config = mkClientRuntimeConfig (DiscoveryRuns.ca_address candidate)
      (DiscoveryRuns.ca_port candidate) client_id (Pairing.pa_key_id accept)
      (Pairing.ps_enrolled_key secrets) [].

Section Facts.
Context {K : Type} `{Pairing.KeyProvider K}.
Context (hmac : bytes -> bytes -> option bytes) (sha256 : bytes -> option bytes).

Lemma approved_by_enrolled candidate client_id transcript secrets frame :
  ar_outcome (approved_by hmac candidate client_id transcript secrets frame) = enrolled ->
  enrolled_by hmac candidate client_id transcript secrets frame
    (ar_config (approved_by hmac candidate client_id transcript secrets frame)).
Proof.
  unfold approved_by. destruct (has_type frame CT_pairing_reject).
  { intros He. by apply rejected_not_enrolled in He. }
  destruct (has_type frame CT_pairing_accept) eqn:Et; cbn [negb]; [|done].
  destruct (Pairing.decode_pairing_accept _) as [accept|] eqn:Ed; [|done].
  destruct (_ =? 0) eqn:Ek; [done|].
  destruct (Pairing.verify_confirmation_tag _ _ _ _ _) eqn:Ev; cbn [negb]; [|done].
  apply Pairing.verify_confirmation_tag_iff in Ev. bool_to_prop. intros _. by exists accept.
Qed.

Lemma await_approval_spec turns :
  forall candidate client_id transcript secrets deadline interval rid next reader log result log',
  await_approval hmac turns candidate client_id transcript secrets deadline interval rid next
    reader log = Some (result, log') ->
  (exists more, log' = log ++ more /\ quiet more) /\
  (ar_outcome result = enrolled ->
     exists frame, enrolled_by hmac candidate client_id transcript secrets frame (ar_config result)).
Proof using Type.
  assert (forall (log : list Event), exists more, log = log ++ more /\ quiet more) as Hrefl.
  { intros log. exists []. rewrite app_nil_r. split; [done|]. apply quiet_nil. }
  induction turns as [|turn turns IH];
    intros candidate client_id transcript secrets deadline interval rid next reader log result log';
    cbn [await_approval]; [done|].
  destruct (at_stopped turn); [by intros [= <- <-]|].
  destruct (_ >=? _); [by intros [= <- <-]|].
  destruct (arrived_frame _ _) as [[[frame|] reader']|]; [| |by intros [= <- <-]].
  - destruct (has_type frame CT_heartbeat); [apply IH|]. intros [= <- <-]. split; [done|].
    intros He. exists frame. by apply approved_by_enrolled.
  - destruct (beat _ _ _ _ _ _ _) as [[next' log1]|] eqn:Eb; [|by intros [= <- <-]].
    apply beat_spec in Eb as (more & -> & Hq). intros Hr.
    apply IH in Hr as [(more' & -> & Hq') He]. split; [|exact He].
    exists (more ++ more'). rewrite app_assoc. split; [done|]. by apply quiet_app.
Qed.
End Facts.

Section Agreement.
Context {K : Type} `{Pairing.KeyProvider K}.
Context (hmac : bytes -> bytes -> option bytes) (sha256 : bytes -> option bytes).

Lemma agree_on_not_enrolled (key_pair : Pairing.EphemeralKeyPair K) hello offered ending :
  agree_on hmac sha256 key_pair hello offered = inl ending -> ar_outcome ending <> enrolled.
Proof using Type.
  unfold agree_on. destruct (has_type offered CT_pairing_reject).
  { intros [= <-]. apply rejected_not_enrolled. }
  destruct (negb _); [by intros [= <-]|].
  destruct (Pairing.decode_pairing_offer _) as [offer|]; [|by intros [= <-]].
  destruct (Pairing.make_transcript _ _) as [transcript|]; [|by intros [= <-]].
  destruct (Pairing.agree _ _) as [shared|]; [|by intros [= <-]].
  by destruct (Pairing.derive_pairing_secrets _ _ _ _); intros [= <-].
Qed.
End Agreement.

(** ** Properties *)

(** The log of an exchange that confirmed: the code shown, the student's answer
    with that very code, and at once the confirmation, the only one. *)
Definition confirmed_properly (bcrypt_hmac : bytes -> bytes -> option bytes)
    (transcript : Pairing.PairingTranscript) (secrets : Pairing.PairingSecrets)
    (server_name : bytes) (log : list Event) : Prop :=
  let code := Pairing.ps_short_authentication_string secrets in
  exists before meanwhile answer rid tag after,
    log = before ++ [Shown code server_name] ++ meanwhile ++
      [Answered answer; Told CT_pairing_confirm rid (Pairing.encode_pairing_confirm
        (Pairing.mkPairingConfirm tag))] ++ after /\
    quiet before /\ quiet meanwhile /\ quiet after /\
    sc_choice answer = confirmed /\ sc_confirmed_code answer = code /\ code <> [] /\
    Pairing.confirmation_tag bcrypt_hmac secrets transcript Pairing.role_client = Some tag.

Section Confirmation.
Context {K : Type} `{Pairing.KeyProvider K}.
Context (hmac : bytes -> bytes -> option bytes) (sha256 : bytes -> option bytes).

Lemma confirm_and_wait_spec candidate client_id options (script : Script (K := K)) rid transcript
    secrets reader log result log' :
  quiet log ->
  confirm_and_wait hmac candidate client_id options script rid transcript secrets reader log =
    Some (result, log') ->
  (quiet log' /\ ar_outcome result <> enrolled) \/
  (confirmed_properly hmac transcript secrets (DiscoveryRuns.ca_server_name candidate) log' /\
   (ar_outcome result = enrolled ->
      exists frame, enrolled_by hmac candidate client_id transcript secrets frame (ar_config result))).
Proof using Type.
  intros Hlog. unfold confirm_and_wait.
  set (shown := Shown _ _). assert (quiet (log ++ [shown])) as Hq by (by apply quiet_app, quiet_one).
  destruct (po_student_confirmation options); cbn [negb]; [|intros [= <- <-]; by left].
  destruct (await_student _ _ _ _ _ _ _ _ _) as [[[ending log1]|[[next reader'] log1]]|] eqn:Ea; [| |done];
    apply await_student_spec in Ea.
  { destruct Ea as (He & more & -> & Hm). intros [= <- <-]. left. split; [by apply quiet_app|done]. }
  destruct Ea as (more & answer & -> & Hm & Hc & Hcode & Hne).
  assert (quiet ((log ++ [shown]) ++ more ++ [Answered answer])) as Hq1.
  { apply quiet_app; [done|]. apply quiet_app; [done|]. by apply quiet_one. }
  destruct (Pairing.confirmation_tag _ _ _ _) as [tag|] eqn:Et; [|intros [= <- <-]; by left].
  destruct (send_frame _ _ _ _ _) as [log2|] eqn:Es; [|intros [= <- <-]; by left].
  apply send_frame_spec in Es as ->. intros Hr.
  apply await_approval_spec in Hr as [(after & -> & Ha) He]. right. split; [|exact He].
  exists log, more, answer, rid, tag, after. split_and!; try done. by rewrite <- !app_assoc.
Qed.

(** C14. The client confirms only for its student.  An exchange that ends either
    sent no confirmation and is not enrolled, or sent one: after the code of the
    secrets both sides agreed on was shown, immediately after the student
    confirmed having read that very code, and with the client's tag over
    everything the two sides said.  It ends enrolled only on an accept that
    verifies as the server's over the same; the key that is kept is the one
    derived with the other end, under the key id of the accept and the candidate's
    address. *)
Theorem confirms_only_for_the_student candidate client_uuid hostname options
    (script : Script (K := K)) result log :
  pair_with_server hmac sha256 candidate client_uuid hostname options script = Some (result, log) ->
  (quiet log /\ ar_outcome result <> enrolled) \/
  exists client_id key_pair nonce offered transcript secrets,
    Pairing.client_id_from_uuid sha256 client_uuid = Some client_id /\
    agree_on hmac sha256 key_pair (make_hello key_pair client_uuid hostname nonce) offered =
      inr (transcript, secrets) /\
    confirmed_properly hmac transcript secrets (DiscoveryRuns.ca_server_name candidate) log /\
    (ar_outcome result = enrolled ->
       exists frame, enrolled_by hmac candidate client_id transcript secrets frame (ar_config result)).
Proof using Type.
  unfold pair_with_server. assert (forall e, ar_outcome (ended failed e) <> enrolled) as Hf by done.
  pose proof quiet_nil as Hn.
  destruct (sp_code_observer script); cbn [negb]; [|intros [= <- <-]; by left].
  destruct (Pairing.client_id_from_uuid _ _) as [client_id|]; [|intros [= <- <-]; by left].
  destruct (Pairing.generate _) as [key_pair|]; [|intros [= <- <-]; by left].
  destruct (sp_client_nonce script) as [nonce|]; [|intros [= <- <-]; by left].
  destruct (bool_decide _); [intros [= <- <-]; by left|].
  destruct (sp_winsock script); cbn [negb]; [|intros [= <- <-]; by left].
  destruct (sp_connected script); [intros [= <- <-]; by left|].
  destruct (send_frame _ _ _ _ _) as [log0|] eqn:Es; [|intros [= <- <-]; by left].
  apply send_frame_spec in Es as ->. cbn [app].
  assert (forall rid w, quiet [Told CT_pairing_hello rid w]) as Hh by (intros; by apply quiet_one).
  destruct (read_frame _ _) as [[[offered reader]|]|]; [|intros [= <- <-]; by left|done].
  destruct (agree_on _ _ _ _ _) as [ending|[transcript secrets]] eqn:Eg.
  { intros [= <- <-]. left. split; [done|]. by eapply agree_on_not_enrolled. }
  intros Hr. apply confirm_and_wait_spec in Hr as [?|[Hc He]]; [by left| |apply Hh].
  right. by exists client_id, key_pair, nonce, offered, transcript, secrets.
Qed.
End Confirmation.
End PairingClient.
