(* ===== verification/PairingSession.v ===== *)
(** Verified pairing from both ends: the client of PairingClient.v against the
    server of PairingServer.v, over a key agreement that gives both sides the same
    secret.  No operation of the program is defined here. *)

From S2P Require Import Prelude Wire Codec Protocol Auth ControlChannel KeyStore Pairing.
From S2P Require Import Discovery DiscoveryRuns ServerState PairingServer ServerRuns PairingClient.
From S2P Require Import PairingRuns.

Module PairingSession.
Import Protocol ControlChannel ServerState PairingServer PairingClient.

#[local] Existing Instances Pairing.pairing_offer_codec Pairing.pairing_confirm_codec
  Pairing.pairing_accept_codec PairingRuns.agreeing_keys.

(** Diffie-Hellman: two key pairs agree, from either side, on one secret. *)
Definition agreeing {K} `{Pairing.KeyProvider K} (a b : Pairing.EphemeralKeyPair K) : Prop :=
  forall mine theirs, Pairing.agree a (Pairing.public_key b) = Ok mine ->
    Pairing.agree b (Pairing.public_key a) = Ok theirs -> mine = theirs.

Definition sha256_sized (bcrypt_sha256 : bytes -> option bytes) : Prop :=
  forall message digest, bcrypt_sha256 message = Some digest -> length digest = 32%nat.

(** The frame that a plain send puts on the wire, as the other end's parser gives
    it back. *)
Definition carried (type : CommandType) (request_id : Z) (payload : bytes) : TcpFrame :=
  mkTcpFrame (plain_envelope (command_type_value type) request_id payload) payload.

Lemma carried_type type rid payload t :
  has_type (carried type rid payload) t = (command_type_value type =? command_type_value t).
Proof. done. Qed.

Section Session.
Context {K : Type} `{Pairing.KeyProvider K}.
Context (hmac : bytes -> bytes -> option bytes) (sha256 : bytes -> option bytes).
Context (Hhmac : digest_sized hmac) (Hsha : sha256_sized sha256).

Lemma confirmation_tag_sized secrets transcript role tag :
  Pairing.confirmation_tag hmac secrets transcript role = Some tag -> length tag = 32%nat.
Proof using Hhmac.
  intros Ht. apply Pairing.confirmation_tag_inv in Ht as (_ & w & _ & Hm).
  unfold Auth.hmac_sha256 in Hm. destruct (_ || _); [done|]. by eapply Hhmac.
Qed.

Lemma client_id_sized uuid client_id :
  Pairing.client_id_from_uuid sha256 uuid = Some client_id -> length client_id = 16%nat.
Proof using Hsha.
  unfold Pairing.client_id_from_uuid, Pairing.sha256. destruct (_ || _); [done|].
  destruct (_ >? _); [done|]. destruct (sha256 _) as [digest|] eqn:E; [|done].
  intros [= <-]. apply Hsha in E. rewrite length_take. lia.
Qed.

(** What the server's half of the exchange gives. *)
Lemma answer_hello_inv (env : Env K) hello offer transcript secrets :
  answer_hello hmac sha256 env hello = inl (offer, transcript, secrets) ->
  exists key_pair nonce shared, Pairing.generate (ev_generate env) = Ok key_pair /\
    ev_random env = Some nonce /\
    offer = Pairing.mkPairingOffer Pairing.kPairingVersion (Pairing.pair_agreement key_pair)
      (Pairing.public_key key_pair) nonce /\
    Pairing.make_transcript hello offer = Some transcript /\
    Pairing.agree key_pair (Pairing.ph_client_public_key hello) = Ok shared /\
    Pairing.derive_pairing_secrets hmac sha256 shared transcript = Some secrets.
Proof using Type.
  unfold answer_hello. destruct (Pairing.generate _) as [key_pair|]; [|done].
  destruct (negb _); [done|]. destruct (ev_random env) as [nonce|]; [|done].
  destruct (Pairing.make_transcript _ _) as [t'|] eqn:Et; [|done].
  destruct (Pairing.agree _ _) as [shared|] eqn:Ea; [|done].
  destruct (Pairing.derive_pairing_secrets _ _ _ _) as [sec|] eqn:Ed; [|done].
  intros [= <- <- <-]. by exists key_pair, nonce, shared.
Qed.

(** What the client's half gives. *)
Lemma agree_on_inv (key_pair : Pairing.EphemeralKeyPair K) hello offered transcript secrets :
  agree_on hmac sha256 key_pair hello offered = inr (transcript, secrets) ->
  exists offer shared, Pairing.decode_pairing_offer (tf_payload offered) = Some offer /\
    Pairing.make_transcript hello offer = Some transcript /\
    Pairing.agree key_pair (Pairing.po_server_public_key offer) = Ok shared /\
    Pairing.derive_pairing_secrets hmac sha256 shared transcript = Some secrets.
Proof using Type.
  unfold agree_on. destruct (has_type _ _); [done|]. destruct (negb _); [done|].
  destruct (Pairing.decode_pairing_offer _) as [offer|]; [|done].
  destruct (Pairing.make_transcript _ _) as [t|] eqn:Et; [|done].
  destruct (Pairing.agree _ _) as [shared|] eqn:Ea; [|done].
  destruct (Pairing.derive_pairing_secrets _ _ _ _) as [s|] eqn:Ed; [|done].
  intros [= <- <-]. by exists offer, shared.
Qed.

(** The server's offer is one that its decoder reads back. *)
Lemma offer_valid hello version offer transcript :
  version = Pairing.po_version offer -> u16 version ->
  length (Pairing.po_server_nonce offer) = 32%nat ->
  Pairing.make_transcript hello offer = Some transcript -> Pairing.wf_pairing_offer offer.
Proof using Type.
  intros -> Hv Hn. unfold Pairing.make_transcript. destruct (_ || _) eqn:E; [done|].
  destruct (Pairing.valid_transcript _) eqn:Ev; cbn [negb]; [|done]. intros _.
  unfold Pairing.valid_transcript in Ev. cbn in Ev. bool_to_prop.
  split; [|by split]. unfold Pairing.offer_admissible.
  replace (Pairing.po_agreement offer) with (Pairing.ph_agreement hello) by lia.
  rewrite H1, H3, H7. destruct (Z.eqb_spec (Pairing.po_version offer) 0); [lia|done].
Qed.

(** The two ends hold the same transcript and the same secrets. *)
Lemma ends_agree (env : Env K) kc uuid hostname nonce rid offer ts ss tc sc :
  let hello := make_hello kc uuid hostname nonce in
  (forall ks, Pairing.generate (ev_generate env) = Ok ks -> agreeing kc ks) ->
  (forall n, ev_random env = Some n -> length n = 32%nat) ->
  answer_hello hmac sha256 env hello = inl (offer, ts, ss) ->
  agree_on hmac sha256 kc hello (carried CT_pairing_offer rid (Pairing.encode_pairing_offer offer)) =
    inr (tc, sc) -> tc = ts /\ sc = ss.
Proof using Type.
  intros hello Hdh Hr Hs Hc.
  apply answer_hello_inv in Hs as (ks & n & x & Hg & Hn & Ho & Ht & Ha & Hd).
  apply agree_on_inv in Hc as (offer' & y & Hdec & Ht' & Ha' & Hd'). cbn [tf_payload carried] in Hdec.
  assert (Pairing.wf_pairing_offer offer) as Hw.
  { eapply (offer_valid _ _ _ _ eq_refl); [| |exact Ht]; subst offer; [by vm_compute|by apply Hr]. }
  pose proof (Codec.decode_encode (A := Pairing.PairingOffer) offer Hw) as Hde. cbn in Hde.
  rewrite Hde in Hdec. injection Hdec as <-.
  rewrite Ht in Ht'. injection Ht' as <-. split; [done|].
  subst offer. cbn in Ha'. specialize (Hdh ks Hg y x Ha' Ha) as ->. congruence.
Qed.

Lemma transcript_uuid hello offer transcript :
  Pairing.make_transcript hello offer = Some transcript ->
  Pairing.pt_client_uuid transcript = Pairing.ph_client_uuid hello.
Proof using Type.
  unfold Pairing.make_transcript. destruct (_ || _); [done|]. destruct (negb _); [done|]. by intros [= <-].
Qed.

(** The client's confirmation, at the server that holds the same secrets. *)
Lemma confirm_accepted r tag :
  Pairing.confirmation_tag hmac (pr_secrets r) (pr_transcript r) Pairing.role_client = Some tag ->
  confirm_verified hmac r (Pairing.encode_pairing_confirm (Pairing.mkPairingConfirm tag)) = true.
Proof using Hhmac.
  intros Ht. unfold confirm_verified.
  pose proof (Codec.decode_encode (A := Pairing.PairingConfirm) (Pairing.mkPairingConfirm tag)) as Hd.
  cbn [encode decode valid Pairing.pairing_confirm_codec] in Hd. rewrite Hd by (by eapply confirmation_tag_sized).
  by apply Pairing.verify_confirmation_tag_iff.
Qed.

(** The server's accept, at the client that holds the same secrets. *)
Lemma accept_enrols candidate client_id transcript secrets rid k tag :
  k <> 0 -> u32 k ->
  Pairing.confirmation_tag hmac secrets transcript Pairing.role_server = Some tag ->
  approved_by hmac candidate client_id transcript secrets
    (carried CT_pairing_accept rid (Pairing.encode_pairing_accept (Pairing.mkPairingAccept k tag))) =
  mkPairingAttemptResult enrolled
    (mkClientRuntimeConfig (DiscoveryRuns.ca_address candidate) (DiscoveryRuns.ca_port candidate)
       client_id k (Pairing.ps_enrolled_key secrets) []) "".
Proof using Hhmac.
  intros Hk Hu Ht. unfold approved_by. rewrite !carried_type. cbn [command_type_value Z.eqb].
  pose proof (Codec.decode_encode (A := Pairing.PairingAccept) (Pairing.mkPairingAccept k tag)) as Hd.
  cbn [encode decode valid Pairing.pairing_accept_codec] in Hd. cbn [tf_payload carried].
  rewrite Hd by (split_and!; [done|done|by eapply confirmation_tag_sized]). cbn [Pairing.pa_key_id Pairing.pa_server_tag].
  destruct (Z.eqb_spec k 0); [done|].
  by rewrite (proj2 (Pairing.verify_confirmation_tag_iff _ _ _ _ _) Ht).
Qed.

(** What an approval that succeeds has done: the key of the record is in the store
    under the new id, and the accept that was sent names that id. *)
Lemma install_told (env : Env K) s r s' :
  install_pairing hmac sha256 env s r = (Ok tt, s') ->
  exists client_id key_id tag,
    Pairing.client_id_from_uuid sha256 (Pairing.pt_client_uuid (pr_transcript r)) = Some client_id /\
    KeyStore.rotate (sv_key_store s) client_id (Pairing.ps_enrolled_key (pr_secrets r)) =
      Ok (key_id, sv_key_store s') /\
    Pairing.confirmation_tag hmac (pr_secrets r) (pr_transcript r) Pairing.role_server = Some tag /\
    key_id <> 0 /\
    Sent (pr_connection_id r) (plain_frame CT_pairing_accept (pr_request_id r)
      (Pairing.encode_pairing_accept (Pairing.mkPairingAccept key_id tag))) ∈ sv_effects s'.
Proof using Type.
  intros Hi. destruct (PairingRuns.install_ok hmac sha256 env s r s' Hi) as (client_id & key_id & Ec & Er).
  revert Hi. unfold install_pairing. rewrite Ec.
  destruct (Pairing.confirmation_tag _ _ _ _) as [tag|] eqn:Et; [|done]. rewrite Er.
  destruct (persist_keys _ _ _) as [saved s1]. destruct saved; cbn [negb]; [|done].
  case_bool_decide as Hp; [done|]. unfold send.
  destruct (ev_send env _); cbn [negb]; [|done]. intros [= <-].
  exists client_id, key_id, tag. split_and!; try done.
  - intros ->. by apply Hp.
  - cbn. rewrite !elem_of_app, !list_elem_of_singleton. tauto.
Qed.

(** C15. The two ends of a pairing share what the student compares and the key
    they will meet under.  When the offer that answered a client's hello reaches
    that client, and the two key pairs agree on a secret, then both hold the same
    transcript, the same code and the same keys; the confirmation that the client
    computes verifies at the server; and once the server has installed the
    pairing, the accept it sent enrols the client with the id and the very key
    under which the server's store now finds it. *)
Theorem paired_ends_share_a_key (env env' : Env K) candidate kc uuid hostname nonce rid offer ts ss tc sc :
  let hello := make_hello kc uuid hostname nonce in
  (forall ks, Pairing.generate (ev_generate env) = Ok ks -> agreeing kc ks) ->
  (forall n, ev_random env = Some n -> length n = 32%nat) ->
  answer_hello hmac sha256 env hello = inl (offer, ts, ss) ->
  agree_on hmac sha256 kc hello (carried CT_pairing_offer rid (Pairing.encode_pairing_offer offer)) =
    inr (tc, sc) ->
  (tc = ts /\ sc = ss) /\
  forall r client_id, pr_transcript r = ts -> pr_secrets r = ss ->
    Pairing.client_id_from_uuid sha256 uuid = Some client_id ->
    (forall tag, Pairing.confirmation_tag hmac sc tc Pairing.role_client = Some tag ->
       confirm_verified hmac r (Pairing.encode_pairing_confirm (Pairing.mkPairingConfirm tag)) = true) /\
    (forall s s', KeyStore.wf_store (sv_key_store s) ->
       install_pairing hmac sha256 env' s r = (Ok tt, s') ->
       exists payload,
         Sent (pr_connection_id r) (plain_frame CT_pairing_accept (pr_request_id r) payload) ∈
           sv_effects s' /\
         let result := approved_by hmac candidate client_id tc sc
           (carried CT_pairing_accept (pr_request_id r) payload) in
         ar_outcome result = enrolled /\ rc_client_id (ar_config result) = client_id /\
         rc_pre_shared_key (ar_config result) = Pairing.ps_enrolled_key ss /\
         KeyStore.resolve (sv_key_store s') client_id (rc_key_id (ar_config result)) =
           Some (Pairing.ps_enrolled_key ss)).
Proof using Hhmac Hsha.
  intros hello Hdh Hr Hs Hc. assert (Pairing.pt_client_uuid ts = uuid) as Huuid.
  { apply answer_hello_inv in Hs as (? & ? & ? & _ & _ & _ & Ht & _).
    by apply transcript_uuid in Ht. }
  destruct (ends_agree _ _ _ _ _ _ _ _ _ _ _ Hdh Hr Hs Hc) as [-> ->]. split; [done|].
  intros r client_id <- <- Hid. split.
  - intros tag Ht. by apply confirm_accepted.
  - intros s s' Hwf Hi. destruct (install_told _ _ _ _ Hi) as (c & k & tag & Ec & Er & Et & Hk & Hsent).
    rewrite Huuid, Hid in Ec. injection Ec as <-.
    exists (Pairing.encode_pairing_accept (Pairing.mkPairingAccept k tag)). split; [done|].
    destruct (KeyStore.rotate_spec _ _ _ _ _ Hwf (client_id_sized _ _ Hid) Er) as (_ & Hu & _ & Hres).
    rewrite (accept_enrols _ _ _ _ _ _ _ Hk Hu Et). cbn. split_and!; try done.
    rewrite Hres, bool_decide_true, Z.eqb_refl by (done || by apply client_id_sized in Hid). done.
Qed.
End Session.

(** ** Examples *)

Definition client_public : bytes := repeat (byte_of 4) 71 ++ [byte_of 3].

Definition client_pair : Pairing.EphemeralKeyPair bool :=
  Some (Pairing.mkKeyPairImpl true Pairing.x25519 client_public).

Definition client_generating : Pairing.GenerateCalls bool :=
  Pairing.mkGenerateCalls true true true (fun _ _ => Some true) (fun _ => true) (fun _ => Some 72)
    (fun _ => Some client_public).

Definition client_nonce : bytes := repeat (byte_of 5) 32.

Definition session_hello : Pairing.PairingHello :=
  make_hello client_pair (text "uuid-1") (text "LAB-01") client_nonce.

Definition session_env : Env bool := PairingRuns.pairing_env 2000.

Definition session_offer : Pairing.PairingOffer :=
  Pairing.mkPairingOffer 1 Pairing.x25519 PairingRuns.server_key (repeat (byte_of 6) 32).

Definition session_transcript : Pairing.PairingTranscript :=
  Pairing.mkPairingTranscript 1 Pairing.x25519 (text "uuid-1") (text "LAB-01") client_public
    PairingRuns.server_key client_nonce (repeat (byte_of 6) 32).

Definition session_secrets : Pairing.PairingSecrets :=
  Pairing.mkPairingSecrets (repeat (byte_of 9) 32) (repeat (byte_of 9) 32)
    (Pairing.format_sas (repeat (byte_of 9) 32)).

Definition session_record : PendingPairingRecord :=
  mkPendingPairingRecord 1 1 7 (text "10.0.0.7") session_transcript session_secrets 183000 true.

Definition session_candidate : DiscoveryRuns.PairingCandidate :=
  DiscoveryRuns.mkPairingCandidate (text "10.0.0.2") 47001 (text "Room").

(** The student waits a round, then confirms; the operator answers after a heartbeat. *)
Definition session_code : bytes := Pairing.ps_short_authentication_string session_secrets.

Definition student_turn (choice : StudentConfirmationChoice) (code : bytes) : StudentTurn :=
  mkStudentTurn false 1000 (mkStudentConfirmation choice code) false 1000 1000 None 1000 None.

Definition session_accept : bytes :=
  plain_frame CT_pairing_accept 7
    (Pairing.encode_pairing_accept (Pairing.mkPairingAccept 1 (repeat (byte_of 9) 32))).

Definition session_script (confirmed_code : bytes) : Script (K := bool) :=
  mkScript true client_generating (Some client_nonce) true None (Some (write_le 4 7)) None
    [Some (plain_frame CT_pairing_offer 7 (Pairing.encode_pairing_offer session_offer))]
    1000 1000 [student_turn waiting []; student_turn confirmed confirmed_code] None 1000
    [mkApprovalTurn false 2000 (Some (Some (plain_frame CT_heartbeat 8 []))) 2000 None 2000;
     mkApprovalTurn false 3000 (Some (Some session_accept)) 3000 None 3000].

Definition paired (confirmed_code : bytes) : option (PairingAttemptResult * list Event) :=
  pair_with_server PairingRuns.constant_hmac PairingRuns.constant_sha256 session_candidate
    (text "uuid-1") (text "LAB-01") (mkPairingAttemptOptions 180000 5000 true)
    (session_script confirmed_code).

(** The right code enrols; another one is refused, and nothing is confirmed. *)
Example codes_compared :
  option_map (fun r => ar_outcome r.1) (paired session_code) = Some enrolled /\
  option_map (fun r => (ar_outcome r.1, len r.2)) (paired (text "000000")) = Some (student_refused, 4).
Proof. split; vm_compute; reflexivity. Qed.

Lemma constant_hmac_sized : digest_sized PairingRuns.constant_hmac.
Proof. by intros key message digest [= <-]. Qed.

Lemma constant_sha256_sized : sha256_sized PairingRuns.constant_sha256.
Proof. by intros message digest [= <-]. Qed.

Lemma confirms_only_for_the_student_witness :
  exists result log, paired session_code = Some (result, log) /\ ar_outcome result = enrolled /\
    exists transcript secrets,
      confirmed_properly PairingRuns.constant_hmac transcript secrets (text "Room") log.
Proof.
  assert (option_map (fun r => ar_outcome r.1) (paired session_code) = Some enrolled) as Ho
    by (vm_compute; reflexivity).
  destruct (paired session_code) as [[result log]|] eqn:E; [|discriminate Ho].
  injection Ho as Ho. exists result, log. split; [reflexivity|]. split; [exact Ho|].
  unfold paired in E.
  destruct (confirms_only_for_the_student _ _ _ _ _ _ _ _ _ E)
    as [[_ Hn]|(client_id & key_pair & nonce & offered & transcript & secrets & _ & _ & Hc & _)].
  - by destruct Hn.
  - exists transcript, secrets. exact Hc.
Defined.

Definition session_installed : result unit * Server :=
  install_pairing PairingRuns.constant_hmac PairingRuns.constant_sha256
    (PairingRuns.pairing_env 4000) PairingRuns.pairing_server session_record.

Lemma paired_ends_share_a_key_witness :
  answer_hello PairingRuns.constant_hmac PairingRuns.constant_sha256 session_env session_hello =
    inl (session_offer, session_transcript, session_secrets) /\
  exists s', session_installed = (Ok tt, s') /\ exists client_id key_id,
    KeyStore.resolve (sv_key_store s') client_id key_id =
      Some (Pairing.ps_enrolled_key session_secrets).
Proof.
  assert (answer_hello PairingRuns.constant_hmac PairingRuns.constant_sha256 session_env session_hello =
    inl (session_offer, session_transcript, session_secrets)) as Hs by (vm_compute; reflexivity).
  split; [exact Hs|].
  assert (session_installed.1 = Ok tt) as Hok by (vm_compute; reflexivity).
  destruct session_installed as [answer s'] eqn:Ei. cbn in Hok. subst answer. exists s'.
  split; [reflexivity|].
  destruct (paired_ends_share_a_key PairingRuns.constant_hmac PairingRuns.constant_sha256
    constant_hmac_sized constant_sha256_sized session_env (PairingRuns.pairing_env 4000)
    session_candidate client_pair (text "uuid-1") (text "LAB-01") client_nonce 7 session_offer
    session_transcript session_secrets session_transcript session_secrets) as [_ Hr].
  - intros ks Hg mine theirs. vm_compute in Hg. injection Hg as <-. vm_compute. congruence.
  - intros n [= <-]. reflexivity.
  - exact Hs.
  - vm_compute. reflexivity.
  - destruct (Hr session_record (repeat (byte_of 8) 16) eq_refl eq_refl eq_refl) as [_ Hi].
    destruct (Hi PairingRuns.pairing_server s' (map_Forall_empty _) Ei)
      as (payload & _ & _ & _ & _ & Hkey).
    exists (repeat (byte_of 8) 16). eexists. exact Hkey.
Defined.
End PairingSession.
