(* ===== verification/ServerExams.v ===== *)
(** Exams on the server (server/src/control_plane.cpp): the contexts that say
    which exam a client may take part in, and the operator's calls that start, begin
    and stop them over the connections of ServerConnection.

    [active_exam_contexts_] outlives connections.  The contexts, the instructor's key
    and the audit log are kept beside the control plane's state; the commands that
    the connections hand on come back here. *)

From S2P Require Import Prelude Wire Protocol Auth KeyStore ControlChannel ControlMessages.
From S2P Require Import ClientRegistry ExamSync ExamControl ExamAuth ExamTelemetry AuditLog Pairing.
From S2P Require Import ServerState PairingServer ServerConnection ServerRuns.

Module ServerExams.
Import Protocol ControlChannel ServerState ServerConnection.

(** ** Telemetry authorization *)

Definition kTelemetryMaxActiveContextMs : Z := 25 * 60 * 60 * 1000.

(** [telemetry_detail::ClockSnapshot]. *)
Record ClockSnapshot := mkClockSnapshot { ck_wall_ms : Z; ck_steady : Z }.

(** [telemetry_detail::Authorization]. *)
Record TelemetryAuthorization := mkTelemetryAuthorization {
  tz_created_wall_ms : Z;
  tz_deadline : Z;
  tz_expired : bool
}.

(** The authorization is marked when its time is over. *)
Definition telemetry_is_eligible (authorization : TelemetryAuthorization) (now : ClockSnapshot)
    : bool * TelemetryAuthorization :=
  let created := tz_created_wall_ms authorization in
  if tz_expired authorization || (created =? 0) then (false, authorization)
  else if (ck_steady now >=? tz_deadline authorization) ||
          ((ck_wall_ms now >=? created) &&
           (ck_wall_ms now - created >=? kTelemetryMaxActiveContextMs))
  then (false, {| authorization with tz_expired := true |})
  else (ck_wall_ms now >=? created, authorization).

(** ** Contexts *)

Record ActiveExamContext := mkActiveExamContext {
  ax_client_id : bytes;
  ax_package_digest : bytes;
  ax_session_id : bytes;
  ax_package_id : bytes;
  ax_candidate_id : bytes;
  ax_instructor_id : bytes;
  ax_instructor_authorized : bool;
  ax_ready : bool;
  ax_begun : bool;
  ax_server_start : Z;
  ax_telemetry : TelemetryAuthorization
}.

(** The five fields that name an exam session; every message of it carries them. *)
Record ExamTuple := mkExamTuple {
  xt_client_id : bytes;
  xt_package_digest : bytes;
  xt_session_id : bytes;
  xt_package_id : bytes;
  xt_candidate_id : bytes
}.

#[export] Instance exam_tuple_eq_dec : EqDecision ExamTuple.
Proof. solve_decision. Defined.

Definition tuple_of (context : ActiveExamContext) : ExamTuple :=
  mkExamTuple (ax_client_id context) (ax_package_digest context) (ax_session_id context)
    (ax_package_id context) (ax_candidate_id context).

Definition start_tuple (request : ExamControl.ExamStartRequest) : ExamTuple :=
  mkExamTuple (ExamControl.es_client_id request) (ExamControl.es_package_digest request)
    (ExamControl.es_session_id request) (ExamControl.es_package_id request)
    (ExamControl.es_candidate_id request).

Definition answer_tuple (event : ExamSync.AnswerEvent) : ExamTuple :=
  mkExamTuple (ExamSync.ev_client_id event) (ExamSync.ev_package_digest event)
    (ExamSync.ev_session_id event) (ExamSync.ev_package_id event) (ExamSync.ev_candidate_id event).

Definition state_request_tuple (request : ExamSync.StateRequest) : ExamTuple :=
  mkExamTuple (ExamSync.sr_client_id request) (ExamSync.sr_package_digest request)
    (ExamSync.sr_session_id request) (ExamSync.sr_package_id request)
    (ExamSync.sr_candidate_id request).

Definition ready_tuple (report : ExamControl.ExamReadyReport) : ExamTuple :=
  mkExamTuple (ExamControl.er_client_id report) (ExamControl.er_package_digest report)
    (ExamControl.er_session_id report) (ExamControl.er_package_id report)
    (ExamControl.er_candidate_id report).

Definition telemetry_tuple (batch : ExamTelemetry.TelemetryBatch) : ExamTuple :=
  mkExamTuple (ExamTelemetry.tb_client_id batch) (ExamTelemetry.tb_package_digest batch)
    (ExamTelemetry.tb_session_id batch) (ExamTelemetry.tb_package_id batch)
    (ExamTelemetry.tb_candidate_id batch).

(** The overloads of [matches_exam_context]. *)
Definition matches_exam_context (context : ActiveExamContext) (tuple : ExamTuple) : bool :=
  bool_decide (tuple_of context = tuple).

Record ExamClientState := mkExamClientState {
  xc_client_id : Z;
  xc_package_id : bytes;
  xc_candidate_id : bytes;
  xc_ready : bool;
  xc_begun : bool
}.

(** [ExamLaunchRequest] with its [authorization_ticket]. *)
Record ExamLaunchRequest := mkExamLaunchRequest {
  xl_package_root : bytes;
  xl_web_root : bytes;
  xl_user_data_root : bytes;
  xl_package_id : bytes;
  xl_candidate_id : bytes;
  xl_package_digest : bytes;
  xl_authorization_ticket : option ExamAuth.InstructorAuthorizationTicket
}.

(** ** State *)

(** Calls to the telemetry journal, which is not modelled; their results are not
    used. *)
Inductive JournalCall :=
| AuthorizeContext (session_id : bytes) (wall_ms : Z)
| StopAuthorization (session_id : bytes)
| RemoveContext (session_id : bytes).

Record ExamServer := mkExamServer {
  xs_server : Server;
  xs_contexts : gmap Z ActiveExamContext;
  xs_exam_journal_path : bool;
  xs_telemetry_journal_open : bool;
  xs_instructor_key : bytes;
  xs_require_instructor_ticket : bool;
  xs_audit_open : bool;
  xs_next_audit_sequence : Z;
  xs_next_uwf_operation_id : Z;
  xs_records : list AuditLog.AuditRecord;
  xs_journal_calls : list JournalCall
}.

(** What a call draws besides [Env]: the telemetry clock when the exam is created
    and when its telemetry is enabled, the random session id, and the system
    clock. *)
Record ExamEnv (K : Type) := mkExamEnv {
  xe_env : Env K;
  xe_created : ClockSnapshot;
  xe_enabled : ClockSnapshot;
  xe_session_id : option bytes;
  xe_unix_milliseconds : Z
}.
Arguments mkExamEnv {K}. Arguments xe_env {K}. Arguments xe_created {K}. Arguments xe_enabled {K}.
Arguments xe_session_id {K}. Arguments xe_unix_milliseconds {K}.

Definition with_server (xs : ExamServer) (s : Server) : ExamServer := {| xs with xs_server := s |}.

Definition with_contexts (xs : ExamServer) (contexts : gmap Z ActiveExamContext) : ExamServer :=
  {| xs with xs_contexts := contexts |}.

Definition audit_event (severity : Z) (component action result : bytes) (client_id : Z) (detail : bytes)
    : AuditLog.Event := AuditLog.mkEvent 4 severity component action result 0 client_id detail.

Definition severity_warning : Z := 2.

(** The record is handed to the sink; what the sink does with it is in AuditLog. *)
Definition audit_emit (xs : ExamServer) (now : Z) (event : AuditLog.Event) : ExamServer :=
  if negb (xs_audit_open xs) then xs
  else
    {| xs with xs_next_audit_sequence := wrap64 (xs_next_audit_sequence xs + 1);
               xs_records := xs_records xs ++
                 [AuditLog.mkAuditRecord (xs_next_audit_sequence xs) now event] |}.

Definition journal_call (xs : ExamServer) (call : JournalCall) : ExamServer :=
  if xs_telemetry_journal_open xs
  then {| xs with xs_journal_calls := xs_journal_calls xs ++ [call] |} else xs.

Definition with_telemetry (context : ActiveExamContext) (telemetry : TelemetryAuthorization)
    : ActiveExamContext := {| context with ax_telemetry := telemetry |}.

Definition with_ready (context : ActiveExamContext) : ActiveExamContext :=
  {| context with ax_ready := true |}.

Definition with_begun (context : ActiveExamContext) (start : Z) : ActiveExamContext :=
  {| context with ax_begun := true; ax_server_start := start |}.

(** ** What others ask *)

Definition active_exam_for (xs : ExamServer) (registry_id : Z) : option ActiveExamContext :=
  if registry_id =? 0 then None else xs_contexts xs !! registry_id.

Definition exam_active (xs : ExamServer) (registry_id : Z) : bool :=
  bool_decide (is_Some (xs_contexts xs !! registry_id)).

Definition is_exam_instructor_authorized (xs : ExamServer) (client_id : Z) : bool :=
  match xs_contexts xs !! client_id with
  | Some context => ax_instructor_authorized context
  | None => false
  end.

Definition exam_instructor_id (xs : ExamServer) (client_id : Z) : bytes :=
  match xs_contexts xs !! client_id with
  | Some context => ax_instructor_id context
  | None => []
  end.

(** In the order of the hash map; one order stands for all. *)
Definition ready_exam_clients (xs : ExamServer) : list Z :=
  map fst (List.filter (fun entry => ax_ready entry.2) (map_to_list (xs_contexts xs))).

Definition exam_client_states (xs : ExamServer) : list ExamClientState :=
  map (fun entry => mkExamClientState entry.1 (ax_package_id entry.2) (ax_candidate_id entry.2)
         (ax_ready entry.2) (ax_begun entry.2)) (map_to_list (xs_contexts xs)).

Definition set_instructor_key (xs : ExamServer) (key : bytes) : ExamServer :=
  {| xs with xs_instructor_key := key |}.

Definition has_instructor_key (xs : ExamServer) : bool := negb (bool_decide (xs_instructor_key xs = [])).

Definition set_require_instructor_ticket (xs : ExamServer) (require : bool) : ExamServer :=
  {| xs with xs_require_instructor_ticket := require |}.

Definition requires_instructor_ticket (xs : ExamServer) : bool := xs_require_instructor_ticket xs.

(** ** The operator's calls *)

Section Calls.
Context {K : Type} `{Pairing.KeyProvider K} {GCM : AesGcm}.
Variable bcrypt_hmac : bytes -> bytes -> option bytes.

(** The build's NSTU_DEV_UNPROTECTED_EXAM. *)
Variable dev_unprotected : bool.

(** [send_authenticated_locked] with a fresh request id. *)
Definition send_next (env : ExamEnv K) (xs : ExamServer) (cn : ConnectionState) (type : CommandType)
    (payload : bytes) : bool * ConnectionState * ExamServer :=
  let '(request_id, s) := take_request_id (xs_server xs) in
  let '(sent, cn, s) := send_authenticated bcrypt_hmac (xe_env env) s cn type request_id payload in
  (sent, cn, with_server xs s).

Definition enable_of (context : ActiveExamContext) (now : Z) : bytes :=
  ExamTelemetry.encode_telemetry_enable
    (ExamTelemetry.mkTelemetryEnable (ax_package_id context) (ax_package_digest context)
       (ax_client_id context) (ax_session_id context) (ax_candidate_id context) now).

(** [send_telemetry_enable_locked]. *)
Definition send_telemetry_enable_locked (env : ExamEnv K) (xs : ExamServer) (cn : ConnectionState)
    (context : ActiveExamContext) : ConnectionState * ActiveExamContext * ExamServer :=
  if negb (xs_exam_journal_path xs) then (cn, context, xs)
  else
    let now := xe_enabled env in
    let '(eligible, telemetry) := telemetry_is_eligible (ax_telemetry context) now in
    let context := with_telemetry context telemetry in
    if negb eligible then (cn, context, xs)
    else
      let payload := enable_of context (ck_wall_ms now) in
      let '(sent, cn, xs) :=
        if bool_decide (payload = []) then (false, cn, xs)
        else send_next env xs cn CT_exam_telemetry_enable payload in
      if sent then (cn, context, xs)
      else
        (cn, context,
         audit_emit xs (xe_unix_milliseconds env)
           (audit_event severity_warning (text "exam_telemetry") (text "enable") (text "failed")
              (cn_registry_id cn)
              (text "telemetry enable unavailable; answer authorization retained"))).

(** The instructor's part of [start_exam]: the instructor who authorized it, if
    one had to. *)
Definition authorize_start (env : ExamEnv K) (xs : ExamServer) (client_id : Z)
    (request : ExamControl.ExamStartRequest)
    (ticket : option ExamAuth.InstructorAuthorizationTicket)
    : result (option bytes) * ExamServer :=
  let now := xe_unix_milliseconds env in
  let key := xs_instructor_key xs in
  let require_ticket := xs_require_instructor_ticket xs || negb (bool_decide (key = [])) in
  match ticket with
  | Some ticket =>
      match ExamAuth.verify_ticket_for_exam bcrypt_hmac key ticket request
              (ck_wall_ms (xe_created env)) with
      | ExamAuth.valid_ticket =>
          (Ok (Some (ExamAuth.tk_instructor_id ticket)),
           audit_emit xs now
             (audit_event AuditLog.severity_info (text "exam_auth") (text "ticket_verified")
                (text "authorized") client_id
                (text "instructor authorization ticket verified for instructor: " ++
                 ExamAuth.tk_instructor_id ticket)))
      | rejection =>
          let reason := ExamAuth.ticket_verification_result_to_string rejection in
          let name := text reason in
          (Err ("instructor authorization failed: " ++ reason)%string,
           audit_emit xs now
             (audit_event severity_warning (text "exam_auth") (text "ticket_verify_failed") name
                client_id (text "instructor ticket rejected: " ++ name)))
      end
  | None =>
      if require_ticket
      then
        (Err "exam blocked: instructor authorization ticket required",
         audit_emit xs now
           (audit_event severity_warning (text "exam_auth") (text "ticket_missing")
              (text "unauthorized") client_id
              (text "exam blocked: instructor authorization ticket required")))
      else (Ok None, xs)
  end.

Definition context_for (request : ExamControl.ExamStartRequest) (instructor : option bytes)
    (created : ClockSnapshot) : ActiveExamContext :=
  mkActiveExamContext (ExamControl.es_client_id request) (ExamControl.es_package_digest request)
    (ExamControl.es_session_id request) (ExamControl.es_package_id request)
    (ExamControl.es_candidate_id request) (default [] instructor)
    (bool_decide (is_Some instructor)) false false 0
    (mkTelemetryAuthorization (ck_wall_ms created) (ck_steady created + kTelemetryMaxActiveContextMs)
       false).

(** The ownership scope: [None] when the connection is not the client's; else
    whether protection is proven, whether the context was installed, and the
    contexts. *)
Definition admit_exam (xs : ExamServer) (cn : ConnectionState) (client_id : Z)
    (request : ExamControl.ExamStartRequest) (context : ActiveExamContext)
    : option (bool * bool * gmap Z ActiveExamContext) :=
  let registry_id := cn_registry_id cn in
  if negb (is_current_state (xs_server xs) cn) || negb (registry_id =? client_id) ||
     negb (bool_decide (Auth.ah_client_id (cn_hello cn) = ExamControl.es_client_id request))
  then None
  else
    let protection_proven := ClientRegistry.gate_open (sv_registry (xs_server xs)) registry_id in
    if protection_proven || dev_unprotected then
      match xs_contexts xs !! registry_id with
      | Some _ => Some (protection_proven, false, xs_contexts xs)
      | None => Some (protection_proven, true, <[registry_id := context]> (xs_contexts xs))
      end
    else Some (protection_proven, false, xs_contexts xs).

(** The gate after the ownership scope, with its audit records. *)
Definition pass_gate (env : ExamEnv K) (xs : ExamServer) (client_id : Z) (protection_proven : bool)
    : bool * ExamServer :=
  let now := xe_unix_milliseconds env in
  if protection_proven then (true, xs)
  else if dev_unprotected then
    (true, audit_emit xs now
       (audit_event severity_warning (text "exam_gate") (text "start_bypassed_dev")
          (text "unprotected") client_id (text "DEV build started exam without proven UWF protection")))
  else
    (false, audit_emit xs now
       (audit_event severity_warning (text "exam_gate") (text "start_blocked") (text "unprotected")
          client_id (text "exam blocked: no current-session UWF protection"))).

(** The rest of [start_exam], once the context is in: its send, or its removal. *)
Definition announce_exam (env : ExamEnv K) (xs : ExamServer) (cn : ConnectionState)
    (context : ActiveExamContext) (payload : bytes) (protection_proven : bool)
    : result unit * ExamServer :=
  let registry_id := cn_registry_id cn in
  let '(sent, cn, xs) := send_next env xs cn CT_exam_start payload in
  if negb sent
  then (Err "authenticated command sequence is unavailable",
        with_server (with_contexts xs (delete registry_id (xs_contexts xs)))
          (store_object (xs_server xs) cn))
  else
    let '(cn, context, xs) := send_telemetry_enable_locked env xs cn context in
    let xs := with_contexts xs (<[registry_id := context]> (xs_contexts xs)) in
    let xs := journal_call xs
      (AuthorizeContext (ax_session_id context) (ck_wall_ms (xe_created env))) in
    let xs := audit_emit xs (xe_unix_milliseconds env)
      (audit_event (if protection_proven then AuditLog.severity_info else severity_warning)
         (text "exam_gate") (text "start")
         (if protection_proven then text "protected" else text "unprotected_dev") registry_id
         (text "exam session started")) in
    (Ok tt, with_server xs (store_object (xs_server xs) cn)).

Definition start_exam (env : ExamEnv K) (xs : ExamServer) (client_id : Z)
    (request : ExamControl.ExamStartRequest)
    (ticket : option ExamAuth.InstructorAuthorizationTicket) : result unit * ExamServer :=
  if negb (ExamControl.validate_exam_start_request request)
  then (Err "invalid exam start request", xs)
  else
    match state_for_client (xs_server xs) client_id with
    | None => (Err "client is not authenticated", xs)
    | Some cn =>
        let '(authorized, xs) := authorize_start env xs client_id request ticket in
        match authorized with
        | Err e => (Err e, xs)
        | Ok instructor =>
            let payload := ExamControl.encode_exam_start_request request in
            if bool_decide (payload = [])
            then (Err "exam start request could not be encoded", xs)
            else
              let context := context_for request instructor (xe_created env) in
              match admit_exam xs cn client_id request context with
              | None => (Err "exam request identity does not match client", xs)
              | Some (protection_proven, inserted, contexts) =>
                  let '(passed, xs) :=
                    pass_gate env (with_contexts xs contexts) client_id protection_proven in
                  if negb passed
                  then (Err "exam blocked: this client has not proven current-session UWF protection", xs)
                  else if negb inserted
                  then (Err "client already has an active exam session", xs)
                  else announce_exam env xs cn context payload protection_proven
              end
        end
    end.

Definition any_session_byte (session_id : bytes) : bool :=
  existsb (fun b => negb (bool_decide (b = Byte.x00))) session_id.

(** The request that [launch_exam] fills in. *)
Definition launch_request (env : ExamEnv K) (xs : ExamServer) (client_id : Z)
    (launch : ExamLaunchRequest) (ticket : option ExamAuth.InstructorAuthorizationTicket)
    : result ExamControl.ExamStartRequest :=
  match state_for_client (xs_server xs) client_id with
  | None => Err "client is not authenticated"
  | Some cn =>
      if negb (bool_decide (cn_stage cn = authenticated)) || negb (cn_registry_id cn =? client_id)
      then Err "client is not authenticated"
      else
        let drawn :=
          match ticket with
          | Some ticket =>
              if any_session_byte (ExamAuth.tk_session_id ticket)
              then Some (ExamAuth.tk_session_id ticket) else xe_session_id env
          | None => xe_session_id env
          end in
        match drawn with
        | None => Err "could not generate exam session identity"
        | Some session_id =>
            Ok (ExamControl.mkExamStartRequest (xl_package_root launch) (xl_web_root launch)
                  (xl_user_data_root launch) (xl_package_id launch) (xl_candidate_id launch)
                  (xl_package_digest launch) (Auth.ah_client_id (cn_hello cn)) session_id)
        end
  end.

Definition launch_exam (env : ExamEnv K) (xs : ExamServer) (client_id : Z)
    (launch : ExamLaunchRequest) (ticket : option ExamAuth.InstructorAuthorizationTicket)
    : result unit * ExamServer :=
  match launch_request env xs client_id launch ticket with
  | Err e => (Err e, xs)
  | Ok request => start_exam env xs client_id request ticket
  end.

Definition stop_exam (env : ExamEnv K) (xs : ExamServer) (client_id : Z) : result unit * ExamServer :=
  match state_for_client (xs_server xs) client_id with
  | None => (Err "client is not authenticated", xs)
  | Some cn =>
      if negb (bool_decide (cn_stage cn = authenticated)) || (cn_registry_id cn =? 0)
      then (Err "authenticated command sequence is unavailable", xs)
      else
        let '(sent, cn, xs) := send_next env xs cn CT_exam_stop [] in
        let xs := with_server xs (store_object (xs_server xs) cn) in
        if negb sent then (Err "authenticated command sequence is unavailable", xs)
        else
          match xs_contexts xs !! cn_registry_id cn with
          | None => (Ok tt, xs)
          | Some context =>
              let xs := journal_call xs (StopAuthorization (ax_session_id context)) in
              let xs := journal_call xs (RemoveContext (ax_session_id context)) in
              (Ok tt, with_contexts xs (delete (cn_registry_id cn) (xs_contexts xs)))
          end
  end.

Definition begin_command (context : ActiveExamContext) (start duration_seconds : Z)
    : ExamControl.ExamBeginCommand :=
  ExamControl.mkExamBeginCommand (ax_package_id context) (ax_candidate_id context)
    (ax_package_digest context) (ax_client_id context) (ax_session_id context) start
    duration_seconds.

Definition begin_exam (env : ExamEnv K) (xs : ExamServer) (client_id duration_seconds : Z)
    : result unit * ExamServer :=
  match state_for_client (xs_server xs) client_id with
  | None => (Err "client is not authenticated", xs)
  | Some cn =>
      if negb (bool_decide (cn_stage cn = authenticated)) || (cn_registry_id cn =? 0)
      then (Err "authenticated command sequence is unavailable", xs)
      else
        let registry_id := cn_registry_id cn in
        match xs_contexts xs !! registry_id with
        | None => (Err "client has no active exam session", xs)
        | Some context =>
            if negb (ax_ready context) then (Err "client is not ready to begin the exam", xs)
            else if ax_begun context then (Err "client exam has already begun", xs)
            else
              let start := xe_unix_milliseconds env in
              let payload :=
                ExamControl.encode_exam_begin_command (begin_command context start duration_seconds) in
              if bool_decide (payload = []) then (Err "could not encode exam begin command", xs)
              else
                let '(sent, cn, xs) := send_next env xs cn CT_exam_begin payload in
                let xs := with_server xs (store_object (xs_server xs) cn) in
                if negb sent then (Err "authenticated command sequence is unavailable", xs)
                else
                  (Ok tt, with_contexts xs
                     (<[registry_id := with_begun context start]> (xs_contexts xs)))
        end
  end.

(** [send_command], with the two commands that have entry points of their own. *)
Definition send_command (env : ExamEnv K) (xs : ExamServer) (client_id : Z) (type : CommandType)
    (payload : bytes) : result unit * ExamServer :=
  match type with
  | CT_exam_start =>
      match ExamControl.decode_exam_start_request payload with
      | None => (Err "invalid exam start request", xs)
      | Some request => start_exam env xs client_id request None
      end
  | CT_exam_stop =>
      if negb (bool_decide (payload = []))
      then (Err "exam stop command must not have a payload", xs)
      else stop_exam env xs client_id
  | _ =>
      let '(sent, s) :=
        ServerConnection.send_command bcrypt_hmac (xe_env env) (xs_server xs) client_id type payload in
      (if sent then Ok tt else Err "authenticated command sequence is unavailable", with_server xs s)
  end.

Definition configure_uwf_fleet (env : ExamEnv K) (xs : ExamServer) (client_id : Z)
    (checkpoint_acknowledged restart_requested : bool) : result unit * ExamServer :=
  let operation_id := xs_next_uwf_operation_id xs in
  let xs := {| xs with xs_next_uwf_operation_id := wrap64 (operation_id + 1) |} in
  let '(registry, recorded) :=
    ClientRegistry.begin_uwf_fleet_operation (sv_registry (xs_server xs)) client_id operation_id
      restart_requested (ev_registry_now (xe_env env)) in
  let s := xs_server xs in
  let xs := with_server xs {| s with sv_registry := registry |} in
  if negb recorded then (Err "client is not known to the registry", xs)
  else
    let payload := ControlMessages.encode_uwf_fleet_configure_request
      (ControlMessages.mkUwfFleetConfigureRequest operation_id checkpoint_acknowledged
         restart_requested) in
    if bool_decide (payload = []) then (Err "fleet UWF request could not be encoded", xs)
    else
      let '(sent, xs) := send_command env xs client_id CT_uwf_fleet_configure payload in
      let ok := match sent with Ok _ => true | Err _ => false end in
      (sent,
       audit_emit xs (xe_unix_milliseconds env)
         (AuditLog.mkEvent 3 (if ok then AuditLog.severity_info else AuditLog.severity_error)
            (text "uwf_fleet") (if restart_requested then text "arm_and_restart" else text "arm")
            (if ok then text "sent" else text "send_failed") operation_id client_id [])).

(** ** Commands from the client *)

Definition process_exam_ready (xs : ExamServer) (cn : ConnectionState) (command : AuthenticatedCommand)
    : bool * ExamServer :=
  let dropped := with_server xs (emit (xs_server xs) (Disconnect (cn_connection_id cn))) in
  match ExamControl.decode_exam_ready_report (cmd_payload command),
        active_exam_for xs (cn_registry_id cn) with
  | Some report, Some context =>
      if negb (bool_decide (ExamControl.er_client_id report = Auth.ah_client_id (cn_hello cn))) ||
         negb (matches_exam_context context (ready_tuple report))
      then (false, dropped)
      else
        (true,
         match xs_contexts xs !! cn_registry_id cn with
         | Some found =>
             with_contexts xs (<[cn_registry_id cn := with_ready found]> (xs_contexts xs))
         | None => xs
         end)
  | _, _ => (false, dropped)
  end.

(** What the handler of a command makes of it when its connection hands it on. *)
Definition handle_handed (xs : ExamServer) (effect : Effect) : ExamServer :=
  match effect with
  | Handed id command =>
      if ce_type (cmd_envelope command) =? command_type_value CT_exam_ready then
        match sv_objects (xs_server xs) !! id with
        | Some cn => (process_exam_ready xs cn command).2
        | None => xs
        end
      else xs
  | _ => xs
  end.

(** [stop]: the configuration goes as well. *)
Definition stop_server (xs : ExamServer) : ExamServer :=
  let s := xs_server xs in
  {| xs with
     xs_server := {| s with sv_pending_pairings := ∅; sv_pairing_window_open := false;
                            sv_server_name := []; sv_states := ∅; sv_client_connections := ∅;
                            sv_enrollment_authority := None; sv_keyring_configured := false |};
     xs_contexts := ∅; xs_telemetry_journal_open := false; xs_exam_journal_path := false;
     xs_instructor_key := []; xs_require_instructor_ticket := false |}.
End Calls.
End ServerExams.
