(* ===== verification/ExamRuns.v ===== *)
(** Exams over runs of the control plane (server/src/control_plane.cpp): what stands
    behind an exam context, in every order of the operator's calls and of what the
    clients do. *)

From S2P Require Import Prelude Wire Codec Protocol Auth KeyStore ControlChannel ControlMessages.
From S2P Require Import Handshake ClientRegistry ExamControl ExamAuth AuditLog Pairing ServerState.
From S2P Require Import PairingServer ServerConnection ServerRuns ServerExams.

Module ExamRuns.
Import Protocol Auth ControlChannel ServerState ServerConnection ServerRuns ServerExams.

Inductive ExamOperation (K : Type) :=
| Controlled (op : Operation K)
| ExamLaunched (client_id : Z) (launch : ExamLaunchRequest)
    (ticket : option ExamAuth.InstructorAuthorizationTicket) (env : ExamEnv K)
| ExamStarted (client_id : Z) (request : ExamControl.ExamStartRequest)
    (ticket : option ExamAuth.InstructorAuthorizationTicket) (env : ExamEnv K)
| ExamStopped (client_id : Z) (env : ExamEnv K)
| ExamBegun (client_id duration_seconds : Z) (env : ExamEnv K)
| CommandRouted (client_id : Z) (type : CommandType) (payload : bytes) (env : ExamEnv K)
| FleetConfigured (client_id : Z) (acknowledged restart : bool) (env : ExamEnv K)
| InstructorKey (key : bytes)
| TicketRequired (require : bool)
| ServerStopped.
Arguments Controlled {K}. Arguments ExamLaunched {K}. Arguments ExamStarted {K}.
Arguments ExamStopped {K}. Arguments ExamBegun {K}. Arguments CommandRouted {K}.
Arguments FleetConfigured {K}. Arguments InstructorKey {K}. Arguments TicketRequired {K}.
Arguments ServerStopped {K}.

Section Runs.
Context {K : Type} `{Pairing.KeyProvider K} {GCM : AesGcm}.
Variable bcrypt_hmac : bytes -> bytes -> option bytes.
Variable bcrypt_sha256 : bytes -> option bytes.
Variable dev_unprotected : bool.

(** What the connections handed on during a call. *)
Definition handed_on (s s' : Server) : list Effect := drop (length (sv_effects s)) (sv_effects s').

Definition controlled (xs : ExamServer) (op : Operation K) : ExamServer :=
  let s := ServerRuns.perform bcrypt_hmac bcrypt_sha256 (xs_server xs) op in
  fold_left handle_handed (handed_on (xs_server xs) s) (with_server xs s).

Definition perform (xs : ExamServer) (op : ExamOperation K) : ExamServer :=
  match op with
  | Controlled op => controlled xs op
  | ExamLaunched client_id launch ticket env =>
      (launch_exam bcrypt_hmac dev_unprotected env xs client_id launch ticket).2
  | ExamStarted client_id request ticket env =>
      (start_exam bcrypt_hmac dev_unprotected env xs client_id request ticket).2
  | ExamStopped client_id env => (stop_exam bcrypt_hmac env xs client_id).2
  | ExamBegun client_id duration env => (begin_exam bcrypt_hmac env xs client_id duration).2
  | CommandRouted client_id type payload env =>
      (send_command bcrypt_hmac dev_unprotected env xs client_id type payload).2
  | FleetConfigured client_id acknowledged restart env =>
      (configure_uwf_fleet bcrypt_hmac dev_unprotected env xs client_id acknowledged restart).2
  | InstructorKey key => set_instructor_key xs key
  | TicketRequired require => set_require_instructor_ticket xs require
  | ServerStopped => stop_server xs
  end.

Definition run (xs : ExamServer) (ops : list (ExamOperation K)) : ExamServer := fold_left perform ops xs.

Definition handed_to (xs : ExamServer) (id : Z) (op : ExamOperation K) : bytes :=
  match op with Controlled op => handed (xs_server xs) id op | _ => [] end.

Fixpoint received (id : Z) (xs : ExamServer) (ops : list (ExamOperation K)) : bytes :=
  match ops with
  | [] => []
  | op :: rest => handed_to xs id op ++ received id (perform xs op) rest
  end.

Lemma exam_run_snoc xs ops op : run xs (ops ++ [op]) = perform (run xs ops) op.
Proof using Type. unfold run. by rewrite fold_left_app. Qed.

Lemma exam_received_snoc id ops op : forall xs,
  received id xs (ops ++ [op]) = received id xs ops ++ handed_to (run xs ops) id op.
Proof using Type.
  induction ops as [|o ops IH]; intros xs; cbn; [by rewrite app_nil_r|]. by rewrite IH, app_assoc.
Qed.
End Runs.

(** ** What the calls leave alone *)

Section Calls.
Context {K : Type} `{Pairing.KeyProvider K} {GCM : AesGcm}.
Context (bcrypt_hmac : bytes -> bytes -> option bytes) (bcrypt_sha256 : bytes -> option bytes).
Context (dev_unprotected : bool).

(** The connections and the clients they stand for. *)
Definition conns_of (s : Server) := (sv_objects s, sv_states s, sv_client_connections s).

(** The contexts and what else a start looks at. *)
Definition exams_of (xs : ExamServer) :=
  (xs_contexts xs, xs_instructor_key xs, xs_require_instructor_ticket xs).

(** At most one connection sent something. *)
Definition carried (s s' : Server) : Prop :=
  conns_of s' = conns_of s \/
  exists id cn q, sv_objects s !! id = Some cn /\
    conns_of s' = conns_of (store_object s {| cn with cn_send_sequence := q |}).

Lemma audit_emit_exams xs now event :
  exams_of (audit_emit xs now event) = exams_of xs /\ xs_server (audit_emit xs now event) = xs_server xs.
Proof. unfold audit_emit. by destruct (negb _). Qed.

Lemma journal_call_exams xs call :
  exams_of (journal_call xs call) = exams_of xs /\ xs_server (journal_call xs call) = xs_server xs.
Proof. unfold journal_call. by destruct (xs_telemetry_journal_open xs). Qed.

Lemma send_next_spec (env : ExamEnv K) xs cn type payload b cn' xs' :
  send_next bcrypt_hmac env xs cn type payload = (b, cn', xs') ->
  still (xs_server xs') = still (xs_server xs) /\ exams_of xs' = exams_of xs /\
  exists q, cn' = {| cn with cn_send_sequence := q |}.
Proof using Type.
  unfold send_next. cbn [take_request_id].
  destruct (send_authenticated _ _ _ _ _ _ _) as [[b1 cn1] s1] eqn:E. intros [= <- <- <-].
  apply send_authenticated_spec in E as [E Hq]. split_and!; [|done|done].
  unfold still, clients_of, pairings_of in *. cbn in *. congruence.
Qed.

Lemma telemetry_enable_spec (env : ExamEnv K) xs cn context cn' context' xs' :
  send_telemetry_enable_locked bcrypt_hmac env xs cn context = (cn', context', xs') ->
  still (xs_server xs') = still (xs_server xs) /\ exams_of xs' = exams_of xs /\
  (exists q, cn' = {| cn with cn_send_sequence := q |}) /\
  exists telemetry, context' = with_telemetry context telemetry.
Proof using Type.
  assert (exists q, cn = {| cn with cn_send_sequence := q |}) as Hid
    by (exists (cn_send_sequence cn); by destruct cn).
  assert (exists telemetry, context = with_telemetry context telemetry) as Ht
    by (exists (ax_telemetry context); by destruct context).
  unfold send_telemetry_enable_locked. destruct (negb _); [by intros [= <- <- <-]|]. cbv zeta.
  destruct (telemetry_is_eligible _ _) as [eligible telemetry].
  destruct eligible; cbn [negb]; [|intros [= <- <- <-]; split_and!; eauto].
  destruct (if bool_decide _ then _ else _) as [[sent cn1] xs1] eqn:E.
  assert (still (xs_server xs1) = still (xs_server xs) /\ exams_of xs1 = exams_of xs /\
    exists q, cn1 = {| cn with cn_send_sequence := q |}) as (E1 & E2 & E3).
  { case_bool_decide; [by injection E as <- <- <-|]. by apply send_next_spec in E. }
  destruct sent; intros [= <- <- <-]; [split_and!; eauto|].
  match goal with |- context [audit_emit ?x ?n ?e] => destruct (audit_emit_exams x n e) as [F1 F2] end.
  rewrite F1, F2. split_and!; eauto.
Qed.

Lemma authorize_start_exams (env : ExamEnv K) xs client_id request ticket r xs' :
  authorize_start bcrypt_hmac env xs client_id request ticket = (r, xs') ->
  exams_of xs' = exams_of xs /\ xs_server xs' = xs_server xs.
Proof using Type.
  unfold authorize_start. cbv zeta.
  repeat case_match; intros [= <- <-]; try done; apply audit_emit_exams.
Qed.

Lemma pass_gate_exams (env : ExamEnv K) xs client_id proven r xs' :
  pass_gate dev_unprotected env xs client_id proven = (r, xs') ->
  exams_of xs' = exams_of xs /\ xs_server xs' = xs_server xs /\ r = proven || dev_unprotected.
Proof using Type.
  unfold pass_gate. cbv zeta. destruct proven, dev_unprotected; intros [= <- <-]; try done;
    split_and!; try done; apply audit_emit_exams.
Qed.

(** An announced exam: the context stays, its telemetry may be over; a failed send
    takes it back. *)
Lemma announce_spec (env : ExamEnv K) xs id cn context payload proven r xs' :
  sv_objects (xs_server xs) !! id = Some cn ->
  announce_exam bcrypt_hmac env xs cn context payload proven = (r, xs') ->
  carried (xs_server xs) (xs_server xs') /\
  ((r <> Ok tt /\ xs_contexts xs' = delete (cn_registry_id cn) (xs_contexts xs)) \/
   (r = Ok tt /\ exists telemetry,
      xs_contexts xs' =
        <[cn_registry_id cn := with_telemetry context telemetry]> (xs_contexts xs))).
Proof using Type.
  intros Hid. unfold announce_exam. cbv zeta.
  destruct (send_next _ _ _ _ _ _) as [[sent cn1] xs1] eqn:E1.
  apply send_next_spec in E1 as (S1 & X1 & q1 & ->). destruct sent; cbn [negb].
  2: { intros [= <- <-]. cbn. split.
       - right. exists id, cn, q1. split; [done|]. unfold conns_of, store_object. cbn.
         unfold still, clients_of in S1. congruence.
       - left. split; [done|]. unfold exams_of in X1. congruence. }
  destruct (send_telemetry_enable_locked _ _ _ _ _) as [[cn2 context2] xs2] eqn:E2.
  apply telemetry_enable_spec in E2 as (S2 & X2 & (q2 & ->) & telemetry & ->). intros [= <- <-].
  match goal with |- context [journal_call ?x ?c] => destruct (journal_call_exams x c) as [J1 J2];
    set (xs3 := journal_call x c) in * end.
  match goal with |- context [audit_emit ?x ?n ?e] => destruct (audit_emit_exams x n e) as [A1 A2];
    set (xs4 := audit_emit x n e) in * end.
  cbn. split.
  - right. exists id, cn, q2. split; [done|]. rewrite A2, J2. cbn.
    unfold conns_of, store_object. cbn. unfold still, clients_of in S1, S2. congruence.
  - right. split; [done|]. exists telemetry. unfold exams_of in *. cbn in *. congruence.
Qed.

(** ** Starting an exam *)

Definition ticket_accepted (xs : ExamServer) (request : ExamControl.ExamStartRequest)
    (ticket : option ExamAuth.InstructorAuthorizationTicket) (env : ExamEnv K) : Prop :=
  match ticket with
  | Some ticket =>
      ExamAuth.verify_ticket_for_exam bcrypt_hmac (xs_instructor_key xs) ticket request
        (ck_wall_ms (xe_created env)) = ExamAuth.valid_ticket
  | None => xs_instructor_key xs = [] /\ xs_require_instructor_ticket xs = false
  end.

(** What holds when an exam is started for a client. *)
Definition admissible (xs : ExamServer) (client_id : Z) (request : ExamControl.ExamStartRequest)
    (ticket : option ExamAuth.InstructorAuthorizationTicket) (env : ExamEnv K)
    (cn : ConnectionState) : Prop :=
  ExamControl.validate_exam_start_request request = true /\
  state_for_client (xs_server xs) client_id = Some cn /\
  is_current_state (xs_server xs) cn = true /\ cn_registry_id cn = client_id /\
  ah_client_id (cn_hello cn) = ExamControl.es_client_id request /\
  ticket_accepted xs request ticket env /\
  (ClientRegistry.gate_open (sv_registry (xs_server xs)) client_id = true \/ dev_unprotected = true).

Definition started_context (request : ExamControl.ExamStartRequest)
    (ticket : option ExamAuth.InstructorAuthorizationTicket) (env : ExamEnv K)
    (telemetry : TelemetryAuthorization) : ActiveExamContext :=
  with_telemetry (context_for request (ExamAuth.tk_instructor_id <$> ticket) (xe_created env))
    telemetry.

Lemma authorize_start_spec (env : ExamEnv K) xs client_id request ticket instructor xs' :
  authorize_start bcrypt_hmac env xs client_id request ticket = (Ok instructor, xs') ->
  ticket_accepted xs request ticket env /\ instructor = ExamAuth.tk_instructor_id <$> ticket.
Proof using Type.
  unfold authorize_start, ticket_accepted. cbv zeta. destruct ticket as [ticket|].
  - destruct (ExamAuth.verify_ticket_for_exam _ _ _ _ _); intros E; try discriminate E.
    by injection E as <- _.
  - destruct (xs_require_instructor_ticket xs); [done|]. case_bool_decide; [|done].
    by intros [= <- _].
Qed.

Lemma admit_exam_spec xs cn client_id request context proven inserted contexts :
  admit_exam dev_unprotected xs cn client_id request context = Some (proven, inserted, contexts) ->
  is_current_state (xs_server xs) cn = true /\ cn_registry_id cn = client_id /\
  ah_client_id (cn_hello cn) = ExamControl.es_client_id request /\
  proven = ClientRegistry.gate_open (sv_registry (xs_server xs)) client_id /\
  (inserted = true -> xs_contexts xs !! client_id = None /\
     contexts = <[client_id := context]> (xs_contexts xs) /\ proven || dev_unprotected = true) /\
  (inserted = false -> contexts = xs_contexts xs).
Proof using Type.
  unfold admit_exam. cbv zeta. destruct (is_current_state _ _); [|done]. cbn [negb orb].
  destruct (Z.eqb_spec (cn_registry_id cn) client_id) as [->|]; [|done]. cbn [negb orb].
  case_bool_decide; [|done]. cbn [negb].
  destruct (_ || _) eqn:Eg; [destruct (xs_contexts xs !! client_id) eqn:E|]; intros [= <- <- <-];
    by split_and!.
Qed.

Lemma state_for_client_inv s client_id cn :
  state_for_client s client_id = Some cn ->
  exists id, sv_client_connections s !! client_id = Some id /\ sv_objects s !! id = Some cn.
Proof using Type.
  unfold state_for_client. destruct (sv_client_connections s !! client_id) as [id|]; [|done].
  case_bool_decide; [|done]. by exists id.
Qed.

Lemma carried_refl s : carried s s.
Proof using Type. by left. Qed.

(** A start is refused and changes nothing, or is admissible and installs exactly
    the context of the request. *)
Lemma start_exam_spec (env : ExamEnv K) xs client_id request ticket r xs' :
  start_exam bcrypt_hmac dev_unprotected env xs client_id request ticket = (r, xs') ->
  carried (xs_server xs) (xs_server xs') /\
  ((r <> Ok tt /\ xs_contexts xs' = xs_contexts xs) \/
   (r = Ok tt /\ xs_contexts xs !! client_id = None /\
    (exists cn, admissible xs client_id request ticket env cn) /\
    exists telemetry,
      xs_contexts xs' =
        <[client_id := started_context request ticket env telemetry]> (xs_contexts xs))).
Proof using Type.
  pose proof (carried_refl (xs_server xs)) as Hrefl.
  unfold start_exam. destruct (ExamControl.validate_exam_start_request request) eqn:Ev; cbn [negb];
    [|intros [= <- <-]; split; [done|by left]].
  destruct (state_for_client _ _) as [cn|] eqn:Ecn; [|intros [= <- <-]; split; [done|by left]].
  destruct (authorize_start _ _ _ _ _ _) as [authorized xs1] eqn:Ea.
  pose proof (authorize_start_exams _ _ _ _ _ _ _ Ea) as [X1 S1].
  assert (xs_contexts xs1 = xs_contexts xs) as C1 by (unfold exams_of in X1; congruence).
  destruct authorized as [instructor|]; [|intros [= <- <-]; rewrite S1; split; [done|by left]].
  apply authorize_start_spec in Ea as [Ht Ei]. cbv zeta.
  case_bool_decide; [intros [= <- <-]; rewrite S1; split; [done|by left]|].
  destruct (admit_exam _ _ _ _ _ _) as [[[proven inserted] contexts]|] eqn:Ed;
    [|intros [= <- <-]; rewrite S1; split; [done|by left]].
  apply admit_exam_spec in Ed as (Hcur & Hr & Hc & Hp & Hin & Hout). rewrite S1 in Hcur, Hp.
  destruct (pass_gate _ _ _ _ _) as [passed xs2] eqn:Eg.
  apply pass_gate_exams in Eg as (X2 & S2 & Hpass). cbn in S2. rewrite S1 in S2.
  assert (xs_contexts xs2 = contexts) as C2 by (unfold exams_of in X2; cbn in X2; congruence).
  destruct inserted; cbn [negb].
  2: { rewrite Hout, C1 in C2 by done.
       destruct passed; intros [= <- <-]; rewrite S2; (split; [done|by left]). }
  destruct (Hin eq_refl) as (Hfree & -> & Hgate). rewrite C1 in Hfree, C2.
  destruct passed; cbn [negb].
  - intros Han. apply state_for_client_inv in Ecn as Hob. destruct Hob as (id & _ & Hob).
    apply (announce_spec _ _ id) in Han as [Hcar Han]; [|by rewrite S2].
    rewrite S2 in Hcar. split; [done|].
    destruct Han as [[Hno E]|[-> [telemetry E]]].
    + left. split; [done|]. rewrite E, C2, Hr. by rewrite delete_insert_id.
    + right. split_and!; [done|done| |].
      * exists cn. split_and!; try done. rewrite <- Hp. by destruct proven; [left|right].
      * exists telemetry. rewrite E, C2, Hr, insert_insert_eq. unfold started_context. by rewrite Ei.
  - congruence.
Qed.

(** ** One operation, seen from one client *)

(** The start an operation asks for. *)
Definition start_of (xs : ExamServer) (op : ExamOperation K)
    : option (Z * ExamControl.ExamStartRequest *
              option ExamAuth.InstructorAuthorizationTicket * ExamEnv K) :=
  match op with
  | ExamLaunched client_id launch ticket env =>
      match launch_request env xs client_id launch ticket with
      | Ok request => Some (client_id, request, ticket, env)
      | Err _ => None
      end
  | ExamStarted client_id request ticket env => Some (client_id, request, ticket, env)
  | CommandRouted client_id CT_exam_start payload env =>
      match ExamControl.decode_exam_start_request payload with
      | Some request => Some (client_id, request, None, env)
      | None => None
      end
  | _ => None
  end.

(** A client's connection handed on a ready report for this session. *)
Definition ready_handed (s : Server) (effects : list Effect) (rid : Z) (tuple : ExamTuple) : Prop :=
  exists id command cn report, Handed id command ∈ effects /\
    ce_type (cmd_envelope command) = command_type_value CT_exam_ready /\
    sv_objects s !! id = Some cn /\ cn_registry_id cn = rid /\
    ExamControl.decode_exam_ready_report (cmd_payload command) = Some report /\
    ready_tuple report = tuple.

Definition reported (xs : ExamServer) (op : ExamOperation K) (rid : Z) (tuple : ExamTuple) : Prop :=
  match op with
  | Controlled op =>
      let s := ServerRuns.perform bcrypt_hmac bcrypt_sha256 (xs_server xs) op in
      ready_handed s (handed_on (xs_server xs) s) rid tuple
  | _ => False
  end.

(** [begin_exam] sent the client a begin command. *)
Definition begins (xs : ExamServer) (op : ExamOperation K) (rid : Z) : Prop :=
  exists duration env, op = ExamBegun rid duration env /\
    (begin_exam bcrypt_hmac env xs rid duration).1 = Ok tt.

(** A begin command given to [send_command] or to a broadcast, which send it
    whatever the exam. *)
Definition raw_begin (op : ExamOperation K) (rid : Z) : Prop :=
  match op with
  | CommandRouted client_id CT_exam_begin _ _
  | Controlled (CommandSent client_id CT_exam_begin _ _) => client_id = rid
  | Controlled (Broadcast CT_exam_begin _ _) => True
  | _ => False
  end.

Definition begin_sent (xs : ExamServer) (op : ExamOperation K) (rid : Z) : Prop :=
  begins xs op rid \/ raw_begin op rid.

(** The client's exam is stopped, with success, or the server. *)
Definition stops (xs : ExamServer) (op : ExamOperation K) (rid : Z) : Prop :=
  match op with
  | ExamStopped client_id env =>
      client_id = rid /\ (stop_exam bcrypt_hmac env xs client_id).1 = Ok tt
  | CommandRouted client_id CT_exam_stop payload env =>
      client_id = rid /\
      (send_command bcrypt_hmac dev_unprotected env xs client_id CT_exam_stop payload).1 = Ok tt
  | ServerStopped => True
  | _ => False
  end.

Inductive moved (xs : ExamServer) (op : ExamOperation K) (rid : Z)
  : option ActiveExamContext -> option ActiveExamContext -> Prop :=
| moved_same c : ~ begins xs op rid -> moved xs op rid c c
| moved_gone c : stops xs op rid -> moved xs op rid c None
| moved_started request ticket env cn telemetry :
    start_of xs op = Some (rid, request, ticket, env) -> admissible xs rid request ticket env cn ->
    moved xs op rid None (Some (started_context request ticket env telemetry))
| moved_ready c : reported xs op rid (tuple_of c) -> moved xs op rid (Some c) (Some (with_ready c))
| moved_begun c start :
    begins xs op rid -> ax_ready c = true -> ax_begun c = false ->
    moved xs op rid (Some c) (Some (with_begun c start)).

(** Every client's entry leads to a connection of that client. *)
Definition named (s : Server) : Prop :=
  forall client_id cn, state_for_client s client_id = Some cn -> cn_registry_id cn = client_id.

Lemma no_begin xs op rid :
  match op with ExamBegun _ _ _ => False | _ => True end -> ~ begins xs op rid.
Proof using Type. intros Hop (duration & env & -> & _). done. Qed.

Lemma moved_same_contexts xs op xs' rid :
  match op with ExamBegun _ _ _ => False | _ => True end -> xs_contexts xs' = xs_contexts xs ->
  moved xs op rid (xs_contexts xs !! rid) (xs_contexts xs' !! rid).
Proof using Type. intros Hop ->. by apply moved_same, no_begin. Qed.

Lemma started_moved xs op client_id request ticket env r xs' rid :
  start_of xs op = Some (client_id, request, ticket, env) ->
  start_exam bcrypt_hmac dev_unprotected env xs client_id request ticket = (r, xs') ->
  carried (xs_server xs) (xs_server xs') /\
  moved xs op rid (xs_contexts xs !! rid) (xs_contexts xs' !! rid).
Proof using Type.
  intros Hop Hs. assert (~ begins xs op rid) as Hno by (by intros (? & ? & -> & _)).
  apply start_exam_spec in Hs as [Hc Hs]. split; [done|].
  destruct Hs as [[_ ->]|(-> & Hfree & [cn Ha] & telemetry & ->)]; [by apply moved_same|].
  destruct (decide (rid = client_id)) as [->|Hne].
  - rewrite lookup_insert_eq, Hfree. by eapply moved_started.
  - rewrite lookup_insert_ne by done. by apply moved_same.
Qed.

(** An object stored again after something was sent on it. *)
Lemma carried_store s s' id cn q :
  sv_objects s !! id = Some cn -> still s' = still s ->
  carried s (store_object s' {| cn with cn_send_sequence := q |}).
Proof using Type.
  intros Hid Hs. right. exists id, cn, q. split; [done|]. unfold conns_of, store_object. cbn.
  unfold still, clients_of in Hs. congruence.
Qed.

Lemma stop_exam_spec (env : ExamEnv K) xs client_id r xs' :
  named (xs_server xs) -> stop_exam bcrypt_hmac env xs client_id = (r, xs') ->
  carried (xs_server xs) (xs_server xs') /\
  forall rid, xs_contexts xs' !! rid = xs_contexts xs !! rid \/
    client_id = rid /\ r = Ok tt /\ xs_contexts xs' !! rid = None.
Proof using Type.
  intros Hn.
  pose proof (carried_refl (xs_server xs)) as Hrefl.
  unfold stop_exam. destruct (state_for_client _ _) as [cn|] eqn:Ecn;
    [|intros [= <- <-]; split; [done|by left]].
  destruct (_ || _); [intros [= <- <-]; split; [done|by left]|].
  destruct (send_next _ _ _ _ _ _) as [[sent cn1] xs1] eqn:E1.
  apply send_next_spec in E1 as (S1 & X1 & q1 & ->).
  apply state_for_client_inv in Ecn as Hid. destruct Hid as (id & _ & Hid).
  pose proof (carried_store _ _ _ _ q1 Hid S1) as Hc.
  assert (xs_contexts xs1 = xs_contexts xs) as C1 by (unfold exams_of in X1; congruence).
  destruct sent; cbn [negb]; [|intros [= <- <-]; split; [done|left; by rewrite <- C1]].
  cbn. rewrite C1. rewrite (Hn _ _ Ecn) in Hc |- *.
  destruct (xs_contexts xs !! client_id) as [context|] eqn:Ex;
    intros [= <- <-]; [|split; [done|]; intros rid; left; cbn; by rewrite C1].
  match goal with |- context [journal_call (journal_call ?x ?c) ?d] =>
    destruct (journal_call_exams (journal_call x c) d) as [J1 J2];
    destruct (journal_call_exams x c) as [J3 J4] end.
  cbn. rewrite J2, J4. split; [done|]. intros rid.
  destruct (decide (rid = client_id)) as [->|Hne]; [right|left].
  - split_and!; [done|done|]. apply lookup_delete_eq.
  - rewrite lookup_delete_ne by done. unfold exams_of in *. cbn in *. congruence.
Qed.

Lemma begin_exam_moved (env : ExamEnv K) xs client_id duration r xs' rid :
  named (xs_server xs) ->
  begin_exam bcrypt_hmac env xs client_id duration = (r, xs') ->
  carried (xs_server xs) (xs_server xs') /\
  moved xs (ExamBegun client_id duration env) rid (xs_contexts xs !! rid) (xs_contexts xs' !! rid).
Proof using Type.
  intros Hn Hb. pose proof (carried_refl (xs_server xs)) as Hrefl.
  assert (r <> Ok tt \/ rid <> client_id -> ~ begins xs (ExamBegun client_id duration env) rid) as Hno.
  { intros Hor (d & e & [= <- <- <-] & Hok). rewrite Hb in Hok. cbn in Hok. by destruct Hor. }
  pose proof Hb as Hok. revert Hb. unfold begin_exam.
  destruct (state_for_client _ _) as [cn|] eqn:Ecn;
    [|intros [= <- <-]; split; [done|apply moved_same; auto]].
  destruct (_ || _); [intros [= <- <-]; split; [done|apply moved_same; auto]|].
  rewrite (Hn _ _ Ecn). destruct (xs_contexts xs !! client_id) as [context|] eqn:Ex;
    [|intros [= <- <-]; split; [done|apply moved_same; auto]].
  destruct (ax_ready context) eqn:Er; cbn [negb];
    [|intros [= <- <-]; split; [done|apply moved_same; auto]].
  destruct (ax_begun context) eqn:Eb;
    [intros [= <- <-]; split; [done|apply moved_same; auto]|]. cbv zeta.
  case_bool_decide; [intros [= <- <-]; split; [done|apply moved_same; auto]|].
  destruct (send_next _ _ _ _ _ _) as [[sent cn1] xs1] eqn:E1.
  pose proof E1 as (S1 & X1 & q1 & ->)%send_next_spec.
  apply state_for_client_inv in Ecn as Hid. destruct Hid as (id & _ & Hid).
  pose proof (carried_store _ _ _ _ q1 Hid S1) as Hc.
  assert (xs_contexts xs1 = xs_contexts xs) as C1 by (unfold exams_of in X1; congruence).
  destruct sent; cbn [negb]; intros [= <- <-]; (split; [done|]); cbn; rewrite C1;
    [|apply moved_same; auto].
  destruct (decide (rid = client_id)) as [->|Hne].
  - rewrite lookup_insert_eq, Ex. apply moved_begun; [|done|done]. exists duration, env.
    by rewrite Hok.
  - rewrite lookup_insert_ne by done. apply moved_same; auto.
Qed.

(** One ready report. *)
Lemma process_ready_spec xs cn command b xs' :
  process_exam_ready xs cn command = (b, xs') ->
  conns_of (xs_server xs') = conns_of (xs_server xs) /\
  (xs_contexts xs' = xs_contexts xs \/
   exists report c, ExamControl.decode_exam_ready_report (cmd_payload command) = Some report /\
     xs_contexts xs !! cn_registry_id cn = Some c /\ ready_tuple report = tuple_of c /\
     xs_contexts xs' = <[cn_registry_id cn := with_ready c]> (xs_contexts xs)).
Proof using Type.
  unfold process_exam_ready, active_exam_for. cbv zeta.
  destruct (ExamControl.decode_exam_ready_report _) as [report|] eqn:Ed;
    [|intros [= <- <-]; split; [done|by left]].
  destruct (Z.eqb_spec (cn_registry_id cn) 0); [intros [= <- <-]; split; [done|by left]|].
  destruct (xs_contexts xs !! cn_registry_id cn) as [c|] eqn:Ec;
    [|intros [= <- <-]; split; [done|by left]].
  case_bool_decide; cbn [negb orb]; [|intros [= <- <-]; split; [done|by left]].
  unfold matches_exam_context. case_bool_decide as Ht; cbn [negb];
    [|intros [= <- <-]; split; [done|by left]].
  intros [= <- <-]. split; [done|]. right. by exists report, c.
Qed.

Lemma ready_handed_cons s e effects rid tuple :
  ready_handed s effects rid tuple -> ready_handed s (e :: effects) rid tuple.
Proof using Type.
  intros (id & command & cn & report & Hin & ?). exists id, command, cn, report.
  split; [by right|done].
Qed.

Lemma handled_spec effects : forall xs,
  let xs' := fold_left handle_handed effects xs in
  conns_of (xs_server xs') = conns_of (xs_server xs) /\
  forall rid, xs_contexts xs' !! rid = xs_contexts xs !! rid \/
    exists c, xs_contexts xs !! rid = Some c /\ xs_contexts xs' !! rid = Some (with_ready c) /\
      ready_handed (xs_server xs) effects rid (tuple_of c).
Proof using Type.
  induction effects as [|e effects IH]; intros xs; cbn; [split; [done|by left]|].
  destruct (IH (handle_handed xs e)) as [IHc IHx]. clear IH.
  assert (conns_of (xs_server (handle_handed xs e)) = conns_of (xs_server xs) /\
    forall rid, xs_contexts (handle_handed xs e) !! rid = xs_contexts xs !! rid \/
      exists c, xs_contexts xs !! rid = Some c /\
        xs_contexts (handle_handed xs e) !! rid = Some (with_ready c) /\
        ready_handed (xs_server xs) (e :: effects) rid (tuple_of c)) as [Hc Hx].
  { unfold handle_handed. destruct e as [| | | | |id command]; try (split; [done|by left]).
    destruct (Z.eqb_spec (ce_type (cmd_envelope command)) (command_type_value CT_exam_ready)) as [Ht|];
      [|split; [done|by left]].
    destruct (sv_objects (xs_server xs) !! id) as [cn|] eqn:Eid; [|split; [done|by left]].
    destruct (process_exam_ready xs cn command) as [b xs1] eqn:Ep.
    apply process_ready_spec in Ep as [Hc Hx]. split; [done|]. intros rid. cbn.
    destruct Hx as [->|(report & c & Ed & Ec & Et & ->)]; [by left|].
    destruct (decide (rid = cn_registry_id cn)) as [->|Hne]; [right|left].
    - exists c. rewrite lookup_insert_eq. split_and!; [done|done|].
      exists id, command, cn, report. split_and!; try done. by left.
    - by rewrite lookup_insert_ne. }
  split; [congruence|]. intros rid.
  assert (sv_objects (xs_server (handle_handed xs e)) = sv_objects (xs_server xs)) as Eo
    by (unfold conns_of in Hc; congruence).
  destruct (IHx rid) as [->|(c1 & E1 & E2 & H2)]; [by apply Hx|].
  right. destruct (Hx rid) as [E|(c & E & E' & H1)].
  - exists c1. rewrite <- E. split_and!; [done|done|]. apply ready_handed_cons.
    unfold ready_handed in *. by rewrite Eo in H2.
  - exists c. rewrite E' in E1. injection E1 as <-. split_and!; done.
Qed.

Lemma controlled_spec xs op rid :
  conns_of (xs_server (controlled bcrypt_hmac bcrypt_sha256 xs op)) =
    conns_of (ServerRuns.perform bcrypt_hmac bcrypt_sha256 (xs_server xs) op) /\
  moved xs (Controlled op) rid (xs_contexts xs !! rid)
    (xs_contexts (controlled bcrypt_hmac bcrypt_sha256 xs op) !! rid).
Proof using Type.
  unfold controlled.
  set (s := ServerRuns.perform bcrypt_hmac bcrypt_sha256 (xs_server xs) op).
  destruct (handled_spec (handed_on (xs_server xs) s) (with_server xs s)) as [Hc Hx].
  split; [exact Hc|]. destruct (Hx rid) as [E|(c & E1 & E2 & Hr)].
  - rewrite E. apply moved_same. by apply no_begin.
  - rewrite E2. change (xs_contexts xs !! rid = Some c) in E1. rewrite E1. by apply moved_ready.
Qed.

Lemma routed_carried (env : Env K) s client_id type payload :
  carried s (ServerConnection.send_command bcrypt_hmac env s client_id type payload).2.
Proof using Type.
  unfold ServerConnection.send_command. destruct (state_for_client s client_id) as [cn|] eqn:Ecn;
    [|by left].
  destruct (_ || _); [by left|]. cbn [take_request_id].
  destruct (send_authenticated _ _ _ _ _ _ _) as [[b cn'] s'] eqn:Es.
  apply send_authenticated_spec in Es as [Es [q ->]].
  apply state_for_client_inv in Ecn as (id & _ & Hid). cbn. by eapply carried_store.
Qed.

Lemma routed_moved (env : ExamEnv K) xs client_id type payload rid :
  let xs' := (send_command bcrypt_hmac dev_unprotected env xs client_id type payload).2 in
  named (xs_server xs) -> carried (xs_server xs) (xs_server xs') /\
  moved xs (CommandRouted client_id type payload env) rid (xs_contexts xs !! rid)
    (xs_contexts xs' !! rid).
Proof using Type.
  assert (~ begins xs (CommandRouted client_id type payload env) rid) as Hno by by apply no_begin.
  cbv zeta. intros Hn. destruct type; cbn [send_command];
    try (pose proof (routed_carried (xe_env env) (xs_server xs) client_id) as Hr;
         match goal with |- context [ServerConnection.send_command _ _ _ _ ?t _] =>
           specialize (Hr t payload);
           destruct (ServerConnection.send_command _ _ _ _ t _) as [sent s] end;
         split; [exact Hr|by apply moved_same]).
  - destruct (ExamControl.decode_exam_start_request payload) as [request|] eqn:Ed;
      [|split; [by left|by apply moved_same]].
    destruct (start_exam _ _ _ _ _ _ _) as [r xs'] eqn:Es. cbn.
    eapply started_moved; [|exact Es]. cbn. by rewrite Ed.
  - case_bool_decide; cbn [negb]; [|split; [by left|by apply moved_same]].
    destruct (stop_exam _ _ _ _) as [r xs'] eqn:Es. cbn. pose proof Es as Hstop.
    apply stop_exam_spec in Es as [Hc Hx]; [|done]. split; [done|].
    destruct (Hx rid) as [->|(-> & -> & ->)]; [by apply moved_same|]. apply moved_gone.
    split; [done|]. cbn. rewrite bool_decide_eq_true_2 by done. cbn. by rewrite Hstop.
Qed.

Lemma carried_from s0 s s' : conns_of s0 = conns_of s -> carried s0 s' -> carried s s'.
Proof using Type.
  intros E [E'|(id & cn & q & Hid & E')]; [left; congruence|right].
  unfold conns_of in E. exists id, cn, q. split; [congruence|].
  rewrite E'. unfold conns_of, store_object. cbn. congruence.
Qed.

Lemma configure_moved (env : ExamEnv K) xs client_id acknowledged restart rid :
  let xs' := (configure_uwf_fleet bcrypt_hmac dev_unprotected env xs client_id acknowledged restart).2 in
  carried (xs_server xs) (xs_server xs') /\ xs_contexts xs' !! rid = xs_contexts xs !! rid.
Proof using Type.
  cbv zeta. unfold configure_uwf_fleet. cbv zeta.
  destruct (ClientRegistry.begin_uwf_fleet_operation _ _ _ _ _) as [registry recorded].
  destruct recorded; cbn [negb]; [|split; [by left|done]].
  case_bool_decide; [split; [by left|done]|]. cbn [send_command].
  pose proof (routed_carried (xe_env env)) as Hr.
  match goal with |- context [ServerConnection.send_command _ _ ?s ?c ?t ?p] =>
    specialize (Hr s c t p); destruct (ServerConnection.send_command _ _ s c t p) as [sent s'] end.
  match goal with |- context [audit_emit ?x ?n ?e] => destruct (audit_emit_exams x n e) as [A1 A2];
    set (xs4 := audit_emit x n e) in * end.
  cbn in *. split.
  - rewrite A2. by eapply carried_from.
  - unfold exams_of in A1. cbn in A1. congruence.
Qed.

(** Any operation. *)
Lemma perform_moved xs op rid :
  named (xs_server xs) ->
  moved xs op rid (xs_contexts xs !! rid)
    (xs_contexts (perform bcrypt_hmac bcrypt_sha256 dev_unprotected xs op) !! rid) /\
  match op with
  | Controlled _ | ServerStopped => True
  | _ => carried (xs_server xs) (xs_server (perform bcrypt_hmac bcrypt_sha256 dev_unprotected xs op))
  end.
Proof using Type.
  intros Hn. destruct op as [op|client_id launch ticket env|client_id request ticket env|client_id env|
    client_id duration env|client_id type payload env|client_id acknowledged restart env|key|required|];
    cbn [perform].
  - split; [|done]. apply controlled_spec.
  - unfold launch_exam. destruct (launch_request env xs client_id launch ticket) as [request|] eqn:El.
    + destruct (start_exam _ _ _ _ _ _ _) as [r xs'] eqn:Es.
      refine ((fun P => conj (proj2 P) (proj1 P)) (started_moved _ _ _ _ _ _ _ _ rid _ Es)).
      cbn. by rewrite El.
    + split; [by apply moved_same, no_begin|by left].
  - destruct (start_exam _ _ _ _ _ _ _) as [r xs'] eqn:Es.
    by refine ((fun P => conj (proj2 P) (proj1 P)) (started_moved _ _ _ _ _ _ _ _ rid _ Es)).
  - destruct (stop_exam _ _ _ _) as [r xs'] eqn:Es. pose proof Es as Hstop.
    apply stop_exam_spec in Es as [Hc Hx]; [|done].
    split; [|done]. cbn.
    destruct (Hx rid) as [->|(-> & -> & ->)]; [by apply moved_same, no_begin|]. apply moved_gone.
    split; [done|]. by rewrite Hstop.
  - destruct (begin_exam _ _ _ _ _) as [r xs'] eqn:Es.
    by refine ((fun P => conj (proj2 P) (proj1 P)) (begin_exam_moved _ _ _ _ _ _ rid Hn Es)).
  - exact ((fun P => conj (proj2 P) (proj1 P)) (routed_moved env xs client_id type payload rid Hn)).
  - destruct (configure_moved env xs client_id acknowledged restart rid) as [Hc ->].
    split; [by apply moved_same, no_begin|done].
  - split; [by apply moved_same, no_begin|by left].
  - split; [by apply moved_same, no_begin|by left].
  - split; [by apply moved_gone|done].
Qed.
End Calls.

(** ** Runs *)

Section Invariant.
Context {K : Type} `{Pairing.KeyProvider K} {GCM : AesGcm}.
Context (bcrypt_hmac : bytes -> bytes -> option bytes) (bcrypt_sha256 : bytes -> option bytes).
Context (dev_unprotected : bool).

Notation step := (perform bcrypt_hmac bcrypt_sha256 dev_unprotected).
Notation reach := (run bcrypt_hmac bcrypt_sha256 dev_unprotected).
Notation given := (received bcrypt_hmac bcrypt_sha256 dev_unprotected).
Notation sound := (ServerRuns.sound bcrypt_hmac).

Lemma sound_conns R I got s s' : conns_of s' = conns_of s -> sound R I got s -> sound R I got s'.
Proof using Type. intros [= E1 E2 E3] [Ho Hs Hc]. split; by rewrite ?E1, ?E2, ?E3. Qed.

Lemma sound_carried R I got s s' : carried s s' -> sound R I got s -> sound R I got s'.
Proof using Type.
  intros [E|(id & cn & q & Hid & E)] Hs; [by eapply sound_conns|].
  eapply sound_conns; [exact E|]. by eapply sound_sent.
Qed.

Lemma sound_named R I got s : sound R I got s -> named s.
Proof using Type.
  intros [_ _ Hc] client_id cn E. apply state_for_client_inv in E as (id & Ei & Hid).
  destruct (Hc _ _ Ei) as (_ & cn' & E' & _ & Er). congruence.
Qed.

Definition exam_idle (xs : ExamServer) : Prop := idle (xs_server xs) /\ xs_contexts xs = ∅.

(** The store resolved the key in an earlier state. *)
Definition resolved (xs : ExamServer) (ops : list (ExamOperation K)) (c : bytes) (i : Z) (key : bytes)
    : Prop :=
  exists before after, ops = before ++ after /\
    KeyStore.resolve (sv_key_store (xs_server (reach xs before))) c i = Some key.

Definition issued (ops : list (ExamOperation K)) (id : Z) (challenge : AuthChallenge) : Prop :=
  exists op, Controlled op ∈ ops /\ issued_in id op challenge.

Lemma sound_step R I got xs op :
  sound R I got (xs_server xs) ->
  (forall c i k, KeyStore.resolve (sv_key_store (xs_server xs)) c i = Some k -> R c i k) ->
  (forall id c cop, op = Controlled cop -> issued_in id cop c -> I id c) ->
  sound R I (fun id => got id ++ handed_to xs id op) (xs_server (step xs op)).
Proof using Type.
  intros Hs HR HI. pose proof (sound_named _ _ _ _ Hs) as Hn.
  destruct (perform_moved bcrypt_hmac bcrypt_sha256 dev_unprotected xs op 0 Hn) as [_ Hc].
  destruct op as [op| | | | | | | | |];
    try (eapply (sound_ext _ _ _ got); [intros; cbn; by rewrite app_nil_r|]; by eapply sound_carried).
  - cbn [perform handed_to]. destruct (controlled_spec bcrypt_hmac bcrypt_sha256 dev_unprotected xs op 0) as [E _].
    eapply sound_conns; [exact E|]. apply sound_perform; [done|done|]. intros id c Hi. by eapply HI.
  - eapply (sound_ext _ _ _ got); [intros; cbn; by rewrite app_nil_r|].
    destruct Hs as [Ho _ _]. split; cbn; [done| |].
    + intros id Hin. by apply elem_of_empty in Hin.
    + intros rid id E. by rewrite lookup_empty in E.
Qed.

Lemma exam_run_sound xs0 ops : exam_idle xs0 ->
  sound (resolved xs0 ops) (issued ops) (fun id => given id xs0 ops) (xs_server (reach xs0 ops)).
Proof using Type.
  intros [(E1 & E2 & E3) _]. induction ops as [|op ops IH] using rev_ind.
  - split; cbn; rewrite ?E1, ?E2, ?E3.
    + intros id cn E. by rewrite lookup_empty in E.
    + intros id Hin. by apply elem_of_empty in Hin.
    + intros rid id E. by rewrite lookup_empty in E.
  - rewrite exam_run_snoc.
    eapply (sound_ext _ _ _ (fun id => given id xs0 ops ++ handed_to (reach xs0 ops) id op)).
    { intros id. apply exam_received_snoc. }
    apply sound_step.
    + eapply sound_weaken; [| |exact IH].
      * intros c i k (b & a & -> & E). exists b, (a ++ [op]). by rewrite app_assoc.
      * intros id c (o & Hin & Hi). exists o. split; [by apply elem_of_app; left|done].
    + intros c i k E. exists ops, [op]. by split.
    + intros id c cop -> Hi. exists cop. split; [apply elem_of_app; right; by left|done].
Qed.

Lemma run_moved xs0 ops op rid : exam_idle xs0 ->
  moved bcrypt_hmac bcrypt_sha256 dev_unprotected (reach xs0 ops) op rid
    (xs_contexts (reach xs0 ops) !! rid) (xs_contexts (reach xs0 (ops ++ [op])) !! rid).
Proof using Type.
  intros Hi. rewrite exam_run_snoc. apply perform_moved. eapply sound_named. by apply exam_run_sound.
Qed.

(** ** Properties *)

(** The start behind a context: where in the run, and for whom. *)
Definition admitted_at (xs0 : ExamServer) (before : list (ExamOperation K)) (op : ExamOperation K)
    (rid : Z) (c : ActiveExamContext) : Prop :=
  exists request ticket env cn,
    start_of (reach xs0 before) op = Some (rid, request, ticket, env) /\
    admissible bcrypt_hmac dev_unprotected (reach xs0 before) rid request ticket env cn /\
    tuple_of c = start_tuple request /\
    ax_instructor_authorized c = bool_decide (is_Some ticket) /\
    ax_instructor_id c = default [] (ExamAuth.tk_instructor_id <$> ticket).

Definition report_in (xs0 : ExamServer) (before after : list (ExamOperation K)) (rid : Z)
    (c : ActiveExamContext) : Prop :=
  exists mid op rest, after = mid ++ op :: rest /\
    reported bcrypt_hmac bcrypt_sha256 (reach xs0 (before ++ mid)) op rid (tuple_of c).

Lemma report_in_snoc xs0 before after op rid c :
  report_in xs0 before after rid c -> report_in xs0 before (after ++ [op]) rid c.
Proof using Type.
  intros (mid & o & rest & -> & Hr). exists mid, o, (rest ++ [op]).
  by rewrite <- app_assoc.
Qed.

Lemma moved_inv xs op rid old c :
  moved bcrypt_hmac bcrypt_sha256 dev_unprotected xs op rid old (Some c) ->
  old = Some c \/
  (exists request ticket env cn telemetry,
     start_of xs op = Some (rid, request, ticket, env) /\
     admissible bcrypt_hmac dev_unprotected xs rid request ticket env cn /\
     c = started_context request ticket env telemetry) \/
  (exists c0, old = Some c0 /\ c = with_ready c0 /\
     reported bcrypt_hmac bcrypt_sha256 xs op rid (tuple_of c0)) \/
  (exists c0 start, old = Some c0 /\ c = with_begun c0 start /\ ax_ready c0 = true).
Proof using Type.
  intros Hm. inversion Hm; subst; [by left|right; left|right; right; left|right; right; right];
    eauto 10.
Qed.

(** There from the start of the exam on. *)
Definition present (xs0 : ExamServer) (before after : list (ExamOperation K)) (rid : Z) : Prop :=
  forall mid rest, after = mid ++ rest -> is_Some (xs_contexts (reach xs0 (before ++ mid)) !! rid).

Lemma present_snoc xs0 before after op rid :
  present xs0 before after rid ->
  is_Some (xs_contexts (reach xs0 (before ++ after ++ [op])) !! rid) ->
  present xs0 before (after ++ [op]) rid.
Proof using Type.
  intros Hp Hs mid rest E. destruct (decide (rest = [])) as [->|Hne].
  - rewrite app_nil_r in E. by subst mid.
  - apply exists_last in Hne as (rest' & o & ->). rewrite app_assoc in E.
    apply app_inj_tail in E as [-> _]. by eapply Hp.
Qed.

(** The invariant of a context. *)
Lemma run_context xs0 ops rid c : exam_idle xs0 ->
  xs_contexts (reach xs0 ops) !! rid = Some c ->
  exists before op after, ops = before ++ op :: after /\ admitted_at xs0 before op rid c /\
    present xs0 (before ++ [op]) after rid /\
    (ax_ready c = true -> report_in xs0 (before ++ [op]) after rid c) /\
    (ax_begun c = true -> ax_ready c = true).
Proof using Type.
  intros Hi. revert c. induction ops as [|op ops IH] using rev_ind; intros c Hc.
  { destruct Hi as [_ He]. cbn in Hc. rewrite He in Hc. by rewrite lookup_empty in Hc. }
  pose proof (run_moved xs0 ops op rid Hi) as Hm. rewrite Hc in Hm. apply moved_inv in Hm.
  assert (Hgrow : forall before o after c0, xs_contexts (reach xs0 ops) !! rid = Some c0 ->
    ops = before ++ o :: after -> admitted_at xs0 before o rid c0 ->
    present xs0 (before ++ [o]) after rid -> tuple_of c = tuple_of c0 ->
    ax_instructor_authorized c = ax_instructor_authorized c0 ->
    ax_instructor_id c = ax_instructor_id c0 ->
    ops ++ [op] = before ++ o :: (after ++ [op]) /\ admitted_at xs0 before o rid c /\
    present xs0 (before ++ [o]) (after ++ [op]) rid).
  { intros b o a c0 E0 -> (request & ticket & env & cn & Hs & Ha & Ht & Hau & Hid) Hp E1 E2 E3.
    split_and!.
    - by rewrite <- app_assoc.
    - exists request, ticket, env, cn. split_and!; congruence.
    - apply present_snoc; [done|]. rewrite <- !app_assoc. cbn. rewrite <- app_assoc in Hc. eauto. }
  destruct Hm as [Eold|[(request & ticket & env & cn & telemetry & Hs & Ha & ->)
    |[(c0 & Eold & -> & Hr)|(c0 & start & Eold & -> & Hr)]]].
  - destruct (IH _ Eold) as (b & o & a & E & Had & Hp & Hrep & Hbeg).
    destruct (Hgrow b o a c Eold E Had Hp) as (E' & Had' & Hp'); [done..|].
    exists b, o, (a ++ [op]). split_and!; try done. intros Er. by apply report_in_snoc, Hrep.
  - exists ops, op, []. split_and!; try done.
    + exists request, ticket, env, cn. split_and!; try done.
      cbn. by destruct ticket.
    + intros mid rest E. symmetry in E. apply app_eq_nil in E as [-> ->]. rewrite app_nil_r. eauto.
  - destruct (IH _ Eold) as (b & o & a & E & Had & Hp & Hrep & Hbeg).
    destruct (Hgrow b o a c0 Eold E Had Hp) as (E' & Had' & Hp'); [done..|].
    exists b, o, (a ++ [op]). split_and!; try done. intros _.
    exists a, op, []. split; [done|]. rewrite <- app_assoc. cbn. by rewrite E in Hr.
  - destruct (IH _ Eold) as (b & o & a & E & Had & Hp & Hrep & Hbeg).
    destruct (Hgrow b o a c0 Eold E Had Hp) as (E' & Had' & Hp'); [done..|].
    exists b, o, (a ++ [op]). split_and!; try done. intros _. by apply report_in_snoc, Hrep.
Qed.

(** An authenticated connection has a proof behind it. *)
Lemma current_proven xs0 ops rid cn : exam_idle xs0 ->
  state_for_client (xs_server (reach xs0 ops)) rid = Some cn ->
  is_current_state (xs_server (reach xs0 ops)) cn = true ->
  exists id key proof, sv_objects (xs_server (reach xs0 ops)) !! id = Some cn /\
    resolved xs0 ops (ah_client_id (cn_hello cn)) (ah_key_id (cn_hello cn)) key /\
    issued ops id (cn_challenge cn) /\
    proven bcrypt_hmac key cn proof /\ heard (given id xs0 ops) (proof_frame cn proof).
Proof using Type.
  intros Hi Hs Hc. apply state_for_client_inv in Hs as (id & _ & Hid).
  pose proof (exam_run_sound xs0 ops Hi) as [Ho _ _].
  destruct (Ho _ _ Hid) as (_ & _ & _ & _ & _ & (_ & _ & Hd & Ha)).
  unfold is_current_state in Hc. bool_to_prop.
  assert (cn_stage cn = authenticated) as Hst by tauto.
  destruct (Ha Hst) as (key & proof & HR & Hp & Hh). destruct (Hd (or_intror Hst)) as [_ Hch].
  exists id, key, proof. by split_and!.
Qed.

(** C6. What stands behind a running exam.  In every state the server reaches, with
    connections, pairings, commands, starts, stops and changes of the instructor's
    key in any order, when a client has an exam context, then an earlier operation
    asked for that exam; at that moment the request was valid, the client's current
    connection was authenticated as the very client the request names, by a holder
    of the key the store had resolved for it, the instructor's ticket for exactly
    this exam verified (or none was required), and the registry had proof of the
    client's current protection (or the build is the unprotected one); the context
    has been there ever since; it is ready only if the client's connection reported
    this very session ready afterwards; and it has begun only if it is ready. *)
Theorem running_exam_was_admitted xs0 (ops : list (ExamOperation K)) rid c :
  exam_idle xs0 -> xs_contexts (reach xs0 ops) !! rid = Some c ->
  exists before op after request ticket env cn id key proof,
    ops = before ++ op :: after /\ let xs := reach xs0 before in
    start_of xs op = Some (rid, request, ticket, env) /\
    ExamControl.validate_exam_start_request request = true /\
    sv_objects (xs_server xs) !! id = Some cn /\ is_current_state (xs_server xs) cn = true /\
    ah_client_id (cn_hello cn) = ExamControl.es_client_id request /\
    resolved xs0 before (ah_client_id (cn_hello cn)) (ah_key_id (cn_hello cn)) key /\
    proven bcrypt_hmac key cn proof /\ heard (given id xs0 before) (proof_frame cn proof) /\
    ticket_accepted bcrypt_hmac xs request ticket env /\
    (ClientRegistry.gate_open (sv_registry (xs_server xs)) rid = true \/ dev_unprotected = true) /\
    tuple_of c = start_tuple request /\
    ax_instructor_authorized c = bool_decide (is_Some ticket) /\
    present xs0 (before ++ [op]) after rid /\
    (ax_ready c = true -> report_in xs0 (before ++ [op]) after rid c) /\
    (ax_begun c = true -> ax_ready c = true).
Proof using Type.
  intros Hi Hc. destruct (run_context xs0 ops rid c Hi Hc) as
    (b & op & a & E & (request & ticket & env & cn & Hs & Ha & Ht & Hau & _) & Hp & Hr & Hb).
  destruct Ha as (Hv & Hst & Hcur & _ & Hid & Htk & Hg).
  destruct (current_proven xs0 b rid cn Hi Hst Hcur) as (id & key & proof & Ho & HR & _ & Hpr & Hh).
  exists b, op, a, request, ticket, env, cn, id, key, proof. by split_and!.
Qed.

(** A begun exam stays begun until it is stopped. *)
Lemma begun_until_stopped xs0 a b rid c : exam_idle xs0 ->
  xs_contexts (reach xs0 a) !! rid = Some c -> ax_begun c = true ->
  (exists b1 stop b2, b = b1 ++ stop :: b2 /\
     stops bcrypt_hmac dev_unprotected (reach xs0 (a ++ b1)) stop rid) \/
  exists c', xs_contexts (reach xs0 (a ++ b)) !! rid = Some c' /\ ax_begun c' = true.
Proof using Type.
  intros Hi Hc Hb. induction b as [|op b IH] using rev_ind.
  - right. rewrite app_nil_r. eauto.
  - destruct IH as [(b1 & stop & b2 & -> & Hs)|(c' & Hc' & Hb')].
    { left. exists b1, stop, (b2 ++ [op]). by rewrite <- app_assoc. }
    pose proof (run_moved xs0 (a ++ b) op rid Hi) as Hm. rewrite Hc', <- app_assoc in Hm.
    inversion Hm as [c1 Hno E1 E2|c1 Hst E1 E2|? ? ? ? ? ? ? E1 E2|c1 Hr E1 E2|c1 start Hbe Hr Hn E1 E2];
      subst.
    + right. eauto.
    + left. by exists b, op, [].
    + right. by exists (with_ready c').
    + congruence.
Qed.

Lemma begins_moves xs0 ops op rid : exam_idle xs0 ->
  begins bcrypt_hmac (reach xs0 ops) op rid ->
  exists c c', xs_contexts (reach xs0 ops) !! rid = Some c /\ ax_ready c = true /\ ax_begun c = false /\
    xs_contexts (reach xs0 (ops ++ [op])) !! rid = Some c' /\ ax_begun c' = true.
Proof using Type.
  intros Hi Hb. pose proof (run_moved xs0 ops op rid Hi) as Hm.
  destruct Hb as (duration & env & -> & Hok).
  inversion Hm as [c1 Hno E1 E2|c1 Hst E1 E2|? ? ? ? ? Hs ? E1 E2|c1 Hr E1 E2|c1 start Hbe Hr Hn E1 E2].
  - destruct Hno. by exists duration, env.
  - done.
  - done.
  - done.
  - exists c1, (with_begun c1 start). by split_and!.
Qed.

(** C7. A session begins once.  In every run, when the server sends a client a
    command to begin twice, then in between the operator stopped that client's
    exam, with success, or the server, or one of the two was a raw begin command
    handed to [send_command] or a broadcast, which do not look at the exam.  So
    repeating [begin_exam], a reconnecting client, a failed stop, or any command
    the client sends cannot restart the timer with a later time. *)
Theorem exam_begins_once xs0 (a b : list (ExamOperation K)) (first second : ExamOperation K) rid :
  exam_idle xs0 ->
  begin_sent bcrypt_hmac (reach xs0 a) first rid ->
  begin_sent bcrypt_hmac (reach xs0 (a ++ first :: b)) second rid ->
  raw_begin first rid \/ raw_begin second rid \/
  exists b1 stop b2, b = b1 ++ stop :: b2 /\
    stops bcrypt_hmac dev_unprotected (reach xs0 (a ++ first :: b1)) stop rid.
Proof using Type.
  intros Hi [H1|?] [H2|?]; [|by right; left|by left..].
  destruct (begins_moves _ _ _ _ Hi H1) as (_ & c & _ & _ & _ & Hc & Hb).
  destruct (begun_until_stopped xs0 _ b rid c Hi Hc Hb)
    as [(b1 & stop & b2 & -> & Hs)|(c' & Hc' & Hb')].
  - right. right. exists b1, stop, b2. split; [done|]. by rewrite <- app_assoc in Hs.
  - exfalso. rewrite <- app_assoc in Hc'. cbn in Hc'.
    destruct (begins_moves _ _ _ _ Hi H2) as (c2 & _ & E & _ & Hf & _). congruence.
Qed.
End Invariant.

(** ** Examples *)

Definition constant_hmac (_ _ : bytes) : option bytes := Some (Handshake.digest_of 9).

Definition sample_server : ExamServer :=
  mkExamServer ServerRuns.sample_server ∅ true true [] false true 1 1 [] [].

Definition sample_rid : Z := registry_id_for sample_client.

Definition sample_wire (now : Z) : Env unit :=
  sample_env (ac_server_nonce sample_challenge)
    (ac_unix_time_seconds sample_challenge) 0.

Definition sample_exam_env : ExamEnv unit :=
  mkExamEnv (sample_wire 0) (mkClockSnapshot 5000 9000) (mkClockSnapshot 5001 9001) None 6000.

Definition sample_request : ExamControl.ExamStartRequest :=
  ExamControl.mkExamStartRequest (text "C:/exams/1") [] [] (text "exam-1") (text "c-17")
    (repeat (byte_of 3) 32) sample_client (repeat (byte_of 4) 16).

Definition sample_ready : ExamControl.ExamReadyReport :=
  ExamControl.mkExamReadyReport (text "exam-1") (text "c-17") (repeat (byte_of 3) 32) sample_client
    (repeat (byte_of 4) 16).

Definition client_command (type : CommandType) (sequence : Z) (payload : bytes) : bytes :=
  encode_authenticated_command constant_hmac (Handshake.digest_of 9)
    (plain_envelope (command_type_value type) 20 payload) sequence payload.

Definition heard_from_client (input : bytes) : ExamOperation unit :=
  Controlled (BytesReceived 1 input (fun _ => sample_wire 0)).

Definition sample_before : list (ExamOperation unit) :=
  [Controlled (Connected 1 (text "10.0.0.7"));
   heard_from_client (Handshake.sent_in_full
     (Handshake.client_sends Handshake.sample_rid 0 sample_hello (Handshake.digest_of 9)));
   heard_from_client (client_command CT_uwf_fleet_status 0
     (ControlMessages.encode_uwf_fleet_status_report
        (ClientRegistry.sample_report ControlMessages.phase_verified_protected 2
           (ControlMessages.mkUwfProtectionProbe true true true true true true))))].

Definition sample_exam : list (ExamOperation unit) :=
  sample_before ++
  [ExamStarted sample_rid sample_request None sample_exam_env;
   heard_from_client (client_command CT_exam_ready 1
     (ExamControl.encode_exam_ready_report sample_ready))].

Definition sample_run (ops : list (ExamOperation unit)) : ExamServer :=
  run constant_hmac no_sha256 false sample_server ops.

Example sample_protected :
  ClientRegistry.gate_open (sv_registry (xs_server (sample_run sample_before))) sample_rid = true.
Proof. vm_compute. reflexivity. Qed.

Example sample_ready_to_begin :
  exam_client_states (sample_run sample_exam) =
    [mkExamClientState sample_rid (text "exam-1") (text "c-17") true false].
Proof. vm_compute. reflexivity. Qed.

Lemma sample_idle : exam_idle sample_server.
Proof. by split_and!. Qed.

Lemma running_exam_was_admitted_witness :
  exam_idle sample_server /\ exam_active (sample_run sample_exam) sample_rid = true /\
  exists before op after,
    sample_exam = before ++ op :: after /\
    ClientRegistry.gate_open (sv_registry (xs_server (sample_run before))) sample_rid = true.
Proof.
  split; [exact sample_idle|].
  destruct (xs_contexts (sample_run sample_exam) !! sample_rid) as [c|] eqn:Ec.
  2: { exfalso. assert (exam_active (sample_run sample_exam) sample_rid = true) as Ea
         by (vm_compute; reflexivity). unfold exam_active in Ea. rewrite Ec in Ea. discriminate Ea. }
  split; [unfold exam_active; rewrite Ec; reflexivity|]. unfold sample_run in *.
  destruct (running_exam_was_admitted constant_hmac no_sha256 false sample_server sample_exam
    sample_rid c sample_idle Ec)
    as (before & op & after & request & ticket & env & cn & id & key & proof &
        E & _ & _ & _ & _ & _ & _ & _ & _ & _ & [Hg|Hd] & _); [|discriminate Hd].
  exists before, op, after. exact (conj E Hg).
Defined.

(** The exam begins, is stopped, started again and begins again. *)
Definition sample_begin : ExamOperation unit := ExamBegun sample_rid 3600 sample_exam_env.

Definition sample_again : list (ExamOperation unit) :=
  [ExamStopped sample_rid sample_exam_env;
   ExamStarted sample_rid sample_request None sample_exam_env;
   heard_from_client (client_command CT_exam_ready 2
     (ExamControl.encode_exam_ready_report sample_ready))].

Lemma sample_begins (ops : list (ExamOperation unit)) :
  KeyStore.succeeds (begin_exam constant_hmac sample_exam_env (sample_run ops) sample_rid 3600).1 = true ->
  begins constant_hmac (sample_run ops) sample_begin sample_rid.
Proof.
  intros E. exists 3600, sample_exam_env. split; [done|].
  destruct (begin_exam _ _ _ _ _) as [[[]|e] xs']; done.
Qed.

Example second_begin_refused :
  KeyStore.succeeds (begin_exam constant_hmac sample_exam_env
    (sample_run (sample_exam ++ [sample_begin])) sample_rid 3600).1 = false.
Proof. vm_compute. reflexivity. Qed.

(** A raw begin command is sent although the exam has begun, and is not recorded. *)
Example raw_begin_is_not_refused :
  let xs := sample_run (sample_exam ++ [sample_begin]) in
  let '(r, xs') := send_command constant_hmac false sample_exam_env xs sample_rid CT_exam_begin
                     (text "anything") in
  KeyStore.succeeds r = true /\
  length (sv_effects (xs_server xs')) = S (length (sv_effects (xs_server xs))) /\
  exam_client_states xs' = exam_client_states xs.
Proof. vm_compute. split; [reflexivity|]. split; reflexivity. Qed.

Lemma exam_begins_once_witness :
  exam_idle sample_server /\
  begins constant_hmac (sample_run sample_exam) sample_begin sample_rid /\
  begins constant_hmac (sample_run (sample_exam ++ sample_begin :: sample_again)) sample_begin sample_rid /\
  exists b1 stop b2, sample_again = b1 ++ stop :: b2 /\
    stops constant_hmac false (sample_run (sample_exam ++ sample_begin :: b1)) stop sample_rid.
Proof.
  assert (begins constant_hmac (sample_run sample_exam) sample_begin sample_rid) as H1
    by (apply sample_begins; vm_compute; reflexivity).
  assert (begins constant_hmac (sample_run (sample_exam ++ sample_begin :: sample_again)) sample_begin
    sample_rid) as H2 by (apply sample_begins; vm_compute; reflexivity).
  split; [exact sample_idle|]. split; [exact H1|]. split; [exact H2|].
  unfold sample_run in *.
  destruct (exam_begins_once constant_hmac no_sha256 false sample_server sample_exam sample_again
    sample_begin sample_begin sample_rid sample_idle (or_introl H1) (or_introl H2))
    as [[]|[[]|H]]. exact H.
Defined.
End ExamRuns.
