(* ===== verification/UpdateManifest.v ===== *)
(** Signed update manifests (common/include/nstu/update_manifest.hpp,
    common/src/update_manifest.cpp): versions, the JSON form, the canonical text
    that is signed, and the checks an update passes before it is downloaded.

    SHA-256 and the ECDSA verification of Windows CNG are parameters.  Key
    generation and signing are CNG calls of the release tool. *)

From S2P Require Import Prelude Json.

Module UpdateManifest.
Import Json.

(** ** Data *)

Inductive PackageRole := role_client | role_server.

#[export] Instance package_role_eq_dec : EqDecision PackageRole.
Proof. solve_decision. Defined.

Definition package_role_text (role : PackageRole) : bytes :=
  text (match role with role_client => "client" | role_server => "server" end).

Definition parse_package_role (str : bytes) : option PackageRole :=
  if bool_decide (str = text "client") then Some role_client
  else if bool_decide (str = text "server") then Some role_server
  else None.

Inductive ReleaseChannel := ltsc_stable | security | pilot.

Definition release_channel_text (channel : ReleaseChannel) : bytes :=
  text (match channel with
        | ltsc_stable => "ltsc-stable" | security => "security" | pilot => "pilot" end).

Definition parse_release_channel (str : bytes) : option ReleaseChannel :=
  if bool_decide (str = text "ltsc-stable") then Some ltsc_stable
  else if bool_decide (str = text "security") then Some security
  else if bool_decide (str = text "pilot") then Some pilot
  else None.

Record SemanticVersion := mkVersion { v_major : Z; v_minor : Z; v_patch : Z }.

(** [operator<=>]: by major, then minor, then patch. *)
Definition version_compare (a b : SemanticVersion) : comparison :=
  match v_major a ?= v_major b with
  | Eq => match v_minor a ?= v_minor b with
          | Eq => v_patch a ?= v_patch b
          | c => c
          end
  | c => c
  end.

Definition version_lt (a b : SemanticVersion) : bool :=
  match version_compare a b with Lt => true | _ => false end.

Definition version_eq (a b : SemanticVersion) : bool :=
  match version_compare a b with Eq => true | _ => false end.

Record UpdateManifest := mkManifest {
  um_schema_version : bytes;
  um_package_role : PackageRole;
  um_version : SemanticVersion;
  um_min_supported_version : SemanticVersion;
  um_package_url : bytes;
  um_byte_length : Z;
  um_sha256_hex : bytes;
  um_channel : ReleaseChannel;
  um_release_timestamp_utc : Z;
  um_rollout_percentage : Z;
  um_min_windows_build : Z;
  um_requires_reboot : bool;
  um_key_id : Z;
  um_signature_hex : bytes
}.

Record ClientEnvironment := mkEnvironment {
  ce_installed_role : PackageRole;
  ce_current_version : SemanticVersion;
  ce_current_windows_build : Z;
  ce_machine_guid : bytes;
  ce_allow_same_version : bool;
  ce_allow_insecure_http : bool
}.

Inductive ManifestVerificationError :=
| mv_ok | invalid_json | unsupported_schema | role_mismatch | downgrade_detected
| below_minimum_supported_version | incompatible_os_build | invalid_digest | invalid_signature
| rollout_deferred | invalid_url | invalid_rollout_percentage | oversized_manifest
| missing_required_field | already_up_to_date.

(** An error and its message. *)
Definition Verification : Type := ManifestVerificationError * bytes.

Definition verified : Verification := (mv_ok, []).

(** The manifest before anything is read. *)
Definition default_manifest : UpdateManifest :=
  {| um_schema_version := text "1.0"; um_package_role := role_client;
     um_version := mkVersion 0 0 0; um_min_supported_version := mkVersion 0 0 0;
     um_package_url := []; um_byte_length := 0; um_sha256_hex := []; um_channel := ltsc_stable;
     um_release_timestamp_utc := 0; um_rollout_percentage := 100; um_min_windows_build := 17763;
     um_requires_reboot := true; um_key_id := 1; um_signature_hex := [] |}.

(** ** Versions *)

Definition version_text (v : SemanticVersion) : bytes :=
  dec (v_major v) ++ text "." ++ dec (v_minor v) ++ text "." ++ dec (v_patch v).

(** [parts] holds the components that are complete. *)
Fixpoint version_loop (parts : list Z) (current : Z) (has_digit : bool) (str : bytes) :
    option (list Z * Z * bool) :=
  match str with
  | [] => Some (parts, current, has_digit)
  | c :: rest =>
      if isdigit c then
        let digit := byte_val c - 48 in
        if current >? (u32_max - digit) / 10 then None
        else version_loop parts (current * 10 + digit) true rest
      else if bool_decide (c = Byte.x2e) then
        if negb has_digit || (len parts >=? 2) then None
        else version_loop (parts ++ [current]) 0 false rest
      else None
  end.

Definition version_parse (str : bytes) : option SemanticVersion :=
  if bool_decide (str = []) then None
  else
    match version_loop [] 0 false str with
    | Some ([major; minor], patch, true) => Some (mkVersion major minor patch)
    | _ => None
    end.

(** ** The JSON form *)

Definition kMaxManifestBytes : Z := 64 * 1024.

Definition unescape (c : byte) : byte :=
  match c with
  | Byte.x62 => Byte.x08 | Byte.x66 => Byte.x0c | Byte.x6e => Byte.x0a
  | Byte.x72 => Byte.x0d | Byte.x74 => Byte.x09
  | c => c
  end.

(** After the opening quote. *)
Fixpoint string_body (escaped : bool) (input : bytes) : option (bytes * bytes) :=
  match input with
  | [] => None
  | c :: rest =>
      let keep b := match string_body false rest with
                    | Some (out, rest) => Some (b :: out, rest)
                    | None => None
                    end in
      if escaped then keep (unescape c)
      else if bool_decide (c = backslash) then string_body true rest
      else if bool_decide (c = quote) then Some ([], rest)
      else keep c
  end.

Definition parse_string (input : bytes) : option (bytes * bytes) :=
  match skip_whitespace input with
  | c :: rest => if bool_decide (c = quote) then string_body false rest else None
  | [] => None
  end.

Definition parse_uint64 (input : bytes) : option (Z * bytes) :=
  match skip_whitespace input with
  | c :: rest => if isdigit c then digits_loop u64_max 0 (c :: rest) else None
  | [] => None
  end.

Definition parse_uint32 (input : bytes) : option (Z * bytes) :=
  match parse_uint64 input with
  | Some (v, rest) => if v >? u32_max then None else Some (v, rest)
  | None => None
  end.

(** The loop of [skip_value] over an object or an array. *)
Fixpoint skip_nested (fuel : nat) (opening closing : byte) (depth : Z) (input : bytes) :
    option bytes :=
  match fuel, input with
  | O, _ => None
  | S fuel', [] => if depth =? 0 then Some [] else None
  | S fuel', c :: rest =>
      if depth =? 0 then Some input
      else if bool_decide (c = quote) then
        match parse_string input with
        | Some (_, rest) => skip_nested fuel' opening closing depth rest
        | None => None
        end
      else if bool_decide (c = opening) then skip_nested fuel' opening closing (depth + 1) rest
      else if bool_decide (c = closing) then skip_nested fuel' opening closing (depth - 1) rest
      else skip_nested fuel' opening closing depth rest
  end.

Definition ends_value (c : byte) : bool :=
  bool_decide (c = Byte.x2c \/ c = Byte.x7d \/ c = Byte.x5d) || is_white c.

Fixpoint skip_scalar (input : bytes) : bytes :=
  match input with
  | c :: rest => if ends_value c then input else skip_scalar rest
  | [] => []
  end.

Definition skip_value (input : bytes) : option bytes :=
  match skip_whitespace input with
  | [] => None
  | c :: rest =>
      if bool_decide (c = quote) then option_map snd (parse_string (c :: rest))
      else if bool_decide (c = Byte.x7b) then
        skip_nested (S (length rest)) Byte.x7b Byte.x7d 1 rest
      else if bool_decide (c = Byte.x5b) then
        skip_nested (S (length rest)) Byte.x5b Byte.x5d 1 rest
      else Some (skip_scalar (c :: rest))
  end.

(** What has been read so far, and which required fields. *)
Record Partial := mkPartial {
  pt_manifest : UpdateManifest;
  has_role : bool;
  has_version : bool;
  has_url : bool;
  has_sha256 : bool;
  has_byte_length : bool;
  has_channel : bool;
  has_min_windows_build : bool;
  has_release_timestamp_utc : bool
}.

Definition FieldResult : Type := Verification + (Partial * bytes).

Definition invalid (message : bytes) : FieldResult := inl (invalid_json, message).

(** A field whose value is a string, a number or a boolean. *)
Definition with_value {A} (value : option (A * bytes)) (k : A -> bytes -> FieldResult) : FieldResult :=
  match value with
  | None => invalid []
  | Some (v, rest) => k v rest
  end.

Definition read_field (key : bytes) (p : Partial) (input : bytes) : FieldResult :=
  let m := pt_manifest p in
  if bool_decide (key = text "schema_version") then
    with_value (parse_string input) (fun ver rest =>
      if bool_decide (ver = text "1.0")
      then inr ({| p with pt_manifest := {| m with um_schema_version := ver |} |}, rest)
      else inl (unsupported_schema, text "Unsupported schema_version: " ++ ver))
  else if bool_decide (key = text "package_role") then
    with_value (parse_string input) (fun r rest =>
      match parse_package_role r with
      | Some role =>
          inr ({| p with pt_manifest := {| m with um_package_role := role |}; has_role := true |}, rest)
      | None => invalid (text "Invalid package_role: " ++ r)
      end)
  else if bool_decide (key = text "version") then
    with_value (parse_string input) (fun v rest =>
      match version_parse v with
      | Some version =>
          inr ({| p with pt_manifest := {| m with um_version := version |}; has_version := true |}, rest)
      | None => invalid (text "Invalid version format: " ++ v)
      end)
  else if bool_decide (key = text "min_supported_version") then
    with_value (parse_string input) (fun v rest =>
      match version_parse v with
      | Some version =>
          inr ({| p with pt_manifest := {| m with um_min_supported_version := version |} |}, rest)
      | None => invalid (text "Invalid version format: " ++ v)
      end)
  else if bool_decide (key = text "package_url") then
    with_value (parse_string input) (fun v rest =>
      inr ({| p with pt_manifest := {| m with um_package_url := v |}; has_url := true |}, rest))
  else if bool_decide (key = text "byte_length") then
    with_value (parse_uint64 input) (fun v rest =>
      inr ({| p with pt_manifest := {| m with um_byte_length := v |}; has_byte_length := true |}, rest))
  else if bool_decide (key = text "sha256_hex") then
    with_value (parse_string input) (fun v rest =>
      inr ({| p with pt_manifest := {| m with um_sha256_hex := v |}; has_sha256 := true |}, rest))
  else if bool_decide (key = text "channel") then
    with_value (parse_string input) (fun ch rest =>
      match parse_release_channel ch with
      | Some channel =>
          inr ({| p with pt_manifest := {| m with um_channel := channel |}; has_channel := true |}, rest)
      | None => invalid (text "Invalid channel: " ++ ch)
      end)
  else if bool_decide (key = text "release_timestamp_utc") then
    with_value (parse_uint64 input) (fun v rest =>
      inr ({| p with pt_manifest := {| m with um_release_timestamp_utc := v |};
              has_release_timestamp_utc := true |}, rest))
  else if bool_decide (key = text "rollout_percentage") then
    with_value (parse_uint32 input) (fun v rest =>
      inr ({| p with pt_manifest := {| m with um_rollout_percentage := v |} |}, rest))
  else if bool_decide (key = text "min_windows_build") then
    with_value (parse_uint32 input) (fun v rest =>
      inr ({| p with pt_manifest := {| m with um_min_windows_build := v |};
              has_min_windows_build := true |}, rest))
  else if bool_decide (key = text "requires_reboot") then
    with_value (parse_bool input) (fun v rest =>
      inr ({| p with pt_manifest := {| m with um_requires_reboot := v |} |}, rest))
  else if bool_decide (key = text "key_id") then
    with_value (parse_uint32 input) (fun v rest =>
      inr ({| p with pt_manifest := {| m with um_key_id := v |} |}, rest))
  else if bool_decide (key = text "signature_hex") then
    with_value (parse_string input) (fun v rest =>
      inr ({| p with pt_manifest := {| m with um_signature_hex := v |} |}, rest))
  else
    match skip_value input with
    | Some rest => inr (p, rest)
    | None => invalid (text "Malformed value for unknown key")
    end.

(** What follows a field: a comma and another field, or the end of the object. *)
Definition after_field (input : bytes) : Verification + bytes :=
  let '(comma, s) := match_char Byte.x2c (skip_whitespace input) in
  let s := skip_whitespace s in
  if comma then
    match s with
    | c :: _ =>
        if bool_decide (c = Byte.x7d)
        then inl (invalid_json, text "Trailing comma not allowed in manifest JSON")
        else inr s
    | [] => inr s
    end
  else
    match s with
    | c :: _ =>
        if bool_decide (c = Byte.x7d) then inr s
        else inl (invalid_json, text "Missing comma separator between object entries")
    | [] => inr s
    end.

(** A turn reads at least the two quotes of a key, so the length of the input is
    enough fuel. *)
Fixpoint fields_loop (fuel : nat) (p : Partial) (input : bytes) : FieldResult :=
  match fuel with
  | O => invalid []
  | S fuel' =>
      let '(closed, s) := match_char Byte.x7d (skip_whitespace input) in
      if closed then inr (p, s)
      else
        match parse_string s with
        | None => invalid (text "Failed to parse key")
        | Some (key, s) =>
            let '(colon, s) := match_char Byte.x3a s in
            if negb colon then invalid (text "Failed to parse key")
            else
              match read_field key p s with
              | inl e => inl e
              | inr (p, s) =>
                  match after_field s with
                  | inl e => inl e
                  | inr s => fields_loop fuel' p s
                  end
              end
        end
  end.

Definition import_update_manifest_json (json_str : bytes) : option UpdateManifest * Verification :=
  if len json_str >? kMaxManifestBytes
  then (None, (oversized_manifest, text "Manifest size exceeds maximum limit of 64 KiB"))
  else
    let '(opened, s) := match_char Byte.x7b json_str in
    if negb opened
    then (None, (invalid_json, text "Expected '{' at start of JSON manifest"))
    else
      match fields_loop (S (length s))
              (mkPartial default_manifest false false false false false false false false) s with
      | inl e => (None, e)
      | inr (p, s) =>
          if negb (bool_decide (skip_whitespace s = []))
          then (None, (invalid_json, text "Unexpected trailing data after closing JSON object"))
          else if negb (has_role p && has_version p && has_url p && has_sha256 p &&
                        has_byte_length p && has_channel p && has_min_windows_build p &&
                        has_release_timestamp_utc p)
          then (None, (missing_required_field, text "Missing required manifest field"))
          else (Some (pt_manifest p), verified)
      end.

Definition hex_lower : bytes := text "0123456789abcdef".

Definition hex_digit (v : Z) : byte := nth (Z.to_nat v) hex_lower Byte.x00.

Definition escape_char (c : byte) : bytes :=
  match c with
  | Byte.x22 => [backslash; quote]
  | Byte.x5c => [backslash; backslash]
  | Byte.x08 => [backslash; Byte.x62]
  | Byte.x0c => [backslash; Byte.x66]
  | Byte.x0a => [backslash; Byte.x6e]
  | Byte.x0d => [backslash; Byte.x72]
  | Byte.x09 => [backslash; Byte.x74]
  | c => if byte_val c <? 0x20
         then backslash :: text "u00" ++ [hex_digit (byte_val c / 16); hex_digit (byte_val c mod 16)]
         else [c]
  end.

Definition escape_json (s : bytes) : bytes := concat (map escape_char s).

(** A member of the object: two blanks, the quoted key, a colon. *)
Definition json_member (key : bytes) (value : bytes) : bytes :=
  text "  " ++ [quote] ++ key ++ [quote] ++ text ": " ++ value.

Definition quoted (value : bytes) : bytes := [quote] ++ value ++ [quote].

Definition newline : bytes := [Byte.x0a].
Definition next_member : bytes := Byte.x2c :: newline.

Definition export_update_manifest_json (m : UpdateManifest) : bytes :=
  text "{" ++ newline ++
  json_member (text "schema_version") (quoted (escape_json (um_schema_version m))) ++ next_member ++
  json_member (text "package_role") (quoted (package_role_text (um_package_role m))) ++ next_member ++
  json_member (text "version") (quoted (version_text (um_version m))) ++ next_member ++
  json_member (text "min_supported_version") (quoted (version_text (um_min_supported_version m))) ++
    next_member ++
  json_member (text "package_url") (quoted (escape_json (um_package_url m))) ++ next_member ++
  json_member (text "byte_length") (dec (um_byte_length m)) ++ next_member ++
  json_member (text "sha256_hex") (quoted (escape_json (um_sha256_hex m))) ++ next_member ++
  json_member (text "channel") (quoted (release_channel_text (um_channel m))) ++ next_member ++
  json_member (text "release_timestamp_utc") (dec (um_release_timestamp_utc m)) ++ next_member ++
  json_member (text "rollout_percentage") (dec (um_rollout_percentage m)) ++ next_member ++
  json_member (text "min_windows_build") (dec (um_min_windows_build m)) ++ next_member ++
  json_member (text "requires_reboot") (text (if um_requires_reboot m then "true" else "false")) ++
    next_member ++
  json_member (text "key_id") (dec (um_key_id m)) ++ next_member ++
  json_member (text "signature_hex") (quoted (escape_json (um_signature_hex m))) ++ newline ++
  text "}" ++ newline.

(** ** The signed text *)

Definition line (name : string) (value : bytes) : bytes := text name ++ value ++ newline.

Definition build_canonical_manifest_signing_payload (m : UpdateManifest) : bytes :=
  line "schema:" (um_schema_version m) ++
  line "role:" (package_role_text (um_package_role m)) ++
  line "version:" (version_text (um_version m)) ++
  line "min_supported_version:" (version_text (um_min_supported_version m)) ++
  line "package_url:" (um_package_url m) ++
  line "byte_length:" (dec (um_byte_length m)) ++
  line "sha256:" (um_sha256_hex m) ++
  line "channel:" (release_channel_text (um_channel m)) ++
  line "timestamp:" (dec (um_release_timestamp_utc m)) ++
  line "rollout_percentage:" (dec (um_rollout_percentage m)) ++
  line "min_windows_build:" (dec (um_min_windows_build m)) ++
  line "requires_reboot:" (text (if um_requires_reboot m then "1" else "0")) ++
  line "key_id:" (dec (um_key_id m)).

Definition char_val (c : byte) : Z :=
  let v := byte_val c in
  if (48 <=? v) && (v <=? 57) then v - 48
  else if (97 <=? v) && (v <=? 102) then v - 97 + 10
  else if (65 <=? v) && (v <=? 70) then v - 65 + 10
  else 0.

Fixpoint hex_pairs (hex : bytes) : option bytes :=
  match hex with
  | h1 :: h2 :: rest =>
      if negb (isxdigit h1) || negb (isxdigit h2) then None
      else
        match hex_pairs rest with
        | Some bs => Some (byte_of (Z.lor (Z.shiftl (char_val h1) 4) (char_val h2)) :: bs)
        | None => None
        end
  | _ => Some []
  end.

Definition bytes_to_hex (bs : bytes) : bytes :=
  concat (map (fun b => [hex_digit (byte_val b / 16); hex_digit (byte_val b mod 16)]) bs).

Definition hex_to_bytes (hex : bytes) : option bytes :=
  if negb (len hex mod 2 =? 0) then None else hex_pairs hex.

Definition ecckey_public_header : bytes := text "ECS1" ++ [byte_of 32; byte_of 0; byte_of 0; byte_of 0].

(** The key blob: a header before a raw 64-byte key. *)
Definition blob_to_import (public_key : bytes) : bytes :=
  if len public_key =? 64 then ecckey_public_header ++ public_key else public_key.

Section Verification.
Variable sha256 : bytes -> option bytes.
(** [BCryptImportKeyPair] and [BCryptVerifySignature]: key blob, digest,
    signature. *)
Variable ecdsa_verify : bytes -> bytes -> bytes -> bool.

Definition verify_manifest_signature (m : UpdateManifest) (public_key : bytes) : bool :=
  if bool_decide (public_key = []) || bool_decide (um_signature_hex m = []) then false
  else
    match hex_to_bytes (um_signature_hex m) with
    | None => false
    | Some sig_bytes =>
        if negb (len sig_bytes =? 64) then false
        else
          match sha256 (build_canonical_manifest_signing_payload m) with
          | None => false
          | Some digest => ecdsa_verify (blob_to_import public_key) digest sig_bytes
          end
    end.

(** [BCryptSignHash] with the imported private key. *)
Variable ecdsa_sign : bytes -> bytes -> option bytes.

Definition private_blob_to_import (private_key : bytes) : bytes :=
  if len private_key =? 96
  then text "ECS2" ++ [byte_of 32; byte_of 0; byte_of 0; byte_of 0] ++ private_key
  else private_key.

Definition sign_update_manifest (m : UpdateManifest) (private_key : bytes) : option UpdateManifest :=
  if bool_decide (private_key = []) then None
  else
    match sha256 (build_canonical_manifest_signing_payload m) with
    | None => None
    | Some digest =>
        match ecdsa_sign (private_blob_to_import private_key) digest with
        | Some sig => Some {| m with um_signature_hex := bytes_to_hex sig |}
        | None => None
        end
    end.

(** The digest's first four bytes, most significant first, modulo 100. *)
Definition compute_canary_bucket (machine_guid : bytes) : option Z :=
  if bool_decide (machine_guid = []) then None
  else
    match sha256 machine_guid with
    | Some (d0 :: d1 :: d2 :: d3 :: _) =>
        Some (Z.lor (Z.lor (Z.lor (Z.shiftl (byte_val d0) 24) (Z.shiftl (byte_val d1) 16))
                (Z.shiftl (byte_val d2) 8)) (byte_val d3) mod 100)
    | _ => None
    end.

Definition rollout_check (m : UpdateManifest) (env : ClientEnvironment) : option Verification :=
  if um_rollout_percentage m <? 100 then
    match compute_canary_bucket (ce_machine_guid env) with
    | None =>
        Some (rollout_deferred,
              text "Client machine GUID is missing or invalid for canary bucket determination")
    | Some bucket =>
        if bucket >=? um_rollout_percentage m
        then Some (rollout_deferred,
                   text "Client canary bucket (" ++ dec bucket ++
                   text ") is above release rollout percentage (" ++
                   dec (um_rollout_percentage m) ++ text "%)")
        else None
    end
  else None.

Definition starts_with (prefix s : bytes) : bool := bool_decide (take (length prefix) s = prefix).

Definition verify_manifest_against_environment (m : UpdateManifest) (env : ClientEnvironment)
    (public_key : bytes) : Verification :=
  if negb (verify_manifest_signature m public_key)
  then (invalid_signature, text "Manifest signature is invalid or does not match public key")
  else if negb (bool_decide (um_package_role m = ce_installed_role env))
  then (role_mismatch, text "Package role does not match installed role")
  else if version_lt (um_version m) (ce_current_version env)
  then (downgrade_detected,
        text "Candidate version is lower than installed version (downgrade rejected)")
  else if version_eq (um_version m) (ce_current_version env) && negb (ce_allow_same_version env)
  then (already_up_to_date,
        text "Candidate version equals installed version (already up to date, reinstallation rejected)")
  else if version_lt (ce_current_version env) (um_min_supported_version m)
  then (below_minimum_supported_version,
        text "Installed version is below candidate minimum supported version")
  else if ce_current_windows_build env <? um_min_windows_build m
  then (incompatible_os_build, text "Current Windows build is below candidate minimum requirement")
  else if um_rollout_percentage m >? 100
  then (invalid_rollout_percentage, text "Rollout percentage must be in [0, 100]")
  else
    match rollout_check m env with
    | Some deferred => deferred
    | None =>
        if negb (len (um_sha256_hex m) =? 64)
        then (invalid_digest, text "SHA-256 digest hex length must be exactly 64")
        else if negb (forallb isxdigit (um_sha256_hex m))
        then (invalid_digest, text "SHA-256 digest contains non-hexadecimal character")
        else if negb (starts_with (text "https://") (um_package_url m)) &&
                (negb (ce_allow_insecure_http env) ||
                 negb (starts_with (text "http://") (um_package_url m)))
        then (invalid_url, text "Package URL must use secure https:// transport")
        else verified
    end.
End Verification.

(** ** Versions are printed and read back *)

Definition wf_version (v : SemanticVersion) : Prop :=
  u32 (v_major v) /\ u32 (v_minor v) /\ u32 (v_patch v).

Lemma u32_u64 v : u32 v -> u64 v.
Proof. unfold urange. lia. Qed.

(** The digits of one component. *)
Lemma version_loop_digits parts v h ds rest :
  0 <= v -> forallb isdigit ds = true -> dec_value v ds <= u32_max ->
  version_loop parts v h (ds ++ rest) =
  version_loop parts (dec_value v ds) (match ds with [] => h | _ => true end) rest.
Proof.
  revert v h. induction ds as [|c ds IH]; intros v h Hv Hd Hm; [done|]. cbn [app version_loop].
  cbn in Hd. apply andb_true_iff in Hd as [Hc Hd]. rewrite Hc.
  unfold isdigit in Hc. bool_to_prop. set (d := byte_val c - 48) in *.
  assert (Hle : v * 10 + d <= u32_max).
  { etransitivity; [|exact Hm]. apply (dec_value_mono (v * 10 + d) ds); [lia|done]. }
  destruct (Z.gtb_spec v ((u32_max - d) / 10)) as [Hgt|Hok].
  - exfalso. assert (v <= (u32_max - d) / 10); [|lia]. apply Z.div_le_lower_bound; lia.
  - rewrite IH; [|lia|done|done]. by destruct ds.
Qed.

Lemma version_loop_dec parts n rest :
  u32 n -> version_loop parts 0 false (dec n ++ rest) = version_loop parts n true rest.
Proof.
  intros Hn. destruct (dec_spec n (u32_u64 n Hn)) as (c & ds & E & Hd & Hv & _).
  rewrite version_loop_digits; [|done|done|rewrite Hv; unfold u32_max; ulia].
  rewrite Hv, E. done.
Qed.

Lemma version_loop_dot parts current rest :
  len parts < 2 ->
  version_loop parts current true (text "." ++ rest) = version_loop (parts ++ [current]) 0 false rest.
Proof.
  intros Hl. change (text "." ++ rest) with (Byte.x2e :: rest). cbn [version_loop].
  change (isdigit Byte.x2e) with false. cbv iota. rewrite bool_decide_eq_true_2 by done.
  destruct (Z.geb_spec (len parts) 2); [lia|]. done.
Qed.

Lemma version_parse_text v : wf_version v -> version_parse (version_text v) = Some v.
Proof.
  intros (H1 & H2 & H3). unfold version_parse, version_text.
  destruct (dec_spec (v_major v) (u32_u64 _ H1)) as (c & ds & E & _).
  rewrite bool_decide_eq_false_2 by (by rewrite E).
  rewrite version_loop_dec, version_loop_dot, version_loop_dec, version_loop_dot by done.
  rewrite <- (app_nil_r (dec (v_patch v))), version_loop_dec by done. by destruct v.
Qed.

(** ** The JSON form is read back *)

(** [escape_json] writes other control characters as [\u00xx], which
    [parse_string] does not understand. *)
Definition json_char (c : byte) : bool :=
  (0x20 <=? byte_val c) ||
  bool_decide (c = Byte.x08 \/ c = Byte.x09 \/ c = Byte.x0a \/ c = Byte.x0c \/ c = Byte.x0d).

Definition json_safe (s : bytes) : Prop := forallb json_char s = true.

(** A character that [escape_json] leaves as it is. *)
Definition plain_char (c : byte) : bool :=
  (0x20 <=? byte_val c) && negb (bool_decide (c = quote \/ c = backslash)).

(** Such a character is escaped as itself or as a backslash and a letter that
    stands for it. *)
Lemma escape_cases c :
  json_char c = true ->
  (escape_char c = [c] /\ c <> quote /\ c <> backslash) \/
  exists e, escape_char c = [backslash; e] /\ unescape e = c.
Proof.
  pose proof (byte_forall (fun c => negb (json_char c) ||
    (bool_decide (escape_char c = [c]) && negb (bool_decide (c = quote)) &&
       negb (bool_decide (c = backslash))) ||
    (bool_decide (take 1 (escape_char c) = [backslash]) &&
      bool_decide (map unescape (drop 1 (escape_char c)) = [c])))) as H.
  specialize (H ltac:(vm_compute; reflexivity) c). cbv beta in H.
  intros Hc. rewrite Hc in H. cbn [negb orb] in H. revert H. generalize (escape_char c). intros l H.
  apply orb_true_iff in H as [H|H]; bool_to_prop; [by left|right].
  rename select (take 1 l = _) into H1. rename select (map _ _ = _) into H2.
  destruct l as [|b [|e [|]]]; cbn in H1, H2; simplify_eq. by exists e.
Qed.

Lemma string_body_char c rest :
  json_char c = true ->
  string_body false (escape_char c ++ rest) =
  match string_body false rest with Some (out, r) => Some (c :: out, r) | None => None end.
Proof.
  intros [(-> & Hq & Hb)|(e & -> & <-)]%escape_cases; cbn [app string_body].
  - by rewrite !bool_decide_eq_false_2 by done.
  - by rewrite bool_decide_eq_true_2 by done.
Qed.

Lemma escape_plain c : plain_char c = true -> escape_char c = [c] /\ json_char c = true.
Proof.
  intros Hc. pose proof (byte_forall (fun c => negb (plain_char c) ||
    (bool_decide (escape_char c = [c]) && json_char c))) as H.
  specialize (H ltac:(vm_compute; reflexivity) c). cbv beta in H. rewrite Hc in H. cbn [negb orb] in H. by bool_to_prop.
Qed.

Lemma string_body_read s rest :
  json_safe s -> string_body false (escape_json s ++ quote :: rest) = Some (s, rest).
Proof.
  unfold json_safe, escape_json. induction s as [|c s IH]; [done|].
  cbn [forallb map concat]. intros [Hc Hs]%andb_true_iff.
  by rewrite <- app_assoc, string_body_char, IH.
Qed.

Lemma escape_json_plain s : forallb plain_char s = true -> escape_json s = s /\ json_safe s.
Proof.
  unfold escape_json, json_safe. induction s as [|c s IH]; [done|].
  cbn [forallb map concat]. intros [[-> ->]%escape_plain [-> ->]%IH]%andb_true_iff. done.
Qed.

Definition blank : bytes := [Byte.x20].

Lemma parse_string_read w s rest :
  forallb is_white w = true -> json_safe s ->
  parse_string (w ++ quoted (escape_json s) ++ rest) = Some (s, rest).
Proof.
  intros Hw Hs. unfold parse_string, quoted. rewrite skip_white by done. rewrite <- !app_assoc.
  change ([quote] ++ escape_json s ++ [quote] ++ rest) with (quote :: escape_json s ++ quote :: rest).
  cbn [skip_whitespace]. change (is_white quote) with false. cbv iota.
  rewrite bool_decide_eq_true_2 by done. by apply string_body_read.
Qed.

Lemma parse_string_plain w s rest :
  forallb is_white w = true -> forallb plain_char s = true ->
  parse_string (w ++ quoted s ++ rest) = Some (s, rest).
Proof.
  intros Hw Hs. destruct (escape_json_plain s Hs) as [E Hj]. rewrite <- E at 1.
  by apply parse_string_read.
Qed.

Lemma digit_not_white c : isdigit c = true -> is_white c = false.
Proof.
  intros Hc. pose proof (byte_forall (fun c => negb (isdigit c) || negb (is_white c))
    ltac:(vm_compute; reflexivity) c) as H.
  cbv beta in H. rewrite Hc in H. by destruct (is_white c).
Qed.

Definition ends_number (rest : bytes) : Prop :=
  match rest with c :: _ => isdigit c = false | [] => True end.

Lemma parse_uint64_read n rest :
  u64 n -> ends_number rest -> parse_uint64 (blank ++ dec n ++ rest) = Some (n, rest).
Proof.
  intros Hn Hr. destruct (dec_spec n Hn) as (c & ds & E & Hd & Hv & _).
  unfold parse_uint64. rewrite skip_white by done. rewrite E in Hd |- *. cbn [app].
  pose proof Hd as Hc. cbn in Hc. apply andb_true_iff in Hc as [Hc _].
  pose proof (digit_not_white c Hc) as Hw.
  cbn [skip_whitespace]. rewrite Hw, Hc. change (c :: ds ++ rest) with ((c :: ds) ++ rest).
  rewrite digits_loop_read; [by rewrite <- E, Hv|done|done|rewrite <- E, Hv; unfold u64_max; ulia|done].
Qed.

Lemma parse_uint32_read n rest :
  u32 n -> ends_number rest -> parse_uint32 (blank ++ dec n ++ rest) = Some (n, rest).
Proof.
  intros Hn Hr. unfold parse_uint32. rewrite parse_uint64_read by (try apply u32_u64; done).
  destruct (Z.gtb_spec n u32_max); [unfold u32_max in *; ulia|done].
Qed.

Lemma fields_loop_skip fuel p s : fields_loop fuel p (skip_whitespace s) = fields_loop fuel p s.
Proof. destruct fuel; [done|]. cbn [fields_loop]. by rewrite skip_idem. Qed.

(** One member of the object, with what follows it. *)
Lemma member_step fuel p p' key value sep tail s :
  forallb plain_char key = true ->
  read_field key p (blank ++ value ++ sep ++ tail) = inr (p', sep ++ tail) ->
  after_field (sep ++ tail) = inr s ->
  fields_loop (S fuel) p (json_member key value ++ sep ++ tail) = fields_loop fuel p' s.
Proof.
  intros Hk Hr Ha. unfold json_member. cbn [fields_loop].
  assert (Hs : skip_whitespace ((text "  " ++ [quote] ++ key ++ [quote] ++ text ": " ++ value) ++ sep ++ tail) =
    quoted key ++ text ": " ++ value ++ sep ++ tail).
  { unfold quoted. rewrite <- !app_assoc. done. }
  rewrite Hs.
  change (quoted key ++ text ": " ++ value ++ sep ++ tail) with
    (quote :: (key ++ [quote]) ++ text ": " ++ value ++ sep ++ tail).
  rewrite match_char_other by done.
  change (quote :: (key ++ [quote]) ++ text ": " ++ value ++ sep ++ tail) with
    ([] ++ quoted key ++ text ": " ++ value ++ sep ++ tail).
  rewrite parse_string_plain by done.
  change (text ": " ++ value ++ sep ++ tail) with (Byte.x3a :: blank ++ value ++ sep ++ tail).
  rewrite match_char_same by done. cbn [negb]. by rewrite Hr, Ha.
Qed.

(** After a comma, another member; after the last member, the brace. *)
Lemma after_field_next key value tail :
  after_field (next_member ++ json_member key value ++ tail) =
  inr (skip_whitespace (json_member key value ++ tail)).
Proof. by unfold after_field, json_member. Qed.

Lemma isdigit_plain c : isdigit c = true -> plain_char c = true.
Proof.
  intros Hc. pose proof (byte_forall (fun c => negb (isdigit c) || plain_char c)
    ltac:(vm_compute; reflexivity) c) as H.
  cbv beta in H. by rewrite Hc in H.
Qed.

Lemma dec_plain n : u64 n -> forallb plain_char (dec n) = true.
Proof.
  intros Hn. destruct (dec_spec n Hn) as (_ & _ & _ & Hd & _).
  rewrite !forallb_forall in *. auto using isdigit_plain.
Qed.

Lemma version_text_plain v : wf_version v -> forallb plain_char (version_text v) = true.
Proof.
  intros (H1 & H2 & H3). unfold version_text.
  by rewrite !forallb_app, !dec_plain by (by apply u32_u64).
Qed.

Lemma after_field_last : after_field (newline ++ text "}" ++ newline) = inr (text "}" ++ newline).
Proof. done. Qed.

Ltac pick_field :=
  unfold read_field; repeat rewrite bool_decide_eq_false_2 by (vm_compute; congruence);
  rewrite bool_decide_eq_true_2 by done; cbv zeta.

Lemma read_string_field (value : bytes) rest (k : bytes -> bytes -> FieldResult) :
  json_safe value ->
  with_value (parse_string (blank ++ quoted (escape_json value) ++ rest)) k = k value rest.
Proof. intros Hs. by rewrite parse_string_read. Qed.

Lemma read_plain_field (value : bytes) rest (k : bytes -> bytes -> FieldResult) :
  forallb plain_char value = true ->
  with_value (parse_string (blank ++ quoted value ++ rest)) k = k value rest.
Proof. intros Hs. by rewrite parse_string_plain. Qed.

(** What the JSON form can carry. *)
Record wf_manifest (m : UpdateManifest) : Prop := {
  wm_schema : um_schema_version m = text "1.0";
  wm_version : wf_version (um_version m);
  wm_min_supported : wf_version (um_min_supported_version m);
  wm_url : json_safe (um_package_url m);
  wm_byte_length : u64 (um_byte_length m);
  wm_sha256 : json_safe (um_sha256_hex m);
  wm_timestamp : u64 (um_release_timestamp_utc m);
  wm_rollout : u32 (um_rollout_percentage m);
  wm_build : u32 (um_min_windows_build m);
  wm_key_id : u32 (um_key_id m);
  wm_signature : json_safe (um_signature_hex m)
}.

Lemma digits_end (rest : bytes) : ends_number (next_member ++ rest).
Proof. vm_compute. done. Qed.

Lemma read_bool_field (b : bool) rest (k : bool -> bytes -> FieldResult) :
  with_value (parse_bool (blank ++ text (if b then "true" else "false") ++ rest)) k = k b rest.
Proof. by destruct b. Qed.

Lemma fields_loop_newline fuel p s : fields_loop fuel p (newline ++ s) = fields_loop fuel p s.
Proof. by rewrite <- fields_loop_skip, skip_white, fields_loop_skip. Qed.

Lemma parse_package_role_text role : parse_package_role (package_role_text role) = Some role.
Proof. by destruct role. Qed.

Lemma parse_release_channel_text channel :
  parse_release_channel (release_channel_text channel) = Some channel.
Proof. by destruct channel. Qed.

Lemma package_role_plain role : forallb plain_char (package_role_text role) = true.
Proof. by destruct role. Qed.

Lemma release_channel_plain channel : forallb plain_char (release_channel_text channel) = true.
Proof. by destruct channel. Qed.

Ltac read_value :=
  first [ rewrite read_string_field by done
        | rewrite read_plain_field by (first [by apply version_text_plain | apply package_role_plain
                                   | apply release_channel_plain])
        | rewrite parse_uint64_read by first [apply digits_end | done]
        | rewrite parse_uint32_read by first [apply digits_end | done]
        | rewrite read_bool_field ];
  cbn [with_value pt_manifest];
  rewrite ?parse_package_role_text, ?parse_release_channel_text, ?version_parse_text by done;
  rewrite ?(bool_decide_eq_true_2 (text "1.0" = _)) by done.

(** The next member of the object is read into the partial manifest. *)
Ltac read_member :=
  erewrite member_step;
    [ | vm_compute; reflexivity | pick_field; read_value; reflexivity
    | first [apply after_field_next | apply after_field_last ]];
    rewrite ?fields_loop_skip;
    cbn [pt_manifest um_schema_version um_package_role um_version um_min_supported_version um_package_url
           um_byte_length um_sha256_hex um_channel um_release_timestamp_utc um_rollout_percentage
           um_min_windows_build um_requires_reboot um_key_id um_signature_hex has_role has_version
           has_url has_sha256 has_byte_length has_channel has_min_windows_build has_release_timestamp_utc].

Definition nothing_read : Partial :=
  mkPartial default_manifest false false false false false false false false.

Lemma members_read m :
  wf_manifest m ->
  let s := drop 1 (export_update_manifest_json m) in
  fields_loop (S (length s)) nothing_read s =
  inr (mkPartial m true true true true true true true true, newline).
Proof.
  intros []. unfold export_update_manifest_json. change (drop 1 (text "{" ++ ?s)) with s. cbv zeta.
  match goal with |- context [fields_loop (S (length ?s))] => 
    change (S (length s)) with (15 + (length (drop 14 s)))%nat end.
  cbn [Nat.add].
  rewrite (fields_loop_newline _ nothing_read).
  rewrite wm_schema0.
  assert (Hs: json_safe (text "1.0")) by (vm_compute; reflexivity).
  do 14 read_member.
  cbn [fields_loop].
  change (match_char Byte.x7d (skip_whitespace (text "}" ++ newline))) with (true, newline).
  cbv beta iota.
  destruct m. cbn in wm_schema0. by subst.
Qed.

(** A manifest written as JSON is read back unchanged, when its texts have no
    control character but backspace, tab, line feed, form feed and carriage
    return, and the file is within the limit. *)
Lemma manifest_roundtrip m :
  wf_manifest m -> len (export_update_manifest_json m) <= kMaxManifestBytes ->
  import_update_manifest_json (export_update_manifest_json m) = (Some m, verified).
Proof.
  intros Hm Hl. unfold import_update_manifest_json.
  destruct (Z.gtb_spec (len (export_update_manifest_json m)) kMaxManifestBytes); [lia|].
  change (match_char Byte.x7b _) with (true, drop 1 (export_update_manifest_json m)).
  cbn [negb]. change (mkPartial default_manifest _ _ _ _ _ _ _ _) with nothing_read.
  pose proof (members_read m Hm) as E. cbv zeta in E. rewrite E.
  by rewrite bool_decide_eq_true_2.
Qed.

(** ** Signatures in hexadecimal *)

Lemma hex_pair b :
  let h := hex_digit (byte_val b / 16) in
  let l := hex_digit (byte_val b mod 16) in
  isxdigit h = true /\ isxdigit l = true /\ json_char h = true /\ json_char l = true /\
  byte_of (Z.lor (Z.shiftl (char_val h) 4) (char_val l)) = b.
Proof.
  pose proof (byte_forall (fun b =>
    let h := hex_digit (byte_val b / 16) in
    let l := hex_digit (byte_val b mod 16) in
    isxdigit h && isxdigit l && json_char h && json_char l &&
    bool_decide (byte_of (Z.lor (Z.shiftl (char_val h) 4) (char_val l)) = b))) as H.
  specialize (H ltac:(vm_compute; reflexivity) b). cbv beta zeta in *. by bool_to_prop.
Qed.

Lemma bytes_to_hex_read bs :
  hex_pairs (bytes_to_hex bs) = Some bs /\ json_safe (bytes_to_hex bs) /\
  length (bytes_to_hex bs) = (2 * length bs)%nat.
Proof.
  unfold bytes_to_hex, json_safe. induction bs as [|b bs (IH1 & IH2 & IH3)]; [done|].
  destruct (hex_pair b) as (Hh & Hl & Jh & Jl & Hb).
  cbn [map concat app hex_pairs forallb length]. rewrite Hh, Hl, Jh, Jl, IH1, IH2, IH3, Hb. cbn.
  split_and!; [done..|lia].
Qed.

Lemma hex_to_bytes_read bs : hex_to_bytes (bytes_to_hex bs) = Some bs.
Proof.
  destruct (bytes_to_hex_read bs) as (E & _ & Hl). unfold hex_to_bytes, len.
  rewrite Hl, Nat2Z.inj_mul, Z.mul_comm, Z.mod_mul by done. done.
Qed.

(** What the release tool signs and writes, a client reads back with every
    field and accepts the signature, when the texts have no control character
    but backspace, tab, line feed, form feed and carriage return, the file is
    within 64 KiB, and the public key verifies what the private key signs. *)
Theorem signed_manifest_roundtrip sha256 ecdsa_verify ecdsa_sign m m' private_key public_key :
  wf_manifest m -> public_key <> [] ->
  (forall digest s, ecdsa_sign (private_blob_to_import private_key) digest = Some s ->
     length s = 64%nat /\ ecdsa_verify (blob_to_import public_key) digest s = true) ->
  sign_update_manifest sha256 ecdsa_sign m private_key = Some m' ->
  len (export_update_manifest_json m') <= kMaxManifestBytes ->
  import_update_manifest_json (export_update_manifest_json m') = (Some m', verified) /\
  verify_manifest_signature sha256 ecdsa_verify m' public_key = true.
Proof.
  intros Hm Hk Hlaw. unfold sign_update_manifest. case_bool_decide; [done|].
  destruct (sha256 _) as [digest|] eqn:Ed; [|done].
  destruct (ecdsa_sign _ digest) as [s|] eqn:Es; [|done]. intros [= <-] Hlen.
  destruct (Hlaw digest s Es) as [Hs Hv]. destruct (bytes_to_hex_read s) as (_ & Hj & Hl).
  split.
  - apply manifest_roundtrip; [|done]. destruct Hm. by constructor.
  - unfold verify_manifest_signature. cbn [um_signature_hex].
    rewrite !bool_decide_eq_false_2; [|by intros E; rewrite E, Hs in Hl|done].
    rewrite hex_to_bytes_read. unfold len. rewrite Hs. cbn [orb negb].
    match goal with |- context [sha256 ?p] =>
      change p with (build_canonical_manifest_signing_payload m) end.
    by rewrite Ed.
Qed.

(** ** Whatever is read fits the fields *)

Record in_range (m : UpdateManifest) : Prop := {
  ir_schema : um_schema_version m = text "1.0";
  ir_version : wf_version (um_version m);
  ir_min_supported : wf_version (um_min_supported_version m);
  ir_byte_length : u64 (um_byte_length m);
  ir_timestamp : u64 (um_release_timestamp_utc m);
  ir_rollout : u32 (um_rollout_percentage m);
  ir_build : u32 (um_min_windows_build m);
  ir_key_id : u32 (um_key_id m)
}.

Lemma parse_uint64_range s v rest : parse_uint64 s = Some (v, rest) -> u64 v.
Proof.
  unfold parse_uint64. destruct (skip_whitespace s) as [|c t]; [done|].
  destruct (isdigit c); [|done].
  intros (_ & _ & _ & _ & Hv)%digits_loop_inv; unfold u64_max in *; ulia.
Qed.

Lemma parse_uint32_range s v rest : parse_uint32 s = Some (v, rest) -> u32 v.
Proof.
  unfold parse_uint32. destruct (parse_uint64 s) as [[w t]|] eqn:E; [|done].
  apply parse_uint64_range in E. destruct (Z.gtb_spec w u32_max); [done|].
  intros [= -> ->]. unfold u32_max in *. ulia.
Qed.

Lemma version_loop_range parts current h s ps c d :
  Forall u32 parts -> u32 current -> version_loop parts current h s = Some (ps, c, d) ->
  Forall u32 ps /\ u32 c.
Proof.
  revert parts current h. induction s as [|x s IH]; intros parts current h Hp Hc; cbn [version_loop].
  { by intros [= <- <- <-]. }
  destruct (isdigit x) eqn:Hx.
  - destruct (Z.gtb_spec current ((u32_max - (byte_val x - 48)) / 10)) as [|Hle]; [done|].
    apply IH; [done|]. unfold isdigit in Hx. bool_to_prop.
    pose proof (Z.mul_div_le (u32_max - (byte_val x - 48)) 10). unfold u32_max in *. ulia.
  - destruct (bool_decide (x = Byte.x2e)); [|done]. destruct (negb h || (len parts >=? 2)); [done|].
    apply IH; [|ulia]. apply Forall_app. by split; [|constructor].
Qed.

Lemma version_parse_range s v : version_parse s = Some v -> wf_version v.
Proof.
  unfold version_parse. destruct (bool_decide (s = [])); [done|].
  destruct (version_loop [] 0 false s) as [[[ps c] d]|] eqn:E; [|done].
  apply version_loop_range in E as [Hp Hc]; [|done|ulia].
  destruct ps as [|a [|b [|]]]; try done. destruct d; [|done]. intros [= <-].
  unfold wf_version. cbn. by decompose_Forall_hyps.
Qed.

Lemma with_value_inr {A} (value : option (A * bytes)) k r :
  with_value value k = inr r -> exists v rest, value = Some (v, rest) /\ k v rest = inr r.
Proof. destruct value as [[v rest]|]; [|done]. eauto. Qed.

Lemma read_field_range key p s p' s' :
  in_range (pt_manifest p) -> read_field key p s = inr (p', s') -> in_range (pt_manifest p').
Proof.
  intros Hp. unfold read_field. cbv zeta.
  repeat (case_bool_decide; [intros (v & rest & Hv & Hk)%with_value_inr;
    repeat case_match; bool_to_prop; simplify_eq; cbn;
    destruct Hp; constructor; cbn;
    eauto using parse_uint64_range, parse_uint32_range, version_parse_range|]).
  destruct (skip_value s); [by intros [= <- <-]|done].
Qed.

Lemma fields_loop_range fuel p s p' s' :
  in_range (pt_manifest p) -> fields_loop fuel p s = inr (p', s') -> in_range (pt_manifest p').
Proof.
  revert p s. induction fuel as [|fuel IH]; intros p s Hp; [done|]. cbn [fields_loop].
  destruct (match_char Byte.x7d (skip_whitespace s)) as [[] t]; [by intros [= <- <-]|].
  destruct (parse_string t) as [[key t2]|]; [|done].
  destruct (match_char Byte.x3a t2) as [[] t3]; [|done]. cbn [negb].
  destruct (read_field key p t3) as [|[p2 t4]] eqn:E; [done|].
  destruct (after_field t4) as [|t5]; [done|]. apply IH. by eapply read_field_range.
Qed.

Lemma import_range s m r : import_update_manifest_json s = (Some m, r) -> in_range m.
Proof.
  unfold import_update_manifest_json. destruct (_ >? _); [done|].
  destruct (match_char Byte.x7b s) as [[] t]; [|done]. cbn [negb].
  destruct (fields_loop _ _ t) as [|[p t2]] eqn:E; [done|].
  destruct (negb (bool_decide _)); [done|]. destruct (negb _); [done|].
  intros [= <- _]. apply fields_loop_range in E; [done|].
  constructor; cbn; unfold wf_version; cbn; split_and?; ulia || done.
Qed.

(** ** The signed text determines the manifest *)

Definition one_line (s : bytes) : Prop := Byte.x0a ∉ s.

Lemma one_line_app a b : one_line (a ++ b) <-> one_line a /\ one_line b.
Proof. unfold one_line. rewrite elem_of_app. tauto. Qed.

Lemma one_line_test s : forallb (fun c => negb (bool_decide (c = Byte.x0a))) s = true -> one_line s.
Proof.
  unfold one_line. rewrite forallb_forall. intros H Hin. apply list_elem_of_In, H in Hin. by vm_compute in Hin.
Qed.

Lemma plain_one_line s : forallb plain_char s = true -> one_line s.
Proof.
  intros H. apply one_line_test. rewrite forallb_forall in *. intros c Hc%H.
  by destruct (bool_decide_reflect (c = Byte.x0a)) as [->|].
Qed.

(** The first line, and the last ones, of equal texts. *)
Lemma first_line a b r s :
  one_line a -> one_line b -> a ++ newline ++ r = b ++ newline ++ s -> a = b /\ r = s.
Proof.
  unfold one_line, newline. revert b. induction a as [|c a IH]; intros [|d b] Ha Hb E; cbn in E.
  - by simplify_eq.
  - simplify_eq. by destruct Hb; left.
  - simplify_eq. by destruct Ha; left.
  - injection E as -> E. apply IH in E as [-> ->]; [done|intros ?; apply Ha; by right|intros ?; apply Hb; by right].
Qed.

Lemma last_line a b r s :
  one_line a -> one_line b -> r ++ newline ++ a = s ++ newline ++ b -> r = s /\ a = b.
Proof.
  intros Ha Hb E. apply (f_equal reverse) in E. rewrite !reverse_app in E.
  change (reverse newline) with newline in E. rewrite <- !app_assoc in E.
  apply first_line in E as [E1 E2]; [by apply (inj reverse) in E1, E2|..];
    unfold one_line; by rewrite elem_of_reverse.
Qed.

Definition text_lines (ls : list bytes) : bytes := concat (map (fun l => l ++ newline) ls).

Lemma text_lines_app ls l : text_lines (ls ++ [l]) = text_lines ls ++ l ++ newline.
Proof. unfold text_lines. rewrite map_app, concat_app. cbn. by rewrite app_nil_r. Qed.

Lemma text_lines_end a ls : exists t, a ++ newline ++ text_lines ls = t ++ newline.
Proof.
  destruct ls as [|l ls _] using rev_ind; [exists a; done|].
  exists (a ++ newline ++ text_lines ls ++ l). by rewrite text_lines_app, <- !app_assoc.
Qed.

Lemma last_lines a b ls ls' :
  length ls = length ls' -> Forall one_line ls -> Forall one_line ls' ->
  a ++ newline ++ text_lines ls = b ++ newline ++ text_lines ls' -> a = b /\ ls = ls'.
Proof.
  revert a b ls'. induction ls as [|l ls IH] using rev_ind; intros a b ls'.
  { destruct ls'; [|done]. intros _ _ _ E. by apply app_inj_tail in E as [-> _]. }
  destruct ls' as [|l' ls' _] using rev_ind; [rewrite length_app; cbn; lia|].
  rewrite !length_app, !Forall_app, !Forall_singleton, !text_lines_app. cbn [length].
  intros Hlen [Hls Hl] [Hls' Hl'] E. rewrite !app_assoc in E. apply app_inj_tail in E as [E _].
  rewrite <- !app_assoc in E.
  destruct (text_lines_end a ls) as [t Et], (text_lines_end b ls') as [t' Et'].
  assert ((a ++ newline ++ text_lines ls) ++ l = (b ++ newline ++ text_lines ls') ++ l') as E2
    by (rewrite <- !app_assoc; exact E).
  rewrite Et, Et', <- !app_assoc in E2. apply last_line in E2 as [-> ->]; [|done..].
  destruct (IH a b ls') as [-> ->]; [lia|done|done|congruence|done].
Qed.

(** The lines after the URL. *)
Definition tail_lines (m : UpdateManifest) : list bytes :=
  [text "byte_length:" ++ dec (um_byte_length m); text "sha256:" ++ um_sha256_hex m;
   text "channel:" ++ release_channel_text (um_channel m);
   text "timestamp:" ++ dec (um_release_timestamp_utc m);
   text "rollout_percentage:" ++ dec (um_rollout_percentage m);
   text "min_windows_build:" ++ dec (um_min_windows_build m);
   text "requires_reboot:" ++ text (if um_requires_reboot m then "1" else "0");
   text "key_id:" ++ dec (um_key_id m)].

Lemma payload_shape m :
  build_canonical_manifest_signing_payload m =
  (text "schema:" ++ um_schema_version m) ++ newline ++
  (text "role:" ++ package_role_text (um_package_role m)) ++ newline ++
  (text "version:" ++ version_text (um_version m)) ++ newline ++
  (text "min_supported_version:" ++ version_text (um_min_supported_version m)) ++ newline ++
  (text "package_url:" ++ um_package_url m) ++ newline ++ text_lines (tail_lines m).
Proof.
  unfold build_canonical_manifest_signing_payload, line, tail_lines, text_lines.
  cbn [map concat]. by rewrite app_nil_r, <- !app_assoc.
Qed.

Lemma one_line_named name s :
  forallb plain_char (text name) = true -> one_line s -> one_line (text name ++ s).
Proof. intros Hn Hs. apply one_line_app. split; [by apply plain_one_line|done]. Qed.

Lemma dec_one_line n : u64 n -> one_line (dec n).
Proof. intros Hn. by apply plain_one_line, dec_plain. Qed.

Lemma version_one_line v : wf_version v -> one_line (version_text v).
Proof. intros Hv. by apply plain_one_line, version_text_plain. Qed.

Lemma version_text_inj v w : wf_version v -> wf_version w -> version_text v = version_text w -> v = w.
Proof.
  intros Hv Hw E. apply (inj Some). rewrite <- !version_parse_text by done. by rewrite E.
Qed.

Lemma tail_one_line m : in_range m -> one_line (um_sha256_hex m) -> Forall one_line (tail_lines m).
Proof.
  intros [] Hs. unfold tail_lines.
  rewrite !Forall_cons, Forall_nil.
  split_and!; try (apply one_line_named; [by vm_compute|]); auto using dec_one_line, u32_u64;
    apply plain_one_line.
  - by apply release_channel_plain.
  - by destruct (um_requires_reboot m).
Qed.

(** A manifest without its signature. *)
Definition unsigned (m : UpdateManifest) : UpdateManifest := {| m with um_signature_hex := [] |}.

Lemma payload_inj m m' :
  in_range m -> in_range m' -> one_line (um_sha256_hex m) -> one_line (um_sha256_hex m') ->
  build_canonical_manifest_signing_payload m = build_canonical_manifest_signing_payload m' ->
  unsigned m = unsigned m'.
Proof.
  intros Hm Hm' Hs Hs'. pose proof (tail_one_line m Hm Hs) as Ht.
  pose proof (tail_one_line m' Hm' Hs') as Ht'.
  rewrite !payload_shape. destruct Hm, Hm'. intros E.
  apply first_line in E as [_ E]; [|apply one_line_named; [by vm_compute|];
    rewrite ?ir_schema0, ?ir_schema1; by apply plain_one_line..].
  apply first_line in E as [E1 E]; [|apply one_line_named; [by vm_compute|];
    by apply plain_one_line, package_role_plain..].
  apply first_line in E as [E2 E]; [|apply one_line_named; [by vm_compute|]; by apply version_one_line..].
  apply first_line in E as [E3 E]; [|apply one_line_named; [by vm_compute|]; by apply version_one_line..].
  apply last_lines in E as [E4 E]; [|done..].
  apply app_inv_head in E1, E2, E3, E4. apply version_text_inj in E2, E3; [|done..].
  unfold tail_lines in E. injection E. intros Ek Er Eb Eo Et Ec Ed El.
  apply (f_equal parse_package_role) in E1. rewrite !parse_package_role_text in E1.
  apply (f_equal parse_release_channel) in Ec. rewrite !parse_release_channel_text in Ec.
  apply dec_inj in Ek, Eb, Eo, Et, El; [|first [done|by apply u32_u64]..].
  assert (um_requires_reboot m = um_requires_reboot m')
    by (destruct (um_requires_reboot m), (um_requires_reboot m'); done).
  destruct m, m'. unfold unsigned. cbn in *. by simplify_eq.
Qed.

(** ** An accepted update *)

Lemma version_eq_iff a b : version_eq a b = true <-> a = b.
Proof.
  unfold version_eq, version_compare. destruct a as [x y z], b as [x' y' z']. cbn.
  destruct (Z.compare_spec x x'), (Z.compare_spec y y'), (Z.compare_spec z z');
    split; intros; simplify_eq; try lia; done.
Qed.

(** The version order is total. *)
Lemma version_lt_total a b : version_lt a b = false -> version_lt b a = true \/ a = b.
Proof.
  unfold version_lt, version_compare. destruct a as [x y z], b as [x' y' z']. cbn.
  rewrite (Z.compare_antisym x x'), (Z.compare_antisym y y'), (Z.compare_antisym z z').
  destruct (Z.compare_spec x x'), (Z.compare_spec y y'), (Z.compare_spec z z'); cbn; auto;
    intros; subst; auto; done.
Qed.

Lemma version_lt_asym a b : version_lt a b = true -> version_lt b a = true -> False.
Proof.
  unfold version_lt, version_compare. destruct a as [x y z], b as [x' y' z']. cbn.
  rewrite (Z.compare_antisym x x'), (Z.compare_antisym y y'), (Z.compare_antisym z z').
  by destruct (x ?= x'), (y ?= y'), (z ?= z').
Qed.

(** The two version guards. *)
Lemma version_guard v current (allow_same : bool) :
  negb (version_lt v current) && negb (version_eq v current && negb allow_same) = true <->
  version_lt current v = true \/ v = current /\ allow_same = true.
Proof.
  destruct (version_lt v current) eqn:Hlt; cbn [negb andb].
  { split; [done|]. intros [H|[-> _]]; by destruct (version_lt_asym _ _ Hlt ltac:(eassumption)). }
  pose proof (version_eq_iff v current) as He. destruct (version_eq v current); cbn [andb negb].
  - assert (v = current) as -> by by apply He. rewrite Hlt, negb_involutive.
    split; [by right|by intros [|[_ ?]]].
  - split; [intros _|done]. left. destruct (version_lt_total _ _ Hlt) as [|E]; [done|by apply He in E].
Qed.

Section Accepted.
Context (sha256 : bytes -> option bytes) (ecdsa_verify : bytes -> bytes -> bytes -> bool).

Lemma signature_digest m key :
  verify_manifest_signature sha256 ecdsa_verify m key = true ->
  exists digest signature,
    sha256 (build_canonical_manifest_signing_payload m) = Some digest /\
    ecdsa_verify (blob_to_import key) digest signature = true.
Proof.
  unfold verify_manifest_signature. destruct (_ || _); [done|].
  destruct (hex_to_bytes (um_signature_hex m)) as [sig|]; [|done].
  destruct (negb _); [done|]. destruct (sha256 _) as [digest|]; [|done]. eauto.
Qed.

(** What the conditions of an accepted update come to. *)
Definition acceptable (m : UpdateManifest) (env : ClientEnvironment) : Prop :=
  um_package_role m = ce_installed_role env /\
  (version_lt (ce_current_version env) (um_version m) = true \/
   um_version m = ce_current_version env /\ ce_allow_same_version env = true) /\
  version_lt (ce_current_version env) (um_min_supported_version m) = false /\
  um_min_windows_build m <= ce_current_windows_build env /\
  um_rollout_percentage m <= 100 /\
  (um_rollout_percentage m = 100 \/
   exists bucket, compute_canary_bucket sha256 (ce_machine_guid env) = Some bucket /\
     bucket < um_rollout_percentage m) /\
  len (um_sha256_hex m) = 64 /\ forallb isxdigit (um_sha256_hex m) = true /\
  starts_with (text "https://") (um_package_url m) ||
    ce_allow_insecure_http env && starts_with (text "http://") (um_package_url m) = true.

Lemma rollout_check_none m env :
  um_rollout_percentage m <= 100 ->
  rollout_check sha256 m env = None <->
  um_rollout_percentage m = 100 \/
  exists bucket, compute_canary_bucket sha256 (ce_machine_guid env) = Some bucket /\
    bucket < um_rollout_percentage m.
Proof.
  intros Hr. unfold rollout_check. destruct (Z.ltb_spec (um_rollout_percentage m) 100) as [Hlt|];
    [|split; [left; lia|done]].
  destruct (compute_canary_bucket _ _) as [b|];
    [|split; [done|by intros [?|(? & ? & _)]; [lia|]]].
  destruct (Z.geb_spec b (um_rollout_percentage m)) as [Hge|Hb].
  - split; [done|]. intros [?|(? & [= <-] & ?)]; lia.
  - split; [|done]. intros _. right. exists b. split; [done|lia].
Qed.

Lemma rollout_check_error m env r : rollout_check sha256 m env = Some r -> fst r = rollout_deferred.
Proof.
  unfold rollout_check. destruct (_ <? _); [|done].
  destruct (compute_canary_bucket _ _) as [b|]; [destruct (_ >=? _)|]; by intros [= <-].
Qed.

Lemma verified_iff m env key :
  fst (verify_manifest_against_environment sha256 ecdsa_verify m env key) = mv_ok <->
  verify_manifest_signature sha256 ecdsa_verify m key = true /\ acceptable m env.
Proof.
  unfold verify_manifest_against_environment, acceptable.
  destruct (verify_manifest_signature _ _ m key); cbn [negb]; [|split; [done|by intros []]].
  destruct (bool_decide_reflect (um_package_role m = ce_installed_role env)); cbn [negb];
    [|split; [done|tauto]].
  pose proof (version_guard (um_version m) (ce_current_version env) (ce_allow_same_version env)) as Hv.
  destruct (version_lt (um_version m) (ce_current_version env));
    [split; [done|by intros (_ & _ & H & _); apply Hv in H]|].
  destruct (version_eq (um_version m) (ce_current_version env) && negb (ce_allow_same_version env));
    [split; [done|by intros (_ & _ & H & _); apply Hv in H]|].
  assert (Hver := proj1 Hv eq_refl). clear Hv.
  destruct (version_lt (ce_current_version env) (um_min_supported_version m));
    [split; [done|by intros (_ & _ & _ & ? & _)]|].
  destruct (Z.ltb_spec (ce_current_windows_build env) (um_min_windows_build m)) as [|Hb];
    [split; [done|intros (_ & _ & _ & _ & ? & _); lia]|].
  destruct (Z.gtb_spec (um_rollout_percentage m) 100) as [|Hr];
    [split; [done|intros (_ & _ & _ & _ & _ & ? & _); lia]|].
  pose proof (rollout_check_none m env Hr) as Hc.
  destruct (rollout_check sha256 m env) as [r|] eqn:E.
  { pose proof (rollout_check_error _ _ _ E) as Hre. rewrite Hre. split; [done|].
    intros (_ & _ & _ & _ & _ & _ & H & _). by apply Hc in H. }
  destruct (Z.eqb_spec (len (um_sha256_hex m)) 64) as [Hl|]; cbn [negb]; [|split; [done|tauto]].
  destruct (forallb isxdigit (um_sha256_hex m)); cbn [negb];
    [|split; [done|by intros (_ & _ & _ & _ & _ & _ & _ & _ & ? & _)]].
  assert (Hc' := proj1 Hc eq_refl). clear Hc.
  destruct (starts_with (text "https://") (um_package_url m)), (ce_allow_insecure_http env),
    (starts_with (text "http://") (um_package_url m)); cbn;
    first [by split; [intros _; split_and!|]
          | by split; [|intros (_ & _ & _ & _ & _ & _ & _ & _ & _ & ?)]].
Qed.

(** C23. An update that passes was released: whatever text was read, if its
    manifest is accepted with a key under which only digests of released manifests
    verify (ECDSA signatures are not forged), then a released manifest agrees with
    it in every signed field, or the two signed texts, which differ, are a
    collision of SHA-256; and it is for this role, newer than the installed version
    (or equal, when reinstalling is allowed), not for a newer minimum version or
    Windows build, within the rollout, with a well-formed digest and a secure
    URL. *)
Theorem accepted_update_was_released (released : UpdateManifest -> Prop) key json m env :
  (forall m0, released m0 -> in_range m0 /\ one_line (um_sha256_hex m0)) ->
  (forall digest signature, ecdsa_verify (blob_to_import key) digest signature = true ->
     exists m0, released m0 /\ sha256 (build_canonical_manifest_signing_payload m0) = Some digest) ->
  import_update_manifest_json json = (Some m, verified) ->
  fst (verify_manifest_against_environment sha256 ecdsa_verify m env key) = mv_ok ->
  (exists m0, released m0 /\
     (unsigned m0 = unsigned m \/
      let signed := build_canonical_manifest_signing_payload in
      signed m0 <> signed m /\ exists digest, sha256 (signed m0) = Some digest /\
        sha256 (signed m) = Some digest)) /\
  acceptable m env.
Proof.
  intros Hrel Hunforged Him%import_range [Hsig Hok]%verified_iff. split; [|done].
  apply signature_digest in Hsig as (digest & signature & Hd & Hs).
  destruct (Hunforged _ _ Hs) as (m0 & Hm0 & Hd0). exists m0. split; [done|].
  destruct (decide (build_canonical_manifest_signing_payload m0 =
    build_canonical_manifest_signing_payload m)) as [E|Hne]; [left|right; by split; [|exists digest]].
  destruct (Hrel m0 Hm0) as [Hr0 Hl0]. apply payload_inj; [done..| |done].
  destruct Hok as (_ & _ & _ & _ & _ & _ & _ & Hx & _). apply one_line_test.
  rewrite forallb_forall in *. intros c Hc%Hx.
  by destruct (bool_decide_reflect (c = Byte.x0a)) as [->|].
Qed.
End Accepted.

(** ** An example *)

Definition example_manifest : UpdateManifest :=
  {| um_schema_version := text "1.0"; um_package_role := role_client;
     um_version := mkVersion 2 10 3; um_min_supported_version := mkVersion 1 0 0;
     um_package_url := text "https://updates.example/nstu.zip"; um_byte_length := 1048576;
     um_sha256_hex := repeat Byte.x61 64; um_channel := security;
     um_release_timestamp_utc := 1760000000; um_rollout_percentage := 50;
     um_min_windows_build := 17763; um_requires_reboot := false; um_key_id := 7;
     um_signature_hex := repeat Byte.x30 128 |}.

Definition example_environment : ClientEnvironment :=
  mkEnvironment role_client (mkVersion 2 9 0) 19045 [Byte.x09] false false.

Lemma example_wf : wf_manifest example_manifest.
Proof. constructor; try (vm_compute; done); unfold wf_version; cbn; split_and?; ulia. Qed.

Lemma signed_manifest_roundtrip_witness :
  exists m',
    sign_update_manifest Some (fun _ digest => Some (repeat Byte.x5a 64)) example_manifest [Byte.x01] = Some m' /\
    import_update_manifest_json (export_update_manifest_json m') = (Some m', verified) /\
    verify_manifest_signature Some (fun _ _ s => bool_decide (s = repeat Byte.x5a 64)) m' [Byte.x02] = true.
Proof.
  eexists. split; [reflexivity|].
  apply (signed_manifest_roundtrip Some (fun _ _ s => bool_decide (s = repeat Byte.x5a 64))
           (fun _ digest => Some (repeat Byte.x5a 64)) example_manifest _ [Byte.x01] [Byte.x02]).
  - exact example_wf.
  - done.
  - intros digest s [= <-]. split; [done|]. by apply bool_decide_eq_true_2.
  - reflexivity.
  - vm_compute. done.
Defined.

(** A digest of 32 bytes. *)
Definition example_digest (message : bytes) : option bytes :=
  let h := fold_left (fun h b => (h * 257 + byte_val b + 1) mod 2 ^ 256) message 1 in
  Some (map (fun i => byte_of (h / 256 ^ i mod 256)) (seqZ 0 32)).

Definition example_verify (_ digest _ : bytes) : bool :=
  bool_decide (example_digest (build_canonical_manifest_signing_payload example_manifest) = Some digest).

Lemma accepted_update_was_released_witness :
  fst (verify_manifest_against_environment example_digest example_verify example_manifest
         example_environment [Byte.x01]) = mv_ok /\
  (exists m0, m0 = example_manifest /\ unsigned m0 = unsigned example_manifest) /\
  acceptable example_digest example_manifest example_environment.
Proof.
  assert (fst (verify_manifest_against_environment example_digest example_verify example_manifest
            example_environment [Byte.x01]) = mv_ok) as Hok by (vm_compute; reflexivity).
  split; [exact Hok|].
  destruct (accepted_update_was_released example_digest example_verify
    (fun m => m = example_manifest) [Byte.x01] (export_update_manifest_json example_manifest)
    example_manifest example_environment) as [(m0 & Hm & [Hu|[Hne _]]) Ha].
  - intros m0 ->. split; [|by apply one_line_test].
    destruct example_wf. by constructor.
  - intros digest signature H%bool_decide_eq_true_1. exists example_manifest. exact (conj eq_refl H).
  - vm_compute. reflexivity.
  - exact Hok.
  - split; [|exact Ha]. exists m0. exact (conj Hm Hu).
  - destruct Hne. rewrite Hm. reflexivity.
Defined.

(** [escape_json] writes this control character as six characters, which are
    read back as five. *)
Example control_character_lost :
  parse_string (quoted (escape_json [Byte.x01])) = Some (text "u0001", []).
Proof. vm_compute. reflexivity. Qed.

End UpdateManifest.
