(* ===== verification/StagingRecord.v ===== *)
(** The update staging record (common/src/update_staging.cpp): its JSON form is
    written by a template over a sink, once to measure it and once to build the
    text, and read by a strict reader.  UpdateStaging holds the controller that
    keeps the record. *)

From S2P Require Import Prelude Json UpdateManifest.

Module StagingRecord.
Import Json UpdateManifest.

(** ** Data *)

Inductive UpdateState :=
| idle | checking | deferred | downloading | verifying | staged | apply_pending_reboot
| validating | committed | rolling_back | failed.

#[export] Instance update_state_eq_dec : EqDecision UpdateState.
Proof. solve_decision. Defined.

Definition update_state_text (state : UpdateState) : bytes :=
  text (match state with
        | idle => "idle" | checking => "checking" | deferred => "deferred"
        | downloading => "downloading" | verifying => "verifying" | staged => "staged"
        | apply_pending_reboot => "apply_pending_reboot" | validating => "validating"
        | committed => "committed" | rolling_back => "rolling_back" | failed => "failed"
        end).

Definition parse_update_state (str : bytes) : option UpdateState :=
  if bool_decide (str = text "idle") then Some idle
  else if bool_decide (str = text "checking") then Some checking
  else if bool_decide (str = text "deferred") then Some deferred
  else if bool_decide (str = text "downloading") then Some downloading
  else if bool_decide (str = text "verifying") then Some verifying
  else if bool_decide (str = text "staged") then Some staged
  else if bool_decide (str = text "apply_pending_reboot") then Some apply_pending_reboot
  else if bool_decide (str = text "validating") then Some validating
  else if bool_decide (str = text "committed") then Some committed
  else if bool_decide (str = text "rolling_back") then Some rolling_back
  else if bool_decide (str = text "failed") then Some failed
  else None.

Record StagingRecord := mkRecord {
  sr_schema_version : bytes;
  sr_active_version : SemanticVersion;
  sr_target_version : SemanticVersion;
  sr_target_sha256_hex : bytes;
  sr_expected_bytes : Z;
  sr_staged_bytes : Z;
  sr_current_state : UpdateState;
  sr_last_error : bytes;
  sr_state_timestamp_utc : Z;
  sr_requires_reboot : bool;
  sr_backup_path : bytes;
  sr_staged_package_path : bytes
}.

Definition default_record : StagingRecord :=
  mkRecord (text "1.0") (mkVersion 0 0 0) (mkVersion 0 0 0) [] 0 0 idle [] 0 true [] [].

(** ** Writing

    A sink takes text up to the limit of a record. *)

Definition kMaximumStagingRecordBytes : Z := 64 * 1024.

Class Sink (S : Type) := sink_append : S -> bytes -> option S.

Record CappedRecordSize := mkCapped { capped_bytes : Z }.

#[export] Instance capped_sink : Sink CappedRecordSize := fun sink part =>
  if len part >? kMaximumStagingRecordBytes - capped_bytes sink then None
  else Some (mkCapped (capped_bytes sink + len part)).

Record RecordTextSink := mkText { sink_text : bytes }.

#[export] Instance text_sink : Sink RecordTextSink := fun sink part =>
  if len part >? kMaximumStagingRecordBytes - len (sink_text sink) then None
  else Some (mkText (sink_text sink ++ part)).

Section Emit.
Context {S : Type} `{Sink S}.

(** A writer, and one after another ([&&] in the source). *)
Definition Writer : Type := S -> option S.

Definition emit_text (part : bytes) : Writer := fun sink => sink_append sink part.

Definition emit_then (first second : Writer) : Writer := fun sink =>
  match first sink with Some sink => second sink | None => None end.

Fixpoint emit_chars (s : bytes) : Writer :=
  match s with
  | [] => Some
  | c :: s => emit_then (emit_text (escape_char c)) (emit_chars s)
  end.

Definition emit_record_string (s : bytes) : Writer := fun sink =>
  if len s >? kMaximumStagingRecordBytes then None
  else emit_then (emit_text [quote]) (emit_then (emit_chars s) (emit_text [quote])) sink.

Definition emit_record_number (value : Z) : Writer := emit_text (dec value).

Definition emit_record_version (v : SemanticVersion) : Writer :=
  emit_then (emit_text [quote]) (emit_then (emit_record_number (v_major v))
    (emit_then (emit_text (text ".")) (emit_then (emit_record_number (v_minor v))
      (emit_then (emit_text (text ".")) (emit_then (emit_record_number (v_patch v))
        (emit_text [quote])))))).

Definition kStagingRecordFields : list bytes :=
  [text "schema_version"; text "active_version"; text "target_version"; text "target_sha256_hex";
   text "expected_bytes"; text "staged_bytes"; text "current_state"; text "last_error";
   text "state_timestamp_utc"; text "requires_reboot"; text "backup_path"; text "staged_package_path"].

Definition field_name (index : nat) : bytes := nth index kStagingRecordFields [].

Definition emit_record_field (index : nat) (write_value : Writer) (last : bool) : Writer :=
  emit_then (emit_text (text "  " ++ [quote])) (emit_then (emit_text (field_name index))
    (emit_then (emit_text ([quote] ++ text ": ")) (emit_then write_value
      (emit_text (if last then newline else next_member))))).

Definition emit_record (r : StagingRecord) : Writer :=
  emit_then (emit_text (text "{" ++ newline))
  (emit_then (emit_record_field 0 (emit_record_string (sr_schema_version r)) false)
  (emit_then (emit_record_field 1 (emit_record_version (sr_active_version r)) false)
  (emit_then (emit_record_field 2 (emit_record_version (sr_target_version r)) false)
  (emit_then (emit_record_field 3 (emit_record_string (sr_target_sha256_hex r)) false)
  (emit_then (emit_record_field 4 (emit_record_number (sr_expected_bytes r)) false)
  (emit_then (emit_record_field 5 (emit_record_number (sr_staged_bytes r)) false)
  (emit_then (emit_record_field 6 (emit_record_string (update_state_text (sr_current_state r))) false)
  (emit_then (emit_record_field 7 (emit_record_string (sr_last_error r)) false)
  (emit_then (emit_record_field 8 (emit_record_number (sr_state_timestamp_utc r)) false)
  (emit_then (emit_record_field 9 (emit_text (text (if sr_requires_reboot r then "true" else "false"))) false)
  (emit_then (emit_record_field 10 (emit_record_string (sr_backup_path r)) false)
  (emit_then (emit_record_field 11 (emit_record_string (sr_staged_package_path r)) true)
    (emit_text (text "}" ++ newline)))))))))))))).
End Emit.

(** None: [std::length_error] is thrown. *)
Definition export_staging_record_json (r : StagingRecord) : option bytes :=
  match emit_record r (mkCapped 0) with
  | None => None
  | Some _ =>
      match emit_record r (mkText []) with
      | None => None
      | Some sink => Some (sink_text sink)
      end
  end.

(** ** Reading *)

Definition hex_value (c : byte) : option Z :=
  let v := byte_val c in
  if (48 <=? v) && (v <=? 57) then Some (v - 48)
  else if (97 <=? v) && (v <=? 102) then Some (v - 97 + 10)
  else if (65 <=? v) && (v <=? 70) then Some (v - 65 + 10)
  else None.

Fixpoint read_hex (digits : nat) (value : Z) (input : bytes) : option (Z * bytes) :=
  match digits with
  | O => Some (value, input)
  | S digits =>
      match input with
      | [] => None
      | c :: rest =>
          match hex_value c with
          | Some digit => read_hex digits (value * 16 + digit) rest
          | None => None
          end
      end
  end.

Definition read_hex_quad (input : bytes) : option (Z * bytes) := read_hex 4 0 input.

Definition append_utf8 (codepoint : Z) : bytes :=
  if codepoint <=? 0x7f then [byte_of codepoint]
  else if codepoint <=? 0x7ff then
    [byte_of (Z.lor 0xc0 (Z.shiftr codepoint 6)); byte_of (Z.lor 0x80 (Z.land codepoint 0x3f))]
  else if codepoint <=? 0xffff then
    [byte_of (Z.lor 0xe0 (Z.shiftr codepoint 12));
     byte_of (Z.lor 0x80 (Z.land (Z.shiftr codepoint 6) 0x3f));
     byte_of (Z.lor 0x80 (Z.land codepoint 0x3f))]
  else
    [byte_of (Z.lor 0xf0 (Z.shiftr codepoint 18));
     byte_of (Z.lor 0x80 (Z.land (Z.shiftr codepoint 12) 0x3f));
     byte_of (Z.lor 0x80 (Z.land (Z.shiftr codepoint 6) 0x3f));
     byte_of (Z.lor 0x80 (Z.land codepoint 0x3f))].

(** The escape after a backslash-u. *)
Definition read_unicode (input : bytes) : option (bytes * bytes) :=
  match read_hex_quad input with
  | None => None
  | Some (codepoint, rest) =>
      if (0xd800 <=? codepoint) && (codepoint <=? 0xdbff) then
        if negb (bool_decide (take 2 rest = [backslash; Byte.x75])) then None
        else
          match read_hex_quad (drop 2 rest) with
          | None => None
          | Some (low, rest) =>
              if (low <? 0xdc00) || (low >? 0xdfff) then None
              else Some (append_utf8 (0x10000 + (codepoint - 0xd800) * 0x400 + low - 0xdc00), rest)
          end
      else if (0xdc00 <=? codepoint) && (codepoint <=? 0xdfff) then None
      else Some (append_utf8 codepoint, rest)
  end.

(** What an escape stands for. *)
Definition read_escape (input : bytes) : option (bytes * bytes) :=
  match input with
  | [] => None
  | c :: rest =>
      match c with
      | Byte.x22 | Byte.x5c | Byte.x2f => Some ([c], rest)
      | Byte.x62 => Some ([Byte.x08], rest)
      | Byte.x66 => Some ([Byte.x0c], rest)
      | Byte.x6e => Some ([Byte.x0a], rest)
      | Byte.x72 => Some ([Byte.x0d], rest)
      | Byte.x74 => Some ([Byte.x09], rest)
      | Byte.x75 => read_unicode rest
      | _ => None
      end
  end.

(** Every turn reads at least one character. *)
Fixpoint strict_body (fuel : nat) (out input : bytes) : option (bytes * bytes) :=
  match fuel, input with
  | S fuel', c :: rest =>
      if bool_decide (c = quote) then Some (out, rest)
      else if byte_val c <? 0x20 then None
      else if bool_decide (c = backslash) then
        match read_escape rest with
        | Some (cs, rest) => strict_body fuel' (out ++ cs) rest
        | None => None
        end
      else strict_body fuel' (out ++ [c]) rest
  | _, _ => None
  end.

Definition strict_string (input : bytes) : option (bytes * bytes) :=
  match skip_whitespace input with
  | c :: rest => if bool_decide (c = quote) then strict_body (S (length rest)) [] rest else None
  | [] => None
  end.

Definition strict_uint64 (input : bytes) : option (Z * bytes) :=
  match skip_whitespace input with
  | c :: rest =>
      if isdigit c then
        if bool_decide (c = Byte.x30) && match rest with d :: _ => isdigit d | [] => false end then None
        else digits_loop u64_max 0 (c :: rest)
      else None
  | [] => None
  end.

Definition read_text {A} (input : bytes) (parse : bytes -> option A) (k : A -> StagingRecord) :
    option (StagingRecord * bytes) :=
  match strict_string input with
  | Some (s, rest) => match parse s with Some v => Some (k v, rest) | None => None end
  | None => None
  end.

Definition read_number (input : bytes) (k : Z -> StagingRecord) : option (StagingRecord * bytes) :=
  match strict_uint64 input with Some (v, rest) => Some (k v, rest) | None => None end.

Definition read_record_field (key : bytes) (r : StagingRecord) (input : bytes) :
    option (StagingRecord * bytes) :=
  if bool_decide (key = text "schema_version") then
    read_text input Some (fun v => {| r with sr_schema_version := v |})
  else if bool_decide (key = text "active_version") then
    read_text input version_parse (fun v => {| r with sr_active_version := v |})
  else if bool_decide (key = text "target_version") then
    read_text input version_parse (fun v => {| r with sr_target_version := v |})
  else if bool_decide (key = text "target_sha256_hex") then
    read_text input Some (fun v => {| r with sr_target_sha256_hex := v |})
  else if bool_decide (key = text "expected_bytes") then
    read_number input (fun v => {| r with sr_expected_bytes := v |})
  else if bool_decide (key = text "staged_bytes") then
    read_number input (fun v => {| r with sr_staged_bytes := v |})
  else if bool_decide (key = text "current_state") then
    read_text input parse_update_state (fun v => {| r with sr_current_state := v |})
  else if bool_decide (key = text "last_error") then
    read_text input Some (fun v => {| r with sr_last_error := v |})
  else if bool_decide (key = text "state_timestamp_utc") then
    read_number input (fun v => {| r with sr_state_timestamp_utc := v |})
  else if bool_decide (key = text "requires_reboot") then
    match parse_bool input with
    | Some (v, rest) => Some ({| r with sr_requires_reboot := v |}, rest)
    | None => None
    end
  else if bool_decide (key = text "backup_path") then
    read_text input Some (fun v => {| r with sr_backup_path := v |})
  else if bool_decide (key = text "staged_package_path") then
    read_text input Some (fun v => {| r with sr_staged_package_path := v |})
  else Some (r, input).

(** The position of a key among the fields, 12 for none. *)
Fixpoint find_index (fields : list bytes) (key : bytes) : nat :=
  match fields with
  | [] => 0
  | f :: fields => if bool_decide (f = key) then 0 else S (find_index fields key)
  end.

(** [seen] is a 16-bit mask.  A turn reads at least the two quotes of a key. *)
Fixpoint record_loop (fuel : nat) (r : StagingRecord) (seen : Z) (input : bytes) :
    option (StagingRecord * Z * bytes) :=
  match fuel with
  | O => None
  | S fuel' =>
      let '(closed, s) := match_char Byte.x7d (skip_whitespace input) in
      if closed then Some (r, seen, s)
      else
        match strict_string s with
        | None => None
        | Some (key, s) =>
            let '(colon, s) := match_char Byte.x3a s in
            if negb colon then None
            else
              let index := find_index kStagingRecordFields key in
              if (index =? length kStagingRecordFields)%nat then None
              else
                let bit := Z.shiftl 1 (Z.of_nat index) in
                if negb (Z.land seen bit =? 0) then None
                else
                  match read_record_field key r s with
                  | None => None
                  | Some (r, s) =>
                      let seen := Z.lor seen bit in
                      let '(comma, s) := match_char Byte.x2c (skip_whitespace s) in
                      if comma then
                        let s := skip_whitespace s in
                        match s with
                        | c :: _ => if bool_decide (c = Byte.x7d) then None else record_loop fuel' r seen s
                        | [] => record_loop fuel' r seen s
                        end
                      else
                        let '(closed, s) := match_char Byte.x7d s in
                        if closed then Some (r, seen, s) else None
                  end
        end
  end.

Definition required : Z := Z.shiftl 1 (len kStagingRecordFields) - 1.

Definition import_staging_record_json (json_str : bytes) : option StagingRecord :=
  if bool_decide (json_str = []) || (len json_str >? kMaximumStagingRecordBytes) then None
  else
    let '(opened, s) := match_char Byte.x7b json_str in
    if negb opened then None
    else
      match record_loop (S (length s)) default_record 0 s with
      | None => None
      | Some (r, seen, s) =>
          if negb (bool_decide (skip_whitespace s = [])) then None
          else if negb (seen =? required) || negb (bool_decide (sr_schema_version r = text "1.0")) ||
                  (sr_staged_bytes r >? sr_expected_bytes r) then None
          else Some r
      end.

(** ** What the writers write *)

Class SinkLaws (S : Type) `{Sink S} := {
  sink_size : S -> Z;
  append_nil sink : sink_size sink <= kMaximumStagingRecordBytes -> sink_append sink [] = Some sink;
  append_app sink x y :
    match sink_append sink x with Some sink => sink_append sink y | None => None end =
    sink_append sink (x ++ y);
  append_some sink x sink' :
    sink_append sink x = Some sink' ->
    sink_size sink' = sink_size sink + len x /\ sink_size sink' <= kMaximumStagingRecordBytes;
  append_none sink x :
    sink_append sink x = None <-> kMaximumStagingRecordBytes - sink_size sink < len x
}.

#[export] Program Instance capped_laws : SinkLaws CappedRecordSize := {| sink_size := capped_bytes |}.
Next Obligation.
  intros [n] Hn. unfold sink_append, capped_sink. cbn in *. change (len []) with 0.
  destruct (Z.gtb_spec 0 (kMaximumStagingRecordBytes - n)); [lia|]. by rewrite Z.add_0_r.
Qed.
Next Obligation.
  intros [n] x y. unfold sink_append, capped_sink. cbn. rewrite len_app.
  destruct (Z.gtb_spec (len x) (kMaximumStagingRecordBytes - n)); cbn;
    repeat case_match; bool_to_prop; try done; try (f_equal; f_equal; lia); pose proof (len_nonneg y); lia.
Qed.
Next Obligation.
  intros [n] x [n']. unfold sink_append, capped_sink. cbn.
  destruct (Z.gtb_spec (len x) (kMaximumStagingRecordBytes - n)); [done|]. intros [= <-]. lia.
Qed.
Next Obligation.
  intros [n] x. unfold sink_append, capped_sink. cbn.
  destruct (Z.gtb_spec (len x) (kMaximumStagingRecordBytes - n)); split; intros; done || lia.
Qed.

#[export] Program Instance text_laws : SinkLaws RecordTextSink :=
  {| sink_size := fun sink => len (sink_text sink) |}.
Next Obligation.
  intros [t] Hn. unfold sink_append, text_sink. cbn in *. change (len []) with 0.
  destruct (Z.gtb_spec 0 (kMaximumStagingRecordBytes - len t)); [lia|]. by rewrite app_nil_r.
Qed.
Next Obligation.
  intros [t] x y. unfold sink_append, text_sink. cbn. rewrite len_app.
  destruct (Z.gtb_spec (len x) (kMaximumStagingRecordBytes - len t)); cbn; rewrite ?len_app, ?app_assoc;
    repeat case_match; bool_to_prop; try done; pose proof (len_nonneg y); lia.
Qed.
Next Obligation.
  intros [t] x [t']. unfold sink_append, text_sink. cbn.
  destruct (Z.gtb_spec (len x) (kMaximumStagingRecordBytes - len t)); [done|]. intros [= <-].
  rewrite len_app. lia.
Qed.
Next Obligation.
  intros [t] x. unfold sink_append, text_sink. cbn.
  destruct (Z.gtb_spec (len x) (kMaximumStagingRecordBytes - len t)); split; intros; done || lia.
Qed.

Section Writes.
Context {S : Type} `{SinkLaws S}.

(** A writer that appends [x]. *)
Definition writes (w : Writer) (x : bytes) : Prop :=
  forall sink : S, 0 <= sink_size sink <= kMaximumStagingRecordBytes -> w sink = sink_append sink x.

Lemma writes_text x : writes (emit_text x) x.
Proof. done. Qed.

Lemma writes_then w1 w2 x y : writes w1 x -> writes w2 y -> writes (emit_then w1 w2) (x ++ y).
Proof.
  intros H1 H2 sink Hs. unfold emit_then. rewrite H1, <- append_app by done.
  destruct (sink_append sink x) as [sink'|] eqn:E; [|done].
  apply append_some in E. pose proof (len_nonneg x). apply H2. lia.
Qed.

Lemma writes_chars s : writes (emit_chars s) (escape_json s).
Proof.
  induction s as [|c s IH]; cbn [emit_chars].
  - intros sink Hs. symmetry. apply append_nil. lia.
  - apply writes_then; [apply writes_text|exact IH].
Qed.

Lemma escape_char_nonempty c : escape_char c <> [].
Proof.
  pose proof (byte_forall (fun c => negb (bool_decide (escape_char c = [])))) as E.
  specialize (E ltac:(vm_compute; reflexivity) c). cbv beta in E. by bool_to_prop.
Qed.

Lemma escape_json_len s : (length s <= length (escape_json s))%nat.
Proof.
  unfold escape_json. induction s as [|c s IH]; [done|]. cbn [map concat length]. rewrite length_app.
  pose proof (escape_char_nonempty c). destruct (escape_char c); [done|]. cbn [length]. lia.
Qed.

Lemma writes_string s : writes (emit_record_string s) (quoted (escape_json s)).
Proof.
  intros sink Hs. unfold emit_record_string.
  destruct (Z.gtb_spec (len s) kMaximumStagingRecordBytes).
  - symmetry. apply append_none. unfold quoted, len in *. rewrite !length_app. cbn [length].
    pose proof (escape_json_len s). lia.
  - apply (writes_then _ _ [quote]); [apply writes_text| |done].
    apply writes_then; [apply writes_chars|apply writes_text].
Qed.

Lemma writes_number n : writes (emit_record_number n) (dec n).
Proof. apply writes_text. Qed.

Lemma writes_version v : writes (emit_record_version v) (quoted (version_text v)).
Proof.
  unfold emit_record_version, quoted, version_text. rewrite <- !app_assoc.
  repeat (apply writes_then; [apply writes_text|]). apply writes_text.
Qed.

Lemma writes_field index w x (last : bool) rest y :
  writes w x -> writes rest y ->
  writes (emit_then (emit_record_field index w last) rest)
    (json_member (field_name index) x ++ (if last then newline else next_member) ++ y).
Proof.
  intros Hw Hr. rewrite app_assoc. apply writes_then; [|done].
  unfold emit_record_field, json_member. rewrite <- !app_assoc, (app_assoc (text "  ")).
  apply writes_then; [apply writes_text|]. apply writes_then; [apply writes_text|].
  rewrite app_assoc. apply writes_then; [apply writes_text|].
  apply writes_then; [exact Hw|apply writes_text].
Qed.
End Writes.

(** The text of a record. *)
Definition record_json (r : StagingRecord) : bytes :=
  text "{" ++ newline ++
  json_member (text "schema_version") (quoted (escape_json (sr_schema_version r))) ++ next_member ++
  json_member (text "active_version") (quoted (version_text (sr_active_version r))) ++ next_member ++
  json_member (text "target_version") (quoted (version_text (sr_target_version r))) ++ next_member ++
  json_member (text "target_sha256_hex") (quoted (escape_json (sr_target_sha256_hex r))) ++ next_member ++
  json_member (text "expected_bytes") (dec (sr_expected_bytes r)) ++ next_member ++
  json_member (text "staged_bytes") (dec (sr_staged_bytes r)) ++ next_member ++
  json_member (text "current_state") (quoted (escape_json (update_state_text (sr_current_state r)))) ++
    next_member ++
  json_member (text "last_error") (quoted (escape_json (sr_last_error r))) ++ next_member ++
  json_member (text "state_timestamp_utc") (dec (sr_state_timestamp_utc r)) ++ next_member ++
  json_member (text "requires_reboot") (text (if sr_requires_reboot r then "true" else "false")) ++
    next_member ++
  json_member (text "backup_path") (quoted (escape_json (sr_backup_path r))) ++ next_member ++
  json_member (text "staged_package_path") (quoted (escape_json (sr_staged_package_path r))) ++ newline ++
  text "}" ++ newline.

Lemma writes_record {S} `{SinkLaws S} r : writes (emit_record r) (record_json r).
Proof.
  unfold emit_record, record_json. rewrite (app_assoc (text "{")).
  apply writes_then; [apply writes_text|].
  repeat (apply writes_field; [first [apply writes_string | apply writes_version | apply writes_number
                                     | apply writes_text]|]).
  apply writes_text.
Qed.

(** Both passes take the same texts: the second never fails after the first. *)
Lemma export_spec r :
  export_staging_record_json r =
  if len (record_json r) >? kMaximumStagingRecordBytes then None else Some (record_json r).
Proof.
  unfold export_staging_record_json. rewrite !writes_record by (by cbn).
  unfold sink_append, capped_sink, text_sink. cbn [capped_bytes sink_text].
  change (len []) with 0. rewrite !Z.sub_0_r. by destruct (_ >? _).
Qed.

(** ** Reading a record back *)

Definition controls : bytes := Eval vm_compute in quote :: backslash :: map byte_of (seqZ 0 32).

Lemma escaped_or_plain c : In c controls \/ (plain_char c = true /\ escape_char c = [c]).
Proof.
  pose proof (byte_forall (fun c => bool_decide (c ∈ controls) ||
    (plain_char c && bool_decide (escape_char c = [c])))) as E.
  specialize (E ltac:(vm_compute; reflexivity) c). cbv beta in E. apply orb_true_iff in E as [E|E].
  - left. apply bool_decide_eq_true in E. by apply list_elem_of_In.
  - right. by bool_to_prop.
Qed.

(** The control characters are read back by their numbers. *)
Lemma read_escaped c rest :
  In c controls ->
  escape_char c = backslash :: drop 1 (escape_char c) /\
  read_escape (drop 1 (escape_char c) ++ rest) = Some ([c], rest).
Proof.
  unfold controls. cbn [In]. intros Hc.
  repeat (destruct Hc as [<-|Hc]; [split; vm_compute; reflexivity|]). done.
Qed.

Lemma strict_char fuel out c rest :
  strict_body (S fuel) out (escape_char c ++ rest) = strict_body fuel (out ++ [c]) rest.
Proof.
  destruct (escaped_or_plain c) as [Hc|[Hc ->]].
  - destruct (read_escaped c rest Hc) as [E Hr]. rewrite E. cbn [app strict_body].
    change (byte_val backslash <? 0x20) with false. cbv iota.
    rewrite bool_decide_eq_false_2, bool_decide_eq_true_2 by done. by rewrite Hr.
  - unfold plain_char in Hc. bool_to_prop. cbn [app strict_body].
    rewrite bool_decide_eq_false_2 by tauto.
    destruct (Z.ltb_spec (byte_val c) 0x20); [lia|]. by rewrite bool_decide_eq_false_2 by tauto.
Qed.

Lemma strict_body_read fuel out s rest :
  (length s < fuel)%nat ->
  strict_body fuel out (escape_json s ++ quote :: rest) = Some (out ++ s, rest).
Proof.
  unfold escape_json. revert fuel out. induction s as [|c s IH]; intros fuel out Hf; cbn [length] in Hf.
  - destruct fuel as [|fuel]; [lia|]. cbn [map concat app strict_body].
    by rewrite bool_decide_eq_true_2, app_nil_r by done.
  - destruct fuel as [|fuel]; [lia|]. cbn [map concat]. rewrite <- app_assoc, strict_char, IH by lia.
    by rewrite <- app_assoc.
Qed.

Lemma strict_string_read w s rest :
  forallb is_white w = true -> strict_string (w ++ quoted (escape_json s) ++ rest) = Some (s, rest).
Proof.
  intros Hw. unfold strict_string, quoted. rewrite skip_white by done. rewrite <- !app_assoc.
  change ([quote] ++ escape_json s ++ [quote] ++ rest) with (quote :: escape_json s ++ quote :: rest).
  cbn [skip_whitespace]. change (is_white quote) with false. cbv iota.
  rewrite bool_decide_eq_true_2 by done. apply strict_body_read.
  rewrite length_app. cbn [length]. pose proof (escape_json_len s). lia.
Qed.

Lemma strict_string_plain w s rest :
  forallb is_white w = true -> forallb plain_char s = true ->
  strict_string (w ++ quoted s ++ rest) = Some (s, rest).
Proof.
  intros Hw Hs. destruct (escape_json_plain s Hs) as [E _]. rewrite <- E at 1.
  by apply strict_string_read.
Qed.

Lemma strict_uint64_read n rest :
  u64 n -> ends_number rest -> strict_uint64 (blank ++ dec n ++ rest) = Some (n, rest).
Proof.
  intros Hn Hr. destruct (dec_spec n Hn) as (c & ds & E & Hd & Hv & Hz).
  unfold strict_uint64. rewrite skip_white by done. rewrite E in Hd |- *. cbn [app].
  pose proof Hd as Hc. cbn in Hc. apply andb_true_iff in Hc as [Hc _].
  cbn [skip_whitespace]. rewrite (digit_not_white c Hc), Hc.
  assert (Hlead : bool_decide (c = Byte.x30) &&
    match ds ++ rest with d :: _ => isdigit d | [] => false end = false).
  { destruct (bool_decide_reflect (c = Byte.x30)) as [->|]; [|done].
    rewrite Hz in E by (by rewrite <- (byte_of_val Byte.x30)).
    assert (ds = []) as -> by (by vm_compute in E; injection E). cbn.
    destruct rest as [|d rest]; [done|exact Hr]. }
  rewrite Hlead. change (c :: ds ++ rest) with ((c :: ds) ++ rest).
  rewrite digits_loop_read; [by rewrite <- E, Hv|done|done|rewrite <- E, Hv; unfold u64_max; ulia|done].
Qed.

Lemma update_state_read state :
  parse_update_state (update_state_text state) = Some state /\
  escape_json (update_state_text state) = update_state_text state.
Proof. by destruct state. Qed.

(** What a record can hold: the ranges of its types, and what the reader asks for. *)
Record wf_record (r : StagingRecord) : Prop := {
  wr_schema : sr_schema_version r = text "1.0";
  wr_active : wf_version (sr_active_version r);
  wr_target : wf_version (sr_target_version r);
  wr_expected : u64 (sr_expected_bytes r);
  wr_staged : u64 (sr_staged_bytes r);
  wr_order : sr_staged_bytes r <= sr_expected_bytes r;
  wr_timestamp : u64 (sr_state_timestamp_utc r)
}.

(** Where the reading goes on after a field. *)
Definition after_record_field (fuel : nat) (r : StagingRecord) (seen : Z) (s : bytes) :
    option (StagingRecord * Z * bytes) :=
  let '(comma, s) := match_char Byte.x2c (skip_whitespace s) in
  if comma then
    let s := skip_whitespace s in
    match s with
    | c :: _ => if bool_decide (c = Byte.x7d) then None else record_loop fuel r seen s
    | [] => record_loop fuel r seen s
    end
  else
    let '(closed, s) := match_char Byte.x7d s in
    if closed then Some (r, seen, s) else None.

Lemma record_member fuel r r' seen index value sep tail :
  (index < 12)%nat -> Z.land seen (Z.shiftl 1 (Z.of_nat index)) = 0 ->
  read_record_field (field_name index) r (blank ++ value ++ sep ++ tail) = Some (r', sep ++ tail) ->
  record_loop (S fuel) r seen (json_member (field_name index) value ++ sep ++ tail) =
  after_record_field fuel r' (Z.lor seen (Z.shiftl 1 (Z.of_nat index))) (sep ++ tail).
Proof.
  intros Hi Hseen Hr. unfold json_member. cbn [record_loop].
  set (key := field_name index) in *.
  assert (Hkey : forallb plain_char key = true /\ find_index kStagingRecordFields key = index).
  { subst key. clear Hr Hseen.
    do 12 (destruct index as [|index]; [vm_compute; by split|]). lia. }
  destruct Hkey as [Hk Hx].
  assert (Hs : skip_whitespace ((text "  " ++ [quote] ++ key ++ [quote] ++ text ": " ++ value) ++ sep ++ tail) =
    quoted key ++ text ": " ++ value ++ sep ++ tail).
  { unfold quoted. rewrite <- !app_assoc. done. }
  rewrite Hs.
  change (quoted key ++ text ": " ++ value ++ sep ++ tail) with
    (quote :: (key ++ [quote]) ++ text ": " ++ value ++ sep ++ tail).
  rewrite match_char_other by done.
  change (quote :: (key ++ [quote]) ++ text ": " ++ value ++ sep ++ tail) with
    ([] ++ quoted key ++ text ": " ++ value ++ sep ++ tail).
  rewrite strict_string_plain by done.
  change (text ": " ++ value ++ sep ++ tail) with (Byte.x3a :: blank ++ value ++ sep ++ tail).
  rewrite match_char_same by done. cbn [negb]. rewrite Hx.
  destruct (Nat.eqb_spec index (length kStagingRecordFields)) as [E|];
    [change (length kStagingRecordFields) with 12%nat in E; lia|].
  rewrite Hseen. change (0 =? 0) with true. cbn [negb]. rewrite Hr. done.
Qed.

Lemma record_loop_skip fuel r seen s :
  record_loop fuel r seen (skip_whitespace s) = record_loop fuel r seen s.
Proof. destruct fuel; [done|]. cbn [record_loop]. by rewrite skip_idem. Qed.

Lemma after_record_field_next fuel r seen key value tail :
  after_record_field fuel r seen (next_member ++ json_member key value ++ tail) =
  record_loop fuel r seen (json_member key value ++ tail).
Proof.
  rewrite <- (record_loop_skip _ _ _ (json_member key value ++ tail)).
  by unfold after_record_field, json_member.
Qed.

Lemma after_record_field_last fuel r seen :
  after_record_field fuel r seen (newline ++ text "}" ++ newline) = Some (r, seen, newline).
Proof. done. Qed.

Ltac pick_record_field :=
  change (field_name ?i) with (nth i kStagingRecordFields []); cbn [nth kStagingRecordFields];
  unfold read_record_field; repeat rewrite bool_decide_eq_false_2 by (vm_compute; congruence);
  rewrite bool_decide_eq_true_2 by done.

Lemma read_text_escaped {A} (s : bytes) rest (parse : bytes -> option A) k v :
  parse s = Some v -> read_text (blank ++ quoted (escape_json s) ++ rest) parse k = Some (k v, rest).
Proof. intros E. unfold read_text. by rewrite strict_string_read, E by done. Qed.

Lemma read_text_version (v : SemanticVersion) rest k :
  wf_version v ->
  read_text (blank ++ quoted (version_text v) ++ rest) version_parse k = Some (k v, rest).
Proof.
  intros Hv. unfold read_text. rewrite strict_string_plain by (try done; by apply version_text_plain).
  by rewrite version_parse_text.
Qed.

Lemma read_number_dec n rest k :
  u64 n -> ends_number rest -> read_number (blank ++ dec n ++ rest) k = Some (k n, rest).
Proof. intros Hn Hr. unfold read_number. by rewrite strict_uint64_read. Qed.

Lemma read_flag (b : bool) rest :
  parse_bool (blank ++ text (if b then "true" else "false") ++ rest) = Some (b, rest).
Proof. by destruct b. Qed.

Ltac read_record_value :=
  first [ rewrite (read_text_escaped _ _ _ _ _ (proj1 (update_state_read _)))
        | rewrite (read_text_escaped _ _ Some _ _ eq_refl)
        | rewrite read_text_version by done
        | rewrite read_number_dec by first [apply digits_end | done]
        | rewrite read_flag ]; reflexivity.

(** The member at [index] is read into the record. *)
Ltac read_record_member index :=
  erewrite (record_member _ _ _ _ index);
    [ | lia | vm_compute; reflexivity | pick_record_field; read_record_value ];
    rewrite ?after_record_field_next;
    cbn [sr_schema_version sr_active_version sr_target_version sr_target_sha256_hex sr_expected_bytes
         sr_staged_bytes sr_current_state sr_last_error sr_state_timestamp_utc sr_requires_reboot
         sr_backup_path sr_staged_package_path].

Lemma record_read r :
  wf_record r ->
  let s := drop 1 (record_json r) in
  record_loop (S (length s)) default_record 0 s = Some (r, required, newline).
Proof.
  intros []. unfold record_json. change (drop 1 (text "{" ++ ?s)) with s. cbv zeta.
  match goal with |- context [record_loop (S (length ?s))] =>
    change (S (length s)) with (13 + (length (drop 12 s)))%nat end.
  cbn [Nat.add]. rewrite <- record_loop_skip, skip_white, record_loop_skip by done.
  read_record_member 0%nat. read_record_member 1%nat. read_record_member 2%nat.
  read_record_member 3%nat. read_record_member 4%nat. read_record_member 5%nat.
  read_record_member 6%nat. read_record_member 7%nat. read_record_member 8%nat.
  read_record_member 9%nat. read_record_member 10%nat. read_record_member 11%nat.
  rewrite after_record_field_last. by destruct r.
Qed.

(** Every well-formed record, with any bytes in its texts, is either too long
    to be written or is written and read back unchanged. *)
Theorem record_roundtrip r :
  wf_record r ->
  if len (record_json r) >? kMaximumStagingRecordBytes then export_staging_record_json r = None
  else exists json, export_staging_record_json r = Some json /\ import_staging_record_json json = Some r.
Proof.
  intros Hr. rewrite export_spec. destruct (_ >? _) eqn:E; [done|]. exists (record_json r). split; [done|].
  unfold import_staging_record_json. rewrite E, bool_decide_eq_false_2 by done. cbn [orb].
  change (match_char Byte.x7b (record_json r)) with (true, drop 1 (record_json r)). cbn [negb].
  pose proof (record_read r Hr) as Hread. cbv zeta in Hread. rewrite Hread.
  destruct Hr. rewrite !bool_decide_eq_true_2 by done.
  change (required =? required) with true. cbn [negb orb].
  destruct (Z.gtb_spec (sr_staged_bytes r) (sr_expected_bytes r)); [lia|done].
Qed.

(** ** Whatever is read is well-formed *)

(** All but the schema and the order of the byte counts. *)
Definition fields_in_range (r : StagingRecord) : Prop :=
  wf_version (sr_active_version r) /\ wf_version (sr_target_version r) /\
  u64 (sr_expected_bytes r) /\ u64 (sr_staged_bytes r) /\ u64 (sr_state_timestamp_utc r).

Lemma strict_uint64_range s v rest : strict_uint64 s = Some (v, rest) -> u64 v.
Proof.
  unfold strict_uint64. destruct (skip_whitespace s) as [|c t]; [done|].
  destruct (isdigit c); [|done]. destruct (_ && _); [done|].
  intros (_ & _ & _ & _ & Hv)%digits_loop_inv; unfold u64_max in *; ulia.
Qed.

Lemma read_record_field_range key r s r' s' :
  fields_in_range r -> read_record_field key r s = Some (r', s') -> fields_in_range r'.
Proof.
  unfold fields_in_range. intros (? & ? & ? & ? & ?). unfold read_record_field, read_text, read_number.
  repeat (case_bool_decide; [repeat case_match; intros; simplify_eq; cbn;
    split_and!; eauto using strict_uint64_range, version_parse_range|]).
  intros [= <- <-]. by split_and!.
Qed.

Lemma record_loop_range fuel r seen s r' seen' s' :
  fields_in_range r -> record_loop fuel r seen s = Some (r', seen', s') -> fields_in_range r'.
Proof.
  revert r seen s. induction fuel as [|fuel IH]; intros r seen s Hr; [done|]. cbn [record_loop].
  destruct (match_char Byte.x7d (skip_whitespace s)) as [[] t]; [by intros [= <- _ _]|].
  destruct (strict_string t) as [[key t2]|]; [|done].
  destruct (match_char Byte.x3a t2) as [[] t3]; [|done]. cbn [negb].
  destruct (_ =? _)%nat; [done|]. destruct (negb _); [done|].
  destruct (read_record_field key r t3) as [[r2 t4]|] eqn:E; [|done].
  apply read_record_field_range in E; [|done].
  destruct (match_char Byte.x2c (skip_whitespace t4)) as [[] t5].
  - destruct (skip_whitespace t5) as [|c t6]; [by apply IH|].
    destruct (bool_decide (c = Byte.x7d)); [done|by apply IH].
  - destruct (match_char Byte.x7d t5) as [[] t6]; [by intros [= <- _ _]|done].
Qed.

(** Whatever text it is given, the reader returns only well-formed records. *)
Theorem imported_record_wf json r : import_staging_record_json json = Some r -> wf_record r.
Proof.
  unfold import_staging_record_json. destruct (_ || _); [done|].
  destruct (match_char Byte.x7b json) as [[] s]; [|done]. cbn [negb].
  destruct (record_loop _ default_record 0 s) as [[[r' seen] s']|] eqn:E; [|done].
  destruct (negb (bool_decide (skip_whitespace s' = []))); [done|].
  destruct (negb (seen =? required)); [done|]. cbn [orb].
  destruct (bool_decide_reflect (sr_schema_version r' = text "1.0")); [|done]. cbn [negb orb].
  destruct (Z.gtb_spec (sr_staged_bytes r') (sr_expected_bytes r')); [done|]. intros [= <-].
  apply record_loop_range in E as (? & ? & ? & ? & ?); [by constructor|].
  unfold fields_in_range, wf_version. cbn. split_and!; ulia.
Qed.

(** ** An example *)

Definition example_record : StagingRecord :=
  mkRecord (text "1.0") (mkVersion 2 9 0) (mkVersion 2 10 3) (repeat Byte.x61 64) 1048576 1000
    downloading [Byte.x01; Byte.x0a; Byte.x22] 1760000000 true [] (text "C:\Staging\update_package.pkg").

Lemma example_record_wf : wf_record example_record.
Proof. constructor; unfold wf_version; cbn; split_and?; ulia || done. Qed.

Lemma record_roundtrip_witness :
  exists json, export_staging_record_json example_record = Some json /\
    import_staging_record_json json = Some example_record.
Proof.
  pose proof (record_roundtrip example_record example_record_wf) as H.
  replace (len (record_json example_record) >? kMaximumStagingRecordBytes) with false in H
    by (vm_compute; reflexivity).
  exact H.
Defined.

Lemma imported_record_wf_witness : wf_record example_record.
Proof. apply (imported_record_wf (record_json example_record)). vm_compute. reflexivity. Defined.

End StagingRecord.
