(* ===== verification/UpdateStaging.v ===== *)
(** The update staging controller (common/include/nstu/update_staging.hpp,
    common/src/update_staging.cpp): an update package is downloaded in chunks,
    checked, promoted over the active installation, and committed or rolled back.

    Each file-system or hashing call takes the next of a list of outcomes: it
    succeeds, fails part of the way with an exception, a false result or an error
    status, or the machine stops there.  A written stream can also lose its data
    when it is closed, which the code does not see.  A power loss may leave any
    other disk behind than the calls before it wrote, since nothing is flushed to
    the device; the theorem on installed updates names the two damages it has to
    exclude, and an example for each shows that the code does not.  The SHA-256 digest, the
    comparison of paths and the texts of exceptions are parameters.  The disk is
    the files of the staging directory and the trees of the active and the backup
    directory, which lie outside it. *)

From S2P Require Import Prelude Json UrlValidation UpdateManifest StagingRecord.

Module UpdateStaging.
Import UpdateManifest StagingRecord.

(** ** Data *)

Record UpdateStagingConfig := mkConfig {
  staging_directory : bytes;
  active_directory : bytes;
  backup_directory : bytes
}.

Inductive UpdateStagingError :=
| us_ok | invalid_state | io_error | byte_overflow | digest_mismatch | truncated_payload
| backup_failed | rollback_failed | exam_active_conflict.

Definition UpdateStagingResult : Type := UpdateStagingError * bytes.

Definition succeeded : UpdateStagingResult := (us_ok, []).

(** The controller; [hash] is the data hashed so far. *)
Record Controller := mkController {
  record_ : StagingRecord;
  hash : option bytes;
  is_streaming : bool
}.

Definition new_controller : Controller := mkController default_record None false.

(** A directory: its files. *)
Definition Tree : Type := gmap bytes bytes.

Record Disk := mkDisk {
  files : gmap bytes bytes;
  trees : gmap bytes Tree
}.

(** ** Calls and their outcomes *)

Inductive Outcome :=
| success
| failure (done : nat) (what : bytes)
| stopped (done : nat)
| lost (done : nat).

Inductive Res (A : Type) :=
| Value (a : A)
| Thrown (what : bytes)
| Stopped.
Arguments Value {A} a.
Arguments Thrown {A} what.
Arguments Stopped {A}.

Record World := mkWorld {
  disk : Disk;
  outcomes : list Outcome;
  controller : Controller
}.

Definition M (A : Type) : Type := World -> Res A * World.

Definition ret {A} (a : A) : M A := fun w => (Value a, w).

Definition bind {A B} (m : M A) (k : A -> M B) : M B := fun w =>
  match m w with
  | (Value a, w) => k a w
  | (Thrown what, w) => (Thrown what, w)
  | (Stopped, w) => (Stopped, w)
  end.

Notation "'let*' x ':=' m 'in' k" := (bind m (fun x => k)) (at level 200, x name, m at level 100, k at level 200).
Notation "m ';;' k" := (bind m (fun _ => k)) (at level 100, k at level 200, right associativity).

Definition throw {A} (what : bytes) : M A := fun w => (Thrown what, w).

(** [try { m } catch (e) { handler(e.what()) }] *)
Definition try_catch {A} (m : M A) (handler : bytes -> M A) : M A := fun w =>
  match m w with
  | (Thrown what, w) => handler what w
  | r => r
  end.

Definition get_controller : M Controller := fun w => (Value (controller w), w).
Definition set_controller (c : Controller) : M unit := fun w => (Value tt, {| w with controller := c |}).
Definition get_record : M StagingRecord := fun w => (Value (record_ (controller w)), w).
Definition set_record (r : StagingRecord) : M unit := fun w =>
  let c := controller w in (Value tt, {| w with controller := {| c with record_ := r |} |}).

Definition next_outcome (w : World) : Outcome * World :=
  match outcomes w with
  | [] => (success, w)
  | o :: os => (o, {| w with outcomes := os |})
  end.

(** A call with its full effect, and its effect up to where it failed. *)
Definition call_with {A} (on_success : A) (on_failure : bytes -> Res A)
    (full : Disk -> Disk) (partial : nat -> Disk -> Disk) : M A := fun w =>
  let '(o, w) := next_outcome w in
  let d := disk w in
  match o with
  | success => (Value on_success, {| w with disk := full d |})
  | failure n what => (on_failure what, {| w with disk := partial n d |})
  | stopped n => (Stopped, {| w with disk := partial n d |})
  | lost n => (Value on_success, {| w with disk := full d |})
  end.

(** A call of std::filesystem, which throws. *)
Definition call (full : Disk -> Disk) (partial : nat -> Disk -> Disk) : M unit :=
  call_with tt Thrown full partial.

(** A stream or CNG call, which returns false or an error status. *)
Definition try_call (full : Disk -> Disk) (partial : nat -> Disk -> Disk) : M bool :=
  call_with true (fun _ => Value false) full partial.

Definition nothing (d : Disk) : Disk := d.
Definition nothing_yet (n : nat) (d : Disk) : Disk := d.

(** [write] on a stream that is then closed: when the data is lost in the
    buffer, [good()] has already been tested. *)
Definition write_stream (full : Disk -> Disk) (partial : nat -> Disk -> Disk) : M bool := fun w =>
  let '(o, w) := next_outcome w in
  let d := disk w in
  match o with
  | success => (Value true, {| w with disk := full d |})
  | failure n _ => (Value false, {| w with disk := partial n d |})
  | stopped n => (Stopped, {| w with disk := partial n d |})
  | lost n => (Value true, {| w with disk := partial n d |})
  end.

(** ** The file system *)

Definition file_of (d : Disk) (path : bytes) : option bytes := files d !! path.
Definition tree_of (d : Disk) (path : bytes) : option Tree := trees d !! path.

Definition put_file (path content : bytes) (d : Disk) : Disk :=
  {| d with files := <[path := content]> (files d) |}.
Definition put_tree (path : bytes) (t : Tree) (d : Disk) : Disk :=
  {| d with trees := <[path := t]> (trees d) |}.
Definition drop_file (path : bytes) (d : Disk) : Disk := {| d with files := delete path (files d) |}.
Definition drop_tree (path : bytes) (d : Disk) : Disk := {| d with trees := delete path (trees d) |}.

Definition present (d : Disk) (path : bytes) : bool :=
  bool_decide (is_Some (file_of d path)) || bool_decide (is_Some (tree_of d path)).

Definition fs_exists (path : bytes) : M bool :=
  call nothing nothing_yet;; (fun w => (Value (present (disk w) path), w)).

Definition fs_remove (path : bytes) : M unit := call (drop_file path) nothing_yet.

(** Up to [n] entries are gone when it fails. *)
Definition fs_remove_all (path : bytes) : M unit :=
  call (fun d => drop_tree path (drop_file path d))
    (fun n d =>
       match tree_of d path with
       | Some t => put_tree path (list_to_map (drop n (map_to_list t))) d
       | None => d
       end).

(** Parents of the modelled files and trees. *)
Definition create_parents : M unit := call nothing nothing_yet.

Definition fs_create_directories (path : bytes) : M unit :=
  call (fun d => match tree_of d path with Some _ => d | None => put_tree path ∅ d end) nothing_yet.

(** The text of an exception for a missing source or an existing directory. *)
Definition rename_error : bytes := text "rename".
Definition copy_error : bytes := text "copy_file".

Definition fs_rename_file (from to : bytes) : M unit := fun w =>
  match file_of (disk w) from with
  | Some content => call (fun d => put_file to content (drop_file from d)) nothing_yet w
  | None => (call nothing nothing_yet;; throw rename_error) w
  end.

Definition fs_rename_tree (from to : bytes) : M unit := fun w =>
  match tree_of (disk w) from, present (disk w) to with
  | Some t, false => call (fun d => put_tree to t (drop_tree from d)) nothing_yet w
  | _, _ => (call nothing nothing_yet;; throw rename_error) w
  end.

(** [copy_file] into a directory, overwriting. *)
Definition fs_copy_file (from directory name : bytes) : M unit := fun w =>
  match file_of (disk w) from, tree_of (disk w) directory with
  | Some content, Some t =>
      call (put_tree directory (<[name := content]> t))
        (fun n => put_tree directory (<[name := take n content]> t)) w
  | _, _ => (call nothing nothing_yet;; throw copy_error) w
  end.

(** [operator/] of a directory and a file name, then [string()]. *)
Definition is_separator (c : byte) : bool := bool_decide (c = Byte.x2f \/ c = Byte.x5c).

Definition path_append (directory name : bytes) : bytes :=
  match last directory with
  | Some c => if is_separator c || bool_decide (c = Byte.x3a) then directory ++ name
              else directory ++ [Byte.x5c] ++ name
  | None => name
  end.

(** ** The controller *)

Section Controller.
(** SHA-256, the path comparison of Windows and the clock. *)
Variable sha256 : bytes -> bytes.
Variable same_path : bool -> bytes -> bytes -> bool.
Variable config : UpdateStagingConfig.
Variable current_time_seconds : Z.

Definition get_part_file_path : bytes := path_append (staging_directory config) (text "update_package.part").
Definition get_final_package_path : bytes := path_append (staging_directory config) (text "update_package.pkg").
Definition get_record_file_path : bytes := path_append (staging_directory config) (text "staging_record.json").

Definition cleanup_hash_context : M unit :=
  let* c := get_controller in
  set_controller {| c with hash := None; is_streaming := false |}.

Definition open_truncated (path : bytes) : M bool := try_call (put_file path []) nothing_yet.

Definition save_record_to_disk : M bool :=
  try_catch
    (let* r := get_record in
     match export_staging_record_json r with
     | None => throw (text "Staging record exceeds the 64 KiB serialization limit")
     | Some json =>
         if bool_decide (staging_directory config = []) then ret false
         else
           create_parents;;
           let* opened := open_truncated get_record_file_path in
           if opened
           then write_stream (put_file get_record_file_path json)
                  (fun n => put_file get_record_file_path (take n json))
           else ret false
     end)
    (fun _ => ret false).

Definition separators (s : bytes) : bool :=
  match s with a :: b :: _ => is_separator a && is_separator b | _ => false end.

(** None: the path is refused.  [same_path] stands for the checks on the path's
    components and the comparison of the two normal forms. *)
Definition bind_record_path (supplied configured : bytes) (directory : bool) : option bytes :=
  if bool_decide (supplied = []) then Some supplied
  else if bool_decide (configured = []) || bool_decide (Byte.x00 ∈ supplied) ||
          bool_decide (Byte.x00 ∈ configured) then None
  else if separators supplied then None
  else if same_path directory supplied configured then Some configured
  else None.

(** The handle on the record: opening and reading it, then closing it. *)
Definition read_record_file : M (option bytes + bytes) := fun w =>
  let '(r, w) := try_call nothing nothing_yet w in
  match r with
  | Value true => (Value (inl (file_of (disk w) get_record_file_path)), w)
  | Value false => (Value (inr (text "Unable to read recovery record")), w)
  | Thrown what => (Thrown what, w)
  | Stopped => (Stopped, w)
  end.

Definition init_loaded (content : bytes) : M UpdateStagingResult :=
  if len content >? kMaximumStagingRecordBytes
  then ret (invalid_state, text "Recovery record exceeds size limit")
  else
    match import_staging_record_json content with
    | None => ret (invalid_state, text "Recovery record is malformed or incompatible")
    | Some loaded =>
        match bind_record_path (sr_staged_package_path loaded) get_final_package_path false,
              bind_record_path (sr_backup_path loaded) (backup_directory config) true with
        | Some package, Some backup =>
            let loaded := {| loaded with sr_staged_package_path := package; sr_backup_path := backup |} in
            let* closed := try_call nothing nothing_yet in
            if negb closed then ret (io_error, text "Unable to close recovery record")
            else
              set_record loaded;;
              if bool_decide (sr_current_state loaded = downloading) then
                set_record {| loaded with sr_current_state := failed;
                              sr_last_error := text "Download interrupted by system restart" |};;
                fs_remove get_part_file_path;;
                save_record_to_disk;;
                ret succeeded
              else ret succeeded
        | _, _ => ret (invalid_state, text "Recovery record paths do not match configuration")
        end
    end.

Definition init : M UpdateStagingResult :=
  try_catch
    ((if bool_decide (staging_directory config = []) then ret tt else create_parents);;
     let* read := read_record_file in
     match read with
     | inr message => ret (io_error, message)
     | inl (Some content) => init_loaded content
     | inl None => set_record default_record;; ret succeeded
     end)
    (fun _ => ret (io_error, text "Unable to initialize update staging")).

Definition set_deferred (reason : bytes) : M unit :=
  let* r := get_record in
  set_record {| r with sr_current_state := deferred; sr_last_error := reason;
                sr_state_timestamp_utc := current_time_seconds |};;
  save_record_to_disk;;
  ret tt.

Definition remove_if_exists (path : bytes) : M unit :=
  let* found := fs_exists path in
  if found then fs_remove path else ret tt.

(** The three CNG calls that open a hash. *)
Definition open_hash : M (option bytes) :=
  let* opened := try_call nothing nothing_yet in
  if negb opened then ret (Some (text "Failed to open BCrypt SHA-256 algorithm provider"))
  else
    let* sized := try_call nothing nothing_yet in
    if negb sized then
      cleanup_hash_context;; ret (Some (text "Failed to get BCrypt object length"))
    else
      let* created := try_call nothing nothing_yet in
      if negb created then
        cleanup_hash_context;; ret (Some (text "Failed to create BCrypt hash handle"))
      else
        let* c := get_controller in
        set_controller {| c with hash := Some [] |};;
        ret None.

Definition begin_staging (m : UpdateManifest) (current_version : SemanticVersion)
    (is_exam_active : bool) : M UpdateStagingResult :=
  if is_exam_active
  then ret (exam_active_conflict, text "Cannot begin update staging while an assessment is active")
  else
    cleanup_hash_context;;
    try_catch
      ((if bool_decide (staging_directory config = []) then ret tt else create_parents);;
       remove_if_exists get_part_file_path;;
       remove_if_exists get_final_package_path;;
       let* failed := open_hash in
       match failed with
       | Some message => ret (io_error, message)
       | None =>
           let* c := get_controller in
           let r := record_ c in
           set_controller
             {| c with
                record_ := {| r with
                  sr_active_version := current_version; sr_target_version := um_version m;
                  sr_target_sha256_hex := um_sha256_hex m; sr_expected_bytes := um_byte_length m;
                  sr_staged_bytes := 0; sr_requires_reboot := um_requires_reboot m;
                  sr_staged_package_path := get_final_package_path;
                  sr_current_state := downloading; sr_last_error := [];
                  sr_state_timestamp_utc := current_time_seconds |};
                is_streaming := true |};;
           save_record_to_disk;;
           ret succeeded
       end)
      (fun what => cleanup_hash_context;; ret (io_error, what)).

Definition abort_staging (reason : bytes) : M UpdateStagingResult :=
  cleanup_hash_context;;
  try_catch (remove_if_exists get_part_file_path) (fun _ => ret tt);;
  let* r := get_record in
  set_record {| r with sr_current_state := failed; sr_last_error := reason;
                sr_state_timestamp_utc := current_time_seconds |};;
  save_record_to_disk;;
  ret succeeded.

(** The stream is opened for appending, which creates the file. *)
Definition contents (d : Disk) (path : bytes) : bytes := default [] (file_of d path).

Definition open_append (path : bytes) : M bool :=
  try_call (fun d => put_file path (contents d path) d) nothing_yet.

Definition append_stream (path chunk : bytes) : M bool :=
  write_stream (fun d => put_file path (contents d path ++ chunk) d)
    (fun n d => put_file path (contents d path ++ take n chunk) d).

Definition is_active_stream (c : Controller) : bool :=
  bool_decide (sr_current_state (record_ c) = downloading) && is_streaming c && bool_decide (is_Some (hash c)).

Definition append_chunk (chunk : bytes) : M UpdateStagingResult :=
  let* c := get_controller in
  let r := record_ c in
  if negb (is_active_stream c)
  then ret (invalid_state, text "Controller is not actively streaming an update package")
  else if len chunk >? wrap64 (sr_expected_bytes r - sr_staged_bytes r) then
    abort_staging (text "Byte overflow: chunk exceeds expected package length");;
    ret (byte_overflow, text "Appended chunk exceeds declared package byte length")
  else
    try_catch
      (let* opened := open_append get_part_file_path in
       if negb opened then
         abort_staging (text "Failed to open staging .part file for writing");;
         ret (io_error, text "Cannot write to staging .part file")
       else
         let* good := append_stream get_part_file_path chunk in
         if negb good then
           abort_staging (text "I/O write failure on staging .part file");;
           ret (io_error, text "I/O failure while writing chunk")
         else
           let* hashed := try_call nothing nothing_yet in
           if negb hashed then
             abort_staging (text "BCryptHashData failed on chunk");;
             ret (io_error, text "Cryptographic hash computation failed")
           else
             set_controller
               {| c with hash := option_map (fun data => data ++ chunk) (hash c);
                  record_ := {| r with sr_staged_bytes := wrap64 (sr_staged_bytes r + len chunk) |} |};;
             ret succeeded)
      (fun what => abort_staging what;; ret (io_error, what)).

Definition to_lower (s : bytes) : bytes := map (fun c => byte_of (UrlValidation.tolower (byte_val c))) s.

(** The digest of a package is the one its manifest names. *)
Definition digest_matches (package digest_hex : bytes) : bool :=
  bool_decide (to_lower (bytes_to_hex (sha256 package)) = to_lower digest_hex).

Definition finalize_staging : M UpdateStagingResult :=
  let* c := get_controller in
  let r := record_ c in
  if negb (is_active_stream c)
  then ret (invalid_state, text "Controller is not in downloading state")
  else if negb (sr_staged_bytes r =? sr_expected_bytes r) then
    abort_staging (text "Truncated payload: staged bytes do not match expected manifest byte length");;
    ret (truncated_payload, text "Staged byte length is less than declared manifest length")
  else
    let* finished := try_call nothing nothing_yet in
    if negb finished then
      abort_staging (text "BCryptFinishHash failed");;
      ret (io_error, text "Failed to finalize SHA-256 digest")
    else
      cleanup_hash_context;;
      if negb (digest_matches (default [] (hash c)) (sr_target_sha256_hex r)) then
        abort_staging (text "SHA-256 digest mismatch between downloaded payload and signed manifest");;
        ret (digest_mismatch, text "Payload digest does not match manifest specification")
      else
        try_catch
          (remove_if_exists get_final_package_path;;
           fs_rename_file get_part_file_path get_final_package_path;;
           set_record {| r with
             sr_staged_package_path := get_final_package_path;
             sr_current_state := if sr_requires_reboot r then apply_pending_reboot else staged;
             sr_last_error := []; sr_state_timestamp_utc := current_time_seconds |};;
           save_record_to_disk;;
           ret succeeded)
          (fun what => abort_staging what;; ret (io_error, what)).

(** The handler's own calls to [exists] can throw out of the method. *)
Definition restore_backup : M unit :=
  let* r := get_record in
  if bool_decide (sr_backup_path r = []) then ret tt
  else
    let* saved := fs_exists (sr_backup_path r) in
    if negb saved then ret tt
    else
      let* active := fs_exists (active_directory config) in
      if active then ret tt
      else
        try_catch
          (fs_rename_tree (sr_backup_path r) (active_directory config);;
           set_record {| r with sr_backup_path := [] |})
          (fun _ => ret tt).

Definition clear_old_backup : M unit :=
  if bool_decide (backup_directory config = []) then ret tt
  else
    let* old := fs_exists (backup_directory config) in
    if old then fs_remove_all (backup_directory config) else ret tt.

Definition back_up_active (r : StagingRecord) : M unit :=
  let* active := fs_exists (active_directory config) in
  if active then
    create_parents;;
    fs_rename_tree (active_directory config) (backup_directory config);;
    set_record {| r with sr_backup_path := backup_directory config |}
  else ret tt.

Definition apply_staged_update (primary_binary_name : bytes) : M UpdateStagingResult :=
  let* r := get_record in
  if negb (bool_decide (sr_current_state r = staged \/ sr_current_state r = apply_pending_reboot))
  then ret (invalid_state, text "Cannot apply update: package is not in staged state")
  else
    try_catch
      (let* found := fs_exists (sr_staged_package_path r) in
       if negb found then ret (io_error, text "Staged package does not exist on disk")
       else
         clear_old_backup;;
         back_up_active r;;
         fs_create_directories (active_directory config);;
         fs_copy_file (sr_staged_package_path r) (active_directory config) primary_binary_name;;
         let* r := get_record in
         set_record {| r with sr_current_state := validating;
                       sr_state_timestamp_utc := current_time_seconds |};;
         save_record_to_disk;;
         ret succeeded)
      (fun what => restore_backup;; ret (backup_failed, what)).

Definition commit_update : M UpdateStagingResult :=
  let* r := get_record in
  if negb (bool_decide (sr_current_state r = validating))
  then ret (invalid_state, text "Cannot commit update: controller is not in validating state")
  else
    try_catch
      ((if bool_decide (sr_backup_path r = []) then ret tt
        else
          let* found := fs_exists (sr_backup_path r) in
          if found then fs_remove_all (sr_backup_path r) else ret tt);;
       set_record {| r with sr_backup_path := [] |};;
       (if bool_decide (sr_staged_package_path r = []) then ret tt
        else remove_if_exists (sr_staged_package_path r));;
       set_record {| r with sr_backup_path := []; sr_active_version := sr_target_version r;
                     sr_current_state := committed; sr_state_timestamp_utc := current_time_seconds |};;
       save_record_to_disk;;
       ret succeeded)
      (fun what => ret (io_error, what)).

Definition rollback_update : M UpdateStagingResult :=
  let* r := get_record in
  if negb (bool_decide (sr_current_state r = validating))
  then ret (invalid_state, text "Cannot rollback update: controller is not in validating state")
  else
    try_catch
      (let* saved := if bool_decide (sr_backup_path r = []) then ret false else fs_exists (sr_backup_path r) in
       if negb saved then
         set_record {| r with sr_current_state := failed;
                       sr_last_error := text "Rollback failed: backup directory does not exist" |};;
         save_record_to_disk;;
         ret (rollback_failed, text "Backup directory not found")
       else
         (let* active := fs_exists (active_directory config) in
          if active then fs_remove_all (active_directory config) else ret tt);;
         fs_rename_tree (sr_backup_path r) (active_directory config);;
         set_record {| r with sr_backup_path := []; sr_current_state := rolling_back;
                       sr_last_error := text "Update rolled back following validation failure";
                       sr_state_timestamp_utc := current_time_seconds |};;
         save_record_to_disk;;
         ret succeeded)
      (fun what =>
         let* r := get_record in
         set_record {| r with sr_current_state := failed; sr_last_error := what |};;
         save_record_to_disk;;
         ret (rollback_failed, what)).
End Controller.

(** ** Histories *)

Inductive Op :=
| op_init
| op_set_deferred (reason : bytes)
| op_begin_staging (m : UpdateManifest) (current_version : SemanticVersion) (is_exam_active : bool)
| op_append_chunk (chunk : bytes)
| op_finalize_staging
| op_abort_staging (reason : bytes)
| op_apply_staged_update (primary_binary_name : bytes)
| op_commit_update
| op_rollback_update
| op_restart
| op_power_loss (after : Disk -> Disk).

(** A call at a time, with the outcomes of what it calls. *)
Record Event := mkEvent { ev_op : Op; ev_now : Z; ev_outcomes : list Outcome }.

Section Histories.
Context (sha256 : bytes -> bytes) (same_path : bool -> bytes -> bytes -> bool) (config : UpdateStagingConfig).

(** What a power loss leaves of the disk: any other disk. *)
Definition damage_disk (after : Disk -> Disk) : M unit := fun w =>
  (Value tt, {| w with disk := after (disk w) |}).

Definition run_op (op : Op) (now : Z) : M UpdateStagingResult :=
  match op with
  | op_init => init same_path config
  | op_set_deferred reason => set_deferred config now reason;; ret succeeded
  | op_begin_staging m v exam => begin_staging config now m v exam
  | op_append_chunk chunk => append_chunk config now chunk
  | op_finalize_staging => finalize_staging sha256 config now
  | op_abort_staging reason => abort_staging config now reason
  | op_apply_staged_update name => apply_staged_update config now name
  | op_commit_update => commit_update config now
  | op_rollback_update => rollback_update config now
  | op_restart => set_controller new_controller;; ret succeeded
  | op_power_loss after => damage_disk after;; set_controller new_controller;; ret succeeded
  end.

(** When the machine stops, the controller is gone and the disk stays. *)
Definition step (s : Disk * Controller) (e : Event) : Disk * Controller :=
  let '(r, w) := run_op (ev_op e) (ev_now e) (mkWorld (fst s) (ev_outcomes e) (snd s)) in
  (disk w, match r with Stopped => new_controller | _ => controller w end).

Definition history (s : Disk * Controller) (es : list Event) : Disk * Controller := fold_left step es s.
End Histories.

(** ** Reasoning about the calls

    A triple: from [pre] the computation ends with a value in [post], throws in
    [exc], or stops leaving a disk in [halt], whatever the outcomes; a [strict]
    one, as long as no stream loses data. *)

Definition not_lost (o : Outcome) : Prop := match o with lost _ => False | _ => True end.

Definition honest (strict : bool) (os : list Outcome) : Prop := strict = true -> Forall not_lost os.

Definition Assertion : Type := Disk -> Controller -> Prop.

Section Triples.
Context {strict : bool} (halt : Disk -> Prop).

Definition triple {A} (pre : Assertion) (m : M A) (post : A -> Assertion) (exc : Assertion) : Prop :=
  forall w, honest strict (outcomes w) -> pre (disk w) (controller w) ->
  let '(r, w') := m w in
  honest strict (outcomes w') /\
  match r with
  | Value a => post a (disk w') (controller w')
  | Thrown _ => exc (disk w') (controller w')
  | Stopped => halt (disk w')
  end.

Lemma triple_ret {A} (a : A) (pre : Assertion) post exc :
  (forall d c, pre d c -> post a d c) -> triple pre (ret a) post exc.
Proof. intros Hp w Hw Hpre. cbn. auto. Qed.

Lemma triple_throw {A} what (pre exc : Assertion) (post : A -> Assertion) :
  (forall d c, pre d c -> exc d c) -> triple pre (throw what) post exc.
Proof. intros Hp w Hw Hpre. cbn. auto. Qed.

Lemma triple_bind {A B} (m : M A) (k : A -> M B) pre mid post exc :
  triple pre m mid exc -> (forall a, triple (mid a) (k a) post exc) -> triple pre (bind m k) post exc.
Proof.
  intros Hm Hk w Hw Hpre. specialize (Hm w Hw Hpre). unfold bind.
  destruct (m w) as [[a|what|] w']; destruct Hm as [Hw' Hm]; [|done..]. by apply Hk.
Qed.

Lemma triple_try {A} (m : M A) handler pre post mid exc :
  triple pre m post mid -> (forall what, triple mid (handler what) post exc) ->
  triple pre (try_catch m handler) post exc.
Proof.
  intros Hm Hh w Hw Hpre. specialize (Hm w Hw Hpre). unfold try_catch.
  destruct (m w) as [[a|what|] w']; destruct Hm as [Hw' Hm]; [done| |done]. by apply Hh.
Qed.

Lemma triple_weaken {A} (m : M A) (pre pre' : Assertion) (post post' : A -> Assertion) (exc exc' : Assertion) :
  triple pre m post exc -> (forall d c, pre' d c -> pre d c) ->
  (forall a d c, post a d c -> post' a d c) -> (forall d c, exc d c -> exc' d c) ->
  triple pre' m post' exc'.
Proof.
  intros Hm H1 H2 H3 w Hw Hpre. specialize (Hm w Hw (H1 _ _ Hpre)).
  destruct (m w) as [[a|what|] w']; naive_solver.
Qed.

Lemma triple_record (pre : Assertion) exc :
  triple pre get_record (fun r d c => pre d c /\ r = record_ c) exc.
Proof. intros w Hw Hpre. by cbn. Qed.

Lemma triple_controller (pre : Assertion) exc :
  triple pre get_controller (fun c' d c => pre d c /\ c' = c) exc.
Proof. intros w Hw Hpre. by cbn. Qed.

Lemma triple_set_record r (pre post : Assertion) exc :
  (forall d c, pre d c -> post d {| c with record_ := r |}) ->
  triple pre (set_record r) (fun _ => post) exc.
Proof. intros Hp w Hw Hpre. cbn. auto. Qed.

Lemma triple_set_controller c' (pre post : Assertion) exc :
  (forall d c, pre d c -> post d c') -> triple pre (set_controller c') (fun _ => post) exc.
Proof. intros Hp w Hw Hpre. cbn. eauto. Qed.

Lemma honest_next w : honest strict (outcomes w) ->
  let '(o, w') := next_outcome w in
  (strict = true -> not_lost o) /\ honest strict (outcomes w') /\ disk w' = disk w /\ controller w' = controller w.
Proof.
  intros Hw. unfold next_outcome, honest in *. destruct w as [d [|o os] c]; cbn in *; [done|].
  split_and!; try done; intros Hs; by apply Hw, Forall_cons in Hs as [? ?].
Qed.

Lemma triple_call full partial (pre post exc : Assertion) :
  (forall d c, pre d c -> post (full d) c) ->
  (forall n d c, pre d c -> exc (partial n d) c /\ halt (partial n d)) ->
  triple pre (call full partial) (fun _ => post) exc.
Proof.
  intros Hfull Hpart w Hw Hpre. pose proof (honest_next w Hw) as Hn. unfold call, call_with.
  destruct (next_outcome w) as [o w']. destruct Hn as (Ho & Hw' & Ed & Ec).
  destruct o as [|n what|n|n]; cbn in *; rewrite ?Ed, ?Ec; naive_solver.
Qed.

Lemma triple_try_call full partial (pre : Assertion) (post : bool -> Assertion) exc :
  (forall d c, pre d c -> post true (full d) c) ->
  (forall n d c, pre d c -> post false (partial n d) c /\ halt (partial n d)) ->
  triple pre (try_call full partial) post exc.
Proof.
  intros Hfull Hpart w Hw Hpre. pose proof (honest_next w Hw) as Hn. unfold try_call, call_with.
  destruct (next_outcome w) as [o w']. destruct Hn as (Ho & Hw' & Ed & Ec).
  destruct o as [|n what|n|n]; cbn in *; rewrite ?Ed, ?Ec; naive_solver.
Qed.

Lemma triple_write full partial (pre : Assertion) (post : bool -> Assertion) exc :
  (forall d c, pre d c -> post true (full d) c) ->
  (forall n d c, pre d c -> post false (partial n d) c /\ halt (partial n d)) ->
  (strict = false -> forall n d c, pre d c -> post true (partial n d) c) ->
  triple pre (write_stream full partial) post exc.
Proof.
  intros Hfull Hpart Hlost w Hw Hpre. pose proof (honest_next w Hw) as Hn. unfold write_stream.
  destruct (next_outcome w) as [o w']. destruct Hn as (Ho & Hw' & Ed & Ec).
  destruct o as [|n what|n|n]; cbn in *; rewrite ?Ed, ?Ec; [naive_solver..|].
  split; [done|]. destruct strict; [by destruct (Ho eq_refl)|]. by apply Hlost.
Qed.

(** Facts about the state before that hold for some [x]. *)
Lemma triple_some {A X} (P : X -> Assertion) (m : M A) (pre : Assertion) post exc :
  (forall d c, pre d c -> exists x, P x d c) -> (forall x, triple (P x) m post exc) -> triple pre m post exc.
Proof. intros Hp Hm w Hw Hpre. destruct (Hp _ _ Hpre) as [x Hx]. by apply (Hm x). Qed.

Lemma triple_pure {A} (fact : Prop) (m : M A) (pre : Assertion) post exc :
  (fact -> triple pre m post exc) -> triple (fun d c => fact /\ pre d c) m post exc.
Proof. intros Hm w Hw [Hf Hpre]. by apply Hm. Qed.

(** A call that changes nothing keeps every assertion that suffices to halt. *)
Definition halts (pre : Assertion) : Prop := forall d c, pre d c -> halt d.

Lemma triple_quiet pre : halts pre -> triple pre (call nothing nothing_yet) (fun _ => pre) pre.
Proof. intros Hh. apply triple_call; [done|]. intros n d c Hp. split; [done|by eapply Hh]. Qed.

Lemma triple_try_quiet pre exc :
  halts pre -> triple pre (try_call nothing nothing_yet) (fun _ => pre) exc.
Proof. intros Hh. apply triple_try_call; [done|]. intros n d c Hp. split; [done|by eapply Hh]. Qed.

Lemma triple_exists path pre :
  halts pre ->
  triple pre (fs_exists path) (fun found d c => pre d c /\ found = present d path) pre.
Proof.
  intros Hh. unfold fs_exists. eapply triple_bind; [by apply triple_quiet|].
  intros [] w Hw Hp. by cbn.
Qed.

(** Failing calls for a missing source. *)
Lemma triple_quiet_throw {A} what pre (post : A -> Assertion) :
  halts pre -> triple pre (call nothing nothing_yet;; throw what) post pre.
Proof. intros Hh. eapply triple_bind; [by apply triple_quiet|]. intros []. by apply triple_throw. Qed.

Lemma triple_rename_file from to (pre post : Assertion) :
  halts pre ->
  (forall d c x, pre d c -> file_of d from = Some x -> post (put_file to x (drop_file from d)) c) ->
  triple pre (fs_rename_file from to) (fun _ => post) pre.
Proof.
  intros Hh Hfull w Hw Hp. unfold fs_rename_file. destruct (file_of (disk w) from) as [x|] eqn:Ex.
  - apply (triple_call _ _ (fun d c => pre d c /\ file_of d from = Some x) post pre); [..|done|done].
    + intros d c [? ?]. by apply Hfull.
    + intros n d c [? _]. split; [done|by eapply Hh].
  - by apply (triple_quiet_throw rename_error pre (fun _ => post)).
Qed.

Lemma triple_rename_tree from to (pre post : Assertion) :
  halts pre ->
  (forall d c t, pre d c -> tree_of d from = Some t -> present d to = false ->
     post (put_tree to t (drop_tree from d)) c) ->
  triple pre (fs_rename_tree from to) (fun _ => post) pre.
Proof.
  intros Hh Hfull w Hw Hp. unfold fs_rename_tree.
  destruct (tree_of (disk w) from) as [t|] eqn:Et;
    [destruct (present (disk w) to) eqn:Eto|]; try by apply (triple_quiet_throw rename_error pre (fun _ => post)).
  apply (triple_call _ _ (fun d c => pre d c /\ tree_of d from = Some t /\ present d to = false) post pre);
    [..|done|done].
  - intros d c (? & ? & ?). by apply Hfull.
  - intros n d c [? _]. split; [done|by eapply Hh].
Qed.

Lemma triple_copy_file from directory name (pre post exc : Assertion) :
  halts pre -> (forall d c, pre d c -> exc d c) ->
  (forall d c x t, pre d c -> file_of d from = Some x -> tree_of d directory = Some t ->
     post (put_tree directory (<[name := x]> t) d) c /\
     forall n, exc (put_tree directory (<[name := take n x]> t) d) c /\
       halt (put_tree directory (<[name := take n x]> t) d)) ->
  triple pre (fs_copy_file from directory name) (fun _ => post) exc.
Proof.
  intros Hh He Hfull w Hw Hp. unfold fs_copy_file.
  assert (Hthrow : triple pre (call nothing nothing_yet;; throw copy_error) (fun _ : unit => post) exc).
  { eapply triple_weaken; [by apply (triple_quiet_throw copy_error pre (fun _ => post))|done..]. }
  destruct (file_of (disk w) from) as [x|] eqn:Ex; [|by apply Hthrow].
  destruct (tree_of (disk w) directory) as [t|] eqn:Et; [|by apply Hthrow].
  apply (triple_call _ _ (fun d c => pre d c /\ file_of d from = Some x /\ tree_of d directory = Some t) post exc);
    [..|done|done].
  - intros d c (? & ? & ?). by eapply Hfull.
  - intros n d c (? & ? & ?). by eapply Hfull.
Qed.

(** What writing the record does not concern. *)
Definition record_stable config (pre : Assertion) : Prop :=
  (forall d c, pre d c -> halt d) /\
  forall d c x, pre d c -> pre (put_file (get_record_file_path config) x d) c.

Lemma save_keeps config pre exc :
  record_stable config pre -> triple pre (save_record_to_disk config) (fun _ => pre) exc.
Proof.
  intros [Hp Hput].
  assert (Hp' : forall d c x, pre d c -> halt (put_file (get_record_file_path config) x d)) by eauto.
  unfold save_record_to_disk. eapply triple_try; [|intros what; by apply triple_ret].
  eapply triple_bind; [apply triple_record|]. intros r.
  destruct (export_staging_record_json r) as [json|]; [|apply triple_throw; by intros d c []].
  case_bool_decide; [apply triple_ret; by intros d c []|].
  eapply triple_bind; [eapply triple_weaken; [by apply triple_quiet|by intros d c []|done|done]|].
  intros []. eapply triple_bind with (mid := fun _ => pre).
  { apply triple_try_call; [intros d c ?; by apply Hput|]. intros n d c ?. split; [done|by eapply Hp]. }
  intros []; [|by apply triple_ret].
  apply triple_write; [intros d c ?; by apply Hput| |intros _ n d c ?; by apply Hput].
  intros n d c ?. split; [by apply Hput|by eapply Hp'].
Qed.

(** The last steps of an operation: the record is saved, the result returned. *)
Lemma save_then {A} config (a : A) (pre : Assertion) (post : A -> Assertion) exc :
  record_stable config pre -> (forall d c, pre d c -> post a d c) ->
  triple pre (save_record_to_disk config;; ret a) post exc.
Proof.
  intros Hs Hp. eapply triple_bind; [by apply save_keeps|]. intros ?. by apply triple_ret.
Qed.
End Triples.

(** ** The package on the disk *)

Section Invariant.
Context (sha256 : bytes -> bytes) (same_path : bool -> bytes -> bytes -> bool)
  (config : UpdateStagingConfig) (offered : UpdateManifest -> Prop) {strict : bool}.
Hypothesis offered_length : forall m, offered m -> u64 (um_byte_length m).

(** A package that some offered manifest describes. *)
Definition genuine (package : bytes) : Prop :=
  exists m, offered m /\ len package = um_byte_length m /\
    digest_matches sha256 package (um_sha256_hex m) = true.

Definition package_ok (d : Disk) : Prop :=
  file_of d [] = None /\
  forall package, file_of d (get_final_package_path config) = Some package -> genuine package.

Definition path_ok (c : Controller) : Prop :=
  sr_staged_package_path (record_ c) = [] \/
  sr_staged_package_path (record_ c) = get_final_package_path config.

(** A controller that has hashed [data] for an offered manifest. *)
Definition stream_facts (c : Controller) (data : bytes) : Prop :=
  exists m, offered m /\ hash c = Some data /\ sr_staged_bytes (record_ c) = len data /\
    sr_staged_bytes (record_ c) <= sr_expected_bytes (record_ c) /\
    sr_expected_bytes (record_ c) = um_byte_length m /\
    sr_target_sha256_hex (record_ c) = um_sha256_hex m.

(** The file holds the data hashed so far. *)
Definition stream_ok : Assertion := fun d c => stream_facts c (contents d (get_part_file_path config)).

Definition base_ok : Assertion := fun d c => package_ok d /\ path_ok c.

Definition staging_ok : Assertion := fun d c =>
  base_ok d c /\ (is_active_stream c = true -> stream_ok d c).

(** No stream. *)
Definition off : Assertion := fun d c => base_ok d c /\ is_streaming c = false.

Notation "{{ pre }} m {{ post | exc }}" := (triple (strict := strict) package_ok pre m post exc)
  (at level 90, m at level 100, post at level 200, exc at level 200).

(** *** Paths *)

Lemma path_append_inj d n n' : path_append d n = path_append d n' -> n = n'.
Proof.
  unfold path_append. destruct (last d); [|done].
  destruct (_ || _); intros E; [by apply app_inv_head in E|].
  apply app_inv_head in E. by injection E.
Qed.

Lemma path_append_nonempty d n : n <> [] -> path_append d n <> [].
Proof.
  unfold path_append. intros Hn. destruct (last d) as [c|] eqn:E; [|done].
  destruct d; [done|]. by destruct (_ || _).
Qed.

Lemma paths_differ :
  get_part_file_path config <> get_final_package_path config /\
  get_record_file_path config <> get_final_package_path config /\
  get_record_file_path config <> get_part_file_path config /\
  get_part_file_path config <> [] /\ get_record_file_path config <> [] /\ get_final_package_path config <> [].
Proof.
  split_and!; try (intros E%path_append_inj; by vm_compute in E);
    by apply path_append_nonempty; vm_compute.
Qed.

(** *** Changes that keep the package *)

Lemma file_of_put d p q x : file_of (put_file p x d) q = if bool_decide (p = q) then Some x else file_of d q.
Proof. unfold file_of, put_file. cbn. case_bool_decide; [subst; apply lookup_insert_eq|by apply lookup_insert_ne]. Qed.

Lemma file_of_drop d p q : file_of (drop_file p d) q = if bool_decide (p = q) then None else file_of d q.
Proof. unfold file_of, drop_file. cbn. case_bool_decide; [subst; apply lookup_delete_eq|by apply lookup_delete_ne]. Qed.

Lemma package_put d p x :
  p <> get_final_package_path config -> p <> [] -> package_ok d -> package_ok (put_file p x d).
Proof.
  intros Hp He [H1 H2]. unfold package_ok. rewrite !file_of_put, !bool_decide_eq_false_2 by done. done.
Qed.

Lemma package_drop d p : package_ok d -> package_ok (drop_file p d).
Proof.
  intros [H1 H2]. unfold package_ok. rewrite !file_of_drop. split; [by case_bool_decide|].
  intros x. case_bool_decide; [done|apply H2].
Qed.

Lemma package_trees d p t : package_ok d -> package_ok (put_tree p t d) /\ package_ok (drop_tree p d).
Proof. done. Qed.

Lemma base_halts pre : (forall d c, pre d c -> base_ok d c) -> halts package_ok pre.
Proof. intros H d c Hp. by apply H in Hp as [? _]. Qed.

Lemma base_record_stable : record_stable package_ok config base_ok.
Proof.
  destruct paths_differ as (_ & Hr & _ & _ & He & _). split; [by intros d c [? _]|].
  intros d c x [? ?]. split; [by apply package_put|done].
Qed.

Lemma stream_record_stable d c x :
  stream_ok d c -> stream_ok (put_file (get_record_file_path config) x d) c.
Proof.
  destruct paths_differ as (_ & _ & Hr & _). unfold stream_ok, contents.
  by rewrite file_of_put, bool_decide_eq_false_2 by done.
Qed.

Lemma staging_record_stable : record_stable package_ok config staging_ok.
Proof.
  destruct base_record_stable as [H1 H2]. split; [intros d c [Hb _]; by eapply H1|].
  intros d c x [Hb Hs]. split; [by apply H2|]. intros Ha. by apply stream_record_stable, Hs.
Qed.

Lemma off_record_stable : record_stable package_ok config off.
Proof.
  destruct base_record_stable as [H1 H2]. split; [intros d c [Hb _]; by eapply H1|].
  intros d c x [Hb Hs]. by split; [apply H2|].
Qed.

(** *** The parts of the operations *)

Lemma off_staging d c : off d c -> staging_ok d c.
Proof.
  intros [Hb Hs]. split; [done|]. unfold is_active_stream. rewrite Hs. by rewrite andb_false_r.
Qed.

Lemma triple_cleanup (pre post : Assertion) exc :
  (forall d c, pre d c -> post d {| c with hash := None; is_streaming := false |}) ->
  {{ pre }} cleanup_hash_context {{ fun _ => post | exc }}.
Proof.
  intros H. unfold cleanup_hash_context. eapply triple_bind; [apply triple_controller|].
  intros c. apply triple_set_controller. intros d c' [Hp ->]. by apply H.
Qed.

Lemma cleanup_off exc : {{ base_ok }} cleanup_hash_context {{ fun _ => off | exc }}.
Proof. apply triple_cleanup. by intros d c [? ?]. Qed.

Lemma remove_if_exists_none path (pre : Assertion) :
  halts package_ok pre -> (forall d c, pre d c -> pre (drop_file path d) c) ->
  {{ pre }} remove_if_exists path {{ fun _ d c => pre d c /\ file_of d path = None | pre }}.
Proof.
  intros Hh Hdrop. unfold remove_if_exists. eapply triple_bind; [by apply triple_exists|].
  intros []; cbn beta.
  - apply triple_call.
    + intros d c [Hp _]. split; [by apply Hdrop|]. by rewrite file_of_drop, bool_decide_eq_true_2.
    + intros n d c [Hp _]. split; [done|by eapply Hh].
  - apply triple_ret. intros d c [Hp Hf]. split; [done|]. unfold present in Hf.
    symmetry in Hf. apply orb_false_iff in Hf as [Hf _]. apply bool_decide_eq_false in Hf.
    destruct (file_of d path); [by destruct Hf|done].
Qed.

Lemma off_halts : halts package_ok off.
Proof. by intros d c [[? _] _]. Qed.

Lemma base_ok_halts : halts package_ok base_ok.
Proof. by intros d c [? _]. Qed.

Lemma staging_halts : halts package_ok staging_ok.
Proof. by intros d c [[? _] _]. Qed.

Lemma off_drop path d c : off d c -> off (drop_file path d) c.
Proof. intros [[? ?] ?]. split; [split; [by apply package_drop|done]|done]. Qed.

Lemma remove_if_exists_off path exc :
  (forall d c, off d c -> exc d c) ->
  {{ off }} remove_if_exists path {{ fun _ => off | exc }}.
Proof.
  intros He. eapply triple_weaken; [apply (remove_if_exists_none path off off_halts (off_drop path))|..];
    [done|by intros ? d c []|exact He].
Qed.

(** Changing the record but for the path of the package. *)
Lemma off_set_record r c d :
  off d c -> sr_staged_package_path r = sr_staged_package_path (record_ c) \/
             sr_staged_package_path r = get_final_package_path config ->
  off d {| c with record_ := r |}.
Proof. intros [[? Hp] ?] Hr. split; [split; [done|]|done]. unfold path_ok in *. cbn. destruct Hr; [congruence|auto]. Qed.

Lemma abort_off now reason exc :
  {{ base_ok }} abort_staging config now reason {{ fun _ => off | exc }}.
Proof.
  unfold abort_staging. eapply triple_bind; [apply cleanup_off|]. intros [].
  eapply triple_bind.
  { eapply triple_try; [by apply remove_if_exists_off with (exc := off)|].
    intros what. apply triple_ret with (post := fun _ => off). done. }
  intros []. eapply triple_bind; [apply triple_record|]. intros r.
  eapply triple_bind; [apply triple_set_record with (post := off)|].
  { intros d c [Hoff ->]. apply off_set_record; [done|by left]. }
  intros []. eapply triple_bind; [apply save_keeps, off_record_stable|].
  intros ?. by apply triple_ret.
Qed.

(** An abort and the result that goes with it. *)
Lemma abort_then now reason (res : UpdateStagingResult) exc :
  {{ base_ok }} (abort_staging config now reason;; ret res) {{ fun _ => staging_ok | exc }}.
Proof.
  eapply triple_bind; [apply abort_off|]. intros ?. apply triple_ret. apply off_staging.
Qed.

Lemma create_if_configured pre :
  halts package_ok pre ->
  {{ pre }} (if bool_decide (staging_directory config = []) then ret tt else create_parents)
  {{ fun _ => pre | pre }}.
Proof. intros Hh. case_bool_decide; [by apply triple_ret|by apply triple_quiet]. Qed.

(** *** The operations *)

Lemma deferred_keeps now reason :
  {{ staging_ok }} set_deferred config now reason {{ fun _ => staging_ok | staging_ok }}.
Proof.
  unfold set_deferred. eapply triple_bind; [apply triple_record|]. intros r.
  eapply triple_bind; [apply triple_set_record with (post := staging_ok)|].
  { intros d c [[[? Hp] _] ->]. split; [by split|]. by unfold is_active_stream. }
  intros []. eapply triple_bind; [apply save_keeps, staging_record_stable|].
  intros ?. by apply triple_ret.
Qed.

(** A hash is opened on nothing. *)
Lemma open_hash_off (pre : Assertion) :
  (forall d c, pre d c -> off d c) ->
  (forall d c h, pre d c -> pre d {| c with hash := h; is_streaming := false |}) ->
  {{ pre }} open_hash {{ fun failed d c => pre d c /\ (failed = None -> hash c = Some []) | off }}.
Proof.
  intros Hoff Hcl. assert (Hh : halts package_ok pre) by (intros d c Hp; by apply Hoff, off_halts in Hp).
  assert (Hfail : forall message : bytes, {{ pre }} (cleanup_hash_context;; ret (Some message))
    {{ fun failed d c => pre d c /\ (failed = None -> hash c = Some []) | off }}).
  { intros message. eapply triple_bind; [apply triple_cleanup with (post := pre); auto|].
    intros []. by apply triple_ret. }
  unfold open_hash. eapply triple_bind; [by apply triple_try_quiet|]. intros []; cbn [negb];
    [|by apply triple_ret].
  eapply triple_bind; [by apply triple_try_quiet|]. intros []; cbn [negb]; [|apply Hfail].
  eapply triple_bind; [by apply triple_try_quiet|]. intros []; cbn [negb]; [|apply Hfail].
  eapply triple_bind; [apply triple_controller|]. intros c.
  eapply triple_bind; [apply triple_set_controller with
    (post := fun d c => pre d c /\ hash c = Some [])|].
  { intros d c' [Hp ->]. split; [|done]. destruct (Hoff _ _ Hp) as [_ Hs].
    pose proof (Hcl _ _ (Some []) Hp) as H. rewrite <- Hs in H. by destruct c'. }
  intros []. by apply triple_ret; intros d c' [? ?].
Qed.

Lemma begin_keeps now m v exam :
  offered m -> {{ staging_ok }} begin_staging config now m v exam {{ fun _ => staging_ok | staging_ok }}.
Proof.
  intros Hm. unfold begin_staging. destruct exam; [by apply triple_ret|].
  eapply triple_bind; [eapply triple_weaken; [apply (cleanup_off staging_ok)|by intros d c [? _]|done|done]|].
  intros []. apply triple_try with (mid := off).
  2:{ intros what. eapply triple_bind; [apply triple_cleanup with (post := off); by intros d c [[? ?] ?]|].
      intros []. apply triple_ret. apply off_staging. }
  eapply triple_bind; [apply create_if_configured, off_halts|]. intros [].
  eapply triple_bind; [apply remove_if_exists_none; [apply off_halts|apply off_drop]|]. intros []. cbn beta.
  set (pre := fun d c => off d c /\ file_of d (get_part_file_path config) = None).
  assert (Hh : halts package_ok pre) by (intros d c [Hp _]; by apply off_halts in Hp).
  eapply triple_bind with (mid := fun _ => pre).
  { eapply triple_weaken; [apply (remove_if_exists_none (get_final_package_path config) pre Hh)|..];
      [|done|by intros ? d c []|by intros d c []].
    intros d c [? E]. split; [by apply off_drop|]. rewrite file_of_drop, E. by case_bool_decide. }
  intros []. eapply triple_bind; [apply open_hash_off with (pre := pre)|].
  { by intros d c [? _]. }
  { by intros d c h [[? ?] ?]. }
  intros [message|]; [apply triple_ret; intros d c [[Hp _] _]; by apply off_staging|].
  eapply triple_bind; [apply triple_controller|]. intros c. cbv zeta.
  eapply triple_bind; [apply triple_set_controller with (post := staging_ok)|].
  { intros d c' [[[[[Hp _] _] Hpart] Hhash] ->]. split; [split; [done|by right]|]. intros _.
    exists m. unfold contents. rewrite Hpart. cbn. specialize (Hhash eq_refl).
    specialize (offered_length m Hm). change (len []) with 0. split_and!; try done. ulia. }
  intros []. eapply triple_bind; [apply save_keeps, staging_record_stable|].
  intros ?. by apply triple_ret.
Qed.

Lemma active_stream_true c :
  is_active_stream c = true -> sr_current_state (record_ c) = downloading /\ is_streaming c = true.
Proof. unfold is_active_stream. intros H. by bool_to_prop. Qed.

(** The controller while a chunk is being written: only the file changes. *)
Definition writing (c0 : Controller) (data : bytes) : Assertion := fun d c =>
  base_ok d c /\ c = c0 /\ contents d (get_part_file_path config) = data.

Lemma writing_put c0 data x d c :
  writing c0 data d c -> writing c0 x (put_file (get_part_file_path config) x d) c.
Proof.
  destruct paths_differ as (Hp & _ & _ & He & _). intros ([Hb Hpath] & -> & _).
  split; [split; [by apply package_put|done]|]. split; [done|].
  unfold contents. by rewrite file_of_put, bool_decide_eq_true_2.
Qed.

Lemma writing_halts c0 data : halts package_ok (writing c0 data).
Proof. by intros d c [[? _] _]. Qed.

Lemma writing_base c0 data d c : writing c0 data d c -> base_ok d c.
Proof. by intros [? _]. Qed.

Lemma wrap64_difference a b : u64 a -> 0 <= b <= a -> wrap64 (a - b) = a - b.
Proof. intros. unfold wrap64. apply Z.mod_small. ulia. Qed.

(** Only here does data lost at the end of a stream matter. *)
Lemma append_keeps now chunk :
  strict = true -> {{ staging_ok }} append_chunk config now chunk {{ fun _ => staging_ok | staging_ok }}.
Proof.
  intros Hstrict. unfold append_chunk. eapply triple_bind; [apply triple_controller|]. intros c0. cbv zeta.
  destruct (is_active_stream c0) eqn:Ha; cbn [negb]; [|by apply triple_ret; intros d c []].
  destruct (Z.gtb_spec (len chunk) (wrap64 (sr_expected_bytes (record_ c0) - sr_staged_bytes (record_ c0))))
    as [|Hfit].
  { eapply triple_weaken; [apply abort_then with (exc := staging_ok)|by intros d c [[? _] _]|done|done]. }
  apply triple_some with (P := fun data d c => stream_facts c0 data /\ writing c0 data d c).
  { intros d c [[Hb Hs] ->]. eexists. split; [by apply Hs|by split]. }
  intros data. apply triple_pure. intros (m & Hm & Hhash & Hstaged & Hle & Hexp & Hsha).
  pose proof (offered_length m Hm) as Hlen. pose proof (len_nonneg data).
  rewrite wrap64_difference in Hfit by ulia.
  assert (Hh : forall x, halts package_ok (writing c0 x)) by (intros; apply writing_halts).
  assert (Habort : forall x reason (res : UpdateStagingResult) exc,
    {{ writing c0 x }} (abort_staging config now reason;; ret res) {{ fun _ => staging_ok | exc }}).
  { intros. eapply triple_weaken; [by apply abort_then with (exc := exc)|by apply writing_base|done|done]. }
  apply triple_try with (mid := base_ok).
  2:{ intros what. apply abort_then. }
  eapply triple_bind with (mid := fun _ => writing c0 data).
  { apply triple_try_call; [intros d c Hp; pose proof Hp as (_ & _ & <-); by eapply writing_put|].
    intros n d c Hp. split; [done|by eapply Hh]. }
  intros []; cbn [negb]; [|apply Habort].
  eapply triple_bind with (mid := fun good d c => exists x, writing c0 x d c /\ (good = true -> x = data ++ chunk)).
  { apply triple_write.
    - intros d c Hp. exists (data ++ chunk). split; [|done].
      pose proof Hp as (_ & _ & <-). by eapply writing_put.
    - intros n d c Hp. pose proof Hp as (_ & _ & E). split.
      + eexists. split; [by eapply writing_put|done].
      + eapply Hh. by eapply writing_put.
    - congruence. }
  intros good. apply triple_some with (P := fun x d c => (good = true -> x = data ++ chunk) /\ writing c0 x d c).
  { intros d c (x & ? & ?). by exists x. }
  intros x. apply triple_pure. intros Hx. destruct good; cbn [negb]; [|apply Habort]. specialize (Hx eq_refl).
  subst x. eapply triple_bind; [by apply triple_try_quiet|].
  intros []; cbn [negb]; [|apply Habort].
  eapply triple_bind; [apply triple_set_controller with (post := staging_ok)|intros []; by apply triple_ret].
  intros d c ([Hpk Hpath] & -> & Hd). split; [by split|]. intros _. unfold stream_ok. rewrite Hd.
  exists m. cbn. rewrite Hhash, Hstaged, len_app. cbn. unfold wrap64.
  rewrite Z.mod_small by (pose proof (len_nonneg chunk); ulia). split_and!; try done. lia.
Qed.

(** The bytes of the package under its final name are those that were hashed. *)
Lemma finalize_keeps now :
  {{ staging_ok }} finalize_staging sha256 config now {{ fun _ => staging_ok | staging_ok }}.
Proof.
  unfold finalize_staging. eapply triple_bind; [apply triple_controller|]. intros c0. cbv zeta.
  destruct (is_active_stream c0) eqn:Ha; cbn [negb]; [|by apply triple_ret; intros d c []].
  destruct (Z.eqb_spec (sr_staged_bytes (record_ c0)) (sr_expected_bytes (record_ c0))) as [Hall|]; cbn [negb].
  2:{ eapply triple_weaken; [apply abort_then with (exc := staging_ok)|by intros d c [[? _] _]|done|done]. }
  apply triple_some with (P := fun data d c => stream_facts c0 data /\ writing c0 data d c).
  { intros d c [[Hb Hs] ->]. eexists. split; [by apply Hs|by split]. }
  intros data. apply triple_pure. intros (m & Hm & Hhash & Hstaged & Hle & Hexp & Hsha).
  eapply triple_bind; [apply triple_try_quiet; apply writing_halts|]. intros []; cbn [negb].
  2:{ eapply triple_weaken; [apply abort_then with (exc := staging_ok)|by apply writing_base|done|done]. }
  set (c1 := {| c0 with hash := None; is_streaming := false |}).
  eapply triple_bind; [apply triple_cleanup with (post := writing c1 data); by intros d c ([? ?] & -> & ?)|].
  intros []. rewrite Hhash. change (default [] (Some data)) with data.
  destruct (digest_matches sha256 data (sr_target_sha256_hex (record_ c0))) eqn:Hdig; cbn [negb].
  2:{ eapply triple_weaken; [apply abort_then with (exc := staging_ok)|by apply writing_base|done|done]. }
  apply triple_try with (mid := base_ok).
  2:{ intros what. apply abort_then. }
  destruct paths_differ as (Hpp & _ & _ & Hpe & _ & Hfe).
  eapply triple_bind with
    (mid := fun _ d c => writing c1 data d c /\ file_of d (get_final_package_path config) = None).
  { eapply triple_weaken; [apply (remove_if_exists_none (get_final_package_path config) (writing c1 data))
      |done|done|by apply writing_base]; [apply writing_halts|].
    intros d c ([? ?] & -> & E). split; [split; [by apply package_drop|done]|]. split; [done|].
    unfold contents in *. by rewrite file_of_drop, bool_decide_eq_false_2. }
  intros []. eapply triple_bind with (mid := fun _ d c => base_ok d c /\ is_streaming c = false).
  { eapply triple_weaken; [eapply (triple_rename_file package_ok _ _
      (fun d c => writing c1 data d c /\ file_of d (get_final_package_path config) = None)
      (fun d c => base_ok d c /\ is_streaming c = false))|done|done|
      intros d c [H _]; exact (writing_base _ _ _ _ H)].
    - by intros d c [? _]; eapply writing_halts.
    - intros d c x [([[He _] Hpath] & -> & E) _] Hx. unfold contents in E. rewrite Hx in E. cbn in E. subst x.
      split; [|done]. split; [|done]. split.
      + by rewrite file_of_put, file_of_drop, !bool_decide_eq_false_2.
      + intros x. rewrite file_of_put, bool_decide_eq_true_2 by done. intros [= <-].
        exists m. rewrite <- Hexp, <- Hsha, <- Hall. split_and!; congruence || done. }
  intros []. eapply triple_bind; [apply triple_set_record with (post := off)|].
  { intros d c [[? ?] ?]. split; [split; [done|by right]|done]. }
  intros []. eapply triple_bind; [apply save_keeps, off_record_stable|].
  intros ?. apply triple_ret. apply off_staging.
Qed.

Lemma bind_record_path_package s p :
  bind_record_path same_path s (get_final_package_path config) false = Some p ->
  p = [] \/ p = get_final_package_path config.
Proof.
  unfold bind_record_path. case_bool_decide; [intros [= <-]; by left|].
  destruct (_ || _ || _); [done|]. destruct (separators s); [done|].
  destruct (same_path _ _ _); [|done]. intros [= <-]. by right.
Qed.

(** No download is running. *)
Definition ready : Assertion := fun d c => base_ok d c /\ sr_current_state (record_ c) <> downloading.

Lemma ready_staging d c : ready d c -> staging_ok d c.
Proof. intros [? Hs]. split; [done|]. by intros [? _]%active_stream_true. Qed.

Lemma ready_halts : halts package_ok ready.
Proof. by intros d c [[? _] _]. Qed.

Lemma ready_record_stable : record_stable package_ok config ready.
Proof.
  destruct base_record_stable as [H1 H2]. split; [intros d c [Hb _]; by eapply H1|].
  intros d c x [Hb Hs]. by split; [apply H2|].
Qed.

Lemma ready_drop path d c : ready d c -> ready (drop_file path d) c.
Proof. intros [[? ?] ?]. split; [split; [by apply package_drop|done]|done]. Qed.

(** Trees are no part of it. *)
Lemma ready_trees d d' c : files d' = files d -> ready d c -> ready d' c.
Proof. intros E [[? ?] ?]. split; [split; [|done]|done]. unfold package_ok, file_of in *. by rewrite E. Qed.

Lemma ready_set_record d c c' r :
  ready d c -> sr_current_state r <> downloading ->
  sr_staged_package_path r = [] \/ sr_staged_package_path r = get_final_package_path config ->
  ready d {| c' with record_ := r |}.
Proof. by intros [[? ?] ?] ? ?. Qed.

Lemma save_ready (res : UpdateStagingResult) exc :
  {{ ready }} (save_record_to_disk config;; ret res) {{ fun _ => staging_ok | exc }}.
Proof. apply save_then; [apply ready_record_stable|apply ready_staging]. Qed.

(** A loaded record is never that of a running download. *)
Lemma init_loaded_keeps content :
  {{ staging_ok }} init_loaded same_path config content {{ fun _ => staging_ok | staging_ok }}.
Proof.
  unfold init_loaded. destruct (_ >? _); [by apply triple_ret|].
  destruct (import_staging_record_json content) as [r|]; [|by apply triple_ret].
  destruct (bind_record_path _ _ (get_final_package_path config) _) as [package|] eqn:Ep; [|by apply triple_ret].
  destruct (bind_record_path _ _ (backup_directory config) _) as [backup|]; [|by apply triple_ret]. cbv zeta.
  apply bind_record_path_package in Ep.
  eapply triple_bind; [apply triple_try_quiet, staging_halts|].
  intros []; cbn [negb]; [|by apply triple_ret].
  eapply triple_bind; [apply triple_set_record with (post := fun d c => base_ok d c /\
    sr_current_state (record_ c) = sr_current_state r)|].
  { intros d c [[? _] _]. split; [by split|]. done. }
  intros []. cbn [sr_current_state]. case_bool_decide as Hstate.
  - eapply triple_bind; [apply triple_set_record with (post := ready)|].
    { intros d c ([? _] & _). by split. }
    intros []. eapply triple_bind with (mid := fun _ => ready).
    { apply triple_call; [intros d c; apply ready_drop|]. intros n d c Hr.
      split; [by apply ready_staging|by apply ready_halts in Hr]. }
    intros []. apply save_ready.
  - apply triple_ret. intros d c (? & Hs). apply ready_staging. split; congruence.
Qed.

Lemma init_keeps : {{ staging_ok }} init same_path config {{ fun _ => staging_ok | staging_ok }}.
Proof.
  unfold init. apply triple_try with (mid := staging_ok); [|intros what; by apply triple_ret].
  eapply triple_bind; [apply create_if_configured, staging_halts|]. intros [].
  eapply triple_bind with (mid := fun _ => staging_ok).
  { intros w Hw Hp. unfold read_record_file.
    pose proof (triple_try_quiet package_ok staging_ok staging_ok staging_halts w Hw Hp) as H.
    by destruct (try_call nothing nothing_yet w) as [[[]|what|] w']. }
  intros [[content|]|message]; [apply init_loaded_keeps| |by apply triple_ret].
  eapply triple_bind; [apply triple_set_record with (post := ready)|].
  { intros d c [[? _] _]. split; [|done]. split; [done|by left]. }
  intros []. apply triple_ret, ready_staging.
Qed.

Lemma abort_keeps now reason :
  {{ staging_ok }} abort_staging config now reason {{ fun _ => staging_ok | staging_ok }}.
Proof.
  eapply triple_weaken; [apply (abort_off now reason staging_ok)|by intros d c [? _]|..|done].
  intros ? d c. apply off_staging.
Qed.

(** *** Promotion *)

(** The installed binary is one that an offered manifest describes. *)
Definition installed (name : bytes) (d : Disk) : Prop :=
  exists t x, tree_of d (active_directory config) = Some t /\ t !! name = Some x /\ genuine x.

Lemma restore_backup_keeps : {{ ready }} restore_backup config {{ fun _ => ready | ready }}.
Proof.
  unfold restore_backup. eapply triple_bind; [apply triple_record|]. intros r.
  set (pre := fun d c => ready d c /\ r = record_ c).
  assert (Hh : halts package_ok pre) by (intros d c [Hp _]; by apply ready_halts in Hp).
  case_bool_decide; [apply triple_ret; by intros d c []|].
  eapply triple_bind; [eapply triple_weaken; [by apply triple_exists with (pre := pre)|done|done|by intros d c []]|].
  intros saved. destruct saved; cbn [negb]; [|apply triple_ret; by intros d c [[] _]].
  eapply triple_bind; [eapply triple_weaken; [by apply triple_exists with (pre := pre)|by intros d c []|done|by intros d c []]|].
  intros active. destruct active; [apply triple_ret; by intros d c [[] _]|].
  apply triple_try with (mid := ready); [|intros what; by apply triple_ret].
  eapply triple_bind.
  - eapply triple_weaken; [apply (triple_rename_tree package_ok _ _ pre pre Hh)|by intros d c []|done|by intros d c []].
    intros d c t [Hp ->] _ _. split; [by eapply ready_trees|done].
  - intros []. apply triple_set_record. intros d c [Hp ->]. destruct Hp as [[? ?] ?].
    by apply ready_set_record with (c := c).
Qed.

Lemma ready_remove_all path d n c :
  ready d c ->
  ready (drop_tree path (drop_file path d)) c /\
  ready (match tree_of d path with
         | Some t => put_tree path (list_to_map (drop n (map_to_list t))) d
         | None => d end) c.
Proof.
  intros Hr. split; [by apply (ready_trees (drop_file path d)), ready_drop|].
  eapply ready_trees; [|done]. by destruct (tree_of d _).
Qed.

Lemma remove_all_keeps path exc :
  (forall d c, ready d c -> exc d c) -> {{ ready }} fs_remove_all path {{ fun _ => ready | exc }}.
Proof.
  intros He. apply triple_call; [intros d c Hr; by apply (ready_remove_all path d 0)|].
  intros n d c Hr. destruct (ready_remove_all path d n c Hr) as [_ Hp].
  split; [by apply He|by apply ready_halts in Hp].
Qed.

(** The value of a test is used, its assertion kept. *)
Lemma exists_ready path :
  {{ ready }} fs_exists path {{ fun _ => ready | ready }}.
Proof. eapply triple_weaken; [apply triple_exists, ready_halts|done|by intros found d c []|done]. Qed.

Lemma clear_old_backup_ready : {{ ready }} clear_old_backup config {{ fun _ => ready | ready }}.
Proof.
  unfold clear_old_backup. case_bool_decide; [by apply triple_ret|].
  eapply triple_bind; [apply exists_ready|]. intros []; [by apply remove_all_keeps|by apply triple_ret].
Qed.

Lemma back_up_active_ready r :
  sr_current_state r <> downloading ->
  sr_staged_package_path r = [] \/ sr_staged_package_path r = get_final_package_path config ->
  {{ ready }} back_up_active config r {{ fun _ => ready | ready }}.
Proof.
  intros Hnd Hpath. unfold back_up_active. eapply triple_bind; [apply exists_ready|].
  intros []; [|by apply triple_ret].
  eapply triple_bind; [apply triple_quiet, ready_halts|].
  intros []. eapply triple_bind; [apply triple_rename_tree with (post := ready); [apply ready_halts|]|].
  { intros d c t Hr _ _. by eapply ready_trees. }
  intros []. apply triple_set_record. intros d c Hr. by apply ready_set_record with (c := c).
Qed.

Lemma apply_keeps now name :
  {{ staging_ok }} apply_staged_update config now name
  {{ fun res d c => staging_ok d c /\ (fst res = us_ok -> installed name d) | staging_ok }}.
Proof.
  unfold apply_staged_update. eapply triple_bind; [apply triple_record|]. intros r.
  case_bool_decide as Hstate; cbn [negb]; [|apply triple_ret; by intros d c [? _]].
  assert (Hnd : sr_current_state r <> downloading) by (intros E; rewrite E in Hstate; destruct Hstate as [H|H]; discriminate H).
  apply triple_some with (P := fun (_ : unit) d c =>
    (sr_staged_package_path r = [] \/ sr_staged_package_path r = get_final_package_path config) /\ ready d c).
  { intros d c [[[? Hp] _] ->]. exists tt. by split. }
  intros []. apply triple_pure. intros Hpath.
  apply triple_try with (mid := ready).
  2:{ intros what. eapply triple_bind; [eapply triple_weaken; [apply restore_backup_keeps|done|done|apply ready_staging]|].
      intros []. apply triple_ret. intros d c Hr. split; [by apply ready_staging|done]. }
  eapply triple_bind; [apply triple_exists, ready_halts|].
  intros found. destruct found; cbn [negb];
    [|apply triple_ret; intros d c [Hr _]; split; [by apply ready_staging|done]].
  eapply triple_bind; [eapply triple_weaken; [apply clear_old_backup_ready|by intros d c [? _]|done|done]|].
  intros []. eapply triple_bind; [by apply back_up_active_ready|].
  intros []. eapply triple_bind; [apply triple_call with (post := ready)|].
  { intros d c Hr. eapply ready_trees; [|done]. by destruct (tree_of d _). }
  { intros n d c Hr. split; [done|by apply ready_halts in Hr]. }
  intros []. eapply triple_bind; [apply triple_copy_file with (post := fun d c => ready d c /\ installed name d)|].
  { apply ready_halts. }
  { done. }
  { intros d c x t Hr Hx Ht. split; [split; [by eapply ready_trees|]|].
    - exists (<[name := x]> t), x. unfold tree_of, put_tree. cbn. rewrite lookup_insert_eq.
      split; [done|]. split; [apply lookup_insert_eq|]. destruct Hr as [[[He Hg] _] _]. destruct Hpath as [Hp|Hp]; rewrite Hp in Hx; [congruence|].
      by apply Hg.
    - intros n. assert (Hr' : ready (put_tree (active_directory config) (<[name := take n x]> t) d) c)
        by by eapply ready_trees.
      split; [done|by apply ready_halts in Hr']. }
  intros []. eapply triple_bind; [apply triple_record|]. intros r'.
  eapply triple_bind; [apply triple_set_record with (post := fun d c => ready d c /\ installed name d)|].
  { intros d c [[Hr Hi] ->]. split; [|done]. destruct Hr as [[? ?] ?]. by apply ready_set_record with (c := c). }
  intros []. apply save_then; [|intros d c [? ?]; split; [by apply ready_staging|done]].
  destruct ready_record_stable as [H1 H2]. split; [intros d c [? _]; by eapply H1|].
  intros d c x [? ?]. split; [by apply H2|done].
Qed.

(** *** Commit and rollback *)

Lemma remove_if_exists_ready path :
  {{ ready }} remove_if_exists path {{ fun _ => ready | ready }}.
Proof.
  eapply triple_weaken; [apply (remove_if_exists_none path ready ready_halts (ready_drop path))|done|
    by intros ? d c []|done].
Qed.

(** A validating record, with its facts. *)
Lemma validating_ready {A} r (m : M A) post :
  sr_current_state r = validating ->
  (sr_staged_package_path r = [] \/ sr_staged_package_path r = get_final_package_path config ->
   {{ ready }} m {{ post | staging_ok }}) ->
  triple (strict := strict) package_ok (fun d c => staging_ok d c /\ r = record_ c) m post staging_ok.
Proof.
  intros Hs Hm. apply triple_some with (P := fun (_ : unit) d c =>
    (sr_staged_package_path r = [] \/ sr_staged_package_path r = get_final_package_path config) /\ ready d c).
  { intros d c [[[? Hp] _] ->]. exists tt. split; [done|]. split; [done|]. by rewrite Hs. }
  intros []. by apply triple_pure.
Qed.

Lemma commit_keeps now :
  {{ staging_ok }} commit_update config now {{ fun _ => staging_ok | staging_ok }}.
Proof.
  unfold commit_update. eapply triple_bind; [apply triple_record|]. intros r.
  case_bool_decide as Hstate; cbn [negb]; [|apply triple_ret; by intros d c [? _]].
  apply validating_ready; [done|]. intros Hpath.
  apply triple_try with (mid := ready); [|intros what; apply triple_ret, ready_staging].
  eapply triple_bind with (mid := fun _ => ready).
  { case_bool_decide; [by apply triple_ret|]. eapply triple_bind; [apply exists_ready|].
    intros []; [by apply remove_all_keeps|by apply triple_ret]. }
  intros []. eapply triple_bind; [apply triple_set_record with (post := ready)|].
  { intros d c Hr. apply ready_set_record with (c := c); [done|cbn; congruence|done]. }
  intros []. eapply triple_bind with (mid := fun _ => ready).
  { case_bool_decide; [by apply triple_ret|apply remove_if_exists_ready]. }
  intros []. eapply triple_bind; [apply triple_set_record with (post := ready)|].
  { intros d c Hr. by apply ready_set_record with (c := c). }
  intros []. apply save_ready.
Qed.

Lemma rollback_keeps now :
  {{ staging_ok }} rollback_update config now {{ fun _ => staging_ok | staging_ok }}.
Proof.
  unfold rollback_update. eapply triple_bind; [apply triple_record|]. intros r.
  case_bool_decide as Hstate; cbn [negb]; [|apply triple_ret; by intros d c [? _]].
  apply validating_ready; [done|]. intros Hpath.
  apply triple_try with (mid := ready).
  2:{ intros what. eapply triple_bind; [apply triple_record|]. intros r'.
      eapply triple_bind; [apply triple_set_record with (post := ready)|intros []; apply save_ready].
      intros d c [[[? Hp] ?] ->]. by apply ready_set_record with (c := c). }
  eapply triple_bind with (mid := fun _ => ready).
  { case_bool_decide; [by apply triple_ret|apply exists_ready]. }
  intros saved. destruct saved; cbn [negb].
  2:{ eapply triple_bind; [apply triple_set_record with (post := ready)|intros []; apply save_ready].
      intros d c Hr. by apply ready_set_record with (c := c). }
  eapply triple_bind with (mid := fun _ => ready).
  { eapply triple_bind; [apply exists_ready|].
    intros []; [by apply remove_all_keeps|by apply triple_ret]. }
  intros []. eapply triple_bind; [apply triple_rename_tree with (post := ready); [apply ready_halts|]|].
  { intros d c t Hr _ _. by eapply ready_trees. }
  intros []. eapply triple_bind; [apply triple_set_record with (post := ready)|intros []; apply save_ready].
  intros d c Hr. by apply ready_set_record with (c := c).
Qed.

(** *** Histories *)

(** What of a package is on the disk after a power loss was there before. *)
Definition spares_package (after : Disk -> Disk) : Prop :=
  forall d, file_of d [] = None ->
    file_of (after d) [] = None /\
    forall x, file_of (after d) (get_final_package_path config) = Some x ->
      file_of d (get_final_package_path config) = Some x.

(** The operation whose streams must not lose data. *)
Definition writes_chunk (op : Op) : bool := match op with op_append_chunk _ => true | _ => false end.

Definition op_offers (op : Op) : Prop :=
  match op with
  | op_begin_staging m _ _ => offered m
  | op_power_loss after => spares_package after
  | _ => True
  end.

Lemma run_op_keeps op now :
  op_offers op -> strict = writes_chunk op ->
  {{ staging_ok }} run_op sha256 same_path config op now {{ fun _ => staging_ok | staging_ok }}.
Proof.
  intros Ho Hstrict. destruct op; cbn [run_op].
  - apply init_keeps.
  - eapply triple_bind; [apply deferred_keeps|]. intros ?. by apply triple_ret.
  - by apply begin_keeps.
  - by apply append_keeps.
  - apply finalize_keeps.
  - apply abort_keeps.
  - eapply triple_weaken; [apply apply_keeps|done|by intros ? d c []|done].
  - apply commit_keeps.
  - apply rollback_keeps.
  - eapply triple_bind; [apply triple_set_controller with (post := ready)|].
    { intros d c [[? _] _]. split; [split; [done|by left]|done]. }
    intros []. apply triple_ret, ready_staging.
  - eapply triple_bind with (mid := fun _ => base_ok).
    { intros w Hw [[[Hno Hpk] Hpath] _]. cbn. split; [done|]. destruct (Ho (disk w) Hno) as [He Hf].
      split; [split; [done|]|done]. intros x Hx. by apply Hpk, Hf. }
    intros []. eapply triple_bind; [apply triple_set_controller with (post := ready)|].
    { intros d c [? _]. split; [split; [done|by left]|done]. }
    intros []. apply triple_ret, ready_staging.
Qed.
End Invariant.

(** An event of a history: the outcomes of its calls are arbitrary, but that no
    chunk is lost as its stream is closed; a power loss spares the package. *)
Definition admissible (config : UpdateStagingConfig) (offered : UpdateManifest -> Prop) (e : Event) : Prop :=
  honest (writes_chunk (ev_op e)) (ev_outcomes e) /\ op_offers config offered (ev_op e).

Lemma history_keeps sha256 same_path config offered es s :
  (forall m, offered m -> u64 (um_byte_length m)) ->
  Forall (admissible config offered) es ->
  staging_ok sha256 config offered (fst s) (snd s) ->
  let s' := history sha256 same_path config s es in staging_ok sha256 config offered (fst s') (snd s').
Proof.
  intros Hlen Hes. revert s. induction Hes as [|e es [Hh Ho] _ IH]; intros s Hs; [done|].
  apply IH. unfold step.
  pose proof (run_op_keeps sha256 same_path config offered Hlen (ev_op e) (ev_now e) Ho eq_refl (mkWorld (fst s) (ev_outcomes e) (snd s)) Hh Hs) as H.
  destruct (run_op _ _ _ _ _ _) as [[a|what|] w]; destruct H as [_ H]; [done|done|]. cbn.
  apply ready_staging. split; [split; [done|by left]|done].
Qed.

(** C24. After any history of calls, failures, restarts and power losses in which
    no chunk is lost as its stream is closed and a power loss spares the promoted
    package (it may leave anything else, as the record, the part file and the
    directories), and whatever happens to the calls below: when an update is
    applied, the installed binary has the length and the digest of a manifest
    that staging was begun with. *)
Theorem installed_update_was_offered sha256 same_path config offered d es now name os :
  (forall m, offered m -> u64 (um_byte_length m)) ->
  file_of d [] = None -> file_of d (get_final_package_path config) = None ->
  Forall (admissible config offered) es ->
  let s := history sha256 same_path config (d, new_controller) es in
  let '(r, w) := apply_staged_update config now name (mkWorld (fst s) os (snd s)) in
  match r with
  | Value (us_ok, _) => installed sha256 config offered name (disk w)
  | _ => True
  end.
Proof.
  intros Hlen He Hd Hes s.
  assert (Hs : staging_ok sha256 config offered (fst s) (snd s)).
  { apply history_keeps; [done|done|]. apply ready_staging.
    split; [split; [split; [done|]|by left]|done]. cbn. intros x Hx. congruence. }
  pose proof (apply_keeps (strict := false) sha256 config offered now name (mkWorld (fst s) os (snd s)) ltac:(done) Hs) as H.
  destruct (apply_staged_update _ _ _ _) as [[[error message]|what|] w]; [|done|done].
  destruct H as (_ & _ & H). destruct error; try done. by apply H.
Qed.

(** ** The previous installation *)

Section Installation.
Context (config : UpdateStagingConfig) (previous : Tree) {strict : bool}.
Hypothesis separate : active_directory config <> backup_directory config.
Hypothesis backup_configured : backup_directory config <> [].

Definition active_is : Assertion := fun d _ => tree_of d (active_directory config) = Some previous.

Definition backup_is : Assertion := fun d _ => tree_of d (backup_directory config) = Some previous.

(** The previous installation is still there. *)
Definition kept (d : Disk) : Prop :=
  tree_of d (active_directory config) = Some previous \/ tree_of d (backup_directory config) = Some previous.

Definition kept_by : Assertion := fun d _ => kept d.

Notation "{{ pre }} m {{ post | exc }}" := (triple (strict := strict) kept pre m post exc)
  (at level 90, m at level 100, post at level 200, exc at level 200).

Lemma tree_of_put d p t q : tree_of (put_tree p t d) q = if bool_decide (p = q) then Some t else tree_of d q.
Proof. unfold tree_of, put_tree. cbn. case_bool_decide; [subst; apply lookup_insert_eq|by apply lookup_insert_ne]. Qed.

Lemma tree_of_drop d p q : tree_of (drop_tree p d) q = if bool_decide (p = q) then None else tree_of d q.
Proof. unfold tree_of, drop_tree. cbn. case_bool_decide; [subst; apply lookup_delete_eq|by apply lookup_delete_ne]. Qed.

Lemma kept_stable : record_stable kept config kept_by.
Proof. by split. Qed.

(** In the backup, where the record says. *)
Definition saved : Assertion := fun d c =>
  backup_is d c /\ sr_backup_path (record_ c) = backup_directory config.

Lemma saved_stable : record_stable kept config saved.
Proof. split; [intros d c [? _]; by right|done]. Qed.

Lemma kept_halts : halts kept kept_by.
Proof. by intros d c ?. Qed.

Lemma active_halts : halts kept active_is.
Proof. intros d c ?. by left. Qed.

Lemma saved_halts : halts kept saved.
Proof. intros d c [? _]. by right. Qed.

Lemma exists_kept path (pre : Assertion) :
  halts kept pre -> {{ pre }} fs_exists path {{ fun found d c => pre d c /\ found = present d path | kept_by }}.
Proof. intros Hh. eapply triple_weaken; [by apply triple_exists|done|done|exact Hh]. Qed.

(** Removing another tree, completely or in part. *)
Lemma remove_other path (pre : Assertion) :
  halts kept pre ->
  (forall d c, pre d c -> pre (drop_tree path (drop_file path d)) c) ->
  (forall d c t, pre d c -> pre (put_tree path t d) c) ->
  {{ pre }} fs_remove_all path {{ fun _ => pre | kept_by }}.
Proof.
  intros Hh Hdrop Hput. apply triple_call; [done|]. intros n d c Hp.
  assert (Hp' : pre (match tree_of d path with
    | Some t => put_tree path (list_to_map (drop n (map_to_list t))) d | None => d end) c)
    by (destruct (tree_of d path); [by apply Hput|done]).
  apply Hh in Hp'. by split.
Qed.

Lemma restore_backup_kept : {{ kept_by }} restore_backup config {{ fun _ => kept_by | kept_by }}.
Proof.
  unfold restore_backup. eapply triple_bind; [apply triple_record|]. intros r.
  case_bool_decide; [apply triple_ret; by intros d c []|].
  eapply triple_bind; [eapply triple_weaken; [apply exists_kept, kept_halts|by intros d c []|done|done]|].
  intros found. destruct found; cbn [negb]; [|apply triple_ret; by intros d c []].
  eapply triple_bind; [eapply triple_weaken; [apply exists_kept, kept_halts|by intros d c []|done|done]|].
  intros found. destruct found; [apply triple_ret; by intros d c []|].
  apply triple_try with (mid := kept_by); [|intros what; by apply triple_ret].
  eapply triple_bind; [eapply triple_weaken; [apply (triple_rename_tree kept _ _ kept_by kept_by kept_halts)
    |by intros d c []|done|done]|intros []; by apply triple_set_record].
  intros d c t Hk Ht Hto. unfold kept_by, kept in *. rewrite !tree_of_put, !tree_of_drop.
  unfold present in Hto. apply orb_false_iff in Hto as [_ Hto]. apply bool_decide_eq_false in Hto.
  destruct Hk as [Hk|Hk]; [rewrite Hk in Hto; by destruct Hto|].
  rewrite (bool_decide_eq_false_2 (active_directory config = backup_directory config)) by done.
  rewrite bool_decide_eq_true_2 by done. case_bool_decide; [left; congruence|by right].
Qed.

Lemma clear_old_backup_active :
  {{ active_is }} clear_old_backup config {{ fun _ => active_is | kept_by }}.
Proof using separate backup_configured.
  unfold clear_old_backup. rewrite bool_decide_eq_false_2 by done.
  eapply triple_bind; [apply exists_kept, active_halts|].
  intros []; [|apply triple_ret; by intros d c [? _]].
  eapply triple_weaken; [apply (remove_other _ active_is); [apply active_halts|..]|by intros d c [? _]|done|done];
    unfold active_is; intros; rewrite ?tree_of_drop, ?tree_of_put, bool_decide_eq_false_2 by done; done.
Qed.

Lemma back_up_active_saves r :
  {{ active_is }} back_up_active config r {{ fun _ => saved | kept_by }}.
Proof using separate backup_configured.
  unfold back_up_active. eapply triple_bind; [apply exists_kept, active_halts|]. intros []; cbn beta.
  2:{ apply triple_ret. intros d c [Ha Hp]. unfold active_is in Ha. unfold present in Hp.
      rewrite Ha in Hp. symmetry in Hp. by apply orb_false_iff in Hp as [_ ?]. }
  eapply triple_bind; [eapply triple_weaken; [apply triple_quiet, active_halts|by intros d c [? _]|done|apply active_halts]|].
  intros []. eapply triple_bind; [eapply triple_weaken; [apply triple_rename_tree with (post := backup_is);
    [apply active_halts|]|done|done|apply active_halts]|].
  { intros d c t Ha Ht _. unfold active_is, backup_is in *. rewrite tree_of_put, bool_decide_eq_true_2 by done. congruence. }
  intros []. apply triple_set_record. by intros d c ?.
Qed.

Lemma apply_saves now name :
  {{ active_is }} apply_staged_update config now name
  {{ fun res d c => kept d /\ (fst res = us_ok -> saved d c /\ sr_current_state (record_ c) = validating)
   | kept_by }}.
Proof using separate backup_configured.
  unfold apply_staged_update. eapply triple_bind; [apply triple_record|]. intros r.
  destruct (negb _); [apply triple_ret; intros d c [? _]; split; [by left|done]|].
  apply triple_try with (mid := kept_by).
  2:{ intros what. eapply triple_bind; [apply restore_backup_kept|]. intros []. by apply triple_ret. }
  eapply triple_bind; [eapply triple_weaken; [apply exists_kept, active_halts|by intros d c [? _]|done|done]|].
  intros found. destruct found; cbn [negb]; [|apply triple_ret; intros d c [? _]; split; [by left|done]].
  eapply triple_bind; [eapply triple_weaken; [apply clear_old_backup_active|by intros d c [? _]|done|done]|].
  intros []. eapply triple_bind; [apply back_up_active_saves|].
  intros []. eapply triple_bind; [apply triple_call with (post := saved)|].
  { intros d c [Hb ?]. split; [|done]. unfold backup_is in *. destruct (tree_of d (active_directory config)); [done|].
    by rewrite tree_of_put, bool_decide_eq_false_2. }
  { intros n d c Hs. split; by apply saved_halts in Hs. }
  assert (Hput : forall d c t, saved d c -> saved (put_tree (active_directory config) t d) c).
  { intros d c t [Hb ?]. split; [|done]. unfold backup_is in *. by rewrite tree_of_put, bool_decide_eq_false_2. }
  intros []. eapply triple_bind; [apply triple_copy_file with (post := saved); [apply saved_halts|apply saved_halts|]|].
  { intros d c x t Hs _ _. split; [by apply Hput|]. intros n.
    pose proof (Hput d c (<[name := take n x]> t) Hs) as Hs'. split; by apply saved_halts in Hs'. }
  intros []. eapply triple_bind; [apply triple_record|]. intros r'.
  set (done_with := fun d c => saved d c /\ sr_current_state (record_ c) = validating).
  eapply triple_bind; [apply triple_set_record with (post := done_with)|].
  { by intros d c [[? ?] ->]. }
  intros []. apply save_then.
  - split; [by intros d c [[? _] _]; right|by intros d c x [[? ?] ?]].
  - intros d c Hd. split; [destruct Hd as [[? _] _]; by right|done].
Qed.

Lemma rollback_restores now :
  triple (strict := strict) kept (fun d c => saved d c /\ sr_current_state (record_ c) = validating)
    (rollback_update config now)
    (fun res d c => kept d /\ (fst res = us_ok -> active_is d c)) kept_by.
Proof using separate backup_configured.
  unfold rollback_update. eapply triple_bind; [apply triple_record|]. intros r.
  apply triple_some with (P := fun (_ : unit) d c =>
    (sr_current_state r = validating /\ sr_backup_path r = backup_directory config) /\ saved d c).
  { intros d c [[[? ?] ?] ->]. by exists tt. }
  intros []. apply triple_pure. intros [Hs Hp]. rewrite Hs, Hp, bool_decide_eq_true_2 by done. cbn [negb].
  apply triple_try with (mid := kept_by).
  2:{ intros what. eapply triple_bind; [apply triple_record|]. intros r'.
      eapply triple_bind; [apply triple_set_record with (post := kept_by); by intros d c [? _]|].
      intros []. apply save_then; [apply kept_stable|done]. }
  rewrite bool_decide_eq_false_2 by done.
  eapply triple_bind; [apply exists_kept, saved_halts|]. intros found. destruct found; cbn [negb].
  2:{ eapply triple_bind; [apply triple_set_record with (post := kept_by); intros d c [? _]; by apply saved_halts in H|].
      intros []. apply save_then; [apply kept_stable|done]. }
  eapply triple_bind with (mid := fun _ => saved).
  { eapply triple_bind; [eapply triple_weaken; [apply exists_kept, saved_halts|by intros d c [? _]|done|done]|].
    intros []; [|apply triple_ret; by intros d c [? _]].
    eapply triple_weaken; [apply (remove_other _ saved); [apply saved_halts|..]|by intros d c [? _]|done|done];
      unfold saved, backup_is; intros; rewrite ?tree_of_drop, ?tree_of_put, bool_decide_eq_false_2 by done; done. }
  intros []. eapply triple_bind; [eapply triple_weaken; [apply triple_rename_tree with (post := active_is);
    [apply saved_halts|]|done|done|apply saved_halts]|].
  { intros d c t [Hb _] Ht _. unfold active_is, backup_is in *. rewrite tree_of_put, bool_decide_eq_true_2 by done. congruence. }
  intros []. eapply triple_bind; [by apply triple_set_record with (post := active_is)|].
  intros []. apply save_then; [split; [by left|done]|]. intros d c ?. split; [by left|done].
Qed.
End Installation.

(** However the calls below it fail or stop, one application of an update leaves the previous installation in the active
    or in the backup directory; after a successful one it is in the backup, and a
    rollback keeps it and, when it succeeds, puts it back. *)
Theorem previous_installation_survives config previous d c now name os :
  active_directory config <> backup_directory config -> backup_directory config <> [] ->
  tree_of d (active_directory config) = Some previous ->
  let '(r, w) := apply_staged_update config now name (mkWorld d os c) in
  kept config previous (disk w) /\
  match r with
  | Value (us_ok, _) =>
      tree_of (disk w) (backup_directory config) = Some previous /\
      forall now' os',
        let '(r', w') := rollback_update config now' (mkWorld (disk w) os' (controller w)) in
        kept config previous (disk w') /\
        match r' with
        | Value (us_ok, _) => tree_of (disk w') (active_directory config) = Some previous
        | _ => True
        end
  | _ => True
  end.
Proof.
  intros Hsep Hb Ha.
  pose proof (apply_saves (strict := false) config previous Hsep Hb now name (mkWorld d os c) ltac:(done) Ha) as H.
  destruct (apply_staged_update _ _ _ _) as [[[error message]|what|] w]; destruct H as [_ H]; [|done..].
  destruct H as [Hk H]. split; [done|]. destruct error; try done. destruct (H eq_refl) as [Hs Hv].
  split; [apply Hs|]. intros now' os'.
  pose proof (rollback_restores (strict := false) config previous Hsep Hb now' (mkWorld (disk w) os' (controller w)) ltac:(done)
    (conj Hs Hv)) as H'.
  destruct (rollback_update _ _ _) as [[[error' message']|what'|] w']; destruct H' as [_ H']; [|done..].
  destruct H' as [Hk' H']. split; [done|]. destruct error'; try done. by apply H'.
Qed.

(** ** An example *)

Definition example_config : UpdateStagingConfig :=
  mkConfig (text "C:\Staging") (text "C:\Client") (text "C:\Backup").

Definition binary : bytes := text "nstu-service.exe".

Definition offered_manifest : UpdateManifest :=
  let m := example_manifest in
  {| m with um_byte_length := 6; um_sha256_hex := bytes_to_hex (text "update") |}.

Definition old_tree : Tree := {[binary := text "old"]}.

Definition example_disk : Disk := mkDisk ∅ {[active_directory example_config := old_tree]}.

Definition staging_events (chunk_outcomes : list Outcome) : list Event :=
  [mkEvent op_init 1 [];
   mkEvent (op_begin_staging offered_manifest (mkVersion 2 9 0) false) 2 [];
   mkEvent (op_append_chunk (text "upd")) 3 chunk_outcomes;
   mkEvent (op_append_chunk (text "ate")) 4 [];
   mkEvent op_finalize_staging 5 []].

(** A digest and path comparison to run the example with. *)
Definition equal_path (directory : bool) (a b : bytes) : bool := bool_decide (a = b).

Definition example_history (es : list Event) : Disk * Controller :=
  history id equal_path example_config (example_disk, new_controller) es.

(** A first download ends in a power loss that leaves one byte of the part file
    and a torn record; the record of the second is lost as it is saved. *)
Definition torn (d : Disk) : Disk :=
  let part := get_part_file_path example_config in
  put_file part (take 1 (contents d part)) (put_file (get_record_file_path example_config) (text "{") d).

Lemma torn_spares_package : spares_package example_config torn.
Proof.
  intros d Hd. unfold torn. cbv zeta. rewrite !file_of_put, !bool_decide_eq_false_2 by (by vm_compute).
  by split.
Qed.

Definition interrupted_events : list Event :=
  [mkEvent op_init 1 [];
   mkEvent (op_begin_staging offered_manifest (mkVersion 2 9 0) false) 2 [];
   mkEvent (op_append_chunk (text "upd")) 3 [];
   mkEvent (op_power_loss torn) 4 [];
   mkEvent op_init 5 [];
   mkEvent (op_begin_staging offered_manifest (mkVersion 2 9 0) false) 6 (repeat success 8 ++ [lost 1]);
   mkEvent (op_append_chunk (text "upd")) 7 [];
   mkEvent (op_append_chunk (text "ate")) 8 [];
   mkEvent op_finalize_staging 9 []].

Lemma installed_update_was_offered_witness :
  let s := history id equal_path example_config (example_disk, new_controller) interrupted_events in
  installed id example_config (eq offered_manifest) binary
    (disk (snd (apply_staged_update example_config 6 binary (mkWorld (fst s) [] (snd s))))).
Proof.
  intros s.
  assert (E : fst (apply_staged_update example_config 6 binary (mkWorld (fst s) [] (snd s))) = Value succeeded)
    by (vm_compute; reflexivity).
  pose proof (installed_update_was_offered id equal_path example_config
    (eq offered_manifest) example_disk interrupted_events 6 binary []) as H.
  cbv zeta in H. fold s in H.
  destruct (apply_staged_update example_config 6 binary (mkWorld (fst s) [] (snd s))) as [r w].
  cbn [fst snd] in E |- *. subst r. apply H.
  - intros m <-. by vm_compute.
  - done.
  - done.
  - repeat (constructor; [split; [intros [=]; repeat constructor|try done]|]); [|constructor].
    exact torn_spares_package.
Defined.

Definition staged_controller : Controller :=
  mkController
    (mkRecord (text "1.0") (mkVersion 2 9 0) (mkVersion 2 10 3) [] 6 6 staged [] 5 false []
      (get_final_package_path example_config)) None false.

Lemma example_disk_active :
  tree_of example_disk (active_directory example_config) = Some old_tree.
Proof. apply lookup_singleton_eq. Qed.

Lemma previous_installation_survives_witness :
  let '(_, w) := apply_staged_update example_config 6 binary (mkWorld example_disk [] staged_controller) in
  kept example_config old_tree (disk w).
Proof.
  pose proof (previous_installation_survives example_config old_tree example_disk staged_controller 6 binary []) as H.
  destruct (apply_staged_update example_config 6 binary (mkWorld example_disk [] staged_controller)) as [r w].
  apply H; [by vm_compute|by vm_compute|exact example_disk_active].
Defined.

(** A chunk lost when its stream was closed is not noticed: the package is
    promoted without it. *)
Example lost_chunk_is_promoted :
  let s := example_history (staging_events [success; lost 0]) in
  sr_current_state (record_ (snd s)) = staged /\
  file_of (fst s) (get_final_package_path example_config) = Some (text "ate").
Proof. split; vm_compute; reflexivity. Qed.

(** The package is not flushed before it is promoted, nor its digest compared
    again when it is applied: one that a power loss has emptied is installed. *)
Definition emptied (d : Disk) : Disk := put_file (get_final_package_path example_config) [] d.

Example unflushed_package_is_installed :
  let s := example_history (staging_events [] ++
    [mkEvent (op_power_loss emptied) 6 []; mkEvent op_init 7 [];
     mkEvent (op_apply_staged_update binary) 8 []]) in
  sr_current_state (record_ (snd s)) = validating /\
  option_map (fun t => t !! binary) (tree_of (fst s) (active_directory example_config)) = Some (Some []).
Proof. split; vm_compute; reflexivity. Qed.

(** When copying the package fails, the new active directory is left and the
    backup is not restored; applying again removes the only copy of the previous
    installation, and a rollback then brings back an empty binary. *)
Definition copy_fails : list Outcome :=
  [success; success; success; success; success; success; failure 0 (text "copy_file")].

Example second_application_loses_installation :
  let s := example_history (staging_events [] ++
    [mkEvent (op_apply_staged_update binary) 6 copy_fails;
     mkEvent (op_apply_staged_update binary) 7 []; mkEvent op_rollback_update 8 []]) in
  sr_current_state (record_ (snd s)) = rolling_back /\
  option_map (fun t => t !! binary) (tree_of (fst s) (active_directory example_config)) = Some (Some []) /\
  tree_of (fst s) (backup_directory example_config) = None.
Proof. split_and!; vm_compute; reflexivity. Qed.

(** The same after a successful application whose record was not saved, which
    goes unnoticed, and a restart. *)
Example unsaved_application_loses_installation :
  let s := example_history (staging_events [] ++
    [mkEvent (op_apply_staged_update binary) 6
       [success; success; success; success; success; success; success; failure 0 []];
     mkEvent op_restart 7 []; mkEvent op_init 7 [];
     mkEvent (op_apply_staged_update binary) 8 []]) in
  sr_current_state (record_ (snd s)) = validating /\
  option_map (fun t => t !! binary) (tree_of (fst s) (backup_directory example_config)) = Some (Some (text "update")).
Proof. split_and!; vm_compute; reflexivity. Qed.

End UpdateStaging.
