(* ===== verification/ExamGrader.v ===== *)
(** The exam grader (server/src/exam_grader.cpp): reading an answer key, grading a
    candidate's answers against it, reviewing items by hand, and writing the result.

    [double]s are the binary64 operations of SpecFloat; [strtoll], [strtod] and the
    printing of numbers are those of the C library in the "C" locale. *)

From Stdlib Require Import SpecFloat.
From S2P Require Import Prelude Json PublicText ExamSync AnswerJournal.

Module ExamGrader.
Import Json PublicText.

(** ** Text *)

Definition quote : byte := Byte.x22.

Fixpoint skip_while (p : byte -> bool) (s : bytes) : bytes :=
  match s with
  | c :: rest => if p c then skip_while p rest else s
  | [] => []
  end.

Fixpoint take_while (p : byte -> bool) (s : bytes) : bytes :=
  match s with
  | c :: rest => if p c then c :: take_while p rest else []
  | [] => []
  end.

Definition trim (s : bytes) : bytes := rev (skip_while ascii_space (rev (skip_while ascii_space s))).

Definition to_lower (s : bytes) : bytes := map ascii_lower s.

Definition starts_with (needle s : bytes) : bool := bool_decide (take (length needle) s = needle).

(** [std::string_view::find], from the start and from a position. *)
Fixpoint find_sub (needle s : bytes) : option nat :=
  if starts_with needle s then Some O
  else
    match s with
    | [] => None
    | _ :: rest => option_map S (find_sub needle rest)
    end.

Definition find_from (needle s : bytes) (from : nat) : option nat :=
  if (length s <? from)%nat then None else option_map (Nat.add from) (find_sub needle (drop from s)).

Definition substr (s : bytes) (from to : nat) : bytes := take (to - from) (drop from s).

(** ** Numbers *)

Abbreviation double := spec_float.

Definition prec : Z := 53.
Definition emax : Z := 1024.
Definition double_of (z : Z) : double := binary_normalize prec emax z 0 false.

(** [strtoll] on text that starts with a digit or a minus sign. *)
Definition strtoll (s : bytes) : Z :=
  let '(negative, digits) :=
    match s with
    | Byte.x2d :: rest => (true, rest)
    | _ => (false, s)
    end in
  let magnitude := dec_value 0 (take_while isdigit digits) in
  let value := if negative then - magnitude else magnitude in
  Z.max (- 9223372036854775808) (Z.min 9223372036854775807 value).

(** A sign, and what follows. *)
Definition read_sign (s : bytes) : bool * bytes :=
  match s with
  | Byte.x2d :: rest => (true, rest)
  | Byte.x2b :: rest => (false, rest)
  | _ => (false, s)
  end.

Definition hex_value (c : byte) : option Z :=
  if isdigit c then Some (byte_val c - 48)
  else
    let l := ascii_lower c in
    if (97 <=? byte_val l) && (byte_val l <=? 102) then Some (byte_val l - 87) else None.

Definition is_hex (c : byte) : bool := match hex_value c with Some _ => true | None => false end.

Definition hex_number (ds : bytes) : Z :=
  fold_left (fun v c => v * 16 + default 0 (hex_value c)) ds 0.

(** Digits with an optional point: those before it, those after it, and the rest. *)
Definition read_digits (p : byte -> bool) (s : bytes) : bytes * bytes * bytes :=
  let whole := take_while p s in
  match skip_while p s with
  | Byte.x2e :: rest => (whole, take_while p rest, skip_while p rest)
  | rest => (whole, [], rest)
  end.

(** An exponent after its letter; without digits there is none. *)
Definition read_exponent (letter : byte) (s : bytes) : Z :=
  match s with
  | c :: rest =>
      if bool_decide (ascii_lower c = letter) then
        let '(negative, rest) := read_sign rest in
        let value := dec_value 0 (take_while isdigit rest) in
        if negative then - value else value
      else 0
  | [] => 0
  end.

(** The double nearest to plus or minus [m * 10 ^ e]. *)
Definition decimal_double (negative : bool) (m e : Z) : double :=
  match m with
  | Zpos p =>
      if 0 <=? e then binary_normalize prec emax (if negative then - (m * 10 ^ e) else m * 10 ^ e) 0 negative
      else SFdiv prec emax (S754_finite negative p 0) (S754_finite false (Z.to_pos (10 ^ (- e))) 0)
  | _ => S754_zero negative
  end.

Definition binary_double (negative : bool) (m e : Z) : double :=
  if m =? 0 then S754_zero negative
  else binary_normalize prec emax (if negative then - m else m) e negative.

(** [None] when nothing is converted. *)
Definition strtod (s : bytes) : option double :=
  let '(negative, s) := read_sign (skip_while ascii_space s) in
  let lower := to_lower s in
  if starts_with (text "inf") lower then Some (S754_infinity negative)
  else if starts_with (text "nan") lower then Some S754_nan
  else
    let '(whole, fraction, rest) := read_digits is_hex (drop 2 s) in
    if starts_with (text "0x") lower && negb (bool_decide (whole ++ fraction = [])) then
      Some (binary_double negative (hex_number (whole ++ fraction))
              (read_exponent Byte.x70 rest - 4 * len fraction))
    else
      let '(whole, fraction, rest) := read_digits isdigit s in
      if bool_decide (whole ++ fraction = []) then None
      else
        Some (decimal_double negative (dec_value 0 (whole ++ fraction))
                (read_exponent Byte.x65 rest - len fraction)).

(** ** Reading fields *)

Definition quoted (key : bytes) : bytes := quote :: key ++ [quote].

(** The position after the colon that follows the first occurrence of the quoted
    key. *)
Definition after_colon (json key : bytes) : option nat :=
  match find_sub (quoted key) json with
  | None => None
  | Some pos =>
      match find_from [Byte.x3a] json (pos + length (quoted key)) with
      | None => None
      | Some colon => Some (S colon)
      end
  end.

Definition extract_json_string (json key : bytes) : bytes :=
  match after_colon json key with
  | None => []
  | Some start =>
      match find_from [quote] json start with
      | None => []
      | Some quote1 =>
          match find_from [quote] json (S quote1) with
          | None => []
          | Some quote2 => substr json (S quote1) quote2
          end
      end
  end.

(** What follows the colon, its spaces and quotes skipped. *)
Definition number_text (json : bytes) (start : nat) : bytes :=
  skip_while (fun c => ascii_space c || bool_decide (c = quote)) (drop start json).

Definition starts_number (set : bytes) (s : bytes) : bool :=
  match s with c :: _ => isdigit c || bool_decide (c ∈ set) | [] => false end.

Definition extract_json_int (json key : bytes) (default_val : Z) : Z :=
  match after_colon json key with
  | None => default_val
  | Some start =>
      let s := number_text json start in
      if starts_number (text "-") s then strtoll s else default_val
  end.

Definition extract_json_double (json key : bytes) (default_val : double) : double :=
  match after_colon json key with
  | None => default_val
  | Some start =>
      let s := number_text json start in
      if starts_number (text ".-eE+") s then default (S754_zero false) (strtod s) else default_val
  end.

(** [a < b] on positions, [npos] being the greatest. *)
Definition before (a b : option nat) : bool :=
  match a, b with
  | Some a, Some b => (a <? b)%nat
  | Some _, None => true
  | None, _ => false
  end.

Definition extract_json_bool (json key : bytes) (default_val : bool) : bool :=
  match after_colon json key with
  | None => default_val
  | Some start =>
      let rest := drop start json in
      let yes := find_sub (text "true") rest in
      let no := find_sub (text "false") rest in
      if before yes no then true else if before no yes then false else default_val
  end.

(** The strings between quotes; each turn takes two quotes. *)
Fixpoint quoted_strings (fuel : nat) (content : bytes) : list bytes :=
  match fuel with
  | O => []
  | S fuel =>
      match find_sub [quote] content with
      | None => []
      | Some q1 =>
          match find_from [quote] content (S q1) with
          | None => []
          | Some q2 => substr content (S q1) q2 :: quoted_strings fuel (drop (S q2) content)
          end
      end
  end.

Definition extract_json_string_array (json key : bytes) : list bytes :=
  match find_sub (quoted key) json with
  | None => []
  | Some pos =>
      match find_from [Byte.x5b] json (pos + length (quoted key)) with
      | None => []
      | Some bracket1 =>
          match find_from [Byte.x5d] json bracket1 with
          | None => []
          | Some bracket2 =>
              let content := substr json (S bracket1) bracket2 in
              quoted_strings (length content) content
          end
      end
  end.

(** ** The answer key *)

Record AnswerKeyItem := mkAnswerKeyItem {
  ki_question_id : bytes;
  ki_question_type : bytes;
  ki_points : Z;
  ki_accepted_answers : list bytes;
  ki_case_sensitive : bool;
  ki_trim_whitespace : bool;
  ki_numeric_tolerance : bool;
  ki_numeric_value : double;
  ki_numeric_epsilon : double;
  ki_requires_manual_review : bool
}.

Record AnswerKey := mkAnswerKey {
  ky_package_id : bytes;
  ky_package_digest : bytes;
  ky_items : list AnswerKeyItem
}.

(** [1e-4]. *)
Definition default_epsilon : double := decimal_double false 1 (-4).

(** The position after the brace that closes the object, [depth] braces being
    open. *)
Fixpoint closing_brace (s : bytes) (depth : nat) : option nat :=
  match depth, s with
  | O, _ => Some O
  | _, [] => None
  | S d, c :: rest =>
      option_map S (closing_brace rest
        (if bool_decide (c = Byte.x7b) then S depth
         else if bool_decide (c = Byte.x7d) then d else depth))
  end.

Definition non_empty_or (a b : bytes) : bytes := if bool_decide (a = []) then b else a.

Definition accepted_of (item_json : bytes) : list bytes :=
  let accepted := extract_json_string_array item_json (text "accepted") in
  let accepted :=
    if bool_decide (accepted = [])
    then extract_json_string_array item_json (text "accepted_answers") else accepted in
  if bool_decide (accepted = []) then
    let single := extract_json_string item_json (text "accepted_answer") in
    if bool_decide (single = []) then [] else [single]
  else accepted.

Definition parse_item (item_json : bytes) : AnswerKeyItem :=
  let id := non_empty_or (extract_json_string item_json (text "id"))
              (extract_json_string item_json (text "question_id")) in
  let question_type :=
    non_empty_or (extract_json_string item_json (text "type")) (text "multiple_choice") in
  let numeric := bool_decide (is_Some (find_sub (quoted (text "numeric")) item_json)) in
  mkAnswerKeyItem id question_type
    (wrap32 (extract_json_int item_json (text "points") 1))
    (accepted_of item_json)
    (extract_json_bool item_json (text "case_sensitive") false)
    (extract_json_bool item_json (text "trim_whitespace") true)
    numeric
    (if numeric then extract_json_double item_json (text "numeric") (S754_zero false)
     else S754_zero false)
    (if numeric then extract_json_double item_json (text "epsilon") default_epsilon
     else default_epsilon)
    (bool_decide (question_type = text "essay") ||
     extract_json_bool item_json (text "manual_review") false).

(** The loop over the objects of the items array; each turn moves on by an object.
    [None] when the fuel is out. *)
Fixpoint parse_items (fuel : nat) (json : bytes) (curr : nat) (items : list AnswerKeyItem)
    : option (result (list AnswerKeyItem)) :=
  match fuel with
  | O => None
  | S fuel =>
      if (length json <=? curr)%nat then Some (Ok items)
      else
        match find_from [Byte.x7b] json curr with
        | None => Some (Ok items)
        | Some obj_start =>
            if before (find_from [Byte.x5d] json curr) (Some obj_start) then Some (Ok items)
            else
              match closing_brace (drop (S obj_start) json) 1 with
              | None => Some (Err "unbalanced braces in items array")
              | Some n =>
                  let obj_end := (S obj_start + n)%nat in
                  let item := parse_item (substr json obj_start obj_end) in
                  parse_items fuel json obj_end
                    (if bool_decide (ki_question_id item = []) then items else items ++ [item])
              end
        end
  end.

Definition zero_digest : bytes := repeat Byte.x00 32.

Definition parse_answer_key_json (json_text : bytes) : option (result AnswerKey) :=
  match find_sub (quoted (text "items")) json_text with
  | None => Some (Err "missing 'items' array in answer key")
  | Some items_pos =>
      match find_from [Byte.x5b] json_text items_pos with
      | None => Some (Err "invalid 'items' array")
      | Some start_bracket =>
          match parse_items (S (length json_text)) json_text (S start_bracket) [] with
          | None => None
          | Some (Err e) => Some (Err e)
          | Some (Ok items) =>
              Some (Ok (mkAnswerKey (extract_json_string json_text (text "package_id")) zero_digest items))
          end
      end
  end.

(** ** Grading *)

Record ItemGradeResult := mkItemGradeResult {
  ig_question_id : bytes;
  ig_question_type : bytes;
  ig_max_points : Z;
  ig_awarded_points : Z;
  ig_answered : bool;
  ig_correct : bool;
  ig_requires_manual_review : bool;
  ig_manual_review_completed : bool;
  ig_student_answer_text : bytes;
  ig_feedback_notes : bytes
}.

(** [completion_timestamp_ms] is not set here. *)
Record CandidateExamGrade := mkCandidateExamGrade {
  cg_package_id : bytes;
  cg_package_digest : bytes;
  cg_candidate_id : bytes;
  cg_session_id : bytes;
  cg_total_points : Z;
  cg_max_points : Z;
  cg_score_percentage : double;
  cg_fully_graded : bool;
  cg_pending_manual_reviews : Z;
  cg_item_results : list ItemGradeResult
}.

Definition answers_question (item : AnswerKeyItem) (answer : ExamSync.AnswerState) : bool :=
  bool_decide (ExamSync.as_question_id answer = ki_question_id item) &&
  (ExamSync.as_kind answer =? ExamSync.kind_upsert).

Definition within (value target epsilon : double) : bool :=
  SFleb (SFabs (SFsub prec emax value target)) epsilon.

Definition accepts (item : AnswerKeyItem) (answer : bytes) (accepted : bytes) : bool :=
  let target := if ki_trim_whitespace item then trim accepted else accepted in
  if ki_case_sensitive item then bool_decide (answer = target)
  else bool_decide (to_lower answer = to_lower target).

Definition is_correct (item : AnswerKeyItem) (answer : bytes) : bool :=
  let student_ans := if ki_trim_whitespace item then trim answer else answer in
  if ki_numeric_tolerance item then
    match strtod student_ans with
    | Some val => within val (ki_numeric_value item) (ki_numeric_epsilon item)
    | None => false
    end
  else existsb (accepts item student_ans) (ki_accepted_answers item).

Definition grade_item (item : AnswerKeyItem) (answers : list ExamSync.AnswerState) : ItemGradeResult :=
  let found := List.find (answers_question item) answers in
  let answer := match found with Some a => ExamSync.as_answer a | None => [] end in
  let review := ki_requires_manual_review item in
  if bool_decide (answer = []) then
    mkItemGradeResult (ki_question_id item) (ki_question_type item) (ki_points item) 0 false false
      review review [] (if review then text "Not answered by candidate" else [])
  else if review then
    mkItemGradeResult (ki_question_id item) (ki_question_type item) (ki_points item) 0 true false
      true false answer []
  else
    let correct := is_correct item answer in
    mkItemGradeResult (ki_question_id item) (ki_question_type item) (ki_points item)
      (if correct then ki_points item else 0) true correct false false answer [].

Definition is_pending (res : ItemGradeResult) : bool :=
  ig_requires_manual_review res && negb (ig_manual_review_completed res).

(** [total_points * 100.0 / max_points]. *)
Definition percentage (total max : Z) : double :=
  if max >? 0
  then SFdiv prec emax (SFmul prec emax (double_of total) (double_of 100)) (double_of max)
  else S754_zero false.

(** One turn of the loop: the running totals. *)
Definition add_item (answers : list ExamSync.AnswerState)
    (acc : Z * Z * Z * list ItemGradeResult) (item : AnswerKeyItem)
    : Z * Z * Z * list ItemGradeResult :=
  let '(total, max, pending, results) := acc in
  let res := grade_item item answers in
  (wrap32 (total + ig_awarded_points res), wrap32 (max + ki_points item),
   (if is_pending res then pending + 1 else pending), results ++ [res]).

Definition grade_student_answers (key : AnswerKey) (answers : list ExamSync.AnswerState)
    (candidate_id session_id : bytes) : CandidateExamGrade :=
  let '(total, max, pending, results) := fold_left (add_item answers) (ky_items key) (0, 0, 0, []) in
  mkCandidateExamGrade (ky_package_id key) (ky_package_digest key) candidate_id session_id total max
    (percentage total max) (pending =? 0) pending results.

Definition grade_from_journal (sha256 : bytes -> option bytes) (key : AnswerKey)
    (journal : AnswerJournal.Journal) (request : ExamSync.StateRequest) : result CandidateExamGrade :=
  match AnswerJournal.state sha256 journal request with
  | Err e => Err e
  | Ok response =>
      Ok (grade_student_answers key (ExamSync.sp_answers response) (ExamSync.sr_candidate_id request)
            (ExamSync.sr_session_id request))
  end.

(** ** Manual review *)

Definition reviewed (res : ItemGradeResult) (awarded : Z) (notes : bytes) : ItemGradeResult :=
  {| res with ig_awarded_points := awarded; ig_correct := awarded =? ig_max_points res;
              ig_manual_review_completed := true;
              ig_feedback_notes := if bool_decide (notes = []) then ig_feedback_notes res else notes |}.

Fixpoint find_item (results : list ItemGradeResult) (question_id : bytes) : option nat :=
  match results with
  | [] => None
  | res :: rest =>
      if bool_decide (ig_question_id res = question_id) then Some O
      else option_map S (find_item rest question_id)
  end.

Definition apply_manual_review (grade : CandidateExamGrade) (question_id : bytes) (awarded_points : Z)
    (feedback_notes : bytes) : result CandidateExamGrade :=
  let results := cg_item_results grade in
  match find_item results question_id with
  | None => Err "question_id not found in exam results"
  | Some i =>
      match results !! i with
      | None => Err "question_id not found in exam results"
      | Some res =>
          if awarded_points >? ig_max_points res
          then Err "awarded points cannot exceed max points for question"
          else
            let was_pending := is_pending res in
            let total :=
              wrap32 (wrap32 (cg_total_points grade - ig_awarded_points res) + awarded_points) in
            let pending :=
              if was_pending && (cg_pending_manual_reviews grade >? 0)
              then cg_pending_manual_reviews grade - 1 else cg_pending_manual_reviews grade in
            Ok {| grade with
                  cg_total_points := total;
                  cg_pending_manual_reviews := pending;
                  cg_fully_graded := pending =? 0;
                  cg_score_percentage := percentage total (cg_max_points grade);
                  cg_item_results := <[i := reviewed res awarded_points feedback_notes]> results |}
      end
  end.

(** ** Writing the grade *)

(** [std::ostream] on a [double]: six significant digits, as [%g]. *)
Fixpoint decimal_length (fuel : nat) (n : Z) : Z :=
  match fuel with
  | O => 0
  | S fuel => if n <? 10 then 1 else 1 + decimal_length fuel (n / 10)
  end.

(** The least [j] up to the fuel with [den <= num * 10 ^ j], for [num < den]. *)
Fixpoint leading_zeros (fuel : nat) (num den : Z) : Z :=
  match fuel with
  | O => 0
  | S fuel => if den <=? num then 0 else 1 + leading_zeros fuel (num * 10) den
  end.

(** Binary64 is within 10 to the powers of plus and minus 330. *)
Definition decimal_exponent (num den : Z) : Z :=
  if den <=? num then decimal_length 330 (num / den) - 1 else - leading_zeros 330 num den.

(** [num / den] to the nearest integer, ties to even. *)
Definition round_half_even (num den : Z) : Z :=
  let q := num / den in
  let twice := 2 * (num mod den) in
  if (twice >? den) || ((twice =? den) && Z.odd q) then q + 1 else q.

Definition scaled (num den k : Z) : Z :=
  if 0 <=? k then round_half_even (num * 10 ^ k) den else round_half_even num (den * 10 ^ (- k)).

Definition strip_zeros (ds : bytes) : bytes := rev (skip_while (fun c => bool_decide (c = Byte.x30)) (rev ds)).

Definition with_fraction (whole fraction : bytes) : bytes :=
  let fraction := strip_zeros fraction in
  if bool_decide (fraction = []) then whole else whole ++ [Byte.x2e] ++ fraction.

(** Six digits and the exponent of the first. *)
Definition format_digits (digits : bytes) (x : Z) : bytes :=
  if (x <? -4) || (6 <=? x) then
    let e := dec (Z.abs x) in
    with_fraction (take 1 digits) (drop 1 digits) ++
    (if x <? 0 then text "e-" else text "e+") ++
    (if (length e <? 2)%nat then Byte.x30 :: e else e)
  else if x <? 0 then
    with_fraction (text "0") (repeat Byte.x30 (Z.to_nat (- x - 1)) ++ digits)
  else with_fraction (take (Z.to_nat (x + 1)) digits) (drop (Z.to_nat (x + 1)) digits).

Definition format_double (d : double) : bytes :=
  match d with
  | S754_zero negative => if negative then text "-0" else text "0"
  | S754_infinity negative => if negative then text "-inf" else text "inf"
  | S754_nan => text "nan"
  | S754_finite negative m e =>
      let num := if 0 <=? e then Zpos m * 2 ^ e else Zpos m in
      let den := if 0 <=? e then 1 else 2 ^ (- e) in
      let x := decimal_exponent num den in
      let n := scaled num den (5 - x) in
      let '(n, x) := if n >=? 1000000 then (n / 10, x + 1) else (n, x) in
      (if negative then text "-" else []) ++ format_digits (dec n) x
  end.

Definition newline : bytes := [Byte.x0a].
Definition bool_text (b : bool) : bytes := if b then text "true" else text "false".

(** A line [key: value,]. *)
Definition line (indent : nat) (key value : bytes) (last : bytes) : bytes :=
  repeat Byte.x20 indent ++ quoted key ++ text ": " ++ value ++ last ++ newline.

Definition item_json (item : ItemGradeResult) (last : bool) : bytes :=
  text "    {" ++ newline ++
  line 6 (text "id") (quoted (ig_question_id item)) (text ",") ++
  line 6 (text "type") (quoted (ig_question_type item)) (text ",") ++
  line 6 (text "max_points") (dec (ig_max_points item)) (text ",") ++
  line 6 (text "awarded_points") (dec (ig_awarded_points item)) (text ",") ++
  line 6 (text "answered") (bool_text (ig_answered item)) (text ",") ++
  line 6 (text "correct") (bool_text (ig_correct item)) (text ",") ++
  line 6 (text "requires_manual_review") (bool_text (ig_requires_manual_review item)) (text ",") ++
  line 6 (text "manual_review_completed") (bool_text (ig_manual_review_completed item)) (text ",") ++
  line 6 (text "student_answer") (quoted (ig_student_answer_text item)) (text ",") ++
  line 6 (text "feedback") (quoted (ig_feedback_notes item)) [] ++
  text "    }" ++ (if last then [] else text ",") ++ newline.

Fixpoint items_json (items : list ItemGradeResult) : bytes :=
  match items with
  | [] => []
  | item :: rest => item_json item (bool_decide (rest = [])) ++ items_json rest
  end.

Definition serialize_grade_json (grade : CandidateExamGrade) : bytes :=
  text "{" ++ newline ++
  line 2 (text "package_id") (quoted (cg_package_id grade)) (text ",") ++
  line 2 (text "candidate_id") (quoted (cg_candidate_id grade)) (text ",") ++
  line 2 (text "total_points") (dec (cg_total_points grade)) (text ",") ++
  line 2 (text "max_points") (dec (cg_max_points grade)) (text ",") ++
  line 2 (text "score_percentage") (format_double (cg_score_percentage grade)) (text ",") ++
  line 2 (text "fully_graded") (bool_text (cg_fully_graded grade)) (text ",") ++
  line 2 (text "pending_manual_reviews") (dec (cg_pending_manual_reviews grade)) (text ",") ++
  text "  " ++ quoted (text "items") ++ text ": [" ++ newline ++
  items_json (cg_item_results grade) ++
  text "  ]" ++ newline ++ text "}" ++ newline.

(** ** The parser ends *)

Lemma find_sub_lt needle s i : needle <> [] -> find_sub needle s = Some i -> (i < length s)%nat.
Proof.
  intros Hn. revert i. induction s as [|c s IH]; intros i; cbn.
  - destruct (starts_with needle []) eqn:E; [|done]. unfold starts_with in E. bool_to_prop.
    rewrite take_nil in E. by subst.
  - destruct (starts_with needle (c :: s)); [intros [= <-]; lia|].
    destruct (find_sub needle s) as [j|]; [|done]. intros [= <-]. specialize (IH j eq_refl). lia.
Qed.

Lemma find_from_range needle s from i :
  needle <> [] -> find_from needle s from = Some i -> (from <= i < length s)%nat.
Proof.
  intros Hn. unfold find_from. destruct (Nat.ltb_spec (length s) from); [done|].
  destruct (find_sub needle (drop from s)) as [j|] eqn:E; [|done]. intros [= <-].
  apply find_sub_lt in E; [|done]. rewrite length_drop in E. lia.
Qed.

Lemma parse_items_total json : forall fuel curr items,
  (0 < fuel)%nat -> (length json < curr + fuel)%nat -> is_Some (parse_items fuel json curr items).
Proof.
  induction fuel as [|fuel IH]; intros curr items H0 Hf; [lia|]. cbn.
  destruct (Nat.leb_spec (length json) curr); [eauto|].
  destruct (find_from [Byte.x7b] json curr) as [obj|] eqn:E; [|eauto].
  apply find_from_range in E; [|done]. destruct (before _ _); [eauto|].
  destruct (closing_brace _ _) as [n|]; [|eauto]. apply IH; lia.
Qed.

Lemma parse_answer_key_total json : is_Some (parse_answer_key_json json).
Proof.
  unfold parse_answer_key_json. destruct (find_sub _ json) as [pos|]; [|eauto].
  destruct (find_from _ json pos) as [bracket|]; [|eauto].
  destruct (parse_items_total json (S (length json)) (S bracket) []) as [r ->]; [lia|lia|].
  destruct r; eauto.
Qed.

(** ** The books of a grade *)

(** The result is of its item, and in its bounds. *)
Definition result_of (item : AnswerKeyItem) (res : ItemGradeResult) : Prop :=
  ig_question_id res = ki_question_id item /\ ig_question_type res = ki_question_type item /\
  ig_max_points res = ki_points item /\
  ig_requires_manual_review res = ki_requires_manual_review item /\
  0 <= ig_awarded_points res <= ig_max_points res.

Record balanced (key : AnswerKey) (grade : CandidateExamGrade) : Prop := {
  bal_items : Forall2 result_of (ky_items key) (cg_item_results grade);
  bal_total : cg_total_points grade = wrap32 (zsum (map ig_awarded_points (cg_item_results grade)));
  bal_max : cg_max_points grade = wrap32 (zsum (map ki_points (ky_items key)));
  bal_pending : cg_pending_manual_reviews grade = count_true (map is_pending (cg_item_results grade));
  bal_graded : cg_fully_graded grade = (cg_pending_manual_reviews grade =? 0);
  bal_percentage :
    cg_score_percentage grade = percentage (cg_total_points grade) (cg_max_points grade)
}.

Lemma wrap32_add a b : wrap32 (wrap32 a + b) = wrap32 (a + b).
Proof. unfold wrap32. apply Zplus_mod_idemp_l. Qed.

Lemma wrap32_sub a b c : wrap32 (wrap32 (wrap32 a - b) + c) = wrap32 (a - b + c).
Proof.
  rewrite wrap32_add. unfold wrap32.
  replace (a mod 4294967296 - b + c) with (a mod 4294967296 + (c - b)) by lia.
  rewrite Zplus_mod_idemp_l. f_equal. lia.
Qed.

Lemma grade_item_result item answers : 0 <= ki_points item -> result_of item (grade_item item answers).
Proof.
  intros Hp. unfold grade_item. cbv zeta.
  repeat case_match; unfold result_of; cbn; split_and!; congruence || lia.
Qed.

Lemma zsum_snoc l x : zsum (l ++ [x]) = zsum l + x.
Proof. rewrite zsum_app. cbn. lia. Qed.

Lemma count_true_snoc l b : count_true (l ++ [b]) = count_true l + (if b then 1 else 0).
Proof. rewrite count_true_app. by destruct b. Qed.

Lemma add_items_spec answers items :
  Forall (fun item => 0 <= ki_points item) items ->
  let '(total, max, pending, results) := fold_left (add_item answers) items (0, 0, 0, []) in
  Forall2 result_of items results /\ total = wrap32 (zsum (map ig_awarded_points results)) /\
  max = wrap32 (zsum (map ki_points items)) /\ pending = count_true (map is_pending results).
Proof.
  induction items as [|item items IH] using rev_ind; intros Hp; [by cbn|].
  apply Forall_app in Hp as [Hp Hi]. apply Forall_cons in Hi as [Hi _]. specialize (IH Hp).
  rewrite fold_left_app. cbn [fold_left].
  destruct (fold_left (add_item answers) items (0, 0, 0, [])) as [[[total max] pending] results].
  destruct IH as (Hr & -> & -> & ->). cbn [add_item].
  rewrite !map_app. cbn [map]. rewrite !zsum_snoc, count_true_snoc. split_and!.
  - apply Forall2_app; [done|]. constructor; [by apply grade_item_result|constructor].
  - apply wrap32_add.
  - apply wrap32_add.
  - destruct (is_pending _); lia.
Qed.

Lemma graded_balanced key answers candidate session :
  Forall (fun item => 0 <= ki_points item) (ky_items key) ->
  balanced key (grade_student_answers key answers candidate session).
Proof.
  intros Hp. unfold grade_student_answers. pose proof (add_items_spec answers _ Hp) as Hs.
  destruct (fold_left _ _ _) as [[[total max] pending] results]. destruct Hs as (? & ? & ? & ?).
  by split.
Qed.

Lemma find_item_Some results id i :
  find_item results id = Some i -> exists res, results !! i = Some res /\ ig_question_id res = id.
Proof.
  revert i. induction results as [|res results IH]; intros i; cbn; [done|]. case_bool_decide as E.
  - intros [= <-]. by exists res.
  - destruct (find_item results id) as [j|]; [|done]. intros [= <-]. by apply IH.
Qed.

Lemma map_insert_list {A B} (f : A -> B) (l : list A) i x : map f (<[i := x]> l) = <[i := f x]> (map f l).
Proof. exact (list_fmap_insert f l i x). Qed.

Lemma count_true_clear (l : list bool) (i : nat) (b : bool) :
  l !! i = Some b -> count_true (<[i := false]> l) = count_true l - (if b then 1 else 0).
Proof.
  revert i. induction l as [|a l IH]; intros [|i]; [done..| |].
  - intros [= ->]. change (count_true (false :: l) = count_true (b :: l) - (if b then 1 else 0)).
    rewrite !count_true_cons. destruct b; lia.
  - intros E. change (count_true (a :: <[i := false]> l) = count_true (a :: l) - (if b then 1 else 0)).
    rewrite !count_true_cons, (IH _ E). lia.
Qed.

(** One review keeps the books. *)
Lemma review_balanced key grade id awarded notes grade' :
  balanced key grade -> 0 <= awarded ->
  apply_manual_review grade id awarded notes = Ok grade' -> balanced key grade'.
Proof.
  intros [Bi Bt Bm Bp Bg Bq] Ha. unfold apply_manual_review.
  destruct (find_item _ _) as [i|] eqn:Ei; [|done].
  destruct (cg_item_results grade !! i) as [res|] eqn:Er; [|done]. cbv zeta.
  destruct (Z.gtb_spec awarded (ig_max_points res)); [done|]. intros [= <-].
  destruct (Forall2_lookup_r _ _ _ _ _ Bi Er) as (item & Eitem & Hof).
  assert (Forall2 result_of (ky_items key) (<[i := reviewed res awarded notes]> (cg_item_results grade)))
    as Hi.
  { rewrite <- (list_insert_id (ky_items key) i item) by done.
    apply Forall2_insert; [done|]. destruct Hof as (? & ? & ? & ? & ?). split_and!; cbn; try done; lia. }
  split; cbn; [done| |done| |done|done].
  - rewrite Bt, wrap32_sub, map_insert_list. f_equal.
    rewrite (zsum_insert _ i (ig_awarded_points res)); [done|].
    by rewrite list_lookup_fmap, Er.
  - rewrite Bp, map_insert_list.
    assert (is_pending (reviewed res awarded notes) = false) as ->.
    { unfold is_pending, reviewed. cbn. apply andb_false_r. }
    assert (map is_pending (cg_item_results grade) !! i = Some (is_pending res)) as E
      by (by rewrite list_lookup_fmap, Er).
    rewrite (count_true_clear _ _ _ E). destruct (is_pending res); cbn [andb]; [|lia].
    pose proof (count_true_clear _ _ _ E) as Hc. cbv iota in Hc.
    pose proof (count_true_bounds (<[i := false]> (map is_pending (cg_item_results grade)))).
    destruct (Z.gtb_spec (count_true (map is_pending (cg_item_results grade))) 0); lia.
Qed.

(** ** Reviews *)

Record Review := mkReview { rv_question_id : bytes; rv_points : Z; rv_notes : bytes }.

(** A review that is refused leaves the grade as it is. *)
Definition review (grade : CandidateExamGrade) (r : Review) : CandidateExamGrade :=
  match apply_manual_review grade (rv_question_id r) (rv_points r) (rv_notes r) with
  | Ok grade => grade
  | Err _ => grade
  end.

Lemma reviews_balanced key reviews : forall grade,
  Forall (fun r => 0 <= rv_points r) reviews -> balanced key grade ->
  balanced key (fold_left review reviews grade).
Proof.
  induction reviews as [|r reviews IH]; intros grade Hr Hb; [done|].
  apply Forall_cons in Hr as [Hr Hrest]. cbn. apply IH; [done|]. unfold review.
  destruct (apply_manual_review _ _ _ _) as [grade'|] eqn:E; [|done]. by eapply review_balanced.
Qed.

Lemma awarded_within items results :
  Forall2 result_of items results ->
  0 <= zsum (map ig_awarded_points results) <= zsum (map ki_points items).
Proof.
  induction 1 as [|item res items results (_ & _ & E & _ & Ha) _ IH]; cbn; [lia|].
  change (0 <= ig_awarded_points res + zsum (map ig_awarded_points results) <=
    ki_points item + zsum (map ki_points items)). lia.
Qed.

Lemma none_pending results :
  count_true (map is_pending results) = 0 <-> Forall (fun res => is_pending res = false) results.
Proof.
  induction results as [|res results IH]; [by cbn|].
  cbn [map]. rewrite count_true_cons, Forall_cons, <- IH.
  pose proof (count_true_bounds (map is_pending results)). destruct (is_pending res); naive_solver lia.
Qed.

(** C22. The books of a grade balance.  For every answer key, every set of recorded
    answers and every sequence of manual reviews, accepted or refused: there is one
    result per item of the key, in its order, with its points as the maximum, and
    never more awarded; the totals are the sums of the items (in 32 bits, and the
    candidate's total is at most the maximum when the key's points fit); the count
    of pending reviews is that of the items still waiting, and the grade counts as
    fully graded exactly when none is; and the percentage is that of the totals. *)
Theorem grade_is_the_sum_of_its_items key answers candidate session (reviews : list Review) :
  Forall (fun item => 0 <= ki_points item) (ky_items key) ->
  Forall (fun r => 0 <= rv_points r) reviews ->
  let grade := fold_left review reviews (grade_student_answers key answers candidate session) in
  Forall2 result_of (ky_items key) (cg_item_results grade) /\
  cg_total_points grade = wrap32 (zsum (map ig_awarded_points (cg_item_results grade))) /\
  cg_max_points grade = wrap32 (zsum (map ki_points (ky_items key))) /\
  (zsum (map ki_points (ky_items key)) <= u32_max ->
     0 <= cg_total_points grade <= cg_max_points grade) /\
  cg_pending_manual_reviews grade = count_true (map is_pending (cg_item_results grade)) /\
  (cg_fully_graded grade = true <->
     Forall (fun res => is_pending res = false) (cg_item_results grade)) /\
  cg_score_percentage grade = percentage (cg_total_points grade) (cg_max_points grade).
Proof.
  intros Hk Hr grade.
  destruct (reviews_balanced key reviews _ Hr (graded_balanced key answers candidate session Hk))
    as [Bi Bt Bm Bp Bg Bq]. fold grade in Bi, Bt, Bm, Bp, Bg, Bq.
  split_and!; try done.
  - pose proof (awarded_within _ _ Bi). rewrite Bt, Bm. unfold wrap32, u32_max. intros Hmax.
    rewrite !Z.mod_small by lia. lia.
  - rewrite Bg, Bp, <- none_pending. by rewrite Z.eqb_eq.
Qed.
(** ** What the written grade does not tell *)

Definition with_answer (res : ItemGradeResult) (answer : bytes) : ItemGradeResult :=
  {| res with ig_student_answer_text := answer |}.

Definition with_results (grade : CandidateExamGrade) (results : list ItemGradeResult)
    : CandidateExamGrade := {| grade with cg_item_results := results |}.

(** An item up to its student's answer, and from there on. *)
Definition item_head (item : ItemGradeResult) : bytes :=
  text "    {" ++ newline ++
  line 6 (text "id") (quoted (ig_question_id item)) (text ",") ++
  line 6 (text "type") (quoted (ig_question_type item)) (text ",") ++
  line 6 (text "max_points") (dec (ig_max_points item)) (text ",") ++
  line 6 (text "awarded_points") (dec (ig_awarded_points item)) (text ",") ++
  line 6 (text "answered") (bool_text (ig_answered item)) (text ",") ++
  line 6 (text "correct") (bool_text (ig_correct item)) (text ",") ++
  line 6 (text "requires_manual_review") (bool_text (ig_requires_manual_review item)) (text ",") ++
  line 6 (text "manual_review_completed") (bool_text (ig_manual_review_completed item)) (text ",") ++
  repeat Byte.x20 6 ++ quoted (text "student_answer") ++ text ": " ++ [quote].

Definition item_tail (notes : bytes) (last : bool) : bytes :=
  [quote] ++ text "," ++ newline ++ line 6 (text "feedback") (quoted notes) [] ++
  text "    }" ++ (if last then [] else text ",") ++ newline.

Lemma item_json_split item last :
  item_json item last =
    item_head item ++ ig_student_answer_text item ++ item_tail (ig_feedback_notes item) last.
Proof.
  unfold item_json, item_head, item_tail, line, quoted. rewrite <- !app_assoc. cbn [app].
  rewrite <- !app_assoc. done.
Qed.

(** Answers are written as they are: with a fitting answer, a candidate makes the
    grade of one item read as the grade of two, the second one being any. *)
Lemma grade_json_forgeable grade item forged :
  ig_feedback_notes forged = ig_feedback_notes item ->
  exists answer,
    serialize_grade_json (with_results grade [with_answer item answer]) =
    serialize_grade_json (with_results grade [item; forged]).
Proof.
  intros Hn.
  exists (ig_student_answer_text item ++ item_tail (ig_feedback_notes item) false ++
          item_head forged ++ ig_student_answer_text forged).
  assert (forall a, items_json [with_answer item a] =
    item_head item ++ a ++ item_tail (ig_feedback_notes item) true) as E1.
  { intros a. cbn [items_json]. rewrite bool_decide_eq_true_2 by done.
    by rewrite app_nil_r, item_json_split. }
  assert (items_json [item; forged] =
    item_head item ++ (ig_student_answer_text item ++ item_tail (ig_feedback_notes item) false ++
    item_head forged ++ ig_student_answer_text forged) ++ item_tail (ig_feedback_notes item) true) as E2.
  { cbn [items_json]. rewrite bool_decide_eq_false_2, bool_decide_eq_true_2 by done.
    rewrite app_nil_r, !item_json_split, Hn, <- !app_assoc. done. }
  unfold serialize_grade_json. cbn [with_results cg_item_results cg_package_id cg_candidate_id
    cg_total_points cg_max_points cg_score_percentage cg_fully_graded cg_pending_manual_reviews].
  by rewrite E1, E2.
Qed.

(** ** Examples *)

(** The documented numeric form, and a question whose type is called numeric: the
    key's value is read from whatever follows the next colon. *)
Definition field (key value : bytes) : bytes := quoted key ++ text ":" ++ value.

Definition sample_key_json (fields : list bytes) : bytes :=
  text "{" ++ field (text "package_id") (quoted (text "p")) ++ text "," ++
  field (text "items") (text "[{" ++ field (text "id") (quoted (text "q1")) ++
    concat (map (fun f => text "," ++ f) fields) ++ text "}]") ++ text "}".

Definition numeric_of (json : bytes) : option (list (bool * bytes * bytes)) :=
  match parse_answer_key_json json with
  | Some (Ok key) =>
      Some (map (fun item => (ki_numeric_tolerance item, format_double (ki_numeric_value item),
        format_double (ki_numeric_epsilon item))) (ky_items key))
  | _ => None
  end.

Example numeric_item :
  numeric_of (sample_key_json [field (text "numeric") (text "9.81"); field (text "epsilon") (text "0.01")]) =
    Some [(true, text "9.81", text "0.01")].
Proof. vm_compute. reflexivity. Qed.

Example numeric_type_misread :
  numeric_of (sample_key_json [field (text "type") (quoted (text "numeric")); field (text "points") (text "5");
    field (text "accepted") (text "[" ++ quoted (text "42") ++ text "]")]) =
    Some [(true, text "5", text "0.0001")].
Proof. vm_compute. reflexivity. Qed.

Definition sample_item (id : bytes) (points : Z) (accepted : list bytes) (review : bool) : AnswerKeyItem :=
  mkAnswerKeyItem id (text "short") points accepted false true false (S754_zero false) default_epsilon review.

Definition sample_key : AnswerKey :=
  mkAnswerKey (text "p") zero_digest
    [sample_item (text "q1") 3 [text "Hanoi"] false; sample_item (text "q2") 5 [] true].

Definition sample_answer (id answer : bytes) : ExamSync.AnswerState :=
  ExamSync.mkAnswerState id 1 1 ExamSync.kind_upsert answer zero_digest.

Definition sample_answers : list ExamSync.AnswerState :=
  [sample_answer (text "q1") (text " hanoi "); sample_answer (text "q2") (text "because")].

Lemma grade_is_the_sum_of_its_items_witness :
  let grade := fold_left review [mkReview (text "q2") 4 []; mkReview (text "q2") 9 []]
    (grade_student_answers sample_key sample_answers (text "c") []) in
  (cg_total_points grade = 7 /\ cg_fully_graded grade = true) /\
  cg_total_points grade = wrap32 (zsum (map ig_awarded_points (cg_item_results grade))) /\
  0 <= cg_total_points grade <= cg_max_points grade.
Proof.
  split; [split; vm_compute; reflexivity|].
  destruct (grade_is_the_sum_of_its_items sample_key sample_answers (text "c") []
    [mkReview (text "q2") 4 []; mkReview (text "q2") 9 []]) as (_ & H1 & _ & H2 & _).
  - repeat constructor; cbn; lia.
  - repeat constructor; cbn; lia.
  - split; [exact H1|]. apply H2. vm_compute. discriminate.
Defined.

(** ** Numbers, on examples *)

Example percent_of_thirds : format_double (percentage 2 3) = text "66.6667".
Proof. vm_compute. reflexivity. Qed.

Example percent_whole : format_double (percentage 3 3) = text "100".
Proof. vm_compute. reflexivity. Qed.

Example percent_tiny : format_double (percentage 1 4000000000) = text "2.5e-08".
Proof. vm_compute. reflexivity. Qed.

Example read_decimal : option_map format_double (strtod (text " -12.5e1x")) = Some (text "-125").
Proof. vm_compute. reflexivity. Qed.

Example read_hexadecimal : option_map format_double (strtod (text "0x1F.8")) = Some (text "31.5").
Proof. vm_compute. reflexivity. Qed.

Example read_nothing : strtod (text "+.e5") = None.
Proof. vm_compute. reflexivity. Qed.

(** One tenth, as the nearest double. *)
Example read_tenth : strtod (text "0.1") = Some (S754_finite false 7205759403792794 (-56)).
Proof. vm_compute. reflexivity. Qed.
End ExamGrader.
