(* ===== verification/FileDistribution.v ===== *)
(** The file distribution protocol (common/include/nstu/file_distribution.hpp,
    common/src/file_distribution.cpp): safe file names, the path a received file
    gets, and the five messages of a transfer. *)

From S2P Require Import Prelude Wire Codec UrlValidation.
Import ReaderNotations.

#[local] Open Scope nstu_scope.

Module FileDistribution.

(** ** Constants and statuses *)

Definition kMaxFileSize : Z := 64 * 1024 * 1024.
Definition kMaxChunkSize : Z := 64 * 1024.
Definition kMaxFilenameLength : Z := 255.

Inductive FileDistStatus : Set :=
| in_progress | completed | hash_mismatch | write_error | cancelled
| rejected_exam_active | rejected_unsafe_path | rejected_quota_exceeded.

#[export] Instance file_status_eq_dec : EqDecision FileDistStatus.
Proof. solve_decision. Defined.

Definition status_value (status : FileDistStatus) : Z :=
  match status with
  | in_progress => 0 | completed => 1 | hash_mismatch => 2 | write_error => 3 | cancelled => 4
  | rejected_exam_active => 5 | rejected_unsafe_path => 6 | rejected_quota_exceeded => 7
  end.

Definition status_of (v : Z) : FileDistStatus :=
  if v =? 0 then in_progress else if v =? 1 then completed else if v =? 2 then hash_mismatch
  else if v =? 3 then write_error else if v =? 4 then cancelled
  else if v =? 5 then rejected_exam_active else if v =? 6 then rejected_unsafe_path
  else rejected_quota_exceeded.

(** The [to_string] of a status. *)
Definition status_name (status : FileDistStatus) : string :=
  match status with
  | in_progress => "in_progress"
  | completed => "completed"
  | hash_mismatch => "hash_mismatch"
  | write_error => "write_error"
  | cancelled => "cancelled"
  | rejected_exam_active => "rejected_exam_active"
  | rejected_unsafe_path => "rejected_unsafe_path"
  | rejected_quota_exceeded => "rejected_quota_exceeded"
  end.

Definition status_label (status : FileDistStatus) (vietnamese : bool) : string :=
  match status with
  | in_progress => if vietnamese then "Đang truyền" else "In Progress"
  | completed => if vietnamese then "Hoàn thành" else "Completed"
  | hash_mismatch => if vietnamese then "Lỗi toàn vẹn (sai mã băm)" else "Hash Mismatch"
  | write_error => if vietnamese then "Lỗi ghi tệp" else "Write Error"
  | cancelled => if vietnamese then "Đã hủy" else "Cancelled"
  | rejected_exam_active =>
      if vietnamese then "Bị từ chối: Đang diễn ra kỳ thi" else "Rejected: Exam Active"
  | rejected_unsafe_path =>
      if vietnamese then "Bị từ chối: Tên tệp không an toàn" else "Rejected: Unsafe Filename"
  | rejected_quota_exceeded =>
      if vietnamese then "Bị từ chối: Vượt quá dung lượng" else "Rejected: Quota Exceeded"
  end.

(** ** Names *)

Fixpoint equals_case_insensitive (a b : bytes) : bool :=
  match a, b with
  | [], [] => true
  | x :: a, y :: b =>
      (UrlValidation.tolower (byte_val x) =? UrlValidation.tolower (byte_val y)) &&
      equals_case_insensitive a b
  | _, _ => false
  end.

Definition kReserved : list bytes :=
  map text ["CON"; "PRN"; "AUX"; "NUL";
    "COM1"; "COM2"; "COM3"; "COM4"; "COM5"; "COM6"; "COM7"; "COM8"; "COM9";
    "LPT1"; "LPT2"; "LPT3"; "LPT4"; "LPT5"; "LPT6"; "LPT7"; "LPT8"; "LPT9"]%string.

Definition is_reserved_dos_device (stem : bytes) : bool :=
  existsb (fun dev => equals_case_insensitive stem dev) kReserved.

Definition space_or_dot (c : byte) : bool := (byte_val c =? 32) || (byte_val c =? 46).

Definition control_code (c : byte) : bool :=
  let uc := byte_val c in (uc <? 0x20) || (uc =? 0x7f).

(** The cases of the switch: slash, backslash, colon, star, question mark, double
    quote, angle brackets and bar. *)
Definition forbidden_character (c : byte) : bool :=
  existsb (fun v => byte_val c =? v) [47; 92; 58; 42; 63; 34; 60; 62; 124].

(** The part before the first dot. *)
Fixpoint stem_of (filename : bytes) : bytes :=
  match filename with
  | [] => []
  | c :: rest => if byte_val c =? 46 then [] else c :: stem_of rest
  end.

Definition front_is (test : byte -> bool) (s : bytes) : bool :=
  match s with [] => false | c :: _ => test c end.

Definition back_is (test : byte -> bool) (s : bytes) : bool := front_is test (rev s).

Definition is_safe_filename (filename : bytes) : bool :=
  if bool_decide (filename = []) || (len filename >? kMaxFilenameLength) then false
  else if front_is space_or_dot filename || back_is space_or_dot filename then false
  else if existsb (fun c => control_code c || forbidden_character c) filename then false
  else if bool_decide (filename = text ".") || bool_decide (filename = text "..") then false
  else if is_reserved_dos_device (stem_of filename) then false
  else true.

Definition is_slash (c : byte) : bool := (byte_val c =? 47) || (byte_val c =? 92).

(** What follows the last slash or backslash. *)
Fixpoint base_name (filename : bytes) : bytes :=
  match filename with
  | [] => []
  | c :: rest => if existsb is_slash rest then base_name rest else if is_slash c then rest else filename
  end.

Definition replaced (c : byte) : byte :=
  if control_code c || forbidden_character c then byte_of 95 else c.

Fixpoint drop_spaces_dots (s : bytes) : bytes :=
  match s with
  | [] => []
  | c :: rest => if space_or_dot c then drop_spaces_dots rest else s
  end.

Definition trim_front : bytes -> bytes := drop_spaces_dots.
Definition trim_back (s : bytes) : bytes := rev (drop_spaces_dots (rev s)).

Definition kDefaultName : bytes := text "received_file.bin".

(** The prefix for device names and the last test. *)
Definition finish_name (sanitized : bytes) : bytes :=
  let sanitized :=
    if is_reserved_dos_device (stem_of sanitized)
    then take (Z.to_nat kMaxFilenameLength) (text "safe_" ++ sanitized)
    else sanitized in
  if is_safe_filename sanitized then sanitized else kDefaultName.

Definition sanitize_filename (filename : bytes) : bytes :=
  let filename := base_name filename in
  if bool_decide (filename = []) then kDefaultName
  else
    let sanitized := trim_front (map replaced filename) in
    if bool_decide (sanitized = []) then kDefaultName
    else
      let sanitized := trim_back sanitized in
      if len sanitized >? kMaxFilenameLength then
        let sanitized := trim_back (take (Z.to_nat kMaxFilenameLength) sanitized) in
        if bool_decide (sanitized = []) then kDefaultName else finish_name sanitized
      else finish_name sanitized.

(** ** Paths *)

(** A path by its elements, the root the first. *)
Definition Path : Type := list bytes.

(** The elements after the common ones, of both. *)
Fixpoint mismatch (a b : Path) : Path * Path :=
  match a, b with
  | x :: a', y :: b' => if bool_decide (x = y) then mismatch a' b' else (a, b)
  | _, _ => (a, b)
  end.

(** The elements of [b] that a relative path has to leave. *)
Definition levels (b : Path) : Z :=
  fold_left (fun n element =>
    if bool_decide (element = text "..") then n - 1
    else if bool_decide (element = []) || bool_decide (element = text ".") then n
    else n + 1) b 0.

(** [path::lexically_relative] of two paths with the same root. *)
Definition lexically_relative (p base : Path) : Path :=
  let '(a, b) := mismatch p base in
  match a, b with
  | [], [] => [text "."]
  | _, _ =>
      let n := levels b in
      if n <? 0 then []
      else if (n =? 0) && (match a with [] => true | x :: _ => bool_decide (x = []) end) then [text "."]
      else repeat (text "..") (Z.to_nat n) ++ a
  end.

(** [path::string], with the preferred separator. *)
Fixpoint path_string (p : Path) : bytes :=
  match p with
  | [] => []
  | [x] => x
  | x :: rest => x ++ [byte_of 92] ++ path_string rest
  end.

Definition starts_with (prefix s : bytes) : bool := bool_decide (take (length prefix) s = prefix).

(** The name is safe where it is appended, so it is one element. *)
Definition compute_staging_path (base_dir : Path) (filename : bytes) : option Path :=
  if negb (is_safe_filename filename) then None
  else
    let target_path := base_dir ++ [filename] in
    let rel_str := path_string (lexically_relative target_path base_dir) in
    if bool_decide (rel_str = []) || starts_with (text "..") rel_str then None
    else Some target_path.

(** ** Messages *)

Record FileDistStartMessage := mkStart {
  fs_session_id : Z;
  fs_file_size : Z;
  fs_sha256 : bytes;
  fs_filename : bytes
}.

Record FileDistChunkMessage := mkChunk {
  fc_session_id : Z;
  fc_offset : Z;
  fc_data : bytes
}.

Record FileDistFinishMessage := mkFinish { ff_session_id : Z }.

Record FileDistStatusMessage := mkStatus {
  ft_session_id : Z;
  ft_bytes_received : Z;
  ft_status : FileDistStatus
}.

Record FileDistCancelMessage := mkCancel { fx_session_id : Z; fx_reason_code : Z }.

Definition encode_file_dist_start (msg : FileDistStartMessage) : bytes :=
  if bool_decide (fs_filename msg = []) || (len (fs_filename msg) >? kMaxFilenameLength) ||
     negb (is_safe_filename (fs_filename msg)) || (fs_file_size msg >? kMaxFileSize) then []
  else
    write_le 8 (fs_session_id msg) ++ write_le 8 (fs_file_size msg) ++ fs_sha256 msg ++
    write_le 2 (len (fs_filename msg)) ++ fs_filename msg.

Definition file_dist_start_reader : reader FileDistStartMessage :=
  session_id <- read_le 8 ;;
  file_size <- read_le 8 ;;
  guard (file_size <=? kMaxFileSize) ;;
  digest <- read_bytes 32 ;;
  filename_len <- read_le 2 ;;
  guard (negb (filename_len =? 0) && (filename_len <=? kMaxFilenameLength)) ;;
  left <- rremaining ;;
  guard (left =? filename_len) ;;
  filename <- read_rest ;;
  guard (is_safe_filename filename) ;;
  rret (mkStart session_id file_size digest filename).

Definition decode_file_dist_start (payload : bytes) : option FileDistStartMessage :=
  if len payload <? 51 then None else run_reader file_dist_start_reader payload.

Definition encode_file_dist_chunk (msg : FileDistChunkMessage) : bytes :=
  if bool_decide (fc_data msg = []) || (len (fc_data msg) >? kMaxChunkSize) then []
  else
    write_le 8 (fc_session_id msg) ++ write_le 8 (fc_offset msg) ++
    write_le 4 (len (fc_data msg)) ++ fc_data msg.

Definition file_dist_chunk_reader : reader FileDistChunkMessage :=
  session_id <- read_le 8 ;;
  offset <- read_le 8 ;;
  data_len <- read_le 4 ;;
  guard (negb (data_len =? 0) && (data_len <=? kMaxChunkSize)) ;;
  left <- rremaining ;;
  guard (left =? data_len) ;;
  data <- read_rest ;;
  rret (mkChunk session_id offset data).

Definition decode_file_dist_chunk (payload : bytes) : option FileDistChunkMessage :=
  if len payload <? 21 then None else run_reader file_dist_chunk_reader payload.

Definition encode_file_dist_finish (msg : FileDistFinishMessage) : bytes :=
  write_le 8 (ff_session_id msg).

Definition decode_file_dist_finish (payload : bytes) : option FileDistFinishMessage :=
  if negb (len payload =? 8) then None
  else run_reader (session_id <- read_le 8 ;; rret (mkFinish session_id)) payload.

(** The seven bytes of padding are written as zeros and not read. *)
Definition encode_file_dist_status (msg : FileDistStatusMessage) : bytes :=
  write_le 8 (ft_session_id msg) ++ write_le 8 (ft_bytes_received msg) ++
  [byte_of (status_value (ft_status msg))] ++ repeat (byte_of 0) 7.

Definition file_dist_status_reader : reader FileDistStatusMessage :=
  session_id <- read_le 8 ;;
  bytes_received <- read_le 8 ;;
  status_byte <- read_le 1 ;;
  guard (status_byte <=? status_value rejected_quota_exceeded) ;;
  padding <- read_bytes 7 ;;
  rret (mkStatus session_id bytes_received (status_of status_byte)).

Definition decode_file_dist_status (payload : bytes) : option FileDistStatusMessage :=
  if negb (len payload =? 24) then None else run_reader file_dist_status_reader payload.

(** The four bytes of padding likewise. *)
Definition encode_file_dist_cancel (msg : FileDistCancelMessage) : bytes :=
  write_le 8 (fx_session_id msg) ++ write_le 4 (fx_reason_code msg) ++ repeat (byte_of 0) 4.

Definition file_dist_cancel_reader : reader FileDistCancelMessage :=
  session_id <- read_le 8 ;;
  reason_code <- read_le 4 ;;
  padding <- read_bytes 4 ;;
  rret (mkCancel session_id reason_code).

Definition decode_file_dist_cancel (payload : bytes) : option FileDistCancelMessage :=
  if negb (len payload =? 16) then None else run_reader file_dist_cancel_reader payload.

(** ** Codecs *)

Definition wf_start (m : FileDistStartMessage) : Prop :=
  u64 (fs_session_id m) /\ 0 <= fs_file_size m <= kMaxFileSize /\ length (fs_sha256 m) = 32%nat /\
  is_safe_filename (fs_filename m) = true.

Definition wf_chunk (m : FileDistChunkMessage) : Prop :=
  u64 (fc_session_id m) /\ u64 (fc_offset m) /\ 1 <= len (fc_data m) <= kMaxChunkSize.

Definition wf_finish (m : FileDistFinishMessage) : Prop := u64 (ff_session_id m).

Definition wf_status (m : FileDistStatusMessage) : Prop :=
  u64 (ft_session_id m) /\ u64 (ft_bytes_received m).

Definition wf_cancel (m : FileDistCancelMessage) : Prop :=
  u64 (fx_session_id m) /\ u32 (fx_reason_code m).

Lemma safe_name_len f : is_safe_filename f = true -> 1 <= len f <= 255.
Proof.
  unfold is_safe_filename, kMaxFilenameLength.
  destruct (bool_decide _ || _) eqn:E; [done|]. intros _. bool_to_prop.
  destruct f as [|c f]; [done|]. rewrite len_cons in *. pose proof (len_nonneg f). lia.
Qed.

Lemma len_nonempty {A} (l : list A) : 1 <= len l -> bool_decide (l = []) = false.
Proof. destruct l; [rewrite len_nil; lia|]. intros _. by apply bool_decide_eq_false_2. Qed.

#[export] Program Instance file_start_codec : Codec FileDistStartMessage := {|
  encode := encode_file_dist_start; decode := decode_file_dist_start; valid := wf_start |}.
Next Obligation.
  intros m (Hs & Hz & Hd & Hn). pose proof (safe_name_len _ Hn) as Hl.
  unfold decode_file_dist_start, encode_file_dist_start, kMaxFilenameLength in *.
  rewrite len_nonempty, Hn by lia.
  destruct (Z.gtb_spec (len (fs_filename m)) 255); [lia|].
  destruct (Z.gtb_spec (fs_file_size m) kMaxFileSize); [lia|]. cbn [negb orb].
  pose proof (len_length _ _ Hd). autorewrite with wire.
  destruct (Z.ltb_spec (Z.of_nat 8 + (Z.of_nat 8 + (len (fs_sha256 m) + (Z.of_nat 2 + len (fs_filename m))))) 51); [lia|].
  unfold run_reader, file_dist_start_reader. unfold kMaxFileSize, kMaxFilenameLength in *. reader_run.
  cbn. by destruct m.
Qed.
Next Obligation.
  intros w m. unfold decode_file_dist_start. destruct (_ <? _); [done|].
  intros H. unfold file_dist_start_reader in H. reader_inv. bool_to_prop.
  subst. unfold wf_start, encode_file_dist_start. cbn in *.
  match goal with Hn : is_safe_filename ?f = true |- _ =>
    pose proof (safe_name_len f Hn); rewrite (len_nonempty f), Hn by lia end.
  unfold kMaxFilenameLength in *.
  match goal with |- context [?a >? 255] => destruct (Z.gtb_spec a 255); [lia|] end.
  match goal with |- context [?a >? kMaxFileSize] => destruct (Z.gtb_spec a kMaxFileSize); [lia|] end.
  split; [split_and!; (done || ulia)|done].
Qed.

#[export] Program Instance file_chunk_codec : Codec FileDistChunkMessage := {|
  encode := encode_file_dist_chunk; decode := decode_file_dist_chunk; valid := wf_chunk |}.
Next Obligation.
  intros m (Hs & Ho & Hl). unfold decode_file_dist_chunk, encode_file_dist_chunk, kMaxChunkSize in *.
  rewrite len_nonempty by lia.
  match goal with |- context [?a >? ?b] => destruct (Z.gtb_spec a b); [lia|] end. cbn [orb].
  autorewrite with wire.
  match goal with |- context [?a <? 21] => destruct (Z.ltb_spec a 21); [lia|] end.
  unfold run_reader, file_dist_chunk_reader, kMaxChunkSize. reader_run. cbn. by destruct m.
Qed.
Next Obligation.
  intros w m. unfold decode_file_dist_chunk. destruct (_ <? _); [done|].
  intros H. unfold file_dist_chunk_reader in H. reader_inv. bool_to_prop.
  subst. unfold wf_chunk, encode_file_dist_chunk, kMaxChunkSize in *. cbn in *.
  match goal with |- context [bool_decide (?d = [])] => rewrite (len_nonempty d) by ulia end.
  match goal with |- context [?a >? ?b] => destruct (Z.gtb_spec a b); [lia|] end.
  split; [split_and!; (done || ulia)|done].
Qed.

#[export] Program Instance file_finish_codec : Codec FileDistFinishMessage := {|
  encode := encode_file_dist_finish; decode := decode_file_dist_finish; valid := wf_finish |}.
Next Obligation.
  intros m Hm. unfold wf_finish in Hm. unfold decode_file_dist_finish, encode_file_dist_finish.
  autorewrite with wire. unfold run_reader. reader_run. by destruct m.
Qed.
Next Obligation.
  intros w m. unfold decode_file_dist_finish. destruct (negb _) eqn:El; [done|]. intros H. reader_inv.
  bool_to_prop. no_rest. split; [done|]. unfold encode_file_dist_finish. cbn. by rewrite app_nil_r.
Qed.

(** The padding of these two is not read: what decodes is a message's bytes with
    any padding. *)
Lemma decode_status_iff w m :
  decode_file_dist_status w = Some m <->
  wf_status m /\ exists padding, length padding = 7%nat /\
    w = write_le 8 (ft_session_id m) ++ write_le 8 (ft_bytes_received m) ++
        [byte_of (status_value (ft_status m))] ++ padding.
Proof.
  pose proof (fun p => len_length (A := Byte.byte) p 7) as H7. split.
  - unfold decode_file_dist_status. destruct (negb _) eqn:El; [done|].
    intros H. unfold file_dist_status_reader in H. reader_inv. bool_to_prop. no_rest.
    assert (status_value (status_of x4) = x4) as Hx.
    { change (status_value rejected_quota_exceeded) with 7 in *.
      assert (x4 = 0 \/ x4 = 1 \/ x4 = 2 \/ x4 = 3 \/ x4 = 4 \/ x4 = 5 \/ x4 = 6 \/ x4 = 7) as Hc by ulia.
      by destruct Hc as [-> | [-> | [-> | [-> | [-> | [-> | [-> | ->]]]]]]]. }
    split; [done|]. exists x8. cbn [ft_session_id ft_bytes_received ft_status].
    by rewrite Hx, <- write_le_byte, app_nil_r.
  - intros ((Hs & Hb) & padding & Hp & ->). unfold decode_file_dist_status.
    assert (u8 (status_value (ft_status m))) as Hu by (destruct (ft_status m); by vm_compute).
    rewrite <- write_le_byte. autorewrite with wire. rewrite (H7 _ Hp).
    change (negb _) with false. cbn [orb]. unfold run_reader, file_dist_status_reader. reader_run.
    rewrite rbind_guard by (by destruct (ft_status m)).
    rewrite rbind_read_bytes_end by exact Hp. by destruct m as [? ? []].
Qed.

Lemma decode_cancel_iff w m :
  decode_file_dist_cancel w = Some m <->
  wf_cancel m /\ exists padding, length padding = 4%nat /\
    w = write_le 8 (fx_session_id m) ++ write_le 4 (fx_reason_code m) ++ padding.
Proof.
  pose proof (fun p => len_length (A := Byte.byte) p 4) as H4. split.
  - unfold decode_file_dist_cancel. destruct (negb _) eqn:El; [done|].
    intros H. unfold file_dist_cancel_reader in H. reader_inv. bool_to_prop. no_rest.
    split; [done|]. exists x4. cbn. by rewrite app_nil_r.
  - intros ((Hs & Hb) & padding & Hp & ->). unfold decode_file_dist_cancel.
    autorewrite with wire. rewrite (H4 _ Hp). change (negb _) with false.
    unfold run_reader, file_dist_cancel_reader. reader_run.
    by destruct m.
Qed.

(** ** Names *)

(** A safe name, test by test. *)
Lemma safe_name_inv f :
  is_safe_filename f = true ->
  f <> [] /\ len f <= 255 /\ front_is space_or_dot f = false /\ back_is space_or_dot f = false /\
  Forall (fun c => control_code c = false /\ forbidden_character c = false) f /\
  is_reserved_dos_device (stem_of f) = false.
Proof.
  intros H. pose proof (safe_name_len f H) as Hl. revert H. unfold is_safe_filename, kMaxFilenameLength.
  destruct (bool_decide _ || (_ >? _)) eqn:E1; [done|].
  destruct (front_is _ _ || back_is _ _) eqn:E2; [done|].
  destruct (existsb _ f) eqn:E3; [done|].
  destruct (bool_decide _ || bool_decide _); [done|].
  destruct (is_reserved_dos_device _) eqn:E5; [done|]. intros _.
  bool_to_prop. split_and!; try done.
  apply Forall_forall. intros c Hc%list_elem_of_In.
  destruct (control_code c || forbidden_character c) eqn:E; [|by apply orb_false_iff].
  assert (existsb (fun c => control_code c || forbidden_character c) f = true) as K
    by (apply existsb_exists; by exists c). congruence.
Qed.

Lemma base_name_plain f : existsb is_slash f = false -> base_name f = f.
Proof.
  destruct f as [|c f]; [done|]. cbn. intros [H1 H2]%orb_false_iff. by rewrite H2, H1.
Qed.

Lemma drop_plain s : front_is space_or_dot s = false -> drop_spaces_dots s = s.
Proof. destruct s as [|c s]; [done|]. cbn. by intros ->. Qed.

Lemma slash_forbidden c : is_slash c = true -> forbidden_character c = true.
Proof. unfold is_slash, forbidden_character. cbn. intros [->| ->]%orb_true_iff; by rewrite ?orb_true_r. Qed.

(** Sanitizing gives a safe name, and a safe name is left as it is. *)
Lemma sanitized_is_safe f : is_safe_filename (sanitize_filename f) = true.
Proof.
  assert (is_safe_filename kDefaultName = true) as Hd by (vm_compute; reflexivity).
  assert (forall s, is_safe_filename (finish_name s) = true) as Hf.
  { intros s. unfold finish_name. set (t := if is_reserved_dos_device _ then _ else _).
    by destruct (is_safe_filename t) eqn:E. }
  unfold sanitize_filename. case_bool_decide; [done|]. case_bool_decide; [done|].
  destruct (_ >? _); [|done]. by case_bool_decide.
Qed.

Lemma sanitize_safe f : is_safe_filename f = true -> sanitize_filename f = f.
Proof.
  intros Hs. destruct (safe_name_inv f Hs) as (Hne & Hl & Hfr & Hbk & Hall & Hres).
  unfold sanitize_filename.
  assert (base_name f = f) as ->.
  { apply base_name_plain. destruct (existsb is_slash f) eqn:E; [|done].
    apply existsb_exists in E as (c & Hc & Hsl). rewrite Forall_forall in Hall.
    destruct (Hall c) as [_ Hx]; [by apply list_elem_of_In|]. apply slash_forbidden in Hsl. congruence. }
  assert (map replaced f = f) as ->.
  { clear -Hall. induction Hall as [|c f [H1 H2] _ IH]; [done|]. cbn. rewrite IH. unfold replaced.
    by rewrite H1, H2. }
  unfold trim_front, trim_back. rewrite (drop_plain f) by done.
  rewrite !bool_decide_false by done. rewrite (drop_plain (rev f)) by done. rewrite rev_involutive.
  unfold kMaxFilenameLength. destruct (Z.gtb_spec (len f) 255); [lia|].
  unfold finish_name. by rewrite Hres, Hs.
Qed.

(** ** Paths *)

Lemma mismatch_app base rest : mismatch (base ++ rest) base = (rest, []).
Proof.
  induction base as [|x base IH]; cbn; [by destruct rest|]. by rewrite bool_decide_true.
Qed.

(** The path of a safe name is that name in the directory. *)
Lemma staging_path_spec base f :
  compute_staging_path base f = if is_safe_filename f then Some (base ++ [f]) else None.
Proof.
  unfold compute_staging_path. destruct (is_safe_filename f) eqn:Hs; [cbn [negb]|done].
  destruct (safe_name_inv f Hs) as (Hne & _ & Hfr & _).
  unfold lexically_relative. rewrite mismatch_app. cbn [levels fold_left Z.ltb Z.eqb Z.compare].
  rewrite (bool_decide_false (f = [])) by done. cbn [andb repeat Z.to_nat app path_string].
  rewrite bool_decide_false by done. destruct f as [|c f]; [done|]. cbn in Hfr.
  unfold starts_with. rewrite bool_decide_false; [done|]. cbn. intros [= -> _].
  by vm_compute in Hfr.
Qed.
End FileDistribution.
