(* ===== verification/FileReception.v ===== *)
(** The client's end of a file transfer (client/service/main.cpp): the receive
    session, the handlers of the four commands, and the end of a connection.

    The outcomes of the file-system calls are parameters: whether a file opens,
    a write succeeds, what a flush leaves on the disk, whether a removal and a
    rename work.  No other process touches the staging directory. *)

From S2P Require Import Prelude Wire Codec Protocol Auth Pairing AuditLog FileDistribution.

Module FileReception.
Import Protocol FileDistribution.

(** ** State *)

Record ActiveFileReceiveSession := mkSession {
  rs_session_id : Z;
  rs_total_size : Z;
  rs_bytes_received : Z;
  rs_expected_sha256 : bytes;
  rs_target_path : Path;
  rs_part_path : Path;
  rs_active : bool
}.

Definition no_session : ActiveFileReceiveSession :=
  mkSession 0 0 0 (repeat (byte_of 0) 32) [] [] false.

(** What the handlers queue and record. *)
Inductive Effect :=
| Queued (type : CommandType) (payload : bytes)
| Audited (event : AuditLog.Event).

Record Receiver := mkReceiver {
  rv_session : ActiveFileReceiveSession;
  rv_files : gmap Path bytes;
  rv_effects : list Effect
}.

(** One command's outside: the lockdown, the staging directory, the calls.  [en_flushed]
    is how much of the file there is once it is closed, when not all of it. *)
Record Env := mkEnv {
  en_armed : bool;
  en_staging_directory : Path;
  en_opens : bool;
  en_writes : bool;
  en_written : nat;
  en_removes : Path -> bool;
  en_flushed : option nat;
  en_reopens : bool;
  en_reads : bool;
  en_renames : bool
}.

Definition set_session (r : Receiver) (session : ActiveFileReceiveSession) : Receiver :=
  mkReceiver session (rv_files r) (rv_effects r).

Definition set_files (r : Receiver) (files : gmap Path bytes) : Receiver :=
  mkReceiver (rv_session r) files (rv_effects r).

Definition add_effect (r : Receiver) (e : Effect) : Receiver :=
  mkReceiver (rv_session r) (rv_files r) (rv_effects r ++ [e]).

Definition send_file_dist_status (r : Receiver) (session_id bytes_received : Z)
    (status : FileDistStatus) : Receiver :=
  add_effect r (Queued CT_file_dist_status
    (encode_file_dist_status (mkStatus session_id bytes_received status))).

Definition category_security : Z := 6.
Definition category_system : Z := 7.

Definition emit_audit (r : Receiver) (category severity : Z) (action outcome detail : string) : Receiver :=
  add_effect r (Audited (AuditLog.mkEvent category severity (text "file_distribution") (text action)
    (text outcome) 0 0 (text detail))).

Definition remove (env : Env) (r : Receiver) (p : Path) : Receiver :=
  if en_removes env p then set_files r (delete p (rv_files r)) else r.

(** Close, remove the part file, forget the session. *)
Definition discard (env : Env) (r : Receiver) : Receiver :=
  set_session (remove env r (rs_part_path (rv_session r))) no_session.

(** [part_path += ".nstu_part"]: on the last element. *)
Fixpoint part_of (p : Path) : Path :=
  match p with
  | [] => [text ".nstu_part"]
  | [name] => [name ++ text ".nstu_part"]
  | element :: rest => element :: part_of rest
  end.

(** ** Handlers *)

Definition file_start (env : Env) (r : Receiver) (payload : bytes) : Receiver :=
  match decode_file_dist_start payload with
  | None => r
  | Some msg =>
      let id := fs_session_id msg in
      if en_armed env then
        emit_audit (send_file_dist_status r id 0 rejected_exam_active)
          category_security 2 "start" "rejected" "exam lockdown active"
      else if negb (is_safe_filename (fs_filename msg)) then
        emit_audit (send_file_dist_status r id 0 rejected_unsafe_path)
          category_security 2 "start" "rejected" "unsafe filename rejected"
      else if fs_file_size msg >? kMaxFileSize then
        emit_audit (send_file_dist_status r id 0 rejected_quota_exceeded)
          category_security 2 "start" "rejected" "file size quota exceeded"
      else
        match compute_staging_path (en_staging_directory env) (fs_filename msg) with
        | None => send_file_dist_status r id 0 rejected_unsafe_path
        | Some target_path =>
            let part_path := part_of target_path in
            let r := if rs_active (rv_session r) then discard env r else r in
            let r := remove env r part_path in
            if negb (en_opens env) then
              emit_audit (send_file_dist_status r id 0 write_error)
                category_system 3 "start" "failed" "failed to open staging part file"
            else
              let r := set_files r (<[part_path := []]> (rv_files r)) in
              let r := set_session r
                (mkSession id (fs_file_size msg) 0 (fs_sha256 msg) target_path part_path true) in
              send_file_dist_status r id 0 in_progress
        end
  end.

(** Bytes written at the end of a file. *)
Definition append_to (r : Receiver) (p : Path) (data : bytes) : Receiver :=
  set_files r (<[p := default [] (rv_files r !! p) ++ data]> (rv_files r)).

Definition other_session (r : Receiver) (session_id : Z) : bool :=
  negb (rs_active (rv_session r)) || negb (rs_session_id (rv_session r) =? session_id).

Definition file_chunk (env : Env) (r : Receiver) (payload : bytes) : Receiver :=
  match decode_file_dist_chunk payload with
  | None => r
  | Some msg =>
      let session := rv_session r in
      let id := fc_session_id msg in
      if other_session r id then r
      else if en_armed env then send_file_dist_status (discard env r) id 0 rejected_exam_active
      else if negb (fc_offset msg =? rs_bytes_received session) ||
              (wrap64 (rs_bytes_received session + len (fc_data msg)) >? rs_total_size session)
      then send_file_dist_status (discard env r) id 0 write_error
      else if negb (bool_decide (fc_data msg = [])) && negb (en_writes env) then
        send_file_dist_status
          (discard env (append_to r (rs_part_path session) (take (en_written env) (fc_data msg))))
          id 0 write_error
      else
        let r := append_to r (rs_part_path session) (fc_data msg) in
        let received := wrap64 (rs_bytes_received session + len (fc_data msg)) in
        send_file_dist_status
          (set_session r {| session with rs_bytes_received := received |})
          (rs_session_id session) received in_progress
  end.

(** The file once it is flushed and closed. *)
Definition flush_close (env : Env) (r : Receiver) : Receiver :=
  match en_flushed env with
  | None => r
  | Some kept =>
      let p := rs_part_path (rv_session r) in
      set_files r (<[p := take kept (default [] (rv_files r !! p))]> (rv_files r))
  end.

(** A buffer of [total] zeros, read over from the start of the file. *)
Definition read_back (total : Z) (content : bytes) : bytes :=
  let n := Z.to_nat total in
  take n content ++ repeat (byte_of 0) (n - length content).

Section Hash.
Variable bcrypt_sha256 : bytes -> option bytes.

(** After the size test: the part file is read back and hashed, and renamed. *)
Definition verify_and_commit (env : Env) (r : Receiver) : Receiver :=
  let session := rv_session r in
  let id := rs_session_id session in
  if negb (en_reopens env) then send_file_dist_status (discard env r) id 0 write_error
  else if (rs_total_size session >? 0) && negb (en_reads env)
  then send_file_dist_status (discard env r) id 0 write_error
  else
    let content := default [] (rv_files r !! rs_part_path session) in
    let verified :=
      match Pairing.sha256 bcrypt_sha256 (read_back (rs_total_size session) content) with
      | Some computed => Auth.constant_time_equal computed (rs_expected_sha256 session)
      | None => false
      end in
    if negb verified then
      emit_audit (send_file_dist_status (discard env r) id 0 hash_mismatch)
        category_security 3 "finish" "failed" "file digest mismatch; part deleted"
    else
      let r := remove env r (rs_target_path session) in
      if negb (en_renames env) then send_file_dist_status (discard env r) id 0 write_error
      else
        let r := set_files r
          (<[rs_target_path session := content]> (delete (rs_part_path session) (rv_files r))) in
        let r := set_session r no_session in
        emit_audit (send_file_dist_status r id (rs_total_size session) completed)
          category_system 1 "finish" "success" "file staged successfully; no auto-execution".

Definition file_finish (env : Env) (r : Receiver) (payload : bytes) : Receiver :=
  match decode_file_dist_finish payload with
  | None => r
  | Some msg =>
      let session := rv_session r in
      if other_session r (ff_session_id msg) then r
      else if en_armed env
      then send_file_dist_status (discard env r) (ff_session_id msg) 0 rejected_exam_active
      else
        let r := flush_close env r in
        if negb (rs_bytes_received session =? rs_total_size session)
        then send_file_dist_status (discard env r) (rs_session_id session) 0 write_error
        else verify_and_commit env r
  end.

Definition file_cancel (env : Env) (r : Receiver) (payload : bytes) : Receiver :=
  match decode_file_dist_cancel payload with
  | None => r
  | Some msg =>
      if other_session r (fx_session_id msg) then r
      else send_file_dist_status (discard env r) (rs_session_id (rv_session r)) 0 cancelled
  end.

(** The end of the control session. *)
Definition file_disconnect (env : Env) (r : Receiver) : Receiver :=
  if rs_active (rv_session r) then discard env r else r.

(** The cases of [handle_server_command]. *)
Definition handle_file_command (env : Env) (r : Receiver) (type : CommandType) (payload : bytes)
    : Receiver :=
  match type with
  | CT_file_dist_start => file_start env r payload
  | CT_file_dist_chunk => file_chunk env r payload
  | CT_file_dist_finish => file_finish env r payload
  | CT_file_dist_cancel => file_cancel env r payload
  | _ => r
  end.

Inductive Operation :=
| Command (type : CommandType) (payload : bytes) (env : Env)
| Disconnected (env : Env).

Definition perform (r : Receiver) (op : Operation) : Receiver :=
  match op with
  | Command type payload env => handle_file_command env r type payload
  | Disconnected env => file_disconnect env r
  end.

Definition run (r : Receiver) (ops : list Operation) : Receiver := foldl perform r ops.
End Hash.

(** ** What a session stands for *)

(** The data of the chunks of a session, in order. *)
Definition chunk_of (session_id : Z) (op : Operation) : bytes :=
  match op with
  | Command CT_file_dist_chunk payload _ =>
      match decode_file_dist_chunk payload with
      | Some msg => if fc_session_id msg =? session_id then fc_data msg else []
      | None => []
      end
  | _ => []
  end.

Definition chunks_of (session_id : Z) (ops : list Operation) : bytes :=
  concat (map (chunk_of session_id) ops).

Lemma chunks_of_snoc id ops op : chunks_of id (ops ++ [op]) = chunks_of id ops ++ chunk_of id op.
Proof. unfold chunks_of. rewrite map_app, concat_app. cbn. by rewrite app_nil_r. Qed.

(** Where the file of a start command goes. *)
Definition target_of (env : Env) (m : FileDistStartMessage) : Path :=
  en_staging_directory env ++ [fs_filename m].

(** The session that was started by [m] and has received [data]. *)
Definition session_of (env : Env) (m : FileDistStartMessage) (data : bytes) : ActiveFileReceiveSession :=
  mkSession (fs_session_id m) (fs_file_size m) (len data) (fs_sha256 m) (target_of env m)
    (part_of (target_of env m)) true.

(** A start command that was admitted, and the operations after it. *)
Definition started (ops : list Operation) (env : Env) (m : FileDistStartMessage)
    (after : list Operation) : Prop :=
  exists before payload, ops = before ++ Command CT_file_dist_start payload env :: after /\
    decode_file_dist_start payload = Some m /\ en_armed env = false.

(** An active session is that of the last admitted start, and its part file holds
    the chunks that followed. *)
Definition receiving (ops : list Operation) (r : Receiver) : Prop :=
  rs_active (rv_session r) = true ->
  exists env m after, started ops env m after /\
    let data := chunks_of (fs_session_id m) after in
    rv_session r = session_of env m data /\
    rv_files r !! part_of (target_of env m) = Some data /\ len data <= fs_file_size m.

Lemma started_snoc ops env m after op : started ops env m after -> started (ops ++ [op]) env m (after ++ [op]).
Proof. intros (before & payload & -> & Hd & Ha). exists before, payload. by rewrite <- app_assoc. Qed.

(** An operation that leaves the session and the files and carries none of its
    data. *)
Lemma receiving_unchanged ops op r r' :
  rv_session r' = rv_session r -> rv_files r' = rv_files r ->
  (rs_active (rv_session r) = true -> chunk_of (rs_session_id (rv_session r)) op = []) ->
  receiving ops r -> receiving (ops ++ [op]) r'.
Proof.
  intros Hs Hf Hc Hr. unfold receiving. rewrite Hs, Hf. intros Ha. specialize (Hc Ha).
  destruct (Hr Ha) as (env & m & after & Hst & Hses & Hp & Hl). rewrite Hses in Hc. cbn in Hc.
  exists env, m, (after ++ [op]). split; [by apply started_snoc|].
  rewrite chunks_of_snoc, Hc, app_nil_r. by rewrite Hses.
Qed.

Lemma receiving_idle ops r : rs_active (rv_session r) = false -> receiving ops r.
Proof. intros H Ha. congruence. Qed.

Lemma start_message_wf payload m : decode_file_dist_start payload = Some m -> wf_start m.
Proof. intros H. exact (proj1 (proj1 (decode_iff (A := FileDistStartMessage) payload m) H)). Qed.

Lemma chunk_message_wf payload m : decode_file_dist_chunk payload = Some m -> wf_chunk m.
Proof. intros H. exact (proj1 (proj1 (decode_iff (A := FileDistChunkMessage) payload m) H)). Qed.

Lemma start_receiving ops env r payload :
  receiving ops r ->
  receiving (ops ++ [Command CT_file_dist_start payload env]) (file_start env r payload).
Proof.
  intros Hr. assert (forall r', rv_session r' = rv_session r -> rv_files r' = rv_files r ->
    receiving (ops ++ [Command CT_file_dist_start payload env]) r') as Hsame
    by (intros; by eapply receiving_unchanged).
  unfold file_start. destruct (decode_file_dist_start payload) as [m|] eqn:Ed; [|by apply Hsame].
  destruct (en_armed env) eqn:Ea; [by apply Hsame|]. destruct (negb _); [by apply Hsame|].
  destruct (_ >? _); [by apply Hsame|]. rewrite staging_path_spec.
  pose proof (start_message_wf _ _ Ed) as (_ & [H0 _] & _ & Hn). rewrite Hn.
  set (r1 := if rs_active _ then _ else r).
  assert (rs_active (rv_session r1) = false) as Hidle
    by (unfold r1; destruct (rs_active (rv_session r)) eqn:E; done).
  set (r2 := remove env r1 _).
  assert (rv_session r2 = rv_session r1) as Hs2 by (unfold r2, remove; by destruct (en_removes _ _)).
  destruct (negb (en_opens env)); [apply receiving_idle; cbn; by rewrite Hs2|].
  intros _. exists env, m, []. split; [exists ops, payload; by split_and!|]. cbn.
  by rewrite lookup_insert_eq.
Qed.

Lemma discard_idle env r : rs_active (rv_session (discard env r)) = false.
Proof. done. Qed.

Lemma other_session_chunk r payload env m :
  decode_file_dist_chunk payload = Some m -> other_session r (fc_session_id m) = true ->
  rs_active (rv_session r) = true ->
  chunk_of (rs_session_id (rv_session r)) (Command CT_file_dist_chunk payload env) = [].
Proof.
  intros Hd Ho Ha. cbn. rewrite Hd. unfold other_session in Ho. rewrite Ha in Ho. cbn in Ho.
  rewrite Z.eqb_sym. by destruct (_ =? _).
Qed.

Lemma chunk_receiving ops env r payload :
  receiving ops r ->
  receiving (ops ++ [Command CT_file_dist_chunk payload env]) (file_chunk env r payload).
Proof.
  intros Hr. unfold file_chunk.
  destruct (decode_file_dist_chunk payload) as [m|] eqn:Ed.
  2: { eapply receiving_unchanged; [done|done| |done]. intros _. cbn. by rewrite Ed. }
  destruct (other_session r (fc_session_id m)) eqn:Eo.
  { eapply receiving_unchanged; [done|done| |done]. by eapply other_session_chunk. }
  destruct (en_armed env); [by apply receiving_idle|].
  destruct (_ || (_ >? _)) eqn:Et; [by apply receiving_idle|].
  destruct (_ && _); [by apply receiving_idle|].
  unfold other_session in Eo. bool_to_prop. intros _.
  destruct (Hr ltac:(done)) as (e & sm & after & Hst & Hses & Hp & Hl).
  pose proof (chunk_message_wf _ _ Ed) as (_ & _ & Hb). unfold kMaxChunkSize in Hb.
  assert (fs_file_size sm <= 67108864) as Hmax.
  { destruct Hst as (? & ? & _ & Hds & _). by apply start_message_wf in Hds as (_ & [_ ?] & _). }
  rewrite Hses in *. cbn in *. set (data := chunks_of (fs_session_id sm) after) in *.
  pose proof (len_nonneg data).
  unfold wrap64 in *. rewrite Z.mod_small in * by lia.
  exists e, sm, (after ++ [Command CT_file_dist_chunk payload env]). split; [by apply started_snoc|].
  rewrite chunks_of_snoc. fold data. cbn. rewrite Ed.
  replace (fc_session_id m =? fs_session_id sm) with true by lia.
  rewrite lookup_insert_eq, Hp, !len_app. split_and!; [|done|done].
  unfold session_of. by rewrite len_app.
Qed.

Section Facts.
Context (sha : bytes -> option bytes).

Lemma finish_receiving ops env r payload :
  receiving ops r ->
  receiving (ops ++ [Command CT_file_dist_finish payload env]) (file_finish sha env r payload).
Proof using Type.
  intros Hr. unfold file_finish. destruct (decode_file_dist_finish payload) as [m|] eqn:Ed.
  2: by eapply receiving_unchanged.
  destruct (other_session _ _); [by eapply receiving_unchanged|].
  destruct (en_armed env); [by apply receiving_idle|]. destruct (negb _); [by apply receiving_idle|].
  unfold verify_and_commit. destruct (negb (en_reopens env)); [by apply receiving_idle|].
  destruct (_ && _); [by apply receiving_idle|]. destruct (negb _); [by apply receiving_idle|].
  destruct (negb (en_renames env)); by apply receiving_idle.
Qed.

Lemma step_receiving ops r op : receiving ops r -> receiving (ops ++ [op]) (perform sha r op).
Proof using Type.
  intros Hr. destruct op as [type payload env|env]; cbn [perform].
  - destruct type; cbn [handle_file_command]; try (by eapply receiving_unchanged).
    + by apply start_receiving.
    + by apply chunk_receiving.
    + by apply finish_receiving.
    + unfold file_cancel. destruct (decode_file_dist_cancel payload); [|by eapply receiving_unchanged].
      destruct (other_session _ _); [by eapply receiving_unchanged|by apply receiving_idle].
  - unfold file_disconnect. destruct (rs_active (rv_session r)) eqn:E; by apply receiving_idle.
Qed.

Lemma run_receiving r0 ops : rs_active (rv_session r0) = false -> receiving ops (run sha r0 ops).
Proof using Type.
  intros Hi. unfold run. induction ops as [|op ops IH] using rev_ind; [by apply receiving_idle|].
  rewrite foldl_snoc. by apply step_receiving.
Qed.

(** ** What a completed transfer means *)

(** A status report of completion. *)
Definition reports_completed (e : Effect) : Prop :=
  exists id n, e = Queued CT_file_dist_status (encode_file_dist_status (mkStatus id n completed)).

Lemma other_status_not_completed id n status :
  status <> completed ->
  ~ reports_completed (Queued CT_file_dist_status (encode_file_dist_status (mkStatus id n status))).
Proof using Type.
  intros Hne (id' & n' & E).
  apply (f_equal (fun e => match e with Queued _ payload => payload | Audited _ => [] end)) in E.
  unfold encode_file_dist_status in E. cbn [ft_session_id ft_bytes_received ft_status] in E.
  apply app_inj_1 in E as [_ E]; [|by rewrite !length_write_le].
  apply app_inj_1 in E as [_ E]; [|by rewrite !length_write_le].
  apply app_inv_tail in E. destruct status; done || by vm_compute in E.
Qed.

Lemma audit_not_completed event : ~ reports_completed (Audited event).
Proof using Type. by intros (? & ? & ?). Qed.

(** Effects that report no completion. *)
Definition modest (r r' : Receiver) : Prop :=
  exists more, rv_effects r' = rv_effects r ++ more /\ Forall (fun e => ~ reports_completed e) more.

Lemma modest_refl r r' : rv_effects r' = rv_effects r -> modest r r'.
Proof using Type. intros E. exists []. by rewrite E, app_nil_r. Qed.

Lemma modest_add r r' e : modest r r' -> ~ reports_completed e -> modest r (add_effect r' e).
Proof using Type.
  intros (more & E & Hm) He. exists (more ++ [e]). cbn. rewrite E, <- app_assoc.
  split; [done|]. apply Forall_app. split; [done|by apply Forall_singleton].
Qed.

Lemma modest_status r r' id n status :
  modest r r' -> status <> completed -> modest r (send_file_dist_status r' id n status).
Proof using Type. intros Hm Hs. apply modest_add; [done|]. by apply other_status_not_completed. Qed.

Lemma modest_audit r r' category severity action outcome detail :
  modest r r' -> modest r (emit_audit r' category severity action outcome detail).
Proof using Type. intros Hm. apply modest_add; [done|]. apply audit_not_completed. Qed.

Lemma remove_effects env r p : rv_effects (remove env r p) = rv_effects r.
Proof using Type. unfold remove. by destruct (en_removes env p). Qed.

Lemma discard_effects env r : rv_effects (discard env r) = rv_effects r.
Proof using Type. apply remove_effects. Qed.

Lemma flush_effects env r : rv_effects (flush_close env r) = rv_effects r.
Proof using Type. unfold flush_close. by destruct (en_flushed env). Qed.

Ltac modestly :=
  repeat first [apply modest_audit | apply modest_status; [|done]];
  apply modest_refl; rewrite ?discard_effects, ?remove_effects, ?flush_effects; done.

(** What the last step of a transfer has checked and done. *)
Definition committed (env : Env) (r r' : Receiver) : Prop :=
  let session := rv_session r in
  let content := default [] (rv_files (flush_close env r) !! rs_part_path session) in
  rs_active session = true /\ en_armed env = false /\
  rs_bytes_received session = rs_total_size session /\
  Pairing.sha256 sha (read_back (rs_total_size session) content) = Some (rs_expected_sha256 session) /\
  rv_files r' !! rs_target_path session = Some content.

Lemma flush_session env r : rv_session (flush_close env r) = rv_session r.
Proof using Type. unfold flush_close. by destruct (en_flushed env). Qed.

Lemma finish_effects env r payload :
  modest r (file_finish sha env r payload) \/ committed env r (file_finish sha env r payload).
Proof using Type.
  unfold file_finish. destruct (decode_file_dist_finish payload) as [m|]; [|left; by apply modest_refl].
  destruct (other_session _ _) eqn:Eo; [left; by apply modest_refl|].
  destruct (en_armed env) eqn:Ea; [left; modestly|]. destruct (negb _) eqn:Et; [left; modestly|].
  unfold verify_and_commit. rewrite flush_session.
  destruct (negb (en_reopens env)); [left; modestly|]. destruct (_ && _); [left; modestly|].
  destruct (Pairing.sha256 _ _) as [computed|] eqn:Eh; [|left; modestly].
  destruct (Auth.constant_time_equal _ _) eqn:Ec; cbn [negb]; [|left; modestly].
  destruct (negb (en_renames env)); [left; modestly|]. right.
  apply Auth.constant_time_equal_spec in Ec as ->. unfold other_session in Eo. bool_to_prop.
  split_and!; try done. cbn. by rewrite lookup_insert_eq.
Qed.

Lemma step_effects r op :
  modest r (perform sha r op) \/
  exists payload env, op = Command CT_file_dist_finish payload env /\ committed env r (perform sha r op).
Proof using Type.
  destruct op as [type payload env|env]; cbn [perform].
  - destruct type; cbn [handle_file_command]; try (left; by apply modest_refl).
    + left. unfold file_start. destruct (decode_file_dist_start payload); [|by apply modest_refl].
      destruct (en_armed env); [modestly|]. destruct (negb _); [modestly|].
      destruct (_ >? _); [modestly|]. destruct (compute_staging_path _ _); [|modestly].
      destruct (rs_active _), (negb (en_opens env)); repeat first [apply modest_audit | apply modest_status; [|done]];
        apply modest_refl; cbn; by rewrite ?remove_effects, ?discard_effects.
    + left. unfold file_chunk. destruct (decode_file_dist_chunk payload); [|by apply modest_refl].
      destruct (other_session _ _); [by apply modest_refl|]. destruct (en_armed env); [modestly|].
      destruct (_ || (_ >? _)); [modestly|]. destruct (_ && _); modestly.
    + destruct (finish_effects env r payload); [by left|right; by exists payload, env].
    + left. unfold file_cancel. destruct (decode_file_dist_cancel payload); [|by apply modest_refl].
      destruct (other_session _ _); [by apply modest_refl|modestly].
  - left. unfold file_disconnect. destruct (rs_active _); apply modest_refl; [apply discard_effects|done].
Qed.

(** ** Properties *)

(** C17. What the client reports as received.  Whatever commands arrive, in any
    order, with any outcome of the file-system calls: when a step reports a
    transfer as completed, that transfer was started outside an exam lockdown by
    a command that named a safe file, size and digest; since then its chunks
    arrived in order and add up to exactly that size; the lockdown is not armed;
    and the file that now lies in the staging directory, under the announced name,
    holds those bytes, or as many of them as reached the disk, and has the
    announced digest when it is filled up with zeros to its size. *)
Theorem received_file_was_announced r0 (ops : list Operation) op more :
  rs_active (rv_session r0) = false -> let r := run sha r0 ops in
  let r' := perform sha r op in
  rv_effects r' = rv_effects r ++ more -> Exists reports_completed more ->
  exists env m after finish payload data content,
    started ops env m after /\ op = Command CT_file_dist_finish payload finish /\
    en_armed finish = false /\ is_safe_filename (fs_filename m) = true /\
    data = chunks_of (fs_session_id m) after /\ len data = fs_file_size m /\
    rv_files r' !! (en_staging_directory env ++ [fs_filename m]) = Some content /\
    content = match en_flushed finish with Some kept => take kept data | None => data end /\
    Pairing.sha256 sha (read_back (fs_file_size m) content) = Some (fs_sha256 m).
Proof using Type.
  intros Hi r r' He Hex. destruct (step_effects r op) as [(more' & E & Hm)|(payload & finish & -> & Hc)].
  { fold r' in E. rewrite E in He. apply app_inv_head in He as ->. exfalso.
    apply Exists_exists in Hex as (e & Hin & Hr). rewrite Forall_forall in Hm. by eapply Hm. }
  destruct Hc as (Ha & Harm & Hn & Hsha & Hf).
  destruct (run_receiving r0 ops Hi Ha) as (env & m & after & Hst & Hses & Hp & Hl). fold r in Hses, Hp.
  rewrite Hses in *. cbn in Hn, Hsha, Hf.
  assert (is_safe_filename (fs_filename m) = true) as Hsafe.
  { destruct Hst as (? & ? & _ & Hd & _). by apply start_message_wf in Hd as (_ & _ & _ & ?). }
  set (data := chunks_of (fs_session_id m) after) in *.
  exists env, m, after, finish, payload, data, (default [] (rv_files (flush_close finish r) !! part_of (target_of env m))).
  split_and!; try done. unfold flush_close. rewrite Hses. cbn.
  destruct (en_flushed finish); cbn; [by rewrite lookup_insert_eq, Hp|by rewrite Hp].
Qed.
End Facts.

(** ** Examples *)

Definition padded_sha (message : bytes) : option bytes :=
  Some (take 32 (message ++ repeat (byte_of 0) 32)).

Definition staging : Path := [text "C:"; text "NSTU_Received"].

Definition good_env (flushed : option nat) (renames : bool) : Env :=
  mkEnv false staging true true 0 (fun _ => true) flushed true true renames.

Definition sample_data : bytes := map byte_of [1; 0; 0; 0].

Definition sample_start (id : Z) (name : string) : FileDistStartMessage :=
  mkStart id 4 (default [] (padded_sha sample_data)) (text name).

(** The commands of one transfer before its last. *)
Definition sample_ops (id : Z) (name : string) : list Operation :=
  [Command CT_file_dist_start (encode_file_dist_start (sample_start id name)) (good_env None true);
   Command CT_file_dist_chunk (encode_file_dist_chunk (mkChunk id 0 sample_data)) (good_env None true)].

Definition sample_finish (id : Z) (flushed : option nat) (renames : bool) : Operation :=
  Command CT_file_dist_finish (encode_file_dist_finish (mkFinish id)) (good_env flushed renames).

Definition empty_receiver : Receiver := mkReceiver no_session ∅ [].

Definition received (id : Z) (name : string) (flushed : option nat) : Receiver :=
  run padded_sha empty_receiver (sample_ops id name ++ [sample_finish id flushed true]).

(** The last status queued. *)
Definition last_status (r : Receiver) : option FileDistStatus :=
  fold_left (fun found e =>
    match e with
    | Queued _ payload =>
        match decode_file_dist_status payload with
        | Some m => Some (ft_status m)
        | None => found
        end
    | Audited _ => found
    end) (rv_effects r) None.

(** A file whose last zeros never reached the disk is reported as completed: the
    buffer that is hashed was filled up with zeros. *)
Example short_file_reported_completed :
  last_status (received 5 "notes.txt" (Some 1%nat)) = Some completed /\
  rv_files (received 5 "notes.txt" (Some 1%nat)) !! (staging ++ [text "notes.txt"]) =
    Some [byte_of 1].
Proof. split; vm_compute; reflexivity. Qed.

(** A file that was received under the part name of another is removed when the
    other is announced. *)
Example part_name_collision :
  rv_files (received 5 "notes.txt.nstu_part" None) !! (staging ++ [text "notes.txt.nstu_part"]) =
    Some sample_data /\
  rv_files (run padded_sha (received 5 "notes.txt.nstu_part" None)
    (firstn 1 (sample_ops 6 "notes.txt") ++ [Disconnected (good_env None true)])) !!
    (staging ++ [text "notes.txt.nstu_part"]) = None.
Proof. split; vm_compute; reflexivity. Qed.

(** When the rename fails, the file that had the name before is gone as well. *)
Example failed_rename_loses_the_old_file :
  rv_files (run padded_sha (received 5 "notes.txt" None)
    (sample_ops 6 "notes.txt" ++ [sample_finish 6 None false])) !! (staging ++ [text "notes.txt"]) = None.
Proof. vm_compute. reflexivity. Qed.

(** Under an armed lockdown nothing is started. *)
Example lockdown_refuses :
  let env := mkEnv true staging true true 0 (fun _ => true) None true true true in
  let r := perform padded_sha empty_receiver
    (Command CT_file_dist_start (encode_file_dist_start (sample_start 5 "notes.txt")) env) in
  last_status r = Some rejected_exam_active /\ rs_active (rv_session r) = false.
Proof. split; vm_compute; reflexivity. Qed.

Lemma received_file_was_announced_witness :
  let r := run padded_sha empty_receiver (sample_ops 5 "notes.txt") in
  let r' := perform padded_sha r (sample_finish 5 None true) in
  last_status r' = Some completed /\
  exists env m content, rv_files r' !! (en_staging_directory env ++ [fs_filename m]) = Some content /\
    Pairing.sha256 padded_sha (read_back (fs_file_size m) content) = Some (fs_sha256 m).
Proof.
  split; [vm_compute; reflexivity|].
  set (more := [Queued CT_file_dist_status (encode_file_dist_status (mkStatus 5 4 completed));
    Audited (AuditLog.mkEvent 7 1 (text "file_distribution") (text "finish") (text "success") 0 0
      (text "file staged successfully; no auto-execution"))]).
  destruct (received_file_was_announced padded_sha empty_receiver (sample_ops 5 "notes.txt")
    (sample_finish 5 None true) more) as
    (env & m & after & finish & payload & data & content & Hst & _ & _ & _ & _ & _ & Hf & _ & Hs).
  - reflexivity.
  - vm_compute. reflexivity.
  - apply Exists_cons_hd. exists 5, 4. reflexivity.
  - exists env, m, content. exact (conj Hf Hs).
Defined.
End FileReception.
