(* ===== verification/RemoteActions.v ===== *)
(** The operator's remote actions on the server: roles
    (server/src/operator_role.cpp) and the entry points of
    server/src/control_plane.cpp that lock, freeze, restart or wake a client, open
    a page on it or send it a file.

    The outcome of the system calls (the file on the teacher's machine, the
    broadcast socket) are parameters, one environment per command that is sent. *)

From S2P Require Import Prelude Wire Codec Protocol Auth Pairing ControlMessages WakeOnLan.
From S2P Require Import UrlValidation Json UpdateManifest ClientRegistry ControlChannel AuditLog.
From S2P Require Import ServerState ServerExams FileDistribution FileReception.

Module RemoteActions.
Import Protocol ControlChannel ServerState ServerExams FileDistribution.

#[local] Existing Instance ClientRegistry.client_status_eq_dec.

(** ** Roles *)

Inductive OperatorRole : Set := teacher | technician | developer.

#[export] Instance role_eq_dec : EqDecision OperatorRole.
Proof. solve_decision. Defined.

Inductive OperatorAction : Set :=
| view_classroom | toggle_lock | broadcast | chat | manage_exam | configure_uwf_action
| reboot_client | view_fleet_health | view_diagnostics_raw | export_telemetry_report
| manage_settings | shutdown_client | wake_on_lan | distribute_file_action
| manage_software_updates.

Definition is_action_permitted (role : OperatorRole) (action : OperatorAction) : bool :=
  match role with
  | teacher =>
      match action with
      | view_classroom | toggle_lock | broadcast | chat | manage_exam | manage_settings
      | wake_on_lan | distribute_file_action => true
      | configure_uwf_action | reboot_client | shutdown_client | view_fleet_health
      | view_diagnostics_raw | export_telemetry_report | manage_software_updates => false
      end
  | technician =>
      match action with
      | view_classroom | toggle_lock | broadcast | chat | manage_exam | configure_uwf_action
      | reboot_client | shutdown_client | view_fleet_health | manage_settings | wake_on_lan
      | distribute_file_action | manage_software_updates => true
      | view_diagnostics_raw | export_telemetry_report => false
      end
  | developer => true
  end.

Record FleetUpdateConfig := mkFleetUpdateConfig {
  fu_channel : UpdateManifest.ReleaseChannel;
  fu_maintenance_window_planned : bool;
  fu_canary_rollout_percentage : Z
}.

(** The current configuration after the call; every channel is one of the cases. *)
Definition try_set_fleet_update_config (role : OperatorRole) (current proposed : FleetUpdateConfig)
    : bool * FleetUpdateConfig :=
  if negb (is_action_permitted role manage_software_updates) ||
     (fu_canary_rollout_percentage proposed <? 0) || (fu_canary_rollout_percentage proposed >? 100)
  then (false, current)
  else (true, proposed).

Definition role_name (role : OperatorRole) : string :=
  match role with teacher => "teacher" | technician => "technician" | developer => "developer" end.

Definition role_label (role : OperatorRole) (vietnamese : bool) : string :=
  if vietnamese then
    match role with
    | teacher => "Giáo viên" | technician => "Kỹ thuật viên" | developer => "Nhà phát triển (Nâng cao)"
    end
  else
    match role with
    | teacher => "Teacher" | technician => "Technician" | developer => "Developer (Advanced)"
    end.

(** ** Audit *)

Definition record_remote_session_audit (xs : ExamServer) (now client_id : Z)
    (action outcome : string) (detail : bytes) : ExamServer :=
  let severity :=
    if bool_decide (outcome = "failed"%string) || bool_decide (outcome = "denied"%string)
    then severity_warning else AuditLog.severity_info in
  audit_emit xs now (AuditLog.mkEvent 5 severity (text "remote_session") (text action) (text outcome)
    0 client_id detail).

(** The snapshot's record of a client. *)
Definition find_client (xs : ExamServer) (client_id : Z) : option ClientRegistry.ClientRecord :=
  List.find (fun r => ClientRegistry.cr_id r =? client_id)
    (ClientRegistry.snapshot (sv_registry (xs_server xs))).

(** What a call draws: the environments of the commands it sends, in order, and the
    system clock of its audit records. *)
Record RemoteEnv (K : Type) := mkRemoteEnv {
  re_commands : nat -> ExamEnv K;
  re_now : Z
}.
Arguments mkRemoteEnv {K}. Arguments re_commands {K}. Arguments re_now {K}.

(** The teacher's file: whether it is a regular file, its size, whether it opens,
    and the whole of it when it can be read. *)
Record TeacherFile := mkTeacherFile {
  tf_filename : bytes;
  tf_regular : bool;
  tf_size : option Z;
  tf_opens : bool;
  tf_content : option bytes
}.

(** [send_wake_on_lan_packet]: the test in front of the socket calls, and their
    outcome. *)
Definition send_wake_on_lan_packet (mac : bytes) (socket : result unit) : result bytes :=
  if WakeOnLan.is_zero mac then Err "cannot send magic packet to zero MAC address"
  else
    match socket with
    | Err e => Err e
    | Ok _ => Ok (WakeOnLan.create_magic_packet mac)
    end.

(** ** The messages of a transfer *)

(** The loop over the chunks; a turn takes at least a byte. *)
Fixpoint chunk_payloads (fuel : nat) (session_id offset : Z) (rest : bytes) : list bytes :=
  match fuel with
  | O => []
  | S fuel =>
      if bool_decide (rest = []) then []
      else
        let chunk := take (Z.to_nat kMaxChunkSize) rest in
        encode_file_dist_chunk (mkChunk session_id offset chunk) ::
        chunk_payloads fuel session_id (offset + len chunk) (drop (Z.to_nat kMaxChunkSize) rest)
  end.

(** After the start message. *)
Definition rest_of_transfer (session_id : Z) (buffer : bytes) : list (CommandType * bytes) :=
  map (pair CT_file_dist_chunk) (chunk_payloads (length buffer) session_id 0 buffer) ++
  [(CT_file_dist_finish, encode_file_dist_finish (mkFinish session_id))].

Section Actions.
Context {K : Type} {GCM : AesGcm}.
Variable bcrypt_hmac : bytes -> bytes -> option bytes.
Variable bcrypt_sha256 : bytes -> option bytes.
Variable dev_unprotected : bool.

Definition send (env : ExamEnv K) (xs : ExamServer) (client_id : Z) (type : CommandType)
    (payload : bytes) : result unit * ExamServer :=
  send_command bcrypt_hmac dev_unprotected env xs client_id type payload.

(** ** Simple actions *)

Definition set_locked (env : ExamEnv K) (xs : ExamServer) (client_id : Z) (locked : bool) :=
  send env xs client_id (if locked then CT_lock else CT_unlock) [].

Definition set_frozen (env : ExamEnv K) (xs : ExamServer) (client_id : Z) (frozen : bool) :=
  send env xs client_id CT_freeze_set (ControlMessages.encode_freeze_state frozen).

Definition configure_uwf (env : ExamEnv K) (xs : ExamServer) (client_id : Z)
    (checkpoint_acknowledged : bool) :=
  send env xs client_id CT_uwf_configure
    (ControlMessages.encode_uwf_configure_request checkpoint_acknowledged).

Definition resolve_help_request (env : ExamEnv K) (xs : ExamServer) (client_id : Z)
    : result unit * ExamServer :=
  let payload := ControlMessages.encode_help_ack
    (ControlMessages.mkHelpAckMessage true (xe_unix_milliseconds env)) in
  let s := xs_server xs in
  let '(registry, _) :=
    ClientRegistry.set_help_request (sv_registry s) client_id false [] 0 (ev_registry_now (xe_env env)) in
  send env (with_server xs {| s with sv_registry := registry |}) client_id CT_help_ack payload.

Definition launch_url (env : ExamEnv K) (xs : ExamServer) (client_id : Z) (url : bytes)
    : result unit * ExamServer :=
  match UrlValidation.is_valid_launch_url url with
  | Err e => (Err e, xs)
  | Ok _ =>
      let payload := ControlMessages.encode_launch_url url in
      if bool_decide (payload = []) then (Err "Failed to encode launch URL payload.", xs)
      else send env xs client_id CT_launch_url payload
  end.

(** ** Power *)

(** A refusal with its audit record. *)
Definition refuse_action (env : RemoteEnv K) (xs : ExamServer) (client_id : Z) (action outcome detail : string)
    (error : string) : result unit * ExamServer :=
  (Err error, record_remote_session_audit xs (re_now env) client_id action outcome (text detail)).

(** [error_wanted]: the caller passes a string for the error. *)
Definition power_action (env : RemoteEnv K) (xs : ExamServer) (client_id : Z) (action : Z)
    (force : bool) (caller_role : OperatorRole) (error_wanted : bool) : result unit * ExamServer :=
  let reboot := action =? ControlMessages.power_reboot in
  let action_name := if reboot then "power_reboot"%string else "power_shutdown"%string in
  if exam_active xs client_id then
    refuse_action env xs client_id action_name "denied" "exam active on client"
      "Cannot execute power action: exam active on client."
  else if negb (is_action_permitted caller_role (if reboot then reboot_client else shutdown_client)) then
    refuse_action env xs client_id action_name "denied" "unauthorized role"
      "Caller role is not authorized for power actions."
  else if force && negb (bool_decide (caller_role = technician)) &&
          negb (bool_decide (caller_role = developer)) then
    refuse_action env xs client_id action_name "denied" "forced power action unauthorized"
      "Forced power action requires Technician or Developer role."
  else
    let payload := ControlMessages.encode_power_action (ControlMessages.mkPowerActionMessage action force) in
    if bool_decide (payload = []) then (Err "Failed to encode power action payload.", xs)
    else
      let '(sent, xs) := send (re_commands env O) xs client_id CT_power_action payload in
      match sent with
      | Ok _ =>
          (sent, record_remote_session_audit xs (re_now env) client_id action_name "dispatched"
                   (text (if force then "force" else "graceful")))
      | Err e =>
          (sent, record_remote_session_audit xs (re_now env) client_id action_name "failed"
                   (text (if error_wanted then e else "unknown error")))
      end.

(** ** Wake on LAN *)

(** With the packet that was broadcast. *)
Definition wake_client (env : RemoteEnv K) (xs : ExamServer) (client_id : Z)
    (caller_role : OperatorRole) (error_wanted : bool) (socket : result unit)
    : result bytes * ExamServer :=
  let no outcome detail error : result bytes * ExamServer :=
    (Err error, record_remote_session_audit xs (re_now env) client_id "wake_on_lan" outcome (text detail)) in
  if exam_active xs client_id
  then no "denied" "exam active on client" "Cannot execute Wake-on-LAN: exam active on client."%string
  else if negb (is_action_permitted caller_role wake_on_lan)
  then no "denied" "unauthorized role" "Caller role is not authorized for Wake-on-LAN."%string
  else
    match find_client xs client_id with
    | None => no "failed" "client not found" "Client not found in registry."%string
    | Some it =>
        let status := ClientRegistry.cr_status it in
        if bool_decide (status = ClientRegistry.online) || bool_decide (status = ClientRegistry.locked)
        then no "ignored" "client is already online" "Client is already online."%string
        else if ClientRegistry.cr_wol_support it =? WakeOnLan.support_unsupported
        then no "denied" "hardware unsupported"
               "Wake-on-LAN is not supported by client hardware."%string
        else if bool_decide (ClientRegistry.cr_mac_address it = [])
        then no "failed" "missing MAC address" "Cannot wake client: MAC address is unknown."%string
        else
          match WakeOnLan.parse_mac_address (ClientRegistry.cr_mac_address it) with
          | None => no "failed" "invalid MAC address"
                      "Invalid client MAC address recorded in registry."%string
          | Some mac =>
              match send_wake_on_lan_packet mac socket with
              | Ok packet =>
                  (Ok packet, record_remote_session_audit xs (re_now env) client_id "wake_on_lan"
                                "dispatched" (ClientRegistry.cr_mac_address it))
              | Err e =>
                  (Err e, record_remote_session_audit xs (re_now env) client_id "wake_on_lan" "failed"
                            (text (if error_wanted then e else "broadcast failed")))
              end
          end
    end.

(** ** File distribution *)

(** The sends after the start message: the first that fails ends it, with the name
    of what failed. *)
Fixpoint stream (env : RemoteEnv K) (index : nat) (xs : ExamServer) (client_id : Z)
    (commands : list (CommandType * bytes)) : option string * result unit * ExamServer :=
  match commands with
  | [] => (None, Ok tt, xs)
  | (type, payload) :: commands =>
      let '(sent, xs) := send (re_commands env index) xs client_id type payload in
      match sent with
      | Ok _ => stream env (S index) xs client_id commands
      | Err e =>
          let what :=
            match type with CT_file_dist_finish => "send finish failed"%string | _ => "send chunk failed"%string end in
          (Some what, Err e, xs)
      end
  end.

(** From the sanitized name on; [session_id] is drawn from a counter. *)
Definition send_transfer (env : RemoteEnv K) (xs : ExamServer) (client_id session_id : Z)
    (file_size : Z) (digest filename buffer : bytes) : result unit * ExamServer :=
  let now := re_now env in
  let start_payload := encode_file_dist_start (mkStart session_id file_size digest filename) in
  if bool_decide (start_payload = [])
  then (Err "Failed to encode file distribution start message.", xs)
  else
    let '(sent, xs) := send (re_commands env O) xs client_id CT_file_dist_start start_payload in
    match sent with
    | Err e =>
        (Err e, record_remote_session_audit xs now client_id "distribute_file" "failed"
                  (text "send start failed"))
    | Ok _ =>
        match stream env 1 xs client_id (rest_of_transfer session_id buffer) with
        | (Some what, sent, xs) =>
            (sent, record_remote_session_audit xs now client_id "distribute_file" "failed" (text what))
        | (None, sent, xs) =>
            (sent, record_remote_session_audit xs now client_id "distribute_file" "dispatched"
                     (filename ++ text " (" ++ Json.dec file_size ++ text " bytes)"))
        end
    end.

(** [session_counter] is [s_file_session_counter], which the result carries on. *)
Definition distribute_file (env : RemoteEnv K) (xs : ExamServer) (session_counter : Z)
    (client_id : Z) (file : TeacherFile) (caller_role : OperatorRole)
    : result unit * Z * ExamServer :=
  let no outcome detail error : result unit * Z * ExamServer :=
    let '(r, xs) := refuse_action env xs client_id "distribute_file" outcome detail error in
    (r, session_counter, xs) in
  if exam_active xs client_id
  then no "denied" "exam active on client" "Cannot distribute file: exam active on client."%string
  else if negb (is_action_permitted caller_role distribute_file_action)
  then no "denied" "unauthorized role" "Caller role is not authorized for file distribution."%string
  else
    match find_client xs client_id with
    | None => no "failed" "client not found" "Client not found in registry."%string
    | Some it =>
        if bool_decide (ClientRegistry.cr_status it = ClientRegistry.offline)
        then no "ignored" "client is offline" "Cannot distribute file: client is offline."%string
        else if negb (tf_regular file)
        then no "failed" "file not found or not regular"
               "File does not exist or is not a regular file."%string
        else
          match tf_size file with
          | None => no "failed" "file exceeds maximum limit"
                      "File size exceeds maximum distribution limit of 64 MiB."%string
          | Some file_size =>
              if file_size >? kMaxFileSize
              then no "failed" "file exceeds maximum limit"
                     "File size exceeds maximum distribution limit of 64 MiB."%string
              else if negb (tf_opens file)
              then no "failed" "unable to open file" "Unable to open file for reading."%string
              else
                match (if file_size >? 0 then tf_content file else Some []) with
                | None => no "failed" "read failure" "Failed to read complete file data."%string
                | Some buffer =>
                    match Pairing.sha256 bcrypt_sha256 buffer with
                    | None => no "failed" "sha256 calculation failure"
                                "Failed to compute SHA-256 digest of file."%string
                    | Some digest =>
                        let filename := sanitize_filename (tf_filename file) in
                        if negb (is_safe_filename filename)
                        then no "failed" "unsafe filename"
                               "Filename cannot be sanitized to a safe name."%string
                        else
                          let '(sent, xs) :=
                            send_transfer env xs client_id session_counter file_size digest filename
                              buffer in
                          (sent, wrap64 (session_counter + 1), xs)
                    end
                end
          end
    end.

(** ** Guards *)

(** A power action that was sent: no exam on the client, and a technician or a
    developer. *)
Lemma power_guarded env xs client_id action force role wanted xs' :
  power_action env xs client_id action force role wanted = (Ok tt, xs') ->
  exam_active xs client_id = false /\ role <> teacher.
Proof using Type.
  unfold power_action, refuse_action. destruct (exam_active xs client_id); [done|].
  destruct role; [|by split|by split].
  by destruct (action =? ControlMessages.power_reboot).
Qed.

(** A wake-up that was broadcast: no exam, and a client with that address that is
    neither online nor known not to support it. *)
Lemma wake_guarded env xs client_id role wanted socket packet xs' :
  wake_client env xs client_id role wanted socket = (Ok packet, xs') ->
  exam_active xs client_id = false /\ exists record mac, find_client xs client_id = Some record /\
    WakeOnLan.parse_mac_address (ClientRegistry.cr_mac_address record) = Some mac /\
    packet = WakeOnLan.create_magic_packet mac /\ WakeOnLan.is_zero mac = false.
Proof using Type.
  unfold wake_client. destruct (exam_active xs client_id); [done|].
  destruct (negb _); [done|]. destruct (find_client xs client_id) as [record|]; [|done].
  destruct (_ || _); [done|]. destruct (_ =? _); [done|]. destruct (bool_decide _); [done|].
  destruct (WakeOnLan.parse_mac_address _) as [mac|] eqn:Em; [|done]. unfold send_wake_on_lan_packet.
  destruct (WakeOnLan.is_zero mac) eqn:Ez; [done|]. destruct socket; [|done]. intros [= <- _].
  split; [done|]. by exists record, mac.
Qed.
End Actions.
End RemoteActions.
