(* ===== verification/FileTransfer.v ===== *)
(** A file from the teacher's machine to a client: the sends of
    [RemoteActions.distribute_file] against the handlers of FileReception.v.  No
    operation of the program is defined here.

    The two ends agree on files of every size up to 64 MiB.  But the message of a
    full chunk of 64 KiB is longer than an authenticated command can be, so the
    call fails for every file of more than [largest_distributed] bytes. *)

From S2P Require Import Prelude Wire Codec Protocol Auth KeyStore ControlChannel Pairing ClientRegistry.
From S2P Require Import ServerState ServerConnection ServerExams ExamRuns FileDistribution FileReception RemoteActions.

Module FileTransfer.
Import Protocol ControlChannel ServerExams FileDistribution FileReception RemoteActions.

(** The commands of a transfer, in order. *)
Definition transfer (session_id : Z) (digest filename buffer : bytes) : list (CommandType * bytes) :=
  (CT_file_dist_start,
   encode_file_dist_start (mkStart session_id (len buffer) digest filename)) ::
  rest_of_transfer session_id buffer.

(** Commands that reach the client, each with what its system calls do there. *)
Definition arriving (commands : list (CommandType * bytes)) (envs : list Env) : list Operation :=
  zip_with (fun command env => Command command.1 command.2 env) commands envs.

(** No lockdown, and no call that fails or loses data. *)
Definition smooth (env : Env) : Prop :=
  en_armed env = false /\ en_opens env = true /\ en_writes env = true /\ en_flushed env = None /\
  en_reopens env = true /\ en_reads env = true /\ en_renames env = true.

Lemma take_drop_len n (rest : bytes) :
  len (take n rest) + len (drop n rest) = len rest.
Proof. rewrite <- len_app. by rewrite take_drop. Qed.

Section Reception.
Context (sha : bytes -> option bytes).

(** A receiver in the middle of a transfer. *)
Definition halfway (env : Env) (m : FileDistStartMessage) (data : bytes) (r : Receiver) : Prop :=
  rv_session r = session_of env m data /\ rv_files r !! part_of (target_of env m) = Some data.

Lemma start_arrives env m r :
  wf_start m -> smooth env ->
  halfway env m [] (perform sha r (Command CT_file_dist_start (encode_file_dist_start m) env)).
Proof using Type.
  intros Hm (Ha & Ho & _). pose proof (decode_encode (A := FileDistStartMessage) m Hm) as Hd.
  destruct Hm as (_ & [_ Hz] & _ & Hn). cbn [perform handle_file_command]. unfold file_start.
  change (decode_file_dist_start (encode_file_dist_start m) = Some m) in Hd.
  rewrite Hd, Ha, Hn, staging_path_spec, Hn, Ho. cbn [negb].
  destruct (Z.gtb_spec (fs_file_size m) kMaxFileSize); [lia|].
  split; [done|]. cbn. by rewrite lookup_insert_eq.
Qed.

Lemma chunk_arrives env e m data chunk r :
  wf_start m -> smooth e -> halfway env m data r ->
  1 <= len chunk <= kMaxChunkSize -> len data + len chunk <= fs_file_size m ->
  halfway env m (data ++ chunk) (perform sha r
    (Command CT_file_dist_chunk (encode_file_dist_chunk (mkChunk (fs_session_id m) (len data) chunk)) e)).
Proof using Type.
  intros (Hs & [_ Hz] & _) (Ha & _ & Hw & _) [Hses Hp] Hc Hl. unfold kMaxFileSize in Hz.
  pose proof (len_nonneg data).
  assert (wf_chunk (mkChunk (fs_session_id m) (len data) chunk)) as Hwf by (split_and!; cbn; ulia).
  pose proof (decode_encode (A := FileDistChunkMessage) _ Hwf) as Hd.
  change (decode_file_dist_chunk (encode_file_dist_chunk (mkChunk (fs_session_id m) (len data) chunk)) =
    Some (mkChunk (fs_session_id m) (len data) chunk)) in Hd.
  cbn [perform handle_file_command]. unfold file_chunk, other_session. rewrite Hd, Hses, Ha, Hw.
  cbn [session_of rs_active rs_session_id rs_bytes_received rs_total_size rs_part_path
    fc_session_id fc_offset fc_data negb orb].
  rewrite !Z.eqb_refl. cbn [negb orb]. rewrite andb_false_r. unfold wrap64. rewrite Z.mod_small by lia.
  destruct (Z.gtb_spec (len data + len chunk) (fs_file_size m)); [lia|].
  split; cbn; [unfold session_of; by rewrite len_app|]. by rewrite lookup_insert_eq, Hp.
Qed.

(** All the chunks of the rest of a file. *)
Lemma chunks_arrive env m fuel : forall data rest r envs,
  wf_start m -> halfway env m data r -> (length rest <= fuel)%nat ->
  len data + len rest <= fs_file_size m -> Forall smooth envs ->
  let payloads := chunk_payloads fuel (fs_session_id m) (len data) rest in
  length envs = length payloads ->
  halfway env m (data ++ rest) (run sha r (arriving (map (pair CT_file_dist_chunk) payloads) envs)).
Proof using Type.
  induction fuel as [|fuel IH]; intros data rest r envs Hm Hr Hf Hl He payloads Hn.
  { destruct rest; [|cbn in Hf; lia]. rewrite app_nil_r. by destruct envs. }
  subst payloads. cbn [chunk_payloads] in *. case_bool_decide as Hrest.
  { subst rest. rewrite app_nil_r. by destruct envs. }
  destruct envs as [|e envs]; [done|]. apply Forall_cons in He as [He Hes]. cbn in Hn.
  set (n := Z.to_nat kMaxChunkSize) in *. pose proof (take_drop_len n rest) as Hsum.
  pose proof (len_nonneg (drop n rest)).
  assert (1 <= len (take n rest) <= kMaxChunkSize) as Hc.
  { unfold len. rewrite length_take. destruct rest; [done|]. cbn [length]. subst n.
    unfold kMaxChunkSize in *. lia. }
  rewrite <- (take_drop n rest) at 1. rewrite app_assoc.
  cbn [map arriving zip_with run foldl fst snd]. rewrite <- len_app in Hn |- *.
  refine (IH _ _ _ _ Hm (chunk_arrives env e m data _ r Hm He Hr Hc ltac:(lia)) _ _ Hes _).
  - rewrite length_drop. subst n. unfold kMaxChunkSize in *. destruct rest; [done|]. cbn [length] in *. lia.
  - rewrite len_app. lia.
  - by injection Hn.
Qed.

Lemma read_back_all content : read_back (len content) content = content.
Proof using Type.
  unfold read_back, len. rewrite Nat2Z.id, take_ge, Nat.sub_diag by lia. cbn. by rewrite app_nil_r.
Qed.

Lemma finish_arrives env e m data r :
  u64 (fs_session_id m) -> smooth e -> halfway env m data r -> len data = fs_file_size m ->
  Pairing.sha256 sha data = Some (fs_sha256 m) ->
  let r' := perform sha r
    (Command CT_file_dist_finish (encode_file_dist_finish (mkFinish (fs_session_id m))) e) in
  rv_session r' = no_session /\ rv_files r' !! target_of env m = Some data /\
  Queued CT_file_dist_status
    (encode_file_dist_status (mkStatus (fs_session_id m) (len data) completed)) ∈ rv_effects r'.
Proof using Type.
  intros Hs (Ha & _ & _ & Hfl & Hro & Hrd & Hrn) [Hses Hp] Hl Hsha.
  pose proof (decode_encode (A := FileDistFinishMessage) (mkFinish (fs_session_id m)) Hs) as Hd.
  change (decode_file_dist_finish (encode_file_dist_finish (mkFinish (fs_session_id m))) =
    Some (mkFinish (fs_session_id m))) in Hd.
  cbn [perform handle_file_command]. unfold file_finish, other_session, flush_close.
  rewrite Hd, Hses, Ha, Hfl. cbn [session_of rs_active rs_session_id ff_session_id rs_bytes_received
    rs_total_size negb orb]. rewrite Z.eqb_refl, Hl, Z.eqb_refl. cbn [negb].
  unfold verify_and_commit. rewrite Hro, Hrd, Hses. cbn [negb]. rewrite andb_false_r.
  cbn [session_of rs_total_size rs_part_path rs_expected_sha256 rs_target_path rs_session_id].
  rewrite Hp. cbn [default]. unfold id. rewrite <- Hl, read_back_all, Hsha.
  rewrite (proj2 (Auth.constant_time_equal_spec _ _) eq_refl), Hrn. cbn [negb].
  split_and!; [done|cbn; by rewrite lookup_insert_eq|].
  cbn. rewrite !elem_of_app, !list_elem_of_singleton. tauto.
Qed.

(** A whole transfer, to a client in any state. *)
Lemma transfer_arrives id digest filename buffer r env envs :
  wf_start (mkStart id (len buffer) digest filename) ->
  Pairing.sha256 sha buffer = Some digest -> Forall smooth (env :: envs) ->
  length (env :: envs) = length (transfer id digest filename buffer) ->
  let r' := run sha r (arriving (transfer id digest filename buffer) (env :: envs)) in
  rv_session r' = no_session /\
  rv_files r' !! (en_staging_directory env ++ [filename]) = Some buffer /\
  Queued CT_file_dist_status (encode_file_dist_status (mkStatus id (len buffer) completed)) ∈
    rv_effects r'.
Proof using Type.
  set (m := mkStart id (len buffer) digest filename). intros Hm Hsha [He Hes]%Forall_cons Hn.
  cbn in Hn. injection Hn as Hn. unfold rest_of_transfer in Hn. rewrite length_app, length_map in Hn.
  set (payloads := chunk_payloads _ _ _ _) in Hn. cbn in Hn.
  destruct (nil_or_length_pos envs) as [->|_]; [cbn in Hn; lia|].
  rewrite <- (take_drop (length payloads) envs) in Hes |- *.
  apply Forall_app in Hes as [Hes Hlast].
  assert (length (drop (length payloads) envs) = 1%nat) as Hd by (rewrite length_drop; lia).
  destruct (drop (length payloads) envs) as [|last [|]]; [done| |done].
  apply Forall_cons in Hlast as [Hlast _].
  assert (length (take (length payloads) envs) = length payloads) as Ht by (rewrite length_take; lia).
  unfold arriving, transfer, rest_of_transfer. cbn [zip_with run foldl fst snd]. fold payloads.
  rewrite zip_with_app by (by rewrite length_map). rewrite foldl_app. cbn [zip_with foldl fst snd].
  apply (finish_arrives env last m buffer); [apply Hm|done| |done|done].
  refine (chunks_arrive env m (length buffer) [] buffer _ _ Hm _ _ _ Hes _);
    [by apply start_arrives|done|change (0 + len buffer <= len buffer); lia|done].
Qed.
End Reception.

(** ** From the teacher's machine *)

Section Distribution.
Context {K : Type} {GCM : AesGcm}.
Context (hmac : bytes -> bytes -> option bytes) (sha : bytes -> option bytes) (dev : bool).
Context (Hsized : forall m d, sha m = Some d -> length d = 32%nat).

(** A size is not negative, and a file that can be read is read whole. *)
Definition readable (file : TeacherFile) : Prop :=
  forall size, tf_size file = Some size ->
    0 <= size /\ forall content, tf_content file = Some content -> len content = size.

Lemma read_size file size buffer :
  readable file -> tf_size file = Some size ->
  (if size >? 0 then tf_content file else Some []) = Some buffer ->
  len buffer = size /\ (tf_content file = Some buffer \/ size = 0 /\ buffer = []).
Proof using Type.
  intros Hread Esize Eb. destruct (Hread size Esize) as [H0 Hcontent]. destruct (Z.gtb_spec size 0).
  - split; [by apply Hcontent|by left].
  - injection Eb as <-. rewrite len_nil. split; [lia|right; split; [lia|done]].
Qed.

(** Commands that were all sent, one after the other. *)
Fixpoint all_sent (env : RemoteEnv K) (index : nat) (xs : ExamServer) (client_id : Z)
    (commands : list (CommandType * bytes)) (xs' : ExamServer) : Prop :=
  match commands with
  | [] => xs' = xs
  | (type, payload) :: commands => exists xs1,
      send hmac dev (re_commands env index) xs client_id type payload = (Ok tt, xs1) /\
      all_sent env (S index) xs1 client_id commands xs'
  end.

Lemma stream_sent (env : RemoteEnv K) client_id commands : forall index xs sent xs',
  stream hmac dev env index xs client_id commands = (None, sent, xs') ->
  sent = Ok tt /\ all_sent env index xs client_id commands xs'.
Proof using Type.
  induction commands as [|[type payload] commands IH]; intros index xs sent xs'; cbn.
  { by intros [= <- <-]. }
  destruct (send _ _ _ _ _ _ _) as [[[]|e] xs1] eqn:E; [|done]. intros Hs.
  apply IH in Hs as [-> Hs]. split; [done|]. by exists xs1.
Qed.

Lemma stream_failed (env : RemoteEnv K) client_id commands : forall index xs what sent xs',
  stream hmac dev env index xs client_id commands = (Some what, sent, xs') -> sent <> Ok tt.
Proof using Type.
  induction commands as [|[type payload] commands IH]; intros index xs what sent xs'; cbn; [done|].
  destruct (send _ _ _ _ _ _ _) as [[[]|e] xs1]; [apply IH|]. by intros [= _ <- _].
Qed.

Lemma send_transfer_sent (env : RemoteEnv K) xs client_id id digest filename buffer xs' :
  send_transfer hmac dev env xs client_id id (len buffer) digest filename buffer = (Ok tt, xs') ->
  exists xs1, all_sent env O xs client_id (transfer id digest filename buffer) xs1 /\
    xs_contexts xs' = xs_contexts xs1.
Proof using Type.
  unfold send_transfer. destruct (bool_decide _); [done|].
  destruct (send _ _ _ _ _ _ _) as [[[]|e] xs1] eqn:E; [|done].
  destruct (stream _ _ _ _ _ _ _) as [[[what|] sent] xs2] eqn:Es.
  { intros [= -> _]. by apply stream_failed in Es. }
  apply stream_sent in Es as [-> Hs]. intros [= <-]. exists xs2. split; [by exists xs1|].
  unfold record_remote_session_audit, audit_emit. by destruct (negb (xs_audit_open xs2)).
Qed.

(** What a file may measure: a command less its authentication and the 20 bytes in
    front of the data of a chunk. *)
Definition largest_distributed : Z := kMaxCommandPayload - kAuthenticatedOverhead - 20.

Lemma sent_chunk_fits (env : ExamEnv K) xs client_id payload xs' :
  send hmac dev env xs client_id CT_file_dist_chunk payload = (Ok tt, xs') ->
  len payload <= kMaxCommandPayload - kAuthenticatedOverhead.
Proof using Type.
  unfold send, send_command, ServerConnection.send_command.
  destruct (ServerConnection.state_for_client _ _) as [cn|]; [|done]. destruct (_ || _); [done|].
  destruct (ServerConnection.take_request_id _) as [request_id s].
  destruct (ServerConnection.send_authenticated _ _ _ _ _ _ _) as [[[|] cn'] s'] eqn:E; [intros _|done].
  revert E. unfold ServerConnection.send_authenticated. destruct (_ || _); [done|].
  unfold encode_authenticated_command, encode_authenticated_command_aead, refuses_command.
  destruct (Z.gtb_spec (len payload) (kMaxCommandPayload - kAuthenticatedOverhead)); [|lia].
  rewrite orb_true_r. by destruct (ServerState.cn_aead_enabled cn).
Qed.

Lemma chunk_message_len id offset data :
  1 <= len data <= kMaxChunkSize -> len (encode_file_dist_chunk (mkChunk id offset data)) = 20 + len data.
Proof using Type.
  intros [? ?]. unfold encode_file_dist_chunk. cbn [fc_data fc_session_id fc_offset].
  rewrite len_nonempty by lia. destruct (Z.gtb_spec (len data) kMaxChunkSize); [lia|]. cbn [orb].
  autorewrite with wire. lia.
Qed.

(** The first chunk of a longer file is refused. *)
Lemma sent_file_fits (env : RemoteEnv K) xs client_id id digest filename buffer xs' :
  all_sent env O xs client_id (transfer id digest filename buffer) xs' -> len buffer <= largest_distributed.
Proof using Type.
  intros (xs1 & _ & Hs). unfold rest_of_transfer in Hs. destruct buffer as [|b rest]; [by vm_compute|].
  set (buffer := b :: rest) in *. set (n := Z.to_nat kMaxChunkSize).
  assert (len buffer = len rest + 1) as Hb by (subst buffer; apply len_cons). pose proof (len_nonneg rest).
  assert (len (take n buffer) = Z.min kMaxChunkSize (len buffer)) as Ht.
  { unfold len at 1. rewrite length_take. subst n. unfold len, kMaxChunkSize in *. lia. }
  change (length buffer) with (S (length rest)) in Hs. cbn [chunk_payloads] in Hs.
  rewrite bool_decide_eq_false_2 in Hs by done. fold n in Hs. cbn [map app all_sent] in Hs.
  destruct Hs as (xs2 & Hs & _). apply sent_chunk_fits in Hs.
  rewrite chunk_message_len in Hs by (unfold kMaxChunkSize in *; lia).
  unfold largest_distributed, kMaxChunkSize, kMaxCommandPayload, kAuthenticatedOverhead in *. lia.
Qed.

(** C18. A file that the teacher distributes arrives.  For a file of any size up to
    64 MiB, the commands that the server makes of it, once they reach a client
    outside a lockdown whose file-system calls succeed and whatever it was
    receiving before, leave the file in its staging directory byte by byte under
    its name, close the session and report the completion under the server's
    session number.  When the call succeeds, no exam was running on the client,
    the role may distribute files, the client was there, and those commands were
    all sent in order for the content of the file, under the sanitized name; and
    then the file has at most [largest_distributed] (65492) bytes, since the
    message of a longer first chunk does not fit a command: the call fails for
    every longer file. *)
Theorem distributed_file_arrives (env : RemoteEnv K) xs counter client_id file role :
  u64 counter -> readable file ->
  (forall id buffer digest name r e envs,
    u64 id -> len buffer <= kMaxFileSize -> is_safe_filename name = true ->
    Pairing.sha256 sha buffer = Some digest -> Forall smooth (e :: envs) ->
    length (e :: envs) = length (transfer id digest name buffer) ->
    let r' := run sha r (arriving (transfer id digest name buffer) (e :: envs)) in
    rv_files r' !! (en_staging_directory e ++ [name]) = Some buffer /\
    rv_session r' = no_session /\
    Queued CT_file_dist_status (encode_file_dist_status (mkStatus id (len buffer) completed)) ∈
      rv_effects r') /\
  forall counter' xs',
  distribute_file hmac sha dev env xs counter client_id file role = (Ok tt, counter', xs') ->
  exam_active xs client_id = false /\ is_action_permitted role distribute_file_action = true /\
  (exists record, find_client xs client_id = Some record /\
     ClientRegistry.cr_status record <> ClientRegistry.offline) /\
  exists buffer digest xs1, let name := sanitize_filename (tf_filename file) in
    (tf_content file = Some buffer \/ tf_size file = Some 0 /\ buffer = []) /\
    tf_size file = Some (len buffer) /\ len buffer <= largest_distributed /\
    is_safe_filename name = true /\ Pairing.sha256 sha buffer = Some digest /\
    all_sent env O xs client_id (transfer counter digest name buffer) xs1 /\
    xs_contexts xs' = xs_contexts xs1.
Proof using Hsized.
  intros Hc Hread. split.
  { intros id buffer digest name r e envs Hid Hl Hname Hsha He Hn.
    assert (wf_start (mkStart id (len buffer) digest name)) as Hwf.
    { pose proof (len_nonneg buffer). split_and!; cbn; try done.
      unfold Pairing.sha256 in Hsha. destruct (_ >? u32_max); [done|]. by eapply Hsized. }
    destruct (transfer_arrives sha id digest name buffer r e envs Hwf Hsha He Hn) as (H1 & H2 & H3).
    by split_and!. }
  intros counter' xs'. unfold distribute_file, refuse_action.
  destruct (exam_active xs client_id); [done|].
  destruct (is_action_permitted _ _); [cbn [negb]|done].
  destruct (find_client xs client_id) as [record|]; [|done]. case_bool_decide as Hoff; [done|].
  destruct (tf_regular file); [cbn [negb]|done].
  destruct (tf_size file) as [size|] eqn:Esize; [|done]. destruct (Z.gtb_spec size kMaxFileSize); [done|].
  destruct (tf_opens file); [cbn [negb]|done].
  destruct (if size >? 0 then _ else _) as [buffer|] eqn:Eb; [|done].
  destruct (Pairing.sha256 sha buffer) as [digest|] eqn:Esha; [|done].
  rewrite sanitized_is_safe. cbn [negb].
  destruct (send_transfer _ _ _ _ _ _ _ _ _ _) as [sent xs2] eqn:Es. intros [= -> _ ->].
  split; [done|]. split; [done|]. split; [by exists record|].
  destruct (read_size file size buffer Hread Esize Eb) as [Hlen Hor].
  subst size. apply send_transfer_sent in Es as (xs1 & Hsent & Hx).
  exists buffer, digest, xs1. cbv zeta. split_and!; try done; [|by eapply sent_file_fits].
  destruct Hor as [?|[E ->]]; [by left|]. right. by rewrite <- E.
Qed.
End Distribution.

(** ** Examples *)

Definition sample_remote_env : RemoteEnv unit := mkRemoteEnv (fun _ => ExamRuns.sample_exam_env) 6000.

(** A connected client without an exam. *)
Definition sample_classroom : ExamServer := ExamRuns.sample_run ExamRuns.sample_before.

Definition sample_distribution (role : OperatorRole) (file : TeacherFile) :=
  distribute_file ExamRuns.constant_hmac padded_sha false sample_remote_env sample_classroom 5
    ExamRuns.sample_rid file role.

(** A file that is a byte too long is refused, and no command is sent. *)
Example long_file_refused :
  let result := sample_distribution teacher
    (mkTeacherFile (text "notes.txt") true (Some (kMaxFileSize + 1)) true (Some sample_data)) in
  KeyStore.succeeds result.1.1 = false /\
  ServerState.sv_effects (xs_server result.2) = ServerState.sv_effects (xs_server sample_classroom).
Proof. split; vm_compute; reflexivity. Qed.

Lemma padded_sha_sized m d : padded_sha m = Some d -> length d = 32%nat.
Proof.
  unfold padded_sha. intros [= <-]. rewrite length_take, length_app. cbn [length]. lia.
Qed.

Definition content_of_size (n : Z) : bytes := repeat Byte.x2a (Z.to_nat n).

Definition file_with (content : bytes) : TeacherFile :=
  mkTeacherFile (text "notes.txt") true (Some (len content)) true (Some content).

Lemma file_with_readable content : readable (file_with content).
Proof. intros size [= <-]. split; [apply len_nonneg|]. by intros content' [= <-]. Qed.

(** The longest file that is sent; a byte more, and the first chunk is refused
    after the start message was sent. *)
Example first_chunk_too_long :
  let result := sample_distribution teacher (file_with (content_of_size (largest_distributed + 1))) in
  KeyStore.succeeds result.1.1 = false /\
  length (ServerState.sv_effects (xs_server result.2)) =
    S (length (ServerState.sv_effects (xs_server sample_classroom))).
Proof. split; vm_compute; reflexivity. Qed.

Definition longest : bytes := content_of_size largest_distributed.

(** The content of a file of two chunks. *)
Definition two_chunks : bytes := content_of_size (kMaxChunkSize + 4).

Definition digest_of_file (content : bytes) : bytes := default [] (Pairing.sha256 padded_sha content).

Lemma distributed_file_arrives_witness :
  let env := good_env None true in
  let commands := transfer 5 (digest_of_file two_chunks) (text "notes.txt") two_chunks in
  rv_files (run padded_sha empty_receiver (arriving commands [env; env; env; env])) !!
    (en_staging_directory env ++ [text "notes.txt"]) = Some two_chunks /\
  (sample_distribution teacher (file_with longest)).1 = (Ok tt, 6) /\
  len longest <= largest_distributed /\ is_safe_filename (sanitize_filename (text "notes.txt")) = true.
Proof.
  intros env commands.
  pose proof (distributed_file_arrives ExamRuns.constant_hmac padded_sha false padded_sha_sized
    sample_remote_env sample_classroom 5 ExamRuns.sample_rid (file_with longest) teacher ltac:(ulia)
    (file_with_readable longest)) as [Harrives Hsent].
  assert (len two_chunks <= kMaxFileSize) as Hl by (by vm_compute).
  assert (is_safe_filename (text "notes.txt") = true) as Hname by (vm_compute; reflexivity).
  assert (Pairing.sha256 padded_sha two_chunks = Some (digest_of_file two_chunks)) as Hsha by (vm_compute; reflexivity).
  assert (Forall smooth [env; env; env; env]) as Henvs by (by repeat constructor).
  assert (length [env; env; env; env] = length commands) as Hn by (vm_compute; reflexivity).
  split; [exact (proj1 (Harrives 5 two_chunks _ _ empty_receiver env _ ltac:(ulia) Hl Hname Hsha Henvs Hn))|].
  assert ((sample_distribution teacher (file_with longest)).1 = (Ok tt, 6)) as Hr by (vm_compute; reflexivity).
  split; [exact Hr|]. unfold sample_distribution in Hr.
  destruct (distribute_file _ _ _ _ _ _ _ _ _) as [[sent counter'] xs'].
  cbn [fst] in Hr. injection Hr as -> ->.
  destruct (Hsent 6 xs' eq_refl) as (_ & _ & _ & buffer & digest & xs1 & _ & Hsize & Hfits & Hsafe & _).
  injection Hsize as Hsize. split; [|exact Hsafe].
  rewrite Hsize. exact Hfits.
Defined.
End FileTransfer.
