(* ===== verification/MaintenanceIntent.v ===== *)
(** Maintenance intents (common/include/nstu/maintenance_intent.hpp,
    common/src/maintenance_intent.cpp): the signed orders of the deployment
    administrator, their encoding, the replay protector and the decision whether a
    client may carry one out.

    HMAC-SHA-256 is a parameter.  An insertion that fails for want of memory, which
    the protector rolls back, is not modelled, and neither are the insertions that
    find their key present, which the lookups under the same lock exclude. *)

From S2P Require Import Prelude Wire Codec Protocol Auth.
Import ReaderNotations Protocol.
#[local] Open Scope nstu_scope.

Module MaintenanceIntent.

(** ** Constants *)

Definition kMaintenanceIntentMagic : Z := 0x31494d4e.
Definition kMaintenanceIntentVersion : Z := 1.
Definition kMaintenanceIntentFlags : Z := 0.
Definition kMaintenanceIntentHeaderBytes : Z := 124.
Definition kMaximumMaintenanceParameterBytes : Z := 64.
Definition kMaintenanceAuthTagBytes : Z := 32.
Definition kMaximumMaintenanceIntentLifetimeSeconds : Z := 900.
Definition kMaintenanceClockSkewSeconds : Z := 120.
Definition kMaximumRestartGraceSeconds : Z := 300.
Definition kMaximumMaintenanceReplayEntries : Z := 65536.
Definition kMaintenanceVolumeIdBytes : Z := 16.
Definition kRestartParameterBytes : Z := 8.
Definition kDecommissionParameterBytes : Z := 4.
Definition kTransferParameterBytes : Z := 16 + 4 + 32.
Definition kIntentLabel : bytes := text "NSTU-DEPLOYMENT-MAINTENANCE-INTENT-V1".

(** [MaintenanceOperation], cast from the wire. *)
Definition op_install_uwf_feature : Z := 1.
Definition op_remove_uwf_feature : Z := 2.
Definition op_protect_volume : Z := 3.
Definition op_unprotect_volume : Z := 4.
Definition op_enable_filter : Z := 5.
Definition op_disable_filter : Z := 6.
Definition op_apply_restore_policy : Z := 7.
Definition op_enter_servicing_mode : Z := 8.
Definition op_leave_servicing_mode : Z := 9.
Definition op_restart_client : Z := 10.
Definition op_decommission_client : Z := 11.
Definition op_transfer_management : Z := 12.

(** ** Data *)

(** The states are cast from the wire: feature 1 disabled, 2 enabled; filter 0 not
    applicable, 1 disabled, 2 enabled; servicing 0 not applicable, 1 inactive,
    2 active. *)
Record RestoreState := mkRestoreState {
  rt_feature : Z;
  rt_current_filter : Z;
  rt_next_filter : Z;
  rt_servicing : Z;
  rt_policy_revision : Z
}.

#[export] Instance restore_state_eq_dec : EqDecision RestoreState.
Proof. solve_decision. Defined.

Inductive MaintenanceParameters :=
| NoMaintenanceParameters
| VolumeMaintenanceParameters (volume_id : bytes)
| PolicyMaintenanceParameters (policy_digest : bytes)
| RestartMaintenanceParameters (path grace_seconds : Z)
| DecommissionMaintenanceParameters (disposition : Z)
| TransferMaintenanceParameters (new_authority_id : bytes) (new_key_id : Z) (new_key_digest : bytes).

Record MaintenanceIntent := mkIntent {
  mi_intent_id : bytes;
  mi_target_client : bytes;
  mi_nonce : bytes;
  mi_deployment_key_id : Z;
  mi_issued_at : Z;
  mi_expires_at : Z;
  mi_policy_revision : Z;
  mi_expected_state : RestoreState;
  mi_operation : Z;
  mi_parameters : MaintenanceParameters
}.

Record SignedMaintenanceIntent := mkSigned { si_intent : MaintenanceIntent; si_tag : bytes }.

Record DeploymentAdminCredentialView := mkCredential { dc_key_id : Z; dc_key : bytes }.

(** ** Validity *)

Definition non_zero (value : bytes) : bool := negb (bool_decide (value = [])) && any_nonzero value.

Definition valid_feature_state (state : Z) : bool := (state =? 1) || (state =? 2).
Definition valid_filter_state (state : Z) : bool := (state =? 0) || (state =? 1) || (state =? 2).
Definition valid_servicing_state (state : Z) : bool := (state =? 0) || (state =? 1) || (state =? 2).
Definition valid_restart_path (path : Z) : bool := (path =? 1) || (path =? 2).
Definition valid_decommission_disposition (disposition : Z) : bool :=
  (disposition =? 1) || (disposition =? 2) || (disposition =? 3).

Definition valid_credential (credential : DeploymentAdminCredentialView) : bool :=
  negb (dc_key_id credential =? 0) && (len (dc_key credential) >=? Auth.kMinimumProtocolKeyBytes).

Definition no_parameter_operation (operation : Z) : bool :=
  (operation =? op_install_uwf_feature) || (operation =? op_remove_uwf_feature) ||
  (operation =? op_enable_filter) || (operation =? op_disable_filter) ||
  (operation =? op_enter_servicing_mode) || (operation =? op_leave_servicing_mode).

Definition valid_operation_parameters (intent : MaintenanceIntent) : bool :=
  let operation := mi_operation intent in
  if no_parameter_operation operation
  then match mi_parameters intent with NoMaintenanceParameters => true | _ => false end
  else if (operation =? op_protect_volume) || (operation =? op_unprotect_volume) then
    match mi_parameters intent with VolumeMaintenanceParameters v => non_zero v | _ => false end
  else if operation =? op_apply_restore_policy then
    match mi_parameters intent with PolicyMaintenanceParameters d => non_zero d | _ => false end
  else if operation =? op_restart_client then
    match mi_parameters intent with
    | RestartMaintenanceParameters path grace =>
        valid_restart_path path && (grace <=? kMaximumRestartGraceSeconds)
    | _ => false
    end
  else if operation =? op_decommission_client then
    match mi_parameters intent with
    | DecommissionMaintenanceParameters d => valid_decommission_disposition d
    | _ => false
    end
  else if operation =? op_transfer_management then
    match mi_parameters intent with
    | TransferMaintenanceParameters authority key_id digest =>
        non_zero authority && negb (key_id =? 0) && non_zero digest
    | _ => false
    end
  else false.

Definition validate_restore_state (state : RestoreState) : bool :=
  if negb (valid_feature_state (rt_feature state)) ||
     negb (valid_filter_state (rt_current_filter state)) ||
     negb (valid_filter_state (rt_next_filter state)) ||
     negb (valid_servicing_state (rt_servicing state)) then false
  else if rt_feature state =? 1 then
    (rt_current_filter state =? 0) && (rt_next_filter state =? 0) && (rt_servicing state =? 0)
  else
    negb (rt_current_filter state =? 0) && negb (rt_next_filter state =? 0) &&
    negb (rt_servicing state =? 0).

Definition validate_maintenance_intent_shape (intent : MaintenanceIntent) : bool :=
  if negb (non_zero (mi_intent_id intent)) || negb (non_zero (mi_target_client intent)) ||
     negb (non_zero (mi_nonce intent)) || (mi_deployment_key_id intent =? 0) ||
     (mi_issued_at intent =? 0) || (mi_expires_at intent <? mi_issued_at intent) ||
     (mi_expires_at intent - mi_issued_at intent >? kMaximumMaintenanceIntentLifetimeSeconds) ||
     (mi_policy_revision intent =? 0) ||
     (mi_policy_revision intent <? rt_policy_revision (mi_expected_state intent)) ||
     negb (validate_restore_state (mi_expected_state intent)) then false
  else valid_operation_parameters intent.

(** ** Encoding *)

Definition encode_parameters (intent : MaintenanceIntent) : option bytes :=
  if negb (valid_operation_parameters intent) then None
  else
    match mi_parameters intent with
    | NoMaintenanceParameters => Some []
    | VolumeMaintenanceParameters v => Some v
    | PolicyMaintenanceParameters d => Some d
    | RestartMaintenanceParameters path grace =>
        Some (write_le 1 path ++ write_le 1 0 ++ write_le 1 0 ++ write_le 1 0 ++ write_le 4 grace)
    | DecommissionMaintenanceParameters d =>
        Some (write_le 1 d ++ write_le 1 0 ++ write_le 1 0 ++ write_le 1 0)
    | TransferMaintenanceParameters authority key_id digest =>
        Some (authority ++ write_le 4 key_id ++ digest)
    end.

Definition restart_reader : reader MaintenanceParameters :=
  path <- read_le 1 ;;
  reserved_one <- read_le 1 ;;
  reserved_two <- read_le 1 ;;
  reserved_three <- read_le 1 ;;
  grace_seconds <- read_le 4 ;;
  guard ((reserved_one =? 0) && (reserved_two =? 0) && (reserved_three =? 0)) ;;
  rret (RestartMaintenanceParameters path grace_seconds).

Definition decommission_reader : reader MaintenanceParameters :=
  disposition <- read_le 1 ;;
  reserved_one <- read_le 1 ;;
  reserved_two <- read_le 1 ;;
  reserved_three <- read_le 1 ;;
  guard ((reserved_one =? 0) && (reserved_two =? 0) && (reserved_three =? 0)) ;;
  rret (DecommissionMaintenanceParameters disposition).

Definition transfer_reader : reader MaintenanceParameters :=
  new_authority_id <- read_bytes 16 ;;
  new_key_id <- read_le 4 ;;
  new_key_digest <- read_bytes 32 ;;
  left <- rremaining ;;
  guard (left =? 0) ;;
  rret (TransferMaintenanceParameters new_authority_id new_key_id new_key_digest).

Definition decode_parameters (operation : Z) (wire : bytes) : option MaintenanceParameters :=
  if no_parameter_operation operation
  then if negb (bool_decide (wire = [])) then None else Some NoMaintenanceParameters
  else if (operation =? op_protect_volume) || (operation =? op_unprotect_volume)
  then if negb (len wire =? kMaintenanceVolumeIdBytes) then None
       else Some (VolumeMaintenanceParameters wire)
  else if operation =? op_apply_restore_policy
  then if negb (len wire =? 32) then None else Some (PolicyMaintenanceParameters wire)
  else if operation =? op_restart_client
  then if negb (len wire =? kRestartParameterBytes) then None else run_reader restart_reader wire
  else if operation =? op_decommission_client
  then if negb (len wire =? kDecommissionParameterBytes) then None
       else run_reader decommission_reader wire
  else if operation =? op_transfer_management
  then if negb (len wire =? kTransferParameterBytes) then None else run_reader transfer_reader wire
  else None.

(** Magic, version and sizes, then the fields. *)
Definition encode_maintenance_intent (intent : MaintenanceIntent) : bytes :=
  if negb (validate_maintenance_intent_shape intent) then []
  else
    match encode_parameters intent with
    | None => []
    | Some parameters =>
        if (len parameters >? kMaximumMaintenanceParameterBytes) || (len parameters >? u32_max) then []
        else
          let state := mi_expected_state intent in
          write_le 4 kMaintenanceIntentMagic ++ write_le 2 kMaintenanceIntentVersion ++
          write_le 2 kMaintenanceIntentHeaderBytes ++ write_le 2 (mi_operation intent) ++
          write_le 2 kMaintenanceIntentFlags ++ write_le 4 (len parameters) ++
          write_le 4 (mi_deployment_key_id intent) ++ mi_intent_id intent ++
          mi_target_client intent ++ mi_nonce intent ++ write_le 8 (mi_issued_at intent) ++
          write_le 8 (mi_expires_at intent) ++ write_le 8 (mi_policy_revision intent) ++
          write_le 8 (rt_policy_revision state) ++ write_le 1 (rt_feature state) ++
          write_le 1 (rt_current_filter state) ++ write_le 1 (rt_next_filter state) ++
          write_le 1 (rt_servicing state) ++ write_le 4 0 ++ parameters
    end.

(** The header's fields, and the bytes of the parameters. *)
Definition maintenance_intent_reader : reader (MaintenanceIntent * bytes) :=
  magic <- read_le 4 ;;
  version <- read_le 2 ;;
  header_bytes <- read_le 2 ;;
  operation <- read_le 2 ;;
  flags <- read_le 2 ;;
  parameter_bytes <- read_le 4 ;;
  deployment_key_id <- read_le 4 ;;
  intent_id <- read_bytes 16 ;;
  target_client <- read_bytes 16 ;;
  nonce <- read_bytes 32 ;;
  issued_at <- read_le 8 ;;
  expires_at <- read_le 8 ;;
  policy_revision <- read_le 8 ;;
  expected_revision <- read_le 8 ;;
  feature <- read_le 1 ;;
  current_filter <- read_le 1 ;;
  next_filter <- read_le 1 ;;
  servicing <- read_le 1 ;;
  reserved <- read_le 4 ;;
  guard ((magic =? kMaintenanceIntentMagic) && (version =? kMaintenanceIntentVersion) &&
         (header_bytes =? kMaintenanceIntentHeaderBytes) && (flags =? kMaintenanceIntentFlags) &&
         (reserved =? 0) && (parameter_bytes <=? kMaximumMaintenanceParameterBytes)) ;;
  left <- rremaining ;;
  guard (left =? parameter_bytes) ;;
  parameters <- read_rest ;;
  rret (mkIntent intent_id target_client nonce deployment_key_id issued_at expires_at policy_revision
          (mkRestoreState feature current_filter next_filter servicing expected_revision)
          operation NoMaintenanceParameters, parameters).

Definition with_parameters (intent : MaintenanceIntent) (parameters : MaintenanceParameters)
    : MaintenanceIntent :=
  mkIntent (mi_intent_id intent) (mi_target_client intent) (mi_nonce intent)
    (mi_deployment_key_id intent) (mi_issued_at intent) (mi_expires_at intent)
    (mi_policy_revision intent) (mi_expected_state intent) (mi_operation intent) parameters.

Definition decode_maintenance_intent (wire : bytes) : option MaintenanceIntent :=
  if (len wire <? kMaintenanceIntentHeaderBytes) ||
     (len wire >? kMaintenanceIntentHeaderBytes + kMaximumMaintenanceParameterBytes) then None
  else
    match run_reader maintenance_intent_reader wire with
    | None => None
    | Some (intent, rest) =>
        match decode_parameters (mi_operation intent) rest with
        | None => None
        | Some parameters =>
            let intent := with_parameters intent parameters in
            if negb (validate_maintenance_intent_shape intent) then None else Some intent
        end
    end.

(** The length of the parameters is read ahead at its place in the header. *)
Definition decode_signed_maintenance_intent (wire : bytes) : option SignedMaintenanceIntent :=
  if len wire <? kMaintenanceIntentHeaderBytes + kMaintenanceAuthTagBytes then None
  else
    match read_le_at 4 wire 12 with
    | None => None
    | Some (parameter_bytes, _) =>
        if parameter_bytes >? kMaximumMaintenanceParameterBytes then None
        else
          let intent_bytes := kMaintenanceIntentHeaderBytes + parameter_bytes in
          if negb (len wire =? intent_bytes + kMaintenanceAuthTagBytes) then None
          else
            match decode_maintenance_intent (take (Z.to_nat intent_bytes) wire) with
            | None => None
            | Some intent =>
                Some (mkSigned intent (take 32 (drop (Z.to_nat intent_bytes) wire)))
            end
    end.

Definition encode_signed_maintenance_intent (signed_intent : SignedMaintenanceIntent) : bytes :=
  let output := encode_maintenance_intent (si_intent signed_intent) in
  if bool_decide (output = []) then [] else output ++ si_tag signed_intent.

Section Hmac.
Variable bcrypt_hmac : bytes -> bytes -> option bytes.

Definition compute_maintenance_intent_tag (credential : DeploymentAdminCredentialView)
    (intent : MaintenanceIntent) : option bytes :=
  if negb (valid_credential credential) || negb (dc_key_id credential =? mi_deployment_key_id intent)
  then None
  else
    let wire := encode_maintenance_intent intent in
    if bool_decide (wire = []) then None
    else Auth.hmac_sha256 bcrypt_hmac (dc_key credential) (kIntentLabel ++ wire).

Definition verify_maintenance_intent_tag (credential : DeploymentAdminCredentialView)
    (signed_intent : SignedMaintenanceIntent) : bool :=
  match compute_maintenance_intent_tag credential (si_intent signed_intent) with
  | Some expected => Auth.constant_time_equal expected (si_tag signed_intent)
  | None => false
  end.

Definition sign_maintenance_intent (credential : DeploymentAdminCredentialView) (intent : MaintenanceIntent)
    : option SignedMaintenanceIntent :=
  match compute_maintenance_intent_tag credential intent with
  | Some tag => Some (mkSigned intent tag)
  | None => None
  end.
End Hmac.

(** ** The replay protector *)

Record Entry := mkEntry { en_expires_at : Z; en_nonce_key : bytes }.

Record MaintenanceReplayProtector := mkReplayProtector {
  rp_capacity : Z;
  rp_intents : gmap bytes Entry;
  rp_nonces : gmap bytes Z
}.

Definition create (capacity : Z) : MaintenanceReplayProtector :=
  mkReplayProtector (Z.max 1 (Z.min capacity kMaximumMaintenanceReplayEntries)) ∅ ∅.

Definition replay_intent_key (intent : MaintenanceIntent) : bytes :=
  [byte_of 1] ++ mi_target_client intent ++ mi_intent_id intent.

Definition replay_nonce_key (intent : MaintenanceIntent) : bytes :=
  [byte_of 2] ++ mi_target_client intent ++ mi_nonce intent.

Inductive MaintenanceReplayResult : Set := accepted | invalid | replayed | capacity_exhausted.

#[export] Instance replay_result_eq_dec : EqDecision MaintenanceReplayResult.
Proof. solve_decision. Defined.

Definition entry_expired (now : Z) (entry : Entry) : Prop := en_expires_at entry < now.

#[export] Instance entry_expired_dec now entry : Decision (entry_expired now entry).
Proof. unfold entry_expired. apply _. Defined.

(** The loop over the intents, whose order does not matter. *)
Definition evict_expired (rp : MaintenanceReplayProtector) (now : Z) : MaintenanceReplayProtector :=
  let expired := filter (fun kv => entry_expired now kv.2) (map_to_list (rp_intents rp)) in
  mkReplayProtector (rp_capacity rp)
    (foldl (fun m kv => delete kv.1 m) (rp_intents rp) expired)
    (foldl (fun m kv => delete (en_nonce_key kv.2) m) (rp_nonces rp) expired).

Definition accept (rp : MaintenanceReplayProtector) (intent : MaintenanceIntent) (now_unix_seconds : Z)
    : MaintenanceReplayResult * MaintenanceReplayProtector :=
  if negb (validate_maintenance_intent_shape intent) || (now_unix_seconds =? 0) ||
     (mi_expires_at intent <? now_unix_seconds) then (invalid, rp)
  else
    let intent_key := replay_intent_key intent in
    let nonce_key := replay_nonce_key intent in
    let rp := evict_expired rp now_unix_seconds in
    if bool_decide (is_Some (rp_intents rp !! intent_key)) ||
       bool_decide (is_Some (rp_nonces rp !! nonce_key)) then (replayed, rp)
    else if Z.of_nat (size (rp_intents rp)) >=? rp_capacity rp then (capacity_exhausted, rp)
    else
      (accepted,
       mkReplayProtector (rp_capacity rp)
         (<[intent_key := mkEntry (mi_expires_at intent) nonce_key]> (rp_intents rp))
         (<[nonce_key := mi_expires_at intent]> (rp_nonces rp))).

Definition clear (rp : MaintenanceReplayProtector) : MaintenanceReplayProtector :=
  mkReplayProtector (rp_capacity rp) ∅ ∅.

(** ** The decision *)

Inductive MaintenanceAuthorizationResult : Set :=
| authorized | invalid_intent | invalid_credential | credential_mismatch | authentication_failed
| invalid_local_context | not_yet_valid | expired | target_mismatch | expected_state_mismatch
| already_replayed | replay_capacity_exhausted.

Section Decision.
Variable bcrypt_hmac : bytes -> bytes -> option bytes.

(** With the intent that is authorized. *)
Definition authorize_maintenance_intent (credential : DeploymentAdminCredentialView)
    (signed_intent : SignedMaintenanceIntent) (local_client_id : bytes) (current_state : RestoreState)
    (now_unix_seconds : Z) (replay_protector : MaintenanceReplayProtector)
    : MaintenanceAuthorizationResult * option MaintenanceIntent * MaintenanceReplayProtector :=
  let intent := si_intent signed_intent in
  let no result := (result, None, replay_protector) in
  if negb (validate_maintenance_intent_shape intent) then no invalid_intent
  else if negb (valid_credential credential) then no invalid_credential
  else if negb (dc_key_id credential =? mi_deployment_key_id intent) then no credential_mismatch
  else if negb (verify_maintenance_intent_tag bcrypt_hmac credential signed_intent)
  then no authentication_failed
  else if negb (non_zero local_client_id) || negb (validate_restore_state current_state) ||
          (now_unix_seconds =? 0) then no invalid_local_context
  else if (mi_issued_at intent >? now_unix_seconds) &&
          (mi_issued_at intent - now_unix_seconds >? kMaintenanceClockSkewSeconds)
  then no not_yet_valid
  else if now_unix_seconds >? mi_expires_at intent then no expired
  else if negb (bool_decide (mi_target_client intent = local_client_id)) then no target_mismatch
  else if negb (bool_decide (mi_expected_state intent = current_state))
  then no expected_state_mismatch
  else
    let '(outcome, rp) := accept replay_protector intent now_unix_seconds in
    match outcome with
    | accepted => (authorized, Some intent, rp)
    | replayed => (already_replayed, None, rp)
    | capacity_exhausted => (replay_capacity_exhausted, None, rp)
    | invalid => (invalid_intent, None, rp)
    end.
End Decision.

(** ** The codec *)

Definition typed_parameters (parameters : MaintenanceParameters) : Prop :=
  match parameters with
  | NoMaintenanceParameters => True
  | VolumeMaintenanceParameters v => length v = 16%nat
  | PolicyMaintenanceParameters d => length d = 32%nat
  | RestartMaintenanceParameters path grace => u8 path /\ u32 grace
  | DecommissionMaintenanceParameters d => u8 d
  | TransferMaintenanceParameters authority key_id digest =>
      length authority = 16%nat /\ u32 key_id /\ length digest = 32%nat
  end.

Definition typed_state (s : RestoreState) : Prop :=
  u8 (rt_feature s) /\ u8 (rt_current_filter s) /\ u8 (rt_next_filter s) /\ u8 (rt_servicing s) /\
  u64 (rt_policy_revision s).

(** What the C++ types guarantee of an intent. *)
Definition typed_intent (i : MaintenanceIntent) : Prop :=
  length (mi_intent_id i) = 16%nat /\ length (mi_target_client i) = 16%nat /\
  length (mi_nonce i) = 32%nat /\ u32 (mi_deployment_key_id i) /\ u64 (mi_issued_at i) /\
  u64 (mi_expires_at i) /\ u64 (mi_policy_revision i) /\ typed_state (mi_expected_state i) /\
  u16 (mi_operation i) /\ typed_parameters (mi_parameters i).

Definition wf_intent (i : MaintenanceIntent) : Prop :=
  typed_intent i /\ validate_maintenance_intent_shape i = true.

Definition wf_signed (s : SignedMaintenanceIntent) : Prop :=
  wf_intent (si_intent s) /\ length (si_tag s) = 32%nat.

Lemma shape_parameters i :
  validate_maintenance_intent_shape i = true -> valid_operation_parameters i = true.
Proof. unfold validate_maintenance_intent_shape. by destruct (_ || _). Qed.

(** Valid parameters are encoded within their limit, and read back. *)
Lemma parameters_roundtrip i :
  typed_parameters (mi_parameters i) -> valid_operation_parameters i = true ->
  exists w, encode_parameters i = Some w /\ len w <= kMaximumMaintenanceParameterBytes /\
    decode_parameters (mi_operation i) w = Some (mi_parameters i).
Proof.
  intros Ht Hv. unfold encode_parameters. rewrite Hv. cbn [negb]. revert Hv.
  unfold valid_operation_parameters, decode_parameters, kMaximumMaintenanceParameterBytes.
  destruct (no_parameter_operation _); [by destruct (mi_parameters i); [exists []|..]|].
  destruct (_ || _).
  { destruct (mi_parameters i); try done. cbn in Ht. exists volume_id. unfold len. rewrite Ht. done. }
  destruct (_ =? op_apply_restore_policy).
  { destruct (mi_parameters i); try done. cbn in Ht. exists policy_digest. unfold len. by rewrite Ht. }
  destruct (_ =? op_restart_client).
  { destruct (mi_parameters i); try done. destruct Ht as [Hp Hg]. intros _. eexists; split; [done|].
    autorewrite with wire. split; [lia|]. cbn [negb Z.eqb]. unfold run_reader, restart_reader.
    reader_run. done. }
  destruct (_ =? op_decommission_client).
  { destruct (mi_parameters i); try done. cbn in Ht. intros _. eexists; split; [done|].
    autorewrite with wire. split; [lia|]. unfold run_reader, decommission_reader.
    reader_run. done. }
  destruct (_ =? op_transfer_management); [|done].
  destruct (mi_parameters i); try done. destruct Ht as (Ha & Hk & Hd). intros _. eexists; split; [done|].
  autorewrite with wire. unfold len. rewrite Ha, Hd. split; [lia|]. unfold run_reader, transfer_reader.
  reader_run. done.
Qed.

Lemma decode_parameters_inv i w :
  decode_parameters (mi_operation i) w = Some (mi_parameters i) ->
  typed_parameters (mi_parameters i) /\
  (valid_operation_parameters i = true -> encode_parameters i = Some w).
Proof.
  unfold decode_parameters, encode_parameters. intros E.
  enough (typed_parameters (mi_parameters i) /\
    match mi_parameters i with
    | NoMaintenanceParameters => Some []
    | VolumeMaintenanceParameters v => Some v
    | PolicyMaintenanceParameters d => Some d
    | RestartMaintenanceParameters path grace =>
        Some (write_le 1 path ++ write_le 1 0 ++ write_le 1 0 ++ write_le 1 0 ++ write_le 4 grace)
    | DecommissionMaintenanceParameters d =>
        Some (write_le 1 d ++ write_le 1 0 ++ write_le 1 0 ++ write_le 1 0)
    | TransferMaintenanceParameters authority key_id digest =>
        Some (authority ++ write_le 4 key_id ++ digest)
    end = Some w) as [Ht Hw].
  { split; [done|]. intros ->. done. }
  destruct (no_parameter_operation _).
  { destruct (bool_decide _) eqn:Ew; [|done]. apply bool_decide_eq_true in Ew as ->. by injection E as <-. }
  destruct (_ || _).
  { destruct (Z.eqb_spec (len w) kMaintenanceVolumeIdBytes) as [Hl|]; [|done]. injection E as <-.
    split; [|done]. unfold kMaintenanceVolumeIdBytes, len in Hl. cbn. lia. }
  destruct (_ =? op_apply_restore_policy).
  { destruct (Z.eqb_spec (len w) 32) as [Hl|]; [|done]. injection E as <-. split; [|done].
    unfold len in Hl. cbn. lia. }
  destruct (_ =? op_restart_client).
  { destruct (negb _) eqn:Hl; [done|]. apply negb_false_iff, Z.eqb_eq in Hl.
    unfold restart_reader in E. reader_inv. bool_to_prop. subst. unfold kRestartParameterBytes in Hl.
    no_rest. done. }
  destruct (_ =? op_decommission_client).
  { destruct (negb _) eqn:Hl; [done|]. apply negb_false_iff, Z.eqb_eq in Hl.
    unfold decommission_reader in E. reader_inv. bool_to_prop. subst.
    unfold kDecommissionParameterBytes in Hl. no_rest. done. }
  destruct (_ =? op_transfer_management); [|done].
  destruct (negb _) eqn:Hl; [done|]. apply negb_false_iff, Z.eqb_eq in Hl.
  unfold transfer_reader in E. reader_inv. bool_to_prop. subst.
  no_rest. by rewrite app_nil_r.
Qed.

(** The header's bytes, before the parameters. *)
Definition header_wire (i : MaintenanceIntent) (parameter_bytes : Z) : bytes :=
  let state := mi_expected_state i in
  write_le 4 kMaintenanceIntentMagic ++ write_le 2 kMaintenanceIntentVersion ++
  write_le 2 kMaintenanceIntentHeaderBytes ++ write_le 2 (mi_operation i) ++
  write_le 2 kMaintenanceIntentFlags ++ write_le 4 parameter_bytes ++
  write_le 4 (mi_deployment_key_id i) ++ mi_intent_id i ++ mi_target_client i ++ mi_nonce i ++
  write_le 8 (mi_issued_at i) ++ write_le 8 (mi_expires_at i) ++ write_le 8 (mi_policy_revision i) ++
  write_le 8 (rt_policy_revision state) ++ write_le 1 (rt_feature state) ++
  write_le 1 (rt_current_filter state) ++ write_le 1 (rt_next_filter state) ++
  write_le 1 (rt_servicing state) ++ write_le 4 0.

Lemma len_header_wire i n : typed_intent i -> len (header_wire i n) = kMaintenanceIntentHeaderBytes.
Proof.
  intros (Hi & Ht & Hn & _). unfold header_wire. autorewrite with wire.
  by rewrite (len_length _ _ Hi), (len_length _ _ Ht), (len_length _ _ Hn).
Qed.

(** A valid intent is its header and its parameters. *)
Lemma encode_intent_eq i :
  wf_intent i -> exists w, encode_parameters i = Some w /\ len w <= kMaximumMaintenanceParameterBytes /\
    decode_parameters (mi_operation i) w = Some (mi_parameters i) /\
    encode_maintenance_intent i = header_wire i (len w) ++ w.
Proof.
  intros [Ht Hv]. destruct (parameters_roundtrip i) as (w & Ew & Hl & Ed);
    [by apply Ht | by apply shape_parameters|].
  exists w. split_and!; try done. unfold encode_maintenance_intent. rewrite Hv, Ew. cbn [negb].
  unfold kMaximumMaintenanceParameterBytes, u32_max in *.
  destruct (Z.gtb_spec (len w) 64); [lia|]. destruct (Z.gtb_spec (len w) 4294967295); [lia|]. cbn [orb].
  unfold header_wire. rewrite <- !app_assoc. reflexivity.
Qed.

Lemma header_reader_run i w :
  typed_intent i -> len w <= kMaximumMaintenanceParameterBytes ->
  run_reader maintenance_intent_reader (header_wire i (len w) ++ w) =
  Some (with_parameters i NoMaintenanceParameters, w).
Proof.
  intros (Hi & Ht & Hn & Hk & Hs & He & Hp & (Hf & Hc & Hx & Hv & Hr) & Ho & _) Hl.
  pose proof (len_nonneg w). unfold kMaximumMaintenanceParameterBytes in *.
  unfold run_reader, maintenance_intent_reader, header_wire. rewrite <- !app_assoc.
  destruct i as [? ? ? ? ? ? ? [] ? ?]; cbn in *.
  assert ((kMaintenanceIntentMagic =? kMaintenanceIntentMagic) &&
         (kMaintenanceIntentVersion =? kMaintenanceIntentVersion) &&
         (kMaintenanceIntentHeaderBytes =? kMaintenanceIntentHeaderBytes) &&
         (kMaintenanceIntentFlags =? kMaintenanceIntentFlags) &&
         (0 =? 0) && (len w <=? kMaximumMaintenanceParameterBytes) = true) as Hg.
  { unfold kMaximumMaintenanceParameterBytes. rewrite !Z.eqb_refl. cbn. lia. }
  reader_run. done.
Qed.

Lemma header_reader_inv wire i rest :
  run_reader maintenance_intent_reader wire = Some (i, rest) ->
  len rest <= kMaximumMaintenanceParameterBytes /\ wire = header_wire i (len rest) ++ rest /\
  forall p, typed_parameters p -> typed_intent (with_parameters i p).
Proof.
  intros E. unfold maintenance_intent_reader in E. reader_inv. bool_to_prop. subst.
  unfold header_wire, typed_intent, typed_state. rewrite <- !app_assoc. cbn.
  unfold kMaximumMaintenanceParameterBytes in *. done.
Qed.

#[export] Program Instance intent_codec : Codec MaintenanceIntent := {|
  encode := encode_maintenance_intent; decode := decode_maintenance_intent; valid := wf_intent |}.
Next Obligation.
  intros i Hi. pose proof Hi as [Ht Hv]. destruct (encode_intent_eq i Hi) as (w & _ & Hl & Ed & ->).
  unfold decode_maintenance_intent. rewrite len_app, len_header_wire by done.
  pose proof (len_nonneg w). unfold kMaintenanceIntentHeaderBytes, kMaximumMaintenanceParameterBytes in *.
  destruct (Z.ltb_spec (124 + len w) 124); [lia|]. destruct (Z.gtb_spec (124 + len w) (124 + 64)); [lia|].
  cbn [orb]. rewrite header_reader_run by done. cbn [mi_operation with_parameters]. rewrite Ed.
  assert (with_parameters (with_parameters i NoMaintenanceParameters) (mi_parameters i) = i) as ->
    by by destruct i. by rewrite Hv.
Qed.
Next Obligation.
  intros w i. unfold decode_maintenance_intent. destruct (_ || _); [done|].
  destruct (run_reader _ _) as [[j rest]|] eqn:E; [|done].
  destruct (decode_parameters _ _) as [p|] eqn:Ed; [|done].
  destruct (validate_maintenance_intent_shape _) eqn:Hv; cbn [negb]; [|done]. intros [= <-].
  apply header_reader_inv in E as (Hl & -> & Ht).
  destruct (decode_parameters_inv (with_parameters j p) rest Ed) as [Hp Hw].
  assert (wf_intent (with_parameters j p)) as Hwf by (split; auto). split; [done|].
  destruct (encode_intent_eq _ Hwf) as (w & Ew & _ & _ & ->).
  rewrite Hw in Ew by by apply shape_parameters. by injection Ew as <-.
Qed.

Lemma intent_decode_inv w i :
  decode_maintenance_intent w = Some i -> wf_intent i /\ w = encode_maintenance_intent i.
Proof. exact (decode_exact (A := MaintenanceIntent) w i). Qed.

Lemma encode_intent_nonempty i : wf_intent i -> encode_maintenance_intent i <> [].
Proof.
  intros Hi. destruct (encode_intent_eq i Hi) as (w & _ & _ & _ & ->). intros E.
  apply (f_equal len) in E. rewrite len_app, len_header_wire in E by apply Hi.
  pose proof (len_nonneg w). unfold kMaintenanceIntentHeaderBytes in E. rewrite len_nil in E. lia.
Qed.

(** The length of the parameters stands at byte twelve of the header. *)
Lemma parameter_length_at i w tag :
  len w <= kMaximumMaintenanceParameterBytes ->
  read_le_at 4 ((header_wire i (len w) ++ w) ++ tag) 12 = Some (len w, 16%nat).
Proof.
  intros Hl. pose proof (len_nonneg w). unfold kMaximumMaintenanceParameterBytes in *.
  rewrite read_le_at_cursor by (unfold header_wire; rewrite !length_app, !length_write_le; lia).
  unfold header_wire. rewrite <- !app_assoc.
  do 5 (rewrite drop_app_ge by (rewrite ?length_write_le; lia); rewrite length_write_le).
  cbn [Nat.sub]. rewrite drop_0, read_le_write by ulia. cbn [option_map]. do 2 f_equal.
  rewrite !length_app, !length_write_le. lia.
Qed.

#[export] Program Instance signed_codec : Codec SignedMaintenanceIntent := {|
  encode := encode_signed_maintenance_intent; decode := decode_signed_maintenance_intent;
  valid := wf_signed |}.
Next Obligation.
  intros [i tag] [Hi Htag]; cbn in *. pose proof (decode_encode (A := MaintenanceIntent) i Hi) as Hd.
  change (decode_maintenance_intent (encode_maintenance_intent i) = Some i) in Hd.
  unfold encode_signed_maintenance_intent; cbn [si_intent si_tag].
  rewrite bool_decide_false by by apply encode_intent_nonempty.
  destruct (encode_intent_eq i Hi) as (w & _ & Hl & _ & E). rewrite E in Hd |- *.
  pose proof (len_header_wire i (len w) (proj1 Hi)) as Hh. pose proof (len_nonneg w).
  apply len_length in Htag. unfold decode_signed_maintenance_intent. rewrite parameter_length_at by done.
  rewrite !len_app, Hh, Htag.
  unfold kMaintenanceIntentHeaderBytes, kMaximumMaintenanceParameterBytes, kMaintenanceAuthTagBytes in *.
  destruct (Z.ltb_spec (124 + len w + Z.of_nat 32) (124 + 32)); [lia|].
  destruct (Z.gtb_spec (len w) 64); [lia|].
  destruct (Z.eqb_spec (124 + len w + Z.of_nat 32) (124 + len w + 32)); [|lia]. cbn [negb].
  replace (Z.to_nat (124 + len w)) with (length (header_wire i (len w) ++ w))
    by (rewrite length_app; unfold len in *; lia).
  rewrite take_app_length, drop_app_length, Hd, take_ge by (unfold len in *; lia). done.
Qed.
Next Obligation.
  intros w [i tag]. unfold decode_signed_maintenance_intent. destruct (_ <? _); [done|].
  destruct (read_le_at _ _ _) as [[n ?]|] eqn:En; [|done]. destruct (_ >? _); [done|].
  destruct (negb _) eqn:Hl; [done|]. apply negb_false_iff, Z.eqb_eq in Hl.
  destruct (decode_maintenance_intent _) as [j|] eqn:E; [|done]. intros Ej.
  assert (si_tag (mkSigned i tag) = take 32 (drop (Z.to_nat (kMaintenanceIntentHeaderBytes + n)) w) /\ j = i)
    as [Etag ->] by (by injection Ej as -> <-).
  apply intent_decode_inv in E as [Hj Ew].
  assert (0 <= n) as Hn.
  { unfold read_le_at in En. case_bool_decide; [done|]. injection En as <- _. apply le_value_range. }
  unfold kMaintenanceIntentHeaderBytes, kMaintenanceAuthTagBytes, len in *. cbn [si_tag] in Etag.
  rewrite take_ge in Etag by (rewrite length_drop; lia). split.
  - split; [done|]. cbn [si_tag]. rewrite Etag, length_drop. lia.
  - unfold encode_signed_maintenance_intent. cbn [si_intent si_tag].
    rewrite bool_decide_false by by apply encode_intent_nonempty.
    by rewrite <- Ew, Etag, take_drop.
Qed.

(** ** The protector and the intents it remembers *)

Definition live (now : Z) (i : MaintenanceIntent) : Prop := now <= mi_expires_at i.

#[export] Instance live_dec now i : Decision (live now i).
Proof. unfold live. apply _. Defined.

Definition entry_of (i : MaintenanceIntent) : Entry := mkEntry (mi_expires_at i) (replay_nonce_key i).

Definition index {V} (key : MaintenanceIntent -> bytes) (value : MaintenanceIntent -> V)
    (l : list MaintenanceIntent) : gmap bytes V :=
  list_to_map (map (fun i => (key i, value i)) l).

(** The protector's two maps index one list of intents, by their ids and by their
    nonces. *)
Definition remembers (rp : MaintenanceReplayProtector) (l : list MaintenanceIntent) : Prop :=
  rp_intents rp = index replay_intent_key entry_of l /\ NoDup (map replay_intent_key l) /\
  rp_nonces rp = index replay_nonce_key mi_expires_at l /\ NoDup (map replay_nonce_key l).

(** Two intents for one client that share their id or their nonce. *)
Definition clashes (i j : MaintenanceIntent) : Prop :=
  mi_target_client i = mi_target_client j /\
  (mi_intent_id i = mi_intent_id j \/ mi_nonce i = mi_nonce j).

Lemma foldl_delete_lookup {V R} (key : R -> bytes) (l : list R) (m : gmap bytes V) k v :
  foldl (fun m r => delete (key r) m) m l !! k = Some v <->
  m !! k = Some v /\ Forall (fun r => key r <> k) l.
Proof.
  revert m. induction l as [|r l IH]; intros m; cbn [foldl]; [by rewrite Forall_nil; tauto|].
  rewrite IH, Forall_cons, lookup_delete_Some. tauto.
Qed.

Lemma row_lookup {V} (key : MaintenanceIntent -> bytes) (value : MaintenanceIntent -> V) l k v :
  NoDup (map key l) ->
  index key value l !! k = Some v <->
  exists i, i ∈ l /\ k = key i /\ v = value i.
Proof.
  intros Hd. unfold index. rewrite <- elem_of_list_to_map.
  - rewrite list_elem_of_fmap. split; intros (i & E & Hi); [injection E as -> ->; eauto|].
    destruct Hi as [-> ->]. eauto.
  - rewrite <- list_fmap_compose. exact Hd.
Qed.

Lemma NoDup_map_filter {B} (f : MaintenanceIntent -> B) (P : MaintenanceIntent -> Prop)
    `{!forall i, Decision (P i)} l :
  NoDup (map f l) -> NoDup (map f (filter P l)).
Proof. intros Hd. eapply sublist_NoDup; [exact Hd|]. apply fmap_sublist, sublist_filter. Qed.

Lemma key_inj {B} (key : MaintenanceIntent -> B) l i j :
  NoDup (map key l) -> i ∈ l -> j ∈ l -> key i = key j -> i = j.
Proof.
  intros Hd [n Hn]%list_elem_of_lookup [k Hk]%list_elem_of_lookup E.
  assert (n = k) as ->; [|congruence].
  eapply NoDup_lookup; [exact Hd|..]; rewrite list_lookup_fmap; [by rewrite Hn|by rewrite Hk, E].
Qed.

(** Deleting the keys of the dead intents leaves the rows of the live ones. *)
Lemma evicted_rows {V R} (key : MaintenanceIntent -> bytes) (value : MaintenanceIntent -> V)
    (rkey : R -> bytes) (dead : list R) l now :
  NoDup (map key l) ->
  (forall i, i ∈ l -> ~ live now i -> exists r, r ∈ dead /\ rkey r = key i) ->
  (forall r, r ∈ dead -> exists i, i ∈ l /\ ~ live now i /\ rkey r = key i) ->
  foldl (fun m r => delete (rkey r) m) (index key value l) dead = index key value (filter (live now) l).
Proof.
  intros Hd Hto Hfrom. apply map_eq. intros k. apply option_eq. intros e.
  rewrite foldl_delete_lookup, !row_lookup, Forall_forall by (try done; by apply NoDup_map_filter).
  split.
  - intros [(i & Hi & -> & ->) Hf]. exists i. split_and!; [|done..]. apply list_elem_of_filter.
    split; [|done]. destruct (decide (live now i)) as [|Hn]; [done|].
    destruct (Hto i Hi Hn) as (r & Hr & E). by destruct (Hf r).
  - intros (i & [Hv Hi]%list_elem_of_filter & -> & ->). split; [by exists i|].
    intros r (j & Hj & Hn & ->)%Hfrom E. by rewrite (key_inj key l j i Hd Hj Hi E) in Hn.
Qed.

(** Eviction keeps exactly the live intents. *)
Lemma evict_remembers rp l now : remembers rp l -> remembers (evict_expired rp now) (filter (live now) l).
Proof.
  intros (Ei & Di & En & Dn). unfold remembers, evict_expired; cbn [rp_intents rp_nonces].
  assert (forall k e, (k, e) ∈ filter (fun kv => entry_expired now kv.2) (map_to_list (rp_intents rp)) <->
    exists i, i ∈ l /\ ~ live now i /\ k = replay_intent_key i /\ e = entry_of i) as Hx.
  { intros k e. rewrite list_elem_of_filter, elem_of_map_to_list, Ei, (row_lookup _ entry_of) by done.
    unfold entry_expired, live; cbn [snd]. split.
    - intros (He & i & Hi & -> & ->). cbn in He. exists i. split_and!; [done|lia|done..].
    - intros (i & Hi & He & -> & ->). cbn. split; [lia|]. by exists i. }
  split_and!; try by apply NoDup_map_filter.
  - rewrite Ei in Hx |- *. apply evicted_rows; [done|..].
    + intros i Hi Hn. exists (replay_intent_key i, entry_of i). split; [|done]. apply Hx. by exists i.
    + intros [k e] (i & Hi & Hn & -> & ->)%Hx. by exists i.
  - rewrite En. apply (evicted_rows _ _ (fun kv => en_nonce_key kv.2)); [done|..].
    + intros i Hi Hn. exists (replay_intent_key i, entry_of i). split; [|done]. apply Hx. by exists i.
    + intros [k e] (i & Hi & Hn & -> & ->)%Hx. by exists i.
Qed.

(** A key is absent when no remembered intent has it. *)
Lemma row_absent {V} (key : MaintenanceIntent -> bytes) (value : MaintenanceIntent -> V) l k :
  bool_decide (is_Some (index key value l !! k)) =
  bool_decide (k ∈ map key l).
Proof.
  apply bool_decide_ext. unfold index. rewrite <- not_eq_None_Some, <- not_elem_of_list_to_map.
  rewrite <- list_fmap_compose. cbn. split; [|tauto]. intros H. by apply dec_stable.
Qed.

(** The protector's answer, by the live intents it remembers. *)
Lemma accept_by_memory rp l i now :
  remembers rp l -> validate_maintenance_intent_shape i = true -> now <> 0 -> live now i ->
  let l := filter (live now) l in
  accept rp i now =
    if bool_decide (replay_intent_key i ∈ map replay_intent_key l) ||
       bool_decide (replay_nonce_key i ∈ map replay_nonce_key l) then (replayed, evict_expired rp now)
    else if Z.of_nat (length l) >=? rp_capacity rp then (capacity_exhausted, evict_expired rp now)
    else (accepted,
      mkReplayProtector (rp_capacity rp) (index replay_intent_key entry_of (i :: l))
        (index replay_nonce_key mi_expires_at (i :: l))).
Proof.
  intros Hr Hv Hn Hl. apply (evict_remembers _ _ now) in Hr as (Ei & Di & En & Dn). cbn zeta.
  unfold accept. apply Z.eqb_neq in Hn. rewrite Hv, Hn. unfold live in Hl.
  destruct (Z.ltb_spec (mi_expires_at i) now); [lia|]. cbn [negb orb].
  rewrite Ei, En, !row_absent. destruct (_ || _); [done|].
  unfold index at 1. rewrite map_size_list_to_map by by rewrite <- list_fmap_compose.
  change (@fmap list) with (@map).
  rewrite length_map. done.
Qed.

Lemma key_clash i j :
  typed_intent i -> typed_intent j ->
  replay_intent_key i = replay_intent_key j \/ replay_nonce_key i = replay_nonce_key j <-> clashes i j.
Proof.
  intros (Hi & Hti & Hni & _) (Hj & Htj & Hnj & _). unfold replay_intent_key, replay_nonce_key, clashes.
  split.
  - intros [E|E]; apply app_inv_head in E; apply app_inj_1 in E as [-> ->]; first [lia|tauto].
  - intros [-> [->| ->]]; tauto.
Qed.

(** ** A client's decisions, one after the other *)

Record Call := mkCall {
  ca_credential : DeploymentAdminCredentialView;
  ca_signed : SignedMaintenanceIntent;
  ca_local_client_id : bytes;
  ca_current_state : RestoreState;
  ca_now : Z
}.

Definition ordered (c : Call) : MaintenanceIntent := si_intent (ca_signed c).

Section Decisions.
Variable bcrypt_hmac : bytes -> bytes -> option bytes.

Definition decide_call (c : Call) (rp : MaintenanceReplayProtector)
    : MaintenanceAuthorizationResult * option MaintenanceIntent * MaintenanceReplayProtector :=
  authorize_maintenance_intent bcrypt_hmac (ca_credential c) (ca_signed c) (ca_local_client_id c)
    (ca_current_state c) (ca_now c) rp.

(** The intents authorized so far, and the protector. *)
Definition decision_step (st : list MaintenanceIntent * MaintenanceReplayProtector) (c : Call)
    : list MaintenanceIntent * MaintenanceReplayProtector :=
  let '(_, intent, rp) := decide_call c st.2 in (st.1 ++ option_list intent, rp).

Definition decisions (calls : list Call) (capacity : Z)
    : list MaintenanceIntent * MaintenanceReplayProtector :=
  foldl decision_step ([], create capacity) calls.

(** The call carries an order of the administrator for this client, in this state,
    at this time. *)
Definition order_for (c : Call) : Prop :=
  validate_maintenance_intent_shape (ordered c) = true /\
  valid_credential (ca_credential c) = true /\
  dc_key_id (ca_credential c) = mi_deployment_key_id (ordered c) /\
  Auth.hmac_sha256 bcrypt_hmac (dc_key (ca_credential c))
    (kIntentLabel ++ encode_maintenance_intent (ordered c)) = Some (si_tag (ca_signed c)) /\
  non_zero (ca_local_client_id c) = true /\ validate_restore_state (ca_current_state c) = true /\
  ca_now c <> 0 /\ mi_issued_at (ordered c) <= ca_now c + kMaintenanceClockSkewSeconds /\
  live (ca_now c) (ordered c) /\ mi_target_client (ordered c) = ca_local_client_id c /\
  mi_expected_state (ordered c) = ca_current_state c.

Lemma verify_tag_iff credential s :
  wf_intent (si_intent s) ->
  valid_credential credential = true -> dc_key_id credential = mi_deployment_key_id (si_intent s) ->
  verify_maintenance_intent_tag bcrypt_hmac credential s = true <->
  Auth.hmac_sha256 bcrypt_hmac (dc_key credential)
    (kIntentLabel ++ encode_maintenance_intent (si_intent s)) = Some (si_tag s).
Proof.
  intros Hi Hc Hk. unfold verify_maintenance_intent_tag, compute_maintenance_intent_tag.
  rewrite Hc, Hk, Z.eqb_refl. cbn [negb orb].
  rewrite bool_decide_false by by apply encode_intent_nonempty.
  destruct (Auth.hmac_sha256 _ _ _); [|done]. rewrite Auth.constant_time_equal_spec.
  split; [by intros ->|by intros [= ->]].
Qed.

(** A decision is the protector's on an order, and a refusal that changes nothing on
    anything else. *)
Lemma decide_call_spec c rp :
  typed_intent (ordered c) ->
  (order_for c ->
     decide_call c rp =
       match accept rp (ordered c) (ca_now c) with
       | (accepted, rp) => (authorized, Some (ordered c), rp)
       | (replayed, rp) => (already_replayed, None, rp)
       | (capacity_exhausted, rp) => (replay_capacity_exhausted, None, rp)
       | (invalid, rp) => (invalid_intent, None, rp)
       end) /\
  (~ order_for c -> (decide_call c rp).1.1 <> authorized /\ (decide_call c rp).1.2 = None /\
     (decide_call c rp).2 = rp).
Proof.
  intros Ht. split.
  - intros (Hv & Hc & Hk & Htag & Hl & Hs & Hn & Hi & He & Hlocal & Hstate).
    unfold decide_call, authorize_maintenance_intent, live, ordered in *. rewrite Hv, Hc, Hk, Z.eqb_refl.
    assert (verify_maintenance_intent_tag bcrypt_hmac (ca_credential c) (ca_signed c) = true) as ->
      by by apply verify_tag_iff.
    rewrite Hl, Hs. apply Z.eqb_neq in Hn as ->. cbn [negb orb]. unfold kMaintenanceClockSkewSeconds in *.
    destruct (Z.gtb_spec (mi_issued_at (si_intent (ca_signed c)) - ca_now c) 120); [lia|].
    rewrite andb_false_r. destruct (Z.gtb_spec (ca_now c) (mi_expires_at (si_intent (ca_signed c)))); [lia|].
    rewrite !bool_decide_true by done. cbn [negb]. by destruct (accept _ _ _) as [[] ?].
  - intros Hno. unfold decide_call, authorize_maintenance_intent. cbn zeta.
    repeat (match goal with |- context [if ?b then (_, None, rp) else _] => destruct b eqn:? end; [done|]).
    destruct Hno. bool_to_prop. unfold order_for, ordered, live, kMaintenanceClockSkewSeconds in *.
    assert (wf_intent (si_intent (ca_signed c))) as Hi by done.
    split_and!; try done; [by apply verify_tag_iff|].
    match goal with K : _ && _ = false |- _ => apply andb_false_iff in K as [K|K] end; bool_to_prop; lia.
Qed.

(** An intent that shares its id or its nonce with a live one of the history. *)
Definition taken (h : list MaintenanceIntent) (now : Z) (i : MaintenanceIntent) : Prop :=
  exists j, j ∈ h /\ live now j /\ clashes i j.

Definition room (h : list MaintenanceIntent) (now capacity : Z) : Prop :=
  Z.of_nat (length (filter (live now) h)) < Z.max 1 (Z.min capacity kMaximumMaintenanceReplayEntries).

(** The protector remembers, of the intents authorized so far, those that are live. *)
Definition tracks (capacity : Z) (calls : list Call) (st : list MaintenanceIntent * MaintenanceReplayProtector) : Prop :=
  let '(h, rp) := st in
  exists l, remembers rp l /\
    rp_capacity rp = Z.max 1 (Z.min capacity kMaximumMaintenanceReplayEntries) /\
    Z.of_nat (length l) <= rp_capacity rp /\ Forall typed_intent h /\
    forall t, (forall c, c ∈ calls -> ca_now c <= t) -> filter (live t) l ≡ₚ filter (live t) h.

Lemma taken_keys h l now i :
  typed_intent i -> Forall typed_intent h -> filter (live now) l ≡ₚ filter (live now) h ->
  bool_decide (replay_intent_key i ∈ map replay_intent_key (filter (live now) l)) ||
  bool_decide (replay_nonce_key i ∈ map replay_nonce_key (filter (live now) l)) = true <->
  taken h now i.
Proof.
  intros Hi Hh Hp. rewrite orb_true_iff, !bool_decide_eq_true, !list_elem_of_fmap. unfold taken.
  assert (forall j, j ∈ filter (live now) l <-> j ∈ h /\ live now j) as Hin.
  { intros j. rewrite Hp, list_elem_of_filter. tauto. }
  rewrite Forall_forall in Hh. split.
  - intros [(j & E & [Hj Hl]%Hin)|(j & E & [Hj Hl]%Hin)]; exists j; split_and!; try done;
      apply key_clash; auto.
  - intros (j & Hj & Hl & [E|E]%key_clash); auto; [left|right]; exists j; split; try done; by apply Hin.
Qed.

(** The protector's answer to an order, by the history. *)
Lemma accept_by_history capacity calls h rp i now :
  tracks capacity calls (h, rp) -> typed_intent i -> validate_maintenance_intent_shape i = true ->
  now <> 0 -> live now i -> (forall c, c ∈ calls -> ca_now c <= now) ->
  let '(result, rp') := accept rp i now in
  (result = accepted <-> ~ taken h now i /\ room h now capacity) /\ result <> invalid /\
  exists l, remembers rp' l /\ rp_capacity rp' = rp_capacity rp /\
    Z.of_nat (length l) <= rp_capacity rp' /\
    forall t, now <= t ->
      filter (live t) l ≡ₚ filter (live t) (h ++ if bool_decide (result = accepted) then [i] else []).
Proof.
  intros (l & Hr & Hc & Hl & Hh & Hp) Ht Hv Hn Hi Hcalls.
  pose proof (evict_remembers rp l now Hr) as Hev. pose proof (Hp now Hcalls) as Hnow.
  rewrite (accept_by_memory rp l i now) by done. pose proof (taken_keys h l now i Ht Hh Hnow) as Hk.
  assert (forall t, now <= t -> filter (live t) (filter (live now) l) ≡ₚ filter (live t) h) as Hlive.
  { intros t Hle. rewrite list_filter_filter_l by (unfold live; lia). apply Hp. intros c Hin.
    specialize (Hcalls c Hin). lia. }
  assert (length (filter (live now) l) <= length l)%nat as Hlen by apply length_filter.
  assert (length (filter (live now) h) = length (filter (live now) l)) as El by by rewrite Hnow.
  destruct (_ || _) eqn:E.
  { split_and!; [split; [done|]|done|]; [by intros [[] _]; apply Hk|].
    exists (filter (live now) l). split_and!; try done; [cbn [rp_capacity evict_expired]; lia|].
    intros t Hle. rewrite app_nil_r. by apply Hlive. }
  assert (~ taken h now i) as Hfresh by (intros K%Hk; congruence). unfold room. rewrite El, <- Hc.
  destruct (Z.geb_spec (Z.of_nat (length (filter (live now) l))) (rp_capacity rp)) as [Hfull|Hroom].
  { split_and!; [split; [done|lia]|done|].
    exists (filter (live now) l). split_and!; try done; [cbn [rp_capacity evict_expired]; lia|].
    intros t Hle. rewrite app_nil_r. by apply Hlive. }
  split_and!; [by split|done|]. exists (i :: filter (live now) l). cbn [rp_capacity]. split_and!; try done.
  - destruct Hev as (_ & Di & _ & Dn). apply orb_false_iff in E as [E1 E2].
    apply bool_decide_eq_false in E1, E2. unfold remembers; cbn [rp_intents rp_nonces map].
    split_and!; [done|by apply NoDup_cons|done|by apply NoDup_cons].
  - cbn [length]. lia.
  - intros t Hle. rewrite bool_decide_true by done. rewrite <- Permutation_cons_append.
    destruct (decide (live t i)) as [Hti|Hti].
    + rewrite !filter_cons_True by done. by rewrite Hlive.
    + rewrite !filter_cons_False by done. by apply Hlive.
Qed.

Lemma decision_tracks capacity calls st c :
  tracks capacity calls st -> typed_intent (ordered c) ->
  (forall c', c' ∈ calls -> ca_now c' <= ca_now c) -> tracks capacity (calls ++ [c]) (decision_step st c).
Proof.
  destruct st as [h rp]. intros Htr Ht Hcalls. unfold decision_step; cbn [fst snd].
  destruct (decide_call_spec c rp Ht) as [Hyes Hno].
  destruct (decide (order_for c)) as [Ho|Ho].
  - rewrite (Hyes Ho). destruct Ho as (Hv & _ & _ & _ & _ & _ & Hn & _ & Hl & _).
    pose proof (accept_by_history capacity calls h rp (ordered c) (ca_now c) Htr Ht Hv Hn Hl Hcalls) as Ha.
    destruct Htr as (_ & _ & Hc & _ & Hh & _).
    destruct (accept _ _ _) as [result rp'] eqn:E. destruct Ha as (_ & Hinv & l & Hr & Hc' & Hlen & Hp).
    assert (forall t, (forall c', c' ∈ calls ++ [c] -> ca_now c' <= t) -> ca_now c <= t) as Hlast
      by (intros t K; apply K, elem_of_app; right; by apply list_elem_of_singleton).
    destruct result; cbn [option_list]; try done; exists l; split_and!; try done; try congruence;
      try (by rewrite Hc'); try (by rewrite app_nil_r);
      try (intros t K%Hlast; by rewrite (Hp t K)).
    by apply Forall_app_2, Forall_singleton.
  - destruct (Hno Ho) as (_ & Eo & Er). destruct (decide_call c rp) as [[r o] rp']; cbn in *. subst.
    cbn [option_list]. rewrite app_nil_r. destruct Htr as (l & Hr & Hc & Hlen & Hh & Hp).
    exists l. split_and!; try done. intros t K. apply Hp. intros c' Hc'. apply K, elem_of_app. by left.
Qed.

Lemma decisions_track capacity calls :
  Forall (fun c => typed_intent (ordered c)) calls -> StronglySorted Z.le (map ca_now calls) ->
  tracks capacity calls (decisions calls capacity).
Proof.
  induction calls as [|c calls IH] using rev_ind; intros Ht Hs.
  { exists []. unfold create; cbn [rp_capacity length]. split_and!; try done; [|lia].
    split_and!; try done; apply NoDup_nil_2. }
  apply Forall_app in Ht as [Ht [Hc _]%Forall_cons]. rewrite map_app in Hs.
  apply StronglySorted_app in Hs as (Hle & Hs & _). unfold decisions. rewrite foldl_snoc.
  apply decision_tracks; [by apply IH|done|]. intros c' Hc'.
  apply Hle; [by apply list_elem_of_fmap_2|by apply list_elem_of_singleton].
Qed.

Lemma tracks_size capacity calls st :
  tracks capacity calls st ->
  Z.of_nat (size (rp_intents st.2)) <= Z.max 1 (Z.min capacity kMaximumMaintenanceReplayEntries).
Proof.
  destruct st as [h rp]. intros (l & (Ei & Di & _) & Hc & Hlen & _). cbn [snd]. rewrite <- Hc, Ei.
  unfold index. rewrite map_size_list_to_map by by rewrite <- list_fmap_compose. by rewrite length_fmap.
Qed.

(** C16. A maintenance order is carried out once.  After any sequence of decisions with a clock that does not run back, a client
    carries out exactly the orders of the administrator that are for it, in its present
    state and now, share neither their id nor their nonce with one authorized before
    that is still live, and find room in the replay table; the table never exceeds its
    capacity. *)
Theorem maintenance_authorized_exactly capacity calls c :
  Forall (fun c => typed_intent (ordered c)) (calls ++ [c]) ->
  StronglySorted Z.le (map ca_now (calls ++ [c])) ->
  let '(h, rp) := decisions calls capacity in
  ((decide_call c rp).1 = (authorized, Some (ordered c)) <->
     order_for c /\ ~ taken h (ca_now c) (ordered c) /\ room h (ca_now c) capacity) /\
  (is_Some (decide_call c rp).1.2 <-> (decide_call c rp).1.1 = authorized) /\
  Z.of_nat (size (rp_intents (decide_call c rp).2)) <=
    Z.max 1 (Z.min capacity kMaximumMaintenanceReplayEntries).
Proof.
  intros Htyped Hs. pose proof (decisions_track capacity (calls ++ [c]) Htyped Hs) as Hend.
  apply Forall_app in Htyped as [Htyped [Ht _]%Forall_cons]. rewrite map_app in Hs.
  apply StronglySorted_app in Hs as (Hle & Hs & _).
  pose proof (decisions_track capacity calls Htyped Hs) as Htr.
  unfold decisions in *. rewrite foldl_snoc in Hend. destruct (foldl _ _ calls) as [h rp].
  assert (Z.of_nat (size (rp_intents (decide_call c rp).2)) <=
    Z.max 1 (Z.min capacity kMaximumMaintenanceReplayEntries)) as Hsize.
  { apply tracks_size in Hend. unfold decision_step in Hend; cbn [fst snd] in Hend.
    by destruct (decide_call c rp) as [[r o] rp']. }
  destruct (decide_call_spec c rp Ht) as [Hyes Hno]. destruct (decide (order_for c)) as [Ho|Ho].
  - rewrite (Hyes Ho) in Hsize |- *. pose proof Ho as (Hv & _ & _ & _ & _ & _ & Hn & _ & Hl & _).
    assert (forall c', c' ∈ calls -> ca_now c' <= ca_now c) as Hcalls.
    { intros c' Hc'. apply Hle; [by apply list_elem_of_fmap_2|by apply list_elem_of_singleton]. }
    pose proof (accept_by_history capacity calls h rp (ordered c) (ca_now c) Htr Ht Hv Hn Hl Hcalls) as Ha.
    destruct (accept _ _ _) as [result rp'] eqn:E. destruct Ha as (Hiff & Hinv & _).
    destruct result; cbn [fst snd] in *; [|by destruct Hinv|..].
    + refine (conj (conj (fun _ => conj Ho (proj1 Hiff eq_refl)) (fun _ => eq_refl)) (conj _ Hsize)).
      by split.
    + refine (conj (conj _ _) (conj (conj _ _) Hsize)); [discriminate| |by intros []|discriminate].
      intros [_ K]. by apply Hiff in K.
    + refine (conj (conj _ _) (conj (conj _ _) Hsize)); [discriminate| |by intros []|discriminate].
      intros [_ K]. by apply Hiff in K.
  - destruct (Hno Ho) as (Er & Eo & _).
    refine (conj (conj _ _) (conj (conj _ _) Hsize)); [|tauto|by rewrite Eo; intros []|done].
    intros E. by rewrite E in Er.
Qed.
End Decisions.

(** ** Examples *)

Definition example_hmac (key message : bytes) : option bytes := Some (take 32 (key ++ repeat (byte_of 0) 32)).

Definition example_admin : DeploymentAdminCredentialView := mkCredential 5 (repeat (byte_of 9) 32).

Definition example_state : RestoreState := mkRestoreState 2 1 1 1 3.

(** Restart the client within a minute, issued at 1000 for five minutes. *)
Definition example_order : MaintenanceIntent :=
  mkIntent (repeat (byte_of 1) 16) (repeat (byte_of 2) 16) (repeat (byte_of 3) 32) 5 1000 1300 4
    example_state op_restart_client (RestartMaintenanceParameters 1 60).

Definition example_call (now : Z) : Call :=
  mkCall example_admin (mkSigned example_order (repeat (byte_of 9) 32)) (repeat (byte_of 2) 16)
    example_state now.

Lemma example_typed : typed_intent example_order.
Proof.
  unfold typed_intent, example_order, typed_state; cbn [mi_intent_id mi_target_client mi_nonce
    mi_deployment_key_id mi_issued_at mi_expires_at mi_policy_revision mi_expected_state
    mi_operation mi_parameters]. split_and!; first [done | by vm_compute | ulia].
Qed.

Lemma maintenance_authorized_exactly_witness :
  (decisions example_hmac [example_call 1010] 8).1 = [example_order] /\
  (decide_call example_hmac (example_call 1020) (decisions example_hmac [example_call 1010] 8).2).1 =
    (already_replayed, None) /\
  let '(h, rp) := decisions example_hmac [example_call 1010] 8 in
  ((decide_call example_hmac (example_call 1020) rp).1 = (authorized, Some example_order) <->
     order_for example_hmac (example_call 1020) /\ ~ taken h 1020 example_order /\ room h 1020 8) /\
  (is_Some (decide_call example_hmac (example_call 1020) rp).1.2 <->
     (decide_call example_hmac (example_call 1020) rp).1.1 = authorized) /\
  Z.of_nat (size (rp_intents (decide_call example_hmac (example_call 1020) rp).2)) <=
    Z.max 1 (Z.min 8 kMaximumMaintenanceReplayEntries).
Proof.
  split; [by vm_compute|]. split; [by vm_compute|].
  apply (maintenance_authorized_exactly example_hmac 8 [example_call 1010] (example_call 1020)).
  - by repeat (apply Forall_cons_2; [exact example_typed|]).
  - cbn [map app ca_now example_call]. repeat constructor; lia.
Defined.

(** The encoded order survives the round trip with its signature. *)
Example example_signed_roundtrip :
  decode_signed_maintenance_intent (encode_signed_maintenance_intent (ca_signed (example_call 0))) =
    Some (ca_signed (example_call 0)).
Proof. by vm_compute. Qed.

End MaintenanceIntent.
