(* ===== verification/AgentProtocol.v ===== *)
(** The messages between the client's service and its desktop agent
    (client/include/nstu/agent_protocol.hpp, client/src/agent_protocol.cpp): their
    frame and its transport over the named pipe, the status, pairing and remote input
    payloads, and the service's bounded queue.

    The pipe (client/src/named_pipe.cpp, Win32 calls) is the class [Pipe]. *)

From S2P Require Import Prelude Wire Codec Protocol.
Import ReaderNotations.
#[local] Open Scope nstu_scope.

Module AgentProtocol.

(** ** Constants *)

Definition kAgentMagic : Z := 0x4350494e.
Definition kAgentVersion : Z := 1.
Definition kAgentHeaderBytes : Z := 12.
Definition kMaximumAgentPayloadBytes : Z := Protocol.kMaxCommandPayload.
Definition kMaximumPairingChoices : Z := 8.
Definition kMaximumPairingTextBytes : Z := 128.
Definition kSasDigits : Z := 6.
Definition kTelemetryCapacity : nat := 8.

(** The types of messages the definitions name; the others are the numbers between. *)
Definition type_lock : Z := 1.
Definition type_status_request : Z := 4.
Definition type_exam_telemetry_samples : Z := 37.
Definition type_host_broadcast_mode : Z := 41.

(** ** Data *)

Record AgentMessage := mkMessage { am_type : Z; am_payload : bytes }.

Record AgentPairingChoice := mkChoice { pch_server_name : bytes; pch_address : bytes; pch_port : Z }.

Record AgentPairingCode := mkCode { pco_code : bytes; pco_server_name : bytes }.

Record AgentPairingStatus := mkPairingStatus { pst_outcome : Z; pst_detail : bytes }.

Record AgentStatus := mkStatus {
  as_locked : bool;
  as_streaming : bool;
  as_snapshotting : bool;
  as_viewing_broadcast : bool;
  as_frames_per_second : Z;
  as_snapshot_interval_seconds : Z;
  as_session_id : Z
}.

(** [wire::RemoteInputPacket]; the coordinates are signed. *)
Record RemoteInputPacket := mkInput {
  ri_input_type : Z;
  ri_flags : Z;
  ri_x : Z;
  ri_y : Z;
  ri_virtual_key : Z;
  ri_reserved : Z;
  ri_mouse_data : Z
}.

#[export] Instance agent_message_eq_dec : EqDecision AgentMessage.
Proof. solve_decision. Defined.

(** ** Tests and texts *)

Definition valid_type (type : Z) : bool := (type >=? type_lock) && (type <=? type_host_broadcast_mode).

Definition printable_character (c : byte) : bool := (byte_val c >=? 0x20) && (byte_val c <? 0x7f).

Definition printable_text (s : bytes) (maximum : Z) : bool :=
  if bool_decide (s = []) || (len s >? maximum) then false else forallb printable_character s.

Definition digit_character (c : byte) : bool := (byte_val c >=? 48) && (byte_val c <=? 57).

(** The size is cast to sixteen bits. *)
Definition append_text (s : bytes) : bytes := write_le 2 (len s) ++ s.

Definition read_text : reader bytes :=
  length <- read_le 2 ;;
  guard (length <=? kMaximumPairingTextBytes) ;;
  read_bytes (Z.to_nat length).

(** ** The frame *)

Definition encode_agent_message (message : AgentMessage) : bytes :=
  if negb (valid_type (am_type message)) ||
     (len (am_payload message) >? kMaximumAgentPayloadBytes) then []
  else
    write_le 4 kAgentMagic ++ write_le 2 kAgentVersion ++ write_le 2 (am_type message) ++
    write_le 4 (len (am_payload message)) ++ am_payload message.

Definition agent_message_reader : reader AgentMessage :=
  magic <- read_le 4 ;;
  version <- read_le 2 ;;
  raw_type <- read_le 2 ;;
  payload_bytes <- read_le 4 ;;
  left <- rremaining ;;
  guard ((magic =? kAgentMagic) && (version =? kAgentVersion) &&
         (payload_bytes <=? kMaximumAgentPayloadBytes) && (left =? payload_bytes)) ;;
  guard (valid_type raw_type) ;;
  payload <- read_rest ;;
  rret (mkMessage raw_type payload).

Definition decode_agent_message (wire : bytes) : option AgentMessage :=
  if len wire <? kAgentHeaderBytes then None else run_reader agent_message_reader wire.

(** ** The payloads *)

Definition bool_byte (b : bool) : bytes := write_le 1 (if b then 1 else 0).

Definition encode_agent_status (status : AgentStatus) : bytes :=
  bool_byte (as_locked status) ++ bool_byte (as_streaming status) ++
  bool_byte (as_snapshotting status) ++ bool_byte (as_viewing_broadcast status) ++
  write_le 1 (as_frames_per_second status) ++ write_le 2 (as_snapshot_interval_seconds status) ++
  write_le 4 (as_session_id status).

(** The rates go with the activities. *)
Definition consistent_status (status : AgentStatus) : bool :=
  negb ((negb (as_streaming status) && negb (as_frames_per_second status =? 0)) ||
        (as_streaming status &&
         ((as_frames_per_second status <? 5) || (as_frames_per_second status >? 15))) ||
        (negb (as_snapshotting status) && negb (as_snapshot_interval_seconds status =? 0)) ||
        (as_snapshotting status &&
         ((as_snapshot_interval_seconds status <? 5) || (as_snapshot_interval_seconds status >? 10)))).

Definition read_flag : reader bool :=
  flag <- read_le 1 ;;
  guard (flag <=? 1) ;;
  rret (negb (flag =? 0)).

Definition agent_status_reader : reader AgentStatus :=
  locked <- read_flag ;;
  streaming <- read_flag ;;
  snapshotting <- read_flag ;;
  viewing_broadcast <- read_flag ;;
  frames_per_second <- read_le 1 ;;
  snapshot_interval_seconds <- read_le 2 ;;
  session_id <- read_le 4 ;;
  rret (mkStatus locked streaming snapshotting viewing_broadcast frames_per_second
          snapshot_interval_seconds session_id).

Definition decode_agent_status (payload : bytes) : option AgentStatus :=
  if negb (len payload =? 11) then None
  else
    match run_reader agent_status_reader payload with
    | Some status => if consistent_status status then Some status else None
    | None => None
    end.

Definition acceptable_choice (choice : AgentPairingChoice) : bool :=
  printable_text (pch_server_name choice) kMaximumPairingTextBytes &&
  printable_text (pch_address choice) kMaximumPairingTextBytes && negb (pch_port choice =? 0).

Definition encode_choice (choice : AgentPairingChoice) : bytes :=
  append_text (pch_server_name choice) ++ append_text (pch_address choice) ++
  write_le 2 (pch_port choice).

Definition encode_agent_pairing_choices (choices : list AgentPairingChoice) : bytes :=
  if bool_decide (choices = []) || (len choices >? kMaximumPairingChoices) then []
  else if forallb acceptable_choice choices
  then write_le 1 (len choices) ++ concat (map encode_choice choices)
  else [].

Definition choice_reader : reader AgentPairingChoice :=
  server_name <- read_text ;;
  address <- read_text ;;
  port <- read_le 2 ;;
  guard (acceptable_choice (mkChoice server_name address port)) ;;
  rret (mkChoice server_name address port).

Definition pairing_choices_reader : reader (list AgentPairingChoice) :=
  count <- read_le 1 ;;
  guard (negb (count =? 0) && (count <=? kMaximumPairingChoices)) ;;
  choices <- read_many (Z.to_nat count) choice_reader ;;
  left <- rremaining ;;
  guard (left =? 0) ;;
  rret choices.

Definition decode_agent_pairing_choices (payload : bytes) : option (list AgentPairingChoice) :=
  run_reader pairing_choices_reader payload.

Definition encode_agent_pairing_selection (choice_index : Z) : bytes :=
  if choice_index >=? kMaximumPairingChoices then [] else write_le 2 choice_index.

Definition pairing_selection_reader : reader Z :=
  choice_index <- read_le 2 ;;
  guard (negb (choice_index >=? kMaximumPairingChoices)) ;;
  rret choice_index.

Definition decode_agent_pairing_selection (payload : bytes) : option Z :=
  if negb (len payload =? 2) then None else run_reader pairing_selection_reader payload.

Definition acceptable_code (code : AgentPairingCode) : bool :=
  (len (pco_code code) =? kSasDigits) && forallb digit_character (pco_code code) &&
  printable_text (pco_server_name code) kMaximumPairingTextBytes.

Definition encode_agent_pairing_code (code : AgentPairingCode) : bytes :=
  if acceptable_code code then append_text (pco_code code) ++ append_text (pco_server_name code) else [].

Definition pairing_code_reader : reader AgentPairingCode :=
  code <- read_text ;;
  server_name <- read_text ;;
  left <- rremaining ;;
  guard ((left =? 0) && acceptable_code (mkCode code server_name)) ;;
  rret (mkCode code server_name).

Definition decode_agent_pairing_code (payload : bytes) : option AgentPairingCode :=
  run_reader pairing_code_reader payload.

Definition encode_agent_pairing_status (status : AgentPairingStatus) : bytes :=
  if printable_text (pst_detail status) kMaximumPairingTextBytes
  then write_le 1 (pst_outcome status) ++ append_text (pst_detail status) else [].

Definition pairing_status_reader : reader AgentPairingStatus :=
  outcome <- read_le 1 ;;
  detail <- read_text ;;
  left <- rremaining ;;
  guard ((left =? 0) && printable_text detail kMaximumPairingTextBytes) ;;
  rret (mkPairingStatus outcome detail).

Definition decode_agent_pairing_status (payload : bytes) : option AgentPairingStatus :=
  run_reader pairing_status_reader payload.

(** The value of a signed 32-bit integer's bytes. *)
Definition signed32 (v : Z) : Z := if v <? 2 ^ 31 then v else v - 2 ^ 32.

Definition acceptable_input (packet : RemoteInputPacket) : bool :=
  ((ri_input_type packet =? 1) || (ri_input_type packet =? 2)) && (ri_reserved packet =? 0).

(** The packed structure's bytes. *)
Definition encode_remote_input (packet : RemoteInputPacket) : bytes :=
  if acceptable_input packet then
    write_le 1 (ri_input_type packet) ++ write_le 1 (ri_flags packet) ++ write_le 4 (ri_x packet) ++
    write_le 4 (ri_y packet) ++ write_le 2 (ri_virtual_key packet) ++
    write_le 2 (ri_reserved packet) ++ write_le 4 (ri_mouse_data packet)
  else [].

Definition remote_input_reader : reader RemoteInputPacket :=
  input_type <- read_le 1 ;;
  flags <- read_le 1 ;;
  x <- read_le 4 ;;
  y <- read_le 4 ;;
  virtual_key <- read_le 2 ;;
  reserved <- read_le 2 ;;
  mouse_data <- read_le 4 ;;
  rret (mkInput input_type flags (signed32 x) (signed32 y) virtual_key reserved mouse_data).

Definition decode_remote_input (payload : bytes) : option RemoteInputPacket :=
  if negb (len payload =? 18) then None
  else
    match run_reader remote_input_reader payload with
    | Some packet => if acceptable_input packet then Some packet else None
    | None => None
    end.


(** ** The queue *)

Record AgentServiceQueue := mkQueue {
  aq_capacity : nat;
  aq_protected : list AgentMessage;
  aq_telemetry : list AgentMessage
}.

Definition empty_queue (capacity : nat) : AgentServiceQueue := mkQueue capacity [] [].

Definition telemetry (message : AgentMessage) : bool := am_type message =? type_exam_telemetry_samples.

(** The body of [push], on the deque it chose. *)
Definition push_into (capacity : nat) (queue : list AgentMessage) (message : AgentMessage) (front : bool)
    : list AgentMessage :=
  if (capacity =? 0)%nat || (len (am_payload message) >? kMaximumAgentPayloadBytes) then queue
  else
    let queue :=
      if (capacity <=? length queue)%nat then (if front then removelast queue else tail queue)
      else queue in
    if front then message :: queue else queue ++ [message].

Definition push (q : AgentServiceQueue) (message : AgentMessage) (front : bool) : AgentServiceQueue :=
  if telemetry message
  then mkQueue (aq_capacity q) (aq_protected q)
         (push_into kTelemetryCapacity (aq_telemetry q) message front)
  else mkQueue (aq_capacity q) (push_into (aq_capacity q) (aq_protected q) message front)
         (aq_telemetry q).

Definition take_pending (q : AgentServiceQueue) : list AgentMessage * AgentServiceQueue :=
  match aq_telemetry q with
  | [] => (aq_protected q, mkQueue (aq_capacity q) [] [])
  | sample :: rest => (aq_protected q ++ [sample], mkQueue (aq_capacity q) [] rest)
  end.

(** ** The pipe *)

(** [NamedPipe]: a read gives at most the bytes asked for, none at the end, or an
    error; a write gives the number of bytes written. *)
Class Pipe (P : Type) := {
  pipe_read : nat -> P -> result bytes * P;
  pipe_write : bytes -> P -> Z * P
}.

Section Transport.
Context {P : Type} {HP : Pipe P}.

(** Every turn takes at least one byte, so [want] turns are enough. *)
Fixpoint read_loop (fuel want : nat) (pipe : P) : result bytes * P :=
  match want with
  | O => (Ok [], pipe)
  | _ =>
      match fuel with
      | O => (Err "", pipe)
      | S fuel =>
          match pipe_read want pipe with
          | (Ok [], pipe) => (Err "", pipe)
          | (Err e, pipe) => (Err e, pipe)
          | (Ok data, pipe) =>
              match read_loop fuel (want - length data) pipe with
              | (Ok more, pipe) => (Ok (data ++ more), pipe)
              | (Err e, pipe) => (Err e, pipe)
              end
          end
      end
  end.

Definition read_exact (want : nat) (pipe : P) : result bytes * P := read_loop want want pipe.

Definition send_agent_message (pipe : P) (message : AgentMessage) : result unit * P :=
  let wire := encode_agent_message message in
  if bool_decide (wire = []) then (Err "agent message write failed", pipe)
  else
    let '(written, pipe) := pipe_write wire pipe in
    (if negb (written =? len wire) then Err "agent message write failed" else Ok tt, pipe).

Definition receive_agent_message (pipe : P) : result AgentMessage * P :=
  match read_exact (Z.to_nat kAgentHeaderBytes) pipe with
  | (Err e, pipe) => (Err e, pipe)
  | (Ok header, pipe) =>
      match read_le_at 4 header 8 with
      | None => (Err "invalid agent message length", pipe)
      | Some (payload_bytes, _) =>
          if payload_bytes >? kMaximumAgentPayloadBytes
          then (Err "invalid agent message length", pipe)
          else
            match (if payload_bytes =? 0 then (Ok [], pipe)
                   else read_exact (Z.to_nat payload_bytes) pipe) with
            | (Err e, pipe) => (Err e, pipe)
            | (Ok payload, pipe) =>
                match decode_agent_message (header ++ payload) with
                | None => (Err "invalid agent message", pipe)
                | Some message => (Ok message, pipe)
                end
            end
      end
  end.
End Transport.

(** ** The agent's sender (client/agent/main.cpp) *)

(** The queue, what a flush in progress has still to send, and the pipe.  What was
    queued and what was sent are histories that the code does not keep. *)
Record Sender (P : Type) := mkSender {
  sd_queue : AgentServiceQueue;
  sd_pending : list AgentMessage;
  sd_pipe : P;
  sd_queued : list AgentMessage;
  sd_sent : list AgentMessage
}.
#[global] Arguments mkSender {P}.
#[global] Arguments sd_queue {P}.
#[global] Arguments sd_pending {P}.
#[global] Arguments sd_pipe {P}.
#[global] Arguments sd_queued {P}.
#[global] Arguments sd_sent {P}.

Definition start_sender {P} (capacity : nat) (pipe : P) : Sender P :=
  mkSender (empty_queue capacity) [] pipe [] [].

(** The deliveries of [flush_service_messages], as other threads see them: it takes
    what is pending; it sends one message, or puts back what is unsent; between any
    two of these another thread may queue a message. *)
Inductive SenderEvent := ev_queue (message : AgentMessage) | ev_take | ev_send.

Section Sending.
Context {P : Type} {HP : Pipe P}.

Definition queue_service_message (sd : Sender P) (message : AgentMessage) : Sender P :=
  if len (am_payload message) >? kMaximumAgentPayloadBytes then sd
  else
    mkSender (push (sd_queue sd) message false) (sd_pending sd) (sd_pipe sd)
      (sd_queued sd ++ [message]) (sd_sent sd).

(** From the last to the first, then the message whose sending failed. *)
Definition put_back (q : AgentServiceQueue) (message : AgentMessage) (pending : list AgentMessage)
    : AgentServiceQueue :=
  push (foldr (fun m q => push q m true) q pending) message true.

Definition flush_step (sd : Sender P) : Sender P :=
  match sd_pending sd with
  | [] => sd
  | message :: pending =>
      match send_agent_message (sd_pipe sd) message with
      | (Ok _, pipe) =>
          mkSender (sd_queue sd) pending pipe (sd_queued sd) (sd_sent sd ++ [message])
      | (Err _, pipe) =>
          mkSender (put_back (sd_queue sd) message pending) [] pipe (sd_queued sd) (sd_sent sd)
      end
  end.

(** A flush starts when none is in progress. *)
Definition begin_flush (sd : Sender P) : Sender P :=
  match sd_pending sd with
  | [] =>
      let '(pending, q) := take_pending (sd_queue sd) in
      mkSender q pending (sd_pipe sd) (sd_queued sd) (sd_sent sd)
  | _ => sd
  end.

Definition sender_step (sd : Sender P) (e : SenderEvent) : Sender P :=
  match e with
  | ev_queue message => queue_service_message sd message
  | ev_take => begin_flush sd
  | ev_send => flush_step sd
  end.

Definition sender_run (sd : Sender P) (events : list SenderEvent) : Sender P :=
  foldl sender_step sd events.
End Sending.

(** ** Codecs *)

Lemma printable_size s n : printable_text s n = true -> 0 < len s <= n.
Proof.
  unfold printable_text. destruct (bool_decide _ || _) eqn:E; [done|]. intros _. bool_to_prop.
  destruct s as [|c s]; [done|]. rewrite len_cons in *. pose proof (len_nonneg s). lia.
Qed.

Lemma pairing_text_append s rest :
  len s <= kMaximumPairingTextBytes -> read_text (append_text s ++ rest) = Some (s, rest).
Proof.
  intros Hs. pose proof (len_nonneg s). unfold kMaximumPairingTextBytes in *.
  unfold read_text, append_text. rewrite <- app_assoc.
  assert (len s <=? kMaximumPairingTextBytes = true) as Hg by (unfold kMaximumPairingTextBytes; lia).
  reader_run. apply read_bytes_app. unfold len. lia.
Qed.

Lemma pairing_text_inv input s rest :
  read_text input = Some (s, rest) -> input = append_text s ++ rest /\ len s <= kMaximumPairingTextBytes.
Proof.
  unfold read_text. intros E. reader_inv. bool_to_prop.
  assert (x = len s) as -> by (unfold len; ulia). unfold append_text. by rewrite <- app_assoc.
Qed.

Lemma rbind_text {B} s rest (k : bytes -> reader B) :
  len s <= kMaximumPairingTextBytes -> rbind read_text k (append_text s ++ rest) = k s rest.
Proof. intros Hs. unfold rbind. by rewrite pairing_text_append. Qed.

Lemma rbind_text_end {B} s (k : bytes -> reader B) :
  len s <= kMaximumPairingTextBytes -> rbind read_text k (append_text s) = k s [].
Proof. intros Hs. rewrite <- (app_nil_r (append_text s)). by apply rbind_text. Qed.

Definition wf_message (m : AgentMessage) : Prop :=
  valid_type (am_type m) = true /\ len (am_payload m) <= kMaximumAgentPayloadBytes.

#[export] Program Instance agent_message_codec : Codec AgentMessage := {|
  encode := encode_agent_message; decode := decode_agent_message; valid := wf_message |}.
Next Obligation.
  intros m [Ht Hl]. pose proof (len_nonneg (am_payload m)). pose proof Ht as Hr.
  unfold valid_type, type_lock, type_host_broadcast_mode in Hr. bool_to_prop.
  unfold kMaximumAgentPayloadBytes, Protocol.kMaxCommandPayload in *.
  unfold encode_agent_message, decode_agent_message, kMaximumAgentPayloadBytes, Protocol.kMaxCommandPayload.
  rewrite Ht. cbn [negb orb].
  match goal with |- context [?a >? ?b] => destruct (Z.gtb_spec a b); [lia|] end.
  autorewrite with wire. unfold kAgentHeaderBytes.
  match goal with |- context [?a <? 12] => destruct (Z.ltb_spec a 12); [lia|] end.
  assert ((kAgentMagic =? kAgentMagic) && (kAgentVersion =? kAgentVersion) &&
    (len (am_payload m) <=? kMaximumAgentPayloadBytes) &&
    (len (am_payload m) =? len (am_payload m)) = true) as Hg.
  { unfold kMaximumAgentPayloadBytes, Protocol.kMaxCommandPayload. rewrite !Z.eqb_refl. cbn [andb]. lia. }
  unfold run_reader, agent_message_reader. reader_run. by destruct m.
Qed.
Next Obligation.
  intros w m. unfold decode_agent_message. destruct (_ <? _); [done|]. intros E.
  unfold agent_message_reader in E. reader_inv. bool_to_prop. subst.
  match goal with K : valid_type _ = true |- _ => pose proof K as Ht end.
  split; [done|]. unfold encode_agent_message; cbn [am_type am_payload]. rewrite Ht. cbn [negb orb].
  match goal with |- context [?a >? ?b] => destruct (Z.gtb_spec a b); [lia|] end. done.
Qed.

Lemma read_flag_bit b rest : read_flag (bool_byte b ++ rest) = Some (b, rest).
Proof. unfold read_flag, bool_byte. destruct b; reader_run; done. Qed.

Lemma read_flag_inv input b rest : read_flag input = Some (b, rest) -> input = bool_byte b ++ rest.
Proof.
  unfold read_flag, bool_byte. intros E. reader_inv. bool_to_prop.
  match goal with |- context [negb (?x =? 0)] => assert (x = 0 \/ x = 1) as [-> | ->] by ulia; done end.
Qed.

Definition wf_agent_status (s : AgentStatus) : Prop :=
  consistent_status s = true /\ u32 (as_session_id s).

Lemma consistent_rates s :
  consistent_status s = true -> 0 <= as_frames_per_second s <= 15 /\ 0 <= as_snapshot_interval_seconds s <= 10.
Proof.
  unfold consistent_status. intros H. apply negb_true_iff in H.
  repeat match goal with K : _ || _ = false |- _ => apply orb_false_iff in K as [K ?] end.
  destruct (as_streaming s), (as_snapshotting s); cbn in *; bool_to_prop; lia.
Qed.

Lemma rbind_flag {B} b rest (k : bool -> reader B) : rbind read_flag k (bool_byte b ++ rest) = k b rest.
Proof. unfold rbind. by rewrite read_flag_bit. Qed.

Lemma len_bool_byte b : len (bool_byte b) = 1.
Proof. unfold bool_byte. by rewrite len_write_le. Qed.

#[export] Program Instance agent_status_codec : Codec AgentStatus := {|
  encode := encode_agent_status; decode := decode_agent_status; valid := wf_agent_status |}.
Next Obligation.
  intros s [Hc Hs]. pose proof (consistent_rates s Hc) as [Hf Hi].
  unfold decode_agent_status, encode_agent_status. autorewrite with wire. rewrite !len_bool_byte.
  cbn [Z.eqb Z.add negb]. unfold run_reader, agent_status_reader. rewrite !rbind_flag. reader_run.
  destruct s; cbn in *. by rewrite Hc.
Qed.
Next Obligation.
  intros w s. unfold decode_agent_status. destruct (negb _) eqn:El; [done|].
  destruct (run_reader _ _) as [t|] eqn:E; [|done]. destruct (consistent_status t) eqn:Hc; [|done].
  intros [= <-]. unfold agent_status_reader in E. reader_inv.
  repeat match goal with K : read_flag _ = Some _ |- _ => apply read_flag_inv in K as -> end.
  apply negb_false_iff, Z.eqb_eq in El. rewrite ?len_app, ?len_bool_byte in El. no_rest.
  split; [split; [done|]|]; [done|]. unfold encode_agent_status; cbn. by rewrite ?app_nil_r.
Qed.

Definition wf_choice (c : AgentPairingChoice) : Prop := acceptable_choice c = true /\ u16 (pch_port c).

Lemma acceptable_sizes c :
  acceptable_choice c = true ->
  len (pch_server_name c) <= kMaximumPairingTextBytes /\ len (pch_address c) <= kMaximumPairingTextBytes.
Proof.
  unfold acceptable_choice. intros H. apply andb_true_iff in H as [[Hn Ha]%andb_true_iff _].
  apply printable_size in Hn, Ha. lia.
Qed.

Lemma choice_reader_run c rest : wf_choice c -> choice_reader (encode_choice c ++ rest) = Some (c, rest).
Proof.
  destruct c as [name address port]. intros [Hc Hp]. pose proof (acceptable_sizes _ Hc) as [Hn Ha].
  cbn in *. unfold choice_reader, encode_choice; cbn. rewrite <- !app_assoc.
  rewrite rbind_text by done. rewrite rbind_text by done. reader_run. done.
Qed.

Lemma choice_reader_inv input c rest :
  choice_reader input = Some (c, rest) -> wf_choice c /\ input = encode_choice c ++ rest.
Proof.
  unfold choice_reader. intros E. reader_inv.
  repeat match goal with K : read_text _ = Some _ |- _ => apply pairing_text_inv in K as [-> ?] end.
  unfold encode_choice; cbn. by rewrite <- !app_assoc.
Qed.

Definition wf_choices (l : list AgentPairingChoice) : Prop :=
  0 < len l <= kMaximumPairingChoices /\ Forall wf_choice l.

#[export] Program Instance pairing_choices_codec : Codec (list AgentPairingChoice) := {|
  encode := encode_agent_pairing_choices; decode := decode_agent_pairing_choices; valid := wf_choices |}.
Next Obligation.
  intros l [Hl Hw]. unfold kMaximumPairingChoices in *.
  unfold decode_agent_pairing_choices, encode_agent_pairing_choices, kMaximumPairingChoices.
  rewrite bool_decide_false by (intros ->; by destruct Hl).
  destruct (Z.gtb_spec (len l) 8); [lia|]. cbn [orb].
  assert (forallb acceptable_choice l = true) as ->.
  { apply forallb_forall. intros c Hc%list_elem_of_In. by apply (proj1 (Forall_forall _ _) Hw). }
  unfold run_reader, pairing_choices_reader.
  assert (negb (len l =? 0) && (len l <=? kMaximumPairingChoices) = true) as Hg.
  { unfold kMaximumPairingChoices. destruct (Z.eqb_spec (len l) 0); [lia|]. cbn. lia. }
  reader_run. unfold rbind at 1. replace (Z.to_nat (len l)) with (length l) by (unfold len; lia).
  rewrite <- (app_nil_r (concat _)), (read_many_concat choice_reader encode_choice).
  - reader_run. done.
  - intros c r Hc. apply choice_reader_run. by apply (proj1 (Forall_forall _ _) Hw).
Qed.
Next Obligation.
  intros w l E. unfold decode_agent_pairing_choices, pairing_choices_reader in E. reader_inv.
  match goal with K : read_many _ _ _ = Some _ |- _ =>
    apply (read_many_inv _ encode_choice wf_choice) in K as (Hw & -> & Hn); [|exact choice_reader_inv] end.
  bool_to_prop. match type of Hn with length ?l = Z.to_nat ?x =>
    rename l into choices; assert (x = len choices) as -> by (unfold len; ulia) end.
  unfold kMaximumPairingChoices in *. pose proof (len_nonneg choices). no_rest.
  split; [split; [unfold kMaximumPairingChoices; lia|done]|].
  unfold encode_agent_pairing_choices, kMaximumPairingChoices.
  rewrite bool_decide_false by (intros ->; done).
  destruct (Z.gtb_spec (len choices) 8); [lia|]. cbn [orb].
  assert (forallb acceptable_choice choices = true) as ->.
  { apply forallb_forall. intros c Hc%list_elem_of_In. by apply (proj1 (Forall_forall _ _) Hw). }
  by rewrite app_nil_r.
Qed.

#[export] Program Instance pairing_selection_codec : Codec Z := {|
  encode := encode_agent_pairing_selection; decode := decode_agent_pairing_selection;
  valid := fun index => 0 <= index < kMaximumPairingChoices |}.
Next Obligation.
  intros i Hi. unfold kMaximumPairingChoices in *.
  unfold decode_agent_pairing_selection, encode_agent_pairing_selection, kMaximumPairingChoices.
  destruct (Z.geb_spec i 8) as [|Hlt]; [lia|]. rewrite len_write_le. cbn [Z.of_nat negb Z.eqb].
  assert (negb (i >=? kMaximumPairingChoices) = true) as Hg
    by (unfold kMaximumPairingChoices; destruct (Z.geb_spec i 8); [lia|done]).
  unfold run_reader, pairing_selection_reader. reader_run. done.
Qed.
Next Obligation.
  intros w i. unfold decode_agent_pairing_selection. destruct (negb _) eqn:El; [done|]. intros E.
  unfold pairing_selection_reader in E. reader_inv. bool_to_prop. no_rest.
  unfold encode_agent_pairing_selection, kMaximumPairingChoices in *. rewrite app_nil_r.
  split; [ulia|]. match goal with |- context [?a >=? 8] => destruct (Z.geb_spec a 8); [lia|done] end.
Qed.

#[export] Program Instance agent_code_codec : Codec AgentPairingCode := {|
  encode := encode_agent_pairing_code; decode := decode_agent_pairing_code;
  valid := fun code => acceptable_code code = true |}.
Next Obligation.
  intros c Hc. pose proof Hc as H. unfold acceptable_code in H.
  apply andb_true_iff in H as [[Hl _]%andb_true_iff Hn%printable_size]. bool_to_prop.
  unfold decode_agent_pairing_code, encode_agent_pairing_code. rewrite Hc.
  unfold run_reader, pairing_code_reader. unfold kSasDigits in Hl.
  rewrite rbind_text by (unfold kMaximumPairingTextBytes; lia). rewrite rbind_text_end by lia.
  destruct c as [code name]; cbn in *.
  assert ((len (@nil byte) =? 0) && acceptable_code (mkCode code name) = true) as Hg
    by by rewrite Hc.
  reader_run. done.
Qed.
Next Obligation.
  intros w c E. unfold decode_agent_pairing_code, pairing_code_reader in E. reader_inv.
  repeat match goal with K : read_text _ = Some _ |- _ => apply pairing_text_inv in K as [-> ?] end.
  match goal with K : _ && acceptable_code _ = true |- _ => apply andb_true_iff in K as [Hl%Z.eqb_eq Hc] end.
  apply len_zero in Hl as ->. split; [done|]. unfold encode_agent_pairing_code. rewrite Hc. cbn.
  by rewrite app_nil_r.
Qed.

Definition wf_pairing_status (s : AgentPairingStatus) : Prop :=
  u8 (pst_outcome s) /\ printable_text (pst_detail s) kMaximumPairingTextBytes = true.

#[export] Program Instance agent_pairing_status_codec : Codec AgentPairingStatus := {|
  encode := encode_agent_pairing_status; decode := decode_agent_pairing_status;
  valid := wf_pairing_status |}.
Next Obligation.
  intros [outcome detail] [Ho Hd]; cbn in *. pose proof (printable_size _ _ Hd) as Hl.
  unfold decode_agent_pairing_status, encode_agent_pairing_status; cbn. rewrite Hd.
  assert ((len (@nil byte) =? 0) && printable_text detail kMaximumPairingTextBytes = true) as Hg
    by by rewrite Hd.
  unfold run_reader, pairing_status_reader. reader_run. rewrite rbind_text_end by lia. reader_run. done.
Qed.
Next Obligation.
  intros w s E. unfold decode_agent_pairing_status, pairing_status_reader in E. reader_inv.
  repeat match goal with K : read_text _ = Some _ |- _ => apply pairing_text_inv in K as [-> ?] end.
  match goal with K : _ && printable_text _ _ = true |- _ => apply andb_true_iff in K as [Hl%Z.eqb_eq Hd] end.
  apply len_zero in Hl as ->. split; [done|]. unfold encode_agent_pairing_status; cbn. rewrite Hd.
  by rewrite app_nil_r.
Qed.

Definition wf_input (p : RemoteInputPacket) : Prop :=
  acceptable_input p = true /\ u8 (ri_flags p) /\ - 2 ^ 31 <= ri_x p < 2 ^ 31 /\
  - 2 ^ 31 <= ri_y p < 2 ^ 31 /\ u16 (ri_virtual_key p) /\ u32 (ri_mouse_data p).

Lemma write_le_mod v : write_le 4 v = write_le 4 (v mod 2 ^ 32).
Proof.
  rewrite <- (write_le_value (write_le 4 v)) at 1. by rewrite length_write_le, le_value_write.
Qed.

Lemma signed32_write v : u32 v -> write_le 4 (signed32 v) = write_le 4 v.
Proof.
  intros Hv. rewrite urange4 in Hv. rewrite write_le_mod. unfold signed32. f_equal.
  destruct (Z.ltb_spec v (2 ^ 31)); [by apply Z.mod_small|].
  rewrite <- (Z.mod_small v (2 ^ 32)) at 2 by done. rewrite <- (Z_mod_plus_full _ 1). f_equal. lia.
Qed.

Lemma signed32_range v : u32 v -> - 2 ^ 31 <= signed32 v < 2 ^ 31.
Proof. rewrite urange4. unfold signed32. destruct (Z.ltb_spec v (2 ^ 31)); lia. Qed.

Lemma signed32_mod v : - 2 ^ 31 <= v < 2 ^ 31 -> u32 (v mod 2 ^ 32) /\ signed32 (v mod 2 ^ 32) = v.
Proof.
  intros Hv. split; [apply urange4, Z.mod_pos_bound; lia|]. unfold signed32.
  destruct (Z.le_gt_cases 0 v) as [H0|H0].
  - rewrite Z.mod_small by lia. destruct (Z.ltb_spec v (2 ^ 31)); lia.
  - rewrite <- (Z_mod_plus_full v 1), Z.mod_small by lia. destruct (Z.ltb_spec (v + 1 * 2 ^ 32) (2 ^ 31)); lia.
Qed.

#[export] Program Instance remote_input_codec : Codec RemoteInputPacket := {|
  encode := encode_remote_input; decode := decode_remote_input; valid := wf_input |}.
Next Obligation.
  intros p (Ha & Hf & Hx & Hy & Hk & Hm). pose proof Ha as Hb. unfold acceptable_input in Hb.
  apply andb_true_iff in Hb as [Ht%orb_true_iff Hr%Z.eqb_eq]. rewrite !Z.eqb_eq in Ht.
  destruct (signed32_mod _ Hx) as [Hxu Hxs], (signed32_mod _ Hy) as [Hyu Hys].
  unfold decode_remote_input, encode_remote_input. rewrite Ha. autorewrite with wire.
  cbn [Z.of_nat Z.eqb Z.add negb]. unfold run_reader, remote_input_reader.
  rewrite (write_le_mod (ri_x p)), (write_le_mod (ri_y p)). reader_run. rewrite Hxs, Hys.
  destruct p; cbn in *. by rewrite Ha.
Qed.
Next Obligation.
  intros w p. unfold decode_remote_input. destruct (negb _) eqn:El; [done|].
  destruct (run_reader _ _) as [q|] eqn:E; [|done]. destruct (acceptable_input q) eqn:Ha; [|done].
  intros [= <-]. unfold remote_input_reader in E. reader_inv. bool_to_prop. no_rest. split.
  - unfold wf_input; cbn. split_and!; try done; by apply signed32_range.
  - unfold encode_remote_input. rewrite Ha. cbn. by rewrite !signed32_write, app_nil_r.
Qed.

(** ** The queue's order *)

Definition prot (l : list AgentMessage) : list AgentMessage := filter (fun m => telemetry m = false) l.
Definition tele (l : list AgentMessage) : list AgentMessage := filter (fun m => telemetry m = true) l.

Lemma prot_app l k : prot (l ++ k) = prot l ++ prot k.
Proof. apply filter_app. Qed.

Lemma tele_app l k : tele (l ++ k) = tele l ++ tele k.
Proof. apply filter_app. Qed.

Lemma prot_cons m l : prot (m :: l) = (if telemetry m then [] else [m]) ++ prot l.
Proof. unfold prot. rewrite filter_cons. by destruct (telemetry m). Qed.

Lemma tele_cons m l : tele (m :: l) = (if telemetry m then [m] else []) ++ tele l.
Proof. unfold tele. rewrite filter_cons. by destruct (telemetry m). Qed.

Lemma removelast_sublist {A} (l : list A) : sublist (removelast l) l.
Proof. rewrite removelast_firstn_len. apply sublist_take. Qed.

(** An insertion drops messages at the other end, and never reorders. *)
Lemma push_front_sublist capacity q m : sublist (push_into capacity q m true) (m :: q).
Proof.
  unfold push_into. destruct (_ || _); [by apply sublist_cons|].
  destruct (_ <=? _)%nat; [apply sublist_skip, removelast_sublist|done].
Qed.

Lemma push_back_sublist capacity q m : sublist (push_into capacity q m false) (q ++ [m]).
Proof.
  unfold push_into. destruct (_ || _); [by apply sublist_inserts_r|].
  destruct (_ <=? _)%nat; [|done]. apply sublist_app; [|done].
  by destruct q; [|apply sublist_cons].
Qed.

Lemma push_into_bounded capacity q m front :
  (length q <= capacity)%nat -> (length (push_into capacity q m front) <= capacity)%nat.
Proof.
  intros Hq. unfold push_into. destruct ((capacity =? 0)%nat || _) eqn:E; [done|].
  apply orb_false_iff in E as [E%Nat.eqb_neq _].
  destruct (Nat.leb_spec capacity (length q)) as [Hle|Hlt].
  - destruct front; cbn [length]; rewrite ?length_app; cbn [length].
    + rewrite removelast_firstn_len, length_take. lia.
    + destruct q; cbn in *; lia.
  - destruct front; cbn [length]; rewrite ?length_app; cbn [length]; lia.
Qed.

(** With room nothing is dropped. *)
Lemma push_into_room capacity q m front :
  (length q < capacity)%nat -> len (am_payload m) <= kMaximumAgentPayloadBytes ->
  push_into capacity q m front = if front then m :: q else q ++ [m].
Proof.
  intros Hq Hm. unfold push_into. destruct (Nat.eqb_spec capacity 0); [lia|].
  destruct (Z.gtb_spec (len (am_payload m)) kMaximumAgentPayloadBytes); [lia|]. cbn [orb].
  destruct (Nat.leb_spec capacity (length q)); [lia|done].
Qed.

Lemma push_capacity q m front : aq_capacity (push q m front) = aq_capacity q.
Proof. unfold push. by destruct (telemetry m). Qed.

Lemma push_protected q m front :
  aq_protected (push q m front) =
  if telemetry m then aq_protected q else push_into (aq_capacity q) (aq_protected q) m front.
Proof. unfold push. by destruct (telemetry m). Qed.

Lemma push_telemetry q m front :
  aq_telemetry (push q m front) =
  if telemetry m then push_into kTelemetryCapacity (aq_telemetry q) m front else aq_telemetry q.
Proof. unfold push. by destruct (telemetry m). Qed.

Lemma put_back_eq q m pending : put_back q m pending = foldr (fun m q => push q m true) q (m :: pending).
Proof. done. Qed.

Lemma returned_capacity q l : aq_capacity (foldr (fun m q => push q m true) q l) = aq_capacity q.
Proof. induction l as [|m l IH]; [done|]. cbn [foldr]. by rewrite push_capacity. Qed.

(** Messages put back stand before the queued ones, in their order. *)
Lemma returned_sublist q l :
  sublist (aq_protected (foldr (fun m q => push q m true) q l)) (prot l ++ aq_protected q) /\
  sublist (aq_telemetry (foldr (fun m q => push q m true) q l)) (tele l ++ aq_telemetry q).
Proof.
  induction l as [|m l [IHp IHt]]; [done|]. cbn [foldr]. rewrite prot_cons, tele_cons.
  rewrite push_protected, push_telemetry. destruct (telemetry m); cbn [app]; (split; [try done|try done]);
    (etrans; [apply push_front_sublist|by apply sublist_skip]).
Qed.

Lemma returned_bounded q l :
  (length (aq_protected q) <= aq_capacity q)%nat -> (length (aq_telemetry q) <= kTelemetryCapacity)%nat ->
  let q' := foldr (fun m q => push q m true) q l in
  (length (aq_protected q') <= aq_capacity q)%nat /\ (length (aq_telemetry q') <= kTelemetryCapacity)%nat.
Proof.
  intros Hp Ht. induction l as [|m l [IHp IHt]]; [done|]. cbn [foldr].
  rewrite push_protected, push_telemetry. destruct (telemetry m); (split; [try done|try done]);
    rewrite ?returned_capacity; by apply push_into_bounded.
Qed.

Lemma returned_room q l :
  (length (prot l) + length (aq_protected q) <= aq_capacity q)%nat ->
  Forall (fun m => len (am_payload m) <= kMaximumAgentPayloadBytes) l ->
  aq_protected (foldr (fun m q => push q m true) q l) = prot l ++ aq_protected q.
Proof.
  intros Hl Hs. induction Hs as [|m l Hm _ IH]; [done|]. rewrite prot_cons, length_app in Hl.
  cbn [foldr]. rewrite prot_cons, push_protected. destruct (telemetry m); cbn [app length] in *.
  - apply IH. lia.
  - rewrite IH by lia. rewrite returned_capacity. apply push_into_room; [rewrite length_app; lia|done].
Qed.

(** ** The sender's invariant *)

Definition small (m : AgentMessage) : Prop := len (am_payload m) <= kMaximumAgentPayloadBytes.

Definition queue_ok (capacity : nat) (q : AgentServiceQueue) : Prop :=
  aq_capacity q = capacity /\ Forall small (aq_protected q) /\ Forall small (aq_telemetry q) /\
  prot (aq_protected q) = aq_protected q /\ tele (aq_telemetry q) = aq_telemetry q /\
  (length (aq_protected q) <= capacity)%nat /\ (length (aq_telemetry q) <= kTelemetryCapacity)%nat.

Definition ordered {P} (sd : Sender P) : Prop :=
  sublist (prot (sd_sent sd ++ sd_pending sd) ++ aq_protected (sd_queue sd)) (prot (sd_queued sd)) /\
  sublist (tele (sd_sent sd ++ sd_pending sd) ++ aq_telemetry (sd_queue sd)) (tele (sd_queued sd)).

Definition sender_ok {P} (capacity : nat) (sd : Sender P) : Prop :=
  queue_ok capacity (sd_queue sd) /\ Forall small (sd_pending sd) /\ Forall wf_message (sd_sent sd) /\
  ordered sd.

(** The protected messages that wait to be sent. *)
Definition waiting {P} (sd : Sender P) : nat :=
  (length (prot (sd_pending sd)) + length (aq_protected (sd_queue sd)))%nat.

Definition nothing_lost {P} (capacity : nat) (sd : Sender P) : Prop :=
  prot (sd_sent sd ++ sd_pending sd) ++ aq_protected (sd_queue sd) = prot (sd_queued sd) /\
  (waiting sd <= capacity)%nat.

Lemma prot_idem l : Forall (fun m => telemetry m = false) l <-> prot l = l.
Proof.
  unfold prot. split.
  - intros Hl. induction Hl as [|m l Hm _ IH]; [done|]. rewrite filter_cons_True by done. by rewrite IH.
  - intros <-. apply Forall_forall. intros m [Hm _]%list_elem_of_filter. done.
Qed.

Lemma tele_idem l : Forall (fun m => telemetry m = true) l <-> tele l = l.
Proof.
  unfold tele. split.
  - intros Hl. induction Hl as [|m l Hm _ IH]; [done|]. rewrite filter_cons_True by done. by rewrite IH.
  - intros <-. apply Forall_forall. intros m [Hm _]%list_elem_of_filter. done.
Qed.

Lemma prot_tele l : tele l = l -> prot l = [].
Proof.
  intros Hl%tele_idem. induction Hl as [|m l Hm _ IH]; [done|]. by rewrite prot_cons, Hm, IH.
Qed.

Lemma tele_prot l : prot l = l -> tele l = [].
Proof.
  intros Hl%prot_idem. induction Hl as [|m l Hm _ IH]; [done|]. by rewrite tele_cons, Hm, IH.
Qed.

Lemma sublist_Forall {A} (Q : A -> Prop) l k : sublist l k -> Forall Q k -> Forall Q l.
Proof.
  intros Hs. induction Hs as [|x l k _ IH|x l k _ IH]; [done|..]; intros [Hx Hk]%Forall_cons;
    [constructor|]; auto.
Qed.

Lemma prot_prot l : prot (prot l) = prot l.
Proof. apply prot_idem, Forall_forall. intros m [Hm _]%list_elem_of_filter. done. Qed.

Lemma tele_tele l : tele (tele l) = tele l.
Proof. apply tele_idem, Forall_forall. intros m [Hm _]%list_elem_of_filter. done. Qed.

(** Every insertion keeps the queue in order. *)
Lemma push_ok capacity q m front : queue_ok capacity q -> small m -> queue_ok capacity (push q m front).
Proof.
  intros (Hc & Hp & Ht & Pp & Tt & Lp & Lt) Hm. unfold queue_ok.
  rewrite push_capacity, push_protected, push_telemetry.
  assert (forall n l, Forall small l -> Forall small (push_into n l m front)) as Hs.
  { intros n l Hl. destruct front.
    - eapply sublist_Forall; [apply push_front_sublist|by constructor].
    - eapply sublist_Forall; [apply push_back_sublist|apply Forall_app_2; [done|by repeat constructor]]. }
  destruct (telemetry m) eqn:Em; split_and!; try done; try (by apply Hs);
    try (rewrite Hc; by apply push_into_bounded); try (by apply push_into_bounded).
  - apply tele_idem. destruct front.
    + eapply sublist_Forall; [apply push_front_sublist|]. constructor; [done|by apply tele_idem].
    + eapply sublist_Forall; [apply push_back_sublist|].
      apply Forall_app_2; [by apply tele_idem|by repeat constructor].
  - apply prot_idem. destruct front.
    + eapply sublist_Forall; [apply push_front_sublist|]. constructor; [done|by apply prot_idem].
    + eapply sublist_Forall; [apply push_back_sublist|].
      apply Forall_app_2; [by apply prot_idem|by repeat constructor].
Qed.

Lemma returned_ok capacity q l :
  queue_ok capacity q -> Forall small l -> queue_ok capacity (foldr (fun m q => push q m true) q l).
Proof. intros Hq Hl. induction Hl as [|m l Hm _ IH]; [done|]. cbn [foldr]. by apply push_ok. Qed.

(** A message is sent when its encoding is written in full, which it has only when it
    is valid. *)
Lemma send_valid {P} `{Pipe P} (pipe pipe' : P) m :
  send_agent_message pipe m = (Ok tt, pipe') ->
  wf_message m /\ pipe_write (encode_agent_message m) pipe = (len (encode_agent_message m), pipe').
Proof.
  unfold send_agent_message. case_bool_decide as Hw; [done|]. destruct (pipe_write _ _) as [n p].
  destruct (Z.eqb_spec n (len (encode_agent_message m))) as [->|]; [|done]. intros [= <-]. split; [|done].
  unfold encode_agent_message in Hw. destruct (_ || _) eqn:E; [done|]. apply orb_false_iff in E as [Ht Hl].
  apply negb_false_iff in Ht. split; [done|]. by bool_to_prop.
Qed.

Lemma take_pending_spec capacity q :
  queue_ok capacity q ->
  let '(pending, q') := take_pending q in
  queue_ok capacity q' /\ Forall small pending /\ prot pending ++ aq_protected q' = aq_protected q /\
  tele pending ++ aq_telemetry q' = aq_telemetry q /\ aq_protected q' = [].
Proof.
  intros (Hc & Hp & Ht & Pp & Tt & Lp & Lt). pose proof (tele_prot _ Pp) as Hpt.
  unfold take_pending. destruct (aq_telemetry q) as [|x rest].
  - rewrite Pp, Hpt, !app_nil_r. unfold queue_ok; cbn. by (split_and!; try done; lia).
  - apply Forall_cons in Ht as [Hx Hr]. apply tele_idem in Tt as [Hxt Hrt]%Forall_cons.
    rewrite prot_app, tele_app, Pp, Hpt, prot_cons, tele_cons, Hxt. cbn. rewrite !app_nil_r.
    unfold queue_ok; cbn [aq_capacity aq_protected aq_telemetry length] in *.
    split_and!; try done; try lia; [by apply tele_idem|]. apply Forall_app_2; [done|by repeat constructor].
Qed.

Section Order.
Context {P : Type} {HP : Pipe P}.
Implicit Types sd : Sender P.

Lemma ordered_queued sd m :
  ordered sd -> ordered (mkSender (push (sd_queue sd) m false) (sd_pending sd) (sd_pipe sd)
    (sd_queued sd ++ [m]) (sd_sent sd)).
Proof.
  intros [Hp Ht]. unfold ordered; cbn [sd_queue sd_pending sd_queued sd_sent].
  rewrite push_protected, push_telemetry, (prot_app (sd_queued sd)), (tele_app (sd_queued sd)),
    prot_cons, tele_cons. cbn [app].
  destruct (telemetry m); (change (prot []) with (@nil AgentMessage) || idtac);
    cbn [app]; change (prot []) with (@nil AgentMessage); change (tele []) with (@nil AgentMessage);
    rewrite ?app_nil_r; (split; [try done|try done]);
    (etrans; [apply sublist_app; [reflexivity|apply push_back_sublist]|]);
    rewrite app_assoc; by apply sublist_app.
Qed.

Lemma ordered_returned sd m pending (pipe : P) :
  sd_pending sd = m :: pending -> ordered sd ->
  ordered (mkSender (put_back (sd_queue sd) m pending) [] pipe (sd_queued sd) (sd_sent sd)).
Proof.
  intros E [Hp Ht]. rewrite E in Hp, Ht. unfold ordered; cbn [sd_queue sd_pending sd_queued sd_sent].
  rewrite app_nil_r, put_back_eq. destruct (returned_sublist (sd_queue sd) (m :: pending)) as [Rp Rt].
  rewrite prot_app, <- app_assoc in Hp. rewrite tele_app, <- app_assoc in Ht.
  split; (etrans; [apply sublist_app; [reflexivity|eassumption]|done]).
Qed.

Lemma sender_step_ok capacity sd e : sender_ok capacity sd -> sender_ok capacity (sender_step sd e).
Proof.
  intros Hok. pose proof Hok as (Hq & Hs & Hw & Ho). destruct e as [m| |]; cbn [sender_step].
  - unfold queue_service_message. destruct (Z.gtb_spec (len (am_payload m)) kMaximumAgentPayloadBytes) as [|Hm];
      [done|]. split_and!; try done; [by apply push_ok|by apply ordered_queued].
  - unfold begin_flush. destruct (sd_pending sd) eqn:E; [|done].
    pose proof (take_pending_spec capacity _ Hq) as Htake. destruct (take_pending _) as [pending q'].
    destruct Htake as (Hq' & Hs' & Ep & Et & _). split_and!; try done.
    destruct Ho as [Hp Ht]. rewrite E, app_nil_r in Hp, Ht. unfold ordered;
      cbn [sd_queue sd_pending sd_queued sd_sent].
    by rewrite prot_app, tele_app, <- !app_assoc, Ep, Et.
  - unfold flush_step. destruct (sd_pending sd) as [|m pending] eqn:E; [done|].
    pose proof Hs as [Hm Hrest]%Forall_cons.
    destruct (send_agent_message _ _) as [[[]|e] pipe] eqn:Es.
    + split_and!; try done; [|].
      { apply Forall_app_2; [done|]. constructor; [by apply send_valid in Es as [? _]|done]. }
      destruct Ho as [Hp Ht]. rewrite E in Hp, Ht. unfold ordered; cbn [sd_queue sd_pending sd_queued sd_sent].
      by rewrite <- app_assoc.
    + split_and!; try done; [rewrite put_back_eq; by apply returned_ok|by apply ordered_returned].
Qed.

(** Whether the event finds room for a protected message. *)
Definition event_fits (capacity : nat) (e : SenderEvent) sd : bool :=
  match e with
  | ev_queue m => telemetry m || (waiting sd <? capacity)%nat
  | _ => true
  end.

Fixpoint never_full (capacity : nat) (events : list SenderEvent) sd : bool :=
  match events with
  | [] => true
  | e :: rest => event_fits capacity e sd && never_full capacity rest (sender_step sd e)
  end.

Lemma nothing_lost_queued capacity sd m :
  queue_ok capacity (sd_queue sd) -> small m -> nothing_lost capacity sd ->
  event_fits capacity (ev_queue m) sd = true -> nothing_lost capacity (queue_service_message sd m).
Proof.
  intros (Hc & _) Hm [He Hw] Hf. unfold small in Hm. unfold queue_service_message.
  destruct (Z.gtb_spec (len (am_payload m)) kMaximumAgentPayloadBytes); [lia|].
  unfold nothing_lost, waiting in *; cbn [sd_queue sd_pending sd_queued sd_sent event_fits] in *.
  rewrite push_protected, (prot_app (sd_queued sd)), prot_cons, <- He.
  destruct (telemetry m); cbn [app orb] in *; change (prot []) with (@nil AgentMessage) in *.
  - by rewrite app_nil_r.
  - apply Nat.ltb_lt in Hf. unfold waiting in Hf. rewrite push_into_room by (done || lia).
    rewrite <- app_assoc. split; [done|]. rewrite length_app. cbn. lia.
Qed.

Lemma nothing_lost_step capacity sd e :
  sender_ok capacity sd -> nothing_lost capacity sd -> event_fits capacity e sd = true ->
  nothing_lost capacity (sender_step sd e).
Proof.
  intros (Hq & Hs & Hw & Ho) Hn Hf. destruct e as [m| |]; cbn [sender_step].
  - destruct (decide (small m)) as [Hm|Hm]; [by apply nothing_lost_queued|].
    unfold queue_service_message, small in *.
    by destruct (Z.gtb_spec (len (am_payload m)) kMaximumAgentPayloadBytes); [|lia].
  - unfold begin_flush. destruct (sd_pending sd) eqn:E; [|done].
    pose proof (take_pending_spec capacity _ Hq) as Htake. destruct (take_pending _) as [pending q'].
    destruct Htake as (_ & _ & Ep & _ & _). destruct Hn as [He Hl].
    unfold nothing_lost, waiting in *; cbn [sd_queue sd_pending sd_queued sd_sent].
    rewrite E, ?app_nil_r in *. rewrite prot_app, <- app_assoc, Ep. split; [done|].
    rewrite <- length_app, Ep. cbn in Hl. done.
  - unfold flush_step. destruct (sd_pending sd) as [|m pending] eqn:E; [done|].
    destruct Hn as [He Hl]. unfold nothing_lost, waiting in *. rewrite E in He, Hl.
    destruct (send_agent_message _ _) as [[[]|e] pipe]; cbn [sd_queue sd_pending sd_queued sd_sent].
    + rewrite <- app_assoc. split; [done|]. rewrite prot_cons, length_app in Hl. lia.
    + rewrite put_back_eq, returned_room, app_nil_r; [|by destruct Hq as (-> & _)|done].
      rewrite prot_app, <- app_assoc in He. split; [done|]. rewrite length_app. cbn. done.
Qed.
End Order.

(** ** The pipe's ends *)

(** [incoming p] is what a pipe end has still to read, in order; [written p] what was
    written on it. *)
Class PipeLaws (P : Type) `{Pipe P} (incoming written : P -> bytes) := {
  law_read n p :
    let '(r, p') := pipe_read n p in
    match r with
    | Ok data => (length data <= n)%nat /\ incoming p = data ++ incoming p'
    | Err _ => incoming p' = incoming p
    end;
  law_write wire p :
    let '(n, p') := pipe_write wire p in n = len wire -> written p' = written p ++ wire
}.

(** A pipe that stays up: what was written arrives, in pieces of its choosing, and
    every write is taken in full. *)
Class PipeWorks (P : Type) `{Pipe P} (incoming : P -> bytes) := {
  works_read n p :
    (0 < n)%nat -> incoming p <> [] -> exists b data p', pipe_read n p = (Ok (b :: data), p');
  works_write wire p : (pipe_write wire p).1 = len wire
}.

Section Delivery.
Context {P : Type} `{PL : PipeLaws P incoming written}.

Lemma read_loop_delivers `{!PipeWorks P incoming} fuel want p :
  (want <= fuel)%nat -> (want <= length (incoming p))%nat ->
  exists p', read_loop fuel want p = (Ok (take want (incoming p)), p') /\
    incoming p' = drop want (incoming p).
Proof using Type*.
  revert want p. induction fuel as [|fuel IH]; intros want p Hf Hw; destruct want as [|want]; try lia;
    try (exists p; cbn; by rewrite drop_0, take_0).
  cbn [read_loop]. destruct (works_read (S want) p) as (b & data & p1 & E); [lia| |].
  { intros E. rewrite E in Hw. cbn in Hw. lia. }
  pose proof (law_read (S want) p) as HL. rewrite E in HL |- *. destruct HL as [Hl Hs].
  rewrite Hs, length_app in Hw.
  destruct (IH (S want - length (b :: data))%nat p1) as (p2 & E2 & Hs2); [cbn in *; lia|lia|].
  rewrite E2. exists p2. rewrite Hs2, Hs. split.
  - f_equal. by rewrite take_app_ge by done.
  - by rewrite drop_app_ge by done.
Qed.

Lemma read_exact_prefix `{!PipeWorks P incoming} bs rest p :
  incoming p = bs ++ rest ->
  exists p', read_exact (length bs) p = (Ok bs, p') /\ incoming p' = rest.
Proof using Type*.
  intros Hi. destruct (read_loop_delivers (length bs) (length bs) p) as (p' & E & Hp);
    [lia|rewrite Hi, length_app; lia|].
  exists p'. rewrite Hi, take_app_length in E. rewrite Hi, drop_app_length in Hp. done.
Qed.

(** The frame's header, whose length field the receiver reads first. *)
Definition frame_header (m : AgentMessage) : bytes :=
  write_le 4 kAgentMagic ++ write_le 2 kAgentVersion ++ write_le 2 (am_type m) ++
  write_le 4 (len (am_payload m)).

Lemma encode_message_eq m : wf_message m -> encode_agent_message m = frame_header m ++ am_payload m.
Proof.
  intros [Ht Hl]. unfold encode_agent_message, frame_header. rewrite Ht. cbn [negb orb].
  destruct (Z.gtb_spec (len (am_payload m)) kMaximumAgentPayloadBytes); [lia|]. by rewrite <- !app_assoc.
Qed.

Lemma payload_length_at m :
  small m -> read_le_at 4 (frame_header m) 8 = Some (len (am_payload m), 12%nat).
Proof.
  intros Hm. unfold small, kMaximumAgentPayloadBytes, Protocol.kMaxCommandPayload in Hm.
  pose proof (len_nonneg (am_payload m)). unfold frame_header.
  rewrite read_le_at_cursor by (rewrite !length_app, !length_write_le; lia).
  do 3 (rewrite drop_app_ge by (rewrite ?length_write_le; lia); rewrite length_write_le).
  cbn [Nat.sub]. rewrite drop_0, <- (app_nil_r (write_le 4 (len _))), read_le_write by ulia.
  cbn [option_map]. by do 2 f_equal.
Qed.

Lemma receive_sent `{!PipeWorks P incoming} m rest p :
  wf_message m -> incoming p = encode_agent_message m ++ rest ->
  exists p', receive_agent_message p = (Ok m, p') /\ incoming p' = rest.
Proof using Type*.
  intros Hm Hi. rewrite encode_message_eq, <- app_assoc in Hi by done. unfold receive_agent_message.
  destruct (read_exact_prefix _ _ _ Hi) as (p1 & E1 & H1).
  replace (Z.to_nat kAgentHeaderBytes) with (length (frame_header m))
    by (unfold frame_header; rewrite !length_app, !length_write_le; done).
  rewrite E1, payload_length_at by apply Hm. pose proof Hm as [_ Hl].
  destruct (Z.gtb_spec (len (am_payload m)) kMaximumAgentPayloadBytes); [lia|].
  pose proof (decode_encode (A := AgentMessage) m Hm) as Hd.
  change (decode_agent_message (encode_agent_message m) = Some m) in Hd.
  rewrite encode_message_eq in Hd by done.
  destruct (Z.eqb_spec (len (am_payload m)) 0) as [Hz|Hz].
  - apply len_zero in Hz. rewrite Hz in Hd, H1. rewrite Hd. by exists p1.
  - destruct (read_exact_prefix _ _ _ H1) as (p2 & E2 & H2).
    replace (Z.to_nat (len (am_payload m))) with (length (am_payload m)) by (unfold len; lia).
    rewrite E2, Hd. by exists p2.
Qed.

Fixpoint receive_messages (n : nat) (p : P) : result (list AgentMessage) * P :=
  match n with
  | O => (Ok [], p)
  | S n =>
      match receive_agent_message p with
      | (Err e, p) => (Err e, p)
      | (Ok m, p) =>
          match receive_messages n p with
          | (Err e, p) => (Err e, p)
          | (Ok l, p) => (Ok (m :: l), p)
          end
      end
  end.

Lemma receive_all `{!PipeWorks P incoming} l p :
  Forall wf_message l -> incoming p = concat (map encode_agent_message l) ->
  exists p', receive_messages (length l) p = (Ok l, p') /\ incoming p' = [].
Proof using Type*.
  intros Hl. revert p. induction Hl as [|m l Hm _ IH]; intros p Hi; [by exists p|].
  cbn [map concat] in Hi. destruct (receive_sent m _ p Hm Hi) as (p1 & E1 & H1).
  destruct (IH p1 H1) as (p2 & E2 & H2). cbn [length receive_messages]. rewrite E1, E2. by exists p2.
Qed.

(** On a pipe that stays up, what is written is what was sent. *)
Lemma written_is_sent `{!PipeWorks P incoming} events sd :
  written (sd_pipe sd) = concat (map encode_agent_message (sd_sent sd)) ->
  let sd' := sender_run sd events in
  written (sd_pipe sd') = concat (map encode_agent_message (sd_sent sd')).
Proof using Type*.
  revert sd. induction events as [|e events IH]; intros sd Hw; [done|]. apply IH. clear IH.
  destruct e as [m| |]; cbn [sender_step].
  - unfold queue_service_message. by destruct (_ >? _).
  - unfold begin_flush. destruct (sd_pending sd); [|done]. by destruct (take_pending _).
  - unfold flush_step. destruct (sd_pending sd) as [|m pending]; [done|].
    unfold send_agent_message. case_bool_decide as He; [done|].
    pose proof (works_write (encode_agent_message m) (sd_pipe sd)) as Hn.
    pose proof (law_write (encode_agent_message m) (sd_pipe sd)) as HL.
    destruct (pipe_write _ _) as [n p']; cbn [fst] in Hn. subst n. rewrite Z.eqb_refl. cbn [negb].
    cbn [sd_pipe sd_sent]. rewrite (HL eq_refl), Hw, map_app, concat_app. cbn. by rewrite app_nil_r.
Qed.
End Delivery.

Lemma start_ok {P} capacity (pipe : P) : sender_ok capacity (start_sender capacity pipe).
Proof.
  unfold sender_ok, queue_ok, ordered; cbn. split_and!; try constructor; try done; lia.
Qed.

Lemma sender_run_ok {P} `{Pipe P} capacity events (sd : Sender P) :
  sender_ok capacity sd -> sender_ok capacity (sender_run sd events).
Proof.
  revert sd. induction events as [|e events IH]; intros sd Hok; [done|]. by apply IH, sender_step_ok.
Qed.

Lemma sender_run_lossless {P} `{Pipe P} capacity events (sd : Sender P) :
  sender_ok capacity sd -> nothing_lost capacity sd -> never_full capacity events sd = true ->
  nothing_lost capacity (sender_run sd events).
Proof.
  revert sd. induction events as [|e events IH]; intros sd Hok Hn Hf; [done|].
  cbn [never_full] in Hf. apply andb_true_iff in Hf as [He Hf].
  apply IH; [by apply sender_step_ok|by apply nothing_lost_step|done].
Qed.

(** C9. The agent's messages arrive in order, and telemetry displaces none of them.
    After any run of messages queued by any thread and of flushes whose sends may
    fail, what was sent, what is still to be sent and what is queued are, in this
    order, messages that were queued, each once and in the order they were queued,
    among the protected messages and among the telemetry; both queues are bounded.
    Whatever the telemetry, no protected message is missing while fewer than the
    capacity wait.  Over a pipe that stays up, the service receives exactly what was
    sent. *)
Theorem agent_messages_in_order {P} `{PL : PipeLaws P incoming written} capacity (pipe : P) events :
  let sd := sender_run (start_sender capacity pipe) events in
  sublist (prot (sd_sent sd ++ sd_pending sd) ++ aq_protected (sd_queue sd)) (prot (sd_queued sd)) /\
  sublist (tele (sd_sent sd ++ sd_pending sd) ++ aq_telemetry (sd_queue sd)) (tele (sd_queued sd)) /\
  (length (aq_protected (sd_queue sd)) <= capacity)%nat /\
  (length (aq_telemetry (sd_queue sd)) <= kTelemetryCapacity)%nat /\
  (never_full capacity events (start_sender capacity pipe) = true ->
     prot (sd_sent sd ++ sd_pending sd) ++ aq_protected (sd_queue sd) = prot (sd_queued sd)) /\
  (PipeWorks P incoming -> written pipe = [] ->
     forall service, incoming service = written (sd_pipe sd) ->
     exists service', receive_messages (length (sd_sent sd)) service = (Ok (sd_sent sd), service') /\
       incoming service' = []).
Proof.
  intros sd. pose proof (start_ok capacity pipe) as Hstart.
  pose proof (sender_run_ok capacity events _ Hstart) as (Hq & _ & Hw & Hp & Ht). fold sd in Hq, Hw, Hp, Ht.
  destruct Hq as (_ & _ & _ & _ & _ & Lp & Lt). split_and!; try done.
  - intros Hf. apply (sender_run_lossless capacity events _ Hstart); [|done]. split; [done|cbn; lia].
  - intros Hworks Hnil service Hi. apply receive_all; [done|]. rewrite Hi.
    by apply written_is_sent.
Qed.

(** ** Examples *)

(** An end of a pipe that gives up to three bytes at a time. *)
Record ExamplePipe := mkExamplePipe { ep_in : bytes; ep_out : bytes }.

#[export] Instance example_pipe : Pipe ExamplePipe := {|
  pipe_read n p := (Ok (take (Nat.min n 3) (ep_in p)), mkExamplePipe (drop (Nat.min n 3) (ep_in p)) (ep_out p));
  pipe_write wire p := (len wire, mkExamplePipe (ep_in p) (ep_out p ++ wire))
|}.

#[export] Instance example_pipe_laws : PipeLaws ExamplePipe ep_in ep_out.
Proof.
  split.
  - intros n p. cbn. split; [rewrite length_take; lia|by rewrite take_drop].
  - intros wire p. by cbn.
Qed.

#[export] Instance example_pipe_works : PipeWorks ExamplePipe ep_in.
Proof.
  split; [|done]. intros [|n] [i o] Hn Hi; [lia|]. destruct i as [|b i]; [done|]. cbn. by eexists _, _, _.
Qed.

(** An answer, a sample, and a status report queued during the flush. *)
Definition example_events : list SenderEvent :=
  [ev_queue (mkMessage 19 (text "answer")); ev_queue (mkMessage 37 (text "sample")); ev_take; ev_send;
   ev_queue (mkMessage 5 (text "status")); ev_send; ev_take; ev_send].

Definition example_end : ExamplePipe := mkExamplePipe [] [].

Lemma agent_messages_in_order_witness :
  let sd := sender_run (start_sender 2 example_end) example_events in
  never_full 2 example_events (start_sender 2 example_end) = true /\
  sd_sent sd = [mkMessage 19 (text "answer"); mkMessage 37 (text "sample"); mkMessage 5 (text "status")] /\
  prot (sd_sent sd ++ sd_pending sd) ++ aq_protected (sd_queue sd) = prot (sd_queued sd) /\
  exists service', receive_messages (length (sd_sent sd)) (mkExamplePipe (ep_out (sd_pipe sd)) []) =
    (Ok (sd_sent sd), service') /\ ep_in service' = [].
Proof.
  intros sd. assert (never_full 2 example_events (start_sender 2 example_end) = true) as Hf by by vm_compute.
  destruct (agent_messages_in_order 2 example_end example_events) as (_ & _ & _ & _ & Hall & Hreceive).
  split; [exact Hf|]. split; [by vm_compute|]. split; [exact (Hall Hf)|].
  exact (Hreceive example_pipe_works eq_refl (mkExamplePipe (ep_out (sd_pipe sd)) []) eq_refl).
Defined.

(** A failed send puts the rest back in front of what was queued meanwhile; the
    newest message is the one that is dropped when the queue is full. *)
Example example_put_back :
  put_back (mkQueue 2 [mkMessage 5 (text "c")] []) (mkMessage 19 (text "a")) [mkMessage 19 (text "b")] =
    mkQueue 2 [mkMessage 19 (text "a"); mkMessage 19 (text "b")] [].
Proof. by vm_compute. Qed.

End AgentProtocol.
